(* ===== verification/_CoqProject ===== *)
-Q . S2P
Prelude.v
Uint256.v
BigNum.v
Serialize.v
DataStream.v
Hash.v
Transaction.v
Script.v
Canonical.v
Interp.v
InterpFacts.v
InterpSem.v
InterpSim.v
Key.v
SigCheck.v
Templates.v
Verify.v
KeyStore.v
Sign.v
Scrypt.v
Block.v
TxRules.v
TxDB.v
Chain.v
Rewards.v
BlockRules.v
Connect.v
ConnectFacts.v
BlockConnect.v
CheckQueue.v
MemPool.v
Base58.v
BlockTree.v
Checkpoints.v
Kernel.v
Reorganize.v
ReorgFacts.v
BestChain.v
SyncProcess.v
Accept.v
AcceptFacts.v
Process.v
Util.v
Support.v
NetAddr.v
AddrMan.v
AddrManFacts.v
KeyPool.v
KeyPoolFacts.v
Wallet.v
WalletFacts.v
CoinSelect.v
CoinSelectFacts.v
WalletOps.v
WalletOpsFacts.v
CreateTx.v
CreateTxFacts.v
Stake.v
StakeFacts.v
Heap.v
SigOps.v
Miner.v
MinerFacts.v
Work.v
WorkFacts.v
