(* ===== verification/Prelude.v ===== *)
(** * HoboNickels: a verification of the node's core

    HoboNickels is a proof-of-work and proof-of-stake coin derived from Bitcoin and
    PPCoin.  A node keeps a chain of blocks in a transaction index, judges new
    transactions and blocks by the rules of [main.cpp], runs the scripts of the inputs
    they spend ([script.cpp]), keeps loose transactions in a memory pool, the keys of its
    owner in an encrypted store and the owner's transactions in a wallet that spends
    them.  This library translates those parts function
    by function, with the names of the source, and proves what makes them correct.
    Source files are those of [src/src/].

    ** The files, in the order of their dependencies

    - [Prelude]: machine integers ([wrap], [swrap] and the abbreviations [u32],
      [i64] ...), digits in a base, arrays, tactics and the hint database [hbn].
    - [Uint256] ([uint256.h]): [base_uint] as the list of its 32-bit limbs.
    - [BigNum] ([bignum.h]): [CBigNum] over the interface [BNOps] of OpenSSL.
    - [Serialize], [DataStream] ([serialize.h]): codecs with the interface [CodecOk];
      the buffer [CDataStream].
    - [Hash] ([hash.h]): digests over the interface [HashOps].
    - [Transaction] ([main.h]): outpoints, inputs, outputs, transactions.
    - [Script] ([script.h]), [Canonical] ([script.cpp], [key.cpp]): the bytes of
      scripts, strict encodings.
    - [Interp] ([script.cpp], [EvalScript]): the interpreter as a state monad with
      failure; [InterpFacts] (limits), [InterpSem] (meaning of the operations),
      [InterpSim] (independence of the checker's world) hold its theory.
    - [Key] ([key.h], [key.cpp]) over [ECOps]; [SigCheck] ([script.cpp]): signature
      hashes, the signature cache and [CheckSig].
    - [Templates], [Verify] ([script.cpp]): [Solver], destinations, [VerifyScript],
      and what a spend of a standard output needs.
    - [KeyStore] ([keystore.*], [crypter.*]): the plain and the encrypted store, over
      [CipherOps]; the class [CKeyStore] is what clients read from either.
    - [Sign] ([script.cpp]): signing and combining signatures, against [CKeyStore].
    - [Scrypt] ([scrypt.cpp], [pbkdf2.cpp]): the hash of block headers.
    - [Block] ([main.h], [main.cpp]): blocks, merkle trees, block signatures.
    - [TxRules], [BlockRules] ([main.cpp]): [CheckTransaction], [CheckBlock], fees.
    - [TxDB] ([txdb-leveldb.*], [main.h]): the transaction index with its batch; the
      class [TxStore] is what the chain code reads and writes.
    - [Chain], [Rewards] ([main.h], [main.cpp]): block index, targets, proof of work,
      rewards.
    - [Connect] ([main.cpp]): [FetchInputs], [ConnectInputs], [ConnectBlock] and
      their inverses; [ConnectFacts], [BlockConnect] hold the theory.
    - [CheckQueue] ([checkqueue.h]): the pool of script-checking threads.
    - [MemPool] ([main.h], [main.cpp]): the pool, [AcceptToMemoryPool], orphans.
    - [Base58] ([base58.h]): addresses and secrets.
    - [BlockTree] ([main.h]): the map of block index objects, whose [pprev] and [pnext]
      are hashes of entries of one shared map, and [CBlockLocator].
    - [Checkpoints] ([checkpoints.*]): hardened and synchronized checkpoints.
    - [Kernel] ([kernel.*]): stake modifiers, the kernel hash and its search.
    - [Reorganize] ([main.cpp]): the state of the chain, [Reorganize] and
      [SetBestChain]; [ReorgFacts], [BestChain] hold the theory.
    - [SyncProcess] ([checkpoints.cpp]): receiving a synchronized checkpoint, keeping it
      until its block is known, and reorganizing to it.
    - [Accept] ([main.cpp]): [AddToBlockIndex] and [AcceptBlock]; [AcceptFacts] holds the
      theory.
    - [Process] ([main.cpp]): [ProcessBlock], the blocks whose parent is unknown and
      the buffer of blocks received early.
    - [Util] ([util.*]): amounts, hexadecimal, base 64, base 32 and dump texts, wild
      cards; [Support] ([util.*], [mruset.h]): bounded sets, the median filter and the
      adjusted clock, random numbers.
    - [NetAddr] ([netbase.*], [protocol.*]): addresses, their classes and groups.
    - [AddrMan] ([addrman.*]): the tables of new and tried addresses; [AddrManFacts]
      holds the theory.
    - [KeyPool] ([wallet.*], [walletdb.*]): the keys of the wallet, their records and the
      pool of keys in reserve; [KeyPoolFacts] holds the theory.
    - [Wallet] ([wallet.*]): transactions of the wallet with the values they cache, what
      they are worth, the balances and the coins available; [WalletFacts].
    - [CoinSelect] ([wallet.cpp]): the choice of coins; [CoinSelectFacts].
    - [WalletOps] ([wallet.cpp]): what the wallet does with a transaction from a block or
      of its own, the scan of the chain and the repair of the marks; [WalletOpsFacts].
    - [CreateTx] ([wallet.cpp]): [CreateTransaction] and [SendMoney]; [CreateTxFacts].
    - [Stake] ([wallet.cpp], [main.cpp]): the coins loaded for staking, the weight,
      [CreateCoinStake] and [SyncWithWallets]; [StakeFacts].
    - [Heap]: the heaps of the C++ standard library on lists, which order the queue of
      the miner; [SigOps]: bounds of the counters of signature operations.
    - [Miner] ([miner.*], [main.cpp]): [CreateNewBlock], [SignPoSBlock], [CheckStake],
      [CheckWork] and a round of [StakeMiner]; [MinerFacts].
    - [Work] ([rpcmining.cpp]): [getwork], [getworkex], [getblocktemplate] and
      [submitblock], with the blocks they keep on the heap; [WorkFacts].

    ** How code becomes definitions

    A pure function is a function; a method that changes its object returns the
    object; a result that the source reports by [return false], by an exception or
    by a failed [assert] is an [option] or an error type of its own, each file says
    which; what such a call has changed before is kept where a caller sees it (as the
    exceptions of the key pool do, [KeyPool.call]), and otherwise not followed.
    Integers keep the width of their C++ type where they can leave it.  [std::map] and
    [std::set] are [gmap] and [gset], or sorted lists where the order is seen.  Globals
    ([fTestNet], [nBestHeight], [GetAdjustedTime()], the arguments of the command line)
    are arguments, collected in [Connect.Params] for the chain code.  Random choices are
    arguments: sequences, or any value in a step relation.
    Threads are only in [CheckQueue], where a step is a critical section.

    Code that is not in the repository is a class of operations with a class of laws
    that states its documented behaviour: OpenSSL's BIGNUM ([BNOps], [BNLaws]),
    digests ([HashOps]), elliptic curves ([ECOps], [ECLaws]), AES ([CipherOps]),
    libsecp256k1 ([SecpOps]), the block files on disk ([Files], [BlockFiles]), the order
    [std::sort] gives equal elements ([SortOps]) and the order of pointers in a set of
    coins ([OrderOps]).  New keys, random samples, the clock and the resolver of names are
    arguments.  Each class has a toy
    instance that runs ([ZBN], [toy_hash], [toy_ec], ...), on which the witnesses
    evaluate.

    ** What is proved

    - Numbers and bytes: the operators of [base_uint] are arithmetic modulo 2^160 and
      2^256; [CBigNum]'s conversions and the compact form of targets round-trip;
      codecs, the data stream and base 58 lose nothing.
    - Scripts: evaluation ends, keeps its limits, and its operations mean arithmetic
      and an ordered matching of signatures to keys; canonical signatures are exactly
      the strict DER ones; spends of key hashes and script hashes succeed exactly
      under the expected conditions, and what [Sign] produces verifies; the
      signature cache cannot be seen by a script; what a signature commits to.
    - Keys: the encrypted store keeps its invariant and every key survives encryption.
    - Blocks: merkle branches prove membership; the memoised hash; signed blocks check;
      the scrypt code computes the standard's function.
    - Consensus: [CheckTransaction] and [CheckBlock] accept exactly what their rules
      say; targets and rewards stay in their bounds.
    - Chain state: connected inputs exist, are unspent, mature, pay for their
      outputs and have valid scripts; disconnecting a block restores the index;
      script threads do not change the verdict; the batch of [CTxDB] refines a map.
    - The best chain: [SetBestChain] moves the marks [pnext] and the transaction index
      together to the new branch or leaves them where they were, and what it records
      when a postponed block fails; the shortcut of [CheckSync] does not change its
      answer; which blocks [AcceptBlock] takes, and that taking one keeps the tree and
      the marks; the synchronized checkpoint only moves to descendants; the maps of
      orphan blocks agree, and no buffered block is left behind.
    - Proof of stake: which blocks a stake modifier is computed from, and what the search
      for a kernel finds passes the check of the kernel.
    - Pool and threads: no two transactions of the pool spend one output and the
      index of spends is exact; what [AcceptToMemoryPool] admits; orphans stay
      consistent and bounded; the verdict of [CCheckQueue] is the conjunction of all
      checks, under every interleaving.
    - The node's tables: amounts and texts round-trip; the clock offset stays within its
      bound; the tables of addresses agree with each other after every operation.
    - The wallet: keys handed out of the pool differ, and how an index comes to be used
      twice with an empty pool, which a reserved key then throws on and puts back; the balance computed with the values cached is the sum over the spendable
      outputs; the choice of coins returns different spendable coins that reach the
      target, or shows that there are none; a created transaction, with or without coin
      control, pays what was asked from such coins, with signatures that verify and the
      fee its size asks for, and its creation ends, making new keys where the pool asks
      for them; committing it marks its coins spent, until the block of a transaction
      that made one unmarks it, and the repair makes the marks agree with the
      transaction index.  A created coinstake spends ripe coins of one
      key, is signed, and pays a reward that [ConnectInputs] lets pass; and a wallet that
      is asked for its weight first does not stake.
    - New blocks: [CreateNewBlock] ends, whatever the priorities say, with a block whose
      time, target and transactions keep the rules, each transaction valid after those
      before it; what [SignPoSBlock] signs, and when [CheckBlock] refuses it; a solution
      returned to [getwork] is the header that is judged, until a first hash sticks; what
      becomes of the commands when no block can be made; the dependencies a template
      lists; the pointers [getwork] keeps are to blocks that exist.

    ** Fuel

    Loops that are not structural take fuel, and each is shown to have enough, either
    by a theorem on the result or because every round consumes what the fuel counts:
    scripts are scanned with one unit for each byte ([EvalScript_terminates]), the
    bisections of [Rewards] with the logarithm of their interval, merkle trees with
    one unit for each leaf, base 58 with two digits for each byte, the evictions of
    orphans and cached signatures with the size of the set, the processing of buffered
    blocks with two units for each block of the buffer, the filling of the key pool with
    its target size.  The walk that decides whether a transaction is trusted ends because
    its supporting transactions are acyclic ([trusted_enough]); the rounds of
    [CreateTransaction] because the fee grows and is bounded ([create_loop_ok]); its queue
    of supporting transactions because each hash is worked on once
    ([supporting_loop_ends]).  The passes of [ApproximateBestSubset] are counted by the
    source.  [scan_chain] walks along [pnext] and needs one unit for each block.  The queue
    of [CreateNewBlock] gives out each transaction of the pool at most once
    ([fill_block_defined]).

    ** Not modelled, and why

    Sockets, message dispatch, threads other than the check queue, the JSON of RPC and its
    commands other than those of [Work], the windows and start-up are input and output
    around the parts above; the databases other than [CTxDB], the encryption and
    loading of the wallet file are storage.  Of the wallet merging, charity
    payments, groups of addresses, relaying and the manager of several wallets are
    left out; so are the priorities it shows, which no decision uses.  The manifest lists each with
    its reason.  Locks are left out except in [CheckQueue]. *)

From stdpp Require Export base tactics numbers list gmap strings.
From Stdlib Require Export Lia ZArith.

#[export] Set Default Goal Selector "!".

(** ** Scope and machine integers *)

Declare Scope hbn_scope.
Delimit Scope hbn_scope with hbn.
Global Open Scope Z_scope.

(** [wrap w x] is [x] converted to an unsigned integer of [w] bits. *)
Definition wrap (w x : Z) : Z := x mod 2 ^ w.

Abbreviation u8 := (wrap 8).
Abbreviation u16 := (wrap 16).
Abbreviation u32 := (wrap 32).
Abbreviation u64 := (wrap 64).

(** Two's-complement conversion to a signed integer of [w] bits. *)
Definition swrap (w x : Z) : Z := (x + 2 ^ (w - 1)) mod 2 ^ w - 2 ^ (w - 1).

Abbreviation i32 := (swrap 32).
Abbreviation i64 := (swrap 64).

Notation "x .<< n" := (Z.shiftl x n) (at level 35, right associativity) : hbn_scope.
Notation "x .>> n" := (Z.shiftr x n) (at level 35, right associativity) : hbn_scope.
Notation "x .& y" := (Z.land x y) (at level 36, left associativity) : hbn_scope.
Notation "x .| y" := (Z.lor x y) (at level 37, left associativity) : hbn_scope.
Open Scope hbn_scope.

(** ** Automation *)

Create HintDb hbn.

(** Turn every boolean comparison of the context and the goal into the
    proposition it decides. *)
Ltac bool_prop :=
  repeat match goal with
  | H : context [ (_ && _) = true ] |- _ => rewrite andb_true_iff in H
  | H : context [ (_ && _) = false ] |- _ => rewrite andb_false_iff in H
  | H : context [ (_ || _) = true ] |- _ => rewrite orb_true_iff in H
  | H : context [ (_ || _) = false ] |- _ => rewrite orb_false_iff in H
  | H : context [ negb _ = true ] |- _ => rewrite negb_true_iff in H
  | H : context [ negb _ = false ] |- _ => rewrite negb_false_iff in H
  | H : (_ =? _) = true |- _ => apply Z.eqb_eq in H
  | H : (_ =? _) = false |- _ => apply Z.eqb_neq in H
  | H : (_ <? _) = true |- _ => apply Z.ltb_lt in H
  | H : (_ <? _) = false |- _ => apply Z.ltb_ge in H
  | H : (_ <=? _) = true |- _ => apply Z.leb_le in H
  | H : (_ <=? _) = false |- _ => apply Z.leb_gt in H
  | H : bool_decide _ = true |- _ => apply bool_decide_eq_true in H
  | H : bool_decide _ = false |- _ => apply bool_decide_eq_false in H
  end.

(** Case analysis on the scrutinee of the first [if] or [match] of the goal. *)
Ltac case_goal :=
  match goal with
  | |- context [ if ?b then _ else _ ] => destruct b eqn:?
  | |- context [ match ?x with _ => _ end ] => destruct x eqn:?
  end.

(** Case analysis on the scrutinee of an [if] or [match] of hypothesis [H]. *)
Ltac case_hyp H :=
  match type of H with
  | context [ if ?b then _ else _ ] => destruct b eqn:?
  | context [ match ?x with _ => _ end ] => destruct x eqn:?
  end.

(** ** Powers of two and wrapping *)

Lemma pow2_pos (w : Z) : 0 <= w -> 0 < 2 ^ w.
Proof. intros. apply Z.pow_pos_nonneg; lia. Qed.
#[export] Hint Resolve pow2_pos : hbn.

Lemma wrap_range (w x : Z) : 0 <= w -> 0 <= wrap w x < 2 ^ w.
Proof. intros. apply Z.mod_pos_bound. auto with hbn. Qed.

Lemma wrap_small (w x : Z) : 0 <= x < 2 ^ w -> wrap w x = x.
Proof. apply Z.mod_small. Qed.

Lemma wrap_land (w x : Z) : 0 <= w -> wrap w x = Z.land x (Z.ones w).
Proof. intros. unfold wrap. by rewrite Z.land_ones. Qed.

Lemma wrap_testbit (w x n : Z) :
  0 <= w -> Z.testbit (wrap w x) n = (n <? w) && Z.testbit x n.
Proof.
  intros Hw. unfold wrap.
  destruct (Z.ltb_spec n w) as [Hn|Hn]; simpl.
  - destruct (Z.ltb_spec n 0).
    + rewrite !Z.testbit_neg_r by lia. done.
    + by rewrite Z.mod_pow2_bits_low by lia.
  - by rewrite Z.mod_pow2_bits_high by lia.
Qed.

Lemma testbit_above (w x n : Z) :
  0 <= w -> 0 <= x < 2 ^ w -> w <= n -> Z.testbit x n = false.
Proof.
  intros Hw Hx Hn. rewrite <- (wrap_small w x Hx), wrap_testbit by lia.
  destruct (Z.ltb_spec n w); [lia|done].
Qed.

Lemma testbit_bound (w x : Z) :
  0 <= w -> 0 <= x -> (forall n, w <= n -> Z.testbit x n = false) -> x < 2 ^ w.
Proof.
  intros Hw Hx Hb. enough (x = wrap w x) as -> by (apply wrap_range; lia).
  apply Z.bits_inj'. intros n Hn. rewrite wrap_testbit by lia.
  destruct (Z.ltb_spec n w); [done|]. simpl. apply Hb. lia.
Qed.

(** A disjunction of two numbers below [2 ^ w] is below [2 ^ w]. *)
Lemma lor_range (w x y : Z) :
  0 <= w -> 0 <= x < 2 ^ w -> 0 <= y < 2 ^ w -> 0 <= Z.lor x y < 2 ^ w.
Proof.
  intros Hw Hx Hy. split; [apply Z.lor_nonneg; lia|].
  apply testbit_bound; [lia|apply Z.lor_nonneg; lia|].
  intros n Hn. rewrite Z.lor_spec, !(testbit_above w) by lia. done.
Qed.

(** Joining a low part below [2 ^ w] with a high part shifted by [w] adds them. *)
Lemma lor_shiftl_add (w x y : Z) :
  0 <= w -> 0 <= x < 2 ^ w -> Z.lor x (Z.shiftl y w) = x + 2 ^ w * y.
Proof.
  intros Hw Hx. assert (Z.land x (Z.shiftl y w) = 0) as Hand.
  { apply Z.bits_inj'. intros n Hn. rewrite Z.land_spec, Z.shiftl_spec, Z.bits_0 by lia.
    destruct (decide (n < w)); [rewrite (Z.testbit_neg_r _ (n - w)) by lia; apply andb_false_r|].
    rewrite (testbit_above w) by lia. done. }
  rewrite <- Z.lxor_lor, <- Z.add_nocarry_lxor, Z.shiftl_mul_pow2 by done. ring.
Qed.

(** ** Digits in base [B], least significant first

    Bytes of an integer ([B = 2 ^ 8]) and limbs of a wide integer
    ([B = 2 ^ 32]) are both digit lists. *)

Section digits.
Context (B : Z) (HB : 1 < B).

Definition is_digit (d : Z) : Prop := 0 <= d < B.

Fixpoint digits_val (l : list Z) : Z :=
  match l with
  | [] => 0
  | d :: l' => d + B * digits_val l'
  end.

Fixpoint to_digits (n : nat) (z : Z) : list Z :=
  match n with
  | O => []
  | S n' => z mod B :: to_digits n' (z / B)
  end.

Lemma digits_val_nonneg l : Forall is_digit l -> 0 <= digits_val l.
Proof using HB. induction 1 as [|d l Hd _ IH]; simpl; [lia|]. red in Hd. nia. Qed.

Lemma digits_val_bound l :
  Forall is_digit l -> 0 <= digits_val l < B ^ Z.of_nat (length l).
Proof using HB.
  induction 1 as [|d l Hd _ IH]; [done|]. cbn [length digits_val].
  red in Hd. rewrite Nat2Z.inj_succ, Z.pow_succ_r by lia. nia.
Qed.

Lemma digits_val_app l1 l2 :
  digits_val (l1 ++ l2) = digits_val l1 + B ^ Z.of_nat (length l1) * digits_val l2.
Proof using.
  induction l1 as [|d l1 IH]; [simpl; lia|]. cbn [app digits_val length].
  rewrite IH, Nat2Z.inj_succ, Z.pow_succ_r by lia. ring.
Qed.

Lemma digits_val_replicate_0 n : digits_val (replicate n 0) = 0.
Proof using. induction n as [|n IH]; simpl; lia. Qed.

Lemma length_to_digits n z : length (to_digits n z) = n.
Proof using. revert z. induction n; intros; simpl; auto. Qed.

Lemma to_digits_digits n z : Forall is_digit (to_digits n z).
Proof using HB.
  revert z. induction n as [|n IH]; intros z; simpl; constructor; auto.
  apply Z.mod_pos_bound. lia.
Qed.

Lemma digits_val_to_digits n z : digits_val (to_digits n z) = z mod B ^ Z.of_nat n.
Proof using HB.
  revert z. induction n as [|n IH]; intros z.
  - simpl. by rewrite Z.mod_1_r.
  - cbn [to_digits digits_val]. rewrite IH, Nat2Z.inj_succ, Z.pow_succ_r by lia.
    rewrite Z.rem_mul_r by lia. done.
Qed.

Lemma to_digits_digits_val l :
  Forall is_digit l -> to_digits (length l) (digits_val l) = l.
Proof using HB.
  induction 1 as [|d l Hd _ IH]; [done|]. cbn [length to_digits digits_val].
  red in Hd. rewrite Z.add_comm, Z.mul_comm, Z.div_add_l, Z.div_small by lia.
  rewrite Z.add_comm, Z.mod_add, Z.mod_small by lia. by rewrite Z.add_0_r, IH.
Qed.

Lemma digits_val_inj l1 l2 :
  Forall is_digit l1 -> Forall is_digit l2 -> length l1 = length l2 ->
  digits_val l1 = digits_val l2 -> l1 = l2.
Proof using HB.
  intros H1 H2 Hl Hv.
  rewrite <- (to_digits_digits_val l1), <- (to_digits_digits_val l2) by done.
  by rewrite Hl, Hv.
Qed.

(** Digit [i] of a number. *)
Lemma digits_val_lookup l i d :
  Forall is_digit l -> l !! i = Some d ->
  d = (digits_val l / B ^ Z.of_nat i) mod B.
Proof using HB.
  intros Hl. revert i. induction Hl as [|d' l Hd Hl IH]; [done|].
  intros [|i] Hi; simpl in Hi; cbn [digits_val]; red in Hd.
  - simplify_eq. rewrite Z.div_1_r, Z.mul_comm, Z.mod_add, Z.mod_small by lia. done.
  - rewrite (IH _ Hi), Nat2Z.inj_succ, Z.pow_succ_r by lia.
    rewrite <- Z.div_div by (try apply Z.pow_nonzero; lia).
    f_equal. f_equal. rewrite Z.mul_comm, Z.div_add, Z.div_small by lia. lia.
Qed.
End digits.

Arguments digits_val : simpl never.
Arguments to_digits : simpl never.

Lemma digits_val_nil B : digits_val B [] = 0.
Proof. done. Qed.

Lemma digits_val_cons B d l : digits_val B (d :: l) = d + B * digits_val B l.
Proof. done. Qed.

Lemma to_digits_S B n z : to_digits B (S n) z = z mod B :: to_digits B n (z / B).
Proof. done. Qed.

(** ** Bytes *)

Abbreviation is_byte := (is_digit 256).
Abbreviation bytes_ok := (Forall (is_digit 256)).

(** Bytes of an integer in memory on a little-endian machine. *)
Abbreviation le_bytes := (to_digits 256).
Abbreviation le_val := (digits_val 256).

#[export] Instance is_digit_dec B d : Decision (is_digit B d).
Proof. unfold is_digit. apply _. Defined.

(** ** Arrays of integers: [nthZ a i] reads [a[i]], 0 when out of range *)

Definition nthZ (l : list Z) (i : nat) : Z := default 0 (l !! i).

Lemma nthZ_digit B l i : 0 < B -> Forall (is_digit B) l -> is_digit B (nthZ l i).
Proof.
  intros HB Hl. unfold nthZ. destruct (l !! i) as [d|] eqn:E; simpl.
  - by eapply (Forall_lookup_1 _ _ _ _ Hl).
  - split; lia.
Qed.

Lemma nthZ_lookup l i d : l !! i = Some d -> nthZ l i = d.
Proof. unfold nthZ. by intros ->. Qed.

Lemma nthZ_ge l i : (length l <= i)%nat -> nthZ l i = 0.
Proof. intros. unfold nthZ. by rewrite lookup_ge_None_2. Qed.

Lemma nthZ_app_r l1 l2 i : nthZ (l1 ++ l2) (length l1 + i) = nthZ l2 i.
Proof. unfold nthZ. by rewrite lookup_app_r, Nat.add_comm, Nat.add_sub by lia. Qed.

Lemma lookup_nthZ l i : (i < length l)%nat -> l !! i = Some (nthZ l i).
Proof.
  intros H. unfold nthZ. destruct (lookup_lt_is_Some_2 l i H) as [d ->]. done.
Qed.

Lemma nthZ_insert l i j v :
  (i < length l)%nat -> nthZ (<[i:=v]> l) j = if decide (i = j) then v else nthZ l j.
Proof.
  intros. unfold nthZ. case_decide as Hij.
  - subst. by rewrite list_lookup_insert_eq.
  - by rewrite list_lookup_insert_ne.
Qed.

Lemma nthZ_replicate_0 n i : nthZ (replicate n 0) i = 0.
Proof.
  unfold nthZ. destruct (replicate n 0 !! i) eqn:E; [|done].
  by apply lookup_replicate in E as [-> _].
Qed.

(** Bit [n] of a digit list in base [2 ^ w]. *)
Lemma add_shift_testbit (w d v n : Z) :
  0 <= w -> 0 <= d < 2 ^ w -> 0 <= n ->
  Z.testbit (d + 2 ^ w * v) n = if n <? w then Z.testbit d n else Z.testbit v (n - w).
Proof.
  intros Hw Hd Hn. rewrite (Z.mul_comm (2 ^ w)). destruct (Z.ltb_spec n w).
  - rewrite <- (Z.mod_pow2_bits_low (d + v * 2 ^ w) w) by lia.
    rewrite Z.mod_add by lia. by rewrite Z.mod_small by lia.
  - replace n with (n - w + w) at 1 by lia.
    rewrite <- Z.div_pow2_bits, Z.div_add, Z.div_small by lia. done.
Qed.

Lemma digits_testbit (w : Z) (l : list Z) (n : Z) :
  0 < w -> Forall (is_digit (2 ^ w)) l -> 0 <= n ->
  Z.testbit (digits_val (2 ^ w) l) n = Z.testbit (nthZ l (Z.to_nat (n / w))) (n mod w).
Proof.
  intros Hw Hl. revert n. induction Hl as [|d l Hd Hl IH]; intros n Hn.
  - unfold nthZ. rewrite lookup_nil. simpl. by rewrite digits_val_nil, !Z.bits_0.
  - rewrite digits_val_cons, add_shift_testbit by (done || lia).
    destruct (Z.ltb_spec n w).
    + by rewrite Z.div_small, Z.mod_small by lia.
    + rewrite IH by lia. replace n with (n - w + 1 * w) at 3 4 by lia.
      rewrite Z.div_add, Z.mod_add by lia.
      rewrite Z2Nat.inj_add, Nat.add_1_r by (try apply Z.div_pos; lia). done.
Qed.

(** ** Lists *)

Lemma last_app_one {A} (l : list A) x : last (l ++ [x]) = Some x.
Proof. apply last_snoc. Qed.

Lemma Forall_insert_default {A} (P : A -> Prop) (l : list A) i x :
  Forall P l -> P x -> Forall P (<[i:=x]> l).
Proof. intros. by apply Forall_insert. Qed.
#[export] Hint Resolve Forall_insert_default : hbn.
