(* ===== verification/Uint256.v ===== *)
(** * [uint256.h]: the fixed-width unsigned integers

    [base_uint<BITS>] is an array [pn] of [WIDTH = BITS/32] limbs of 32 bits,
    least significant first; here [pn] is the list of its limbs and [WIDTH] a
    section variable (5 for [uint160], 8 for [uint256]).  Each operator of the
    class is one definition; [uval] is the number an array stands for, and the
    theorems say what every operator computes on it. *)

From S2P Require Import Prelude.

(** The number of limbs [pn] stands for. *)
Definition uval (pn : list Z) : Z := digits_val (2 ^ 32) pn.

Definition limbs_ok (pn : list Z) : Prop := Forall (is_digit (2 ^ 32)) pn.

(** [pn[i] |= v] *)
Definition or_at (pn : list Z) (i : nat) (v : Z) : list Z :=
  <[i := nthZ pn i .| v]> pn.

(** ** Logical operators *)

Definition op_not (pn : list Z) : bool := forallb (fun x => x =? 0) pn.

Definition op_compl (pn : list Z) : list Z := map (fun x => u32 (Z.lnot x)) pn.

Definition xor_assign (pn b : list Z) : list Z := zip_with Z.lxor pn b.
Definition and_assign (pn b : list Z) : list Z := zip_with Z.land pn b.
Definition or_assign (pn b : list Z) : list Z := zip_with Z.lor pn b.

Definition xor_assign64 (pn : list Z) (b : Z) : list Z :=
  match pn with
  | p0 :: p1 :: rest => Z.lxor p0 (u32 b) :: Z.lxor p1 (u32 (b .>> 32)) :: rest
  | _ => pn
  end.

Definition or_assign64 (pn : list Z) (b : Z) : list Z :=
  match pn with
  | p0 :: p1 :: rest => (p0 .| u32 b) :: (p1 .| u32 (b .>> 32)) :: rest
  | _ => pn
  end.

(** ** Increment, decrement, negation *)

(** [while (++pn[i] == 0 && i < WIDTH-1) i++;] *)
Fixpoint pre_inc (pn : list Z) : list Z :=
  match pn with
  | [] => []
  | x :: rest =>
      let x' := u32 (x + 1) in
      if x' =? 0 then x' :: pre_inc rest else x' :: rest
  end.

(** [while (--pn[i] == -1 && i < WIDTH-1) i++;] where the comparison is made on
    unsigned integers. *)
Fixpoint pre_dec (pn : list Z) : list Z :=
  match pn with
  | [] => []
  | x :: rest =>
      let x' := u32 (x - 1) in
      if x' =? u32 (-1) then x' :: pre_dec rest else x' :: rest
  end.

(** The postfix operators return the old value and update the object. *)
Definition post_inc (pn : list Z) : list Z * list Z := (pn, pre_inc pn).
Definition post_dec (pn : list Z) : list Z * list Z := (pn, pre_dec pn).

Definition op_neg (pn : list Z) : list Z := snd (post_inc (op_compl pn)).

(** ** Addition and subtraction *)

Fixpoint add_loop (carry : Z) (pn b : list Z) : list Z :=
  match pn, b with
  | x :: pn', y :: b' =>
      let n := u64 (carry + x + y) in
      (n .& 0xffffffff) :: add_loop (n .>> 32) pn' b'
  | _, _ => []
  end.

Definition add_assign (pn b : list Z) : list Z := add_loop 0 pn b.
Definition sub_assign (pn b : list Z) : list Z := add_assign pn (op_neg b).

(** ** Comparisons: from the most significant limb down *)

Fixpoint cmp_scan (on_lt on_gt at_end : bool) (ra rb : list Z) : bool :=
  match ra, rb with
  | x :: ra', y :: rb' =>
      if x <? y then on_lt else if y <? x then on_gt
      else cmp_scan on_lt on_gt at_end ra' rb'
  | _, _ => at_end
  end.

Definition op_lt (a b : list Z) : bool := cmp_scan true false false (rev a) (rev b).
Definition op_le (a b : list Z) : bool := cmp_scan true false true (rev a) (rev b).
Definition op_gt (a b : list Z) : bool := cmp_scan false true false (rev a) (rev b).
Definition op_ge (a b : list Z) : bool := cmp_scan false true true (rev a) (rev b).

Fixpoint op_eq (a b : list Z) : bool :=
  match a, b with
  | x :: a', y :: b' => if negb (x =? y) then false else op_eq a' b'
  | _, _ => true
  end.

Definition op_ne (a b : list Z) : bool := negb (op_eq a b).

Definition op_eq64 (a : list Z) (b : Z) : bool :=
  match a with
  | p0 :: p1 :: rest =>
      if negb (p0 =? u32 b) then false
      else if negb (p1 =? u32 (b .>> 32)) then false
      else forallb (fun x => x =? 0) rest
  | _ => true
  end.

Definition op_ne64 (a : list Z) (b : Z) : bool := negb (op_eq64 a b).

(** ** Bytes in memory *)

(** [(unsigned char* )pn]: the limbs laid out little-endian. *)
Definition limb_bytes (pn : list Z) : list Z := mjoin (le_bytes 4 <$> pn).

(** The limbs of [4 * n] bytes of memory. *)
Fixpoint limbs_of_bytes (n : nat) (bs : list Z) : list Z :=
  match n with
  | O => []
  | S n' => le_val (take 4 bs) :: limbs_of_bytes n' (drop 4 bs)
  end.

Definition getBytes (pn : list Z) : list Z := limb_bytes pn.
Definition usize (pn : list Z) : Z := 4 * Z.of_nat (length pn).

(** [Get64(n)]; an index out of range is a read outside the object. *)
Definition Get64 (pn : list Z) (n : nat) : option Z :=
  lo ← pn !! (2 * n)%nat;
  hi ← pn !! (2 * n + 1)%nat;
  Some (lo .| (hi .<< 32)).

Section base_uint.
Context (WIDTH : nat).

Definition uint_ok (pn : list Z) : Prop := length pn = WIDTH /\ limbs_ok pn.

(** [operator=(uint64_t b)], and the constructor from [uint64_t] *)
Definition assign64 (b : Z) : list Z :=
  u32 b :: u32 (b .>> 32) :: replicate (WIDTH - 2) 0.

(** The default constructor *)
Definition uint_zero : list Z := replicate WIDTH 0.

(** The constructor from a byte vector: [memcpy] when the size is right, else 0 *)
Definition uint_of_vch (vch : list Z) : list Z :=
  if Z.of_nat (length vch) =? 4 * Z.of_nat WIDTH then limbs_of_bytes WIDTH vch
  else assign64 0.

Definition add_assign64 (pn : list Z) (b64 : Z) : list Z :=
  add_assign pn (assign64 b64).

Definition sub_assign64 (pn : list Z) (b64 : Z) : list Z :=
  add_assign pn (op_neg (assign64 b64)).

(** ** Shifts: one pass over the limbs of the old value [a] *)

Definition shl_step (a : list Z) (k shift : Z) (pn : list Z) (i : nat) : list Z :=
  let pn1 :=
    if (Z.of_nat i + k + 1 <? Z.of_nat WIDTH) && negb (shift =? 0)
    then or_at pn (Z.to_nat (Z.of_nat i + k + 1)) (nthZ a i .>> (32 - shift)) else pn in
  if Z.of_nat i + k <? Z.of_nat WIDTH
  then or_at pn1 (Z.to_nat (Z.of_nat i + k)) (u32 (nthZ a i .<< shift)) else pn1.

Definition shl_assign (pn : list Z) (shift : Z) : list Z :=
  let a := pn in
  let k := shift / 32 in
  let shift := shift mod 32 in
  foldl (shl_step a k shift) (replicate WIDTH 0) (seq 0 WIDTH).

Definition shr_step (a : list Z) (k shift : Z) (pn : list Z) (i : nat) : list Z :=
  let pn1 :=
    if (0 <=? Z.of_nat i - k - 1) && negb (shift =? 0)
    then or_at pn (Z.to_nat (Z.of_nat i - k - 1)) (u32 (nthZ a i .<< (32 - shift))) else pn in
  if 0 <=? Z.of_nat i - k
  then or_at pn1 (Z.to_nat (Z.of_nat i - k)) (nthZ a i .>> shift) else pn1.

Definition shr_assign (pn : list Z) (shift : Z) : list Z :=
  let a := pn in
  let k := shift / 32 in
  let shift := shift mod 32 in
  foldl (shr_step a k shift) (replicate WIDTH 0) (seq 0 WIDTH).

(** ** Hexadecimal text: strings are lists of character codes *)

(** [sprintf("%x")] of one digit *)
Definition hexchar (d : Z) : Z := if d <? 10 then 48 + d else 87 + d.

(** [sprintf("%02x")] of one byte *)
Definition hex02 (b : Z) : list Z := [hexchar (b / 16); hexchar (b mod 16)].

Definition GetHex (pn : list Z) : list Z := mjoin (hex02 <$> rev (limb_bytes pn)).
Definition ToString (pn : list Z) : list Z := GetHex pn.

Definition isspace (c : Z) : bool := (c =? 32) || ((9 <=? c) && (c <=? 13)).
Definition tolower (c : Z) : Z := if (65 <=? c) && (c <=? 90) then c + 32 else c.

(** The table [phexdigit] of [SetHex] *)
Definition phexdigit (c : Z) : Z :=
  if (48 <=? c) && (c <=? 57) then c - 48
  else if (65 <=? c) && (c <=? 70) then c - 55
  else if (97 <=? c) && (c <=? 102) then c - 87
  else 0.

(** [while (isspace( *psz)) psz++;] *)
Fixpoint skip_spaces (psz : list Z) : list Z :=
  match psz with
  | c :: rest => if isspace c then skip_spaces rest else psz
  | [] => []
  end.

(** [if (psz[0] == '0' && tolower(psz[1]) == 'x') psz += 2;] *)
Definition skip_0x (psz : list Z) : list Z :=
  match psz with
  | c0 :: c1 :: rest => if (c0 =? 48) && (tolower c1 =? 120) then rest else psz
  | _ => psz
  end.

(** [while (phexdigit[(unsigned char)*psz] || *psz == '0') psz++;] *)
Fixpoint hex_prefix (psz : list Z) : list Z :=
  match psz with
  | c :: rest =>
      if negb (phexdigit c =? 0) || (c =? 48) then c :: hex_prefix rest else []
  | [] => []
  end.

(** The writing loop: [rdigits] holds the digits from the last one back to
    [pbegin], [room] counts the bytes between [p1] and [pend]; the result is
    what is written from [p1] on. *)
Fixpoint hex_write (room : nat) (rdigits : list Z) : list Z :=
  match room, rdigits with
  | O, _ => []
  | _, [] => []
  | S room', c0 :: rest =>
      match rest with
      | [] => [phexdigit c0]
      | c1 :: rest' => (phexdigit c0 .| (phexdigit c1 .<< 4)) :: hex_write room' rest'
      end
  end.

(** [SetHex]: the bytes written over a zeroed array *)
Definition SetHex (psz : list Z) : list Z :=
  let digits := hex_prefix (skip_0x (skip_spaces psz)) in
  let written := hex_write (4 * WIDTH) (rev digits) in
  limbs_of_bytes WIDTH (written ++ replicate (4 * WIDTH - length written) 0).

(** ** Serialization: the raw bytes of the array *)

Definition Serialize_uint (pn : list Z) : list Z := limb_bytes pn.

Definition Unserialize_uint (s : list Z) : option (list Z * list Z) :=
  if Z.of_nat (length s) <? 4 * Z.of_nat WIDTH then None
  else Some (limbs_of_bytes WIDTH (take (4 * WIDTH) s), drop (4 * WIDTH) s).

End base_uint.

(** [uint160] and [uint256] *)
Abbreviation WIDTH160 := 5%nat.
Abbreviation WIDTH256 := 8%nat.

Definition zero256 : list Z := assign64 WIDTH256 0.

(** ** Lemmas: values of limb arrays *)

Lemma uval_bound pn :
  limbs_ok pn -> 0 <= uval pn < 2 ^ (32 * Z.of_nat (length pn)).
Proof.
  intros H. rewrite Z.pow_mul_r by lia. by apply digits_val_bound.
Qed.

Lemma uval_cons x pn : uval (x :: pn) = x + 2 ^ 32 * uval pn.
Proof. done. Qed.

Lemma uval_nil : uval [] = 0.
Proof. done. Qed.

Lemma uval_app a b : uval (a ++ b) = uval a + 2 ^ (32 * Z.of_nat (length a)) * uval b.
Proof. unfold uval. rewrite digits_val_app, Z.pow_mul_r by lia. done. Qed.

(** One more limb multiplies the modulus by [2 ^ 32]. *)
Lemma width_succ (n : nat) :
  2 ^ (32 * Z.of_nat (S n)) = 2 ^ 32 * 2 ^ (32 * Z.of_nat n).
Proof. rewrite <- Z.pow_add_r by lia. f_equal. lia. Qed.

(** [(x + B * y) mod (B * C)] for a digit [x] splits digit-wise. *)
Lemma mod_digit_split (B C x y : Z) :
  0 < C -> 0 <= x < B -> (x + B * y) mod (B * C) = x + B * (y mod C).
Proof.
  intros HC Hx. rewrite Z.rem_mul_r by lia.
  rewrite (Z.mul_comm B y), Z.mod_add, Z.mod_small by lia.
  rewrite Z.div_add, Z.div_small by lia. done.
Qed.

Lemma limbs_ok_cons x pn : limbs_ok (x :: pn) <-> (0 <= x < 2 ^ 32) /\ limbs_ok pn.
Proof. unfold limbs_ok. by rewrite Forall_cons. Qed.

Lemma u32_digit x : is_digit (2 ^ 32) (u32 x).
Proof. apply wrap_range. lia. Qed.
#[export] Hint Resolve u32_digit : hbn.

(** ** Increment, decrement, complement *)

Lemma length_pre_inc pn : length (pre_inc pn) = length pn.
Proof. induction pn as [|x pn IH]; simpl; [done|]. case_goal; simpl; auto. Qed.

Lemma length_pre_dec pn : length (pre_dec pn) = length pn.
Proof. induction pn as [|x pn IH]; simpl; [done|]. case_goal; simpl; auto. Qed.

Lemma pre_inc_ok pn : limbs_ok pn -> limbs_ok (pre_inc pn).
Proof.
  induction 1 as [|x pn Hx Hpn IH]; simpl; [constructor|].
  case_goal; constructor; auto with hbn.
Qed.

Lemma pre_dec_ok pn : limbs_ok pn -> limbs_ok (pre_dec pn).
Proof.
  induction 1 as [|x pn Hx Hpn IH]; simpl; [constructor|].
  case_goal; constructor; auto with hbn.
Qed.

Lemma uval_pre_inc pn :
  limbs_ok pn ->
  uval (pre_inc pn) = (uval pn + 1) mod 2 ^ (32 * Z.of_nat (length pn)).
Proof.
  induction pn as [|x pn IH]; intros Hok; [done|].
  apply limbs_ok_cons in Hok as [Hx Hpn]. pose proof (uval_bound pn Hpn) as Hb.
  cbn [length pre_inc]. rewrite width_succ, uval_cons. unfold wrap.
  destruct (decide (x = 2 ^ 32 - 1)) as [->|Hne].
  - replace (2 ^ 32 - 1 + 1) with (2 ^ 32) by lia. rewrite Z.mod_same by lia. cbv zeta.
    rewrite Z.eqb_refl, uval_cons, IH by done.
    replace (2 ^ 32 - 1 + 2 ^ 32 * uval pn + 1) with (0 + 2 ^ 32 * (uval pn + 1)) by ring.
    by rewrite mod_digit_split by lia.
  - rewrite Z.mod_small by lia. destruct (Z.eqb_spec (x + 1) 0); [lia|].
    rewrite uval_cons, Z.mod_small; nia.
Qed.

Lemma uval_pre_dec pn :
  limbs_ok pn ->
  uval (pre_dec pn) = (uval pn - 1) mod 2 ^ (32 * Z.of_nat (length pn)).
Proof.
  induction pn as [|x pn IH]; intros Hok; [done|].
  apply limbs_ok_cons in Hok as [Hx Hpn]. pose proof (uval_bound pn Hpn) as Hb.
  cbn [length pre_dec]. rewrite width_succ, uval_cons. unfold wrap.
  change (-1 mod 2 ^ 32) with (2 ^ 32 - 1).
  destruct (decide (x = 0)) as [->|Hne].
  - change ((0 - 1) mod 2 ^ 32) with (2 ^ 32 - 1). cbv zeta.
    rewrite Z.eqb_refl, uval_cons, IH by done.
    replace (0 + 2 ^ 32 * uval pn - 1) with (2 ^ 32 - 1 + 2 ^ 32 * (uval pn - 1)) by ring.
    by rewrite mod_digit_split by lia.
  - rewrite Z.mod_small by lia. destruct (Z.eqb_spec (x - 1) (2 ^ 32 - 1)); [lia|].
    rewrite uval_cons, Z.mod_small; nia.
Qed.

Lemma u32_lnot x : 0 <= x < 2 ^ 32 -> u32 (Z.lnot x) = 2 ^ 32 - 1 - x.
Proof.
  intros Hx. unfold wrap. rewrite <- (Z.mod_add _ 1) by lia.
  rewrite Z.mod_small; unfold Z.lnot; lia.
Qed.

Lemma op_compl_ok pn : limbs_ok pn -> limbs_ok (op_compl pn).
Proof. intros _. unfold op_compl. induction pn; constructor; auto with hbn. Qed.

Lemma uval_op_compl pn :
  limbs_ok pn -> uval (op_compl pn) = 2 ^ (32 * Z.of_nat (length pn)) - 1 - uval pn.
Proof.
  induction pn as [|x pn IH]; intros Hok; [done|].
  apply limbs_ok_cons in Hok as [Hx Hpn]. cbn [length].
  change (op_compl (x :: pn)) with (u32 (Z.lnot x) :: op_compl pn).
  rewrite width_succ, !uval_cons, IH, u32_lnot by done. lia.
Qed.

Lemma length_op_neg pn : length (op_neg pn) = length pn.
Proof. unfold op_neg. simpl. rewrite length_pre_inc. apply length_map. Qed.

Lemma op_neg_ok pn : limbs_ok pn -> limbs_ok (op_neg pn).
Proof. intros. by apply pre_inc_ok, op_compl_ok. Qed.

Lemma uval_op_neg pn :
  limbs_ok pn -> uval (op_neg pn) = (- uval pn) mod 2 ^ (32 * Z.of_nat (length pn)).
Proof.
  intros Hok. unfold op_neg. simpl snd.
  rewrite uval_pre_inc by (by apply op_compl_ok). rewrite uval_op_compl by done.
  unfold op_compl at 1. rewrite length_map. set (M := 2 ^ _).
  replace (M - 1 - uval pn + 1) with (- uval pn + 1 * M) by ring.
  apply Z.mod_add. subst M. pose proof (pow2_pos (32 * Z.of_nat (length pn))). lia.
Qed.

(** ** Addition *)

Lemma length_add_loop c a b : length a = length b -> length (add_loop c a b) = length a.
Proof. revert c b. induction a as [|x a IH]; intros c [|y b] [=]; simpl; auto. Qed.

Lemma add_loop_ok c a b : limbs_ok (add_loop c a b).
Proof.
  revert c b. induction a as [|x a IH]; intros c [|y b]; simpl; try constructor.
  - change 0xffffffff with (Z.ones 32). rewrite Z.land_ones by lia.
    apply Z.mod_pos_bound. lia.
  - apply IH.
Qed.

Lemma uval_add_loop c a b :
  limbs_ok a -> limbs_ok b -> length a = length b -> 0 <= c <= 1 ->
  uval (add_loop c a b) = (c + uval a + uval b) mod 2 ^ (32 * Z.of_nat (length a)).
Proof.
  revert c b. induction a as [|x a IH]; intros c [|y b] Ha Hb Hl Hc; try done.
  - simpl. by rewrite Z.mod_1_r.
  - apply limbs_ok_cons in Ha as [Hx Ha]. apply limbs_ok_cons in Hb as [Hy Hb].
    simpl in Hl. injection Hl as Hl. cbn [add_loop length].
    rewrite (wrap_small 64) by lia. change 0xffffffff with (Z.ones 32).
    rewrite Z.land_ones, Z.shiftr_div_pow2 by lia.
    rewrite width_succ, !uval_cons, IH by (done || (split; [apply Z.div_pos; lia|
      apply Z.lt_succ_r, Z.div_lt_upper_bound; lia])).
    rewrite <- mod_digit_split by (try apply Z.mod_pos_bound; auto with hbn lia).
    f_equal. pose proof (Z.div_mod (c + x + y) (2 ^ 32)). lia.
Qed.

Lemma length_add_assign a b : length a = length b -> length (add_assign a b) = length a.
Proof. apply length_add_loop. Qed.

(** ** Comparison *)

Lemma uval_snoc_lt a b x y :
  limbs_ok a -> limbs_ok b -> length a = length b -> x < y ->
  uval (a ++ [x]) < uval (b ++ [y]).
Proof.
  intros Ha Hb Hl Hxy. rewrite !uval_app, !uval_cons, uval_nil, <- Hl.
  pose proof (uval_bound a Ha). pose proof (uval_bound b Hb) as Hb'.
  rewrite <- Hl in Hb'. nia.
Qed.

Lemma cmp_scan_spec on_lt on_gt at_end a b :
  limbs_ok a -> limbs_ok b -> length a = length b ->
  cmp_scan on_lt on_gt at_end (rev a) (rev b) =
  if uval a <? uval b then on_lt else if uval b <? uval a then on_gt else at_end.
Proof.
  revert b. induction a as [|x a IH] using rev_ind; intros b Ha Hb Hl.
  - destruct b; [done|discriminate].
  - destruct b as [|y b _] using rev_ind;
      [rewrite length_app in Hl; simpl in Hl; lia|].
    rewrite !length_app in Hl. simpl in Hl.
    apply Forall_app in Ha as [Ha _]. apply Forall_app in Hb as [Hb _].
    assert (length a = length b) by lia. rewrite !rev_unit. simpl cmp_scan.
    destruct (Z.ltb_spec x y) as [Hxy|Hxy].
    { pose proof (uval_snoc_lt a b x y Ha Hb ltac:(lia) Hxy). destruct (Z.ltb_spec (uval (a ++ [x])) (uval (b ++ [y])));
        [done|lia]. }
    destruct (Z.ltb_spec y x) as [Hyx|Hyx].
    { pose proof (uval_snoc_lt b a y x Hb Ha ltac:(lia) Hyx).
      destruct (Z.ltb_spec (uval (a ++ [x])) (uval (b ++ [y]))); [lia|].
      destruct (Z.ltb_spec (uval (b ++ [y])) (uval (a ++ [x]))); [done|lia]. }
    assert (x = y) as -> by lia. rewrite IH, !uval_app by done.
    replace (length a) with (length b). rewrite !uval_cons, uval_nil.
    set (t := 2 ^ (32 * Z.of_nat (length b)) * _).
    destruct (Z.ltb_spec (uval a) (uval b)), (Z.ltb_spec (uval a + t) (uval b + t)); try lia;
      [done|].
    destruct (Z.ltb_spec (uval b) (uval a)), (Z.ltb_spec (uval b + t) (uval a + t)); try lia; done.
Qed.

Lemma op_eq_spec a b : length a = length b -> op_eq a b = bool_decide (a = b).
Proof.
  revert b. induction a as [|x a IH]; intros [|y b] Hl; try discriminate Hl; [done|].
  injection Hl as Hl. simpl. destruct (Z.eqb_spec x y) as [->|Hne]; simpl.
  - rewrite IH by done. apply bool_decide_ext. naive_solver.
  - symmetry. apply bool_decide_eq_false. naive_solver.
Qed.

(** ** Bits: every bitwise operator acts on the bits of the value *)

Lemma uval_testbit pn n :
  limbs_ok pn -> 0 <= n ->
  Z.testbit (uval pn) n = Z.testbit (nthZ pn (Z.to_nat (n / 32))) (n mod 32).
Proof. intros. by apply digits_testbit. Qed.

Lemma nthZ_zip_with (f : Z -> Z -> Z) a b i :
  length a = length b -> f 0 0 = 0 -> nthZ (zip_with f a b) i = f (nthZ a i) (nthZ b i).
Proof.
  intros Hl Hf. destruct (decide (i < length a)%nat) as [Hi|Hi].
  - unfold nthZ. rewrite lookup_zip_with.
    by rewrite (lookup_nthZ a), (lookup_nthZ b) by lia.
  - rewrite !nthZ_ge by (rewrite ?length_zip_with; lia). done.
Qed.

Section bitwise.
Context (f : Z -> Z -> Z) (g : bool -> bool -> bool).
Hypothesis f_spec : forall x y n, Z.testbit (f x y) n = g (Z.testbit x n) (Z.testbit y n).
Hypothesis f_nonneg : forall x y, 0 <= x -> 0 <= y -> 0 <= f x y.
Hypothesis g_false : g false false = false.

Lemma bitwise_digit x y :
  is_digit (2 ^ 32) x -> is_digit (2 ^ 32) y -> is_digit (2 ^ 32) (f x y).
Proof using f_spec f_nonneg g_false.
  intros Hx Hy. red in Hx, Hy. split; [apply f_nonneg; lia|].
  apply testbit_bound; [lia|apply f_nonneg; lia|].
  intros n Hn. by rewrite f_spec, !(testbit_above 32) by lia.
Qed.

Lemma bitwise_ok a b : limbs_ok a -> limbs_ok b -> limbs_ok (zip_with f a b).
Proof using f_spec f_nonneg g_false.
  intros Ha. revert b. induction Ha as [|x a Hx Ha IH]; intros b Hb; [constructor|].
  destruct Hb as [|y b Hy Hb]; constructor; [by apply bitwise_digit|by apply IH].
Qed.

Lemma uval_bitwise a b :
  limbs_ok a -> limbs_ok b -> length a = length b ->
  uval (zip_with f a b) = f (uval a) (uval b).
Proof using f_spec f_nonneg g_false.
  intros Ha Hb Hl. apply Z.bits_inj'. intros n Hn.
  assert (f 0 0 = 0) as Hf.
  { apply Z.bits_inj'. intros m Hm. by rewrite f_spec, Z.bits_0. }
  rewrite f_spec, !uval_testbit by (done || by apply bitwise_ok).
  by rewrite nthZ_zip_with, f_spec.
Qed.
End bitwise.

(** ** Shifts *)

Lemma length_or_at pn i v : length (or_at pn i v) = length pn.
Proof. apply length_insert. Qed.

Lemma or_at_nthZ pn i v j :
  (i < length pn)%nat ->
  nthZ (or_at pn i v) j = if decide (i = j) then nthZ pn j .| v else nthZ pn j.
Proof. intros. unfold or_at. rewrite nthZ_insert by done. case_decide; by subst. Qed.

Lemma or_at_ok pn i v : limbs_ok pn -> is_digit (2 ^ 32) v -> limbs_ok (or_at pn i v).
Proof.
  intros Hpn Hv. apply Forall_insert_default; [done|].
  apply lor_range; [lia| |done]. by apply nthZ_digit.
Qed.

(** A pass that ors contributions [c i j] of every limb [i] into limb [j]. *)
Lemma or_pass_nthZ (W : nat) (step : list Z -> nat -> list Z) (c : nat -> nat -> Z) l r :
  (forall r i, length r = W -> length (step r i) = W) ->
  (forall r i j, length r = W -> (j < W)%nat -> nthZ (step r i) j = nthZ r j .| c i j) ->
  length r = W ->
  length (foldl step r l) = W /\
  forall j b, (j < W)%nat ->
    Z.testbit (nthZ (foldl step r l) j) b =
    Z.testbit (nthZ r j) b || existsb (fun i => Z.testbit (c i j) b) l.
Proof.
  intros Hlen Hstep. revert r. induction l as [|i l IH]; intros r Hr; simpl.
  - split; [done|]. intros. by rewrite orb_false_r.
  - destruct (IH (step r i)) as [? IH']; [by apply Hlen|]. split; [done|].
    intros j b Hj. rewrite IH', Hstep, Z.lor_spec by done. by rewrite orb_assoc.
Qed.

Lemma existsb_seq_iff (f : nat -> bool) n :
  existsb f (seq 0 n) = true <-> exists i, (i < n)%nat /\ f i = true.
Proof.
  rewrite existsb_exists. split; intros (i & Hi & Hf); exists i.
  - apply in_seq in Hi. split; [lia|done].
  - split; [apply in_seq; lia|done].
Qed.

Lemma limb_testbit_high a i b :
  limbs_ok a -> 32 <= b -> Z.testbit (nthZ a i) b = false.
Proof.
  intros Ha Hb. apply (testbit_above 32); [lia| |done]. by apply nthZ_digit.
Qed.

(** A limb array is determined by the bits of its limbs below bit 32. *)
Lemma uval_bits_eq W r z :
  length r = W -> limbs_ok r -> 0 <= z < 2 ^ (32 * Z.of_nat W) ->
  (forall j b, (j < W)%nat -> 0 <= b < 32 ->
     Z.testbit (nthZ r j) b = Z.testbit z (32 * Z.of_nat j + b)) ->
  uval r = z.
Proof.
  intros Hl Hok Hz Hbits. apply Z.bits_inj'. intros n Hn. rewrite uval_testbit by done.
  pose proof (Z.mod_pos_bound n 32 ltac:(lia)). pose proof (Z.div_pos n 32 Hn ltac:(lia)).
  pose proof (Z.div_mod n 32 ltac:(lia)).
  destruct (decide (Z.to_nat (n / 32) < W)%nat).
  - rewrite Hbits by done. f_equal. lia.
  - rewrite nthZ_ge, Z.bits_0 by lia. symmetry. apply (testbit_above (32 * Z.of_nat W)); lia.
Qed.

Lemma shiftr_digit a i n :
  limbs_ok a -> 0 <= n -> is_digit (2 ^ 32) (nthZ a i .>> n).
Proof.
  intros Ha Hn. pose proof (nthZ_digit (2 ^ 32) a i ltac:(lia) Ha) as Hi. red in Hi.
  rewrite Z.shiftr_div_pow2 by lia. pose proof (pow2_pos n Hn).
  split; [apply Z.div_pos; lia|]. apply Z.div_lt_upper_bound; nia.
Qed.

Lemma or_pass_ok (step : list Z -> nat -> list Z) l r :
  (forall r i, limbs_ok r -> limbs_ok (step r i)) -> limbs_ok r -> limbs_ok (foldl step r l).
Proof. intros Hs. revert r. induction l; simpl; auto. Qed.

Lemma zero_limbs_ok n : limbs_ok (replicate n 0).
Proof. apply Forall_replicate. split; lia. Qed.
#[export] Hint Resolve zero_limbs_ok shiftr_digit : hbn.

(** ** Left shift *)

Definition shl_contrib (a : list Z) (k s : Z) (i j : nat) : Z :=
  (if (Z.of_nat j =? Z.of_nat i + k + 1) && negb (s =? 0) then nthZ a i .>> (32 - s) else 0)
  .| (if Z.of_nat j =? Z.of_nat i + k then u32 (nthZ a i .<< s) else 0).

Lemma shl_step_length W a k s r i : length r = W -> length (shl_step W a k s r i) = W.
Proof. intros. unfold shl_step. repeat case_goal; by rewrite ?length_or_at. Qed.

Lemma shl_step_ok W a k s r i :
  limbs_ok a -> 0 <= s < 32 -> limbs_ok r -> limbs_ok (shl_step W a k s r i).
Proof.
  intros. unfold shl_step. repeat case_goal; repeat apply or_at_ok; auto with hbn lia.
Qed.

Lemma shl_step_nthZ W a k s r i j :
  0 <= k -> length r = W -> (j < W)%nat ->
  nthZ (shl_step W a k s r i) j = nthZ r j .| shl_contrib a k s i j.
Proof.
  intros Hk Hr Hj. unfold shl_step, shl_contrib.
  destruct (Z.ltb_spec (Z.of_nat i + k + 1) (Z.of_nat W)), (s =? 0); cbn [andb negb];
    destruct (Z.ltb_spec (Z.of_nat i + k) (Z.of_nat W)); try lia;
    rewrite ?or_at_nthZ by (rewrite ?length_or_at; lia);
    destruct (Z.eqb_spec (Z.of_nat j) (Z.of_nat i + k + 1)),
      (Z.eqb_spec (Z.of_nat j) (Z.of_nat i + k)); try lia; cbn [andb];
    repeat case_decide; try lia; rewrite ?Z.lor_0_r, ?Z.lor_0_l; done.
Qed.

Lemma shl_contrib_testbit a k s i j b :
  limbs_ok a -> 0 <= s < 32 -> 0 <= b < 32 ->
  Z.testbit (shl_contrib a k s i j) b = true <->
  (Z.of_nat j = Z.of_nat i + k + 1 /\ Z.testbit (nthZ a i) (b + 32 - s) = true /\ b < s) \/
  (Z.of_nat j = Z.of_nat i + k /\ s <= b /\ Z.testbit (nthZ a i) (b - s) = true).
Proof.
  intros Ha Hs Hb. unfold shl_contrib. rewrite Z.lor_spec, orb_true_iff.
  assert (Z.testbit (if (Z.of_nat j =? Z.of_nat i + k + 1) && negb (s =? 0)
      then nthZ a i .>> (32 - s) else 0) b = true <->
      Z.of_nat j = Z.of_nat i + k + 1 /\ Z.testbit (nthZ a i) (b + 32 - s) = true /\ b < s) as ->.
  { destruct (Z.eqb_spec (Z.of_nat j) (Z.of_nat i + k + 1)), (Z.eqb_spec s 0); cbn [andb negb];
      rewrite ?Z.bits_0, ?Z.shiftr_spec by lia; split; try (intros; exfalso; lia || done);
      try (intros (? & ? & ?); lia).
    - intros Ht. replace (b + (32 - s)) with (b + 32 - s) in Ht by lia.
      split; [done|]. split; [done|]. destruct (decide (b < s)); [done|].
      rewrite limb_testbit_high in Ht by (done || lia). done.
    - intros (_ & Ht & _). by replace (b + (32 - s)) with (b + 32 - s) by lia. }
  apply or_iff_compat_l.
  destruct (Z.eqb_spec (Z.of_nat j) (Z.of_nat i + k));
    [|rewrite Z.bits_0; split; [done|intros [? _]; done]].
  rewrite wrap_testbit, Z.shiftl_spec by lia. destruct (Z.ltb_spec b 32); [|lia]. cbn [andb].
  split; [|by intros (_ & _ & ?)]. intros Ht. split; [done|]. split; [|done].
  destruct (decide (s <= b)); [done|]. rewrite Z.testbit_neg_r in Ht by lia. done.
Qed.

Lemma shl_assign_ok W a shift :
  limbs_ok a -> length (shl_assign W a shift) = W /\ limbs_ok (shl_assign W a shift).
Proof.
  intros Ha. unfold shl_assign. pose proof (Z.mod_pos_bound shift 32 ltac:(lia)). split.
  - generalize (seq 0 W). intros l.
    assert (length (replicate W 0) = W) as Hr by apply length_replicate.
    revert Hr. generalize (replicate W 0). induction l; simpl; auto using shl_step_length.
  - apply or_pass_ok; [intros; by apply shl_step_ok|auto with hbn].
Qed.

Lemma uval_shl_assign W a shift :
  length a = W -> limbs_ok a -> 0 <= shift ->
  uval (shl_assign W a shift) = (uval a * 2 ^ shift) mod 2 ^ (32 * Z.of_nat W).
Proof.
  intros Hl Ha Hsh. destruct (shl_assign_ok W a shift Ha) as [Hlr Hokr].
  pose proof (pow2_pos (32 * Z.of_nat W) ltac:(lia)).
  apply (uval_bits_eq W); [done|done|apply Z.mod_pos_bound; lia|]. intros j b Hj Hb.
  pose proof (Z.mod_pos_bound shift 32 ltac:(lia)). pose proof (Z.div_mod shift 32 ltac:(lia)).
  pose proof (Z.div_pos shift 32 Hsh ltac:(lia)). unfold shl_assign.
  set (k := shift / 32) in *. set (s := shift mod 32) in *.
  destruct (or_pass_nthZ W (shl_step W a k s) (shl_contrib a k s) (seq 0 W) (replicate W 0))
    as [_ ->]; [apply shl_step_length|by intros; apply shl_step_nthZ|apply length_replicate| |done].
  rewrite nthZ_replicate_0, Z.bits_0, Z.mod_pow2_bits_low, Z.mul_pow2_bits by lia. simpl.
  apply eq_true_iff_eq. rewrite existsb_seq_iff.
  split.
  - intros (i & Hi & Hc). apply shl_contrib_testbit in Hc as [(Hj' & Ht & Hbs)|(Hj' & Hbs & Ht)]; try done.
    + rewrite uval_testbit by (done || lia). 
      replace (32 * Z.of_nat j + b - shift) with (b + 32 - s + Z.of_nat i * 32) by lia.
      rewrite Z.div_add, Z.mod_add, Z.div_small, Z.mod_small, Z.add_0_l, Nat2Z.id by lia. done.
    + rewrite uval_testbit by (done || lia).
      replace (32 * Z.of_nat j + b - shift) with (b - s + Z.of_nat i * 32) by lia.
      rewrite Z.div_add, Z.mod_add, Z.div_small, Z.mod_small, Z.add_0_l, Nat2Z.id by lia. done.
  - intros Ht. set (m := 32 * Z.of_nat j + b - shift) in *.
    assert (0 <= m) as Hm by (destruct (decide (0 <= m)); [done|]; rewrite Z.testbit_neg_r in Ht by lia; done).
    rewrite uval_testbit in Ht by done.
    pose proof (Z.mod_pos_bound m 32 ltac:(lia)). pose proof (Z.div_mod m 32 ltac:(lia)).
    pose proof (Z.div_pos m 32 Hm ltac:(lia)).
    exists (Z.to_nat (m / 32)). split; [lia|]. apply shl_contrib_testbit; [done|done|done|].
    rewrite Z2Nat.id by lia. destruct (decide (b < s)).
    + left. split; [lia|]. split; [|done]. rewrite <- Ht. f_equal. lia.
    + right. split; [lia|]. split; [lia|]. rewrite <- Ht. f_equal. lia.
Qed.

(** ** Right shift *)

Definition shr_contrib (a : list Z) (k s : Z) (i j : nat) : Z :=
  (if (Z.of_nat j =? Z.of_nat i - k - 1) && negb (s =? 0)
   then u32 (nthZ a i .<< (32 - s)) else 0)
  .| (if Z.of_nat j =? Z.of_nat i - k then nthZ a i .>> s else 0).

Lemma shr_step_length W a k s r i : length r = W -> length (shr_step a k s r i) = W.
Proof. intros. unfold shr_step. repeat case_goal; by rewrite ?length_or_at. Qed.

Lemma shr_step_ok a k s r i :
  limbs_ok a -> 0 <= s < 32 -> limbs_ok r -> limbs_ok (shr_step a k s r i).
Proof.
  intros. unfold shr_step. repeat case_goal; repeat apply or_at_ok; auto with hbn lia.
Qed.

Lemma or_at_out pn i v : (length pn <= i)%nat -> or_at pn i v = pn.
Proof. intros. by apply list_insert_ge. Qed.

Lemma or_at_nthZ' pn i v j :
  (j < length pn)%nat ->
  nthZ (or_at pn i v) j = if decide (i = j) then nthZ pn j .| v else nthZ pn j.
Proof.
  intros. destruct (decide (i < length pn)%nat); [by apply or_at_nthZ|].
  rewrite or_at_out by lia. case_decide; [lia|done].
Qed.

Lemma shr_step_nthZ W a k s r i j :
  0 <= k -> length r = W -> (j < W)%nat ->
  nthZ (shr_step a k s r i) j = nthZ r j .| shr_contrib a k s i j.
Proof.
  intros Hk Hr Hj. unfold shr_step, shr_contrib.
  destruct (Z.leb_spec 0 (Z.of_nat i - k - 1)), (s =? 0); cbn [andb negb];
    destruct (Z.leb_spec 0 (Z.of_nat i - k)); try lia;
    rewrite ?or_at_nthZ' by (rewrite ?length_or_at; lia);
    destruct (Z.eqb_spec (Z.of_nat j) (Z.of_nat i - k - 1)),
      (Z.eqb_spec (Z.of_nat j) (Z.of_nat i - k)); try lia; cbn [andb];
    repeat case_decide; try lia; rewrite ?Z.lor_0_r, ?Z.lor_0_l; done.
Qed.

Lemma shr_contrib_testbit a k s i j b :
  limbs_ok a -> 0 <= s < 32 -> 0 <= b < 32 ->
  Z.testbit (shr_contrib a k s i j) b = true <->
  (Z.of_nat j = Z.of_nat i - k - 1 /\ 32 <= b + s /\ Z.testbit (nthZ a i) (b + s - 32) = true) \/
  (Z.of_nat j = Z.of_nat i - k /\ Z.testbit (nthZ a i) (b + s) = true /\ b + s < 32).
Proof.
  intros Ha Hs Hb. unfold shr_contrib. rewrite Z.lor_spec, orb_true_iff.
  assert (Z.testbit (if (Z.of_nat j =? Z.of_nat i - k - 1) && negb (s =? 0)
      then u32 (nthZ a i .<< (32 - s)) else 0) b = true <->
      Z.of_nat j = Z.of_nat i - k - 1 /\ 32 <= b + s /\
      Z.testbit (nthZ a i) (b + s - 32) = true) as ->.
  { destruct (Z.eqb_spec (Z.of_nat j) (Z.of_nat i - k - 1)), (Z.eqb_spec s 0); cbn [andb negb];
      rewrite ?Z.bits_0; try (split; [done|intros (? & ? & ?); lia]).
    rewrite wrap_testbit, Z.shiftl_spec by lia. destruct (Z.ltb_spec b 32); [|lia]. cbn [andb].
    replace (b - (32 - s)) with (b + s - 32) by lia. split; [|by intros (_ & _ & ?)].
    intros Ht. split; [done|]. split; [|done]. destruct (decide (32 <= b + s)); [done|].
    rewrite Z.testbit_neg_r in Ht by lia. done. }
  apply or_iff_compat_l.
  destruct (Z.eqb_spec (Z.of_nat j) (Z.of_nat i - k));
    [|rewrite Z.bits_0; split; [done|intros [? _]; done]].
  rewrite Z.shiftr_spec by lia. split; [|by intros (_ & ? & _)]. intros Ht.
  split; [done|]. split; [done|]. destruct (decide (b + s < 32)); [done|].
  rewrite limb_testbit_high in Ht by (done || lia). done.
Qed.

Lemma shr_assign_ok W a shift :
  limbs_ok a -> length (shr_assign W a shift) = W /\ limbs_ok (shr_assign W a shift).
Proof.
  intros Ha. unfold shr_assign. pose proof (Z.mod_pos_bound shift 32 ltac:(lia)). split.
  - generalize (seq 0 W). intros l.
    assert (length (replicate W 0) = W) as Hr by apply length_replicate.
    revert Hr. generalize (replicate W 0). induction l; simpl; auto using shr_step_length.
  - apply or_pass_ok; [intros; by apply shr_step_ok|auto with hbn].
Qed.

Lemma uval_shr_assign W a shift :
  length a = W -> limbs_ok a -> 0 <= shift ->
  uval (shr_assign W a shift) = uval a / 2 ^ shift.
Proof.
  intros Hl Ha Hsh. destruct (shr_assign_ok W a shift Ha) as [Hlr Hokr].
  pose proof (uval_bound a Ha) as Hb. rewrite Hl in Hb. pose proof (pow2_pos shift Hsh).
  apply (uval_bits_eq W); [done|done| |].
  { split; [apply Z.div_pos; lia|]. apply Z.div_lt_upper_bound; nia. }
  clear Hb. intros j b Hj Hb.
  pose proof (Z.mod_pos_bound shift 32 ltac:(lia)). pose proof (Z.div_mod shift 32 ltac:(lia)).
  pose proof (Z.div_pos shift 32 Hsh ltac:(lia)). unfold shr_assign.
  set (k := shift / 32) in *. set (s := shift mod 32) in *.
  destruct (or_pass_nthZ W (shr_step a k s) (shr_contrib a k s) (seq 0 W) (replicate W 0))
    as [_ ->]; [apply shr_step_length|by intros; eapply shr_step_nthZ|apply length_replicate| |done].
  rewrite nthZ_replicate_0, Z.bits_0, Z.div_pow2_bits by lia. simpl.
  rewrite uval_testbit by (done || lia). set (m := 32 * Z.of_nat j + b + shift).
  apply eq_true_iff_eq. rewrite existsb_seq_iff.
  pose proof (Z.mod_pos_bound m 32 ltac:(lia)). pose proof (Z.div_mod m 32 ltac:(lia)).
  pose proof (Z.div_pos m 32 ltac:(lia) ltac:(lia)). split.
  - intros (i & Hi & Hc). apply shr_contrib_testbit in Hc as [(Hj' & Hbs & Ht)|(Hj' & Ht & Hbs)]; try done.
    + replace (Z.to_nat (m / 32)) with i by lia. rewrite <- Ht. f_equal. lia.
    + replace (Z.to_nat (m / 32)) with i by lia. rewrite <- Ht. f_equal. lia.
  - intros Ht. exists (Z.to_nat (m / 32)). split.
    { destruct (decide (Z.to_nat (m / 32) < W)%nat); [done|].
      rewrite nthZ_ge, Z.bits_0 in Ht by lia. done. }
    apply shr_contrib_testbit; [done|done|done|]. rewrite Z2Nat.id by lia.
    destruct (decide (b + s < 32)).
    + right. split; [lia|]. split; [|done]. rewrite <- Ht. f_equal. lia.
    + left. split; [lia|]. split; [lia|]. rewrite <- Ht. f_equal. lia.
Qed.

(** ** Bytes *)

Lemma limb_bytes_cons x pn : limb_bytes (x :: pn) = le_bytes 4 x ++ limb_bytes pn.
Proof. done. Qed.

Lemma length_limb_bytes pn : length (limb_bytes pn) = (4 * length pn)%nat.
Proof.
  induction pn as [|x pn IH]; [done|]. rewrite limb_bytes_cons.
  rewrite length_app, IH, length_to_digits. simpl. lia.
Qed.

Lemma limb_bytes_ok pn : bytes_ok (limb_bytes pn).
Proof.
  induction pn as [|x pn IH]; [constructor|]. rewrite limb_bytes_cons.
  apply Forall_app. split; [by apply to_digits_digits|done].
Qed.

Lemma le_val_limb_bytes pn : limbs_ok pn -> le_val (limb_bytes pn) = uval pn.
Proof.
  induction pn as [|x pn IH]; intros Hok; [done|]. apply limbs_ok_cons in Hok as [Hx Hpn].
  rewrite limb_bytes_cons, digits_val_app, digits_val_to_digits, length_to_digits, IH by done.
  rewrite uval_cons. change (256 ^ Z.of_nat 4) with (2 ^ 32). by rewrite Z.mod_small by lia.
Qed.

Lemma length_limbs_of_bytes n bs : length (limbs_of_bytes n bs) = n.
Proof. revert bs. induction n; intros; simpl; auto. Qed.

Lemma limbs_of_bytes_limb_bytes pn :
  limbs_ok pn -> limbs_of_bytes (length pn) (limb_bytes pn) = pn.
Proof.
  induction pn as [|x pn IH]; intros Hok; [done|]. apply limbs_ok_cons in Hok as [Hx Hpn].
  cbn [length limbs_of_bytes]. rewrite limb_bytes_cons.
  rewrite take_app_length', drop_app_length' by (by rewrite length_to_digits).
  rewrite IH, digits_val_to_digits, Z.mod_small by (done || lia). done.
Qed.

Lemma limb_bytes_limbs_of_bytes n bs :
  bytes_ok bs -> length bs = (4 * n)%nat -> limb_bytes (limbs_of_bytes n bs) = bs.
Proof.
  revert bs. induction n as [|n IH]; intros bs Hbs Hl.
  - destruct bs; [done|simpl in Hl; lia].
  - cbn [limbs_of_bytes]. rewrite limb_bytes_cons, IH by
      (try apply Forall_drop; rewrite ?length_drop; done || lia).
    rewrite <- (take_drop 4 bs) at 3. f_equal.
    assert (length (take 4 bs) = 4%nat) as Ht by (rewrite length_take; lia).
    rewrite <- Ht at 1. apply to_digits_digits_val; [lia|]. by apply Forall_take.
Qed.

Lemma limbs_of_bytes_ok n bs : bytes_ok bs -> limbs_ok (limbs_of_bytes n bs).
Proof.
  revert bs. induction n as [|n IH]; intros bs Hbs; [constructor|]. cbn [limbs_of_bytes].
  constructor; [|by apply IH, Forall_drop].
  pose proof (digits_val_bound 256 ltac:(lia) (take 4 bs) (Forall_take _ _ _ Hbs)) as Hb.
  split; [lia|]. eapply Z.lt_le_trans; [apply Hb|].
  change (2 ^ 32) with (256 ^ 4). apply Z.pow_le_mono_r; [lia|]. rewrite length_take. lia.
Qed.

(** ** Hexadecimal *)

Lemma phexdigit_hexchar d : 0 <= d < 16 -> phexdigit (hexchar d) = d.
Proof.
  intros Hd. assert (Hall : forallb (fun d => phexdigit (hexchar d) =? d) (seqZ 0 16) = true)
    by reflexivity.
  rewrite forallb_forall in Hall. apply Z.eqb_eq, Hall, list_elem_of_In, elem_of_seqZ. lia.
Qed.

Definition is_hexchar (c : Z) : bool := negb (phexdigit c =? 0) || (c =? 48).

Lemma hexchar_is_hex d : 0 <= d < 16 ->
  is_hexchar (hexchar d) = true /\ isspace (hexchar d) = false /\ (tolower (hexchar d) =? 120) = false.
Proof.
  intros Hd. assert (Hall : forallb (fun d => is_hexchar (hexchar d) && negb (isspace (hexchar d))
    && negb (tolower (hexchar d) =? 120)) (seqZ 0 16) = true) by reflexivity.
  rewrite forallb_forall in Hall.
  specialize (Hall d). rewrite <- list_elem_of_In, elem_of_seqZ in Hall.
  specialize (Hall ltac:(lia)). bool_prop. tauto.
Qed.

Definition hex_text (bs : list Z) : list Z := mjoin (hex02 <$> bs).

Lemma hex_text_cons b bs : hex_text (b :: bs) = hexchar (b / 16) :: hexchar (b mod 16) :: hex_text bs.
Proof. done. Qed.

Lemma byte_nibbles b : is_byte b -> 0 <= b / 16 < 16 /\ 0 <= b mod 16 < 16.
Proof.
  intros [H1 H2]. split; [|apply Z.mod_pos_bound; lia].
  split; [apply Z.div_pos; lia|apply Z.div_lt_upper_bound; lia].
Qed.

Lemma hex_prefix_hex_text bs : bytes_ok bs -> hex_prefix (hex_text bs) = hex_text bs.
Proof.
  induction 1 as [|b bs Hb Hbs IH]; [done|]. rewrite hex_text_cons.
  apply byte_nibbles in Hb as [Hh Hl].
  destruct (hexchar_is_hex _ Hh) as [Eh _], (hexchar_is_hex _ Hl) as [El _].
  cbn [hex_prefix]. unfold is_hexchar in Eh, El. by rewrite Eh, El, IH.
Qed.

Lemma skip_hex_text bs : bytes_ok bs -> skip_0x (skip_spaces (hex_text bs)) = hex_text bs.
Proof.
  destruct 1 as [|b bs Hb Hbs]; [done|]. rewrite hex_text_cons.
  apply byte_nibbles in Hb as [Hh Hl].
  destruct (hexchar_is_hex _ Hh) as (_ & Es & _), (hexchar_is_hex _ Hl) as (_ & _ & Ex).
  cbn [skip_spaces]. rewrite Es. cbn [skip_0x]. by rewrite Ex, andb_false_r.
Qed.

Lemma rev_hex_text bs :
  rev (hex_text (rev bs)) = mjoin ((fun b => [hexchar (b mod 16); hexchar (b / 16)]) <$> bs).
Proof.
  induction bs as [|b bs IH]; [done|]. simpl. unfold hex_text in *.
  rewrite fmap_app, join_app, rev_app_distr, IH. done.
Qed.

Lemma hex_write_pairs room bs :
  bytes_ok bs -> (length bs <= room)%nat ->
  hex_write room (mjoin ((fun b => [hexchar (b mod 16); hexchar (b / 16)]) <$> bs)) = bs.
Proof.
  intros Hbs. revert room. induction Hbs as [|b bs Hb Hbs IH]; intros [|room] Hr;
    try (simpl in Hr; lia); try done.
  simpl in Hr. cbn [fmap list_fmap mjoin list_join app hex_write].
  pose proof (byte_nibbles b Hb) as [Hh Hl]. rewrite !phexdigit_hexchar by done.
  unfold mjoin in IH. rewrite IH by lia. f_equal.
  rewrite lor_shiftl_add by (done || lia). change (2 ^ 4) with 16.
  pose proof (Z.div_mod b 16). lia.
Qed.

(** The bytes the writing loop stores spell the number of the digits, cut to
    the room there is. *)
Lemma hex_write_val room rd :
  le_val (hex_write room rd) =
  digits_val 16 (phexdigit <$> rd) mod 256 ^ Z.of_nat room.
Proof.
  revert rd. induction room as [|room IH]; intros rd.
  { simpl. by rewrite Z.mod_1_r. }
  assert (Hd : forall c, 0 <= phexdigit c < 16).
  { intros c. unfold phexdigit. repeat case_goal; bool_prop; lia. }
  rewrite Nat2Z.inj_succ, Z.pow_succ_r by lia.
  assert (0 < 256 ^ Z.of_nat room) by (apply Z.pow_pos_nonneg; lia).
  destruct rd as [|c0 [|c1 rd]].
  - cbn [hex_write fmap list_fmap]. by rewrite !digits_val_nil, Z.mod_0_l by lia.
  - cbn [hex_write fmap list_fmap]. rewrite !digits_val_cons, !digits_val_nil.
    specialize (Hd c0). rewrite Z.mod_small; [lia|]. nia.
  - cbn [hex_write fmap list_fmap]. rewrite !digits_val_cons, IH.
    assert (phexdigit c0 .| (phexdigit c1 .<< 4) = phexdigit c0 + 16 * phexdigit c1) as ->.
    { apply (lor_shiftl_add 4); [lia|apply Hd]. }
    pose proof (Hd c0). pose proof (Hd c1).
    rewrite <- mod_digit_split by lia. f_equal. lia.
Qed.

(** ** Properties *)

Lemma uint_ok_assign64 W b : (2 <= W)%nat -> uint_ok W (assign64 W b).
Proof.
  intros HW. unfold assign64. split.
  - simpl. rewrite length_replicate. lia.
  - do 2 (constructor; [apply u32_digit|]). apply zero_limbs_ok.
Qed.

Lemma uval_assign64 W b : 0 <= b < 2 ^ 64 -> uval (assign64 W b) = b.
Proof.
  intros Hb. unfold assign64. rewrite !uval_cons. unfold uval at 1.
  rewrite digits_val_replicate_0, Z.shiftr_div_pow2 by lia.
  rewrite (wrap_small 32 (b / 2 ^ 32))
    by (split; [apply Z.div_pos; lia|apply Z.div_lt_upper_bound; lia]).
  unfold wrap. pose proof (Z.div_mod b (2 ^ 32)). lia.
Qed.

(** [operator+=] and [operator-=] of [base_uint] add and subtract modulo
    [2^BITS] (the carry of the limb loop is right and the final carry is
    dropped), and the result is again an array of [WIDTH] 32-bit limbs. *)
Lemma uint_add_sub_spec W a b :
  uint_ok W a -> uint_ok W b ->
  uint_ok W (add_assign a b) /\ uint_ok W (sub_assign a b) /\
  uval (add_assign a b) = (uval a + uval b) mod 2 ^ (32 * Z.of_nat W) /\
  uval (sub_assign a b) = (uval a - uval b) mod 2 ^ (32 * Z.of_nat W).
Proof.
  intros [Hla Ha] [Hlb Hb]. pose proof (op_neg_ok b Hb) as Hn.
  pose proof (length_op_neg b) as Hln. unfold sub_assign, add_assign, uint_ok.
  rewrite !length_add_loop by congruence.
  split; [by auto using add_loop_ok|]. split; [by auto using add_loop_ok|].
  rewrite !uval_add_loop by (done || congruence || lia). rewrite Hla.
  split; [f_equal; lia|]. rewrite uval_op_neg, Hlb by done.
  rewrite Z.add_0_l, Z.add_mod_idemp_r by (pose proof (pow2_pos (32 * Z.of_nat W)); lia). done.
Qed.

(** [operator<<=] multiplies by [2^shift] modulo [2^BITS] and [operator>>=]
    divides by [2^shift] rounding down, for every shift count, also one that is
    a multiple of 32 or not below [BITS]; both return arrays of [WIDTH] limbs. *)
Lemma uint_shifts_spec W a shift :
  uint_ok W a -> 0 <= shift ->
  uint_ok W (shl_assign W a shift) /\ uint_ok W (shr_assign W a shift) /\
  uval (shl_assign W a shift) = (uval a * 2 ^ shift) mod 2 ^ (32 * Z.of_nat W) /\
  uval (shr_assign W a shift) = uval a / 2 ^ shift.
Proof.
  intros [Hl Ha] Hs. split; [by apply shl_assign_ok|]. split; [by apply shr_assign_ok|].
  split; [by apply uval_shl_assign|by apply uval_shr_assign].
Qed.

(** the four order operators scan the limbs from the top and decide the
    order of the values; [operator==] decides equality of the values. *)
Lemma uint_compare_spec W a b :
  uint_ok W a -> uint_ok W b ->
  op_lt a b = (uval a <? uval b) /\ op_le a b = (uval a <=? uval b) /\
  op_gt a b = (uval b <? uval a) /\ op_ge a b = (uval b <=? uval a) /\
  op_eq a b = (uval a =? uval b) /\ op_ne a b = negb (uval a =? uval b).
Proof.
  intros [Hla Ha] [Hlb Hb]. assert (length a = length b) as Hl by congruence.
  assert (op_eq a b = (uval a =? uval b)) as Heq.
  { rewrite op_eq_spec by done. destruct (Z.eqb_spec (uval a) (uval b)) as [E|E].
    - apply bool_decide_eq_true. by apply (digits_val_inj (2 ^ 32)).
    - apply bool_decide_eq_false. congruence. }
  unfold op_lt, op_le, op_gt, op_ge, op_ne. rewrite !cmp_scan_spec, Heq by done.
  destruct (Z.ltb_spec (uval a) (uval b)), (Z.ltb_spec (uval b) (uval a)),
    (Z.leb_spec (uval a) (uval b)), (Z.leb_spec (uval b) (uval a)); try lia; by repeat split.
Qed.

(** [SetHex] reads back what [GetHex] prints: parsing the hexadecimal text
    of an integer gives the same limbs, for every width. *)
Lemma uint_hex_roundtrip_spec W a : uint_ok W a -> SetHex W (GetHex a) = a.
Proof.
  intros [Hl Ha]. unfold SetHex. change (GetHex a) with (hex_text (rev (limb_bytes a))).
  assert (bytes_ok (rev (limb_bytes a))) as Hr by (apply Forall_rev, limb_bytes_ok).
  rewrite skip_hex_text, hex_prefix_hex_text, rev_hex_text by done.
  rewrite hex_write_pairs by (apply limb_bytes_ok || (rewrite length_limb_bytes; lia)).
  rewrite length_limb_bytes, Hl, Nat.sub_diag, app_nil_r.
  rewrite <- Hl. by apply limbs_of_bytes_limb_bytes.
Qed.

(** ** Claims *)

(** the operators of [base_uint] compute on the values the arrays of [WIDTH] limbs
    stand for: [operator+=] and [operator-=] modulo [2^BITS] (the carry of the limb
    loop is right and the last one is dropped), [operator<<=] and [operator>>=]
    multiply and divide by a power of two for every shift count, also a multiple of
    32 or one not below [BITS], the order operators decide the order of the values,
    and [SetHex] reads back what [GetHex] prints. *)
Theorem uint_operators W a b shift :
  uint_ok W a -> uint_ok W b -> 0 <= shift ->
  (uint_ok W (add_assign a b) /\ uval (add_assign a b) = (uval a + uval b) mod 2 ^ (32 * Z.of_nat W)) /\
  (uint_ok W (sub_assign a b) /\ uval (sub_assign a b) = (uval a - uval b) mod 2 ^ (32 * Z.of_nat W)) /\
  (uint_ok W (shl_assign W a shift) /\ uval (shl_assign W a shift) = (uval a * 2 ^ shift) mod 2 ^ (32 * Z.of_nat W)) /\
  (uint_ok W (shr_assign W a shift) /\ uval (shr_assign W a shift) = uval a / 2 ^ shift) /\
  op_lt a b = (uval a <? uval b) /\ op_le a b = (uval a <=? uval b) /\
  op_gt a b = (uval b <? uval a) /\ op_ge a b = (uval b <=? uval a) /\ op_eq a b = (uval a =? uval b) /\
  SetHex W (GetHex a) = a.
Proof.
  intros Ha Hb Hs. pose proof (uint_add_sub_spec W a b Ha Hb) as (? & ? & ? & ?).
  pose proof (uint_shifts_spec W a shift Ha Hs) as (? & ? & ? & ?).
  pose proof (uint_compare_spec W a b Ha Hb) as (? & ? & ? & ? & ? & _).
  split_and!; try done. by apply uint_hex_roundtrip_spec.
Qed.

Lemma uint_operators_witness :
  let a := assign64 WIDTH256 (2 ^ 64 - 1) in
  let b := assign64 WIDTH256 2 in
  uval (add_assign a b) = 2 ^ 64 + 1 /\ op_lt a b = false.
Proof.
  intros a b. assert (Ha : uint_ok WIDTH256 a) by (apply uint_ok_assign64; lia).
  assert (Hb : uint_ok WIDTH256 b) by (apply uint_ok_assign64; lia).
  destruct (uint_operators WIDTH256 a b 1 Ha Hb ltac:(lia)) as ((_ & ->) & _ & _ & _ & -> & _). by split.
Defined.
