(* ===== verification/BigNum.v ===== *)
(** * [bignum.h]: [CBigNum] over OpenSSL's BIGNUM

    OpenSSL is not part of the sources: the [BN_*] functions [CBigNum] calls are
    the fields of the class [BNOps], and [BNLaws] states what their
    documentation says of them, in terms of the integer [bn_val] a BIGNUM
    stands for.  The conversions of the class (to and from machine integers,
    [uint256], byte vectors and the compact form of difficulty targets) are
    translated over that interface; the instance [ZBN] at the end of the model
    (a BIGNUM is its integer) makes them run.  Allocation failures, for which
    the class throws, are not modelled. *)

From S2P Require Import Prelude Uint256.

(** ** Sign-magnitude bytes

    The body of OpenSSL's MPI format, and with its bytes reversed the format of
    script numbers: little-endian magnitude whose top bit is the sign, in the
    least number of bytes. *)

Definition snum_len (z : Z) : Z :=
  if z =? 0 then 0 else (Z.log2 (Z.abs z) + 1) / 8 + 1.

Definition snum_encode (z : Z) : list Z :=
  let n := snum_len z in
  le_bytes (Z.to_nat n) (Z.abs z + (if z <? 0 then 2 ^ (8 * n - 1) else 0)).

Definition snum_decode (bs : list Z) : Z :=
  let v := le_val bs in
  match bs with
  | [] => 0
  | _ =>
      let half := 2 ^ (8 * Z.of_nat (length bs) - 1) in
      if v <? half then v else - (v - half)
  end.

(** Big-endian bytes of a 32-bit size *)
Definition be32 (n : Z) : list Z := rev (le_bytes 4 n).

(** ** The interface to OpenSSL *)

Class BNOps := {
  BIGNUM : Type;
  BN_new : BIGNUM;
  BN_set_word : Z -> BIGNUM;
  BN_get_word : BIGNUM -> Z;
  BN_is_zero : BIGNUM -> bool;
  BN_is_negative : BIGNUM -> bool;
  BN_set_negative : BIGNUM -> bool -> BIGNUM;
  BN_add : BIGNUM -> BIGNUM -> BIGNUM;
  BN_sub : BIGNUM -> BIGNUM -> BIGNUM;
  BN_mul : BIGNUM -> BIGNUM -> BIGNUM;
  (** quotient and remainder; fails when the divisor is zero *)
  BN_div : BIGNUM -> BIGNUM -> option (BIGNUM * BIGNUM);
  BN_nnmod : BIGNUM -> BIGNUM -> option BIGNUM;
  BN_lshift : BIGNUM -> Z -> BIGNUM;
  BN_rshift : BIGNUM -> Z -> BIGNUM;
  (** negative, zero or positive *)
  BN_cmp : BIGNUM -> BIGNUM -> Z;
  (** [None] when the input is not in MPI format *)
  BN_mpi2bn : list Z -> option BIGNUM;
  BN_bn2mpi : BIGNUM -> list Z
}.

Class BNLaws (B : BNOps) := {
  bn_val : BIGNUM -> Z;
  BN_new_val : bn_val BN_new = 0;
  BN_set_word_val w : 0 <= w < 2 ^ 64 -> bn_val (BN_set_word w) = w;
  BN_get_word_val a :
    BN_get_word a = if Z.abs (bn_val a) <? 2 ^ 64 then Z.abs (bn_val a) else 2 ^ 64 - 1;
  BN_is_zero_val a : BN_is_zero a = (bn_val a =? 0);
  BN_is_negative_val a : BN_is_negative a = (bn_val a <? 0);
  BN_set_negative_val a b :
    bn_val (BN_set_negative a b) = if b then - Z.abs (bn_val a) else Z.abs (bn_val a);
  BN_add_val a b : bn_val (BN_add a b) = bn_val a + bn_val b;
  BN_sub_val a b : bn_val (BN_sub a b) = bn_val a - bn_val b;
  BN_mul_val a b : bn_val (BN_mul a b) = bn_val a * bn_val b;
  BN_div_val a b :
    bn_val b <> 0 ->
    exists q r, BN_div a b = Some (q, r) /\
      bn_val q = Z.quot (bn_val a) (bn_val b) /\ bn_val r = Z.rem (bn_val a) (bn_val b);
  BN_div_zero a b : bn_val b = 0 -> BN_div a b = None;
  BN_nnmod_val a b :
    bn_val b <> 0 ->
    exists r, BN_nnmod a b = Some r /\ bn_val r = bn_val a mod Z.abs (bn_val b);
  BN_nnmod_zero a b : bn_val b = 0 -> BN_nnmod a b = None;
  BN_lshift_val a n : 0 <= n -> bn_val (BN_lshift a n) = bn_val a * 2 ^ n;
  BN_rshift_val a n : 0 <= n -> bn_val (BN_rshift a n) = Z.quot (bn_val a) (2 ^ n);
  BN_cmp_val a b : Z.compare (BN_cmp a b) 0 = Z.compare (bn_val a) (bn_val b);
  BN_mpi2bn_val body :
    bytes_ok body -> Z.of_nat (length body) < 2 ^ 31 ->
    exists a, BN_mpi2bn (be32 (Z.of_nat (length body)) ++ body) = Some a /\
      bn_val a = snum_decode (rev body);
  BN_bn2mpi_val a :
    BN_bn2mpi a = be32 (snum_len (bn_val a)) ++ rev (snum_encode (bn_val a))
}.

(** ** The class [CBigNum] *)

Section CBigNum.
Context {B : BNOps}.

(** [BN_mpi2bn(p, n, bn)] leaves [bn] as it is on a malformed input. *)
Definition mpi_assign (bn : BIGNUM) (bs : list Z) : BIGNUM := default bn (BN_mpi2bn bs).

Definition setulong (n : Z) : BIGNUM := BN_set_word n.
Definition getulong (bn : BIGNUM) : Z := BN_get_word bn.
Definition getuint (bn : BIGNUM) : Z := u32 (BN_get_word bn).

Definition getint (bn : BIGNUM) : Z :=
  let n := BN_get_word bn in
  if negb (BN_is_negative bn)
  then (if 2 ^ 31 - 1 <? n then 2 ^ 31 - 1 else n)
  else (if 2 ^ 31 - 1 <? n then - 2 ^ 31 else - n).

(** The byte loop of [setint64] and [setuint64]: the eight bytes of [n] from the
    top, leading zeros left out; [fNegative] sets the sign bit of the first byte
    written, with a byte of its own when the top bit is taken. *)
Fixpoint int_loop (fNegative : bool) (count : nat) (n : Z) (fLeadingZeroes : bool) : list Z :=
  match count with
  | O => []
  | S count' =>
      let c := (n .>> 56) .& 0xff in
      let n' := u64 (n .<< 8) in
      if fLeadingZeroes then
        if c =? 0 then int_loop fNegative count' n' true
        else if negb (c .& 0x80 =? 0)
        then (if fNegative then 0x80 else 0) :: c :: int_loop fNegative count' n' false
        else (if fNegative then c .| 0x80 else c) :: int_loop fNegative count' n' false
      else c :: int_loop fNegative count' n' false
  end.

(** The size bytes [pch[0..3]] in front of the body *)
Definition with_size (body : list Z) : list Z :=
  let nSize := u32 (Z.of_nat (length body)) in
  [(nSize .>> 24) .& 0xff; (nSize .>> 16) .& 0xff; (nSize .>> 8) .& 0xff; nSize .& 0xff] ++ body.

Definition setint64 (sn : Z) : BIGNUM :=
  let '(n, fNegative) := if sn <? 0 then (u64 (- (sn + 1)) + 1, true) else (sn, false) in
  mpi_assign BN_new (with_size (int_loop fNegative 8 (u64 n) true)).

Definition setuint64 (n : Z) : BIGNUM :=
  mpi_assign BN_new (with_size (int_loop false 8 n true)).

(** The byte loop of [setuint160] and [setuint256], over the bytes of the
    integer from the most significant one down *)
Fixpoint uint_loop (src : list Z) (fLeadingZeroes : bool) : list Z :=
  match src with
  | [] => []
  | c :: src' =>
      if fLeadingZeroes then
        if c =? 0 then uint_loop src' true
        else if negb (c .& 0x80 =? 0) then 0 :: c :: uint_loop src' false
        else c :: uint_loop src' false
      else c :: uint_loop src' false
  end.

Definition setuint160 (n : list Z) : BIGNUM :=
  mpi_assign BN_new (with_size (uint_loop (rev (limb_bytes n)) true)).

Definition setuint256 (n : list Z) : BIGNUM :=
  mpi_assign BN_new (with_size (uint_loop (rev (limb_bytes n)) true)).

(** The magnitude bytes the three [getuint*] copy: the MPI form with its sign
    bit cleared, from the last byte back to index 4, into [size] zeroed bytes. *)
Definition get_bytes (bn : BIGNUM) (size : nat) : list Z :=
  let vch := BN_bn2mpi bn in
  let nSize := Z.of_nat (length vch) in
  if nSize <? 4 then replicate size 0
  else
    let vch := if 4 <? nSize then <[4%nat := nthZ vch 4 .& 0x7f]> vch else vch in
    let copied := take size (rev (drop 4 vch)) in
    copied ++ replicate (size - length copied) 0.

Definition getuint64 (bn : BIGNUM) : Z := le_val (get_bytes bn 8).
Definition getuint160 (bn : BIGNUM) : list Z := limbs_of_bytes WIDTH160 (get_bytes bn 20).
Definition getuint256 (bn : BIGNUM) : list Z := limbs_of_bytes WIDTH256 (get_bytes bn 32).

(** [vch2]: size bytes and the input reversed *)
Definition setvch (vch : list Z) : BIGNUM := mpi_assign BN_new (with_size (rev vch)).

Definition getvch (bn : BIGNUM) : list Z :=
  let vch := BN_bn2mpi bn in
  if Z.of_nat (length vch) <=? 4 then [] else rev (drop 4 vch).

(** The compact form: size byte and the three leading body bytes *)
Definition SetCompact (nCompact : Z) : BIGNUM :=
  let nSize := nCompact .>> 24 in
  let vch := replicate (4 + Z.to_nat nSize) 0 in
  let vch := <[3%nat := u8 nSize]> vch in
  let vch := if 1 <=? nSize then <[4%nat := (nCompact .>> 16) .& 0xff]> vch else vch in
  let vch := if 2 <=? nSize then <[5%nat := (nCompact .>> 8) .& 0xff]> vch else vch in
  let vch := if 3 <=? nSize then <[6%nat := nCompact .& 0xff]> vch else vch in
  mpi_assign BN_new vch.

Definition GetCompact (bn : BIGNUM) : Z :=
  let vch := BN_bn2mpi bn in
  let nSize := u32 (Z.of_nat (length vch) - 4) in
  let nCompact := u32 (nSize .<< 24) in
  let nCompact := if 1 <=? nSize then nCompact .| (nthZ vch 4 .<< 16) else nCompact in
  let nCompact := if 2 <=? nSize then nCompact .| (nthZ vch 5 .<< 8) else nCompact in
  if 3 <=? nSize then nCompact .| nthZ vch 6 else nCompact.

(** Constructors from machine integers: the signed types go through [setulong]
    when the argument is not negative *)
Definition CBigNum_of_int (n : Z) : BIGNUM := if 0 <=? n then setulong n else setint64 n.
Definition CBigNum_of_long (n : Z) : BIGNUM := if 0 <=? n then setulong n else setint64 n.
Definition CBigNum_of_longlong (n : Z) : BIGNUM := setint64 n.
Definition CBigNum_of_ulong (n : Z) : BIGNUM := setulong n.
Definition CBigNum_of_ulonglong (n : Z) : BIGNUM := setuint64 n.
Definition CBigNum_of_uint256 (n : list Z) : BIGNUM := setuint256 n.
Definition CBigNum_of_vch (vch : list Z) : BIGNUM := setvch vch.

(** ** Operators; [None] is the exception [bignum_error] *)

Definition bn_iszero (bn : BIGNUM) : bool := BN_is_zero bn.
Definition bn_plus (a b : BIGNUM) : BIGNUM := BN_add a b.
Definition bn_minus (a b : BIGNUM) : BIGNUM := BN_sub a b.
Definition bn_opp (a : BIGNUM) : BIGNUM := BN_set_negative a (negb (BN_is_negative a)).
Definition bn_mult (a b : BIGNUM) : BIGNUM := BN_mul a b.
Definition bn_quot (a b : BIGNUM) : option BIGNUM := fst <$> BN_div a b.
Definition bn_mod (a b : BIGNUM) : option BIGNUM := BN_nnmod a b.
Definition bn_shl (a : BIGNUM) (shift : Z) : BIGNUM := BN_lshift a shift.

(** [operator>>=]: a number below [2^shift] gives 0 *)
Definition bn_shr (bn : BIGNUM) (shift : Z) : BIGNUM :=
  let a := BN_lshift (CBigNum_of_int 1) shift in
  if 0 <? BN_cmp a bn then CBigNum_of_int 0 else BN_rshift bn shift.

Definition bn_eq (a b : BIGNUM) : bool := BN_cmp a b =? 0.
Definition bn_ne (a b : BIGNUM) : bool := negb (BN_cmp a b =? 0).
Definition bn_le (a b : BIGNUM) : bool := BN_cmp a b <=? 0.
Definition bn_ge (a b : BIGNUM) : bool := 0 <=? BN_cmp a b.
Definition bn_lt (a b : BIGNUM) : bool := BN_cmp a b <? 0.
Definition bn_gt (a b : BIGNUM) : bool := 0 <? BN_cmp a b.

End CBigNum.

(** ** An instance: a BIGNUM is its integer *)

Definition mpi_decode (bs : list Z) : option Z :=
  if (length bs <? 4)%nat then None
  else
    let body := drop 4 bs in
    if bool_decide (take 4 bs = be32 (Z.of_nat (length body)))
    then Some (snum_decode (rev body)) else None.

#[export] Instance ZBN : BNOps := {|
  BIGNUM := Z;
  BN_new := 0;
  BN_set_word w := w;
  BN_get_word a := if Z.abs a <? 2 ^ 64 then Z.abs a else 2 ^ 64 - 1;
  BN_is_zero a := a =? 0;
  BN_is_negative a := a <? 0;
  BN_set_negative a b := if b then - Z.abs a else Z.abs a;
  BN_add := Z.add;
  BN_sub := Z.sub;
  BN_mul := Z.mul;
  BN_div a b := if b =? 0 then None else Some (Z.quot a b, Z.rem a b);
  BN_nnmod a b := if b =? 0 then None else Some (a mod Z.abs b);
  BN_lshift a n := a * 2 ^ n;
  BN_rshift a n := Z.quot a (2 ^ n);
  BN_cmp a b := match Z.compare a b with Lt => -1 | Eq => 0 | Gt => 1 end;
  BN_mpi2bn := mpi_decode;
  BN_bn2mpi a := be32 (snum_len a) ++ rev (snum_encode a)
|}.

(** ** Lemmas: sign-magnitude bytes *)

Lemma snum_len_nonneg z : 0 <= snum_len z.
Proof.
  unfold snum_len. case_goal; [lia|]. pose proof (Z.log2_nonneg (Z.abs z)).
  pose proof (Z.div_pos (Z.log2 (Z.abs z) + 1) 8). lia.
Qed.

Lemma snum_len_pos z : z <> 0 -> 1 <= snum_len z.
Proof.
  intros Hz. unfold snum_len. destruct (Z.eqb_spec z 0); [done|].
  pose proof (Z.log2_nonneg (Z.abs z)).
  pose proof (Z.div_pos (Z.log2 (Z.abs z) + 1) 8). lia.
Qed.

(** The magnitude leaves the sign bit free, and one byte less would not do. *)
Lemma snum_len_bounds z :
  z <> 0 -> 2 ^ (8 * (snum_len z - 1) - 1) <= Z.abs z < 2 ^ (8 * snum_len z - 1).
Proof.
  intros Hz. pose proof (snum_len_pos z Hz) as Hn. unfold snum_len in *.
  destruct (Z.eqb_spec z 0); [done|]. set (l := Z.log2 (Z.abs z)) in *.
  pose proof (Z.log2_nonneg (Z.abs z)) as Hl. fold l in Hl.
  destruct (Z.log2_spec (Z.abs z) ltac:(lia)) as [Hlo Hhi]. fold l in Hlo, Hhi.
  pose proof (Z.div_mod (l + 1) 8 ltac:(lia)). pose proof (Z.mod_pos_bound (l + 1) 8 ltac:(lia)).
  split.
  - destruct (decide (8 * ((l + 1) / 8 + 1 - 1) - 1 < 0)).
    + rewrite Z.pow_neg_r by done. lia.
    + etransitivity; [|exact Hlo]. apply Z.pow_le_mono_r; lia.
  - eapply Z.lt_le_trans; [exact Hhi|]. apply Z.pow_le_mono_r; lia.
Qed.

Lemma pow256 n : 0 <= n -> 256 ^ n = 2 ^ (8 * n).
Proof. intros. change 256 with (2 ^ 8). by rewrite <- Z.pow_mul_r by lia. Qed.

Lemma half_double n : 1 <= n -> 2 ^ (8 * n) = 2 * 2 ^ (8 * n - 1).
Proof. intros. rewrite <- Z.pow_succ_r by lia. f_equal. lia. Qed.

Lemma length_snum_encode z : Z.of_nat (length (snum_encode z)) = snum_len z.
Proof.
  unfold snum_encode. rewrite length_to_digits. pose proof (snum_len_nonneg z). lia.
Qed.

Lemma snum_encode_ok z : bytes_ok (snum_encode z).
Proof. by apply to_digits_digits. Qed.

Lemma snum_encode_0 : snum_encode 0 = [].
Proof. done. Qed.

(** The number the bytes of [snum_encode z] spell, sign bit included *)
Definition snum_raw (z : Z) : Z :=
  Z.abs z + (if z <? 0 then 2 ^ (8 * snum_len z - 1) else 0).

Lemma snum_raw_range z : z <> 0 -> 0 <= snum_raw z < 256 ^ snum_len z.
Proof.
  intros Hz. pose proof (snum_len_pos z Hz). pose proof (snum_len_bounds z Hz).
  unfold snum_raw. rewrite pow256, half_double by lia. case_goal; lia.
Qed.

Lemma le_val_snum_encode z : z <> 0 -> le_val (snum_encode z) = snum_raw z.
Proof.
  intros Hz. pose proof (snum_raw_range z Hz). pose proof (snum_len_pos z Hz).
  unfold snum_encode. rewrite digits_val_to_digits, Z2Nat.id by lia.
  by apply Z.mod_small.
Qed.

Lemma snum_decode_encode z : snum_decode (snum_encode z) = z.
Proof.
  destruct (decide (z = 0)) as [->|Hz]; [done|].
  pose proof (snum_len_bounds z Hz) as Hb. pose proof (snum_len_pos z Hz) as Hn.
  pose proof (length_snum_encode z) as Hl. unfold snum_decode.
  destruct (snum_encode z) as [|b bs] eqn:E; [simpl in Hl; lia|]. rewrite <- E in *.
  rewrite Hl, le_val_snum_encode by done. unfold snum_raw.
  destruct (Z.ltb_spec z 0); case_goal; bool_prop; lia.
Qed.

(** ** Lemmas: the byte loops *)

Lemma to_digits_mod n z : le_bytes n (z mod 256 ^ Z.of_nat n) = le_bytes n z.
Proof.
  apply (digits_val_inj 256); try apply to_digits_digits; try lia.
  - by rewrite !length_to_digits.
  - by rewrite !digits_val_to_digits, Z.mod_mod by (try apply Z.pow_nonzero; lia).
Qed.

Lemma to_digits_snoc n z :
  le_bytes (S n) z = le_bytes n z ++ [(z / 256 ^ Z.of_nat n) mod 256].
Proof.
  revert z. induction n as [|n IH]; intros z.
  - rewrite to_digits_S. simpl. by rewrite Z.div_1_r.
  - rewrite to_digits_S, IH, (to_digits_S 256 n). cbn [app].
    rewrite Nat2Z.inj_succ, Z.pow_succ_r, <- Z.div_div by (try apply Z.pow_pos_nonneg; lia). done.
Qed.

(** Both loops skip leading zero bytes and put the sign into the first byte. *)
Fixpoint sign_loop (fNegative : bool) (src : list Z) : list Z :=
  match src with
  | [] => []
  | c :: src' =>
      if c =? 0 then sign_loop fNegative src'
      else if negb (c .& 0x80 =? 0) then (if fNegative then 0x80 else 0) :: c :: src'
      else (if fNegative then c .| 0x80 else c) :: src'
  end.

Lemma uint_loop_false src : uint_loop src false = src.
Proof. induction src; simpl; congruence. Qed.

Lemma uint_loop_sign src : uint_loop src true = sign_loop false src.
Proof.
  induction src as [|c src IH]; [done|]. cbn [uint_loop sign_loop].
  rewrite !uint_loop_false, IH. repeat case_goal; done.
Qed.

Lemma int_loop_step n :
  0 <= n < 2 ^ 64 ->
  (n .>> 56) .& 0xff = n / 256 ^ 7 /\ 0 <= u64 (n .<< 8) < 2 ^ 64 /\
  rev (le_bytes 8 n) = n / 256 ^ 7 :: rev (le_bytes 7 n) /\
  rev (le_bytes 8 (u64 (n .<< 8))) = rev (le_bytes 7 n) ++ [0].
Proof.
  intros Hn. change 0xff with (Z.ones 8). rewrite Z.land_ones, Z.shiftr_div_pow2 by lia.
  change (2 ^ 56) with (256 ^ 7). change (2 ^ 8) with 256.
  assert (n / 256 ^ 7 < 256) by (apply Z.div_lt_upper_bound; lia).
  assert (0 <= n / 256 ^ 7) by (apply Z.div_pos; lia).
  split; [by rewrite Z.mod_small by lia|]. split; [by apply wrap_range|]. split.
  - rewrite (to_digits_snoc 7), rev_unit. f_equal. by rewrite Z.mod_small by lia.
  - rewrite to_digits_S. unfold wrap. rewrite Z.shiftl_mul_pow2 by lia.
    change (2 ^ 64) with (256 * 256 ^ 7). change (2 ^ 8) with 256.
    rewrite (Z.mul_comm n), Z.mul_mod_distr_l by lia.
    rewrite (Z.mul_comm 256 (n mod _)), Z.mod_mul, Z.div_mul by lia.
    change (256 ^ 7) with (256 ^ Z.of_nat 7). by rewrite to_digits_mod.
Qed.

Lemma int_loop_false fNegative count n :
  (count <= 8)%nat -> 0 <= n < 2 ^ 64 ->
  int_loop fNegative count n false = take count (rev (le_bytes 8 n)).
Proof.
  revert n. induction count as [|count IH]; intros n Hc Hn; [done|]. cbn [int_loop].
  destruct (int_loop_step n Hn) as (-> & Hn' & -> & E). cbn [take]. f_equal.
  rewrite IH, E by (done || lia). rewrite take_app_le; [done|].
  rewrite length_rev, length_to_digits. lia.
Qed.

Lemma int_loop_sign fNegative count n :
  (count <= 8)%nat -> 0 <= n < 2 ^ 64 ->
  int_loop fNegative count n true = sign_loop fNegative (take count (rev (le_bytes 8 n))).
Proof.
  revert n. induction count as [|count IH]; intros n Hc Hn; [done|]. cbn [int_loop].
  destruct (int_loop_step n Hn) as (-> & Hn' & -> & E). cbn [take sign_loop].
  assert (take count (rev (le_bytes 7 n)) = take count (rev (le_bytes 8 (u64 (n .<< 8))))) as ->.
  { rewrite E, take_app_le; [done|]. rewrite length_rev, length_to_digits. lia. }
  rewrite IH, int_loop_false by (done || lia). repeat case_goal; done.
Qed.

Lemma byte_high_bit c : is_byte c -> negb (c .& 0x80 =? 0) = (128 <=? c).
Proof.
  intros Hc. assert (Hall : forallb (fun c => Bool.eqb (negb (c .& 0x80 =? 0)) (128 <=? c))
    (seqZ 0 256) = true) by (vm_compute; reflexivity).
  rewrite forallb_forall in Hall. apply eqb_prop, Hall, list_elem_of_In, elem_of_seqZ.
  red in Hc. lia.
Qed.

Lemma byte_set_sign c : is_byte c -> c < 128 -> c .| 0x80 = c + 128.
Proof.
  intros Hc Hlt. red in Hc. change (c .| 0x80) with (c .| (1 .<< 7)).
  rewrite (lor_shiftl_add 7) by lia. lia.
Qed.

Lemma byte_clear_sign c : is_byte c -> c .& 0x7f = c mod 128.
Proof. intros _. change 0x7f with (Z.ones 7). by rewrite Z.land_ones by lia. Qed.

Lemma rev_bytes_ok l : bytes_ok l -> bytes_ok (rev l).
Proof. apply Forall_rev. Qed.

(** Reading back what the loop writes gives the number, with its sign. *)
Lemma sign_loop_decode fNegative src :
  bytes_ok src ->
  snum_decode (rev (sign_loop fNegative src)) =
  (if fNegative then -1 else 1) * le_val (rev src).
Proof.
  induction 1 as [|c src Hc Hsrc IH]; [by destruct fNegative|]. cbn [sign_loop].
  assert (0 <= le_val (rev src) < 256 ^ Z.of_nat (length src)) as Hv.
  { rewrite <- (length_rev src). apply digits_val_bound; [lia|]. by apply rev_bytes_ok. }
  assert (Hval : le_val (rev (c :: src)) = le_val (rev src) + 256 ^ Z.of_nat (length src) * c).
  { cbn [rev]. rewrite digits_val_app, digits_val_cons, digits_val_nil, length_rev. lia. }
  destruct (Z.eqb_spec c 0) as [->|Hne]; [rewrite IH, Hval; lia|].
  rewrite byte_high_bit by done.
  assert (Hpos : 0 < 256 ^ Z.of_nat (length src)) by (apply Z.pow_pos_nonneg; lia).
  assert (Hhalf : 2 ^ (8 * (Z.of_nat (length src) + 1) - 1) = 128 * 256 ^ Z.of_nat (length src)).
  { rewrite pow256 by lia. change 128 with (2 ^ 7). rewrite <- Z.pow_add_r by lia. f_equal. lia. }
  assert (Hdec : forall l, l <> [] -> snum_decode l =
    let half := 2 ^ (8 * Z.of_nat (length l) - 1) in
    if le_val l <? half then le_val l else - (le_val l - half)) by (by intros []).
  red in Hc. destruct (Z.leb_spec 128 c).
  - rewrite Hdec by (cbn [rev]; by destruct (rev src)). cbv zeta.
    rewrite length_rev. cbn [length]. rewrite !Nat2Z.inj_succ.
    cbn [rev]. rewrite digits_val_app, digits_val_cons, digits_val_nil, length_app, length_rev.
    change (rev src ++ [c]) with (rev (c :: src)). rewrite Hval. cbn [length].
    replace (8 * Z.succ (Z.succ (Z.of_nat (length src))) - 1)
      with (8 + (8 * (Z.of_nat (length src) + 1) - 1)) by lia.
    rewrite Z.pow_add_r, Hhalf by lia. rewrite Nat2Z.inj_add, Z.pow_add_r by lia.
    change (256 ^ Z.of_nat 1) with 256. change (2 ^ 8) with 256.
    destruct fNegative; case_goal; bool_prop; nia.
  - rewrite Hdec by (cbn [rev]; by destruct (rev src)). cbv zeta.
    rewrite length_rev. cbn [length]. rewrite !Nat2Z.inj_succ.
    cbn [rev]. rewrite digits_val_app, digits_val_cons, digits_val_nil, length_rev.
    replace (Z.succ (Z.of_nat (length src))) with (Z.of_nat (length src) + 1) by lia.
    rewrite Hhalf, byte_set_sign by (done || lia).
    change (rev src ++ [c]) with (rev (c :: src)) in *. rewrite Hval.
    destruct fNegative; case_goal; bool_prop; nia.
Qed.

(** ** Lemmas: copying and indexing little-endian bytes *)

Lemma le_bytes_0 n : le_bytes n 0 = replicate n 0.
Proof. induction n as [|n IH]; [done|]. rewrite to_digits_S. simpl. by f_equal. Qed.

(** Copying the bytes of [m] into [size] zeroed bytes gives the [size] bytes of
    [m], longer or shorter. *)
Lemma le_bytes_resize size n m :
  0 <= m < 256 ^ Z.of_nat n ->
  take size (le_bytes n m) ++ replicate (size - length (take size (le_bytes n m))) 0 =
  le_bytes size m.
Proof.
  revert n m. induction size as [|size IH]; intros n m Hm; [done|].
  destruct n as [|n].
  - simpl in Hm. assert (m = 0) as -> by lia. simpl. by rewrite le_bytes_0.
  - rewrite !to_digits_S. cbn [take length app Nat.sub]. f_equal. apply IH.
    rewrite Nat2Z.inj_succ, Z.pow_succ_r in Hm by lia.
    split; [apply Z.div_pos; lia|apply Z.div_lt_upper_bound; lia].
Qed.

Lemma le_bytes_nthZ n v i :
  (i < n)%nat -> nthZ (le_bytes n v) i = (v / 256 ^ Z.of_nat i) mod 256.
Proof.
  revert v i. induction n as [|n IH]; intros v i Hi; [lia|]. rewrite to_digits_S.
  destruct i as [|i]; [by rewrite Z.div_1_r|].
  change (nthZ (_ :: ?l) (S i)) with (nthZ l i). rewrite IH by lia.
  rewrite Nat2Z.inj_succ, Z.pow_succ_r, Z.div_div by (try apply Z.pow_pos_nonneg; lia). done.
Qed.

Lemma snum_len_unique z n :
  1 <= n -> 2 ^ (8 * (n - 1) - 1) <= Z.abs z < 2 ^ (8 * n - 1) -> z <> 0 -> snum_len z = n.
Proof.
  intros Hn [Hlo Hhi] Hz. pose proof (snum_len_bounds z Hz) as [Hlo' Hhi'].
  pose proof (snum_len_pos z Hz) as Hn'. destruct (Z.lt_trichotomy (snum_len z) n) as [Hlt|[?|Hlt]].
  - exfalso. assert (2 ^ (8 * snum_len z - 1) <= 2 ^ (8 * (n - 1) - 1)) by (apply Z.pow_le_mono_r; lia).
    lia.
  - done.
  - exfalso. assert (2 ^ (8 * n - 1) <= 2 ^ (8 * (snum_len z - 1) - 1)) by (apply Z.pow_le_mono_r; lia).
    lia.
Qed.

(** Appending a byte below a number *)
Lemma lor_byte X b w :
  0 <= w -> is_byte b -> (X .<< (w + 8)) .| (b .<< w) = (256 * X + b) .<< w.
Proof.
  intros Hw Hb. red in Hb. replace (w + 8) with (8 + w) by lia.
  rewrite <- Z.shiftl_shiftl, <- Z.shiftl_lor by lia. f_equal.
  rewrite Z.lor_comm, (lor_shiftl_add 8) by lia. change (2 ^ 8) with 256. lia.
Qed.

Lemma byte_land n : n .& 0xff = n mod 256.
Proof. change 0xff with (Z.ones 8). by rewrite Z.land_ones by lia. Qed.

Lemma length_be32 n : length (be32 n) = 4%nat.
Proof. unfold be32. by rewrite length_rev, length_to_digits. Qed.

Lemma with_size_be32 body :
  Z.of_nat (length body) < 2 ^ 31 -> with_size body = be32 (Z.of_nat (length body)) ++ body.
Proof.
  intros Hl. unfold with_size. rewrite wrap_small by lia. f_equal.
  set (n := Z.of_nat (length body)). change 0xff with (Z.ones 8).
  rewrite !Z.land_ones, !Z.shiftr_div_pow2 by lia.
  unfold be32. rewrite !to_digits_S. change (2 ^ 8) with 256. simpl.
  rewrite !Z.div_div by lia. done.
Qed.

Lemma mpi_decode_be32 body :
  mpi_decode (be32 (Z.of_nat (length body)) ++ body) = Some (snum_decode (rev body)).
Proof.
  unfold mpi_decode. destruct (Nat.ltb_spec (length (be32 (Z.of_nat (length body)) ++ body)) 4) as [H|H].
  { rewrite length_app, length_be32 in H. lia. }
  rewrite drop_app_length', take_app_length' by (by rewrite length_be32).
  by rewrite bool_decide_true.
Qed.

#[export] Instance ZBN_laws : BNLaws ZBN.
Proof.
  refine {| bn_val := (fun z : @BIGNUM ZBN => z : Z) |}; simpl; try done.
  - intros a b Hb. exists (Z.quot a b), (Z.rem a b). destruct (Z.eqb_spec b 0); [done|]. auto.
  - intros a b ->. done.
  - intros a b Hb. exists (a mod Z.abs b). destruct (Z.eqb_spec b 0); [done|]. auto.
  - intros a b ->. done.
  - intros a b. by destruct (Z.compare a b).
  - intros body Hb Hl. exists (snum_decode (rev body)). split; [apply mpi_decode_be32|done].
Defined.

(** ** What the class computes, for every implementation of the interface *)

Section CBigNum_facts.
Context {B : BNOps} {L : BNLaws B}.

Lemma mpi_assign_val bn body :
  bytes_ok body -> Z.of_nat (length body) < 2 ^ 31 ->
  bn_val (mpi_assign bn (with_size body)) = snum_decode (rev body).
Proof.
  intros Hb Hl. unfold mpi_assign. rewrite with_size_be32 by done.
  by destruct (BN_mpi2bn_val body Hb Hl) as (a & -> & Hv).
Qed.

Lemma sign_loop_ok fNegative src : bytes_ok src -> bytes_ok (sign_loop fNegative src).
Proof.
  induction 1 as [|c src Hc Hsrc IH]; [constructor|]. cbn [sign_loop].
  rewrite byte_high_bit by done. destruct (c =? 0); [done|].
  destruct (Z.leb_spec 128 c).
  - constructor; [destruct fNegative; unfold is_digit; lia|]. by constructor.
  - constructor; [|done]. destruct fNegative; [|done].
    rewrite byte_set_sign by done. unfold is_digit in *. lia.
Qed.

Lemma length_sign_loop fNegative src :
  (length (sign_loop fNegative src) <= S (length src))%nat.
Proof.
  induction src as [|c src IH]; simpl; [lia|]. repeat case_goal; simpl; lia.
Qed.

Lemma int_bytes_val fNegative n :
  0 <= n < 2 ^ 64 ->
  bn_val (mpi_assign BN_new (with_size (int_loop fNegative 8 n true))) =
  (if fNegative then -1 else 1) * n.
Proof.
  intros Hn. rewrite int_loop_sign by (done || lia).
  rewrite (firstn_all2 (n := 8)) by (rewrite length_rev, length_to_digits; lia).
  assert (bytes_ok (rev (le_bytes 8 n))) as Hok by (by apply rev_bytes_ok, to_digits_digits).
  rewrite mpi_assign_val.
  - rewrite sign_loop_decode, rev_involutive, digits_val_to_digits by done.
    rewrite Z.mod_small by lia. done.
  - by apply sign_loop_ok.
  - pose proof (length_sign_loop fNegative (rev (le_bytes 8 n))) as Hl.
    rewrite length_rev, length_to_digits in Hl. lia.
Qed.

Lemma setint64_val sn : - 2 ^ 63 <= sn < 2 ^ 63 -> bn_val (setint64 sn) = sn.
Proof.
  intros Hsn. unfold setint64. destruct (Z.ltb_spec sn 0).
  - rewrite (wrap_small 64 (- (sn + 1))) by lia.
    rewrite (wrap_small 64 (- (sn + 1) + 1)) by lia. rewrite int_bytes_val by lia. lia.
  - rewrite wrap_small by lia. rewrite int_bytes_val by lia. lia.
Qed.

Lemma setuint64_val n : 0 <= n < 2 ^ 64 -> bn_val (setuint64 n) = n.
Proof. intros. unfold setuint64. rewrite int_bytes_val by lia. lia. Qed.

Lemma CBigNum_of_int_val n : - 2 ^ 31 <= n < 2 ^ 31 -> bn_val (CBigNum_of_int n) = n.
Proof.
  intros. unfold CBigNum_of_int. destruct (Z.leb_spec 0 n).
  - apply BN_set_word_val. lia.
  - apply setint64_val. lia.
Qed.

Lemma CBigNum_of_long_val n : - 2 ^ 63 <= n < 2 ^ 63 -> bn_val (CBigNum_of_long n) = n.
Proof.
  intros. unfold CBigNum_of_long. destruct (Z.leb_spec 0 n).
  - apply BN_set_word_val. lia.
  - apply setint64_val. lia.
Qed.

Lemma setuint_val n :
  limbs_ok n -> (length n < 1000)%nat -> bn_val (setuint256 n) = uval n.
Proof.
  intros Hok Hlen. unfold setuint256. rewrite uint_loop_sign.
  assert (bytes_ok (rev (limb_bytes n))) as Hb by (apply rev_bytes_ok, limb_bytes_ok).
  rewrite mpi_assign_val.
  - rewrite sign_loop_decode, rev_involutive, le_val_limb_bytes by done. lia.
  - by apply sign_loop_ok.
  - pose proof (length_sign_loop false (rev (limb_bytes n))) as Hl.
    rewrite length_rev, length_limb_bytes in Hl. lia.
Qed.

Lemma setvch_val vch :
  bytes_ok vch -> Z.of_nat (length vch) < 2 ^ 31 -> bn_val (setvch vch) = snum_decode vch.
Proof.
  intros Hb Hl. unfold setvch.
  rewrite mpi_assign_val by (rewrite ?length_rev; done || by apply rev_bytes_ok).
  by rewrite rev_involutive.
Qed.

Lemma length_bn2mpi bn : Z.of_nat (length (BN_bn2mpi bn)) = 4 + snum_len (bn_val bn).
Proof.
  rewrite BN_bn2mpi_val, length_app, length_be32, length_rev, Nat2Z.inj_add, length_snum_encode.
  done.
Qed.

Lemma drop_bn2mpi bn : drop 4 (BN_bn2mpi bn) = rev (snum_encode (bn_val bn)).
Proof. rewrite BN_bn2mpi_val. apply drop_app_length'. by rewrite length_be32. Qed.

Lemma getvch_val bn : getvch bn = snum_encode (bn_val bn).
Proof.
  unfold getvch. rewrite length_bn2mpi, drop_bn2mpi, rev_involutive.
  destruct (Z.leb_spec (4 + snum_len (bn_val bn)) 4); [|done].
  destruct (decide (bn_val bn = 0)) as [->|Hz]; [done|].
  pose proof (snum_len_pos _ Hz). lia.
Qed.

Lemma getint_val bn :
  getint bn = Z.max (- 2 ^ 31) (Z.min (2 ^ 31 - 1) (bn_val bn)).
Proof.
  unfold getint. rewrite BN_get_word_val, BN_is_negative_val. set (v := bn_val bn).
  destruct (Z.ltb_spec (Z.abs v) (2 ^ 64)), (Z.ltb_spec v 0); cbn [negb];
    case_goal; bool_prop; lia.
Qed.

(** ** Comparison *)

Lemma BN_cmp_cases a b :
  (BN_cmp a b < 0 /\ bn_val a < bn_val b) \/ (BN_cmp a b = 0 /\ bn_val a = bn_val b) \/
  (0 < BN_cmp a b /\ bn_val b < bn_val a).
Proof.
  pose proof (BN_cmp_val a b) as H.
  destruct (Z.compare_spec (BN_cmp a b) 0), (Z.compare_spec (bn_val a) (bn_val b));
    try done; tauto || lia.
Qed.

Lemma bn_compare_val a b :
  bn_eq a b = (bn_val a =? bn_val b) /\ bn_ne a b = negb (bn_val a =? bn_val b) /\
  bn_le a b = (bn_val a <=? bn_val b) /\ bn_ge a b = (bn_val b <=? bn_val a) /\
  bn_lt a b = (bn_val a <? bn_val b) /\ bn_gt a b = (bn_val b <? bn_val a).
Proof.
  unfold bn_eq, bn_ne, bn_le, bn_ge, bn_lt, bn_gt.
  destruct (BN_cmp_cases a b) as [[? ?]|[[? ?]|[? ?]]];
    repeat split; apply eq_true_iff_eq; rewrite ?negb_true_iff, ?Z.eqb_neq, ?Z.eqb_eq,
      ?Z.leb_le, ?Z.ltb_lt; lia.
Qed.

(** [operator>>=] divides rounding down, but gives 0 on every negative number. *)
Lemma bn_shr_val bn shift :
  0 <= shift -> bn_val (bn_shr bn shift) = Z.max 0 (bn_val bn / 2 ^ shift).
Proof.
  intros Hs. unfold bn_shr. pose proof (pow2_pos shift Hs) as Hp.
  set (a := BN_lshift _ _). assert (bn_val a = 2 ^ shift) as Ha.
  { subst a. rewrite BN_lshift_val by done. rewrite CBigNum_of_int_val by lia. lia. }
  destruct (BN_cmp_cases a bn) as [[Hc Hv]|[[Hc Hv]|[Hc Hv]]]; rewrite Ha in Hv.
  - destruct (Z.ltb_spec 0 (BN_cmp a bn)); [lia|]. rewrite BN_rshift_val by done.
    rewrite Z.quot_div_nonneg by lia. pose proof (Z.div_pos (bn_val bn) (2 ^ shift)). lia.
  - destruct (Z.ltb_spec 0 (BN_cmp a bn)); [lia|]. rewrite BN_rshift_val by done.
    rewrite Z.quot_div_nonneg by lia. pose proof (Z.div_pos (bn_val bn) (2 ^ shift)). lia.
  - destruct (Z.ltb_spec 0 (BN_cmp a bn)); [|lia]. rewrite CBigNum_of_int_val by lia.
    destruct (decide (bn_val bn < 0)).
    + pose proof (Z.div_lt_upper_bound (bn_val bn) (2 ^ shift) 0). lia.
    + rewrite Z.div_small by lia. done.
Qed.

(** ** Magnitudes *)

Lemma get_bytes_val bn size : get_bytes bn size = le_bytes size (Z.abs (bn_val bn)).
Proof.
  unfold get_bytes. rewrite length_bn2mpi. set (z := bn_val bn).
  pose proof (snum_len_nonneg z) as Hn0. destruct (Z.ltb_spec (4 + snum_len z) 4); [lia|].
  destruct (decide (z = 0)) as [Hz|Hz].
  { rewrite Hz. change (4 <? 4 + snum_len 0) with false. cbv iota zeta.
    rewrite drop_bn2mpi. fold z. rewrite Hz. cbn [snum_encode rev]. simpl.
    by rewrite take_nil, Nat.sub_0_r, le_bytes_0. }
  pose proof (snum_len_pos z Hz) as Hn. pose proof (snum_len_bounds z Hz) as Hb.
  destruct (Z.ltb_spec 4 (4 + snum_len z)); [|lia]. rewrite BN_bn2mpi_val. fold z.
  assert (exists k, snum_len z = Z.of_nat (S k)) as [k Hk] by (exists (Z.to_nat (snum_len z - 1)); lia).
  unfold snum_encode. fold (snum_raw z). rewrite Hk, Nat2Z.id, to_digits_snoc, rev_unit.
  set (t := (snum_raw z / 256 ^ Z.of_nat k) mod 256).
  assert (nthZ (be32 (Z.of_nat (S k)) ++ t :: rev (le_bytes k (snum_raw z))) 4 = t) as ->.
  { unfold nthZ. rewrite lookup_app_r by (rewrite length_be32; lia). by rewrite length_be32. }
  rewrite insert_app_r_alt by (rewrite length_be32; lia). rewrite length_be32.
  cbn [Nat.sub insert list_insert]. rewrite drop_app_length' by (by rewrite length_be32).
  cbn [rev]. rewrite rev_involutive.
  assert (le_bytes k (snum_raw z) ++ [t .& 127] = le_bytes (S k) (Z.abs z)) as ->.
  { rewrite byte_clear_sign by (apply Z.mod_pos_bound; lia). rewrite (to_digits_snoc k (Z.abs z)).
    assert (2 ^ (8 * Z.of_nat (S k) - 1) = 128 * 256 ^ Z.of_nat k) as Hhalf.
    { rewrite pow256 by lia. change 128 with (2 ^ 7). rewrite <- Z.pow_add_r by lia. f_equal. lia. }
    rewrite Hk, Hhalf in Hb. subst t. unfold snum_raw. rewrite Hk, Hhalf.
    assert (Hp : 0 < 256 ^ Z.of_nat k) by (apply Z.pow_pos_nonneg; lia).
    set (s := if z <? 0 then 128 else 0).
    assert (Z.abs z + (if z <? 0 then 128 * 256 ^ Z.of_nat k else 0) =
      Z.abs z + s * 256 ^ Z.of_nat k) as -> by (subst s; case_goal; lia).
    assert (Hq : 0 <= Z.abs z / 256 ^ Z.of_nat k < 128)
      by (split; [apply Z.div_pos; lia|apply Z.div_lt_upper_bound; lia]).
    rewrite Z.div_add by lia. f_equal.
    - rewrite <- to_digits_mod, Z.mod_add, to_digits_mod by lia. done.
    - f_equal. rewrite (Z.mod_small (Z.abs z / _) 256) by lia.
      rewrite (Z.mod_small (_ + s) 256) by (subst s; case_goal; lia).
      subst s. case_goal; [rewrite <- (Z.mul_1_l 128) at 1; rewrite Z.mod_add|rewrite Z.add_0_r];
        try lia; apply Z.mod_small; lia. }
  apply le_bytes_resize. rewrite <- Hk, pow256 by lia. rewrite half_double by lia. lia.
Qed.

Lemma getuint64_val bn : getuint64 bn = Z.abs (bn_val bn) mod 2 ^ 64.
Proof. unfold getuint64. rewrite get_bytes_val, digits_val_to_digits by lia. done. Qed.

Lemma getuint256_ok bn : uint_ok WIDTH256 (getuint256 bn).
Proof.
  unfold getuint256. split; [apply length_limbs_of_bytes|]. apply limbs_of_bytes_ok.
  rewrite get_bytes_val. by apply to_digits_digits.
Qed.

Lemma getuint256_val bn : uval (getuint256 bn) = Z.abs (bn_val bn) mod 2 ^ 256.
Proof.
  pose proof (getuint256_ok bn) as [_ Hok]. rewrite <- le_val_limb_bytes by done.
  unfold getuint256. rewrite get_bytes_val, limb_bytes_limbs_of_bytes
    by (by apply to_digits_digits || apply length_to_digits).
  by rewrite digits_val_to_digits by lia.
Qed.

(** ** The compact form *)

(** The number a compact word denotes: size byte, sign bit, 23 bits of mantissa *)
Definition compact_val (c : Z) : Z :=
  let m := (c mod 2 ^ 23) * 256 ^ (c / 2 ^ 24) / 256 ^ 3 in
  if Z.testbit c 23 then - m else m.

(** The vector [SetCompact] hands to [BN_mpi2bn] *)
Lemma SetCompact_bytes c :
  0 <= c < 2 ^ 32 ->
  let n := Z.to_nat (c / 2 ^ 24) in
  let body := take n ([(c / 2 ^ 16) mod 256; (c / 2 ^ 8) mod 256; c mod 256] ++ replicate (n - 3) 0) in
  length body = n /\ SetCompact c = mpi_assign BN_new (be32 (Z.of_nat n) ++ body).
Proof.
  intros Hc n body. assert (0 <= c / 2 ^ 24 < 256) as Hs
    by (split; [apply Z.div_pos; lia|apply Z.div_lt_upper_bound; lia]).
  assert (be32 (Z.of_nat n) = [0; 0; 0; Z.of_nat n]) as ->.
  { assert (Z.of_nat n = c / 2 ^ 24) as -> by lia. set (m := c / 2 ^ 24) in *.
    unfold be32. rewrite !to_digits_S. rewrite Z.mod_small, Z.div_small by lia. done. }
  unfold SetCompact. rewrite Z.shiftr_div_pow2 by lia. rewrite wrap_small by (change (2 ^ 8) with 256; lia).
  rewrite !byte_land, !Z.shiftr_div_pow2 by lia.
  subst body. assert (c / 2 ^ 24 = Z.of_nat n) as E by lia. rewrite E, Nat2Z.id. clear E.
  destruct n as [|[|[|n]]]; [by split|by split|by split|].
  repeat match goal with |- context [ ?a <=? ?b ] => destruct (Z.leb_spec a b); [|lia] end.
  split.
  - rewrite length_take, length_app, length_replicate. simpl. lia.
  - simpl. rewrite Nat.sub_0_r. rewrite (firstn_all2 (n := n)) by (rewrite length_replicate; lia). done.
Qed.

Lemma be3_val b0 b1 b2 m :
  le_val (rev ([b0; b1; b2] ++ replicate m 0)) =
  256 ^ Z.of_nat m * (b2 + 256 * (b1 + 256 * b0)).
Proof.
  rewrite rev_app_distr, digits_val_app, length_rev, length_replicate.
  assert (rev (replicate m 0) = replicate m 0) as ->
    by (rewrite rev_alt; apply reverse_replicate).
  rewrite digits_val_replicate_0. cbn [rev app].
  rewrite !digits_val_cons, digits_val_nil. ring.
Qed.

Lemma compact_bytes c :
  0 <= c -> c mod 256 + 256 * ((c / 2 ^ 8) mod 256 + 256 * ((c / 2 ^ 16) mod 256)) = c mod 2 ^ 24.
Proof.
  intros Hc. change (2 ^ 16) with (2 ^ 8 * 2 ^ 8). rewrite <- Z.div_div by lia.
  change (2 ^ 24) with (256 * (256 * 256)). change (2 ^ 8) with 256.
  rewrite !Z.rem_mul_r by lia. done.
Qed.

Lemma mod_2_24_split c :
  c mod 2 ^ 24 = c mod 2 ^ 23 + (if Z.testbit c 23 then 2 ^ 23 else 0).
Proof.
  change (2 ^ 24) with (2 ^ 23 * 2). rewrite Z.rem_mul_r by lia.
  rewrite Z.testbit_eqb by lia.
  pose proof (Z.mod_pos_bound (c / 2 ^ 23) 2). case_goal; bool_prop; lia.
Qed.

Lemma SetCompact_val c : 0 <= c < 2 ^ 32 -> bn_val (SetCompact c) = compact_val c.
Proof.
  intros Hc. destruct (SetCompact_bytes c Hc) as [Hl ->].
  assert (0 <= c / 2 ^ 24 < 256) as Hs
    by (split; [apply Z.div_pos; lia|apply Z.div_lt_upper_bound; lia]).
  set (n := Z.to_nat (c / 2 ^ 24)) in *. set (body := take n _) in *.
  assert (Hb : bytes_ok body).
  { apply Forall_take, Forall_app. split; [|apply Forall_replicate; split; lia].
    repeat constructor; apply Z.mod_pos_bound; lia. }
  rewrite <- Hl at 1. rewrite <- with_size_be32 by lia. rewrite mpi_assign_val by (done || lia).
  unfold compact_val. assert (c / 2 ^ 24 = Z.of_nat n) as -> by lia.
  pose proof (compact_bytes c ltac:(lia)) as Hbytes. pose proof (mod_2_24_split c) as Hsplit.
  pose proof (Z.mod_pos_bound c (2 ^ 23) ltac:(lia)) as Hm.
  pose proof (Z.mod_pos_bound c 256 ltac:(lia)). pose proof (Z.mod_pos_bound (c / 2 ^ 8) 256 ltac:(lia)).
  pose proof (Z.mod_pos_bound (c / 2 ^ 16) 256 ltac:(lia)).
  set (mant := c mod 2 ^ 23) in *. set (b0 := (c / 2 ^ 16) mod 256) in *.
  set (b1 := (c / 2 ^ 8) mod 256) in *. set (b2 := c mod 256) in *.
  subst body. clearbody b0 b1 b2 mant. clear Hl Hb.
  destruct n as [|[|[|n]]].
  - change (256 ^ Z.of_nat 0) with 1. rewrite Z.div_small by lia. by case_goal.
  - cbn [take app rev]. unfold snum_decode. rewrite digits_val_cons, digits_val_nil. cbn [length].
    change (2 ^ (8 * Z.of_nat 1 - 1)) with 128. change (256 ^ Z.of_nat 1) with 256.
    assert (mant * 256 / 256 ^ 3 = mant / 2 ^ 16) as ->
      by (change (256 ^ 3) with (2 ^ 16 * 256); apply Z.div_mul_cancel_r; lia).
    pose proof (Z.div_mod mant (2 ^ 16)). pose proof (Z.mod_pos_bound mant (2 ^ 16)).
    destruct (Z.testbit c 23); case_goal; bool_prop; nia.
  - cbn [take app rev]. unfold snum_decode. rewrite !digits_val_cons, digits_val_nil. cbn [length].
    change (2 ^ (8 * Z.of_nat 2 - 1)) with (2 ^ 15). change (256 ^ Z.of_nat 2) with (2 ^ 16).
    assert (mant * 2 ^ 16 / 256 ^ 3 = mant / 2 ^ 8) as ->
      by (change (256 ^ 3) with (2 ^ 8 * 2 ^ 16); apply Z.div_mul_cancel_r; lia).
    pose proof (Z.div_mod mant (2 ^ 8)). pose proof (Z.mod_pos_bound mant (2 ^ 8)).
    destruct (Z.testbit c 23); case_goal; bool_prop; nia.
  - replace (S (S (S n)) - 3)%nat with n by lia.
    rewrite firstn_all2 by (rewrite length_app, length_replicate; simpl; lia).
    set (l := rev _). assert (le_val l = 256 ^ Z.of_nat n * (c mod 2 ^ 24)) as Hv
      by (subst l; rewrite be3_val; f_equal; lia).
    assert (length l = S (S (S n))) as Hll
      by (subst l; rewrite length_rev, length_app, length_replicate; done).
    unfold snum_decode. destruct l as [|x l'] eqn:El; [done|]. rewrite <- El in *.
    rewrite Hll, Hv.
    assert (2 ^ (8 * Z.of_nat (S (S (S n))) - 1) = 256 ^ Z.of_nat n * 2 ^ 23) as ->.
    { rewrite pow256 by lia. rewrite <- Z.pow_add_r by lia. f_equal. lia. }
    assert (256 ^ Z.of_nat (S (S (S n))) = 256 ^ Z.of_nat n * 256 ^ 3) as ->.
    { rewrite <- Z.pow_add_r by lia. f_equal. lia. }
    rewrite Z.mul_assoc, Z.div_mul by lia.
    assert (0 < 256 ^ Z.of_nat n) by (apply Z.pow_pos_nonneg; lia).
    destruct (Z.testbit c 23); case_goal; bool_prop; nia.
Qed.

(** Byte [i] of the body of the MPI form, from the top *)
Lemma bn2mpi_nthZ bn i :
  Z.of_nat i < snum_len (bn_val bn) ->
  nthZ (BN_bn2mpi bn) (4 + i) =
  (snum_raw (bn_val bn) / 256 ^ (snum_len (bn_val bn) - 1 - Z.of_nat i)) mod 256.
Proof.
  intros Hi. set (z := bn_val bn) in *. set (n := snum_len z) in *.
  unfold nthZ. rewrite BN_bn2mpi_val. fold z.
  rewrite lookup_app_r by (rewrite length_be32; lia). rewrite length_be32.
  replace (4 + i - 4)%nat with i by lia. unfold snum_encode. fold (snum_raw z). fold n.
  rewrite rev_alt. change (rev_append ?l []) with (reverse l).
  rewrite reverse_lookup by (rewrite length_to_digits; lia). rewrite length_to_digits.
  change (default 0 (le_bytes ?a ?b !! ?j)) with (nthZ (le_bytes a b) j).
  rewrite le_bytes_nthZ by lia. f_equal. f_equal. f_equal. lia.
Qed.

(** The low 24 bits of the compact form of [z]: the leading three bytes *)
Definition compact_low (z : Z) : Z := snum_raw z * 256 ^ 3 / 256 ^ snum_len z.

Lemma div_pow_split r a b : 0 <= a -> 0 <= b -> r / 256 ^ (a + b) = r / 256 ^ a / 256 ^ b.
Proof.
  intros. rewrite Z.pow_add_r by lia. rewrite Z.div_div; [done| |]; 
    [apply Z.pow_nonzero; lia|apply Z.pow_pos_nonneg; lia].
Qed.

Lemma GetCompact_val bn :
  snum_len (bn_val bn) < 256 ->
  GetCompact bn = snum_len (bn_val bn) * 2 ^ 24 + compact_low (bn_val bn).
Proof.
  intros Hn. unfold GetCompact. rewrite length_bn2mpi. set (z := bn_val bn) in *.
  pose proof (snum_len_nonneg z) as Hn0. replace (4 + snum_len z - 4) with (snum_len z) by lia.
  rewrite (wrap_small 32 (snum_len z)) by lia.
  rewrite Z.shiftl_mul_pow2, wrap_small by lia.
  destruct (decide (z = 0)) as [Hz|Hz]; [by rewrite Hz|].
  pose proof (snum_len_pos z Hz) as Hpos. pose proof (snum_raw_range z Hz) as Hr.
  assert (Hby : forall v, is_byte (v mod 256)) by (intros; apply Z.mod_pos_bound; lia).
  unfold compact_low. set (r := snum_raw z) in *. set (n := snum_len z) in *.
  destruct (Z.leb_spec 1 n); [|lia].
  pose proof (bn2mpi_nthZ bn 0 ltac:(fold z n; lia)) as H0. fold z n r in H0.
  change (4 + 0)%nat with 4%nat in H0. rewrite H0.
  rewrite <- Z.shiftl_mul_pow2 by lia. change 24 with (16 + 8). rewrite lor_byte by (done || lia).
  rewrite (Z.shiftl_mul_pow2 n (16 + 8)) by lia. change (16 + 8) with 24.
  destruct (Z.leb_spec 2 n) as [H2|H2].
  2: { assert (n = 1) as -> by lia. change (3 <=? 1) with false. cbv iota.
       change (256 ^ (1 - 1 - Z.of_nat 0)) with 1. change (256 ^ 1) with 256 in *.
       rewrite Z.div_1_r, Z.mod_small, Z.shiftl_mul_pow2 by lia.
       change (256 ^ 3) with (2 ^ 16 * 256). rewrite Z.mul_assoc, Z.div_mul by lia. lia. }
  pose proof (bn2mpi_nthZ bn 1 ltac:(fold z n; lia)) as H1. fold z n r in H1.
  change (4 + 1)%nat with 5%nat in H1. rewrite H1.
  change 16 with (8 + 8). rewrite lor_byte by (done || lia).
  destruct (Z.leb_spec 3 n) as [H3|H3].
  2: { assert (n = 2) as -> by lia. change (2 - 1 - Z.of_nat 0) with 1. change (2 - 1 - Z.of_nat 1) with 0.
       change (256 ^ 1) with 256. change (256 ^ 0) with 1. change (256 ^ 2) with (256 * 256) in *.
       rewrite Z.div_1_r, (Z.mod_small (r / 256)), Z.shiftl_mul_pow2
         by (try split; try apply Z.div_pos; try apply Z.div_lt_upper_bound; lia).
       change (256 ^ 3) with (2 ^ 8 * (256 * 256)). rewrite Z.mul_assoc, Z.div_mul by lia.
       pose proof (Z.div_mod r 256). lia. }
  pose proof (bn2mpi_nthZ bn 2 ltac:(fold z n; lia)) as H6. fold z n r in H6.
  change (4 + 2)%nat with 6%nat in H6. rewrite H6.
  rewrite <- (Z.shiftl_0_r ((r / 256 ^ (n - 1 - Z.of_nat 2)) mod 256)).
  change 8 with (0 + 8) at 1. rewrite lor_byte by (done || lia). rewrite Z.shiftl_0_r.
  replace (n - 1 - Z.of_nat 0) with (n - 3 + 2) by lia.
  replace (n - 1 - Z.of_nat 1) with (n - 3 + 1) by lia.
  replace (n - 1 - Z.of_nat 2) with (n - 3) by lia.
  rewrite (div_pow_split r (n - 3) 2), (div_pow_split r (n - 3) 1) by lia.
  assert (r * 256 ^ 3 / 256 ^ n = r / 256 ^ (n - 3)) as ->.
  { replace (256 ^ n) with (256 ^ (n - 3) * 256 ^ 3) by (rewrite <- Z.pow_add_r by lia; f_equal; lia).
    apply Z.div_mul_cancel_r; [apply Z.pow_nonzero; lia|lia]. }
  set (q := r / 256 ^ (n - 3)).
  assert (0 <= q < 2 ^ 24).
  { subst q. assert (0 < 256 ^ (n - 3)) by (apply Z.pow_pos_nonneg; lia).
    split; [apply Z.div_pos; lia|]. apply Z.div_lt_upper_bound; [lia|].
    change (2 ^ 24) with (256 ^ 3). rewrite <- Z.pow_add_r by lia.
    replace (n - 3 + 3) with n by lia. lia. }
  change (256 ^ 2) with (2 ^ 16). change (256 ^ 1) with (2 ^ 8).
  pose proof (compact_bytes q ltac:(lia)) as Hq. rewrite (Z.mod_small q (2 ^ 24)) in Hq by lia. lia.
Qed.

Lemma compact_low_range z : 0 <= compact_low z < 2 ^ 24.
Proof.
  unfold compact_low. destruct (decide (z = 0)) as [->|Hz]; [done|].
  pose proof (snum_raw_range z Hz). pose proof (snum_len_pos z Hz).
  assert (0 < 256 ^ snum_len z) by (apply Z.pow_pos_nonneg; lia).
  split; [apply Z.div_pos; lia|]. apply Z.div_lt_upper_bound; [lia|].
  change (256 ^ 3) with (2 ^ 24). nia.
Qed.

(** [z] with all but the leading three bytes of its encoding cleared *)
Definition compact_trunc (z : Z) : Z :=
  let n := snum_len z in
  if n <=? 3 then z else Z.sgn z * (Z.abs z / 256 ^ (n - 3) * 256 ^ (n - 3)).

Lemma compact_low_split z :
  z <> 0 ->
  compact_low z = Z.abs z * 256 ^ 3 / 256 ^ snum_len z + (if z <? 0 then 2 ^ 23 else 0) /\
  0 <= Z.abs z * 256 ^ 3 / 256 ^ snum_len z < 2 ^ 23.
Proof.
  intros Hz. pose proof (snum_len_pos z Hz). pose proof (snum_len_bounds z Hz) as Hb.
  unfold compact_low, snum_raw. set (n := snum_len z) in *.
  assert (0 < 256 ^ n) as Hp by (apply Z.pow_pos_nonneg; lia).
  assert (2 ^ (8 * n - 1) * 256 ^ 3 = 2 ^ 23 * 256 ^ n) as Hh.
  { change (256 ^ 3) with (2 ^ 24). rewrite pow256, <- !Z.pow_add_r by lia. f_equal. lia. }
  split.
  - case_goal; [|by rewrite !Z.add_0_r].
    rewrite Z.mul_add_distr_r, Hh, Z.div_add by lia. done.
  - split; [apply Z.div_pos; lia|]. apply Z.div_lt_upper_bound; nia.
Qed.

Lemma SetCompact_GetCompact bn :
  snum_len (bn_val bn) < 256 ->
  bn_val (SetCompact (GetCompact bn)) = compact_trunc (bn_val bn).
Proof.
  intros Hn. rewrite GetCompact_val by done. set (z := bn_val bn) in *.
  pose proof (compact_low_range z) as Hlow. pose proof (snum_len_nonneg z) as Hn0.
  rewrite SetCompact_val by lia. unfold compact_val, compact_trunc.
  rewrite (Z.add_comm (snum_len z * 2 ^ 24)).
  assert ((compact_low z + snum_len z * 2 ^ 24) / 2 ^ 24 = snum_len z) as ->
    by (rewrite Z.div_add, Z.div_small by lia; done).
  assert (Hmod : (compact_low z + snum_len z * 2 ^ 24) mod 2 ^ 23 = compact_low z mod 2 ^ 23).
  { change (2 ^ 24) with (2 * 2 ^ 23). rewrite Z.mul_assoc, Z.mod_add by lia. done. }
  assert (Hbit : Z.testbit (compact_low z + snum_len z * 2 ^ 24) 23 = Z.testbit (compact_low z) 23).
  { rewrite Z.mul_comm, add_shift_testbit by lia. done. }
  rewrite Hmod, Hbit. destruct (decide (z = 0)) as [->|Hz]; [done|].
  destruct (compact_low_split z Hz) as [-> Hq]. pose proof (snum_len_pos z Hz).
  set (q := Z.abs z * 256 ^ 3 / 256 ^ snum_len z) in *.
  assert (q * 256 ^ snum_len z / 256 ^ 3 =
    if snum_len z <=? 3 then Z.abs z else Z.abs z / 256 ^ (snum_len z - 3) * 256 ^ (snum_len z - 3)) as Hq2.
  { subst q. set (n := snum_len z) in *. destruct (Z.leb_spec n 3).
    - assert (256 ^ 3 = 256 ^ (3 - n) * 256 ^ n) as -> by (rewrite <- Z.pow_add_r by lia; f_equal; lia).
      assert (0 < 256 ^ n) by (apply Z.pow_pos_nonneg; lia).
      assert (0 < 256 ^ (3 - n)) by (apply Z.pow_pos_nonneg; lia).
      rewrite Z.mul_assoc, Z.div_mul, Z.div_mul_cancel_r, Z.div_mul by lia. done.
    - assert (256 ^ n = 256 ^ (n - 3) * 256 ^ 3) as -> by (rewrite <- Z.pow_add_r by lia; f_equal; lia).
      assert (0 < 256 ^ (n - 3)) by (apply Z.pow_pos_nonneg; lia).
      rewrite Z.div_mul_cancel_r, Z.mul_assoc, Z.div_mul by lia. done. }
  destruct (Z.ltb_spec z 0).
  - assert ((q + 2 ^ 23) mod 2 ^ 23 = q) as ->
      by (replace (q + 2 ^ 23) with (q + 1 * 2 ^ 23) by lia; rewrite Z.mod_add by lia;
          by apply Z.mod_small).
    rewrite Hq2.
    replace (q + 2 ^ 23) with (q + 2 ^ 23 * 1) by lia.
    rewrite add_shift_testbit by lia. change (23 <? 23) with false. cbv iota.
    change (Z.testbit 1 (23 - 23)) with true. rewrite (Z.sgn_neg z) by lia. case_goal; lia.
  - rewrite Z.add_0_r, Z.mod_small, Hq2, (testbit_above 23) by lia. rewrite (Z.sgn_pos z) by lia. case_goal; lia.
Qed.

Lemma compact_trunc_len z : snum_len (compact_trunc z) = snum_len z.
Proof.
  unfold compact_trunc. destruct (Z.leb_spec (snum_len z) 3); [done|].
  assert (z <> 0) as Hz by (intros ->; unfold snum_len in *; simpl in *; lia).
  pose proof (snum_len_bounds z Hz) as Hb. set (n := snum_len z) in *.
  set (P := 256 ^ (n - 3)). assert (0 < P) as HP by (apply Z.pow_pos_nonneg; lia).
  assert (2 ^ (8 * (n - 1) - 1) = 2 ^ 15 * P) as Hlo.
  { subst P. rewrite pow256, <- Z.pow_add_r by lia. f_equal. lia. }
  pose proof (Z.div_mod (Z.abs z) P ltac:(lia)) as Hdm. pose proof (Z.mod_pos_bound (Z.abs z) P HP).
  assert (2 ^ 15 <= Z.abs z / P) by (apply Z.div_le_lower_bound; lia).
  apply snum_len_unique; [lia| |nia]. rewrite Z.abs_mul, (Z.abs_eq (_ * P)) by nia.
  replace (Z.abs (Z.sgn z)) with 1 by lia. rewrite Hlo. nia.
Qed.

Lemma compact_trunc_low z : compact_low (compact_trunc z) = compact_low z.
Proof.
  destruct (decide (z = 0)) as [->|Hz]; [done|].
  pose proof (snum_len_pos z Hz) as Hn. pose proof (compact_trunc_len z) as Hlen.
  assert (compact_trunc z <> 0) as Ht.
  { intros E. rewrite E in Hlen. unfold snum_len in Hlen at 1. simpl in Hlen. lia. }
  destruct (compact_low_split z Hz) as [-> _], (compact_low_split _ Ht) as [-> _].
  rewrite Hlen. unfold compact_trunc in *. destruct (Z.leb_spec (snum_len z) 3); [done|].
  set (n := snum_len z) in *.
  set (P := 256 ^ (n - 3)) in *. assert (0 < P) as HP by (apply Z.pow_pos_nonneg; lia).
  pose proof (Z.div_pos (Z.abs z) P ltac:(lia) HP). rewrite Z.abs_mul.
  assert (Z.abs (Z.sgn z) = 1) as -> by lia. rewrite Z.mul_1_l.
  rewrite (Z.abs_eq (_ * P)) by nia.
  assert (256 ^ n = P * 256 ^ 3) as -> by (subst P; rewrite <- Z.pow_add_r by lia; f_equal; lia).
  rewrite !Z.div_mul_cancel_r, Z.div_mul by lia. f_equal.
  destruct (Z.ltb_spec z 0), (Z.ltb_spec (Z.sgn z * (Z.abs z / P * P)) 0); try done; exfalso; nia.
Qed.

(** ** Claims *)

(** the byte vectors of script numbers: [getvch] gives the shortest
    sign-magnitude encoding, and [setvch] reads it back. *)
Lemma bignum_vch_roundtrip_spec (bn : BIGNUM) :
  snum_len (bn_val bn) < 2 ^ 31 ->
  bn_val (setvch (getvch bn)) = bn_val bn /\
  Z.of_nat (length (getvch bn)) = snum_len (bn_val bn) /\ bytes_ok (getvch bn).
Proof.
  intros Hl. rewrite getvch_val. split_and!.
  - rewrite setvch_val, snum_decode_encode by (apply snum_encode_ok || rewrite ?length_snum_encode; done).
    done.
  - apply length_snum_encode.
  - apply snum_encode_ok.
Qed.

(** conversions between machine integers and [CBigNum]: the setters keep the
    value over the whole range of their type (the least 64-bit integer
    included), and [getint] clamps to the range of [int]. *)
Lemma bignum_int_conversions_spec (sn n : Z) (bn : BIGNUM) :
  - 2 ^ 63 <= sn < 2 ^ 63 -> 0 <= n < 2 ^ 64 ->
  bn_val (setint64 sn) = sn /\ bn_val (CBigNum_of_long sn) = sn /\
  bn_val (setuint64 n) = n /\ getuint64 (setuint64 n) = n /\
  getint bn = Z.max (- 2 ^ 31) (Z.min (2 ^ 31 - 1) (bn_val bn)).
Proof.
  intros Hsn Hn. split_and!.
  - by apply setint64_val.
  - by apply CBigNum_of_long_val.
  - by apply setuint64_val.
  - rewrite getuint64_val, setuint64_val, Z.abs_eq by lia. by apply Z.mod_small.
  - apply getint_val.
Qed.

(** a 256-bit integer survives the way through [CBigNum] and back, and a
    [CBigNum] that does not fit is truncated to its low 256 bits. *)
Lemma bignum_uint256_roundtrip_spec (n : list Z) (bn : BIGNUM) :
  uint_ok WIDTH256 n ->
  bn_val (setuint256 n) = uval n /\ getuint256 (setuint256 n) = n /\
  uval (getuint256 bn) = Z.abs (bn_val bn) mod 2 ^ 256.
Proof.
  intros Hn. destruct Hn as [Hl Hok].
  assert (bn_val (setuint256 n) = uval n) as Hv by (apply setuint_val; [done|rewrite Hl; lia]).
  split; [done|]. split; [|apply getuint256_val].
  pose proof (getuint256_ok (setuint256 n)) as [Hl' Hok'].
  apply (digits_val_inj (2 ^ 32)); [lia|done|done|congruence|]. rewrite getuint256_val, Hv.
  pose proof (uval_bound n Hok) as Hb. rewrite Hl in Hb.
  rewrite Z.abs_eq by lia. apply Z.mod_small. exact Hb.
Qed.

(** the compact form of difficulty targets: reading back the compact form
    keeps the leading three bytes of the number and its sign and clears the
    rest, and the result has the same compact form. *)
Theorem bignum_compact_roundtrip (bn : BIGNUM) :
  snum_len (bn_val bn) < 256 ->
  bn_val (SetCompact (GetCompact bn)) = compact_trunc (bn_val bn) /\
  GetCompact (SetCompact (GetCompact bn)) = GetCompact bn.
Proof.
  intros Hl. pose proof (SetCompact_GetCompact bn Hl) as E. split; [done|].
  rewrite (GetCompact_val (SetCompact _)), E by (by rewrite E, compact_trunc_len).
  by rewrite compact_trunc_len, compact_trunc_low, GetCompact_val.
Qed.

(** the conversions of [CBigNum] keep the value: the setters over the whole range
    of their type (the least 64-bit integer included), [getint] clamping to the
    range of [int], a 256-bit integer there and back (a number that does not fit is
    cut to its low 256 bits), and the byte vectors of script numbers, where [getvch]
    gives the shortest sign-magnitude encoding and [setvch] reads it back. *)
Theorem bignum_conversions (bn : BIGNUM) (sn n : Z) (u : list Z) :
  - 2 ^ 63 <= sn < 2 ^ 63 -> 0 <= n < 2 ^ 64 -> uint_ok WIDTH256 u -> snum_len (bn_val bn) < 2 ^ 31 ->
  (bn_val (setint64 sn) = sn /\ bn_val (CBigNum_of_long sn) = sn /\
   bn_val (setuint64 n) = n /\ getuint64 (setuint64 n) = n /\
   getint bn = Z.max (- 2 ^ 31) (Z.min (2 ^ 31 - 1) (bn_val bn))) /\
  (bn_val (setuint256 u) = uval u /\ getuint256 (setuint256 u) = u /\
   uval (getuint256 bn) = Z.abs (bn_val bn) mod 2 ^ 256) /\
  (bn_val (setvch (getvch bn)) = bn_val bn /\
   Z.of_nat (length (getvch bn)) = snum_len (bn_val bn) /\ bytes_ok (getvch bn)).
Proof.
  intros. split; [by apply bignum_int_conversions_spec|].
  split; [by apply bignum_uint256_roundtrip_spec|by apply bignum_vch_roundtrip_spec].
Qed.
End CBigNum_facts.

Lemma bignum_compact_roundtrip_witness :
  bn_val (SetCompact (GetCompact (B := ZBN) 0x1234567890)) = 0x1234560000.
Proof.
  destruct (bignum_compact_roundtrip (B := ZBN) 0x1234567890) as [-> _];
    [vm_compute; reflexivity|reflexivity].
Defined.

Lemma bignum_conversions_witness :
  bn_val (setint64 (B := ZBN) (- 2 ^ 63)) = - 2 ^ 63 /\
  getuint256 (setuint256 (B := ZBN) (assign64 WIDTH256 0xffffffff)) = assign64 WIDTH256 0xffffffff /\
  bn_val (setvch (getvch (B := ZBN) (-255))) = -255.
Proof.
  destruct (bignum_conversions (B := ZBN) (-255) (- 2 ^ 63) 0 (assign64 WIDTH256 0xffffffff))
    as ((-> & _) & (_ & -> & _) & (-> & _));
    [lia|lia|apply uint_ok_assign64; lia|vm_compute; reflexivity|]. by split_and!.
Defined.
