(* ===== verification/Serialize.v ===== *)
(** * [serialize.h]: the wire format

    Streams are lists of bytes.  A serialisable type is a [Codec]: the three
    overloaded functions [GetSerializeSize], [Serialize] and [Unserialize] of
    the source; [CodecOk] is what every codec promises its clients, and each
    instance below discharges it.  [Unserialize] returns [None] where the source
    throws [std::ios_base::failure]. *)

From S2P Require Import Prelude Uint256.

(** ** Reading raw bytes *)

(** [s.read(p, n)] on the bytes left in a stream *)
Definition stream_read (n : nat) (s : list Z) : option (list Z * list Z) :=
  if (n <=? length s)%nat then Some (take n s, drop n s) else None.

Record Codec (T : Type) := {
  GetSerializeSize : T -> Z;
  Serialize : T -> list Z;
  Unserialize : list Z -> option (T * list Z)
}.
Arguments GetSerializeSize {T} _ _.
Arguments Serialize {T} _ _.
Arguments Unserialize {T} _ _.

(** What a codec promises for the values [ok] describes *)
Class CodecOk {T} (c : Codec T) (ok : T -> Prop) := {
  codec_roundtrip x rest : ok x -> Unserialize c (Serialize c x ++ rest) = Some (x, rest);
  codec_size x : ok x -> GetSerializeSize c x = u32 (Z.of_nat (length (Serialize c x)));
  codec_bytes x : ok x -> bytes_ok (Serialize c x)
}.

(** ** Basic types: [WRITEDATA] and [READDATA] of [n]-byte integers *)

Definition uint_codec (n : nat) : Codec Z := {|
  GetSerializeSize _ := Z.of_nat n;
  Serialize a := le_bytes n a;
  Unserialize s := '(bs, s) ← stream_read n s; Some (le_val bs, s)
|}.

Definition sint_codec (n : nat) : Codec Z := {|
  GetSerializeSize _ := Z.of_nat n;
  Serialize a := le_bytes n a;
  Unserialize s := '(bs, s) ← stream_read n s; Some (swrap (8 * Z.of_nat n) (le_val bs), s)
|}.

Definition bool_codec : Codec bool := {|
  GetSerializeSize _ := 1;
  Serialize (a : bool) := [if a then 1 else 0];
  Unserialize s := '(bs, s) ← stream_read 1 s; Some (negb (le_val bs =? 0), s)
|}.

(** ** Compact sizes *)

Definition MAX_SIZE : Z := 0x02000000.

Definition GetSizeOfCompactSize (nSize : Z) : Z :=
  if nSize <? 253 then 1
  else if nSize <=? 0xffff then 1 + 2
  else if nSize <=? 0xffffffff then 1 + 4
  else 1 + 8.

Definition WriteCompactSize (nSize : Z) : list Z :=
  if nSize <? 253 then [u8 nSize]
  else if nSize <=? 0xffff then 253 :: le_bytes 2 nSize
  else if nSize <=? 0xffffffff then 254 :: le_bytes 4 nSize
  else 255 :: le_bytes 8 nSize.

Definition ReadCompactSize (s : list Z) : option (Z * list Z) :=
  '(ch, s) ← stream_read 1 s;
  let chSize := le_val ch in
  '(nSizeRet, s) ←
    (if chSize <? 253 then Some (chSize, s)
     else if chSize =? 253 then
       '(x, s) ← stream_read 2 s;
       if le_val x <? 253 then None else Some (le_val x, s)
     else if chSize =? 254 then
       '(x, s) ← stream_read 4 s;
       if le_val x <? 0x10000 then None else Some (le_val x, s)
     else
       '(x, s) ← stream_read 8 s;
       if le_val x <? 0x100000000 then None else Some (le_val x, s));
  if MAX_SIZE <? nSizeRet then None else Some (nSizeRet, s).

(** ** Vectors of bytes, strings and scripts *)

(** The block loop of [Unserialize_impl] for fundamental element types: at most
    5,000,000 bytes are allocated ahead of the data. *)
Fixpoint read_blocks (fuel : nat) (i nSize : Z) (v s : list Z) : option (list Z * list Z) :=
  match fuel with
  | O => None
  | S fuel' =>
      if i <? nSize then
        let blk := Z.min (nSize - i) (1 + 4999999 / 1) in
        '(bs, s) ← stream_read (Z.to_nat blk) s;
        read_blocks fuel' (i + blk) nSize (v ++ bs) s
      else Some (v, s)
  end.

(** [MAX_SIZE] bytes are seven blocks; one more round leaves the loop. *)
Definition vch_codec : Codec (list Z) := {|
  GetSerializeSize v :=
    u32 (GetSizeOfCompactSize (Z.of_nat (length v)) + Z.of_nat (length v) * 1);
  Serialize v := WriteCompactSize (Z.of_nat (length v)) ++ v;
  Unserialize s := '(nSize, s) ← ReadCompactSize s; read_blocks 8 0 nSize [] s
|}.

Definition string_codec : Codec (list Z) := {|
  GetSerializeSize str :=
    u32 (GetSizeOfCompactSize (Z.of_nat (length str)) + Z.of_nat (length str) * 1);
  Serialize str := WriteCompactSize (Z.of_nat (length str)) ++ str;
  Unserialize s :=
    '(nSize, s) ← ReadCompactSize s;
    if negb (nSize =? 0) then stream_read (Z.to_nat nSize) s else Some ([], s)
|}.

Definition script_codec : Codec (list Z) := vch_codec.

(** ** Vectors of other types *)

Section vector.
Context {T : Type} (sizeofT : Z) (c : Codec T).

(** [for (; i < nMid; i++) Unserialize(is, v[i])], [n] rounds *)
Fixpoint unser_elems (n : nat) (v : list T) (s : list Z) : option (list T * list Z) :=
  match n with
  | O => Some (v, s)
  | S n' => '(x, s) ← Unserialize c s; unser_elems n' (v ++ [x]) s
  end.

Fixpoint read_mids (fuel : nat) (nMid nSize : Z) (v : list T) (s : list Z) :
    option (list T * list Z) :=
  match fuel with
  | O => None
  | S fuel' =>
      if nMid <? nSize then
        let nMid := u32 (nMid + 5000000 / sizeofT) in
        let nMid := if nSize <? nMid then nSize else nMid in
        '(v, s) ← unser_elems (Z.to_nat nMid - length v) v s;
        read_mids fuel' nMid nSize v s
      else Some (v, s)
  end.

Definition vector_codec : Codec (list T) := {|
  GetSerializeSize v :=
    foldl (fun nSize x => u32 (nSize + GetSerializeSize c x))
      (GetSizeOfCompactSize (Z.of_nat (length v))) v;
  Serialize v := WriteCompactSize (Z.of_nat (length v)) ++ mjoin (Serialize c <$> v);
  Unserialize s :=
    '(nSize, s) ← ReadCompactSize s;
    read_mids (S (Z.to_nat nSize)) 0 nSize [] s
|}.
End vector.

(** ** Pairs and tuples *)

Definition pair_codec {A B} (ca : Codec A) (cb : Codec B) : Codec (A * B) := {|
  GetSerializeSize x := u32 (GetSerializeSize ca x.1 + GetSerializeSize cb x.2);
  Serialize x := Serialize ca x.1 ++ Serialize cb x.2;
  Unserialize s :=
    '(a, s) ← Unserialize ca s; '(b, s) ← Unserialize cb s; Some ((a, b), s)
|}.

Definition tuple3_codec {A B C} (ca : Codec A) (cb : Codec B) (cc : Codec C) :
    Codec (A * B * C) := {|
  GetSerializeSize '(a, b, x) :=
    u32 (u32 (u32 (0 + GetSerializeSize ca a) + GetSerializeSize cb b) + GetSerializeSize cc x);
  Serialize '(a, b, x) := Serialize ca a ++ Serialize cb b ++ Serialize cc x;
  Unserialize s :=
    '(a, s) ← Unserialize ca s; '(b, s) ← Unserialize cb s;
    '(x, s) ← Unserialize cc s; Some ((a, b, x), s)
|}.

Definition tuple4_codec {A B C D} (ca : Codec A) (cb : Codec B) (cc : Codec C) (cd : Codec D) :
    Codec (A * B * C * D) := {|
  GetSerializeSize '(a, b, x, y) :=
    u32 (u32 (u32 (u32 (0 + GetSerializeSize ca a) + GetSerializeSize cb b)
              + GetSerializeSize cc x) + GetSerializeSize cd y);
  Serialize '(a, b, x, y) := Serialize ca a ++ Serialize cb b ++ Serialize cc x ++ Serialize cd y;
  Unserialize s :=
    '(a, s) ← Unserialize ca s; '(b, s) ← Unserialize cb s;
    '(x, s) ← Unserialize cc s; '(y, s) ← Unserialize cd s; Some ((a, b, x, y), s)
|}.

(** [base_uint::Serialize]: the limbs as they lie in memory *)
Definition base_uint_codec (W : nat) : Codec (list Z) := {|
  GetSerializeSize _ := 4 * Z.of_nat W;
  Serialize a := Serialize_uint a;
  Unserialize s := Unserialize_uint W s
|}.

(** ** Lemmas: raw bytes and compact sizes *)

Lemma stream_read_app n bs rest : length bs = n -> stream_read n (bs ++ rest) = Some (bs, rest).
Proof.
  intros <-. unfold stream_read. rewrite length_app.
  destruct (Nat.leb_spec (length bs) (length bs + length rest)); [|lia].
  by rewrite take_app_length, drop_app_length.
Qed.

Lemma stream_read_Some n s bs rest :
  stream_read n s = Some (bs, rest) -> s = bs ++ rest /\ length bs = n.
Proof.
  unfold stream_read. intros H. case_hyp H; [|done]. simplify_eq.
  apply Nat.leb_le in Heqb. rewrite take_drop, length_take. split; [done|lia].
Qed.

Lemma le_val_1 ch : le_val [ch] = ch.
Proof. rewrite digits_val_cons, digits_val_nil. lia. Qed.

Lemma le_bytes_roundtrip n x : 0 <= x < 256 ^ Z.of_nat n -> le_val (le_bytes n x) = x.
Proof. intros. rewrite digits_val_to_digits by lia. by apply Z.mod_small. Qed.

Lemma le_val_roundtrip n bs : bytes_ok bs -> length bs = n -> le_bytes n (le_val bs) = bs.
Proof. intros Hb <-. apply to_digits_digits_val; [lia|done]. Qed.

(** Read back an [n]-byte integer in front of a stream *)
Lemma read_le_bytes n x rest :
  0 <= x < 256 ^ Z.of_nat n ->
  stream_read n (le_bytes n x ++ rest) = Some (le_bytes n x, rest) /\ le_val (le_bytes n x) = x.
Proof.
  intros. split; [apply stream_read_app, length_to_digits|by apply le_bytes_roundtrip].
Qed.

Lemma size_limit n (rest : list Z) :
  0 <= n <= MAX_SIZE -> (if MAX_SIZE <? n then None else Some (n, rest)) = Some (n, rest).
Proof. intros. destruct (Z.ltb_spec MAX_SIZE n); [lia|done]. Qed.

Lemma ReadCompactSize_Write n rest :
  0 <= n <= MAX_SIZE -> ReadCompactSize (WriteCompactSize n ++ rest) = Some (n, rest).
Proof.
  intros Hn. pose proof Hn as Hn'. unfold MAX_SIZE in Hn'. unfold ReadCompactSize, WriteCompactSize.
  destruct (Z.ltb_spec n 253).
  - rewrite wrap_small by lia. rewrite (stream_read_app 1 [n]) by done. cbn [mbind option_bind].
    rewrite le_val_1. destruct (Z.ltb_spec n 253); [|lia]. cbn [mbind option_bind].
    by apply size_limit.
  - destruct (Z.leb_spec n 0xffff).
    + change ((253 :: le_bytes 2 n) ++ rest) with ([253] ++ le_bytes 2 n ++ rest).
      rewrite (stream_read_app 1 [253]) by done. cbn [mbind option_bind].
      rewrite le_val_1. simpl (253 <? 253). simpl (253 =? 253). cbv iota.
      destruct (read_le_bytes 2 n rest) as [-> E]; [simpl; lia|]. cbn [mbind option_bind].
      rewrite E. destruct (Z.ltb_spec n 253); [lia|]. cbn [mbind option_bind].
      by apply size_limit.
    + destruct (Z.leb_spec n 0xffffffff); [|lia].
      change ((254 :: le_bytes 4 n) ++ rest) with ([254] ++ le_bytes 4 n ++ rest).
      rewrite (stream_read_app 1 [254]) by done. cbn [mbind option_bind].
      rewrite le_val_1. simpl (254 <? 253). simpl (254 =? 253). simpl (254 =? 254). cbv iota.
      destruct (read_le_bytes 4 n rest) as [-> E]; [simpl; lia|]. cbn [mbind option_bind].
      rewrite E. destruct (Z.ltb_spec n 0x10000); [lia|]. cbn [mbind option_bind].
      by apply size_limit.
Qed.

(** What was read spells its value *)
Lemma stream_read_le n s bs rest :
  bytes_ok s -> stream_read n s = Some (bs, rest) ->
  s = le_bytes n (le_val bs) ++ rest /\ 0 <= le_val bs < 256 ^ Z.of_nat n /\ bytes_ok rest.
Proof.
  intros Hs H. apply stream_read_Some in H as [-> Hl]. apply Forall_app in Hs as [Hb Hr].
  rewrite le_val_roundtrip by done. split; [done|]. split; [|done].
  rewrite <- Hl. by apply digits_val_bound; [lia|].
Qed.

Lemma ReadCompactSize_Some s n rest :
  bytes_ok s -> ReadCompactSize s = Some (n, rest) ->
  s = WriteCompactSize n ++ rest /\ 0 <= n <= MAX_SIZE.
Proof.
  intros Hs. unfold ReadCompactSize. destruct (stream_read 1 s) as [[ch s']|] eqn:E1; [|done].
  apply stream_read_le in E1 as (-> & Hch & Hs'); [|done]. cbn [mbind option_bind].
  set (c := le_val ch) in *. clearbody c. unfold WriteCompactSize.
  destruct (Z.ltb_spec c 253) as [Hc|Hc].
  - cbn [mbind option_bind]. destruct (Z.ltb_spec MAX_SIZE c); [done|]. intros [= <- <-].
    destruct (Z.ltb_spec c 253); [|lia]. rewrite wrap_small by lia. split; [|lia].
    by rewrite to_digits_S, Z.mod_small by lia.
  - destruct (Z.eqb_spec c 253) as [->|]; [|destruct (Z.eqb_spec c 254) as [->|]].
    1: destruct (stream_read 2 s') as [[x r]|] eqn:E.
    3: destruct (stream_read 4 s') as [[x r]|] eqn:E.
    5: destruct (stream_read 8 s') as [[x r]|] eqn:E.
    all: try done.
    all: apply stream_read_le in E as (-> & Hx & Hr); [|done]; cbn [mbind option_bind].
    all: case_goal; [done|]; bool_prop; cbn [mbind option_bind].
    all: destruct (Z.ltb_spec MAX_SIZE (le_val x)); [done|]; intros [= <- <-].
    all: unfold MAX_SIZE in *; destruct (Z.ltb_spec (le_val x) 253); [lia|].
    + destruct (Z.leb_spec (le_val x) 0xffff); [|simpl in Hx; lia]. split; [done|lia].
    + destruct (Z.leb_spec (le_val x) 0xffff); [lia|].
      destruct (Z.leb_spec (le_val x) 0xffffffff); [|lia]. split; [done|lia].
    + lia.
Qed.

Lemma length_WriteCompactSize n :
  Z.of_nat (length (WriteCompactSize n)) = GetSizeOfCompactSize n.
Proof.
  unfold WriteCompactSize, GetSizeOfCompactSize.
  repeat case_goal; cbn [length]; rewrite ?length_to_digits; lia.
Qed.

Lemma WriteCompactSize_ok n : bytes_ok (WriteCompactSize n).
Proof.
  unfold WriteCompactSize. repeat case_goal; constructor;
    try apply to_digits_digits; try (apply wrap_range); try done; lia.
Qed.

(** ** Lemmas: the loops of [Unserialize] *)

Lemma stream_read_split a b s :
  stream_read (a + b) s =
  ('(x, s) ← stream_read a s; '(y, s) ← stream_read b s; Some (x ++ y, s)).
Proof.
  unfold stream_read. destruct (Nat.leb_spec (a + b) (length s)).
  - destruct (Nat.leb_spec a (length s)); [|lia]. cbn [mbind option_bind]. rewrite length_drop.
    destruct (Nat.leb_spec b (length s - a)); [|lia]. cbn [mbind option_bind].
    by rewrite take_take_drop, drop_drop.
  - destruct (Nat.leb_spec a (length s)); [|done]. cbn [mbind option_bind]. rewrite length_drop.
    destruct (Nat.leb_spec b (length s - a)); [lia|done].
Qed.

(** The block loop reads [nSize - i] bytes, whatever the block boundaries. *)
Lemma read_blocks_spec fuel i nSize v s :
  0 <= i <= nSize -> nSize - i <= (Z.of_nat fuel - 1) * 5000000 -> (0 < fuel)%nat ->
  read_blocks fuel i nSize v s =
  ('(bs, s) ← stream_read (Z.to_nat (nSize - i)) s; Some (v ++ bs, s)).
Proof.
  revert i v s. induction fuel as [|fuel IH]; intros i v s Hi Hf Hpos; [lia|].
  cbn [read_blocks]. destruct (Z.ltb_spec i nSize) as [Hlt|Hge].
  - change (1 + 4999999 / 1) with 5000000. set (blk := Z.min (nSize - i) 5000000).
    replace (Z.to_nat (nSize - i)) with (Z.to_nat blk + Z.to_nat (nSize - (i + blk)))%nat by lia.
    rewrite stream_read_split. destruct (stream_read (Z.to_nat blk) s) as [[bs s']|]; [|done].
    cbn [mbind option_bind]. rewrite IH by lia.
    destruct (stream_read _ s') as [[bs' s'']|]; [|done]. cbn [mbind option_bind].
    by rewrite app_assoc.
  - replace (Z.to_nat (nSize - i)) with 0%nat by lia. unfold stream_read. simpl.
    by rewrite drop_0, app_nil_r.
Qed.

Section vector_facts.
Context {T : Type} (sizeofT : Z) (c : Codec T).
Hypothesis sizeofT_ok : 0 < sizeofT <= 5000000.

Lemma unser_elems_split a b v s :
  unser_elems c (a + b) v s = ('(v, s) ← unser_elems c a v s; unser_elems c b v s).
Proof.
  revert v s. induction a as [|a IH]; intros v s; [done|]. cbn [Nat.add unser_elems].
  destruct (Unserialize c s) as [[x s']|]; [|done]. apply IH.
Qed.

Lemma unser_elems_length n v s v' s' :
  unser_elems c n v s = Some (v', s') -> length v' = (length v + n)%nat.
Proof.
  revert v s. induction n as [|n IH]; intros v s; cbn [unser_elems]; [intros; simplify_eq; lia|].
  destruct (Unserialize c s) as [[x s1]|]; [|done]. intros H. apply IH in H.
  rewrite length_app in H. simpl in H. lia.
Qed.

(** Reading in instalments is reading [nSize] elements in a row. *)
Lemma read_mids_spec fuel nSize v s :
  Z.of_nat (length v) <= nSize <= MAX_SIZE -> nSize - Z.of_nat (length v) < Z.of_nat fuel ->
  read_mids sizeofT c fuel (Z.of_nat (length v)) nSize v s =
  unser_elems c (Z.to_nat nSize - length v) v s.
Proof.
  revert v s. induction fuel as [|fuel IH]; intros v s Hv Hf; [lia|]. unfold MAX_SIZE in Hv.
  cbn [read_mids]. destruct (Z.ltb_spec (Z.of_nat (length v)) nSize) as [Hlt|Hge].
  - assert (1 <= 5000000 / sizeofT <= 5000000) as Hq
      by (split; [apply Z.div_le_lower_bound; lia|apply Z.div_le_upper_bound; nia]).
    rewrite wrap_small by lia. set (mid := if _ <? _ then _ else _).
    assert (Z.of_nat (length v) < mid <= nSize) as Hmid by (subst mid; case_goal; bool_prop; lia).
    replace (Z.to_nat nSize - length v)%nat
      with ((Z.to_nat mid - length v) + (Z.to_nat nSize - Z.to_nat mid))%nat by lia.
    rewrite unser_elems_split. destruct (unser_elems c _ v s) as [[v' s']|] eqn:E; [|done].
    cbn [mbind option_bind]. apply unser_elems_length in E.
    replace mid with (Z.of_nat (length v')) by lia. rewrite IH by (unfold MAX_SIZE; lia).
    f_equal. lia.
  - replace (Z.to_nat nSize - length v)%nat with 0%nat by lia. done.
Qed.

Lemma unser_elems_ser (ok : T -> Prop) `{!CodecOk c ok} xs v rest :
  Forall ok xs ->
  unser_elems c (length xs) v (mjoin (Serialize c <$> xs) ++ rest) = Some (v ++ xs, rest).
Proof.
  intros Hxs. revert v. induction Hxs as [|x xs Hx Hxs IH]; intros v.
  { simpl. by rewrite app_nil_r. }
  cbn [length unser_elems fmap list_fmap]. change (mjoin (?a :: ?l)) with (a ++ mjoin l).
  rewrite <- app_assoc, codec_roundtrip by done. cbn [mbind option_bind].
  change (list_fmap T (list Z) (Serialize c) xs) with (Serialize c <$> xs).
  rewrite IH, <- app_assoc. done.
Qed.
End vector_facts.

(** ** Every codec keeps its promise *)

Lemma wrap_add_l w a b : wrap w (wrap w a + b) = wrap w (a + b).
Proof.
  unfold wrap. destruct (decide (2 ^ w = 0)) as [->|]; [by rewrite !Z.mod_0_r|].
  by apply Z.add_mod_idemp_l.
Qed.

Lemma wrap_add_r w a b : wrap w (a + wrap w b) = wrap w (a + b).
Proof. by rewrite Z.add_comm, wrap_add_l, Z.add_comm. Qed.

Definition fits (n : nat) (x : Z) : Prop := 0 <= x < 256 ^ Z.of_nat n.
Definition sfits (n : nat) (x : Z) : Prop :=
  - 2 ^ (8 * Z.of_nat n - 1) <= x < 2 ^ (8 * Z.of_nat n - 1).
(** Byte vectors and vectors of length within [MAX_SIZE] *)
Definition vch_ok (v : list Z) : Prop := bytes_ok v /\ Z.of_nat (length v) <= MAX_SIZE.
Definition vec_ok {T} (ok : T -> Prop) (v : list T) : Prop :=
  Forall ok v /\ Z.of_nat (length v) <= MAX_SIZE.

#[export] Instance uint_codec_ok n `{!TCEq (n <=? 8)%nat true} : CodecOk (uint_codec n) (fits n).
Proof.
  rename select (TCEq _ _) into Hn. apply TCEq_eq, Nat.leb_le in Hn. split; cbn.
  - intros x rest Hx. destruct (read_le_bytes n x rest Hx) as [-> E]. cbn. by rewrite E.
  - intros x _. rewrite length_to_digits, wrap_small by lia. done.
  - intros x _. apply to_digits_digits. lia.
Qed.

Lemma swrap_mod w x : 0 < w -> - 2 ^ (w - 1) <= x < 2 ^ (w - 1) -> swrap w (x mod 2 ^ w) = x.
Proof.
  intros Hw Hx. unfold swrap. assert (2 ^ w = 2 * 2 ^ (w - 1)) as E.
  { rewrite <- Z.pow_succ_r by lia. f_equal. lia. }
  rewrite Z.add_mod_idemp_l by lia. rewrite Z.mod_small by lia. lia.
Qed.

#[export] Instance sint_codec_ok n `{!TCEq (n <=? 8)%nat true, !TCEq (1 <=? n)%nat true} :
  CodecOk (sint_codec n) (sfits n).
Proof.
  rename select (TCEq (n <=? 8)%nat _) into Hn. apply TCEq_eq, Nat.leb_le in Hn.
  rename select (TCEq (1 <=? n)%nat _) into Hn'. apply TCEq_eq, Nat.leb_le in Hn'. split; cbn.
  - intros x rest Hx. rewrite stream_read_app by apply length_to_digits. cbn.
    rewrite digits_val_to_digits by lia. change 256 with (2 ^ 8).
    rewrite <- Z.pow_mul_r by lia. by rewrite swrap_mod by (done || lia).
  - intros x _. rewrite length_to_digits, wrap_small by lia. done.
  - intros x _. apply to_digits_digits. lia.
Qed.

#[export] Instance bool_codec_ok : CodecOk bool_codec (fun _ => True).
Proof.
  split; cbn.
  - by intros [] rest _.
  - done.
  - intros x _. destruct x; repeat constructor; lia.
Qed.

#[export] Instance base_uint_codec_ok W `{!TCEq (W <=? 100)%nat true} :
  CodecOk (base_uint_codec W) (uint_ok W).
Proof.
  rename select (TCEq _ _) into Hn. apply TCEq_eq, Nat.leb_le in Hn. split; cbn.
  - intros x rest [Hl Hok]. unfold Unserialize_uint, Serialize_uint.
    rewrite length_app, length_limb_bytes, Hl. case_goal; [bool_prop; lia|].
    rewrite <- Hl, <- length_limb_bytes, take_app_length, drop_app_length.
    by rewrite limbs_of_bytes_limb_bytes.
  - intros x [Hl _]. unfold Serialize_uint. rewrite length_limb_bytes, Hl, wrap_small by lia. lia.
  - intros x _. apply limb_bytes_ok.
Qed.

#[export] Instance vch_codec_ok : CodecOk vch_codec vch_ok.
Proof.
  split; cbn [Unserialize Serialize GetSerializeSize vch_codec].
  - intros x rest [Hx Hl]. rewrite <- app_assoc, ReadCompactSize_Write by lia. cbn [mbind option_bind].
    unfold MAX_SIZE in Hl. rewrite read_blocks_spec by lia.
    rewrite stream_read_app by lia. done.
  - intros x _. rewrite length_app, Nat2Z.inj_add, length_WriteCompactSize. f_equal. lia.
  - intros x [Hx _]. apply Forall_app. split; [apply WriteCompactSize_ok|done].
Qed.

#[export] Instance string_codec_ok : CodecOk string_codec vch_ok.
Proof.
  split; cbn [Unserialize Serialize GetSerializeSize string_codec].
  - intros x rest [Hx Hl]. rewrite <- app_assoc, ReadCompactSize_Write by lia. cbn [mbind option_bind].
    destruct (Z.eqb_spec (Z.of_nat (length x)) 0) as [E|E]; cbn [negb].
    + destruct x; [done|simpl in E; lia].
    + by rewrite stream_read_app by lia.
  - intros x _. rewrite length_app, Nat2Z.inj_add, length_WriteCompactSize. f_equal. lia.
  - intros x [Hx _]. apply Forall_app. split; [apply WriteCompactSize_ok|done].
Qed.

#[export] Instance script_codec_ok : CodecOk script_codec vch_ok := vch_codec_ok.

Lemma vector_size_fold {T} (c : Codec T) (ok : T -> Prop) `{!CodecOk c ok} v n :
  Forall ok v ->
  u32 (foldl (fun nSize x => u32 (nSize + GetSerializeSize c x)) n v) =
  u32 (n + Z.of_nat (length (mjoin (Serialize c <$> v)))).
Proof.
  intros Hv. revert n. induction Hv as [|x v Hx Hv IH]; intros n; [simpl; f_equal; lia|].
  cbn [foldl fmap list_fmap]. change (mjoin (?a :: ?l)) with (a ++ mjoin l).
  change (list_fmap T (list Z) (Serialize c) v) with (Serialize c <$> v).
  rewrite IH, wrap_add_l, length_app, codec_size by done.
  rewrite Nat2Z.inj_add, <- !Z.add_assoc, (Z.add_comm (u32 _)), !Z.add_assoc, wrap_add_r.
  f_equal. lia.
Qed.

Lemma vector_size_small {T} (c : Codec T) v n :
  0 <= n < 2 ^ 32 ->
  u32 (foldl (fun nSize x => u32 (nSize + GetSerializeSize c x)) n v) =
  foldl (fun nSize x => u32 (nSize + GetSerializeSize c x)) n v.
Proof.
  revert n. induction v as [|x v IH]; intros n Hn; [by apply wrap_small|].
  cbn [foldl]. apply IH, wrap_range. lia.
Qed.

#[export] Instance vector_codec_ok {T} sizeofT (c : Codec T) (ok : T -> Prop)
  `{!CodecOk c ok, !TCEq ((0 <? sizeofT) && (sizeofT <=? 5000000)) true} :
  CodecOk (vector_codec sizeofT c) (vec_ok ok).
Proof.
  rename select (TCEq _ _) into Hs. apply TCEq_eq in Hs. bool_prop. destruct Hs as [Hs1 Hs2].
  bool_prop. split; cbn [Unserialize Serialize GetSerializeSize vector_codec].
  - intros x rest [Hx Hl]. rewrite <- app_assoc, ReadCompactSize_Write by lia.
    cbn [mbind option_bind].
    pose proof (read_mids_spec sizeofT c (conj Hs1 Hs2) (S (Z.to_nat (Z.of_nat (length x))))
      (Z.of_nat (length x)) [] (mjoin (Serialize c <$> x) ++ rest)) as E.
    cbn [length] in E. change (Z.of_nat 0) with 0 in E. rewrite E by lia.
    rewrite Nat2Z.id, Nat.sub_0_r. by apply (unser_elems_ser c ok).
  - intros x [Hx _]. rewrite <- vector_size_small by (unfold GetSizeOfCompactSize; repeat case_goal; lia).
    rewrite (vector_size_fold c ok) by done.
    by rewrite length_app, Nat2Z.inj_add, length_WriteCompactSize.
  - intros x [Hx _]. apply Forall_app. split; [apply WriteCompactSize_ok|].
    induction Hx as [|y x Hy Hx IH]; [constructor|]. cbn [fmap list_fmap].
    apply Forall_app. split; [by apply (codec_bytes (ok := ok))|apply IH].
Qed.

#[export] Instance pair_codec_ok {A B} (ca : Codec A) (cb : Codec B) oka okb
  `{!CodecOk ca oka, !CodecOk cb okb} :
  CodecOk (pair_codec ca cb) (fun x => oka x.1 /\ okb x.2).
Proof.
  split; cbn [Unserialize Serialize GetSerializeSize pair_codec]; intros [a b]; cbn [fst snd].
  - intros rest [Ha Hb]. rewrite <- app_assoc, codec_roundtrip by done. cbn [mbind option_bind].
    by rewrite codec_roundtrip.
  - intros [Ha Hb]. rewrite !codec_size by done.
    by rewrite wrap_add_l, wrap_add_r, length_app, Nat2Z.inj_add.
  - intros [Ha Hb]. apply Forall_app. eauto using codec_bytes.
Qed.

Section tuples.
Context {A B C D : Type} (ca : Codec A) (cb : Codec B) (cc : Codec C) (cd : Codec D).
Context (oka : A -> Prop) (okb : B -> Prop) (okc : C -> Prop) (okd : D -> Prop).
Context `{!CodecOk ca oka, !CodecOk cb okb, !CodecOk cc okc, !CodecOk cd okd}.

#[export] Instance tuple3_codec_ok :
  CodecOk (tuple3_codec ca cb cc) (fun '(a, b, x) => oka a /\ okb b /\ okc x).
Proof.
  split; cbn [Unserialize Serialize GetSerializeSize tuple3_codec]; intros [[a b] x].
  - intros rest (Ha & Hb & Hc). rewrite <- !app_assoc. rewrite !codec_roundtrip by done.
    cbn [mbind option_bind]. rewrite codec_roundtrip by done. cbn [mbind option_bind].
    by rewrite codec_roundtrip.
  - intros (Ha & Hb & Hc). rewrite !codec_size by done.
    rewrite !wrap_add_r, !length_app, !Nat2Z.inj_add.
    repeat rewrite wrap_add_l, <- ?Z.add_assoc. done.
  - intros (Ha & Hb & Hc). rewrite !Forall_app. split_and!; eauto using codec_bytes.
Qed.

#[export] Instance tuple4_codec_ok :
  CodecOk (tuple4_codec ca cb cc cd) (fun '(a, b, x, y) => oka a /\ okb b /\ okc x /\ okd y).
Proof.
  split; cbn [Unserialize Serialize GetSerializeSize tuple4_codec]; intros [[[a b] x] y].
  - intros rest (Ha & Hb & Hc & Hd). rewrite <- !app_assoc.
    do 4 (rewrite codec_roundtrip by done; cbn [mbind option_bind]). done.
  - intros (Ha & Hb & Hc & Hd). rewrite !codec_size by done.
    rewrite !wrap_add_r, !length_app, !Nat2Z.inj_add.
    repeat rewrite wrap_add_l, <- ?Z.add_assoc. done.
  - intros (Ha & Hb & Hc & Hd). rewrite !Forall_app. split_and!; eauto using codec_bytes.
Qed.
End tuples.

(** ** Claims *)

(** compact sizes are canonical: what [WriteCompactSize] writes (in as many
    bytes as [GetSizeOfCompactSize] says) is read back with the rest of the
    stream left, and [ReadCompactSize] accepts no other encoding of a size, nor
    a size above [MAX_SIZE]. *)
Theorem compact_size_canonical (s rest : list Z) (n : Z) :
  bytes_ok s ->
  ReadCompactSize s = Some (n, rest) <-> s = WriteCompactSize n ++ rest /\ 0 <= n <= MAX_SIZE.
Proof.
  intros Hs. split; [by apply ReadCompactSize_Some|]. intros [-> Hn]. by apply ReadCompactSize_Write.
Qed.

Lemma compact_size_canonical_witness : ReadCompactSize [253; 44; 1; 7] = Some (300, [7]).
Proof.
  apply (compact_size_canonical [253; 44; 1; 7] [7] 300);
    [repeat constructor; lia|split; [reflexivity|vm_compute; split; discriminate]].
Defined.
