(* ===== verification/DataStream.v ===== *)
(** * [CDataStream] of [serialize.h]: the buffer behind [>>] and [<<]

    A vector of bytes and a read position; reading past the last byte clears
    the vector.  Its abstract value is the list of bytes still to be read; the
    claim at the end states that every operation implements the corresponding
    one on that list. *)

From S2P Require Import Prelude Uint256 Serialize.

Definition badbit : Z := 1.
Definition failbit : Z := 4.

Record CDataStream := mkDS {
  vch : list Z;
  nReadPos : Z;
  state : Z;
  exceptmask : Z
}.

Definition ds_Init (bytes : list Z) : CDataStream :=
  mkDS bytes 0 0 (badbit .| failbit).

Definition ds_size (s : CDataStream) : Z := Z.of_nat (length (vch s)) - nReadPos s.
Definition ds_empty (s : CDataStream) : bool := Z.of_nat (length (vch s)) =? nReadPos s.
Definition ds_bytes (s : CDataStream) : list Z := drop (Z.to_nat (nReadPos s)) (vch s).
Definition ds_clear (s : CDataStream) : CDataStream := mkDS [] 0 (state s) (exceptmask s).

Definition ds_resize (n c : Z) (s : CDataStream) : CDataStream :=
  let len := Z.to_nat (n + nReadPos s) in
  mkDS (take len (vch s) ++ replicate (len - length (vch s)) c) (nReadPos s) (state s) (exceptmask s).

(** [setstate]: the new state, and whether it throws *)
Definition setstate (bits : Z) (s : CDataStream) : bool * CDataStream :=
  let s := mkDS (vch s) (nReadPos s) (state s .| bits) (exceptmask s) in
  (negb (state s .& exceptmask s =? 0), s).

(** The bytes copied to the caller; [None] when [setstate] throws *)
Definition ds_read (nSize : Z) (s : CDataStream) : option (list Z) * CDataStream :=
  let nReadPosNext := u32 (nReadPos s + nSize) in
  let n := Z.to_nat nSize in
  let pos := Z.to_nat (nReadPos s) in
  let len := Z.of_nat (length (vch s)) in
  if len <=? nReadPosNext then
    if len <? nReadPosNext then
      match setstate failbit s with
      | (true, s) => (None, s)
      | (false, s) =>
          let have := take (Z.to_nat (len - nReadPos s)) (drop pos (vch s)) in
          (Some (have ++ replicate (n - length have) 0), ds_clear s)
      end
    else (Some (take n (drop pos (vch s))), ds_clear s)
  else (Some (take n (drop pos (vch s))), mkDS (vch s) nReadPosNext (state s) (exceptmask s)).

Definition ds_ignore (nSize : Z) (s : CDataStream) : option unit * CDataStream :=
  let nReadPosNext := u32 (nReadPos s + nSize) in
  let len := Z.of_nat (length (vch s)) in
  if len <=? nReadPosNext then
    if len <? nReadPosNext then
      match setstate failbit s with
      | (true, s) => (None, s)
      | (false, s) => (Some tt, ds_clear s)
      end
    else (Some tt, ds_clear s)
  else (Some tt, mkDS (vch s) nReadPosNext (state s) (exceptmask s)).

Definition ds_write (pch : list Z) (s : CDataStream) : CDataStream :=
  mkDS (vch s ++ pch) (nReadPos s) (state s) (exceptmask s).

Definition ds_append (b s : CDataStream) : CDataStream :=
  mkDS (vch s ++ ds_bytes b) (nReadPos s) (state s) (exceptmask s).

(** [insert(it, first, last)], [it] as an index into [vch] *)
Definition ds_insert (it : Z) (data : list Z) (s : CDataStream) : CDataStream :=
  let n := Z.of_nat (length data) in
  if (it =? nReadPos s) && (u32 n <=? nReadPos s) then
    let pos := Z.to_nat (nReadPos s - n) in
    mkDS (take pos (vch s) ++ data ++ drop (pos + length data) (vch s))
         (nReadPos s - n) (state s) (exceptmask s)
  else
    mkDS (take (Z.to_nat it) (vch s) ++ data ++ drop (Z.to_nat it) (vch s))
         (nReadPos s) (state s) (exceptmask s).

(** [erase(first, last)], both as indices into [vch] *)
Definition ds_erase (first last : Z) (s : CDataStream) : CDataStream :=
  if first =? nReadPos s then
    if last =? Z.of_nat (length (vch s)) then ds_clear s
    else mkDS (vch s) last (state s) (exceptmask s)
  else
    mkDS (take (Z.to_nat first) (vch s) ++ drop (Z.to_nat last) (vch s))
         (nReadPos s) (state s) (exceptmask s).

Definition ds_Compact (s : CDataStream) : CDataStream :=
  mkDS (drop (Z.to_nat (nReadPos s)) (vch s)) 0 (state s) (exceptmask s).

Definition ds_Rewind (n : Z) (s : CDataStream) : bool * CDataStream :=
  if nReadPos s <? n then (false, s)
  else (true, mkDS (vch s) (nReadPos s - n) (state s) (exceptmask s)).

Definition ds_GetAndClear (data : list Z) (s : CDataStream) : list Z * CDataStream :=
  (data ++ ds_bytes s, ds_clear s).

(** ** Invariant *)

(** The position is within the vector, which is short enough for 32-bit
    positions; failures throw, and none has been recorded. *)
Record ds_ok (s : CDataStream) : Prop := {
  ds_pos : 0 <= nReadPos s <= Z.of_nat (length (vch s));
  ds_len : Z.of_nat (length (vch s)) < 2 ^ 31;
  ds_mask : exceptmask s = badbit .| failbit;
  ds_state : state s = 0
}.

(** ** Lemmas *)

Lemma ds_ok_intro v p s :
  ds_ok s -> 0 <= p <= Z.of_nat (length v) -> Z.of_nat (length v) < 2 ^ 31 ->
  ds_ok (mkDS v p (state s) (exceptmask s)).
Proof. intros [] ??. by split. Qed.

Lemma length_ds_bytes s : ds_ok s -> Z.of_nat (length (ds_bytes s)) = ds_size s.
Proof. intros []. unfold ds_bytes, ds_size. rewrite length_drop. lia. Qed.

Lemma ds_clear_ok s : ds_ok s -> ds_ok (ds_clear s).
Proof. intros H. apply ds_ok_intro; [done|simpl; lia..]. Qed.

Lemma ds_write_ok pch s :
  ds_ok s -> Z.of_nat (length (vch s)) + Z.of_nat (length pch) < 2 ^ 31 ->
  ds_ok (ds_write pch s) /\ ds_bytes (ds_write pch s) = ds_bytes s ++ pch.
Proof.
  intros H Hl. pose proof (ds_pos s H). split.
  - apply ds_ok_intro; [done|rewrite length_app; lia..].
  - unfold ds_bytes. simpl. apply drop_app_le. lia.
Qed.

(** A read takes the bytes off the front, or throws and keeps them all. *)
Lemma ds_read_spec nSize s :
  ds_ok s -> 0 <= nSize < 2 ^ 31 ->
  match stream_read (Z.to_nat nSize) (ds_bytes s) with
  | Some (bs, rest) =>
      exists s', ds_read nSize s = (Some bs, s') /\ ds_bytes s' = rest /\ ds_ok s'
  | None => exists s', ds_read nSize s = (None, s') /\ ds_bytes s' = ds_bytes s
  end.
Proof.
  intros H Hn. pose proof (length_ds_bytes s H) as Hl. pose proof (ds_len s H).
  pose proof (ds_pos s H) as Hp. unfold stream_read, ds_size in *.
  unfold ds_read. rewrite wrap_small by lia. set (len := Z.of_nat (length (vch s))) in *.
  destruct (Nat.leb_spec (Z.to_nat nSize) (length (ds_bytes s))).
  - destruct (Z.ltb_spec len (nReadPos s + nSize)); [lia|].
    destruct (Z.leb_spec len (nReadPos s + nSize)); eexists; (split; [done|]); split.
    + rewrite drop_ge by lia. done.
    + by apply ds_clear_ok.
    + unfold ds_bytes. cbn. rewrite drop_drop. f_equal. lia.
    + apply ds_ok_intro; [done|lia..].
  - destruct (Z.leb_spec len (nReadPos s + nSize)); [|lia].
    destruct (Z.ltb_spec len (nReadPos s + nSize)); [|lia].
    unfold setstate. rewrite (ds_mask s H), (ds_state s H). simpl. eexists. split; done.
Qed.

Lemma ds_insert_front data s :
  ds_ok s -> Z.of_nat (length (vch s)) + Z.of_nat (length data) < 2 ^ 31 ->
  ds_ok (ds_insert (nReadPos s) data s) /\
  ds_bytes (ds_insert (nReadPos s) data s) = data ++ ds_bytes s.
Proof.
  intros H Hl. pose proof (ds_pos s H) as Hp. unfold ds_insert. rewrite Z.eqb_refl, wrap_small by lia.
  cbn [andb]. destruct (Z.leb_spec (Z.of_nat (length data)) (nReadPos s)).
  - split.
    + apply ds_ok_intro; [done|rewrite !length_app, length_take, length_drop; lia..].
    + unfold ds_bytes. cbn. rewrite drop_app_ge by (rewrite length_take; lia).
      rewrite length_take, Nat.min_l, Nat.sub_diag, drop_0 by lia. do 2 f_equal. lia.
  - split.
    + apply ds_ok_intro; [done|rewrite !length_app, length_take, length_drop; lia..].
    + unfold ds_bytes. cbn. rewrite drop_app_ge by (rewrite length_take; lia).
      by rewrite length_take, Nat.min_l, Nat.sub_diag, drop_0 by lia.
Qed.

Lemma ds_erase_front n s :
  ds_ok s -> 0 <= n <= ds_size s ->
  ds_ok (ds_erase (nReadPos s) (nReadPos s + n) s) /\
  ds_bytes (ds_erase (nReadPos s) (nReadPos s + n) s) = drop (Z.to_nat n) (ds_bytes s).
Proof.
  intros H Hn. pose proof (ds_pos s H) as Hp. pose proof (ds_len s H) as Hlen.
  pose proof (length_ds_bytes s H). unfold ds_erase, ds_size in *. rewrite Z.eqb_refl.
  destruct (Z.eqb_spec (nReadPos s + n) (Z.of_nat (length (vch s)))).
  - split; [by apply ds_clear_ok|]. by rewrite (drop_ge (ds_bytes s)) by lia.
  - split; [apply ds_ok_intro; [done|lia..]|]. unfold ds_bytes. cbn. rewrite drop_drop. f_equal. lia.
Qed.

Lemma ds_Compact_ok s : ds_ok s -> ds_ok (ds_Compact s) /\ ds_bytes (ds_Compact s) = ds_bytes s.
Proof.
  intros H. pose proof (ds_pos s H). pose proof (ds_len s H). split; [|done].
  apply ds_ok_intro; [done|rewrite ?length_drop; lia..].
Qed.

(** ** Claims *)

(** [CDataStream] implements a queue of bytes.  On a well-formed stream,
    [read] takes bytes off the front exactly as [stream_read] does on the bytes
    left, throwing without consuming anything when there are too few; [write]
    and [operator+=] append; [insert] at the front, whether or not there is room
    before the read position, and [erase] at the front put back and drop bytes;
    [Compact] changes nothing visible. *)
Theorem datastream_refines_bytes (s : CDataStream) (data : list Z) (nSize : Z) :
  ds_ok s -> 0 <= nSize < 2 ^ 31 ->
  Z.of_nat (length (vch s)) + Z.of_nat (length data) < 2 ^ 31 ->
  (match stream_read (Z.to_nat nSize) (ds_bytes s) with
   | Some (bs, rest) =>
       exists s', ds_read nSize s = (Some bs, s') /\ ds_bytes s' = rest /\ ds_ok s'
   | None => exists s', ds_read nSize s = (None, s') /\ ds_bytes s' = ds_bytes s
   end) /\
  (ds_ok (ds_write data s) /\ ds_bytes (ds_write data s) = ds_bytes s ++ data) /\
  ds_append (ds_Init data) s = ds_write data s /\
  (ds_ok (ds_insert (nReadPos s) data s) /\
   ds_bytes (ds_insert (nReadPos s) data s) = data ++ ds_bytes s) /\
  (nSize <= ds_size s ->
   ds_ok (ds_erase (nReadPos s) (nReadPos s + nSize) s) /\
   ds_bytes (ds_erase (nReadPos s) (nReadPos s + nSize) s) = drop (Z.to_nat nSize) (ds_bytes s)) /\
  (ds_ok (ds_Compact s) /\ ds_bytes (ds_Compact s) = ds_bytes s).
Proof.
  intros H Hn Hd. split_and!.
  - by apply ds_read_spec.
  - by apply ds_write_ok.
  - by apply ds_write_ok.
  - done.
  - by apply ds_insert_front.
  - by apply ds_insert_front.
  - intros. apply ds_erase_front; [done|lia].
  - by apply ds_Compact_ok.
  - by apply ds_Compact_ok.
Qed.

Lemma datastream_refines_bytes_witness :
  let s := snd (ds_read 2 (ds_Init [1; 2; 3; 4])) in
  ds_bytes (ds_insert (nReadPos s) [9] s) = [9; 3; 4].
Proof.
  intros s.
  assert (ds_ok s) as H by (vm_compute; split; cbn; try reflexivity; split; lia).
  destruct (datastream_refines_bytes s [9] 0 H) as (_ & _ & _ & [_ ->] & _);
    [lia|vm_compute; reflexivity|reflexivity].
Defined.
