(* ===== verification/Hash.v ===== *)
(** * [hash.h]: hashing

    SHA-1, SHA-256 and RIPEMD-160 are OpenSSL's: they are the fields of
    [HashOps], with the lengths of their digests as [HashLaws].  An incremental
    SHA-256 context stands for the bytes it has been fed, which is what
    [SHA256_Final] hashes.  [toy_hash] is an instance that runs. *)

From S2P Require Import Prelude Uint256 Serialize.

Class HashOps := {
  SHA1 : list Z -> list Z;
  SHA256 : list Z -> list Z;
  RIPEMD160 : list Z -> list Z
}.

Class HashLaws (H : HashOps) := {
  SHA1_ok bs : length (SHA1 bs) = 20%nat /\ bytes_ok (SHA1 bs);
  SHA256_ok bs : length (SHA256 bs) = 32%nat /\ bytes_ok (SHA256 bs);
  RIPEMD160_ok bs : length (RIPEMD160 bs) = 20%nat /\ bytes_ok (RIPEMD160 bs)
}.

Section hash.
Context {H : HashOps}.

(** [hash1] and [hash2] are 256-bit integers whose memory the digests fill. *)
Definition Hash (bytes : list Z) : list Z :=
  let hash1 := limbs_of_bytes WIDTH256 (SHA256 bytes) in
  limbs_of_bytes WIDTH256 (SHA256 (limb_bytes hash1)).

(** The two- and three-range overloads feed one context *)
Definition Hash2 (p1 p2 : list Z) : list Z := Hash (p1 ++ p2).
Definition Hash3 (p1 p2 p3 : list Z) : list Z := Hash (p1 ++ p2 ++ p3).

Definition Hash160 (vch : list Z) : list Z :=
  let hash1 := limbs_of_bytes WIDTH256 (SHA256 vch) in
  limbs_of_bytes WIDTH160 (RIPEMD160 (limb_bytes hash1)).

(** [CHashWriter]: the bytes written to the context so far *)
Definition CHashWriter : Type := list Z.
Definition hw_Init : CHashWriter := [].
Definition hw_write (w : CHashWriter) (pch : list Z) : CHashWriter := w ++ pch.
Definition hw_GetHash (w : CHashWriter) : list Z :=
  let hash1 := limbs_of_bytes WIDTH256 (SHA256 w) in
  limbs_of_bytes WIDTH256 (SHA256 (limb_bytes hash1)).
Definition hw_put {T} (c : Codec T) (w : CHashWriter) (obj : T) : CHashWriter :=
  hw_write w (Serialize c obj).

Definition SerializeHash {T} (c : Codec T) (obj : T) : list Z :=
  hw_GetHash (hw_put c hw_Init obj).

End hash.

(** ** An instance: the leading bytes of the input, its length mixed in *)

Definition toy_digest (n : nat) (bs : list Z) : list Z :=
  le_bytes n (Z.of_nat (length bs) + 256 * le_val bs).

#[export] Instance toy_hash : HashOps := {|
  SHA1 := toy_digest 20;
  SHA256 := toy_digest 32;
  RIPEMD160 := toy_digest 20
|}.

#[export] Instance toy_hash_laws : HashLaws toy_hash.
Proof. split; intros; (split; [apply length_to_digits|by apply to_digits_digits]). Qed.

Section hash_facts.
Context {H : HashOps} {L : HashLaws H}.

Lemma Hash_ok bytes : uint_ok WIDTH256 (Hash bytes).
Proof.
  unfold Hash. split; [apply length_limbs_of_bytes|]. apply limbs_of_bytes_ok, SHA256_ok.
Qed.

Lemma Hash160_ok vch : uint_ok WIDTH160 (Hash160 vch).
Proof.
  unfold Hash160. split; [apply length_limbs_of_bytes|]. apply limbs_of_bytes_ok, RIPEMD160_ok.
Qed.

(** The way over [uint256] leaves the digest's bytes as they are. *)
Lemma Hash_bytes bytes : limb_bytes (Hash bytes) = SHA256 (SHA256 bytes).
Proof.
  unfold Hash. rewrite !limb_bytes_limbs_of_bytes by apply SHA256_ok. done.
Qed.

Lemma Hash160_bytes vch : limb_bytes (Hash160 vch) = RIPEMD160 (SHA256 vch).
Proof.
  unfold Hash160. rewrite !limb_bytes_limbs_of_bytes by (apply SHA256_ok || apply RIPEMD160_ok). done.
Qed.

Lemma SerializeHash_Hash {T} (c : Codec T) obj : SerializeHash c obj = Hash (Serialize c obj).
Proof. done. Qed.
End hash_facts.
