(* ===== verification/Transaction.v ===== *)
(** * [COutPoint], [CTxIn], [CTxOut] and [CTransaction] of [main.h]

    The data of transactions, their wire format, hashes and the predicates of
    the class.  A script is its bytes; [nDoS], a mutable counter of the peer
    accounting, is not part of the record. *)

From S2P Require Import Prelude Uint256 Serialize Hash.

Definition COIN : Z := 1000000.
Definition CENT : Z := 10000.
Definition MAX_MONEY : Z := 120000000 * COIN.
Definition UINT_MAX : Z := 2 ^ 32 - 1.

Definition MoneyRange (nValue : Z) : bool := (0 <=? nValue) && (nValue <=? MAX_MONEY).

Record COutPoint := mkOutPoint { op_hash : list Z; op_n : Z }.

Definition COutPoint_null : COutPoint := mkOutPoint (assign64 WIDTH256 0) UINT_MAX.
Definition COutPoint_IsNull (o : COutPoint) : bool :=
  op_eq64 (op_hash o) 0 && (op_n o =? UINT_MAX).
Definition COutPoint_lt (a b : COutPoint) : bool :=
  op_lt (op_hash a) (op_hash b) || (op_eq (op_hash a) (op_hash b) && (op_n a <? op_n b)).
Definition COutPoint_eq (a b : COutPoint) : bool :=
  op_eq (op_hash a) (op_hash b) && (op_n a =? op_n b).

Record CTxIn := mkTxIn { prevout : COutPoint; scriptSig : list Z; nSequence : Z }.

Definition CTxIn_null : CTxIn := mkTxIn COutPoint_null [] UINT_MAX.
Definition CTxIn_IsFinal (i : CTxIn) : bool := nSequence i =? UINT_MAX.
Definition CTxIn_eq (a b : CTxIn) : bool :=
  COutPoint_eq (prevout a) (prevout b) && bool_decide (scriptSig a = scriptSig b) &&
  (nSequence a =? nSequence b).

Record CTxOut := mkTxOut { nValue : Z; scriptPubKey : list Z }.

Definition CTxOut_SetNull : CTxOut := mkTxOut (-1) [].
Definition CTxOut_IsNull (o : CTxOut) : bool := nValue o =? -1.
Definition CTxOut_SetEmpty : CTxOut := mkTxOut 0 [].
Definition CTxOut_IsEmpty (o : CTxOut) : bool :=
  (nValue o =? 0) && match scriptPubKey o with [] => true | _ => false end.
Definition CTxOut_eq (a b : CTxOut) : bool :=
  (nValue a =? nValue b) && bool_decide (scriptPubKey a = scriptPubKey b).

Record CTransaction := mkTx {
  nVersion : Z;
  nTime : Z;
  vin : list CTxIn;
  vout : list CTxOut;
  nLockTime : Z
}.

Definition CURRENT_VERSION : Z := 1.

(** [SetNull], with the adjusted time as argument *)
Definition CTransaction_SetNull (now : Z) : CTransaction := mkTx CURRENT_VERSION now [] [] 0.

Definition IsNull (tx : CTransaction) : bool :=
  match vin tx, vout tx with [], [] => true | _, _ => false end.

Definition IsCoinBase (tx : CTransaction) : bool :=
  match vin tx with
  | [i] => COutPoint_IsNull (prevout i) && (1 <=? length (vout tx))%nat
  | _ => false
  end.

Definition IsCoinStake (tx : CTransaction) : bool :=
  match vin tx, vout tx with
  | i :: _, o :: _ :: _ => negb (COutPoint_IsNull (prevout i)) && CTxOut_IsEmpty o
  | _, _ => false
  end.

(** [GetValueOut]; [None] is the [runtime_error] *)
Definition GetValueOut_step (nValueOut : option Z) (txout : CTxOut) : option Z :=
  n ← nValueOut;
  let n := i64 (n + nValue txout) in
  if negb (MoneyRange (nValue txout)) || negb (MoneyRange n) then None else Some n.

Definition GetValueOut (tx : CTransaction) : option Z :=
  foldl GetValueOut_step (Some 0) (vout tx).

(** ** Wire format *)

(** [FLATDATA( *this)]: 32 bytes of hash and four of index *)
Definition outpoint_codec : Codec COutPoint := {|
  GetSerializeSize _ := 36;
  Serialize o := limb_bytes (op_hash o) ++ le_bytes 4 (op_n o);
  Unserialize s :=
    '(bs, s) ← stream_read 36 s;
    Some (mkOutPoint (limbs_of_bytes WIDTH256 (take 32 bs)) (le_val (drop 32 bs)), s)
|}.

Definition txin_codec : Codec CTxIn := {|
  GetSerializeSize i :=
    u32 (u32 (GetSerializeSize outpoint_codec (prevout i) +
              GetSerializeSize script_codec (scriptSig i)) +
         GetSerializeSize (uint_codec 4) (nSequence i));
  Serialize i :=
    Serialize outpoint_codec (prevout i) ++ Serialize script_codec (scriptSig i) ++
    Serialize (uint_codec 4) (nSequence i);
  Unserialize s :=
    '(o, s) ← Unserialize outpoint_codec s;
    '(sig, s) ← Unserialize script_codec s;
    '(n, s) ← Unserialize (uint_codec 4) s;
    Some (mkTxIn o sig n, s)
|}.

Definition txout_codec : Codec CTxOut := {|
  GetSerializeSize o :=
    u32 (GetSerializeSize (sint_codec 8) (nValue o) +
         GetSerializeSize script_codec (scriptPubKey o));
  Serialize o :=
    Serialize (sint_codec 8) (nValue o) ++ Serialize script_codec (scriptPubKey o);
  Unserialize s :=
    '(v, s) ← Unserialize (sint_codec 8) s;
    '(pk, s) ← Unserialize script_codec s;
    Some (mkTxOut v pk, s)
|}.

(** Sizes of the classes in memory on LP64; they only pace the allocation. *)
Definition sizeof_CTxIn : Z := 72.
Definition sizeof_CTxOut : Z := 32.

Definition tx_codec : Codec CTransaction := {|
  GetSerializeSize tx :=
    u32 (u32 (u32 (u32 (GetSerializeSize (sint_codec 4) (nVersion tx) +
                        GetSerializeSize (uint_codec 4) (nTime tx)) +
                   GetSerializeSize (vector_codec sizeof_CTxIn txin_codec) (vin tx)) +
              GetSerializeSize (vector_codec sizeof_CTxOut txout_codec) (vout tx)) +
         GetSerializeSize (uint_codec 4) (nLockTime tx));
  Serialize tx :=
    Serialize (sint_codec 4) (nVersion tx) ++ Serialize (uint_codec 4) (nTime tx) ++
    Serialize (vector_codec sizeof_CTxIn txin_codec) (vin tx) ++
    Serialize (vector_codec sizeof_CTxOut txout_codec) (vout tx) ++
    Serialize (uint_codec 4) (nLockTime tx);
  Unserialize s :=
    '(v, s) ← Unserialize (sint_codec 4) s;
    '(t, s) ← Unserialize (uint_codec 4) s;
    '(i, s) ← Unserialize (vector_codec sizeof_CTxIn txin_codec) s;
    '(o, s) ← Unserialize (vector_codec sizeof_CTxOut txout_codec) s;
    '(l, s) ← Unserialize (uint_codec 4) s;
    Some (mkTx v t i o l, s)
|}.

Section tx_hash.
Context {H : HashOps}.
Definition CTxOut_GetHash (o : CTxOut) : list Z := SerializeHash txout_codec o.
Definition CTransaction_GetHash (tx : CTransaction) : list Z := SerializeHash tx_codec tx.
End tx_hash.

(** ** Well-formed transactions *)

Definition outpoint_ok (o : COutPoint) : Prop := uint_ok WIDTH256 (op_hash o) /\ fits 4 (op_n o).
Definition txin_ok (i : CTxIn) : Prop :=
  outpoint_ok (prevout i) /\ vch_ok (scriptSig i) /\ fits 4 (nSequence i).
Definition txout_ok (o : CTxOut) : Prop := sfits 8 (nValue o) /\ vch_ok (scriptPubKey o).
Definition tx_ok (tx : CTransaction) : Prop :=
  sfits 4 (nVersion tx) /\ fits 4 (nTime tx) /\ vec_ok txin_ok (vin tx) /\
  vec_ok txout_ok (vout tx) /\ fits 4 (nLockTime tx).

(** Read back the next field of a record in front of a stream *)
Ltac codec_step :=
  rewrite codec_roundtrip by done; cbn [mbind option_bind].

(** Sizes of the fields add up modulo [2^32] *)
Ltac codec_sizes :=
  rewrite !codec_size by done; rewrite ?wrap_add_r, ?length_app, ?Nat2Z.inj_add;
  repeat rewrite ?wrap_add_l, <- ?Z.add_assoc; rewrite ?wrap_add_l.

#[export] Instance outpoint_codec_ok : CodecOk outpoint_codec outpoint_ok.
Proof.
  split; cbn [Unserialize Serialize GetSerializeSize outpoint_codec]; intros [h n]; cbn [op_hash op_n].
  - intros rest [[Hl Hh] Hn]. cbn [op_hash op_n] in *.
    assert (length (limb_bytes h) = 32%nat) as Hlen by (by rewrite length_limb_bytes, Hl).
    rewrite stream_read_app by (rewrite length_app, length_to_digits, Hlen; done).
    cbn [mbind option_bind]. rewrite <- Hlen, take_app_length, drop_app_length.
    by rewrite le_bytes_roundtrip, <- Hl, limbs_of_bytes_limb_bytes.
  - intros [[Hl _] _]. cbn [op_hash] in Hl. by rewrite length_app, length_limb_bytes, Hl, length_to_digits.
  - intros [[_ Hh] _]. apply Forall_app. split; [apply limb_bytes_ok|by apply to_digits_digits].
Qed.

#[export] Instance txin_codec_ok : CodecOk txin_codec txin_ok.
Proof.
  split; cbn [Unserialize Serialize GetSerializeSize txin_codec];
    intros [o sig n]; cbn [prevout scriptSig nSequence].
  - intros rest (Ho & Hs & Hn). cbn [prevout scriptSig nSequence] in *. rewrite <- !app_assoc. by do 3 codec_step.
  - intros (Ho & Hs & Hn). cbn [prevout scriptSig nSequence] in *. by codec_sizes.
  - intros (Ho & Hs & Hn). cbn [prevout scriptSig nSequence] in *. rewrite !Forall_app. split_and!; by eapply codec_bytes.
Qed.

#[export] Instance txout_codec_ok : CodecOk txout_codec txout_ok.
Proof.
  split; cbn [Unserialize Serialize GetSerializeSize txout_codec];
    intros [v pk]; cbn [nValue scriptPubKey].
  - intros rest (Hv & Hs). cbn [nValue scriptPubKey] in *. rewrite <- !app_assoc. by do 2 codec_step.
  - intros (Hv & Hs). cbn [nValue scriptPubKey] in *. by codec_sizes.
  - intros (Hv & Hs). cbn [nValue scriptPubKey] in *. rewrite !Forall_app. split_and!; by eapply codec_bytes.
Qed.

#[export] Instance tx_codec_ok : CodecOk tx_codec tx_ok.
Proof.
  split; cbn [Unserialize Serialize GetSerializeSize tx_codec];
    intros [v t i o l]; cbn [nVersion nTime vin vout nLockTime].
  - intros rest (? & ? & ? & ? & ?). cbn [nVersion nTime vin vout nLockTime] in *. rewrite <- !app_assoc. by do 5 codec_step.
  - intros (? & ? & ? & ? & ?). cbn [nVersion nTime vin vout nLockTime] in *. by codec_sizes.
  - intros (? & ? & ? & ? & ?). cbn [nVersion nTime vin vout nLockTime] in *. rewrite !Forall_app. split_and!; by eapply codec_bytes.
Qed.

(** ** Lemmas: values *)

Lemma MoneyRange_spec v : MoneyRange v = true <-> 0 <= v <= MAX_MONEY.
Proof. unfold MoneyRange. rewrite andb_true_iff, !Z.leb_le. done. Qed.

Lemma swrap_small w x : 0 < w -> - 2 ^ (w - 1) <= x < 2 ^ (w - 1) -> swrap w x = x.
Proof.
  intros Hw Hx. unfold swrap. assert (2 ^ w = 2 * 2 ^ (w - 1)) as E.
  { rewrite <- Z.pow_succ_r by lia. f_equal. lia. }
  rewrite Z.mod_small by lia. lia.
Qed.

Definition total_value (outs : list CTxOut) : Z := foldr (fun o n => nValue o + n) 0 outs.

Lemma total_value_nonneg outs :
  Forall (fun o => 0 <= nValue o <= MAX_MONEY) outs -> 0 <= total_value outs.
Proof. induction 1 as [|o outs Ho _ IH]; simpl; lia. Qed.

Lemma GetValueOut_None outs : foldl GetValueOut_step None outs = None.
Proof. induction outs; done. Qed.

Lemma GetValueOut_fold outs n :
  0 <= n <= MAX_MONEY ->
  forall v, foldl GetValueOut_step (Some n) outs = Some v <->
  Forall (fun o => 0 <= nValue o <= MAX_MONEY) outs /\ n + total_value outs <= MAX_MONEY /\
  v = n + total_value outs.
Proof.
  revert n. induction outs as [|o outs IH]; intros n Hn v; cbn [foldl total_value foldr].
  { rewrite Z.add_0_r. split; [intros [= <-]; split_and!; [constructor|lia|done]|].
    intros (_ & _ & ->). done. }
  assert (E : forall t, nValue o + t + n = n + nValue o + t) by lia.
  unfold GetValueOut_step at 2. cbn [mbind option_bind]. fold (total_value outs).
  rewrite Forall_cons, Z.add_assoc.
  destruct (MoneyRange (nValue o)) eqn:Ho; cbn [negb orb].
  - apply MoneyRange_spec in Ho. rewrite swrap_small by (unfold MAX_MONEY, COIN in *; simpl; lia).
    destruct (MoneyRange (n + nValue o)) eqn:Hr; cbn [negb].
    + apply MoneyRange_spec in Hr. rewrite IH by done. intuition lia.
    + rewrite GetValueOut_None. split; [done|]. intros [[_ Hall] [Hle _]].
      apply total_value_nonneg in Hall.
      assert (MoneyRange (n + nValue o) = true) by (apply MoneyRange_spec; lia). congruence.
  - rewrite GetValueOut_None. split; [done|]. intros [[Hr _] _]. apply MoneyRange_spec in Hr. congruence.
Qed.

(** ** Claims *)

(** the wire format of transactions: [Unserialize] reads back exactly the
    transaction [Serialize] wrote and leaves the rest of the stream, the number
    of bytes is what [GetSerializeSize] says, and all of them are bytes. *)
Theorem tx_wire_roundtrip (tx : CTransaction) (rest : list Z) :
  tx_ok tx ->
  Unserialize tx_codec (Serialize tx_codec tx ++ rest) = Some (tx, rest) /\
  GetSerializeSize tx_codec tx = u32 (Z.of_nat (length (Serialize tx_codec tx))) /\
  bytes_ok (Serialize tx_codec tx).
Proof.
  intros Htx. split_and!; [by apply codec_roundtrip|by apply codec_size|by apply codec_bytes].
Qed.

(** [GetValueOut] returns a value exactly when every output is in range and
    their sum is, and then it is the sum; the running 64-bit sum never
    overflows into an accepted value. *)
Theorem GetValueOut_sum (tx : CTransaction) (v : Z) :
  GetValueOut tx = Some v <->
  Forall (fun o => 0 <= nValue o <= MAX_MONEY) (vout tx) /\
  total_value (vout tx) <= MAX_MONEY /\ v = total_value (vout tx).
Proof. unfold GetValueOut. rewrite GetValueOut_fold by (unfold MAX_MONEY, COIN; lia). done. Qed.

(** A transaction that runs in the witnesses *)
Definition sample_tx : CTransaction :=
  mkTx 1 1400000000 [mkTxIn (mkOutPoint (assign64 WIDTH256 77) 1) [0x51] UINT_MAX]
    [mkTxOut 5 [0x51; 0x52]; mkTxOut (3 * COIN) []] 0.

Lemma sample_tx_ok : tx_ok sample_tx.
Proof.
  unfold sample_tx, tx_ok, vec_ok, txin_ok, txout_ok, outpoint_ok, vch_ok, fits, sfits, MAX_SIZE, UINT_MAX, COIN.
  cbn. split_and!; try lia; repeat (apply Forall_cons_2 || apply Forall_nil_2 || split_and!); cbn; try lia.
  all: try done.
Qed.

Lemma tx_wire_roundtrip_witness :
  Unserialize tx_codec (Serialize tx_codec sample_tx ++ [1; 2]) = Some (sample_tx, [1; 2]).
Proof. apply tx_wire_roundtrip. apply sample_tx_ok. Defined.
