(* ===== verification/Script.v ===== *)
(** * [script.h]: the class [CScript]

    A script is the list of its bytes; an iterator [pc] into it is the list of
    the bytes from [pc] to [end()].  Opcodes are the numbers of the enumeration,
    since the code casts any byte to [opcodetype]. *)

From S2P Require Import Prelude Uint256 BigNum Serialize Hash.

Definition MAX_SCRIPT_ELEMENT_SIZE : Z := 520.

(** ** Enumerations *)

Inductive isminetype := MINE_NO | MINE_WATCH_ONLY | MINE_SPENDABLE | MINE_ALL.
#[export] Instance isminetype_eq_dec : EqDecision isminetype.
Proof. solve_decision. Defined.

Definition SIGHASH_ALL : Z := 1.
Definition SIGHASH_NONE : Z := 2.
Definition SIGHASH_SINGLE : Z := 3.
Definition SIGHASH_ANYONECANPAY : Z := 0x80.

Definition SCRIPT_VERIFY_NONE : Z := 0.
Definition SCRIPT_VERIFY_P2SH : Z := 1 .<< 0.
Definition SCRIPT_VERIFY_STRICTENC : Z := 1 .<< 1.
Definition SCRIPT_VERIFY_LOW_S : Z := 1 .<< 2.
Definition SCRIPT_VERIFY_NOCACHE : Z := 1 .<< 3.
Definition SCRIPT_VERIFY_NULLDUMMY : Z := 1 .<< 4.

Definition STRICT_FORMAT_FLAGS : Z :=
  SCRIPT_VERIFY_STRICTENC .| SCRIPT_VERIFY_LOW_S .| SCRIPT_VERIFY_NULLDUMMY.
Definition MANDATORY_SCRIPT_VERIFY_FLAGS : Z := SCRIPT_VERIFY_P2SH.
Definition STRICT_FLAGS : Z := MANDATORY_SCRIPT_VERIFY_FLAGS .| STRICT_FORMAT_FLAGS.
Definition SOFT_FLAGS : Z := STRICT_FLAGS .& u32 (Z.lnot STRICT_FORMAT_FLAGS).

(** [flags & f] as a condition *)
Definition has_flag (flags f : Z) : bool := negb (flags .& f =? 0).

Inductive txnouttype :=
  | TX_NONSTANDARD | TX_PUBKEY | TX_PUBKEYHASH | TX_SCRIPTHASH | TX_MULTISIG | TX_NULL_DATA.
#[export] Instance txnouttype_eq_dec : EqDecision txnouttype.
Proof. solve_decision. Defined.

Definition GetTxnOutputType (t : txnouttype) : string :=
  match t with
  | TX_NONSTANDARD => "nonstandard"
  | TX_PUBKEY => "pubkey"
  | TX_PUBKEYHASH => "pubkeyhash"
  | TX_SCRIPTHASH => "scripthash"
  | TX_MULTISIG => "multisig"
  | TX_NULL_DATA => "nulldata"
  end%string.

Definition opcodetype : Type := Z.

Abbreviation OP_0 := 0x00.
Abbreviation OP_FALSE := OP_0.
Abbreviation OP_PUSHDATA1 := 0x4c.
Abbreviation OP_PUSHDATA2 := 0x4d.
Abbreviation OP_PUSHDATA4 := 0x4e.
Abbreviation OP_1NEGATE := 0x4f.
Abbreviation OP_RESERVED := 0x50.
Abbreviation OP_1 := 0x51.
Abbreviation OP_TRUE := OP_1.
Abbreviation OP_2 := 0x52.
Abbreviation OP_3 := 0x53.
Abbreviation OP_4 := 0x54.
Abbreviation OP_5 := 0x55.
Abbreviation OP_6 := 0x56.
Abbreviation OP_7 := 0x57.
Abbreviation OP_8 := 0x58.
Abbreviation OP_9 := 0x59.
Abbreviation OP_10 := 0x5a.
Abbreviation OP_11 := 0x5b.
Abbreviation OP_12 := 0x5c.
Abbreviation OP_13 := 0x5d.
Abbreviation OP_14 := 0x5e.
Abbreviation OP_15 := 0x5f.
Abbreviation OP_16 := 0x60.
Abbreviation OP_NOP := 0x61.
Abbreviation OP_VER := 0x62.
Abbreviation OP_IF := 0x63.
Abbreviation OP_NOTIF := 0x64.
Abbreviation OP_VERIF := 0x65.
Abbreviation OP_VERNOTIF := 0x66.
Abbreviation OP_ELSE := 0x67.
Abbreviation OP_ENDIF := 0x68.
Abbreviation OP_VERIFY := 0x69.
Abbreviation OP_RETURN := 0x6a.
Abbreviation OP_TOALTSTACK := 0x6b.
Abbreviation OP_FROMALTSTACK := 0x6c.
Abbreviation OP_2DROP := 0x6d.
Abbreviation OP_2DUP := 0x6e.
Abbreviation OP_3DUP := 0x6f.
Abbreviation OP_2OVER := 0x70.
Abbreviation OP_2ROT := 0x71.
Abbreviation OP_2SWAP := 0x72.
Abbreviation OP_IFDUP := 0x73.
Abbreviation OP_DEPTH := 0x74.
Abbreviation OP_DROP := 0x75.
Abbreviation OP_DUP := 0x76.
Abbreviation OP_NIP := 0x77.
Abbreviation OP_OVER := 0x78.
Abbreviation OP_PICK := 0x79.
Abbreviation OP_ROLL := 0x7a.
Abbreviation OP_ROT := 0x7b.
Abbreviation OP_SWAP := 0x7c.
Abbreviation OP_TUCK := 0x7d.
Abbreviation OP_CAT := 0x7e.
Abbreviation OP_SUBSTR := 0x7f.
Abbreviation OP_LEFT := 0x80.
Abbreviation OP_RIGHT := 0x81.
Abbreviation OP_SIZE := 0x82.
Abbreviation OP_INVERT := 0x83.
Abbreviation OP_AND := 0x84.
Abbreviation OP_OR := 0x85.
Abbreviation OP_XOR := 0x86.
Abbreviation OP_EQUAL := 0x87.
Abbreviation OP_EQUALVERIFY := 0x88.
Abbreviation OP_RESERVED1 := 0x89.
Abbreviation OP_RESERVED2 := 0x8a.
Abbreviation OP_1ADD := 0x8b.
Abbreviation OP_1SUB := 0x8c.
Abbreviation OP_2MUL := 0x8d.
Abbreviation OP_2DIV := 0x8e.
Abbreviation OP_NEGATE := 0x8f.
Abbreviation OP_ABS := 0x90.
Abbreviation OP_NOT := 0x91.
Abbreviation OP_0NOTEQUAL := 0x92.
Abbreviation OP_ADD := 0x93.
Abbreviation OP_SUB := 0x94.
Abbreviation OP_MUL := 0x95.
Abbreviation OP_DIV := 0x96.
Abbreviation OP_MOD := 0x97.
Abbreviation OP_LSHIFT := 0x98.
Abbreviation OP_RSHIFT := 0x99.
Abbreviation OP_BOOLAND := 0x9a.
Abbreviation OP_BOOLOR := 0x9b.
Abbreviation OP_NUMEQUAL := 0x9c.
Abbreviation OP_NUMEQUALVERIFY := 0x9d.
Abbreviation OP_NUMNOTEQUAL := 0x9e.
Abbreviation OP_LESSTHAN := 0x9f.
Abbreviation OP_GREATERTHAN := 0xa0.
Abbreviation OP_LESSTHANOREQUAL := 0xa1.
Abbreviation OP_GREATERTHANOREQUAL := 0xa2.
Abbreviation OP_MIN := 0xa3.
Abbreviation OP_MAX := 0xa4.
Abbreviation OP_WITHIN := 0xa5.
Abbreviation OP_RIPEMD160 := 0xa6.
Abbreviation OP_SHA1 := 0xa7.
Abbreviation OP_SHA256 := 0xa8.
Abbreviation OP_HASH160 := 0xa9.
Abbreviation OP_HASH256 := 0xaa.
Abbreviation OP_CODESEPARATOR := 0xab.
Abbreviation OP_CHECKSIG := 0xac.
Abbreviation OP_CHECKSIGVERIFY := 0xad.
Abbreviation OP_CHECKMULTISIG := 0xae.
Abbreviation OP_CHECKMULTISIGVERIFY := 0xaf.
Abbreviation OP_NOP1 := 0xb0.
Abbreviation OP_NOP2 := 0xb1.
Abbreviation OP_NOP3 := 0xb2.
Abbreviation OP_NOP4 := 0xb3.
Abbreviation OP_NOP5 := 0xb4.
Abbreviation OP_NOP6 := 0xb5.
Abbreviation OP_NOP7 := 0xb6.
Abbreviation OP_NOP8 := 0xb7.
Abbreviation OP_NOP9 := 0xb8.
Abbreviation OP_NOP10 := 0xb9.
Abbreviation OP_SMALLINTEGER := 0xfa.
Abbreviation OP_PUBKEYS := 0xfb.
Abbreviation OP_PUBKEYHASH := 0xfd.
Abbreviation OP_PUBKEY := 0xfe.
Abbreviation OP_INVALIDOPCODE := 0xff.

(** The [switch] of [GetOpName] as a table *)
Definition op_names : list (opcodetype * string) := [
  (OP_0, "0"%string); (OP_PUSHDATA1, "OP_PUSHDATA1"%string);
  (OP_PUSHDATA2, "OP_PUSHDATA2"%string); (OP_PUSHDATA4, "OP_PUSHDATA4"%string);
  (OP_1NEGATE, "-1"%string); (OP_RESERVED, "OP_RESERVED"%string); (OP_1, "1"%string);
  (OP_2, "2"%string); (OP_3, "3"%string); (OP_4, "4"%string); (OP_5, "5"%string);
  (OP_6, "6"%string); (OP_7, "7"%string); (OP_8, "8"%string); (OP_9, "9"%string);
  (OP_10, "10"%string); (OP_11, "11"%string); (OP_12, "12"%string); (OP_13, "13"%string);
  (OP_14, "14"%string); (OP_15, "15"%string); (OP_16, "16"%string); (OP_NOP, "OP_NOP"%string);
  (OP_VER, "OP_VER"%string); (OP_IF, "OP_IF"%string); (OP_NOTIF, "OP_NOTIF"%string);
  (OP_VERIF, "OP_VERIF"%string); (OP_VERNOTIF, "OP_VERNOTIF"%string);
  (OP_ELSE, "OP_ELSE"%string); (OP_ENDIF, "OP_ENDIF"%string); (OP_VERIFY, "OP_VERIFY"%string);
  (OP_RETURN, "OP_RETURN"%string); (OP_TOALTSTACK, "OP_TOALTSTACK"%string);
  (OP_FROMALTSTACK, "OP_FROMALTSTACK"%string); (OP_2DROP, "OP_2DROP"%string);
  (OP_2DUP, "OP_2DUP"%string); (OP_3DUP, "OP_3DUP"%string); (OP_2OVER, "OP_2OVER"%string);
  (OP_2ROT, "OP_2ROT"%string); (OP_2SWAP, "OP_2SWAP"%string); (OP_IFDUP, "OP_IFDUP"%string);
  (OP_DEPTH, "OP_DEPTH"%string); (OP_DROP, "OP_DROP"%string); (OP_DUP, "OP_DUP"%string);
  (OP_NIP, "OP_NIP"%string); (OP_OVER, "OP_OVER"%string); (OP_PICK, "OP_PICK"%string);
  (OP_ROLL, "OP_ROLL"%string); (OP_ROT, "OP_ROT"%string); (OP_SWAP, "OP_SWAP"%string);
  (OP_TUCK, "OP_TUCK"%string); (OP_CAT, "OP_CAT"%string); (OP_SUBSTR, "OP_SUBSTR"%string);
  (OP_LEFT, "OP_LEFT"%string); (OP_RIGHT, "OP_RIGHT"%string); (OP_SIZE, "OP_SIZE"%string);
  (OP_INVERT, "OP_INVERT"%string); (OP_AND, "OP_AND"%string); (OP_OR, "OP_OR"%string);
  (OP_XOR, "OP_XOR"%string); (OP_EQUAL, "OP_EQUAL"%string);
  (OP_EQUALVERIFY, "OP_EQUALVERIFY"%string); (OP_RESERVED1, "OP_RESERVED1"%string);
  (OP_RESERVED2, "OP_RESERVED2"%string); (OP_1ADD, "OP_1ADD"%string);
  (OP_1SUB, "OP_1SUB"%string); (OP_2MUL, "OP_2MUL"%string); (OP_2DIV, "OP_2DIV"%string);
  (OP_NEGATE, "OP_NEGATE"%string); (OP_ABS, "OP_ABS"%string); (OP_NOT, "OP_NOT"%string);
  (OP_0NOTEQUAL, "OP_0NOTEQUAL"%string); (OP_ADD, "OP_ADD"%string); (OP_SUB, "OP_SUB"%string);
  (OP_MUL, "OP_MUL"%string); (OP_DIV, "OP_DIV"%string); (OP_MOD, "OP_MOD"%string);
  (OP_LSHIFT, "OP_LSHIFT"%string); (OP_RSHIFT, "OP_RSHIFT"%string);
  (OP_BOOLAND, "OP_BOOLAND"%string); (OP_BOOLOR, "OP_BOOLOR"%string);
  (OP_NUMEQUAL, "OP_NUMEQUAL"%string); (OP_NUMEQUALVERIFY, "OP_NUMEQUALVERIFY"%string);
  (OP_NUMNOTEQUAL, "OP_NUMNOTEQUAL"%string); (OP_LESSTHAN, "OP_LESSTHAN"%string);
  (OP_GREATERTHAN, "OP_GREATERTHAN"%string); (OP_LESSTHANOREQUAL, "OP_LESSTHANOREQUAL"%string);
  (OP_GREATERTHANOREQUAL, "OP_GREATERTHANOREQUAL"%string); (OP_MIN, "OP_MIN"%string);
  (OP_MAX, "OP_MAX"%string); (OP_WITHIN, "OP_WITHIN"%string);
  (OP_RIPEMD160, "OP_RIPEMD160"%string); (OP_SHA1, "OP_SHA1"%string);
  (OP_SHA256, "OP_SHA256"%string); (OP_HASH160, "OP_HASH160"%string);
  (OP_HASH256, "OP_HASH256"%string); (OP_CODESEPARATOR, "OP_CODESEPARATOR"%string);
  (OP_CHECKSIG, "OP_CHECKSIG"%string); (OP_CHECKSIGVERIFY, "OP_CHECKSIGVERIFY"%string);
  (OP_CHECKMULTISIG, "OP_CHECKMULTISIG"%string);
  (OP_CHECKMULTISIGVERIFY, "OP_CHECKMULTISIGVERIFY"%string); (OP_NOP1, "OP_NOP1"%string);
  (OP_NOP2, "OP_NOP2"%string); (OP_NOP3, "OP_NOP3"%string); (OP_NOP4, "OP_NOP4"%string);
  (OP_NOP5, "OP_NOP5"%string); (OP_NOP6, "OP_NOP6"%string); (OP_NOP7, "OP_NOP7"%string);
  (OP_NOP8, "OP_NOP8"%string); (OP_NOP9, "OP_NOP9"%string); (OP_NOP10, "OP_NOP10"%string);
  (OP_INVALIDOPCODE, "OP_INVALIDOPCODE"%string)].

Definition GetOpName (opcode : opcodetype) : string :=
  match find (fun '(o, _) => o =? opcode) op_names with
  | Some (_, name) => name
  | None => "OP_UNKNOWN"%string
  end.

(** ** Reading instructions *)

(** The immediate operand: [nSize] bytes, if they are there *)
Definition take_operand (opcode : opcodetype) (nSize : Z) (pc : list Z) :
    option (opcodetype * list Z) * list Z :=
  if u32 (Z.of_nat (length pc)) <? nSize then (None, pc)
  else (Some (opcode, take (Z.to_nat nSize) pc), drop (Z.to_nat nSize) pc).

(** [GetOp2(pc, opcodeRet, &vchRet)]: the instruction, or [None] for [false],
    with the iterator as it is left: past the bytes consumed, also on failure.
    Where it fails the source leaves [OP_INVALIDOPCODE] and an empty vector. *)
Definition GetOp2 (pc : list Z) : option (opcodetype * list Z) * list Z :=
  match pc with
  | [] => (None, [])
  | opcode :: pc =>
      if opcode <=? OP_PUSHDATA4 then
        let '(nSize, pc) :=
          if opcode <? OP_PUSHDATA1 then (Some opcode, pc)
          else if opcode =? OP_PUSHDATA1 then
            match pc with
            | [] => (None, pc)
            | nSize :: pc => (Some nSize, pc)
            end
          else if opcode =? OP_PUSHDATA2 then
            if Z.of_nat (length pc) <? 2 then (None, pc)
            else (Some (le_val (take 2 pc)), drop 2 pc)
          else
            if Z.of_nat (length pc) <? 4 then (None, pc)
            else (Some (le_val (take 4 pc)), drop 4 pc)
        in
        match nSize with
        | None => (None, pc)
        | Some nSize => take_operand opcode nSize pc
        end
      else (Some (opcode, []), pc)
  end.

(** ** Writing instructions: the overloads of [operator<<] *)

Definition push_op (script : list Z) (opcode : opcodetype) : list Z := script ++ [u8 opcode].

Definition push_uint160 (script b : list Z) : list Z := script ++ [20] ++ limb_bytes b.
Definition push_uint256 (script b : list Z) : list Z := script ++ [32] ++ limb_bytes b.

Definition push_vch (script b : list Z) : list Z :=
  let size := Z.of_nat (length b) in
  let header :=
    if size <? OP_PUSHDATA1 then [u8 size]
    else if size <=? 0xff then [OP_PUSHDATA1; u8 size]
    else if size <=? 0xffff then OP_PUSHDATA2 :: le_bytes 2 size
    else OP_PUSHDATA4 :: le_bytes 4 size in
  script ++ header ++ b.

Section push_numbers.
Context {B : BNOps}.

Definition push_bignum (script : list Z) (b : BIGNUM) : list Z := push_vch script (getvch b).

Definition push_int64 (script : list Z) (n : Z) : list Z :=
  if (n =? -1) || ((1 <=? n) && (n <=? 16)) then script ++ [u8 (n + (OP_1 - 1))]
  else push_vch script (getvch (CBigNum_of_long n)).

Definition push_uint64 (script : list Z) (n : Z) : list Z :=
  if (1 <=? n) && (n <=? 16) then script ++ [u8 (n + (OP_1 - 1))]
  else push_vch script (getvch (CBigNum_of_ulong n)).
End push_numbers.

(** Small integers; [None] is a failed assertion *)
Definition DecodeOP_N (opcode : opcodetype) : option Z :=
  if opcode =? OP_0 then Some 0
  else if (OP_1 <=? opcode) && (opcode <=? OP_16) then Some (opcode - (OP_1 - 1))
  else None.

Definition EncodeOP_N (n : Z) : option opcodetype :=
  if (0 <=? n) && (n <=? 16)
  then Some (if n =? 0 then OP_0 else OP_1 + n - 1)
  else None.

(** ** Scanning scripts *)

(** [memcmp(&pc[0], &b[0], b.size()) == 0], with the length test in front *)
Definition starts_with (b pc : list Z) : bool := bool_decide (take (length b) pc = b).

(** The inner loop of [FindAndDelete]: erase [b] at [pc] as often as it is there *)
Fixpoint erase_at (fuel : nat) (b pc : list Z) : list Z * Z :=
  match fuel with
  | O => (pc, 0)
  | S fuel' =>
      if (length b <=? length pc)%nat && starts_with b pc then
        let '(pc, n) := erase_at fuel' b (drop (length b) pc) in (pc, n + 1)
      else (pc, 0)
  end.

Fixpoint find_and_delete (fuel : nat) (b pc : list Z) : list Z * Z :=
  match fuel with
  | O => (pc, 0)
  | S fuel' =>
      let '(pc, n) := erase_at (length pc) b pc in
      match GetOp2 pc with
      | (None, _) => (pc, n)
      | (Some _, pc') =>
          let '(rest, m) := find_and_delete fuel' b pc' in
          (take (length pc - length pc') pc ++ rest, n + m)
      end
  end.

(** The script left and [nFound]; every round of the loop but the last consumes
    an instruction, so the length of the script bounds the rounds. *)
Definition FindAndDelete (script b : list Z) : list Z * Z :=
  match b with
  | [] => (script, 0)
  | _ => find_and_delete (S (length script)) b script
  end.

Fixpoint Find_loop (fuel : nat) (op : opcodetype) (pc : list Z) : Z :=
  match fuel with
  | O => 0
  | S fuel' =>
      match pc with
      | [] => 0
      | _ =>
          match GetOp2 pc with
          | (None, _) => 0
          | (Some (opcode, _), pc) =>
              (if opcode =? op then 1 else 0) + Find_loop fuel' op pc
          end
      end
  end.

Definition Find (op : opcodetype) (script : list Z) : Z := Find_loop (length script) op script.

Fixpoint IsPushOnly_loop (fuel : nat) (pc : list Z) : bool :=
  match fuel with
  | O => true
  | S fuel' =>
      match pc with
      | [] => true
      | _ =>
          match GetOp2 pc with
          | (None, _) => false
          | (Some (opcode, _), pc) =>
              if OP_16 <? opcode then false else IsPushOnly_loop fuel' pc
          end
      end
  end.

Definition IsPushOnly (script : list Z) : bool := IsPushOnly_loop (length script) script.

Fixpoint HasCanonicalPushes_loop (fuel : nat) (pc : list Z) : bool :=
  match fuel with
  | O => true
  | S fuel' =>
      match pc with
      | [] => true
      | _ =>
          match GetOp2 pc with
          | (None, _) => false
          | (Some (opcode, data), pc) =>
              let size := Z.of_nat (length data) in
              if OP_16 <? opcode then HasCanonicalPushes_loop fuel' pc
              else if (opcode <? OP_PUSHDATA1) && (OP_0 <? opcode) &&
                      ((size =? 1) && (nthZ data 0 <=? 16)) then false
              else if (opcode =? OP_PUSHDATA1) && (size <? OP_PUSHDATA1) then false
              else if (opcode =? OP_PUSHDATA2) && (size <=? 0xff) then false
              else if (opcode =? OP_PUSHDATA4) && (size <=? 0xffff) then false
              else HasCanonicalPushes_loop fuel' pc
          end
      end
  end.

Definition HasCanonicalPushes (script : list Z) : bool :=
  HasCanonicalPushes_loop (length script) script.

Definition IsPayToScriptHash (script : list Z) : bool :=
  (Z.of_nat (length script) =? 23) && (nthZ script 0 =? OP_HASH160) &&
  (nthZ script 1 =? 0x14) && (nthZ script 22 =? OP_EQUAL).

(** Signature operations: the loop over the script, with [lastOpcode] *)
Fixpoint sigop_loop (fuel : nat) (fAccurate : bool) (lastOpcode : opcodetype) (pc : list Z) (n : Z) : Z :=
  match fuel with
  | O => n
  | S fuel' =>
      match pc with
      | [] => n
      | _ =>
          match GetOp2 pc with
          | (None, _) => n
          | (Some (opcode, _), pc) =>
              let n :=
                if (opcode =? OP_CHECKSIG) || (opcode =? OP_CHECKSIGVERIFY) then u32 (n + 1)
                else if (opcode =? OP_CHECKMULTISIG) || (opcode =? OP_CHECKMULTISIGVERIFY) then
                  if fAccurate && (OP_1 <=? lastOpcode) && (lastOpcode <=? OP_16)
                  then u32 (n + default 0 (DecodeOP_N lastOpcode))
                  else u32 (n + 20)
                else n in
              sigop_loop fuel' fAccurate opcode pc n
          end
      end
  end.

Definition GetSigOpCount (fAccurate : bool) (script : list Z) : Z :=
  sigop_loop (length script) fAccurate OP_INVALIDOPCODE script 0.

(** The last item a push-only [scriptSig] pushes; [None] where the source returns 0 *)
Fixpoint last_push (fuel : nat) (pc data : list Z) : option (list Z) :=
  match fuel with
  | O => Some data
  | S fuel' =>
      match pc with
      | [] => Some data
      | _ =>
          match GetOp2 pc with
          | (None, _) => None
          | (Some (opcode, data), pc) =>
              if OP_16 <? opcode then None else last_push fuel' pc data
          end
      end
  end.

Definition GetSigOpCount_P2SH (script scriptSig : list Z) : Z :=
  if negb (IsPayToScriptHash script) then GetSigOpCount true script
  else
    match last_push (length scriptSig) scriptSig [] with
    | None => 0
    | Some data => GetSigOpCount true data
    end.

Definition GetID {H : HashOps} (script : list Z) : list Z := Hash160 script.

(** ** Lemmas: instructions *)

Lemma take_operand_split opcode n pc i pc' :
  take_operand opcode n pc = (Some i, pc') -> exists c, pc = c ++ pc'.
Proof.
  unfold take_operand. intros E. case_hyp E; [done|]. simplify_eq.
  exists (take (Z.to_nat n) pc). by rewrite take_drop.
Qed.

Lemma take_operand_app opcode b rest :
  Z.of_nat (length (b ++ rest)) < 2 ^ 32 ->
  take_operand opcode (Z.of_nat (length b)) (b ++ rest) = (Some (opcode, b), rest).
Proof.
  intros Hl. unfold take_operand. rewrite wrap_small by lia. rewrite length_app.
  destruct (Z.ltb_spec (Z.of_nat (length b + length rest)) (Z.of_nat (length b))); [lia|].
  by rewrite Nat2Z.id, take_app_length, drop_app_length.
Qed.

Lemma GetOp2_split pc i pc' :
  GetOp2 pc = (Some i, pc') -> exists c, c <> [] /\ pc = c ++ pc'.
Proof.
  destruct pc as [|opcode pc]; [done|]. cbn [GetOp2].
  assert (D : forall n (p q : list Z), (exists c, drop n p = c ++ q) ->
    exists c, c <> [] /\ opcode :: p = c ++ q).
  { intros n p q [c E]. exists (opcode :: take n p ++ c). split; [done|].
    cbn [app]. by rewrite <- app_assoc, <- E, take_drop. }
  intros E. destruct (opcode <=? OP_PUSHDATA4).
  2: { simplify_eq. by exists [opcode]. }
  destruct (opcode <? OP_PUSHDATA1); [by apply (D 0%nat); eapply take_operand_split|].
  destruct (opcode =? OP_PUSHDATA1).
  { destruct pc as [|nSize pc]; [done|]. apply (D 1%nat). by eapply take_operand_split. }
  destruct (opcode =? OP_PUSHDATA2).
  - destruct (Z.of_nat (length pc) <? 2); [done|]. apply (D 2%nat). by eapply take_operand_split.
  - destruct (Z.of_nat (length pc) <? 4); [done|]. apply (D 4%nat). by eapply take_operand_split.
Qed.

Lemma GetOp2_length pc i pc' : GetOp2 pc = (Some i, pc') -> (length pc' < length pc)%nat.
Proof.
  intros E. apply GetOp2_split in E as ([|x c] & Hc & ->); [done|].
  rewrite length_app. simpl. lia.
Qed.

(** The scripts [<<] builds are read back by [GetOp]. *)
Lemma GetOp2_op opcode rest :
  OP_PUSHDATA4 < opcode -> GetOp2 (opcode :: rest) = (Some (opcode, []), rest).
Proof. intros. cbn [GetOp2]. by destruct (Z.leb_spec opcode OP_PUSHDATA4); [lia|]. Qed.

Definition push_opcode (b : list Z) : opcodetype :=
  let size := Z.of_nat (length b) in
  if size <? OP_PUSHDATA1 then size
  else if size <=? 0xff then OP_PUSHDATA1
  else if size <=? 0xffff then OP_PUSHDATA2
  else OP_PUSHDATA4.

Lemma GetOp2_push b rest :
  Z.of_nat (length (b ++ rest)) < 2 ^ 32 ->
  GetOp2 (push_vch [] b ++ rest) = (Some (push_opcode b, b), rest).
Proof.
  intros Hl. pose proof Hl as Hb. rewrite length_app in Hb.
  unfold push_vch, push_opcode. rewrite app_nil_l, <- app_assoc.
  destruct (Z.ltb_spec (Z.of_nat (length b)) OP_PUSHDATA1).
  { rewrite wrap_small by lia. cbn [app GetOp2].
    destruct (Z.leb_spec (Z.of_nat (length b)) OP_PUSHDATA4); [|lia].
    destruct (Z.ltb_spec (Z.of_nat (length b)) OP_PUSHDATA1); [|lia]. by apply take_operand_app. }
  destruct (Z.leb_spec (Z.of_nat (length b)) 0xff).
  { rewrite wrap_small by lia. cbn [app GetOp2]. simpl (OP_PUSHDATA1 <=? _).
    simpl (OP_PUSHDATA1 <? _). simpl (OP_PUSHDATA1 =? _). cbv iota. by apply take_operand_app. }
  destruct (Z.leb_spec (Z.of_nat (length b)) 0xffff).
  - cbn [app GetOp2]. simpl (OP_PUSHDATA2 <=? _). simpl (OP_PUSHDATA2 <? _).
    simpl (OP_PUSHDATA2 =? _). cbv iota. rewrite length_app, length_to_digits.
    destruct (Z.ltb_spec (Z.of_nat (2 + length (b ++ rest))) 2); [lia|].
    pose proof (take_app_length (le_bytes 2 (Z.of_nat (length b))) (b ++ rest)) as E1.
    pose proof (drop_app_length (le_bytes 2 (Z.of_nat (length b))) (b ++ rest)) as E2.
    rewrite length_to_digits in E1, E2. rewrite E1, E2, le_bytes_roundtrip by (simpl; lia).
    by apply take_operand_app.
  - cbn [app GetOp2]. simpl (OP_PUSHDATA4 <=? _). simpl (OP_PUSHDATA4 <? _).
    simpl (OP_PUSHDATA4 =? _). cbv iota. rewrite length_app, length_to_digits.
    destruct (Z.ltb_spec (Z.of_nat (4 + length (b ++ rest))) 4); [lia|].
    pose proof (take_app_length (le_bytes 4 (Z.of_nat (length b))) (b ++ rest)) as E1.
    pose proof (drop_app_length (le_bytes 4 (Z.of_nat (length b))) (b ++ rest)) as E2.
    rewrite length_to_digits in E1, E2. rewrite E1, E2, le_bytes_roundtrip by (simpl; lia).
    by apply take_operand_app.
Qed.

(** An instruction is read the same way whatever follows it. *)
Lemma take_operand_ext opcode n pc i pc' rest :
  0 <= n -> Z.of_nat (length (pc ++ rest)) < 2 ^ 32 ->
  take_operand opcode n pc = (Some i, pc') -> take_operand opcode n (pc ++ rest) = (Some i, pc' ++ rest).
Proof.
  intros Hn Hl. unfold take_operand. rewrite length_app in *. rewrite !wrap_small by lia.
  destruct (Z.ltb_spec (Z.of_nat (length pc)) n); [done|]. intros [= <- <-].
  destruct (Z.ltb_spec (Z.of_nat (length pc + length rest)) n); [lia|].
  by rewrite take_app_le, drop_app_le by lia.
Qed.

Lemma le_val_nonneg bs : bytes_ok bs -> 0 <= le_val bs.
Proof. by apply digits_val_nonneg. Qed.

Lemma GetOp2_ext pc i pc' rest :
  bytes_ok pc -> Z.of_nat (length (pc ++ rest)) < 2 ^ 32 ->
  GetOp2 pc = (Some i, pc') -> GetOp2 (pc ++ rest) = (Some i, pc' ++ rest).
Proof.
  destruct pc as [|opcode pc]; [done|]. intros [Ho Hb]%Forall_cons Hl. red in Ho.
  cbn [app length] in *. cbn [GetOp2].
  destruct (opcode <=? OP_PUSHDATA4); [|by intros [= <- <-]].
  destruct (opcode <? OP_PUSHDATA1); [apply take_operand_ext; lia|].
  destruct (opcode =? OP_PUSHDATA1).
  { destruct pc as [|n pc]; [done|]. apply Forall_cons in Hb as [Hn Hb]. red in Hn.
    cbn [app length] in *. apply take_operand_ext; lia. }
  assert (Htail : forall k : nat, (k <= length pc)%nat ->
    take_operand opcode (le_val (take k pc)) (drop k pc) = (Some i, pc') ->
    take_operand opcode (le_val (take k (pc ++ rest))) (drop k (pc ++ rest)) = (Some i, pc' ++ rest)).
  { intros k Hk. rewrite take_app_le, drop_app_le by lia.
    apply take_operand_ext; [by apply le_val_nonneg, Forall_take|].
    rewrite length_app in *. rewrite length_drop. lia. }
  rewrite length_app. destruct (opcode =? OP_PUSHDATA2).
  - destruct (Z.ltb_spec (Z.of_nat (length pc)) 2); [done|].
    destruct (Z.ltb_spec (Z.of_nat (length pc + length rest)) 2); [lia|]. apply Htail. lia.
  - destruct (Z.ltb_spec (Z.of_nat (length pc)) 4); [done|].
    destruct (Z.ltb_spec (Z.of_nat (length pc + length rest)) 4); [lia|]. apply Htail. lia.
Qed.

(** ** The instructions of a script

    [Instrs script is ok]: reading gives the instructions [is] in turn and then
    reaches the end ([ok]) or fails.  This is what the loops over a script are
    specified with. *)

Inductive Instrs : list Z -> list (opcodetype * list Z) -> bool -> Prop :=
  | Instrs_end : Instrs [] [] true
  | Instrs_bad pc pc' : pc <> [] -> GetOp2 pc = (None, pc') -> Instrs pc [] false
  | Instrs_op pc i pc' rest ok :
      GetOp2 pc = (Some i, pc') -> Instrs pc' rest ok -> Instrs pc (i :: rest) ok.

Lemma Instrs_total pc : exists l ok, Instrs pc l ok.
Proof.
  induction pc as [pc IH] using (induction_ltof1 _ (@length Z)). unfold ltof in IH.
  destruct pc as [|x pc]; [eexists _, _; constructor|].
  destruct (GetOp2 (x :: pc)) as [[i|] pc'] eqn:E.
  - destruct (IH pc') as (l & ok & Hl); [by eapply GetOp2_length|].
    exists (i :: l), ok. by econstructor.
  - exists [], false. by econstructor.
Qed.

Lemma Instrs_fun pc l1 ok1 l2 ok2 : Instrs pc l1 ok1 -> Instrs pc l2 ok2 -> l1 = l2 /\ ok1 = ok2.
Proof.
  intros H. revert l2 ok2.
  induction H as [|pc pc' Hne E|pc i pc' rest ok E H IH]; intros l2 ok2 H2.
  - by inversion H2.
  - inversion H2 as [|? ? ? E2|? ? ? ? ? E2]; [by subst|done|]. rewrite E in E2. done.
  - inversion H2 as [|? ? ? E2|? ? ? ? ? E2 H3]; [by subst|by rewrite E in E2|].
    rewrite E in E2. simplify_eq. by destruct (IH _ _ H3) as [-> ->].
Qed.

Lemma Instrs_length pc l ok : Instrs pc l ok -> (length l <= length pc)%nat.
Proof.
  induction 1 as [| |pc i pc' rest ok E H IH]; simpl; [lia..|].
  apply GetOp2_length in E. lia.
Qed.

Lemma GetOp2_nonempty pc i pc' : GetOp2 pc = (Some i, pc') -> pc <> [].
Proof. by intros E ->. Qed.

Definition is_push (i : opcodetype * list Z) : bool := i.1 <=? OP_16.

(** A push that no shorter opcode could have made *)
Definition canonical_push (i : opcodetype * list Z) : bool :=
  let '(opcode, data) := i in
  let size := Z.of_nat (length data) in
  (OP_16 <? opcode) ||
  (negb ((opcode <? OP_PUSHDATA1) && (OP_0 <? opcode) && ((size =? 1) && (nthZ data 0 <=? 16))) &&
   negb ((opcode =? OP_PUSHDATA1) && (size <? OP_PUSHDATA1)) &&
   negb ((opcode =? OP_PUSHDATA2) && (size <=? 0xff)) &&
   negb ((opcode =? OP_PUSHDATA4) && (size <=? 0xffff))).

(** Signature operations an instruction counts for, after [last] *)
Definition sigops (fAccurate : bool) (last opcode : opcodetype) : Z :=
  if (opcode =? OP_CHECKSIG) || (opcode =? OP_CHECKSIGVERIFY) then 1
  else if (opcode =? OP_CHECKMULTISIG) || (opcode =? OP_CHECKMULTISIGVERIFY) then
    if fAccurate && (OP_1 <=? last) && (last <=? OP_16) then last - (OP_1 - 1) else 20
  else 0.

Fixpoint sigop_sum (fAccurate : bool) (last : opcodetype) (l : list (opcodetype * list Z)) : Z :=
  match l with
  | [] => 0
  | (opcode, _) :: l => sigops fAccurate last opcode + sigop_sum fAccurate opcode l
  end.

(** Unfold one round of a scanning loop on a non-empty script *)
Ltac scan_step E :=
  match type of E with
  | GetOp2 ?pc = _ =>
      let Hne := fresh in
      assert (pc <> []) as Hne by (intros ->; done);
      destruct pc as [|? ?]; [done|]; rewrite E
  end.

Lemma IsPushOnly_Instrs fuel pc l ok :
  Instrs pc l ok -> (length pc <= fuel)%nat -> IsPushOnly_loop fuel pc = ok && forallb is_push l.
Proof.
  intros H. revert fuel. induction H as [|pc pc' Hne E|pc [op d] pc' rest ok E H IH]; intros fuel Hf.
  - by destruct fuel.
  - destruct fuel; [destruct pc; simpl in Hf; [done|lia]|]. cbn [IsPushOnly_loop].
    destruct pc; [done|]. by rewrite E.
  - pose proof (GetOp2_length _ _ _ E). destruct fuel; [lia|]. cbn [IsPushOnly_loop].
    scan_step E. cbn [forallb]. change (is_push (op, d)) with (op <=? OP_16).
    rewrite Z.ltb_antisym. destruct (op <=? OP_16); cbn [negb andb].
    + apply IH. lia.
    + by rewrite andb_false_r.
Qed.

Lemma HasCanonicalPushes_Instrs fuel pc l ok :
  Instrs pc l ok -> (length pc <= fuel)%nat ->
  HasCanonicalPushes_loop fuel pc = ok && forallb canonical_push l.
Proof.
  intros H. revert fuel. induction H as [|pc pc' Hne E|pc [op d] pc' rest ok E H IH]; intros fuel Hf.
  - by destruct fuel.
  - destruct fuel; [destruct pc; simpl in Hf; [done|lia]|]. cbn [HasCanonicalPushes_loop].
    destruct pc; [done|]. by rewrite E.
  - pose proof (GetOp2_length _ _ _ E). destruct fuel; [lia|]. cbn [HasCanonicalPushes_loop].
    scan_step E. cbn [forallb]. rewrite IH by lia. cbn [canonical_push].
    do 5 (case_goal; cbn [negb andb orb]; [by rewrite ?andb_false_r|]). done.
Qed.

Lemma sigops_range fAccurate last opcode : 0 <= sigops fAccurate last opcode <= 20.
Proof. unfold sigops. repeat case_goal; bool_prop; intuition lia. Qed.

Lemma sigop_sum_range fAccurate last l :
  0 <= sigop_sum fAccurate last l <= 20 * Z.of_nat (length l).
Proof.
  revert last. induction l as [|[op d] l IH]; intros last; cbn [sigop_sum length]; [lia|].
  pose proof (sigops_range fAccurate last op). specialize (IH op). lia.
Qed.

Lemma sigop_sum_accurate last l : sigop_sum true last l <= sigop_sum false last l.
Proof.
  revert last. induction l as [|[op d] l IH]; intros last; cbn [sigop_sum]; [lia|].
  assert (sigops true last op <= sigops false last op).
  { unfold sigops. repeat case_goal; bool_prop; intuition (try discriminate; lia). }
  specialize (IH op). lia.
Qed.

Lemma sigop_loop_Instrs fuel fAccurate last pc l ok n :
  Instrs pc l ok -> (length pc <= fuel)%nat -> 0 <= n ->
  n + sigop_sum fAccurate last l < 2 ^ 32 ->
  sigop_loop fuel fAccurate last pc n = n + sigop_sum fAccurate last l.
Proof.
  intros H. revert fuel last n.
  induction H as [|pc pc' Hne E|pc [op d] pc' rest ok E H IH]; intros fuel last n Hf Hn Hs.
  - destruct fuel; cbn [sigop_loop sigop_sum]; lia.
  - destruct fuel; [cbn [sigop_loop sigop_sum]; lia|]. cbn [sigop_loop sigop_sum].
    destruct pc; [done|]. rewrite E. lia.
  - pose proof (GetOp2_length _ _ _ E). destruct fuel; [lia|]. cbn [sigop_loop].
    cbn [sigop_sum] in *. pose proof (sigop_sum_range fAccurate op rest).
    pose proof (sigops_range fAccurate last op). scan_step E.
    rewrite Z.add_assoc. rewrite <- (IH fuel op (n + sigops fAccurate last op)) by lia.
    f_equal. unfold sigops in *. destruct (_ || _); [by rewrite wrap_small by lia|].
    destruct (_ || _); [|lia]. destruct (fAccurate && _ && _) eqn:Hl; [|by rewrite wrap_small by lia].
    unfold DecodeOP_N. bool_prop. destruct Hl as [[_ Hl1] Hl2]. bool_prop.
    destruct (Z.eqb_spec last OP_0); [lia|].
    destruct (Z.leb_spec OP_1 last), (Z.leb_spec last OP_16); try lia. cbn [andb].
    change (default 0 (Some ?x)) with x. by rewrite wrap_small by lia.
Qed.

(** ** Lemmas: [FindAndDelete] *)

(** The bytes of exactly one instruction *)
Definition is_instr (i : list Z) : Prop := bytes_ok i /\ exists x, GetOp2 i = (Some x, []).

(** Bytes that hold no complete instruction at their front *)
Definition no_instr (tail : list Z) : Prop := exists pc, GetOp2 tail = (None, pc).

Section find_and_delete.
Context (b : list Z) (b_instr : is_instr b).

Lemma is_instr_read i rest :
  is_instr i -> Z.of_nat (length (i ++ rest)) < 2 ^ 32 ->
  exists x, GetOp2 (i ++ rest) = (Some x, rest).
Proof.
  intros [Hb [x E]] Hl. exists x. by apply (GetOp2_ext i x [] rest).
Qed.

Lemma starts_with_app pc : starts_with b pc = true -> exists r, pc = b ++ r.
Proof.
  unfold starts_with. rewrite bool_decide_eq_true. intros E.
  exists (drop (length b) pc). rewrite <- E at 1. by rewrite take_drop.
Qed.

(** Instructions are prefix-free. *)
Lemma starts_with_instr i rest :
  is_instr i -> Z.of_nat (length (i ++ rest)) < 2 ^ 32 ->
  (length b <=? length (i ++ rest))%nat && starts_with b (i ++ rest) = bool_decide (i = b).
Proof.
  intros Hi Hl. destruct (starts_with b (i ++ rest)) eqn:E.
  - apply starts_with_app in E as [r E].
    destruct (is_instr_read i rest Hi Hl) as [x E1].
    destruct (is_instr_read b r b_instr) as [y E2]; [by rewrite <- E|].
    rewrite E, E2 in E1. assert (r = rest) as -> by congruence. apply app_inv_tail in E as ->.
    rewrite bool_decide_eq_true_2 by done. rewrite length_app.
    by destruct (Nat.leb_spec (length b) (length b + length rest)); [|lia].
  - rewrite andb_false_r, bool_decide_eq_false_2; [done|]. intros ->.
    unfold starts_with in E. rewrite take_app_length in E. by rewrite bool_decide_eq_false in E.
Qed.

Lemma starts_with_tail tail :
  no_instr tail -> Z.of_nat (length tail) < 2 ^ 32 -> starts_with b tail = false.
Proof.
  intros [pc E] Hl. destruct (starts_with b tail) eqn:Es; [|done].
  apply starts_with_app in Es as [r ->]. destruct (is_instr_read b r b_instr Hl) as [x E2]. congruence.
Qed.

Lemma b_pos : (0 < length b)%nat.
Proof. destruct b_instr as [_ [x E]]. destruct b; [done|simpl; lia]. Qed.

(** The leading copies of [b] *)
Fixpoint strip (l : list (list Z)) : list (list Z) * Z :=
  match l with
  | [] => ([], 0)
  | i :: l' => if decide (i = b) then let '(r, n) := strip l' in (r, n + 1) else (l, 0)
  end.

Lemma erase_at_instrs fuel l tail :
  Forall is_instr l -> no_instr tail -> Z.of_nat (length (mjoin l ++ tail)) < 2 ^ 32 ->
  (length (mjoin l ++ tail) <= fuel)%nat ->
  erase_at fuel b (mjoin l ++ tail) = (mjoin (strip l).1 ++ tail, (strip l).2).
Proof.
  revert l. induction fuel as [|fuel IH]; intros l Hl Ht Hlen Hf.
  - destruct l as [|i l]; [done|]. apply Forall_cons in Hl as [[_ [x Ex]] _].
    destruct i; [done|]. simpl in Hf. lia.
  - cbn [erase_at]. destruct l as [|i l]; cbn [strip].
    { change (mjoin [] ++ tail) with tail in *. by rewrite starts_with_tail, andb_false_r. }
    apply Forall_cons in Hl as [Hi Hl]. change (mjoin (i :: l)) with (i ++ mjoin l) in *.
    rewrite <- app_assoc in *. rewrite starts_with_instr by done.
    destruct (decide (i = b)) as [->|Hne]; [rewrite bool_decide_eq_true_2 by done
                                           |by rewrite bool_decide_eq_false_2, app_assoc by done].
    rewrite drop_app_length. pose proof b_pos. rewrite (length_app b) in Hf, Hlen. rewrite IH by (done || lia).
    by destruct (strip l).
Qed.

Lemma strip_spec l :
  let '(r, n) := strip l in
  filter (.≠ b) r = filter (.≠ b) l /\
  Z.of_nat (length (filter (.= b) l)) = n + Z.of_nat (length (filter (.= b) r)) /\
  match r with i :: _ => i <> b | [] => True end /\ exists c, l = c ++ r.
Proof.
  induction l as [|i l IH]; cbn [strip]; [by split_and!; [..|exists []]|].
  destruct (decide (i = b)) as [->|Hne].
  - destruct (strip l) as [r n]. destruct IH as (E1 & E2 & E3 & c & ->).
    rewrite !filter_cons. destruct (decide (b ≠ b)); [done|]. destruct (decide (b = b)); [|done].
    cbn [length]. split_and!; [done|lia|done|]. by exists (b :: c).
  - split_and!; [done|lia|done|by exists []].
Qed.

Lemma find_and_delete_instrs fuel l tail :
  Forall is_instr l -> no_instr tail -> Z.of_nat (length (mjoin l ++ tail)) < 2 ^ 32 ->
  (length l < fuel)%nat ->
  find_and_delete fuel b (mjoin l ++ tail) =
  (mjoin (filter (.≠ b) l) ++ tail, Z.of_nat (length (filter (.= b) l))).
Proof.
  revert l. induction fuel as [|fuel IH]; intros l Hl Ht Hlen Hf; [lia|]. cbn [find_and_delete].
  rewrite erase_at_instrs by done. pose proof (strip_spec l) as Hs.
  destruct (strip l) as [r n]. destruct Hs as (<- & -> & Hr & c & ->). cbn [fst snd].
  apply Forall_app in Hl as [_ Hl]. destruct r as [|i r].
  { destruct Ht as [pc Ht]. change (mjoin [] ++ tail) with tail. rewrite Ht. cbn. f_equal. lia. }
  apply Forall_cons in Hl as [Hi Hl]. change (mjoin (i :: r)) with (i ++ mjoin r) in *.
  assert (Z.of_nat (length (mjoin r ++ tail)) < 2 ^ 32 /\
          Z.of_nat (length (i ++ mjoin r ++ tail)) < 2 ^ 32) as [Hl1 Hl2].
  { rewrite join_app in Hlen. change (mjoin (i :: r)) with (i ++ mjoin r) in Hlen.
    rewrite !length_app in *. lia. }
  rewrite <- app_assoc. destruct (is_instr_read i (mjoin r ++ tail) Hi) as [x ->]; [done|].
  rewrite length_app in Hf. cbn [length] in Hf. rewrite IH by (done || lia).
  replace (length (i ++ mjoin r ++ tail) - length (mjoin r ++ tail))%nat with (length i)
    by (rewrite (length_app i); lia).
  rewrite take_app_length, !filter_cons. destruct (decide (i ≠ b)); [|done].
  destruct (decide (i = b)); [done|]. change (mjoin (i :: ?l)) with (i ++ mjoin l).
  by rewrite app_assoc.
Qed.
End find_and_delete.

(** ** Lemmas: number pushes *)

Lemma push_vch_app script b : push_vch script b = script ++ push_vch [] b.
Proof. unfold push_vch. by rewrite app_nil_l. Qed.

Lemma Instrs_push b :
  Z.of_nat (length b) < 2 ^ 32 -> Instrs (push_vch [] b) [(push_opcode b, b)] true.
Proof.
  intros Hl. eapply Instrs_op; [|constructor].
  pose proof (GetOp2_push b []) as E. rewrite !app_nil_r in E. by apply E.
Qed.

Lemma Instrs_byte opcode : OP_PUSHDATA4 < opcode -> Instrs [opcode] [(opcode, [])] true.
Proof. intros. eapply Instrs_op; [by apply GetOp2_op|constructor]. Qed.

Lemma canonical_push_opcode b :
  Z.of_nat (length b) < 2 ^ 32 ->
  canonical_push (push_opcode b, b) =
  negb ((Z.of_nat (length b) =? 1) && (nthZ b 0 <=? 16)).
Proof.
  intros Hl. unfold canonical_push, push_opcode. set (n := Z.of_nat (length b)) in *.
  assert (0 <= n) by lia. destruct (nthZ b 0 <=? 16); repeat case_goal; bool_prop; lia.
Qed.

Section push_number_facts.
Context {B : BNOps} {L : BNLaws B}.

(** The one-byte encodings of script numbers other than 1 to 16 are above 16 *)
Lemma snum_encode_byte z :
  snum_len z = 1 -> ~ (1 <= z <= 16) -> 16 < nthZ (snum_encode z) 0.
Proof.
  intros Hl Hz. assert (z <> 0) as Hnz by (intros ->; done).
  pose proof (snum_len_bounds z Hnz) as Hb. rewrite Hl in Hb. simpl in Hb.
  unfold snum_encode. rewrite Hl. change (Z.to_nat 1) with 1%nat. rewrite to_digits_S.
  change (nthZ (?x :: _) 0) with x. change (8 * 1 - 1) with 7. change (2 ^ 7) with 128.
  rewrite Z.mod_small by (case_goal; lia). destruct (Z.ltb_spec z 0); lia.
Qed.

Lemma push_int64_canonical n :
  - 2 ^ 63 <= n < 2 ^ 63 -> exists i, Instrs (push_int64 [] n) [i] true /\ canonical_push i = true /\ is_push i = true.
Proof.
  intros Hn. unfold push_int64.
  destruct ((n =? -1) || ((1 <=? n) && (n <=? 16))) eqn:Hs; bool_prop.
  - assert (n = -1 \/ 1 <= n <= 16) as Hr by (destruct Hs as [?|?]; bool_prop; lia).
    exists (n + (OP_1 - 1), []). rewrite app_nil_l, wrap_small by lia.
    split_and!; [apply Instrs_byte; lia| |].
    + unfold canonical_push. cbn [length]. repeat case_goal; bool_prop; lia.
    + unfold is_push. cbn [fst]. apply Z.leb_le. lia.
  - destruct Hs as [Hs1 Hs2]. rewrite getvch_val, CBigNum_of_long_val by done. bool_prop.
    assert (snum_len n <= 9) as Hlen.
    { destruct (decide (n = 0)) as [->|Hnz]; [done|]. destruct (snum_len_bounds n Hnz) as [Hlo _].
      assert (2 ^ (8 * (snum_len n - 1) - 1) < 2 ^ 64) as Hp by lia.
      apply Z.pow_lt_mono_r_iff in Hp; lia. }
    pose proof (length_snum_encode n) as Hl.
    exists (push_opcode (snum_encode n), snum_encode n).
    split_and!; [apply Instrs_push; lia| |].
    + rewrite canonical_push_opcode by lia. rewrite Hl.
      destruct (Z.eqb_spec (snum_len n) 1) as [E|E]; [|done]. cbn [andb].
      assert (~ (1 <= n <= 16)) as Hno by (destruct Hs2; bool_prop; lia).
      pose proof (snum_encode_byte n E Hno). destruct (Z.leb_spec (nthZ (snum_encode n) 0) 16); [lia|done].
    + unfold is_push, push_opcode. cbn [fst]. repeat case_goal; bool_prop; done || lia.
Qed.
End push_number_facts.

Lemma Find_Instrs fuel op pc l ok :
  Instrs pc l ok -> (length pc <= fuel)%nat ->
  Find_loop fuel op pc = Z.of_nat (length (filter (fun i => i.1 = op) l)).
Proof.
  intros H. revert fuel. induction H as [|pc pc' Hne E|pc [o d] pc' rest ok E H IH]; intros fuel Hf.
  - by destruct fuel.
  - destruct fuel; [done|]. cbn [Find_loop]. destruct pc; [done|]. by rewrite E.
  - pose proof (GetOp2_length _ _ _ E). destruct fuel; [lia|]. cbn [Find_loop].
    scan_step E. rewrite filter_cons, IH by lia. cbn [fst].
    destruct (Z.eqb_spec o op), (decide (o = op)); cbn [length]; lia.
Qed.

(** ** Claims *)

(** what [<<] pushes is read back by [GetOp] with the data unchanged, for
    every size of data and whatever follows; [HasCanonicalPushes] accepts a
    pushed vector unless it is a single byte of at most 16, and accepts every
    pushed integer. *)
Theorem push_read_back {B : BNOps} {L : BNLaws B} (script b rest : list Z) (n : Z) :
  Z.of_nat (length (b ++ rest)) < 2 ^ 32 -> - 2 ^ 63 <= n < 2 ^ 63 ->
  push_vch script b = script ++ push_vch [] b /\
  GetOp2 (push_vch [] b ++ rest) = (Some (push_opcode b, b), rest) /\
  HasCanonicalPushes (push_vch [] b) = negb ((Z.of_nat (length b) =? 1) && (nthZ b 0 <=? 16)) /\
  HasCanonicalPushes (push_int64 [] n) = true /\ IsPushOnly (push_int64 [] n) = true.
Proof.
  intros Hl Hn. assert (Z.of_nat (length b) < 2 ^ 32) by (rewrite length_app in Hl; lia).
  destruct (push_int64_canonical n Hn) as (i & Hi & Hc & Hp).
  unfold HasCanonicalPushes, IsPushOnly. split_and!.
  - apply push_vch_app.
  - by apply GetOp2_push.
  - rewrite (HasCanonicalPushes_Instrs _ _ _ _ (Instrs_push b ltac:(done))) by lia.
    cbn [forallb andb]. by rewrite andb_true_r, canonical_push_opcode.
  - rewrite (HasCanonicalPushes_Instrs _ _ _ _ Hi) by lia. simpl. by rewrite Hc.
  - rewrite (IsPushOnly_Instrs _ _ _ _ Hi) by lia. simpl. by rewrite Hp.
Qed.

(** the loops over a script see its instructions: there is exactly one
    sequence of instructions [Instrs] describes, [IsPushOnly] and
    [HasCanonicalPushes] hold when all of it can be read and is made of (canonical)
    pushes, [Find] counts an opcode, and [GetSigOpCount] adds up the signature
    operations, at most 20 for an instruction and never more when it counts
    accurately. *)
Theorem script_scans (script : list Z) (l : list (opcodetype * list Z)) (ok : bool) (op : opcodetype) :
  20 * Z.of_nat (length script) < 2 ^ 32 ->
  Instrs script l ok ->
  (forall l' ok', Instrs script l' ok' -> l' = l /\ ok' = ok) /\
  IsPushOnly script = ok && forallb is_push l /\
  HasCanonicalPushes script = ok && forallb canonical_push l /\
  Find op script = Z.of_nat (length (filter (fun i => i.1 = op) l)) /\
  (forall fAccurate, GetSigOpCount fAccurate script = sigop_sum fAccurate OP_INVALIDOPCODE l) /\
  GetSigOpCount true script <= GetSigOpCount false script <= 20 * Z.of_nat (length l).
Proof.
  intros Hl H. pose proof (Instrs_length _ _ _ H).
  assert (E : forall f, GetSigOpCount f script = sigop_sum f OP_INVALIDOPCODE l).
  { intros f. pose proof (sigop_sum_range f OP_INVALIDOPCODE l). unfold GetSigOpCount.
    rewrite (sigop_loop_Instrs _ _ _ _ _ _ _ H) by lia. lia. }
  split_and!.
  - intros l' ok' H'. by eapply Instrs_fun.
  - by apply IsPushOnly_Instrs.
  - by apply HasCanonicalPushes_Instrs.
  - by eapply Find_Instrs.
  - done.
  - rewrite !E. apply sigop_sum_accurate.
  - rewrite E. apply sigop_sum_range.
Qed.

(** [FindAndDelete] of one instruction removes exactly the instructions
    equal to it, leaves the others in order, keeps bytes at the end that do not
    read as an instruction, and returns how many it removed; bytes inside the
    data of other instructions are not matched. *)
Theorem FindAndDelete_exact (b : list Z) (l : list (list Z)) (tail : list Z) :
  is_instr b -> Forall is_instr l -> no_instr tail ->
  Z.of_nat (length (mjoin l ++ tail)) < 2 ^ 32 ->
  FindAndDelete (mjoin l ++ tail) b =
  (mjoin (filter (.≠ b) l) ++ tail, Z.of_nat (length (filter (.= b) l))).
Proof.
  intros Hb Hl Ht Hlen. unfold FindAndDelete. destruct b as [|x b']; [by destruct Hb as [_ [? ?]]|].
  apply find_and_delete_instrs; try done.
  assert (length l <= length (mjoin l))%nat.
  { clear -Hl. induction Hl as [|i l [_ [x Ex]] _ IH]; [done|].
    change (mjoin (i :: l)) with (i ++ mjoin l). rewrite length_app. destruct i; [done|simpl; lia]. }
  rewrite length_app. lia.
Qed.

Lemma push_read_back_witness :
  GetOp2 (push_vch [] [1; 2; 3] ++ [0xac]) = (Some (push_opcode [1; 2; 3], [1; 2; 3]), [0xac]).
Proof. apply (push_read_back (B := ZBN) [] [1; 2; 3] [0xac] 7); simpl; lia. Defined.

Lemma script_scans_witness : GetSigOpCount true [0x52; 0xae; 0xac] = 3.
Proof.
  destruct (script_scans [0x52; 0xae; 0xac] [(0x52, []); (0xae, []); (0xac, [])] true OP_DUP)
    as (_ & _ & _ & _ & -> & _).
  - simpl. lia.
  - repeat (eapply Instrs_op; [reflexivity|]). constructor.
  - reflexivity.
Defined.

Lemma FindAndDelete_exact_witness :
  FindAndDelete [0x01; 0xab; 0xab; 0x76; 0xab] [0xab] = ([0x01; 0xab; 0x76], 2).
Proof.
  apply (FindAndDelete_exact [0xab] [[0x01; 0xab]; [0xab]; [0x76]; [0xab]] []);
    [by split; [repeat constructor; lia|eexists]| |by eexists|simpl; lia].
  repeat constructor; try lia; by eexists.
Defined.
