(* ===== verification/Canonical.v ===== *)
(** * Canonical signatures and public keys

    [CompareBigEndian] and [CKey::CheckSignatureElement] of [key.cpp], and
    [IsCanonicalPubKey] and [IsCanonicalSignature] of [script.cpp], which the
    interpreter asks before every signature check. *)

From S2P Require Import Prelude Uint256 BigNum Serialize Script.

(** The two length loops: [Some r] when they return *)
Fixpoint cmp_skip (r : Z) (n : nat) (c : list Z) : option Z * list Z :=
  match n, c with
  | S n', x :: c' => if negb (x =? 0) then (Some r, c) else cmp_skip r n' c'
  | _, _ => (None, c)
  end.

Fixpoint cmp_bytes (c1 c2 : list Z) : Z :=
  match c1, c2 with
  | x :: c1, y :: c2 =>
      if y <? x then 1 else if x <? y then -1 else cmp_bytes c1 c2
  | _, _ => 0
  end.

Definition CompareBigEndian (c1 c2 : list Z) : Z :=
  match cmp_skip 1 (length c1 - length c2) c1 with
  | (Some r, _) => r
  | (None, c1) =>
      match cmp_skip (-1) (length c2 - length c1) c2 with
      | (Some r, _) => r
      | (None, c2) => cmp_bytes c1 c2
      end
  end.

Definition vchMaxModOrder : list Z :=
  [0xFF; 0xFF; 0xFF; 0xFF; 0xFF; 0xFF; 0xFF; 0xFF; 0xFF; 0xFF; 0xFF; 0xFF; 0xFF; 0xFF; 0xFF; 0xFE;
   0xBA; 0xAE; 0xDC; 0xE6; 0xAF; 0x48; 0xA0; 0x3B; 0xBF; 0xD2; 0x5E; 0x8C; 0xD0; 0x36; 0x41; 0x40].

Definition vchMaxModHalfOrder : list Z :=
  [0x7F; 0xFF; 0xFF; 0xFF; 0xFF; 0xFF; 0xFF; 0xFF; 0xFF; 0xFF; 0xFF; 0xFF; 0xFF; 0xFF; 0xFF; 0xFF;
   0x5D; 0x57; 0x6E; 0x73; 0x57; 0xA4; 0x50; 0x1D; 0xDF; 0xE9; 0x2F; 0x46; 0x68; 0x1B; 0x20; 0xA0].

Definition CheckSignatureElement (vch : list Z) (half : bool) : bool :=
  (0 <? CompareBigEndian vch []) &&
  (CompareBigEndian vch (if half then vchMaxModHalfOrder else vchMaxModOrder) <=? 0).

Definition IsCanonicalPubKey (vchPubKey : list Z) (flags : Z) : bool :=
  let size := Z.of_nat (length vchPubKey) in
  if negb (has_flag flags SCRIPT_VERIFY_STRICTENC) then true
  else if size <? 33 then false
  else if nthZ vchPubKey 0 =? 0x04 then size =? 65
  else if (nthZ vchPubKey 0 =? 0x02) || (nthZ vchPubKey 0 =? 0x03) then size =? 33
  else false.

(** The checks on [R] and on [S]: type byte in front, length, sign, padding *)
Definition der_element (p : list Z) (type len : Z) : bool :=
  if negb (type =? 0x02) then false
  else if len =? 0 then false
  else if negb (nthZ p 0 .& 0x80 =? 0) then false
  else if (1 <? len) && (nthZ p 0 =? 0x00) && (nthZ p 1 .& 0x80 =? 0) then false
  else true.

Definition IsCanonicalSignature (vchSig : list Z) (flags : Z) : bool :=
  let size := Z.of_nat (length vchSig) in
  let at_ i := nthZ vchSig (Z.to_nat i) in
  if negb (has_flag flags SCRIPT_VERIFY_STRICTENC) then true
  else if size <? 9 then false
  else if 73 <? size then false
  else
    let nHashType := u8 (at_ (size - 1) .& Z.lnot SIGHASH_ANYONECANPAY) in
    if (nHashType <? SIGHASH_ALL) || (SIGHASH_SINGLE <? nHashType) then false
    else if negb (at_ 0 =? 0x30) then false
    else if negb (at_ 1 =? size - 3) then false
    else
      let nLenR := at_ 3 in
      if size <=? 5 + nLenR then false
      else
        let nLenS := at_ (5 + nLenR) in
        if negb (nLenR + nLenS + 7 =? size) then false
        else if negb (der_element (drop 4 vchSig) (at_ 2) nLenR) then false
        else
          let S := drop (Z.to_nat (6 + nLenR)) vchSig in
          if negb (der_element S (at_ (4 + nLenR)) nLenS) then false
          else if has_flag flags SCRIPT_VERIFY_LOW_S
          then CheckSignatureElement (take (Z.to_nat nLenS) S) true
          else true.

(** ** Lemmas: big-endian comparison *)

Definition be_val (bs : list Z) : Z := le_val (rev bs).

Lemma be_val_cons x bs : be_val (x :: bs) = x * 256 ^ Z.of_nat (length bs) + be_val bs.
Proof.
  unfold be_val. cbn [rev]. rewrite digits_val_app, length_rev, digits_val_cons, digits_val_nil. lia.
Qed.

Lemma be_val_bound bs : bytes_ok bs -> 0 <= be_val bs < 256 ^ Z.of_nat (length bs).
Proof.
  intros H. unfold be_val. rewrite <- (length_rev bs). apply digits_val_bound; [lia|].
  by apply Forall_rev.
Qed.

Lemma cmp_bytes_val c1 c2 :
  bytes_ok c1 -> bytes_ok c2 -> length c1 = length c2 ->
  Z.compare (cmp_bytes c1 c2) 0 = Z.compare (be_val c1) (be_val c2).
Proof.
  revert c2. induction c1 as [|x c1 IH]; intros [|y c2] H1 H2 Hl; try done.
  apply Forall_cons in H1 as [Hx H1], H2 as [Hy H2]. injection Hl as Hl. cbn [cmp_bytes].
  pose proof (be_val_bound c1 H1) as B1. pose proof (be_val_bound c2 H2) as B2.
  rewrite !be_val_cons, Hl in *.
  destruct (Z.ltb_spec y x); [symmetry; apply Z.compare_gt_iff; nia|].
  destruct (Z.ltb_spec x y); [symmetry; apply Z.compare_lt_iff; nia|].
  assert (x = y) as -> by lia. rewrite IH by done. by rewrite Z.add_compare_mono_l.
Qed.

Lemma cmp_skip_val r n c :
  bytes_ok c -> (n <= length c)%nat ->
  match cmp_skip r n c with
  | (Some r', _) => r' = r /\ 256 ^ Z.of_nat (length c - n) <= be_val c
  | (None, c') => length c' = (length c - n)%nat /\ be_val c' = be_val c /\ bytes_ok c'
  end.
Proof.
  revert c. induction n as [|n IH]; intros c Hc Hn; [cbn; split_and!; [lia|done..]|].
  destruct c as [|x c]; [cbn in Hn; lia|]. apply Forall_cons in Hc as [Hx Hc]. cbn [cmp_skip].
  red in Hx. pose proof (be_val_bound c Hc). cbn [length] in *.
  destruct (Z.eqb_spec x 0) as [->|]; cbn [negb].
  - specialize (IH c Hc ltac:(lia)). rewrite be_val_cons.
    destruct (cmp_skip r n c) as [[r'|] c']; cbn [Nat.sub]; intuition lia.
  - split; [done|]. rewrite be_val_cons.
    assert (256 ^ Z.of_nat (S (length c) - S n) <= 256 ^ Z.of_nat (length c))
      by (apply Z.pow_le_mono_r; lia). nia.
Qed.

Lemma CompareBigEndian_val c1 c2 :
  bytes_ok c1 -> bytes_ok c2 ->
  Z.compare (CompareBigEndian c1 c2) 0 = Z.compare (be_val c1) (be_val c2).
Proof.
  intros H1 H2. unfold CompareBigEndian. pose proof (be_val_bound c2 H2) as B2.
  pose proof (cmp_skip_val 1 (length c1 - length c2) c1 H1 ltac:(lia)) as S1.
  destruct (cmp_skip 1 _ c1) as [[r|] c1'].
  - destruct S1 as [-> S1]. symmetry. apply Z.compare_gt_iff.
    destruct (decide (length c2 <= length c1)%nat).
    + replace (length c1 - (length c1 - length c2))%nat with (length c2) in S1 by lia. lia.
    + pose proof (be_val_bound c1 H1). replace (length c1 - (length c1 - length c2))%nat with (length c1) in S1 by lia. lia.
  - destruct S1 as (L1 & E1 & H1'). pose proof (be_val_bound c1' H1') as B1.
    pose proof (cmp_skip_val (-1) (length c2 - length c1') c2 H2 ltac:(lia)) as S2.
    destruct (cmp_skip (-1) _ c2) as [[r|] c2'].
    + destruct S2 as [-> S2]. symmetry. apply Z.compare_lt_iff.
      replace (length c2 - (length c2 - length c1'))%nat with (length c1') in S2 by lia. lia.
    + destruct S2 as (L2 & E2 & H2'). rewrite cmp_bytes_val by (done || lia). by rewrite E1, E2.
Qed.

Definition half_order : Z := 0x7FFFFFFFFFFFFFFFFFFFFFFFFFFFFFFF5D576E7357A4501DDFE92F46681B20A0.

Lemma CheckSignatureElement_half vch :
  bytes_ok vch -> CheckSignatureElement vch true = (0 <? be_val vch) && (be_val vch <=? half_order).
Proof.
  intros H. unfold CheckSignatureElement.
  pose proof (CompareBigEndian_val vch [] H ltac:(constructor)) as E1.
  pose proof (CompareBigEndian_val vch vchMaxModHalfOrder H ltac:(repeat constructor; lia)) as E2.
  change (be_val []) with 0 in E1. change (be_val vchMaxModHalfOrder) with half_order in E2.
  f_equal.
  - rewrite !Z.ltb_compare, (Z.compare_antisym (be_val vch)), (Z.compare_antisym (CompareBigEndian _ _)). by rewrite E1.
  - unfold Z.leb. by rewrite E2.
Qed.

(** ** The DER form of signatures *)

(** Minimal big-endian bytes of a non-negative number *)
Definition der_int (X : list Z) : Prop :=
  X <> [] /\ nthZ X 0 < 128 /\ ((1 < length X)%nat -> nthZ X 0 = 0 -> 128 <= nthZ X 1).

Definition der_signature (R S : list Z) (t : Z) : list Z :=
  0x30 :: (Z.of_nat (length R) + Z.of_nat (length S) + 4) ::
  0x02 :: Z.of_nat (length R) :: R ++ 0x02 :: Z.of_nat (length S) :: S ++ [t].

Lemma byte_cases (P : Z -> bool) :
  forallb P (Z.of_nat <$> seq 0 256) = true -> forall b, is_byte b -> P b = true.
Proof.
  intros H b Hb. red in Hb. rewrite forallb_forall in H. apply H.
  apply list_elem_of_In, list_elem_of_fmap. exists (Z.to_nat b). split; [lia|].
  apply elem_of_seq. lia.
Qed.

Lemma hashtype_mask t : is_byte t -> u8 (t .& Z.lnot SIGHASH_ANYONECANPAY) = t mod 128.
Proof.
  intros Ht. apply Z.eqb_eq.
  by apply (byte_cases (fun t => u8 (t .& Z.lnot SIGHASH_ANYONECANPAY) =? t mod 128)).
Qed.

Lemma der_element_spec p rest type :
  bytes_ok p -> der_element (p ++ rest) type (Z.of_nat (length p)) = true <-> type = 2 /\ der_int p.
Proof.
  intros Hp. unfold der_element, der_int.
  destruct (Z.eqb_spec type 2) as [->|]; cbn [negb]; [|by split; [|intros [? _]]].
  destruct p as [|x [|y p]]; cbn [length app].
  - simpl. by split; [|intros (_ & ? & _)].
  - apply Forall_cons in Hp as [Hx _]. change (nthZ (x :: ?l) 0) with x.
    simpl (Z.of_nat 1). cbn [Z.eqb Z.ltb Z.compare andb]. rewrite byte_high_bit by done.
    destruct (Z.leb_spec 128 x); (split; [|intros (_ & _ & ? & _)]); try done; try lia.
    intros _. split_and!; [done..|]. intros ?. lia.
  - apply Forall_cons in Hp as [Hx Hp]. apply Forall_cons in Hp as [Hy _].
    change (nthZ (x :: ?l) 0) with x. change (nthZ (x :: y :: ?l) 1) with y.
    destruct (Z.eqb_spec (Z.of_nat (S (S (length p)))) 0); [lia|].
    destruct (Z.ltb_spec 1 (Z.of_nat (S (S (length p))))); [|lia].
    pose proof (byte_high_bit y Hy) as Ey. apply (f_equal negb) in Ey. rewrite negb_involutive in Ey.
    rewrite byte_high_bit, Ey by done. cbn [andb].
    destruct (Z.leb_spec 128 x), (Z.eqb_spec x 0), (Z.leb_spec 128 y); cbn [andb negb];
      (split; [|intros (_ & _ & Hc1 & Hc2)]); try done; try lia; try (intros _; split_and!; done || lia).
Qed.

Lemma if_negb_false (b k : bool) : (if negb b then false else k) = b && k.
Proof. by destruct b. Qed.

Lemma if_false (b k : bool) : (if b then false else k) = negb b && k.
Proof. by destruct b. Qed.

(** The checks of [IsCanonicalSignature] on a signature taken apart *)
Lemma canonical_parts flags a0 a1 a2 b0 R Sb t :
  has_flag flags SCRIPT_VERIFY_STRICTENC = true -> is_byte t -> bytes_ok R -> bytes_ok Sb ->
  IsCanonicalSignature
    (a0 :: a1 :: a2 :: Z.of_nat (length R) :: R ++ b0 :: Z.of_nat (length Sb) :: Sb ++ [t]) flags = true <->
  (a0 = 0x30 /\ a1 = Z.of_nat (length R) + Z.of_nat (length Sb) + 4 /\ a2 = 2 /\ b0 = 2) /\
  der_int R /\ der_int Sb /\ (2 <= length R + length Sb <= 66)%nat /\ 1 <= t mod 128 <= 3 /\
  (has_flag flags SCRIPT_VERIFY_LOW_S = true -> CheckSignatureElement Sb true = true).
Proof.
  intros Hf Ht HR HS. set (sig := a0 :: a1 :: a2 :: Z.of_nat (length R) :: _).
  assert (Hlen : length sig = (7 + length R + length Sb)%nat).
  { subst sig. cbn [length]. rewrite length_app. cbn [length]. rewrite length_app. cbn [length]. lia. }
  assert (Hd : forall i, nthZ sig (4 + length R + i) = nthZ (b0 :: Z.of_nat (length Sb) :: Sb ++ [t]) i).
  { intros i. etransitivity; [|apply (nthZ_app_r R)]. done. }
  assert (Ht' : nthZ sig (Z.to_nat (Z.of_nat (length sig) - 1)) = t).
  { rewrite Hlen. replace (Z.to_nat _) with (4 + length R + (2 + length Sb))%nat by lia.
    rewrite Hd. pose proof (nthZ_app_r Sb [t] 0) as E. rewrite Nat.add_0_r in E. apply E. }
  assert (H4 : nthZ sig (Z.to_nat (4 + Z.of_nat (length R))) = b0).
  { replace (Z.to_nat _) with (4 + length R + 0)%nat by lia. by rewrite Hd. }
  assert (H5 : nthZ sig (Z.to_nat (5 + Z.of_nat (length R))) = Z.of_nat (length Sb)).
  { replace (Z.to_nat _) with (4 + length R + 1)%nat by lia. by rewrite Hd. }
  assert (Hdrop : drop (Z.to_nat (6 + Z.of_nat (length R))) sig = Sb ++ [t]).
  { replace (Z.to_nat _) with (4 + (length R + 2))%nat by lia. unfold sig. cbn [drop Nat.add].
    by rewrite <- drop_drop, drop_app_length. }
  assert (Hdrop4 : drop 4 sig = R ++ b0 :: Z.of_nat (length Sb) :: Sb ++ [t]) by done.
  unfold IsCanonicalSignature. rewrite Hf, Ht', hashtype_mask by done. cbn [negb].
  change (nthZ sig (Z.to_nat 0)) with a0. change (nthZ sig (Z.to_nat 1)) with a1.
  change (nthZ sig (Z.to_nat 2)) with a2. change (nthZ sig (Z.to_nat 3)) with (Z.of_nat (length R)).
  rewrite H4, H5, Hdrop, Hdrop4, Nat2Z.id, take_app_length, Hlen. clear Hd Ht' H4 H5 Hdrop Hdrop4.
  clearbody sig. unfold SIGHASH_ALL, SIGHASH_SINGLE.
  pose proof (der_element_spec R (b0 :: Z.of_nat (length Sb) :: Sb ++ [t]) a2 HR) as E1.
  pose proof (der_element_spec Sb [t] b0 HS) as E2.
  assert (HL : (if has_flag flags SCRIPT_VERIFY_LOW_S then CheckSignatureElement Sb true else true) = true <->
    (has_flag flags SCRIPT_VERIFY_LOW_S = true -> CheckSignatureElement Sb true = true))
    by (destruct (has_flag _ SCRIPT_VERIFY_LOW_S); split; try done; intros Hi; by apply Hi).
  rewrite !if_negb_false, !if_false, !andb_true_iff, E1, E2, HL, !negb_true_iff, orb_false_iff,
    !Z.eqb_eq, !Z.ltb_ge, Z.leb_gt.
  intuition lia.
Qed.

(** An accepted signature comes apart at its length bytes. *)
Lemma canonical_decompose flags sig :
  has_flag flags SCRIPT_VERIFY_STRICTENC = true -> bytes_ok sig ->
  IsCanonicalSignature sig flags = true ->
  exists a0 a1 a2 R b0 Sb t,
    sig = a0 :: a1 :: a2 :: Z.of_nat (length R) :: R ++ b0 :: Z.of_nat (length Sb) :: Sb ++ [t].
Proof.
  intros Hf Hb H. unfold IsCanonicalSignature in H. rewrite Hf in H. cbn [negb] in H.
  rewrite !if_negb_false, !if_false, !andb_true_iff, !negb_true_iff in H.
  destruct H as (H9 & _ & _ & _ & _ & HR & HS & _). bool_prop.
  destruct sig as [|a0 [|a1 [|a2 [|nR l]]]]; cbn [length] in H9; [lia..|].
  change (nthZ (a0 :: a1 :: a2 :: nR :: l) (Z.to_nat 3)) with nR in *. cbn [length] in *.
  assert (is_byte nR) as HnR by (by do 3 apply Forall_inv_tail in Hb; apply Forall_inv in Hb). red in HnR.
  set (R := take (Z.to_nat nR) l).
  assert (length R = Z.to_nat nR) as HlR by (subst R; rewrite length_take; lia).
  assert (l = R ++ drop (Z.to_nat nR) l) as El by (unfold R; by rewrite take_drop).
  pose proof (length_drop l (Z.to_nat nR)) as Hd.
  destruct (drop (Z.to_nat nR) l) as [|b0 [|nS l2]] eqn:E; cbn [length] in Hd; [lia..|].
  assert (Hn5 : nthZ (a0 :: a1 :: a2 :: nR :: l) (Z.to_nat (5 + nR)) = nS).
  { replace (Z.to_nat (5 + nR)) with (4 + (length R + 1))%nat by lia. rewrite El.
    change (nthZ (R ++ b0 :: nS :: l2) (length R + 1) = nS). by rewrite nthZ_app_r. }
  rewrite Hn5 in HS.
  assert (is_byte nS) as HnS.
  { do 4 apply Forall_inv_tail in Hb. rewrite El in Hb. apply Forall_app in Hb as [_ Hb].
    by apply Forall_inv_tail, Forall_inv in Hb. }
  red in HnS. assert (length l2 = S (Z.to_nat nS)) as Hl2 by lia.
  pose proof (length_drop l2 (Z.to_nat nS)) as Hd2.
  destruct (drop (Z.to_nat nS) l2) as [|t [|]] eqn:E2; cbn [length] in Hd2; [lia| |lia].
  exists a0, a1, a2, R, b0, (take (Z.to_nat nS) l2), t.
  rewrite length_take, HlR, Z2Nat.id by lia.
  rewrite Nat.min_l, Z2Nat.id by lia. rewrite El at 1. repeat f_equal.
  by rewrite <- E2, take_drop.
Qed.

(** ** Claims *)

(** under [SCRIPT_VERIFY_STRICTENC], [IsCanonicalSignature] accepts exactly
    the strict DER encodings of two minimally encoded non-negative numbers
    followed by a known hash type, of at most 73 bytes; with
    [SCRIPT_VERIFY_LOW_S], [S] is moreover non-zero and at most half the order of
    the curve. *)
Theorem canonical_signature_der (flags : Z) (sig : list Z) :
  bytes_ok sig -> has_flag flags SCRIPT_VERIFY_STRICTENC = true ->
  IsCanonicalSignature sig flags = true <->
  exists R S t, sig = der_signature R S t /\ der_int R /\ der_int S /\
    (length sig <= 73)%nat /\ 1 <= t mod 128 <= 3 /\
    (has_flag flags SCRIPT_VERIFY_LOW_S = true -> 0 < be_val S <= half_order).
Proof.
  intros Hb Hf.
  assert (Hparts : forall a0 a1 a2 n R b0 m Sb t,
    sig = a0 :: a1 :: a2 :: n :: R ++ b0 :: m :: Sb ++ [t] -> is_byte t /\ bytes_ok R /\ bytes_ok Sb).
  { intros * ->. do 4 apply Forall_inv_tail in Hb. apply Forall_app in Hb as [HR Hb].
    do 2 apply Forall_inv_tail in Hb. apply Forall_app in Hb as [HS Ht].
    apply Forall_inv in Ht. done. }
  assert (Hlow : forall S, bytes_ok S -> CheckSignatureElement S true = true <-> 0 < be_val S <= half_order).
  { intros S HS. by rewrite CheckSignatureElement_half, andb_true_iff, Z.ltb_lt, Z.leb_le. }
  split.
  - intros H. destruct (canonical_decompose flags sig Hf Hb H) as (a0 & a1 & a2 & R & b0 & Sb & t & E).
    destruct (Hparts _ _ _ _ _ _ _ _ _ E) as (Ht & HR & HS). subst sig.
    apply canonical_parts in H as ((-> & -> & -> & ->) & H1 & H2 & H3 & H4 & H5); [|done..].
    exists R, Sb, t. split_and!; try done; try lia.
    + cbn [length]. rewrite length_app. cbn [length]. rewrite length_app. cbn [length]. lia.
    + intros Hl. by apply Hlow, H5.
  - intros (R & Sb & t & E & H1 & H2 & H3 & H4 & H5).
    destruct (Hparts _ _ _ _ _ _ _ _ _ E) as (Ht & HR & HS). subst sig.
    apply canonical_parts; [done..|]. split_and!; try done; try lia.
    + destruct H1 as [H1 _], H2 as [H2 _]. destruct R, Sb; try done. cbn [length]. lia.
    + unfold der_signature in H3. cbn [length] in H3. rewrite length_app in H3. cbn [length] in H3.
      rewrite length_app in H3. cbn [length] in H3. lia.
    + intros Hl. by apply Hlow, H5.
Qed.

Definition sample_sig : list Z := der_signature [0x11; 0x22] [0x33] 1.

Lemma canonical_signature_der_witness : IsCanonicalSignature sample_sig STRICT_FLAGS = true.
Proof.
  apply (canonical_signature_der STRICT_FLAGS sample_sig);
    [repeat constructor; lia|reflexivity|].
  exists [0x11; 0x22], [0x33], 1. split_and!; try reflexivity; try done; vm_compute; lia.
Defined.
