(* ===== verification/Interp.v ===== *)
(** * The script interpreter: [EvalScript] of [script.cpp]

    The machine's state is a record; an operation is a function of the state
    that continues with a value or ends the evaluation with [false], which the
    source does by [return false] or by an exception that [EvalScript] catches.
    Either way the state reached is kept, because the stack is the caller's.
    Stacks are lists with the top at the head: [stacktop(-i)] is element [i - 1].

    Signature checking is a parameter, a function of the signature, the key and
    the script code that may throw ([None]) and may change a world [W] (the
    signature cache); [SigCheck] supplies the program's own. *)

From S2P Require Import Prelude Uint256 BigNum Serialize Hash Script Canonical.

Abbreviation valtype := (list Z).

Definition vchFalse : valtype := [].
Definition vchTrue : valtype := [1].
Definition nMaxNumSize : Z := 4.

Fixpoint CastToBool (vch : valtype) : bool :=
  match vch with
  | [] => false
  | c :: vch' =>
      if negb (c =? 0) then
        (* can be negative zero *)
        negb (match vch' with [] => true | _ => false end && (c =? 0x80))
      else CastToBool vch'
  end.

Definition resize (v : valtype) (n : nat) : valtype := take n v ++ replicate (n - length v) 0.

Definition MakeSameSize (vch1 vch2 : valtype) : valtype * valtype :=
  let vch1 := if (length vch1 <? length vch2)%nat then resize vch1 (length vch2) else vch1 in
  let vch2 := if (length vch2 <? length vch1)%nat then resize vch2 (length vch1) else vch2 in
  (vch1, vch2).

(** ** The machine *)

Record eval_state (W : Type) := mkState {
  stack : list valtype;
  altstack : list valtype;
  vfExec : list bool;
  pbegincodehash : list Z;
  nOpCount : Z;
  world : W
}.
Arguments mkState {W} _ _ _ _ _ _.
Arguments stack {W} _.
Arguments altstack {W} _.
Arguments vfExec {W} _.
Arguments pbegincodehash {W} _.
Arguments nOpCount {W} _.
Arguments world {W} _.

Definition M (W A : Type) : Type := eval_state W -> option A * eval_state W.

#[export] Instance M_ret {W} : MRet (M W) := fun A a s => (Some a, s).
#[export] Instance M_bind {W} : MBind (M W) := fun A B f m s =>
  match m s with
  | (Some a, s') => f a s'
  | (None, s') => (None, s')
  end.

Section primitives.
Context {W : Type}.

(** [return false], or an exception *)
Definition stop {A} : M W A := fun s => (None, s).
Definition require (b : bool) : M W unit := if b then mret tt else stop.

Definition gets {A} (f : eval_state W -> A) : M W A := fun s => (Some (f s), s).
Definition set_stack (st : list valtype) : M W unit := fun s =>
  (Some tt, mkState st (altstack s) (vfExec s) (pbegincodehash s) (nOpCount s) (world s)).
Definition set_altstack (st : list valtype) : M W unit := fun s =>
  (Some tt, mkState (stack s) st (vfExec s) (pbegincodehash s) (nOpCount s) (world s)).
Definition set_vfExec (v : list bool) : M W unit := fun s =>
  (Some tt, mkState (stack s) (altstack s) v (pbegincodehash s) (nOpCount s) (world s)).
Definition set_codehash (pc : list Z) : M W unit := fun s =>
  (Some tt, mkState (stack s) (altstack s) (vfExec s) pc (nOpCount s) (world s)).
Definition add_ops (n : Z) : M W unit := fun s =>
  (Some tt, mkState (stack s) (altstack s) (vfExec s) (pbegincodehash s) (nOpCount s + n) (world s)).
(** Count [n] operations: [nOpCount += n; if (nOpCount > 201) return false;] *)
Definition charge (n : Z) : M W unit :=
  add_ops n;; c ← gets nOpCount; require (negb (201 <? c)).

Definition in_world {A} (f : W -> option A * W) : M W A := fun s =>
  let '(a, w) := f (world s) in
  (a, mkState (stack s) (altstack s) (vfExec s) (pbegincodehash s) (nOpCount s) w).

Definition size : M W Z := gets (fun s => Z.of_nat (length (stack s))).

(** [if (stack.size() < n) return false;] *)
Definition need (n : Z) : M W unit := sz ← size; require (negb (sz <? n)).

Definition push (v : valtype) : M W unit := st ← gets stack; set_stack (v :: st).

Definition popstack : M W unit :=
  st ← gets stack;
  match st with
  | [] => stop
  | _ :: st => set_stack st
  end.

(** [stack.at(stack.size() + i)], [i] negative *)
Definition stacktop (i : Z) : M W valtype :=
  st ← gets stack;
  match st !! Z.to_nat (- i - 1) with
  | Some v => mret v
  | None => stop
  end.

Definition set_stacktop (i : Z) (v : valtype) : M W unit :=
  st ← gets stack; set_stack (<[Z.to_nat (- i - 1) := v]> st).

(** [swap(stacktop(i), stacktop(j))] *)
Definition swap (i j : Z) : M W unit :=
  x ← stacktop i; y ← stacktop j; set_stacktop i y;; set_stacktop j x.

(** [stack.erase(stack.end() + first, stack.end() + last)] *)
Definition erase (first last : Z) : M W unit :=
  st ← gets stack; set_stack (take (Z.to_nat (- last)) st ++ drop (Z.to_nat (- first)) st).

(** [stack.insert(stack.end() + i, v)] *)
Definition insert_at (i : Z) (v : valtype) : M W unit :=
  st ← gets stack; set_stack (take (Z.to_nat (- i)) st ++ v :: drop (Z.to_nat (- i)) st).

(** The end of the [...VERIFY] operations: drop a true result, fail on a false one *)
Definition verify (b : bool) : M W unit := if b then popstack else stop.
End primitives.

Definition bool_vch (b : bool) : valtype := if b then vchTrue else vchFalse.

Section Interp.
Context {B : BNOps} {H : HashOps} {W : Type}.
Context (checksig : valtype -> valtype -> list Z -> W -> option bool * W) (flags : Z).

(** Throws when the operand is longer than four bytes *)
Definition CastToBigNum (vch : valtype) : M W BIGNUM :=
  if nMaxNumSize <? Z.of_nat (length vch) then stop
  else mret (CBigNum_of_vch (getvch (CBigNum_of_vch vch))).

Definition bnZero : BIGNUM := CBigNum_of_int 0.
Definition bnOne : BIGNUM := CBigNum_of_int 1.

(** ** The cases of the [switch] *)

(** [OP_1NEGATE], [OP_1] to [OP_16] *)
Definition exec_value (opcode : opcodetype) : M W unit :=
  push (getvch (CBigNum_of_int (opcode - (OP_1 - 1)))).

(** [OP_IF], [OP_NOTIF] *)
Definition exec_if (fExec : bool) (opcode : opcodetype) : M W unit :=
  fValue ←
    (if fExec then
       need 1;;
       vch ← stacktop (-1);
       let fValue := CastToBool vch in
       let fValue := if opcode =? OP_NOTIF then negb fValue else fValue in
       popstack;;
       mret fValue
     else mret false);
  v ← gets vfExec; set_vfExec (fValue :: v).

Definition exec_else : M W unit :=
  v ← gets vfExec;
  match v with
  | [] => stop
  | f :: v => set_vfExec (negb f :: v)
  end.

Definition exec_endif : M W unit :=
  v ← gets vfExec;
  match v with
  | [] => stop
  | _ :: v => set_vfExec v
  end.

Definition exec_verify : M W unit :=
  need 1;;
  vch ← stacktop (-1);
  if CastToBool vch then popstack else stop.

Definition exec_toaltstack : M W unit :=
  need 1;;
  v ← stacktop (-1); alt ← gets altstack; set_altstack (v :: alt);; popstack.

Definition exec_fromaltstack : M W unit :=
  alt ← gets altstack;
  match alt with
  | [] => stop
  | v :: alt => push v;; set_altstack alt
  end.

Definition exec_2drop : M W unit := need 2;; popstack;; popstack.

Definition exec_2dup : M W unit :=
  need 2;; vch1 ← stacktop (-2); vch2 ← stacktop (-1); push vch1;; push vch2.

Definition exec_3dup : M W unit :=
  need 3;;
  vch1 ← stacktop (-3); vch2 ← stacktop (-2); vch3 ← stacktop (-1);
  push vch1;; push vch2;; push vch3.

Definition exec_2over : M W unit :=
  need 4;; vch1 ← stacktop (-4); vch2 ← stacktop (-3); push vch1;; push vch2.

Definition exec_2rot : M W unit :=
  need 6;;
  vch1 ← stacktop (-6); vch2 ← stacktop (-5); erase (-6) (-4);; push vch1;; push vch2.

Definition exec_2swap : M W unit := need 4;; swap (-4) (-2);; swap (-3) (-1).

Definition exec_ifdup : M W unit :=
  need 1;; vch ← stacktop (-1); if CastToBool vch then push vch else mret tt.

Definition exec_depth : M W unit := n ← size; push (getvch (CBigNum_of_ulong n)).

Definition exec_drop : M W unit := need 1;; popstack.
Definition exec_dup : M W unit := need 1;; vch ← stacktop (-1); push vch.
Definition exec_nip : M W unit := need 2;; erase (-2) (-1).
Definition exec_over : M W unit := need 2;; vch ← stacktop (-2); push vch.

(** [OP_PICK], [OP_ROLL] *)
Definition exec_pick (opcode : opcodetype) : M W unit :=
  need 2;;
  top ← stacktop (-1);
  bn ← CastToBigNum top;
  let n := getint bn in
  popstack;;
  sz ← size;
  require (negb ((n <? 0) || (sz <=? n)));;
  vch ← stacktop (- n - 1);
  (if opcode =? OP_ROLL then erase (- n - 1) (- n) else mret tt);;
  push vch.

Definition exec_rot : M W unit := need 3;; swap (-3) (-2);; swap (-2) (-1).
Definition exec_swap : M W unit := need 2;; swap (-2) (-1).
Definition exec_tuck : M W unit := need 2;; vch ← stacktop (-1); insert_at (-2) vch.

Definition exec_size : M W unit :=
  need 1;; vch ← stacktop (-1); push (getvch (CBigNum_of_ulong (Z.of_nat (length vch)))).

(** [OP_EQUAL], [OP_EQUALVERIFY] *)
Definition exec_equal (opcode : opcodetype) : M W unit :=
  need 2;;
  vch1 ← stacktop (-2); vch2 ← stacktop (-1);
  let fEqual := bool_decide (vch1 = vch2) in
  popstack;; popstack;;
  push (bool_vch fEqual);;
  if opcode =? OP_EQUALVERIFY then verify fEqual else mret tt.

(** [OP_1ADD] to [OP_0NOTEQUAL] *)
Definition unary (opcode : opcodetype) (bn : BIGNUM) : BIGNUM :=
  if opcode =? OP_1ADD then bn_plus bn bnOne
  else if opcode =? OP_1SUB then bn_minus bn bnOne
  else if opcode =? OP_NEGATE then bn_opp bn
  else if opcode =? OP_ABS then (if bn_lt bn bnZero then bn_opp bn else bn)
  else if opcode =? OP_NOT then CBigNum_of_int (Z.b2z (bn_eq bn bnZero))
  else CBigNum_of_int (Z.b2z (bn_ne bn bnZero)).

Definition exec_unary (opcode : opcodetype) : M W unit :=
  need 1;;
  top ← stacktop (-1);
  bn ← CastToBigNum top;
  popstack;;
  push (getvch (unary opcode bn)).

(** [OP_ADD] to [OP_MAX] *)
Definition binary (opcode : opcodetype) (bn1 bn2 : BIGNUM) : BIGNUM :=
  if opcode =? OP_ADD then bn_plus bn1 bn2
  else if opcode =? OP_SUB then bn_minus bn1 bn2
  else if opcode =? OP_BOOLAND then CBigNum_of_int (Z.b2z (bn_ne bn1 bnZero && bn_ne bn2 bnZero))
  else if opcode =? OP_BOOLOR then CBigNum_of_int (Z.b2z (bn_ne bn1 bnZero || bn_ne bn2 bnZero))
  else if opcode =? OP_NUMEQUAL then CBigNum_of_int (Z.b2z (bn_eq bn1 bn2))
  else if opcode =? OP_NUMEQUALVERIFY then CBigNum_of_int (Z.b2z (bn_eq bn1 bn2))
  else if opcode =? OP_NUMNOTEQUAL then CBigNum_of_int (Z.b2z (bn_ne bn1 bn2))
  else if opcode =? OP_LESSTHAN then CBigNum_of_int (Z.b2z (bn_lt bn1 bn2))
  else if opcode =? OP_GREATERTHAN then CBigNum_of_int (Z.b2z (bn_gt bn1 bn2))
  else if opcode =? OP_LESSTHANOREQUAL then CBigNum_of_int (Z.b2z (bn_le bn1 bn2))
  else if opcode =? OP_GREATERTHANOREQUAL then CBigNum_of_int (Z.b2z (bn_ge bn1 bn2))
  else if opcode =? OP_MIN then (if bn_lt bn1 bn2 then bn1 else bn2)
  else (if bn_gt bn1 bn2 then bn1 else bn2).

Definition exec_binary (opcode : opcodetype) : M W unit :=
  need 2;;
  v1 ← stacktop (-2); bn1 ← CastToBigNum v1;
  v2 ← stacktop (-1); bn2 ← CastToBigNum v2;
  popstack;; popstack;;
  push (getvch (binary opcode bn1 bn2));;
  if opcode =? OP_NUMEQUALVERIFY then
    v ← stacktop (-1); if CastToBool v then popstack else stop
  else mret tt.

Definition exec_within : M W unit :=
  need 3;;
  v1 ← stacktop (-3); bn1 ← CastToBigNum v1;
  v2 ← stacktop (-2); bn2 ← CastToBigNum v2;
  v3 ← stacktop (-1); bn3 ← CastToBigNum v3;
  popstack;; popstack;; popstack;;
  push (bool_vch (bn_le bn2 bn1 && bn_lt bn1 bn3)).

(** [OP_RIPEMD160] to [OP_HASH256] *)
Definition hash_op (opcode : opcodetype) (vch : valtype) : valtype :=
  if opcode =? OP_RIPEMD160 then RIPEMD160 vch
  else if opcode =? OP_SHA1 then SHA1 vch
  else if opcode =? OP_SHA256 then SHA256 vch
  else if opcode =? OP_HASH160 then limb_bytes (Hash160 vch)
  else limb_bytes (Hash vch).

Definition exec_hash (opcode : opcodetype) : M W unit :=
  need 1;; vch ← stacktop (-1); popstack;; push (hash_op opcode vch).

Definition exec_codeseparator (pc : list Z) : M W unit := set_codehash pc.

(** [IsCanonicalSignature(...) && IsCanonicalPubKey(...) && CheckSig(...)] *)
Definition check_one (scriptCode : list Z) (vchSig vchPubKey : valtype) : M W bool :=
  if IsCanonicalSignature vchSig flags && IsCanonicalPubKey vchPubKey flags
  then in_world (checksig vchSig vchPubKey scriptCode)
  else mret false.

(** [OP_CHECKSIG], [OP_CHECKSIGVERIFY] *)
Definition exec_checksig (opcode : opcodetype) : M W unit :=
  need 2;;
  vchSig ← stacktop (-2); vchPubKey ← stacktop (-1);
  code ← gets pbegincodehash;
  let scriptCode := (FindAndDelete code (push_vch [] vchSig)).1 in
  fSuccess ← check_one scriptCode vchSig vchPubKey;
  popstack;; popstack;;
  push (bool_vch fSuccess);;
  if opcode =? OP_CHECKSIGVERIFY then verify fSuccess else mret tt.

(** The loop that drops the signatures [stacktop(-isig-k)], [k] from 0, from the
    script code *)
Fixpoint drop_sigs (n : nat) (isig : Z) (scriptCode : list Z) : M W (list Z) :=
  match n with
  | O => mret scriptCode
  | S n' =>
      vchSig ← stacktop (- isig);
      drop_sigs n' (isig + 1) (FindAndDelete scriptCode (push_vch [] vchSig)).1
  end.

(** The matching loop; a round uses up a key, so the keys bound the rounds. *)
Fixpoint multisig_loop (fuel : nat) (scriptCode : list Z) (isig ikey nSigsCount nKeysCount : Z) : M W bool :=
  if 0 <? nSigsCount then
    match fuel with
    | O => mret false
    | S fuel' =>
        vchSig ← stacktop (- isig); vchPubKey ← stacktop (- ikey);
        fOk ← check_one scriptCode vchSig vchPubKey;
        let '(isig, nSigsCount) := if fOk : bool then (isig + 1, nSigsCount - 1) else (isig, nSigsCount) in
        let ikey := ikey + 1 in
        let nKeysCount := nKeysCount - 1 in
        if nKeysCount <? nSigsCount then mret false
        else multisig_loop fuel' scriptCode isig ikey nSigsCount nKeysCount
    end
  else mret true.

(** [while (i-- > 1) popstack(stack);] *)
Fixpoint pop_many (n : nat) : M W unit :=
  match n with
  | O => mret tt
  | S n' => popstack;; pop_many n'
  end.

(** [OP_CHECKMULTISIG], [OP_CHECKMULTISIGVERIFY] *)
Definition exec_checkmultisig (opcode : opcodetype) : M W unit :=
  let i := 1 in
  need i;;
  vk ← stacktop (- i); bk ← CastToBigNum vk;
  let nKeysCount := getint bk in
  require (negb ((nKeysCount <? 0) || (20 <? nKeysCount)));;
  charge nKeysCount;;
  let i := i + 1 in
  let ikey := i in
  let i := i + nKeysCount in
  need i;;
  vs ← stacktop (- i); bs ← CastToBigNum vs;
  let nSigsCount := getint bs in
  require (negb ((nSigsCount <? 0) || (nKeysCount <? nSigsCount)));;
  let i := i + 1 in
  let isig := i in
  let i := i + nSigsCount in
  need i;;
  code ← gets pbegincodehash;
  scriptCode ← drop_sigs (Z.to_nat nSigsCount) isig code;
  fSuccess ← multisig_loop (Z.to_nat nKeysCount) scriptCode isig ikey nSigsCount nKeysCount;
  pop_many (Z.to_nat (i - 1));;
  need 1;;
  dummy ← stacktop (-1);
  require (negb (has_flag flags SCRIPT_VERIFY_NULLDUMMY && negb (length dummy =? 0)%nat));;
  popstack;;
  push (bool_vch fSuccess);;
  if opcode =? OP_CHECKMULTISIGVERIFY then verify fSuccess else mret tt.

(** ** The [switch] and the main loop *)

Definition one_of (opcode : opcodetype) (l : list opcodetype) : bool := existsb (Z.eqb opcode) l.

Definition exec_op (fExec : bool) (opcode : opcodetype) (pc : list Z) : M W unit :=
  if (opcode =? OP_1NEGATE) || ((OP_1 <=? opcode) && (opcode <=? OP_16)) then exec_value opcode
  else if (opcode =? OP_NOP) || ((OP_NOP1 <=? opcode) && (opcode <=? OP_NOP10)) then mret tt
  else if one_of opcode [OP_IF; OP_NOTIF] then exec_if fExec opcode
  else if opcode =? OP_ELSE then exec_else
  else if opcode =? OP_ENDIF then exec_endif
  else if opcode =? OP_VERIFY then exec_verify
  else if opcode =? OP_RETURN then stop
  else if opcode =? OP_TOALTSTACK then exec_toaltstack
  else if opcode =? OP_FROMALTSTACK then exec_fromaltstack
  else if opcode =? OP_2DROP then exec_2drop
  else if opcode =? OP_2DUP then exec_2dup
  else if opcode =? OP_3DUP then exec_3dup
  else if opcode =? OP_2OVER then exec_2over
  else if opcode =? OP_2ROT then exec_2rot
  else if opcode =? OP_2SWAP then exec_2swap
  else if opcode =? OP_IFDUP then exec_ifdup
  else if opcode =? OP_DEPTH then exec_depth
  else if opcode =? OP_DROP then exec_drop
  else if opcode =? OP_DUP then exec_dup
  else if opcode =? OP_NIP then exec_nip
  else if opcode =? OP_OVER then exec_over
  else if one_of opcode [OP_PICK; OP_ROLL] then exec_pick opcode
  else if opcode =? OP_ROT then exec_rot
  else if opcode =? OP_SWAP then exec_swap
  else if opcode =? OP_TUCK then exec_tuck
  else if opcode =? OP_SIZE then exec_size
  else if one_of opcode [OP_EQUAL; OP_EQUALVERIFY] then exec_equal opcode
  else if one_of opcode [OP_1ADD; OP_1SUB; OP_NEGATE; OP_ABS; OP_NOT; OP_0NOTEQUAL] then exec_unary opcode
  else if one_of opcode [OP_ADD; OP_SUB; OP_BOOLAND; OP_BOOLOR; OP_NUMEQUAL; OP_NUMEQUALVERIFY;
         OP_NUMNOTEQUAL; OP_LESSTHAN; OP_GREATERTHAN; OP_LESSTHANOREQUAL; OP_GREATERTHANOREQUAL;
         OP_MIN; OP_MAX] then exec_binary opcode
  else if opcode =? OP_WITHIN then exec_within
  else if one_of opcode [OP_RIPEMD160; OP_SHA1; OP_SHA256; OP_HASH160; OP_HASH256] then exec_hash opcode
  else if opcode =? OP_CODESEPARATOR then exec_codeseparator pc
  else if one_of opcode [OP_CHECKSIG; OP_CHECKSIGVERIFY] then exec_checksig opcode
  else if one_of opcode [OP_CHECKMULTISIG; OP_CHECKMULTISIGVERIFY] then exec_checkmultisig opcode
  else stop.

Definition disabled (opcode : opcodetype) : bool :=
  one_of opcode [OP_CAT; OP_SUBSTR; OP_LEFT; OP_RIGHT; OP_INVERT; OP_AND; OP_OR; OP_XOR; OP_2MUL;
                 OP_2DIV; OP_MUL; OP_DIV; OP_MOD; OP_LSHIFT; OP_RSHIFT].

(** [if (stack.size() + altstack.size() > 1000) return false;] *)
Definition size_limit_check : M W unit :=
  st ← gets stack; alt ← gets altstack;
  require (negb (1000 <? Z.of_nat (length st) + Z.of_nat (length alt))).

(** One round of the loop: the iterator after the instruction *)
Definition eval_step (pc : list Z) : M W (list Z) :=
  v ← gets vfExec;
  let fExec := forallb id v in
  match GetOp2 pc with
  | (None, _) => stop
  | (Some (opcode, vchPushValue), pc) =>
      require (negb (MAX_SCRIPT_ELEMENT_SIZE <? Z.of_nat (length vchPushValue)));;
      (if OP_16 <? opcode then charge 1 else mret tt);;
      require (negb (disabled opcode));;
      (if fExec && (0 <=? opcode) && (opcode <=? OP_PUSHDATA4) then push vchPushValue
       else if fExec || ((OP_IF <=? opcode) && (opcode <=? OP_ENDIF)) then exec_op fExec opcode pc
       else mret tt);;
      size_limit_check;;
      mret pc
  end.

(** [None] only when the fuel runs out *)
Fixpoint eval_loop (fuel : nat) (pc : list Z) (s : eval_state W) : option (bool * eval_state W) :=
  match pc with
  | [] => Some (true, s)
  | _ =>
      match fuel with
      | O => None
      | S fuel' =>
          match eval_step pc s with
          | (Some pc', s') => eval_loop fuel' pc' s'
          | (None, s') => Some (false, s')
          end
      end
  end.

Definition init_state (st : list valtype) (script : list Z) (w : W) : eval_state W :=
  mkState st [] [] script 0 w.

(** The result, the caller's stack and the world afterwards; the script is its
    own fuel *)
Definition EvalScript_in (st : list valtype) (script : list Z) (w : W) : bool * list valtype * W :=
  if 10000 <? Z.of_nat (length script) then (false, st, w)
  else
    match eval_loop (length script) script (init_state st script w) with
    | Some (b, s) => (b && match vfExec s with [] => true | _ => false end, stack s, world s)
    | None => (false, st, w)
    end.
End Interp.
