(* ===== verification/InterpFacts.v ===== *)
(** * What bounds a script evaluation

    A small program logic for the interpreter's operations and the claims it
    gives: evaluation terminates, its stacks and elements stay within the
    limits, it checks at most 201 signatures, and nothing of a script that
    evaluates to true was unreadable, oversized or disabled. *)

From S2P Require Import Prelude Uint256 BigNum Serialize Hash Script Canonical Interp.

(** ** Well-formed elements *)

Definition elt_ok (v : valtype) : Prop := bytes_ok v /\ (length v <= 520)%nat.

Lemma elt_ok_nil : elt_ok [].
Proof. split; [constructor|simpl; lia]. Qed.

Lemma bool_vch_ok b : elt_ok (bool_vch b).
Proof. destruct b; [|apply elt_ok_nil]. split; [repeat constructor; lia|simpl; lia]. Qed.

Lemma elt_ok_small v n : bytes_ok v -> length v = n -> (n <= 520)%nat -> elt_ok v.
Proof. intros ? <- ?. by split. Qed.

#[export] Hint Resolve elt_ok_nil bool_vch_ok : hbn.

Section numbers.
Context {B : BNOps} {L : BNLaws B}.

(** Numbers whose encoding has at most five bytes *)
Definition small (bn : BIGNUM) : Prop := Z.abs (bn_val bn) < 2 ^ 39.
(** Operands of arithmetic: at most four bytes *)
Definition operand (bn : BIGNUM) : Prop := Z.abs (bn_val bn) < 2 ^ 31.

Lemma getvch_elt bn : small bn -> elt_ok (getvch bn).
Proof.
  intros Hs. rewrite getvch_val. split; [apply snum_encode_ok|].
  enough (snum_len (bn_val bn) <= 5) by (pose proof (length_snum_encode (bn_val bn)); lia).
  destruct (decide (bn_val bn = 0)) as [->|Hnz]; [done|].
  destruct (snum_len_bounds _ Hnz) as [Hlo _]. red in Hs.
  assert (2 ^ (8 * (snum_len (bn_val bn) - 1) - 1) < 2 ^ 39) as Hp by lia.
  apply Z.pow_lt_mono_r_iff in Hp; lia.
Qed.

Lemma snum_decode_operand v :
  bytes_ok v -> (length v <= 4)%nat -> Z.abs (snum_decode v) < 2 ^ 31.
Proof.
  intros Hb Hl. destruct v as [|x v]; [done|]. set (l := x :: v) in *.
  assert (1 <= length l)%nat by (subst l; simpl; lia).
  pose proof (digits_val_bound 256 ltac:(lia) l Hb) as Hv. rewrite pow256, half_double in Hv by lia.
  assert (2 ^ (8 * Z.of_nat (length l) - 1) <= 2 ^ 31) by (apply Z.pow_le_mono_r; lia).
  unfold snum_decode. subst l. cbv beta iota zeta. case_goal; bool_prop; lia.
Qed.

Lemma operand_small bn : operand bn -> small bn.
Proof. unfold operand, small. lia. Qed.

Lemma CBigNum_of_ulong_val n : 0 <= n < 2 ^ 64 -> bn_val (CBigNum_of_ulong n) = n.
Proof. apply BN_set_word_val. Qed.

Lemma of_b2z_small b : small (CBigNum_of_int (Z.b2z b)).
Proof. red. rewrite CBigNum_of_int_val by (destruct b; simpl; lia). destruct b; simpl; lia. Qed.

Lemma bn_opp_val bn : bn_val (bn_opp bn) = - bn_val bn.
Proof.
  unfold bn_opp. rewrite BN_set_negative_val, BN_is_negative_val.
  destruct (Z.ltb_spec (bn_val bn) 0); cbn [negb]; lia.
Qed.

Lemma unary_small opcode bn : operand bn -> small (unary opcode bn).
Proof.
  intros Hb. unfold unary, bn_plus, bn_minus, bnOne.
  repeat case_goal; try apply of_b2z_small; red in Hb |- *;
    rewrite ?BN_add_val, ?BN_sub_val, ?bn_opp_val, ?CBigNum_of_int_val by lia; lia.
Qed.

Lemma binary_small opcode bn1 bn2 : operand bn1 -> operand bn2 -> small (binary opcode bn1 bn2).
Proof.
  intros H1 H2. unfold binary, bn_plus, bn_minus.
  repeat case_goal; try apply of_b2z_small; red in H1, H2 |- *;
    rewrite ?BN_add_val, ?BN_sub_val by lia; lia.
Qed.
End numbers.

Lemma hash_op_elt {H : HashOps} {HL : HashLaws H} opcode v : elt_ok (hash_op opcode v).
Proof.
  unfold hash_op. repeat case_goal; rewrite ?Hash160_bytes, ?Hash_bytes.
  all: split; [first [apply RIPEMD160_ok | apply SHA1_ok | apply SHA256_ok]|].
  all: first [rewrite (proj1 (RIPEMD160_ok _)) | rewrite (proj1 (SHA1_ok _)) | rewrite (proj1 (SHA256_ok _))]; lia.
Qed.

(** ** The program logic *)

Section logic.
Context {W : Type} (cost : W -> Z) (lo : Z).

(** The elements of both stacks are well formed; the work charged to the world,
    plus [c] more units, is covered by the operations counted and by the limit on
    them; at least [lo] operations have been counted. *)
Record ok (c : Z) (s : eval_state W) : Prop := {
  ok_stack : Forall elt_ok (stack s);
  ok_alt : Forall elt_ok (altstack s);
  ok_cost : cost (world s) + c <= nOpCount s;
  ok_limit : cost (world s) + c <= 201;
  ok_lo : lo <= nOpCount s
}.

(** [m] run with credit [c] leaves credit [c'] and gives a value in [Q], or
    stops in a state without debts. *)
Definition tr {A} (c : Z) (m : M W A) (c' : Z) (Q : A -> Prop) : Prop :=
  forall s, ok c s ->
  match m s with
  | (Some a, s') => ok c' s' /\ Q a
  | (None, s') => ok 0 s'
  end.

Lemma ok_weaken c c' s : c' <= c -> ok c s -> ok c' s.
Proof. intros ? []. split; done || lia. Qed.

Lemma tr_ret {A} c (a : A) (Q : A -> Prop) : Q a -> tr c (mret a) c Q.
Proof. intros Ha s Hs. by split. Qed.

Lemma tr_stop {A} c c' (Q : A -> Prop) : 0 <= c -> tr c stop c' Q.
Proof. intros Hc s Hs. cbn. by eapply ok_weaken. Qed.

Lemma tr_bind {A A'} c1 c2 c3 (m : M W A) (f : A -> M W A') Q R :
  tr c1 m c2 Q -> (forall a, Q a -> tr c2 (f a) c3 R) -> tr c1 (m ≫= f) c3 R.
Proof.
  intros Hm Hf s Hs. unfold mbind, M_bind. specialize (Hm s Hs).
  destruct (m s) as [[a|] s']; [|done]. destruct Hm as [Hs' Ha]. by apply Hf.
Qed.

Lemma tr_conseq {A} c c1 c' c1' (m : M W A) Q Q' :
  tr c1 m c1' Q -> c1 <= c -> c' <= c1' -> (forall a, Q a -> Q' a) -> tr c m c' Q'.
Proof.
  intros Hm H1 H2 HQ s Hs. specialize (Hm s (ok_weaken _ _ _ H1 Hs)).
  destruct (m s) as [[a|] s']; [|done]. destruct Hm as [Hs' Ha].
  split; [by eapply ok_weaken|by apply HQ].
Qed.

Lemma tr_ret_le {A} c c' (a : A) : c' <= c -> tr c (mret a) c' (fun _ => True).
Proof. intros Hc s Hs. split; [by eapply ok_weaken|done]. Qed.

Lemma tr_require c b : 0 <= c -> tr c (require b) c (fun _ => b = true).
Proof. intros Hc. destruct b; [by apply tr_ret|by apply tr_stop]. Qed.

Lemma tr_gets {A} c (f : eval_state W -> A) (Q : A -> Prop) :
  (forall s, ok c s -> Q (f s)) -> tr c (gets f) c Q.
Proof. intros HQ s Hs. split; [done|by apply HQ]. Qed.

Lemma tr_set_stack c st : Forall elt_ok st -> tr c (set_stack st) c (fun _ => True).
Proof. intros H s []. by split; [split|]. Qed.

Lemma tr_set_altstack c st : Forall elt_ok st -> tr c (set_altstack st) c (fun _ => True).
Proof. intros H s []. by split; [split|]. Qed.

Lemma tr_set_vfExec c v : tr c (set_vfExec v) c (fun _ => True).
Proof. intros s []. by split; [split|]. Qed.

Lemma tr_set_codehash c pc : tr c (set_codehash pc) c (fun _ => True).
Proof. intros s []. by split; [split|]. Qed.

Lemma tr_charge c n : 0 <= c -> 0 <= n -> tr c (charge n) (c + n) (fun _ => True).
Proof.
  intros Hc Hn s []. unfold charge, mbind, M_bind, add_ops, gets, require. cbn [nOpCount].
  destruct (Z.ltb_spec 201 (nOpCount s + n)); cbn [negb].
  - split; cbn; done || lia.
  - split; [split; cbn; done || lia|done].
Qed.

Lemma tr_get_stack c : tr c (gets stack) c (Forall elt_ok).
Proof. apply tr_gets. by intros s []. Qed.

Lemma tr_get_altstack c : tr c (gets altstack) c (Forall elt_ok).
Proof. apply tr_gets. by intros s []. Qed.

Lemma tr_get_any {A} c (f : eval_state W -> A) : tr c (gets f) c (fun _ => True).
Proof. by apply tr_gets. Qed.

Lemma tr_need c n : 0 <= c -> tr c (need n) c (fun _ => True).
Proof.
  intros Hc. eapply tr_bind; [by apply tr_get_any|]. intros sz _.
  eapply tr_conseq; [by apply tr_require|lia..|done].
Qed.

Lemma tr_push c v : elt_ok v -> tr c (push v) c (fun _ => True).
Proof.
  intros Hv. eapply tr_bind; [apply tr_get_stack|]. intros st Hst.
  apply tr_set_stack. by constructor.
Qed.

Lemma tr_popstack c : 0 <= c -> tr c popstack c (fun _ => True).
Proof.
  intros Hc. eapply tr_bind; [apply tr_get_stack|]. intros [|v st] Hst; [by apply tr_stop|].
  apply tr_set_stack. by apply Forall_inv_tail in Hst.
Qed.

Lemma tr_stacktop c i : 0 <= c -> tr c (stacktop i) c elt_ok.
Proof.
  intros Hc. eapply tr_bind; [apply tr_get_stack|]. intros st Hst. cbn beta.
  destruct (st !! _) as [v|] eqn:E; [|by apply tr_stop].
  apply tr_ret. by eapply Forall_lookup_1.
Qed.

Lemma tr_set_stacktop c i v : elt_ok v -> tr c (set_stacktop i v) c (fun _ => True).
Proof.
  intros Hv. eapply tr_bind; [apply tr_get_stack|]. intros st Hst.
  apply tr_set_stack. by apply Forall_insert.
Qed.

Lemma tr_swap c i j : 0 <= c -> tr c (swap i j) c (fun _ => True).
Proof.
  intros Hc. eapply tr_bind; [by apply tr_stacktop|]. intros x Hx.
  eapply tr_bind; [by apply tr_stacktop|]. intros y Hy.
  eapply tr_bind; [by apply tr_set_stacktop|]. intros _ _. by apply tr_set_stacktop.
Qed.

Lemma tr_erase c i j : tr c (erase i j) c (fun _ => True).
Proof.
  eapply tr_bind; [apply tr_get_stack|]. intros st Hst. apply tr_set_stack.
  apply Forall_app. split; [by apply Forall_take|by apply Forall_drop].
Qed.

Lemma tr_insert_at c i v : elt_ok v -> tr c (insert_at i v) c (fun _ => True).
Proof.
  intros Hv. eapply tr_bind; [apply tr_get_stack|]. intros st Hst. apply tr_set_stack.
  apply Forall_app. split; [by apply Forall_take|]. constructor; [done|by apply Forall_drop].
Qed.

Lemma tr_verify c b : 0 <= c -> tr c (verify b) c (fun _ => True).
Proof. intros Hc. destruct b; [by apply tr_popstack|by apply tr_stop]. Qed.

Lemma tr_pop_many c n : 0 <= c -> tr c (pop_many n) c (fun _ => True).
Proof.
  intros Hc. induction n as [|n IH]; cbn [pop_many]; [by apply tr_ret|].
  eapply tr_bind; [by apply tr_popstack|]. intros _ _. apply IH.
Qed.
End logic.

#[export] Hint Resolve tr_ret tr_stop tr_require tr_set_vfExec tr_set_codehash
  tr_get_stack tr_get_altstack tr_get_any tr_need tr_push tr_popstack tr_stacktop tr_set_stacktop
  tr_swap tr_erase tr_insert_at tr_verify tr_pop_many tr_set_stack tr_set_altstack : hbn.

#[export] Hint Extern 1 (_ <= _) => lia : hbn.

(** Walk through an operation *)
Ltac tr_step :=
  match goal with
  | |- tr _ _ _ (mbind _ _) _ _ => eapply tr_bind; [solve [eauto with hbn] | intros; cbv beta zeta]
  | |- tr _ _ _ (if ?b then _ else _) _ _ => destruct b eqn:?
  | |- tr _ _ _ (match ?x with _ => _ end) _ _ => destruct x eqn:?
  | |- tr _ _ _ _ _ _ => solve [eauto with hbn]
  end.
Ltac tr_auto := repeat tr_step.

Section operations.
Context {B : BNOps} {L : BNLaws B} {H : HashOps} {HL : HashLaws H} {W : Type} (cost : W -> Z) (lo : Z).
Context (checksig : valtype -> valtype -> list Z -> W -> option bool * W) (flags : Z).
Hypothesis checksig_cost : forall sig key code w, cost (checksig sig key code w).2 <= cost w + 1.

Lemma tr_CastToBigNum c v : 0 <= c -> elt_ok v -> tr cost lo c (CastToBigNum v) c operand.
Proof.
  intros Hc [Hb _]. unfold CastToBigNum, nMaxNumSize.
  destruct (Z.ltb_spec 4 (Z.of_nat (length v))); [by apply tr_stop|].
  apply tr_ret. red. unfold CBigNum_of_vch. rewrite getvch_val, (setvch_val v) by (done || lia).
  pose proof (snum_decode_operand v Hb ltac:(lia)) as Hd.
  set (z := snum_decode v) in *. rewrite setvch_val.
  - by rewrite snum_decode_encode.
  - apply snum_encode_ok.
  - rewrite length_snum_encode. destruct (decide (z = 0)) as [->|Hnz]; [done|].
    destruct (snum_len_bounds z Hnz) as [Hlo _].
    assert (2 ^ (8 * (snum_len z - 1) - 1) < 2 ^ 39) as Hp by lia.
    apply Z.pow_lt_mono_r_iff in Hp; lia.
Qed.
#[local] Hint Resolve tr_CastToBigNum getvch_elt unary_small binary_small operand_small hash_op_elt : hbn.

Lemma tr_exec_value c opcode : 0 <= c -> 0 <= opcode <= 255 -> tr cost lo c (exec_value opcode) c (fun _ => True).
Proof.
  intros. unfold exec_value. apply tr_push, getvch_elt. red. rewrite CBigNum_of_int_val by lia. lia.
Qed.

Lemma tr_exec_if c fExec opcode : 0 <= c -> tr cost lo c (exec_if fExec opcode) c (fun _ => True).
Proof.
  intros. unfold exec_if. eapply (tr_bind _ _ _ c); [|intros; tr_auto].
  instantiate (1 := fun _ => True). tr_auto.
Qed.

Lemma tr_exec_else c : 0 <= c -> tr cost lo c exec_else c (fun _ => True).
Proof. intros. unfold exec_else. tr_auto. Qed.

Lemma tr_exec_endif c : 0 <= c -> tr cost lo c exec_endif c (fun _ => True).
Proof. intros. unfold exec_endif. tr_auto. Qed.

Lemma tr_exec_verify c : 0 <= c -> tr cost lo c exec_verify c (fun _ => True).
Proof. intros. unfold exec_verify. tr_auto. Qed.

Lemma tr_exec_toaltstack c : 0 <= c -> tr cost lo c exec_toaltstack c (fun _ => True).
Proof.
  intros. unfold exec_toaltstack. do 2 tr_step. eapply tr_bind; [apply tr_get_altstack|].
  intros. cbv beta. eapply tr_bind; [apply tr_set_altstack; by constructor|]. intros. tr_auto.
Qed.

Lemma tr_exec_fromaltstack c : 0 <= c -> tr cost lo c exec_fromaltstack c (fun _ => True).
Proof.
  intros. unfold exec_fromaltstack. eapply tr_bind; [apply tr_get_altstack|].
  intros [|v alt] Ha; [by apply tr_stop|]. apply Forall_cons in Ha as [Hv Ha]. tr_auto.
Qed.

Lemma tr_exec_depth c s :
  ok cost lo c s -> Z.of_nat (length (stack s)) <= 1000 ->
  match exec_depth s with
  | (Some _, s') => ok cost lo c s'
  | (None, s') => ok cost lo 0 s'
  end.
Proof.
  intros Hs Hl. unfold exec_depth. unfold mbind, M_bind. cbn [size gets].
  assert (elt_ok (getvch (CBigNum_of_ulong (Z.of_nat (length (stack s)))))) as He.
  { apply getvch_elt. red. rewrite CBigNum_of_ulong_val by lia. lia. }
  pose proof (tr_push cost lo c _ He s Hs) as Hp. destruct (push _ s) as [[]]; [apply Hp|done].
Qed.

Lemma tr_exec_pick c opcode : 0 <= c -> tr cost lo c (exec_pick opcode) c (fun _ => True).
Proof.
  intros. unfold exec_pick. do 7 tr_step.
  eapply (tr_bind _ _ _ c _ _ _ (fun _ => True)); [|intros; tr_auto].
  tr_auto.
Qed.

Lemma tr_exec_size c : 0 <= c -> tr cost lo c exec_size c (fun _ => True).
Proof.
  intros. unfold exec_size. do 2 tr_step. apply tr_push, getvch_elt. red.
  rename select (elt_ok _) into Hv. destruct Hv. rewrite CBigNum_of_ulong_val by lia. lia.
Qed.

Lemma tr_exec_equal c opcode : 0 <= c -> tr cost lo c (exec_equal opcode) c (fun _ => True).
Proof. intros. unfold exec_equal. tr_auto. Qed.

Lemma tr_exec_unary c opcode : 0 <= c -> tr cost lo c (exec_unary opcode) c (fun _ => True).
Proof. intros. unfold exec_unary. tr_auto. Qed.

Lemma tr_exec_binary c opcode : 0 <= c -> tr cost lo c (exec_binary opcode) c (fun _ => True).
Proof. intros. unfold exec_binary. tr_auto. Qed.

Lemma tr_exec_within c : 0 <= c -> tr cost lo c exec_within c (fun _ => True).
Proof. intros. unfold exec_within. tr_auto. Qed.

Lemma tr_exec_hash c opcode : 0 <= c -> tr cost lo c (exec_hash opcode) c (fun _ => True).
Proof. intros. unfold exec_hash. tr_auto. Qed.
(** The operations that only move elements *)
Lemma tr_exec_stack c : 0 <= c ->
  Forall (fun m => tr cost lo c m c (fun _ => True))
    [exec_2drop; exec_2dup; exec_3dup; exec_2over; exec_2rot; exec_2swap; exec_ifdup; exec_drop;
     exec_dup; exec_nip; exec_over; exec_rot; exec_swap; exec_tuck].
Proof.
  intros. unfold exec_2drop, exec_2dup, exec_3dup, exec_2over, exec_2rot, exec_2swap, exec_ifdup,
    exec_drop, exec_dup, exec_nip, exec_over, exec_rot, exec_swap, exec_tuck.
  repeat apply Forall_cons_2; try apply Forall_nil_2; tr_auto.
Qed.

(** A signature check costs one unit. *)
Lemma tr_check_one c code sig key :
  0 <= c -> tr cost lo (c + 1) (check_one checksig flags code sig key) c (fun _ => True).
Proof.
  intros Hc. unfold check_one. destruct (_ && _).
  - intros s []. unfold in_world. pose proof (checksig_cost sig key code (world s)) as Hcost.
    destruct (checksig sig key code (world s)) as [[b|] w]; [split; [|done]|]; split; cbn in *; done || lia.
  - apply tr_ret_le. lia.
Qed.

Lemma tr_exec_checksig opcode :
  tr cost lo 1 (exec_checksig checksig flags opcode) 0 (fun _ => True).
Proof.
  unfold exec_checksig. do 4 tr_step.
  eapply tr_bind; [apply (tr_check_one 0); lia|]. intros b _. tr_auto.
Qed.

Lemma tr_drop_sigs c n isig code : 0 <= c -> tr cost lo c (drop_sigs n isig code) c (fun _ => True).
Proof.
  intros Hc. revert isig code. induction n as [|n IH]; intros isig code; cbn [drop_sigs]; tr_auto.
Qed.

Lemma tr_multisig_loop fuel c code isig ikey ns nk :
  0 <= c ->
  tr cost lo (c + Z.of_nat fuel) (multisig_loop checksig flags fuel code isig ikey ns nk) c (fun _ => True).
Proof.
  intros Hc. revert isig ikey ns nk. induction fuel as [|fuel IH]; intros isig ikey ns nk.
  - cbn [multisig_loop]. replace (c + Z.of_nat 0) with c by lia. destruct (_ <? _); by apply tr_ret.
  - cbn [multisig_loop]. destruct (0 <? ns).
    2: { apply tr_ret_le. lia. }
    do 2 tr_step. replace (c + Z.of_nat (S fuel)) with (c + Z.of_nat fuel + 1) by lia.
    eapply tr_bind; [apply (tr_check_one (c + Z.of_nat fuel)); lia|]. intros fOk _.
    destruct fOk; cbv beta iota zeta; (case_goal; [apply tr_ret_le; lia|apply IH]).
Qed.

Lemma tr_exec_checkmultisig opcode :
  tr cost lo 0 (exec_checkmultisig checksig flags opcode) 0 (fun _ => True).
Proof.
  unfold exec_checkmultisig. do 3 tr_step.
  eapply tr_bind; [by apply tr_require|]. intros ? Hk. cbv beta in Hk |- *.
  set (nKeys := getint _) in *. bool_prop. destruct Hk as [Hk1 Hk2]. bool_prop.
  eapply tr_bind; [apply tr_charge; lia|]. intros _ _. replace (0 + nKeys) with nKeys by lia.
  do 6 tr_step. eapply tr_bind; [by apply tr_drop_sigs|]. intros code _.
  eapply (tr_bind _ _ _ 0 _ _ _ (fun _ => True)).
  { eapply tr_conseq; [by apply (tr_multisig_loop _ 0)|lia..|done]. }
  intros b _. tr_auto.
Qed.

(** The [switch], with the unit of the operation itself as credit *)
Lemma ok_exec_op fExec opcode pc s :
  0 <= opcode <= 255 -> Z.of_nat (length (stack s)) <= 1000 ->
  ok cost lo (if OP_16 <? opcode then 1 else 0) s ->
  ok cost lo 0 (exec_op checksig flags fExec opcode pc s).2.
Proof.
  intros Hop Hlen Hs. set (c := if OP_16 <? opcode then 1 else 0) in *.
  assert (Hc : 0 <= c) by (subst c; case_goal; lia).
  assert (T : forall c' (m : M W unit), c' <= c -> tr cost lo c' m 0 (fun _ => True) -> ok cost lo 0 (m s).2).
  { intros c' m Hle Hm. specialize (Hm s (ok_weaken _ _ _ _ _ Hle Hs)).
    destruct (m s) as [[a|] s']; [by destruct Hm|done]. }
  assert (T0 : forall m : M W unit, tr cost lo 0 m 0 (fun _ => True) -> ok cost lo 0 (m s).2) by (intros; by apply (T 0)).
  pose proof (tr_exec_stack 0 ltac:(lia)) as Hstack. rewrite !Forall_cons in Hstack.
  destruct Hstack as (? & ? & ? & ? & ? & ? & ? & ? & ? & ? & ? & ? & ? & ? & _).
  unfold exec_op.
  repeat (match goal with |- ok _ _ _ (snd ((if ?b then _ else _) _)) => destruct b eqn:? end;
    [first [ apply T0; (done || by apply tr_exec_value || by apply tr_exec_if || by apply tr_exec_else ||
               by apply tr_exec_endif || by apply tr_exec_verify || by apply tr_stop || by apply tr_ret ||
               by apply tr_exec_toaltstack || by apply tr_exec_fromaltstack || by apply tr_exec_pick ||
               by apply tr_exec_size || by apply tr_exec_equal || by apply tr_exec_unary ||
               by apply tr_exec_binary || by apply tr_exec_within || by apply tr_exec_hash ||
               by apply tr_set_codehash || by apply tr_exec_checkmultisig)
           | idtac] |]).
  - pose proof (tr_exec_depth 0 s (ok_weaken _ _ _ _ _ Hc Hs) Hlen) as Hd.
    by destruct (exec_depth s) as [[]].
  - assert (c = 1) as Hc1.
    { rename select (one_of opcode [OP_CHECKSIG; _] = true) into Ho. unfold one_of in Ho.
      cbn [existsb] in Ho. subst c. bool_prop. destruct (Z.ltb_spec OP_16 opcode); [done|].
      destruct Ho as [?|[?|?]]; bool_prop; lia || done. }
    apply (T 1); [lia|]. apply tr_exec_checksig.
  - by apply T0, tr_stop.
Qed.

End operations.

(** ** Rounds of the main loop *)

Lemma take_operand_data opcode n pc o d pc' :
  bytes_ok pc -> take_operand opcode n pc = (Some (o, d), pc') -> o = opcode /\ bytes_ok d /\ bytes_ok pc'.
Proof.
  intros Hb. unfold take_operand. case_goal; [done|]. intros [= <- <- <-].
  split_and!; [done|by apply Forall_take|by apply Forall_drop].
Qed.

Lemma GetOp2_bytes pc o d pc' :
  bytes_ok pc -> GetOp2 pc = (Some (o, d), pc') -> is_byte o /\ bytes_ok d /\ bytes_ok pc'.
Proof.
  destruct pc as [|opcode pc]; [done|]. intros [Ho Hb]%Forall_cons. cbn [GetOp2].
  assert (T : forall n p, bytes_ok p -> take_operand opcode n p = (Some (o, d), pc') ->
    is_byte o /\ bytes_ok d /\ bytes_ok pc').
  { intros n p Hp E. apply take_operand_data in E as (-> & ? & ?); done. }
  destruct (opcode <=? OP_PUSHDATA4); [|by intros [= <- <- <-]].
  destruct (opcode <? OP_PUSHDATA1); [by apply T|].
  destruct (opcode =? OP_PUSHDATA1).
  { destruct pc as [|n pc]; [done|]. apply T. by apply Forall_inv_tail in Hb. }
  destruct (opcode =? OP_PUSHDATA2); (case_goal; [done|]; by apply T, Forall_drop).
Qed.

(** The limits on the sizes of the stacks *)
Definition stacks_le {W} (n : Z) (s : eval_state W) : Prop :=
  Z.of_nat (length (stack s)) + Z.of_nat (length (altstack s)) <= n.

Section rounds.
Context {B : BNOps} {L : BNLaws B} {H : HashOps} {HL : HashLaws H} {W : Type} (cost : W -> Z).
Context (checksig : valtype -> valtype -> list Z -> W -> option bool * W) (flags : Z).
Hypothesis checksig_cost : forall sig key code w, cost (checksig sig key code w).2 <= cost w + 1.

(** An instruction that passed the checks in front of the [switch] *)
Definition accepted (i : opcodetype * list Z) : Prop :=
  disabled i.1 = false /\ (length i.2 <= 520)%nat.

Lemma size_limit_check_spec (s : eval_state W) :
  size_limit_check s = (if 1000 <? Z.of_nat (length (stack s)) + Z.of_nat (length (altstack s))
                        then None else Some tt, s).
Proof. unfold size_limit_check, mbind, M_bind, gets, require. by destruct (1000 <? _). Qed.

(** What a round does once the instruction is read *)
Lemma eval_step_read pc s opcode data pc' :
  GetOp2 pc = (Some (opcode, data), pc') ->
  eval_step checksig flags pc s =
  if 520 <? Z.of_nat (length data) then (None, s)
  else match (if OP_16 <? opcode then charge 1 else mret tt) s with
  | (None, s1) => (None, s1)
  | (Some _, s1) =>
      if disabled opcode then (None, s1)
      else
        let fExec := forallb id (vfExec s) in
        match (if fExec && (0 <=? opcode) && (opcode <=? OP_PUSHDATA4) then push data
               else if fExec || ((OP_IF <=? opcode) && (opcode <=? OP_ENDIF))
               then exec_op checksig flags fExec opcode pc' else mret tt) s1 with
        | (None, s2) => (None, s2)
        | (Some _, s2) =>
            if 1000 <? Z.of_nat (length (stack s2)) + Z.of_nat (length (altstack s2))
            then (None, s2) else (Some pc', s2)
        end
  end.
Proof.
  intros E. unfold eval_step. unfold mbind at 1, M_bind, gets. rewrite E.
  unfold mbind, M_bind, require, MAX_SCRIPT_ELEMENT_SIZE.
  destruct (520 <? _); cbn [negb]; [done|]. unfold mret at 1, M_ret. cbv iota beta.
  destruct ((if OP_16 <? opcode then charge 1 else _) s) as [[u|] s1]; [|done].
  destruct (disabled opcode); cbn [negb]; [done|]. unfold mret at 1, M_ret. cbv iota beta zeta.
  destruct ((if _ && _ && _ then push data else _) s1) as [[u'|] s2]; [|done].
  rewrite size_limit_check_spec. by destruct (1000 <? _).
Qed.

Lemma ok_charge lo s :
  ok cost lo 0 s ->
  match charge 1 s with
  | (Some _, s1) => ok cost (lo + 1) 1 s1 /\ lo + 1 <= 201 /\ stack s1 = stack s /\ altstack s1 = altstack s
  | (None, s1) => ok cost lo 0 s1
  end.
Proof.
  intros []. unfold charge, mbind, M_bind, add_ops, gets, require. cbn [nOpCount].
  destruct (Z.ltb_spec 201 (nOpCount s + 1)); cbn [negb].
  - split; cbn; done || lia.
  - split_and!; [split; cbn; done || lia|lia|done..].
Qed.

Lemma ok_lower lo lo' c s : lo' <= lo -> ok cost lo c s -> ok cost lo' c s.
Proof. intros ? []. split; done || lia. Qed.

Definition counted (opcode : opcodetype) : Z := if OP_16 <? opcode then 1 else 0.

Lemma eval_step_ok lo pc s :
  bytes_ok pc -> stacks_le 1000 s -> ok cost lo 0 s ->
  match eval_step checksig flags pc s with
  | (None, s') => ok cost lo 0 s'
  | (Some pc', s') =>
      exists i, GetOp2 pc = (Some i, pc') /\ accepted i /\ stacks_le 1000 s' /\
        ok cost (lo + counted i.1) 0 s' /\ (OP_16 < i.1 -> lo + 1 <= 201)
  end.
Proof.
  intros Hpc Hsz Hok. destruct (GetOp2 pc) as [[[opcode data]|] pc'] eqn:E.
  2: { unfold eval_step, mbind, M_bind, gets. by rewrite E. }
  rewrite (eval_step_read pc s _ _ _ E). destruct (GetOp2_bytes _ _ _ _ Hpc E) as (Hop & Hd & _).
  red in Hop. destruct (Z.ltb_spec 520 (Z.of_nat (length data))) as [|Hlen]; [done|].
  assert (Hch : match (if OP_16 <? opcode then charge 1 else mret tt) s with
    | (Some _, s1) => ok cost (lo + counted opcode) (counted opcode) s1 /\ stacks_le 1000 s1 /\
                      (OP_16 < opcode -> lo + 1 <= 201)
    | (None, s1) => ok cost lo 0 s1
    end).
  { unfold counted, stacks_le. destruct (Z.ltb_spec OP_16 opcode).
    - pose proof (ok_charge lo s Hok) as Hc. destruct (charge 1 s) as [[u|] s1]; [|done].
      destruct Hc as (? & ? & -> & ->). done.
    - cbn. rewrite Z.add_0_r. split_and!; [done..|lia]. }
  destruct ((if OP_16 <? opcode then charge 1 else mret tt) s) as [[u|] s1]; [|done].
  destruct Hch as (Hok1 & Hsz1 & Hlim).
  assert (Hlo : lo <= lo + counted opcode) by (unfold counted; case_goal; lia).
  assert (Hc0 : 0 <= counted opcode) by (unfold counted; case_goal; lia).
  pose proof (ok_weaken _ _ _ _ _ Hc0 Hok1) as Hok0.
  destruct (disabled opcode) eqn:Hdis; [by eapply ok_lower|]. cbv zeta.
  set (m := if _ && _ && _ then push data else _).
  assert (Hm : ok cost (lo + counted opcode) 0 (m s1).2).
  { subst m. destruct (_ && _ && _).
    - assert (elt_ok data) as He by (split; [done|lia]). pose proof (tr_push cost _ 0 _ He s1 Hok0) as Hp.
      destruct (push data s1) as [[]]; [apply Hp|done].
    - destruct (_ || _); [|done]. apply ok_exec_op; try done; red in Hsz1; lia. }
  destruct (m s1) as [[u'|] s2]; [|by eapply ok_lower].
  destruct (Z.ltb_spec 1000 (Z.of_nat (length (stack s2)) + Z.of_nat (length (altstack s2)))) as [|Hsz2];
    [by eapply ok_lower|].
  exists (opcode, data). split_and!; try done. split; cbn; done || lia.
Qed.

(** A round that goes on has consumed an instruction. *)
Lemma eval_step_consumes pc s pc' s' :
  eval_step checksig flags pc s = (Some pc', s') -> exists i, GetOp2 pc = (Some i, pc').
Proof.
  destruct (GetOp2 pc) as [[[opcode data]|] pc1] eqn:E.
  - rewrite (eval_step_read pc s _ _ _ E). cbv zeta. intros Hs. exists (opcode, data).
    destruct (520 <? _); [done|].
    destruct ((if OP_16 <? opcode then charge 1 else _) s) as [[u|] s1]; [|done].
    destruct (disabled opcode); [done|].
    destruct ((if _ && _ && _ then push data else _) s1) as [[u'|] s2]; [|done].
    destruct (1000 <? _); [done|]. by simplify_eq.
  - unfold eval_step, mbind, M_bind, gets. by rewrite E.
Qed.

Lemma eval_loop_total fuel pc s :
  (length pc <= fuel)%nat -> is_Some (eval_loop checksig flags fuel pc s).
Proof.
  revert pc s. induction fuel as [|fuel IH]; intros pc s Hf; (destruct pc as [|x pc]; [by eexists|]).
  - simpl in Hf. lia.
  - cbn [eval_loop]. destruct (eval_step checksig flags (x :: pc) s) as [[pc'|] s'] eqn:E; [|by eexists].
    apply eval_step_consumes in E as [i E]. apply GetOp2_length in E. apply IH. simpl in *. lia.
Qed.

(** Operations of a script that count against the limit *)
Fixpoint op_count (l : list (opcodetype * list Z)) : Z :=
  match l with
  | [] => 0
  | i :: l => counted i.1 + op_count l
  end.

Lemma op_count_nonneg l : 0 <= op_count l.
Proof. induction l as [|i l IH]; cbn [op_count]; [lia|]. unfold counted. case_goal; lia. Qed.

Lemma eval_loop_ok fuel lo pc s b s' :
  bytes_ok pc -> stacks_le 1000 s -> ok cost lo 0 s ->
  eval_loop checksig flags fuel pc s = Some (b, s') ->
  ok cost lo 0 s' /\
  (b = true -> stacks_le 1000 s' /\ exists l, Instrs pc l true /\ Forall accepted l /\
               (0 < op_count l -> lo + op_count l <= 201)).
Proof.
  revert lo pc s. induction fuel as [|fuel IH]; intros lo pc s Hb Hsz Hok E;
    (destruct pc as [|x pc]; [injection E as <- <-; split; [done|]; intros _; split; [done|];
      exists []; split_and!; [constructor..|]; cbn; lia|]); [done|].
  cbn [eval_loop] in E. set (p := x :: pc) in *. pose proof (eval_step_ok lo p s Hb Hsz Hok) as Hstep.
  destruct (eval_step checksig flags p s) as [[pc'|] s1].
  2: { by injection E as <- <-. }
  destruct Hstep as ([op d] & Hi & Hacc & Hsz1 & Hok1 & Hlim).
  destruct (GetOp2_bytes _ _ _ _ Hb Hi) as (_ & _ & Hb').
  destruct (IH _ _ _ Hb' Hsz1 Hok1 E) as [Hok' Htrue]. split.
  - eapply ok_lower; [|done]. unfold counted. case_goal; lia.
  - intros Hbt. destruct (Htrue Hbt) as (Hsz' & l & Hl & Hall & Hcnt). split; [done|].
    exists ((op, d) :: l). split_and!; [by econstructor|by constructor|].
    cbn [op_count]. pose proof (op_count_nonneg l). unfold counted in *. cbn [fst] in *.
    destruct (Z.ltb_spec OP_16 op) as [Hop|Hop]; intros Hpos.
    + specialize (Hlim Hop). destruct (decide (op_count l = 0)); lia.
    + lia.
Qed.

Lemma EvalScript_ok st script w b st' w' :
  bytes_ok script -> Forall elt_ok st -> (length st <= 1000)%nat -> cost w = 0 ->
  EvalScript_in checksig flags st script w = (b, st', w') ->
  Forall elt_ok st' /\ cost w' <= 201 /\
  (b = true -> (length st' <= 1000)%nat /\ Z.of_nat (length script) <= 10000 /\
     exists l, Instrs script l true /\ Forall accepted l /\ op_count l <= 201).
Proof.
  intros Hb Hst Hl Hw. unfold EvalScript_in.
  destruct (Z.ltb_spec 10000 (Z.of_nat (length script))); [intros [= <- <- <-]; split_and!; [done|lia|done]|].
  destruct (eval_loop_total (length script) script (init_state st script w)) as [[b1 s'] E]; [done|].
  rewrite E. intros [= Eb <- <-].
  assert (ok cost 0 0 (init_state st script w)) as Hok by (split; cbn; try done; lia).
  assert (stacks_le 1000 (init_state st script w)) as Hsz0 by (red; cbn; lia).
  destruct (eval_loop_ok _ 0 _ _ _ _ Hb Hsz0 Hok E) as [Hok' Htrue].
  split_and!; [apply Hok'|pose proof (ok_limit _ _ _ _ Hok'); lia|].
  intros ->. apply andb_true_iff in Eb as [-> _]. destruct (Htrue eq_refl) as (Hsz & l & Hi & Ha & Hc).
  red in Hsz. split_and!; [lia..|]. exists l. split_and!; try done.
  destruct (decide (op_count l <= 0)); lia.
Qed.
End rounds.

(** ** Claims *)

(** script evaluation terminates: the main loop never needs more rounds than
    the script has bytes, from any state and whatever the signature checker
    does, because a round that goes on consumes an instruction. *)
Theorem EvalScript_terminates {B : BNOps} {H : HashOps} {W : Type}
    (checksig : valtype -> valtype -> list Z -> W -> option bool * W) (flags : Z)
    (script : list Z) (s : eval_state W) :
  is_Some (eval_loop checksig flags (length script) script s).
Proof. by apply eval_loop_total. Qed.

(** C40: what an evaluation can cost.  Whatever the script and the checker, and
    on success and failure alike, every element left on the stack has at most 520
    bytes and the checker has been called at most 201 times, where [cost] counts
    calls; on success the stack holds at most 1000 elements. *)
Theorem EvalScript_limits {B : BNOps} {L : BNLaws B} {H : HashOps} {HL : HashLaws H} {W : Type}
    (cost : W -> Z) (checksig : valtype -> valtype -> list Z -> W -> option bool * W) (flags : Z)
    (st : list valtype) (script : list Z) (w : W) (b : bool) (st' : list valtype) (w' : W) :
  (forall sig key code w, cost (checksig sig key code w).2 <= cost w + 1) ->
  bytes_ok script -> Forall elt_ok st -> (length st <= 1000)%nat -> cost w = 0 ->
  EvalScript_in checksig flags st script w = (b, st', w') ->
  Forall elt_ok st' /\ cost w' <= 201 /\ (b = true -> (length st' <= 1000)%nat).
Proof.
  intros Hc Hb Hst Hl Hw E.
  destruct (EvalScript_ok cost checksig flags Hc _ _ _ _ _ _ Hb Hst Hl Hw E) as (? & ? & Ht).
  split_and!; [done..|]. intros Hbt. by apply Ht.
Qed.

(** a script that evaluates to true has at most 10000 bytes, all of which
    read as instructions; none of them is a disabled opcode or pushes more than
    520 bytes, even in branches that are not executed, and at most 201 of them
    are operations other than pushes. *)
Theorem EvalScript_accepts {B : BNOps} {L : BNLaws B} {H : HashOps} {HL : HashLaws H} {W : Type}
    (checksig : valtype -> valtype -> list Z -> W -> option bool * W) (flags : Z)
    (st : list valtype) (script : list Z) (w : W) (st' : list valtype) (w' : W) :
  bytes_ok script -> Forall elt_ok st -> (length st <= 1000)%nat ->
  EvalScript_in checksig flags st script w = (true, st', w') ->
  Z.of_nat (length script) <= 10000 /\
  exists l, Instrs script l true /\ op_count l <= 201 /\
    Forall (fun i => disabled i.1 = false /\ (length i.2 <= 520)%nat) l.
Proof.
  intros Hb Hst Hl E.
  destruct (EvalScript_ok (fun _ => 0) checksig flags ltac:(intros; cbn; lia) _ _ _ _ _ _ Hb Hst Hl
    eq_refl E) as (_ & _ & Ht).
  destruct (Ht eq_refl) as (_ & Hlen & l & Hi & Ha & Hc). split; [done|]. by exists l.
Qed.

(** A checker for the witnesses: a signature is valid for the key equal to it;
    its world counts the calls. *)
Definition toy_checksig (sig key code : list Z) (n : Z) : option bool * Z :=
  (Some (bool_decide (sig = key)), n + 1).

Lemma EvalScript_limits_witness :
  let '(_, _, n) := EvalScript_in (B := ZBN) (H := toy_hash) toy_checksig 0
    [] [0; 1; 7; 1; 9; 0x52; 1; 7; 1; 8; 1; 9; 0x53; 0xae] 0 in n <= 201.
Proof.
  destruct (EvalScript_in (B := ZBN) toy_checksig 0 [] _ 0) as [[b st'] n] eqn:E.
  eapply (EvalScript_limits (B := ZBN) (H := toy_hash) (fun n => n) toy_checksig 0) in E as (_ & Hn & _);
    [exact Hn|intros; cbn; lia|repeat constructor; lia|constructor|cbn; lia|reflexivity].
Defined.

Lemma EvalScript_accepts_witness :
  exists l, Instrs [0x51; 0x63; 0x52; 0x67; 0x53; 0x68] l true /\ op_count l <= 201.
Proof.
  destruct (EvalScript_accepts (B := ZBN) (H := toy_hash) toy_checksig 0 []
    [0x51; 0x63; 0x52; 0x67; 0x53; 0x68] 0 [[2]] 0) as (_ & l & Hi & Hc & _).
  - repeat constructor; lia.
  - constructor.
  - cbn. lia.
  - vm_compute. reflexivity.
  - exists l. split; [exact Hi|exact Hc].
Defined.
