(* ===== verification/InterpSem.v ===== *)
(** * What the operations of the interpreter compute

    Truth values and numbers as integers, and [OP_CHECKMULTISIG] as an
    order-preserving matching of signatures to keys. *)

From S2P Require Import Prelude Uint256 BigNum Serialize Hash Script Canonical Interp InterpFacts.

(** ** Truth values *)

Lemma snum_decode_cons0 v : v <> [] -> bytes_ok v -> snum_decode (0 :: v) = 256 * snum_decode v.
Proof.
  intros Hne Hv. unfold snum_decode. destruct v as [|x v]; [done|]. set (l := x :: v) in *.
  rewrite digits_val_cons. cbn [length].
  assert (2 ^ (8 * Z.of_nat (S (length l)) - 1) = 256 * 2 ^ (8 * Z.of_nat (length l) - 1)) as ->.
  { change 256 with (2 ^ 8). rewrite <- Z.pow_add_r by (subst l; simpl; lia). f_equal. lia. }
  set (h := 2 ^ _). set (n := digits_val 256 l).
  destruct (Z.ltb_spec (0 + 256 * n) (256 * h)), (Z.ltb_spec n h); lia.
Qed.

Lemma CastToBool_val v : bytes_ok v -> CastToBool v = negb (snum_decode v =? 0).
Proof.
  induction v as [|c v IH]; intros Hv; [done|]. apply Forall_cons in Hv as [Hc Hv].
  destruct v as [|x v].
  - apply eqb_prop.
    by apply (byte_cases (fun c => eqb (CastToBool [c]) (negb (snum_decode [c] =? 0)))).
  - red in Hc. change (CastToBool (c :: x :: v)) with
      (if negb (c =? 0) then negb (false && (c =? 0x80)) else CastToBool (x :: v)).
    destruct (Z.eqb_spec c 0) as [->|Hne]; cbn [negb andb].
    + rewrite IH, snum_decode_cons0 by done. f_equal.
      destruct (Z.eqb_spec (snum_decode (x :: v)) 0), (Z.eqb_spec (256 * snum_decode (x :: v)) 0); lia.
    + symmetry. apply negb_true_iff, Z.eqb_neq. unfold snum_decode. rewrite digits_val_cons.
      cbn [length]. set (l := digits_val 256 (x :: v)).
      assert (2 ^ (8 * Z.of_nat (S (S (length v))) - 1) = 256 * 2 ^ (8 * Z.of_nat (S (length v)) - 1)) as ->.
      { change 256 with (2 ^ 8). rewrite <- Z.pow_add_r by lia. f_equal. lia. }
      set (h := 2 ^ _). destruct (Z.ltb_spec (c + 256 * l) (256 * h)); lia.
Qed.

(** ** Running operations *)

Section run.
Context {W : Type}.
Implicit Types s : eval_state W.

Lemma bind_run {A A'} (m : M W A) (f : A -> M W A') s a s' :
  m s = (Some a, s') -> (m ≫= f) s = f a s'.
Proof. intros E. unfold mbind, M_bind. by rewrite E. Qed.

Lemma bind_stop {A A'} (m : M W A) (f : A -> M W A') s s' :
  m s = (None, s') -> (m ≫= f) s = (None, s').
Proof. intros E. unfold mbind, M_bind. by rewrite E. Qed.

Lemma need_run n s : n <= Z.of_nat (length (stack s)) -> need n s = (Some tt, s).
Proof.
  intros Hn. unfold need, size. erewrite bind_run by done. unfold require.
  by destruct (Z.ltb_spec (Z.of_nat (length (stack s))) n); [lia|].
Qed.

Lemma require_run b s : b = true -> require b s = (Some tt, s).
Proof. by intros ->. Qed.

Lemma stacktop_run i v s : stack s !! Z.to_nat (i - 1) = Some v -> stacktop (- i) s = (Some v, s).
Proof.
  intros E. unfold stacktop. erewrite bind_run by done. cbv beta.
  replace (- - i - 1) with (i - 1) by lia. by rewrite E.
Qed.

Lemma set_stack_run st s : set_stack st s =
  (Some tt, mkState st (altstack s) (vfExec s) (pbegincodehash s) (nOpCount s) (world s)).
Proof. done. Qed.

(** The state with another stack *)
Definition with_stack (s : eval_state W) (st : list valtype) : eval_state W :=
  mkState st (altstack s) (vfExec s) (pbegincodehash s) (nOpCount s) (world s).

Lemma popstack_run v st s : popstack (with_stack s (v :: st)) = (Some tt, with_stack s st).
Proof. done. Qed.

Lemma push_run v st s : push v (with_stack s st) = (Some tt, with_stack s (v :: st)).
Proof. done. Qed.

Lemma with_stack_id s : with_stack s (stack s) = s.
Proof. by destruct s. Qed.

Lemma pop_many_run vs st s : pop_many (length vs) (with_stack s (vs ++ st)) = (Some tt, with_stack s st).
Proof.
  induction vs as [|v vs IH]; [done|]. cbn [pop_many length app].
  by erewrite bind_run by apply popstack_run.
Qed.
End run.

(** Run the next operation of a sequence *)
Ltac run_with tac := erewrite bind_run; [|tac]; cbv beta zeta.

(** ** Numbers *)

Section arith.
Context {B : BNOps} {L : BNLaws B} {H : HashOps} {W : Type}.
Implicit Types s : eval_state W.

(** The integer a numeric operand stands for *)
Lemma CastToBigNum_run v s :
  bytes_ok v -> (length v <= 4)%nat ->
  exists bn, CastToBigNum v s = (Some bn, s) /\ bn_val bn = snum_decode v.
Proof.
  intros Hb Hl. unfold CastToBigNum, nMaxNumSize.
  destruct (Z.ltb_spec 4 (Z.of_nat (length v))); [lia|]. eexists. split; [done|].
  unfold CBigNum_of_vch. rewrite getvch_val, (setvch_val v) by (done || lia).
  pose proof (snum_decode_operand v Hb Hl) as Hd. rewrite setvch_val.
  - by rewrite snum_decode_encode.
  - apply snum_encode_ok.
  - rewrite length_snum_encode. destruct (decide (snum_decode v = 0)) as [->|Hnz]; [done|].
    destruct (snum_len_bounds _ Hnz) as [Hlo _].
    assert (2 ^ (8 * (snum_len (snum_decode v) - 1) - 1) < 2 ^ 39) as Hp by lia.
    apply Z.pow_lt_mono_r_iff in Hp; lia.
Qed.

Lemma CastToBigNum_stop v s : (4 < length v)%nat -> CastToBigNum v s = (None, s).
Proof.
  intros Hl. unfold CastToBigNum, nMaxNumSize.
  by destruct (Z.ltb_spec 4 (Z.of_nat (length v))); [|lia].
Qed.

(** What the arithmetic operations compute *)
Definition unop (opcode : opcodetype) (a : Z) : Z :=
  if opcode =? OP_1ADD then a + 1
  else if opcode =? OP_1SUB then a - 1
  else if opcode =? OP_NEGATE then - a
  else if opcode =? OP_ABS then Z.abs a
  else if opcode =? OP_NOT then Z.b2z (a =? 0)
  else Z.b2z (negb (a =? 0)).

Definition binop (opcode : opcodetype) (a b : Z) : Z :=
  if opcode =? OP_ADD then a + b
  else if opcode =? OP_SUB then a - b
  else if opcode =? OP_BOOLAND then Z.b2z (negb (a =? 0) && negb (b =? 0))
  else if opcode =? OP_BOOLOR then Z.b2z (negb (a =? 0) || negb (b =? 0))
  else if (opcode =? OP_NUMEQUAL) || (opcode =? OP_NUMEQUALVERIFY) then Z.b2z (a =? b)
  else if opcode =? OP_NUMNOTEQUAL then Z.b2z (negb (a =? b))
  else if opcode =? OP_LESSTHAN then Z.b2z (a <? b)
  else if opcode =? OP_GREATERTHAN then Z.b2z (b <? a)
  else if opcode =? OP_LESSTHANOREQUAL then Z.b2z (a <=? b)
  else if opcode =? OP_GREATERTHANOREQUAL then Z.b2z (b <=? a)
  else if opcode =? OP_MIN then Z.min a b
  else Z.max a b.

Lemma bnZero_val : bn_val bnZero = 0.
Proof. apply CBigNum_of_int_val. lia. Qed.

Lemma of_b2z_val b : bn_val (CBigNum_of_int (Z.b2z b)) = Z.b2z b.
Proof. apply CBigNum_of_int_val. destruct b; simpl; lia. Qed.

Lemma unary_val opcode bn : bn_val (unary opcode bn) = unop opcode (bn_val bn).
Proof.
  destruct (bn_compare_val bn bnZero) as (E1 & E2 & E3 & E4 & E5 & E6). rewrite bnZero_val in *.
  unfold unary, unop, bn_plus, bn_minus, bnOne. rewrite E1, E2, E5.
  repeat case_goal; rewrite ?of_b2z_val, ?BN_add_val, ?BN_sub_val, ?bn_opp_val, ?CBigNum_of_int_val by lia;
    bool_prop; done || lia.
Qed.

Lemma binary_val opcode bn1 bn2 :
  bn_val (binary opcode bn1 bn2) = binop opcode (bn_val bn1) (bn_val bn2).
Proof.
  destruct (bn_compare_val bn1 bn2) as (E1 & E2 & E3 & E4 & E5 & E6).
  destruct (bn_compare_val bn1 bnZero) as (_ & Z1 & _).
  destruct (bn_compare_val bn2 bnZero) as (_ & Z2 & _). rewrite bnZero_val in *.
  unfold binary, binop, bn_plus, bn_minus. rewrite E1, E2, E3, E4, E5, E6, Z1, Z2.
  destruct (opcode =? OP_ADD); [by rewrite BN_add_val|].
  destruct (opcode =? OP_SUB); [by rewrite BN_sub_val|].
  do 2 (case_goal; [by rewrite of_b2z_val|]).
  destruct (opcode =? OP_NUMEQUAL); [by rewrite of_b2z_val|].
  destruct (opcode =? OP_NUMEQUALVERIFY); cbn [orb]; [by rewrite of_b2z_val|].
  do 5 (case_goal; [by rewrite of_b2z_val|]).
  destruct (opcode =? OP_MIN); case_goal; bool_prop; lia.
Qed.

(** An arithmetic operation replaces its operands by the encoded result. *)
Lemma exec_unary_run opcode v st s :
  bytes_ok v -> (length v <= 4)%nat ->
  exec_unary opcode (with_stack s (v :: st)) =
  (Some tt, with_stack s (snum_encode (unop opcode (snum_decode v)) :: st)).
Proof.
  intros Hb Hl. unfold exec_unary.
  run_with ltac:(apply need_run; cbn; lia). run_with ltac:(by apply (stacktop_run 1 v)).
  destruct (CastToBigNum_run v (with_stack s (v :: st)) Hb Hl) as (bn & E & Ev). run_with ltac:(exact E).
  run_with ltac:(apply popstack_run). by rewrite push_run, getvch_val, unary_val, Ev.
Qed.

Lemma exec_binary_run opcode v1 v2 st s :
  bytes_ok v1 -> bytes_ok v2 -> (length v1 <= 4)%nat -> (length v2 <= 4)%nat ->
  exec_binary opcode (with_stack s (v2 :: v1 :: st)) =
  let r := binop opcode (snum_decode v1) (snum_decode v2) in
  if opcode =? OP_NUMEQUALVERIFY then
    if negb (r =? 0) then (Some tt, with_stack s st) else (None, with_stack s (snum_encode r :: st))
  else (Some tt, with_stack s (snum_encode r :: st)).
Proof.
  intros Hb1 Hb2 Hl1 Hl2. unfold exec_binary. set (s0 := with_stack s (v2 :: v1 :: st)).
  run_with ltac:(apply need_run; cbn; lia). run_with ltac:(by apply (stacktop_run 2 v1)).
  destruct (CastToBigNum_run v1 s0 Hb1 Hl1) as (bn1 & E1 & Ev1). run_with ltac:(exact E1).
  run_with ltac:(by apply (stacktop_run 1 v2)).
  destruct (CastToBigNum_run v2 s0 Hb2 Hl2) as (bn2 & E2 & Ev2). run_with ltac:(exact E2).
  subst s0. do 2 run_with ltac:(apply popstack_run). run_with ltac:(apply push_run).
  rewrite getvch_val, binary_val, Ev1, Ev2. cbv zeta. destruct (opcode =? OP_NUMEQUALVERIFY); [|done].
  run_with ltac:(by apply (stacktop_run 1)).
  rewrite CastToBool_val, snum_decode_encode by apply snum_encode_ok.
  by destruct (negb _).
Qed.

(** An operand of more than four bytes ends the evaluation. *)
Lemma exec_binary_stop opcode v1 v2 st s :
  bytes_ok v1 -> (4 < length v1)%nat \/ (4 < length v2)%nat ->
  exec_binary opcode (with_stack s (v2 :: v1 :: st)) = (None, with_stack s (v2 :: v1 :: st)).
Proof.
  intros Hb Hl. unfold exec_binary. set (s0 := with_stack s (v2 :: v1 :: st)).
  run_with ltac:(apply need_run; cbn; lia). run_with ltac:(by apply (stacktop_run 2 v1)).
  destruct (decide (4 < length v1)%nat).
  { erewrite bind_stop; [done|]. by apply CastToBigNum_stop. }
  destruct (CastToBigNum_run v1 s0 Hb ltac:(lia)) as (bn1 & E1 & Ev1). run_with ltac:(exact E1).
  run_with ltac:(by apply (stacktop_run 1 v2)).
  erewrite bind_stop; [done|]. apply CastToBigNum_stop. lia.
Qed.
End arith.

(** ** [OP_CHECKMULTISIG] *)

Section greedy.
Context {S K : Type} (ok : S -> K -> bool).

(** Match each signature to the first key left that accepts it *)
Fixpoint greedy (keys : list K) (sigs : list S) : bool :=
  match sigs, keys with
  | [], _ => true
  | _, [] => false
  | sg :: sigs', k :: keys' => if ok sg k then greedy keys' sigs' else greedy keys' sigs
  end.

Lemma greedy_short keys sigs : (length keys < length sigs)%nat -> greedy keys sigs = false.
Proof.
  revert sigs. induction keys as [|k keys IH]; intros [|sg sigs] Hl; simpl in *; try done; try lia.
  destruct (ok sg k); apply IH; simpl; lia.
Qed.

(** Fewer signatures or more keys never hurt. *)
Lemma greedy_tail keys sg sigs : greedy keys (sg :: sigs) = true -> greedy keys sigs = true.
Proof.
  revert sg sigs. induction keys as [|k keys IH]; intros sg sigs Hg; [done|].
  assert (More : forall sigs, greedy keys sigs = true -> greedy (k :: keys) sigs = true).
  { intros [|sg' sigs'] Hg'; [done|]. simpl. destruct (ok sg' k); [by eapply IH|done]. }
  simpl in Hg. destruct (ok sg k); apply More; [done|by eapply IH].
Qed.

Lemma greedy_more_keys k keys sigs : greedy keys sigs = true -> greedy (k :: keys) sigs = true.
Proof.
  destruct sigs as [|sg sigs]; [done|]. intros Hg. simpl. destruct (ok sg k); [by eapply greedy_tail|done].
Qed.

(** The greedy choice finds an order-preserving matching whenever there is one. *)
Lemma greedy_spec keys sigs :
  greedy keys sigs = true <->
  exists keys', keys' `sublist_of` keys /\ Forall2 (fun sg k => ok sg k = true) sigs keys'.
Proof.
  split.
  - revert sigs. induction keys as [|k keys IH]; intros [|sg sigs] Hg; try done.
    + exists []. split; [apply sublist_nil_l|constructor].
    + exists []. split; [apply sublist_nil_l|constructor].
    + simpl in Hg. destruct (ok sg k) eqn:E.
      * destruct (IH _ Hg) as (keys' & Hs & Hf). exists (k :: keys'). split; [by constructor|by constructor].
      * destruct (IH _ Hg) as (keys' & Hs & Hf). exists keys'. split; [by constructor|done].
  - intros (keys' & Hs & Hf). revert sigs Hf.
    induction Hs as [|k keys' keys Hs IH|k keys' keys Hs IH]; intros sigs Hf.
    + by inversion Hf.
    + inversion Hf as [|sg ? sigs' ? Hk Hf']; subst. simpl. rewrite Hk. by apply IH.
    + by apply greedy_more_keys, IH.
Qed.
End greedy.

Section multisig.
Context {B : BNOps} {L : BNLaws B} {H : HashOps} {W : Type}.
Context (chk : valtype -> valtype -> list Z -> bool) (flags : Z).
Implicit Types s : eval_state W.

(** A checker whose answer depends on its arguments only *)
Definition pure_check (sig key : valtype) (code : list Z) (w : W) : option bool * W :=
  (Some (chk sig key code), w).

Definition pair_ok (code : list Z) (sig key : valtype) : bool :=
  IsCanonicalSignature sig flags && IsCanonicalPubKey key flags && chk sig key code.

Lemma check_one_run code sig key s :
  check_one pure_check flags code sig key s = (Some (pair_ok code sig key), s).
Proof.
  unfold check_one, pair_ok. destruct (_ && _); [|done]. cbn [andb].
  unfold in_world, pure_check. by destruct s.
Qed.

(** The elements of [l] lie on the stack from [stacktop(-i)] down. *)
Definition lies_at (s : eval_state W) (i : Z) (l : list valtype) : Prop :=
  1 <= i /\ exists rest, drop (Z.to_nat (i - 1)) (stack s) = l ++ rest.

Lemma lies_at_head s i v l : lies_at s i (v :: l) -> stacktop (- i) s = (Some v, s) /\ lies_at s (i + 1) l.
Proof.
  intros [Hi [rest E]]. split.
  - apply stacktop_run. rewrite <- (Nat.add_0_r (Z.to_nat _)), <- lookup_drop, E. done.
  - split; [lia|]. exists rest. replace (Z.to_nat (i + 1 - 1)) with (Z.to_nat (i - 1) + 1)%nat by lia.
    by rewrite <- drop_drop, E.
Qed.

Lemma multisig_loop_run code sigs keys isig ikey s :
  lies_at s isig sigs -> lies_at s ikey keys -> (length sigs <= length keys)%nat ->
  multisig_loop pure_check flags (length keys) code isig ikey
    (Z.of_nat (length sigs)) (Z.of_nat (length keys)) s =
  (Some (greedy (pair_ok code) keys sigs), s).
Proof.
  revert sigs isig ikey. induction keys as [|k keys IH]; intros sigs isig ikey Hs Hk Hl.
  { destruct sigs; [done|simpl in Hl; lia]. }
  destruct sigs as [|sg sigs]; [done|]. cbn [multisig_loop length greedy].
  destruct (Z.ltb_spec 0 (Z.of_nat (S (length sigs)))); [|lia].
  destruct (lies_at_head _ _ _ _ Hs) as [Es Hs'], (lies_at_head _ _ _ _ Hk) as [Ek Hk'].
  run_with ltac:(exact Es). run_with ltac:(exact Ek). run_with ltac:(apply check_one_run).
  replace (Z.of_nat (S (length keys)) - 1) with (Z.of_nat (length keys)) by lia. simpl in Hl.
  destruct (pair_ok code sg k); cbv beta iota zeta.
  - replace (Z.of_nat (S (length sigs)) - 1) with (Z.of_nat (length sigs)) by lia.
    destruct (Z.ltb_spec (Z.of_nat (length keys)) (Z.of_nat (length sigs))); [lia|].
    apply IH; [done..|lia].
  - destruct (Z.ltb_spec (Z.of_nat (length keys)) (Z.of_nat (S (length sigs)))).
    + rewrite greedy_short by (simpl; lia). done.
    + change (S (length sigs)) with (length (sg :: sigs)). apply IH; [done..|simpl; lia].
Qed.

(** The script code with the signatures taken out *)
Definition without_sigs (code : list Z) (sigs : list valtype) : list Z :=
  foldl (fun code sg => (FindAndDelete code (push_vch [] sg)).1) code sigs.

Lemma drop_sigs_run sigs isig code s :
  lies_at s isig sigs -> drop_sigs (length sigs) isig code s = (Some (without_sigs code sigs), s).
Proof.
  revert isig code. induction sigs as [|sg sigs IH]; intros isig code Hs; [done|]. cbn [drop_sigs length].
  destruct (lies_at_head _ _ _ _ Hs) as [E Hs']. run_with ltac:(exact E). by apply IH.
Qed.

(** A count on the stack reads as the number it encodes. *)
Lemma count_run n s :
  0 <= n <= 20 ->
  exists bn, CastToBigNum (snum_encode n) s = (Some bn, s) /\ getint bn = n.
Proof.
  intros Hn.
  assert (length (snum_encode n) <= 4)%nat as Hl.
  { enough (snum_len n <= 1) by (pose proof (length_snum_encode n); lia).
    destruct (decide (n = 0)) as [->|Hnz]; [done|]. destruct (snum_len_bounds n Hnz) as [Hlo _].
    assert (2 ^ (8 * (snum_len n - 1) - 1) < 2 ^ 7) as Hp by lia.
    apply Z.pow_lt_mono_r_iff in Hp; lia. }
  destruct (CastToBigNum_run (snum_encode n) s (snum_encode_ok n) Hl) as (bn & E & Ev).
  exists bn. split; [done|]. rewrite getint_val, Ev, snum_decode_encode. lia.
Qed.

Definition add_op_count (s : eval_state W) (n : Z) : eval_state W :=
  mkState (stack s) (altstack s) (vfExec s) (pbegincodehash s) (nOpCount s + n) (world s).

Lemma charge_run n s : nOpCount s + n <= 201 -> charge n s = (Some tt, add_op_count s n).
Proof.
  intros Hn. unfold charge. run_with ltac:(done). run_with ltac:(done). unfold require. cbn [nOpCount].
  by destruct (Z.ltb_spec 201 (nOpCount s + n)); [lia|].
Qed.

(** The layout of the operands: keys and signatures, each list with the last one
    pushed first, and the dummy element below *)
Definition multisig_operands (keys sigs : list valtype) : list valtype :=
  snum_encode (Z.of_nat (length keys)) :: keys ++ snum_encode (Z.of_nat (length sigs)) :: sigs.

Lemma operands_lookup keys sigs (rest : list valtype) :
  (multisig_operands keys sigs ++ rest) !! S (length keys) = Some (snum_encode (Z.of_nat (length sigs))).
Proof.
  unfold multisig_operands.
  change (((keys ++ snum_encode (Z.of_nat (length sigs)) :: sigs) ++ rest) !! length keys =
    Some (snum_encode (Z.of_nat (length sigs)))).
  rewrite <- app_assoc, lookup_app_r by lia. by rewrite Nat.sub_diag.
Qed.

Lemma operands_lie keys sigs rest s :
  stack s = multisig_operands keys sigs ++ rest ->
  lies_at s 2 keys /\ lies_at s (3 + Z.of_nat (length keys)) sigs.
Proof.
  intros E. split; (split; [lia|]); rewrite E.
  - eexists. cbn. rewrite <- app_assoc. done.
  - exists rest. replace (Z.to_nat (3 + Z.of_nat (length keys) - 1)) with (1 + (length keys + 1))%nat by lia.
    unfold multisig_operands. cbn [app Nat.add drop]. by rewrite <- app_assoc, <- drop_drop, drop_app_length.
Qed.

Lemma exec_checkmultisig_run keys sigs dummy rest s :
  stack s = multisig_operands keys sigs ++ dummy :: rest ->
  (length keys <= 20)%nat -> (length sigs <= length keys)%nat ->
  nOpCount s + Z.of_nat (length keys) <= 201 ->
  (has_flag flags SCRIPT_VERIFY_NULLDUMMY = true -> dummy = []) ->
  exec_checkmultisig pure_check flags OP_CHECKMULTISIG s =
  (Some tt, with_stack (add_op_count s (Z.of_nat (length keys)))
    (bool_vch (greedy (pair_ok (without_sigs (pbegincodehash s) sigs)) keys sigs) :: rest)).
Proof.
  intros Est Hk Hs Hops Hdummy. unfold exec_checkmultisig. cbv zeta.
  assert (Hlen : Z.of_nat (length (stack s)) = 3 + Z.of_nat (length keys) + Z.of_nat (length sigs) + Z.of_nat (length rest)).
  { rewrite Est. unfold multisig_operands. cbn [app length]. rewrite !length_app. cbn [length]. lia. }
  run_with ltac:(apply need_run; lia).
  run_with ltac:(apply (stacktop_run 1); by rewrite Est).
  destruct (count_run (Z.of_nat (length keys)) s ltac:(lia)) as (bk & Ek & Enk). run_with ltac:(exact Ek).
  rewrite Enk. run_with ltac:(apply require_run, negb_true_iff, orb_false_iff; split; apply Z.ltb_ge; lia).
  run_with ltac:(by apply charge_run). set (s1 := add_op_count s _).
  run_with ltac:(apply need_run; cbn; lia).
  run_with ltac:(apply stacktop_run; cbn [stack s1 add_op_count]; rewrite Est;
    replace (Z.to_nat _) with (S (length keys)) by lia; apply operands_lookup).
  destruct (count_run (Z.of_nat (length sigs)) s1 ltac:(lia)) as (bs & Es & Ens). run_with ltac:(exact Es).
  rewrite Ens. run_with ltac:(apply require_run, negb_true_iff, orb_false_iff; split; apply Z.ltb_ge; lia).
  run_with ltac:(apply need_run; cbn; lia). run_with ltac:(done).
  destruct (operands_lie keys sigs (dummy :: rest) s1 Est) as [Lk Ls].
  replace (1 + 1 + Z.of_nat (length keys) + 1) with (3 + Z.of_nat (length keys)) by lia.
  change (1 + 1) with 2. rewrite !Nat2Z.id.
  run_with ltac:(by apply drop_sigs_run). run_with ltac:(by apply multisig_loop_run).
  rewrite <- (with_stack_id s1) at 1. change (stack s1) with (stack s). rewrite Est.
  replace (Z.to_nat _) with (length (multisig_operands keys sigs))
    by (unfold multisig_operands; cbn [length]; rewrite length_app; cbn [length]; lia).
  run_with ltac:(apply pop_many_run). run_with ltac:(apply need_run; cbn; lia).
  run_with ltac:(by apply (stacktop_run 1)).
  run_with ltac:(apply require_run; destruct (has_flag _ _); [by rewrite Hdummy|done]).
  run_with ltac:(apply popstack_run). by run_with ltac:(apply push_run).
Qed.
End multisig.

(** ** Claims *)

(** script values as integers: an element counts as true exactly when the
    number it encodes is not zero (negative zero included), arithmetic takes
    operands of at most four bytes and replaces them by the shortest encoding of
    the integer result, [OP_NUMEQUALVERIFY] drops a true result and stops on a
    false one, and longer operands end the evaluation without touching the stack. *)
Theorem script_arithmetic {B : BNOps} {L : BNLaws B} {H : HashOps} {W : Type}
    (opcode : opcodetype) (v1 v2 : valtype) (st : list valtype) (s : eval_state W) :
  bytes_ok v1 -> bytes_ok v2 ->
  CastToBool v1 = negb (snum_decode v1 =? 0) /\
  ((length v1 <= 4)%nat ->
   exec_unary opcode (with_stack s (v1 :: st)) =
   (Some tt, with_stack s (snum_encode (unop opcode (snum_decode v1)) :: st))) /\
  ((length v1 <= 4)%nat -> (length v2 <= 4)%nat ->
   exec_binary opcode (with_stack s (v2 :: v1 :: st)) =
   let r := binop opcode (snum_decode v1) (snum_decode v2) in
   if opcode =? OP_NUMEQUALVERIFY then
     if negb (r =? 0) then (Some tt, with_stack s st) else (None, with_stack s (snum_encode r :: st))
   else (Some tt, with_stack s (snum_encode r :: st))) /\
  ((4 < length v1)%nat \/ (4 < length v2)%nat ->
   exec_binary opcode (with_stack s (v2 :: v1 :: st)) = (None, with_stack s (v2 :: v1 :: st))).
Proof.
  intros H1 H2. split_and!.
  - by apply CastToBool_val.
  - intros. by apply exec_unary_run.
  - intros. by apply exec_binary_run.
  - intros. by apply exec_binary_stop.
Qed.

(** C39: [OP_CHECKMULTISIG] on well-formed operands counts its keys as operations,
    consumes the operands and the dummy element, and pushes true exactly when
    there is a sublist of the keys, in their order, whose keys accept the
    signatures one by one (against the script code without the signatures). *)
Theorem checkmultisig_matching {B : BNOps} {L : BNLaws B} {H : HashOps} {W : Type}
    (chk : valtype -> valtype -> list Z -> bool) (flags : Z)
    (keys sigs : list valtype) (dummy : valtype) (rest : list valtype) (s : eval_state W) :
  stack s = multisig_operands keys sigs ++ dummy :: rest ->
  (length keys <= 20)%nat -> (length sigs <= length keys)%nat ->
  nOpCount s + Z.of_nat (length keys) <= 201 ->
  (has_flag flags SCRIPT_VERIFY_NULLDUMMY = true -> dummy = []) ->
  exists b, exec_checkmultisig (pure_check chk) flags OP_CHECKMULTISIG s =
    (Some tt, with_stack (add_op_count s (Z.of_nat (length keys))) (bool_vch b :: rest)) /\
  (b = true <-> exists keys', keys' `sublist_of` keys /\
     Forall2 (fun sig key => pair_ok chk flags (without_sigs (pbegincodehash s) sigs) sig key = true)
       sigs keys').
Proof.
  intros Est Hk Hs Hops Hd. eexists. split; [by apply (exec_checkmultisig_run chk flags keys sigs dummy rest s)|]. apply greedy_spec.
Qed.

Lemma script_arithmetic_witness :
  exec_binary OP_SUB (with_stack (init_state (W := unit) [] [] tt) [[0x05]; [0x03]]) =
  (Some tt, with_stack (init_state [] [] tt) [[0x82]]).
Proof.
  destruct (script_arithmetic (B := ZBN) (H := toy_hash) OP_SUB [0x03] [0x05] []
    (init_state (W := unit) [] [] tt)) as (_ & _ & E & _);
    [repeat constructor; lia|repeat constructor; lia|]. apply E; cbn; lia.
Defined.

Lemma checkmultisig_matching_witness :
  exists b, exec_checkmultisig (B := ZBN) (pure_check (fun sig key _ => bool_decide (sig = key))) 0
    OP_CHECKMULTISIG (init_state [[3]; [9]; [8]; [7]; [2]; [9]; [7]; []] [] tt) =
    (Some tt, with_stack (add_op_count (init_state [[3]; [9]; [8]; [7]; [2]; [9]; [7]; []] [] tt) 3) [bool_vch b]).
Proof.
  destruct (checkmultisig_matching (B := ZBN) (H := toy_hash) (fun sig key _ => bool_decide (sig = key)) 0
    [[9]; [8]; [7]] [[9]; [7]] [] [] (init_state [[3]; [9]; [8]; [7]; [2]; [9]; [7]; []] [] tt))
    as (b & E & _).
  - reflexivity.
  - cbn. lia.
  - cbn. lia.
  - cbn. lia.
  - discriminate.
  - exists b. exact E.
Defined.
