(* ===== verification/InterpSim.v ===== *)
(** * The interpreter does not look at the world

    Two evaluations whose signature checkers give the same answers give the same
    result and stack, whatever their worlds do besides.  This is what makes the
    signature cache invisible to scripts. *)

From S2P Require Import Prelude Uint256 BigNum Serialize Hash Script Canonical Interp.

Section sim.
Context {W1 W2 : Type} (R : W1 -> W2 -> Prop).

Definition same_state (s1 : eval_state W1) (s2 : eval_state W2) : Prop :=
  stack s1 = stack s2 /\ altstack s1 = altstack s2 /\ vfExec s1 = vfExec s2 /\
  pbegincodehash s1 = pbegincodehash s2 /\ nOpCount s1 = nOpCount s2 /\ R (world s1) (world s2).

Definition sim {A} (m1 : M W1 A) (m2 : M W2 A) : Prop :=
  forall s1 s2, same_state s1 s2 ->
  (m1 s1).1 = (m2 s2).1 /\ same_state (m1 s1).2 (m2 s2).2.

Lemma sim_ret {A} (a : A) : sim (mret a) (mret a).
Proof. by intros s1 s2 Hs. Qed.

Lemma sim_stop {A} : sim (A := A) stop stop.
Proof. by intros s1 s2 Hs. Qed.

Lemma sim_bind {A A'} (m1 : M W1 A) (m2 : M W2 A) (f1 : A -> M W1 A') (f2 : A -> M W2 A') :
  sim m1 m2 -> (forall a, sim (f1 a) (f2 a)) -> sim (m1 ≫= f1) (m2 ≫= f2).
Proof.
  intros Hm Hf s1 s2 Hs. unfold mbind, M_bind. specialize (Hm s1 s2 Hs).
  destruct (m1 s1) as [[a|] s1'], (m2 s2) as [[a'|] s2']; destruct Hm as [Ha Hs']; cbn in *; try done.
  injection Ha as ->. by apply Hf.
Qed.

Lemma sim_gets {A} (f1 : eval_state W1 -> A) (f2 : eval_state W2 -> A) :
  (forall s1 s2, same_state s1 s2 -> f1 s1 = f2 s2) -> sim (gets f1) (gets f2).
Proof. intros Hf s1 s2 Hs. cbn. by rewrite (Hf s1 s2 Hs). Qed.

Lemma sim_get_stack : sim (gets stack) (gets stack).
Proof. apply sim_gets. by intros s1 s2 (? & _). Qed.
Lemma sim_get_altstack : sim (gets altstack) (gets altstack).
Proof. apply sim_gets. by intros s1 s2 (_ & ? & _). Qed.
Lemma sim_get_vfExec : sim (gets vfExec) (gets vfExec).
Proof. apply sim_gets. by intros s1 s2 (_ & _ & ? & _). Qed.
Lemma sim_get_codehash : sim (gets pbegincodehash) (gets pbegincodehash).
Proof. apply sim_gets. by intros s1 s2 (_ & _ & _ & ? & _). Qed.
Lemma sim_get_ops : sim (gets nOpCount) (gets nOpCount).
Proof. apply sim_gets. by intros s1 s2 (_ & _ & _ & _ & ? & _). Qed.
Lemma sim_size : sim size size.
Proof. apply sim_gets. by intros s1 s2 (-> & _). Qed.

Lemma sim_set_stack st : sim (set_stack st) (set_stack st).
Proof. intros s1 s2 (? & ? & ? & ? & ? & ?). by repeat split. Qed.
Lemma sim_set_altstack st : sim (set_altstack st) (set_altstack st).
Proof. intros s1 s2 (? & ? & ? & ? & ? & ?). by repeat split. Qed.
Lemma sim_set_vfExec v : sim (set_vfExec v) (set_vfExec v).
Proof. intros s1 s2 (? & ? & ? & ? & ? & ?). by repeat split. Qed.
Lemma sim_set_codehash pc : sim (set_codehash pc) (set_codehash pc).
Proof. intros s1 s2 (? & ? & ? & ? & ? & ?). by repeat split. Qed.
Lemma sim_add_ops n : sim (add_ops n) (add_ops n).
Proof. intros s1 s2 (? & ? & ? & ? & ? & ?). repeat split; cbn; done || lia. Qed.
End sim.

#[export] Hint Resolve sim_ret sim_stop sim_get_stack sim_get_altstack sim_get_vfExec
  sim_get_codehash sim_get_ops sim_size sim_set_stack sim_set_altstack sim_set_vfExec
  sim_set_codehash sim_add_ops : hbn.

(** Walk through two copies of an operation *)
Ltac sim_step :=
  match goal with
  | |- sim _ (mbind _ _) (mbind _ _) => apply sim_bind; [|intros ?]
  | |- sim _ (if ?b then _ else _) _ => destruct b
  | |- sim _ (match ?x with _ => _ end) _ => destruct x
  | |- sim _ _ _ => solve [auto with hbn]
  end.
Ltac sim_auto := repeat sim_step.

Section operations.
Context {B : BNOps} {H : HashOps} {W1 W2 : Type} (R : W1 -> W2 -> Prop).
Context (check1 : valtype -> valtype -> list Z -> W1 -> option bool * W1).
Context (check2 : valtype -> valtype -> list Z -> W2 -> option bool * W2) (flags : Z).
Hypothesis same_checks : forall sig key code w1 w2, R w1 w2 ->
  (check1 sig key code w1).1 = (check2 sig key code w2).1 /\
  R (check1 sig key code w1).2 (check2 sig key code w2).2.

Lemma sim_require b : sim R (require b) (require b).
Proof. unfold require. sim_auto. Qed.
Lemma sim_need n : sim R (need n) (need n).
Proof. unfold need, require. sim_auto. Qed.
Lemma sim_push v : sim R (push v) (push v).
Proof. unfold push. sim_auto. Qed.
Lemma sim_popstack : sim R popstack popstack.
Proof. unfold popstack. sim_auto. Qed.
Lemma sim_stacktop i : sim R (stacktop i) (stacktop i).
Proof. unfold stacktop. sim_auto. Qed.
Lemma sim_swap i j : sim R (swap i j) (swap i j).
Proof. unfold swap, stacktop, set_stacktop. sim_auto. Qed.
Lemma sim_erase i j : sim R (erase i j) (erase i j).
Proof. unfold erase. sim_auto. Qed.
Lemma sim_insert_at i v : sim R (insert_at i v) (insert_at i v).
Proof. unfold insert_at. sim_auto. Qed.
#[local] Hint Resolve sim_require sim_need sim_push sim_popstack sim_stacktop sim_swap sim_erase
  sim_insert_at : hbn.
Lemma sim_verify b : sim R (verify b) (verify b).
Proof. unfold verify. sim_auto. Qed.
Lemma sim_charge n : sim R (charge n) (charge n).
Proof. unfold charge. sim_auto. Qed.
Lemma sim_CastToBigNum v : sim R (CastToBigNum v) (CastToBigNum v).
Proof. unfold CastToBigNum. sim_auto. Qed.
Lemma sim_pop_many n : sim R (pop_many n) (pop_many n).
Proof. induction n; cbn [pop_many]; sim_auto. Qed.
#[local] Hint Resolve sim_verify sim_charge sim_CastToBigNum sim_pop_many : hbn.

Lemma sim_check_one code sig key :
  sim R (check_one check1 flags code sig key) (check_one check2 flags code sig key).
Proof.
  unfold check_one. destruct (_ && _); [|sim_auto].
  intros s1 s2 (? & ? & ? & ? & ? & Hw). unfold in_world.
  pose proof (same_checks sig key code _ _ Hw) as [E Hw'].
  destruct (check1 sig key code (world s1)), (check2 sig key code (world s2)). cbn in *. by repeat split.
Qed.
#[local] Hint Resolve sim_check_one : hbn.

Lemma sim_drop_sigs n isig code : sim R (drop_sigs n isig code) (drop_sigs n isig code).
Proof. revert isig code. induction n; intros; cbn [drop_sigs]; sim_auto. Qed.

Lemma sim_multisig_loop fuel code isig ikey ns nk :
  sim R (multisig_loop check1 flags fuel code isig ikey ns nk)
        (multisig_loop check2 flags fuel code isig ikey ns nk).
Proof.
  revert isig ikey ns nk. induction fuel as [|fuel IH]; intros; cbn [multisig_loop]; [sim_auto|].
  destruct (0 <? ns); [|sim_auto]. do 3 (apply sim_bind; [by auto with hbn|intros ?]).
  rename select bool into fOk. destruct fOk; cbv beta iota zeta; case_goal; sim_auto.
Qed.
#[local] Hint Resolve sim_drop_sigs sim_multisig_loop : hbn.

Lemma sim_exec_op fExec opcode pc :
  sim R (exec_op check1 flags fExec opcode pc) (exec_op check2 flags fExec opcode pc).
Proof.
  unfold exec_op.
  repeat (match goal with |- sim _ (if ?b then _ else _) _ => destruct b end; [solve [
    unfold exec_value, exec_if, exec_else, exec_endif, exec_verify, exec_toaltstack,
      exec_fromaltstack, exec_2drop, exec_2dup, exec_3dup, exec_2over, exec_2rot, exec_2swap,
      exec_ifdup, exec_depth, exec_drop, exec_dup, exec_nip, exec_over, exec_pick, exec_rot,
      exec_swap, exec_tuck, exec_size, exec_equal, exec_unary, exec_binary, exec_within,
      exec_hash, exec_codeseparator, exec_checksig, exec_checkmultisig; cbv zeta; sim_auto]|]).
  sim_auto.
Qed.
#[local] Hint Resolve sim_exec_op : hbn.

Lemma sim_eval_step pc : sim R (eval_step check1 flags pc) (eval_step check2 flags pc).
Proof.
  unfold eval_step, size_limit_check. cbv zeta. sim_step; [sim_auto|].
  destruct (GetOp2 pc) as [[[opcode data]|] pc']; [|sim_auto]. sim_auto.
Qed.

Lemma sim_eval_loop fuel pc s1 s2 :
  same_state R s1 s2 ->
  match eval_loop check1 flags fuel pc s1, eval_loop check2 flags fuel pc s2 with
  | Some (b1, s1'), Some (b2, s2') => b1 = b2 /\ same_state R s1' s2'
  | None, None => True
  | _, _ => False
  end.
Proof.
  revert pc s1 s2. induction fuel as [|fuel IH]; intros pc s1 s2 Hs; (destruct pc as [|x pc]; [done|]); [done|].
  cbn [eval_loop]. destruct (sim_eval_step (x :: pc) s1 s2 Hs) as [E Hs'].
  destruct (eval_step check1 flags (x :: pc) s1) as [[p|] s1'],
    (eval_step check2 flags (x :: pc) s2) as [[p'|] s2']; cbn in *; try done.
  injection E as ->. by apply IH.
Qed.

Lemma sim_EvalScript st script w1 w2 :
  R w1 w2 ->
  let '(b1, st1, w1') := EvalScript_in check1 flags st script w1 in
  let '(b2, st2, w2') := EvalScript_in check2 flags st script w2 in
  b1 = b2 /\ st1 = st2 /\ R w1' w2'.
Proof.
  intros Hw. unfold EvalScript_in. destruct (10000 <? _); [done|].
  assert (same_state R (init_state st script w1) (init_state st script w2)) as Hs by done.
  pose proof (sim_eval_loop (length script) script _ _ Hs) as Hl.
  destruct (eval_loop check1 _ _ _ _) as [[b1 s1]|], (eval_loop check2 _ _ _ _) as [[b2 s2]|]; try done.
  destruct Hl as [-> (E1 & E2 & E3 & E4 & E5 & E6)]. by rewrite E3.
Qed.
End operations.
