(* ===== verification/Key.v ===== *)
(** * [key.h], [key.cpp]: public keys and signatures

    OpenSSL's elliptic curves are the class [ECOps]; [ECLaws] states what its
    documentation says of them.  A [CKey] is the OpenSSL key with the two flags of
    the class.  DER private keys ([SetPrivKey], [GetPrivKey]) and compact
    (recoverable) signatures are not modelled. *)

From S2P Require Import Prelude Uint256 BigNum Serialize Hash Script Canonical.

Class ECOps := {
  EC_KEY : Type;
  (** [EC_KEY_new_by_curve_name(NID_secp256k1)] *)
  EC_KEY_new : EC_KEY;
  (** [EC_KEY_set_conv_form(pkey, POINT_CONVERSION_COMPRESSED)] *)
  EC_KEY_set_compressed : EC_KEY -> EC_KEY;
  o2i_ECPublicKey : EC_KEY -> list Z -> option EC_KEY;
  (** the encoded point; empty when the call returns 0 *)
  i2o_ECPublicKey : EC_KEY -> list Z;
  (** 1 for a good signature, 0 for a bad one, -1 for an error *)
  ECDSA_verify : list Z -> list Z -> EC_KEY -> Z;
  (** the pair [(r, s)] *)
  ECDSA_do_sign : list Z -> EC_KEY -> option (Z * Z);
  i2d_ECDSA_SIG : Z * Z -> list Z;
  EC_GROUP_order : Z
}.

(** DER: two integers as minimal big-endian bytes *)
Definition der_sig (r s : Z) : list Z :=
  let R := rev (snum_encode r) in
  let S := rev (snum_encode s) in
  0x30 :: (Z.of_nat (length R) + Z.of_nat (length S) + 4) ::
  0x02 :: Z.of_nat (length R) :: R ++ 0x02 :: Z.of_nat (length S) :: S.

Definition secp256k1_order : Z := 0xFFFFFFFFFFFFFFFFFFFFFFFFFFFFFFFEBAAEDCE6AF48A03BBFD25E8CD0364141.

Class ECLaws (E : ECOps) := {
  (** a parsed point keeps the form of its encoding *)
  i2o_o2i k vch k' :
    o2i_ECPublicKey k vch = Some k' ->
    i2o_ECPublicKey k' = vch /\ (length vch = 33%nat -> i2o_ECPublicKey (EC_KEY_set_compressed k') = vch);
  EC_order : EC_GROUP_order = secp256k1_order;
  ECDSA_do_sign_range h k r s :
    ECDSA_do_sign h k = Some (r, s) -> 0 < r < secp256k1_order /\ 0 < s < secp256k1_order;
  i2d_ECDSA_SIG_der r s :
    0 < r < secp256k1_order -> 0 < s < secp256k1_order -> i2d_ECDSA_SIG (r, s) = der_sig r s
}.

(** ** [CPubKey] *)

Section CPubKey.
Context {H : HashOps}.
Definition CPubKey_GetID (vchPubKey : list Z) : list Z := Hash160 vchPubKey.
Definition CPubKey_GetHash (vchPubKey : list Z) : list Z := Hash vchPubKey.
End CPubKey.

Definition CPubKey_IsValid (vchPubKey : list Z) : bool :=
  (Z.of_nat (length vchPubKey) =? 33) || (Z.of_nat (length vchPubKey) =? 65).
Definition CPubKey_IsCompressed (vchPubKey : list Z) : bool := Z.of_nat (length vchPubKey) =? 33.

(** ** [CKey] *)

Section CKey.
Context {E : ECOps}.

Record CKey := mkKey { pkey : EC_KEY; fSet : bool; fCompressedPubKey : bool }.

Definition CKey_Reset : CKey := mkKey EC_KEY_new false false.
Definition CKey_IsNull (k : CKey) : bool := negb (fSet k).
Definition SetCompressedPubKey (k : CKey) : CKey :=
  mkKey (EC_KEY_set_compressed (pkey k)) (fSet k) true.

(** The key afterwards, and the result *)
Definition SetPubKey (k : CKey) (vchPubKey : list Z) : bool * CKey :=
  match o2i_ECPublicKey (pkey k) vchPubKey with
  | Some p =>
      let k := mkKey p true (fCompressedPubKey k) in
      (true, if Z.of_nat (length vchPubKey) =? 33 then SetCompressedPubKey k else k)
  | None => (false, CKey_Reset)
  end.

(** [None]: it throws [key_error] *)
Definition GetPubKey (k : CKey) : option (list Z) :=
  match i2o_ECPublicKey (pkey k) with
  | [] => None
  | vch => Some vch
  end.

Definition CKey_Verify (k : CKey) (hash vchSig : list Z) : bool :=
  ECDSA_verify (limb_bytes hash) vchSig (pkey k) =? 1.

(** [Sign]: the signature, with [s] brought into the lower half of the order, if
    signing and the final check succeed *)
Definition CKey_Sign (k : CKey) (hash : list Z) : option (list Z) :=
  match ECDSA_do_sign (limb_bytes hash) (pkey k) with
  | None => None
  | Some (sig_r, sig_s) =>
      let halforder := EC_GROUP_order .>> 1 in
      let sig_s := if halforder <? sig_s then EC_GROUP_order - sig_s else sig_s in
      let vchSig := i2d_ECDSA_SIG (sig_r, sig_s) in
      if negb (ECDSA_verify (limb_bytes hash) vchSig (pkey k) =? 1) then None else Some vchSig
  end.
End CKey.
Arguments CKey {E}.

(** ** Private keys *)

(** What [key.cpp] uses of OpenSSL for private keys; [EC_POINT_mul] multiplies the
    generator of the curve. *)
Class ECSecretOps (E : ECOps) := {
  EC_POINT : Type;
  EC_KEY_get0_private_key : EC_KEY -> option Z;
  EC_POINT_mul : Z -> option EC_POINT;
  EC_KEY_set_private_key : EC_KEY -> Z -> EC_KEY;
  EC_KEY_set_public_key : EC_KEY -> EC_POINT -> EC_KEY;
  EC_KEY_check_key : EC_KEY -> bool
}.

Class ECSecretLaws (E : ECOps) (S : ECSecretOps E) := {
  get0_set_private k d : EC_KEY_get0_private_key (EC_KEY_set_private_key k d) = Some d;
  get0_set_public k p : EC_KEY_get0_private_key (EC_KEY_set_public_key k p) = EC_KEY_get0_private_key k;
  get0_set_compressed k : EC_KEY_get0_private_key (EC_KEY_set_compressed k) = EC_KEY_get0_private_key k;
  (** a point has 33 bytes in the compressed form and 65 in the default one, and
      its encoding can be parsed *)
  length_i2o_compressed k :
    i2o_ECPublicKey (EC_KEY_set_compressed k) <> [] ->
    length (i2o_ECPublicKey (EC_KEY_set_compressed k)) = 33%nat;
  length_i2o_new d p :
    EC_POINT_mul d = Some p ->
    length (i2o_ECPublicKey (EC_KEY_set_public_key (EC_KEY_set_private_key EC_KEY_new d) p)) = 65%nat;
  o2i_i2o k k0 : i2o_ECPublicKey k <> [] -> is_Some (o2i_ECPublicKey k0 (i2o_ECPublicKey k));
  (** the range check of [EC_KEY_check_key] *)
  check_key_range k d :
    EC_KEY_check_key k = true -> EC_KEY_get0_private_key k = Some d -> 0 < d < secp256k1_order
}.

Section secrets.
Context {E : ECOps} {S : ECSecretOps E}.

Definition EC_KEY_regenerate_key (eckey : EC_KEY) (priv_key : Z) : option EC_KEY :=
  pub_key ← EC_POINT_mul priv_key;
  Some (EC_KEY_set_public_key (EC_KEY_set_private_key eckey priv_key) pub_key).

(** [operator=] copies the OpenSSL key and [fSet] only *)
Definition CKey_assign (k b : CKey) : CKey := mkKey (pkey b) (fSet b) (fCompressedPubKey k).
(** The copy constructor does not initialise [fCompressedPubKey]: [junk] is what
    the memory holds. *)
Definition CKey_copy (junk : bool) (b : CKey) : CKey := mkKey (pkey b) (fSet b) junk.

(** [None]: it throws [key_error] *)
Definition SetSecret (k : CKey) (vchSecret : list Z) (fCompressed : bool) : option CKey :=
  if negb (Z.of_nat (length vchSecret) =? 32) then None
  else
    p ← EC_KEY_regenerate_key EC_KEY_new (be_val vchSecret);
    let k := mkKey p true (fCompressedPubKey k) in
    Some (if fCompressed || fCompressedPubKey k then SetCompressedPubKey k else k).

(** 32 big-endian bytes and the flag *)
Definition GetSecret (k : CKey) : option (list Z * bool) :=
  d ← EC_KEY_get0_private_key (pkey k);
  Some (rev (le_bytes 32 d), fCompressedPubKey k).

(** [None] where one of the calls throws *)
Definition CKey_IsValid (k : CKey) : option bool :=
  if negb (fSet k) then Some false
  else if negb (EC_KEY_check_key (pkey k)) then Some false
  else
    '(secret, fCompr) ← GetSecret k;
    key2 ← SetSecret CKey_Reset secret fCompr;
    p1 ← GetPubKey k;
    p2 ← GetPubKey key2;
    Some (bool_decide (p1 = p2)).
End secrets.

(** ** An instance that runs: points are numbers, the public key of a secret is the
    secret itself, and a signature is computed from the hash and the point *)

Record toy_eckey := mkToy { toy_priv : option Z; toy_point : option Z; toy_comp : bool }.

Definition toy_rs (h : list Z) (p : Z) : Z * Z := (1 + le_val h mod 1000, 1 + (p mod 2 ^ 256) mod 1000).

Definition toy_encode (k : toy_eckey) : list Z :=
  match toy_point k with
  | None => []
  | Some p => if toy_comp k then 2 :: le_bytes 32 p else 4 :: le_bytes 64 p
  end.

(** A point is parsed when encoding it again gives the same bytes. *)
Definition toy_parse (k : toy_eckey) (vch : list Z) : option toy_eckey :=
  let k' := mkToy (toy_priv k) (Some (le_val (tail vch))) (Z.of_nat (length vch) =? 33) in
  if bool_decide (toy_encode k' = vch) then Some k' else None.

#[export] Instance toy_ec : ECOps := {|
  EC_KEY := toy_eckey;
  EC_KEY_new := mkToy None None false;
  EC_KEY_set_compressed k := mkToy (toy_priv k) (toy_point k) true;
  o2i_ECPublicKey := toy_parse;
  i2o_ECPublicKey := toy_encode;
  ECDSA_verify h sig k :=
    match toy_point k with
    | Some p => if bool_decide (sig = der_sig (toy_rs h p).1 (toy_rs h p).2) then 1 else 0
    | None => -1
    end;
  ECDSA_do_sign h k := toy_rs h <$> toy_priv k;
  i2d_ECDSA_SIG '(r, s) := der_sig r s;
  EC_GROUP_order := secp256k1_order
|}.

#[export] Instance toy_ec_laws : ECLaws toy_ec.
Proof.
  split; cbn.
  - intros k vch k' E. unfold toy_parse in E. case_hyp E; [|done]. bool_prop. simplify_eq.
    split; [done|]. intros Hl. rewrite Hl in Heqb. exact Heqb.
  - done.
  - intros h k r s E. destruct (toy_priv k); [|done]. injection E as <- <-. unfold secp256k1_order.
    pose proof (Z.mod_pos_bound (le_val h) 1000). pose proof (Z.mod_pos_bound (z mod 2 ^ 256) 1000). lia.
  - done.
Qed.

#[export] Instance toy_secrets : ECSecretOps toy_ec := {|
  EC_POINT := Z;
  EC_KEY_get0_private_key := toy_priv;
  EC_POINT_mul d := Some d;
  EC_KEY_set_private_key k d := mkToy (Some d) (toy_point k) (toy_comp k);
  EC_KEY_set_public_key k p := mkToy (toy_priv k) (Some p) (toy_comp k);
  EC_KEY_check_key k :=
    match toy_priv k with Some d => (0 <? d) && (d <? secp256k1_order) | None => true end
|}.

#[export] Instance toy_secret_laws : ECSecretLaws toy_ec toy_secrets.
Proof.
  split; cbn; try done.
  - intros [d [p|] c] Hne; [|done]. cbn. by rewrite length_to_digits.
  - intros [d [p|] c] k0 Hne; [|done]. unfold toy_parse, toy_encode. cbn [toy_point toy_comp toy_priv].
    destruct c; cbn [tail length]; rewrite length_to_digits;
      [change (Z.of_nat 33 =? 33) with true|change (Z.of_nat 65 =? 33) with false]; cbv iota;
      rewrite le_val_roundtrip by (apply length_to_digits || by apply to_digits_digits);
      rewrite bool_decide_eq_true_2 by done; by eexists.
  - intros k d Hc Hd. rewrite Hd in Hc. bool_prop. destruct Hc. bool_prop. lia.
Qed.

(** ** Lemmas *)

Section CKey_facts.
Context {E : ECOps} {EL : ECLaws E}.

Lemma GetPubKey_SetPubKey k vch k' :
  vch <> [] -> SetPubKey k vch = (true, k') -> GetPubKey k' = Some vch.
Proof.
  intros Hne. unfold SetPubKey. destruct (o2i_ECPublicKey (pkey k) vch) as [p|] eqn:Ep; [|done].
  apply i2o_o2i in Ep as [E1 E2]. intros [= <-]. unfold GetPubKey.
  destruct (Z.eqb_spec (Z.of_nat (length vch)) 33).
  - cbn. rewrite E2 by lia. by destruct vch.
  - cbn. rewrite E1. by destruct vch.
Qed.

(** The bytes of a positive number below the order form a DER integer. *)
Lemma der_int_snum z :
  0 < z -> der_int (rev (snum_encode z)).
Proof.
  intros Hz. pose proof (snum_len_pos z ltac:(lia)) as Hn. pose proof (snum_len_bounds z ltac:(lia)) as Hb.
  set (n := snum_len z) in *. rewrite Z.abs_eq in Hb by lia.
  assert (Hbyte : forall i, (i < Z.to_nat n)%nat ->
    nthZ (rev (snum_encode z)) i = (z / 256 ^ (n - 1 - Z.of_nat i)) mod 256).
  { intros i Hi. unfold nthZ. rewrite rev_alt. change (rev_append ?l []) with (reverse l).
    unfold snum_encode. fold n. destruct (Z.ltb_spec z 0); [lia|]. rewrite Z.add_0_r, Z.abs_eq by lia.
    rewrite reverse_lookup by (rewrite length_to_digits; lia). rewrite length_to_digits.
    change (default 0 (le_bytes ?a ?b !! ?j)) with (nthZ (le_bytes a b) j).
    rewrite le_bytes_nthZ by lia. do 3 f_equal. lia. }
  assert (Hlen : length (rev (snum_encode z)) = Z.to_nat n).
  { rewrite length_rev. pose proof (length_snum_encode z). fold n in H. lia. }
  split_and!.
  - intros E0. rewrite E0 in Hlen. simpl in Hlen. lia.
  - rewrite Hbyte by lia. replace (n - 1 - Z.of_nat 0) with (n - 1) by lia.
    assert (0 < 256 ^ (n - 1)) by (apply Z.pow_pos_nonneg; lia).
    assert (z / 256 ^ (n - 1) < 128).
    { apply Z.div_lt_upper_bound; [lia|]. rewrite pow256 by lia. change 128 with (2 ^ 7).
      rewrite <- Z.pow_add_r by lia. replace (8 * (n - 1) + 7) with (8 * n - 1) by lia. lia. }
    pose proof (Z.div_pos z (256 ^ (n - 1))). rewrite Z.mod_small by lia. lia.
  - rewrite Hlen. intros Hn1. rewrite !Hbyte by lia. replace (n - 1 - Z.of_nat 0) with (n - 1) by lia.
    replace (n - 1 - Z.of_nat 1) with (n - 2) by lia. intros Hz0.
    assert (0 < 256 ^ (n - 2)) by (apply Z.pow_pos_nonneg; lia).
    assert (256 ^ (n - 1) = 256 * 256 ^ (n - 2)) as Ep.
    { replace (n - 1) with (Z.succ (n - 2)) by lia. apply Z.pow_succ_r. lia. }
    assert (z / 256 ^ (n - 1) < 128).
    { apply Z.div_lt_upper_bound; [lia|]. rewrite pow256 by lia. change 128 with (2 ^ 7).
      rewrite <- Z.pow_add_r by lia. replace (8 * (n - 1) + 7) with (8 * n - 1) by lia. lia. }
    pose proof (Z.div_pos z (256 ^ (n - 1)) ltac:(lia) ltac:(lia)). rewrite Z.mod_small in Hz0 by lia.
    assert (z < 256 ^ (n - 1)) by (apply Z.div_small_iff in Hz0; lia).
    assert (128 <= z / 256 ^ (n - 2)).
    { apply Z.div_le_lower_bound; [lia|]. rewrite pow256 by lia. change 128 with (2 ^ 7).
      rewrite <- Z.pow_add_r by lia. replace (8 * (n - 2) + 7) with (8 * (n - 1) - 1) by lia. lia. }
    assert (z / 256 ^ (n - 2) < 256) by (apply Z.div_lt_upper_bound; lia).
    rewrite Z.mod_small by lia. lia.
Qed.

Lemma be_val_snum z : 0 < z -> be_val (rev (snum_encode z)) = z.
Proof.
  intros Hz. unfold be_val. rewrite rev_involutive, le_val_snum_encode by lia.
  unfold snum_raw. destruct (Z.ltb_spec z 0); lia.
Qed.

Lemma length_snum_order z : 0 < z < secp256k1_order -> (length (snum_encode z) <= 33)%nat.
Proof.
  intros Hz. enough (snum_len z <= 33) by (pose proof (length_snum_encode z); lia).
  destruct (snum_len_bounds z ltac:(lia)) as [Hlo _].
  assert (2 ^ (8 * (snum_len z - 1) - 1) < 2 ^ 256) as Hp by (unfold secp256k1_order in Hz; lia).
  apply Z.pow_lt_mono_r_iff in Hp; lia.
Qed.

(** The DER form of two numbers in range, with a hash type appended, is canonical
    for a low [s]. *)
Lemma der_sig_canonical r s t :
  0 < r < secp256k1_order -> 0 < s <= half_order -> is_byte t -> 1 <= t mod 128 <= 3 ->
  IsCanonicalSignature (der_sig r s ++ [t]) STRICT_FLAGS = true.
Proof.
  intros Hr Hs Ht Htm. unfold half_order in Hs. unfold der_sig. cbn [app].
  rewrite <- app_assoc. cbn [app].
  assert (Hb : forall z, bytes_ok (rev (snum_encode z))) by (intros; apply rev_bytes_ok, snum_encode_ok).
  apply canonical_parts; [done|done|apply Hb..|].
  pose proof (length_snum_order r Hr). pose proof (length_snum_order s ltac:(unfold secp256k1_order; lia)).
  assert (Hpos : forall z, 0 < z -> (1 <= length (snum_encode z))%nat).
  { intros z Hz. pose proof (snum_len_pos z ltac:(lia)). pose proof (length_snum_encode z). lia. }
  pose proof (Hpos r ltac:(lia)). pose proof (Hpos s ltac:(lia)).
  split_and!; try done; rewrite ?length_rev; try lia; try (apply der_int_snum; lia).
  intros _. rewrite CheckSignatureElement_half by apply Hb. rewrite be_val_snum by lia.
  unfold half_order. apply andb_true_iff. rewrite Z.ltb_lt, Z.leb_le. lia.
Qed.

Lemma CKey_Sign_der k hash vchSig :
  CKey_Sign k hash = Some vchSig ->
  exists r s, 0 < r < secp256k1_order /\ 0 < s <= half_order /\ vchSig = der_sig r s /\
    CKey_Verify k hash vchSig = true.
Proof.
  unfold CKey_Sign, CKey_Verify. intros Hs.
  destruct (ECDSA_do_sign _ _) as [[r s]|] eqn:Es; [|done]. apply ECDSA_do_sign_range in Es as [Hr Hrs].
  rewrite EC_order in Hs. set (s' := if _ <? _ then _ else _) in Hs.
  assert (0 < s' <= half_order) as Hlow.
  { subst s'. change (secp256k1_order .>> 1) with half_order.
    unfold half_order, secp256k1_order in *. case_goal; bool_prop; lia. }
  assert (0 < s' < secp256k1_order) by (unfold half_order, secp256k1_order in *; lia).
  destruct (ECDSA_verify _ _ _ =? 1) eqn:Ev; [|done]. cbn [negb] in Hs. injection Hs as <-.
  exists r, s'. split_and!; try done; try lia. by apply i2d_ECDSA_SIG_der.
Qed.

Lemma CKey_Sign_spec k hash vchSig t :
  CKey_Sign k hash = Some vchSig -> is_byte t -> 1 <= t mod 128 <= 3 ->
  IsCanonicalSignature (vchSig ++ [t]) STRICT_FLAGS = true /\ CKey_Verify k hash vchSig = true.
Proof.
  intros Hs Ht Htm. destruct (CKey_Sign_der _ _ _ Hs) as (r & s & Hr & Hl & -> & Hv).
  split; [by apply der_sig_canonical|done].
Qed.

Lemma der_sig_bytes r s :
  0 < r < secp256k1_order -> 0 < s < secp256k1_order ->
  bytes_ok (der_sig r s) /\ (length (der_sig r s) <= 72)%nat.
Proof.
  intros Hr Hs. pose proof (length_snum_order r Hr). pose proof (length_snum_order s Hs). unfold der_sig.
  split.
  - repeat (apply Forall_cons_2; [unfold is_byte; rewrite ?length_rev; lia|]). apply Forall_app.
    split; [apply rev_bytes_ok, snum_encode_ok|].
    repeat (apply Forall_cons_2; [unfold is_byte; rewrite ?length_rev; lia|]). apply rev_bytes_ok, snum_encode_ok.
  - cbn [length]. rewrite length_app. cbn [length]. rewrite !length_rev. lia.
Qed.
End CKey_facts.

(** ** Claims *)

(** every signature [CKey::Sign] returns is in the canonical form strict
    verification demands, low [S] included, once a hash type is appended; and it
    verifies with the key that made it. *)
Theorem sign_canonical {E : ECOps} {EL : ECLaws E} (k : CKey) (hash vchSig : list Z) (t : Z) :
  CKey_Sign k hash = Some vchSig -> is_byte t -> 1 <= t mod 128 <= 3 ->
  IsCanonicalSignature (vchSig ++ [t]) STRICT_FLAGS = true /\ CKey_Verify k hash vchSig = true.
Proof.
  intros Hs Ht Htm. by apply CKey_Sign_spec.
Qed.

Definition toy_pub : list Z := 2 :: replicate 32 7.
Definition toy_secret : Z := le_val (replicate 32 7).
Definition toy_key : CKey := mkKey (E := toy_ec) (mkToy (Some toy_secret) (Some toy_secret) true) true true.

Lemma sign_canonical_witness :
  exists sig, CKey_Sign toy_key (assign64 WIDTH256 5) = Some sig /\
    IsCanonicalSignature (sig ++ [SIGHASH_ALL]) STRICT_FLAGS = true.
Proof.
  destruct (CKey_Sign toy_key (assign64 WIDTH256 5)) as [sig|] eqn:E; [|vm_compute in E; discriminate].
  exists sig. split; [reflexivity|].
  apply (sign_canonical toy_key (assign64 WIDTH256 5) sig SIGHASH_ALL E);
    vm_compute; split; (reflexivity || discriminate).
Defined.
