(* ===== verification/SigCheck.v ===== *)
(** * Signature hashes, the signature cache and [CheckSig] of [script.cpp]

    libsecp256k1 is the class [SecpOps].  The cache is the world of the
    interpreter: the ordered set as a sorted list, and the source of random
    hashes as a sequence with a position.  The locks are not modelled: one check
    runs at a time. *)

From S2P Require Import Prelude Uint256 BigNum Serialize Hash Script Canonical Transaction.
From S2P Require Import Interp InterpFacts InterpSem InterpSim Key.

(** ** [SignatureHash] *)

Definition blank_sig (i : CTxIn) : CTxIn := mkTxIn (prevout i) [] (nSequence i).
Definition with_sig (code : list Z) (i : CTxIn) : CTxIn := mkTxIn (prevout i) code (nSequence i).
Definition zero_seq (i : CTxIn) : CTxIn := mkTxIn (prevout i) (scriptSig i) 0.

(** [if (i != nIn) txTmp.vin[i].nSequence = 0] for every input *)
Definition zero_others (nIn : nat) (ins : list CTxIn) : list CTxIn :=
  imap (fun i x => if (i =? nIn)%nat then x else zero_seq x) ins.

Definition base_type (nHashType : Z) : Z := nHashType .& 0x1f.
Definition anyone_can_pay (nHashType : Z) : bool := negb (nHashType .& SIGHASH_ANYONECANPAY =? 0).

(** The copy of the transaction that is hashed; [None] where the source returns 1 *)
Definition sighash_tx (scriptCode : list Z) (txTo : CTransaction) (nIn : nat) (nHashType : Z) :
    option CTransaction :=
  if (length (vin txTo) <=? nIn)%nat then None
  else
    let scriptCode := (FindAndDelete scriptCode (push_op [] OP_CODESEPARATOR)).1 in
    let ins := alter (with_sig scriptCode) nIn (blank_sig <$> vin txTo) in
    '(ins, outs) ←
      (if base_type nHashType =? SIGHASH_NONE then Some (zero_others nIn ins, [])
       else if base_type nHashType =? SIGHASH_SINGLE then
         let nOut := nIn in
         if (length (vout txTo) <=? nOut)%nat then None
         else Some (zero_others nIn ins,
           imap (fun i o => if (i <? nOut)%nat then CTxOut_SetNull else o) (take (nOut + 1) (vout txTo)))
       else Some (ins, vout txTo));
    let ins :=
      if anyone_can_pay nHashType then
        match ins !! nIn with Some x => [x] | None => [] end
      else ins in
    Some (mkTx (nVersion txTo) (nTime txTo) ins outs (nLockTime txTo)).

(** [ss << txTmp << nHashType] *)
Definition sighash_bytes (txTmp : CTransaction) (nHashType : Z) : list Z :=
  Serialize tx_codec txTmp ++ Serialize (sint_codec 4) nHashType.

Definition SignatureHash {H : HashOps} (scriptCode : list Z) (txTo : CTransaction) (nIn : nat)
    (nHashType : Z) : list Z :=
  match sighash_tx scriptCode txTo nIn nHashType with
  | None => assign64 WIDTH256 1
  | Some txTmp => Hash (sighash_bytes txTmp nHashType)
  end.

(** ** [CSignatureCache] *)

Definition sigdata : Type := list Z * list Z * list Z.

(** [std::vector]'s lexicographic order *)
Fixpoint vec_lt (a b : list Z) : bool :=
  match a, b with
  | _, [] => false
  | [], _ => true
  | x :: a, y :: b => if x <? y then true else if y <? x then false else vec_lt a b
  end.

(** [std::tuple]'s: the first component that differs decides *)
Definition sigdata_lt (a b : sigdata) : bool :=
  let '(h1, s1, k1) := a in
  let '(h2, s2, k2) := b in
  if op_lt h1 h2 then true else if op_lt h2 h1 then false
  else if vec_lt s1 s2 then true else if vec_lt s2 s1 then false
  else vec_lt k1 k2.

Record CSignatureCache := mkCache {
  setValid : list sigdata;
  rand_hash : nat -> list Z;
  rand_pos : nat
}.

Definition cache_find (k : sigdata) (l : list sigdata) : bool :=
  existsb (fun x => negb (sigdata_lt x k) && negb (sigdata_lt k x)) l.

Definition cache_Get (c : CSignatureCache) (hash vchSig pubKey : list Z) : bool :=
  cache_find (hash, vchSig, pubKey) (setValid c).

(** [std::set::insert] *)
Fixpoint set_insert (k : sigdata) (l : list sigdata) : list sigdata :=
  match l with
  | [] => [k]
  | x :: l' =>
      if sigdata_lt x k then x :: set_insert k l'
      else if sigdata_lt k x then k :: l
      else l
  end.

(** Erase the first element not below the key, or else the first one *)
Fixpoint erase_lower_bound (k : sigdata) (l : list sigdata) : option (list sigdata) :=
  match l with
  | [] => None
  | x :: l' =>
      if sigdata_lt x k then (fun r => x :: r) <$> erase_lower_bound k l' else Some l'
  end.

Definition evict (k : sigdata) (l : list sigdata) : list sigdata :=
  match erase_lower_bound k l with
  | Some l' => l'
  | None => tail l
  end.

(** The eviction loop; each round removes an entry, so their number is fuel enough *)
Fixpoint evict_loop (fuel : nat) (nMax : Z) (c : CSignatureCache) : CSignatureCache :=
  match fuel with
  | O => c
  | S fuel' =>
      if nMax <? Z.of_nat (length (setValid c)) then
        evict_loop fuel' nMax
          (mkCache (evict (rand_hash c (rand_pos c), [], []) (setValid c)) (rand_hash c) (S (rand_pos c)))
      else c
  end.

(** [Set], with the value of [-maxsigcachesize] as argument *)
Definition cache_Set (nMaxCacheSize : Z) (hash vchSig pubKey : list Z) (c : CSignatureCache) :
    CSignatureCache :=
  if nMaxCacheSize <=? 0 then c
  else
    let c := evict_loop (length (setValid c)) nMaxCacheSize c in
    mkCache (set_insert (hash, vchSig, pubKey) (setValid c)) (rand_hash c) (rand_pos c).

(** ** [VerifyECDSASecp] and [CheckSig] *)

Class SecpOps := {
  secp_pubkey : Type;
  secp_signature : Type;
  (** whether the context could be created *)
  secp_context : bool;
  secp_pubkey_parse : list Z -> option secp_pubkey;
  secp_parse_der : list Z -> option secp_signature;
  secp_normalize : secp_signature -> secp_signature;
  secp_verify : secp_signature -> list Z -> secp_pubkey -> bool
}.

Section CheckSig.
Context {H : HashOps} {E : ECOps} {P : SecpOps}.

Definition VerifyECDSASecp (vchPubKey hash vchSig : list Z) : Z :=
  if negb secp_context || bool_decide (vchPubKey = []) || bool_decide (vchSig = []) then -1
  else
    match secp_pubkey_parse vchPubKey with
    | None => -1
    | Some pubkey =>
        match secp_parse_der vchSig with
        | None => -1
        | Some sig => if secp_verify (secp_normalize sig) (limb_bytes hash) pubkey then 1 else 0
        end
    end.

(** The verdict of the two libraries on a signature without its hash type *)
Definition verify_sig (key : CKey) (vchPubKey sighash vchSig : list Z) : bool :=
  let secpResult := VerifyECDSASecp vchPubKey sighash vchSig in
  if 0 <=? secpResult then secpResult =? 1 else CKey_Verify key sighash vchSig.

(** [CheckSig]; [cached] is the cache, [maxsize] the value of [-maxsigcachesize];
    [None] where [GetPubKey] throws *)
Definition CheckSig (maxsize : Z) (txTo : CTransaction) (nIn : nat) (nHashType flags : Z)
    (vchSig vchPubKey scriptCode : list Z) (cached : CSignatureCache) : option bool * CSignatureCache :=
  match SetPubKey CKey_Reset vchPubKey with
  | (false, _) => (Some false, cached)
  | (true, key) =>
      match GetPubKey key with
      | None => (None, cached)
      | Some pubkey =>
          if negb (CPubKey_IsValid pubkey) then (Some false, cached)
          else
            match last vchSig with
            | None => (Some false, cached)
            | Some back =>
                if negb (nHashType =? 0) && negb (nHashType =? back) then (Some false, cached)
                else
                  let nHashType := if nHashType =? 0 then back else nHashType in
                  let vchSig := removelast vchSig in
                  let sighash := SignatureHash scriptCode txTo nIn nHashType in
                  if cache_Get cached sighash vchSig pubkey then (Some true, cached)
                  else if negb (verify_sig key vchPubKey sighash vchSig) then (Some false, cached)
                  else if negb (has_flag flags SCRIPT_VERIFY_NOCACHE)
                  then (Some true, cache_Set maxsize sighash vchSig pubkey cached)
                  else (Some true, cached)
            end
      end
  end.

(** [EvalScript] with the program's signature checker *)
Definition EvalScript {B : BNOps} (maxsize : Z) (st : list valtype) (script : list Z)
    (txTo : CTransaction) (nIn : nat) (flags nHashType : Z) (c : CSignatureCache) :
    bool * list valtype * CSignatureCache :=
  EvalScript_in (CheckSig maxsize txTo nIn nHashType flags) flags st script c.
End CheckSig.

(** ** Lemmas: what a signature commits to *)

Definition all_outputs (nHashType : Z) : bool :=
  negb (base_type nHashType =? SIGHASH_NONE) && negb (base_type nHashType =? SIGHASH_SINGLE).

(** An input as it is hashed *)
Definition hashed_in (code : list Z) (nIn : nat) (keep_seq : bool) (j : nat) (x : CTxIn) : CTxIn :=
  mkTxIn (prevout x) (if (j =? nIn)%nat then code else [])
    (if keep_seq || (j =? nIn)%nat then nSequence x else 0).

Definition hashed_out (nIn : nat) (j : nat) (o : CTxOut) : CTxOut :=
  if (j <? nIn)%nat then CTxOut_SetNull else o.

Lemma signed_ins code nIn ins :
  alter (with_sig code) nIn (blank_sig <$> ins) = imap (hashed_in code nIn true) ins.
Proof.
  apply list_eq. intros j. rewrite list_lookup_imap. destruct (decide (j = nIn)) as [->|Hne].
  - rewrite list_lookup_alter_eq, list_lookup_fmap. destruct (ins !! nIn); [|done]. cbn.
    unfold with_sig, hashed_in. by rewrite Nat.eqb_refl.
  - rewrite list_lookup_alter_ne, list_lookup_fmap by done. destruct (ins !! j); [|done]. cbn.
    unfold blank_sig, hashed_in. by destruct (Nat.eqb_spec j nIn).
Qed.

Lemma zeroed_ins code nIn ins :
  zero_others nIn (alter (with_sig code) nIn (blank_sig <$> ins)) = imap (hashed_in code nIn false) ins.
Proof.
  rewrite signed_ins. unfold zero_others. apply list_eq. intros j. rewrite !list_lookup_imap.
  destruct (ins !! j); [|done]. cbn. unfold hashed_in. by destruct (Nat.eqb_spec j nIn).
Qed.

(** The copy that is hashed, in one expression *)
Lemma sighash_tx_eq scriptCode tx nIn ht :
  let code := (FindAndDelete scriptCode (push_op [] OP_CODESEPARATOR)).1 in
  sighash_tx scriptCode tx nIn ht =
  if (length (vin tx) <=? nIn)%nat then None
  else if (base_type ht =? SIGHASH_SINGLE) && (length (vout tx) <=? nIn)%nat then None
  else
    let ins := imap (hashed_in code nIn (all_outputs ht)) (vin tx) in
    Some (mkTx (nVersion tx) (nTime tx)
      (if anyone_can_pay ht then option_list (ins !! nIn) else ins)
      (if base_type ht =? SIGHASH_NONE then []
       else if base_type ht =? SIGHASH_SINGLE then imap (hashed_out nIn) (take (nIn + 1) (vout tx))
       else vout tx) (nLockTime tx)).
Proof.
  intros code. unfold sighash_tx, all_outputs. fold code. destruct (length (vin tx) <=? nIn)%nat; [done|].
  assert (Hl : forall ins : list CTxIn, match ins !! nIn with Some x => [x] | None => [] end = option_list (ins !! nIn))
    by (intros; by destruct (_ !! _)).
  rewrite zeroed_ins, signed_ins. destruct (Z.eqb_spec (base_type ht) SIGHASH_NONE) as [->|]; cbn [negb andb].
  - cbn. by rewrite Hl.
  - destruct (base_type ht =? SIGHASH_SINGLE); cbn [negb andb]; [destruct (length (vout tx) <=? nIn)%nat|].
    + done.
    + cbn. by rewrite Hl.
    + cbn. by rewrite Hl.
Qed.

(** [tx] and [tx'] agree on everything a signature of type [ht] for input [nIn]
    signs. *)
Definition same_signed (nIn : nat) (ht : Z) (tx tx' : CTransaction) : Prop :=
  nVersion tx = nVersion tx' /\ nTime tx = nTime tx' /\ nLockTime tx = nLockTime tx' /\
  (forall j, j = nIn \/ anyone_can_pay ht = false ->
     prevout <$> vin tx !! j = prevout <$> vin tx' !! j) /\
  (forall j, j = nIn \/ anyone_can_pay ht = false /\ all_outputs ht = true ->
     nSequence <$> vin tx !! j = nSequence <$> vin tx' !! j) /\
  (forall j, all_outputs ht = true \/ base_type ht = SIGHASH_SINGLE /\ j = nIn ->
     vout tx !! j = vout tx' !! j).

Lemma hashed_in_eq code nIn keep j (o o' : option CTxIn) :
  hashed_in code nIn keep j <$> o = hashed_in code nIn keep j <$> o' <->
  prevout <$> o = prevout <$> o' /\ (j = nIn \/ keep = true -> nSequence <$> o = nSequence <$> o').
Proof.
  destruct o as [x|], o' as [x'|]; cbn; [|by split; [|intros [? _]]..|by split].
  unfold hashed_in. destruct (Nat.eqb_spec j nIn), keep; cbn [orb]; split.
  all: try (intros [= E1 E2]; split; [congruence|intros; congruence]).
  all: try (intros [[= E1] E2]; specialize (E2 ltac:(auto)); congruence).
  - intros [= E1]. split; [congruence|]. intros [?|?]; done.
  - intros [[= E1] E2]. congruence.
Qed.

Lemma ins_eq code nIn keep (ins ins' : list CTxIn) :
  imap (hashed_in code nIn keep) ins = imap (hashed_in code nIn keep) ins' <->
  forall j, prevout <$> ins !! j = prevout <$> ins' !! j /\
    (j = nIn \/ keep = true -> nSequence <$> ins !! j = nSequence <$> ins' !! j).
Proof.
  split.
  - intros E j. apply (hashed_in_eq code). rewrite <- !list_lookup_imap. by rewrite E.
  - intros E. apply list_eq. intros j. rewrite !list_lookup_imap. by apply hashed_in_eq, E.
Qed.

Lemma single_out_eq nIn (outs outs' : list CTxOut) :
  (nIn < length outs)%nat -> (nIn < length outs')%nat ->
  imap (hashed_out nIn) (take (nIn + 1) outs) = imap (hashed_out nIn) (take (nIn + 1) outs') <->
  outs !! nIn = outs' !! nIn.
Proof.
  intros Hl Hl'. split.
  - intros E. apply (f_equal (.!! nIn)) in E. rewrite !list_lookup_imap, !lookup_take_lt in E by lia.
    unfold hashed_out in E. rewrite Nat.ltb_irrefl in E.
    destruct (outs !! nIn), (outs' !! nIn); simplify_eq/=; congruence.
  - intros E. apply list_eq. intros j. rewrite !list_lookup_imap.
    destruct (decide (j < nIn + 1)%nat) as [Hj|Hj].
    + rewrite !lookup_take_lt by lia. destruct (decide (j = nIn)) as [->|]; [by rewrite E|].
      destruct (lookup_lt_is_Some_2 outs j) as [o ->]; [lia|].
      destruct (lookup_lt_is_Some_2 outs' j) as [o' ->]; [lia|]. cbn. unfold hashed_out.
      by destruct (Nat.ltb_spec j nIn); [|lia].
    + rewrite !lookup_take_ge by lia. done.
Qed.

Lemma vout_eq nIn ht (tx tx' : CTransaction) :
  (base_type ht = SIGHASH_SINGLE -> (nIn < length (vout tx))%nat /\ (nIn < length (vout tx'))%nat) ->
  (if base_type ht =? SIGHASH_NONE then []
   else if base_type ht =? SIGHASH_SINGLE then imap (hashed_out nIn) (take (nIn + 1) (vout tx)) else vout tx) =
  (if base_type ht =? SIGHASH_NONE then []
   else if base_type ht =? SIGHASH_SINGLE then imap (hashed_out nIn) (take (nIn + 1) (vout tx')) else vout tx') <->
  (forall j, all_outputs ht = true \/ base_type ht = SIGHASH_SINGLE /\ j = nIn -> vout tx !! j = vout tx' !! j).
Proof.
  intros Hs. unfold all_outputs. destruct (Z.eqb_spec (base_type ht) SIGHASH_NONE) as [E|E]; cbn [negb andb].
  { split; [|done]. intros _ j [?|[E' _]]; [done|]. rewrite E in E'. done. }
  destruct (Z.eqb_spec (base_type ht) SIGHASH_SINGLE) as [E'|E']; cbn [negb].
  - destruct (Hs E') as [H1 H2]. rewrite single_out_eq by done. split; [|by auto].
    intros Ho j [?|[_ ->]]; done.
  - split; [by intros ->|]. intros Ho. apply list_eq. intros j. apply Ho. by left.
Qed.

Lemma vin_eq code nIn ht (tx tx' : CTransaction) :
  (nIn < length (vin tx))%nat -> (nIn < length (vin tx'))%nat ->
  (let ins := imap (hashed_in code nIn (all_outputs ht)) (vin tx) in
   if anyone_can_pay ht then option_list (ins !! nIn) else ins) =
  (let ins := imap (hashed_in code nIn (all_outputs ht)) (vin tx') in
   if anyone_can_pay ht then option_list (ins !! nIn) else ins) <->
  (forall j, j = nIn \/ anyone_can_pay ht = false -> prevout <$> vin tx !! j = prevout <$> vin tx' !! j) /\
  (forall j, j = nIn \/ anyone_can_pay ht = false /\ all_outputs ht = true ->
     nSequence <$> vin tx !! j = nSequence <$> vin tx' !! j).
Proof.
  intros Hl Hl'. cbv zeta. destruct (anyone_can_pay ht) eqn:Ea.
  - rewrite !list_lookup_imap. set (f := hashed_in code nIn _ nIn).
    assert (option_list (f <$> vin tx !! nIn) = option_list (f <$> vin tx' !! nIn) <->
            f <$> vin tx !! nIn = f <$> vin tx' !! nIn) as ->.
    { destruct (f <$> vin tx !! nIn), (f <$> vin tx' !! nIn); cbn; split; congruence. }
    unfold f. rewrite hashed_in_eq. split.
    + intros [E1 E2]. split; [intros j [->|?]; done|]. intros j [->|[? _]]; [by apply E2; left|done].
    + intros [E1 E2]. split; [apply E1; by left|]. intros _. apply E2. by left.
  - rewrite ins_eq. split.
    + intros E. split; [intros j _; apply E|]. intros j [->|[_ Hk]]; apply E; auto.
    + intros [E1 E2] j. split; [apply E1; by right|]. intros [->|Hk]; apply E2; auto.
Qed.

Lemma sighash_tx_same code tx tx' nIn ht t t' :
  sighash_tx code tx nIn ht = Some t -> sighash_tx code tx' nIn ht = Some t' ->
  t = t' <-> same_signed nIn ht tx tx'.
Proof.
  rewrite !sighash_tx_eq. cbv zeta.
  destruct (Nat.leb_spec (length (vin tx)) nIn) as [|Hl]; [done|].
  destruct (Nat.leb_spec (length (vin tx')) nIn) as [|Hl']; [done|].
  destruct (_ && (length (vout tx) <=? nIn)%nat) eqn:H1; [done|].
  destruct (_ && (length (vout tx') <=? nIn)%nat) eqn:H2; [done|].
  intros [= <-] [= <-].
  assert (Hs : base_type ht = SIGHASH_SINGLE -> (nIn < length (vout tx))%nat /\ (nIn < length (vout tx'))%nat).
  { intros Hb. rewrite Hb, Z.eqb_refl in H1, H2. cbn [andb] in *.
    apply Nat.leb_gt in H1, H2. done. }
  pose proof (vout_eq nIn ht tx tx' Hs) as Eo.
  pose proof (vin_eq (FindAndDelete code (push_op [] OP_CODESEPARATOR)).1 nIn ht tx tx' Hl Hl') as Ei.
  cbv zeta in Ei. unfold same_signed. rewrite <- Eo.
  set (i1 := if anyone_can_pay ht then _ else _) in *. set (i2 := if anyone_can_pay ht then _ else _) in *.
  set (o1 := if _ =? SIGHASH_NONE then _ else _). set (o2 := if _ =? SIGHASH_NONE then _ else _).
  split.
  - intros [= E1 E2 E3 E4 E5]. split_and!; try done; by apply Ei.
  - intros (-> & -> & -> & P1 & P2 & ->). f_equal. by apply Ei.
Qed.

Lemma sighash_bytes_inj t t' ht :
  tx_ok t -> tx_ok t' -> sighash_bytes t ht = sighash_bytes t' ht -> t = t'.
Proof.
  intros Ht Ht' E. unfold sighash_bytes in E. apply (f_equal (Unserialize tx_codec)) in E.
  rewrite !codec_roundtrip in E by done. by simplify_eq.
Qed.

Lemma same_signed_None nIn ht tx tx' code :
  same_signed nIn ht tx tx' ->
  sighash_tx code tx nIn ht = None -> sighash_tx code tx' nIn ht = None.
Proof.
  intros (_ & _ & _ & Hp & _ & Ho) E. destruct (sighash_tx code tx' nIn ht) eqn:E'; [|done]. exfalso.
  rewrite sighash_tx_eq in E, E'. cbv zeta in E, E'.
  assert (length (vin tx) <= nIn <-> length (vin tx') <= nIn)%nat as Hv.
  { rewrite <- !lookup_ge_None. specialize (Hp nIn (or_introl eq_refl)).
    destruct (vin tx !! nIn), (vin tx' !! nIn); done. }
  assert (base_type ht = SIGHASH_SINGLE -> length (vout tx) <= nIn <-> length (vout tx') <= nIn)%nat as Hv'.
  { intros Hb. rewrite <- !lookup_ge_None. by rewrite (Ho nIn (or_intror (conj Hb eq_refl))). }
  destruct (Nat.leb_spec (length (vin tx)) nIn), (Nat.leb_spec (length (vin tx')) nIn); try done; try lia.
  destruct (Z.eqb_spec (base_type ht) SIGHASH_SINGLE) as [Hb|Hb]; cbn [andb] in *; [|done].
  specialize (Hv' Hb).
  destruct (Nat.leb_spec (length (vout tx)) nIn), (Nat.leb_spec (length (vout tx')) nIn); try done; lia.
Qed.

(** ** Lemmas: the cache *)

Lemma op_lt_val a b : uint_ok WIDTH256 a -> uint_ok WIDTH256 b -> op_lt a b = (uval a <? uval b).
Proof.
  intros [Hla Ha] [Hlb Hb]. unfold op_lt. rewrite cmp_scan_spec by (done || congruence).
  destruct (uval a <? uval b); [done|]. by destruct (uval b <? uval a).
Qed.

Lemma vec_lt_eq a b : vec_lt a b = false -> vec_lt b a = false -> a = b.
Proof.
  revert b. induction a as [|x a IH]; intros [|y b] H1 H2; try done. cbn in H1, H2.
  destruct (Z.ltb_spec x y), (Z.ltb_spec y x); try done; try lia.
  f_equal; [lia|by apply IH].
Qed.

(** Two keys neither of which is below the other are equal. *)
Lemma sigdata_lt_eq a b :
  uint_ok WIDTH256 a.1.1 -> uint_ok WIDTH256 b.1.1 ->
  sigdata_lt a b = false -> sigdata_lt b a = false -> a = b.
Proof.
  destruct a as [[h1 s1] k1], b as [[h2 s2] k2]. cbn [fst]. intros Ha Hb.
  unfold sigdata_lt. rewrite !op_lt_val by done.
  destruct (Z.ltb_spec (uval h1) (uval h2)), (Z.ltb_spec (uval h2) (uval h1)); try done; try lia.
  assert (h1 = h2) as ->.
  { destruct Ha as [Hla Ha], Hb as [Hlb Hb]. apply (digits_val_inj (2 ^ 32)); [lia|done|done|congruence|].
    change (uval h1 = uval h2). lia. }
  destruct (vec_lt s1 s2) eqn:E1, (vec_lt s2 s1) eqn:E2; try done.
  intros E3 E4. by rewrite (vec_lt_eq s1 s2 E1 E2), (vec_lt_eq k1 k2 E3 E4).
Qed.

Lemma vec_lt_irrefl a : vec_lt a a = false.
Proof. induction a as [|x a IH]; [done|]. cbn. by rewrite Z.ltb_irrefl. Qed.

Lemma set_insert_elem k l x : x ∈ set_insert k l -> x = k \/ x ∈ l.
Proof.
  induction l as [|y l IH]; cbn [set_insert]; [set_solver|].
  destruct (sigdata_lt y k); [|destruct (sigdata_lt k y)]; set_solver.
Qed.

Lemma length_set_insert k l : (length (set_insert k l) <= S (length l))%nat.
Proof.
  induction l as [|y l IH]; cbn [set_insert]; [done|].
  destruct (sigdata_lt y k); [|destruct (sigdata_lt k y)]; cbn [length]; lia.
Qed.

Lemma erase_lower_bound_spec k l :
  match erase_lower_bound k l with
  | Some l' => S (length l') = length l /\ forall x, x ∈ l' -> x ∈ l
  | None => True
  end.
Proof.
  induction l as [|y l IH]; cbn [erase_lower_bound]; [done|]. destruct (sigdata_lt y k).
  - destruct (erase_lower_bound k l) as [l'|]; [|done]. destruct IH as [Hl Hs]. cbn. split; [lia|set_solver].
  - split; [done|set_solver].
Qed.

Lemma evict_spec k l :
  l <> [] -> S (length (evict k l)) = length l /\ forall x, x ∈ evict k l -> x ∈ l.
Proof.
  intros Hne. unfold evict. pose proof (erase_lower_bound_spec k l) as Hs.
  destruct (erase_lower_bound k l) as [l'|]; [done|]. destruct l; [done|]. cbn. split; [done|set_solver].
Qed.

Lemma evict_loop_spec fuel nMax c :
  0 <= nMax -> (length (setValid c) <= fuel)%nat ->
  Z.of_nat (length (setValid (evict_loop fuel nMax c))) <= nMax /\
  forall x, x ∈ setValid (evict_loop fuel nMax c) -> x ∈ setValid c.
Proof.
  intros Hn. revert c. induction fuel as [|fuel IH]; intros c Hf; cbn [evict_loop]; [split; [lia|done]|].
  destruct (Z.ltb_spec nMax (Z.of_nat (length (setValid c)))); [|split; [lia|done]].
  set (k := (rand_hash c (rand_pos c), [], [])).
  destruct (evict_spec k (setValid c)) as [Hl Hs]; [intros E0; rewrite E0 in *; simpl in *; lia|].
  destruct (IH (mkCache (evict k (setValid c)) (rand_hash c) (S (rand_pos c)))) as [IH1 IH2];
    [cbn; lia|]. split; [done|]. intros x Hx. by apply Hs, IH2.
Qed.

Lemma cache_Set_spec nMax h s k c :
  0 < nMax ->
  Z.of_nat (length (setValid (cache_Set nMax h s k c))) <= nMax + 1 /\
  forall x, x ∈ setValid (cache_Set nMax h s k c) -> x = (h, s, k) \/ x ∈ setValid c.
Proof.
  intros Hn. unfold cache_Set. destruct (Z.leb_spec nMax 0); [lia|]. cbn [setValid].
  destruct (evict_loop_spec (length (setValid c)) nMax c) as [Hl Hs]; [lia|done|].
  pose proof (length_set_insert (h, s, k) (setValid (evict_loop (length (setValid c)) nMax c))).
  split; [lia|]. intros x [->|Hx]%set_insert_elem; [by left|]. right. by apply Hs.
Qed.

Section cache.
Context {H : HashOps} {HL : HashLaws H} {E : ECOps} {EL : ECLaws E} {P : SecpOps}.

(** An entry stands for a signature the libraries accept. *)
Definition entry_valid (e : sigdata) : Prop :=
  let '(h, s, pk) := e in
  uint_ok WIDTH256 h /\
  exists key, SetPubKey CKey_Reset pk = (true, key) /\ verify_sig key pk h s = true.

Definition cache_valid (c : CSignatureCache) : Prop := forall e, e ∈ setValid c -> entry_valid e.

(** [CheckSig] without the cache *)
Definition CheckSig_plain (txTo : CTransaction) (nIn : nat) (nHashType : Z)
    (vchSig vchPubKey scriptCode : list Z) : option bool :=
  match SetPubKey CKey_Reset vchPubKey with
  | (false, _) => Some false
  | (true, key) =>
      pubkey ← GetPubKey key;
      if negb (CPubKey_IsValid pubkey) then Some false
      else
        match last vchSig with
        | None => Some false
        | Some back =>
            if negb (nHashType =? 0) && negb (nHashType =? back) then Some false
            else
              Some (verify_sig key vchPubKey
                (SignatureHash scriptCode txTo nIn (if nHashType =? 0 then back else nHashType))
                (removelast vchSig))
        end
  end.

Lemma SignatureHash_ok code tx nIn ht : uint_ok WIDTH256 (SignatureHash code tx nIn ht).
Proof. unfold SignatureHash. case_goal; [apply Hash_ok|apply uint_ok_assign64; lia]. Qed.

Lemma cache_Get_valid c h s pk :
  cache_valid c -> uint_ok WIDTH256 h -> cache_Get c h s pk = true -> entry_valid (h, s, pk).
Proof.
  intros Hc Hh. unfold cache_Get, cache_find. rewrite existsb_exists. intros (x & Hx & E1).
  apply list_elem_of_In in Hx. pose proof (Hc x Hx) as Hv. bool_prop. destruct E1 as [E1 E2]. bool_prop.
  rewrite <- (sigdata_lt_eq x (h, s, pk)); try done. by destruct x as [[h' s'] k'], Hv.
Qed.

Lemma CheckSig_transparent maxsize txTo nIn ht flags sig pk code c :
  cache_valid c ->
  let '(r, c') := CheckSig maxsize txTo nIn ht flags sig pk code c in
  r = CheckSig_plain txTo nIn ht sig pk code /\ cache_valid c' /\
  (0 < maxsize -> Z.of_nat (length (setValid c)) <= maxsize + 1 ->
   Z.of_nat (length (setValid c')) <= maxsize + 1).
Proof.
  intros Hc. unfold CheckSig, CheckSig_plain. destruct (SetPubKey CKey_Reset pk) as [[] key] eqn:Ek; [|done].
  destruct (GetPubKey key) as [pubkey|] eqn:Ep; [|done]. cbn [mbind option_bind].
  destruct (CPubKey_IsValid pubkey) eqn:Hval; cbn [negb]; [|done].
  destruct (last sig) as [back|]; [|done]. destruct (_ && _); [done|].
  set (h := SignatureHash code txTo nIn _). set (s := removelast sig).
  assert (uint_ok WIDTH256 h) as Hh by apply SignatureHash_ok.
  assert (pubkey = pk) as ->.
  { destruct (decide (pk = [])) as [->|Hne].
    - unfold SetPubKey in Ek. destruct (o2i_ECPublicKey _ []) as [p|] eqn:Eo; [|done].
      apply i2o_o2i in Eo as [Eo _]. injection Ek as <-. unfold GetPubKey in Ep. cbn in Ep.
      by rewrite Eo in Ep.
    - rewrite (GetPubKey_SetPubKey _ _ _ Hne Ek) in Ep. congruence. }
  destruct (cache_Get c h s pk) eqn:Eg.
  - destruct (cache_Get_valid _ _ _ _ Hc Hh Eg) as [_ (key' & Ek' & Hv)].
    rewrite Ek in Ek'. injection Ek' as <-. by rewrite Hv.
  - destruct (verify_sig key pk h s) eqn:Hv; cbn [negb]; [|done].
    destruct (has_flag flags SCRIPT_VERIFY_NOCACHE); cbn [negb]; [done|]. split; [done|]. split.
    + intros e He. destruct (Z.leb_spec maxsize 0) as [Hm|Hm].
      * unfold cache_Set in He. destruct (Z.leb_spec maxsize 0); [|lia]. by apply Hc.
      * apply cache_Set_spec in He as [->|He]; [|by apply Hc|done]. split; [done|]. by exists key.
    + intros Hm _. by apply cache_Set_spec.
Qed.
End cache.

(** libsecp256k1 absent: everything falls back to OpenSSL *)
#[export] Instance no_secp : SecpOps := {|
  secp_pubkey := unit;
  secp_signature := unit;
  secp_context := false;
  secp_pubkey_parse _ := None;
  secp_parse_der _ := None;
  secp_normalize s := s;
  secp_verify _ _ _ := false
|}.

Definition empty_cache : CSignatureCache := mkCache [] (fun n => assign64 WIDTH256 (Z.of_nat n)) 0.

(** ** Claims *)

(** C38: what a signature commits to.  The bytes hashed for two transactions are
    the same exactly when they agree on version, times, the input signed, and,
    depending on the hash type, on the other inputs and the outputs
    ([same_signed]); in particular no [scriptSig] is signed.  Transactions that
    agree have the same signature hash, and an input index without an input (or,
    for [SIGHASH_SINGLE], without an output) gives the hash 1. *)
Theorem signature_hash_commits {H : HashOps} (code : list Z) (tx tx' : CTransaction) (nIn : nat) (ht : Z) :
  (forall t t', sighash_tx code tx nIn ht = Some t -> sighash_tx code tx' nIn ht = Some t' ->
     tx_ok t -> tx_ok t' ->
     (sighash_bytes t ht = sighash_bytes t' ht <-> same_signed nIn ht tx tx')) /\
  (same_signed nIn ht tx tx' -> SignatureHash code tx nIn ht = SignatureHash code tx' nIn ht) /\
  ((length (vin tx) <= nIn)%nat \/ base_type ht = SIGHASH_SINGLE /\ (length (vout tx) <= nIn)%nat ->
   SignatureHash code tx nIn ht = assign64 WIDTH256 1).
Proof.
  split_and!.
  - intros t t' E E' Ht Ht'. rewrite <- (sighash_tx_same code _ _ _ _ _ _ E E').
    split; [by apply sighash_bytes_inj|by intros ->].
  - intros Hs. unfold SignatureHash. destruct (sighash_tx code tx nIn ht) as [t|] eqn:E.
    + destruct (sighash_tx code tx' nIn ht) as [t'|] eqn:E'.
      * apply (sighash_tx_same code _ _ _ _ _ _ E E') in Hs as ->. done.
      * assert (same_signed nIn ht tx' tx) as Hs'.
        { destruct Hs as (? & ? & ? & H4 & H5 & H6). repeat split; try done; intros; symmetry; auto. }
        rewrite (same_signed_None _ _ _ _ code Hs' E') in E. done.
    + by rewrite (same_signed_None _ _ _ _ code Hs E).
  - intros Hl. unfold SignatureHash. rewrite sighash_tx_eq. cbv zeta.
    destruct (Nat.leb_spec (length (vin tx)) nIn); [done|]. destruct Hl as [?|[-> Hl]]; [lia|].
    rewrite Z.eqb_refl. by destruct (Nat.leb_spec (length (vout tx)) nIn); [|lia].
Qed.

(** C37: the signature cache is invisible.  Starting from a cache whose entries are valid
    signatures, with a [-maxsigcachesize] above 0 and at most one entry more than that, an
    evaluation with the cache has the same result and leaves the same stack as one that
    verifies every signature, its cache again holds valid signatures only, and again at
    most one entry more than [-maxsigcachesize]. *)
Theorem EvalScript_cache_transparent {B : BNOps} {H : HashOps} {HL : HashLaws H} {E : ECOps}
    {EL : ECLaws E} {P : SecpOps} (maxsize : Z) (st : list valtype) (script : list Z)
    (txTo : CTransaction) (nIn : nat) (flags ht : Z) (c : CSignatureCache) :
  cache_valid c -> 0 < maxsize -> Z.of_nat (length (setValid c)) <= maxsize + 1 ->
  let '(b, st', c') := EvalScript maxsize st script txTo nIn flags ht c in
  EvalScript_in (fun sig key code (_ : unit) => (CheckSig_plain txTo nIn ht sig key code, tt))
    flags st script tt = (b, st', tt) /\
  cache_valid c' /\ Z.of_nat (length (setValid c')) <= maxsize + 1.
Proof.
  intros Hc Hm Hl. unfold EvalScript.
  set (R := fun (c : CSignatureCache) (_ : unit) =>
    cache_valid c /\ Z.of_nat (length (setValid c)) <= maxsize + 1).
  set (plain := fun sig key code (_ : unit) => (CheckSig_plain txTo nIn ht sig key code, tt)).
  assert (Hsame : forall sig key code w1 w2, R w1 w2 ->
    (CheckSig maxsize txTo nIn ht flags sig key code w1).1 = (plain sig key code w2).1 /\
    R (CheckSig maxsize txTo nIn ht flags sig key code w1).2 (plain sig key code w2).2).
  { intros sig key code w1 w2 [Hv Hs].
    pose proof (CheckSig_transparent maxsize txTo nIn ht flags sig key code w1 Hv) as Ht.
    destruct (CheckSig maxsize txTo nIn ht flags sig key code w1) as [r c1].
    destruct Ht as (-> & Hv1 & Hs1). split; [done|]. split; [done|]. by apply Hs1. }
  pose proof (sim_EvalScript R _ plain flags Hsame st script c tt (conj Hc Hl)) as Hsim.
  destruct (EvalScript_in (CheckSig _ _ _ _ _) flags st script c) as [[b st'] c'].
  destruct (EvalScript_in plain flags st script tt) as [[b2 st2] []].
  destruct Hsim as (-> & -> & Hv & Hs). done.
Qed.

(** A key, a script that asks for its signature, and the signature *)
Definition sample_pub : list Z := 2 :: le_bytes 32 5.
Definition sample_script : list Z := 33 :: sample_pub ++ [0xac].
Definition sample_sig : list Z :=
  let rs := toy_rs (limb_bytes (SignatureHash (H := toy_hash) sample_script sample_tx 0 SIGHASH_ALL)) 5 in der_sig rs.1 rs.2 ++ [SIGHASH_ALL].
Definition sample_eval (c : CSignatureCache) : bool * list valtype * CSignatureCache :=
  EvalScript (B := ZBN) (H := toy_hash) (E := toy_ec) (P := no_secp) 50000 [sample_sig] sample_script sample_tx 0 STRICT_FLAGS 0 c.

(** The signature verifies and is cached; a second evaluation finds it in the cache. *)
Lemma EvalScript_cache_transparent_witness :
  let '(b1, st1, c1) := sample_eval empty_cache in
  let '(b2, st2, c2) := sample_eval c1 in
  (b1, b2, length (setValid c1), length (setValid c2)) = (true, true, 1%nat, 1%nat) /\ cache_valid (E := toy_ec) (P := no_secp) c1 /\
  cache_valid (E := toy_ec) (P := no_secp) c2.
Proof.
  assert (R : let '(b1, st1, c1) := sample_eval empty_cache in let '(b2, st2, c2) := sample_eval c1 in
    (b1, b2, length (setValid c1), length (setValid c2)) = (true, true, 1%nat, 1%nat)) by (vm_compute; reflexivity).
  unfold sample_eval in *.
  pose proof (EvalScript_cache_transparent (B := ZBN) (H := toy_hash) (E := toy_ec) (P := no_secp) 50000 [sample_sig] sample_script sample_tx 0
    STRICT_FLAGS 0 empty_cache) as T.
  destruct (EvalScript _ _ _ _ _ _ _ _) as [[b1 st1] c1].
  destruct T as (_ & V1 & L1); [intros e He; destruct (not_elem_of_nil _ He)|reflexivity|discriminate|].
  pose proof (EvalScript_cache_transparent (B := ZBN) (H := toy_hash) (E := toy_ec) (P := no_secp) 50000 [sample_sig] sample_script sample_tx 0
    STRICT_FLAGS 0 c1 V1 eq_refl L1) as T.
  destruct (EvalScript _ _ _ _ _ _ _ c1) as [[b2 st2] c2]. destruct T as (_ & V2 & _). exact (conj R (conj V1 V2)).
Defined.

(** Another [scriptSig] does not change what is signed; another output does, unless none
    are signed; and no input has the index 7. *)
Lemma signature_hash_commits_witness :
  let other_sig := mkTx 1 1400000000 [mkTxIn (mkOutPoint (assign64 WIDTH256 77) 1) [0x52; 0x53] UINT_MAX] (vout sample_tx) 0 in
  let other_out := mkTx 1 1400000000 (vin sample_tx) [mkTxOut 6 [0x51; 0x52]] 0 in
  SignatureHash (H := toy_hash) [0x51] sample_tx 0 SIGHASH_ALL = SignatureHash (H := toy_hash) [0x51] other_sig 0 SIGHASH_ALL /\
  (forall t t', sighash_tx [0x51] sample_tx 0 SIGHASH_ALL = Some t -> sighash_tx [0x51] other_out 0 SIGHASH_ALL = Some t' ->
     tx_ok t -> tx_ok t' -> sighash_bytes t SIGHASH_ALL <> sighash_bytes t' SIGHASH_ALL) /\
  SignatureHash (H := toy_hash) [0x51] sample_tx 0 SIGHASH_NONE = SignatureHash (H := toy_hash) [0x51] other_out 0 SIGHASH_NONE /\
  SignatureHash (H := toy_hash) [0x51] sample_tx 7 SIGHASH_ALL = assign64 WIDTH256 1.
Proof.
  intros other_sig other_out. split; [|split; [|split]].
  - apply (signature_hash_commits (H := toy_hash) [0x51] sample_tx other_sig 0 SIGHASH_ALL).
    split_and!; try done; intros [|j] _; done.
  - intros t t' E E' Ht Ht'. rewrite (proj1 (signature_hash_commits (H := toy_hash) [0x51] sample_tx other_out 0 SIGHASH_ALL) t t' E E' Ht Ht').
    intros (_ & _ & _ & _ & _ & Ho). specialize (Ho 0%nat ltac:(by left)). vm_compute in Ho. discriminate.
  - apply (signature_hash_commits (H := toy_hash) [0x51] sample_tx other_out 0 SIGHASH_NONE).
    split_and!; try done. intros j [Hj|[Hj _]]; vm_compute in Hj; discriminate.
  - apply (signature_hash_commits (H := toy_hash) [0x51] sample_tx sample_tx 7 SIGHASH_ALL).
    left. cbn. lia.
Defined.
