(* ===== verification/Templates.v ===== *)
(** * Standard scripts: [Solver], destinations and [VerifyScript] of [script.cpp] *)

From S2P Require Import Prelude Uint256 BigNum Serialize Hash Script Canonical Transaction.
From S2P Require Import Interp InterpFacts InterpSem InterpSim Key SigCheck.

(** ** [Solver] *)

(** The templates in the order of the map; its keys are the enumerators *)
Definition mTemplates : list (txnouttype * list Z) := [
  (TX_PUBKEY, push_op (push_op [] OP_PUBKEY) OP_CHECKSIG);
  (TX_PUBKEYHASH, push_op (push_op (push_op (push_op (push_op [] OP_DUP) OP_HASH160) OP_PUBKEYHASH)
     OP_EQUALVERIFY) OP_CHECKSIG);
  (TX_MULTISIG, push_op (push_op (push_op (push_op [] OP_SMALLINTEGER) OP_PUBKEYS) OP_SMALLINTEGER)
     OP_CHECKMULTISIG);
  (TX_NULL_DATA, push_op [] OP_RETURN)
].

Definition pubkey_size (vch : valtype) : bool :=
  (33 <=? Z.of_nat (length vch)) && (Z.of_nat (length vch) <=? 120).

(** The loop for [OP_PUBKEYS]; it leaves with the first instruction that does
    not push a key, or with [OP_INVALIDOPCODE] at the end of the script. *)
Fixpoint pubkeys_loop (fuel : nat) (opcode1 : opcodetype) (vch1 : valtype) (pc1 : list Z)
    (sols : list valtype) : opcodetype * valtype * list Z * list valtype :=
  match fuel with
  | O => (opcode1, vch1, pc1, sols)
  | S fuel' =>
      if pubkey_size vch1 then
        let sols := sols ++ [vch1] in
        match GetOp2 pc1 with
        | (None, pc1) => (OP_INVALIDOPCODE, [], pc1, sols)
        | (Some (opcode1, vch1), pc1) => pubkeys_loop fuel' opcode1 vch1 pc1 sols
        end
      else (opcode1, vch1, pc1, sols)
  end.

(** The comparison of one instruction: the solutions, or [None] for [break] *)
Definition match_op (opcode1 : opcodetype) (vch1 : valtype) (opcode2 : opcodetype) (vch2 : valtype)
    (sols : list valtype) : option (list valtype) :=
  if opcode2 =? OP_PUBKEY then
    if pubkey_size vch1 then Some (sols ++ [vch1]) else None
  else if opcode2 =? OP_PUBKEYHASH then
    if Z.of_nat (length vch1) =? 20 then Some (sols ++ [vch1]) else None
  else if opcode2 =? OP_SMALLINTEGER then
    if (opcode1 =? OP_0) || ((OP_1 <=? opcode1) && (opcode1 <=? OP_16))
    then n ← DecodeOP_N opcode1; Some (sols ++ [[n]])
    else None
  else if negb (opcode1 =? opcode2) || negb (bool_decide (vch1 = vch2)) then None
  else Some sols.

(** The [while] loop over a template; a round reads an instruction of it, so its
    length is fuel enough.  [None] for [break]. *)
Fixpoint match_template (fuel : nat) (pc1 pc2 : list Z) (sols : list valtype) : option (list valtype) :=
  match pc1, pc2 with
  | [], [] => Some sols
  | _, _ =>
      match fuel with
      | O => None
      | S fuel' =>
          match GetOp2 pc1, GetOp2 pc2 with
          | (Some (opcode1, vch1), pc1), (Some (opcode2, vch2), pc2) =>
              if opcode2 =? OP_PUBKEYS then
                let '(opcode1, vch1, pc1, sols) := pubkeys_loop (S (length pc1)) opcode1 vch1 pc1 sols in
                match GetOp2 pc2 with
                | (None, _) => None
                | (Some (opcode2, vch2), pc2) =>
                    sols ← match_op opcode1 vch1 opcode2 vch2 sols;
                    match_template fuel' pc1 pc2 sols
                end
              else
                sols ← match_op opcode1 vch1 opcode2 vch2 sols;
                match_template fuel' pc1 pc2 sols
          | _, _ => None
          end
      end
  end.

(** The additional checks for [TX_MULTISIG] *)
Definition multisig_ok (sols : list valtype) : bool :=
  let m := nthZ (default [] (head sols)) 0 in
  let n := nthZ (default [] (last sols)) 0 in
  negb ((m <? 1) || (n <? 1) || (n <? m) || negb (Z.of_nat (length sols) - 2 =? n)).

Fixpoint scan_templates (tplates : list (txnouttype * list Z)) (scriptPubKey : list Z) :
    bool * txnouttype * list valtype :=
  match tplates with
  | [] => (false, TX_NONSTANDARD, [])
  | (t, script2) :: tplates =>
      match match_template (S (length script2)) scriptPubKey script2 [] with
      | Some sols =>
          (if bool_decide (t = TX_MULTISIG) then multisig_ok sols else true, t, sols)
      | None => scan_templates tplates scriptPubKey
      end
  end.

(** The result, [typeRet] and [vSolutionsRet] (which callers pass empty) *)
Definition Solver (scriptPubKey : list Z) : bool * txnouttype * list valtype :=
  if IsPayToScriptHash scriptPubKey
  then (true, TX_SCRIPTHASH, [take 20 (drop 2 scriptPubKey)])
  else scan_templates mTemplates scriptPubKey.

Definition ScriptSigArgsExpected (t : txnouttype) (vSolutions : list valtype) : Z :=
  match t with
  | TX_NONSTANDARD | TX_NULL_DATA => -1
  | TX_PUBKEY => 1
  | TX_PUBKEYHASH => 2
  | TX_MULTISIG =>
      match vSolutions with
      | (m :: _) :: _ => m + 1
      | _ => -1
      end
  | TX_SCRIPTHASH => 1
  end.

(** The result and [whichType] *)
Definition IsStandard (scriptPubKey : list Z) : bool * txnouttype :=
  let '(ok, whichType, vSolutions) := Solver scriptPubKey in
  if negb ok then (false, whichType)
  else
    match whichType with
    | TX_MULTISIG =>
        let m := nthZ (default [] (head vSolutions)) 0 in
        let n := nthZ (default [] (last vSolutions)) 0 in
        if (n <? 1) || (3 <? n) then (false, whichType)
        else if (m <? 1) || (n <? m) then (false, whichType)
        else (true, whichType)
    | _ => (negb (bool_decide (whichType = TX_NONSTANDARD)), whichType)
    end.

(** ** Destinations *)

(** The variant [CTxDestination] *)
Inductive CTxDestination :=
  | CNoDestination
  | CKeyID (id : list Z)
  | CScriptID (id : list Z).
#[export] Instance CTxDestination_eq_dec : EqDecision CTxDestination.
Proof. solve_decision. Defined.

(** [CScriptVisitor] and [SetDestination]: the script and the visitor's result *)
Definition SetDestination (dest : CTxDestination) : bool * list Z :=
  match dest with
  | CNoDestination => (false, [])
  | CKeyID keyID =>
      (true, push_op (push_op (push_uint160 (push_op (push_op [] OP_DUP) OP_HASH160) keyID)
               OP_EQUALVERIFY) OP_CHECKSIG)
  | CScriptID scriptID =>
      (true, push_op (push_uint160 (push_op [] OP_HASH160) scriptID) OP_EQUAL)
  end.

Section destinations.
Context {H : HashOps}.

(** [None] for [false] *)
Definition ExtractDestination (scriptPubKey : list Z) : option CTxDestination :=
  let '(ok, whichType, vSolutions) := Solver scriptPubKey in
  if negb ok then None
  else
    let first := default [] (head vSolutions) in
    match whichType with
    | TX_PUBKEY => Some (CKeyID (CPubKey_GetID first))
    | TX_PUBKEYHASH => Some (CKeyID (uint_of_vch WIDTH160 first))
    | TX_SCRIPTHASH => Some (CScriptID (uint_of_vch WIDTH160 first))
    | _ => None
    end.

(** The destinations and [nRequiredRet]; [None] for [false] *)
Definition ExtractDestinations (scriptPubKey : list Z) : option (list CTxDestination * Z) :=
  let '(ok, typeRet, vSolutions) := Solver scriptPubKey in
  if negb ok then None
  else
    match typeRet with
    | TX_NULL_DATA => None
    | TX_MULTISIG =>
        let keys := take (length vSolutions - 2) (drop 1 vSolutions) in
        Some ((fun k => CKeyID (CPubKey_GetID k)) <$> keys, nthZ (default [] (head vSolutions)) 0)
    | _ =>
        address ← ExtractDestination scriptPubKey;
        Some ([address], 1)
    end.
End destinations.

(** [SetMultisig]; [None] for a failed assertion or a [key_error] *)
Definition SetMultisig {E : ECOps} (nRequired : Z) (keys : list CKey) : option (list Z) :=
  m ← EncodeOP_N nRequired;
  pubkeys ← mapM GetPubKey keys;
  n ← EncodeOP_N (Z.of_nat (length keys));
  Some (push_op (push_op (foldl push_vch (push_op [] m) pubkeys) n) OP_CHECKMULTISIG).

(** ** [VerifyScript] *)

Section VerifyScript.
Context {B : BNOps} {H : HashOps} {W : Type}.
Context (checksig : valtype -> valtype -> list Z -> W -> option bool * W) (flags : Z).

Definition top_true (st : list valtype) : bool :=
  match st with
  | [] => false
  | v :: _ => CastToBool v
  end.

(** The verdict and the world; the assertion that [stackCopy] is not empty and
    the exception of [popstack] are [false] here, and the claims show that
    neither is reached. *)
Definition VerifyScript_in (scriptSig scriptPubKey : list Z) (w : W) : bool * W :=
  let '(ok, st, w) := EvalScript_in checksig flags [] scriptSig w in
  if negb ok then (false, w)
  else
    let stackCopy := st in
    let '(ok, st, w) := EvalScript_in checksig flags st scriptPubKey w in
    if negb ok then (false, w)
    else if negb (top_true st) then (false, w)
    else if has_flag flags SCRIPT_VERIFY_P2SH && IsPayToScriptHash scriptPubKey then
      if negb (IsPushOnly scriptSig) then (false, w)
      else
        match stackCopy with
        | [] => (false, w)
        | pubKeySerialized :: stackCopy =>
            let '(ok, st, w) := EvalScript_in checksig flags stackCopy pubKeySerialized w in
            (ok && top_true st, w)
        end
    else (true, w).
End VerifyScript.

(** With the program's signature checker *)
Definition VerifyScript {B : BNOps} {H : HashOps} {E : ECOps} {P : SecpOps} (maxsize : Z)
    (scriptSig scriptPubKey : list Z) (txTo : CTransaction) (nIn : nat) (flags nHashType : Z)
    (c : CSignatureCache) : bool * CSignatureCache :=
  VerifyScript_in (CheckSig maxsize txTo nIn nHashType flags) flags scriptSig scriptPubKey c.

(** ** Lemmas: scripts with a hash *)

(** [bs] is twenty bytes: spell them out *)
Ltac spell_20 bs Hl :=
  do 20 (destruct bs as [|? bs]; [discriminate Hl|]); destruct bs; [clear Hl|discriminate Hl].

Definition p2pkh_script (bs : list Z) : list Z :=
  [OP_DUP; OP_HASH160; 0x14] ++ bs ++ [OP_EQUALVERIFY; OP_CHECKSIG].
Definition p2sh_script (bs : list Z) : list Z := [OP_HASH160; 0x14] ++ bs ++ [OP_EQUAL].

Lemma SetDestination_key h : SetDestination (CKeyID h) = (true, p2pkh_script (limb_bytes h)).
Proof. unfold SetDestination, p2pkh_script, push_op, push_uint160. rewrite <- ?app_assoc. reflexivity. Qed.

Lemma SetDestination_script h : SetDestination (CScriptID h) = (true, p2sh_script (limb_bytes h)).
Proof. unfold SetDestination, p2sh_script, push_op, push_uint160. rewrite <- ?app_assoc. reflexivity. Qed.

Lemma Solver_p2pkh bs : length bs = 20%nat -> Solver (p2pkh_script bs) = (true, TX_PUBKEYHASH, [bs]).
Proof. intros Hl. spell_20 bs Hl. reflexivity. Qed.

Lemma Solver_p2sh bs : length bs = 20%nat -> Solver (p2sh_script bs) = (true, TX_SCRIPTHASH, [bs]).
Proof. intros Hl. spell_20 bs Hl. reflexivity. Qed.

Lemma IsPayToScriptHash_p2sh script :
  IsPayToScriptHash script = true -> exists bs, length bs = 20%nat /\ script = p2sh_script bs.
Proof.
  unfold IsPayToScriptHash. rewrite !andb_true_iff, !Z.eqb_eq. intros (((Hl & H0) & H1) & H22).
  do 23 (destruct script as [|? script]; [discriminate Hl|]). destruct script; [|cbn in Hl; lia].
  cbn in H0, H1, H22. subst. unfold p2sh_script. eexists [_; _; _; _; _; _; _; _; _; _; _; _; _; _; _; _; _; _; _; _].
  split; reflexivity.
Qed.

(** ** Lemmas: multisig scripts *)

Lemma foldl_push_vch s ks : foldl push_vch s ks = s ++ mjoin (push_vch [] <$> ks).
Proof.
  revert s. induction ks as [|k ks IH]; intros s; cbn [foldl fmap list_fmap]; [by rewrite app_nil_r|].
  rewrite IH, push_vch_app, <- app_assoc. done.
Qed.

Lemma length_push_vch b : (S (length b) <= length (push_vch [] b))%nat.
Proof.
  unfold push_vch. rewrite app_nil_l, length_app. repeat case_goal; cbn [length]; lia.
Qed.

(** The loop for [OP_PUBKEYS] collects the keys pushed. *)
Lemma pubkeys_loop_run fuel op v ks n rest sols :
  pubkey_size v = true -> Forall (fun k => pubkey_size k = true) ks ->
  OP_PUSHDATA4 < n -> (length ks < fuel)%nat ->
  Z.of_nat (length (mjoin (push_vch [] <$> ks) ++ n :: rest)) < 2 ^ 32 ->
  pubkeys_loop (S fuel) op v (mjoin (push_vch [] <$> ks) ++ n :: rest) sols =
  (n, [], rest, sols ++ v :: ks).
Proof.
  intros Hv Hks Hn. revert fuel op v sols Hv. induction Hks as [|k ks Hk Hks IH]; intros fuel op v sols Hv Hf Hl.
  - cbn [pubkeys_loop fmap list_fmap mjoin list_join app]. rewrite Hv, GetOp2_op by done.
    destruct fuel; [simpl in Hf; lia|]. done.
  - cbn [pubkeys_loop]. rewrite Hv. cbn [fmap list_fmap]. change (mjoin (?a :: ?l)) with (a ++ mjoin l).
    change (list_fmap _ _ (push_vch []) ks) with (push_vch [] <$> ks). rewrite <- app_assoc.
    assert (Z.of_nat (length (mjoin (push_vch [] <$> ks) ++ n :: rest)) < 2 ^ 32 /\
      Z.of_nat (length (k ++ mjoin (push_vch [] <$> ks) ++ n :: rest)) < 2 ^ 32) as [Hl1 Hl2].
    { cbn [fmap list_fmap] in Hl. change (mjoin (?a :: ?l)) with (a ++ mjoin l) in Hl.
      change (list_fmap _ _ (push_vch []) ks) with (push_vch [] <$> ks) in Hl.
      pose proof (length_push_vch k). rewrite !length_app in *. lia. }
    rewrite GetOp2_push by done. cbn [length] in Hf. destruct fuel; [lia|].
    rewrite IH by (done || lia). by rewrite <- app_assoc.
Qed.

Definition multisig_script (m : Z) (ks : list valtype) : list Z :=
  [OP_1 + m - 1] ++ mjoin (push_vch [] <$> ks) ++ [OP_1 + Z.of_nat (length ks) - 1; OP_CHECKMULTISIG].

Lemma DecodeOP_N_Encode n : 1 <= n <= 16 -> DecodeOP_N (OP_1 + n - 1) = Some n.
Proof.
  intros Hn. unfold DecodeOP_N. destruct (Z.eqb_spec (OP_1 + n - 1) OP_0); [lia|].
  destruct (Z.leb_spec OP_1 (OP_1 + n - 1)), (Z.leb_spec (OP_1 + n - 1) OP_16); try lia. cbn. f_equal. lia.
Qed.

Lemma match_op_small n sols :
  1 <= n <= 16 -> match_op (OP_1 + n - 1) [] OP_SMALLINTEGER [] sols = Some (sols ++ [[n]]).
Proof.
  intros Hn. unfold match_op. simpl (OP_SMALLINTEGER =? _). cbv iota.
  rewrite DecodeOP_N_Encode by done.
  destruct (Z.leb_spec OP_1 (OP_1 + n - 1)), (Z.leb_spec (OP_1 + n - 1) OP_16); try lia.
  by rewrite orb_true_r.
Qed.

Lemma match_multisig m ks :
  1 <= m <= 16 -> ks <> [] -> (length ks <= 16)%nat ->
  Forall (fun k => pubkey_size k = true) ks ->
  Z.of_nat (length (multisig_script m ks)) < 2 ^ 32 ->
  match_template 5 (multisig_script m ks) [OP_SMALLINTEGER; OP_PUBKEYS; OP_SMALLINTEGER; OP_CHECKMULTISIG] [] =
  Some ([m] :: ks ++ [[Z.of_nat (length ks)]]).
Proof.
  intros Hm Hne Hlen Hks Hl. unfold multisig_script in *. set (n := OP_1 + Z.of_nat (length ks) - 1) in *.
  destruct ks as [|k ks]; [done|]. apply Forall_cons in Hks as [Hk Hks].
  cbn [match_template app]. rewrite GetOp2_op by lia.
  change (GetOp2 [OP_SMALLINTEGER; OP_PUBKEYS; OP_SMALLINTEGER; OP_CHECKMULTISIG]) with
    (Some (OP_SMALLINTEGER, [] : list Z), [OP_PUBKEYS; OP_SMALLINTEGER; OP_CHECKMULTISIG]).
  simpl (OP_SMALLINTEGER =? OP_PUBKEYS). cbv iota beta. rewrite match_op_small by done.
  cbn [mbind option_bind]. cbn [fmap list_fmap] in *. change (mjoin (?a :: ?l)) with (a ++ mjoin l) in *.
  change (list_fmap _ _ (push_vch []) ks) with (push_vch [] <$> ks) in *.
  set (tail := mjoin (push_vch [] <$> ks) ++ [n; OP_CHECKMULTISIG]).
  assert (Hl1 : Z.of_nat (length (k ++ tail)) < 2 ^ 32 /\ Z.of_nat (length tail) < 2 ^ 32).
  { subst tail. pose proof (length_push_vch k). cbn [app length] in Hl. rewrite !length_app in *.
    cbn [length] in *. lia. }
  rewrite <- app_assoc. fold tail.
  destruct (push_vch [] k ++ tail) as [|x p] eqn:Ep; [by pose proof (GetOp2_push k tail (proj1 Hl1)) as E; rewrite Ep in E|].
  rewrite <- Ep, GetOp2_push by apply Hl1.
  change (GetOp2 [OP_PUBKEYS; OP_SMALLINTEGER; OP_CHECKMULTISIG]) with
    (Some (OP_PUBKEYS, [] : list Z), [OP_SMALLINTEGER; OP_CHECKMULTISIG]).
  simpl (OP_PUBKEYS =? OP_PUBKEYS). cbv iota beta. subst tail.
  rewrite pubkeys_loop_run; [|done|done|subst n; cbn [length]; lia| |apply Hl1].
  2: { rewrite length_app. cbn [length]. assert (length ks <= length (mjoin (push_vch [] <$> ks)))%nat; [|lia].
       clear. induction ks as [|k ks IH]; [done|]. cbn [fmap list_fmap].
       change (mjoin (?a :: ?l)) with (a ++ mjoin l). rewrite length_app. pose proof (length_push_vch k).
       cbn [length]. change (list_fmap _ _ (push_vch []) ks) with (push_vch [] <$> ks). lia. }
  change (GetOp2 [OP_SMALLINTEGER; OP_CHECKMULTISIG]) with (Some (OP_SMALLINTEGER, [] : list Z), [OP_CHECKMULTISIG]).
  cbv iota beta. unfold n. rewrite match_op_small by (cbn [length] in *; lia). cbn [mbind option_bind].
  change (GetOp2 [OP_CHECKMULTISIG]) with (Some (OP_CHECKMULTISIG, [] : list Z), [] : list Z).
  cbn. done.
Qed.

Lemma multisig_script_size m pubkeys :
  (length pubkeys <= 16)%nat -> Forall (fun k => pubkey_size k = true) pubkeys ->
  Z.of_nat (length (multisig_script m pubkeys)) < 2 ^ 32.
Proof.
  intros Hl Hs. unfold multisig_script. rewrite !length_app. cbn [length].
  enough (length (mjoin (push_vch [] <$> pubkeys)) <= 125 * length pubkeys)%nat by lia.
  clear -Hs. induction Hs as [|k ks Hk Hs IH]; [done|]. cbn [fmap list_fmap].
  change (mjoin (?a :: ?l)) with (a ++ mjoin l). rewrite length_app. cbn [length].
  change (list_fmap _ _ (push_vch []) ks) with (push_vch [] <$> ks).
  enough (length (push_vch [] k) <= 125)%nat by lia.
  unfold pubkey_size in Hk. bool_prop. destruct Hk as [_ Hk]. bool_prop.
  unfold push_vch. rewrite app_nil_l, length_app. repeat case_goal; cbn [length]; rewrite ?length_to_digits; lia.
Qed.

Lemma Solver_multisig m ks :
  1 <= m <= Z.of_nat (length ks) -> (length ks <= 16)%nat ->
  Forall (fun k => pubkey_size k = true) ks ->
  Z.of_nat (length (multisig_script m ks)) < 2 ^ 32 ->
  Solver (multisig_script m ks) = (true, TX_MULTISIG, [m] :: ks ++ [[Z.of_nat (length ks)]]).
Proof.
  intros Hm Hlen Hks Hl. assert (ks <> []) as Hne by (intros ->; simpl in Hm; lia).
  assert (Eg : GetOp2 (multisig_script m ks) =
    (Some (OP_1 + m - 1, []), mjoin (push_vch [] <$> ks) ++ [OP_1 + Z.of_nat (length ks) - 1; OP_CHECKMULTISIG]))
    by (unfold multisig_script; cbn [app]; apply GetOp2_op; lia).
  unfold Solver, IsPayToScriptHash.
  change (nthZ (multisig_script m ks) 0) with (OP_1 + m - 1).
  destruct (Z.eqb_spec (OP_1 + m - 1) OP_HASH160); [lia|]. rewrite andb_false_r. cbn [andb].
  unfold mTemplates, scan_templates.
  change (push_op (push_op [] OP_PUBKEY) OP_CHECKSIG) with [OP_PUBKEY; OP_CHECKSIG].
  assert (match_template (S (length [OP_PUBKEY; OP_CHECKSIG])) (multisig_script m ks) [OP_PUBKEY; OP_CHECKSIG] [] = None) as ->.
  { cbn [match_template length]. destruct (multisig_script m ks) as [|x p] eqn:Es; [done|]. rewrite Eg. done. }
  set (t2 := push_op (push_op (push_op (push_op (push_op [] OP_DUP) OP_HASH160) OP_PUBKEYHASH) OP_EQUALVERIFY) OP_CHECKSIG).
  assert (match_template (S (length t2)) (multisig_script m ks) t2 [] = None) as ->.
  { cbn [match_template length]. destruct (multisig_script m ks) as [|x p] eqn:Es; [done|]. rewrite Eg.
    change (GetOp2 t2) with (Some (OP_DUP, [] : list Z), [OP_HASH160; OP_PUBKEYHASH; OP_EQUALVERIFY; OP_CHECKSIG]).
    cbv iota beta. simpl (OP_DUP =? OP_PUBKEYS). cbv iota. unfold match_op. simpl (OP_DUP =? _). cbv iota.
    by destruct (Z.eqb_spec (OP_1 + m - 1) OP_DUP); [lia|]. }
  change (push_op (push_op (push_op (push_op [] OP_SMALLINTEGER) OP_PUBKEYS) OP_SMALLINTEGER) OP_CHECKMULTISIG)
    with [OP_SMALLINTEGER; OP_PUBKEYS; OP_SMALLINTEGER; OP_CHECKMULTISIG].
  change (S (length [OP_SMALLINTEGER; OP_PUBKEYS; OP_SMALLINTEGER; OP_CHECKMULTISIG])) with 5%nat.
  rewrite match_multisig by (done || lia). rewrite bool_decide_eq_true_2 by done.
  enough (multisig_ok ([m] :: ks ++ [[Z.of_nat (length ks)]]) = true) as -> by done.
  unfold multisig_ok. rewrite app_comm_cons, last_app_one. cbn [head hd_error app from_option nthZ].
  rewrite app_comm_cons, length_app. cbn [length]. apply negb_true_iff.
  change (nthZ [?x] 0) with x. rewrite !orb_false_iff, !Z.ltb_ge, negb_false_iff, Z.eqb_eq.
  cbn. lia.
Qed.

Lemma SetMultisig_script {E : ECOps} m keys pubkeys :
  1 <= m <= 16 -> keys <> [] -> (length keys <= 16)%nat -> mapM GetPubKey keys = Some pubkeys ->
  SetMultisig m keys = Some (multisig_script m pubkeys).
Proof.
  intros Hm Hne Hl Hk. pose proof (length_mapM _ _ _ Hk) as Hlen.
  assert (He : forall n, 1 <= n <= 16 -> EncodeOP_N n = Some (OP_1 + n - 1)).
  { intros n Hn. unfold EncodeOP_N. destruct (Z.leb_spec 0 n), (Z.leb_spec n 16); try lia.
    cbn [andb]. by destruct (Z.eqb_spec n 0); [lia|]. }
  assert (1 <= length keys)%nat by (destruct keys; [done|simpl; lia]).
  unfold SetMultisig. rewrite He by lia. cbn [mbind option_bind]. rewrite Hk. cbn [mbind option_bind].
  rewrite He by lia. cbn [mbind option_bind]. unfold multisig_script. rewrite <- Hlen, foldl_push_vch.
  unfold push_op. rewrite !wrap_small by lia. rewrite <- !app_assoc. done.
Qed.

(** ** Claims *)

(** a destination survives the way through a script: [ExtractDestination]
    returns the destination [SetDestination] wrote, [ExtractDestinations] returns
    it alone with one signature required, and [IsStandard] accepts the script. *)
Theorem destination_roundtrip {H : HashOps} (h : list Z) :
  uint_ok WIDTH160 h ->
  ExtractDestination (SetDestination (CKeyID h)).2 = Some (CKeyID h) /\
  ExtractDestination (SetDestination (CScriptID h)).2 = Some (CScriptID h) /\
  ExtractDestinations (SetDestination (CKeyID h)).2 = Some ([CKeyID h], 1) /\
  ExtractDestinations (SetDestination (CScriptID h)).2 = Some ([CScriptID h], 1) /\
  IsStandard (SetDestination (CKeyID h)).2 = (true, TX_PUBKEYHASH) /\
  IsStandard (SetDestination (CScriptID h)).2 = (true, TX_SCRIPTHASH).
Proof.
  intros [Hl Hok]. rewrite SetDestination_key, SetDestination_script. cbn [snd].
  assert (length (limb_bytes h) = 20%nat) as Hb by (by rewrite length_limb_bytes, Hl).
  assert (uint_of_vch WIDTH160 (limb_bytes h) = h) as Hv.
  { unfold uint_of_vch. rewrite Hb. change (_ =? _) with true. cbv iota.
    rewrite <- Hl at 1. by apply limbs_of_bytes_limb_bytes. }
  unfold ExtractDestinations, ExtractDestination, IsStandard. rewrite Solver_p2pkh, Solver_p2sh by done.
  cbn [negb]. cbn -[uint_of_vch limb_bytes]. by rewrite Hv.
Qed.

(** a multisig script built by [SetMultisig] from 1 to 16 keys is recognised
    by [Solver] with the count of signatures, the keys in order and the count of
    keys as solutions; [ExtractDestinations] gives the key hashes in order and the
    signatures required, a spending script needs one argument more, and up to
    three keys the script is standard. *)
Theorem multisig_roundtrip {H : HashOps} {E : ECOps} (m : Z) (keys : list CKey) (pubkeys : list valtype) :
  1 <= m <= Z.of_nat (length keys) -> (length keys <= 16)%nat ->
  mapM GetPubKey keys = Some pubkeys -> Forall (fun k => pubkey_size k = true) pubkeys ->
  exists script, SetMultisig m keys = Some script /\
    Solver script = (true, TX_MULTISIG, [m] :: pubkeys ++ [[Z.of_nat (length keys)]]) /\
    ExtractDestinations script = Some ((fun k => CKeyID (CPubKey_GetID k)) <$> pubkeys, m) /\
    ScriptSigArgsExpected TX_MULTISIG ([m] :: pubkeys ++ [[Z.of_nat (length keys)]]) = m + 1 /\
    (IsStandard script).1 = (Z.of_nat (length keys) <=? 3).
Proof.
  intros Hm Hl Hk Hs. pose proof (length_mapM _ _ _ Hk) as Hlen.
  assert (keys <> []) as Hne by (intros ->; simpl in Hm; lia).
  exists (multisig_script m pubkeys). rewrite (SetMultisig_script m keys pubkeys) by (done || lia).
  assert (Hsz : Z.of_nat (length (multisig_script m pubkeys)) < 2 ^ 32) by (apply multisig_script_size; (done || lia)).
  assert (Hsol : Solver (multisig_script m pubkeys) = (true, TX_MULTISIG, [m] :: pubkeys ++ [[Z.of_nat (length keys)]])).
  { rewrite Hlen. apply Solver_multisig; (done || lia). }
  split_and!; [done|done| |done|].
  - unfold ExtractDestinations. rewrite Hsol. cbn [negb].
    change (drop 1 ([m] :: ?l)) with l. replace (length _ - 2)%nat with (length pubkeys)
      by (cbn [length]; rewrite length_app; cbn [length]; lia).
    by rewrite take_app_length.
  - unfold IsStandard. rewrite Hsol. cbn [negb].
    rewrite app_comm_cons, last_app_one. change (nthZ (default [] (Some [?x])) 0) with x.
    change (nthZ (default [] (head (([m] :: pubkeys) ++ [[Z.of_nat (length keys)]]))) 0) with m.
    destruct (Z.leb_spec (Z.of_nat (length keys)) 3); repeat case_goal; bool_prop; try done; intuition lia.
Qed.

Lemma destination_roundtrip_witness :
  ExtractDestination (H := toy_hash) (SetDestination (CKeyID (assign64 WIDTH160 77))).2 =
  Some (CKeyID (assign64 WIDTH160 77)).
Proof. apply (destination_roundtrip (H := toy_hash)). apply uint_ok_assign64. lia. Defined.

Lemma multisig_roundtrip_witness :
  exists script, SetMultisig 1 [toy_key; toy_key] = Some script /\
    Solver script = (true, TX_MULTISIG, [[1]; toy_pub; toy_pub; [2]]).
Proof.
  destruct (multisig_roundtrip (H := toy_hash) 1 [toy_key; toy_key] [toy_pub; toy_pub])
    as (script & E1 & E2 & _); [cbn; lia|cbn; lia|reflexivity|repeat constructor|].
  exists script. split; [exact E1|exact E2].
Defined.
