(* ===== verification/Verify.v ===== *)
(** * Spending standard outputs: what [VerifyScript] accepts *)

From S2P Require Import Prelude Uint256 BigNum Serialize Hash Script Canonical Transaction.
From S2P Require Import Interp InterpFacts InterpSem InterpSim Key SigCheck Templates.

Section stepping.
Context {B : BNOps} {H : HashOps} {W : Type}.
Context (checksig : valtype -> valtype -> list Z -> W -> option bool * W) (flags : Z).
Implicit Types s : eval_state W.

(** ** Running a script instruction by instruction *)

Lemma eval_loop_fuel fuel pc s :
  (length pc <= fuel)%nat ->
  eval_loop checksig flags fuel pc s = eval_loop checksig flags (length pc) pc s.
Proof.
  revert pc s. induction fuel as [fuel IH] using lt_wf_ind. intros pc s Hf.
  destruct pc as [|x pc]; [by destruct fuel|]. destruct fuel as [|fuel]; [simpl in Hf; lia|].
  cbn [length eval_loop]. destruct (eval_step checksig flags (x :: pc) s) as [[pc'|] s'] eqn:E; [|done].
  apply eval_step_consumes in E as [i E]. apply GetOp2_length in E. cbn [length] in *.
  rewrite (IH fuel), (IH (length pc)) by lia. done.
Qed.

Definition eval_from (pc : list Z) (s : eval_state W) : option (bool * eval_state W) :=
  eval_loop checksig flags (length pc) pc s.

Lemma eval_from_nil s : eval_from [] s = Some (true, s).
Proof. done. Qed.

Lemma eval_from_step pc pc' s s' :
  eval_step checksig flags pc s = (Some pc', s') -> eval_from pc s = eval_from pc' s'.
Proof.
  intros E. pose proof (eval_step_consumes _ _ _ _ _ _ E) as [i Ei]. pose proof (GetOp2_length _ _ _ Ei).
  unfold eval_from. destruct pc as [|x pc]; [done|]. cbn [length eval_loop] in *. rewrite E.
  apply eval_loop_fuel. lia.
Qed.

Lemma eval_from_stop pc s s' :
  pc <> [] -> eval_step checksig flags pc s = (None, s') -> eval_from pc s = Some (false, s').
Proof.
  intros Hne E. unfold eval_from. destruct pc as [|x pc]; [done|]. cbn [length eval_loop]. by rewrite E.
Qed.

(** Straight-line states: not inside a conditional, and room on the stacks *)
Definition plain_state (s : eval_state W) : Prop :=
  vfExec s = [] /\ altstack s = [].

Lemma step_push d rest s :
  plain_state s -> (length d <= 520)%nat -> (length (stack s) < 1000)%nat ->
  Z.of_nat (length (d ++ rest)) < 2 ^ 32 ->
  eval_step checksig flags (push_vch [] d ++ rest) s = (Some rest, with_stack s (d :: stack s)).
Proof.
  intros [Hv Ha] Hd Hs Hl. rewrite (eval_step_read _ _ _ _ _ _ _ (GetOp2_push d rest Hl)). rewrite Hv.
  destruct (Z.ltb_spec 520 (Z.of_nat (length d))); [lia|].
  assert (0 <= push_opcode d <= OP_PUSHDATA4) as Hop
    by (unfold push_opcode; repeat case_goal; bool_prop; lia).
  destruct (Z.ltb_spec OP_16 (push_opcode d)); [lia|]. unfold mret at 1, M_ret. cbv iota beta.
  assert (disabled (push_opcode d) = false) as ->.
  { unfold disabled, one_of. cbn [existsb]. repeat (rewrite orb_false_iff; split); try done;
      apply Z.eqb_neq; lia. }
  cbv zeta. cbn [forallb andb].
  destruct (Z.leb_spec 0 (push_opcode d)), (Z.leb_spec (push_opcode d) OP_PUSHDATA4); try lia. cbn [andb].
  change (push d s) with (Some tt, with_stack s (d :: stack s)). cbv iota beta.
  cbn [stack altstack with_stack length]. rewrite Ha. cbn [length].
  by destruct (Z.ltb_spec 1000 (Z.of_nat (S (length (stack s))) + Z.of_nat 0)); [lia|].
Qed.

(** An operation executed outside conditionals *)
Lemma step_op opcode pc s :
  plain_state s -> OP_16 < opcode -> disabled opcode = false -> nOpCount s + 1 <= 201 ->
  eval_step checksig flags (opcode :: pc) s =
  match exec_op checksig flags true opcode pc (add_op_count s 1) with
  | (None, s2) => (None, s2)
  | (Some _, s2) =>
      if 1000 <? Z.of_nat (length (stack s2)) + Z.of_nat (length (altstack s2))
      then (None, s2) else (Some pc, s2)
  end.
Proof.
  intros [Hv Ha] Hop Hd Hn. rewrite (eval_step_read _ _ _ _ _ _ _ (GetOp2_op opcode pc ltac:(lia))). rewrite Hv.
  cbn [length]. destruct (Z.ltb_spec OP_16 opcode); [|lia]. simpl (520 <? Z.of_nat 0). cbv iota.
  rewrite charge_run by done. rewrite Hd. cbv zeta. cbn [forallb andb orb].
  destruct (Z.leb_spec opcode OP_PUSHDATA4); [lia|]. by rewrite andb_false_r.
Qed.

(** The answer of the canonical checks and the checker together *)
Definition check_result (code sig key : list Z) (w : W) : option bool * W :=
  if IsCanonicalSignature sig flags && IsCanonicalPubKey key flags
  then checksig sig key code w else (Some false, w).

Definition with_world (s : eval_state W) (w : W) : eval_state W :=
  mkState (stack s) (altstack s) (vfExec s) (pbegincodehash s) (nOpCount s) w.

Lemma check_one_eq code sig key s :
  check_one checksig flags code sig key s =
  let '(r, w) := check_result code sig key (world s) in (r, with_world s w).
Proof.
  unfold check_one, check_result. destruct (_ && _); [done|]. by destruct s.
Qed.

(** The operations of the standard scripts *)
Lemma run_dup v st s :
  stack s = v :: st -> exec_dup s = (Some tt, with_stack s (v :: v :: st)).
Proof.
  intros E. unfold exec_dup. run_with ltac:(apply need_run; rewrite E; cbn; lia).
  run_with ltac:(apply (stacktop_run 1); by rewrite E). unfold push, mbind, M_bind, gets. by rewrite E.
Qed.

Lemma run_hash160 v st s :
  stack s = v :: st -> exec_hash OP_HASH160 s = (Some tt, with_stack s (limb_bytes (Hash160 v) :: st)).
Proof.
  intros E. unfold exec_hash. run_with ltac:(apply need_run; rewrite E; cbn; lia).
  run_with ltac:(apply (stacktop_run 1); by rewrite E).
  rewrite <- (with_stack_id s), E at 1. by run_with ltac:(apply popstack_run).
Qed.

Lemma run_equal opcode v1 v2 st s :
  stack s = v2 :: v1 :: st ->
  exec_equal opcode s =
  let b := bool_decide (v1 = v2) in
  if opcode =? OP_EQUALVERIFY then
    if b then (Some tt, with_stack s st) else (None, with_stack s (vchFalse :: st))
  else (Some tt, with_stack s (bool_vch b :: st)).
Proof.
  intros E. unfold exec_equal. run_with ltac:(apply need_run; rewrite E; cbn; lia).
  run_with ltac:(apply (stacktop_run 2); by rewrite E). run_with ltac:(apply (stacktop_run 1); by rewrite E).
  rewrite <- (with_stack_id s), E at 1. do 2 run_with ltac:(apply popstack_run).
  run_with ltac:(apply push_run). destruct (opcode =? OP_EQUALVERIFY); [|done]. by case_goal.
Qed.

Lemma run_checksig key sig st s :
  stack s = key :: sig :: st ->
  exec_checksig checksig flags OP_CHECKSIG s =
  let code := (FindAndDelete (pbegincodehash s) (push_vch [] sig)).1 in
  match check_result code sig key (world s) with
  | (Some b, w) => (Some tt, with_stack (with_world s w) (bool_vch b :: st))
  | (None, w) => (None, with_world s w)
  end.
Proof.
  intros E. unfold exec_checksig. run_with ltac:(apply need_run; rewrite E; cbn; lia).
  run_with ltac:(apply (stacktop_run 2); by rewrite E). run_with ltac:(apply (stacktop_run 1); by rewrite E).
  run_with ltac:(done). unfold mbind at 1, M_bind at 1. rewrite check_one_eq.
  destruct (check_result _ sig key (world s)) as [[b|] w]; [|done].
  rewrite <- (with_stack_id (with_world s w)) at 1. cbn [stack with_world]. rewrite E.
  do 2 run_with ltac:(apply popstack_run). by run_with ltac:(apply push_run).
Qed.
End stepping.

Section standard.
Context {B : BNOps} {H : HashOps} {HL : HashLaws H} {W : Type}.
Context (checksig : valtype -> valtype -> list Z -> W -> option bool * W) (flags : Z).

(** Evaluate a script from its beginning *)
Lemma EvalScript_from st script (w : W) :
  Z.of_nat (length script) <= 10000 ->
  EvalScript_in checksig flags st script w =
  match eval_from checksig flags script (init_state st script w) with
  | Some (b, s) => (b && match vfExec s with [] => true | _ => false end, stack s, world s)
  | None => (false, st, w)
  end.
Proof.
  intros Hl. unfold EvalScript_in. by destruct (Z.ltb_spec 10000 (Z.of_nat (length script))); [lia|].
Qed.

(** One more operation that goes on *)
Ltac op_step tac :=
  erewrite eval_from_step; [|rewrite step_op; [|done|done|done|cbn; lia];
    unfold exec_op; cbn [one_of existsb orb andb Z.eqb Z.leb Z.compare Pos.compare Pos.compare_cont Pos.eqb];
    rewrite tac; cbn [stack altstack with_stack add_op_count init_state length];
    rewrite (proj2 (Z.ltb_ge _ _)) by (cbn; lia); reflexivity].

(** A [scriptSig] that pushes two elements *)
Lemma eval_two_pushes a b (w : W) :
  (length a <= 520)%nat -> (length b <= 520)%nat ->
  EvalScript_in checksig flags [] (push_vch (push_vch [] a) b) w = (true, [b; a], w).
Proof.
  intros Ha Hb. rewrite push_vch_app.
  assert (Hlen : forall d, (length d <= 520)%nat -> (length (push_vch [] d) <= 525)%nat).
  { intros d Hd. unfold push_vch. rewrite app_nil_l, length_app.
    repeat case_goal; bool_prop; cbn [length]; rewrite ?length_to_digits; lia. }
  pose proof (Hlen a Ha). pose proof (Hlen b Hb).
  rewrite EvalScript_from by (rewrite length_app; lia).
  erewrite eval_from_step; [|apply step_push; [done|lia|cbn; lia|rewrite length_app; lia]].
  rewrite <- (app_nil_r (push_vch [] b)).
  by erewrite eval_from_step; [|apply step_push; [done|lia|cbn; lia|rewrite length_app; cbn; lia]].
Qed.

Lemma eval_p2pkh bs key sig (w : W) :
  length bs = 20%nat ->
  EvalScript_in checksig flags [key; sig] (p2pkh_script bs) w =
  if bool_decide (limb_bytes (Hash160 key) = bs) then
    match check_result checksig flags (FindAndDelete (p2pkh_script bs) (push_vch [] sig)).1 sig key w with
    | (Some b, w') => (true, [bool_vch b], w')
    | (None, w') => (false, [key; sig], w')
    end
  else (false, [vchFalse; key; sig], w).
Proof.
  intros Hl. rewrite EvalScript_from by (unfold p2pkh_script; rewrite !length_app, Hl; cbn; lia).
  set (script := p2pkh_script bs). unfold p2pkh_script in script.
  change (eval_from checksig flags script) with
    (eval_from checksig flags (OP_DUP :: OP_HASH160 :: 0x14 :: bs ++ [OP_EQUALVERIFY; OP_CHECKSIG])).
  op_step (run_dup key [sig] (add_op_count (init_state [key; sig] script w) 1) eq_refl).
  set (s1 := with_stack _ _).
  op_step (run_hash160 key [key; sig] (add_op_count s1 1) eq_refl). set (s2 := with_stack _ _).
  change (0x14 :: bs ++ [OP_EQUALVERIFY; OP_CHECKSIG]) with
    (([0x14] ++ bs) ++ [OP_EQUALVERIFY; OP_CHECKSIG] : list Z).
  replace ([0x14] ++ bs) with (push_vch [] bs) by (unfold push_vch; by rewrite Hl).
  erewrite eval_from_step; [|apply step_push; [done|lia|cbn; lia|rewrite length_app, Hl; cbn; lia]].
  set (s3 := with_stack s2 _).
  pose proof (run_equal OP_EQUALVERIFY (limb_bytes (Hash160 key)) bs [key; sig] (add_op_count s3 1) eq_refl) as Eq.
  cbv zeta in Eq. simpl (OP_EQUALVERIFY =? _) in Eq. cbv iota in Eq.
  destruct (bool_decide (limb_bytes (Hash160 key) = bs)).
  - op_step Eq. set (s4 := with_stack _ _).
    pose proof (run_checksig checksig flags key sig [] (add_op_count s4 1) eq_refl) as Ec. cbv zeta in Ec.
    change (pbegincodehash (add_op_count s4 1)) with script in Ec.
    change (world (add_op_count s4 1)) with w in Ec. fold (p2pkh_script bs) in *.
    destruct (check_result _ _ _ _ _ w) as [[b|] w'].
    + op_step Ec. done.
    + erewrite eval_from_stop; [|done|rewrite step_op; [|done|done|done|cbn; lia]; unfold exec_op; cbn [one_of existsb orb andb Z.eqb Z.leb Z.compare Pos.compare Pos.compare_cont Pos.eqb]; rewrite Ec; reflexivity].
      done.
  - erewrite eval_from_stop; [|done|rewrite step_op; [|done|done|done|cbn; lia]; unfold exec_op; cbn [one_of existsb orb andb Z.eqb Z.leb Z.compare Pos.compare Pos.compare_cont Pos.eqb]; rewrite Eq; reflexivity].
    done.
Qed.

Lemma eval_p2sh bs redeem st (w : W) :
  length bs = 20%nat -> (length st < 999)%nat ->
  EvalScript_in checksig flags (redeem :: st) (p2sh_script bs) w =
  (true, bool_vch (bool_decide (limb_bytes (Hash160 redeem) = bs)) :: st, w).
Proof.
  intros Hl Hst. rewrite EvalScript_from by (unfold p2sh_script; rewrite !length_app, Hl; cbn; lia).
  set (script := p2sh_script bs). unfold p2sh_script in script.
  change (eval_from checksig flags script) with
    (eval_from checksig flags (OP_HASH160 :: 0x14 :: bs ++ [OP_EQUAL])).
  op_step (run_hash160 redeem st (add_op_count (init_state (redeem :: st) script w) 1) eq_refl).
  set (s1 := with_stack _ _).
  change (0x14 :: bs ++ [OP_EQUAL]) with (([0x14] ++ bs) ++ [OP_EQUAL] : list Z).
  replace ([0x14] ++ bs) with (push_vch [] bs) by (unfold push_vch; by rewrite Hl).
  erewrite eval_from_step; [|apply step_push; [done|lia|cbn; lia|rewrite length_app, Hl; cbn; lia]].
  set (s2 := with_stack s1 _).
  pose proof (run_equal OP_EQUAL (limb_bytes (Hash160 redeem)) bs st (add_op_count s2 1) eq_refl) as Eq.
  cbv zeta in Eq. simpl (OP_EQUAL =? _) in Eq. cbv iota in Eq. op_step Eq. done.
Qed.
End standard.

Section standard_facts.
Context {B : BNOps} {H : HashOps} {HL : HashLaws H}.

Lemma p2pkh_not_p2sh bs : length bs = 20%nat -> IsPayToScriptHash (p2pkh_script bs) = false.
Proof. intros Hl. spell_20 bs Hl. reflexivity. Qed.

Lemma p2sh_is_p2sh bs : length bs = 20%nat -> IsPayToScriptHash (p2sh_script bs) = true.
Proof. intros Hl. spell_20 bs Hl. reflexivity. Qed.

Lemma length_Hash160_bytes h : uint_ok WIDTH160 h -> length (limb_bytes h) = 20%nat.
Proof. intros [Hl _]. by rewrite length_limb_bytes, Hl. Qed.

Lemma top_true_bool b st : top_true (bool_vch b :: st) = b.
Proof. by destruct b. Qed.

Lemma limb_bytes_eq h1 h2 :
  uint_ok WIDTH160 h1 -> uint_ok WIDTH160 h2 -> limb_bytes h1 = limb_bytes h2 -> h1 = h2.
Proof.
  intros [L1 O1] [L2 O2] E. rewrite <- (limbs_of_bytes_limb_bytes h1), <- (limbs_of_bytes_limb_bytes h2) by done.
  by rewrite E, L1, L2.
Qed.

Lemma limb_bytes_decide (h1 h2 : list Z) :
  uint_ok WIDTH160 h1 -> uint_ok WIDTH160 h2 ->
  bool_decide (limb_bytes h1 = limb_bytes h2) = bool_decide (h1 = h2).
Proof. intros. apply bool_decide_ext. split; [by apply limb_bytes_eq|by intros ->]. Qed.
End standard_facts.

(** ** Claims *)

(** spending an output paid to a key hash by pushing a signature and a public
    key succeeds exactly when the key hashes to the destination's hash and the
    signature is canonical and checks against that output's own script (with the
    signature removed from it); when the hash differs no signature is checked. *)
Theorem spend_key_hash {B : BNOps} {H : HashOps} {HL : HashLaws H} {W : Type}
    (checksig : valtype -> valtype -> list Z -> W -> option bool * W) (flags : Z)
    (h sig key : list Z) (w : W) :
  uint_ok WIDTH160 h -> (length sig <= 520)%nat -> (length key <= 520)%nat ->
  let scriptPubKey := (SetDestination (CKeyID h)).2 in
  let code := (FindAndDelete scriptPubKey (push_vch [] sig)).1 in
  VerifyScript_in checksig flags (push_vch (push_vch [] sig) key) scriptPubKey w =
  if negb (bool_decide (Hash160 key = h)) then (false, w)
  else if negb (IsCanonicalSignature sig flags && IsCanonicalPubKey key flags) then (false, w)
  else let '(r, w') := checksig sig key code w in (default false r, w').
Proof.
  intros Hh Hs Hk scriptPubKey code. subst code scriptPubKey. rewrite SetDestination_key. cbn [snd].
  pose proof (length_Hash160_bytes h Hh) as Hb. unfold VerifyScript_in.
  rewrite eval_two_pushes by done. cbn [negb]. rewrite eval_p2pkh by done.
  rewrite limb_bytes_decide by (apply Hash160_ok || done).
  destruct (bool_decide (Hash160 key = h)); [|done]. cbn [negb]. unfold check_result.
  destruct (_ && _); cbn [negb].
  - destruct (checksig _ _ _ w) as [[b|] w']; [|done]. cbn [negb default]. rewrite top_true_bool.
    destruct b; [|done]. cbn [negb]. rewrite p2pkh_not_p2sh by done. by rewrite andb_false_r.
  - cbn [negb]. by rewrite top_true_bool.
Qed.

(** spending an output paid to a script hash, once the spending script has left
    the serialized redeem script on top of [st], demands that it hash to the
    destination; under [SCRIPT_VERIFY_P2SH] the spending script must moreover only
    push, and the redeem script must itself evaluate to true on the rest of the
    stack; without the flag the hash alone decides. *)
Theorem spend_script_hash {B : BNOps} {H : HashOps} {HL : HashLaws H} {W : Type}
    (checksig : valtype -> valtype -> list Z -> W -> option bool * W) (flags : Z)
    (h scriptSig redeem : list Z) (st : list valtype) (w w1 : W) :
  uint_ok WIDTH160 h -> EvalScript_in checksig flags [] scriptSig w = (true, redeem :: st, w1) ->
  (length st < 999)%nat ->
  VerifyScript_in checksig flags scriptSig (SetDestination (CScriptID h)).2 w =
  if negb (bool_decide (Hash160 redeem = h)) then (false, w1)
  else if negb (has_flag flags SCRIPT_VERIFY_P2SH) then (true, w1)
  else if negb (IsPushOnly scriptSig) then (false, w1)
  else let '(ok, st', w2) := EvalScript_in checksig flags st redeem w1 in (ok && top_true st', w2).
Proof.
  intros Hh He Hst. rewrite SetDestination_script. cbn [snd].
  pose proof (length_Hash160_bytes h Hh) as Hb. unfold VerifyScript_in. rewrite He. cbn [negb].
  rewrite eval_p2sh by done. cbn [negb]. rewrite top_true_bool.
  rewrite limb_bytes_decide by (apply Hash160_ok || done).
  destruct (bool_decide (Hash160 redeem = h)); [|done]. cbn [negb]. rewrite p2sh_is_p2sh by done.
  rewrite andb_true_r. by destruct (has_flag flags SCRIPT_VERIFY_P2SH); [|done].
Qed.

(** The toy key spends an output paid to it. *)
Lemma spend_key_hash_witness :
  VerifyScript_in (B := ZBN) (H := toy_hash) (fun _ _ _ (w : unit) => (Some true, w)) 0
    (push_vch (push_vch [] [1]) toy_pub) (SetDestination (CKeyID (Hash160 (H := toy_hash) toy_pub))).2 tt = (true, tt).
Proof.
  rewrite (spend_key_hash (B := ZBN) (H := toy_hash) _ 0 (Hash160 (H := toy_hash) toy_pub) [1] toy_pub tt).
  - vm_compute. reflexivity.
  - apply Hash160_ok.
  - cbn. lia.
  - cbn. lia.
Defined.

(** A redeem script that leaves true *)
Lemma spend_script_hash_witness :
  VerifyScript_in (B := ZBN) (H := toy_hash) (fun _ _ _ (w : unit) => (None, w)) SCRIPT_VERIFY_P2SH
    (push_vch [] [0x51]) (SetDestination (CScriptID (Hash160 (H := toy_hash) [0x51]))).2 tt = (true, tt).
Proof.
  rewrite (spend_script_hash (B := ZBN) (H := toy_hash) _ SCRIPT_VERIFY_P2SH (Hash160 (H := toy_hash) [0x51])
    (push_vch [] [0x51]) [0x51] [] tt tt).
  - vm_compute. reflexivity.
  - apply Hash160_ok.
  - vm_compute. reflexivity.
  - cbn. lia.
Defined.
