(* ===== verification/KeyStore.v ===== *)
(** * [crypter.h], [crypter.cpp], [keystore.h], [keystore.cpp]: key stores

    OpenSSL's AES and key derivation are the class [CipherOps].  The class
    [CKeyStore] is the virtual base class: what signing and the wallet read from a
    store.  [CBasicKeyStore] and [CCryptoKeyStore] are state records; an
    operation that can throw returns [None] for it.  The locks and the status
    signal are not modelled. *)

From stdpp Require Import sorting.
From S2P Require Import Prelude Uint256 BigNum Serialize Hash Transaction Script Canonical.
From S2P Require Import Interp InterpFacts InterpSem InterpSim Key SigCheck Templates.

(** ** [CCrypter] *)

Definition WALLET_CRYPTO_KEY_SIZE : Z := 32.
Definition WALLET_CRYPTO_SALT_SIZE : Z := 8.

Class CipherOps := {
  (** the number of bytes derived, the key and the initialisation vector *)
  EVP_BytesToKey : list Z -> list Z -> Z -> Z * list Z * list Z;
  aes_256_cbc_encrypt : list Z -> list Z -> list Z -> option (list Z);
  aes_256_cbc_decrypt : list Z -> list Z -> list Z -> option (list Z)
}.

Class CipherLaws (C : CipherOps) := {
  aes_decrypt_encrypt key iv p c :
    aes_256_cbc_encrypt key iv p = Some c -> aes_256_cbc_decrypt key iv c = Some p
}.

Record CCrypter := mkCrypter { chKey : list Z; chIV : list Z; fKeySet : bool }.
Definition CCrypter_new : CCrypter := mkCrypter [] [] false.

Section crypter.
Context {C : CipherOps}.

(** A failed derivation clears the key and leaves [fKeySet] alone. *)
Definition SetKeyFromPassphrase (c : CCrypter) (strKeyData chSalt : list Z) (nRounds nDerivationMethod : Z) :
    bool * CCrypter :=
  if (nRounds <? 1) || negb (Z.of_nat (length chSalt) =? WALLET_CRYPTO_SALT_SIZE) then (false, c)
  else
    let '(i, key, iv) :=
      if nDerivationMethod =? 0 then EVP_BytesToKey chSalt strKeyData nRounds else (0, chKey c, chIV c) in
    if negb (i =? WALLET_CRYPTO_KEY_SIZE) then (false, mkCrypter (replicate 32 0) (replicate 32 0) (fKeySet c))
    else (true, mkCrypter key iv true).

Definition SetKey (c : CCrypter) (chNewKey chNewIV : list Z) : bool * CCrypter :=
  if negb (Z.of_nat (length chNewKey) =? WALLET_CRYPTO_KEY_SIZE) ||
     negb (Z.of_nat (length chNewIV) =? WALLET_CRYPTO_KEY_SIZE) then (false, c)
  else (true, mkCrypter chNewKey chNewIV true).

Definition CleanKey (c : CCrypter) : CCrypter := mkCrypter (replicate 32 0) (replicate 32 0) false.

(** [None]: the call returns [false] *)
Definition Encrypt (c : CCrypter) (vchPlaintext : list Z) : option (list Z) :=
  if negb (fKeySet c) then None else aes_256_cbc_encrypt (chKey c) (chIV c) vchPlaintext.
Definition Decrypt (c : CCrypter) (vchCiphertext : list Z) : option (list Z) :=
  if negb (fKeySet c) then None else aes_256_cbc_decrypt (chKey c) (chIV c) vchCiphertext.

Definition EncryptSecret (vMasterKey vchPlaintext nIV : list Z) : option (list Z) :=
  let '(ok, c) := SetKey CCrypter_new vMasterKey (limb_bytes nIV) in
  if negb ok then None else Encrypt c vchPlaintext.
Definition DecryptSecret (vMasterKey vchCiphertext nIV : list Z) : option (list Z) :=
  let '(ok, c) := SetKey CCrypter_new vMasterKey (limb_bytes nIV) in
  if negb ok then None else Decrypt c vchCiphertext.
End crypter.

(** ** The interface *)

Class CKeyStore {E : ECOps} := {
  HaveKey : list Z -> bool;
  (** [None] throws, [Some None] returns false *)
  GetKey : list Z -> option (option CKey);
  ks_GetPubKey : list Z -> option (option (list Z));
  HaveCScript : list Z -> bool;
  GetCScript : list Z -> option (list Z);
  HaveWatchOnly : list Z -> bool
}.

(** What a client relies on: a key found under an address hashes to it. *)
Class CKeyStoreLaws {E : ECOps} {H : HashOps} (K : CKeyStore) := {
  GetKey_have id k : GetKey id = Some (Some k) -> HaveKey id = true;
  GetKey_id id k : GetKey id = Some (Some k) -> exists pub, GetPubKey k = Some pub /\ Hash160 pub = id;
  GetPubKey_id id k : GetKey id = Some (Some k) -> ks_GetPubKey id = Some (GetPubKey k);
  GetCScript_id id script : GetCScript id = Some script -> Hash160 script = id
}.

(** ** [CBasicKeyStore] *)

Section basic.
Context {E : ECOps} {S : ECSecretOps E} {H : HashOps}.

Record CBasicKeyStore := mkBasic {
  mapKeys : gmap (list Z) (list Z * bool);
  mapScripts : gmap (list Z) (list Z);
  setWatchOnly : gset (list Z)
}.

Definition basic_empty : CBasicKeyStore := mkBasic ∅ ∅ ∅.

Definition basic_AddKey (s : CBasicKeyStore) (key : CKey) : option (bool * CBasicKeyStore) :=
  '(secret, fCompressed) ← GetSecret key;
  pub ← GetPubKey key;
  Some (true, mkBasic (<[CPubKey_GetID pub := (secret, fCompressed)]> (mapKeys s)) (mapScripts s) (setWatchOnly s)).

Definition basic_HaveKey (s : CBasicKeyStore) (address : list Z) : bool :=
  bool_decide (is_Some (mapKeys s !! address)).

Definition basic_GetKeys (s : CBasicKeyStore) : gset (list Z) := dom (mapKeys s).

Definition basic_GetKey (s : CBasicKeyStore) (address : list Z) : option (option CKey) :=
  match mapKeys s !! address with
  | Some (secret, fCompressed) => k ← SetSecret CKey_Reset secret fCompressed; Some (Some k)
  | None => Some None
  end.

(** [CKeyStore::GetPubKey] over a [GetKey] *)
Definition base_GetPubKey (get : list Z -> option (option CKey)) (address : list Z) : option (option (list Z)) :=
  r ← get address;
  match r with
  | Some key => pub ← GetPubKey key; Some (Some pub)
  | None => Some None
  end.

Definition basic_AddCScript (s : CBasicKeyStore) (redeemScript : list Z) : bool * CBasicKeyStore :=
  if MAX_SCRIPT_ELEMENT_SIZE <? Z.of_nat (length redeemScript) then (false, s)
  else (true, mkBasic (mapKeys s) (<[GetID redeemScript := redeemScript]> (mapScripts s)) (setWatchOnly s)).

Definition basic_HaveCScript (s : CBasicKeyStore) (hash : list Z) : bool :=
  bool_decide (is_Some (mapScripts s !! hash)).
Definition basic_GetCScript (s : CBasicKeyStore) (hash : list Z) : option (list Z) := mapScripts s !! hash.

(** [HaveKey] is virtual: the store that derives from this one passes its own.
    [GetKeyID] leaves the address zero unless the destination is a key's. *)
Definition basic_AddWatchOnly (have : list Z -> bool) (s : CBasicKeyStore) (dest : list Z) : bool * CBasicKeyStore :=
  let blocked :=
    match ExtractDestination dest with
    | Some (CKeyID id) => have id
    | Some _ => have (assign64 WIDTH160 0)
    | None => false
    end in
  if blocked then (false, s)
  else (true, mkBasic (mapKeys s) (mapScripts s) ({[dest]} ∪ setWatchOnly s)).

Definition basic_HaveWatchOnly (s : CBasicKeyStore) (dest : list Z) : bool := bool_decide (dest ∈ setWatchOnly s).

Definition basic_keystore (s : CBasicKeyStore) : CKeyStore := {|
  HaveKey := basic_HaveKey s;
  GetKey := basic_GetKey s;
  ks_GetPubKey := base_GetPubKey (basic_GetKey s);
  HaveCScript := basic_HaveCScript s;
  GetCScript := basic_GetCScript s;
  HaveWatchOnly := basic_HaveWatchOnly s
|}.

(** ** [CCryptoKeyStore] *)

Context {C : CipherOps}.

Record CCryptoKeyStore := mkCrypto {
  basic : CBasicKeyStore;
  mapCryptedKeys : gmap (list Z) (list Z * list Z);
  vMasterKey : list Z;
  fUseCrypto : bool
}.

Definition crypto_empty : CCryptoKeyStore := mkCrypto basic_empty ∅ [] false.

Definition IsCrypted (s : CCryptoKeyStore) : bool := fUseCrypto s.
Definition IsLocked (s : CCryptoKeyStore) : bool :=
  if negb (IsCrypted s) then false else match vMasterKey s with [] => true | _ => false end.

Definition with_basic (s : CCryptoKeyStore) (b : CBasicKeyStore) : CCryptoKeyStore :=
  mkCrypto b (mapCryptedKeys s) (vMasterKey s) (fUseCrypto s).
Definition with_master (s : CCryptoKeyStore) (m : list Z) : CCryptoKeyStore :=
  mkCrypto (basic s) (mapCryptedKeys s) m (fUseCrypto s).

Definition SetCrypted (s : CCryptoKeyStore) : bool * CCryptoKeyStore :=
  if fUseCrypto s then (true, s)
  else if negb (bool_decide (mapKeys (basic s) = ∅)) then (false, s)
  else (true, mkCrypto (basic s) (mapCryptedKeys s) (vMasterKey s) true).

Definition Lock (s : CCryptoKeyStore) : bool * CCryptoKeyStore :=
  let '(ok, s) := SetCrypted s in
  if negb ok then (false, s) else (true, with_master s []).

(** [std::map] iterates in the order of the keys. *)
Definition entry_le {A} (x y : list Z * A) : Prop := op_le x.1 y.1 = true.
#[export] Instance entry_le_dec {A} : RelDecision (@entry_le A).
Proof. intros x y. unfold entry_le. apply _. Defined.
Definition map_entries {A} (m : gmap (list Z) A) : list (list Z * A) := merge_sort entry_le (map_to_list m).

(** The key rebuilt from a decrypted secret: [key.SetPubKey(vchPubKey);
    key.SetSecret(vchSecret);] on [keyOut] *)
Definition rebuild_key (keyOut : CKey) (vchPubKey vchSecret : list Z) : option CKey :=
  SetSecret (SetPubKey keyOut vchPubKey).2 vchSecret false.

(** Only the first entry is tried. *)
Definition Unlock (s : CCryptoKeyStore) (vMasterKeyIn : list Z) : option (bool * CCryptoKeyStore) :=
  let '(ok, s) := SetCrypted s in
  if negb ok then Some (false, s)
  else
    match map_entries (mapCryptedKeys s) with
    | [] => Some (true, with_master s vMasterKeyIn)
    | (_, (vchPubKey, vchCryptedSecret)) :: _ =>
        match DecryptSecret vMasterKeyIn vchCryptedSecret (CPubKey_GetHash vchPubKey) with
        | None => Some (false, s)
        | Some vchSecret =>
            if negb (Z.of_nat (length vchSecret) =? 32) then Some (false, s)
            else
              key ← rebuild_key CKey_Reset vchPubKey vchSecret;
              pub ← GetPubKey key;
              if bool_decide (pub = vchPubKey) then Some (true, with_master s vMasterKeyIn) else Some (false, s)
        end
    end.

Definition AddCryptedKey (s : CCryptoKeyStore) (vchPubKey vchCryptedSecret : list Z) : bool * CCryptoKeyStore :=
  let '(ok, s) := SetCrypted s in
  if negb ok then (false, s)
  else (true, mkCrypto (basic s) (<[CPubKey_GetID vchPubKey := (vchPubKey, vchCryptedSecret)]> (mapCryptedKeys s))
          (vMasterKey s) (fUseCrypto s)).

Definition crypto_AddKey (s : CCryptoKeyStore) (key : CKey) : option (bool * CCryptoKeyStore) :=
  pub ← GetPubKey key;
  let script := (SetDestination (CKeyID (CPubKey_GetID pub))).2 in
  if basic_HaveWatchOnly (basic s) script then Some (false, s)
  else if negb (IsCrypted s) then
    '(ok, b) ← basic_AddKey (basic s) key; Some (ok, with_basic s b)
  else if IsLocked s then Some (false, s)
  else
    '(secret, _) ← GetSecret key;
    match EncryptSecret (vMasterKey s) secret (CPubKey_GetHash pub) with
    | None => Some (false, s)
    | Some vchCryptedSecret => Some (AddCryptedKey s pub vchCryptedSecret)
    end.

Definition crypto_HaveKey (s : CCryptoKeyStore) (address : list Z) : bool :=
  if negb (IsCrypted s) then basic_HaveKey (basic s) address
  else bool_decide (is_Some (mapCryptedKeys s !! address)).

Definition crypto_GetKey (s : CCryptoKeyStore) (keyOut : CKey) (address : list Z) : option (option CKey) :=
  if negb (IsCrypted s) then basic_GetKey (basic s) address
  else
    match mapCryptedKeys s !! address with
    | None => Some None
    | Some (vchPubKey, vchCryptedSecret) =>
        match DecryptSecret (vMasterKey s) vchCryptedSecret (CPubKey_GetHash vchPubKey) with
        | None => Some None
        | Some vchSecret =>
            if negb (Z.of_nat (length vchSecret) =? 32) then Some None
            else key ← rebuild_key keyOut vchPubKey vchSecret; Some (Some key)
        end
    end.

Definition crypto_GetPubKey (s : CCryptoKeyStore) (address : list Z) : option (option (list Z)) :=
  if negb (IsCrypted s) then base_GetPubKey (crypto_GetKey s CKey_Reset) address
  else
    match mapCryptedKeys s !! address with
    | Some (vchPubKey, _) => Some (Some vchPubKey)
    | None => Some None
    end.

Definition crypto_GetKeys (s : CCryptoKeyStore) : gset (list Z) :=
  if negb (IsCrypted s) then basic_GetKeys (basic s) else dom (mapCryptedKeys s).

(** One round of [EncryptKeys]; [inr] goes on *)
Definition encrypt_one (vMasterKeyIn : list Z) (s : CCryptoKeyStore) (mKey : list Z * (list Z * bool)) :
    option (CCryptoKeyStore + CCryptoKeyStore) :=
  key ← SetSecret CKey_Reset mKey.2.1 mKey.2.2;
  vchPubKey ← GetPubKey key;
  '(secret, _) ← GetSecret key;
  match EncryptSecret vMasterKeyIn secret (CPubKey_GetHash vchPubKey) with
  | None => Some (inl s)
  | Some vchCryptedSecret =>
      let '(ok, s) := AddCryptedKey s vchPubKey vchCryptedSecret in
      Some (if ok then inr s else inl s)
  end.

Fixpoint encrypt_loop (vMasterKeyIn : list Z) (l : list (list Z * (list Z * bool))) (s : CCryptoKeyStore) :
    option (CCryptoKeyStore + CCryptoKeyStore) :=
  match l with
  | [] => Some (inr s)
  | mKey :: l =>
      r ← encrypt_one vMasterKeyIn s mKey;
      match r with
      | inl s => Some (inl s)
      | inr s => encrypt_loop vMasterKeyIn l s
      end
  end.

Definition EncryptKeys (s : CCryptoKeyStore) (vMasterKeyIn : list Z) : option (bool * CCryptoKeyStore) :=
  if negb (bool_decide (mapCryptedKeys s = ∅)) || IsCrypted s then Some (false, s)
  else
    let s := mkCrypto (basic s) (mapCryptedKeys s) (vMasterKey s) true in
    r ← encrypt_loop vMasterKeyIn (map_entries (mapKeys (basic s))) s;
    match r with
    | inl s => Some (false, s)
    | inr s => Some (true, with_basic s (mkBasic ∅ (mapScripts (basic s)) (setWatchOnly (basic s))))
    end.

(** [keyOut] is a fresh key wherever the program asks a store for one. *)
Definition crypto_keystore (s : CCryptoKeyStore) : CKeyStore := {|
  HaveKey := crypto_HaveKey s;
  GetKey := crypto_GetKey s CKey_Reset;
  ks_GetPubKey := crypto_GetPubKey s;
  HaveCScript := basic_HaveCScript (basic s);
  GetCScript := basic_GetCScript (basic s);
  HaveWatchOnly := basic_HaveWatchOnly (basic s)
|}.
End basic.

(** ** Lemmas: secrets and stored keys *)

Section facts.
Context {E : ECOps} {S : ECSecretOps E} {SL : ECSecretLaws E S} {H : HashOps} {C : CipherOps} {CL : CipherLaws C}.

(** A secret is 32 bytes. *)
Definition secret_ok (secret : list Z) : Prop := bytes_ok secret /\ length secret = 32%nat.

Lemma be_val_rev_le d : 0 <= d < 2 ^ 256 -> be_val (rev (le_bytes 32 d)) = d.
Proof.
  intros Hd. unfold be_val. rewrite rev_involutive. apply le_bytes_roundtrip. unfold fits. change (2 ^ (8 * Z.of_nat 32)) with (2 ^ 256). lia.
Qed.

Lemma secret_bytes secret : secret_ok secret -> rev (le_bytes 32 (be_val secret)) = secret.
Proof.
  intros [Hb Hl]. unfold be_val. rewrite le_val_roundtrip by (rewrite ?length_rev; try done; by apply rev_bytes_ok).
  apply rev_involutive.
Qed.

(** What [SetSecret] on a fresh key makes *)
Lemma SetSecret_reset secret c k :
  SetSecret CKey_Reset secret c = Some k ->
  length secret = 32%nat /\ fCompressedPubKey k = c /\ fSet k = true /\
  EC_KEY_get0_private_key (pkey k) = Some (be_val secret).
Proof.
  unfold SetSecret, EC_KEY_regenerate_key. case_goal; [done|]. bool_prop.
  destruct (EC_POINT_mul (be_val secret)) as [p|] eqn:Ep; [|done]. cbn. rewrite orb_false_r.
  intros [= <-]. split; [lia|]. destruct c; cbn; rewrite ?get0_set_compressed, get0_set_public, get0_set_private; done.
Qed.

Lemma GetSecret_SetSecret secret c k :
  secret_ok secret -> SetSecret CKey_Reset secret c = Some k -> GetSecret k = Some (secret, c).
Proof.
  intros Hs Hk. apply SetSecret_reset in Hk as (_ & Hc & _ & Hd). unfold GetSecret. rewrite Hd.
  cbn. by rewrite secret_bytes, Hc.
Qed.

(** The length of the public key tells the flag. *)
Lemma GetPubKey_length secret c k pub :
  SetSecret CKey_Reset secret c = Some k -> GetPubKey k = Some pub ->
  pub <> [] /\ i2o_ECPublicKey (pkey k) = pub /\ (Z.of_nat (length pub) =? 33) = c.
Proof.
  intros Hk Hp.
  assert (i2o_ECPublicKey (pkey k) = pub /\ pub <> []) as [Hi Hne].
  { unfold GetPubKey in Hp. by destruct (i2o_ECPublicKey (pkey k)) eqn:?; simplify_eq. }
  split_and!; [done..|]. unfold SetSecret, EC_KEY_regenerate_key in Hk. case_hyp Hk; [done|].
  destruct (EC_POINT_mul (be_val secret)) as [p|] eqn:Ep; [|done]. cbn in Hk. rewrite orb_false_r in Hk.
  simplify_eq. destruct c; cbn in *.
  - rewrite length_i2o_compressed by done. done.
  - rewrite (length_i2o_new _ _ Ep). done.
Qed.

(** Rebuilding a key from its public key and secret gives the same key. *)
Lemma rebuild_key_same secret c k pub :
  SetSecret CKey_Reset secret c = Some k -> GetPubKey k = Some pub -> rebuild_key CKey_Reset pub secret = Some k.
Proof.
  intros Hk Hp. destruct (GetPubKey_length _ _ _ _ Hk Hp) as (Hne & Hi & Hc).
  unfold rebuild_key, SetPubKey. destruct (o2i_i2o (pkey k) (pkey CKey_Reset)) as [p Ep]; [by rewrite Hi|].
  rewrite Hi in Ep. rewrite Ep, Hc. cbn [snd].
  unfold SetSecret in *. case_goal; [done|]. destruct (EC_KEY_regenerate_key _ _) as [q|]; [|done].
  cbn in *. rewrite orb_false_r in Hk. rewrite <- Hk. by destruct c.
Qed.

Lemma Decrypt_Encrypt m p iv c : EncryptSecret m p iv = Some c -> DecryptSecret m c iv = Some p.
Proof.
  unfold EncryptSecret, DecryptSecret. destruct (SetKey _ _ _) as [[] cr]; [|done]. cbn [negb].
  unfold Encrypt, Decrypt. destruct (fKeySet cr); [|done]. cbn [negb]. apply aes_decrypt_encrypt.
Qed.

Lemma DecryptSecret_locked c iv : DecryptSecret [] c iv = None.
Proof. done. Qed.

(** ** Well-formed stores *)

(** An entry of [mapKeys] belongs to its address. *)
Definition entry_good (id : list Z) (sc : list Z * bool) : Prop :=
  secret_ok sc.1 /\
  exists k pub, SetSecret CKey_Reset sc.1 sc.2 = Some k /\ GetPubKey k = Some pub /\ Hash160 pub = id.

Record basic_ok (s : CBasicKeyStore) : Prop := {
  basic_keys id sc : mapKeys s !! id = Some sc -> entry_good id sc;
  basic_scripts id script : mapScripts s !! id = Some script ->
    Hash160 script = id /\ Z.of_nat (length script) <= MAX_SCRIPT_ELEMENT_SIZE
}.

(** A key that [IsValid] accepts can be stored. *)
Lemma valid_key_entry key secret c pub :
  CKey_IsValid key = Some true -> GetSecret key = Some (secret, c) -> GetPubKey key = Some pub ->
  entry_good (Hash160 pub) (secret, c).
Proof.
  unfold CKey_IsValid. intros Hv Hs Hp. case_hyp Hv; [done|]. case_hyp Hv; [done|]. bool_prop.
  rewrite Hs in Hv. cbn in Hv. destruct (SetSecret CKey_Reset secret c) as [k2|] eqn:Ek; [|done].
  rewrite Hp in Hv. cbn in Hv. destruct (GetPubKey k2) as [p2|] eqn:E2; [|done]. cbn in Hv.
  injection Hv as Hv. bool_prop. subst p2. split; [|by exists k2, pub].
  unfold GetSecret in Hs. destruct (EC_KEY_get0_private_key (pkey key)) as [d|]; [|done]. cbn [mbind option_bind] in Hs.
  assert (secret = rev (le_bytes 32 d)) as -> by congruence. split; [by apply rev_bytes_ok, to_digits_digits|].
  cbn [fst]. by rewrite length_rev, length_to_digits.
Qed.

Lemma basic_AddKey_ok s key s' b :
  basic_ok s -> CKey_IsValid key = Some true -> basic_AddKey s key = Some (b, s') -> basic_ok s'.
Proof.
  intros [Hk Hs] Hv Ha. unfold basic_AddKey in Ha. destruct (GetSecret key) as [[secret c]|] eqn:Es; [|done].
  cbn in Ha. destruct (GetPubKey key) as [pub|] eqn:Ep; [|done]. cbn in Ha. injection Ha as <- <-.
  split; [|done]. cbn [mapKeys]. intros id sc. rewrite lookup_insert_Some. intros [[<- <-]|[_ Hl]]; [|eauto].
  by eapply valid_key_entry.
Qed.

Lemma basic_AddCScript_ok s script : basic_ok s -> basic_ok (basic_AddCScript s script).2.
Proof.
  intros [Hk Hs]. unfold basic_AddCScript. case_goal; [done|]. bool_prop. split; [done|]. cbn [snd mapScripts].
  intros id sc. rewrite lookup_insert_Some. intros [[<- <-]|[_ Hl]]; [done|eauto].
Qed.

Lemma basic_AddWatchOnly_ok have s dest : basic_ok s -> basic_ok (basic_AddWatchOnly have s dest).2.
Proof. intros [Hk Hs]. unfold basic_AddWatchOnly. case_goal; by split. Qed.

(** A well-formed store is a [CKeyStore] with its laws. *)
Lemma basic_keystore_laws s : basic_ok s -> CKeyStoreLaws (basic_keystore s).
Proof.
  intros [Hk Hs]. split; cbn.
  - intros id k. unfold basic_GetKey, basic_HaveKey. destruct (mapKeys s !! id); [|done].
    intros _. by apply bool_decide_eq_true_2.
  - intros id k. unfold basic_GetKey. destruct (mapKeys s !! id) as [sc|] eqn:El; [|done].
    destruct (Hk _ _ El) as (_ & k' & pub & E1 & E2 & E3). destruct sc as [secret c]. cbn [fst snd] in E1.
    rewrite E1. intros [= <-]. eauto.
  - intros id k Hg. unfold base_GetPubKey. rewrite Hg. cbn. unfold basic_GetKey in Hg.
    destruct (mapKeys s !! id) as [[secret c]|] eqn:El; [|done]. destruct (Hk _ _ El) as (_ & k' & pub & E1 & E2 & E3).
    cbn [fst snd] in E1. rewrite E1 in Hg. injection Hg as <-. by rewrite E2.
  - intros id script Hg. by apply Hs in Hg as [? _].
Qed.

(** ** Lemmas: encryption *)

(** An entry of [mapCryptedKeys] that holds a key of the plain store *)
Definition crypted_as (m : list Z) (sc : list Z * bool) (e : list Z * list Z) : Prop :=
  exists k, SetSecret CKey_Reset sc.1 sc.2 = Some k /\ GetPubKey k = Some e.1 /\
    EncryptSecret m sc.1 (CPubKey_GetHash e.1) = Some e.2.

Lemma encrypt_one_spec m s id sc s' :
  entry_good id sc -> fUseCrypto s = true -> encrypt_one m s (id, sc) = Some (inr s') ->
  exists e, crypted_as m sc e /\
    s' = mkCrypto (basic s) (<[id := e]> (mapCryptedKeys s)) (vMasterKey s) true.
Proof.
  intros (Hs & k & pub & Hk & Hp & <-) Hu. unfold encrypt_one. cbn [snd]. rewrite Hk. cbn [mbind option_bind].
  rewrite Hp. cbn [mbind option_bind].
  rewrite (GetSecret_SetSecret _ _ _ Hs Hk) by done. cbn [mbind option_bind].
  destruct (EncryptSecret m sc.1 (CPubKey_GetHash pub)) as [c|] eqn:Ec; [|done].
  unfold AddCryptedKey, SetCrypted. rewrite Hu. cbn [negb]. intros [= <-].
  exists (pub, c). split; [by exists k|]. by rewrite Hu.
Qed.

Lemma encrypt_loop_spec m l s s' :
  Forall (fun e => entry_good e.1 e.2) l -> NoDup l.*1 -> fUseCrypto s = true ->
  encrypt_loop m l s = Some (inr s') ->
  basic s' = basic s /\ vMasterKey s' = vMasterKey s /\ fUseCrypto s' = true /\
  (forall id, id ∉ l.*1 -> mapCryptedKeys s' !! id = mapCryptedKeys s !! id) /\
  (forall id sc, (id, sc) ∈ l -> exists e, crypted_as m sc e /\ mapCryptedKeys s' !! id = Some e).
Proof.
  revert s. induction l as [|[id sc] l IH]; intros s Hg Hn Hu; cbn [encrypt_loop].
  { intros [= <-]. split_and!; try done. intros id sc Hin. by apply not_elem_of_nil in Hin. }
  apply Forall_cons in Hg as [Hg1 Hg]. cbn [fst snd] in Hg1. cbn [fmap list_fmap fst] in Hn. apply NoDup_cons in Hn as [Hn1 Hn].
  destruct (encrypt_one m s (id, sc)) as [[s1|s1]|] eqn:E1; [done| |done]. cbn [mbind option_bind].
  destruct (encrypt_one_spec _ _ _ _ _ Hg1 Hu E1) as (e & He & ->). intros Hl.
  destruct (IH _ Hg Hn (eq_refl : fUseCrypto (mkCrypto _ _ _ true) = true) Hl) as (Hb & Hm & Hc & Hout & Hin). cbn [basic vMasterKey mapCryptedKeys] in *.
  split_and!; [done..| |].
  - intros id' Hid. cbn [fmap list_fmap fst] in Hid. apply not_elem_of_cons in Hid as [? ?].
    rewrite Hout by done. by rewrite lookup_insert_ne.
  - intros id' sc' Hi. apply elem_of_cons in Hi as [[= -> ->]|Hi]; [|eauto].
    exists e. split; [done|]. rewrite Hout by done. by rewrite lookup_insert_eq.
Qed.

Lemma map_entries_perm {A} (m : gmap (list Z) A) : map_entries m ≡ₚ map_to_list m.
Proof. apply merge_sort_Permutation. Qed.

Lemma elem_of_map_entries {A} (m : gmap (list Z) A) id x : (id, x) ∈ map_entries m <-> m !! id = Some x.
Proof. by rewrite map_entries_perm, elem_of_map_to_list. Qed.

Lemma map_entries_NoDup {A} (m : gmap (list Z) A) : NoDup (map_entries m).*1.
Proof. rewrite map_entries_perm. apply NoDup_fst_map_to_list. Qed.

(** The state [EncryptKeys] leaves when it succeeds *)
Lemma EncryptKeys_spec s m s' :
  basic_ok (basic s) -> EncryptKeys s m = Some (true, s') ->
  fUseCrypto s' = true /\ vMasterKey s' = vMasterKey s /\
  basic s' = mkBasic ∅ (mapScripts (basic s)) (setWatchOnly (basic s)) /\
  (forall id, mapKeys (basic s) !! id = None -> mapCryptedKeys s' !! id = None) /\
  (forall id sc, mapKeys (basic s) !! id = Some sc -> exists e, crypted_as m sc e /\ mapCryptedKeys s' !! id = Some e).
Proof.
  intros [Hk _]. unfold EncryptKeys. destruct (negb _ || _) eqn:Eg; [done|]. bool_prop. destruct Eg as [Eg _]. bool_prop.
  destruct (encrypt_loop _ _ _) as [[s1|s1]|] eqn:El; [done| |done]. cbn [mbind option_bind]. intros [= <-].
  assert (Forall (fun e => entry_good e.1 e.2) (map_entries (mapKeys (basic s)))) as Hg.
  { apply Forall_forall. intros [id sc] Hi. apply elem_of_map_entries in Hi. by apply Hk. }
  destruct (encrypt_loop_spec m _ (mkCrypto (basic s) (mapCryptedKeys s) (vMasterKey s) true) s1 Hg
    (map_entries_NoDup _) eq_refl El) as (Hb & Hm & Hc & Hout & Hin).
  cbn [basic vMasterKey mapCryptedKeys fUseCrypto with_basic] in *. rewrite Hb. split_and!; [done..| |].
  - intros id Hn. rewrite Hout, Eg; [done|]. intros Hi. apply list_elem_of_fmap in Hi as ([id' sc] & -> & Hi).
    apply elem_of_map_entries in Hi. cbn in Hn. congruence.
  - intros id sc Hi. apply Hin. by apply elem_of_map_entries.
Qed.

(** A crypted entry is read back with the master key. *)
Lemma crypted_read m s id sc e :
  secret_ok sc.1 -> fUseCrypto s = true -> vMasterKey s = m -> crypted_as m sc e ->
  mapCryptedKeys s !! id = Some e ->
  exists k, SetSecret CKey_Reset sc.1 sc.2 = Some k /\ crypto_GetKey s CKey_Reset id = Some (Some k).
Proof.
  intros Hs Hu Hm (k & Hk & Hp & He) Hl. exists k. split; [done|]. unfold crypto_GetKey, IsCrypted.
  rewrite Hu, Hl, Hm. cbn [negb]. destruct e as [pub c]. cbn [fst snd] in *. rewrite (Decrypt_Encrypt _ _ _ _ He).
  destruct Hs as [_ Hsl]. rewrite Hsl. simpl (_ =? _). cbn [negb].
  by rewrite (rebuild_key_same _ _ _ _ Hk Hp).
Qed.

Lemma Unlock_spec s m :
  fUseCrypto s = true ->
  (forall id e, mapCryptedKeys s !! id = Some e -> exists sc, secret_ok sc.1 /\ crypted_as m sc e) ->
  Unlock s m = Some (true, with_master s m).
Proof.
  intros Hu Hall. unfold Unlock, SetCrypted. rewrite Hu. cbn [negb].
  destruct (map_entries (mapCryptedKeys s)) as [|[id [pub c]] l] eqn:El; [done|].
  assert (mapCryptedKeys s !! id = Some (pub, c)) as Hl by (apply elem_of_map_entries; rewrite El; left).
  destruct (Hall _ _ Hl) as ([secret f] & [_ Hsl] & k & Hk & Hp & He). cbn [fst snd] in *.
  rewrite (Decrypt_Encrypt _ _ _ _ He), Hsl. simpl (_ =? _). cbn [negb].
  rewrite (rebuild_key_same _ _ _ _ Hk Hp). cbn [mbind option_bind]. rewrite Hp. cbn [mbind option_bind].
  by rewrite bool_decide_eq_true_2.
Qed.
End facts.

(** ** Claims *)

(** C35: keys survive encryption.  When [EncryptKeys] succeeds on a well-formed plain
    store, the store is locked and no plain secret is left; every address it had a
    key for it still has, but while it is locked no key can be read; unlocking with
    the same master key succeeds and then every [GetKey] gives the very key the
    plain store gave. *)
Theorem encrypted_keys_survive {E : ECOps} {S : ECSecretOps E} {SL : ECSecretLaws E S} {H : HashOps}
    {C : CipherOps} {CL : CipherLaws C} (s s' : CCryptoKeyStore) (m : list Z) :
  basic_ok (basic s) -> fUseCrypto s = false -> vMasterKey s = [] -> EncryptKeys s m = Some (true, s') ->
  mapKeys (basic s') = ∅ /\ IsLocked s' = true /\
  (forall id, crypto_HaveKey s' id = crypto_HaveKey s id) /\
  (forall id keyOut, crypto_GetKey s' keyOut id = Some None) /\
  exists s'', Unlock s' m = Some (true, s'') /\
    forall id, crypto_GetKey s'' CKey_Reset id = crypto_GetKey s CKey_Reset id.
Proof.
  intros Hok Hu Hm He. pose proof (basic_keys _ Hok) as Hk.
  destruct (EncryptKeys_spec _ _ _ Hok He) as (Hu' & Hm' & Hb' & Hnone & Hsome).
  rewrite Hm in Hm'. split_and!.
  - by rewrite Hb'.
  - unfold IsLocked, IsCrypted. by rewrite Hu', Hm'.
  - intros id. unfold crypto_HaveKey, IsCrypted, basic_HaveKey. rewrite Hu, Hu'. cbn [negb].
    destruct (mapKeys (basic s) !! id) as [sc|] eqn:El; [|by rewrite (Hnone _ El)].
    destruct (Hsome _ _ El) as (e & _ & ->). by rewrite !bool_decide_eq_true_2.
  - intros id keyOut. unfold crypto_GetKey, IsCrypted. rewrite Hu', Hm'. cbn [negb].
    by destruct (mapCryptedKeys s' !! id) as [[pub c]|].
  - exists (with_master s' m). split.
    + apply Unlock_spec; [done|]. intros id e El.
      destruct (mapKeys (basic s) !! id) as [sc|] eqn:Ek; [|by rewrite (Hnone _ Ek) in El].
      destruct (Hsome _ _ Ek) as (e' & He' & El'). rewrite El in El'. injection El' as <-.
      exists sc. split; [apply (Hk _ _ Ek)|done].
    + intros id. unfold crypto_GetKey at 2, IsCrypted. rewrite Hu. cbn [negb]. unfold basic_GetKey.
      destruct (mapKeys (basic s) !! id) as [[secret c]|] eqn:Ek.
      * destruct (Hsome _ _ Ek) as (e & He' & El). destruct (Hk _ _ Ek) as [Hs _].
        destruct (crypted_read m (with_master s' m) id (secret, c) e Hs Hu' eq_refl He' El) as (k & E1 & E2).
        cbn [fst snd] in E1. by rewrite E1, E2.
      * unfold crypto_GetKey, IsCrypted. cbn [fUseCrypto with_master]. rewrite Hu'. cbn [negb mapCryptedKeys with_master].
        by rewrite (Hnone _ Ek).
Qed.

(** ** The life of a store *)

#[local] Arguments Hash160 : simpl never.

Section reachable.
Context {E : ECOps} {S : ECSecretOps E} {SL : ECSecretLaws E S} {H : HashOps} {C : CipherOps} {CL : CipherLaws C}.

(** The operations of the class; [EncryptKeys] where it succeeds: the wallet gives
    the store up when it fails. *)
Inductive store_step (s : CCryptoKeyStore) : CCryptoKeyStore -> Prop :=
| step_AddKey key b s' :
    CKey_IsValid key = Some true -> crypto_AddKey s key = Some (b, s') -> store_step s s'
| step_AddCryptedKey pub c : store_step s (AddCryptedKey s pub c).2
| step_AddCScript script : store_step s (with_basic s (basic_AddCScript (basic s) script).2)
| step_AddWatchOnly dest : store_step s (with_basic s (basic_AddWatchOnly (crypto_HaveKey s) (basic s) dest).2)
| step_Lock : store_step s (Lock s).2
| step_Unlock m b s' : Unlock s m = Some (b, s') -> store_step s s'
| step_EncryptKeys m s' : EncryptKeys s m = Some (true, s') -> store_step s s'.

Inductive store_reachable : CCryptoKeyStore -> Prop :=
| reach_empty : store_reachable crypto_empty
| reach_step s s' : store_reachable s -> store_step s s' -> store_reachable s'.

Record store_inv (s : CCryptoKeyStore) : Prop := {
  (** the two comments of the class *)
  inv_crypted : fUseCrypto s = true -> mapKeys (basic s) = ∅;
  inv_plain : fUseCrypto s = false -> vMasterKey s = [] /\ mapCryptedKeys s = ∅;
  inv_basic : basic_ok (basic s);
  inv_ids id pub c : mapCryptedKeys s !! id = Some (pub, c) -> Hash160 pub = id
}.

Lemma SetCrypted_inv s b s' :
  store_inv s -> SetCrypted s = (b, s') -> store_inv s' /\ (b = true -> fUseCrypto s' = true).
Proof.
  intros Hs. unfold SetCrypted. destruct (fUseCrypto s) eqn:Eu; [intros [= <- <-]; done|].
  destruct (bool_decide _) eqn:Ed; cbn [negb]; intros [= <- <-]; [|done].
  bool_prop. split; [|done]. destruct Hs as [Hc Hp Hb Hi]. split; cbn; done.
Qed.

Lemma AddCryptedKey_inv s pub c : store_inv s -> store_inv (AddCryptedKey s pub c).2.
Proof.
  intros Hs. unfold AddCryptedKey. destruct (SetCrypted s) as [b s1] eqn:Es.
  destruct (SetCrypted_inv _ _ _ Hs Es) as [[Hc Hp Hb Hi] Hu]. destruct b; cbn [negb snd]; [|done].
  pose proof (Hu eq_refl) as Hu1. split; cbn; [done|congruence|done|].
  intros id pub' c'. rewrite lookup_insert_Some. intros [[<- [= <- <-]]|[_ Hl]]; [done|eauto].
Qed.

Lemma with_basic_inv s b :
  store_inv s -> basic_ok b -> mapKeys b = mapKeys (basic s) -> store_inv (with_basic s b).
Proof. intros [Hc Hp _ Hi] Hb Hk. split; cbn; [|done..]. intros Hu. rewrite Hk. by apply Hc. Qed.

Lemma crypto_AddKey_inv s key b s' :
  store_inv s -> CKey_IsValid key = Some true -> crypto_AddKey s key = Some (b, s') -> store_inv s'.
Proof.
  intros Hs Hv. unfold crypto_AddKey. destruct (GetPubKey key) as [pub|]; [|done]. cbn [mbind option_bind].
  case_goal; [by intros [= _ <-]|]. unfold IsCrypted. destruct (fUseCrypto s) eqn:Eu; cbn [negb].
  - case_goal; [by intros [= _ <-]|]. destruct (GetSecret key) as [[secret c]|]; [|done]. cbn [mbind option_bind].
    destruct (EncryptSecret _ _ _) as [ct|]; [|by intros [= _ <-]]. intros [= Ha].
    replace s' with (AddCryptedKey s pub ct).2 by (by rewrite Ha). by apply AddCryptedKey_inv.
  - destruct (basic_AddKey (basic s) key) as [[b1 s1]|] eqn:Ea; [|done]. cbn [mbind option_bind]. intros [= _ <-].
    destruct Hs as [Hc Hp Hb Hi]. split; cbn; [congruence|done| |done]. by eapply basic_AddKey_ok.
Qed.

Lemma Unlock_inv s m b s' : store_inv s -> Unlock s m = Some (b, s') -> store_inv s'.
Proof.
  intros Hs. unfold Unlock. destruct (SetCrypted s) as [ok s1] eqn:Es.
  destruct (SetCrypted_inv _ _ _ Hs Es) as [Hs1 Hu]. destruct ok; cbn [negb]; [|by intros [= _ <-]].
  assert (Hm : store_inv (with_master s1 m)).
  { destruct Hs1 as [Hc Hp Hb Hi]. split; cbn; [done| |done..]. rewrite (Hu eq_refl). done. }
  unfold mbind, option_bind. repeat case_goal; by intros [= _ <-].
Qed.

Lemma EncryptKeys_inv s m s' : store_inv s -> EncryptKeys s m = Some (true, s') -> store_inv s'.
Proof.
  intros [Hc Hp Hb Hi] He. destruct (EncryptKeys_spec _ _ _ Hb He) as (Hu & _ & Hbs & Hnone & Hsome).
  split; [by rewrite Hbs|by rewrite Hu| |].
  - rewrite Hbs. split; cbn; [done|]. apply Hb.
  - intros id pub c Hl. destruct (mapKeys (basic s) !! id) as [sc|] eqn:Ek; [|by rewrite (Hnone _ Ek) in Hl].
    destruct (Hsome _ _ Ek) as (e & (k & E1 & E2 & _) & El). rewrite Hl in El. injection El as <-. cbn [fst] in E2.
    destruct (basic_keys _ Hb _ _ Ek) as (_ & k' & pub' & E1' & E2' & Hid). congruence.
Qed.

Lemma store_step_inv s s' : store_inv s -> store_step s s' -> store_inv s'.
Proof.
  intros Hs Hst. destruct Hst as [key b s' Hv Ha|pub c|script|dest| |m b s' Hu|m s' He].
  - by eapply crypto_AddKey_inv.
  - by apply AddCryptedKey_inv.
  - apply with_basic_inv; [done|apply basic_AddCScript_ok, Hs|]. unfold basic_AddCScript. by case_goal.
  - apply with_basic_inv; [done|apply basic_AddWatchOnly_ok, Hs|]. unfold basic_AddWatchOnly. by case_goal.
  - unfold Lock. destruct (SetCrypted s) as [ok s1] eqn:Es. destruct (SetCrypted_inv _ _ _ Hs Es) as [Hs1 Hu].
    destruct ok; [|done]. destruct Hs1 as [Hc Hp Hb Hi]. split; cbn; [done| |done..]. by rewrite (Hu eq_refl).
  - by eapply Unlock_inv.
  - by eapply EncryptKeys_inv.
Qed.

Lemma reachable_inv s : store_reachable s -> store_inv s.
Proof.
  intros Hr. induction Hr as [|s s' _ IH Hst]; [|by eapply store_step_inv].
  split; cbn; done.
Qed.
End reachable.

(** whatever sequence of operations a key store goes through, an encrypted store
    holds no plain secret, a plain one has neither a master key nor encrypted
    entries, every entry is filed under the hash of its public key, every redeem
    script under its own hash and within the size limit, and a locked store gives
    no key away. *)
Theorem keystore_invariant {E : ECOps} {S : ECSecretOps E} {SL : ECSecretLaws E S} {H : HashOps}
    {C : CipherOps} {CL : CipherLaws C} (s : CCryptoKeyStore) :
  store_reachable s ->
  store_inv s /\ (IsLocked s = true -> forall id keyOut, crypto_GetKey s keyOut id = Some None).
Proof.
  intros Hr. split; [by apply reachable_inv|]. unfold IsLocked. intros Hl id keyOut. unfold crypto_GetKey.
  destruct (IsCrypted s); [|done]. cbn [negb] in *. destruct (vMasterKey s); [|done].
  by destruct (mapCryptedKeys s !! id) as [[pub c]|].
Qed.

(** ** Witnesses *)

(** A cipher that reverses its input *)
#[export] Instance toy_cipher : CipherOps := {|
  EVP_BytesToKey salt data rounds := (32, replicate 32 rounds, replicate 32 0);
  aes_256_cbc_encrypt key iv p := Some (rev p);
  aes_256_cbc_decrypt key iv c := Some (rev c)
|}.
#[export] Instance toy_cipher_laws : CipherLaws toy_cipher.
Proof. split. cbn. intros key iv p c E. assert (c = rev p) as -> by congruence. by rewrite rev_involutive. Qed.

Definition toy_store : CCryptoKeyStore :=
  match crypto_AddKey (H := toy_hash) crypto_empty toy_key with Some (_, s) => s | None => crypto_empty end.
Definition toy_id : list Z := Hash160 (H := toy_hash) toy_pub.

Lemma toy_store_reachable : store_reachable (H := toy_hash) toy_store.
Proof.
  unfold toy_store. destruct (crypto_AddKey (H := toy_hash) crypto_empty toy_key) as [[b s]|] eqn:Ea; [|constructor].
  apply (reach_step crypto_empty); [constructor|]. apply (step_AddKey _ toy_key b); [vm_compute; reflexivity|done].
Qed.

Lemma keystore_invariant_witness : store_inv (H := toy_hash) toy_store.
Proof. apply (keystore_invariant (H := toy_hash) toy_store), toy_store_reachable. Defined.

Lemma encrypted_keys_survive_witness :
  exists s' s'', EncryptKeys (H := toy_hash) toy_store (replicate 32 1) = Some (true, s') /\
    Unlock (H := toy_hash) s' (replicate 32 1) = Some (true, s'') /\
    match crypto_GetKey (H := toy_hash) s'' CKey_Reset toy_id with
    | Some (Some k) => GetPubKey k
    | _ => None
    end = Some toy_pub.
Proof.
  destruct (EncryptKeys (H := toy_hash) toy_store (replicate 32 1)) as [[[] s']|] eqn:He.
  - destruct (encrypted_keys_survive (H := toy_hash) toy_store s' (replicate 32 1))
      as (_ & _ & _ & _ & s'' & Hu & Hg); [|vm_compute; reflexivity|vm_compute; reflexivity|exact He|].
    + apply inv_basic, (reachable_inv (H := toy_hash)), toy_store_reachable.
    + exists s', s''. split; [reflexivity|]. split; [exact Hu|]. rewrite (Hg toy_id). vm_compute. reflexivity.
  - exfalso. assert (fst <$> EncryptKeys (H := toy_hash) toy_store (replicate 32 1) = Some false) as F by (rewrite He; reflexivity).
    vm_compute in F. discriminate F.
  - exfalso. assert (fst <$> EncryptKeys (H := toy_hash) toy_store (replicate 32 1) = None) as F by (rewrite He; reflexivity).
    vm_compute in F. discriminate F.
Defined.
