(* ===== verification/Sign.v ===== *)
(** * Signing: [Sign1], [SignN], [SignSignature], [IsMine] and the combination of
    partial signatures of [script.cpp]

    The functions read a store through the interface [CKeyStore].  A result of
    [None] is an exception that leaves the function (or a failed assertion); a
    script that the source fills through a reference is returned also where the
    function returns false. *)

From S2P Require Import Prelude Uint256 BigNum Serialize Hash Transaction Script Canonical.
From S2P Require Import Interp InterpFacts InterpSem InterpSim Key SigCheck Templates Verify KeyStore.

Section signing.
Context {B : BNOps} {H : HashOps} {E : ECOps} {P : SecpOps} {K : CKeyStore}.

Definition Sign1 (address hash : list Z) (nHashType : Z) (scriptSigRet : list Z) : option (bool * list Z) :=
  r ← GetKey address;
  match r with
  | None => Some (false, scriptSigRet)
  | Some key =>
      match CKey_Sign key hash with
      | None => Some (false, scriptSigRet)
      | Some vchSig => Some (true, push_vch scriptSigRet (vchSig ++ [u8 nHashType]))
      end
  end.

(** The loop over the public keys, while signatures are missing *)
Fixpoint SignN_loop (keys : list valtype) (hash : list Z) (nHashType nRequired nSigned : Z) (scriptSigRet : list Z) :
    option (Z * list Z) :=
  match keys with
  | [] => Some (nSigned, scriptSigRet)
  | pubkey :: keys =>
      if nSigned <? nRequired then
        '(ok, scriptSigRet) ← Sign1 (CPubKey_GetID pubkey) hash nHashType scriptSigRet;
        SignN_loop keys hash nHashType nRequired (if ok : bool then nSigned + 1 else nSigned) scriptSigRet
      else Some (nSigned, scriptSigRet)
  end.

Definition SignN (multisigdata : list valtype) (hash : list Z) (nHashType : Z) (scriptSigRet : list Z) :
    option (bool * list Z) :=
  let nRequired := nthZ (default [] (head multisigdata)) 0 in
  '(nSigned, scriptSigRet) ←
    SignN_loop (removelast (tail multisigdata)) hash nHashType nRequired 0 scriptSigRet;
  Some (nSigned =? nRequired, scriptSigRet).

(** [Solver] with a key store: the result, the script and the type *)
Definition Solver_sign (scriptPubKey hash : list Z) (nHashType : Z) : option (bool * list Z * txnouttype) :=
  let '(ok, whichTypeRet, vSolutions) := Solver scriptPubKey in
  if negb ok then Some (false, [], whichTypeRet)
  else
    let first := default [] (head vSolutions) in
    match whichTypeRet with
    | TX_NONSTANDARD | TX_NULL_DATA => Some (false, [], whichTypeRet)
    | TX_PUBKEY =>
        '(ok, s) ← Sign1 (CPubKey_GetID first) hash nHashType []; Some (ok, s, whichTypeRet)
    | TX_PUBKEYHASH =>
        let keyID := uint_of_vch WIDTH160 first in
        '(ok, s) ← Sign1 keyID hash nHashType [];
        if negb ok then Some (false, s, whichTypeRet)
        else
          vch ← ks_GetPubKey keyID;
          Some (true, push_vch s (default [] vch), whichTypeRet)
    | TX_SCRIPTHASH =>
        match GetCScript (uint_of_vch WIDTH160 first) with
        | Some script => Some (true, script, whichTypeRet)
        | None => Some (false, [], whichTypeRet)
        end
    | TX_MULTISIG =>
        '(ok, s) ← SignN vSolutions hash nHashType (push_op [] OP_0); Some (ok, s, whichTypeRet)
    end.

(** [txTo] with the script of one input replaced *)
Definition with_scriptSig (txTo : CTransaction) (nIn : nat) (script : list Z) : CTransaction :=
  mkTx (nVersion txTo) (nTime txTo) (alter (with_sig script) nIn (vin txTo)) (vout txTo) (nLockTime txTo).

(** The signed transaction and the cache the final check leaves *)
Definition SignSignature (maxsize : Z) (fromPubKey : list Z) (txTo : CTransaction) (nIn : nat) (nHashType : Z)
    (c : CSignatureCache) : option (bool * CTransaction * CSignatureCache) :=
  if (length (vin txTo) <=? nIn)%nat then None
  else
    let hash := SignatureHash fromPubKey txTo nIn nHashType in
    '(ok, scriptSig, whichType) ← Solver_sign fromPubKey hash nHashType;
    let txTo := with_scriptSig txTo nIn scriptSig in
    if negb ok then Some (false, txTo, c)
    else if bool_decide (whichType = TX_SCRIPTHASH) then
      let subscript := scriptSig in
      let hash2 := SignatureHash subscript txTo nIn nHashType in
      '(ok, scriptSig, subType) ← Solver_sign subscript hash2 nHashType;
      let fSolved := ok && negb (bool_decide (subType = TX_SCRIPTHASH)) in
      let scriptSig := push_vch scriptSig subscript in
      let txTo := with_scriptSig txTo nIn scriptSig in
      if negb fSolved then Some (false, txTo, c)
      else
        let '(b, c) := VerifyScript maxsize scriptSig fromPubKey txTo nIn STRICT_FLAGS 0 c in
        Some (b, txTo, c)
    else
      let '(b, c) := VerifyScript maxsize scriptSig fromPubKey txTo nIn STRICT_FLAGS 0 c in
      Some (b, txTo, c).

(** The overload that finds the output spent *)
Definition SignSignature_from (maxsize : Z) (txFrom txTo : CTransaction) (nIn : nat) (nHashType : Z)
    (c : CSignatureCache) : option (bool * CTransaction * CSignatureCache) :=
  txin ← vin txTo !! nIn;
  txout ← vout txFrom !! Z.to_nat (op_n (prevout txin));
  if negb (op_eq (op_hash (prevout txin)) (CTransaction_GetHash txFrom)) then None
  else SignSignature maxsize (scriptPubKey txout) txTo nIn nHashType c.

(** ** [IsMine] *)

Definition HaveKeys (pubkeys : list valtype) : Z :=
  foldl (fun n pubkey => if HaveKey (CPubKey_GetID pubkey) then u32 (n + 1) else n) 0 pubkeys.

(** The recursion follows redeem scripts that are themselves pay-to-script-hash;
    [depth] bounds it. *)
Fixpoint IsMine (depth : nat) (scriptPubKey : list Z) : isminetype :=
  let '(ok, whichType, vSolutions) := Solver scriptPubKey in
  let watch := if HaveWatchOnly scriptPubKey then MINE_WATCH_ONLY else MINE_NO in
  let first := default [] (head vSolutions) in
  if negb ok then watch
  else
    match whichType with
    | TX_NONSTANDARD | TX_NULL_DATA => watch
    | TX_PUBKEY => if HaveKey (CPubKey_GetID first) then MINE_SPENDABLE else watch
    | TX_PUBKEYHASH => if HaveKey (uint_of_vch WIDTH160 first) then MINE_SPENDABLE else watch
    | TX_SCRIPTHASH =>
        match GetCScript (uint_of_vch WIDTH160 first), depth with
        | Some subscript, S depth =>
            if bool_decide (IsMine depth subscript = MINE_SPENDABLE) then MINE_SPENDABLE else watch
        | _, _ => watch
        end
    | TX_MULTISIG =>
        let keys := removelast (tail vSolutions) in
        if HaveKeys keys =? Z.of_nat (length keys) then MINE_SPENDABLE else watch
    end.

Definition IsMine_dest (depth : nat) (dest : CTxDestination) : isminetype :=
  IsMine depth (SetDestination dest).2.

(** ** [ExtractAffectedKeys] *)

Fixpoint affected_keys (depth : nat) (script : list Z) : list (list Z) :=
  match ExtractDestinations script with
  | None => []
  | Some (vDest, _) =>
      vDest ≫= fun dest =>
        match dest, depth with
        | CKeyID keyId, _ => if HaveKey keyId then [keyId] else []
        | CScriptID scriptId, S depth =>
            match GetCScript scriptId with Some script => affected_keys depth script | None => [] end
        | _, _ => []
        end
  end.

(** ** Combining signatures; vectors in the order of their elements *)

Definition PushAll (values : list valtype) : list Z := foldl push_vch [] values.

(** [std::set<valtype>] *)
Fixpoint vset_insert (v : valtype) (l : list valtype) : list valtype :=
  match l with
  | [] => [v]
  | x :: l' => if vec_lt x v then x :: vset_insert v l' else if vec_lt v x then v :: l else l
  end.

Definition all_sigs (sigs1 sigs2 : list valtype) : list valtype :=
  foldl (fun s v => match v with [] => s | _ => vset_insert v s end) [] (sigs1 ++ sigs2).

(** The first public key without a signature that the signature checks for *)
Fixpoint match_sig (maxsize : Z) (scriptPubKey : list Z) (txTo : CTransaction) (nIn : nat) (sig : valtype)
    (pubkeys : list valtype) (sigs : gmap valtype valtype) (c : CSignatureCache) :
    option (gmap valtype valtype) * CSignatureCache :=
  match pubkeys with
  | [] => (Some sigs, c)
  | pubkey :: pubkeys =>
      if bool_decide (is_Some (sigs !! pubkey)) then match_sig maxsize scriptPubKey txTo nIn sig pubkeys sigs c
      else
        match CheckSig maxsize txTo nIn 0 0 sig pubkey scriptPubKey c with
        | (Some true, c) => (Some (<[pubkey := sig]> sigs), c)
        | (Some false, c) => match_sig maxsize scriptPubKey txTo nIn sig pubkeys sigs c
        | (None, c) => (None, c)
        end
  end.

Fixpoint match_sigs (maxsize : Z) (scriptPubKey : list Z) (txTo : CTransaction) (nIn : nat) (allsigs : list valtype)
    (pubkeys : list valtype) (sigs : gmap valtype valtype) (c : CSignatureCache) :
    option (gmap valtype valtype) * CSignatureCache :=
  match allsigs with
  | [] => (Some sigs, c)
  | sig :: allsigs =>
      match match_sig maxsize scriptPubKey txTo nIn sig pubkeys sigs c with
      | (Some sigs, c) => match_sigs maxsize scriptPubKey txTo nIn allsigs pubkeys sigs c
      | (None, c) => (None, c)
      end
  end.

(** The merged script, and how many signatures it has *)
Fixpoint merge_loop (pubkeys : list valtype) (sigs : gmap valtype valtype) (nSigsRequired nSigsHave : Z)
    (result : list Z) : list Z * Z :=
  match pubkeys with
  | [] => (result, nSigsHave)
  | pubkey :: pubkeys =>
      if nSigsHave <? nSigsRequired then
        match sigs !! pubkey with
        | Some sig => merge_loop pubkeys sigs nSigsRequired (nSigsHave + 1) (push_vch result sig)
        | None => merge_loop pubkeys sigs nSigsRequired nSigsHave result
        end
      else (result, nSigsHave)
  end.

Definition CombineMultisig (maxsize : Z) (scriptPubKey : list Z) (txTo : CTransaction) (nIn : nat)
    (vSolutions sigs1 sigs2 : list valtype) (c : CSignatureCache) : option (list Z) * CSignatureCache :=
  let allsigs := all_sigs sigs1 sigs2 in
  let nSigsRequired := nthZ (default [] (head vSolutions)) 0 in
  let pubkeys := removelast (tail vSolutions) in
  match match_sigs maxsize scriptPubKey txTo nIn allsigs pubkeys ∅ c with
  | (None, c) => (None, c)
  | (Some sigs, c) =>
      let '(result, nSigsHave) := merge_loop pubkeys sigs nSigsRequired 0 (push_op [] OP_0) in
      (Some (Nat.iter (Z.to_nat (nSigsRequired - nSigsHave)) (fun r => push_op r OP_0) result), c)
  end.

(** The recursion pops an element of both vectors, so the length of one bounds it. *)
Fixpoint CombineSignatures_in (fuel : nat) (maxsize : Z) (scriptPubKey : list Z) (txTo : CTransaction) (nIn : nat)
    (txType : txnouttype) (vSolutions sigs1 sigs2 : list valtype) (c : CSignatureCache) :
    option (list Z) * CSignatureCache :=
  match txType with
  | TX_NONSTANDARD | TX_NULL_DATA =>
      if (length sigs2 <=? length sigs1)%nat then (Some (PushAll sigs1), c) else (Some (PushAll sigs2), c)
  | TX_PUBKEY | TX_PUBKEYHASH =>
      match sigs1 with
      | [] | [] :: _ => (Some (PushAll sigs2), c)
      | _ => (Some (PushAll sigs1), c)
      end
  | TX_SCRIPTHASH =>
      match last sigs1, last sigs2, fuel with
      | None, _, _ | Some [], _, _ => (Some (PushAll sigs2), c)
      | _, None, _ | _, Some [], _ => (Some (PushAll sigs1), c)
      | Some spk, Some _, S fuel =>
          let '(_, txType2, vSolutions2) := Solver spk in
          match CombineSignatures_in fuel maxsize spk txTo nIn txType2 vSolutions2 (removelast sigs1) (removelast sigs2) c with
          | (Some result, c) => (Some (push_vch result spk), c)
          | (None, c) => (None, c)
          end
      | _, _, O => (None, c)
      end
  | TX_MULTISIG => CombineMultisig maxsize scriptPubKey txTo nIn vSolutions sigs1 sigs2 c
  end.

(** [now] is the time the default constructor of the empty transaction reads. *)
Definition CombineSignatures (maxsize now : Z) (scriptPubKey : list Z) (txTo : CTransaction) (nIn : nat)
    (scriptSig1 scriptSig2 : list Z) (c : CSignatureCache) : option (list Z) * CSignatureCache :=
  let '(_, txType, vSolutions) := Solver scriptPubKey in
  let '(_, stack1, c) := EvalScript maxsize [] scriptSig1 (CTransaction_SetNull now) 0 SCRIPT_VERIFY_STRICTENC 0 c in
  let '(_, stack2, c) := EvalScript maxsize [] scriptSig2 (CTransaction_SetNull now) 0 SCRIPT_VERIFY_STRICTENC 0 c in
  CombineSignatures_in (S (length stack1)) maxsize scriptPubKey txTo nIn txType vSolutions (rev stack1) (rev stack2) c.
End signing.

(** ** Lemmas: signing an output paid to a key hash *)

(** What the two verifiers promise: a verdict of OpenSSL depends on the public point
    only, and libsecp256k1, where it parses the key and the signature, agrees with it. *)
Class SigLaws (E : ECOps) (P : SecpOps) := {
  verify_same_point h sig k k' :
    i2o_ECPublicKey k = i2o_ECPublicKey k' -> i2o_ECPublicKey k <> [] -> ECDSA_verify h sig k = ECDSA_verify h sig k';
  secp_agrees pub key hash sig :
    SetPubKey CKey_Reset pub = (true, key) -> 0 <= VerifyECDSASecp pub hash sig ->
    (VerifyECDSASecp pub hash sig =? 1) = CKey_Verify key hash sig
}.

Section complete.
Context {B : BNOps} {H : HashOps} {HL : HashLaws H} {E : ECOps} {EL : ECLaws E} {S : ECSecretOps E}
  {SL : ECSecretLaws E S} {P : SecpOps} {VL : SigLaws E P} {K : CKeyStore} {KL : CKeyStoreLaws K}.

(** The signature hash does not see the scripts of the inputs. *)
Lemma sighash_with_scriptSig code tx nIn script nIn' ht :
  SignatureHash code (with_scriptSig tx nIn script) nIn' ht = SignatureHash code tx nIn' ht.
Proof.
  unfold SignatureHash, sighash_tx, with_scriptSig. cbn [vin vout nVersion nTime nLockTime]. rewrite length_alter.
  assert (blank_sig <$> alter (with_sig script) nIn (vin tx) = blank_sig <$> vin tx) as ->; [|done].
  apply list_eq. intros i. rewrite !list_lookup_fmap. destruct (decide (i = nIn)) as [->|Hne].
  - rewrite list_lookup_alter_eq. by destruct (vin tx !! nIn).
  - by rewrite list_lookup_alter_ne.
Qed.

(** A fresh key parsed from the public key verifies what the key itself verifies. *)
Lemma SetPubKey_verify k pub :
  GetPubKey k = Some pub ->
  exists key, SetPubKey CKey_Reset pub = (true, key) /\ GetPubKey key = Some pub /\
    forall hash sig, CKey_Verify key hash sig = CKey_Verify k hash sig.
Proof.
  intros Hp. assert (i2o_ECPublicKey (pkey k) = pub /\ pub <> []) as [Hi Hne].
  { unfold GetPubKey in Hp. by destruct (i2o_ECPublicKey (pkey k)) eqn:?; simplify_eq. }
  destruct (o2i_i2o (pkey k) (pkey CKey_Reset)) as [p Ep]; [by rewrite Hi|]. rewrite Hi in Ep.
  assert (SetPubKey CKey_Reset pub = (true, (SetPubKey CKey_Reset pub).2)) as Es
    by (unfold SetPubKey; by rewrite Ep).
  exists (SetPubKey CKey_Reset pub).2. split; [done|].
  pose proof (GetPubKey_SetPubKey _ _ _ Hne Es) as Hg. split; [done|].
  intros hash sig. unfold CKey_Verify. rewrite (verify_same_point _ _ _ (pkey k)); [done| |].
  - unfold GetPubKey in Hg. destruct (i2o_ECPublicKey (pkey (SetPubKey CKey_Reset pub).2)); [done|]. congruence.
  - unfold GetPubKey in Hg. by destruct (i2o_ECPublicKey (pkey (SetPubKey CKey_Reset pub).2)).
Qed.

(** A signature made for the hash of a script checks against that script. *)
Lemma CheckSig_signed maxsize tx nIn flags code k pub sig t c :
  GetPubKey k = Some pub -> CPubKey_IsValid pub = true -> t <> 0 ->
  CKey_Verify k (SignatureHash code tx nIn t) sig = true ->
  exists c', CheckSig maxsize tx nIn 0 flags (sig ++ [t]) pub code c = (Some true, c').
Proof.
  intros Hp Hv Ht Hs. destruct (SetPubKey_verify k pub Hp) as (key & E1 & E2 & E3). unfold CheckSig.
  rewrite E1, E2, Hv. cbn [negb]. rewrite last_snoc. change (0 =? 0) with true. cbn [negb andb].
  rewrite removelast_last. set (hash := SignatureHash code tx nIn t) in *.
  destruct (cache_Get c hash sig pub); [by eexists|].
  assert (verify_sig key pub hash sig = true) as ->.
  { unfold verify_sig. destruct (Z.leb_spec 0 (VerifyECDSASecp pub hash sig)); [|by rewrite E3].
    rewrite (secp_agrees _ _ _ _ E1) by done. by rewrite E3. }
  cbn [negb]. case_goal; by eexists.
Qed.

Lemma is_instr_push d : bytes_ok d -> Z.of_nat (length d) < 2 ^ 32 -> is_instr (push_vch [] d).
Proof.
  intros Hd Hl. split.
  - unfold push_vch. rewrite app_nil_l. apply Forall_app. split; [|done].
    assert (Hw : forall x, is_byte (u8 x)) by (intros; apply wrap_range; lia).
    repeat case_goal; repeat (apply Forall_cons_2; [apply Hw || (unfold is_byte; lia)|]);
      (by apply Forall_nil_2) || by apply to_digits_digits.
  - exists (push_opcode d, d). rewrite <- (app_nil_r (push_vch [] d)). apply GetOp2_push. by rewrite app_nil_r.
Qed.

Lemma filter_id (b : list Z) l : Forall (.≠ b) l -> filter (.≠ b) l = l.
Proof. induction 1 as [|x l Hx _ IH]; [done|]. rewrite filter_cons_True by done. by rewrite IH. Qed.

(** Removing a signature from a key-hash script changes nothing. *)
Lemma p2pkh_no_sig bs s :
  bytes_ok bs -> length bs = 20%nat -> bytes_ok s -> Z.of_nat (length s) <= 520 -> s <> bs ->
  (FindAndDelete (p2pkh_script bs) (push_vch [] s)).1 = p2pkh_script bs.
Proof.
  intros Hb Hl Hs Hsl Hne.
  assert (is_instr (push_vch [] s)) as Hi by (apply is_instr_push; [done|lia]).
  set (l := [[OP_DUP]; [OP_HASH160]; 0x14 :: bs; [OP_EQUALVERIFY]; [OP_CHECKSIG]] : list (list Z)).
  assert (E0 : p2pkh_script bs = mjoin l ++ []) by (unfold p2pkh_script, l; by rewrite app_nil_r).
  assert (Hf : filter (.≠ push_vch [] s) l = l).
  { assert (Forall (.≠ push_vch [] s) l) as Ha; [|by apply filter_id].
    assert (Hh : forall op d, OP_PUSHDATA4 < op -> op :: d <> push_vch [] s).
    { intros op d Hop. unfold push_vch. rewrite app_nil_l.
      repeat case_goal; bool_prop; cbn [app]; intros [= -> _]; [rewrite wrap_small in Hop by lia|..]; lia. }
    repeat (apply Forall_cons_2; [try (apply Hh; lia)|]); [|apply Forall_nil_2].
    unfold push_vch. rewrite app_nil_l. case_goal; [|repeat case_goal; done]. cbn [app]. congruence. }
  rewrite E0. unfold FindAndDelete. destruct (push_vch [] s) as [|x b'] eqn:Eb; [by destruct Hi as [_ [? ?]]|].
  rewrite find_and_delete_instrs; [by rewrite Hf|done| |by eexists|..].
  - repeat constructor; try (unfold is_byte; lia); try (by eexists).
    + done.
    + exists (20, bs). spell_20 bs Hl. reflexivity.
  - rewrite <- E0. unfold p2pkh_script. rewrite !length_app, Hl. cbn. lia.
  - rewrite <- E0. unfold p2pkh_script. rewrite !length_app, Hl. cbn. lia.
Qed.
End complete.

(** ** Claims *)

(** C34: the wallet can spend what is paid to its keys.  For an output paid to the
    hash of a key the store holds, and a key OpenSSL signs with, [SignSignature]
    succeeds: it puts the signature with the hash type and the public key into the
    input, and the script it writes verifies under the strict rules, whatever the
    signature cache holds. *)
Theorem sign_key_hash {B : BNOps} {H : HashOps} {HL : HashLaws H} {E : ECOps} {EL : ECLaws E} {S : ECSecretOps E}
    {SL : ECSecretLaws E S} {P : SecpOps} {VL : SigLaws E P} {K : CKeyStore} {KL : CKeyStoreLaws K}
    (maxsize : Z) (tx : CTransaction) (nIn : nat) (t : Z) (c : CSignatureCache) (id pub sig : list Z) (k : CKey) :
  let fromPubKey := (SetDestination (CKeyID id)).2 in
  GetKey id = Some (Some k) -> GetPubKey k = Some pub -> IsCanonicalPubKey pub STRICT_FLAGS = true ->
  (nIn < length (vin tx))%nat -> is_byte t -> 1 <= t mod 128 <= 3 ->
  CKey_Sign k (SignatureHash fromPubKey tx nIn t) = Some sig -> sig ++ [t] <> limb_bytes id ->
  exists c', SignSignature maxsize fromPubKey tx nIn t c =
    Some (true, with_scriptSig tx nIn (push_vch (push_vch [] (sig ++ [t])) pub), c').
Proof.
  intros fromPubKey Hk Hp Hcan Hn Ht Htm Hs Hne.
  destruct (GetKey_id _ _ Hk) as (pub' & Hp' & Hid). assert (pub' = pub) as -> by congruence. clear Hp'.
  assert (uint_ok WIDTH160 id) as Hok by (rewrite <- Hid; apply Hash160_ok).
  pose proof (length_Hash160_bytes id Hok) as Hb.
  destruct (CKey_Sign_spec _ _ _ t Hs Ht Htm) as [Hc Hv].
  destruct (CKey_Sign_der _ _ _ Hs) as (r & s & Hr & Hl & Esig & _).
  destruct (der_sig_bytes r s Hr ltac:(unfold half_order, secp256k1_order in *; lia)) as [Hsb Hsl]. rewrite <- Esig in Hsb, Hsl.
  subst fromPubKey. rewrite SetDestination_key in *. cbn [snd] in *.
  unfold SignSignature. destruct (Nat.leb_spec (length (vin tx)) nIn); [lia|].
  unfold Solver_sign. rewrite Solver_p2pkh by done. cbn [negb default head Datatypes.id from_option]. unfold Sign1. cbv [Datatypes.id].
  assert (uint_of_vch WIDTH160 (limb_bytes id) = id) as ->.
  { unfold uint_of_vch. rewrite Hb. change (_ =? _) with true. cbv iota. destruct Hok as [Hil Hi].
    rewrite <- Hil at 1. by apply limbs_of_bytes_limb_bytes. }
  rewrite Hk. cbn [mbind option_bind]. rewrite Hs. cbn [mbind option_bind negb].
  rewrite (GetPubKey_id _ _ Hk), Hp. cbn [mbind option_bind default from_option Datatypes.id negb]. rewrite bool_decide_eq_false_2 by done.
  rewrite wrap_small by (unfold is_byte in Ht; lia). set (sg := sig ++ [t]) in *.
  assert (CPubKey_IsValid pub = true /\ (length pub <= 520)%nat) as [Hval Hpl].
  { clear -Hcan. unfold IsCanonicalPubKey in Hcan. change (has_flag _ _) with true in Hcan. cbn [negb] in Hcan.
    unfold CPubKey_IsValid. repeat case_hyp Hcan; try done; bool_prop; rewrite orb_true_iff, !Z.eqb_eq; lia. }
  set (tx' := with_scriptSig tx nIn (push_vch (push_vch [] sg) pub)).
  destruct (CheckSig_signed maxsize tx' nIn STRICT_FLAGS (p2pkh_script (limb_bytes id)) k pub sig t c Hp Hval)
    as [c' Hcs].
  { intros ->. change (0 mod 128) with 0 in Htm. lia. }
  { subst tx'. by rewrite sighash_with_scriptSig. }
  exists c'. unfold VerifyScript, VerifyScript_in.
  rewrite eval_two_pushes by (done || (subst sg; rewrite length_app; cbn; lia)). cbn [negb].
  rewrite eval_p2pkh by done. rewrite bool_decide_eq_true_2 by (by rewrite Hid). unfold check_result.
  rewrite Hc, Hcan. cbn [andb].
  rewrite p2pkh_no_sig; [|apply limb_bytes_ok|done| | |done].
  - fold sg in Hcs. rewrite Hcs. cbn [negb]. rewrite top_true_bool. cbn [negb].
    rewrite p2pkh_not_p2sh, andb_false_r by done. done.
  - subst sg. apply Forall_app. split; [done|]. by constructor.
  - subst sg. rewrite length_app. cbn. lia.
Qed.

Section mine.
Context {H : HashOps} {HL : HashLaws H} {E : ECOps} {K : CKeyStore}.

Lemma HaveKeys_count keys n :
  0 <= n -> n + Z.of_nat (length keys) < 2 ^ 32 ->
  foldl (fun n pubkey => if HaveKey (CPubKey_GetID pubkey) then u32 (n + 1) else n) n keys =
  n + Z.of_nat (length (filter (fun k => HaveKey (CPubKey_GetID k) = true) keys)).
Proof.
  revert n. induction keys as [|k keys IH]; intros n Hn Hl; [cbn; lia|]. cbn [foldl length].
  cbn [length] in Hl. rewrite filter_cons. destruct (HaveKey (CPubKey_GetID k)) eqn:Ek.
  - destruct (decide _); [|done]. cbn [length]. rewrite wrap_small by lia. rewrite IH by lia. lia.
  - destruct (decide _); [done|]. rewrite IH by lia. lia.
Qed.

(** All the keys are there exactly when as many are found as there are. *)
Lemma HaveKeys_all keys :
  Z.of_nat (length keys) < 2 ^ 32 ->
  (HaveKeys keys =? Z.of_nat (length keys)) = forallb (fun k => HaveKey (CPubKey_GetID k)) keys.
Proof.
  intros Hl. unfold HaveKeys. rewrite HaveKeys_count by lia. rewrite Z.add_0_l. clear Hl.
  induction keys as [|k keys IH]; [done|]. cbn [forallb]. rewrite filter_cons.
  pose proof (length_filter (fun k => HaveKey (CPubKey_GetID k) = true) keys).
  destruct (HaveKey (CPubKey_GetID k)) eqn:Ek; destruct (decide _); try done; cbn [length andb].
  - rewrite <- IH. destruct (Z.eqb_spec (Z.of_nat (length (filter (fun k => HaveKey (CPubKey_GetID k) = true) keys)))
      (Z.of_nat (length keys))); [apply Z.eqb_eq|apply Z.eqb_neq]; lia.
  - apply Z.eqb_neq. lia.
Qed.
End mine.

(** what a store calls its own.  An output paid to a key hash is spendable exactly
    when the store has the key; one paid to a script hash when the store has the
    redeem script and that script is spendable; a multisig script when the store has
    all its keys.  Failing that, an output counts as watched exactly when its script
    is on the watch list. *)
Theorem IsMine_standard {H : HashOps} {HL : HashLaws H} {E : ECOps} {K : CKeyStore} (depth : nat) (id : list Z)
    (m : Z) (pubkeys : list valtype) :
  uint_ok WIDTH160 id -> 1 <= m <= Z.of_nat (length pubkeys) -> (length pubkeys <= 16)%nat ->
  Forall (fun k => pubkey_size k = true) pubkeys ->
  let watch script := if HaveWatchOnly script then MINE_WATCH_ONLY else MINE_NO in
  let to_key := (SetDestination (CKeyID id)).2 in
  let to_script := (SetDestination (CScriptID id)).2 in
  let multisig := multisig_script m pubkeys in
  IsMine_dest depth (CKeyID id) = (if HaveKey id then MINE_SPENDABLE else watch to_key) /\
  IsMine_dest (S depth) (CScriptID id) =
    (if bool_decide ((IsMine depth <$> GetCScript id) = Some MINE_SPENDABLE) then MINE_SPENDABLE else watch to_script) /\
  IsMine depth multisig =
    (if forallb (fun k => HaveKey (CPubKey_GetID k)) pubkeys then MINE_SPENDABLE else watch multisig).
Proof.
  intros Hok Hm Hl Hk watch to_key to_script multisig. pose proof (length_Hash160_bytes id Hok) as Hb.
  assert (uint_of_vch WIDTH160 (limb_bytes id) = id) as Hv.
  { unfold uint_of_vch. rewrite Hb. change (_ =? _) with true. cbv iota. destruct Hok as [Hil Hi].
    rewrite <- Hil at 1. by apply limbs_of_bytes_limb_bytes. }
  subst to_key to_script. unfold IsMine_dest. rewrite SetDestination_key, SetDestination_script. cbn [snd]. split_and!.
  - destruct depth; cbn [IsMine]; rewrite Solver_p2pkh by done; cbn [negb default head from_option]; cbv [Datatypes.id];
      rewrite Hv; done.
  - cbn [IsMine]. rewrite Solver_p2sh by done. cbn [negb default head from_option]. cbv [Datatypes.id]. rewrite Hv.
    destruct (GetCScript id) as [script|]; cbn [fmap option_fmap option_map]; [|done].
    destruct (decide (IsMine depth script = MINE_SPENDABLE)) as [->|Hne]; [by rewrite !bool_decide_eq_true_2|].
    rewrite !bool_decide_eq_false_2 by congruence. done.
  - rewrite <- HaveKeys_all by lia. subst multisig.
    assert (Solver (multisig_script m pubkeys) = (true, TX_MULTISIG, [m] :: pubkeys ++ [[Z.of_nat (length pubkeys)]])) as Hs
      by (apply Solver_multisig; (done || lia || apply multisig_script_size; done)).
    destruct depth; cbn [IsMine]; rewrite Hs; cbn [negb tail]; by rewrite removelast_last.
Qed.

(** ** Witnesses: the toy key in a basic store *)

#[export] Instance toy_sig_laws : SigLaws toy_ec no_secp.
Proof.
  split.
  - intros h sig [d p c] [d' p' c'] He Hne. cbn in *. unfold toy_encode in *. cbn [toy_point toy_comp] in *.
    destruct p as [p|]; [|done]. destruct p' as [p'|]; [|by destruct c].
    assert (Hm : forall n, (32 <= n)%nat -> le_bytes n p = le_bytes n p' -> p mod 2 ^ 256 = p' mod 2 ^ 256).
    { intros n Hn E. apply (f_equal (fun l => le_val l mod 2 ^ 256)) in E. revert E.
      rewrite !digits_val_to_digits by lia. replace (256 ^ Z.of_nat n) with (2 ^ 256 * 256 ^ (Z.of_nat n - 32)).
      - rewrite !Z.mod_mod_divide by (exists (256 ^ (Z.of_nat n - 32)); lia). done.
      - change (2 ^ 256) with (256 ^ 32). rewrite <- Z.pow_add_r by lia. f_equal. lia. }
    assert (Hh : head (if c then 2 :: le_bytes 32 p else 4 :: le_bytes 64 p) =
      head (if c' then 2 :: le_bytes 32 p' else 4 :: le_bytes 64 p')) by (by rewrite He).
    assert (Ht : tail (if c then 2 :: le_bytes 32 p else 4 :: le_bytes 64 p) =
      tail (if c' then 2 :: le_bytes 32 p' else 4 :: le_bytes 64 p')) by (by rewrite He).
    clear He Hne. unfold toy_rs. destruct c, c'; cbn [head tail] in Hh, Ht; [|discriminate Hh..|].
    + by rewrite (Hm 32%nat ltac:(lia) Ht).
    + by rewrite (Hm 64%nat ltac:(lia) Ht).
  - intros pub key hash sig _ Hs. by cbn in Hs.
Qed.

Definition toy_keys : CKeyStore := basic_keystore (basic toy_store).

Lemma toy_keys_laws : CKeyStoreLaws (H := toy_hash) toy_keys.
Proof. apply basic_keystore_laws, inv_basic, (reachable_inv (H := toy_hash)), toy_store_reachable. Qed.

Lemma sign_key_hash_witness :
  exists tx c', SignSignature (B := ZBN) (H := toy_hash) (E := toy_ec) (P := no_secp) (K := toy_keys) 50000
    (SetDestination (CKeyID toy_id)).2 sample_tx 0 SIGHASH_ALL empty_cache = Some (true, tx, c').
Proof.
  pose (script := (SetDestination (CKeyID toy_id)).2).
  pose (hash := SignatureHash (H := toy_hash) script sample_tx 0 SIGHASH_ALL).
  assert (match GetKey (CKeyStore := toy_keys) toy_id with Some (Some k) => GetPubKey k | _ => None end = Some toy_pub)
    as Hp by (vm_compute; reflexivity).
  assert (match GetKey (CKeyStore := toy_keys) toy_id with Some (Some k) => CKey_Sign k hash | _ => None end =
    Some [48; 8; 2; 2; 2; 169; 2; 2; 3; 192]) as Hs by (vm_compute; reflexivity).
  destruct (GetKey (CKeyStore := toy_keys) toy_id) as [[k|]|] eqn:Ek; try discriminate Hp.
  destruct (sign_key_hash (B := ZBN) (H := toy_hash) (E := toy_ec) (P := no_secp) (K := toy_keys) (KL := toy_keys_laws)
    50000 sample_tx 0 SIGHASH_ALL empty_cache toy_id toy_pub [48; 8; 2; 2; 2; 169; 2; 2; 3; 192] k Ek Hp) as [c' E'];
    [vm_compute; reflexivity|cbn; lia|unfold is_byte, SIGHASH_ALL; lia|vm_compute; split; discriminate|exact Hs| |].
  - intros Heq. apply (f_equal length) in Heq. vm_compute in Heq. discriminate Heq.
  - eexists. exists c'. exact E'.
Defined.

Lemma IsMine_standard_witness :
  IsMine_dest (H := toy_hash) (K := toy_keys) 0 (CKeyID toy_id) = MINE_SPENDABLE.
Proof.
  destruct (IsMine_standard (H := toy_hash) (K := toy_keys) 0 toy_id 1 [toy_pub]) as (-> & _);
    [apply Hash160_ok|cbn; lia|cbn; lia|repeat constructor|]. vm_compute. reflexivity.
Defined.
