(* ===== verification/Scrypt.v ===== *)
(** * The block hash: [pbkdf2.cpp] and the generic code of [scrypt.cpp]

    HMAC-SHA256 and PBKDF2 over the digests of [HashOps], the Salsa20/8 mixing
    of sixteen words, the two loops over the scratchpad and the block hash, with
    the definitions of RFC 2104, RFC 2898 and RFC 7914 they implement.  Words are
    32-bit integers; memory is little-endian. *)

From S2P Require Import Prelude Uint256 Serialize Hash.

(** ** [pbkdf2.cpp] *)

Definition be32dec (p : list Z) : Z :=
  u32 (nthZ p 3 + u32 (nthZ p 2 .<< 8) + u32 (nthZ p 1 .<< 16) + u32 (nthZ p 0 .<< 24)).

Definition be32enc (x : Z) : list Z :=
  [(x .>> 24) .& 0xff; (x .>> 16) .& 0xff; (x .>> 8) .& 0xff; x .& 0xff].

(** The two incremental contexts, as the bytes fed to them *)
Record HMAC_SHA256_CTX := mkHmac { ictx : list Z; octx : list Z }.

(** [for (i = 0; i < Klen; i++) pad[i] ^= K[i];] *)
Fixpoint xor_pad (pad K : list Z) : list Z :=
  match pad, K with
  | p :: pad, k :: K => Z.lxor p k :: xor_pad pad K
  | _, _ => pad
  end.

Definition xor_bytes (a b : list Z) : list Z := zip_with Z.lxor a b.

Section pbkdf2.
Context {H : HashOps}.

Definition HMAC_SHA256_Init (K : list Z) : HMAC_SHA256_CTX :=
  let K := if 64 <? Z.of_nat (length K) then SHA256 K else K in
  mkHmac (xor_pad (replicate 64 0x36) K) (xor_pad (replicate 64 0x5c) K).

Definition HMAC_SHA256_Update (ctx : HMAC_SHA256_CTX) (data : list Z) : HMAC_SHA256_CTX :=
  mkHmac (ictx ctx ++ data) (octx ctx).

Definition HMAC_SHA256_Final (ctx : HMAC_SHA256_CTX) : list Z :=
  let ihash := SHA256 (ictx ctx) in
  SHA256 (octx ctx ++ ihash).

(** [for (j = 2; j <= c; j++)]: [n] more rounds *)
Fixpoint U_loop (passwd : list Z) (n : nat) (U T : list Z) : list Z :=
  match n with
  | O => T
  | S n =>
      let U := HMAC_SHA256_Final (HMAC_SHA256_Update (HMAC_SHA256_Init passwd) U) in
      U_loop passwd n U (xor_bytes T U)
  end.

(** The block loop from [i]; it runs at most [dkLen] times, which is the fuel *)
Fixpoint block_loop (passwd : list Z) (PShctx : HMAC_SHA256_CTX) (c : Z) (dkLen : Z) (fuel : nat)
    (i : Z) (buf : list Z) : list Z :=
  match fuel with
  | O => buf
  | S fuel =>
      if i * 32 <? dkLen then
        let ivec := be32enc (u32 (i + 1)) in
        let U := HMAC_SHA256_Final (HMAC_SHA256_Update PShctx ivec) in
        let T := U_loop passwd (Z.to_nat (c - 1)) U U in
        let clen := dkLen - i * 32 in
        let clen := if 32 <? clen then 32 else clen in
        block_loop passwd PShctx c dkLen fuel (i + 1) (buf ++ take (Z.to_nat clen) T)
      else buf
  end.

Definition PBKDF2_SHA256 (passwd salt : list Z) (c dkLen : Z) : list Z :=
  let PShctx := HMAC_SHA256_Update (HMAC_SHA256_Init passwd) salt in
  block_loop passwd PShctx c dkLen (Z.to_nat dkLen) 0 [].
End pbkdf2.

(** ** [xor_salsa8] *)

(** [R(a, b)], and [x ^= R(a + c, b)] *)
Definition rotl (a b : Z) : Z := u32 (a .<< b) .| (a .>> (32 - b)).
Definition rx (x a c b : Z) : Z := Z.lxor x (rotl (u32 (a + c)) b).

Definition columns (x : list Z) : list Z :=
  match x with
  | [x00; x01; x02; x03; x04; x05; x06; x07; x08; x09; x10; x11; x12; x13; x14; x15] =>
      let x04 := rx x04 x00 x12 7 in let x09 := rx x09 x05 x01 7 in
      let x14 := rx x14 x10 x06 7 in let x03 := rx x03 x15 x11 7 in
      let x08 := rx x08 x04 x00 9 in let x13 := rx x13 x09 x05 9 in
      let x02 := rx x02 x14 x10 9 in let x07 := rx x07 x03 x15 9 in
      let x12 := rx x12 x08 x04 13 in let x01 := rx x01 x13 x09 13 in
      let x06 := rx x06 x02 x14 13 in let x11 := rx x11 x07 x03 13 in
      let x00 := rx x00 x12 x08 18 in let x05 := rx x05 x01 x13 18 in
      let x10 := rx x10 x06 x02 18 in let x15 := rx x15 x11 x07 18 in
      [x00; x01; x02; x03; x04; x05; x06; x07; x08; x09; x10; x11; x12; x13; x14; x15]
  | _ => x
  end.

Definition rows (x : list Z) : list Z :=
  match x with
  | [x00; x01; x02; x03; x04; x05; x06; x07; x08; x09; x10; x11; x12; x13; x14; x15] =>
      let x01 := rx x01 x00 x03 7 in let x06 := rx x06 x05 x04 7 in
      let x11 := rx x11 x10 x09 7 in let x12 := rx x12 x15 x14 7 in
      let x02 := rx x02 x01 x00 9 in let x07 := rx x07 x06 x05 9 in
      let x08 := rx x08 x11 x10 9 in let x13 := rx x13 x12 x15 9 in
      let x03 := rx x03 x02 x01 13 in let x04 := rx x04 x07 x06 13 in
      let x09 := rx x09 x08 x11 13 in let x14 := rx x14 x13 x12 13 in
      let x00 := rx x00 x03 x02 18 in let x05 := rx x05 x04 x07 18 in
      let x10 := rx x10 x09 x08 18 in let x15 := rx x15 x14 x13 18 in
      [x00; x01; x02; x03; x04; x05; x06; x07; x08; x09; x10; x11; x12; x13; x14; x15]
  | _ => x
  end.

Definition xor_salsa8 (B Bx : list Z) : list Z :=
  let B := zip_with Z.lxor B Bx in
  let x := Nat.iter 4 (fun x => rows (columns x)) B in
  zip_with (fun b x => u32 (b + x)) B x.

(** ** [scrypt_core] *)

(** [xor_salsa8(&X[0], &X[16]); xor_salsa8(&X[16], &X[0]);] *)
Definition salsa_pair (X : list Z) : list Z :=
  let lo := xor_salsa8 (take 16 X) (drop 16 X) in
  lo ++ xor_salsa8 (drop 16 X) lo.

(** The first loop fills the scratchpad front to back. *)
Fixpoint fill_loop (n : nat) (X V : list Z) : list Z * list Z :=
  match n with
  | O => (X, V)
  | S n => fill_loop n (salsa_pair X) (V ++ X)
  end.

(** [X[k] ^= V[j + k]] for the words of one slot; a read past the end of the
    scratchpad would lose words. *)
Fixpoint read_loop (n : nat) (V X : list Z) : list Z :=
  match n with
  | O => X
  | S n =>
      let j := 32 * (nthZ X 16 .& 1023) in
      read_loop n V (salsa_pair (zip_with Z.lxor X (take 32 (drop (Z.to_nat j) V))))
  end.

Definition scrypt_core (X : list Z) : list Z :=
  let '(X, V) := fill_loop 1024 X [] in read_loop 1024 V X.

(** ** The hashes *)

Section scrypt.
Context {H : HashOps}.

Definition scrypt (data salt : list Z) : list Z :=
  let X := limbs_of_bytes 32 (PBKDF2_SHA256 data salt 1 128) in
  let X := scrypt_core X in
  limbs_of_bytes WIDTH256 (PBKDF2_SHA256 data (limb_bytes X) 1 32).

Definition scrypt_nosalt (input : list Z) : list Z :=
  let X := limbs_of_bytes 32 (PBKDF2_SHA256 input input 1 128) in
  let X := scrypt_core X in
  limbs_of_bytes WIDTH256 (PBKDF2_SHA256 input (limb_bytes X) 1 32).

Definition scrypt_hash (input : list Z) : list Z := scrypt_nosalt input.
Definition scrypt_salted_hash (input salt : list Z) : list Z := scrypt input salt.

(** [for (i = 1; i < nRounds; i++)] *)
Fixpoint salted_rounds (input : list Z) (n : nat) (transitionalHash : list Z) : list Z :=
  match n with
  | O => transitionalHash
  | S n => salted_rounds input n (scrypt_salted_hash input (limb_bytes transitionalHash))
  end.

Definition scrypt_salted_multiround_hash (input salt : list Z) (nRounds : Z) : list Z :=
  salted_rounds input (Z.to_nat (nRounds - 1)) (scrypt_salted_hash input salt).

(** The header is 80 bytes. *)
Definition scrypt_blockhash (input : list Z) : list Z := scrypt_nosalt (take 80 input).
End scrypt.

(** ** The standards *)

(** RFC 7914: the quarter round of Salsa20 on four positions of a matrix *)
Definition quarter_round (i0 i1 i2 i3 : nat) (x : list Z) : list Z :=
  let z1 := rx (nthZ x i1) (nthZ x i0) (nthZ x i3) 7 in
  let z2 := rx (nthZ x i2) z1 (nthZ x i0) 9 in
  let z3 := rx (nthZ x i3) z2 z1 13 in
  let z0 := rx (nthZ x i0) z3 z2 18 in
  <[i0 := z0]> (<[i1 := z1]> (<[i2 := z2]> (<[i3 := z3]> x))).

Definition column_round (x : list Z) : list Z :=
  quarter_round 15 3 7 11 (quarter_round 10 14 2 6 (quarter_round 5 9 13 1 (quarter_round 0 4 8 12 x))).
Definition row_round (x : list Z) : list Z :=
  quarter_round 15 12 13 14 (quarter_round 10 11 8 9 (quarter_round 5 6 7 4 (quarter_round 0 1 2 3 x))).

(** Eight rounds and the addition of the input *)
Definition salsa20_8 (x : list Z) : list Z :=
  zip_with (fun b x => u32 (b + x)) x (Nat.iter 4 (fun x => row_round (column_round x)) x).

(** scryptBlockMix for [r = 1] *)
Definition block_mix (B : list Z) : list Z :=
  let B0 := take 16 B in
  let B1 := drop 16 B in
  let Y0 := salsa20_8 (xor_bytes B1 B0) in
  let Y1 := salsa20_8 (xor_bytes Y0 B1) in
  Y0 ++ Y1.

(** scryptROMix: the [j]-th entry of the table is [block_mix] applied [j] times. *)
Definition ro_mix (N : nat) (B : list Z) : list Z :=
  Nat.iter N (fun X => block_mix (xor_bytes X (Nat.iter (Z.to_nat (nthZ X 16 mod Z.of_nat N)) block_mix B)))
    (Nat.iter N block_mix B).

Section standards.
Context {H : HashOps}.

(** RFC 2104 *)
Definition hmac_key (K : list Z) : list Z :=
  let K := if 64 <? Z.of_nat (length K) then SHA256 K else K in
  K ++ replicate (64 - length K) 0.
Definition hmac (K text : list Z) : list Z :=
  SHA256 ((Z.lxor 0x5c <$> hmac_key K) ++ SHA256 ((Z.lxor 0x36 <$> hmac_key K) ++ text)).

(** RFC 2898: [F (P, S, c, i)], with [n] rounds after the first *)
Fixpoint pbkdf2_xor (P : list Z) (n : nat) (U : list Z) : list Z :=
  match n with
  | O => U
  | S n => xor_bytes U (pbkdf2_xor P n (hmac P U))
  end.
Definition pbkdf2_F (P S : list Z) (c i : Z) : list Z :=
  pbkdf2_xor P (Z.to_nat (c - 1)) (hmac P (S ++ rev (le_bytes 4 i))).
Definition pbkdf2 (P S : list Z) (c dkLen : Z) : list Z :=
  take (Z.to_nat dkLen)
    (mjoin ((fun i => pbkdf2_F P S c (Z.of_nat i)) <$> seq 1 (Z.to_nat ((dkLen + 31) / 32)))).

(** RFC 7914 with [N = 1024], [r = p = 1] and a key of 32 bytes *)
Definition scrypt_spec (P S : list Z) : list Z :=
  pbkdf2 P (limb_bytes (ro_mix 1024 (limbs_of_bytes 32 (pbkdf2 P S 1 128)))) 1 32.
End standards.

(** ** Lemmas: the mixing *)

Ltac spell_16 x Hx :=
  do 16 (destruct x as [|? x]; [discriminate Hx|]); destruct x; [clear Hx|discriminate Hx].

(** Evaluate the innermost quarter round on a list of sixteen words. *)
Ltac quarter_step i0 i1 i2 i3 :=
  match goal with
  | |- context [ quarter_round i0 i1 i2 i3 ?l ] =>
      let r := eval cbv [quarter_round nthZ lookup list_lookup default from_option id insert list_insert]
        in (quarter_round i0 i1 i2 i3 l) in
      replace (quarter_round i0 i1 i2 i3 l) with r by reflexivity
  end.

Lemma columns_round x : length x = 16%nat -> columns x = column_round x.
Proof.
  intros Hx. spell_16 x Hx. unfold column_round.
  quarter_step 0%nat 4%nat 8%nat 12%nat. quarter_step 5%nat 9%nat 13%nat 1%nat.
  quarter_step 10%nat 14%nat 2%nat 6%nat. quarter_step 15%nat 3%nat 7%nat 11%nat. reflexivity.
Qed.

Lemma rows_round x : length x = 16%nat -> rows x = row_round x.
Proof.
  intros Hx. spell_16 x Hx. unfold row_round.
  quarter_step 0%nat 1%nat 2%nat 3%nat. quarter_step 5%nat 6%nat 7%nat 4%nat.
  quarter_step 10%nat 11%nat 8%nat 9%nat. quarter_step 15%nat 12%nat 13%nat 14%nat. reflexivity.
Qed.

Lemma length_quarter_round i0 i1 i2 i3 x : length (quarter_round i0 i1 i2 i3 x) = length x.
Proof. unfold quarter_round. by rewrite !length_insert. Qed.

Lemma length_column_round x : length (column_round x) = length x.
Proof. unfold column_round. by rewrite !length_quarter_round. Qed.

Lemma length_row_round x : length (row_round x) = length x.
Proof. unfold row_round. by rewrite !length_quarter_round. Qed.

Lemma length_rounds n x : length (Nat.iter n (fun x => row_round (column_round x)) x) = length x.
Proof. induction n as [|n IH]; [done|]. by rewrite Nat.iter_succ, length_row_round, length_column_round. Qed.

Lemma rounds_eq n x : length x = 16%nat ->
  Nat.iter n (fun x => rows (columns x)) x = Nat.iter n (fun x => row_round (column_round x)) x.
Proof.
  intros Hx. induction n as [|n IH]; [done|]. rewrite !Nat.iter_succ, IH.
  rewrite columns_round by (by rewrite length_rounds).
  by rewrite rows_round by (by rewrite length_column_round, length_rounds).
Qed.

Lemma xor_bytes_comm a b : xor_bytes a b = xor_bytes b a.
Proof.
  unfold xor_bytes. revert b. induction a as [|x a IH]; intros [|y b]; [done..|].
  simpl. by rewrite Z.lxor_comm, IH.
Qed.

Lemma length_xor_bytes a b : length a = length b -> length (xor_bytes a b) = length b.
Proof. intros E. unfold xor_bytes. rewrite length_zip_with. lia. Qed.

Lemma xor_salsa8_spec B Bx :
  length B = 16%nat -> length Bx = 16%nat -> xor_salsa8 B Bx = salsa20_8 (xor_bytes B Bx).
Proof.
  intros HB HBx. unfold xor_salsa8, salsa20_8. fold (xor_bytes B Bx).
  by rewrite rounds_eq by (by rewrite length_xor_bytes, HBx by congruence).
Qed.

Lemma length_salsa20_8 x : length (salsa20_8 x) = length x.
Proof. unfold salsa20_8. rewrite length_zip_with, length_rounds. lia. Qed.

Lemma salsa_pair_block_mix X : length X = 32%nat -> salsa_pair X = block_mix X.
Proof.
  intros HX. unfold salsa_pair, block_mix.
  assert (length (take 16 X) = 16%nat) by (rewrite length_take; lia).
  assert (length (drop 16 X) = 16%nat) by (rewrite length_drop; lia).
  rewrite (xor_salsa8_spec (take 16 X)) by done. rewrite (xor_bytes_comm (take 16 X)).
  assert (length (salsa20_8 (xor_bytes (drop 16 X) (take 16 X))) = 16%nat).
  { rewrite length_salsa20_8, length_xor_bytes; congruence. }
  rewrite xor_salsa8_spec by done. by rewrite (xor_bytes_comm (drop 16 X) (salsa20_8 _)).
Qed.

Lemma length_block_mix X : length X = 32%nat -> length (block_mix X) = 32%nat.
Proof.
  intros HX. unfold block_mix.
  assert (length (take 16 X) = 16%nat) by (rewrite length_take; lia).
  assert (length (drop 16 X) = 16%nat) by (rewrite length_drop; lia).
  assert (length (salsa20_8 (xor_bytes (drop 16 X) (take 16 X))) = 16%nat).
  { rewrite length_salsa20_8, length_xor_bytes; congruence. }
  rewrite length_app, (length_salsa20_8 (xor_bytes _ (drop 16 X))), length_xor_bytes by congruence. lia.
Qed.

Lemma length_iter_mix n X : length X = 32%nat -> length (Nat.iter n block_mix X) = 32%nat.
Proof. intros HX. induction n as [|n IH]; [done|]. rewrite Nat.iter_succ. by apply length_block_mix. Qed.

(** ** Lemmas: the scratchpad *)

(** The table after [n] rounds *)
Definition table (n : nat) (X : list Z) : list Z := mjoin ((fun i => Nat.iter i block_mix X) <$> seq 0 n).

Lemma table_S n X : table (S n) X = table n X ++ Nat.iter n block_mix X.
Proof. unfold table. rewrite seq_S, fmap_app, join_app. cbn. by rewrite app_nil_r. Qed.

Lemma length_table n X : length X = 32%nat -> length (table n X) = (32 * n)%nat.
Proof.
  intros HX. induction n as [|n IH]; [done|].
  rewrite table_S, length_app, IH, length_iter_mix by done. lia.
Qed.

(** Every slot the second loop can ask for is in the scratchpad. *)
Lemma table_slot n i X :
  length X = 32%nat -> (i < n)%nat -> take 32 (drop (32 * i) (table n X)) = Nat.iter i block_mix X.
Proof.
  intros HX. induction n as [|n IH]; intros Hi; [lia|]. rewrite table_S.
  pose proof (length_table n X HX) as Hl. destruct (decide (i = n)) as [->|Hne].
  - rewrite <- Hl, drop_app_length. apply take_ge. by rewrite length_iter_mix.
  - rewrite drop_app_le by lia. rewrite take_app_le by (rewrite length_drop; lia). apply IH. lia.
Qed.

Lemma fill_loop_spec n X k :
  length X = 32%nat ->
  fill_loop n (Nat.iter k block_mix X) (table k X) = (Nat.iter (k + n) block_mix X, table (k + n) X).
Proof.
  intros HX. revert k. induction n as [|n IH]; intros k; cbn [fill_loop].
  - by rewrite Nat.add_0_r.
  - rewrite salsa_pair_block_mix by (by apply length_iter_mix). rewrite <- table_S.
    change (block_mix (Nat.iter k block_mix X)) with (Nat.iter (S k) block_mix X).
    rewrite (IH (S k)). by rewrite Nat.add_succ_r.
Qed.

Lemma read_loop_spec n X Y :
  length X = 32%nat -> length Y = 32%nat ->
  read_loop n (table 1024 X) Y =
  Nat.iter n (fun Y => block_mix (xor_bytes Y (Nat.iter (Z.to_nat (nthZ Y 16 mod 1024)) block_mix X))) Y.
Proof.
  intros HX. revert Y. induction n as [|n IH]; intros Y HY; [done|]. cbn [read_loop].
  change 1023 with (Z.ones 10). rewrite Z.land_ones by lia. change (2 ^ 10) with 1024.
  pose proof (Z.mod_pos_bound (nthZ Y 16) 1024 ltac:(lia)) as Hj.
  rewrite Z2Nat.inj_mul by lia. rewrite table_slot by (done || lia).
  fold (xor_bytes Y (Nat.iter (Z.to_nat (nthZ Y 16 mod 1024)) block_mix X)).
  assert (length (xor_bytes Y (Nat.iter (Z.to_nat (nthZ Y 16 mod 1024)) block_mix X)) = 32%nat).
  { rewrite length_xor_bytes; rewrite length_iter_mix by done; done. }
  rewrite salsa_pair_block_mix by done. rewrite IH by (by apply length_block_mix). by rewrite Nat.iter_succ_r.
Qed.

Lemma scrypt_core_spec X : length X = 32%nat -> scrypt_core X = ro_mix 1024 X.
Proof.
  intros HX. pose proof (length_iter_mix 1024 X HX) as Hl.
  pose proof (fill_loop_spec 1024 X 0 HX) as E. rewrite Nat.add_0_l in E. unfold scrypt_core, ro_mix.
  change (fill_loop 1024 X []) with (fill_loop 1024 (Nat.iter 0 block_mix X) (table 0 X)). rewrite E.
  exact (read_loop_spec 1024 X _ HX Hl).
Qed.

Lemma length_ro_mix n X : length X = 32%nat -> length (ro_mix n X) = 32%nat.
Proof.
  intros HX. unfold ro_mix. generalize n at 1. intros k. induction k as [|k IH]; [by apply length_iter_mix|].
  rewrite Nat.iter_succ. apply length_block_mix. rewrite length_xor_bytes; rewrite length_iter_mix by done; done.
Qed.

(** ** Lemmas: PBKDF2 *)

Lemma xor_pad_spec n c K :
  (length K <= n)%nat -> xor_pad (replicate n c) K = Z.lxor c <$> K ++ replicate (n - length K) 0.
Proof.
  revert K. induction n as [|n IH]; intros [|k K] Hl; cbn [length] in Hl; [done|lia| |].
  - cbn [xor_pad replicate app length Nat.sub fmap list_fmap]. rewrite Z.lxor_0_r. f_equal.
    clear. induction n as [|n IH]; [done|]. cbn [replicate fmap list_fmap]. by rewrite Z.lxor_0_r, <- IH.
  - cbn [xor_pad replicate app length Nat.sub fmap list_fmap]. f_equal. apply IH. lia.
Qed.

Lemma be32enc_be i : be32enc i = rev (le_bytes 4 i).
Proof.
  unfold be32enc. change 0xff with (Z.ones 8). rewrite !Z.land_ones by lia.
  rewrite !Z.shiftr_div_pow2 by lia. change (2 ^ 8) with 256. cbv [le_bytes to_digits rev app].
  rewrite !Z.div_div by lia. done.
Qed.

Section pbkdf2_facts.
Context {H : HashOps} {HL : HashLaws H}.

Lemma hmac_spec K text :
  HMAC_SHA256_Final (HMAC_SHA256_Update (HMAC_SHA256_Init K) text) = hmac K text.
Proof.
  unfold HMAC_SHA256_Final, HMAC_SHA256_Init, HMAC_SHA256_Update, hmac, hmac_key. cbn [ictx octx].
  set (K' := if _ <? _ then _ else _).
  assert (length K' <= 64)%nat.
  { subst K'. destruct (Z.ltb_spec 64 (Z.of_nat (length K))); [|lia]. pose proof (SHA256_ok K). lia. }
  by rewrite !xor_pad_spec.
Qed.

Lemma hmac_append K a b :
  HMAC_SHA256_Update (HMAC_SHA256_Update (HMAC_SHA256_Init K) a) b =
  HMAC_SHA256_Update (HMAC_SHA256_Init K) (a ++ b).
Proof. unfold HMAC_SHA256_Update. cbn [ictx octx]. by rewrite app_assoc. Qed.

Lemma xor_bytes_assoc a b c : xor_bytes (xor_bytes a b) c = xor_bytes a (xor_bytes b c).
Proof.
  unfold xor_bytes. revert b c. induction a as [|x a IH]; intros [|y b] [|z c]; [done..|].
  simpl. by rewrite Z.lxor_assoc, IH.
Qed.

Lemma U_loop_spec P n U T : U_loop P n U (xor_bytes T U) = xor_bytes T (pbkdf2_xor P n U).
Proof.
  revert U T. induction n as [|n IH]; intros U T; [done|]. cbn [U_loop pbkdf2_xor].
  rewrite hmac_spec, IH. by rewrite xor_bytes_assoc.
Qed.

Lemma U_loop_first P n U : U_loop P n U U = pbkdf2_xor P n U.
Proof.
  destruct n as [|n]; [done|]. cbn [U_loop pbkdf2_xor]. rewrite hmac_spec. apply U_loop_spec.
Qed.

Lemma length_hmac K text : length (hmac K text) = 32%nat.
Proof. unfold hmac. apply SHA256_ok. Qed.

Lemma length_pbkdf2_xor P n U : length U = 32%nat -> length (pbkdf2_xor P n U) = 32%nat.
Proof.
  revert U. induction n as [|n IH]; intros U HU; [done|]. cbn [pbkdf2_xor].
  rewrite length_xor_bytes; rewrite IH by apply length_hmac; done.
Qed.

Lemma length_pbkdf2_F P salt c i : length (pbkdf2_F P salt c i) = 32%nat.
Proof. apply length_pbkdf2_xor, length_hmac. Qed.

Lemma take_blocks (n : nat) (a l : list Z) :
  length a = 32%nat -> take n (a ++ l) = take (Nat.min n 32) a ++ take (n - 32) l.
Proof.
  intros Ha. rewrite take_app, Ha. f_equal. destruct (decide (n <= 32)%nat).
  - by rewrite Nat.min_l by lia.
  - rewrite Nat.min_r by lia. rewrite !take_ge by lia. done.
Qed.

Lemma block_loop_spec P salt c dkLen k fuel i buf :
  0 <= i -> dkLen <= 32 * (i + Z.of_nat k) -> (k <= fuel)%nat -> i + Z.of_nat k < 2 ^ 32 ->
  block_loop P (HMAC_SHA256_Update (HMAC_SHA256_Init P) salt) c dkLen fuel i buf =
  buf ++ take (Z.to_nat (dkLen - 32 * i))
    (mjoin ((fun i => pbkdf2_F P salt c (Z.of_nat i)) <$> seq (Z.to_nat (i + 1)) k)).
Proof.
  revert fuel i buf. induction k as [|k IH]; intros fuel i buf Hi Hd Hf Hm.
  - replace (Z.to_nat (dkLen - 32 * i)) with 0%nat by lia. rewrite take_0, app_nil_r.
    destruct fuel; [done|]. cbn [block_loop]. by destruct (Z.ltb_spec (i * 32) dkLen); [lia|].
  - destruct fuel as [|fuel]; [lia|]. cbn [block_loop seq fmap list_fmap].
    change (mjoin (?a :: ?l)) with (a ++ mjoin l). destruct (Z.ltb_spec (i * 32) dkLen) as [Hlt|Hge].
    + rewrite take_blocks by apply length_pbkdf2_F. rewrite app_assoc.
      rewrite wrap_small by lia. rewrite hmac_append, hmac_spec, U_loop_first, be32enc_be.
      fold (pbkdf2_F P salt c (i + 1)). rewrite IH by lia. rewrite (Z2Nat.id (i + 1)) by lia.
      replace (Z.to_nat (dkLen - 32 * (i + 1))) with (Z.to_nat (dkLen - 32 * i) - 32)%nat by lia.
      replace (Z.to_nat (i + 1 + 1)) with (S (Z.to_nat (i + 1))) by lia.
      replace (Z.to_nat (if _ <? _ then _ else _)) with (Nat.min (Z.to_nat (dkLen - 32 * i)) 32)
        by (case_goal; bool_prop; lia).
      done.
    + replace (Z.to_nat (dkLen - 32 * i)) with 0%nat by lia. by rewrite take_0, app_nil_r.
Qed.

Lemma PBKDF2_spec P salt c dkLen :
  0 <= dkLen < 2 ^ 32 -> PBKDF2_SHA256 P salt c dkLen = pbkdf2 P salt c dkLen.
Proof.
  intros Hd. unfold PBKDF2_SHA256, pbkdf2.
  pose proof (Z.div_mod (dkLen + 31) 32 ltac:(lia)) as E. pose proof (Z.mod_pos_bound (dkLen + 31) 32 ltac:(lia)).
  rewrite (block_loop_spec P salt c dkLen (Z.to_nat ((dkLen + 31) / 32))) by lia.
  rewrite app_nil_l, Z.mul_0_r, Z.sub_0_r. done.
Qed.

(** One block and one round: a single HMAC *)
Lemma pbkdf2_one P salt : pbkdf2 P salt 1 32 = hmac P (salt ++ [0; 0; 0; 1]).
Proof.
  unfold pbkdf2. change (Z.to_nat ((32 + 31) / 32)) with 1%nat. cbn [seq fmap list_fmap].
  change (mjoin [?a]) with (a ++ []). rewrite app_nil_r. apply take_ge. rewrite length_hmac. done.
Qed.
End pbkdf2_facts.

(** ** Claims *)

(** C36: the block hash is scrypt as RFC 7914 specifies it: the straight-line mixing
    of the source computes the column and row rounds of Salsa20/8, no read leaves
    the scratchpad, PBKDF2 derives its keys as RFC 2898 says with the HMAC of
    RFC 2104, and the hash is the 256-bit integer of the derived bytes. *)
Theorem scrypt_standard {H : HashOps} {HL : HashLaws H} (data salt header B Bx : list Z) :
  length B = 16%nat -> length Bx = 16%nat -> length header = 80%nat ->
  xor_salsa8 B Bx = salsa20_8 (xor_bytes B Bx) /\
  limb_bytes (scrypt_salted_hash data salt) = scrypt_spec data salt /\
  limb_bytes (scrypt_blockhash header) = scrypt_spec header header.
Proof.
  intros HB HBx Hh. split; [by apply xor_salsa8_spec|].
  assert (Hs : forall P S, limb_bytes (limbs_of_bytes WIDTH256
    (PBKDF2_SHA256 P (limb_bytes (scrypt_core (limbs_of_bytes 32 (PBKDF2_SHA256 P S 1 128)))) 1 32)) =
    scrypt_spec P S).
  { intros P S. rewrite !PBKDF2_spec by lia. rewrite scrypt_core_spec by apply length_limbs_of_bytes.
    unfold scrypt_spec. rewrite (pbkdf2_one P (limb_bytes _)). apply limb_bytes_limbs_of_bytes; apply SHA256_ok. }
  split; [apply Hs|]. unfold scrypt_blockhash. rewrite take_ge by lia. apply Hs.
Qed.

Lemma scrypt_standard_witness :
  limb_bytes (scrypt_blockhash (H := toy_hash) (replicate 80 1)) = scrypt_spec (H := toy_hash) (replicate 80 1) (replicate 80 1).
Proof.
  apply (scrypt_standard (H := toy_hash) [] [] (replicate 80 1) (replicate 16 0) (replicate 16 0)); reflexivity.
Defined.
