(* ===== verification/Block.v ===== *)
(** * Blocks: [CBlock] of [main.h], block signatures of [main.cpp]

    The header with its memoised hash, the transactions with their merkle tree,
    the wire format, and the signature a block carries.  A block is one value;
    the fields the source declares [mutable] are fields of it and the methods
    that fill them return it changed.  [nDoS] is left out. *)

From S2P Require Import Prelude Uint256 BigNum Serialize Hash Transaction Script Canonical.
From S2P Require Import Interp InterpFacts InterpSem InterpSim Key SigCheck Templates Verify KeyStore Sign Scrypt.

Record CBlock := mkBlock {
  blk_nVersion : Z;
  hashPrevBlock : list Z;
  hashMerkleRoot : list Z;
  blk_nTime : Z;
  nBits : Z;
  nNonce : Z;
  vtx : list CTransaction;
  vchBlockSig : list Z;
  vMerkleTree : list (list Z);
  hashCache : list Z;
  fHashCached : bool
}.

Definition CBlock_CURRENT_VERSION : Z := 4.

(** [SetNull] leaves the cached hash itself as it was *)
Definition CBlock_SetNull (b : CBlock) : CBlock :=
  mkBlock CBlock_CURRENT_VERSION (assign64 WIDTH256 0) (assign64 WIDTH256 0) 0 0 0 [] [] []
    (hashCache b) false.

Definition CBlock_IsNull (b : CBlock) : bool := nBits b =? 0.

Definition with_header (b : CBlock) (merkle : list Z) (time nonce : Z) : CBlock :=
  mkBlock (blk_nVersion b) (hashPrevBlock b) merkle time (nBits b) nonce (vtx b) (vchBlockSig b)
    (vMerkleTree b) (hashCache b) (fHashCached b).
Definition with_cache (b : CBlock) (h : list Z) (cached : bool) : CBlock :=
  mkBlock (blk_nVersion b) (hashPrevBlock b) (hashMerkleRoot b) (blk_nTime b) (nBits b) (nNonce b)
    (vtx b) (vchBlockSig b) (vMerkleTree b) h cached.
Definition with_vtx (b : CBlock) (txs : list CTransaction) : CBlock :=
  mkBlock (blk_nVersion b) (hashPrevBlock b) (hashMerkleRoot b) (blk_nTime b) (nBits b) (nNonce b)
    txs (vchBlockSig b) (vMerkleTree b) (hashCache b) (fHashCached b).
Definition with_tree (b : CBlock) (tree : list (list Z)) : CBlock :=
  mkBlock (blk_nVersion b) (hashPrevBlock b) (hashMerkleRoot b) (blk_nTime b) (nBits b) (nNonce b)
    (vtx b) (vchBlockSig b) tree (hashCache b) (fHashCached b).
Definition with_blocksig (b : CBlock) (sig : list Z) : CBlock :=
  mkBlock (blk_nVersion b) (hashPrevBlock b) (hashMerkleRoot b) (blk_nTime b) (nBits b) (nNonce b)
    (vtx b) sig (vMerkleTree b) (hashCache b) (fHashCached b).

(** The memory from [nVersion] on: 80 bytes *)
Definition header_bytes (b : CBlock) : list Z :=
  le_bytes 4 (blk_nVersion b) ++ limb_bytes (hashPrevBlock b) ++ limb_bytes (hashMerkleRoot b) ++
  le_bytes 4 (blk_nTime b) ++ le_bytes 4 (nBits b) ++ le_bytes 4 (nNonce b).

Section CBlock.
Context {H : HashOps}.

(** ** The hash and what is read off a block *)

Definition CBlock_GetHash (b : CBlock) : list Z * CBlock :=
  let b := if fHashCached b then b else with_cache b (scrypt_blockhash (header_bytes b)) true in
  (hashCache b, b).

Definition GetBlockTime (b : CBlock) : Z := i64 (blk_nTime b).

(** [GetAdjustedTime()] as argument *)
Definition UpdateTime (now : Z) (b : CBlock) : CBlock :=
  with_cache (with_header b (hashMerkleRoot b) (u32 (Z.max (GetBlockTime b) now)) (nNonce b))
    (hashCache b) false.

Definition GetStakeEntropyBit (fTestNet : bool) (nHeight : Z) (b : CBlock) : Z * CBlock :=
  if (9689 <=? nHeight) || fTestNet then
    let '(h, b) := CBlock_GetHash b in (u32 (default 0 (Get64 h 0) .& 1), b)
  else
    let hashSig := Hash160 (vchBlockSig b) in
    let hashSig := shr_assign WIDTH160 hashSig 159 in
    (u32 (default 0 (Get64 hashSig 0)), b).

Definition IsProofOfStake (b : CBlock) : bool :=
  match vtx b with
  | _ :: tx :: _ => IsCoinStake tx
  | _ => false
  end.
Definition IsProofOfWork (b : CBlock) : bool := negb (IsProofOfStake b).

Definition GetProofOfStake (b : CBlock) : COutPoint * Z :=
  match vtx b with
  | _ :: tx :: _ =>
      if IsCoinStake tx then (prevout (default CTxIn_null (head (vin tx))), nTime tx)
      else (COutPoint_null, 0)
  | _ => (COutPoint_null, 0)
  end.

Definition GetMaxTransactionTime (b : CBlock) : Z :=
  foldl (fun t tx => Z.max t (i64 (nTime tx))) 0 (vtx b).

(** ** The merkle tree *)

Definition merkle_hash (a b : list Z) : list Z := Hash2 (limb_bytes a) (limb_bytes b).
Definition tree_at (tree : list (list Z)) (k : Z) : list Z := default [] (tree !! Z.to_nat k).

(** [for (int i = 0; i < nSize; i += 2)] *)
Fixpoint level_loop (fuel : nat) (j nSize i : Z) (tree : list (list Z)) : list (list Z) :=
  match fuel with
  | O => tree
  | S fuel =>
      if i <? nSize then
        let i2 := Z.min (i + 1) (nSize - 1) in
        level_loop fuel j nSize (i + 2)
          (tree ++ [merkle_hash (tree_at tree (j + i)) (tree_at tree (j + i2))])
      else tree
  end.

(** [for (int nSize = vtx.size(); nSize > 1; nSize = (nSize + 1) / 2)] *)
Fixpoint tree_loop (fuel : nat) (j nSize : Z) (tree : list (list Z)) : list (list Z) :=
  match fuel with
  | O => tree
  | S fuel =>
      if 1 <? nSize then
        tree_loop fuel (j + nSize) ((nSize + 1) / 2) (level_loop (Z.to_nat nSize) j nSize 0 tree)
      else tree
  end.

Definition BuildMerkleTree (b : CBlock) : list Z * CBlock :=
  let tree := CTransaction_GetHash <$> vtx b in
  let tree := tree_loop (length (vtx b)) 0 (Z.of_nat (length (vtx b))) tree in
  (default (assign64 WIDTH256 0) (last tree), with_tree b tree).

Fixpoint branch_loop (fuel : nat) (j nSize nIndex : Z) (tree vMerkleBranch : list (list Z)) : list (list Z) :=
  match fuel with
  | O => vMerkleBranch
  | S fuel =>
      if 1 <? nSize then
        let i := Z.min (Z.lxor nIndex 1) (nSize - 1) in
        branch_loop fuel (j + nSize) ((nSize + 1) / 2) (nIndex .>> 1) tree
          (vMerkleBranch ++ [tree_at tree (j + i)])
      else vMerkleBranch
  end.

Definition GetMerkleBranch (nIndex : Z) (b : CBlock) : list (list Z) * CBlock :=
  let b := match vMerkleTree b with [] => (BuildMerkleTree b).2 | _ => b end in
  (branch_loop (length (vtx b)) 0 (Z.of_nat (length (vtx b))) nIndex (vMerkleTree b) [], b).

Definition CheckMerkleBranch (hash : list Z) (vMerkleBranch : list (list Z)) (nIndex : Z) : list Z :=
  if nIndex =? -1 then assign64 WIDTH256 0
  else
    (foldl (fun '(hash, nIndex) otherside =>
        (if negb (nIndex .& 1 =? 0) then merkle_hash otherside hash else merkle_hash hash otherside,
         nIndex .>> 1))
      (hash, nIndex) vMerkleBranch).1.
End CBlock.

(** ** Wire format *)

(** The header, without transactions and signature: [SER_BLOCKHEADERONLY] *)
Definition header_codec : Codec (Z * list Z * list Z * Z * Z * Z) := {|
  GetSerializeSize '(v, p, m, t, b, n) := 80;
  Serialize '(v, p, m, t, b, n) :=
    Serialize (sint_codec 4) v ++ Serialize (base_uint_codec WIDTH256) p ++ Serialize (base_uint_codec WIDTH256) m ++
    Serialize (uint_codec 4) t ++ Serialize (uint_codec 4) b ++ Serialize (uint_codec 4) n;
  Unserialize s :=
    '(v, s) ← Unserialize (sint_codec 4) s;
    '(p, s) ← Unserialize (base_uint_codec WIDTH256) s;
    '(m, s) ← Unserialize (base_uint_codec WIDTH256) s;
    '(t, s) ← Unserialize (uint_codec 4) s;
    '(b, s) ← Unserialize (uint_codec 4) s;
    '(n, s) ← Unserialize (uint_codec 4) s;
    Some ((v, p, m, t, b, n), s)
|}.

Definition sizeof_CTransaction : Z := 64.

Definition block_header (b : CBlock) : Z * list Z * list Z * Z * Z * Z :=
  (blk_nVersion b, hashPrevBlock b, hashMerkleRoot b, blk_nTime b, nBits b, nNonce b).

Definition block_Serialize (fHeaderOnly : bool) (b : CBlock) : list Z :=
  Serialize header_codec (block_header b) ++
  if fHeaderOnly then []
  else Serialize (vector_codec sizeof_CTransaction tx_codec) (vtx b) ++ Serialize vch_codec (vchBlockSig b).

(** Reading into the block [b] *)
Definition block_Unserialize (fHeaderOnly : bool) (b : CBlock) (s : list Z) : option (CBlock * list Z) :=
  '((v, p, m, t, bits, n), s) ← Unserialize header_codec s;
  if fHeaderOnly then Some (mkBlock v p m t bits n [] [] (vMerkleTree b) (hashCache b) false, s)
  else
    '(txs, s) ← Unserialize (vector_codec sizeof_CTransaction tx_codec) s;
    '(sig, s) ← Unserialize vch_codec s;
    Some (mkBlock v p m t bits n txs sig (vMerkleTree b) (hashCache b) false, s).

(** ** The signature of a block *)

Section signature.
Context {H : HashOps} {E : ECOps} {K : CKeyStore}.

(** The loop of [SignBlock] over the outputs of the first transaction; [None]: a
    call throws *)
Fixpoint SignBlock_loop (outs : list CTxOut) (b : CBlock) : option (bool * CBlock) :=
  match outs with
  | [] => Some (false, b)
  | txout :: outs =>
      let '(ok, whichType, vSolutions) := Solver (scriptPubKey txout) in
      if negb ok then SignBlock_loop outs b
      else if bool_decide (whichType = TX_PUBKEY) then
        let vchPubKey := default [] (head vSolutions) in
        r ← GetKey (Hash160 vchPubKey);
        match r with
        | None => SignBlock_loop outs b
        | Some key =>
            pub ← GetPubKey key;
            if negb (bool_decide (pub = vchPubKey)) then SignBlock_loop outs b
            else
              let '(hash, b) := CBlock_GetHash b in
              match CKey_Sign key hash with
              | None => SignBlock_loop outs (with_blocksig b [])
              | Some sig => Some (true, with_blocksig b sig)
              end
        end
      else SignBlock_loop outs b
  end.

Definition first_outputs (b : CBlock) : list CTxOut :=
  match vtx b with tx :: _ => vout tx | [] => [] end.

Definition SignBlock (b : CBlock) : option (bool * CBlock) := SignBlock_loop (first_outputs b) b.

(** One key against the signature: [None] where the caller goes on *)
Definition block_sig_ok (hash vchBlockSig vchPubKey : list Z) : bool :=
  match SetPubKey CKey_Reset vchPubKey with
  | (false, _) => false
  | (true, key) =>
      match vchBlockSig with
      | [] => false
      | _ => CKey_Verify key hash vchBlockSig
      end
  end.

Fixpoint CheckBlockSignature_loop (outs : list CTxOut) (hash vchBlockSig : list Z) : bool :=
  match outs with
  | [] => false
  | txout :: outs =>
      let '(ok, whichType, vSolutions) := Solver (scriptPubKey txout) in
      if negb ok then false
      else if bool_decide (whichType = TX_PUBKEY) then
        if block_sig_ok hash vchBlockSig (default [] (head vSolutions)) then true
        else CheckBlockSignature_loop outs hash vchBlockSig
      else CheckBlockSignature_loop outs hash vchBlockSig
  end.

(** [hashGenesis] is the hash of the genesis block of the net in use; a block that
    claims proof of stake has a second transaction with a second output. *)
Definition CheckBlockSignature (hashGenesis : list Z) (fProofOfStake : bool) (b : CBlock) : bool * CBlock :=
  let '(hash, b) := CBlock_GetHash b in
  if op_eq hash hashGenesis then (match vchBlockSig b with [] => true | _ => false end, b)
  else if fProofOfStake then
    match vtx b with
    | _ :: tx :: _ =>
        match vout tx with
        | _ :: txout :: _ =>
            let '(ok, whichType, vSolutions) := Solver (scriptPubKey txout) in
            (ok && bool_decide (whichType = TX_PUBKEY) &&
             block_sig_ok hash (vchBlockSig b) (default [] (head vSolutions)), b)
        | _ => (false, b)
        end
    | _ => (false, b)
    end
  else (CheckBlockSignature_loop (first_outputs b) hash (vchBlockSig b), b).

(** ** Work submitted over RPC *)

(** [getwork] with data: the solution is written into the stored block. *)
Definition getwork_update (time nonce : Z) (coinbaseScript : list Z) (b : CBlock) : CBlock :=
  let txs := match vtx b with
             | tx :: txs => mkTx (nVersion tx) (nTime tx) (alter (with_sig coinbaseScript) 0%nat (vin tx)) (vout tx) (nLockTime tx) :: txs
             | [] => []
             end in
  let b := with_header (with_vtx b txs) (hashMerkleRoot b) time nonce in
  let '(root, b) := BuildMerkleTree b in
  with_header b root time nonce.

(** The test of [CheckWork]: the hash against the target *)
Definition CheckWork_target {B : BNOps} (b : CBlock) : bool * CBlock :=
  let '(hashBlock, b) := CBlock_GetHash b in
  let hashTarget := getuint256 (SetCompact (nBits b)) in
  if negb (IsProofOfWork b) then (false, b) else (negb (op_gt hashBlock hashTarget), b).
End signature.

(** ** Lemmas: the merkle tree *)

Section merkle.
Context {H : HashOps}.
Implicit Types l pre acc : list (list Z).

(** The next level: pairs are hashed together, a last odd element with itself *)
Fixpoint next_level (l : list (list Z)) : list (list Z) :=
  match l with
  | a :: b :: l => merkle_hash a b :: next_level l
  | [a] => [merkle_hash a a]
  | [] => []
  end.

(** All levels from the leaves to the root, one after the other *)
Fixpoint levels (fuel : nat) (l : list (list Z)) : list (list Z) :=
  match fuel with
  | O => l
  | S fuel => if (1 <? length l)%nat then l ++ levels fuel (next_level l) else l
  end.

(** The root of a level, and the siblings on the way up from an index *)
Fixpoint merkle_root (fuel : nat) (l : list (list Z)) : list (list Z) :=
  match fuel with
  | O => l
  | S fuel => if (1 <? length l)%nat then merkle_root fuel (next_level l) else l
  end.
Fixpoint siblings (fuel : nat) (l : list (list Z)) (nIndex : Z) : list (list Z) :=
  match fuel with
  | O => []
  | S fuel =>
      if (1 <? length l)%nat then
        tree_at l (Z.min (Z.lxor nIndex 1) (Z.of_nat (length l) - 1)) :: siblings fuel (next_level l) (nIndex .>> 1)
      else []
  end.

(** Induction two elements at a time *)
Lemma pair_ind (P : list (list Z) -> Prop) :
  P [] -> (forall a, P [a]) -> (forall a b l, P l -> P (a :: b :: l)) -> forall l, P l.
Proof.
  intros H0 H1 H2 l. enough (P l /\ forall a, P (a :: l)) by tauto.
  induction l as [|x l [IH1 IH2]]; split; auto.
Qed.

Lemma length_next_level l : Z.of_nat (length (next_level l)) = (Z.of_nat (length l) + 1) / 2.
Proof.
  induction l as [|a|a b l IH] using pair_ind; [done|done|]. cbn [next_level length].
  replace (Z.of_nat (S (S (length l))) + 1) with (Z.of_nat (length l) + 1 + 1 * 2) by lia.
  rewrite Z.div_add by lia. lia.
Qed.

Lemma next_level_shorter l : (1 < length l)%nat -> (length (next_level l) < length l)%nat.
Proof.
  intros Hl. pose proof (length_next_level l). pose proof (Z.div_lt_upper_bound (Z.of_nat (length l) + 1) 2 (Z.of_nat (length l))). lia.
Qed.

Lemma tree_at_app_r pre l k : 0 <= k -> tree_at (pre ++ l) (Z.of_nat (length pre) + k) = tree_at l k.
Proof.
  intros Hk. unfold tree_at. rewrite lookup_app_r by lia. do 2 f_equal. lia.
Qed.

Lemma tree_at_app_l l acc k : 0 <= k < Z.of_nat (length l) -> tree_at (l ++ acc) k = tree_at l k.
Proof. intros Hk. unfold tree_at. by rewrite lookup_app_l by lia. Qed.

(** An element of the part of a level not yet hashed *)
Lemma tree_at_level pre l1 l2 acc k :
  0 <= k < Z.of_nat (length l2) ->
  tree_at (pre ++ (l1 ++ l2) ++ acc) (Z.of_nat (length pre) + (Z.of_nat (length l1) + k)) = tree_at l2 k.
Proof.
  intros Hk. rewrite tree_at_app_r by lia. rewrite tree_at_app_l by (rewrite length_app; lia).
  apply tree_at_app_r. lia.
Qed.

(** The inner loop appends the next level. *)
Lemma level_loop_spec l2 fuel pre l1 acc :
  (length l2 <= fuel)%nat ->
  level_loop fuel (Z.of_nat (length pre)) (Z.of_nat (length (l1 ++ l2))) (Z.of_nat (length l1)) (pre ++ (l1 ++ l2) ++ acc) =
  pre ++ (l1 ++ l2) ++ acc ++ next_level l2.
Proof.
  revert fuel l1 acc. induction l2 as [|a|a b l2 IH] using pair_ind; intros fuel l1 acc Hf.
  - rewrite !app_nil_r. destruct fuel; [done|]. cbn [level_loop]. by rewrite Z.ltb_irrefl.
  - destruct fuel; [cbn in Hf; lia|]. cbn [level_loop]. rewrite length_app. cbn [length].
    destruct (Z.ltb_spec (Z.of_nat (length l1)) (Z.of_nat (length l1 + 1))); [|lia].
    replace (Z.min _ _) with (Z.of_nat (length l1) + 0) by lia.
    rewrite <- (Z.add_0_r (Z.of_nat (length l1))) at 2. rewrite !tree_at_level by (cbn; lia).
    change (tree_at [a] 0) with a. destruct fuel; cbn [level_loop next_level].
    + by rewrite <- !app_assoc.
    + destruct (Z.ltb_spec (Z.of_nat (length l1) + 2) (Z.of_nat (length l1 + 1))); [lia|]. by rewrite <- !app_assoc.
  - cbn [length] in Hf. destruct fuel; [lia|]. cbn [level_loop]. rewrite length_app. cbn [length].
    destruct (Z.ltb_spec (Z.of_nat (length l1)) (Z.of_nat (length l1 + S (S (length l2))))); [|lia].
    replace (Z.min _ _) with (Z.of_nat (length l1) + 1) by lia.
    rewrite <- (Z.add_0_r (Z.of_nat (length l1))) at 2. rewrite !tree_at_level by (cbn; lia).
    change (tree_at (a :: b :: l2) 0) with a. change (tree_at (a :: b :: l2) 1) with b.
    specialize (IH fuel (l1 ++ [a; b]) (acc ++ [merkle_hash a b]) ltac:(lia)).
    rewrite <- !app_assoc in IH. cbn [app] in IH. rewrite !length_app in IH. cbn [length] in IH.
    replace (Z.of_nat (length l1) + 2) with (Z.of_nat (length l1 + 2)) by lia.
    replace (length l1 + S (S (length l2)))%nat with (length l1 + 2 + length l2)%nat in * by lia.
    rewrite <- !app_assoc. cbn [app next_level]. 
    replace (length l1 + (S (S (length l2))))%nat with (length l1 + 2 + length l2)%nat in IH by lia.
    exact IH.
Qed.

Lemma length_eqb l n : Z.of_nat (length l) = n -> (1 <? n) = (1 <? length l)%nat.
Proof. intros <-. destruct (Z.ltb_spec 1 (Z.of_nat (length l))), (Nat.ltb_spec 1 (length l)); (done || lia). Qed.

Lemma tree_loop_spec fuel pre l :
  tree_loop fuel (Z.of_nat (length pre)) (Z.of_nat (length l)) (pre ++ l) = pre ++ levels fuel l.
Proof.
  revert pre l. induction fuel as [|fuel IH]; intros pre l; [done|]. cbn [tree_loop levels].
  rewrite (length_eqb l _ eq_refl). destruct (1 <? length l)%nat; [|done].
  pose proof (level_loop_spec l (Z.to_nat (Z.of_nat (length l))) pre [] []) as Hl. cbn [app length] in Hl.
  rewrite !app_nil_r in Hl. change (Z.of_nat 0) with 0 in Hl. rewrite Hl by lia. rewrite <- length_next_level.
  rewrite <- Nat2Z.inj_add, <- length_app. rewrite app_assoc, IH. by rewrite app_assoc.
Qed.

Lemma merkle_root_last fuel l : (length l <= fuel)%nat -> last (levels fuel l) = last (merkle_root fuel l).
Proof.
  revert l. induction fuel as [|fuel IH]; intros l Hf; [done|]. cbn [levels merkle_root].
  destruct (Nat.ltb_spec 1 (length l)) as [Hl|]; [|done]. pose proof (next_level_shorter l Hl).
  rewrite <- IH by lia. rewrite last_app.
  assert (levels fuel (next_level l) <> []) as Hne.
  { assert (next_level l <> []) by (destruct l as [|a [|b l]]; cbn in Hl |- *; [lia|lia|done]).
    destruct fuel; [done|]. cbn [levels]. case_goal; [|done]. by destruct (next_level l). }
  destruct (last (levels fuel (next_level l))) as [x|] eqn:El; [done|]. by apply last_None in El.
Qed.

Lemma branch_loop_spec fuel pre l rest nIndex acc :
  0 <= nIndex < Z.of_nat (length l) ->
  branch_loop fuel (Z.of_nat (length pre)) (Z.of_nat (length l)) nIndex (pre ++ levels fuel l ++ rest) acc =
  acc ++ siblings fuel l nIndex.
Proof.
  revert pre l nIndex acc. induction fuel as [|fuel IH]; intros pre l nIndex acc Hi; cbn [branch_loop siblings levels].
  { by rewrite app_nil_r. }
  rewrite (length_eqb l _ eq_refl). destruct (Nat.ltb_spec 1 (length l)) as [Hl|]; [|by rewrite app_nil_r].
  assert (0 <= Z.lxor nIndex 1) by (apply Z.lxor_nonneg; lia).
  rewrite tree_at_app_r by lia. rewrite <- app_assoc. rewrite tree_at_app_l by lia.
  rewrite <- length_next_level. rewrite <- Nat2Z.inj_add, <- length_app, app_assoc, IH.
  - by rewrite <- app_assoc.
  - rewrite length_next_level, Z.shiftr_div_pow2 by lia. change (2 ^ 1) with 2.
    split; [apply Z.div_pos; lia|]. apply Z.div_lt_upper_bound; [lia|].
    pose proof (Z.div_mod (Z.of_nat (length l) + 1) 2). pose proof (Z.mod_pos_bound (Z.of_nat (length l) + 1) 2). lia.
Qed.

(** An element of the next level is the hash of its two children. *)
Lemma next_level_at l q :
  0 <= q -> 2 * q < Z.of_nat (length l) ->
  tree_at (next_level l) q = merkle_hash (tree_at l (2 * q)) (tree_at l (Z.min (2 * q + 1) (Z.of_nat (length l) - 1))).
Proof.
  revert q. induction l as [|a|a b l IH] using pair_ind; intros q Hq Hl; cbn [length] in Hl; [lia| |].
  - assert (q = 0) as -> by lia. done.
  - destruct (decide (q = 0)) as [->|Hne].
    + replace (Z.min _ _) with 1 by (cbn [length]; lia). done.
    + assert (Hs : forall (x y : list Z) (t : list (list Z)) k, 2 <= k -> tree_at (x :: y :: t) k = tree_at t (k - 2)).
      { intros x y t k Hk. unfold tree_at. replace (Z.to_nat k) with (S (S (Z.to_nat (k - 2)))) by lia. done. }
      assert (tree_at (next_level (a :: b :: l)) q = tree_at (next_level l) (q - 1)) as ->.
      { unfold tree_at. replace (Z.to_nat q) with (S (Z.to_nat (q - 1))) by lia. done. }
      rewrite IH by lia. rewrite !Hs by (cbn [length]; lia). cbn [length]. do 2 f_equal; lia.
Qed.

(** Flipping the last bit of an index gives its sibling. *)
Lemma lxor_1_even q : 0 <= q -> Z.lxor (2 * q) 1 = 2 * q + 1.
Proof. intros Hq. by destruct q. Qed.
Lemma lxor_1_odd q : 0 <= q -> Z.lxor (2 * q + 1) 1 = 2 * q.
Proof. intros Hq. by destruct q. Qed.

(** Following the siblings from an element leads to the root. *)
Lemma fold_siblings fuel l nIndex :
  (length l <= fuel)%nat -> 0 <= nIndex < Z.of_nat (length l) ->
  merkle_root fuel l =
  [(foldl (fun '(hash, nIndex) otherside =>
        (if negb (nIndex .& 1 =? 0) then merkle_hash otherside hash else merkle_hash hash otherside,
         nIndex .>> 1))
      (tree_at l nIndex, nIndex) (siblings fuel l nIndex)).1].
Proof.
  revert l nIndex. induction fuel as [|fuel IH]; intros l nIndex Hf Hi; [lia|]. cbn [merkle_root siblings].
  destruct (Nat.ltb_spec 1 (length l)) as [Hl|Hl].
  - pose proof (next_level_shorter l Hl). pose proof (length_next_level l) as Hn.
    pose proof (Z.div_mod (Z.of_nat (length l) + 1) 2). pose proof (Z.mod_pos_bound (Z.of_nat (length l) + 1) 2).
    pose proof (Z.div_mod nIndex 2 ltac:(lia)) as Hd. pose proof (Z.mod_pos_bound nIndex 2 ltac:(lia)) as Hm.
    assert (Hq : nIndex .>> 1 = nIndex / 2) by (rewrite Z.shiftr_div_pow2 by lia; done).
    rewrite (IH (next_level l) (nIndex / 2)) by lia. cbn [foldl]. rewrite Hq. do 4 f_equal.
    change 1 with (Z.ones 1) at 1. rewrite Z.land_ones by lia. change (2 ^ 1) with 2.
    rewrite next_level_at by lia. set (q := nIndex / 2) in *.
    destruct (decide (nIndex mod 2 = 0)) as [Ez|Ez].
    + rewrite Ez. cbn [negb Z.eqb]. assert (nIndex = 2 * q) as Hx by lia. clearbody q. subst nIndex.
      rewrite lxor_1_even by lia. done.
    + assert (nIndex mod 2 = 1) as -> by lia. cbn [negb Z.eqb]. assert (nIndex = 2 * q + 1) as Hx by lia. clearbody q. subst nIndex.
      rewrite lxor_1_odd by lia. rewrite (Z.min_l (2 * q)) by lia. by rewrite Z.min_l by lia.
  - destruct l as [|a [|b l]]; cbn [length] in *; [lia| |lia]. assert (nIndex = 0) as -> by lia. done.
Qed.
End merkle.

(** ** Lemmas: the memoised hash *)

#[local] Opaque scrypt_blockhash.

Section memo.
Context {H : HashOps}.

(** A cached hash is the hash of the header. *)
Definition cache_ok (b : CBlock) : Prop :=
  fHashCached b = true -> hashCache b = scrypt_blockhash (header_bytes b).

Lemma header_bytes_ext (b b' : CBlock) : block_header b = block_header b' -> header_bytes b = header_bytes b'.
Proof.
  unfold block_header. intros Hh. unfold header_bytes.
  congruence.
Qed.

Lemma GetHash_spec b :
  cache_ok b ->
  (CBlock_GetHash b).1 = scrypt_blockhash (header_bytes b) /\ cache_ok (CBlock_GetHash b).2 /\
  block_header (CBlock_GetHash b).2 = block_header b /\ vtx (CBlock_GetHash b).2 = vtx b.
Proof.
  intros Hc. unfold CBlock_GetHash. destruct (fHashCached b) eqn:Ef; cbn [fst snd].
  - by rewrite (Hc Ef).
  - split; [done|]. split; [by intros _|done].
Qed.

Lemma GetHash_again b : CBlock_GetHash (CBlock_GetHash b).2 = CBlock_GetHash b.
Proof. unfold CBlock_GetHash. destruct (fHashCached b) eqn:Ef; cbn [snd fst]; [by rewrite Ef|done]. Qed.

Lemma GetHash_blocksig b sig :
  CBlock_GetHash (with_blocksig b sig) = ((CBlock_GetHash b).1, with_blocksig (CBlock_GetHash b).2 sig).
Proof. unfold CBlock_GetHash. cbn [fHashCached with_blocksig]. by destruct (fHashCached b). Qed.
End memo.

(** ** Lemmas: signatures *)

Section signature_facts.
Context {H : HashOps} {HL : HashLaws H} {E : ECOps} {EL : ECLaws E} {S : ECSecretOps E} {SL : ECSecretLaws E S}
  {P : SecpOps} {VL : SigLaws E P} {K : CKeyStore}.

(** Signing keeps everything but the signature and the cache, and the signature it
    makes verifies for one of the outputs. *)
Lemma SignBlock_loop_spec outs b b' :
  SignBlock_loop outs b = Some (true, b') ->
  Forall (fun o => (Solver (scriptPubKey o)).1.1 = true) outs ->
  (CBlock_GetHash b').1 = (CBlock_GetHash b).1 /\ vtx b' = vtx b /\
  CheckBlockSignature_loop outs (CBlock_GetHash b).1 (vchBlockSig b') = true.
Proof.
  revert b. induction outs as [|o outs IH]; intros b Hs Hok; [done|].
  apply Forall_cons in Hok as [Ho Hok]. cbn [SignBlock_loop CheckBlockSignature_loop] in *.
  destruct (Solver (scriptPubKey o)) as [[ok whichType] vSolutions]. cbn [fst] in Ho. subst ok. cbn [negb] in *.
  destruct (bool_decide (whichType = TX_PUBKEY)); [|by apply IH].
  set (vch := default [] (head vSolutions)) in *.
  assert (Hgo : forall b1, SignBlock_loop outs b1 = Some (true, b') ->
    (CBlock_GetHash b1).1 = (CBlock_GetHash b).1 -> vtx b1 = vtx b ->
    (CBlock_GetHash b').1 = (CBlock_GetHash b).1 /\ vtx b' = vtx b /\
    (if block_sig_ok (CBlock_GetHash b).1 (vchBlockSig b') vch then true
     else CheckBlockSignature_loop outs (CBlock_GetHash b).1 (vchBlockSig b')) = true).
  { intros b1 Hb1 Eh Ev. destruct (IH b1 Hb1 Hok) as (E1 & E2 & E3). rewrite Eh in *. rewrite E3.
    split_and!; [congruence..|by case_goal]. }
  destruct (GetKey (Hash160 vch)) as [[key|]|]; [|by apply (Hgo b)|done]. cbn [mbind option_bind] in Hs.
  destruct (GetPubKey key) as [pub|] eqn:Ep; [|done]. cbn [mbind option_bind] in Hs.
  destruct (bool_decide (pub = vch)) eqn:Ed; cbn [negb] in Hs; [|by apply (Hgo b)]. bool_prop. subst pub.
  pose proof (GetHash_again b) as Ha. assert (vtx (CBlock_GetHash b).2 = vtx b) as Hv
    by (unfold CBlock_GetHash; by case_goal).
  destruct (CBlock_GetHash b) as [hash b1] eqn:Eg. cbn [fst snd] in *.
  destruct (CKey_Sign key hash) as [sig|] eqn:Es.
  - injection Hs as <-. rewrite GetHash_blocksig, Ha. cbn [fst vtx with_blocksig vchBlockSig]. split_and!; [done..|].
    destruct (CKey_Sign_der _ _ _ Es) as (r & s & _ & _ & Hsig & Hver).
    destruct (SetPubKey_verify key vch Ep) as (k2 & E1 & _ & E3). unfold block_sig_ok. rewrite E1.
    destruct sig as [|x sig]; [done|]. by rewrite E3, Hver.
  - apply (Hgo (with_blocksig b1 [])); [done| |done]. by rewrite GetHash_blocksig, Ha.
Qed.
End signature_facts.

(** ** Claims *)

(** merkle branches prove membership: for a block whose tree has been built (or
    is empty), the branch of the [nIndex]-th transaction leads from its hash to the
    root [BuildMerkleTree] returns. *)
Theorem merkle_branch_proof {H : HashOps} (b : CBlock) (nIndex : Z) (tx : CTransaction) :
  vMerkleTree b = [] \/ vMerkleTree b = vMerkleTree (BuildMerkleTree b).2 ->
  0 <= nIndex -> vtx b !! Z.to_nat nIndex = Some tx ->
  CheckMerkleBranch (CTransaction_GetHash tx) (GetMerkleBranch nIndex b).1 nIndex = (BuildMerkleTree b).1.
Proof.
  intros Ht Hn Htx. set (l := CTransaction_GetHash <$> vtx b).
  assert (Hlen : length l = length (vtx b)) by apply length_fmap.
  assert (Hi : 0 <= nIndex < Z.of_nat (length l)) by (apply lookup_lt_Some in Htx; lia).
  assert (Hat : tree_at l nIndex = CTransaction_GetHash tx)
    by (unfold tree_at, l; rewrite list_lookup_fmap, Htx; done).
  assert (Hb : (GetMerkleBranch nIndex b).1 = siblings (length l) l nIndex).
  { unfold GetMerkleBranch. cbn [fst].
    assert (Hm : vMerkleTree (match vMerkleTree b with [] => (BuildMerkleTree b).2 | _ => b end) = levels (length l) l).
    { pose proof (tree_loop_spec (length l) [] l) as Hs. cbn [length app] in Hs. change (Z.of_nat 0) with 0 in Hs.
      assert (vMerkleTree (BuildMerkleTree b).2 = levels (length l) l) as E0.
      { unfold BuildMerkleTree. cbn [snd vMerkleTree with_tree]. by rewrite <- Hlen. }
      destruct Ht as [Ht|Ht]; [by rewrite Ht|]. destruct (vMerkleTree b) eqn:Ev; [done|]. by rewrite Ev, Ht. }
    assert (Hv : vtx (match vMerkleTree b with [] => (BuildMerkleTree b).2 | _ => b end) = vtx b) by (by case_goal).
    rewrite Hm, Hv, <- Hlen. pose proof (branch_loop_spec (length l) [] l [] nIndex [] Hi) as Hs.
    cbn [length app] in Hs. rewrite app_nil_r in Hs. exact Hs. }
  unfold CheckMerkleBranch. destruct (Z.eqb_spec nIndex (-1)); [lia|]. rewrite Hb, <- Hat.
  unfold BuildMerkleTree. cbn [fst]. fold l. rewrite <- Hlen.
  pose proof (tree_loop_spec (length l) [] l) as Hs. cbn [length app] in Hs. change (Z.of_nat 0) with 0 in Hs.
  rewrite Hs, merkle_root_last by done. rewrite (fold_siblings _ _ _ (le_n _) Hi). done.
Qed.

(** the memoised block hash is invisible: [GetHash] returns the scrypt hash of the
    header as it is, and the header keeps its meaning, through [SetNull],
    deserialization, [UpdateTime] and signing, which all keep a stale hash from
    being seen. *)
Theorem block_hash_memo {H : HashOps} {E : ECOps} {K : CKeyStore} (b b' : CBlock) (fHeaderOnly : bool) (now : Z)
    (s rest sig : list Z) :
  cache_ok b ->
  (CBlock_GetHash b).1 = scrypt_blockhash (header_bytes b) /\ cache_ok (CBlock_GetHash b).2 /\
  header_bytes (CBlock_GetHash b).2 = header_bytes b /\
  cache_ok (CBlock_SetNull b) /\ cache_ok (UpdateTime now b) /\ cache_ok (with_blocksig b sig) /\
  (block_Unserialize fHeaderOnly b s = Some (b', rest) -> cache_ok b').
Proof.
  intros Hc. destruct (GetHash_spec b Hc) as (E1 & E2 & E3 & _). split_and!; try done.
  - by apply header_bytes_ext.
  - unfold block_Unserialize, mbind, option_bind. repeat case_goal; try done; intros [= <- _]; done.
Qed.

(** work submitted through [getwork] escapes the rule above: it rewrites the time,
    the nonce and the merkle root of the stored block without dropping the cached
    hash, so that once a hash has been computed for it, every later solution of the
    block is judged by the first hash, whatever its own. *)
Theorem getwork_stale_hash {B : BNOps} {H : HashOps} (b : CBlock) (time nonce : Z) (coinbaseScript : list Z) :
  let b1 := (CheckWork_target b).2 in
  let b2 := getwork_update time nonce coinbaseScript b1 in
  (CBlock_GetHash b2).1 = (CBlock_GetHash b).1 /\
  (IsProofOfWork b2 = IsProofOfWork b -> (CheckWork_target b2).1 = (CheckWork_target b).1) /\
  blk_nTime b2 = time /\ nNonce b2 = nonce.
Proof.
  intros b1 b2.
  assert (Hb1 : b1 = (CBlock_GetHash b).2).
  { unfold b1, CheckWork_target. destruct (CBlock_GetHash b). by case_goal. }
  assert (Hf : fHashCached b1 = true) by (rewrite Hb1; unfold CBlock_GetHash; by destruct (fHashCached b) eqn:?).
  assert (Hn : nBits b2 = nBits b).
  { unfold b2, getwork_update, BuildMerkleTree. cbn. rewrite Hb1. unfold CBlock_GetHash. by case_goal. }
  assert (Hh : CBlock_GetHash b2 = ((CBlock_GetHash b).1, b2)).
  { unfold CBlock_GetHash at 1. assert (fHashCached b2 = true) as -> by done.
    assert (hashCache b2 = hashCache b1) as -> by done. rewrite Hb1. done. }
  split_and!; [by rewrite Hh| |done|done]. intros Hp. unfold CheckWork_target. rewrite Hh, Hp, Hn.
  assert (IsProofOfWork (CBlock_GetHash b).2 = IsProofOfWork b /\ nBits (CBlock_GetHash b).2 = nBits b) as [E1 E2]
    by (unfold CBlock_GetHash; by case_goal).
  destruct (CBlock_GetHash b) as [h b0]. cbn [fst snd] in *. rewrite E1, E2. by case_goal.
Qed.

(** a proof-of-work block signed by [SignBlock] keeps its hash and passes
    [CheckBlockSignature], provided every output of its first transaction has a
    standard form.  The proviso is needed: signing skips an output it cannot solve,
    checking rejects the block there, so that a block whose first output has no
    standard form is rejected whatever its signature. *)
Theorem signed_block_checks {H : HashOps} {E : ECOps} {EL : ECLaws E} {S : ECSecretOps E}
    {SL : ECSecretLaws E S} {P : SecpOps} {VL : SigLaws E P} {K : CKeyStore} (hashGenesis : list Z) (b b' : CBlock) :
  op_eq (CBlock_GetHash b).1 hashGenesis = false ->
  (SignBlock b = Some (true, b') ->
   Forall (fun o => (Solver (scriptPubKey o)).1.1 = true) (first_outputs b) ->
   (CBlock_GetHash b').1 = (CBlock_GetHash b).1 /\ (CheckBlockSignature hashGenesis false b').1 = true) /\
  (forall o outs, first_outputs b = o :: outs -> (Solver (scriptPubKey o)).1.1 = false ->
   (CheckBlockSignature hashGenesis false b).1 = false).
Proof.
  intros Hg. split.
  - intros Hs Hok. destruct (SignBlock_loop_spec _ _ _ Hs Hok) as (E1 & E2 & E3). split; [done|].
    unfold CheckBlockSignature. assert (vtx (CBlock_GetHash b').2 = vtx b' /\ vchBlockSig (CBlock_GetHash b').2 = vchBlockSig b') as [Hv Hc]
      by (unfold CBlock_GetHash; by case_goal).
    destruct (CBlock_GetHash b') as [hash b2]. cbn [fst snd] in *. rewrite E1, Hg. cbn [fst].
    unfold first_outputs in *. rewrite Hv, Hc, E2. done.
  - intros o outs Ho Hf. unfold CheckBlockSignature.
    assert (vtx (CBlock_GetHash b).2 = vtx b) as Hv by (unfold CBlock_GetHash; by case_goal).
    destruct (CBlock_GetHash b) as [hash b2]. cbn [fst snd] in *. rewrite Hg. cbn [fst].
    unfold first_outputs in *. rewrite Hv, Ho. cbn [CheckBlockSignature_loop].
    destruct (Solver (scriptPubKey o)) as [[ok w] v]. cbn [fst] in Hf. by subst ok.
Qed.

(** ** Witnesses: a block paying to the toy key *)

Definition toy_hash256 : list Z := [1; 2; 3; 4; 5; 6; 7; 8].
Definition toy_coinbase : CTransaction :=
  mkTx 1 1000 [mkTxIn COutPoint_null [3; 1; 2; 3] 0xffffffff] [mkTxOut 500 (33 :: toy_pub ++ [OP_CHECKSIG])] 0.
Definition toy_block : CBlock :=
  mkBlock 4 toy_hash256 toy_hash256 1000 0x1e0fffff 7 [toy_coinbase; sample_tx; sample_tx] [] [] toy_hash256 true.

Lemma merkle_branch_proof_witness :
  CheckMerkleBranch (H := toy_hash) (CTransaction_GetHash sample_tx) (GetMerkleBranch 2 toy_block).1 2 =
  (BuildMerkleTree toy_block).1.
Proof.
  apply (merkle_branch_proof (H := toy_hash) toy_block 2 sample_tx); [by left|lia|vm_compute; reflexivity].
Defined.

Lemma block_hash_memo_witness :
  let b := CBlock_SetNull toy_block in
  cache_ok (H := toy_hash) (UpdateTime 1234 b) /\ blk_nTime (UpdateTime 1234 b) = 1234.
Proof.
  intros b. split; [|reflexivity].
  destruct (block_hash_memo (H := toy_hash) (E := toy_ec) (K := toy_keys) b b false 1234 [] [] [])
    as (_ & _ & _ & _ & Hu & _); [by intros [=]|exact Hu].
Defined.

Lemma signed_block_checks_witness :
  exists b', SignBlock (H := toy_hash) (E := toy_ec) (K := toy_keys) toy_block = Some (true, b') /\
  (CheckBlockSignature (H := toy_hash) (E := toy_ec) (replicate 8 0) false b').1 = true.
Proof.
  assert (exists b', SignBlock (H := toy_hash) (E := toy_ec) (K := toy_keys) toy_block = Some (true, b')) as [b' Hb'].
  { eexists. vm_compute. reflexivity. }
  exists b'. split; [exact Hb'|].
  apply (signed_block_checks (H := toy_hash) (E := toy_ec) (P := no_secp) (K := toy_keys) (replicate 8 0) toy_block b');
    [vm_compute; reflexivity|exact Hb'|].
  apply Forall_cons_2; [vm_compute; reflexivity|apply Forall_nil_2].
Defined.
