(* ===== verification/TxRules.v ===== *)
(** * The rules a transaction obeys on its own: [main.cpp], constants of [main.h]

    Finality, standardness, the context-free check of a transaction with the
    denial-of-service score of every rejection, and the minimum fee.  The globals
    of the program ([nBestHeight], [GetAdjustedTime()]) are arguments. *)

From S2P Require Import Prelude Uint256 Serialize Hash Transaction Script Canonical.
From S2P Require Import Key Templates.

(** ** Constants *)

Definition MAX_BLOCK_SIZE : Z := 1000000.
Definition MAX_BLOCK_SIZE_GEN : Z := MAX_BLOCK_SIZE / 2.
Definition MAX_STANDARD_TX_SIZE : Z := MAX_BLOCK_SIZE_GEN / 5.
Definition MAX_BLOCK_SIGOPS : Z := MAX_BLOCK_SIZE / 50.
Definition MAX_ORPHAN_TRANSACTIONS : Z := MAX_BLOCK_SIZE / 100.
(** [0.1 * CENT] *)
Definition MIN_TX_FEE : Z := CENT / 10.
Definition MIN_RELAY_TX_FEE : Z := CENT / 10.
Definition MIN_TXOUT_AMOUNT : Z := MIN_TX_FEE.
Definition VERSION1_5_SWITCH_TIME : Z := 1421489410.
Definition LOCKTIME_THRESHOLD : Z := 500000000.

Definition PastDrift (nTime : Z) : Z :=
  if VERSION1_5_SWITCH_TIME <? nTime then nTime - 5 * 60 else nTime - 2 * 60 * 60.
Definition FutureDrift (nTime : Z) : Z :=
  if VERSION1_5_SWITCH_TIME <? nTime then nTime + 5 * 60 else nTime + 2 * 60 * 60.

(** A [bool] result together with what [DoS] adds to [nDoS] on the way out *)
Inductive verdict := Accept | Reject (nDoS : Z).

#[export] Instance verdict_eq_dec : EqDecision verdict.
Proof. solve_decision. Defined.

#[export] Instance COutPoint_eq_dec : EqDecision COutPoint.
Proof. solve_decision. Defined.
#[export] Instance COutPoint_countable : Countable COutPoint.
Proof.
  refine (inj_countable' (fun o => (op_hash o, op_n o)) (fun p => mkOutPoint p.1 p.2) _). by intros [].
Defined.

(** ** Finality and standardness *)

(** [IsFinalTx]; the defaults 0 of height and time mean the present *)
Definition IsFinalTx (nBestHeight now : Z) (tx : CTransaction) (nBlockHeight nBlockTime : Z) : bool :=
  if nLockTime tx =? 0 then true
  else
    let nBlockHeight := if nBlockHeight =? 0 then nBestHeight else nBlockHeight in
    let nBlockTime := if nBlockTime =? 0 then now else nBlockTime in
    if nLockTime tx <? (if nLockTime tx <? LOCKTIME_THRESHOLD then nBlockHeight else nBlockTime) then true
    else forallb CTxIn_IsFinal (vin tx).

(** The loop over the inputs of [IsStandardTx] *)
Definition standard_in (txin : CTxIn) : bool :=
  negb (500 <? Z.of_nat (length (scriptSig txin))) && IsPushOnly (scriptSig txin) && HasCanonicalPushes (scriptSig txin).

(** The loop over its outputs: [None] is [return false], otherwise the data outputs *)
Fixpoint standard_outs (outs : list CTxOut) (nDataOut : Z) : option Z :=
  match outs with
  | [] => Some nDataOut
  | txout :: outs =>
      let '(ok, whichType) := IsStandard (scriptPubKey txout) in
      if negb ok then None
      else
        let nDataOut := if bool_decide (whichType = TX_NULL_DATA) then u32 (nDataOut + 1) else nDataOut in
        if nValue txout =? 0 then None
        else if negb (HasCanonicalPushes (scriptPubKey txout)) then None
        else standard_outs outs nDataOut
  end.

Definition IsStandardTx (nBestHeight now : Z) (tx : CTransaction) : bool :=
  if CURRENT_VERSION <? nVersion tx then false
  else if negb (IsFinalTx nBestHeight now tx (nBestHeight + 1) 0) then false
  else if FutureDrift now <? nTime tx then false
  else if MAX_STANDARD_TX_SIZE <=? GetSerializeSize tx_codec tx then false
  else if negb (forallb standard_in (vin tx)) then false
  else
    match standard_outs (vout tx) 0 with
    | None => false
    | Some nDataOut => negb (1 <? nDataOut)
    end.

Definition GetLegacySigOpCount (tx : CTransaction) : Z :=
  let nSigOps := foldl (fun n txin => u32 (n + GetSigOpCount false (scriptSig txin))) 0 (vin tx) in
  foldl (fun n txout => u32 (n + GetSigOpCount false (scriptPubKey txout))) nSigOps (vout tx).

(** ** [CheckTransaction] *)

(** The loop over the outputs, [nValueOut] so far; [Some] is the score of a rejection *)
Fixpoint check_outs (special : bool) (outs : list CTxOut) (nValueOut : Z) : option Z :=
  match outs with
  | [] => None
  | txout :: outs =>
      if CTxOut_IsEmpty txout && negb special then Some 100
      else if negb (CTxOut_IsEmpty txout) && (nValue txout <? MIN_TXOUT_AMOUNT) then Some 100
      else if nValue txout <? 0 then Some 100
      else if MAX_MONEY <? nValue txout then Some 100
      else
        let nValueOut := i64 (nValueOut + nValue txout) in
        if negb (MoneyRange nValueOut) then Some 100
        else check_outs special outs nValueOut
  end.

(** The loop over the inputs with [vInOutPoints] *)
Fixpoint check_dups (ins : list CTxIn) (vInOutPoints : gset COutPoint) : bool :=
  match ins with
  | [] => true
  | txin :: ins =>
      if bool_decide (prevout txin ∈ vInOutPoints) then false
      else check_dups ins ({[prevout txin]} ∪ vInOutPoints)
  end.

Definition CheckTransaction (now : Z) (tx : CTransaction) : verdict :=
  match vin tx, vout tx with
  | [], _ => Reject 10
  | _, [] => Reject 10
  | txin0 :: _, _ =>
      if (1450569600 <? nTime tx) && (FutureDrift now <? nTime tx) then Reject 10
      else if MAX_BLOCK_SIZE <? GetSerializeSize tx_codec tx then Reject 100
      else
        match check_outs (IsCoinBase tx || IsCoinStake tx) (vout tx) 0 with
        | Some nDoS => Reject nDoS
        | None =>
            if negb (check_dups (vin tx) ∅) then Reject 0
            else if IsCoinBase tx then
              let n := Z.of_nat (length (scriptSig txin0)) in
              if (n <? 2) || (100 <? n) then Reject 100 else Accept
            else if existsb (fun txin => COutPoint_IsNull (prevout txin)) (vin tx) then Reject 10
            else Accept
        end
  end.

(** ** [GetMinFee] *)

Inductive GetMinFee_mode := GMF_BLOCK | GMF_RELAY | GMF_SEND.

#[export] Instance GetMinFee_mode_eq_dec : EqDecision GetMinFee_mode.
Proof. solve_decision. Defined.

(** [nBlockSize] and [nBytes] are [unsigned int]; the quotient that raises the
    price is one of unsigned integers *)
Definition GetMinFee (nBlockSize : Z) (fAllowFree : bool) (mode : GetMinFee_mode) (nBytes : Z)
    (tx : CTransaction) : Z :=
  let nBaseFee := if bool_decide (mode = GMF_RELAY) then MIN_RELAY_TX_FEE else MIN_TX_FEE in
  let nNewBlockSize := u32 (nBlockSize + nBytes) in
  let nMinFee := i64 ((1 + nBytes / 1000) * nBaseFee) in
  let nMinFee :=
    if nMinFee <? nBaseFee then
      foldl (fun nMinFee txout => if nValue txout <? CENT then nBaseFee else nMinFee) nMinFee (vout tx)
    else nMinFee in
  let range nMinFee := if negb (MoneyRange nMinFee) then MAX_MONEY else nMinFee in
  if negb (nBlockSize =? 1) && (MAX_BLOCK_SIZE_GEN / 2 <=? nNewBlockSize) then
    if MAX_BLOCK_SIZE_GEN <=? nNewBlockSize then MAX_MONEY
    else range (i64 (nMinFee * (MAX_BLOCK_SIZE_GEN / (MAX_BLOCK_SIZE_GEN - nNewBlockSize))))
  else range nMinFee.

(** [GetMinFee()] with the default arguments of [main.h] *)
Definition GetMinFee_default (tx : CTransaction) : Z := GetMinFee 1 false GMF_BLOCK 0 tx.

(** ** Lemmas *)

(** One guard of a table *)
Lemma if_guard {A} (b : bool) (P : Prop) `{Decision P} (x y z : A) :
  (b = true <-> P) -> y = z -> (if b then x else y) = (if bool_decide P then x else z).
Proof. intros Hb ->. destruct b; case_bool_decide; naive_solver. Qed.

Lemma existsb_false {A} (f : A -> bool) l : existsb f l = false <-> Forall (fun x => f x = false) l.
Proof.
  induction l as [|x l IH]; cbn [existsb]; [split; [constructor|done]|]. rewrite orb_false_iff, IH, Forall_cons. done.
Qed.

(** What the loop over the outputs asks of one of them *)
Definition out_rule (special : bool) (o : CTxOut) : Prop :=
  (CTxOut_IsEmpty o = true -> special = true) /\ (CTxOut_IsEmpty o = false -> MIN_TXOUT_AMOUNT <= nValue o) /\
  0 <= nValue o <= MAX_MONEY.

#[export] Instance out_rule_dec special o : Decision (out_rule special o).
Proof. unfold out_rule. apply _. Defined.

Lemma check_outs_cons special o outs n :
  0 <= n <= MAX_MONEY ->
  check_outs special (o :: outs) n =
    if bool_decide (out_rule special o /\ n + nValue o <= MAX_MONEY) then check_outs special outs (n + nValue o)
    else Some 100.
Proof.
  intros Hn. cbn [check_outs]. case_bool_decide as Hd.
  - destruct Hd as [(H1 & H2 & H3) H4]. rewrite swrap_small by (revert Hn H3; unfold MAX_MONEY, COIN; lia).
    assert (MoneyRange (n + nValue o) = true) as -> by (apply MoneyRange_spec; lia).
    destruct (Z.ltb_spec (nValue o) 0); [lia|]. destruct (Z.ltb_spec MAX_MONEY (nValue o)); [lia|].
    destruct (CTxOut_IsEmpty o); cbn [andb negb]; [by rewrite H1|].
    destruct (Z.ltb_spec (nValue o) MIN_TXOUT_AMOUNT); [specialize (H2 eq_refl); lia|done].
  - unfold out_rule in Hd. repeat case_goal; try done. exfalso. apply Hd. bool_prop.
    assert (0 <= nValue o <= MAX_MONEY) as Hv by lia.
    rewrite swrap_small in * by (revert Hn Hv; unfold MAX_MONEY, COIN; lia).
    match goal with H : MoneyRange _ = true |- _ => apply MoneyRange_spec in H end.
    split; [split_and!; [|intros E; rewrite E in *; naive_solver lia|lia|lia]|lia].
    intros E. rewrite E in *. destruct special; naive_solver.
Qed.

Lemma out_rules_nonneg special outs : Forall (out_rule special) outs -> 0 <= total_value outs.
Proof. intros Hf. apply total_value_nonneg. eapply Forall_impl; [exact Hf|]. by intros o (_ & _ & ?). Qed.

Lemma check_outs_spec special outs n :
  0 <= n <= MAX_MONEY ->
  check_outs special outs n =
    if bool_decide (Forall (out_rule special) outs /\ n + total_value outs <= MAX_MONEY) then None else Some 100.
Proof.
  revert n. induction outs as [|o outs IH]; intros n Hn.
  { cbn. rewrite bool_decide_eq_true_2; [done|]. split; [constructor|lia]. }
  rewrite check_outs_cons by done. cbn [total_value foldr]. fold (total_value outs).
  case_bool_decide as Hd.
  - rewrite IH by (destruct Hd as [(_ & _ & ?) ?]; lia).
    rewrite (bool_decide_ext _ (Forall (out_rule special) (o :: outs) /\ n + (nValue o + total_value outs) <= MAX_MONEY));
      [done|]. rewrite Forall_cons, Z.add_assoc. tauto.
  - rewrite bool_decide_eq_false_2; [done|]. rewrite Forall_cons. intros [[Ho Hf] Ht]. apply Hd. split; [done|].
    pose proof (out_rules_nonneg _ _ Hf). lia.
Qed.

Lemma check_dups_spec ins s :
  check_dups ins s = true <-> NoDup (prevout <$> ins) /\ Forall (fun i => prevout i ∉ s) ins.
Proof.
  revert s. induction ins as [|i ins IH]; intros s; cbn [check_dups fmap list_fmap].
  { split; [|done]. intros _. split; constructor. }
  rewrite NoDup_cons, Forall_cons. case_bool_decide as Hd; [naive_solver|]. rewrite IH.
  rewrite !Forall_forall. set_solver.
Qed.

(** Values in range are what [GetValueOut] asks for *)
Lemma out_rules_value special tx :
  Forall (out_rule special) (vout tx) -> total_value (vout tx) <= MAX_MONEY ->
  GetValueOut tx = Some (total_value (vout tx)).
Proof.
  intros Hf Ht. unfold GetValueOut. apply GetValueOut_fold; [unfold MAX_MONEY, COIN; lia|].
  split_and!; [|done|done]. eapply Forall_impl; [exact Hf|]. by intros o (_ & _ & ?).
Qed.

(** The rules of a transaction that need no context *)
Record tx_rules (now : Z) (tx : CTransaction) : Prop := {
  rule_vin : vin tx <> [];
  rule_vout : vout tx <> [];
  rule_time : nTime tx <= 1450569600 \/ nTime tx <= FutureDrift now;
  rule_size : GetSerializeSize tx_codec tx <= MAX_BLOCK_SIZE;
  rule_outs : Forall (out_rule (IsCoinBase tx || IsCoinStake tx)) (vout tx);
  rule_total : total_value (vout tx) <= MAX_MONEY;
  rule_inputs : NoDup (prevout <$> vin tx);
  rule_coinbase : IsCoinBase tx = true -> 2 <= Z.of_nat (length (scriptSig (default CTxIn_null (head (vin tx))))) <= 100;
  rule_prevouts : IsCoinBase tx = false -> Forall (fun i => COutPoint_IsNull (prevout i) = false) (vin tx)
}.

(** The function as a table of guards *)
Lemma CheckTransaction_table now tx :
  CheckTransaction now tx =
  if bool_decide (vin tx = [] \/ vout tx = []) then Reject 10
  else if bool_decide (~ (nTime tx <= 1450569600 \/ nTime tx <= FutureDrift now)) then Reject 10
  else if bool_decide (MAX_BLOCK_SIZE < GetSerializeSize tx_codec tx) then Reject 100
  else if bool_decide (~ (Forall (out_rule (IsCoinBase tx || IsCoinStake tx)) (vout tx) /\ total_value (vout tx) <= MAX_MONEY)) then Reject 100
  else if bool_decide (~ NoDup (prevout <$> vin tx)) then Reject 0
  else if IsCoinBase tx then
    if bool_decide (~ 2 <= Z.of_nat (length (scriptSig (default CTxIn_null (head (vin tx))))) <= 100) then Reject 100 else Accept
  else if bool_decide (~ Forall (fun i => COutPoint_IsNull (prevout i) = false) (vin tx)) then Reject 10 else Accept.
Proof.
  unfold CheckTransaction. destruct (vin tx) as [|i ins] eqn:Ei; [by rewrite bool_decide_eq_true_2 by (by left)|].
  destruct (vout tx) as [|o outs] eqn:Eo; [by rewrite bool_decide_eq_true_2 by (by right)|].
  rewrite <- Ei, <- Eo, bool_decide_eq_false_2 by (rewrite Ei, Eo; naive_solver).
  apply if_guard; [rewrite andb_true_iff, !Z.ltb_lt; lia|]. apply if_guard; [apply Z.ltb_lt|].
  rewrite check_outs_spec, Z.add_0_l, bool_decide_not by (unfold MAX_MONEY, COIN; lia).
  case_bool_decide; [cbn [negb]|done]. apply if_guard.
  { rewrite negb_true_iff, <- not_true_iff_false, check_dups_spec. split; [|tauto]. intros Hd Hn. apply Hd.
    split; [done|]. apply Forall_forall. set_solver. }
  destruct (IsCoinBase tx); [|apply if_guard; [|done]].
  - rewrite Ei. cbn [head default from_option]. cbv [Datatypes.id].
    apply if_guard; [rewrite orb_true_iff, !Z.ltb_lt; lia|done].
  - rewrite <- not_false_iff_true, existsb_false. done.
Qed.

Lemma CheckTransaction_accept now tx : CheckTransaction now tx = Accept <-> tx_rules now tx.
Proof.
  rewrite CheckTransaction_table. split.
  - intros Hc. repeat (case_bool_decide; [done|]). destruct (IsCoinBase tx) eqn:Ec; repeat (case_bool_decide; [done|]);
      split; rewrite ?Ec; try done; try tauto; try lia; try (apply dec_stable; tauto); naive_solver.
  - intros []. repeat (rewrite bool_decide_eq_false_2 by (tauto || lia)).
    destruct (IsCoinBase tx); rewrite bool_decide_eq_false_2 by tauto; done.
Qed.

(** ** Claims *)

(** [CheckTransaction] accepts exactly the transactions that obey the rules, and
    those have a value [GetValueOut] can add up; it scores a rejection 100 for a bad
    size, bad values or a bad coinbase script, 10 for missing parts, a time in the
    future or a null input, and nothing at all for inputs used twice. *)
Theorem CheckTransaction_rules (now : Z) (tx : CTransaction) :
  (CheckTransaction now tx = Accept <-> tx_rules now tx) /\
  (CheckTransaction now tx = Accept -> GetValueOut tx = Some (total_value (vout tx))) /\
  (CheckTransaction now tx = Reject 0 ->
     ~ NoDup (prevout <$> vin tx) /\ Forall (out_rule (IsCoinBase tx || IsCoinStake tx)) (vout tx)) /\
  (forall n, CheckTransaction now tx = Reject n -> n = 0 \/ n = 10 \/ n = 100).
Proof.
  pose proof (CheckTransaction_accept now tx) as Hacc.
  split; [done|]. split; [|split].
  - rewrite Hacc. intros []. by eapply out_rules_value.
  - rewrite CheckTransaction_table. repeat (case_bool_decide; [done|]).
    case_bool_decide; [|repeat case_goal; done]. intros _. split; [done|]. apply dec_stable. tauto.
  - intros n. rewrite CheckTransaction_table. repeat case_goal; intros [= <-]; lia.
Qed.

(** the dust rule never acts: whatever the outputs, the fee is the base fee for each
    started kilobyte, raised as the block fills up, so that [GetMinFee] does not
    depend on the transaction; it stays between the base fee and [MAX_MONEY]. *)
Theorem GetMinFee_outputs (nBlockSize nBytes : Z) (fAllowFree : bool) (mode : GetMinFee_mode) (tx tx' : CTransaction) :
  fits 4 nBlockSize -> fits 4 nBytes ->
  GetMinFee nBlockSize fAllowFree mode nBytes tx = GetMinFee nBlockSize fAllowFree mode nBytes tx' /\
  MIN_TX_FEE <= GetMinFee nBlockSize fAllowFree mode nBytes tx <= MAX_MONEY /\
  GetMinFee_default tx = MIN_TX_FEE.
Proof.
  unfold fits. intros Hb Hn. set (base := if bool_decide (mode = GMF_RELAY) then MIN_RELAY_TX_FEE else MIN_TX_FEE).
  assert (Hbase : base = 1000) by (unfold base; by case_bool_decide).
  assert (0 <= nBytes / 1000 < 2 ^ 32) by (split; [apply Z.div_pos; lia|apply Z.div_lt_upper_bound; lia]).
  assert (Hm : i64 ((1 + nBytes / 1000) * base) = (1 + nBytes / 1000) * 1000)
    by (rewrite Hbase; apply swrap_small; lia).
  assert (Hf : (i64 ((1 + nBytes / 1000) * base) <? base) = false) by (rewrite Hm, Hbase; apply Z.ltb_ge; lia).
  unfold GetMinFee. fold base. rewrite Hf, Hm. split; [done|]. split; [|done].
  unfold MIN_TX_FEE, CENT. change (10000 / 10) with 1000.
  assert (Hrange : forall f, 1000 <= f -> 1000 <= (if negb (MoneyRange f) then MAX_MONEY else f) <= MAX_MONEY).
  { intros f Hle. destruct (MoneyRange f) eqn:E; cbn [negb]; [apply MoneyRange_spec in E; lia|]. unfold MAX_MONEY, COIN. lia. }
  set (new := u32 (nBlockSize + nBytes)). destruct (_ && _); [|apply Hrange; lia].
  destruct (Z.leb_spec MAX_BLOCK_SIZE_GEN new) as [_|Hl]; [unfold MAX_MONEY, COIN; lia|].
  assert (0 <= new) by (apply wrap_range; lia).
  change MAX_BLOCK_SIZE_GEN with 500000 in *. set (k := 500000 / (500000 - new)).
  assert (1 <= k <= 500000)
    by (unfold k; split; [apply Z.div_le_lower_bound; lia|apply Z.div_le_upper_bound; nia]).
  apply Hrange. rewrite swrap_small by (try lia; split; nia). nia.
Qed.

(** ** Witnesses *)

Lemma GetMinFee_outputs_witness : GetMinFee 1000 false GMF_RELAY 2500 sample_tx = 3000.
Proof.
  destruct (GetMinFee_outputs 1000 2500 false GMF_RELAY sample_tx (CTransaction_SetNull 0)) as (E & _ & _);
    [unfold fits; lia..|]. rewrite E. vm_compute. reflexivity.
Defined.
