(* ===== verification/TxDB.v ===== *)
(** * The transaction index: [CDiskTxPos], [CTxIndex] of [main.h], [CTxDB] of [txdb-leveldb]

    Keys and values are stored as the bytes of their serialization.  LevelDB itself
    is a finite map from keys to values; a pending [WriteBatch] is the sequence of
    its operations.  Input/output errors of the store are not modelled; a failed
    [assert] is [None]. *)

From S2P Require Import Prelude Uint256 Serialize Hash Transaction.

(** ** Records *)

Record CDiskTxPos := mkPos { nFile : Z; nBlockPos : Z; nTxPos : Z }.

Definition CDiskTxPos_null : CDiskTxPos := mkPos UINT_MAX 0 0.
Definition CDiskTxPos_IsNull (p : CDiskTxPos) : bool := nFile p =? UINT_MAX.

#[export] Instance CDiskTxPos_eq_dec : EqDecision CDiskTxPos.
Proof. solve_decision. Defined.

Record CTxIndex := mkTxIndex { pos : CDiskTxPos; vSpent : list CDiskTxPos }.

Definition CTxIndex_null : CTxIndex := mkTxIndex CDiskTxPos_null [].
Definition CTxIndex_new (posIn : CDiskTxPos) (nOutputs : nat) : CTxIndex :=
  mkTxIndex posIn (replicate nOutputs CDiskTxPos_null).

#[export] Instance CTxIndex_eq_dec : EqDecision CTxIndex.
Proof. solve_decision. Defined.

(** [FLATDATA( *this)]: three unsigned integers *)
Definition txpos_codec : Codec CDiskTxPos := {|
  GetSerializeSize _ := 12;
  Serialize p := le_bytes 4 (nFile p) ++ le_bytes 4 (nBlockPos p) ++ le_bytes 4 (nTxPos p);
  Unserialize s :=
    '(a, s) ← stream_read 4 s;
    '(b, s) ← stream_read 4 s;
    '(c, s) ← stream_read 4 s;
    Some (mkPos (le_val a) (le_val b) (le_val c), s)
|}.

Definition CLIENT_VERSION : Z := 2030600.

Definition sizeof_CDiskTxPos : Z := 12.

(** The version of the stream goes first; what is read there is not kept *)
Definition txindex_codec : Codec CTxIndex := {|
  GetSerializeSize x :=
    u32 (u32 (GetSerializeSize (sint_codec 4) CLIENT_VERSION + GetSerializeSize txpos_codec (pos x)) +
         GetSerializeSize (vector_codec sizeof_CDiskTxPos txpos_codec) (vSpent x));
  Serialize x :=
    Serialize (sint_codec 4) CLIENT_VERSION ++ Serialize txpos_codec (pos x) ++
    Serialize (vector_codec sizeof_CDiskTxPos txpos_codec) (vSpent x);
  Unserialize s :=
    '(_, s) ← Unserialize (sint_codec 4) s;
    '(p, s) ← Unserialize txpos_codec s;
    '(v, s) ← Unserialize (vector_codec sizeof_CDiskTxPos txpos_codec) s;
    Some (mkTxIndex p v, s)
|}.

(** ** [CTxDB] *)

Inductive batch_op := BatchPut (key value : list Z) | BatchDelete (key : list Z).

Record CTxDB := mkTxDB {
  pdb : gmap (list Z) (list Z);
  activeBatch : option (list batch_op);
  fReadOnly : bool
}.

Definition CTxDB_open (pdb : gmap (list Z) (list Z)) (fReadOnly : bool) : CTxDB := mkTxDB pdb None fReadOnly.

(** [CBatchScanner]: whether an entry was found, whether it is a delete, the value *)
Definition scan_op (needle : list Z) (st : bool * bool * list Z) (op : batch_op) : bool * bool * list Z :=
  let '(foundEntry, deleted, foundValue) := st in
  match op with
  | BatchPut key value => if bool_decide (key = needle) then (true, false, value) else st
  | BatchDelete key => if bool_decide (key = needle) then (true, true, foundValue) else st
  end.

Definition ScanBatch (batch : list batch_op) (key : list Z) : bool * bool * list Z :=
  foldl (scan_op key) (false, false, []) batch.

(** The bytes found for a key *)
Definition Read_raw (t : CTxDB) (ssKey : list Z) : option (list Z) :=
  match activeBatch t with
  | Some batch =>
      let '(found, deleted, strValue) := ScanBatch batch ssKey in
      if deleted then None
      else if found then Some strValue
      else pdb t !! ssKey
  | None => pdb t !! ssKey
  end.

Definition Read {A} (c : Codec A) (t : CTxDB) (ssKey : list Z) : option A :=
  strValue ← Read_raw t ssKey; fst <$> Unserialize c strValue.

Definition Write {A} (c : Codec A) (t : CTxDB) (ssKey : list Z) (value : A) : option CTxDB :=
  if fReadOnly t then None
  else
    match activeBatch t with
    | Some batch => Some (mkTxDB (pdb t) (Some (batch ++ [BatchPut ssKey (Serialize c value)])) (fReadOnly t))
    | None => Some (mkTxDB (<[ssKey := Serialize c value]> (pdb t)) None (fReadOnly t))
    end.

Definition Erase (t : CTxDB) (ssKey : list Z) : option CTxDB :=
  if fReadOnly t then None
  else
    match activeBatch t with
    | Some batch => Some (mkTxDB (pdb t) (Some (batch ++ [BatchDelete ssKey])) (fReadOnly t))
    | None => Some (mkTxDB (delete ssKey (pdb t)) None (fReadOnly t))
    end.

Definition Exists (t : CTxDB) (ssKey : list Z) : bool :=
  match activeBatch t with
  | Some batch =>
      let '(found, deleted, _) := ScanBatch batch ssKey in
      if found && negb deleted then true else bool_decide (is_Some (pdb t !! ssKey))
  | None => bool_decide (is_Some (pdb t !! ssKey))
  end.

Definition TxnBegin (t : CTxDB) : option CTxDB :=
  match activeBatch t with
  | Some _ => None
  | None => Some (mkTxDB (pdb t) (Some []) (fReadOnly t))
  end.

(** [leveldb::DB::Write]: the operations of the batch in their order *)
Definition apply_op (m : gmap (list Z) (list Z)) (op : batch_op) : gmap (list Z) (list Z) :=
  match op with
  | BatchPut key value => <[key := value]> m
  | BatchDelete key => delete key m
  end.

Definition TxnCommit (t : CTxDB) : option CTxDB :=
  match activeBatch t with
  | Some batch => Some (mkTxDB (foldl apply_op (pdb t) batch) None (fReadOnly t))
  | None => None
  end.

Definition TxnAbort (t : CTxDB) : CTxDB := mkTxDB (pdb t) None (fReadOnly t).

(** ** The transaction index *)

(** [make_pair(string("tx"), hash)] *)
Definition tx_key (hash : list Z) : list Z :=
  Serialize (pair_codec string_codec (base_uint_codec WIDTH256)) ([116; 120], hash).

Definition db_ReadTxIndex (t : CTxDB) (hash : list Z) : option CTxIndex := Read txindex_codec t (tx_key hash).
Definition db_UpdateTxIndex (t : CTxDB) (hash : list Z) (x : CTxIndex) : option CTxDB :=
  Write txindex_codec t (tx_key hash) x.
Definition db_ContainsTx (t : CTxDB) (hash : list Z) : bool := Exists t (tx_key hash).

Section with_hash.
Context {H : HashOps}.
Definition db_AddTxIndex (t : CTxDB) (tx : CTransaction) (p : CDiskTxPos) : option CTxDB :=
  Write txindex_codec t (tx_key (CTransaction_GetHash tx)) (CTxIndex_new p (length (vout tx))).
Definition db_EraseTxIndex (t : CTxDB) (tx : CTransaction) : option CTxDB := Erase t (tx_key (CTransaction_GetHash tx)).
End with_hash.

(** ** Lemmas: the records *)

Definition txpos_ok (p : CDiskTxPos) : Prop := fits 4 (nFile p) /\ fits 4 (nBlockPos p) /\ fits 4 (nTxPos p).
Definition txindex_ok (x : CTxIndex) : Prop := txpos_ok (pos x) /\ vec_ok txpos_ok (vSpent x).

#[export] Instance txpos_codec_ok : CodecOk txpos_codec txpos_ok.
Proof.
  split; cbn [Unserialize Serialize GetSerializeSize txpos_codec]; intros [f b p]; cbn [nFile nBlockPos nTxPos].
  - intros rest (Hf & Hb & Hp). cbn [nFile nBlockPos nTxPos] in *. rewrite <- !app_assoc.
    do 3 (rewrite stream_read_app by apply length_to_digits; cbn [mbind option_bind]).
    by rewrite !le_bytes_roundtrip.
  - intros _. by rewrite !length_app, !length_to_digits.
  - intros _. rewrite !Forall_app. split_and!; by apply to_digits_digits.
Qed.

#[export] Instance txindex_codec_ok : CodecOk txindex_codec txindex_ok.
Proof.
  assert (Hv : sfits 4 CLIENT_VERSION) by (unfold sfits, CLIENT_VERSION; cbn; lia).
  split; cbn [Unserialize Serialize GetSerializeSize txindex_codec]; intros [p v]; cbn [pos vSpent].
  - intros rest (Hp & Hs). cbn [pos vSpent] in *. rewrite <- !app_assoc. by do 3 codec_step.
  - intros (Hp & Hs). cbn [pos vSpent] in *. by codec_sizes.
  - intros (Hp & Hs). cbn [pos vSpent] in *. rewrite !Forall_app. split_and!; by eapply codec_bytes.
Qed.

(** ** Lemmas: reading through a batch *)

(** What the reader sees: the store with the pending batch applied to it *)
Definition view (t : CTxDB) : gmap (list Z) (list Z) :=
  match activeBatch t with
  | Some batch => foldl apply_op (pdb t) batch
  | None => pdb t
  end.

Lemma ScanBatch_view (key : list Z) (batch : list batch_op) (st : bool * bool * list Z) (m m0 : gmap (list Z) (list Z)) :
  (let '(f, d, v) := st in if d : bool then None else if f : bool then Some v else m0 !! key) = m !! key ->
  (let '(f, d, v) := foldl (scan_op key) st batch in if d : bool then None else if f : bool then Some v else m0 !! key) =
  foldl apply_op m batch !! key.
Proof.
  revert st m. induction batch as [|op batch IH]; intros [[f d] v] m Hm; cbn [foldl]; [exact Hm|]. apply IH.
  destruct op as [k x|k]; cbn [scan_op apply_op]; case_bool_decide as Hk; subst.
  - by rewrite lookup_insert_eq.
  - by rewrite lookup_insert_ne.
  - by rewrite lookup_delete_eq.
  - by rewrite lookup_delete_ne.
Qed.

Lemma Read_raw_view t key : Read_raw t key = view t !! key.
Proof.
  unfold Read_raw, view. destruct (activeBatch t) as [batch|]; [|done].
  apply (ScanBatch_view key batch (false, false, []) (pdb t) (pdb t)). done.
Qed.

Lemma Write_view {A} (c : Codec A) t key x t' :
  Write c t key x = Some t' -> view t' = <[key := Serialize c x]> (view t).
Proof.
  unfold Write, view. destruct (fReadOnly t); [done|]. destruct (activeBatch t) as [batch|]; intros [= <-]; [|done].
  cbn. by rewrite foldl_snoc.
Qed.

Lemma Erase_view t key t' : Erase t key = Some t' -> view t' = delete key (view t).
Proof.
  unfold Erase, view. destruct (fReadOnly t); [done|]. destruct (activeBatch t) as [batch|]; intros [= <-]; [|done].
  cbn. by rewrite foldl_snoc.
Qed.

Lemma tx_key_inj h h' : uint_ok WIDTH256 h -> uint_ok WIDTH256 h' -> tx_key h = tx_key h' -> h = h'.
Proof.
  intros Hh Hh' E. assert (Ht : vch_ok [116; 120]).
  { split; [repeat constructor; unfold is_digit; lia|unfold MAX_SIZE; cbn; lia]. }
  assert (Hr := fun h (Hh : uint_ok WIDTH256 h) =>
    codec_roundtrip (c := pair_codec string_codec (base_uint_codec WIDTH256)) ([116; 120], h) [] (conj Ht Hh)).
  pose proof (Hr h Hh) as E1. pose proof (Hr h' Hh') as E2. unfold tx_key in E. rewrite E in E1. congruence.
Qed.

(** ** The interface the chain code uses *)

(** An index of transactions: the operations of [CTxDB] that connecting and
    disconnecting blocks uses; [None] of an update is a failure *)
Class TxStore := {
  store : Type;
  ReadTxIndex : store -> list Z -> option CTxIndex;
  UpdateTxIndex : store -> list Z -> CTxIndex -> option store;
  EraseTxIndex : store -> list Z -> option store
}.

Class TxStoreLaws (T : TxStore) := {
  store_ok : store -> Prop;
  ReadTxIndex_ok t h x : store_ok t -> uint_ok WIDTH256 h -> ReadTxIndex t h = Some x -> txindex_ok x;
  UpdateTxIndex_spec t h x :
    store_ok t -> uint_ok WIDTH256 h -> txindex_ok x ->
    exists t', UpdateTxIndex t h x = Some t' /\ store_ok t' /\
      forall h', uint_ok WIDTH256 h' -> ReadTxIndex t' h' = if decide (h = h') then Some x else ReadTxIndex t h';
  EraseTxIndex_spec t h :
    store_ok t -> uint_ok WIDTH256 h ->
    exists t', EraseTxIndex t h = Some t' /\ store_ok t' /\
      forall h', uint_ok WIDTH256 h' -> ReadTxIndex t' h' = if decide (h = h') then None else ReadTxIndex t h'
}.

#[export] Instance leveldb_store : TxStore := {|
  store := CTxDB;
  ReadTxIndex := db_ReadTxIndex;
  UpdateTxIndex := db_UpdateTxIndex;
  EraseTxIndex t h := Erase t (tx_key h)
|}.

Definition db_ok (t : CTxDB) : Prop :=
  fReadOnly t = false /\ forall h x, uint_ok WIDTH256 h -> db_ReadTxIndex t h = Some x -> txindex_ok x.

Lemma db_ReadTxIndex_view t h :
  db_ReadTxIndex t h = (strValue ← view t !! tx_key h; fst <$> Unserialize txindex_codec strValue).
Proof. unfold db_ReadTxIndex, Read. by rewrite Read_raw_view. Qed.

Lemma Read_Update t h x t' h' :
  uint_ok WIDTH256 h -> uint_ok WIDTH256 h' -> txindex_ok x -> db_UpdateTxIndex t h x = Some t' ->
  db_ReadTxIndex t' h' = if decide (h = h') then Some x else db_ReadTxIndex t h'.
Proof.
  intros Hh Hh' Hx Hu. rewrite !db_ReadTxIndex_view, (Write_view _ _ _ _ _ Hu). case_decide as He.
  - subst. rewrite lookup_insert_eq. cbn [mbind option_bind].
    rewrite <- (app_nil_r (Serialize txindex_codec x)), codec_roundtrip by done. done.
  - rewrite lookup_insert_ne; [done|]. intros E. by apply He, tx_key_inj.
Qed.

Lemma Read_Erase t h t' h' :
  uint_ok WIDTH256 h -> uint_ok WIDTH256 h' -> Erase t (tx_key h) = Some t' ->
  db_ReadTxIndex t' h' = if decide (h = h') then None else db_ReadTxIndex t h'.
Proof.
  intros Hh Hh' Hu. rewrite !db_ReadTxIndex_view, (Erase_view _ _ _ Hu). case_decide as He.
  - subst. by rewrite lookup_delete_eq.
  - rewrite lookup_delete_ne; [done|]. intros E. by apply He, tx_key_inj.
Qed.

#[export] Program Instance leveldb_store_laws : TxStoreLaws leveldb_store := {| store_ok := db_ok |}.
Next Obligation. intros t h x [_ Hok] Hh Hr. by eapply Hok. Qed.
Next Obligation.
  intros t h x [Hro Hok] Hh Hx. cbn [UpdateTxIndex ReadTxIndex leveldb_store].
  assert (exists t', db_UpdateTxIndex t h x = Some t' /\ fReadOnly t' = false) as (t' & Hu & Hro').
  { unfold db_UpdateTxIndex, Write. rewrite Hro. destruct (activeBatch t); eexists; done. }
  exists t'. assert (Hrd := fun h' Hh' => Read_Update t h x t' h' Hh Hh' Hx Hu). split_and!; [done| |exact Hrd].
  split; [done|]. intros h' x' Hh' Hx'. rewrite Hrd in Hx' by done. case_decide; [congruence|eauto].
Qed.
Next Obligation.
  intros t h [Hro Hok] Hh. cbn [EraseTxIndex ReadTxIndex leveldb_store].
  assert (exists t', Erase t (tx_key h) = Some t' /\ fReadOnly t' = false) as (t' & Hu & Hro').
  { unfold Erase. rewrite Hro. destruct (activeBatch t); eexists; done. }
  exists t'. assert (Hrd := fun h' Hh' => Read_Erase t h t' h' Hh Hh' Hu). split_and!; [done| |exact Hrd].
  split; [done|]. intros h' x' Hh' Hx'. rewrite Hrd in Hx' by done. case_decide; [done|eauto].
Qed.

(** ** Claims *)

(** C33: a [CTxDB] with or without a pending batch behaves as one map, the store with the
    batch applied: reads, writes and erases agree with it, a commit makes it the
    store and an abort drops the batch, and an index written under a hash is read
    back, the other hashes keeping theirs.  [Exists] is the exception: a key the
    pending batch deletes but the store has still exists. *)
Theorem txdb_refines_map (t : CTxDB) (key : list Z) :
  Read_raw t key = view t !! key /\
  (forall A (c : Codec A) x t', Write c t key x = Some t' -> view t' = <[key := Serialize c x]> (view t)) /\
  (forall t', Erase t key = Some t' -> view t' = delete key (view t)) /\
  (forall t', TxnBegin t = Some t' -> view t' = view t) /\
  (forall t', TxnCommit t = Some t' -> pdb t' = view t /\ view t' = view t) /\
  view (TxnAbort t) = pdb t /\
  (forall h h' x t', uint_ok WIDTH256 h -> uint_ok WIDTH256 h' -> txindex_ok x -> db_UpdateTxIndex t h x = Some t' ->
     db_ReadTxIndex t' h' = if decide (h = h') then Some x else db_ReadTxIndex t h') /\
  (activeBatch t = None -> Exists t key = bool_decide (is_Some (view t !! key))) /\
  (forall t1 t2, is_Some (pdb t !! key) -> TxnBegin t = Some t1 -> Erase t1 key = Some t2 ->
     Read_raw t2 key = None /\ Exists t2 key = true).
Proof.
  split_and!.
  - apply Read_raw_view.
  - intros A c x t'. apply Write_view.
  - apply Erase_view.
  - unfold TxnBegin, view. intros t'. destruct (activeBatch t) eqn:E; [done|]. intros [= <-]. done.
  - unfold TxnCommit, view. intros t'. destruct (activeBatch t); [|done]. by intros [= <-].
  - done.
  - intros h h' x t'. apply Read_Update.
  - unfold Exists, view. by intros ->.
  - intros t1 t2 Hs Hb He. rewrite Read_raw_view, (Erase_view _ _ _ He), lookup_delete_eq. split; [done|].
    unfold TxnBegin in Hb. destruct (activeBatch t); [done|]. injection Hb as <-. unfold Erase in He. cbn in He.
    destruct (fReadOnly t); [done|]. injection He as <-. unfold Exists, ScanBatch. cbn. rewrite bool_decide_eq_true_2 by done.
    cbn. by apply bool_decide_eq_true_2.
Qed.
