(* ===== verification/Chain.v ===== *)
(** * The block index and proof-of-work targets: [CBlockIndex] of [main.h], [main.cpp]

    The way back through [pprev] from a block is a list: the block first, the
    genesis block last, [NULL] the empty list.  [pnext], which only marks the
    best chain, is not part of the record.  The globals [fTestNet] and
    [nBestHeight] are arguments. *)

From stdpp Require Import sorting.
From S2P Require Import Prelude Uint256 BigNum Serialize Hash Transaction Block TxRules.

Record CBlockIndex := mkIndex {
  bi_hash : list Z;
  bi_nFile : Z;
  bi_nBlockPos : Z;
  bi_nChainTrust : list Z;
  bi_nHeight : Z;
  bi_nMint : Z;
  bi_nMoneySupply : Z;
  bi_nFlags : Z;
  bi_nStakeModifier : Z;
  bi_nStakeModifierChecksum : Z;
  bi_prevoutStake : COutPoint;
  bi_nStakeTime : Z;
  bi_hashProofOfStake : list Z;
  bi_nVersion : Z;
  bi_hashMerkleRoot : list Z;
  bi_nTime : Z;
  bi_nBits : Z;
  bi_nNonce : Z
}.

Definition BLOCK_PROOF_OF_STAKE : Z := 1 .<< 0.
Definition BLOCK_STAKE_ENTROPY : Z := 1 .<< 1.
Definition BLOCK_STAKE_MODIFIER : Z := 1 .<< 2.

(** The constructor from a block; the hash it is filed under comes later *)
Definition CBlockIndex_of (nFileIn nBlockPosIn : Z) (b : CBlock) : CBlockIndex :=
  let pos := IsProofOfStake b in
  let '(prevoutStake, nStakeTime) :=
    if pos then
      match vtx b with
      | _ :: tx :: _ => (prevout (default CTxIn_null (head (vin tx))), nTime tx)
      | _ => (COutPoint_null, 0)
      end
    else (COutPoint_null, 0) in
  mkIndex [] nFileIn nBlockPosIn (assign64 WIDTH256 0) 0 0 0 (if pos then BLOCK_PROOF_OF_STAKE else 0) 0 0
    prevoutStake nStakeTime (assign64 WIDTH256 0)
    (blk_nVersion b) (hashMerkleRoot b) (blk_nTime b) (nBits b) (nNonce b).

Definition bi_GetBlockTime (i : CBlockIndex) : Z := bi_nTime i.
Definition bi_IsProofOfStake (i : CBlockIndex) : bool := negb (bi_nFlags i .& BLOCK_PROOF_OF_STAKE =? 0).
Definition bi_IsProofOfWork (i : CBlockIndex) : bool := negb (bi_IsProofOfStake i).
Definition bi_GetStakeEntropyBit (i : CBlockIndex) : Z := (bi_nFlags i .& BLOCK_STAKE_ENTROPY) .>> 1.
Definition bi_GeneratedStakeModifier (i : CBlockIndex) : bool := negb (bi_nFlags i .& BLOCK_STAKE_MODIFIER =? 0).

Definition with_flags (i : CBlockIndex) (flags modifier : Z) : CBlockIndex :=
  mkIndex (bi_hash i) (bi_nFile i) (bi_nBlockPos i) (bi_nChainTrust i) (bi_nHeight i) (bi_nMint i) (bi_nMoneySupply i)
    flags modifier (bi_nStakeModifierChecksum i) (bi_prevoutStake i) (bi_nStakeTime i) (bi_hashProofOfStake i)
    (bi_nVersion i) (bi_hashMerkleRoot i) (bi_nTime i) (bi_nBits i) (bi_nNonce i).

Definition SetStakeEntropyBit (nEntropyBit : Z) (i : CBlockIndex) : bool * CBlockIndex :=
  if 1 <? nEntropyBit then (false, i)
  else (true, with_flags i (bi_nFlags i .| (if nEntropyBit =? 0 then 0 else BLOCK_STAKE_ENTROPY)) (bi_nStakeModifier i)).

Definition SetStakeModifier (nModifier : Z) (fGeneratedStakeModifier : bool) (i : CBlockIndex) : CBlockIndex :=
  with_flags i (if fGeneratedStakeModifier then bi_nFlags i .| BLOCK_STAKE_MODIFIER else bi_nFlags i) nModifier.

(** [GetBlockHeader]: a header with nothing cached *)
Definition GetBlockHeader (i : CBlockIndex) (pprev : list CBlockIndex) : CBlock :=
  mkBlock (bi_nVersion i) (match pprev with [] => assign64 WIDTH256 0 | p :: _ => bi_hash p end)
    (bi_hashMerkleRoot i) (bi_nTime i) (bi_nBits i) (bi_nNonce i) [] [] [] (assign64 WIDTH256 0) false.

(** ** Walks back along the chain *)

Definition nMedianTimeSpan : nat := 11.

(** The times of up to eleven blocks, sorted, and the middle one *)
Definition GetMedianTimePast (chain : list CBlockIndex) : Z :=
  let pmedian := merge_sort Z.le (rev (bi_GetBlockTime <$> take nMedianTimeSpan chain)) in
  nthZ pmedian (length pmedian / 2).
Definition GetPastTimeLimit (chain : list CBlockIndex) : Z := GetMedianTimePast chain.

Fixpoint supermajority_loop (chain : list CBlockIndex) (minVersion nRequired : Z) (nToCheck : nat) (nFound : Z) : Z :=
  match nToCheck, chain with
  | S nToCheck, pstart :: chain =>
      if nFound <? nRequired then
        supermajority_loop chain minVersion nRequired nToCheck
          (if minVersion <=? bi_nVersion pstart then nFound + 1 else nFound)
      else nFound
  | _, _ => nFound
  end.
Definition IsSuperMajority (minVersion : Z) (pstart : list CBlockIndex) (nRequired nToCheck : Z) : bool :=
  nRequired <=? supermajority_loop pstart minVersion nRequired (Z.to_nat nToCheck) 0.

Fixpoint GetLastBlockIndex (chain : list CBlockIndex) (fProofOfStake : bool) : list CBlockIndex :=
  match chain with
  | pindex :: ((_ :: _) as chain') =>
      if Bool.eqb (bi_IsProofOfStake pindex) fProofOfStake then chain else GetLastBlockIndex chain' fProofOfStake
  | _ => chain
  end.

(** ** Targets *)

Definition SPACING_TARGET_SWITCH : Z := 5667000.
Definition SPACING_TARGET_SWITCH_TESTNET : Z := 6390.
Definition VERSION1_5_SWITCH_BLOCK : Z := 1600000.

(** [4.20 * 30] seconds after the switch *)
Definition GetTargetSpacing (fTestNet : bool) (nBestHeight : Z) : Z :=
  if (if fTestNet then SPACING_TARGET_SWITCH_TESTNET else SPACING_TARGET_SWITCH) <? nBestHeight + 1 then 126
  else if fTestNet then 60 else 30.

Definition GetStakeMinAge (fTestNet : bool) (nBestHeight : Z) : Z :=
  if (if fTestNet then SPACING_TARGET_SWITCH_TESTNET else SPACING_TARGET_SWITCH) <? nBestHeight + 1 then 60 * 60 * 24
  else if fTestNet then 2 * 60 * 60 else 60 * 60 * 24 * 10.

(** [0.16 * 24 * 60 * 60] in double precision is just below 13824 *)
Definition nTargetTimespan : Z := 13823.

Section targets.
Context {B : BNOps}.

(** [~uint256(0) >> bits] *)
Definition target_limit (bits : Z) : BIGNUM :=
  CBigNum_of_uint256 (shr_assign WIDTH256 (op_compl (assign64 WIDTH256 0)) bits).
Definition bnProofOfWorkLimit (fTestNet : bool) : BIGNUM := target_limit (if fTestNet then 16 else 20).
Definition bnProofOfStakeLimit (fTestNet : bool) : BIGNUM := target_limit (if fTestNet then 20 else 24).
Definition bnProofOfStakeHardLimit : BIGNUM := target_limit 30.

(** The end of both versions: the new target from the last two blocks of the kind *)
Definition retarget (bnTargetLimit : BIGNUM) (nBits nTargetSpacing nActualSpacing : Z) : option Z :=
  let bnNew := SetCompact nBits in
  let nInterval := Z.quot nTargetTimespan nTargetSpacing in
  let bnNew := bn_mult bnNew (CBigNum_of_long ((nInterval - 1) * nTargetSpacing + nActualSpacing + nActualSpacing)) in
  bnNew ← bn_quot bnNew (CBigNum_of_long ((nInterval + 1) * nTargetSpacing));
  Some (GetCompact (if bn_gt bnNew bnTargetLimit then bnTargetLimit else bnNew)).

(** The spacing asked for between [pindexPrev] and the next block of its kind *)
Definition target_spacing (fTestNet : bool) (nBestHeight : Z) (fProofOfStake : bool) (hLast hPrev : Z) : Z :=
  let nTargetStakeSpacing := GetTargetSpacing fTestNet nBestHeight in
  if fProofOfStake then nTargetStakeSpacing
  else Z.min (12 * nTargetStakeSpacing) (nTargetStakeSpacing * (1 + hLast - hPrev)).

Definition GetNextTargetRequiredV1 (fTestNet : bool) (nBestHeight : Z) (pindexLast : list CBlockIndex)
    (fProofOfStake : bool) : option Z :=
  last ← head pindexLast;
  let bnTargetLimit :=
    if negb fProofOfStake then bnProofOfWorkLimit fTestNet
    else if fTestNet then bnProofOfStakeLimit fTestNet
    else if 15000 <? bi_nHeight last + 1 then bnProofOfStakeLimit fTestNet
    else if 14060 <? bi_nHeight last + 1 then bnProofOfStakeHardLimit
    else bnProofOfStakeLimit fTestNet in
  match GetLastBlockIndex pindexLast fProofOfStake with
  | pindexPrev :: ((_ :: _) as pprev) =>
      match GetLastBlockIndex pprev fProofOfStake with
      | pindexPrevPrev :: _ :: _ =>
          let nActualSpacing := bi_GetBlockTime pindexPrev - bi_GetBlockTime pindexPrevPrev in
          let nTargetSpacing := target_spacing fTestNet nBestHeight fProofOfStake (bi_nHeight last) (bi_nHeight pindexPrev) in
          retarget bnTargetLimit (bi_nBits pindexPrev) nTargetSpacing nActualSpacing
      | _ => Some (GetCompact bnTargetLimit)
      end
  | _ => Some (GetCompact bnTargetLimit)
  end.

Definition GetNextTargetRequiredV2 (fTestNet : bool) (nBestHeight : Z) (pindexLast : list CBlockIndex)
    (fProofOfStake : bool) : option Z :=
  let bnTargetLimit := if negb fProofOfStake then bnProofOfWorkLimit fTestNet else bnProofOfStakeLimit fTestNet in
  match pindexLast with
  | [] => Some (GetCompact bnTargetLimit)
  | last :: _ =>
      match GetLastBlockIndex pindexLast fProofOfStake with
      | pindexPrev :: ((_ :: _) as pprev) =>
          match GetLastBlockIndex pprev fProofOfStake with
          | pindexPrevPrev :: _ :: _ =>
              let nActualSpacing := bi_GetBlockTime pindexPrev - bi_GetBlockTime pindexPrevPrev in
              let nTargetSpacing := target_spacing fTestNet nBestHeight fProofOfStake (bi_nHeight last) (bi_nHeight pindexPrev) in
              let nActualSpacing := if nActualSpacing <? 0 then nTargetSpacing else nActualSpacing in
              retarget bnTargetLimit (bi_nBits pindexPrev) nTargetSpacing nActualSpacing
          | _ => Some (GetCompact bnTargetLimit)
          end
      | _ => Some (GetCompact bnTargetLimit)
      end
  end.

(** [None]: [pindexLast] is dereferenced whether or not it is [NULL] *)
Definition GetNextTargetRequired (fTestNet : bool) (nBestHeight : Z) (pindexLast : list CBlockIndex)
    (fProofOfStake : bool) : option Z :=
  last ← head pindexLast;
  if VERSION1_5_SWITCH_BLOCK <? bi_nHeight last + 1 then GetNextTargetRequiredV2 fTestNet nBestHeight pindexLast fProofOfStake
  else GetNextTargetRequiredV1 fTestNet nBestHeight pindexLast fProofOfStake.

(** [while (nTime > 0 && bnResult < bnTargetLimit)] *)
Fixpoint max_bits_loop (fuel : nat) (bnTargetLimit bnResult : BIGNUM) (nTime : Z) : BIGNUM :=
  match fuel with
  | O => bnResult
  | S fuel =>
      if (0 <? nTime) && bn_lt bnResult bnTargetLimit then
        max_bits_loop fuel bnTargetLimit (bn_mult bnResult (CBigNum_of_int 2)) (nTime - 24 * 60 * 60)
      else bnResult
  end.

Definition ComputeMaxBits (bnTargetLimit : BIGNUM) (nBase nTime : Z) : Z :=
  let bnResult := bn_mult (SetCompact nBase) (CBigNum_of_int 2) in
  let bnResult := max_bits_loop (S (Z.to_nat (nTime / 86400))) bnTargetLimit bnResult nTime in
  GetCompact (if bn_gt bnResult bnTargetLimit then bnTargetLimit else bnResult).
Definition ComputeMinWork (fTestNet : bool) (nBase nTime : Z) : Z :=
  ComputeMaxBits (bnProofOfWorkLimit fTestNet) nBase nTime.
Definition ComputeMinStake (fTestNet : bool) (nBase nTime : Z) : Z :=
  ComputeMaxBits (bnProofOfStakeLimit fTestNet) nBase nTime.

Definition CheckProofOfWork (fTestNet : bool) (hash : list Z) (nBits : Z) : bool :=
  let bnTarget := SetCompact nBits in
  if bn_le bnTarget (CBigNum_of_int 0) || bn_gt bnTarget (bnProofOfWorkLimit fTestNet) then false
  else negb (op_gt hash (getuint256 bnTarget)).

(** [None] cannot happen: [bnTarget + 1] is not zero *)
Definition GetBlockTrust (fTestNet : bool) (i : CBlockIndex) : option (list Z) :=
  let bnTarget := SetCompact (bi_nBits i) in
  if bn_le bnTarget (CBigNum_of_int 0) then Some (assign64 WIDTH256 0)
  else if bi_IsProofOfStake i then
    getuint256 <$> bn_quot (bn_shl (CBigNum_of_int 1) 256) (bn_plus bnTarget (CBigNum_of_int 1))
  else
    q ← bn_quot (bnProofOfWorkLimit fTestNet) (bn_plus bnTarget (CBigNum_of_int 1));
    let nPoWTrust := getuint256 q in
    Some (if op_gt nPoWTrust (assign64 WIDTH256 1) then nPoWTrust else assign64 WIDTH256 1).
End targets.

(** ** Lemmas: numbers *)

Lemma compact_trunc_range z : 0 <= z -> 0 <= compact_trunc z <= z.
Proof.
  intros Hz. unfold compact_trunc. case_goal; [lia|]. bool_prop. set (P := 256 ^ (snum_len z - 3)).
  assert (0 < P) by (apply Z.pow_pos_nonneg; lia). rewrite Z.abs_eq by lia.
  pose proof (Z.div_mod z P ltac:(lia)). pose proof (Z.mod_pos_bound z P ltac:(lia)).
  assert (0 <= z / P) by (apply Z.div_pos; lia).
  destruct (decide (z = 0)) as [->|]; [cbn; lia|]. rewrite (Z.sgn_pos z) by lia. nia.
Qed.

Lemma snum_len_small z : 0 <= z < 2 ^ 256 -> snum_len z < 256.
Proof.
  intros Hz. unfold snum_len. case_goal; [lia|]. bool_prop. rewrite Z.abs_eq by lia.
  assert (Z.log2 z < 256) by (apply Z.log2_lt_pow2; lia). assert ((Z.log2 z + 1) / 8 <= 32); [|lia].
  apply Z.div_le_upper_bound; lia.
Qed.

Lemma op_gt_spec W a b : uint_ok W a -> uint_ok W b -> op_gt a b = (uval b <? uval a).
Proof.
  intros [Hla Ha] [Hlb Hb]. unfold op_gt. rewrite cmp_scan_spec by (done || congruence).
  destruct (Z.ltb_spec (uval a) (uval b)), (Z.ltb_spec (uval b) (uval a)); done || lia.
Qed.

Section facts.
Context {B : BNOps} {BL : BNLaws B}.

Lemma bn_gt_val a b : bn_gt a b = (bn_val b <? bn_val a).
Proof. apply bn_compare_val. Qed.
Lemma bn_lt_val a b : bn_lt a b = (bn_val a <? bn_val b).
Proof. apply bn_compare_val. Qed.
Lemma bn_le_val a b : bn_le a b = (bn_val a <=? bn_val b).
Proof. apply bn_compare_val. Qed.

Lemma bn_quot_val a b :
  bn_val b <> 0 -> exists q, bn_quot a b = Some q /\ bn_val q = Z.quot (bn_val a) (bn_val b).
Proof. intros Hb. destruct (BN_div_val a b Hb) as (q & r & E & Hq & _). exists q. unfold bn_quot. by rewrite E. Qed.

Lemma target_limit_val bits :
  0 <= bits <= 256 -> bn_val (target_limit bits) = 2 ^ 256 / 2 ^ bits - 1 /\ 0 <= bn_val (target_limit bits) < 2 ^ 256.
Proof.
  intros Hb. unfold target_limit, CBigNum_of_uint256. set (a := op_compl (assign64 WIDTH256 0)).
  assert (Ha : limbs_ok a) by (apply (bool_decide_unpack _); vm_compute; exact I).
  assert (Hv : uval a = 2 ^ 256 - 1) by reflexivity.
  destruct (shr_assign_ok WIDTH256 a bits Ha) as [Hl Hok]. rewrite setuint_val by (done || rewrite Hl; cbn; lia).
  rewrite uval_shr_assign, Hv by (done || lia). pose proof (pow2_pos bits ltac:(lia)) as Hp.
  assert (E : 2 ^ 256 = 2 ^ (256 - bits) * 2 ^ bits) by (rewrite <- Z.pow_add_r by lia; f_equal; lia).
  pose proof (pow2_pos (256 - bits) ltac:(lia)).
  assert ((2 ^ 256 - 1) / 2 ^ bits = 2 ^ 256 / 2 ^ bits - 1) as ->.
  { rewrite E, Z.div_mul by lia. symmetry. apply (Z.div_unique_pos _ _ _ (2 ^ bits - 1)); lia. }
  split; [done|]. rewrite E, Z.div_mul by lia. nia.
Qed.

(** ** Lemmas: targets *)

(** The new target before rounding to the compact form *)
Definition new_target (limit old nTargetSpacing nActualSpacing : Z) : Z :=
  let nInterval := nTargetTimespan / nTargetSpacing in
  Z.min limit (old * ((nInterval - 1) * nTargetSpacing + 2 * nActualSpacing) / ((nInterval + 1) * nTargetSpacing)).

Lemma retarget_spec limit nBits S A :
  0 <= bn_val limit < 2 ^ 256 -> 0 <= nBits < 2 ^ 32 -> 0 <= compact_val nBits -> 0 < S <= nTargetTimespan -> 0 <= A < 2 ^ 32 ->
  exists c, retarget limit nBits S A = Some c /\
    bn_val (SetCompact c) = compact_trunc (new_target (bn_val limit) (compact_val nBits) S A).
Proof.
  intros Hl Hb Hc HS HA. unfold retarget, new_target. rewrite Z.quot_div_nonneg by (unfold nTargetTimespan in *; lia).
  set (I := nTargetTimespan / S).
  assert (HI : 1 <= I /\ I * S <= nTargetTimespan).
  { split; [apply Z.div_le_lower_bound; lia|]. pose proof (Z.mul_div_le nTargetTimespan S ltac:(lia)). lia. }
  assert (HS2 : nTargetTimespan = 13823) by done.
  set (m := CBigNum_of_long ((I - 1) * S + A + A)). set (d := CBigNum_of_long ((I + 1) * S)).
  assert (Hm : bn_val m = (I - 1) * S + 2 * A) by (unfold m; rewrite CBigNum_of_long_val by nia; lia).
  assert (Hd : bn_val d = (I + 1) * S) by (unfold d; rewrite CBigNum_of_long_val by nia; lia).
  destruct (bn_quot_val (bn_mult (SetCompact nBits) m) d) as (q & E & Hq); [nia|]. rewrite E. cbn [mbind option_bind].
  eexists. split; [done|]. unfold bn_mult in Hq.
  rewrite BN_mul_val, SetCompact_val, Hm, Hd, Z.quot_div_nonneg in Hq by nia.
  assert (0 <= bn_val q) by (rewrite Hq; apply Z.div_pos; nia).
  rewrite SetCompact_GetCompact, bn_gt_val, <- Hq.
  - destruct (Z.ltb_spec (bn_val limit) (bn_val q)); f_equal; lia.
  - rewrite bn_gt_val. apply snum_len_small. destruct (Z.ltb_spec (bn_val limit) (bn_val q)); lia.
Qed.

(** A chain of blocks as the program builds it *)
Definition chain_ok (chain : list CBlockIndex) : Prop :=
  forall i x, chain !! i = Some x ->
    bi_nHeight x = Z.of_nat (length chain) - 1 - Z.of_nat i /\ 0 <= bi_nTime x < 2 ^ 32 /\
    0 <= bi_nBits x < 2 ^ 32 /\ 0 <= compact_val (bi_nBits x).

Lemma GetLastBlockIndex_suffix chain f : exists n, GetLastBlockIndex chain f = drop n chain.
Proof.
  induction chain as [|x [|y chain] IH]; [by exists 0%nat..|]. cbn [GetLastBlockIndex].
  case_goal; [by exists 0%nat|]. destruct IH as [n E]. exists (S n). exact E.
Qed.

Lemma chain_ok_drop chain n : chain_ok chain -> chain_ok (drop n chain).
Proof.
  intros Hc i x Hx. rewrite lookup_drop in Hx. pose proof (lookup_lt_Some _ _ _ Hx).
  destruct (Hc _ _ Hx) as (Hh & Hr). split; [|done]. rewrite length_drop. lia.
Qed.

Lemma target_spacing_range fTestNet nBestHeight f hLast hPrev :
  hPrev <= hLast -> 0 < target_spacing fTestNet nBestHeight f hLast hPrev <= nTargetTimespan.
Proof.
  intros. unfold target_spacing, GetTargetSpacing, nTargetTimespan. destruct f; repeat case_goal; lia.
Qed.

Lemma GetLastBlockIndex_kind chain f x y rest :
  GetLastBlockIndex chain f = x :: y :: rest -> bi_IsProofOfStake x = f.
Proof.
  induction chain as [|a [|b chain] IH]; [done..|]. cbn [GetLastBlockIndex].
  destruct (Bool.eqb_spec (bi_IsProofOfStake a) f) as [<-|]; [by intros [= <- _]|exact IH].
Qed.

Lemma chain_ok_head x chain :
  chain_ok (x :: chain) -> bi_nHeight x = Z.of_nat (length chain) /\ 0 <= bi_nTime x < 2 ^ 32 /\
    0 <= bi_nBits x < 2 ^ 32 /\ 0 <= compact_val (bi_nBits x).
Proof. intros Hc. destruct (Hc 0%nat x eq_refl) as (Hh & Hr). split; [cbn [length] in Hh; lia|done]. Qed.

Lemma GetBlockTrust_val fTestNet i :
  0 <= bi_nBits i < 2 ^ 32 -> 0 < compact_val (bi_nBits i) ->
  uval <$> GetBlockTrust fTestNet i =
    Some (if bi_IsProofOfStake i then 2 ^ 256 / (compact_val (bi_nBits i) + 1)
          else Z.max 1 (bn_val (bnProofOfWorkLimit fTestNet) / (compact_val (bi_nBits i) + 1))).
Proof.
  intros Hi Hpos. set (T := compact_val (bi_nBits i)) in *. unfold GetBlockTrust.
  set (limit := bnProofOfWorkLimit fTestNet).
  assert (Hlim : 0 <= bn_val limit < 2 ^ 256) by (unfold limit, bnProofOfWorkLimit; destruct fTestNet; by apply target_limit_val).
  rewrite bn_le_val, SetCompact_val, CBigNum_of_int_val by lia. fold T. destruct (Z.leb_spec T 0); [lia|].
  set (d := bn_plus (SetCompact (bi_nBits i)) (CBigNum_of_int 1)).
  assert (Hd : bn_val d = T + 1) by (unfold d, bn_plus; rewrite BN_add_val, SetCompact_val, CBigNum_of_int_val by lia; done).
  assert (Hq : forall a, 0 <= bn_val a <= 2 ^ 256 -> exists q, bn_quot a d = Some q /\ bn_val q = bn_val a / (T + 1) /\
    uval (getuint256 q) = bn_val a / (T + 1)).
  { intros a Ha. destruct (bn_quot_val a d) as (q & E & Hv); [lia|]. exists q.
    rewrite Hd, Z.quot_div_nonneg in Hv by lia. split_and!; [done|done|]. rewrite getuint256_val, Hv.
    assert (0 <= bn_val a / (T + 1)) by (apply Z.div_pos; lia). rewrite Z.abs_eq by lia. apply Z.mod_small.
    split; [done|]. apply Z.div_lt_upper_bound; lia. }
  destruct (bi_IsProofOfStake i).
  - destruct (Hq (bn_shl (CBigNum_of_int 1) 256)) as (q & -> & _ & Hv).
    { unfold bn_shl. rewrite BN_lshift_val, CBigNum_of_int_val by lia. lia. }
    cbn [fmap option_fmap option_map]. rewrite Hv. unfold bn_shl. rewrite BN_lshift_val, CBigNum_of_int_val by lia. done.
  - destruct (Hq limit) as (q & -> & _ & Hv); [lia|]. cbn [mbind option_bind fmap option_fmap option_map].
    rewrite (op_gt_spec WIDTH256), Hv by (apply getuint256_ok || (apply uint_ok_assign64; lia)). f_equal. change (uval (assign64 WIDTH256 1)) with 1.
    destruct (Z.ltb_spec 1 (bn_val limit / (T + 1))); [rewrite Hv; lia|]. change (uval (assign64 WIDTH256 1)) with 1. lia.
Qed.

(** What holds of the two blocks a target is computed from *)
Lemma last_two_ok chain f last prev y pprev prevprev z rest :
  chain_ok chain -> head chain = Some last -> GetLastBlockIndex chain f = prev :: y :: pprev ->
  GetLastBlockIndex (y :: pprev) f = prevprev :: z :: rest ->
  0 <= bi_nTime prev < 2 ^ 32 /\ 0 <= bi_nBits prev < 2 ^ 32 /\ 0 <= compact_val (bi_nBits prev) /\
  0 <= bi_nTime prevprev < 2 ^ 32 /\ bi_nHeight prev <= bi_nHeight last.
Proof.
  intros Hc H0 Ep Epp. destruct (GetLastBlockIndex_suffix chain f) as [n En]. rewrite Ep in En.
  destruct (GetLastBlockIndex_suffix (y :: pprev) f) as [n' En']. rewrite Epp in En'.
  pose proof (chain_ok_drop chain n Hc) as Hc1. rewrite <- En in Hc1.
  destruct (chain_ok_head _ _ Hc1) as (Hh1 & Ht1 & Hb1 & Hv1).
  pose proof (chain_ok_drop _ 1 Hc1) as Hc2. cbn [drop] in Hc2.
  pose proof (chain_ok_drop _ n' Hc2) as Hc3. rewrite <- En' in Hc3. destruct (chain_ok_head _ _ Hc3) as (_ & Ht3 & _).
  destruct chain as [|x chain]; [done|]. injection H0 as ->. destruct (chain_ok_head _ _ Hc) as (Hh0 & _).
  split_and!; try tauto. rewrite Hh1, Hh0. apply (f_equal length) in En. rewrite length_drop in En. cbn [length] in *. lia.
Qed.

(** ** Claims *)

(** C31: the target the second rule asks of the next block: it is never easier than the
    limit of its kind; once there are three blocks of the kind it is the target of
    the last one times [((I - 1) S + 2 A) / ((I + 1) S)], cut off at the limit and
    rounded down to the compact form, where [S] is the spacing asked for, [A] the one
    between the last two blocks of the kind ([S] when their times are out of order)
    and [I] the intervals of the time span; blocks that keep the spacing keep the
    target. *)
Theorem next_target_rule (fTestNet : bool) (nBestHeight : Z) (chain : list CBlockIndex) (f : bool) :
  chain_ok chain ->
  let limit := bn_val (if f then bnProofOfStakeLimit fTestNet else bnProofOfWorkLimit fTestNet) in
  exists c, GetNextTargetRequiredV2 fTestNet nBestHeight chain f = Some c /\ 0 <= bn_val (SetCompact c) <= limit /\
    forall last prev y pprev prevprev z rest,
      head chain = Some last -> GetLastBlockIndex chain f = prev :: y :: pprev ->
      GetLastBlockIndex (y :: pprev) f = prevprev :: z :: rest ->
      let S := target_spacing fTestNet nBestHeight f (bi_nHeight last) (bi_nHeight prev) in
      let d := bi_nTime prev - bi_nTime prevprev in
      let A := if d <? 0 then S else d in
      bi_IsProofOfStake prev = f /\ bi_IsProofOfStake prevprev = f /\
      bn_val (SetCompact c) = compact_trunc (new_target limit (compact_val (bi_nBits prev)) S A) /\
      (A = S -> bn_val (SetCompact c) = compact_trunc (Z.min limit (compact_val (bi_nBits prev)))).
Proof.
  intros Hc limit.
  assert (Hlim : 0 <= limit < 2 ^ 256)
    by (unfold limit, bnProofOfStakeLimit, bnProofOfWorkLimit; destruct f, fTestNet; by apply target_limit_val).
  set (bnl := if negb f then bnProofOfWorkLimit fTestNet else bnProofOfStakeLimit fTestNet).
  assert (Hbnl : bn_val bnl = limit) by (unfold bnl, limit; by destruct f).
  assert (Hplain : 0 <= bn_val (SetCompact (GetCompact bnl)) <= limit).
  { rewrite SetCompact_GetCompact, Hbnl by (rewrite Hbnl; by apply snum_len_small). apply compact_trunc_range. lia. }
  unfold GetNextTargetRequiredV2. fold bnl. destruct chain as [|last0 chain0] eqn:Ec.
  { eexists. split; [done|]. split; [done|]. by intros. }
  rewrite <- Ec in *.
  destruct (GetLastBlockIndex chain f) as [|prev [|y pprev]] eqn:Ep.
  1, 2: eexists; split; [done|]; split; [done|]; intros; congruence.
  destruct (GetLastBlockIndex (y :: pprev) f) as [|prevprev [|z rest]] eqn:Epp.
  1, 2: eexists; split; [done|]; split; [done|]; intros; congruence.
  destruct (last_two_ok chain f last0 prev y pprev prevprev z rest) as (Ht1 & Hb1 & Hv1 & Ht3 & Hle); [done|by rewrite Ec|done..|].
  set (S := target_spacing fTestNet nBestHeight f (bi_nHeight last0) (bi_nHeight prev)).
  pose proof (target_spacing_range fTestNet nBestHeight f _ _ Hle) as HS. fold S in HS.
  unfold bi_GetBlockTime. set (d := bi_nTime prev - bi_nTime prevprev). set (A := if d <? 0 then S else d).
  assert (HA : 0 <= A < 2 ^ 32)
    by (unfold A, nTargetTimespan in *; destruct (Z.ltb_spec d 0); lia).
  destruct (retarget_spec bnl (bi_nBits prev) S A) as (c & E & Hcv); [by rewrite Hbnl|done..|].
  exists c. split; [done|]. rewrite Hcv, Hbnl. set (T := new_target limit (compact_val (bi_nBits prev)) S A).
  assert (HT : 0 <= T <= limit).
  { unfold T, new_target. split; [|lia]. apply Z.min_glb; [lia|]. pose proof HS.
    assert (1 <= nTargetTimespan / S) by (apply Z.div_le_lower_bound; lia). apply Z.div_pos; nia. }
  pose proof (compact_trunc_range T ltac:(lia)). split; [lia|].
  intros last1 prev1 y1 pprev1 prevprev1 z1 rest1 E0 [= <- <- <-] E2. rewrite Epp in E2. injection E2 as <- <- <-.
  rewrite Ec in E0. injection E0 as <-. fold S d A. split_and!.
  - by eapply GetLastBlockIndex_kind.
  - by eapply GetLastBlockIndex_kind.
  - done.
  - intros HAS. unfold T, new_target. rewrite HAS. do 2 f_equal.
    assert (0 <= nTargetTimespan / S) by (apply Z.div_pos; lia).
    replace ((nTargetTimespan / S - 1) * S + 2 * S) with ((nTargetTimespan / S + 1) * S) by lia.
    apply Z.div_mul. nia.
Qed.

(** [CheckProofOfWork] accepts a hash exactly when the target its compact form stands
    for is positive, at most the limit, and at least the hash; the trust of a block with
    a positive target [T] is [2^256 / (T + 1)] when it is staked and the limit over
    [T + 1], at least one, when it is worked for, so that a harder block never counts
    less. *)
Theorem proof_of_work_trust (fTestNet : bool) (hash : list Z) (bits : Z) (i j : CBlockIndex) :
  uint_ok WIDTH256 hash -> 0 <= bits < 2 ^ 32 -> 0 <= bi_nBits i < 2 ^ 32 -> 0 <= bi_nBits j < 2 ^ 32 ->
  let T := compact_val (bi_nBits i) in
  let limit := bn_val (bnProofOfWorkLimit fTestNet) in
  (CheckProofOfWork fTestNet hash bits = true <-> 0 < compact_val bits <= limit /\ uval hash <= compact_val bits) /\
  (0 < T -> uval <$> GetBlockTrust fTestNet i =
     Some (if bi_IsProofOfStake i then 2 ^ 256 / (T + 1) else Z.max 1 (limit / (T + 1)))) /\
  (0 < T <= compact_val (bi_nBits j) -> bi_IsProofOfStake i = bi_IsProofOfStake j ->
   forall a b, GetBlockTrust fTestNet i = Some a -> GetBlockTrust fTestNet j = Some b -> uval b <= uval a).
Proof.
  intros Hh Hb Hi Hj T limit.
  assert (Hlim : 0 <= limit < 2 ^ 256) by (unfold limit, bnProofOfWorkLimit; destruct fTestNet; by apply target_limit_val).
  split.
  { unfold CheckProofOfWork. rewrite bn_le_val, bn_gt_val, SetCompact_val, CBigNum_of_int_val by lia. fold limit.
    destruct (Z.leb_spec (compact_val bits) 0), (Z.ltb_spec limit (compact_val bits)); cbn [orb]; try (split; [done|lia]).
    rewrite (op_gt_spec WIDTH256), getuint256_val, SetCompact_val, Z.abs_eq, Z.mod_small by (done || lia || apply getuint256_ok).
    rewrite negb_true_iff, Z.ltb_ge. lia. }
  assert (Htr : forall k, 0 <= bi_nBits k < 2 ^ 32 -> 0 < compact_val (bi_nBits k) ->
    uval <$> GetBlockTrust fTestNet k = Some (if bi_IsProofOfStake k then 2 ^ 256 / (compact_val (bi_nBits k) + 1)
      else Z.max 1 (limit / (compact_val (bi_nBits k) + 1)))).
  { intros k Hk Hpos. apply GetBlockTrust_val; done. }
  split; [by apply Htr|]. intros Hij Hkind a b Ea Eb.
  assert (Ha := Htr i Hi ltac:(fold T; lia)). assert (Hbb := Htr j Hj ltac:(lia)). rewrite Ea in Ha. rewrite Eb in Hbb.
  injection Ha as ->. injection Hbb as ->. rewrite <- Hkind. fold T.
  destruct (bi_IsProofOfStake i); [|apply Z.max_le_compat_l]; apply Z.div_le_compat_l; lia.
Qed.
End facts.

(** ** Witnesses: four worked blocks, two minutes six seconds apart *)

Definition sample_index (nHeight nTime : Z) : CBlockIndex :=
  mkIndex (assign64 WIDTH256 nHeight) 1 (nHeight * 300) (assign64 WIDTH256 nHeight) nHeight 0 0 0 0 0 COutPoint_null 0
    (assign64 WIDTH256 0) 4 (assign64 WIDTH256 0) nTime 0x1e00ffff 0.
Definition sample_chain : list CBlockIndex :=
  (fun h => sample_index h (1500000000 + 126 * h)) <$> [3; 2; 1; 0].

Lemma sample_chain_ok : chain_ok sample_chain.
Proof.
  intros i x Hx. do 4 (destruct i as [|i]; [injection Hx as <-; vm_compute; split_and!; congruence|]). done.
Qed.

Lemma next_target_rule_witness :
  exists c, GetNextTargetRequiredV2 (B := ZBN) false 6000000 sample_chain false = Some c /\
    bn_val (SetCompact (B := ZBN) c) = compact_val 0x1e00ffff.
Proof.
  destruct (next_target_rule (B := ZBN) false 6000000 sample_chain false sample_chain_ok) as (c & E & _ & Hr).
  exists c. split; [exact E|].
  destruct (Hr _ _ _ _ _ _ _ eq_refl eq_refl eq_refl) as (_ & _ & _ & Hs). rewrite Hs; vm_compute; reflexivity.
Defined.

Lemma proof_of_work_trust_witness :
  CheckProofOfWork (B := ZBN) false (assign64 WIDTH256 1000) 0x1e00ffff = true.
Proof.
  destruct (proof_of_work_trust (B := ZBN) false (assign64 WIDTH256 1000) 0x1e00ffff (sample_index 0 0) (sample_index 1 1))
    as ([_ Hw] & _); [apply uint_ok_assign64; lia|cbn; lia..|]. apply Hw.
  vm_compute. split_and!; congruence.
Defined.
