(* ===== verification/Rewards.v ===== *)
(** * Block rewards: [GetProofOfWorkReward], [GetProofOfStakeReward] of [main.cpp]

    The yearly rate of a stake is found by bisection on [CBigNum]s; the amount is
    computed in 64-bit signed integers.  [None] is the exception of a division by
    zero, which does not happen. *)

From S2P Require Import Prelude Uint256 BigNum Serialize Transaction TxRules Chain.

Definition MAX_MINT_PROOF_OF_WORK : Z := 5 * COIN.
Definition MAX_MINT_PROOF_OF_STAKE : Z := 10 * CENT.
Definition MAX_MINT_PROOF_OF_STAKE_FIX : Z := 1000 * CENT.
Definition MAX_MINT_PROOF_OF_STAKE_FIX2 : Z := 100 * CENT.
Definition PROTOCOL_SWITCH_TIME : Z := 1371686400.
Definition REWARD_SWITCH_TIME : Z := 1369432800.
Definition POS_REWARD_SWITCH_TIME : Z := 1378684800.
Definition POS_REWARD_FIX_TIME : Z := 1383177600.
Definition POS_REWARD_FIX_TIME2 : Z := 1383606000.
Definition VERSION_2_0_SWITCH_TIME : Z := 1505509200.
Definition VERSION_2_0_SWITCH_TIME_TESTNET : Z := 1505002972.

Definition GetProofOfWorkReward : Z := 5 * COIN.

Section rewards.
Context {B : BNOps}.

(** [while (bnLowerBound + CENT <= bnUpperBound)]: [above] is the test of the body.
    The bounds are at most [2^24] apart at the start, so that 32 rounds are enough. *)
Fixpoint reward_search (fuel : nat) (above : BIGNUM -> bool) (bnLowerBound bnUpperBound : BIGNUM) : option BIGNUM :=
  match fuel with
  | O => Some bnUpperBound
  | S fuel =>
      if bn_le (bn_plus bnLowerBound (CBigNum_of_long CENT)) bnUpperBound then
        bnMidValue ← bn_quot (bn_plus bnLowerBound bnUpperBound) (CBigNum_of_int 2);
        if above bnMidValue then reward_search fuel above bnLowerBound bnMidValue
        else reward_search fuel above bnMidValue bnUpperBound
      else Some bnUpperBound
  end.

Definition search_fuel : nat := 32.

(** The tests of the loops: the fourth power in versions 1 and 2, the sixth in 3 *)
Definition above4 (bnLimit bnTargetLimit bnTarget bnMidValue : BIGNUM) : bool :=
  bn_gt
    (bn_mult (bn_mult (bn_mult (bn_mult bnMidValue bnMidValue) bnMidValue) bnMidValue) bnTargetLimit)
    (bn_mult (bn_mult (bn_mult (bn_mult bnLimit bnLimit) bnLimit) bnLimit) bnTarget).
Definition above6 (bnLimit bnTargetLimit bnTarget bnMidValue : BIGNUM) : bool :=
  let six x := bn_mult (bn_mult (bn_mult (bn_mult (bn_mult x x) x) x) x) x in
  bn_gt (bn_mult (six bnMidValue) bnTargetLimit) (bn_mult (six bnLimit) bnTarget).

(** [bnTargetLimit] of all versions *)
Definition stake_target_limit (fTestNet : bool) : BIGNUM :=
  SetCompact (GetCompact (bnProofOfStakeLimit fTestNet)).

(** [(nCoinAge * 33 * nRewardCoinYear) / (365 * 33 + 8)] *)
Definition stake_subsidy (nCoinAge nRewardCoinYear : Z) : Z :=
  Z.quot (i64 (i64 (nCoinAge * 33) * nRewardCoinYear)) (365 * 33 + 8).

Definition GetProofOfStakeRewardV1 (fTestNet : bool) (nCoinAge nBits nTime : Z) (bCoinYearOnly : bool) : option Z :=
  nRewardCoinYear ←
    (if fTestNet || (PROTOCOL_SWITCH_TIME <? nTime) then
       let nRewardCoinYearLimit :=
         if fTestNet || (POS_REWARD_FIX_TIME2 <? nTime) then MAX_MINT_PROOF_OF_STAKE_FIX2
         else if fTestNet || (POS_REWARD_FIX_TIME <? nTime) then MAX_MINT_PROOF_OF_STAKE_FIX
         else MAX_MINT_PROOF_OF_STAKE in
       let bnRewardCoinYearLimit := CBigNum_of_long nRewardCoinYearLimit in
       bnUpperBound ← reward_search search_fuel
         (above4 bnRewardCoinYearLimit (stake_target_limit fTestNet) (SetCompact nBits))
         (CBigNum_of_long (10 * CENT)) bnRewardCoinYearLimit;
       let nRewardCoinYear := i64 (getuint64 bnUpperBound) in
       Some (if POS_REWARD_SWITCH_TIME <? nTime then Z.min nRewardCoinYear nRewardCoinYearLimit
             else Z.min (i64 (Z.quot nRewardCoinYear CENT * CENT)) nRewardCoinYearLimit)
     else Some 150);
  if bCoinYearOnly then Some nRewardCoinYear
  else
    Some (if POS_REWARD_SWITCH_TIME <? nTime then stake_subsidy nCoinAge nRewardCoinYear
          else i64 (Z.quot (i64 (nCoinAge * 33)) (365 * 33 + 8) * nRewardCoinYear)).

(** Versions 2 and 3: the rate, whole cents, and the amount, at most [nSubsidyLimit] *)
Definition capped_reward (bnUpperBound : BIGNUM) (nCoinAge : Z) (bCoinYearOnly : bool) : Z :=
  let nRewardCoinYear := i64 (getuint64 bnUpperBound) in
  let nRewardCoinYear := Z.min (i64 (Z.quot nRewardCoinYear CENT * CENT)) MAX_MINT_PROOF_OF_STAKE_FIX2 in
  if bCoinYearOnly then nRewardCoinYear
  else Z.min (stake_subsidy nCoinAge nRewardCoinYear) (250 * COIN).

Definition GetProofOfStakeRewardV2 (fTestNet : bool) (nCoinAge nBits nTime : Z) (bCoinYearOnly : bool) : option Z :=
  let bnRewardCoinYearLimit := CBigNum_of_long MAX_MINT_PROOF_OF_STAKE_FIX2 in
  bnUpperBound ← reward_search search_fuel
    (above4 bnRewardCoinYearLimit (stake_target_limit fTestNet) (SetCompact nBits))
    (CBigNum_of_long (10 * CENT)) bnRewardCoinYearLimit;
  Some (capped_reward bnUpperBound nCoinAge bCoinYearOnly).

Definition GetProofOfStakeRewardV3 (fTestNet : bool) (nCoinAge nBits nTime : Z) (bCoinYearOnly : bool) : option Z :=
  let bnRewardCoinYearLimit := CBigNum_of_long MAX_MINT_PROOF_OF_STAKE_FIX2 in
  bnUpperBound ← reward_search search_fuel
    (above6 bnRewardCoinYearLimit (stake_target_limit fTestNet) (SetCompact nBits))
    (CBigNum_of_long (20 * CENT)) bnRewardCoinYearLimit;
  Some (capped_reward bnUpperBound nCoinAge bCoinYearOnly).

Definition GetProofOfStakeReward (fTestNet : bool) (nCoinAge nBits nTime : Z) (bCoinYearOnly : bool) : option Z :=
  if (if fTestNet then VERSION_2_0_SWITCH_TIME_TESTNET else VERSION_2_0_SWITCH_TIME) <? nTime then
    GetProofOfStakeRewardV3 fTestNet nCoinAge nBits nTime bCoinYearOnly
  else if VERSION1_5_SWITCH_TIME <? nTime then GetProofOfStakeRewardV2 fTestNet nCoinAge nBits nTime bCoinYearOnly
  else GetProofOfStakeRewardV1 fTestNet nCoinAge nBits nTime bCoinYearOnly.
End rewards.

(** ** Lemmas *)

Section facts.
Context {B : BNOps} {BL : BNLaws B}.

(** What bisection leaves: an upper bound that is the first one or above, with a
    lower one less than a cent away that is the first one or not above *)
Definition bisected (above : Z -> Prop) (lower upper u : Z) : Prop :=
  lower <= u <= upper /\ (u = upper \/ above u) /\
  exists l, lower <= l <= u /\ u < l + CENT /\ (l = lower \/ ~ above l).

Lemma reward_search_spec (P : Z -> Prop) (above : BIGNUM -> bool) fuel lower upper :
  (forall x, above x = true <-> P (bn_val x)) ->
  bn_val lower <= bn_val upper -> 0 <= bn_val lower -> bn_val upper - bn_val lower <= (CENT - 1) * 2 ^ Z.of_nat fuel ->
  exists u, reward_search fuel above lower upper = Some u /\ bisected P (bn_val lower) (bn_val upper) (bn_val u).
Proof.
  intros HP. revert lower upper. induction fuel as [|fuel IH]; intros lower upper Hle H0 Hw.
  { exists upper. split; [done|]. split; [lia|]. split; [by left|]. exists (bn_val lower). split; [lia|].
    split; [change (2 ^ Z.of_nat 0) with 1 in Hw; lia|by left]. }
  cbn [reward_search]. rewrite bn_le_val. unfold bn_plus at 1.
  rewrite BN_add_val, CBigNum_of_long_val by (unfold CENT; lia).
  destruct (Z.leb_spec (bn_val lower + CENT) (bn_val upper)) as [Hc|Hc].
  2: { exists upper. split; [done|]. split; [lia|]. split; [by left|]. exists (bn_val lower). split; [lia|].
       split; [lia|by left]. }
  destruct (bn_quot_val (bn_plus lower upper) (CBigNum_of_int 2)) as (mid & -> & Hm);
    [rewrite CBigNum_of_int_val; lia|]. cbn [mbind option_bind].
  unfold bn_plus in Hm. rewrite BN_add_val, CBigNum_of_int_val, Z.quot_div_nonneg in Hm by lia.
  rewrite Nat2Z.inj_succ, Z.pow_succ_r in Hw by lia. unfold CENT in *.
  pose proof (Z.div_mod (bn_val lower + bn_val upper) 2 ltac:(lia)). pose proof (Z.mod_pos_bound (bn_val lower + bn_val upper) 2 ltac:(lia)).
  destruct (above mid) eqn:Ea.
  - destruct (IH lower mid) as (u & E & Hu1 & Hu2 & l & Hl); [lia..|]. exists u. split; [done|]. split; [lia|].
    split; [|exists l; intuition lia]. right. destruct Hu2 as [->|?]; [by apply HP|done].
  - destruct (IH mid upper) as (u & E & Hu1 & Hu2 & l & Hl1 & Hl2 & Hl3); [lia..|]. exists u. split; [done|]. split; [lia|].
    split; [tauto|]. exists l. split; [lia|]. split; [lia|]. right. destruct Hl3 as [->|?]; [|done].
    rewrite <- HP, Ea. done.
Qed.

Lemma above4_spec R TL T x :
  above4 R TL T x = true <-> bn_val R ^ 4 * bn_val T < bn_val x ^ 4 * bn_val TL.
Proof.
  unfold above4, bn_mult. rewrite bn_gt_val, !BN_mul_val, Z.ltb_lt.
  replace (bn_val R ^ 4) with (bn_val R * bn_val R * bn_val R * bn_val R) by ring.
  replace (bn_val x ^ 4) with (bn_val x * bn_val x * bn_val x * bn_val x) by ring. done.
Qed.

Lemma above6_spec R TL T x :
  above6 R TL T x = true <-> bn_val R ^ 6 * bn_val T < bn_val x ^ 6 * bn_val TL.
Proof.
  unfold above6, bn_mult. rewrite bn_gt_val, !BN_mul_val, Z.ltb_lt.
  replace (bn_val R ^ 6) with (bn_val R * bn_val R * bn_val R * bn_val R * bn_val R * bn_val R) by ring.
  replace (bn_val x ^ 6) with (bn_val x * bn_val x * bn_val x * bn_val x * bn_val x * bn_val x) by ring. done.
Qed.

(** The largest coin age, in coin days, whose reward is computed without overflow *)
Definition max_coin_age : Z := 279000000000.

Lemma capped_reward_val (u : BIGNUM) (k nCoinAge : Z) :
  0 <= k -> k * CENT <= bn_val u <= MAX_MINT_PROOF_OF_STAKE_FIX2 -> 0 <= nCoinAge <= max_coin_age ->
  let r := bn_val u / CENT * CENT in
  k * CENT <= r <= MAX_MINT_PROOF_OF_STAKE_FIX2 /\ capped_reward u nCoinAge true = r /\
  capped_reward u nCoinAge false = Z.min (nCoinAge * 33 * r / (365 * 33 + 8)) (250 * COIN).
Proof.
  intros Hk Hu Ha r. unfold MAX_MINT_PROOF_OF_STAKE_FIX2, CENT, COIN, max_coin_age in *.
  assert (Hr : k * 10000 <= r <= bn_val u).
  { unfold r. pose proof (Z.mul_div_le (bn_val u) 10000 ltac:(lia)).
    assert (k <= bn_val u / 10000) by (apply Z.div_le_lower_bound; lia). lia. }
  assert (E : i64 (getuint64 u) = bn_val u)
    by (rewrite getuint64_val, Z.abs_eq, Z.mod_small by lia; apply swrap_small; lia).
  assert (E2 : Z.min (i64 (Z.quot (bn_val u) 10000 * 10000)) (100 * 10000) = r)
    by (rewrite Z.quot_div_nonneg by lia; fold r; rewrite swrap_small by lia; lia).
  split; [lia|]. unfold capped_reward, MAX_MINT_PROOF_OF_STAKE_FIX2, CENT, COIN. rewrite E, E2. split; [done|].
  unfold stake_subsidy. rewrite (swrap_small 64 (nCoinAge * 33)), swrap_small, Z.quot_div_nonneg by nia. done.
Qed.

(** ** Claims *)

(** A reward function that finds its rate by bisection for the power [p] *)
Definition reward_curve (V : bool -> Z -> Z -> Z -> bool -> option Z) (p k : Z) (fTestNet : bool)
    (nCoinAge nBits nTime : Z) : Prop :=
  let R := MAX_MINT_PROOF_OF_STAKE_FIX2 in
  exists u, let r := u / CENT * CENT in
    bisected (fun x => R ^ p * compact_val nBits < x ^ p * bn_val (stake_target_limit fTestNet)) (k * CENT) R u /\
    k * CENT <= r <= R /\ V fTestNet nCoinAge nBits nTime true = Some r /\
    V fTestNet nCoinAge nBits nTime false = Some (Z.min (nCoinAge * 33 * r / (365 * 33 + 8)) (250 * COIN)).

(** C32: the stake reward: the search for the yearly rate ends and leaves, to within a
    cent, the rate [x] between the floor (10% in version 2, 20% in version 3) and 100%
    at which [(100% / x)^p] is the limit of the target over the target, for the fourth
    power in version 2 and the sixth in version 3; the rate is rounded down to whole
    cents, and for coin ages up to 279 thousand million coin days the reward is the
    pro-rata part of it, without overflow, and at most 250 coins. *)
Theorem stake_reward_curve (fTestNet : bool) (nCoinAge nBits nTime : Z) :
  0 <= nBits < 2 ^ 32 -> 0 <= nCoinAge <= max_coin_age ->
  reward_curve GetProofOfStakeRewardV3 6 20 fTestNet nCoinAge nBits nTime /\
  reward_curve GetProofOfStakeRewardV2 4 10 fTestNet nCoinAge nBits nTime.
Proof.
  intros Hb Ha. set (limit := CBigNum_of_long MAX_MINT_PROOF_OF_STAKE_FIX2).
  assert (HR : bn_val limit = MAX_MINT_PROOF_OF_STAKE_FIX2) by (apply CBigNum_of_long_val; done).
  assert (Hlo : forall k, 0 <= k <= 100 -> bn_val (CBigNum_of_long (k * CENT)) = k * CENT)
    by (intros; apply CBigNum_of_long_val; unfold CENT; lia).
  split.
  - destruct (reward_search_spec (fun x => bn_val limit ^ 6 * bn_val (SetCompact nBits) < x ^ 6 * bn_val (stake_target_limit fTestNet))
      (above6 limit (stake_target_limit fTestNet) (SetCompact nBits)) search_fuel (CBigNum_of_long (20 * CENT)) limit) as (u & E & Hu);
      [intros; apply above6_spec|rewrite ?HR, ?Hlo by lia; done..|].
    rewrite HR, Hlo, SetCompact_val in Hu by lia.
    destruct (capped_reward_val u 20 nCoinAge) as (Hr & E1 & E2); [lia|apply Hu|done|].
    exists (bn_val u). unfold GetProofOfStakeRewardV3. fold limit. rewrite E. cbn [mbind option_bind]. rewrite E1, E2. done.
  - destruct (reward_search_spec (fun x => bn_val limit ^ 4 * bn_val (SetCompact nBits) < x ^ 4 * bn_val (stake_target_limit fTestNet))
      (above4 limit (stake_target_limit fTestNet) (SetCompact nBits)) search_fuel (CBigNum_of_long (10 * CENT)) limit) as (u & E & Hu);
      [intros; apply above4_spec|rewrite ?HR, ?Hlo by lia; done..|].
    rewrite HR, Hlo, SetCompact_val in Hu by lia.
    destruct (capped_reward_val u 10 nCoinAge) as (Hr & E1 & E2); [lia|apply Hu|done|].
    exists (bn_val u). unfold GetProofOfStakeRewardV2. fold limit. rewrite E. cbn [mbind option_bind]. rewrite E1, E2. done.
Qed.
End facts.

(** ** Witness: a coin age of a million coin days at a sixty-fourth of the limit *)

Lemma stake_reward_curve_witness :
  GetProofOfStakeRewardV3 (B := ZBN) false 1000 0x1d03ffff 1600000000 true = Some (50 * CENT) /\
  reward_curve (B := ZBN) GetProofOfStakeRewardV3 6 20 false 1000 0x1d03ffff 1600000000.
Proof.
  split; [vm_compute; reflexivity|].
  refine (proj1 (stake_reward_curve (B := ZBN) false 1000 0x1d03ffff 1600000000 _ _)); unfold max_coin_age; lia.
Defined.
