(* ===== verification/BlockRules.v ===== *)
(** * The rules a block obeys on its own: [CBlock::CheckBlock] of [main.cpp]

    A check returns [Done], [Fail] with what [DoS] adds to the score of the block, or
    [Throws] when [GetValueOut] throws.  The methods fill the memoised hash and the
    merkle tree of the block, which is handed on. *)

From S2P Require Import Prelude Uint256 BigNum Serialize Hash Transaction Script Canonical.
From S2P Require Import Key SigCheck Templates KeyStore Scrypt Block TxRules Chain Rewards.

Inductive result (A : Type) := Done (a : A) | Fail (nDoS : Z) | Throws.
Arguments Done {A} _.
Arguments Fail {A} _.
Arguments Throws {A}.

(** [if (!b) return DoS(n, ...)] *)
Definition guard {A} (b : bool) (n : Z) (k : result A) : result A := if b then k else Fail n.

Section CheckBlock.
Context {B : BNOps} {H : HashOps} {E : ECOps}.

(** The size of the whole block, in 32 bits *)
Definition block_GetSerializeSize (b : CBlock) : Z :=
  u32 (u32 (80 + GetSerializeSize (vector_codec sizeof_CTransaction tx_codec) (vtx b)) +
       GetSerializeSize vch_codec (vchBlockSig b)).

Definition CheckCoinStakeTimestamp (nTimeBlock nTimeTx : Z) : bool := nTimeBlock =? nTimeTx.

(** Proof of work, when asked for *)
Definition check_pow (fTestNet fCheckPOW : bool) (b : CBlock) : bool * CBlock :=
  if fCheckPOW && IsProofOfWork b then
    let '(hash, b) := CBlock_GetHash b in (CheckProofOfWork fTestNet hash (nBits b), b)
  else (true, b).

(** The branch of a proof-of-stake block, and of its signature when asked for *)
Definition check_stake (hashGenesis : list Z) (fCheckSig : bool) (b : CBlock) : result unit * CBlock :=
  if existsb IsCoinStake (drop 2 (vtx b)) then (Fail 100, b)
  else if negb match first_outputs b with [o] => CTxOut_IsEmpty o | _ => false end then (Fail 100, b)
  else if negb (CheckCoinStakeTimestamp (GetBlockTime b) (match vtx b with _ :: tx :: _ => nTime tx | _ => 0 end)) then (Fail 50, b)
  else if fCheckSig then
    let '(ok, b) := CheckBlockSignature hashGenesis true b in (guard ok 100 (Done tt), b)
  else (Done tt, b).

(** The reward of a proof-of-work block *)
Definition check_reward (b : CBlock) (coinbase : CTransaction) : result unit :=
  match GetValueOut coinbase with
  | None => Throws
  | Some v =>
      let limit :=
        if GetBlockTime b <? REWARD_SWITCH_TIME then MAX_MINT_PROOF_OF_WORK
        else GetProofOfWorkReward - GetMinFee_default coinbase + MIN_TX_FEE in
      guard (negb (limit <? v)) 50 (Done tt)
  end.

(** The loop over the transactions *)
Fixpoint check_txs (now blocktime : Z) (txs : list CTransaction) : result unit :=
  match txs with
  | [] => Done tt
  | tx :: txs =>
      match CheckTransaction now tx with
      | Reject nDoS => Fail nDoS
      | Accept => guard (negb (blocktime <? nTime tx)) 50 (check_txs now blocktime txs)
      end
  end.

Definition unique_txs (txs : list CTransaction) : bool :=
  (size (list_to_set (CTransaction_GetHash <$> txs) : gset (list Z)) =? length txs)%nat.

Definition total_sigops (txs : list CTransaction) : Z :=
  foldl (fun n tx => u32 (n + GetLegacySigOpCount tx)) 0 txs.

(** What comes after the two branches *)
Definition check_rest (now : Z) (fCheckMerkleRoot : bool) (b : CBlock) : result unit * CBlock :=
  match check_txs now (GetBlockTime b) (vtx b) with
  | Done _ =>
      if negb (unique_txs (vtx b)) then (Fail 100, b)
      else if MAX_BLOCK_SIGOPS <? total_sigops (vtx b) then (Fail 100, b)
      else if fCheckMerkleRoot then
        let '(root, b) := BuildMerkleTree b in
        (guard (negb (op_ne (hashMerkleRoot b) root)) 100 (Done tt), b)
      else (Done tt, b)
  | r => (r, b)
  end.

Definition CheckBlock (fTestNet : bool) (now : Z) (hashGenesis : list Z) (fCheckPOW fCheckMerkleRoot fCheckSig : bool)
    (b : CBlock) : result unit * CBlock :=
  match vtx b with
  | [] => (Fail 100, b)
  | coinbase :: others =>
      if (MAX_BLOCK_SIZE <? Z.of_nat (length (vtx b))) || (MAX_BLOCK_SIZE <? block_GetSerializeSize b) then (Fail 100, b)
      else
        let '(ok, b) := check_pow fTestNet fCheckPOW b in
        if negb ok then (Fail 50, b)
        else if FutureDrift now <? GetBlockTime b then (Fail 0, b)
        else if negb (IsCoinBase coinbase) then (Fail 100, b)
        else if existsb IsCoinBase others then (Fail 100, b)
        else if FutureDrift (nTime coinbase) <? GetBlockTime b then (Fail 50, b)
        else
          let '(r, b) :=
            if IsProofOfStake b then check_stake hashGenesis fCheckSig b else (check_reward b coinbase, b) in
          match r with
          | Done _ => check_rest now fCheckMerkleRoot b
          | r => (r, b)
          end
  end.
End CheckBlock.

(** ** Lemmas *)

Section facts.
Context {B : BNOps} {H : HashOps} {E : ECOps}.

(** The blocks differ at most in what is filled in for later *)
Definition same_block (b b' : CBlock) : Prop :=
  block_header b' = block_header b /\ vtx b' = vtx b /\ vchBlockSig b' = vchBlockSig b /\ (cache_ok b -> cache_ok b').

Lemma same_block_refl b : same_block b b.
Proof. done. Qed.

Lemma same_block_trans b1 b2 b3 : same_block b1 b2 -> same_block b2 b3 -> same_block b1 b3.
Proof. unfold same_block. intuition congruence. Qed.

Lemma GetHash_same b : same_block b (CBlock_GetHash b).2.
Proof.
  unfold same_block. unfold CBlock_GetHash at 1 2 3. split_and!; [by case_goal..|]. intros Hc. by apply GetHash_spec.
Qed.

Lemma same_block_hash b b' : cache_ok b -> same_block b b' -> (CBlock_GetHash b').1 = scrypt_blockhash (header_bytes b).
Proof.
  intros Hc (Hh & _ & _ & Hc'). destruct (GetHash_spec b' (Hc' Hc)) as (-> & _). by rewrite (header_bytes_ext b' b).
Qed.

Lemma check_pow_spec fTestNet f b :
  cache_ok b ->
  let r := check_pow fTestNet f b in
  same_block b r.2 /\
  (r.1 = true <-> (f = true -> IsProofOfStake b = false ->
     CheckProofOfWork fTestNet (scrypt_blockhash (header_bytes b)) (nBits b) = true)).
Proof.
  intros Hc r. unfold r, check_pow, IsProofOfWork. destruct f; cbn [andb]; [|split; [done|naive_solver]].
  destruct (IsProofOfStake b) eqn:Ep; cbn [negb]; [split; [done|naive_solver]|].
  pose proof (GetHash_same b) as Hs. pose proof (same_block_hash b b Hc (same_block_refl b)) as Hh.
  destruct (CBlock_GetHash b) as [h b']. cbn [fst snd] in *. split; [done|]. subst h.
  assert (nBits b' = nBits b) as -> by (destruct Hs as (Hs & _); unfold block_header in Hs; congruence). naive_solver.
Qed.

Lemma CheckBlockSignature_same g f b : same_block b (CheckBlockSignature g f b).2.
Proof.
  pose proof (GetHash_same b) as Hs. unfold CheckBlockSignature. destruct (CBlock_GetHash b) as [h b']. cbn [snd] in Hs.
  repeat case_goal; exact Hs.
Qed.

Lemma check_txs_spec now t txs :
  check_txs now t txs = Done tt <-> Forall (fun tx => tx_rules now tx /\ nTime tx <= t) txs.
Proof.
  induction txs as [|tx txs IH]; cbn [check_txs]; [split; [constructor|done]|]. rewrite Forall_cons, <- IH.
  pose proof (CheckTransaction_accept now tx) as Hr.
  destruct (CheckTransaction now tx); unfold guard.
  - destruct (Z.ltb_spec t (nTime tx)); cbn [negb]; [split; [done|intros [[_ ?] _]; lia]|]. tauto.
  - split; [done|]. intros [[Ht _] _]. apply Hr in Ht. done.
Qed.

Lemma list_to_set_NoDup (l : list (list Z)) :
  (size (list_to_set l : gset (list Z)) <= length l)%nat /\
  (size (list_to_set l : gset (list Z)) = length l <-> NoDup l).
Proof.
  induction l as [|x l [Hle IH]]; [split; [done|]; split; [constructor|done]|]. cbn [list_to_set length].
  rewrite size_union_alt, size_singleton, NoDup_cons, <- IH.
  assert ((list_to_set l : gset (list Z)) ∖ {[x]} ⊆ list_to_set l) as Hs by set_solver.
  pose proof (subseteq_size _ _ Hs). destruct (decide (x ∈ l)) as [Hx|Hx].
  - assert (size ((list_to_set l : gset (list Z)) ∖ {[x]}) < size (list_to_set l : gset (list Z)))%nat
      by (apply subset_size; set_solver). split; [lia|]. split; [lia|naive_solver].
  - assert ((list_to_set l : gset (list Z)) ∖ {[x]} = list_to_set l) as -> by set_solver.
    split; [lia|]. split; [intros ?; split; [done|lia]|intros [_ ?]; lia].
Qed.

Lemma unique_txs_spec txs : unique_txs txs = true <-> NoDup (CTransaction_GetHash <$> txs).
Proof.
  unfold unique_txs. rewrite Nat.eqb_eq, <- (length_fmap CTransaction_GetHash txs). apply list_to_set_NoDup.
Qed.

(** What a worked block may pay out *)
Definition reward_rule (cb : CTransaction) : Prop := exists v, GetValueOut cb = Some v /\ v <= 5 * COIN.

Lemma check_reward_spec b cb : check_reward b cb = Done tt <-> reward_rule cb.
Proof.
  unfold check_reward, reward_rule.
  assert (Hl : (if GetBlockTime b <? REWARD_SWITCH_TIME then MAX_MINT_PROOF_OF_WORK
    else GetProofOfWorkReward - GetMinFee_default cb + MIN_TX_FEE) = 5 * COIN) by (case_goal; reflexivity).
  destruct (GetValueOut cb) as [v|]; [|naive_solver]. rewrite Hl. unfold guard.
  destruct (Z.ltb_spec (5 * COIN) v); cbn [negb]; [|naive_solver]. split; [done|]. intros (w & [= <-] & ?). lia.
Qed.

Lemma CheckBlockSignature_ext g f b b' :
  cache_ok b -> same_block b b' -> (CheckBlockSignature g f b').1 = (CheckBlockSignature g f b).1.
Proof.
  intros Hc Hs. pose proof (same_block_hash b b' Hc Hs) as E1. pose proof (same_block_hash b b Hc (same_block_refl b)) as E2.
  pose proof (GetHash_same b') as H'. pose proof (same_block_trans _ _ _ Hs H') as (_ & Hv' & Hg' & _).
  pose proof (GetHash_same b) as (_ & Hv & Hg & _). unfold CheckBlockSignature.
  destruct (CBlock_GetHash b') as [h' c'], (CBlock_GetHash b) as [h c]. cbn [fst snd] in *. subst h' h.
  unfold first_outputs. rewrite Hv, Hv', Hg, Hg'. repeat case_goal; done.
Qed.

(** The rules of a proof-of-stake block *)
Record stake_rules (g : list Z) (fCheckSig : bool) (b : CBlock) : Prop := {
  stake_single : Forall (fun tx => IsCoinStake tx = false) (drop 2 (vtx b));
  stake_coinbase : exists o, first_outputs b = [o] /\ CTxOut_IsEmpty o = true;
  stake_time : forall cb tx txs, vtx b = cb :: tx :: txs -> nTime tx = GetBlockTime b;
  stake_sig : fCheckSig = true -> (CheckBlockSignature g true b).1 = true
}.

Lemma check_stake_spec g f b b' :
  cache_ok b -> same_block b b' -> IsProofOfStake b = true ->
  same_block b (check_stake g f b').2 /\ ((check_stake g f b').1 = Done tt <-> stake_rules g f b).
Proof.
  intros Hc Hs Hp. pose proof (same_block_trans _ _ _ Hs (CheckBlockSignature_same g true b')) as Hs2.
  pose proof (CheckBlockSignature_ext g true b b' Hc Hs) as Hsig. destruct Hs as (Hh & Hv & Hr) eqn:Es. clear Es.
  assert (Ht : GetBlockTime b' = GetBlockTime b) by (unfold GetBlockTime, block_header in *; congruence).
  unfold check_stake, CheckCoinStakeTimestamp, first_outputs. rewrite Hv, Ht. unfold IsProofOfStake in Hp.
  destruct (vtx b) as [|cb [|tx txs]] eqn:Ev; [done..|].
  assert (Hiff : stake_rules g f b <->
    existsb IsCoinStake txs = false /\ match vout cb with [o] => CTxOut_IsEmpty o | _ => false end = true /\
    GetBlockTime b = nTime tx /\ (f = true -> (CheckBlockSignature g true b).1 = true)).
  { rewrite existsb_false. split.
    - intros [H1 (o & H2 & H3) H4 H5]. unfold first_outputs in H2. rewrite Ev in *. rewrite H2. split_and!; [done|done| |done].
      symmetry. by eapply H4.
    - intros (H1 & H2 & H3 & H4). split; unfold first_outputs; rewrite ?Ev; [done| | |done].
      + destruct (vout cb) as [|o []]; try done. by exists o.
      + intros ? ? ? [= <- <- <-]. done. }
  rewrite Hiff. cbn [drop]. rewrite drop_0.
  destruct (existsb IsCoinStake txs); [split; [exact Hs|naive_solver]|].
  destruct (match vout cb with [o] => CTxOut_IsEmpty o | _ => false end); cbn [negb]; [|split; [exact Hs|naive_solver]].
  destruct (Z.eqb_spec (GetBlockTime b) (nTime tx)); cbn [negb]; [|split; [exact Hs|naive_solver]].
  destruct f; [|split; [exact Hs|naive_solver]]. destruct (CheckBlockSignature g true b') as [ok b2]. cbn [fst snd] in *.
  split; [done|]. rewrite <- Hsig. unfold guard. destruct ok; naive_solver.
Qed.

Lemma check_rest_spec now f b b' :
  same_block b b' ->
  ((check_rest now f b').1 = Done tt <->
   Forall (fun tx => tx_rules now tx /\ nTime tx <= GetBlockTime b) (vtx b) /\ NoDup (CTransaction_GetHash <$> vtx b) /\
   total_sigops (vtx b) <= MAX_BLOCK_SIGOPS /\ (f = true -> op_eq (hashMerkleRoot b) (BuildMerkleTree b).1 = true)).
Proof.
  intros (Hh & Hv & _). unfold check_rest, block_header in *.
  assert (GetBlockTime b' = GetBlockTime b) as -> by (unfold GetBlockTime; congruence).
  assert (Hm : hashMerkleRoot (BuildMerkleTree b').2 = hashMerkleRoot b /\ (BuildMerkleTree b').1 = (BuildMerkleTree b).1).
  { unfold BuildMerkleTree. rewrite Hv. cbn. split; [congruence|done]. }
  rewrite Hv, <- check_txs_spec, <- unique_txs_spec.
  destruct (check_txs now (GetBlockTime b) (vtx b)) as [[]| |]; [|naive_solver..].
  destruct (unique_txs (vtx b)); cbn [negb]; [|naive_solver].
  destruct (Z.ltb_spec MAX_BLOCK_SIGOPS (total_sigops (vtx b))); [split; [done|lia]|].
  destruct f; [|naive_solver]. destruct (BuildMerkleTree b') as [root b2]. cbn [fst snd] in *. destruct Hm as [-> ->].
  unfold guard, op_ne. rewrite negb_involutive. destruct (op_eq _ _); naive_solver.
Qed.

Lemma fail_if (c : bool) n b (k : result unit * CBlock) :
  (if c then (Fail n, b) else k).1 = Done tt <-> c = false /\ k.1 = Done tt.
Proof. destruct c; naive_solver. Qed.

Lemma check_kind_spec g f b b' cb others :
  cache_ok b -> same_block b b' -> vtx b = cb :: others ->
  let k := if IsProofOfStake b' then check_stake g f b' else (check_reward b' cb, b') in
  same_block b k.2 /\ (k.1 = Done tt <-> if IsProofOfStake b then stake_rules g f b else reward_rule cb).
Proof.
  intros Hc Hs Hv k. unfold k. assert (IsProofOfStake b' = IsProofOfStake b) as ->.
  { unfold IsProofOfStake. destruct Hs as (_ & -> & _). done. }
  destruct (IsProofOfStake b) eqn:Ep; [by apply check_stake_spec|]. split; [done|]. by apply check_reward_spec.
Qed.

(** The checks in their order *)
Lemma CheckBlock_same fTestNet now g fPOW fMerkle fSig b : cache_ok b -> same_block b (CheckBlock fTestNet now g fPOW fMerkle fSig b).2.
Proof.
  intros Hc. unfold CheckBlock. destruct (vtx b) as [|cb others] eqn:Ev; [done|]. case_goal; [done|].
  destruct (check_pow_spec fTestNet fPOW b Hc) as [Hs _]. destruct (check_pow fTestNet fPOW b) as [[] b1]; cbn [negb snd] in *; [|done].
  repeat (case_goal; [done|]). destruct (check_kind_spec g fSig b b1 cb others Hc Hs Ev) as [Hk _].
  destruct (if IsProofOfStake b1 then _ else _) as [[[]| |] b2]; cbn [snd] in *; [|done..].
  unfold check_rest. destruct (check_txs _ _ _); [|done..]. destruct (negb (unique_txs _)); [done|]. destruct (MAX_BLOCK_SIGOPS <? _); [done|].
  destruct fMerkle; [|done].
  eapply same_block_trans; [exact Hk|]. by unfold same_block, BuildMerkleTree.
Qed.

Lemma CheckBlock_steps fTestNet now g fPOW fMerkle fSig b :
  cache_ok b ->
  (vtx b = [] -> (CheckBlock fTestNet now g fPOW fMerkle fSig b).1 = Fail 100) /\
  forall cb others, vtx b = cb :: others ->
  ((CheckBlock fTestNet now g fPOW fMerkle fSig b).1 = Done tt <->
   Z.of_nat (length (vtx b)) <= MAX_BLOCK_SIZE /\ block_GetSerializeSize b <= MAX_BLOCK_SIZE /\
   (fPOW = true -> IsProofOfStake b = false -> CheckProofOfWork fTestNet (scrypt_blockhash (header_bytes b)) (nBits b) = true) /\
   GetBlockTime b <= FutureDrift now /\ IsCoinBase cb = true /\ Forall (fun tx => IsCoinBase tx = false) others /\
   GetBlockTime b <= FutureDrift (nTime cb) /\
   (if IsProofOfStake b then stake_rules g fSig b else reward_rule cb) /\
   Forall (fun tx => tx_rules now tx /\ nTime tx <= GetBlockTime b) (vtx b) /\ NoDup (CTransaction_GetHash <$> vtx b) /\
   total_sigops (vtx b) <= MAX_BLOCK_SIGOPS /\ (fMerkle = true -> op_eq (hashMerkleRoot b) (BuildMerkleTree b).1 = true)).
Proof.
  intros Hc. unfold CheckBlock. split; [by intros ->|]. intros cb others Ev. rewrite Ev at 1.
  destruct (check_pow_spec fTestNet fPOW b Hc) as [Hs Hpow].
  destruct (check_pow fTestNet fPOW b) as [ok b1]. cbn [fst snd] in *.
  assert (GetBlockTime b1 = GetBlockTime b) as Ht
    by (destruct Hs as (Hh & _); unfold GetBlockTime, block_header in *; congruence).
  destruct (check_kind_spec g fSig b b1 cb others Hc Hs Ev) as [Hs2 Hkind].
  destruct (if IsProofOfStake b1 then check_stake g fSig b1 else (check_reward b1 cb, b1)) as [r b2]. cbn [fst snd] in *.
  rewrite !fail_if, Ht, orb_false_iff, !negb_false_iff, !Z.ltb_ge, existsb_false, Hpow, <- Hkind, <- (check_rest_spec now fMerkle b b2 Hs2).
  destruct r as [[]| |]; naive_solver.
Qed.

(** ** Claims *)

(** The rules of a block that need no context; the flags say which of the costly
    ones are asked for *)
Record block_rules (fTestNet : bool) (now : Z) (g : list Z) (fCheckPOW fCheckMerkleRoot fCheckSig : bool) (b : CBlock) : Prop := {
  rule_block_size : Z.of_nat (length (vtx b)) <= MAX_BLOCK_SIZE /\ block_GetSerializeSize b <= MAX_BLOCK_SIZE;
  rule_pow : fCheckPOW = true -> IsProofOfStake b = false ->
    CheckProofOfWork fTestNet (scrypt_blockhash (header_bytes b)) (nBits b) = true;
  rule_block_time : GetBlockTime b <= FutureDrift now;
  rule_first : exists cb others, vtx b = cb :: others /\ IsCoinBase cb = true /\
    Forall (fun tx => IsCoinBase tx = false) others /\ GetBlockTime b <= FutureDrift (nTime cb) /\
    (IsProofOfStake b = false -> reward_rule cb);
  rule_stake : IsProofOfStake b = true -> stake_rules g fCheckSig b;
  rule_txs : Forall (fun tx => tx_rules now tx /\ nTime tx <= GetBlockTime b) (vtx b);
  rule_unique : NoDup (CTransaction_GetHash <$> vtx b);
  rule_sigops : total_sigops (vtx b) <= MAX_BLOCK_SIGOPS;
  rule_merkle : fCheckMerkleRoot = true -> op_eq (hashMerkleRoot b) (BuildMerkleTree b).1 = true
}.

(** C30: [CheckBlock] accepts a block exactly when it obeys the rules: sizes, proof of
    work, times, one coinbase in front whose reward is at most five coins when the
    block is worked for, an empty coinbase with a single signed coinstake of the same
    time when it is staked, correct and distinct transactions, the bound on signature
    operations and the merkle root. *)
Theorem CheckBlock_rules (fTestNet : bool) (now : Z) (g : list Z) (fCheckPOW fCheckMerkleRoot fCheckSig : bool) (b : CBlock) :
  cache_ok b ->
  ((CheckBlock fTestNet now g fCheckPOW fCheckMerkleRoot fCheckSig b).1 = Done tt <->
   block_rules fTestNet now g fCheckPOW fCheckMerkleRoot fCheckSig b).
Proof.
  intros Hc. destruct (CheckBlock_steps fTestNet now g fCheckPOW fCheckMerkleRoot fCheckSig b Hc) as [H0 H1].
  destruct (vtx b) as [|cb others] eqn:Ev.
  { rewrite H0 by done. split; [done|]. intros []. destruct rule_first0 as (? & ? & E0 & _). congruence. }
  rewrite (H1 _ _ eq_refl), <- Ev. clear H0 H1. split.
  - intros (? & ? & ? & ? & ? & Hf & ? & Hb & Hr & ? & ? & ?). split; try tauto.
    + exists cb, others. split_and!; try done. by intros Hp; rewrite Hp in Hb.
    + intros Hp. by rewrite Hp in Hb.
  - intros []. destruct rule_first0 as (? & ? & E0 & ? & ? & ? & ?). rewrite Ev in E0. injection E0 as <- <-.
    split_and!; try tauto. destruct (IsProofOfStake b); auto.
Qed.
End facts.

(** ** Witness: a block with a coinbase only *)

Definition lone_coinbase : CTransaction :=
  mkTx 1 1600000000 [mkTxIn COutPoint_null [3; 1; 2; 3] UINT_MAX] [mkTxOut (5 * COIN) [0x51]] 0.
Definition lone_block : CBlock :=
  let b := mkBlock 4 toy_hash256 (assign64 WIDTH256 0) 1600000000 0x1e0fffff 7 [lone_coinbase] [] [] (assign64 WIDTH256 0) false in
  with_header b (BuildMerkleTree (H := toy_hash) b).1 1600000000 7.

Lemma CheckBlock_rules_witness :
  block_rules (B := ZBN) (H := toy_hash) (E := toy_ec) false 1600000000 (assign64 WIDTH256 0) false true true lone_block.
Proof.
  apply (CheckBlock_rules (B := ZBN) (H := toy_hash) (E := toy_ec)); [by intros [=]|].
  vm_compute. reflexivity.
Defined.
