(* ===== verification/Connect.v ===== *)
(** * Connecting and disconnecting transactions and blocks: [main.cpp]

    What a transaction takes over from the index of transactions when it joins the
    chain, and what it gives back when it leaves it.  The index is the interface
    [TxStore]; the block files are the two readers of [Files], arguments of the model.
    The records of the block index written beside the transactions, and the wallets
    told about them, are left out. *)

From S2P Require Import Prelude Uint256 BigNum Serialize Hash Transaction Script Canonical.
From S2P Require Import Interp Key SigCheck Templates KeyStore Block TxRules TxDB Chain Rewards BlockRules.

(** Reading the block files: a transaction at its position, the time of the header of
    the block at a position *)
Class Files := {
  read_tx : CDiskTxPos -> option CTransaction;
  read_block_time : Z -> Z -> option Z
}.

(** The globals of the program, its command line arguments and what the other
    components report: the last checkpoints and the height of the peers *)
Record Params := mkParams {
  fTestNet : bool;
  now : Z;
  hashGenesisBlock : list Z;
  nBestHeight : Z;
  nCoinbaseMaturity : Z;
  nScriptCheckThreads : Z;
  maxsigcache : Z;
  nCheckpointDepth : Z;
  fDynCheckpoint : bool;
  nTotalBlocksEstimate : Z;
  nSyncCheckpointHeight : Z;
  nBlocksOfPeers : Z
}.

Abbreviation MapPrevTx := (gmap (list Z) (CTxIndex * CTransaction)).
Abbreviation TestPool := (gmap (list Z) CTxIndex).

(** The index entry that stands for a transaction in the memory pool *)
Definition POOL_POS : CDiskTxPos := mkPos 1 1 1.

Section connect.
Context {B : BNOps} {H : HashOps} {E : ECOps} {P : SecpOps} {F : Files} {T : TxStore}.

(** ** Fetching the previous transactions *)

Inductive fetched := Fetched (inputsRet : MapPrevTx) | NotFetched (fInvalid : bool) (nDoS : Z).

(** One round of the first loop of [FetchInputs]; [None] is [return false] *)
Definition fetch_one (txdb : store) (mapTestPool : TestPool) (pool : gmap (list Z) CTransaction) (fBlock fMiner : bool)
    (inputsRet : MapPrevTx) (txin : CTxIn) : option MapPrevTx :=
  let h := op_hash (prevout txin) in
  if bool_decide (is_Some (inputsRet !! h)) then Some inputsRet
  else
    let '(fFound, txindex) :=
      match (if fBlock || fMiner then mapTestPool !! h else None) with
      | Some x => (true, x)
      | None => match ReadTxIndex txdb h with Some x => (true, x) | None => (false, CTxIndex_null) end
      end in
    if negb fFound && (fBlock || fMiner) then None
    else if negb fFound || bool_decide (pos txindex = POOL_POS) then
      txPrev ← pool !! h;
      let txindex := if negb fFound then mkTxIndex (pos txindex) (replicate (length (vout txPrev)) CDiskTxPos_null) else txindex in
      Some (<[h := (txindex, txPrev)]> inputsRet)
    else
      txPrev ← read_tx (pos txindex);
      Some (<[h := (txindex, txPrev)]> inputsRet).

Fixpoint fetch_loop (txdb : store) (mapTestPool : TestPool) (pool : gmap (list Z) CTransaction) (fBlock fMiner : bool)
    (ins : list CTxIn) (inputsRet : MapPrevTx) : option MapPrevTx :=
  match ins with
  | [] => Some inputsRet
  | txin :: ins =>
      inputsRet ← fetch_one txdb mapTestPool pool fBlock fMiner inputsRet txin;
      fetch_loop txdb mapTestPool pool fBlock fMiner ins inputsRet
  end.

(** [prevout.n] within the outputs and the spent pointers of its transaction *)
Definition in_range (inputs : MapPrevTx) (txin : CTxIn) : bool :=
  match inputs !! op_hash (prevout txin) with
  | Some (txindex, txPrev) =>
      (op_n (prevout txin) <? Z.of_nat (length (vout txPrev))) &&
      (op_n (prevout txin) <? Z.of_nat (length (vSpent txindex)))
  | None => false
  end.

Definition FetchInputs (txdb : store) (mapTestPool : TestPool) (pool : gmap (list Z) CTransaction) (fBlock fMiner : bool)
    (tx : CTransaction) : fetched :=
  if IsCoinBase tx then Fetched ∅
  else
    match fetch_loop txdb mapTestPool pool fBlock fMiner (vin tx) ∅ with
    | None => NotFetched false 0
    | Some inputsRet => if forallb (in_range inputsRet) (vin tx) then Fetched inputsRet else NotFetched true 100
    end.

(** [None] is the [runtime_error] *)
Definition GetOutputFor (input : CTxIn) (inputs : MapPrevTx) : option CTxOut :=
  '(_, txPrev) ← inputs !! op_hash (prevout input);
  if Z.of_nat (length (vout txPrev)) <=? op_n (prevout input) then None
  else vout txPrev !! Z.to_nat (op_n (prevout input)).

Fixpoint value_in_loop (ins : list CTxIn) (inputs : MapPrevTx) (nResult : Z) : option Z :=
  match ins with
  | [] => Some nResult
  | txin :: ins => o ← GetOutputFor txin inputs; value_in_loop ins inputs (i64 (nResult + nValue o))
  end.
Definition GetValueIn (tx : CTransaction) (inputs : MapPrevTx) : option Z :=
  if IsCoinBase tx then Some 0 else value_in_loop (vin tx) inputs 0.

Fixpoint p2sh_sigops_loop (ins : list CTxIn) (inputs : MapPrevTx) (nSigOps : Z) : option Z :=
  match ins with
  | [] => Some nSigOps
  | txin :: ins =>
      o ← GetOutputFor txin inputs;
      p2sh_sigops_loop ins inputs
        (if IsPayToScriptHash (scriptPubKey o) then u32 (nSigOps + GetSigOpCount_P2SH (scriptPubKey o) (scriptSig txin)) else nSigOps)
  end.
Definition GetP2SHSigOpCount (tx : CTransaction) (inputs : MapPrevTx) : option Z :=
  if IsCoinBase tx then Some 0 else p2sh_sigops_loop (vin tx) inputs 0.

(** The loop of [AreInputsStandard]; the interpreter may fill the signature cache *)
Fixpoint inputs_standard_loop (par : Params) (tx : CTransaction) (i : nat) (ins : list CTxIn) (inputs : MapPrevTx)
    (c : CSignatureCache) : option (bool * CSignatureCache) :=
  match ins with
  | [] => Some (true, c)
  | txin :: ins =>
      prev ← GetOutputFor txin inputs;
      let '(ok, whichType, vSolutions) := Solver (scriptPubKey prev) in
      if negb ok then Some (false, c)
      else
        let nArgsExpected := ScriptSigArgsExpected whichType vSolutions in
        if nArgsExpected <? 0 then Some (false, c)
        else
          let '(ok, stack, c) := EvalScript (maxsigcache par) [] (scriptSig txin) tx i 0 0 c in
          if negb ok then Some (false, c)
          else
            let sub :=
              if bool_decide (whichType = TX_SCRIPTHASH) then
                subscript ← head stack;
                let '(ok, whichType2, vSolutions2) := Solver subscript in
                if negb ok || bool_decide (whichType2 = TX_SCRIPTHASH) then None
                else
                  let tmpExpected := ScriptSigArgsExpected whichType2 vSolutions2 in
                  if tmpExpected <? 0 then None else Some (nArgsExpected + tmpExpected)
              else Some nArgsExpected in
            match sub with
            | None => Some (false, c)
            | Some n =>
                if negb (Z.of_nat (length stack) =? n) then Some (false, c)
                else inputs_standard_loop par tx (S i) ins inputs c
            end
  end.
Definition AreInputsStandard (par : Params) (tx : CTransaction) (inputs : MapPrevTx) (c : CSignatureCache) :
    option (bool * CSignatureCache) :=
  if IsCoinBase tx then Some (true, c) else inputs_standard_loop par tx 0 (vin tx) inputs c.

(** ** Coin age *)

(** [ReadFromDisk(txdb, prevout, txindex)] *)
Definition ReadFromDisk (txdb : store) (prevout : COutPoint) : option (CTransaction * CTxIndex) :=
  txindex ← ReadTxIndex txdb (op_hash prevout);
  tx ← read_tx (pos txindex);
  if Z.of_nat (length (vout tx)) <=? op_n prevout then None else Some (tx, txindex).

Fixpoint coin_age_loop (par : Params) (txdb : store) (nTime_ : Z) (ins : list CTxIn) (bnCentSecond : BIGNUM) : option BIGNUM :=
  match ins with
  | [] => Some bnCentSecond
  | txin :: ins =>
      match ReadFromDisk txdb (prevout txin) with
      | None => coin_age_loop par txdb nTime_ ins bnCentSecond
      | Some (txPrev, txindex) =>
          if nTime_ <? nTime txPrev then None
          else
            blocktime ← read_block_time (nFile (pos txindex)) (nBlockPos (pos txindex));
            if nTime_ <? blocktime + GetStakeMinAge (fTestNet par) (nBestHeight par) then
              coin_age_loop par txdb nTime_ ins bnCentSecond
            else
              o ← vout txPrev !! Z.to_nat (op_n (prevout txin));
              q ← bn_quot (bn_mult (CBigNum_of_long (nValue o)) (CBigNum_of_ulong (u32 (nTime_ - nTime txPrev)))) (CBigNum_of_long CENT);
              coin_age_loop par txdb nTime_ ins (bn_plus bnCentSecond q)
      end
  end.

Definition GetCoinAge (par : Params) (txdb : store) (tx : CTransaction) : option Z :=
  if IsCoinBase tx then Some 0
  else
    bnCentSecond ← coin_age_loop par txdb (nTime tx) (vin tx) (CBigNum_of_int 0);
    q ← bn_quot (bn_mult bnCentSecond (CBigNum_of_long CENT)) (CBigNum_of_long COIN);
    bnCoinDay ← bn_quot q (CBigNum_of_int (24 * 60 * 60));
    Some (getuint64 bnCoinDay).

(** ** [ConnectInputs] *)

Record CScriptCheck := mkCheck {
  chk_scriptPubKey : list Z;
  chk_txTo : CTransaction;
  chk_nIn : nat;
  chk_nFlags : Z;
  chk_nHashType : Z
}.

(** [operator()] *)
Definition run_check (par : Params) (k : CScriptCheck) (c : CSignatureCache) : bool * CSignatureCache :=
  match vin (chk_txTo k) !! chk_nIn k with
  | None => (false, c)
  | Some txin =>
      VerifyScript (maxsigcache par) (scriptSig txin) (chk_scriptPubKey k) (chk_txTo k) (chk_nIn k)
        (chk_nFlags k) (chk_nHashType k) c
  end.

(** The walk that looks for an immature coinbase or coinstake *)
Fixpoint immature (hBlock nCoinbaseMaturity : Z) (chain : list CBlockIndex) (p : CDiskTxPos) : bool :=
  match chain with
  | [] => false
  | pindex :: chain =>
      if hBlock - bi_nHeight pindex <? nCoinbaseMaturity then
        if (bi_nBlockPos pindex =? nBlockPos p) && (bi_nFile pindex =? nFile p) then true
        else immature hBlock nCoinbaseMaturity chain p
      else false
  end.
Definition is_immature (par : Params) (chain : list CBlockIndex) (txPrev : CTransaction) (p : CDiskTxPos) : bool :=
  (IsCoinBase txPrev || IsCoinStake txPrev) &&
  immature (match chain with pindexBlock :: _ => bi_nHeight pindexBlock | [] => 0 end) (nCoinbaseMaturity par) chain p.

(** The first loop: the value of the inputs; [Throws] is the failed [assert] *)
Fixpoint value_loop (par : Params) (tx : CTransaction) (chain : list CBlockIndex) (ins : list CTxIn) (inputs : MapPrevTx)
    (nValueIn : Z) : result Z :=
  match ins with
  | [] => Done nValueIn
  | txin :: ins =>
      match inputs !! op_hash (prevout txin) with
      | None => Throws
      | Some (txindex, txPrev) =>
          let n := op_n (prevout txin) in
          match vout txPrev !! Z.to_nat n with
          | Some txout =>
              guard (n <? Z.of_nat (length (vSpent txindex))) 100 $
              guard (negb (is_immature par chain txPrev (pos txindex))) 0 $
              guard (negb (nTime tx <? nTime txPrev)) 100 $
              let nValueIn := i64 (nValueIn + nValue txout) in
              guard (MoneyRange (nValue txout) && MoneyRange nValueIn) 100 $
              value_loop par tx chain ins inputs nValueIn
          | None => Fail 100
          end
      end
  end.

(** How [ConnectInputs] is called *)
Record Mode := mkMode { fBlock : bool; fMiner : bool; fScriptChecks : bool; flags : Z; fQueue : bool }.

(** Verify the signature of one input, or queue the check *)
Definition check_input (par : Params) (m : Mode) (check : CScriptCheck) (vChecks : list CScriptCheck) (c : CSignatureCache) :
    result (list CScriptCheck) * CSignatureCache :=
  if negb (fScriptChecks m) then (Done vChecks, c)
  else if fQueue m then (Done (vChecks ++ [check]), c)
  else
    let '(ok, c) := run_check par check c in
    if ok then (Done vChecks, c)
    else if has_flag (flags m) STRICT_FLAGS then
      let '(ok, c) := run_check par
        (mkCheck (chk_scriptPubKey check) (chk_txTo check) (chk_nIn check) (Z.ldiff (flags m) STRICT_FLAGS) 0) c in
      (Fail (if ok then 0 else 100), c)
    else (Fail 100, c).

(** The second loop: spend the outputs.  What it has written to [mapTestPool] before a
    failure is dropped with the block. *)
Fixpoint spend_loop (par : Params) (m : Mode) (tx : CTransaction) (posThisTx : CDiskTxPos) (i : nat) (ins : list CTxIn)
    (inputs : MapPrevTx) (mapTestPool : TestPool) (vChecks : list CScriptCheck) (c : CSignatureCache) :
    result (TestPool * list CScriptCheck) * CSignatureCache :=
  match ins with
  | [] => (Done (mapTestPool, vChecks), c)
  | txin :: ins =>
      let h := op_hash (prevout txin) in
      let n := Z.to_nat (op_n (prevout txin)) in
      match inputs !! h with
      | None => (Throws, c)
      | Some (txindex, txPrev) =>
          match vSpent txindex !! n, vout txPrev !! n with
          | Some p, Some txout =>
              if negb (CDiskTxPos_IsNull p) then (Fail 0, c)
              else
                match check_input par m (mkCheck (scriptPubKey txout) tx i (flags m) 0) vChecks c with
                | (Done vChecks, c) =>
                    let txindex := mkTxIndex (pos txindex) (<[n := posThisTx]> (vSpent txindex)) in
                    spend_loop par m tx posThisTx (S i) ins (<[h := (txindex, txPrev)]> inputs)
                      (if fBlock m || fMiner m then <[h := txindex]> mapTestPool else mapTestPool) vChecks c
                | (Fail nDoS, c) => (Fail nDoS, c)
                | (Throws, c) => (Throws, c)
                end
          | _, _ => (Throws, c)
          end
      end
  end.

(** The end: the reward of a coinstake, the fee of any other transaction *)
Definition check_fee (par : Params) (m : Mode) (txdb : store) (tx : CTransaction) (chain : list CBlockIndex)
    (nValueIn : Z) : result unit :=
  if IsCoinStake tx then
    match GetCoinAge par txdb tx with
    | None => Fail 0
    | Some nCoinAge =>
        match GetValueOut tx, chain with
        | Some nValueOut, pindexBlock :: _ =>
            match GetProofOfStakeReward (fTestNet par) nCoinAge (bi_nBits pindexBlock) (nTime tx) false with
            | None => Throws
            | Some nReward =>
                let nStakeReward := nValueOut - nValueIn in
                let nCalculatedStakeReward := i64 (nReward - GetMinFee_default tx + MIN_TX_FEE) in
                guard (negb (nCalculatedStakeReward <? nStakeReward)) 100 (Done tt)
            end
        | _, _ => Throws
        end
    end
  else
    match GetValueOut tx with
    | None => Throws
    | Some nValueOut =>
        guard (negb (nValueIn <? nValueOut)) 100 $
        let nTxFee := nValueIn - nValueOut in
        guard (negb (nTxFee <? 0)) 100 $
        guard (negb (nTxFee <? GetMinFee_default tx)) (if fBlock m then 100 else 0) $
        guard (MoneyRange nTxFee) 100 (Done tt)
    end.

Definition ConnectInputs (par : Params) (m : Mode) (txdb : store) (tx : CTransaction) (inputs : MapPrevTx)
    (mapTestPool : TestPool) (posThisTx : CDiskTxPos) (chain : list CBlockIndex) (c : CSignatureCache) :
    result (TestPool * list CScriptCheck) * CSignatureCache :=
  if IsCoinBase tx then (Done (mapTestPool, []), c)
  else
    match value_loop par tx chain (vin tx) inputs 0 with
    | Done nValueIn =>
        match spend_loop par m tx posThisTx 0 (vin tx) inputs mapTestPool [] c with
        | (Done r, c) =>
            match check_fee par m txdb tx chain nValueIn with
            | Done _ => (Done r, c)
            | Fail nDoS => (Fail nDoS, c)
            | Throws => (Throws, c)
            end
        | r => r
        end
    | Fail nDoS => (Fail nDoS, c)
    | Throws => (Throws, c)
    end.

(** ** Blocks *)

(** The height from which scripts are checked again *)
Definition DYNAMIC_CHECKPOINT_VERIFY_WINDOW : Z := 500.
Definition nVerifyFromHeight (par : Params) : Z :=
  let nBestKnownHeight := Z.max (nBestHeight par) (nBlocksOfPeers par) in
  let n := nTotalBlocksEstimate par in
  let n :=
    if fDynCheckpoint par && (n <? nSyncCheckpointHeight par) then
      Z.max n (Z.min (nSyncCheckpointHeight par) (nBestKnownHeight - DYNAMIC_CHECKPOINT_VERIFY_WINDOW))
    else n in
  if 0 <? nCheckpointDepth par then Z.max n (nBestKnownHeight - nCheckpointDepth par) else n.

(** The locals of the loop over the transactions *)
Record Connecting := mkConnecting {
  mapQueuedChanges : TestPool;
  cn_nTxPos : Z;
  nFees : Z;
  nValueIn : Z;
  nValueOut : Z;
  nSigOps : Z;
  cn_vChecks : list CScriptCheck
}.

(** A transaction must not overwrite one that is not spent completely *)
Definition overwrites (txdb : store) (hashTx : list Z) : bool :=
  match ReadTxIndex txdb hashTx with
  | Some txindexOld => existsb CDiskTxPos_IsNull (vSpent txindexOld)
  | None => false
  end.

Definition block_mode (par : Params) (fScriptChecks : bool) : Mode :=
  mkMode true false fScriptChecks (SCRIPT_VERIFY_NOCACHE .| SCRIPT_VERIFY_P2SH) (negb (nScriptCheckThreads par =? 0)).

(** One round of the loop *)
Definition connect_tx (par : Params) (fJustCheck fScriptChecks : bool) (txdb : store) (pool : gmap (list Z) CTransaction)
    (pindex : CBlockIndex) (pprev : list CBlockIndex) (tx : CTransaction) (s : Connecting) (c : CSignatureCache) :
    result Connecting * CSignatureCache :=
  let hashTx := CTransaction_GetHash tx in
  if overwrites txdb hashTx then (Fail 0, c)
  else
    let sigops := u32 (nSigOps s + GetLegacySigOpCount tx) in
    if MAX_BLOCK_SIGOPS <? sigops then (Fail 100, c)
    else
      let posThisTx := mkPos (bi_nFile pindex) (bi_nBlockPos pindex) (cn_nTxPos s) in
      let nTxPos := if fJustCheck then cn_nTxPos s else u32 (cn_nTxPos s + GetSerializeSize tx_codec tx) in
      let queued q := <[hashTx := CTxIndex_new posThisTx (length (vout tx))]> q in
      if IsCoinBase tx then
        match GetValueOut tx with
        | None => (Throws, c)
        | Some v =>
            (Done (mkConnecting (queued (mapQueuedChanges s)) nTxPos (nFees s) (nValueIn s) (i64 (nValueOut s + v)) sigops (cn_vChecks s)), c)
        end
      else
        match FetchInputs txdb (mapQueuedChanges s) pool true false tx with
        | NotFetched _ _ => (Fail 0, c)
        | Fetched mapInputs =>
            match GetP2SHSigOpCount tx mapInputs with
            | None => (Throws, c)
            | Some p2sh =>
                let sigops := u32 (sigops + p2sh) in
                if MAX_BLOCK_SIGOPS <? sigops then (Fail 100, c)
                else
                  match GetValueIn tx mapInputs, GetValueOut tx with
                  | Some nTxValueIn, Some nTxValueOut =>
                      let fees := if IsCoinStake tx then nFees s else i64 (nFees s + (nTxValueIn - nTxValueOut)) in
                      match ConnectInputs par (block_mode par fScriptChecks) txdb tx mapInputs (mapQueuedChanges s) posThisTx
                              (pindex :: pprev) c with
                      | (Done (q, vChecks), c) =>
                          (Done (mkConnecting (queued q) nTxPos fees (i64 (nValueIn s + nTxValueIn))
                             (i64 (nValueOut s + nTxValueOut)) sigops (cn_vChecks s ++ vChecks)), c)
                      | (Fail _, c) => (Fail 0, c)
                      | (Throws, c) => (Throws, c)
                      end
                  | _, _ => (Throws, c)
                  end
            end
        end.

Fixpoint connect_loop (par : Params) (fJustCheck fScriptChecks : bool) (txdb : store) (pool : gmap (list Z) CTransaction)
    (pindex : CBlockIndex) (pprev : list CBlockIndex) (txs : list CTransaction) (s : Connecting) (c : CSignatureCache) :
    result Connecting * CSignatureCache :=
  match txs with
  | [] => (Done s, c)
  | tx :: txs =>
      match connect_tx par fJustCheck fScriptChecks txdb pool pindex pprev tx s c with
      | (Done s, c) => connect_loop par fJustCheck fScriptChecks txdb pool pindex pprev txs s c
      | r => r
      end
  end.

(** [control.Wait()]: whether every queued check succeeds *)
Fixpoint run_checks (par : Params) (ks : list CScriptCheck) (c : CSignatureCache) : bool * CSignatureCache :=
  match ks with
  | [] => (true, c)
  | k :: ks =>
      let '(ok, c) := run_check par k c in
      if ok then run_checks par ks c else (false, c)
  end.

(** Write the queued changes *)
Definition write_one (t : option store) (e : list Z * CTxIndex) : option store :=
  t ← t; UpdateTxIndex t e.1 e.2.
Definition write_queue (txdb : store) (q : TestPool) : option store := foldl write_one (Some txdb) (map_entries q).

Definition with_money (i : CBlockIndex) (mint supply : Z) : CBlockIndex :=
  mkIndex (bi_hash i) (bi_nFile i) (bi_nBlockPos i) (bi_nChainTrust i) (bi_nHeight i) mint supply
    (bi_nFlags i) (bi_nStakeModifier i) (bi_nStakeModifierChecksum i) (bi_prevoutStake i) (bi_nStakeTime i)
    (bi_hashProofOfStake i) (bi_nVersion i) (bi_hashMerkleRoot i) (bi_nTime i) (bi_nBits i) (bi_nNonce i).

(** Where the first transaction of the block is on the disk *)
Definition first_nTxPos (fJustCheck : bool) (pindex : CBlockIndex) (b : CBlock) : Z :=
  if fJustCheck then 1
  else u32 (bi_nBlockPos pindex + block_GetSerializeSize (CBlock_SetNull b) - 2 * GetSizeOfCompactSize 0 +
            GetSizeOfCompactSize (Z.of_nat (length (vtx b)))).

(** The part of [ConnectBlock] after [CheckBlock] *)
Definition connect_txs (par : Params) (fJustCheck : bool) (txdb : store) (pool : gmap (list Z) CTransaction)
    (pindex : CBlockIndex) (pprev : list CBlockIndex) (b : CBlock) (c : CSignatureCache) :
    result (store * CBlockIndex) * CSignatureCache :=
  let fScriptChecks := nVerifyFromHeight par <=? bi_nHeight pindex in
  match connect_loop par fJustCheck fScriptChecks txdb pool pindex pprev (vtx b)
          (mkConnecting ∅ (first_nTxPos fJustCheck pindex b) 0 0 0 0 []) c with
  | (Done s, c) =>
      let '(ok, c) := run_checks par (cn_vChecks s) c in
      if negb ok then (Fail 100, c)
      else
        let mint := i64 (nValueOut s - nValueIn s + nFees s) in
        let supply := i64 (match pprev with p :: _ => bi_nMoneySupply p | [] => 0 end + nValueOut s - nValueIn s) in
        let pindex := with_money pindex mint supply in
        if fJustCheck then (Done (txdb, pindex), c)
        else
          match write_queue txdb (mapQueuedChanges s) with
          | Some txdb => (Done (txdb, pindex), c)
          | None => (Fail 0, c)
          end
  | (Fail nDoS, c) => (Fail nDoS, c)
  | (Throws, c) => (Throws, c)
  end.

Definition ConnectBlock (par : Params) (fJustCheck : bool) (txdb : store) (pool : gmap (list Z) CTransaction)
    (pindex : CBlockIndex) (pprev : list CBlockIndex) (b : CBlock) (c : CSignatureCache) :
    result (store * CBlockIndex) * CBlock * CSignatureCache :=
  let fRecheckPOW := negb fJustCheck && (nTotalBlocksEstimate par <? bi_nHeight pindex) in
  let '(r, b) := CheckBlock (fTestNet par) (now par) (hashGenesisBlock par) fRecheckPOW (negb fJustCheck) false b in
  match r with
  | Done _ => let '(r, c) := connect_txs par fJustCheck txdb pool pindex pprev b c in (r, b, c)
  | Fail nDoS => (Fail nDoS, b, c)
  | Throws => (Throws, b, c)
  end.

(** ** Disconnecting; [None] is [false] *)

Fixpoint disconnect_ins (ins : list CTxIn) (txdb : store) : option store :=
  match ins with
  | [] => Some txdb
  | txin :: ins =>
      let h := op_hash (prevout txin) in
      txindex ← ReadTxIndex txdb h;
      if Z.of_nat (length (vSpent txindex)) <=? op_n (prevout txin) then None
      else
        txdb ← UpdateTxIndex txdb h
          (mkTxIndex (pos txindex) (<[Z.to_nat (op_n (prevout txin)) := CDiskTxPos_null]> (vSpent txindex)));
        disconnect_ins ins txdb
  end.

(** That erasing the entry fails is ignored *)
Definition DisconnectInputs (tx : CTransaction) (txdb : store) : option store :=
  txdb ← (if IsCoinBase tx then Some txdb else disconnect_ins (vin tx) txdb);
  Some (default txdb (EraseTxIndex txdb (CTransaction_GetHash tx))).

Fixpoint disconnect_txs (txs : list CTransaction) (txdb : store) : option store :=
  match txs with
  | [] => Some txdb
  | tx :: txs => txdb ← DisconnectInputs tx txdb; disconnect_txs txs txdb
  end.
Definition DisconnectBlock (b : CBlock) (txdb : store) : option store := disconnect_txs (rev (vtx b)) txdb.
End connect.
