(* ===== verification/ConnectFacts.v ===== *)
(** * What connecting and disconnecting do: facts about [Connect]

    The spent pointers of the index are a set of slots, a transaction and an output
    each.  Connecting marks the slots of the inputs and adds the transaction,
    disconnecting clears the slots and removes it; the script checks are the ones of
    [VerifyScript] with every signature verified. *)

From S2P Require Import Prelude Uint256 BigNum Serialize Hash Transaction Script Canonical.
From S2P Require Import Interp InterpSim Key SigCheck Templates KeyStore Block TxRules TxDB Chain Rewards BlockRules Connect.

(** ** Scripts *)

Section scripts.
Context {B : BNOps} {H : HashOps}.

Lemma sim_VerifyScript {W1 W2} (R : W1 -> W2 -> Prop) check1 check2 flags sig pk w1 w2 :
  (forall s k code w1 w2, R w1 w2 ->
     (check1 s k code w1).1 = (check2 s k code w2).1 /\ R (check1 s k code w1).2 (check2 s k code w2).2) ->
  R w1 w2 ->
  (VerifyScript_in check1 flags sig pk w1).1 = (VerifyScript_in check2 flags sig pk w2).1 /\
  R (VerifyScript_in check1 flags sig pk w1).2 (VerifyScript_in check2 flags sig pk w2).2.
Proof.
  intros Hc Hw. unfold VerifyScript_in.
  pose proof (sim_EvalScript R check1 check2 flags Hc [] sig w1 w2 Hw) as H1.
  destruct (EvalScript_in check1 flags [] sig w1) as [[ok1 st1] w1'], (EvalScript_in check2 flags [] sig w2) as [[ok2 st2] w2'].
  destruct H1 as (-> & -> & Hw1). destruct ok2; cbn [negb]; [|done].
  pose proof (sim_EvalScript R check1 check2 flags Hc st2 pk w1' w2' Hw1) as H2.
  destruct (EvalScript_in check1 flags st2 pk w1') as [[ok1 st1'] w1''], (EvalScript_in check2 flags st2 pk w2') as [[ok2 st2'] w2''].
  destruct H2 as (-> & -> & Hw2). destruct ok2; cbn [negb]; [|done]. destruct (top_true st2'); cbn [negb]; [|done].
  destruct (has_flag flags SCRIPT_VERIFY_P2SH && IsPayToScriptHash pk); [|done].
  destruct (IsPushOnly sig); cbn [negb]; [|done]. destruct st2 as [|s st2]; [done|].
  pose proof (sim_EvalScript R check1 check2 flags Hc st2 s w1'' w2'' Hw2) as H3.
  destruct (EvalScript_in check1 flags st2 s w1'') as [[ok1 t1] u1], (EvalScript_in check2 flags st2 s w2'') as [[ok2 t2] u2].
  destruct H3 as (-> & -> & Hw3). done.
Qed.

Context {HL : HashLaws H} {E : ECOps} {EL : ECLaws E} {P : SecpOps}.

(** [VerifyScript] with every signature verified *)
Definition script_ok (k : CScriptCheck) : bool :=
  match vin (chk_txTo k) !! chk_nIn k with
  | None => false
  | Some txin =>
      (VerifyScript_in (fun sig key code (_ : unit) =>
         (CheckSig_plain (chk_txTo k) (chk_nIn k) (chk_nHashType k) sig key code, tt))
         (chk_nFlags k) (scriptSig txin) (chk_scriptPubKey k) tt).1
  end.

Lemma CheckSig_nocache maxsize txTo nIn ht flags sig pk code c :
  has_flag flags SCRIPT_VERIFY_NOCACHE = true -> (CheckSig maxsize txTo nIn ht flags sig pk code c).2 = c.
Proof. intros Hf. unfold CheckSig. rewrite Hf. repeat case_goal; done. Qed.

(** A check does what the cacheless one does, and with [NOCACHE] leaves the cache alone *)
Lemma run_check_spec par k c :
  cache_valid c ->
  (run_check par k c).1 = script_ok k /\ cache_valid (run_check par k c).2 /\
  (has_flag (chk_nFlags k) SCRIPT_VERIFY_NOCACHE = true -> (run_check par k c).2 = c).
Proof.
  intros Hc. unfold run_check, script_ok. destruct (vin (chk_txTo k) !! chk_nIn k) as [txin|]; [|done]. unfold VerifyScript.
  set (R := fun (c' : CSignatureCache) (_ : unit) =>
    cache_valid c' /\ (has_flag (chk_nFlags k) SCRIPT_VERIFY_NOCACHE = true -> c' = c)).
  match goal with |- _ = (VerifyScript_in ?plain _ _ _ _).1 /\ _ =>
    destruct (sim_VerifyScript R (CheckSig (maxsigcache par) (chk_txTo k) (chk_nIn k) (chk_nHashType k) (chk_nFlags k)) plain
      (chk_nFlags k) (scriptSig txin) (chk_scriptPubKey k) c tt) as (E1 & E2 & E3) end; [|done|done].
  intros s key code w1 [] [Hv Hn].
  pose proof (CheckSig_transparent (maxsigcache par) (chk_txTo k) (chk_nIn k) (chk_nHashType k) (chk_nFlags k) s key code w1 Hv) as Ht.
  pose proof (CheckSig_nocache (maxsigcache par) (chk_txTo k) (chk_nIn k) (chk_nHashType k) (chk_nFlags k) s key code w1) as Hk.
  destruct (CheckSig _ _ _ _ _ _ _ _ _) as [r c1]. destruct Ht as (-> & Hv1 & _). cbn [fst snd] in *.
  split; [done|]. split; [done|]. intros Hf. rewrite Hk by done. auto.
Qed.

Lemma run_checks_spec par ks c :
  cache_valid c -> Forall (fun k => has_flag (chk_nFlags k) SCRIPT_VERIFY_NOCACHE = true) ks ->
  (run_checks par ks c).1 = forallb script_ok ks /\ (run_checks par ks c).2 = c.
Proof.
  intros Hc. induction ks as [|k ks IH]; intros Hf; cbn [run_checks forallb]; [done|]. apply Forall_cons in Hf as [Hk Hf].
  destruct (run_check_spec par k c Hc) as (E1 & _ & E3). specialize (E3 Hk).
  destruct (run_check par k c) as [ok c']. cbn [fst snd] in *. subst. destruct (script_ok k); [by apply IH|done].
Qed.

Lemma run_checks_valid par ks c : cache_valid c -> cache_valid (run_checks par ks c).2.
Proof.
  revert c. induction ks as [|k ks IH]; intros c Hc; cbn [run_checks]; [done|].
  destruct (run_check_spec par k c Hc) as (_ & E2 & _). destruct (run_check par k c) as [ok c']. cbn [snd] in E2. destruct ok; [by apply IH|done].
Qed.
End scripts.

(** ** Slots *)

Definition slot_of (i : CTxIn) : list Z * nat := (op_hash (prevout i), Z.to_nat (op_n (prevout i))).
Definition slots (tx : CTransaction) : list (list Z * nat) := if IsCoinBase tx then [] else slot_of <$> vin tx.

(** The entry of the transaction [h] with the slots in [O] set to [p] *)
Definition marks (h : list Z) (O : list (list Z * nat)) (p : CDiskTxPos) (x : CTxIndex) : CTxIndex :=
  mkTxIndex (pos x) (imap (fun n q => if decide ((h, n) ∈ O) then p else q) (vSpent x)).

Lemma CTxIndex_ext x y : pos x = pos y -> vSpent x = vSpent y -> x = y.
Proof. destruct x, y; cbn; congruence. Qed.

Lemma lookup_marks h O p x n :
  vSpent (marks h O p x) !! n = (fun q => if decide ((h, n) ∈ O) then p else q) <$> vSpent x !! n.
Proof. unfold marks. cbn. apply list_lookup_imap. Qed.

Lemma length_marks h O p x : length (vSpent (marks h O p x)) = length (vSpent x).
Proof. apply length_imap. Qed.

Lemma marks_out h O p x : h ∉ O.*1 -> marks h O p x = x.
Proof.
  intros Hh. apply CTxIndex_ext; [done|]. apply list_eq. intros n. rewrite lookup_marks. case_decide as Hd.
  - exfalso. apply Hh. apply list_elem_of_fmap. by exists (h, n).
  - by destruct (vSpent x !! n).
Qed.

Lemma marks_cons h n O p x :
  marks h ((h, n) :: O) p x = marks h O p (mkTxIndex (pos x) (<[n := p]> (vSpent x))).
Proof.
  apply CTxIndex_ext; [done|]. apply list_eq. intros m. rewrite !lookup_marks. cbn [vSpent].
  destruct (decide (n = m)) as [->|Hn].
  - destruct (vSpent x !! m) as [q|] eqn:Eq.
    + rewrite list_lookup_insert_eq by (by eapply lookup_lt_Some). cbn.
      rewrite decide_True by constructor. by case_decide.
    + rewrite list_insert_ge, Eq by (by apply lookup_ge_None). done.
  - rewrite list_lookup_insert_ne by done. destruct (vSpent x !! m); [|done]. cbn. f_equal.
    apply decide_ext. rewrite elem_of_cons. naive_solver.
Qed.

Lemma marks_cons_ne h h' n O p x : h <> h' -> marks h ((h', n) :: O) p x = marks h O p x.
Proof.
  intros Hh. apply CTxIndex_ext; [done|]. apply list_eq. intros m. rewrite !lookup_marks.
  destruct (vSpent x !! m); [|done]. cbn. f_equal. apply decide_ext. rewrite elem_of_cons. naive_solver.
Qed.

(** Clearing the slots that were null before they were set *)
Lemma marks_undo h O p x :
  (forall n, (h, n) ∈ O -> vSpent x !! n = Some CDiskTxPos_null) ->
  marks h O CDiskTxPos_null (marks h O p x) = x.
Proof.
  intros Hn. apply CTxIndex_ext; [done|]. apply list_eq. intros m. rewrite !lookup_marks.
  destruct (vSpent x !! m) as [q|] eqn:Eq; [|done]. cbn. case_decide as Hd; [|done].
  rewrite (Hn m Hd) in Eq. by injection Eq as <-.
Qed.

(** Null pointers have only one form *)
Definition canonical (x : CTxIndex) : Prop :=
  Forall (fun p => CDiskTxPos_IsNull p = true -> p = CDiskTxPos_null) (vSpent x).

Lemma Forall_marks (Q : CDiskTxPos -> Prop) h O p x :
  Q p -> Forall Q (vSpent x) -> Forall Q (vSpent (marks h O p x)).
Proof.
  intros Hp Hf. apply Forall_lookup. intros n q. rewrite lookup_marks. rewrite Forall_lookup in Hf.
  destruct (vSpent x !! n) eqn:En; [|done]. cbn. intros [= <-]. case_decide; eauto.
Qed.

Lemma txindex_ok_marks h O p x : txpos_ok p -> txindex_ok x -> txindex_ok (marks h O p x).
Proof.
  intros Hp (Hx & Hl & Hs). split; [done|]. split; [|by rewrite length_marks]. by apply Forall_marks.
Qed.

(** ** The loops of [ConnectInputs] *)

(** The script an input spends *)
Definition prev_script (inputs : MapPrevTx) (txin : CTxIn) : list Z :=
  default [] ('(_, txPrev) ← inputs !! (slot_of txin).1; scriptPubKey <$> vout txPrev !! (slot_of txin).2).

(** The checks of the inputs, one each *)
Definition checks_of (fl : Z) (tx : CTransaction) (inputs : MapPrevTx) (i : nat) (ins : list CTxIn) : list CScriptCheck :=
  imap (fun j txin => mkCheck (prev_script inputs txin) tx (i + j) fl 0) ins.

(** The second loop without its script checks *)
Fixpoint spend (write : bool) (posThisTx : CDiskTxPos) (ins : list CTxIn) (inputs : MapPrevTx) (mapTestPool : TestPool) :
    option TestPool :=
  match ins with
  | [] => Some mapTestPool
  | txin :: ins =>
      let '(h, n) := slot_of txin in
      '(txindex, txPrev) ← inputs !! h;
      p ← vSpent txindex !! n;
      _ ← vout txPrev !! n;
      if negb (CDiskTxPos_IsNull p) then None
      else
        let txindex := mkTxIndex (pos txindex) (<[n := posThisTx]> (vSpent txindex)) in
        spend write posThisTx ins (<[h := (txindex, txPrev)]> inputs) (if write then <[h := txindex]> mapTestPool else mapTestPool)
  end.

(** Spending keeps the previous transactions *)
Lemma prev_script_spent inputs h x x' tp txin :
  inputs !! h = Some (x, tp) -> prev_script (<[h := (x', tp)]> inputs) txin = prev_script inputs txin.
Proof.
  intros Hh. unfold prev_script. destruct (decide (h = (slot_of txin).1)) as [->|Hn].
  - by rewrite Hh, lookup_insert_eq.
  - by rewrite lookup_insert_ne.
Qed.

Lemma checks_of_cons fl tx inputs i txin ins :
  checks_of fl tx inputs i (txin :: ins) = mkCheck (prev_script inputs txin) tx i fl 0 :: checks_of fl tx inputs (S i) ins.
Proof.
  unfold checks_of. cbn [imap]. rewrite Nat.add_0_r. f_equal. apply imap_ext. intros j ? _. cbn. f_equal. lia.
Qed.

Lemma checks_of_spent fl tx inputs h x x' tp i ins :
  inputs !! h = Some (x, tp) -> checks_of fl tx (<[h := (x', tp)]> inputs) i ins = checks_of fl tx inputs i ins.
Proof. intros Hh. apply imap_ext. intros j txin _. f_equal. by eapply prev_script_spent. Qed.

Lemma nocache_strict fl : has_flag (Z.ldiff fl STRICT_FLAGS) SCRIPT_VERIFY_NOCACHE = has_flag fl SCRIPT_VERIFY_NOCACHE.
Proof.
  unfold has_flag. do 2 f_equal. apply Z.bits_inj'. intros n Hn. rewrite !Z.land_spec, Z.ldiff_spec.
  change SCRIPT_VERIFY_NOCACHE with (2 ^ 3). rewrite Z.pow2_bits_eqb by lia.
  destruct (Z.eqb_spec 3 n) as [<-|]; [|by rewrite !andb_false_r]. by destruct (Z.testbit fl 3).
Qed.

Section loops.
Context {B : BNOps} {H : HashOps} {HL : HashLaws H} {E : ECOps} {EL : ECLaws E} {P : SecpOps}.

(** What becomes of the checks of a list of inputs *)
Definition queued_checks (m : Mode) (ks : list CScriptCheck) : list CScriptCheck :=
  if fScriptChecks m && fQueue m then ks else [].
Definition inline_checks (m : Mode) (ks : list CScriptCheck) : bool :=
  implb (fScriptChecks m && negb (fQueue m)) (forallb script_ok ks).

Lemma check_input_spec par m k ks c :
  cache_valid c -> chk_nFlags k = flags m ->
  let r := check_input par m k ks c in
  cache_valid r.2 /\ (has_flag (flags m) SCRIPT_VERIFY_NOCACHE = true -> r.2 = c) /\
  (forall ks', r.1 = Done ks' <-> ks' = ks ++ queued_checks m [k] /\ inline_checks m [k] = true).
Proof.
  intros Hc Hk r. unfold r, check_input, queued_checks, inline_checks.
  destruct (fScriptChecks m); cbn [negb andb implb]; [|rewrite app_nil_r; naive_solver].
  destruct (fQueue m); cbn [negb implb]; [naive_solver|]. rewrite app_nil_r. cbn [forallb]. rewrite andb_true_r.
  destruct (run_check_spec par k c Hc) as (E1 & Hc1 & E2). rewrite Hk in E2.
  destruct (run_check par k c) as [ok c1]. cbn [fst snd] in *. subst ok. destruct (script_ok k); [naive_solver|].
  destruct (has_flag (flags m) STRICT_FLAGS); [|naive_solver].
  match goal with |- context [run_check par ?k' c1] => destruct (run_check_spec par k' c1 Hc1) as (_ & Hc2 & E3) end.
  cbn [chk_nFlags] in E3. rewrite nocache_strict in E3. destruct (run_check _ _ c1) as [ok c2]. cbn [fst snd] in *.
  split; [done|]. split; [intros Hf; rewrite E3, E2; done|]. naive_solver.
Qed.

Lemma queued_checks_cons m k ks : queued_checks m (k :: ks) = queued_checks m [k] ++ queued_checks m ks.
Proof. unfold queued_checks. by case_goal. Qed.

Lemma inline_checks_cons m k ks : inline_checks m (k :: ks) = inline_checks m [k] && inline_checks m ks.
Proof. unfold inline_checks. cbn [forallb]. destruct (_ && _); cbn [implb]; [|done]. by rewrite andb_true_r. Qed.

Lemma spend_loop_spec par m tx p i ins inputs q ks c :
  cache_valid c ->
  let r := spend_loop par m tx p i ins inputs q ks c in
  let all := checks_of (flags m) tx inputs i ins in
  cache_valid r.2 /\ (has_flag (flags m) SCRIPT_VERIFY_NOCACHE = true -> r.2 = c) /\
  (forall q' ks', r.1 = Done (q', ks') <->
     spend (fBlock m || fMiner m) p ins inputs q = Some q' /\ ks' = ks ++ queued_checks m all /\ inline_checks m all = true).
Proof.
  revert i inputs q ks c. induction ins as [|txin ins IH]; intros i inputs q ks c Hc; cbv zeta; cbn [spend_loop spend].
  { unfold queued_checks, inline_checks, checks_of. cbn. split_and!; [done..|]. intros q' ks'.
    destruct (fScriptChecks m), (fQueue m); cbn; rewrite app_nil_r; naive_solver. }
  unfold slot_of. destruct (inputs !! op_hash (prevout txin)) as [[x tp]|] eqn:Ei; cbn [mbind option_bind]; [|naive_solver].
  destruct (vSpent x !! Z.to_nat (op_n (prevout txin))) as [s|] eqn:Es; cbn [mbind option_bind]; [|naive_solver].
  destruct (vout tp !! Z.to_nat (op_n (prevout txin))) as [o|] eqn:Eo; cbn [mbind option_bind]; [|naive_solver].
  destruct (CDiskTxPos_IsNull s); cbn [negb]; [|naive_solver].
  assert (prev_script inputs txin = scriptPubKey o) as Hps.
  { unfold prev_script, slot_of. cbn [fst snd]. rewrite Ei. cbn [mbind option_bind]. by rewrite Eo. }
  rewrite checks_of_cons, Hps, queued_checks_cons, inline_checks_cons. set (k := mkCheck _ _ _ _ _).
  destruct (check_input_spec par m k ks c Hc eq_refl) as (Hc1 & Hn1 & Hd1).
  assert (inline_checks m [k] = true -> (check_input par m k ks c).1 = Done (ks ++ queued_checks m [k])) as Hd2
    by (intros Hi; by apply Hd1).
  destruct (check_input par m k ks c) as [[ks1|n1|] c1]; cbn [fst snd] in *;
    [|(split_and!; [done..|]; intros q' ks'; split; [done|]; intros (_ & _ & [Hi _]%andb_true_iff); by specialize (Hd2 Hi))..].
  destruct (proj1 (Hd1 ks1) eq_refl) as [-> Hin].
  match goal with |- context [spend_loop par m tx p (S i) ins ?I ?q1 ?k1 c1] =>
    destruct (IH (S i) I q1 k1 c1 Hc1) as (Hc2 & Hn2 & Hd3) end.
  split; [done|]. split; [intros Hf; rewrite Hn2, Hn1; done|]. intros q' ks'.
  rewrite Hd3, (checks_of_spent _ _ _ _ x), <- app_assoc, Hin by done. done.
Qed.
End loops.

(** The pointer of a slot among the inputs *)
Definition unspent (inputs : MapPrevTx) (s : list Z * nat) : Prop :=
  exists x tp p, inputs !! s.1 = Some (x, tp) /\ vSpent x !! s.2 = Some p /\ CDiskTxPos_IsNull p = true /\
    (s.2 < length (vout tp))%nat.

(** Marking one slot of the inputs *)
Lemma spent_view (inputs : MapPrevTx) h n x tp p h' O :
  inputs !! h = Some (x, tp) ->
  marks h' O p <$> (fst <$> <[h := (mkTxIndex (pos x) (<[n := p]> (vSpent x)), tp)]> inputs !! h') =
  marks h' ((h, n) :: O) p <$> (fst <$> inputs !! h').
Proof.
  intros Hh. destruct (decide (h = h')) as [<-|Hn].
  - rewrite lookup_insert_eq, Hh. cbn. by rewrite marks_cons.
  - rewrite lookup_insert_ne by done. destruct (inputs !! h') as [[y ?]|]; [|done]. cbn. by rewrite marks_cons_ne.
Qed.

Lemma spend_spec w p ins inputs q q' :
  CDiskTxPos_IsNull p = false -> spend w p ins inputs q = Some q' ->
  let O := slot_of <$> ins in
  NoDup O /\ Forall (unspent inputs) O /\
  (forall h, q' !! h = if w && bool_decide (h ∈ O.*1) then marks h O p <$> (fst <$> inputs !! h) else q !! h).
Proof.
  intros Hp. revert inputs q. induction ins as [|txin ins IH]; intros inputs q Hs; cbn [spend] in Hs.
  { injection Hs as <-. cbn. split_and!; [constructor..|]. intros h. by rewrite bool_decide_eq_false_2, andb_false_r by apply not_elem_of_nil. }
  destruct (slot_of txin) as [h n] eqn:Ei. destruct (inputs !! h) as [[x tp]|] eqn:Eh; [|done]. cbn [mbind option_bind] in Hs.
  destruct (vSpent x !! n) as [s|] eqn:Es; [|done]. cbn [mbind option_bind] in Hs.
  destruct (vout tp !! n) as [o|] eqn:Eo; [|done]. cbn [mbind option_bind] in Hs.
  destruct (CDiskTxPos_IsNull s) eqn:En; [cbn [negb] in Hs|done].
  apply IH in Hs as (Hd & Hf & Hq). cbn [fmap list_fmap]. rewrite Ei. set (O := slot_of <$> ins) in *.
  assert (Hback : forall t, unspent (<[h := (mkTxIndex (pos x) (<[n := p]> (vSpent x)), tp)]> inputs) t ->
    t <> (h, n) /\ unspent inputs t).
  { intros [h' n'] (y & tp' & r & E1 & E2 & E3 & E4). cbn [fst snd] in *. destruct (decide (h = h')) as [<-|Hne].
    - rewrite lookup_insert_eq in E1. injection E1 as <- <-. cbn [vSpent] in E2. destruct (decide (n = n')) as [<-|Hne].
      + rewrite list_lookup_insert_eq in E2 by (by eapply lookup_lt_Some). congruence.
      + rewrite list_lookup_insert_ne in E2 by done. split; [congruence|]. by exists x, tp, r.
    - rewrite lookup_insert_ne in E1 by done. split; [congruence|]. by exists y, tp', r. }
  split_and!.
  - constructor; [|done]. intros Hin. rewrite Forall_forall in Hf. by destruct (Hback _ (Hf _ Hin)).
  - constructor; [|eapply Forall_impl; [exact Hf|]; intros t Ht; by apply Hback].
    exists x, tp, s. split_and!; [done..|]. by eapply lookup_lt_Some.
  - intros h'. rewrite Hq, (spent_view _ h n x tp) by done. cbn [fst fmap list_fmap]. destruct w; cbn [andb]; [|done].
    case_bool_decide as H1.
    + by rewrite bool_decide_eq_true_2 by (apply elem_of_cons; by right).
    + destruct (decide (h = h')) as [<-|Hne].
      * rewrite lookup_insert_eq, bool_decide_eq_true_2, Eh by (apply elem_of_cons; by left). cbn. f_equal.
        rewrite marks_cons, marks_out by done. done.
      * rewrite lookup_insert_ne, bool_decide_eq_false_2; [done| |done]. intros [?|?]%elem_of_cons; congruence.
Qed.

(** The value of the inputs *)
Definition prev_value (inputs : MapPrevTx) (txin : CTxIn) : Z :=
  default 0 ('(_, txPrev) ← inputs !! (slot_of txin).1; nValue <$> vout txPrev !! (slot_of txin).2).
Definition total_in (inputs : MapPrevTx) (ins : list CTxIn) : Z := foldr (fun i n => prev_value inputs i + n) 0 ins.

(** What the first loop asks of an input *)
Definition input_rules (par : Params) (tx : CTransaction) (chain : list CBlockIndex) (inputs : MapPrevTx) (txin : CTxIn) : Prop :=
  exists x tp, inputs !! (slot_of txin).1 = Some (x, tp) /\ is_immature par chain tp (pos x) = false /\
    nTime tp <= nTime tx /\ 0 <= prev_value inputs txin <= MAX_MONEY.

Lemma value_loop_spec par tx chain ins inputs n v :
  0 <= n <= MAX_MONEY -> value_loop par tx chain ins inputs n = Done v ->
  Forall (input_rules par tx chain inputs) ins /\ v = n + total_in inputs ins /\ 0 <= v <= MAX_MONEY.
Proof.
  revert n. induction ins as [|txin ins IH]; intros n Hn; cbn [value_loop].
  { intros [= <-]. split; [constructor|]. cbn. lia. }
  destruct (inputs !! op_hash (prevout txin)) as [[x tp]|] eqn:Ei; [|done].
  destruct (vout tp !! Z.to_nat (op_n (prevout txin))) as [o|] eqn:Eo; [|done].
  unfold guard at 1 2 3 4. repeat (case_goal; [|done]). bool_prop. intros Hv.
  match goal with H : MoneyRange (nValue o) = true /\ _ |- _ => destruct H as [Ho%MoneyRange_spec Hs] end.
  rewrite swrap_small in Hs, Hv by (revert Hn Ho; unfold MAX_MONEY, COIN; lia). apply MoneyRange_spec in Hs.
  assert (prev_value inputs txin = nValue o) as Hp.
  { unfold prev_value, slot_of. cbn [fst snd]. rewrite Ei. cbn [mbind option_bind]. by rewrite Eo. }
  apply IH in Hv as (Hf & -> & Hr); [|lia]. cbn [total_in foldr]. fold (total_in inputs ins). rewrite Hp. split_and!; try lia.
  constructor; [|done]. exists x, tp. rewrite Hp. split_and!; try done; lia.
Qed.

(** ** [ConnectInputs] *)

Section ConnectInputs.
Context {B : BNOps} {H : HashOps} {HL : HashLaws H} {E : ECOps} {EL : ECLaws E} {P : SecpOps} {F : Files} {T : TxStore}.

Lemma ConnectInputs_done par m txdb tx inputs q p chain c :
  IsCoinBase tx = false -> cache_valid c ->
  let r := ConnectInputs par m txdb tx inputs q p chain c in
  let all := checks_of (flags m) tx inputs 0 (vin tx) in
  cache_valid r.2 /\ (has_flag (flags m) SCRIPT_VERIFY_NOCACHE = true -> r.2 = c) /\
  (forall q' ks, r.1 = Done (q', ks) <->
     (exists v, value_loop par tx chain (vin tx) inputs 0 = Done v /\ check_fee par m txdb tx chain v = Done tt) /\
     spend (fBlock m || fMiner m) p (vin tx) inputs q = Some q' /\ ks = queued_checks m all /\ inline_checks m all = true).
Proof.
  intros Hcb Hc. cbv zeta. unfold ConnectInputs. rewrite Hcb.
  destruct (value_loop par tx chain (vin tx) inputs 0) as [v|n|]; [|split_and!; [done..|]; naive_solver..].
  destruct (spend_loop_spec par m tx p 0 (vin tx) inputs q [] c Hc) as (Hc1 & Hn1 & Hd1).
  destruct (spend_loop par m tx p 0 (vin tx) inputs q [] c) as [[[q1 ks1]|n|] c1]; cbn [fst snd] in *.
  - specialize (Hd1 q1 ks1) as Hd2. destruct (proj1 Hd2 eq_refl) as (Hs & -> & Hi). rewrite Hs, Hi.
    destruct (check_fee par m txdb tx chain v) as [[]|n|] eqn:Ef; (split_and!; [done..|]); intros q' ks; cbn [fst].
    + split; [|intros (_ & [= ->] & -> & _); done]. intros [= <- <-]. split_and!; [by exists v|done..].
    + split; [done|]. intros ((v' & [= <-] & Hf) & _). congruence.
    + split; [done|]. intros ((v' & [= <-] & Hf) & _). congruence.
  - split_and!; [done..|]. intros q' ks. cbn [fst]. split; [done|]. intros (_ & Hs). by apply Hd1 in Hs.
  - split_and!; [done..|]. intros q' ks. cbn [fst]. split; [done|]. intros (_ & Hs). by apply Hd1 in Hs.
Qed.

(** What a transaction may pay out, [v] being what its inputs are worth *)
Definition fee_rule (par : Params) (txdb : store) (tx : CTransaction) (chain : list CBlockIndex) (v : Z) : Prop :=
  exists out, GetValueOut tx = Some out /\
  if IsCoinStake tx then
    exists pindex rest nCoinAge reward, chain = pindex :: rest /\ GetCoinAge par txdb tx = Some nCoinAge /\
      GetProofOfStakeReward (fTestNet par) nCoinAge (bi_nBits pindex) (nTime tx) false = Some reward /\
      out - v <= i64 reward
  else out + MIN_TX_FEE <= v.

Lemma check_fee_done par m txdb tx chain v :
  0 <= v <= MAX_MONEY -> check_fee par m txdb tx chain v = Done tt -> fee_rule par txdb tx chain v.
Proof.
  intros Hv. unfold check_fee, fee_rule. assert (Hfee : GetMinFee_default tx = MIN_TX_FEE) by reflexivity. rewrite Hfee.
  destruct (IsCoinStake tx).
  - destruct (GetCoinAge par txdb tx) as [age|]; [|done]. destruct (GetValueOut tx) as [out|]; [|done].
    destruct chain as [|pindex rest]; [done|].
    destruct (GetProofOfStakeReward (fTestNet par) age (bi_nBits pindex) (nTime tx) false) as [reward|] eqn:Er; [|done].
    unfold guard. replace (reward - MIN_TX_FEE + MIN_TX_FEE) with reward by lia. case_goal; [|done]. bool_prop. intros _.
    exists out. split; [done|]. exists pindex, rest, age, reward. done.
  - destruct (GetValueOut tx) as [out|]; [|done]. unfold guard. repeat (case_goal; [|done]). bool_prop. intros _.
    exists out. split; [done|]. lia.
Qed.

End ConnectInputs.
