(* ===== verification/BlockConnect.v ===== *)
(** * Connecting and disconnecting a block

    [ConnectBlock] queues its changes of the transaction index and writes them at the
    end; [DisconnectBlock] writes as it goes.  Both are described by what they make
    of the index seen as a function of the hash. *)

From S2P Require Import Prelude Uint256 BigNum Serialize Hash Transaction Script Canonical.
From S2P Require Import Interp InterpSim Key SigCheck Templates KeyStore Scrypt Block TxRules TxDB Chain Rewards.
From S2P Require Import BlockRules Connect ConnectFacts.

Section views.
Context {B : BNOps} {H : HashOps} {HL : HashLaws H} {E : ECOps} {EL : ECLaws E} {P : SecpOps}.
Context {F : Files} {T : TxStore} {L : TxStoreLaws T}.

(** The index with the queued changes *)
Definition queue_view (txdb : store) (q : TestPool) (h : list Z) : option CTxIndex :=
  match q !! h with Some x => Some x | None => ReadTxIndex txdb h end.

Definition inputs_of (V : list Z -> option CTxIndex) (inputs : MapPrevTx) : Prop :=
  forall h x tp, inputs !! h = Some (x, tp) -> V h = Some x.

Lemma fetch_one_spec txdb q pool txin inputs inputs' :
  fetch_one txdb q pool true false inputs txin = Some inputs' -> inputs_of (queue_view txdb q) inputs ->
  inputs_of (queue_view txdb q) inputs'.
Proof.
  unfold fetch_one. cbn [orb]. case_bool_decide as Hd; [by intros [= <-]|]. intros Hf Hi. set (h := op_hash (prevout txin)) in *.
  assert (Hx : forall x tp, inputs' = <[h := (x, tp)]> inputs -> queue_view txdb q h = Some x -> inputs_of (queue_view txdb q) inputs').
  { intros x tp -> Hx h' x' tp'. destruct (decide (h = h')) as [<-|Hn].
    - rewrite lookup_insert_eq. by intros [= <- <-].
    - rewrite lookup_insert_ne by done. apply Hi. }
  unfold queue_view in Hx at 1. destruct (q !! h) as [x|]; [|destruct (ReadTxIndex txdb h) as [x|]; [|done]];
    cbn [negb andb orb] in Hf; (case_bool_decide; [destruct (pool !! h) as [tp|]; [|done]|destruct (read_tx (pos x)) as [tp|]; [|done]]);
    injection Hf as <-; by eapply Hx.
Qed.

Lemma fetch_loop_spec txdb q pool ins inputs inputs' :
  fetch_loop txdb q pool true false ins inputs = Some inputs' -> inputs_of (queue_view txdb q) inputs ->
  inputs_of (queue_view txdb q) inputs'.
Proof.
  revert inputs. induction ins as [|txin ins IH]; intros inputs; cbn [fetch_loop]; [by intros [= <-]|].
  destruct (fetch_one txdb q pool true false inputs txin) as [i1|] eqn:E1; [|done]. cbn [mbind option_bind].
  intros Hf Hi. eapply IH; [done|]. by eapply fetch_one_spec.
Qed.

Lemma FetchInputs_spec txdb q pool tx inputs :
  FetchInputs txdb q pool true false tx = Fetched inputs -> inputs_of (queue_view txdb q) inputs.
Proof.
  unfold FetchInputs. destruct (IsCoinBase tx); [by intros [= <-]|].
  destruct (fetch_loop txdb q pool true false (vin tx) ∅) as [i1|] eqn:E1; [|done]. case_goal; [|done]. intros [= <-].
  by eapply fetch_loop_spec.
Qed.

(** ** One transaction *)

(** The index after connecting [tx] at [p] *)
Definition connected (V : list Z -> option CTxIndex) (tx : CTransaction) (p : CDiskTxPos) (h : list Z) : option CTxIndex :=
  if decide (h = CTransaction_GetHash tx) then Some (CTxIndex_new p (length (vout tx)))
  else marks h (slots tx) p <$> V h.

(** A slot without a pointer *)
Definition free_slot (V : list Z -> option CTxIndex) (s : list Z * nat) : Prop :=
  exists x p, V s.1 = Some x /\ vSpent x !! s.2 = Some p /\ CDiskTxPos_IsNull p = true.

(** Where the transaction is written *)
Definition tx_position (pindex : CBlockIndex) (s : Connecting) : CDiskTxPos :=
  mkPos (bi_nFile pindex) (bi_nBlockPos pindex) (cn_nTxPos s).

Lemma connect_tx_queue par fj fs txdb pool pindex pprev tx s c s' c' :
  cache_valid c -> bi_nFile pindex <> UINT_MAX ->
  connect_tx par fj fs txdb pool pindex pprev tx s c = (Done s', c') ->
  let V := queue_view txdb (mapQueuedChanges s) in
  cache_valid c' /\ Forall (free_slot V) (slots tx) /\ NoDup (slots tx) /\
  (forall h, mapQueuedChanges s' !! h =
     if decide (h = CTransaction_GetHash tx) then Some (CTxIndex_new (tx_position pindex s) (length (vout tx)))
     else if bool_decide (h ∈ (slots tx).*1) then marks h (slots tx) (tx_position pindex s) <$> V h
     else mapQueuedChanges s !! h) /\
  cn_nTxPos s' = if fj then cn_nTxPos s else u32 (cn_nTxPos s + GetSerializeSize tx_codec tx).
Proof.
  intros Hc Hnf. unfold connect_tx. destruct (overwrites txdb (CTransaction_GetHash tx)); [done|].
  case_goal; [done|]. set (p := mkPos _ _ _). unfold slots. destruct (IsCoinBase tx) eqn:Ecb.
  { destruct (GetValueOut tx) as [v|]; [|done]. intros [= <- <-]. split_and!; [done|constructor|constructor| |done]. intros h.
    cbn [mapQueuedChanges]. case_decide as Hd; [by rewrite Hd, lookup_insert_eq|]. rewrite lookup_insert_ne by congruence.
    by rewrite bool_decide_eq_false_2 by apply not_elem_of_nil. }
  destruct (FetchInputs txdb (mapQueuedChanges s) pool true false tx) as [inputs|] eqn:Ef; [|done].
  apply FetchInputs_spec in Ef. destruct (GetP2SHSigOpCount tx inputs) as [p2sh|]; [|done]. case_goal; [done|].
  destruct (GetValueIn tx inputs) as [vi|]; [|done]. destruct (GetValueOut tx) as [vo|]; [|done].
  destruct (ConnectInputs_done par (block_mode par fs) txdb tx inputs (mapQueuedChanges s) p (pindex :: pprev) c Ecb Hc) as (Hc1 & _ & Hd).
  destruct (ConnectInputs _ _ _ _ _ _ _ _ _) as [[[q ks]|n|] c1]; [|done..]. cbn [fst snd] in *.
  destruct (proj1 (Hd q ks) eq_refl) as (_ & Hs & _). intros [= <- <-].
  assert (Hp : CDiskTxPos_IsNull p = false) by (by apply Z.eqb_neq).
  destruct (spend_spec _ _ _ _ _ _ Hp Hs) as (Hnd & Hun & Hq).
  assert (Hfree : Forall (free_slot (queue_view txdb (mapQueuedChanges s))) (slot_of <$> vin tx)).
  { eapply Forall_impl; [exact Hun|]. intros [h n] (x & tp & r & E1 & E2 & E3 & _). exists x, r. split_and!; [|done..]. by eapply Ef. }
  split_and!; [done..| |done]. intros h. cbn [mapQueuedChanges].
  case_decide as Hh; [by rewrite Hh, lookup_insert_eq|]. rewrite lookup_insert_ne, Hq by congruence.
  change (fBlock (block_mode par fs) || fMiner (block_mode par fs)) with true. cbn [andb].
  case_bool_decide as Hin; [|done]. fold p. apply list_elem_of_fmap in Hin as ([h' n'] & -> & Hin). cbn [fst].
  rewrite Forall_forall in Hun. destruct (Hun _ Hin) as (x & tp & r & E1 & _). cbn [fst] in E1.
  rewrite E1. by rewrite (Ef _ _ _ E1).
Qed.

Lemma connected_view txdb q q' tx p :
  (forall h, q' !! h =
     if decide (h = CTransaction_GetHash tx) then Some (CTxIndex_new p (length (vout tx)))
     else if bool_decide (h ∈ (slots tx).*1) then marks h (slots tx) p <$> queue_view txdb q h
     else q !! h) ->
  Forall (free_slot (queue_view txdb q)) (slots tx) ->
  forall h, queue_view txdb q' h = connected (queue_view txdb q) tx p h.
Proof.
  intros Hq Hf h. unfold queue_view at 1. rewrite Hq. unfold connected. case_decide; [done|].
  case_bool_decide as Hin.
  - apply list_elem_of_fmap in Hin as ([h' n] & -> & Hin). rewrite Forall_forall in Hf.
    destruct (Hf _ Hin) as (x & r & E1 & _). cbn [fst] in *. by rewrite E1.
  - fold (queue_view txdb q h). destruct (queue_view txdb q h) as [x|] eqn:Ex.
    + unfold queue_view in Ex. cbn. by rewrite marks_out, <- Ex.
    + unfold queue_view in Ex. by destruct (q !! h).
Qed.

(** ** Disconnecting one transaction *)

Definition has_slot (V : list Z -> option CTxIndex) (s : list Z * nat) : Prop :=
  exists x, V s.1 = Some x /\ (s.2 < length (vSpent x))%nat.

Lemma txpos_null_ok : txpos_ok CDiskTxPos_null.
Proof. unfold txpos_ok, fits. cbn [nFile nBlockPos nTxPos CDiskTxPos_null]. unfold UINT_MAX. lia. Qed.

Lemma disconnect_ins_spec ins t :
  store_ok t -> Forall txin_ok ins -> Forall (has_slot (ReadTxIndex t)) (slot_of <$> ins) ->
  exists t', disconnect_ins ins t = Some t' /\ store_ok t' /\
    forall h, uint_ok WIDTH256 h -> ReadTxIndex t' h = marks h (slot_of <$> ins) CDiskTxPos_null <$> ReadTxIndex t h.
Proof.
  revert t. induction ins as [|txin ins IH]; intros t Ht Hok Hs; cbn [disconnect_ins].
  { exists t. split_and!; [done..|]. intros h _. destruct (ReadTxIndex t h); [|done]. cbn. by rewrite marks_out by apply not_elem_of_nil. }
  apply Forall_cons in Hok as [((Hh & Hn) & _) Hok]. cbn [fmap list_fmap] in Hs. apply Forall_cons in Hs as [(x & Ex & Hl) Hs].
  unfold slot_of in Ex, Hl. cbn [fst snd] in Ex, Hl. set (h := op_hash (prevout txin)) in *. set (n := op_n (prevout txin)) in *.
  rewrite Ex. cbn [mbind option_bind]. unfold fits in Hn. destruct (Z.leb_spec (Z.of_nat (length (vSpent x))) n); [lia|].
  assert (Hx : txindex_ok x) by (by eapply ReadTxIndex_ok). set (x' := mkTxIndex _ _).
  assert (x' = marks h [(h, Z.to_nat n)] CDiskTxPos_null x) as Hx'.
  { rewrite marks_cons, marks_out by apply not_elem_of_nil. done. }
  destruct (UpdateTxIndex_spec t h x' Ht Hh) as (t1 & Hu & Ht1 & Hr1);
    [rewrite Hx'; apply txindex_ok_marks; [apply txpos_null_ok|done]|]. rewrite Hu. cbn [mbind option_bind].
  destruct (IH t1 Ht1 Hok) as (t2 & Hd & Ht2 & Hr2).
  { rewrite Forall_forall in Hok. rewrite Forall_forall in Hs. apply Forall_forall. intros s Hin. destruct (Hs s Hin) as (y & Ey & Hy).
    apply list_elem_of_fmap in Hin as (i & -> & Hi). destruct (Hok i Hi) as ((Hi' & _) & _).
    unfold has_slot. rewrite Hr1 by done. case_decide as Hd.
    - exists x'. split; [done|]. rewrite Hx', length_marks. rewrite <- Hd, Ex in Ey. by injection Ey as <-.
    - by exists y. }
  exists t2. split_and!; [done..|]. intros h' Hh'. rewrite Hr2, Hr1 by done. cbn [fmap list_fmap]. unfold slot_of at 2. fold h n.
  case_decide as He.
  - subst h'. rewrite Ex. cbn. by rewrite marks_cons.
  - destruct (ReadTxIndex t h') as [y|]; [|done]. cbn. by rewrite marks_cons_ne by done.
Qed.

Definition all_canonical (V : list Z -> option CTxIndex) : Prop := forall h x, V h = Some x -> canonical x.

(** A free slot of a canonical index holds the null pointer, and a marked one comes back *)
Lemma connected_slot V tx p s :
  Forall (free_slot V) (slots tx) -> V (CTransaction_GetHash tx) = None -> s ∈ slots tx ->
  has_slot (connected V tx p) s /\ s.1 <> CTransaction_GetHash tx.
Proof.
  intros Hf Hn Hs. rewrite Forall_forall in Hf. destruct (Hf s Hs) as (x & r & E1 & E2 & _).
  assert (s.1 <> CTransaction_GetHash tx) as Hne by congruence. split; [|done]. unfold has_slot, connected.
  rewrite decide_False, E1 by done. exists (marks s.1 (slots tx) p x). split; [done|].
  rewrite length_marks. by eapply lookup_lt_Some.
Qed.

Lemma DisconnectInputs_spec V tx p t :
  store_ok t -> tx_ok tx -> (forall h, uint_ok WIDTH256 h -> ReadTxIndex t h = connected V tx p h) ->
  Forall (free_slot V) (slots tx) -> all_canonical V -> V (CTransaction_GetHash tx) = None ->
  exists t', DisconnectInputs tx t = Some t' /\ store_ok t' /\ forall h, uint_ok WIDTH256 h -> ReadTxIndex t' h = V h.
Proof.
  intros Ht (_ & _ & (Hins & _) & _) Hr Hf Hc Hn. unfold DisconnectInputs.
  assert (exists t1, (if IsCoinBase tx then Some t else disconnect_ins (vin tx) t) = Some t1 /\ store_ok t1 /\
    forall h, uint_ok WIDTH256 h -> ReadTxIndex t1 h = marks h (slots tx) CDiskTxPos_null <$> ReadTxIndex t h) as (t1 & -> & Ht1 & Hr1).
  { unfold slots in *. destruct (IsCoinBase tx) eqn:Ecb.
    - exists t. split_and!; [done..|]. intros h _. destruct (ReadTxIndex t h); [|done]. cbn. by rewrite marks_out by apply not_elem_of_nil.
    - apply disconnect_ins_spec; [done..|]. apply Forall_forall. intros s (i & -> & Hi)%list_elem_of_fmap.
      assert (slot_of i ∈ slots tx) as Hs by (unfold slots; rewrite Ecb; by apply list_elem_of_fmap_2).
      assert (Forall (free_slot V) (slots tx)) as Hf' by (unfold slots; by rewrite Ecb).
      destruct (connected_slot V tx p _ Hf' Hn Hs) as [(x & Ex & Hl) _]. exists x. split; [|done].
      rewrite Hr; [done|]. rewrite Forall_forall in Hins. by destruct (Hins i Hi) as ((? & _) & _). }
  cbn [mbind option_bind].
  destruct (EraseTxIndex_spec t1 (CTransaction_GetHash tx) Ht1) as (t2 & -> & Ht2 & Hr2); [apply Hash_ok|].
  exists t2. split_and!; [done..|]. intros h Hh. rewrite Hr2 by done. case_decide as Hd; [by subst|].
  rewrite Hr1, Hr by done. unfold connected. rewrite decide_False by congruence. destruct (V h) as [x|] eqn:Ex; [|done].
  cbn. f_equal. apply marks_undo. intros n Hs. rewrite Forall_forall in Hf. destruct (Hf _ Hs) as (y & r & E1 & E2 & E3).
  cbn [fst snd] in *. rewrite Ex in E1. injection E1 as <-. specialize (Hc h x Ex). unfold canonical in Hc.
  rewrite Forall_lookup in Hc. by rewrite E2, (Hc n r).
Qed.

(** ** A block *)

(** The index before and after the transactions of a block *)
Inductive block_trace (V : list Z -> option CTxIndex) : list CTransaction -> (list Z -> option CTxIndex) -> Prop :=
  | trace_nil V1 : (forall h, V1 h = V h) -> block_trace V [] V1
  | trace_snoc txs V1 tx p V2 :
      block_trace V txs V1 -> Forall (free_slot V1) (slots tx) -> CDiskTxPos_IsNull p = false ->
      (forall h, V2 h = connected V1 tx p h) -> block_trace V (txs ++ [tx]) V2.

Lemma trace_dom V txs V' h :
  block_trace V txs V' -> V h = None -> h ∉ (CTransaction_GetHash <$> txs) -> V' h = None.
Proof.
  intros Ht Hn. induction Ht as [V1 Hc|txs V1 tx p V2 Ht IH Hf Hp Hc]; [by rewrite Hc|]. rewrite fmap_app, elem_of_app. intros Hh.
  rewrite Hc. unfold connected. rewrite decide_False by (intros ->; apply Hh; right; by apply list_elem_of_singleton).
  rewrite IH; [done|]. tauto.
Qed.

Lemma trace_canonical V txs V' : block_trace V txs V' -> all_canonical V -> all_canonical V'.
Proof.
  intros Ht Hcan. induction Ht as [V1 Hc|txs V1 tx p V2 Ht IH Hf Hp Hc]; intros h x; [rewrite Hc; apply Hcan|]. rewrite Hc. unfold connected.
  case_decide; [intros [= <-]|].
  - apply Forall_replicate. done.
  - destruct (V1 h) as [y|] eqn:Ey; [|done]. cbn. intros [= <-]. apply Forall_marks; [congruence|]. by eapply IH.
Qed.

Lemma undo_trace V txs V' t :
  block_trace V txs V' -> store_ok t -> Forall tx_ok txs -> all_canonical V ->
  NoDup (CTransaction_GetHash <$> txs) -> Forall (fun tx => V (CTransaction_GetHash tx) = None) txs ->
  (forall h, uint_ok WIDTH256 h -> ReadTxIndex t h = V' h) ->
  exists t', disconnect_txs (rev txs) t = Some t' /\ store_ok t' /\ forall h, uint_ok WIDTH256 h -> ReadTxIndex t' h = V h.
Proof.
  intros Ht. revert t. induction Ht as [V1 Hc|txs V1 tx p V2 Ht IH Hf Hp Hc]; intros t Hs Hok Hcan Hnd Hnew Hr.
  { exists t. split_and!; [done..|]. intros h Hh. by rewrite Hr. }
  rewrite Forall_app, Forall_singleton in Hok. rewrite Forall_app, Forall_singleton in Hnew.
  rewrite fmap_app in Hnd. apply NoDup_app in Hnd as (Hnd & Hdis & _).
  assert (V1 (CTransaction_GetHash tx) = None) as H1.
  { eapply trace_dom; [done|tauto|]. intros Hin. apply (Hdis _ Hin). by apply list_elem_of_singleton. }
  rewrite rev_unit. cbn [disconnect_txs].
  destruct (DisconnectInputs_spec V1 tx p t Hs) as (t1 & -> & Hs1 & Hr1);
    [tauto|intros h Hh; by rewrite Hr, Hc|done|by eapply trace_canonical|done|].
  cbn [mbind option_bind]. apply IH; tauto.
Qed.

(** The queued changes are well-formed *)
Definition queue_ok (q : TestPool) : Prop := forall h x, q !! h = Some x -> uint_ok WIDTH256 h /\ txindex_ok x.

Lemma queue_view_ok txdb q h x :
  store_ok txdb -> queue_ok q -> uint_ok WIDTH256 h -> queue_view txdb q h = Some x -> txindex_ok x.
Proof.
  intros Hs Hq Hh. unfold queue_view. destruct (q !! h) as [y|] eqn:Ey; [|by apply ReadTxIndex_ok].
  intros [= <-]. by eapply Hq.
Qed.

Lemma slots_ok tx s : tx_ok tx -> s ∈ slots tx -> uint_ok WIDTH256 s.1.
Proof.
  intros (_ & _ & (Hins & _) & _). unfold slots. destruct (IsCoinBase tx); [by intros ?%not_elem_of_nil|].
  intros (i & -> & Hi)%list_elem_of_fmap. rewrite Forall_forall in Hins. by destruct (Hins i Hi) as ((? & _) & _).
Qed.

Lemma connect_tx_spec par fj fs txdb pool pindex pprev tx s c s' c' :
  cache_valid c -> bi_nFile pindex <> UINT_MAX -> fits 4 (bi_nFile pindex) -> fits 4 (bi_nBlockPos pindex) ->
  store_ok txdb -> tx_ok tx -> queue_ok (mapQueuedChanges s) -> fits 4 (cn_nTxPos s) ->
  connect_tx par fj fs txdb pool pindex pprev tx s c = (Done s', c') ->
  cache_valid c' /\ queue_ok (mapQueuedChanges s') /\ fits 4 (cn_nTxPos s') /\
  Forall (free_slot (queue_view txdb (mapQueuedChanges s))) (slots tx) /\
  (forall h, queue_view txdb (mapQueuedChanges s') h = connected (queue_view txdb (mapQueuedChanges s)) tx (tx_position pindex s) h).
Proof.
  intros Hc Hnf Hf Hb Hs Htx Hq Hp Hr. destruct (connect_tx_queue _ _ _ _ _ _ _ _ _ _ _ _ Hc Hnf Hr) as (Hc' & Hfree & _ & Hq' & Hp').
  assert (Hpos : txpos_ok (tx_position pindex s)) by done.
  split_and!; [done| | |done|by apply connected_view].
  - intros h x. rewrite Hq'. case_decide as Hd; [|case_bool_decide as Hin; [|by apply Hq]].
    + intros [= <-]. subst h. split; [apply Hash_ok|]. destruct Htx as (_ & _ & _ & (_ & Hl) & _). split; [done|]. split.
      * apply Forall_replicate, txpos_null_ok.
      * cbn. by rewrite length_replicate.
    + apply list_elem_of_fmap in Hin as (sl & -> & Hin). pose proof (slots_ok tx sl Htx Hin) as Hok.
      destruct (queue_view txdb (mapQueuedChanges s) sl.1) as [y|] eqn:Ey; [|done]. cbn. intros [= <-]. split; [done|].
      apply txindex_ok_marks; [done|]. by eapply queue_view_ok.
  - rewrite Hp'. destruct fj; [done|]. unfold fits. change (256 ^ Z.of_nat 4) with (2 ^ 32). apply wrap_range. lia.
Qed.

Lemma connect_loop_spec par fj fs txdb pool pindex pprev txs s c s' c' V done :
  cache_valid c -> bi_nFile pindex <> UINT_MAX -> fits 4 (bi_nFile pindex) -> fits 4 (bi_nBlockPos pindex) ->
  store_ok txdb -> Forall tx_ok txs -> queue_ok (mapQueuedChanges s) -> fits 4 (cn_nTxPos s) ->
  block_trace V done (queue_view txdb (mapQueuedChanges s)) ->
  connect_loop par fj fs txdb pool pindex pprev txs s c = (Done s', c') ->
  queue_ok (mapQueuedChanges s') /\ block_trace V (done ++ txs) (queue_view txdb (mapQueuedChanges s')) /\ cache_valid c'.
Proof.
  intros Hc Hnf Hf Hb Hs Htx. revert s c done Hc. induction Htx as [|tx txs Htx _ IH]; intros s c done Hc Hq Hp Ht; cbn [connect_loop].
  { intros [= <- <-]. rewrite app_nil_r. done. }
  destruct (connect_tx _ _ _ _ _ _ _ _ _ _) as [[s1|n|] c1] eqn:E1; [|done..]. intros Hr.
  destruct (connect_tx_spec _ _ _ _ _ _ _ _ _ _ _ _ Hc Hnf Hf Hb Hs Htx Hq Hp E1) as (Hc1 & Hq1 & Hp1 & Hfree & Hv).
  replace (done ++ tx :: txs) with ((done ++ [tx]) ++ txs) by (by rewrite <- app_assoc). apply (IH s1 c1); try done.
  eapply trace_snoc; [done..| |done]. by apply Z.eqb_neq.
Qed.

Lemma write_queue_spec txdb q :
  store_ok txdb -> queue_ok q ->
  exists t, write_queue txdb q = Some t /\ store_ok t /\ forall h, uint_ok WIDTH256 h -> ReadTxIndex t h = queue_view txdb q h.
Proof.
  intros Hs Hq. unfold write_queue, queue_view.
  assert (Hl : Forall (fun e => uint_ok WIDTH256 e.1 /\ txindex_ok e.2) (map_entries q)).
  { apply Forall_forall. intros [h x] Hin. apply elem_of_map_entries in Hin. by apply Hq. }
  assert (Hm : forall h, q !! h = (list_to_map (map_entries q) : TestPool) !! h).
  { intros h. apply option_eq. intros x. rewrite <- elem_of_list_to_map by apply map_entries_NoDup. by rewrite elem_of_map_entries. }
  assert (exists t, foldl write_one (Some txdb) (map_entries q) = Some t /\ store_ok t /\
    forall h, uint_ok WIDTH256 h -> ReadTxIndex t h =
      match (list_to_map (map_entries q) : TestPool) !! h with Some x => Some x | None => ReadTxIndex txdb h end) as (t & E1 & E2 & E3).
  { clear Hm. pose proof (map_entries_NoDup q) as Hnd. revert txdb Hs Hnd. induction Hl as [|[h x] l [Hh Hx] _ IH]; intros txdb Hs Hnd.
    { by exists txdb. }
    cbn [fmap list_fmap fst] in Hnd. apply NoDup_cons in Hnd as [Hni Hnd]. cbn [foldl].
    destruct (UpdateTxIndex_spec txdb h x Hs Hh Hx) as (t1 & Hu & Hs1 & Hr1). unfold write_one at 2. cbn [mbind option_bind fst snd].
    rewrite Hu. destruct (IH t1 Hs1 Hnd) as (t & E1 & E2 & E3). exists t. split_and!; [done..|]. intros h' Hh'. rewrite E3, Hr1 by done.
    cbn [list_to_map foldr fst snd]. case_decide as Hd.
    - subst h'. rewrite not_elem_of_list_to_map_1 by done. cbn. by rewrite lookup_insert_eq.
    - cbn. by rewrite lookup_insert_ne. }
  exists t. split_and!; [done..|]. intros h Hh. by rewrite E3, Hm.
Qed.

Lemma CheckBlock_vtx fTestNet now g f1 f2 f3 b : vtx (CheckBlock fTestNet now g f1 f2 f3 b).2 = vtx b.
Proof.
  assert (Hpow : vtx (check_pow fTestNet f1 b).2 = vtx b).
  { unfold check_pow. destruct (GetHash_same b) as (_ & Hv & _). case_goal; [|done]. by destruct (CBlock_GetHash b). }
  assert (Hstake : forall b, vtx (check_stake g f3 b).2 = vtx b).
  { intros b1. unfold check_stake. destruct (CheckBlockSignature_same g true b1) as (_ & Hv & _).
    destruct (CheckBlockSignature g true b1) as [ok b2]. cbn [snd] in Hv. repeat case_goal; done. }
  assert (Hrest : forall b, vtx (check_rest now f2 b).2 = vtx b).
  { intros b1. unfold check_rest, BuildMerkleTree. repeat case_goal; done. }
  unfold CheckBlock. destruct (vtx b) as [|cb others] eqn:Ev; [done|]. destruct (_ || _); [done|].
  destruct (check_pow fTestNet f1 b) as [[] b1]; cbn [negb snd] in *; [|done].
  destruct (FutureDrift now <? _); [done|]. destruct (IsCoinBase cb); cbn [negb]; [|done]. destruct (existsb _ _); [done|].
  destruct (FutureDrift _ <? _); [done|]. specialize (Hstake b1). destruct (IsProofOfStake b1).
  - destruct (check_stake g f3 b1) as [[[]|n|] b2]; cbn [snd] in *; [rewrite Hrest|..]; congruence.
  - destruct (check_reward b1 cb) as [[]|n|]; cbn [snd]; [by rewrite Hrest|done..].
Qed.

(** ** Threads *)

Definition with_threads (n : Z) (par : Params) : Params :=
  mkParams (fTestNet par) (now par) (hashGenesisBlock par) (nBestHeight par) (nCoinbaseMaturity par) n (maxsigcache par)
    (nCheckpointDepth par) (fDynCheckpoint par) (nTotalBlocksEstimate par) (nSyncCheckpointHeight par) (nBlocksOfPeers par).

Definition without_checks (s : Connecting) : Connecting :=
  mkConnecting (mapQueuedChanges s) (cn_nTxPos s) (nFees s) (nValueIn s) (nValueOut s) (nSigOps s) [].

Lemma value_loop_threads n par tx chain ins inputs v :
  value_loop (with_threads n par) tx chain ins inputs v = value_loop par tx chain ins inputs v.
Proof.
  revert v. induction ins as [|txin ins IH]; intros v; cbn [value_loop]; [done|].
  destruct (inputs !! _) as [[x tp]|]; [|done]. destruct (vout tp !! _); [|done]. by rewrite IH.
Qed.

Lemma check_fee_threads n par m m' txdb tx chain v :
  fBlock m' = fBlock m -> check_fee (with_threads n par) m' txdb tx chain v = check_fee par m txdb tx chain v.
Proof.
  intros Hm. unfold check_fee. rewrite Hm. assert (GetCoinAge (with_threads n par) txdb tx = GetCoinAge par txdb tx) as ->; [|done].
  unfold GetCoinAge. destruct (IsCoinBase tx); [done|]. f_equal. generalize (CBigNum_of_int 0).
  induction (vin tx) as [|txin ins IH]; intros bn; cbn [coin_age_loop]; [done|].
  destruct (ReadFromDisk txdb (prevout txin)) as [[tp x]|]; [|apply IH]. case_goal; [done|].
  destruct (read_block_time _ _); cbn [mbind option_bind]; [|done]. change (fTestNet (with_threads n par)) with (fTestNet par).
  change (nBestHeight (with_threads n par)) with (nBestHeight par). case_goal; [apply IH|].
  destruct (vout tp !! _); cbn [mbind option_bind]; [|done]. destruct (bn_quot _ _); cbn [mbind option_bind]; [|done]. apply IH.
Qed.

Definition nocache (k : CScriptCheck) : Prop := has_flag (chk_nFlags k) SCRIPT_VERIFY_NOCACHE = true.

Lemma ConnectInputs_threads n par fs txdb tx inputs q p chain c :
  n <> 0 -> IsCoinBase tx = false -> cache_valid c ->
  let r0 := ConnectInputs (with_threads 0 par) (block_mode (with_threads 0 par) fs) txdb tx inputs q p chain c in
  let r := ConnectInputs (with_threads n par) (block_mode (with_threads n par) fs) txdb tx inputs q p chain c in
  r0.2 = c /\ r.2 = c /\
  (forall q' ks, r.1 = Done (q', ks) -> Forall nocache ks) /\
  (forall q' ks, r0.1 = Done (q', ks) <->
     ks = [] /\ exists ks', r.1 = Done (q', ks') /\ forallb script_ok ks' = true).
Proof.
  intros Hn Hcb Hc r0 r.
  destruct (ConnectInputs_done (with_threads 0 par) (block_mode (with_threads 0 par) fs) txdb tx inputs q p chain c Hcb Hc) as (_ & H1 & H2).
  destruct (ConnectInputs_done (with_threads n par) (block_mode (with_threads n par) fs) txdb tx inputs q p chain c Hcb Hc) as (_ & H3 & H4).
  fold r0 in H1, H2. fold r in H3, H4. apply Z.eqb_neq in Hn.
  set (all := checks_of (SCRIPT_VERIFY_NOCACHE .| SCRIPT_VERIFY_P2SH) tx inputs 0 (vin tx)) in *.
  assert (Hall : Forall nocache all).
  { apply Forall_lookup. intros j k. unfold all, checks_of. rewrite list_lookup_imap. destruct (vin tx !! j); [|done]. by intros [= <-]. }
  split_and!; [by apply H1|by apply H3| |].
  - intros q' ks Hr. apply H4 in Hr as (_ & _ & -> & _). unfold queued_checks. case_goal; [done|constructor].
  - intros q' ks. rewrite H2. setoid_rewrite H4. setoid_rewrite value_loop_threads.
    setoid_rewrite (check_fee_threads 0 par (block_mode par fs)); [|done].
    setoid_rewrite (check_fee_threads n par (block_mode par fs)); [|done].
    unfold queued_checks, inline_checks, block_mode. cbn [flags fScriptChecks fQueue fBlock fMiner nScriptCheckThreads with_threads].
    rewrite Hn. change (0 =? 0) with true. fold all. cbn [negb]. destruct fs; cbn [andb implb orb]; naive_solver.
Qed.

Lemma connect_tx_threads n par fj fs txdb pool pindex pprev tx s c :
  n <> 0 -> cache_valid c ->
  let r0 := connect_tx (with_threads 0 par) fj fs txdb pool pindex pprev tx (without_checks s) c in
  let r := connect_tx (with_threads n par) fj fs txdb pool pindex pprev tx s c in
  r0.2 = c /\ r.2 = c /\
  (forall s', r.1 = Done s' -> exists ks, cn_vChecks s' = cn_vChecks s ++ ks /\ Forall nocache ks) /\
  (forall s0, r0.1 = Done s0 <-> exists s' ks, r.1 = Done s' /\ s0 = without_checks s' /\
     cn_vChecks s' = cn_vChecks s ++ ks /\ forallb script_ok ks = true).
Proof.
  intros Hn Hc. cbv zeta. unfold connect_tx. cbn [nSigOps cn_nTxPos mapQueuedChanges nFees nValueIn nValueOut cn_vChecks without_checks].
  destruct (overwrites txdb (CTransaction_GetHash tx)); [split_and!; [done..|]; naive_solver|].
  destruct (_ <? _); [split_and!; [done..|]; naive_solver|]. set (p := mkPos _ _ _). destruct (IsCoinBase tx) eqn:Ecb.
  { destruct (GetValueOut tx) as [v|]; [|split_and!; [done..|]; naive_solver]. split_and!; [done..| |].
    - intros s' [= <-]. exists []. by rewrite app_nil_r.
    - intros s0. split; [|by intros (s' & ks & [= <-] & -> & _)]. intros [= <-]. eexists _, []. by rewrite app_nil_r. }
  destruct (FetchInputs txdb (mapQueuedChanges s) pool true false tx) as [inputs|]; [|split_and!; [done..|]; naive_solver].
  destruct (GetP2SHSigOpCount tx inputs) as [p2sh|]; [|split_and!; [done..|]; naive_solver].
  destruct (_ <? _); [split_and!; [done..|]; naive_solver|].
  destruct (GetValueIn tx inputs) as [vi|]; [|split_and!; [done..|]; naive_solver].
  destruct (GetValueOut tx) as [vo|]; [|split_and!; [done..|]; naive_solver].
  destruct (ConnectInputs_threads n par fs txdb tx inputs (mapQueuedChanges s) p (pindex :: pprev) c Hn Ecb Hc) as (H1 & H2 & H3 & H4).
  destruct (ConnectInputs (with_threads 0 par) _ _ _ _ _ _ _ _) as [r0 c0], (ConnectInputs (with_threads n par) _ _ _ _ _ _ _ _) as [r c1].
  cbn [fst snd] in *. subst c0 c1. split_and!; [by destruct r0 as [[]| |]|by destruct r as [[]| |]|..].
  - destruct r as [[q ks]| |]; [|done..]. intros s' [= <-]. exists ks. split; [done|]. by eapply H3.
  - intros s0. split.
    + destruct r0 as [[q ks]| |]; [|done..]. intros [= <-]. destruct (proj1 (H4 q ks) eq_refl) as (-> & ks' & -> & Hk).
      eexists _, ks'. split_and!; [done| |done..]. unfold without_checks. cbn. done.
    + intros (s' & ks & Hr & -> & Hk & Hok). destruct r as [[q ks']| |]; [|done..]. injection Hr as <-. cbn [cn_vChecks] in Hk.
      apply app_inv_head in Hk as ->. rewrite (proj2 (H4 q [])) by naive_solver. cbn [fst]. f_equal.
Qed.

Lemma connect_loop_threads n par fj fs txdb pool pindex pprev txs s c :
  n <> 0 -> cache_valid c ->
  let r0 := connect_loop (with_threads 0 par) fj fs txdb pool pindex pprev txs (without_checks s) c in
  let r := connect_loop (with_threads n par) fj fs txdb pool pindex pprev txs s c in
  r0.2 = c /\ r.2 = c /\
  (forall s', r.1 = Done s' -> exists ks, cn_vChecks s' = cn_vChecks s ++ ks /\ Forall nocache ks) /\
  (forall s0, r0.1 = Done s0 <-> exists s' ks, r.1 = Done s' /\ s0 = without_checks s' /\
     cn_vChecks s' = cn_vChecks s ++ ks /\ forallb script_ok ks = true).
Proof.
  intros Hn Hc. revert s. induction txs as [|tx txs IH]; intros s; cbv zeta; cbn [connect_loop].
  { split_and!; [done..| |].
    - intros s' [= <-]. exists []. by rewrite app_nil_r.
    - intros s0. split; [|by intros (s' & ks & [= <-] & -> & _)]. intros [= <-]. eexists _, []. by rewrite app_nil_r. }
  destruct (connect_tx_threads n par fj fs txdb pool pindex pprev tx s c Hn Hc) as (H1 & H2 & H3 & H4).
  destruct (connect_tx (with_threads 0 par) _ _ _ _ _ _ _ _ _) as [r0 c0], (connect_tx (with_threads n par) _ _ _ _ _ _ _ _ _) as [r c1].
  cbn [fst snd] in *. subst c0 c1. destruct r as [s1| |].
  - destruct (H3 s1 eq_refl) as (ks1 & Hk1 & Hn1). destruct (IH s1) as (I1 & I2 & I3 & I4). destruct (forallb script_ok ks1) eqn:Hok1.
    + rewrite (proj2 (H4 (without_checks s1))) by (by exists s1, ks1). split_and!; [done..| |].
      * intros s' Hs. destruct (I3 s' Hs) as (ks & -> & Hks). exists (ks1 ++ ks). rewrite Hk1, app_assoc. by rewrite Forall_app.
      * intros s0. rewrite I4, Hk1. split.
        -- intros (s' & ks & ? & ? & Hk & Hok). exists s', (ks1 ++ ks). rewrite app_assoc, forallb_app, Hok1. done.
        -- intros (s' & ks & Hs & ? & Hk & Hok). destruct (I3 s' Hs) as (ks' & Hk' & _). rewrite Hk1, <- app_assoc in Hk'.
           rewrite Hk' in Hk. apply app_inv_head in Hk as <-. rewrite forallb_app, Hok1 in Hok. exists s', ks'. rewrite Hk', app_assoc. done.
    + destruct r0 as [s0| |].
      { exfalso. destruct (proj1 (H4 s0) eq_refl) as (s' & ks & [= <-] & _ & Hk & Hok). rewrite Hk1 in Hk. apply app_inv_head in Hk. congruence. }
      all: split_and!; [done..| |];
        [intros s' Hs; destruct (I3 s' Hs) as (ks & -> & Hks); exists (ks1 ++ ks); rewrite Hk1, app_assoc; by rewrite Forall_app|];
        intros s0; split; [done|]; intros (s' & ks & Hs & _ & Hk & Hok); destruct (I3 s' Hs) as (ks' & Hk' & _);
        rewrite Hk1, <- app_assoc in Hk'; rewrite Hk' in Hk; apply app_inv_head in Hk as <-; rewrite forallb_app, Hok1 in Hok; done.
  - destruct r0 as [s0| |]; [|split_and!; [done..|]; naive_solver..]. exfalso. destruct (proj1 (H4 s0) eq_refl) as (? & ? & ? & _). done.
  - destruct r0 as [s0| |]; [|split_and!; [done..|]; naive_solver..]. exfalso. destruct (proj1 (H4 s0) eq_refl) as (? & ? & ? & _). done.
Qed.

Lemma connect_txs_threads n par fj txdb pool pindex pprev b c :
  n <> 0 -> cache_valid c ->
  let r0 := connect_txs (with_threads 0 par) fj txdb pool pindex pprev b c in
  let r := connect_txs (with_threads n par) fj txdb pool pindex pprev b c in
  r0.2 = c /\ r.2 = c /\ forall x, r.1 = Done x <-> r0.1 = Done x.
Proof.
  intros Hn Hc. cbv zeta. unfold connect_txs. set (s := mkConnecting ∅ _ 0 0 0 0 []).
  change (nVerifyFromHeight (with_threads ?m par)) with (nVerifyFromHeight par).
  destruct (connect_loop_threads n par fj (nVerifyFromHeight par <=? bi_nHeight pindex) txdb pool pindex pprev (vtx b) s c Hn Hc)
    as (H1 & H2 & H3 & H4). change (without_checks s) with s in *. change (cn_vChecks s) with (@nil CScriptCheck) in *. clearbody s.
  destruct (connect_loop (with_threads 0 par) _ _ _ _ _ _ _ _ _) as [r0 c0], (connect_loop (with_threads n par) _ _ _ _ _ _ _ _ _) as [r1 c1].
  cbn [fst snd app] in *. subst c0 c1.
  assert (Hfail : (forall s0, r0 <> Done s0) -> forall f, (match r0 with Done s => f s | Fail n => (Fail n, c) | Throws => (Throws, c) end).2 = c /\
    forall x, (match r0 with Done s => f s | Fail n => (Fail n, c) | Throws => (Throws, c) end : result (store * CBlockIndex) * _).1 <> Done x).
  { intros Hr f. destruct r0; [by destruct (Hr a)|done..]. }
  destruct r1 as [s'|k|].
  - destruct (H3 s' eq_refl) as (ks & Hk & Hnc).
    destruct (run_checks_spec (with_threads n par) (cn_vChecks s') c Hc) as [E1 E2]; [by rewrite Hk|].
    destruct (run_checks (with_threads n par) (cn_vChecks s') c) as [ok c2]. cbn [fst snd] in *. subst ok c2.
    destruct (forallb script_ok (cn_vChecks s')) eqn:Hok; cbn [negb].
    + rewrite (proj2 (H4 (without_checks s'))) by (by exists s', (cn_vChecks s')).
      cbn [cn_vChecks without_checks run_checks negb mapQueuedChanges nFees nValueIn nValueOut]. split_and!; repeat case_goal; done.
    + edestruct Hfail as [E1 E2]; [|split_and!; [exact E1|done|]; intros x; split; [done|]; intros Hx; by apply E2 in Hx].
      intros s0 ->. destruct (proj1 (H4 s0) eq_refl) as (s2 & ks2 & [= <-] & _ & Hk2 & Hok2). congruence.
  - edestruct Hfail as [E1 E2]; [|split_and!; [exact E1|done|]; intros x; split; [done|]; intros Hx; by apply E2 in Hx].
    intros s0 ->. destruct (proj1 (H4 s0) eq_refl) as (s2 & ks2 & ? & _). done.
  - edestruct Hfail as [E1 E2]; [|split_and!; [exact E1|done|]; intros x; split; [done|]; intros Hx; by apply E2 in Hx].
    intros s0 ->. destruct (proj1 (H4 s0) eq_refl) as (s2 & ks2 & ? & _). done.
Qed.

(** ** Claims *)

(** C4: what [ConnectInputs] has established when it succeeds, for a transaction that
    is not a coinbase and a position on the disk that is not null: the inputs spend
    distinct outputs, each of them unspent so far, mature and not younger than the
    transaction; where scripts are checked ([fScriptChecks]: not for a block below the
    last checkpoint) every script verifies, or with threads exactly these checks are
    queued; the transaction pays the least fee, or mints at most the stake reward; and
    exactly the spent slots are marked.  The signature cache holds only signatures that
    verify, before and after: whichever of them it holds makes no difference. *)
Theorem connect_inputs_sound par m txdb tx inputs q p chain c q' ks c' :
  IsCoinBase tx = false -> cache_valid c -> CDiskTxPos_IsNull p = false ->
  ConnectInputs par m txdb tx inputs q p chain c = (Done (q', ks), c') ->
  let O := slot_of <$> vin tx in
  let all := checks_of (flags m) tx inputs 0 (vin tx) in
  NoDup O /\ Forall (unspent inputs) O /\ Forall (input_rules par tx chain inputs) (vin tx) /\
  (fScriptChecks m = true -> if fQueue m then ks = all else forallb script_ok all = true) /\
  (exists v, v = total_in inputs (vin tx) /\ 0 <= v <= MAX_MONEY /\ fee_rule par txdb tx chain v) /\
  (forall h, q' !! h =
     if (fBlock m || fMiner m) && bool_decide (h ∈ O.*1) then marks h O p <$> (fst <$> inputs !! h) else q !! h) /\
  cache_valid c'.
Proof.
  intros Hcb Hc Hp Hr O all. destruct (ConnectInputs_done par m txdb tx inputs q p chain c Hcb Hc) as (Hc1 & _ & Hd).
  rewrite Hr in Hc1, Hd. cbn [fst snd] in *. destruct (proj1 (Hd q' ks) eq_refl) as ((v & Hv & Hf) & Hs & -> & Hi).
  destruct (spend_spec _ _ _ _ _ _ Hp Hs) as (Hnd & Hun & Hq).
  destruct (value_loop_spec par tx chain (vin tx) inputs 0 v) as (Hrules & Ev & Hrange); [by unfold MAX_MONEY, COIN|done|].
  split_and!; try done.
  - intros Hsc. unfold queued_checks, inline_checks in *. rewrite Hsc in *. by destruct (fQueue m).
  - exists v. split_and!; [lia..|]. by eapply check_fee_done.
Qed.

(** What [ConnectBlock] does when it succeeds *)
Lemma ConnectBlock_trace par txdb pool pindex pprev b c txdb' pindex' b' c' :
  store_ok txdb -> cache_valid c -> cache_ok b -> Forall tx_ok (vtx b) ->
  bi_nFile pindex <> UINT_MAX -> fits 4 (bi_nFile pindex) -> fits 4 (bi_nBlockPos pindex) ->
  ConnectBlock par false txdb pool pindex pprev b c = (Done (txdb', pindex'), b', c') ->
  vtx b' = vtx b /\ NoDup (CTransaction_GetHash <$> vtx b) /\ store_ok txdb' /\ cache_valid c' /\
  (exists mint supply, pindex' = with_money pindex mint supply) /\
  exists V, block_trace (ReadTxIndex txdb) (vtx b) V /\ forall h, uint_ok WIDTH256 h -> ReadTxIndex txdb' h = V h.
Proof.
  intros Hs Hc Hb Htx Hnf Hf Hp. unfold ConnectBlock.
  set (pow := negb false && _). destruct (CheckBlock_steps (fTestNet par) (now par) (hashGenesisBlock par) pow (negb false) false b Hb) as [H0 H1].
  pose proof (CheckBlock_vtx (fTestNet par) (now par) (hashGenesisBlock par) pow (negb false) false b) as Hv.
  destruct (CheckBlock _ _ _ _ _ _ b) as [[[]|n|] b1]; [|done..]. cbn [fst snd] in *.
  assert (Hnd : NoDup (CTransaction_GetHash <$> vtx b)).
  { destruct (vtx b) as [|cb others] eqn:Ev; [by specialize (H0 eq_refl)|]. by apply (H1 cb others eq_refl). }
  unfold connect_txs. destruct (connect_loop _ _ _ _ _ _ _ _ _ c) as [[s|n|] c1] eqn:El; [|done..].
  edestruct (fun K1 K2 K3 K4 => connect_loop_spec _ _ _ _ _ _ _ _ _ _ _ _ (ReadTxIndex txdb) [] Hc Hnf Hf Hp Hs K1 K2 K3 K4 El) as (Hq & Ht & Hc1).
  - by rewrite Hv.
  - intros h x Hx. cbn [mapQueuedChanges] in Hx. by rewrite lookup_empty in Hx.
  - unfold fits, first_nTxPos. cbn [cn_nTxPos]. change (256 ^ Z.of_nat 4) with (2 ^ 32). apply wrap_range. lia.
  - constructor. intros h. unfold queue_view. cbn [mapQueuedChanges]. by rewrite lookup_empty.
  - pose proof (run_checks_valid par (cn_vChecks s) c1 Hc1) as Hc2. destruct (run_checks par (cn_vChecks s) c1) as [[] c2]; cbn [negb]; [|done].
    cbn [app] in Ht. rewrite Hv in Ht. destruct (write_queue_spec txdb _ Hs Hq) as (t & -> & Hst & Hr). intros [= <- <- <- <-].
    split_and!; [done..|by eexists _, _|by exists (queue_view txdb (mapQueuedChanges s))].
Qed.

(** C5: disconnecting undoes connecting.  When [ConnectBlock] accepts a block none of
    whose transactions is in the index, the index it leaves is the old one with the
    transactions added in their order, each spending slots that were free; and
    [DisconnectBlock] succeeds there and gives back the old index, every spent pointer
    included. *)
Theorem disconnect_connect par txdb pool pindex pprev b c txdb' pindex' b' c' :
  store_ok txdb -> cache_valid c -> cache_ok b -> Forall tx_ok (vtx b) ->
  bi_nFile pindex <> UINT_MAX -> fits 4 (bi_nFile pindex) -> fits 4 (bi_nBlockPos pindex) ->
  all_canonical (ReadTxIndex txdb) -> Forall (fun tx => ReadTxIndex txdb (CTransaction_GetHash tx) = None) (vtx b) ->
  ConnectBlock par false txdb pool pindex pprev b c = (Done (txdb', pindex'), b', c') ->
  (exists V, block_trace (ReadTxIndex txdb) (vtx b) V /\ forall h, uint_ok WIDTH256 h -> ReadTxIndex txdb' h = V h) /\
  exists txdb'', DisconnectBlock b' txdb' = Some txdb'' /\ store_ok txdb'' /\
    forall h, uint_ok WIDTH256 h -> ReadTxIndex txdb'' h = ReadTxIndex txdb h.
Proof.
  intros Hs Hc Hb Htx Hnf Hf Hp Hcan Hnew Hr.
  destruct (ConnectBlock_trace par txdb pool pindex pprev b c txdb' pindex' b' c' Hs Hc Hb Htx Hnf Hf Hp Hr) as (Hv & Hnd & Hs' & _ & _ & V & Ht & Hr').
  split; [by exists V|]. unfold DisconnectBlock. rewrite Hv. by eapply undo_trace.
Qed.

(** C6: script threads do not change the verdict.  Whatever the number of threads, so
    whether the scripts of a block are verified one by one or queued and verified at
    the end, [ConnectBlock] accepts the same blocks with the same resulting index and
    block record, and it never touches the signature cache. *)
Theorem connect_block_threads n par fj txdb pool pindex pprev b c :
  cache_valid c ->
  let run n := ConnectBlock (with_threads n par) fj txdb pool pindex pprev b c in
  (run n).2 = c /\ (run n).1.2 = (run 0).1.2 /\ forall r, (run n).1.1 = Done r <-> (run 0).1.1 = Done r.
Proof.
  intros Hc run. unfold run, ConnectBlock. cbn [fTestNet now hashGenesisBlock nTotalBlocksEstimate with_threads].
  destruct (CheckBlock _ _ _ _ _ _ b) as [[[]|k|] b1]; [|done..].
  assert (Hn : (connect_txs (with_threads n par) fj txdb pool pindex pprev b1 c).2 = c /\
    forall x, (connect_txs (with_threads n par) fj txdb pool pindex pprev b1 c).1 = Done x <->
      (connect_txs (with_threads 0 par) fj txdb pool pindex pprev b1 c).1 = Done x).
  { destruct (decide (n = 0)) as [->|Hn]; [|by apply connect_txs_threads]. split; [|done].
    by apply (connect_txs_threads 1 par fj txdb pool pindex pprev b1 c). }
  destruct (connect_txs (with_threads n par) _ _ _ _ _ _ _) as [r1 c1], (connect_txs (with_threads 0 par) _ _ _ _ _ _ _) as [r0 c0].
  cbn [fst snd] in *. destruct Hn as [Hn1 Hn2]. by split_and!.
Qed.
End views.

(** ** Witnesses: a block with a coinbase and a transaction that spends an earlier one *)

Definition paid_tx : CTransaction :=
  mkTx 1 1500000000 [mkTxIn (mkOutPoint (assign64 WIDTH256 99) 0) [] UINT_MAX] [mkTxOut (10 * COIN) [0x51]] 0.
Definition paid_hash : list Z := CTransaction_GetHash (H := toy_hash) paid_tx.
Definition spend_tx : CTransaction :=
  mkTx 1 1590000000 [mkTxIn (mkOutPoint paid_hash 0) [] UINT_MAX] [mkTxOut (9 * COIN) [0x51]] 0.
Definition spend_block : CBlock :=
  let b := mkBlock 4 toy_hash256 (assign64 WIDTH256 0) 1600000000 0x1e0fffff 7 [lone_coinbase; spend_tx] [] []
    (assign64 WIDTH256 0) false in
  with_header b (BuildMerkleTree (H := toy_hash) b).1 1600000000 7.

Definition paid_index : CTxIndex := CTxIndex_new (mkPos 1 100 200) 1.
Definition toy_db : CTxDB := mkTxDB {[ tx_key paid_hash := Serialize txindex_codec paid_index ]} None false.
#[export] Instance toy_files : Files := {|
  read_tx p := if bool_decide (p = mkPos 1 100 200) then Some paid_tx else None;
  read_block_time _ _ := Some 1500000000
|}.
Definition toy_params : Params := mkParams false 1600000000 (assign64 WIDTH256 0) 100 60 3 50000 0 true 100 0 0.
Definition toy_pindex : CBlockIndex :=
  let i := CBlockIndex_of 1 5000 spend_block in
  mkIndex [] 1 5000 (bi_nChainTrust i) 100 0 0 0 0 0 COutPoint_null 0 [] 4 (hashMerkleRoot spend_block) 1600000000 0x1e0fffff 7.

Definition toy_connect n := ConnectBlock (B := ZBN) (H := toy_hash) (E := toy_ec) (P := no_secp) (T := leveldb_store)
  (with_threads n toy_params) false toy_db ∅ toy_pindex [] spend_block empty_cache.

Lemma toy_connect_done : exists t i, (toy_connect 3).1.1 = Done (t, i).
Proof. eexists _, _. vm_compute. reflexivity. Qed.

Lemma empty_cache_valid : cache_valid (E := toy_ec) (P := no_secp) empty_cache.
Proof. intros e He. by apply not_elem_of_nil in He. Qed.

(** Whatever is read from [toy_db] is the one entry written *)
Lemma toy_db_read h x : db_ReadTxIndex toy_db h = Some x -> x = paid_index.
Proof.
  rewrite db_ReadTxIndex_view. unfold view, toy_db. cbn [activeBatch pdb].
  destruct (decide (tx_key paid_hash = tx_key h)) as [<-|Hn].
  - rewrite lookup_singleton_eq. vm_compute. congruence.
  - by rewrite lookup_singleton_ne.
Qed.

Lemma paid_index_ok : txindex_ok paid_index /\ canonical paid_index.
Proof.
  split; [split; [by unfold txpos_ok, fits; cbn; lia|]|by repeat constructor].
  split; [|unfold MAX_SIZE; cbn; lia]. repeat constructor; cbn; unfold UINT_MAX; lia.
Qed.

Lemma toy_db_ok : db_ok toy_db.
Proof. split; [done|]. intros h x _ ->%toy_db_read. apply paid_index_ok. Qed.

Lemma spend_block_ok : Forall tx_ok (vtx spend_block).
Proof.
  assert (Hh : uint_ok WIDTH256 paid_hash) by apply Hash_ok. change (vtx spend_block) with [lone_coinbase; spend_tx].
  unfold lone_coinbase, spend_tx, tx_ok, vec_ok, txin_ok, txout_ok, outpoint_ok, vch_ok, fits, sfits, MAX_SIZE, UINT_MAX, COIN.
  generalize dependent paid_hash. intros ph Hh.
  repeat (apply Forall_cons_2 || apply Forall_nil_2 || split_and!); cbn; try lia; try done.
  all: repeat (apply Forall_cons_2 || apply Forall_nil_2 || split_and!); cbn; unfold is_digit; try lia; try done; by apply Hh.
Qed.

Lemma disconnect_connect_witness :
  exists t i b t', (toy_connect 3).1 = (Done (t, i), b) /\ DisconnectBlock (T := leveldb_store) (H := toy_hash) b t = Some t' /\
    db_ReadTxIndex t' paid_hash = Some paid_index.
Proof.
  destruct toy_connect_done as (t & i & E). destruct (toy_connect 3) as [[r b] c] eqn:Ec. cbn [fst] in E. subst r.
  destruct (disconnect_connect (B := ZBN) (H := toy_hash) (E := toy_ec) (P := no_secp) (T := leveldb_store)
    (with_threads 3 toy_params) toy_db ∅ toy_pindex [] spend_block empty_cache t i b c) as (_ & t' & Hd & _ & Hr).
  - exact toy_db_ok.
  - exact empty_cache_valid.
  - by intros [=].
  - exact spend_block_ok.
  - unfold UINT_MAX. cbn [bi_nFile toy_pindex]. lia.
  - unfold fits. cbn [bi_nFile toy_pindex]. lia.
  - unfold fits. cbn [bi_nBlockPos toy_pindex]. lia.
  - intros h x ->%toy_db_read. apply paid_index_ok.
  - constructor; [vm_compute; reflexivity|]. constructor; [vm_compute; reflexivity|constructor].
  - exact Ec.
  - exists t, i, b, t'. split_and!; [done..|]. etrans; [apply Hr, Hash_ok|]. vm_compute. reflexivity.
Defined.

Lemma connect_block_threads_witness : exists r, (toy_connect 0).1.1 = Done r.
Proof.
  destruct toy_connect_done as (t & i & E). exists (t, i).
  destruct (connect_block_threads (B := ZBN) (H := toy_hash) (E := toy_ec) (P := no_secp) (T := leveldb_store) 3 toy_params
    false toy_db ∅ toy_pindex [] spend_block empty_cache empty_cache_valid) as (_ & _ & Hr). exact (proj1 (Hr (t, i)) E).
Defined.

Definition toy_inputs : MapPrevTx := {[ paid_hash := (paid_index, paid_tx) ]}.
Definition toy_inline : Mode := mkMode true false true (SCRIPT_VERIFY_NOCACHE .| SCRIPT_VERIFY_P2SH) false.
Definition toy_spend := ConnectInputs (B := ZBN) (H := toy_hash) (E := toy_ec) (P := no_secp) (T := leveldb_store)
  toy_params toy_inline toy_db spend_tx toy_inputs ∅ (mkPos 1 5000 300) [toy_pindex] empty_cache.

Lemma toy_spend_done : exists q, toy_spend.1 = Done (q, []).
Proof. eexists. vm_compute. reflexivity. Qed.

Lemma connect_inputs_sound_witness :
  forallb (script_ok (B := ZBN) (H := toy_hash) (E := toy_ec) (P := no_secp))
    (checks_of (flags toy_inline) spend_tx toy_inputs 0 (vin spend_tx)) = true.
Proof.
  destruct toy_spend_done as (q & Eq). destruct toy_spend as [r c] eqn:Ec. cbn [fst] in Eq. subst r.
  destruct (connect_inputs_sound (B := ZBN) (H := toy_hash) (E := toy_ec) (P := no_secp) (T := leveldb_store)
    toy_params toy_inline toy_db spend_tx toy_inputs ∅ (mkPos 1 5000 300) [toy_pindex] empty_cache q [] c)
    as (_ & _ & _ & Hs & _); [reflexivity|exact empty_cache_valid|reflexivity|exact Ec|]. exact (Hs eq_refl).
Defined.
