(* ===== verification/CheckQueue.v ===== *)
(** * The check queue: [CCheckQueue] of [checkqueue.h]

    A master hands batches of checks to a pool of threads and joins them when it waits
    for the result.  A step of the model is one critical section of a thread, with the
    checks a thread runs outside the lock done just before its next one.  A wait may
    end at any time, as condition variables allow.  Thread 0 is the master. *)

From S2P Require Import Prelude Serialize.

Section CheckQueue.
Context {T : Type} (check : T -> bool).

Record CCheckQueue := mkQueue {
  queue : list T;
  nIdle : Z;
  nTotal : Z;
  fAllOk : bool;
  nTodo : Z;
  fQuit : bool;
  nBatchSize : Z
}.

Definition CCheckQueue_new (nBatchSizeIn : Z) : CCheckQueue := mkQueue [] 0 0 true 0 false nBatchSizeIn.

(** Where a thread is: not in [Loop], in [cond.wait], with a batch, or done for good *)
Inductive thread := Outside | Waiting | Working (vChecks : list T) (fOk : bool) | Exited.

(** How many units to process now *)
Definition batch_size (q : CCheckQueue) : Z :=
  Z.max 1 (Z.min (nBatchSize q) (Z.of_nat (length (queue q)) / (nTotal q + nIdle q + 1))).

(** The critical section of [Loop] from [while (queue.empty())] on: the thread returns
    (with the verdict), waits or takes a batch from the back of the queue *)
Definition critical (fMaster : bool) (q : CCheckQueue) : CCheckQueue * thread * option bool :=
  match queue q with
  | [] =>
      if (fMaster || fQuit q) && (nTodo q =? 0) then
        (mkQueue [] (nIdle q) (nTotal q - 1) (if fMaster then true else fAllOk q) (nTodo q) (fQuit q) (nBatchSize q),
         if fMaster then Outside else Exited, Some (fAllOk q))
      else (mkQueue [] (nIdle q + 1) (nTotal q) (fAllOk q) (nTodo q) (fQuit q) (nBatchSize q), Waiting, None)
  | l =>
      let nNow := Z.to_nat (batch_size q) in
      let rest := (length l - nNow)%nat in
      (mkQueue (take rest l) (nIdle q) (nTotal q) (fAllOk q) (nTodo q) (fQuit q) (nBatchSize q),
       Working (rev (drop rest l)) (fAllOk q), None)
  end.

(** Entering the loop, waking up, and coming back with a batch; each goes on with
    [critical] under the same lock *)
Definition enter (q : CCheckQueue) : CCheckQueue :=
  mkQueue (queue q) (nIdle q) (nTotal q + 1) (fAllOk q) (nTodo q) (fQuit q) (nBatchSize q).
Definition wake (q : CCheckQueue) : CCheckQueue :=
  mkQueue (queue q) (nIdle q - 1) (nTotal q) (fAllOk q) (nTodo q) (fQuit q) (nBatchSize q).
(** [if (fOk) fOk = check()] over the batch *)
Definition run_batch (vChecks : list T) (fOk : bool) : bool := foldl (fun ok k => if ok : bool then check k else ok) fOk vChecks.
Definition finish (vChecks : list T) (fOk : bool) (q : CCheckQueue) : CCheckQueue :=
  mkQueue (queue q) (nIdle q) (nTotal q) (fAllOk q && run_batch vChecks fOk) (u32 (nTodo q - Z.of_nat (length vChecks)))
    (fQuit q) (nBatchSize q).

Definition Add (vChecks : list T) (q : CCheckQueue) : CCheckQueue :=
  mkQueue (queue q ++ vChecks) (nIdle q) (nTotal q) (fAllOk q) (u32 (nTodo q + Z.of_nat (length vChecks))) (fQuit q) (nBatchSize q).

Definition Quit (q : CCheckQueue) : CCheckQueue :=
  mkQueue (queue q) (nIdle q) (nTotal q) (fAllOk q) (nTodo q) true (nBatchSize q).

(** A queue with its threads.  [fNotified] is whether [condMaster] has been notified
    since the master began to wait; [added] are the checks added since the master last
    had a verdict, which the program does not keep. *)
Record system := mkSystem { sys_queue : CCheckQueue; threads : list thread; fNotified : bool; added : list T }.

Definition system_new (nBatchSizeIn : Z) (nThreads : nat) : system :=
  mkSystem (CCheckQueue_new nBatchSizeIn) (replicate (S nThreads) Outside) false [].

Definition is_master (i : nat) : bool := (i =? 0)%nat.

(** The thread [i] after its critical section *)
Definition after (s : system) (i : nat) (q : CCheckQueue) (notified : bool) : system * option bool :=
  let '(q, t, r) := critical (is_master i) q in
  let r := if is_master i then r else None in
  (mkSystem q (<[i := t]> (threads s)) notified (match r with Some _ => [] | None => added s end), r).

(** The steps, labelled with the verdict when the master gets one *)
Inductive step : system -> option bool -> system -> Prop :=
  | step_add s vChecks :
      threads s !! 0%nat = Some Outside -> nTodo (sys_queue s) + Z.of_nat (length vChecks) < 2 ^ 32 ->
      step s None (mkSystem (Add vChecks (sys_queue s)) (threads s) (fNotified s) (added s ++ vChecks))
  | step_quit s : step s None (mkSystem (Quit (sys_queue s)) (threads s) (fNotified s) (added s))
  | step_enter s i s' r :
      threads s !! i = Some Outside ->
      after s i (enter (sys_queue s)) (if is_master i then false else fNotified s) = (s', r) -> step s r s'
  | step_wake s i s' r :
      threads s !! i = Some Waiting ->
      after s i (wake (sys_queue s)) (if is_master i then false else fNotified s) = (s', r) -> step s r s'
  | step_finish s i vChecks fOk s' r :
      threads s !! i = Some (Working vChecks fOk) ->
      (let q := finish vChecks fOk (sys_queue s) in
       after s i q (if is_master i then false else fNotified s || (nTodo q =? 0))) = (s', r) -> step s r s'.

Definition reachable (nBatchSizeIn : Z) (nThreads : nat) (s : system) : Prop :=
  rtc (fun s1 s2 => exists r, step s1 r s2) (system_new nBatchSizeIn nThreads) s.

(** ** Lemmas: counting over the threads *)

Fixpoint total {A} (f : A -> Z) (l : list A) : Z :=
  match l with
  | [] => 0
  | x :: l => f x + total f l
  end.

Lemma total_insert {A} (f : A -> Z) l i x y : l !! i = Some x -> total f (<[i := y]> l) = total f l - f x + f y.
Proof.
  revert i. induction l as [|z l IH]; intros [|i] Hi; [done..|injection Hi as ->|].
  - change (<[0%nat := y]> (x :: l)) with (y :: l). cbn [total]. lia.
  - change (<[S i := y]> (z :: l)) with (z :: <[i := y]> l). cbn [total]. rewrite (IH i Hi). lia.
Qed.

Lemma total_nonneg {A} (f : A -> Z) l : (forall x, 0 <= f x) -> 0 <= total f l.
Proof. intros Hf. induction l as [|x l IH]; cbn [total]; [lia|]. specialize (Hf x). lia. Qed.

Lemma total_zero {A} (f : A -> Z) l : (forall x, 0 <= f x) -> total f l = 0 -> Forall (fun x => f x = 0) l.
Proof.
  intros Hf. induction l as [|x l IH]; cbn [total]; [constructor|]. intros Ht.
  pose proof (total_nonneg f l Hf). specialize (Hf x). constructor; [lia|apply IH; lia].
Qed.

Lemma forallb_insert {A} (f : A -> bool) l i x y :
  l !! i = Some x -> forallb f (<[i := y]> l) && f x = forallb f l && f y.
Proof.
  revert i. induction l as [|z l IH]; intros [|i] Hi; [done..|injection Hi as ->|].
  - change (<[0%nat := y]> (x :: l)) with (y :: l). cbn [forallb]. destruct (f x), (f y), (forallb f l); done.
  - change (<[S i := y]> (z :: l)) with (z :: <[i := y]> l). cbn [forallb]. rewrite <- !andb_assoc. f_equal. by apply IH.
Qed.

Definition in_loop (t : thread) : Z := match t with Waiting | Working _ _ => 1 | _ => 0 end.
Definition waits (t : thread) : Z := match t with Waiting => 1 | _ => 0 end.
Definition batch (t : thread) : list T := match t with Working b _ => b | _ => [] end.
Definition todo (t : thread) : Z := Z.of_nat (length (batch t)).
Definition thread_ok (t : thread) : Prop := match t with Working b _ => b <> [] | _ => True end.

Lemma todo_nonneg t : 0 <= todo t.
Proof. unfold todo. lia. Qed.

(** The state of the queue, [k] threads being inside the loop without having an entry
    that says so: 0 between the critical sections, 1 within one *)
Record inv_at (k : Z) (q : CCheckQueue) (ts : list thread) (notified : bool) (added : list T) : Prop := {
  inv_total : nTotal q = total in_loop ts + k;
  inv_idle : nIdle q = total waits ts;
  inv_todo : nTodo q = Z.of_nat (length (queue q)) + total todo ts;
  inv_width : nTodo q < 2 ^ 32;
  inv_threads : Forall thread_ok ts;
  inv_flags : fAllOk q = true -> Forall (fun t => match t with Working _ ok => ok = true | _ => True end) ts;
  inv_verdict : forallb check added = fAllOk q && forallb check (queue q) && forallb (fun t => forallb check (batch t)) ts;
  inv_none : added = [] -> nTodo q = 0 /\ fAllOk q = true;
  inv_master : ts !! 0%nat = Some Waiting -> notified = false -> queue q = [] /\ nTodo q <> 0
}.

Lemma run_batch_spec b ok : run_batch b ok = ok && forallb check b.
Proof.
  unfold run_batch. revert ok. induction b as [|k b IH]; intros ok; cbn [foldl forallb]; [by rewrite andb_true_r|].
  rewrite IH. by destruct ok.
Qed.

(** No batch is out when nothing is left to do *)
Lemma inv_idle_threads k q ts notified added :
  inv_at k q ts notified added -> nTodo q = 0 -> queue q = [] /\ Forall (fun t => batch t = []) ts.
Proof.
  intros [] H0. pose proof (total_nonneg todo ts todo_nonneg). rewrite inv_todo0 in H0.
  split; [by apply length_zero_iff_nil; lia|]. eapply Forall_impl; [apply (total_zero todo); [apply todo_nonneg|lia]|].
  intros t Ht. unfold todo in Ht. apply length_zero_iff_nil. lia.
Qed.

(** Replacing the entry of a thread *)
Lemma forallb_batch_insert ts i x y :
  ts !! i = Some x -> forallb check (batch x) = true ->
  forallb (fun t => forallb check (batch t)) (<[i := y]> ts) = forallb (fun t => forallb check (batch t)) ts && forallb check (batch y).
Proof. intros Hi Hx. pose proof (forallb_insert (fun t => forallb check (batch t)) ts i x y Hi) as E. cbv beta in E. by rewrite Hx, andb_true_r in E. Qed.

Lemma waiting_insert ts i t :
  <[i := t]> ts !! 0%nat = Some Waiting -> (i < length ts)%nat ->
  (i = 0%nat /\ t = Waiting) \/ (i <> 0%nat /\ ts !! 0%nat = Some Waiting).
Proof.
  intros H0 Hl. destruct (decide (i = 0%nat)) as [->|Hn].
  - rewrite list_lookup_insert_eq in H0 by done. left. naive_solver.
  - rewrite list_lookup_insert_ne in H0 by done. by right.
Qed.

(** A thread leaves the loop: the master with the verdict, a worker at the end *)
Lemma leave_inv i q ts notified added t :
  inv_at 1 q ts notified added -> ts !! i = Some Outside -> queue q = [] -> nTodo q = 0 -> t = Outside \/ t = Exited ->
  fAllOk q = forallb check added /\
  inv_at 0 (mkQueue [] (nIdle q) (nTotal q - 1) true (nTodo q) (fQuit q) (nBatchSize q)) (<[i := t]> ts) notified [] /\
  (i <> 0%nat -> inv_at 0 (mkQueue [] (nIdle q) (nTotal q - 1) (fAllOk q) (nTodo q) (fQuit q) (nBatchSize q)) (<[i := t]> ts) notified added).
Proof.
  intros Hinv Hi Hq H0 Ht. destruct (inv_idle_threads _ _ _ _ _ Hinv H0) as [_ Hb]. destruct Hinv.
  assert (Hl : (i < length ts)%nat) by (by eapply lookup_lt_Some).
  assert (Hz : in_loop t = 0 /\ waits t = 0 /\ batch t = [] /\ thread_ok t /\ t <> Waiting) by (by destruct Ht as [-> | ->]).
  destruct Hz as (Hz1 & Hz2 & Hz3 & Hz4 & Hz5).
  assert (Hins : forall f, total f (<[i := t]> ts) = total f ts - f Outside + f t) by (intros; by apply total_insert).
  assert (Hall : forallb (fun t => forallb check (batch t)) ts = true).
  { apply forallb_forall. intros x Hx. rewrite Forall_forall in Hb. rewrite Hb by (by apply list_elem_of_In). done. }
  assert (Hall' : forallb (fun t => forallb check (batch t)) (<[i := t]> ts) = true).
  { by rewrite (forallb_batch_insert ts i Outside), Hall, Hz3. }
  assert (Hok : Forall thread_ok (<[i := t]> ts)) by (by apply Forall_insert).
  assert (Hfl : Forall (fun t => match t with Working _ ok => ok = true | _ => True end) (<[i := t]> ts)).
  { apply Forall_insert; [|by destruct Ht as [-> | ->]].
    eapply Forall_impl; [exact (proj2 (Forall_and _ _) (conj inv_threads0 Hb))|]. intros [| |b ok|] [H1 H2]; done. }
  assert (Htodo : total todo (<[i := t]> ts) = total todo ts) by (rewrite Hins; unfold todo; rewrite Hz3; cbn; lia).
  rewrite Hq, Hall in *. cbn [forallb length] in *. rewrite !andb_true_r in inv_verdict0.
  assert (Hwait : <[i := t]> ts !! 0%nat = Some Waiting -> notified = false -> False).
  { intros Hw Hn. destruct (waiting_insert _ _ _ Hw Hl) as [[_ ?]|[_ Hw']]; [done|]. by destruct (inv_master0 Hw' Hn). }
  split_and!; [done| |intros _]; split; cbn [queue nIdle nTotal fAllOk nTodo nBatchSize]; rewrite ?Htodo, ?Hall'; rewrite ?Hins, ?Hz1, ?Hz2;
    cbn [in_loop waits length forallb]; rewrite ?andb_true_r; try done; try lia; intros; by exfalso; auto.
Qed.

(** A thread waits *)
Lemma wait_inv i q ts notified added :
  inv_at 1 q ts notified added -> ts !! i = Some Outside -> queue q = [] -> (i = 0%nat -> nTodo q <> 0) ->
  inv_at 0 (mkQueue [] (nIdle q + 1) (nTotal q) (fAllOk q) (nTodo q) (fQuit q) (nBatchSize q)) (<[i := Waiting]> ts) notified added.
Proof.
  intros [] Hi Hq H0. assert (Hl : (i < length ts)%nat) by (by eapply lookup_lt_Some).
  assert (Hins : forall f, total f (<[i := Waiting]> ts) = total f ts - f Outside + f Waiting) by (intros; by apply total_insert).
  rewrite Hq in *. split; cbn [queue nIdle nTotal fAllOk nTodo nBatchSize]; rewrite ?Hins; cbn [in_loop waits length] in *; try done; try lia.
  - unfold todo at 2 3. cbn [batch length]. lia.
  - by apply Forall_insert.
  - intros Ha. apply Forall_insert; [by apply inv_flags0|done].
  - rewrite (forallb_batch_insert ts i Outside) by done. cbn [batch forallb] in *. by rewrite !andb_true_r in *.
  - intros Hw Hn. split; [done|]. destruct (waiting_insert _ _ _ Hw Hl) as [[-> _]|[_ Hw']]; [by apply H0|by apply inv_master0].
Qed.

(** A thread takes a batch *)
Lemma take_inv i q ts notified added n :
  inv_at 1 q ts notified added -> ts !! i = Some Outside -> queue q <> [] -> (0 < n <= length (queue q))%nat ->
  let rest := (length (queue q) - n)%nat in
  inv_at 0 (mkQueue (take rest (queue q)) (nIdle q) (nTotal q) (fAllOk q) (nTodo q) (fQuit q) (nBatchSize q))
    (<[i := Working (rev (drop rest (queue q))) (fAllOk q)]> ts) notified added.
Proof.
  intros [] Hi Hq Hn rest. assert (Hl : (i < length ts)%nat) by (by eapply lookup_lt_Some).
  set (t := Working (rev (drop rest (queue q))) (fAllOk q)).
  assert (Hins : forall f, total f (<[i := t]> ts) = total f ts - f Outside + f t) by (intros; by apply total_insert).
  assert (Ht : todo t = Z.of_nat n) by (unfold todo, t, rest; cbn [batch]; rewrite length_rev, length_drop; lia).
  assert (Hlen : length (take rest (queue q)) = rest) by (rewrite length_take; unfold rest; lia).
  split; cbn [queue nIdle nTotal fAllOk nTodo nBatchSize]; rewrite ?Hins, ?Ht, ?Hlen; cbn [in_loop waits t] in *; try done; try lia.
  - unfold todo at 2. cbn [batch length]. unfold rest. lia.
  - apply Forall_insert; [done|]. cbn [thread_ok t]. intros He. apply (f_equal length) in He.
    rewrite length_rev, length_drop in He. cbn in He. unfold rest in He. lia.
  - intros Ha. apply Forall_insert; [by apply inv_flags0|]. by cbn [t].
  - rewrite (forallb_batch_insert ts i Outside), inv_verdict0 by done. cbn [batch t].
    assert (forallb check (rev (drop rest (queue q))) = forallb check (drop rest (queue q))) as ->.
    { apply eq_true_iff_eq. rewrite !forallb_forall. split; intros Hf x Hx; apply Hf; [by apply in_rev in Hx|by apply in_rev]. }
    rewrite <- (take_drop rest (queue q)) at 1. rewrite forallb_app.
    destruct (fAllOk q), (forallb check (take rest (queue q))), (forallb check (drop rest (queue q))), (forallb _ ts); done.
  - intros Hw Hf. destruct (waiting_insert _ _ _ Hw Hl) as [[_ ?]|[_ Hw']]; [done|]. by destruct (inv_master0 Hw' Hf).
Qed.

Definition inv (s : system) : Prop := inv_at 0 (sys_queue s) (threads s) (fNotified s) (added s).

(** What a step says when it is labelled *)
Definition verdict_ok (s : system) (r : option bool) (s' : system) : Prop :=
  forall b, r = Some b -> b = forallb check (added s) /\ added s' = [] /\ queue (sys_queue s') = [] /\ fAllOk (sys_queue s') = true.

Lemma batch_size_range (q : CCheckQueue) :
  queue q <> [] -> 0 <= nTotal q + nIdle q -> (0 < Z.to_nat (batch_size q) <= length (queue q))%nat.
Proof.
  intros Hq Ht. unfold batch_size. assert (0 < length (queue q))%nat by (destruct (queue q); [done|cbn; lia]).
  assert (Z.of_nat (length (queue q)) / (nTotal q + nIdle q + 1) <= Z.of_nat (length (queue q))).
  { apply Z.div_le_upper_bound; nia. }
  lia.
Qed.

Lemma after_inv s i q notified s' r :
  inv_at 1 q (<[i := Outside]> (threads s)) notified (added s) -> (i < length (threads s))%nat ->
  after s i q notified = (s', r) -> inv s' /\ verdict_ok s r s'.
Proof.
  intros Hinv Hl. unfold after, critical. set (ts := <[i := Outside]> (threads s)) in *.
  assert (Hi : ts !! i = Some Outside) by (by apply list_lookup_insert_eq).
  assert (Hts : forall t, <[i := t]> (threads s) = <[i := t]> ts) by (intros t; unfold ts; by rewrite list_insert_insert_eq).
  assert (Hm : is_master i = true <-> i = 0%nat) by apply Nat.eqb_eq.
  destruct (queue q) as [|k0 l0] eqn:Eq.
  - destruct ((is_master i || fQuit q) && (nTodo q =? 0)) eqn:Ec.
    + apply andb_true_iff in Ec as [_ E0%Z.eqb_eq].
      destruct (leave_inv i q ts notified (added s) (if is_master i then Outside else Exited) Hinv Hi Eq E0) as (Hv & H1 & H2);
        [destruct (is_master i); auto|].
      destruct (is_master i) eqn:Em; intros [= <- <-]; unfold inv, verdict_ok; cbn [sys_queue threads fNotified added queue fAllOk]; rewrite Hts.
      * split; [done|]. intros b [= <-]. done.
      * split; [|done]. apply H2. intros ->. done.
    + assert (i = 0%nat -> nTodo q <> 0) as H0.
      { intros Em%Hm. rewrite Em in Ec. by apply Z.eqb_neq. }
      intros [= <- <-]. unfold inv, verdict_ok. cbn [sys_queue threads fNotified added]. rewrite Hts.
      split; [|by destruct (is_master i)]. destruct (is_master i); by apply wait_inv.
  - assert (Hn : (0 < Z.to_nat (batch_size q) <= length (queue q))%nat).
    { apply batch_size_range; [by rewrite Eq|]. destruct Hinv. pose proof (total_nonneg in_loop ts ltac:(by intros []; cbn; lia)).
      pose proof (total_nonneg waits ts ltac:(by intros []; cbn; lia)). lia. }
    rewrite <- Eq. intros [= <- <-]. unfold inv, verdict_ok. cbn [sys_queue threads fNotified added]. rewrite Hts.
    split; [|by destruct (is_master i)]. destruct (is_master i); (apply take_inv; [done|done|by rewrite Eq|done]).
Qed.

(** Taking the entry of a thread out *)
Lemma outside_inv i q ts notified added x :
  ts !! i = Some x ->
  total in_loop (<[i := Outside]> ts) = total in_loop ts - in_loop x /\
  total waits (<[i := Outside]> ts) = total waits ts - waits x /\
  total todo (<[i := Outside]> ts) = total todo ts - todo x /\
  (inv_at 0 q ts notified added ->
   Forall thread_ok (<[i := Outside]> ts) /\
   (fAllOk q = true -> Forall (fun t => match t with Working _ ok => ok = true | _ => True end) (<[i := Outside]> ts))) /\
  forallb (fun t => forallb check (batch t)) ts = forallb (fun t => forallb check (batch t)) (<[i := Outside]> ts) && forallb check (batch x).
Proof.
  intros Hi. rewrite !(total_insert _ _ _ _ _ Hi). cbn [in_loop waits]. assert (todo Outside = 0) as -> by done. split_and!; [lia..| |].
  - intros []. split; [by apply Forall_insert|]. intros Ha. apply Forall_insert; [by apply inv_flags0|done].
  - pose proof (forallb_insert (fun t => forallb check (batch t)) ts i x Outside Hi) as E0. cbv beta in E0. rewrite E0.
    cbn [batch forallb]. by rewrite andb_true_r.
Qed.

Lemma outside_waiting (ts : list thread) i :
  <[i := Outside]> ts !! 0%nat = Some Waiting -> (i < length ts)%nat -> i <> 0%nat /\ ts !! 0%nat = Some Waiting.
Proof. intros Hw Hl. by destruct (waiting_insert _ _ _ Hw Hl) as [[_ ?]|?]. Qed.

(** Another thread runs while the master waits *)
Lemma master_waits s i :
  inv s -> (i < length (threads s))%nat -> <[i := Outside]> (threads s) !! 0%nat = Some Waiting ->
  is_master i = false /\ (fNotified s = false -> queue (sys_queue s) = [] /\ nTodo (sys_queue s) <> 0).
Proof.
  intros [] Hl Hw. destruct (outside_waiting _ _ Hw Hl) as [Hi Hw']. split; [by apply Nat.eqb_neq|]. by apply inv_master0.
Qed.

(** Entering the loop and waking up *)
Lemma resume_inv s i x q :
  inv s -> threads s !! i = Some x -> x = Outside /\ q = enter (sys_queue s) \/ x = Waiting /\ q = wake (sys_queue s) ->
  inv_at 1 q (<[i := Outside]> (threads s)) (if is_master i then false else fNotified s) (added s).
Proof.
  intros Hs Hi Hx. assert (Hl : (i < length (threads s))%nat) by (by eapply lookup_lt_Some).
  destruct (outside_inv i (sys_queue s) (threads s) (fNotified s) (added s) x Hi) as (E1 & E2 & E3 & E4 & E5).
  destruct (E4 Hs) as [E6 E7]. assert (Hb : batch x = []) by (by destruct Hx as [[-> _]|[-> _]]).
  unfold todo at 3 in E3. rewrite Hb in E3, E5. cbn [length forallb] in E3, E5. rewrite andb_true_r in E5.
  assert (Hf : queue q = queue (sys_queue s) /\ nTodo q = nTodo (sys_queue s) /\ fAllOk q = fAllOk (sys_queue s) /\
    nTotal q = nTotal (sys_queue s) - in_loop x + 1 /\ nIdle q = nIdle (sys_queue s) - waits x).
  { destruct Hx as [[-> ->]|[-> ->]]; cbn [queue nTodo fAllOk nTotal nIdle enter wake in_loop waits]; split_and!; done || lia. }
  destruct Hf as (F1 & F2 & F3 & F4 & F5). pose proof Hs as Hs'. destruct Hs'.
  split; rewrite ?F1, ?F2, ?F3, ?F4, ?F5, ?E1, ?E2, ?E3, <- ?E5; try done; try lia.
  intros Hw. destruct (master_waits s i Hs Hl Hw) as [-> Hm]. exact Hm.
Qed.

(** Coming back with a batch *)
Lemma finish_inv s i b ok :
  inv s -> threads s !! i = Some (Working b ok) ->
  let q := finish b ok (sys_queue s) in
  inv_at 1 q (<[i := Outside]> (threads s)) (if is_master i then false else fNotified s || (nTodo q =? 0)) (added s).
Proof.
  intros Hs Hi q. assert (Hl : (i < length (threads s))%nat) by (by eapply lookup_lt_Some).
  destruct (outside_inv i (sys_queue s) (threads s) (fNotified s) (added s) (Working b ok) Hi) as (E1 & E2 & E3 & E4 & E5).
  destruct (E4 Hs) as [E6 E7]. pose proof Hs as Hs'. destruct Hs'. cbn [in_loop waits batch] in *. unfold todo at 3 in E3. cbn [batch] in E3.
  assert (Hb : b <> []) by (rewrite Forall_lookup in inv_threads0; exact (inv_threads0 i _ Hi)).
  pose proof (total_nonneg todo (<[i := Outside]> (threads s)) todo_nonneg) as Hnn.
  assert (Hu : nTodo q = nTodo (sys_queue s) - Z.of_nat (length b)) by (apply wrap_small; lia).
  assert (Hpos : 0 < Z.of_nat (length b)) by (destruct b; [done|cbn; lia]). revert Hu. unfold q. clear q. intros Hu.
  split; rewrite ?Hu; cbn [sys_queue queue nIdle nTotal fAllOk nBatchSize finish]; rewrite ?E1, ?E2, ?E3; try done; try lia.
  - intros [Hok _]%andb_true_iff. by apply E7.
  - rewrite inv_verdict0, E5, run_batch_spec. destruct (fAllOk (sys_queue s)) eqn:Ea; [|done].
    specialize (inv_flags0 eq_refl). rewrite Forall_lookup in inv_flags0. rewrite (inv_flags0 i _ Hi). cbn [andb].
    destruct (forallb check (queue (sys_queue s))), (forallb check b), (forallb _ (<[i := Outside]> (threads s))); done.
  - intros Hn. destruct (inv_none0 Hn) as [H0 _]. lia.
  - intros Hw. destruct (master_waits s i Hs Hl Hw) as [-> Hm]. intros [Hn1 Hn2%Z.eqb_neq]%orb_false_iff. split; [by apply Hm|done].
Qed.

Lemma Add_inv s vs :
  inv s -> threads s !! 0%nat = Some Outside -> nTodo (sys_queue s) + Z.of_nat (length vs) < 2 ^ 32 ->
  inv (mkSystem (Add vs (sys_queue s)) (threads s) (fNotified s) (added s ++ vs)).
Proof.
  intros [] Hm Hw. assert (0 <= nTodo (sys_queue s)).
  { rewrite inv_todo0. pose proof (total_nonneg todo (threads s) todo_nonneg). lia. }
  assert (u32 (nTodo (sys_queue s) + Z.of_nat (length vs)) = nTodo (sys_queue s) + Z.of_nat (length vs)) as Hu by (apply wrap_small; lia).
  split; cbn [sys_queue threads fNotified added queue nIdle nTotal fAllOk nTodo nBatchSize Add]; rewrite ?Hu, ?length_app, ?forallb_app; try done; try lia.
  - rewrite inv_verdict0. destruct (fAllOk (sys_queue s)), (forallb check (queue (sys_queue s))), (forallb check vs), (forallb _ (threads s)); done.
  - intros [Ha ->]%app_eq_nil. destruct (inv_none0 Ha) as [-> ->]. done.
  - congruence.
Qed.

Lemma step_inv s r s' : inv s -> step s r s' -> inv s' /\ verdict_ok s r s'.
Proof.
  intros Hs Hst. destruct Hst as [s vs Hm Hw|s|s i s' r Hi Ha|s i s' r Hi Ha|s i b ok s' r Hi Ha].
  - split; [by apply Add_inv|done].
  - split; [|done]. destruct Hs. by split.
  - eapply after_inv; [|by eapply lookup_lt_Some|exact Ha]. eapply resume_inv; [done..|]. by left.
  - eapply after_inv; [|by eapply lookup_lt_Some|exact Ha]. eapply resume_inv; [done..|]. by right.
  - eapply after_inv; [|by eapply lookup_lt_Some|exact Ha]. by apply finish_inv.
Qed.

Lemma inv_start nBatchSizeIn nThreads : inv (system_new nBatchSizeIn nThreads).
Proof.
  assert (Ht : forall f, f Outside = 0 -> total f (replicate (S nThreads) Outside) = 0).
  { intros f Hf. induction (S nThreads) as [|n IH]; cbn [replicate total]; [done|]. by rewrite Hf, IH. }
  split; cbn [sys_queue threads fNotified added system_new CCheckQueue_new queue nIdle nTotal fAllOk nTodo]; rewrite ?Ht by done; try done.
  - by apply Forall_replicate.
  - intros _. by apply Forall_replicate.
  - cbn [forallb andb]. clear Ht. induction (S nThreads) as [|n IH]; [done|]. exact IH.
Qed.

(** ** Claims *)

(** C27: whatever the number of threads and the order in which they run, the verdict the
    master gets is whether all the checks added since the last verdict succeed, and
    the queue is ready for the next use; when nothing has been added the assertions of
    [CCheckQueueControl] hold; and no wake-up is lost: a master that waits without
    having been notified waits for a thread that has a batch. *)
Theorem check_queue_verdict (nBatchSizeIn : Z) (nThreads : nat) (s : system) :
  reachable nBatchSizeIn nThreads s ->
  (forall b s', step s (Some b) s' ->
     b = forallb check (added s) /\ added s' = [] /\ queue (sys_queue s') = [] /\ fAllOk (sys_queue s') = true) /\
  (added s = [] -> nTotal (sys_queue s) = nIdle (sys_queue s) /\ nTodo (sys_queue s) = 0 /\ fAllOk (sys_queue s) = true) /\
  (threads s !! 0%nat = Some Waiting -> fNotified s = false ->
     exists i b ok, i <> 0%nat /\ threads s !! i = Some (Working b ok)).
Proof.
  intros Hr. assert (Hs : inv s).
  { revert Hr. apply rtc_ind_r; [apply inv_start|]. intros s1 s2 _ [r Hst] H1. by eapply step_inv. }
  split_and!.
  - intros b s' Hst. destruct (step_inv _ _ _ Hs Hst) as [_ Hv]. by apply Hv.
  - intros Hn. pose proof Hs as Hs'. destruct Hs'. destruct (inv_none0 Hn) as [H0 Hok]. split_and!; [|done..].
    rewrite inv_total0, inv_idle0, Z.add_0_r. destruct (inv_idle_threads _ _ _ _ _ Hs H0) as [_ Hb].
    clear - Hb inv_threads0. induction (threads s) as [|t ts IH]; [done|]. apply Forall_cons in Hb as [Hb1 Hb2].
    apply Forall_cons in inv_threads0 as [Ht1 Ht2]. cbn [total]. rewrite (IH Ht2 Hb2). by destruct t.
  - intros Hw Hn. destruct Hs. destruct (inv_master0 Hw Hn) as [Hq H0]. rewrite inv_todo0, Hq in H0. cbn [length] in H0.
    assert (Hex : Exists (fun t => todo t <> 0) (threads s)).
    { destruct (Forall_Exists_dec (fun t => todo t = 0) (fun t => todo t <> 0)
        (fun t => match Z.eq_dec (todo t) 0 with left e => left e | right e => right e end) (threads s)) as [Hf|He]; [exfalso|done].
      apply H0. clear - Hf. induction Hf as [|t ts Ht _ IH]; [done|]. cbn [total] in *. lia. }
    apply Exists_exists in Hex as (t & Hin & Ht). apply list_elem_of_lookup_1 in Hin as [i Hi]. destruct t as [| |b ok|]; try done.
    exists i, b, ok. split; [|done]. intros ->. congruence.
Qed.
End CheckQueue.

(** ** Witness: the master works alone on two checks, one of which fails *)

Definition toy_system1 : system := mkSystem (Add [2; 3] (CCheckQueue_new 128)) [Outside; Outside] false [2; 3].
Definition toy_system2 : system := (after toy_system1 0 (enter (sys_queue toy_system1)) false).1.
Definition toy_system3 : system := (after toy_system2 0 (finish Z.even [3] true (sys_queue toy_system2)) false).1.

Lemma check_queue_verdict_witness :
  exists s', step Z.even toy_system3 (Some false) s' /\ false = forallb Z.even (added toy_system3).
Proof.
  assert (Hr : reachable Z.even 128 1 toy_system3).
  { eapply rtc_l; [exists None; apply (step_add Z.even (system_new 128 1) [2; 3]); [reflexivity|vm_compute; reflexivity]|].
    eapply rtc_l; [exists None; eapply (step_enter Z.even toy_system1 0); [reflexivity|]; vm_compute; reflexivity|].
    eapply rtc_l; [exists None; eapply (step_finish Z.even _ 0 [3] true); [reflexivity|]; vm_compute; reflexivity|]. apply rtc_refl. }
  assert (Hs : exists s', step Z.even toy_system3 (Some false) s').
  { eexists. eapply (step_finish Z.even _ 0 [2] false); [reflexivity|]. vm_compute. reflexivity. }
  destruct Hs as [s' Hs]. exists s'. split; [exact Hs|].
  destruct (check_queue_verdict Z.even 128 1 toy_system3 Hr) as (Hv & _ & _). by destruct (Hv false s' Hs) as [Hb _].
Defined.
