(* ===== verification/MemPool.v ===== *)
(** * The memory pool and the orphan transactions: [CTxMemPool], [main.cpp]

    The pool keeps loose transactions by hash and, for each outpoint one of them
    spends, where it is spent.  The pointer of a [CInPoint] into [mapTx] is the hash
    it points at.  Whether the rate limiter of free transactions refuses is an
    argument, [fLimited]: the decaying counter behind it is in floating point.  The
    claims show that the limiter is never asked.  Locks are left out. *)

From S2P Require Import Prelude Uint256 BigNum Serialize Hash Transaction Script Canonical.
From S2P Require Import Interp Key SigCheck Templates KeyStore Block TxRules TxDB Chain Rewards BlockRules Connect ConnectFacts BlockConnect.

Record CInPoint := mkInPoint { ptx : list Z; ip_n : nat }.

Record CTxMemPool := mkPool {
  mapTx : gmap (list Z) CTransaction;
  mapNextTx : gmap COutPoint CInPoint;
  nTransactionsUpdated : Z
}.

(** The loop of [addUnchecked] *)
Fixpoint add_next (hash : list Z) (i : nat) (ins : list CTxIn) (m : gmap COutPoint CInPoint) : gmap COutPoint CInPoint :=
  match ins with
  | [] => m
  | txin :: ins => add_next hash (S i) ins (<[prevout txin := mkInPoint hash i]> m)
  end.

Definition addUnchecked (hash : list Z) (tx : CTransaction) (p : CTxMemPool) : CTxMemPool :=
  mkPool (<[hash := tx]> (mapTx p)) (add_next hash 0 (vin tx) (mapNextTx p)) (u32 (nTransactionsUpdated p + 1)).

Definition erase_next (ins : list CTxIn) (m : gmap COutPoint CInPoint) : gmap COutPoint CInPoint :=
  foldl (fun m txin => delete (prevout txin) m) m ins.

Definition pool_clear (p : CTxMemPool) : CTxMemPool := mkPool ∅ ∅ (u32 (nTransactionsUpdated p + 1)).

Definition pool_exists (p : CTxMemPool) (hash : list Z) : bool := bool_decide (is_Some (mapTx p !! hash)).
Definition pool_lookup (p : CTxMemPool) (hash : list Z) : option CTransaction := mapTx p !! hash.

(** In the order of the map *)
Definition queryHashes (p : CTxMemPool) : list (list Z) := (map_entries (mapTx p)).*1.

Section pool.
Context {B : BNOps} {H : HashOps} {E : ECOps} {P : SecpOps} {F : Files}.

Definition remove (tx : CTransaction) (p : CTxMemPool) : CTxMemPool :=
  let hash := CTransaction_GetHash tx in
  if pool_exists p hash then
    mkPool (delete hash (mapTx p)) (erase_next (vin tx) (mapNextTx p)) (u32 (nTransactionsUpdated p + 1))
  else p.

(** ** [AcceptToMemoryPool] *)

Inductive accepted := Accepted | Refused (fMissingInputs : bool) (nDoS : Z) | Raised.

#[export] Instance accepted_eq_dec : EqDecision accepted.
Proof. solve_decision. Defined.

(** From the inputs on: fees and [ConnectInputs]; [c] is the signature cache *)
Definition accept_inputs (par : Params) (fLimited : bool) (txdb : CTxDB) (chain : list CBlockIndex) (tx : CTransaction)
    (mapInputs : MapPrevTx) (c : CSignatureCache) : accepted * CSignatureCache :=
  match AreInputsStandard par tx mapInputs c with
  | None => (Raised, c)
  | Some (standard, c) =>
      if negb standard && negb (fTestNet par) then (Refused false 0, c)
      else
        match GetValueIn tx mapInputs, GetValueOut tx with
        | Some vi, Some vo =>
            let nFees := i64 (vi - vo) in
            let nSize := GetSerializeSize tx_codec tx in
            let txMinFee := GetMinFee 1000 false GMF_RELAY nSize tx in
            if nFees <? txMinFee then (Refused false 0, c)
            else if (nFees <? MIN_RELAY_TX_FEE) && fLimited then (Refused false 0, c)
            else
              let flags := if VERSION_2_0_SWITCH_TIME <? nTime tx then STRICT_FLAGS else SOFT_FLAGS in
              match ConnectInputs (T := leveldb_store) par (mkMode false false true flags false) txdb tx mapInputs ∅ POOL_POS chain c with
              | (Done _, c) => (Accepted, c)
              | (Fail nDoS, c) => (Refused false nDoS, c)
              | (Throws, c) => (Raised, c)
              end
        | _, _ => (Raised, c)
        end
  end.

(** [chain] is [pindexBest] and its way back; the wallets told about it are left out *)
Definition AcceptToMemoryPool (par : Params) (fLimited : bool) (txdb : CTxDB) (chain : list CBlockIndex)
    (p : CTxMemPool) (tx : CTransaction) (c : CSignatureCache) : accepted * CTxMemPool * CSignatureCache :=
  match CheckTransaction (now par) tx with
  | Reject nDoS => (Refused false nDoS, p, c)
  | Accept =>
      if IsCoinBase tx then (Refused false 100, p, c)
      else if IsCoinStake tx then (Refused false 100, p, c)
      else if negb (fTestNet par) && negb (IsStandardTx (nBestHeight par) (now par) tx) then (Refused false 0, p, c)
      else
        let hash := CTransaction_GetHash tx in
        if pool_exists p hash then (Refused false 0, p, c)
        else if existsb (fun txin => bool_decide (is_Some (mapNextTx p !! prevout txin))) (vin tx) then (Refused false 0, p, c)
        else if db_ContainsTx txdb hash then (Refused false 0, p, c)
        else
          match FetchInputs (T := leveldb_store) txdb ∅ (mapTx p) false false tx with
          | NotFetched true nDoS => (Refused false nDoS, p, c)
          | NotFetched false _ => (Refused true 0, p, c)
          | Fetched mapInputs =>
              match accept_inputs par fLimited txdb chain tx mapInputs c with
              | (Accepted, c) => (Accepted, addUnchecked hash tx p, c)
              | (r, c) => (r, p, c)
              end
          end
  end.

(** ** Orphan transactions *)

Record Orphans := mkOrphans {
  mapOrphanTransactions : gmap (list Z) CTransaction;
  mapOrphanTransactionsByPrev : gmap (list Z) (gset (list Z))
}.

(** [map[k].insert(hash)], which creates the set when it is not there *)
Definition by_prev_add (hash : list Z) (m : gmap (list Z) (gset (list Z))) (txin : CTxIn) : gmap (list Z) (gset (list Z)) :=
  let k := op_hash (prevout txin) in <[k := {[hash]} ∪ default ∅ (m !! k)]> m.

Definition AddOrphanTx (tx : CTransaction) (o : Orphans) : bool * Orphans :=
  let hash := CTransaction_GetHash tx in
  if bool_decide (is_Some (mapOrphanTransactions o !! hash)) then (false, o)
  else if 5000 <? GetSerializeSize tx_codec tx then (false, o)
  else (true, mkOrphans (<[hash := tx]> (mapOrphanTransactions o)) (foldl (by_prev_add hash) (mapOrphanTransactionsByPrev o) (vin tx))).

(** [map[k].erase(hash)] and the set itself when that leaves it empty *)
Definition by_prev_erase (hash : list Z) (m : gmap (list Z) (gset (list Z))) (txin : CTxIn) : gmap (list Z) (gset (list Z)) :=
  let k := op_hash (prevout txin) in
  let s := default ∅ (m !! k) ∖ {[hash]} in
  if bool_decide (s = ∅) then delete k m else <[k := s]> m.

Definition EraseOrphanTx (hash : list Z) (o : Orphans) : Orphans :=
  match mapOrphanTransactions o !! hash with
  | None => o
  | Some tx =>
      mkOrphans (delete hash (mapOrphanTransactions o)) (foldl (by_prev_erase hash) (mapOrphanTransactionsByPrev o) (vin tx))
  end.

(** The first key not below [randomhash], else the first one *)
Definition pick_orphan (randomhash : list Z) (o : Orphans) : option (list Z) :=
  let keys := (map_entries (mapOrphanTransactions o)).*1 in
  match filter (fun k => op_lt k randomhash = false) keys with
  | k :: _ => Some k
  | [] => head keys
  end.

(** [rnd] is the stream of [GetRandHash]; each round removes an orphan *)
Fixpoint limit_loop (fuel : nat) (nMaxOrphans : Z) (rnd : nat -> list Z) (o : Orphans) (nEvicted : Z) : Z * Orphans :=
  match fuel with
  | O => (nEvicted, o)
  | S fuel =>
      if nMaxOrphans <? Z.of_nat (base.size (mapOrphanTransactions o)) then
        match pick_orphan (rnd fuel) o with
        | Some k => limit_loop fuel nMaxOrphans rnd (EraseOrphanTx k o) (u32 (nEvicted + 1))
        | None => (nEvicted, o)
        end
      else (nEvicted, o)
  end.
Definition LimitOrphanTxSize (nMaxOrphans : Z) (rnd : nat -> list Z) (o : Orphans) : Z * Orphans :=
  limit_loop (base.size (mapOrphanTransactions o)) nMaxOrphans rnd o 0.
End pool.

(** ** Lemmas: the pool *)

Lemma add_next_spec hash i ins m o x :
  NoDup (prevout <$> ins) ->
  add_next hash i ins m !! o = Some x <->
  (exists j txin, ins !! j = Some txin /\ prevout txin = o /\ x = mkInPoint hash (i + j)) \/
  ((o ∉ (prevout <$> ins)) /\ m !! o = Some x).
Proof.
  revert i m. induction ins as [|txin ins IH]; intros i m Hnd; cbn [add_next fmap list_fmap].
  { split; [intros Hm; right; split; [apply not_elem_of_nil|done]|]. by intros [(j & t & Hj & _)|[_ ?]]. }
  cbn [fmap list_fmap] in Hnd. apply NoDup_cons in Hnd as [Hni Hnd]. rewrite IH, not_elem_of_cons by done. split.
  - intros [(j & t & Hj & <- & ->)|[Ho Hm]].
    + left. exists (S j), t. split_and!; [done..|]. f_equal. lia.
    + destruct (decide (prevout txin = o)) as [<-|Hn].
      * rewrite lookup_insert_eq in Hm. injection Hm as <-. left. exists 0%nat, txin. split_and!; [done..|]. f_equal. lia.
      * rewrite lookup_insert_ne in Hm by done. right. by split_and!.
  - intros [([|j] & t & Hj & <- & ->)|[[Hn Ho] Hm]].
    + injection Hj as ->. right. split; [done|]. rewrite lookup_insert_eq. do 2 f_equal. lia.
    + left. exists j, t. split_and!; [done..|]. f_equal. lia.
    + right. split; [done|]. by rewrite lookup_insert_ne by done.
Qed.

Lemma erase_next_spec ins m o x : erase_next ins m !! o = Some x <-> (o ∉ (prevout <$> ins)) /\ m !! o = Some x.
Proof.
  unfold erase_next. revert m. induction ins as [|txin ins IH]; intros m; cbn [foldl fmap list_fmap].
  { split; [intros ?; split; [apply not_elem_of_nil|done]|by intros [_ ?]]. }
  rewrite IH, not_elem_of_cons. destruct (decide (o = prevout txin)) as [->|Hn].
  - rewrite lookup_delete_eq. naive_solver.
  - rewrite lookup_delete_ne by done. naive_solver.
Qed.

Section pool_facts.
Context {B : BNOps} {H : HashOps} {HL : HashLaws H} {E : ECOps} {EL : ECLaws E} {P : SecpOps} {F : Files}.

(** Input [i] of the pool transaction [h] spends [o] *)
Definition spends (p : CTxMemPool) (h : list Z) (i : nat) (o : COutPoint) : Prop :=
  exists tx txin, mapTx p !! h = Some tx /\ vin tx !! i = Some txin /\ prevout txin = o.

Record pool_ok (p : CTxMemPool) : Prop := {
  pool_hashes : forall h tx, mapTx p !! h = Some tx -> CTransaction_GetHash tx = h;
  pool_next : forall o h i, mapNextTx p !! o = Some (mkInPoint h i) <-> spends p h i o
}.

Lemma addUnchecked_ok p tx :
  pool_ok p -> mapTx p !! CTransaction_GetHash tx = None -> NoDup (prevout <$> vin tx) ->
  Forall (fun txin => mapNextTx p !! prevout txin = None) (vin tx) -> pool_ok (addUnchecked (CTransaction_GetHash tx) tx p).
Proof.
  intros [Hh Hn] Hnew Hnd Hfree. set (hash := CTransaction_GetHash tx) in *. split; cbn [mapTx mapNextTx addUnchecked].
  - intros h tx'. destruct (decide (hash = h)) as [<-|Hne]; [rewrite lookup_insert_eq; by intros [= <-]|].
    rewrite lookup_insert_ne by done. apply Hh.
  - intros o h i. rewrite add_next_spec by done. unfold spends. cbn [mapTx addUnchecked]. rewrite Hn. split.
    + intros [(j & txin & Hj & <- & [= -> ->])|[Ho (tx' & txin & Ht & Hi & <-)]].
      * exists tx, txin. rewrite lookup_insert_eq. done.
      * exists tx', txin. rewrite lookup_insert_ne by congruence. done.
    + intros (tx' & txin & Ht & Hi & <-). destruct (decide (hash = h)) as [<-|Hne].
      * rewrite lookup_insert_eq in Ht. injection Ht as <-. left. exists i, txin. done.
      * rewrite lookup_insert_ne in Ht by done. right. split; [|by exists tx', txin].
        intros (t2 & E2 & Hin)%list_elem_of_fmap. rewrite Forall_forall in Hfree. specialize (Hfree t2 Hin). rewrite <- E2 in Hfree.
        assert (mapNextTx p !! prevout txin = Some (mkInPoint h i)) as Hc by (apply Hn; by exists tx', txin). congruence.
Qed.

Lemma remove_ok p tx :
  pool_ok p -> (forall tx', mapTx p !! CTransaction_GetHash tx = Some tx' -> tx' = tx) -> pool_ok (remove tx p).
Proof.
  intros [Hh Hn] Hsame. unfold remove, pool_exists. case_bool_decide as Hd; [|by split].
  destruct Hd as [tx' Htx]. rewrite (Hsame tx' Htx) in Htx. set (hash := CTransaction_GetHash tx) in *.
  split; cbn [mapTx mapNextTx].
  - intros h t. rewrite lookup_delete_Some. intros [_ ?]. by apply Hh.
  - intros o h i. rewrite erase_next_spec, Hn. unfold spends. cbn [mapTx]. split.
    + intros [Ho (t & txin & Ht & Hi & <-)]. exists t, txin. rewrite lookup_delete_ne; [done|]. intros <-.
      rewrite Htx in Ht. injection Ht as <-. apply Ho. apply list_elem_of_fmap_2. by eapply list_elem_of_lookup_2.
    + intros (t & txin & [Hne Ht]%lookup_delete_Some & Hi & <-). split; [|by exists t, txin].
      intros (t2 & E2 & Hin)%list_elem_of_fmap. apply list_elem_of_lookup_1 in Hin as [j Hj].
      assert (mapNextTx p !! prevout txin = Some (mkInPoint h i)) as H1 by (apply Hn; by exists t, txin).
      assert (mapNextTx p !! prevout txin = Some (mkInPoint hash j)) as H2 by (apply Hn; by exists tx, t2). congruence.
Qed.

(** What has been checked when a transaction enters *)
Lemma AcceptToMemoryPool_inv par fLimited txdb chain p tx c p' c' :
  AcceptToMemoryPool par fLimited txdb chain p tx c = (Accepted, p', c') ->
  tx_rules (now par) tx /\ IsCoinBase tx = false /\ IsCoinStake tx = false /\
  (fTestNet par = false -> IsStandardTx (nBestHeight par) (now par) tx = true) /\
  mapTx p !! CTransaction_GetHash tx = None /\ Forall (fun txin => mapNextTx p !! prevout txin = None) (vin tx) /\
  db_ContainsTx txdb (CTransaction_GetHash tx) = false /\ p' = addUnchecked (CTransaction_GetHash tx) tx p /\
  exists mapInputs, FetchInputs (T := leveldb_store) txdb ∅ (mapTx p) false false tx = Fetched mapInputs /\
    accept_inputs par fLimited txdb chain tx mapInputs c = (Accepted, c').
Proof.
  unfold AcceptToMemoryPool. pose proof (CheckTransaction_accept (now par) tx) as Hr.
  destruct (CheckTransaction (now par) tx); [|done].
  destruct (IsCoinBase tx); [done|]. destruct (IsCoinStake tx); [done|].
  destruct (negb (fTestNet par) && negb (IsStandardTx (nBestHeight par) (now par) tx)) eqn:Es; [done|].
  unfold pool_exists. case_bool_decide as Hd; [done|]. destruct (existsb _ (vin tx)) eqn:Ee; [done|].
  destruct (db_ContainsTx txdb (CTransaction_GetHash tx)); [done|].
  destruct (FetchInputs _ _ _ _ _ _) as [mapInputs|[]]; [|done..].
  destruct (accept_inputs par fLimited txdb chain tx mapInputs c) as [[] c1] eqn:Ea; [|done..]. intros [= <- <-].
  split_and!; try done.
  - by apply Hr.
  - intros Ht. rewrite Ht in Es. by destruct (IsStandardTx _ _ _).
  - by apply eq_None_not_Some.
  - apply existsb_false in Ee. eapply Forall_impl; [exact Ee|]. intros txin Hb. cbv beta in Hb.
    apply bool_decide_eq_false in Hb. by apply eq_None_not_Some.
  - by exists mapInputs.
Qed.

Lemma AcceptToMemoryPool_refused par fLimited txdb chain p tx c r p' c' :
  AcceptToMemoryPool par fLimited txdb chain p tx c = (r, p', c') -> r <> Accepted -> p' = p.
Proof. unfold AcceptToMemoryPool. intros Hr Hn. repeat case_hyp Hr; injection Hr as <- <- <-; congruence. Qed.

(** ** Claims: the pool *)

(** What can happen to the pool: a transaction is offered, one is removed (no other
    transaction of the same hash being in the pool), the pool is cleared *)
Inductive pool_step : CTxMemPool -> CTxMemPool -> Prop :=
  | step_accept p par fLimited txdb chain tx c r p' c' :
      AcceptToMemoryPool par fLimited txdb chain p tx c = (r, p', c') -> pool_step p p'
  | step_remove p tx :
      (forall tx', mapTx p !! CTransaction_GetHash tx = Some tx' -> tx' = tx) -> pool_step p (remove tx p)
  | step_clear p : pool_step p (pool_clear p).

(** C7: starting empty, the pool keeps every transaction under its own hash and
    [mapNextTx] records exactly the spent outpoints with where they are spent; so no
    two inputs of pool transactions spend the same outpoint. *)
Theorem mempool_invariant p :
  rtc pool_step (mkPool ∅ ∅ 0) p ->
  pool_ok p /\
  (forall o h i h' i', spends p h i o -> spends p h' i' o -> h = h' /\ i = i').
Proof.
  intros Hr. assert (pool_ok p) as Hp.
  { revert Hr. apply rtc_ind_r.
    - split; cbn [mapTx mapNextTx]; [by intros h tx|]. intros o h i. split; [done|]. by intros (tx & txin & ? & _).
    - intros p1 p2 _ Hs Hok. destruct Hs as [p1 par fl txdb chain tx c r p2 c' Ha|p1 tx Hsame|p1].
      + destruct (decide (r = Accepted)) as [->|Hne]; [|by rewrite (AcceptToMemoryPool_refused _ _ _ _ _ _ _ _ _ _ Ha Hne)].
        apply AcceptToMemoryPool_inv in Ha as (Ht & _ & _ & _ & Hnew & Hfree & _ & -> & _).
        apply addUnchecked_ok; [done..|apply Ht|done].
      + by apply remove_ok.
      + split; cbn [mapTx mapNextTx pool_clear]; [by intros h tx|]. intros o h i. split; [done|]. by intros (tx & txin & ? & _). }
  split; [done|]. intros o h i h' i' H1%Hp H2%Hp. split; congruence.
Qed.

(** The sum of the inputs as [GetValueIn] makes it *)
Lemma value_loop_GetValueIn par tx chain ins inputs n v :
  value_loop par tx chain ins inputs n = Done v -> value_in_loop ins inputs n = Some v.
Proof.
  revert n. induction ins as [|txin ins IH]; intros n; cbn [value_loop value_in_loop]; [by intros [= ->]|].
  unfold GetOutputFor. destruct (inputs !! op_hash (prevout txin)) as [[x tp]|]; [|done]. cbn [mbind option_bind].
  destruct (vout tp !! Z.to_nat (op_n (prevout txin))) as [o|] eqn:Eo; [|done]. apply lookup_lt_Some in Eo as Hl.
  destruct (Z.leb_spec (Z.of_nat (length (vout tp))) (op_n (prevout txin))); [lia|]. cbn [mbind option_bind].
  unfold guard at 1 2 3 4. repeat (case_goal; [|done]). apply IH.
Qed.

(** The least fee is never below what makes a transaction free *)
Lemma fee_not_free nFees tx :
  GetMinFee 1000 false GMF_RELAY (GetSerializeSize tx_codec tx) tx <= nFees -> (nFees <? MIN_RELAY_TX_FEE) = false.
Proof.
  intros Hf. apply Z.ltb_ge. destruct (GetMinFee_outputs 1000 (GetSerializeSize tx_codec tx) false GMF_RELAY tx tx) as (_ & [Hm _] & _).
  - unfold fits. lia.
  - unfold fits. change (256 ^ Z.of_nat 4) with (2 ^ 32). apply wrap_range. lia.
  - change MIN_RELAY_TX_FEE with MIN_TX_FEE. lia.
Qed.

(** What an accepted transaction does with its inputs *)
Definition pool_inputs_ok (par : Params) (txdb : CTxDB) (chain : list CBlockIndex) (tx : CTransaction) (inputs : MapPrevTx) : Prop :=
  let flags := if VERSION_2_0_SWITCH_TIME <? nTime tx then STRICT_FLAGS else SOFT_FLAGS in
  NoDup (slot_of <$> vin tx) /\ Forall (unspent inputs) (slot_of <$> vin tx) /\
  Forall (input_rules par tx chain inputs) (vin tx) /\
  forallb script_ok (checks_of flags tx inputs 0 (vin tx)) = true /\
  total_value (vout tx) + GetMinFee 1000 false GMF_RELAY (GetSerializeSize tx_codec tx) tx <= total_in inputs (vin tx).

Lemma GetValueOut_rules now tx : tx_rules now tx -> GetValueOut tx = Some (total_value (vout tx)) /\ 0 <= total_value (vout tx) <= MAX_MONEY.
Proof.
  intros [_ _ _ _ Ho Ht _ _ _]. split; [by eapply out_rules_value|]. pose proof (out_rules_nonneg _ _ Ho). lia.
Qed.

Lemma inputs_standard_cache par tx inputs c b c' :
  cache_valid c -> AreInputsStandard par tx inputs c = Some (b, c') -> cache_valid c'.
Proof.
  unfold AreInputsStandard. destruct (IsCoinBase tx); [by intros ? [= _ <-]|]. generalize 0%nat.
  revert c. induction (vin tx) as [|txin ins IH]; intros c i Hc; cbn [inputs_standard_loop]; [by intros [= _ <-]|].
  destruct (GetOutputFor txin inputs) as [prev|]; [|done]. cbn [mbind option_bind].
  destruct (Solver (scriptPubKey prev)) as [[ok wt] vs]. destruct ok; cbn [negb]; [|by intros [= _ <-]].
  destruct (_ <? 0); [by intros [= _ <-]|].
  assert (cache_valid (EvalScript (maxsigcache par) [] (scriptSig txin) tx i 0 0 c).2) as Hc'.
  { unfold EvalScript. set (plain := fun sig key code (_ : unit) => (CheckSig_plain tx i 0 sig key code, tt)).
    pose proof (InterpSim.sim_EvalScript (fun c (_ : unit) => cache_valid c) (CheckSig (maxsigcache par) tx i 0 0) plain 0) as Hsim.
    specialize (Hsim ltac:(intros sig key code w1 w2 Hv;
      pose proof (CheckSig_transparent (maxsigcache par) tx i 0 0 sig key code w1 Hv) as Ht;
      destruct (CheckSig _ _ _ _ _ _ _ _ _) as [r c1]; destruct Ht as (-> & Ht & _); done) [] (scriptSig txin) c tt Hc).
    destruct (EvalScript_in (CheckSig _ _ _ _ _) 0 [] (scriptSig txin) c) as [[b1 st1] c1],
      (EvalScript_in plain 0 [] (scriptSig txin) tt) as [[b2 st2] []]. by destruct Hsim as (_ & _ & ?). }
  destruct (EvalScript (maxsigcache par) [] (scriptSig txin) tx i 0 0 c) as [[ok stack] c1]. cbn [snd] in Hc'.
  intros Hr. repeat case_hyp Hr; try (injection Hr as _ <-; done); by eapply IH.
Qed.

Lemma accept_inputs_ok par fLimited txdb chain tx inputs c c' :
  cache_valid c -> tx_rules (now par) tx -> IsCoinBase tx = false ->
  accept_inputs par fLimited txdb chain tx inputs c = (Accepted, c') -> pool_inputs_ok par txdb chain tx inputs.
Proof.
  intros Hc Hr Hcb. unfold accept_inputs. destruct (AreInputsStandard par tx inputs c) as [[st c1]|] eqn:Es; [|done].
  apply inputs_standard_cache in Es as Hc1; [|done]. destruct (_ && _); [done|].
  destruct (GetValueOut_rules _ _ Hr) as [Eo Ho]. rewrite Eo. destruct (GetValueIn tx inputs) as [vi|] eqn:Ei; [|done].
  set (fee := GetMinFee 1000 false GMF_RELAY (GetSerializeSize tx_codec tx) tx). destruct (Z.ltb_spec (i64 (vi - total_value (vout tx))) fee) as [|Hfee]; [done|].
  destruct (_ && fLimited); [done|]. set (fl := if VERSION_2_0_SWITCH_TIME <? nTime tx then STRICT_FLAGS else SOFT_FLAGS).
  set (m := mkMode false false true fl false).
  destruct (ConnectInputs_done (T := leveldb_store) par m txdb tx inputs ∅ POOL_POS chain c1 Hcb Hc1) as (_ & _ & Hd).
  destruct (ConnectInputs (T := leveldb_store) par m txdb tx inputs ∅ POOL_POS chain c1) as [[[q ks]| |] c2]; [|done..]. intros _.
  destruct (proj1 (Hd q ks) eq_refl) as ((v & Hv & _) & Hs & _ & Hi).
  destruct (spend_spec false POOL_POS (vin tx) inputs ∅ q eq_refl Hs) as (Hnd & Hun & _).
  destruct (value_loop_spec par tx chain (vin tx) inputs 0 v) as (Hrules & Ev & Hrange); [by unfold MAX_MONEY, COIN|done|].
  apply value_loop_GetValueIn in Hv. unfold GetValueIn in Ei. rewrite Hcb, Hv in Ei. injection Ei as <-.
  rewrite swrap_small in Hfee by (revert Hrange Ho; unfold MAX_MONEY, COIN; lia).
  split_and!; [done..|]. fold fee. lia.
Qed.

(** C8: a transaction enters the pool only if it obeys the rules of a transaction, is
    loose and (but for the test network) standard, is neither in the pool nor in the
    index, spends outputs that are unspent and mature with scripts that verify, and
    pays the least relay fee; it is then added and nothing else changes, and a refusal
    changes nothing.  The rate limiter of free transactions is never asked, since a
    transaction below its bound has been refused for its fee. *)
Theorem mempool_accept par fLimited txdb chain p tx c r p' c' :
  cache_valid c -> AcceptToMemoryPool par fLimited txdb chain p tx c = (r, p', c') ->
  AcceptToMemoryPool par (negb fLimited) txdb chain p tx c = (r, p', c') /\
  (r <> Accepted -> p' = p) /\
  (r = Accepted ->
     tx_rules (now par) tx /\ IsCoinBase tx = false /\ IsCoinStake tx = false /\
     (fTestNet par = false -> IsStandardTx (nBestHeight par) (now par) tx = true) /\
     mapTx p !! CTransaction_GetHash tx = None /\ db_ContainsTx txdb (CTransaction_GetHash tx) = false /\
     p' = addUnchecked (CTransaction_GetHash tx) tx p /\
     exists inputs, FetchInputs (T := leveldb_store) txdb ∅ (mapTx p) false false tx = Fetched inputs /\
       pool_inputs_ok par txdb chain tx inputs).
Proof.
  intros Hc Ha. split_and!.
  - rewrite <- Ha. unfold AcceptToMemoryPool. repeat (case_goal; [done|]).
    assert (forall inputs, accept_inputs par (negb fLimited) txdb chain tx inputs c = accept_inputs par fLimited txdb chain tx inputs c) as Hl.
    { intros inputs. unfold accept_inputs. destruct (AreInputsStandard par tx inputs c) as [[st c1]|]; [|done].
      destruct (_ && _); [done|]. destruct (GetValueIn tx inputs) as [vi|]; [|done]. destruct (GetValueOut tx) as [vo|]; [|done].
      destruct (Z.ltb_spec (i64 (vi - vo)) (GetMinFee 1000 false GMF_RELAY (GetSerializeSize tx_codec tx) tx)) as [|Hf]; [done|].
      by rewrite (fee_not_free _ _ Hf). }
    repeat case_goal; rewrite ?Hl in *; congruence.
  - by eapply AcceptToMemoryPool_refused.
  - intros ->. apply AcceptToMemoryPool_inv in Ha as (Hr & Hcb & Hcs & Hst & Hnew & _ & Hdb & -> & inputs & Hf & Hi).
    split_and!; [done..|]. exists inputs. split; [done|]. by eapply accept_inputs_ok.
Qed.
End pool_facts.

(** ** Lemmas: orphans *)

Definition waits_for (tx : CTransaction) (k : list Z) : Prop := k ∈ ((fun i => op_hash (prevout i)) <$> vin tx).

Lemma by_prev_add_spec hash ins m k :
  default ∅ (foldl (by_prev_add hash) m ins !! k) =
  (if decide (k ∈ ((fun i => op_hash (prevout i)) <$> ins)) then {[hash]} else ∅) ∪ default ∅ (m !! k).
Proof.
  revert m. induction ins as [|txin ins IH]; intros m; cbn [foldl fmap list_fmap].
  { rewrite decide_False by apply not_elem_of_nil. set_solver. }
  rewrite IH. unfold by_prev_add. destruct (decide (op_hash (prevout txin) = k)) as [Hk|Hn].
  - rewrite Hk, lookup_insert_eq. cbn [default from_option]. cbv [Datatypes.id]. rewrite (decide_True (P := k ∈ k :: _)) by (apply elem_of_cons; by left).
    case_decide; set_solver.
  - rewrite lookup_insert_ne by done. f_equal. apply decide_ext. rewrite elem_of_cons. naive_solver.
Qed.

Lemma by_prev_erase_spec hash ins m k :
  default ∅ (foldl (by_prev_erase hash) m ins !! k) =
  default ∅ (m !! k) ∖ (if decide (k ∈ ((fun i => op_hash (prevout i)) <$> ins)) then {[hash]} else ∅).
Proof.
  revert m. induction ins as [|txin ins IH]; intros m; cbn [foldl fmap list_fmap].
  { rewrite decide_False by apply not_elem_of_nil. set_solver. }
  rewrite IH. set (ks := (fun i => op_hash (prevout i)) <$> ins). unfold by_prev_erase.
  destruct (decide (op_hash (prevout txin) = k)) as [Hk|Hn].
  - rewrite Hk, (decide_True (P := k ∈ k :: ks)) by (apply elem_of_cons; by left).
    assert (default ∅ ((if bool_decide (default ∅ (m !! k) ∖ {[hash]} = ∅) then delete k m
      else <[k:=default ∅ (m !! k) ∖ {[hash]}]> m) !! k) = default ∅ (m !! k) ∖ {[hash]}) as ->.
    { case_bool_decide as Hd; [rewrite Hd, lookup_delete_eq|rewrite lookup_insert_eq]; done. }
    clear IH. clearbody ks. destruct (decide (k ∈ ks)); set_solver.
  - assert (forall (x y : gset (list Z)), (if decide (k ∈ op_hash (prevout txin) :: ks) then x else y) = if decide (k ∈ ks) then x else y) as ->.
    { intros x y. apply decide_ext. rewrite elem_of_cons. naive_solver. }
    case_bool_decide; [rewrite lookup_delete_ne by done|rewrite lookup_insert_ne by done]; done.
Qed.

Definition sets_used (m : gmap (list Z) (gset (list Z))) : Prop := forall k s, m !! k = Some s -> s <> ∅.

Lemma by_prev_add_used hash m txin : sets_used m -> sets_used (by_prev_add hash m txin).
Proof.
  intros Hm k s. unfold by_prev_add. rewrite lookup_insert_Some. intros [[_ <-]|[_ ?]]; [set_solver|by eapply Hm].
Qed.

Lemma by_prev_erase_used hash m txin : sets_used m -> sets_used (by_prev_erase hash m txin).
Proof.
  intros Hm k s. unfold by_prev_erase. case_bool_decide as Hd.
  - rewrite lookup_delete_Some. intros [_ ?]. by eapply Hm.
  - rewrite lookup_insert_Some. intros [[_ <-]|[_ ?]]; [done|by eapply Hm].
Qed.

Lemma foldl_used f ins m :
  (forall m txin, sets_used m -> sets_used (f m txin)) -> sets_used m -> sets_used (foldl f m (ins : list CTxIn)).
Proof. intros Hf. revert m. induction ins as [|txin ins IH]; intros m Hm; cbn [foldl]; eauto. Qed.

Section orphan_facts.
Context {H : HashOps}.

Record orphans_ok (o : Orphans) : Prop := {
  orphan_hashes : forall h tx, mapOrphanTransactions o !! h = Some tx -> CTransaction_GetHash tx = h;
  orphan_used : sets_used (mapOrphanTransactionsByPrev o);
  orphan_prev : forall k h, h ∈ default ∅ (mapOrphanTransactionsByPrev o !! k) <->
    exists tx, mapOrphanTransactions o !! h = Some tx /\ waits_for tx k
}.

Lemma AddOrphanTx_ok tx o : orphans_ok o -> orphans_ok (AddOrphanTx tx o).2.
Proof.
  intros [Hh Hu Hp]. unfold AddOrphanTx. case_bool_decide as Hd; [by split|]. case_goal; [by split|]. apply eq_None_not_Some in Hd.
  set (hash := CTransaction_GetHash tx) in *. split; cbn [snd mapOrphanTransactions mapOrphanTransactionsByPrev].
  - intros h t. rewrite lookup_insert_Some. intros [[<- <-]|[_ ?]]; [done|by apply Hh].
  - apply foldl_used; [intros; by apply by_prev_add_used|done].
  - intros k h. rewrite by_prev_add_spec, elem_of_union, Hp. fold (waits_for tx k).
    setoid_rewrite lookup_insert_Some. destruct (decide (waits_for tx k)) as [Hw|Hw];
      [rewrite elem_of_singleton|rewrite elem_of_empty]; split.
    + intros [->|(t & Ht & Hk)]; [exists tx; naive_solver|]. exists t. split; [|done]. right. split; [congruence|done].
    + intros (t & [[-> ->]|[Hn Ht]] & Hk); [by left|right; by exists t].
    + intros [[]|(t & Ht & Hk)]. exists t. split; [|done]. right. split; [congruence|done].
    + intros (t & [[-> ->]|[Hn Ht]] & Hk); [done|right; by exists t].
Qed.

Lemma EraseOrphanTx_ok h o : orphans_ok o -> orphans_ok (EraseOrphanTx h o).
Proof.
  intros [Hh Hu Hp]. unfold EraseOrphanTx. destruct (mapOrphanTransactions o !! h) as [tx|] eqn:Et; [|by split].
  split; cbn [mapOrphanTransactions mapOrphanTransactionsByPrev].
  - intros h' t. rewrite lookup_delete_Some. intros [_ ?]. by apply Hh.
  - apply foldl_used; [intros; by apply by_prev_erase_used|done].
  - intros k h'. rewrite by_prev_erase_spec, elem_of_difference, Hp. fold (waits_for tx k). setoid_rewrite lookup_delete_Some.
    destruct (decide (waits_for tx k)) as [Hw|Hw]; [rewrite elem_of_singleton|rewrite elem_of_empty]; split.
    + intros [(t & Ht & Hk) Hn]. exists t. by split_and!.
    + intros (t & [Hn Ht] & Hk). split; [by exists t|congruence].
    + intros [(t & Ht & Hk) _]. exists t. split_and!; [|done..]. intros <-. congruence.
    + intros (t & [Hn Ht] & Hk). split; [by exists t|tauto].
Qed.

Lemma pick_orphan_spec rnd o :
  (0 < base.size (mapOrphanTransactions o))%nat -> exists k, pick_orphan rnd o = Some k /\ is_Some (mapOrphanTransactions o !! k).
Proof.
  intros Hs. assert (Hin : forall k, k ∈ (map_entries (mapOrphanTransactions o)).*1 -> is_Some (mapOrphanTransactions o !! k)).
  { intros k ([h x] & -> & Hx)%list_elem_of_fmap. apply elem_of_map_entries in Hx. by exists x. }
  unfold pick_orphan. destruct (filter _ _) as [|k ks] eqn:Ef.
  - destruct (map_entries (mapOrphanTransactions o)) as [|[h x] l] eqn:Em.
    + exfalso. assert (length (map_entries (mapOrphanTransactions o)) = 0%nat) as Hl by (by rewrite Em).
      rewrite map_entries_perm, length_map_to_list in Hl. lia.
    + exists h. split; [done|]. apply Hin. by left.
  - exists k. split; [done|]. apply Hin. assert (k ∈ k :: ks) as Hk by left. rewrite <- Ef in Hk. by apply list_elem_of_filter in Hk as [_ ?].
Qed.

Lemma EraseOrphanTx_size h o :
  is_Some (mapOrphanTransactions o !! h) ->
  base.size (mapOrphanTransactions (EraseOrphanTx h o)) = pred (base.size (mapOrphanTransactions o)) /\
  mapOrphanTransactions (EraseOrphanTx h o) ⊆ mapOrphanTransactions o.
Proof.
  intros [tx Ht]. unfold EraseOrphanTx. rewrite Ht. cbn [mapOrphanTransactions].
  split; [by apply map_size_delete_Some|apply delete_subseteq].
Qed.

Lemma limit_loop_spec fuel n rnd o k :
  0 <= n -> orphans_ok o -> (base.size (mapOrphanTransactions o) <= fuel)%nat ->
  let r := limit_loop fuel n rnd o k in
  orphans_ok r.2 /\ mapOrphanTransactions r.2 ⊆ mapOrphanTransactions o /\
  Z.of_nat (base.size (mapOrphanTransactions r.2)) = Z.min n (Z.of_nat (base.size (mapOrphanTransactions o))).
Proof.
  intros Hn. revert o k. induction fuel as [|fuel IH]; intros o k Ho Hf; cbn [limit_loop]; [cbn; split_and!; [done..|lia]|].
  destruct (Z.ltb_spec n (Z.of_nat (base.size (mapOrphanTransactions o)))) as [Hlt|]; [|cbn; split_and!; [done..|lia]].
  destruct (pick_orphan_spec (rnd fuel) o) as (h & -> & Hh); [lia|]. destruct (EraseOrphanTx_size h o Hh) as [Hs Hsub].
  destruct (IH (EraseOrphanTx h o) (u32 (k + 1))) as (H1 & H2 & H3); [by apply EraseOrphanTx_ok|lia|].
  split_and!; [done| |rewrite H3, Hs; lia]. by etrans.
Qed.

(** ** Claims: orphans *)

(** the two maps of orphan transactions stay consistent: an orphan is kept under its
    own hash, the index by previous transaction lists exactly the orphans waiting for
    it and has no empty set.  Only small transactions are kept, an erased one is gone,
    and [LimitOrphanTxSize] returns with at most the allowed number, having removed no
    more than it must. *)
Theorem orphans_consistent (o : Orphans) (tx : CTransaction) (h : list Z) (n : Z) (rnd : nat -> list Z) :
  orphans_ok o -> 0 <= n ->
  (orphans_ok (AddOrphanTx tx o).2 /\
   ((AddOrphanTx tx o).1 = true <-> mapOrphanTransactions o !! CTransaction_GetHash tx = None /\ GetSerializeSize tx_codec tx <= 5000)) /\
  (orphans_ok (EraseOrphanTx h o) /\ mapOrphanTransactions (EraseOrphanTx h o) = delete h (mapOrphanTransactions o)) /\
  let o' := (LimitOrphanTxSize n rnd o).2 in
  orphans_ok o' /\ mapOrphanTransactions o' ⊆ mapOrphanTransactions o /\
  Z.of_nat (base.size (mapOrphanTransactions o')) = Z.min n (Z.of_nat (base.size (mapOrphanTransactions o))).
Proof.
  intros Ho Hn. split; [split; [by apply AddOrphanTx_ok|]|split; [split; [by apply EraseOrphanTx_ok|]|by apply limit_loop_spec]].
  - unfold AddOrphanTx. case_bool_decide as Hd; [split; [done|]; intros [He _]; rewrite He in Hd; by destruct Hd|].
    apply eq_None_not_Some in Hd. destruct (Z.ltb_spec 5000 (GetSerializeSize tx_codec tx)); split; try done; lia.
  - unfold EraseOrphanTx. destruct (mapOrphanTransactions o !! h) eqn:Eh; [done|]. by rewrite delete_id.
Qed.
End orphan_facts.

(** ** Witnesses: the spending transaction of [BlockConnect] offered on the test network *)

Definition test_params : Params := mkParams true 1600000000 (assign64 WIDTH256 0) 100 60 0 50000 0 true 100 0 0.
Definition toy_accept := AcceptToMemoryPool (B := ZBN) (H := toy_hash) (E := toy_ec) (P := no_secp)
  test_params false toy_db [toy_pindex] (mkPool ∅ ∅ 0) spend_tx empty_cache.

Lemma toy_accept_done : toy_accept.1.1 = Accepted.
Proof. vm_compute. reflexivity. Qed.

Lemma mempool_invariant_witness :
  exists p, toy_accept.1 = (Accepted, p) /\ pool_ok (H := toy_hash) p /\ base.size (mapTx p) = 1%nat.
Proof.
  pose proof toy_accept_done as E1. destruct toy_accept as [[r p] c] eqn:Ea. cbn [fst] in E1. subst r. exists p.
  destruct (mempool_invariant (B := ZBN) (H := toy_hash) (E := toy_ec) (P := no_secp) p) as [Hp _].
  { apply rtc_once. eapply step_accept. exact Ea. }
  split_and!; [done..|]. apply AcceptToMemoryPool_inv in Ea as (_ & _ & _ & _ & _ & _ & _ & -> & _). vm_compute. reflexivity.
Defined.

Lemma mempool_accept_witness :
  exists p, toy_accept.1 = (Accepted, p) /\ p = addUnchecked (CTransaction_GetHash (H := toy_hash) spend_tx) spend_tx (mkPool ∅ ∅ 0).
Proof.
  pose proof toy_accept_done as E1. destruct toy_accept as [[r p] c] eqn:Ea. cbn [fst] in E1. subst r. exists p.
  unfold toy_accept in Ea. apply (mempool_accept _ _ _ _ _ _ _ _ _ _ empty_cache_valid) in Ea as (_ & _ & Hr).
  destruct (Hr eq_refl) as (_ & _ & _ & _ & _ & _ & -> & _). done.
Defined.

Lemma orphans_consistent_witness :
  let o := (AddOrphanTx (H := toy_hash) spend_tx (mkOrphans ∅ ∅)).2 in
  orphans_ok (H := toy_hash) o /\ (LimitOrphanTxSize 0 (fun _ => paid_hash) o).1 = 1.
Proof.
  intros o. destruct (orphans_consistent (H := toy_hash) (mkOrphans ∅ ∅) spend_tx paid_hash 0 (fun _ => paid_hash)) as [[Ho _] _].
  - split; cbn [mapOrphanTransactions mapOrphanTransactionsByPrev]; [by intros h tx|by intros k s|].
    intros k h. rewrite lookup_empty. cbn [default from_option]. cbv [Datatypes.id]. rewrite elem_of_empty. split; [done|].
    by intros (tx & ? & _).
  - lia.
  - split; [exact Ho|]. vm_compute. reflexivity.
Defined.
