(* ===== verification/Base58.v ===== *)
(** * Base58 addresses and secrets: [base58.h]

    A string is the list of its character codes without the terminating zero.  The
    network switch [fTestNet] is an argument. *)

From S2P Require Import Prelude Uint256 BigNum Serialize Hash Transaction Script Canonical.
From S2P Require Import Interp Key SigCheck Templates.

(** "123456789ABCDEFGHJKLMNPQRSTUVWXYZabcdefghijkmnopqrstuvwxyz" *)
Definition pszBase58 : list Z := seqZ 49 9 ++ seqZ 65 8 ++ seqZ 74 5 ++ seqZ 80 11 ++ seqZ 97 11 ++ seqZ 109 14.

(** Leading elements equal to [x] *)
Fixpoint leading (x : Z) (s : list Z) : nat :=
  match s with
  | c :: s => if c =? x then S (leading x s) else O
  | [] => O
  end.

Section base58.
Context {B : BNOps} {H : HashOps}.

(** ** [EncodeBase58] and [DecodeBase58] *)

(** The division loop; [None] is the [bignum_error] *)
Fixpoint encode_loop (fuel : nat) (bn : BIGNUM) (str : list Z) : option (list Z) :=
  match fuel with
  | O => None
  | S fuel =>
      if bn_gt bn (CBigNum_of_int 0) then
        '(dv, rem) ← BN_div bn (CBigNum_of_int 58);
        encode_loop fuel dv (str ++ [nthZ pszBase58 (Z.to_nat (getulong rem))])
      else Some str
  end.

(** Two digits of base 58 hold more than a byte, so this is fuel enough *)
Definition encode_fuel (n : nat) : nat := S (2 * n).

Definition EncodeBase58 (bytes : list Z) : option (list Z) :=
  let vchTmp := rev bytes ++ [0] in
  str ← encode_loop (encode_fuel (length bytes)) (setvch vchTmp) [];
  let str := str ++ replicate (leading 0 bytes) (nthZ pszBase58 0) in
  Some (rev str).

(** [strchr(pszBase58, c) - pszBase58] for a [c] that is not zero *)
Definition base58_digit (c : Z) : option Z := (fun p => Z.of_nat p.1) <$> list_find (eq c) pszBase58.

(** The loop over the characters; [None] is [return false] *)
Fixpoint decode_loop (s : list Z) (bn : BIGNUM) : option BIGNUM :=
  match s with
  | [] => Some bn
  | c :: s' =>
      match base58_digit c with
      | Some d => decode_loop s' (bn_plus (BN_mul bn (CBigNum_of_int 58)) (setulong d))
      | None => match skip_spaces s with [] => Some bn | _ => None end
      end
  end.

(** Trim off the sign byte *)
Definition trim_sign (vch : list Z) : list Z :=
  match rev vch with
  | 0 :: c :: rest => if 0x80 <=? c then rev (c :: rest) else vch
  | _ => vch
  end.

Definition DecodeBase58 (psz : list Z) : option (list Z) :=
  let psz := skip_spaces psz in
  bn ← decode_loop psz (CBigNum_of_int 0);
  let vchTmp := trim_sign (getvch bn) in
  Some (replicate (leading (nthZ pszBase58 0) psz) 0 ++ rev vchTmp).

(** ** With a checksum *)

Definition EncodeBase58Check (vchIn : list Z) : option (list Z) :=
  EncodeBase58 (vchIn ++ take 4 (limb_bytes (Hash vchIn))).

(** [None] is [false]; the vector is empty then *)
Definition DecodeBase58Check (psz : list Z) : option (list Z) :=
  vchRet ← DecodeBase58 psz;
  if (length vchRet <? 4)%nat then None
  else
    let n := (length vchRet - 4)%nat in
    if bool_decide (take 4 (limb_bytes (Hash (take n vchRet))) = drop n vchRet) then Some (take n vchRet) else None.

(** ** [CBase58Data], its version byte an [unsigned char] *)

Record CBase58Data := mkData { b58_nVersion : Z; vchData : list Z }.

Definition CBase58Data_new : CBase58Data := mkData 0 [].
Definition SetData (nVersionIn : Z) (bytes : list Z) : CBase58Data := mkData (nVersionIn mod 256) bytes.

Definition SetString (psz : list Z) : bool * CBase58Data :=
  match default [] (DecodeBase58Check psz) with
  | [] => (false, mkData 0 [])
  | v :: data => (true, mkData v data)
  end.

Definition ToString (d : CBase58Data) : option (list Z) := EncodeBase58Check (b58_nVersion d :: vchData d).

(** Lexicographic order of the bytes *)
Fixpoint bytes_lt (a b : list Z) : bool :=
  match a, b with
  | _, [] => false
  | [], _ :: _ => true
  | x :: a, y :: b => (x <? y) || ((x =? y) && bytes_lt a b)
  end.
Definition CompareTo (a b : CBase58Data) : Z :=
  if b58_nVersion a <? b58_nVersion b then -1
  else if b58_nVersion b <? b58_nVersion a then 1
  else if bytes_lt (vchData a) (vchData b) then -1
  else if bytes_lt (vchData b) (vchData a) then 1
  else 0.

(** ** [CBitcoinAddress] *)

Definition PUBKEY_ADDRESS : Z := 34.
Definition SCRIPT_ADDRESS : Z := 8.
Definition PUBKEY_ADDRESS_TEST : Z := 111.
Definition SCRIPT_ADDRESS_TEST : Z := 196.

(** [Set] over the kinds of destination; the address is unchanged when it fails *)
Definition address_Set (fTestNet : bool) (dest : CTxDestination) (d : CBase58Data) : bool * CBase58Data :=
  match dest with
  | CKeyID id => (true, SetData (if fTestNet then PUBKEY_ADDRESS_TEST else PUBKEY_ADDRESS) (limb_bytes id))
  | CScriptID id => (true, SetData (if fTestNet then SCRIPT_ADDRESS_TEST else SCRIPT_ADDRESS) (limb_bytes id))
  | CNoDestination => (false, d)
  end.

Definition is_pubkey_version (v : Z) : bool := (v =? PUBKEY_ADDRESS) || (v =? PUBKEY_ADDRESS_TEST).
Definition is_script_version (v : Z) : bool := (v =? SCRIPT_ADDRESS) || (v =? SCRIPT_ADDRESS_TEST).

Definition address_IsValid (fTestNet : bool) (d : CBase58Data) : bool :=
  let v := b58_nVersion d in
  let expected :=
    if (v =? PUBKEY_ADDRESS) || (v =? SCRIPT_ADDRESS) then Some false
    else if (v =? PUBKEY_ADDRESS_TEST) || (v =? SCRIPT_ADDRESS_TEST) then Some true
    else None in
  match expected with
  | Some fExpectTestNet => Bool.eqb fExpectTestNet fTestNet && (length (vchData d) =? 20)%nat
  | None => false
  end.

Definition address_Get (fTestNet : bool) (d : CBase58Data) : CTxDestination :=
  if negb (address_IsValid fTestNet d) then CNoDestination
  else
    let id := limbs_of_bytes WIDTH160 (vchData d) in
    if is_pubkey_version (b58_nVersion d) then CKeyID id
    else if is_script_version (b58_nVersion d) then CScriptID id
    else CNoDestination.

Definition address_GetKeyID (fTestNet : bool) (d : CBase58Data) : option (list Z) :=
  if negb (address_IsValid fTestNet d) then None
  else if is_pubkey_version (b58_nVersion d) then Some (limbs_of_bytes WIDTH160 (vchData d)) else None.

Definition address_IsScript (fTestNet : bool) (d : CBase58Data) : bool :=
  address_IsValid fTestNet d && is_script_version (b58_nVersion d).

(** ** [CBitcoinSecret]; [None] is the failed [assert] *)

Definition SetSecret (fTestNet : bool) (vchSecret : list Z) (fCompressed : bool) : option CBase58Data :=
  if (length vchSecret =? 32)%nat then
    let d := SetData (128 + (if fTestNet then PUBKEY_ADDRESS_TEST else PUBKEY_ADDRESS)) vchSecret in
    Some (if fCompressed then mkData (b58_nVersion d) (vchData d ++ [1]) else d)
  else None.

(** The bytes and whether the key is compressed; [None] reads beyond the data *)
Definition secret_GetSecret (d : CBase58Data) : option (list Z * bool) :=
  if (length (vchData d) <? 32)%nat then None else Some (take 32 (vchData d), (length (vchData d) =? 33)%nat).

Definition secret_IsValid (fTestNet : bool) (d : CBase58Data) : bool :=
  let v := b58_nVersion d in
  let n := length (vchData d) in
  (if v =? 128 + PUBKEY_ADDRESS then negb fTestNet else if v =? 128 + PUBKEY_ADDRESS_TEST then fTestNet else false) &&
  ((n =? 32)%nat || ((n =? 33)%nat && (nthZ (vchData d) 32 =? 1))).

Definition secret_SetString (fTestNet : bool) (psz : list Z) : bool * CBase58Data :=
  let '(ok, d) := SetString psz in (ok && secret_IsValid fTestNet d, d).
End base58.

(** ** Lemmas: digits without leading zeros *)

Section digits.
Context (b : Z) (Hb : 1 < b).

Lemma last_tail (x : Z) (l : list Z) : last (x :: l) <> Some 0 -> last l <> Some 0.
Proof. destruct l; done. Qed.

Lemma digits_val_zero l : Forall (is_digit b) l -> digits_val b l = 0 -> last l <> Some 0 -> l = [].
Proof.
  induction l as [|x l IH]; [done|]. intros [Hx Hl]%Forall_cons Hv Ht. rewrite digits_val_cons in Hv.
  pose proof (digits_val_nonneg b ltac:(lia) l Hl). unfold is_digit in Hx. assert (Hv' : digits_val b l = 0) by nia. assert (x = 0) as -> by lia.
  rewrite (IH Hl Hv' (last_tail _ _ Ht)) in Ht. done.
Qed.

Lemma min_digits_inj l1 l2 :
  Forall (is_digit b) l1 -> Forall (is_digit b) l2 -> digits_val b l1 = digits_val b l2 ->
  last l1 <> Some 0 -> last l2 <> Some 0 -> l1 = l2.
Proof.
  revert l2. induction l1 as [|x l1 IH]; intros l2 H1 H2 Hv Ht1 Ht2.
  { symmetry. by apply digits_val_zero. }
  destruct l2 as [|y l2]; [by apply digits_val_zero|].
  apply Forall_cons in H1 as [Hx H1]. apply Forall_cons in H2 as [Hy H2]. rewrite !digits_val_cons in Hv. unfold is_digit in Hx, Hy.
  pose proof (digits_val_nonneg b ltac:(lia) l1 H1). pose proof (digits_val_nonneg b ltac:(lia) l2 H2).
  assert (digits_val b l1 = digits_val b l2) as Hv' by nia. assert (x = y) as -> by lia. f_equal.
  apply IH; eauto using last_tail.
Qed.

Lemma foldl_digits l a : foldl (fun a d => a * b + d) a (rev l) = a * b ^ Z.of_nat (length l) + digits_val b l.
Proof.
  revert a. induction l as [|x l IH]; intros a; [cbn [rev foldl length]; rewrite digits_val_nil; change (Z.of_nat 0) with 0; lia|]. cbn [rev]. rewrite foldl_app, IH. cbn [foldl length].
  rewrite digits_val_cons, Nat2Z.inj_succ, Z.pow_succ_r by lia. ring.
Qed.
End digits.

(** ** Lemmas: characters *)

Definition base58_char (d : Z) : Z := nthZ pszBase58 (Z.to_nat d).

Lemma base58_chars d :
  0 <= d < 58 -> base58_digit (base58_char d) = Some d /\ isspace (base58_char d) = false /\ (base58_char d = base58_char 0 -> d = 0).
Proof.
  intros Hd. assert (Forall (fun d => base58_digit (base58_char d) = Some d /\ isspace (base58_char d) = false /\
    (base58_char d = base58_char 0 -> d = 0)) (seqZ 0 58)) as Hall.
  { apply (bool_decide_unpack _). vm_compute. exact I. }
  rewrite Forall_forall in Hall. apply Hall. apply elem_of_seqZ. lia.
Qed.

Lemma leading_app x n s : leading x (replicate n x ++ s) = (n + leading x s)%nat.
Proof. induction n as [|n IH]; [done|]. cbn [replicate app leading]. by rewrite Z.eqb_refl, IH. Qed.

Lemma leading_split x s : exists s', s = replicate (leading x s) x ++ s' /\ head s' <> Some x.
Proof.
  induction s as [|c s (s' & E & Hh)]; [by exists []|]. cbn [leading]. destruct (Z.eqb_spec c x) as [->|Hn].
  - exists s'. cbn [replicate app]. by rewrite <- E.
  - exists (c :: s). split; [done|]. cbn. congruence.
Qed.

Lemma skip_spaces_id s : (forall c, head s = Some c -> isspace c = false) -> skip_spaces s = s.
Proof. destruct s as [|c s]; [done|]. intros Hc. cbn [skip_spaces]. by rewrite (Hc c eq_refl). Qed.

Lemma rev_replicate {A} n (x : A) : rev (replicate n x) = replicate n x.
Proof. induction n as [|n IH]; [done|]. cbn [replicate rev]. rewrite IH. symmetry. apply replicate_cons_app. Qed.

Lemma last_rev {A} (l : list A) : last (rev l) = head l.
Proof. destruct l as [|x l]; [done|]. cbn [rev]. apply last_snoc. Qed.

Lemma leading_top l :
  Forall (is_digit 58) l -> last l <> Some 0 -> leading (base58_char 0) (base58_char <$> rev l) = 0%nat.
Proof.
  destruct l as [|t l _] using rev_ind; [done|]. rewrite rev_unit, last_snoc. intros [_ Ht]%Forall_app Hn.
  cbn [fmap list_fmap leading]. apply Forall_cons in Ht as [Ht _]. destruct (Z.eqb_spec (base58_char t) (base58_char 0)) as [E|]; [|done].
  destruct Hn. by rewrite (proj2 (proj2 (base58_chars t Ht)) E).
Qed.

(** ** Lemmas: the two loops *)

Section base58_facts.
Context {B : BNOps} {BL : BNLaws B} {H : HashOps} {HL : HashLaws H}.

Lemma bn_positive bn : bn_gt bn (CBigNum_of_int 0) = (0 <? bn_val bn).
Proof.
  destruct (bn_compare_val bn (CBigNum_of_int 0)) as (_ & _ & _ & _ & _ & ->). by rewrite CBigNum_of_int_val by lia.
Qed.

Lemma encode_loop_spec fuel bn str :
  0 <= bn_val bn < 58 ^ Z.of_nat fuel ->
  exists l, encode_loop (S fuel) bn str = Some (str ++ (base58_char <$> l)) /\
    Forall (is_digit 58) l /\ digits_val 58 l = bn_val bn /\ last l <> Some 0.
Proof.
  assert (Hzero : forall bn fuel str, bn_val bn = 0 -> exists l, encode_loop (S fuel) bn str = Some (str ++ (base58_char <$> l)) /\
    Forall (is_digit 58) l /\ digits_val 58 l = bn_val bn /\ last l <> Some 0).
  { intros bn0 fuel0 str0 H0. exists []. cbn [encode_loop]. rewrite bn_positive, H0. cbn. rewrite app_nil_r. by split_and!. }
  revert bn str. induction fuel as [|fuel IH]; intros bn str Hbn.
  { apply Hzero. cbn in Hbn. lia. }
  destruct (decide (bn_val bn = 0)) as [H0|H0]; [by apply Hzero|].
  remember (S fuel) as fuel'. cbn [encode_loop]. subst fuel'. rewrite bn_positive. destruct (Z.ltb_spec 0 (bn_val bn)); [|lia].
  assert (H58 : bn_val (CBigNum_of_int 58) = 58) by (apply CBigNum_of_int_val; lia).
  destruct (BN_div_val bn (CBigNum_of_int 58)) as (dv & rem & E & Hdv & Hrem); [by rewrite H58|]. rewrite E. cbn [mbind option_bind].
  rewrite H58 in Hdv, Hrem. rewrite Z.quot_div_nonneg in Hdv by lia. rewrite Z.rem_mod_nonneg in Hrem by lia.
  rewrite Nat2Z.inj_succ, Z.pow_succ_r in Hbn by lia. pose proof (Z.mod_pos_bound (bn_val bn) 58 ltac:(lia)) as Hm.
  assert (getulong rem = bn_val bn mod 58) as Hw.
  { unfold getulong. rewrite BN_get_word_val, Hrem. destruct (Z.ltb_spec (Z.abs (bn_val bn mod 58)) (2 ^ 64)); lia. }
  destruct (IH dv (str ++ [nthZ pszBase58 (Z.to_nat (getulong rem))])) as (l & E1 & Hl & Hv & Ht).
  { rewrite Hdv. split; [apply Z.div_pos; lia|apply Z.div_lt_upper_bound; lia]. }
  exists (bn_val bn mod 58 :: l). rewrite E1. split_and!.
  - rewrite <- app_assoc, Hw. done.
  - by constructor.
  - rewrite digits_val_cons, Hv, Hdv. pose proof (Z.div_mod (bn_val bn) 58). lia.
  - destruct l as [|x l]; [|done]. rewrite digits_val_nil in Hv. cbn [last]. intros [= E2].
    pose proof (Z.div_mod (bn_val bn) 58). lia.
Qed.

Lemma decode_loop_spec ds bn :
  Forall (is_digit 58) ds -> exists bn', decode_loop (base58_char <$> ds) bn = Some bn' /\
    bn_val bn' = foldl (fun a d => a * 58 + d) (bn_val bn) ds.
Proof.
  revert bn. induction ds as [|d ds IH]; intros bn Hd; cbn [fmap list_fmap decode_loop foldl]; [by exists bn|].
  apply Forall_cons in Hd as [Hd Hds]. destruct (base58_chars d Hd) as (-> & _ & _).
  destruct (IH (bn_plus (BN_mul bn (CBigNum_of_int 58)) (setulong d)) Hds) as (bn' & E & Hv). exists bn'. split; [done|]. rewrite Hv. f_equal.
  unfold bn_plus, setulong. rewrite BN_add_val, BN_mul_val, BN_set_word_val, CBigNum_of_int_val by (unfold is_digit in Hd; lia). done.
Qed.

(** The bytes of a number behind a zero byte that keeps it positive *)
Lemma setvch_positive vch :
  bytes_ok vch -> Z.of_nat (length vch) < 2 ^ 31 - 1 -> bn_val (setvch (vch ++ [0])) = le_val vch.
Proof.
  intros Hok Hl. assert (H0 : bytes_ok (vch ++ [0])) by (apply Forall_app; split; [done|]; repeat constructor; lia).
  rewrite setvch_val by (done || (rewrite length_app; cbn; lia)).
  assert (le_val (vch ++ [0]) = le_val vch) as Hv by (rewrite digits_val_app, digits_val_cons, digits_val_nil by lia; lia).
  pose proof (digits_val_bound 256 ltac:(lia) vch Hok) as Hb. rewrite pow256 in Hb by lia.
  unfold snum_decode. rewrite Hv, length_app. cbn [length]. destruct (vch ++ [0]) eqn:E; [by destruct vch|].
  rewrite (proj2 (Z.ltb_lt _ _)); [done|]. eapply Z.lt_le_trans; [apply Hb|]. apply Z.pow_le_mono_r; lia.
Qed.

(** Without its sign byte a positive number has no leading zero *)
Lemma trim_sign_spec z :
  0 <= z -> let l := trim_sign (snum_encode z) in Forall (is_digit 256) l /\ le_val l = z /\ last l <> Some 0.
Proof.
  intros Hz. destruct (decide (z = 0)) as [->|Hz0]; [by split_and!|].
  pose proof (snum_encode_ok z) as Hok. pose proof (le_val_snum_encode z Hz0) as Hv. pose proof (length_snum_encode z) as Hlen.
  pose proof (snum_len_bounds z Hz0) as [Hlo Hhi]. assert (snum_raw z = z) as Hraw.
  { unfold snum_raw. destruct (Z.ltb_spec z 0); lia. }
  rewrite Hraw in Hv. rewrite Z.abs_eq in Hlo, Hhi by lia. unfold trim_sign. set (n := snum_len z) in *. clearbody n.
  generalize dependent (snum_encode z). intros l. destruct l as [|t l] using rev_ind; intros Hok Hv Hlen.
  { rewrite digits_val_nil in Hv. lia. }
  clear IHl. rewrite rev_unit. pose proof Hok as Hok'. apply Forall_app in Hok' as [Hl Ht].
  assert (Hv' : le_val l + 256 ^ Z.of_nat (length l) * t = z) by (rewrite <- Hv, digits_val_app, digits_val_cons, digits_val_nil by lia; lia).
  rewrite length_app in Hlen. cbn [length] in Hlen. destruct (decide (t = 0)) as [->|Hnt].
  2: { destruct t; [done|..]; (split_and!; [done|done|rewrite last_snoc; congruence]). }
  destruct l as [|c l] using rev_ind; [rewrite digits_val_nil in Hv'; lia|]. clear IHl. rewrite rev_unit.
  apply Forall_app in Hl as [Hl Hc]. rewrite length_app in *. cbn [length] in *.
  rewrite digits_val_app, digits_val_cons, digits_val_nil in Hv' by lia.
  pose proof (digits_val_bound 256 ltac:(lia) l Hl) as Hb. set (k := Z.of_nat (length l)) in *.
  assert (n = k + 2) as -> by lia. assert (Hp : 2 ^ (8 * (k + 2 - 1) - 1) = 256 ^ k * 128).
  { rewrite pow256 by lia. change 128 with (2 ^ 7). rewrite <- Z.pow_add_r by lia. f_equal. lia. }
  assert (0x80 <= c) as Hc80 by nia. rewrite (proj2 (Z.leb_le _ _) Hc80). cbn [rev]. rewrite rev_involutive. split_and!.
  - by apply Forall_app.
  - rewrite digits_val_app, digits_val_cons, digits_val_nil by lia. fold k. lia.
  - rewrite last_snoc. intros [= ->]. lia.
Qed.

(** ** The round trip *)

Lemma Decode_Encode bytes :
  bytes_ok bytes -> Z.of_nat (length bytes) < 2 ^ 31 - 1 ->
  exists str, EncodeBase58 bytes = Some str /\ DecodeBase58 str = Some bytes.
Proof.
  intros Hok Hlen. destruct (leading_split 0 bytes) as (rest & Eb & Hh). set (k := leading 0 bytes) in *.
  assert (Hrok : bytes_ok (rev bytes)) by (by apply rev_bytes_ok).
  assert (Hrest : bytes_ok (rev rest)) by (apply rev_bytes_ok; rewrite Eb in Hok; by apply Forall_app in Hok as [_ ?]).
  assert (Hval : le_val (rev bytes) = le_val (rev rest)).
  { rewrite Eb, rev_app_distr, digits_val_app by lia. rewrite rev_replicate, digits_val_replicate_0. lia. }
  set (bn := setvch (rev bytes ++ [0])). assert (Hbn : bn_val bn = le_val (rev rest)).
  { unfold bn. by rewrite setvch_positive by (done || rewrite length_rev; lia). }
  destruct (encode_loop_spec (2 * length bytes) bn []) as (l & El & Hl & Hlv & Hlt).
  { rewrite Hbn, <- Hval. pose proof (digits_val_bound 256 ltac:(lia) _ Hrok) as Hb. rewrite length_rev in Hb. split; [lia|].
    eapply Z.lt_le_trans; [apply Hb|]. rewrite Nat2Z.inj_mul, Z.pow_mul_r by lia. apply Z.pow_le_mono_l. cbn. lia. }
  exists (replicate k (base58_char 0) ++ (base58_char <$> rev l)). split.
  - unfold EncodeBase58, encode_fuel. fold bn. rewrite El. cbn [mbind option_bind app]. f_equal.
    rewrite rev_app_distr, rev_replicate. f_equal. symmetry. apply map_rev.
  - assert (Hds : Forall (is_digit 58) (replicate k 0 ++ rev l)).
    { apply Forall_app. split; [apply Forall_replicate; unfold is_digit; lia|by apply Forall_rev]. }
    assert (Estr : replicate k (base58_char 0) ++ (base58_char <$> rev l) = base58_char <$> (replicate k 0 ++ rev l)).
    { rewrite fmap_app. f_equal. by rewrite fmap_replicate. }
    unfold DecodeBase58. rewrite skip_spaces_id.
    2: { intros c Hc. rewrite Estr in Hc. destruct (replicate k 0 ++ rev l) as [|d ds]; [done|]. injection Hc as <-.
         apply Forall_cons in Hds as [Hd _]. by apply base58_chars. }
    rewrite Estr. destruct (decode_loop_spec (replicate k 0 ++ rev l) (CBigNum_of_int 0) Hds) as (bn' & -> & Hbn'). cbn [mbind option_bind].
    rewrite <- Estr. rewrite <- (rev_replicate k 0), <- rev_app_distr, foldl_digits, CBigNum_of_int_val, digits_val_app, digits_val_replicate_0 in Hbn' by lia.
    rewrite getvch_val. assert (Hz : bn_val bn' = le_val (rev rest)) by lia.
    destruct (trim_sign_spec (bn_val bn')) as (T1 & T2 & T3); [rewrite Hz; by apply digits_val_nonneg|].
    assert (trim_sign (snum_encode (bn_val bn')) = rev rest) as ->.
    { apply (min_digits_inj 256); [lia|done|done|lia|done|]. intros Hl0. apply Hh. by rewrite <- last_rev. }
    rewrite rev_involutive. f_equal. rewrite Eb. f_equal. f_equal. change (nthZ pszBase58 0) with (base58_char 0).
    rewrite leading_app, (leading_top l Hl Hlt). lia.
Qed.

(** ** With a checksum *)

Definition checksum (vch : list Z) : list Z := take 4 (limb_bytes (Hash vch)).

Lemma length_checksum vch : length (checksum vch) = 4%nat.
Proof. destruct (Hash_ok vch) as [Hl _]. unfold checksum. by rewrite length_take, length_limb_bytes, Hl. Qed.

Lemma checksum_ok vch : bytes_ok (checksum vch).
Proof. apply Forall_take, limb_bytes_ok. Qed.

Lemma DecodeCheck_EncodeCheck vch :
  bytes_ok vch -> Z.of_nat (length vch) < 2 ^ 31 - 5 ->
  exists str, EncodeBase58Check vch = Some str /\ DecodeBase58Check str = Some vch.
Proof.
  intros Hok Hl. destruct (Decode_Encode (vch ++ checksum vch)) as (str & E & D).
  { apply Forall_app. split; [done|apply checksum_ok]. }
  { rewrite length_app, length_checksum. lia. }
  exists str. split; [done|]. unfold DecodeBase58Check. rewrite D. cbn [mbind option_bind]. rewrite length_app, length_checksum, Nat.add_sub.
  rewrite take_app_length, drop_app_length. destruct (Nat.ltb_spec (length vch + 4) 4); [lia|]. by rewrite bool_decide_eq_true_2.
Qed.

Lemma DecodeCheck_sound psz vch : DecodeBase58Check psz = Some vch -> DecodeBase58 psz = Some (vch ++ checksum vch).
Proof.
  unfold DecodeBase58Check. destruct (DecodeBase58 psz) as [v|]; [|done]. cbn [mbind option_bind]. case_goal; [done|].
  case_bool_decide as Hc; [|done]. intros [= <-]. f_equal. unfold checksum. rewrite Hc. symmetry. apply take_drop.
Qed.

(** ** Addresses and secrets *)

Lemma SetString_ToString v data :
  0 <= v < 256 -> bytes_ok data -> Z.of_nat (length data) < 2 ^ 31 - 6 ->
  exists str, ToString (mkData v data) = Some str /\ SetString str = (true, mkData v data).
Proof.
  intros Hv Hok Hl. destruct (DecodeCheck_EncodeCheck (v :: data)) as (str & E & D).
  { by constructor. }
  { cbn [length]. lia. }
  exists str. split; [done|]. unfold SetString. by rewrite D.
Qed.

Definition is_destination (dest : CTxDestination) : Prop :=
  match dest with CKeyID id | CScriptID id => uint_ok WIDTH160 id | CNoDestination => False end.

Lemma address_roundtrip fTestNet dest d :
  is_destination dest ->
  exists d' str, address_Set fTestNet dest d = (true, d') /\ ToString d' = Some str /\ SetString str = (true, d') /\
    address_IsValid fTestNet d' = true /\ address_IsValid (negb fTestNet) d' = false /\ address_Get fTestNet d' = dest.
Proof.
  intros Hd. assert (forall v id, uint_ok WIDTH160 id -> 0 <= v < 256 ->
    exists str, ToString (mkData v (limb_bytes id)) = Some str /\ SetString str = (true, mkData v (limb_bytes id))) as HS.
  { intros v id [Hl _] Hv. apply SetString_ToString; [done|apply limb_bytes_ok|]. rewrite length_limb_bytes, Hl. done. }
  assert (forall id, uint_ok WIDTH160 id -> length (limb_bytes id) = 20%nat /\ limbs_of_bytes WIDTH160 (limb_bytes id) = id) as HI.
  { intros id [Hl Hid]. rewrite length_limb_bytes, Hl. split; [done|]. rewrite <- Hl. by apply limbs_of_bytes_limb_bytes. }
  destruct dest as [|id|id]; [done|..]; cbn [is_destination] in Hd; destruct (HI id Hd) as [Hn Hb];
    unfold address_Set, SetData, address_Get, address_IsValid; destruct fTestNet;
    match goal with |- context [mkData ?v (limb_bytes id)] => destruct (HS v id Hd) as (str & E & D); [done|]; exists (mkData v (limb_bytes id)), str end;
    cbn [b58_nVersion vchData]; rewrite Hn, Hb; by split_and!.
Qed.

Lemma secret_roundtrip fTestNet vchSecret fCompressed :
  bytes_ok vchSecret -> length vchSecret = 32%nat ->
  exists d str, SetSecret fTestNet vchSecret fCompressed = Some d /\ ToString d = Some str /\
    secret_SetString fTestNet str = (true, d) /\ (secret_SetString (negb fTestNet) str).1 = false /\
    secret_GetSecret d = Some (vchSecret, fCompressed).
Proof.
  intros Hok Hl. unfold SetSecret, SetData. rewrite Hl. cbn [Nat.eqb b58_nVersion vchData].
  set (v := (128 + _) mod 256). set (data := if fCompressed then vchSecret ++ [1] else vchSecret).
  assert (bytes_ok data) as Hdok.
  { unfold data. destruct fCompressed; [|done]. apply Forall_app. split; [done|]. by repeat constructor. }
  assert (length data = if fCompressed then 33 else 32)%nat as Hdl by (unfold data; destruct fCompressed; [rewrite length_app, Hl|]; done).
  destruct (SetString_ToString v data) as (str & E & D).
  { unfold v. apply Z.mod_pos_bound. lia. }
  { done. }
  { rewrite Hdl. by destruct fCompressed. }
  exists (mkData v data), str. split; [by unfold data; destruct fCompressed|]. split; [done|].
  unfold secret_SetString, secret_GetSecret, secret_IsValid. rewrite D. cbn [b58_nVersion vchData fst]. rewrite Hdl.
  assert (nthZ data 32 = if fCompressed then 1 else nthZ data 32) as Hn.
  { unfold data. destruct fCompressed; [|done]. unfold nthZ. rewrite lookup_app_r by lia. by rewrite Hl. }
  assert (take 32 data = vchSecret) as ->.
  { unfold data. destruct fCompressed; [rewrite <- Hl; apply take_app_length|apply take_ge; lia]. }
  split_and!; destruct fTestNet, fCompressed; rewrite ?Hn; done.
Qed.

(** C29: Base 58 loses nothing.  Every byte string below the size limit of the number conversion has an
    encoding ([EncodeBase58] ends) and decoding it gives the bytes back, leading zeros included, with or
    without the checksum; whatever [DecodeBase58Check] accepts carries the checksum of what it returns;
    the address of a key or script hash prints to a string that reads back as the same valid address of
    the same destination, and is not valid on the other network; a secret of 32 bytes prints to a string
    that [CBitcoinSecret::SetString] accepts on its own network only, and [GetSecret] returns its bytes
    and its compression flag. *)
Theorem base58_roundtrip :
  (forall bytes, bytes_ok bytes -> Z.of_nat (length bytes) < 2 ^ 31 - 1 ->
     exists str, EncodeBase58 bytes = Some str /\ DecodeBase58 str = Some bytes) /\
  (forall vch, bytes_ok vch -> Z.of_nat (length vch) < 2 ^ 31 - 5 ->
     exists str, EncodeBase58Check vch = Some str /\ DecodeBase58Check str = Some vch) /\
  (forall psz vch, DecodeBase58Check psz = Some vch -> DecodeBase58 psz = Some (vch ++ checksum vch)) /\
  (forall fTestNet dest d, is_destination dest ->
     exists d' str, address_Set fTestNet dest d = (true, d') /\ ToString d' = Some str /\ SetString str = (true, d') /\
       address_IsValid fTestNet d' = true /\ address_IsValid (negb fTestNet) d' = false /\ address_Get fTestNet d' = dest) /\
  (forall fTestNet vchSecret fCompressed, bytes_ok vchSecret -> length vchSecret = 32%nat ->
     exists d str, SetSecret fTestNet vchSecret fCompressed = Some d /\ ToString d = Some str /\
       secret_SetString fTestNet str = (true, d) /\ (secret_SetString (negb fTestNet) str).1 = false /\
       secret_GetSecret d = Some (vchSecret, fCompressed)).
Proof.
  split_and!.
  - apply Decode_Encode.
  - apply DecodeCheck_EncodeCheck.
  - apply DecodeCheck_sound.
  - apply address_roundtrip.
  - apply secret_roundtrip.
Qed.
End base58_facts.

(** ** Witness *)

Lemma base58_roundtrip_witness :
  exists str, EncodeBase58 (B := ZBN) [0; 0; 97; 98; 99] = Some str /\ DecodeBase58 (B := ZBN) str = Some [0; 0; 97; 98; 99].
Proof.
  destruct (base58_roundtrip (B := ZBN) (H := toy_hash)) as (He & _). apply He; [|done]. repeat constructor; lia.
Defined.

(** "abc" is "ZiCa", and white space around the text is accepted *)
Example base58_abc :
  EncodeBase58 (B := ZBN) [97; 98; 99] = Some [90; 105; 67; 97] /\
  DecodeBase58 (B := ZBN) [32; 90; 105; 67; 97; 10] = Some [97; 98; 99] /\
  DecodeBase58 (B := ZBN) [90; 105; 32; 67; 97] = None.
Proof. vm_compute. done. Qed.
