(* ===== verification/BlockTree.v ===== *)
(** * The tree of blocks: [mapBlockIndex], the best chain and [CBlockLocator] of [main.h]

    The program keeps one [CBlockIndex] object for each block it has accepted and links
    them by the pointers [pprev] and [pnext].  Here a pointer is the hash of the object
    it points at and the objects are the entries of one shared map, so that an
    assignment through a pointer is seen by every reader.  The way back through [pprev]
    is the list that the walks of [Chain] take. *)

From S2P Require Import Prelude Uint256 BigNum Serialize Hash Transaction Block TxRules Chain.

Record BlockNode := mkNode { node : CBlockIndex; pprev : option (list Z); pnext : option (list Z) }.
Abbreviation BlockMap := (gmap (list Z) BlockNode).

(** The way back from a pointer; a chain is not longer than the map *)
Fixpoint way_back (fuel : nat) (m : BlockMap) (p : option (list Z)) : list CBlockIndex :=
  match fuel, p with
  | S fuel, Some h =>
      match m !! h with
      | Some nd => node nd :: way_back fuel m (pprev nd)
      | None => []
      end
  | _, _ => []
  end.
Definition way (m : BlockMap) (p : option (list Z)) : list CBlockIndex := way_back (base.size m) m p.

(** [pnext || this == pindexBest] *)
Definition IsInMainChain (m : BlockMap) (pindexBest : option (list Z)) (h : list Z) : bool :=
  match m !! h with
  | Some nd => match pnext nd with Some _ => true | None => bool_decide (pindexBest = Some h) end
  | None => false
  end.

(** [p->pnext = next] *)
Definition set_pnext (h : list Z) (next : option (list Z)) (m : BlockMap) : BlockMap :=
  alter (fun nd => mkNode (node nd) (pprev nd) next) h m.

(** ** [CBlockLocator] *)

(** The walk of [Set]: [nStep] blocks back each time, twice as many after ten hashes.
    Every round takes a block off the way. *)
Fixpoint locator_loop (fuel : nat) (chain : list CBlockIndex) (nStep : Z) (vHave : list (list Z)) : list (list Z) :=
  match fuel, chain with
  | S fuel, pindex :: _ =>
      let vHave := vHave ++ [bi_hash pindex] in
      locator_loop fuel (drop (Z.to_nat nStep) chain)
        (if 10 <? Z.of_nat (length vHave) then nStep * 2 else nStep) vHave
  | _, _ => vHave
  end.
Definition locator_Set (hashGenesisBlock : list Z) (chain : list CBlockIndex) : list (list Z) :=
  locator_loop (length chain) chain 1 [] ++ [hashGenesisBlock].

Definition in_main (m : BlockMap) (pindexBest : option (list Z)) (h : list Z) : bool :=
  bool_decide (is_Some (m !! h)) && IsInMainChain m pindexBest h.

Fixpoint distance_loop (m : BlockMap) (pindexBest : option (list Z)) (vHave : list (list Z)) (nDistance nStep : Z) : Z :=
  match vHave with
  | [] => nDistance
  | h :: vHave =>
      if in_main m pindexBest h then nDistance
      else
        let nDistance := nDistance + nStep in
        distance_loop m pindexBest vHave nDistance (if 10 <? nDistance then nStep * 2 else nStep)
  end.
Definition GetDistanceBack (m : BlockMap) (pindexBest : option (list Z)) (vHave : list (list Z)) : Z :=
  distance_loop m pindexBest vHave 0 1.

(** The first hash of the locator that is in the main chain *)
Definition locator_find (m : BlockMap) (pindexBest : option (list Z)) (vHave : list (list Z)) : option (list Z) :=
  head (filter (fun h => in_main m pindexBest h = true) vHave).
Definition locator_GetBlockIndex (m : BlockMap) (pindexBest pindexGenesisBlock : option (list Z)) (vHave : list (list Z)) : option (list Z) :=
  match locator_find m pindexBest vHave with Some h => Some h | None => pindexGenesisBlock end.
Definition locator_GetBlockHash (m : BlockMap) (pindexBest : option (list Z)) (hashGenesisBlock : list Z) (vHave : list (list Z)) : list Z :=
  default hashGenesisBlock (locator_find m pindexBest vHave).
Definition locator_GetHeight (m : BlockMap) (pindexBest pindexGenesisBlock : option (list Z)) (vHave : list (list Z)) : Z :=
  match locator_GetBlockIndex m pindexBest pindexGenesisBlock vHave ≫= (m !!.) with
  | Some nd => bi_nHeight (node nd)
  | None => 0
  end.

(** ** The invariant of the tree *)

(** Every entry is filed under its hash, its parent is there and one lower, and heights
    start at zero *)
Record tree_ok (m : BlockMap) : Prop := {
  node_hash h nd : m !! h = Some nd -> bi_hash (node nd) = h;
  node_uint h nd : m !! h = Some nd -> uint_ok WIDTH256 h;
  node_height h nd : m !! h = Some nd -> 0 <= bi_nHeight (node nd);
  root_height h nd : m !! h = Some nd -> pprev nd = None -> bi_nHeight (node nd) = 0;
  parent_height h nd p : m !! h = Some nd -> pprev nd = Some p ->
    exists pd, m !! p = Some pd /\ bi_nHeight (node nd) = bi_nHeight (node pd) + 1
}.

(** Following [pprev] from [p] visits exactly the blocks of [l] *)
Fixpoint is_path (m : BlockMap) (p : option (list Z)) (l : list (list Z)) : Prop :=
  match l with
  | [] => p = None
  | h :: l => p = Some h /\ exists nd, m !! h = Some nd /\ is_path m (pprev nd) l
  end.

Definition path (m : BlockMap) (p : option (list Z)) : list (list Z) := bi_hash <$> way m p.

(** What the walks look at *)
Definition skeleton (m : BlockMap) (h : list Z) : option (list Z * Z * option (list Z)) :=
  (fun nd => (bi_hash (node nd), bi_nHeight (node nd), pprev nd)) <$> m !! h.

Lemma is_path_unique m p l1 l2 : is_path m p l1 -> is_path m p l2 -> l1 = l2.
Proof.
  revert p l2. induction l1 as [|h l1 IH]; intros p [|j l2]; cbn [is_path]; [done|by intros -> (? & _)|by intros (-> & _) ?|].
  intros (-> & nd & E & W1) ([= <-] & nd' & E' & W2). simplify_eq. f_equal. by eapply IH.
Qed.

Lemma is_path_app m p l1 h l2 :
  is_path m p (l1 ++ h :: l2) -> is_path m (Some h) (h :: l2).
Proof.
  revert p. induction l1 as [|x l1 IH]; intros p; cbn [app is_path].
  - intros (-> & Hnd). by split.
  - intros (_ & nd & _ & W). by eapply IH.
Qed.

Section tree.
Context {m : BlockMap} (Hm : tree_ok m).

Lemma is_path_height p h l : is_path m p (h :: l) -> exists nd, m !! h = Some nd /\ bi_nHeight (node nd) = Z.of_nat (length l).
Proof.
  revert p h. induction l as [|x l IH]; intros p h (_ & nd & E & W); exists nd; split; try done.
  - by rewrite (root_height m Hm _ _ E W).
  - destruct W as (Ep & W). destruct (parent_height m Hm _ _ _ E Ep) as (pd & Epd & ->).
    destruct (IH (Some x) x) as (pd' & E' & Hh); [by split|]. simplify_eq. cbn [length]. lia.
Qed.

Lemma is_path_NoDup p l : is_path m p l -> NoDup l.
Proof.
  revert p. induction l as [|h l IH]; intros p W; [constructor|]. pose proof W as (_ & nd & E & W'). constructor; [|by eapply IH].
  intros (l1 & l2 & ->)%list_elem_of_split. destruct (is_path_height _ _ _ W) as (nd1 & E1 & H1).
  destruct (is_path_height (Some h) h l2) as (nd2 & E2 & H2); [by eapply is_path_app|]. simplify_eq.
  rewrite length_app in H1. cbn [length] in H1. lia.
Qed.

Lemma is_path_dom p l : is_path m p l -> Forall (fun h => is_Some (m !! h)) l.
Proof. revert p. induction l as [|h l IH]; intros p; [done|]. intros (_ & nd & E & W). constructor; eauto. Qed.

Lemma is_path_length p l : is_path m p l -> (length l <= base.size m)%nat.
Proof.
  intros W. rewrite <- (size_list_to_set (C := gset (list Z)) l (is_path_NoDup _ _ W)), <- size_dom. apply subseteq_size.
  intros h Hh%elem_of_list_to_set. apply elem_of_dom. pose proof (is_path_dom _ _ W) as Hd. rewrite Forall_forall in Hd. by apply Hd.
Qed.

Lemma path_exists h nd : m !! h = Some nd -> exists l, is_path m (Some h) (h :: l).
Proof.
  remember (Z.to_nat (bi_nHeight (node nd))) as n eqn:En. revert h nd En. induction n as [n IH] using lt_wf_ind. intros h nd -> E.
  destruct (pprev nd) as [p|] eqn:Ep; [|exists []; cbn [is_path]; eauto].
  destruct (parent_height m Hm _ _ _ E Ep) as (pd & Epd & Hh). pose proof (node_height m Hm _ _ Epd).
  destruct (IH (Z.to_nat (bi_nHeight (node pd)))) with (h := p) (nd := pd) as (l & W); [lia|done..|].
  exists (p :: l). split; [done|]. exists nd. by rewrite Ep.
Qed.

Lemma way_back_path fuel p l : is_path m p l -> (length l <= fuel)%nat -> bi_hash <$> way_back fuel m p = l.
Proof.
  revert fuel p. induction l as [|h l IH]; intros fuel p W Hf; [rewrite W; by destruct fuel|].
  destruct W as (-> & nd & E & W). destruct fuel as [|fuel]; cbn [length] in Hf; [lia|]. cbn [way_back]. rewrite E. cbn [fmap list_fmap].
  rewrite (node_hash m Hm _ _ E). f_equal. apply IH; [done|lia].
Qed.

Lemma path_eq p l : is_path m p l -> path m p = l.
Proof. intros W. apply way_back_path; [done|by eapply is_path_length]. Qed.

Lemma path_spec h nd : m !! h = Some nd -> is_path m (Some h) (path m (Some h)).
Proof. intros E. destruct (path_exists h nd E) as (l & W). by rewrite (path_eq _ _ W). Qed.

Lemma path_None : path m None = [].
Proof. by apply path_eq. Qed.

Lemma path_unfold h nd : m !! h = Some nd -> path m (Some h) = h :: path m (pprev nd).
Proof.
  intros E. destruct (path_exists h nd E) as (l & W). rewrite (path_eq _ _ W). f_equal.
  destruct W as (_ & nd' & E' & W). simplify_eq. symmetry. by apply path_eq.
Qed.

Lemma way_back_more fuel p l : is_path m p l -> (length l <= fuel)%nat -> way_back fuel m p = way_back (length l) m p.
Proof.
  revert fuel p. induction l as [|h l IH]; intros fuel p W Hf; [rewrite W; by destruct fuel|].
  destruct W as (-> & nd & E & W). destruct fuel as [|fuel]; cbn [length] in Hf; [lia|]. cbn [way_back length]. rewrite E. f_equal.
  apply IH; [done|lia].
Qed.

(** The list a walk starts from, one step at a time *)
Lemma way_unfold h nd : m !! h = Some nd -> way m (Some h) = node nd :: way m (pprev nd).
Proof.
  intros E. destruct (path_exists h nd E) as (l & W). unfold way. rewrite (way_back_more _ _ _ W) by (by eapply is_path_length).
  destruct W as (_ & nd' & E' & W). simplify_eq. cbn [length way_back]. rewrite E. f_equal.
  symmetry. apply way_back_more; [done|by eapply is_path_length].
Qed.

Lemma path_length h nd : m !! h = Some nd -> Z.of_nat (length (path m (Some h))) = bi_nHeight (node nd) + 1.
Proof.
  intros E. rewrite (path_unfold _ _ E). cbn [length]. destruct (path_exists h nd E) as (l & W).
  destruct (is_path_height _ _ _ W) as (nd' & E' & Hh). pose proof (path_eq _ _ W) as Hp. rewrite (path_unfold _ _ E) in Hp.
  injection Hp as Hp. simplify_eq. lia.
Qed.

(** Ancestors: the way back from a block on a way is its tail *)
Lemma path_suffix p h l1 l2 : path m p = l1 ++ h :: l2 -> is_path m p (path m p) -> path m (Some h) = h :: l2.
Proof. intros E W. rewrite E in W. apply path_eq. by eapply is_path_app. Qed.

Lemma path_is_path p : (forall h, p = Some h -> is_Some (m !! h)) -> is_path m p (path m p).
Proof.
  destruct p as [h|]; [|by rewrite path_None]. intros Hh. destruct (Hh h eq_refl) as [nd E]. by eapply path_spec.
Qed.

Lemma path_elem p h :
  (forall b, p = Some b -> is_Some (m !! b)) -> h ∈ path m p -> exists nd l, m !! h = Some nd /\ path m p = l ++ path m (Some h).
Proof.
  intros Hp (l1 & l2 & E)%list_elem_of_split. pose proof (path_is_path _ Hp) as W. pose proof (is_path_dom _ _ W) as Hd.
  rewrite E in Hd. apply Forall_app in Hd as [_ [[nd Hnd] _]%Forall_cons]. exists nd, l1. split; [done|].
  by rewrite (path_suffix p h l1 l2 E W).
Qed.

Lemma way_nodes fuel p : Forall (fun i => exists nd, m !! bi_hash i = Some nd /\ node nd = i) (way_back fuel m p).
Proof.
  revert p. induction fuel as [|fuel IH]; intros p; [constructor|]. destruct p as [h|]; [|constructor]. cbn [way_back].
  destruct (m !! h) as [nd|] eqn:E; [|constructor]. constructor; [|apply IH]. exists nd. by rewrite (node_hash m Hm _ _ E).
Qed.

(** One block of each height on a way *)
Lemma path_height_unique p x y xd yd :
  (forall b, p = Some b -> is_Some (m !! b)) -> x ∈ path m p -> y ∈ path m p -> m !! x = Some xd -> m !! y = Some yd ->
  bi_nHeight (node xd) = bi_nHeight (node yd) -> x = y.
Proof.
  intros Hp Hx Hy Ex Ey Hh. destruct (path_elem _ _ Hp Hx) as (_ & l1 & _ & E1). destruct (path_elem _ _ Hp Hy) as (_ & l2 & _ & E2).
  pose proof (path_length _ _ Ex) as Lx. pose proof (path_length _ _ Ey) as Ly. rewrite E1 in E2. apply app_inj_2 in E2 as [_ E2]; [|lia].
  rewrite (path_unfold _ _ Ex), (path_unfold _ _ Ey) in E2. by injection E2.
Qed.

(** On one way the higher block descends from the lower one *)
Lemma path_linear p x y xd yd :
  (forall b, p = Some b -> is_Some (m !! b)) -> x ∈ path m p -> y ∈ path m p -> m !! x = Some xd -> m !! y = Some yd ->
  bi_nHeight (node xd) <= bi_nHeight (node yd) -> x ∈ path m (Some y).
Proof.
  intros Hp Hx Hy Ex Ey Hh. destruct (path_elem _ _ Hp Hx) as (_ & l1 & _ & E1). destruct (path_elem _ _ Hp Hy) as (_ & l2 & _ & E2).
  pose proof (path_length _ _ Ex) as Lx. pose proof (path_length _ _ Ey) as Ly. pose proof E1 as E3. rewrite E2 in E3.
  assert (Hl : (length l2 <= length l1)%nat).
  { apply (f_equal length) in E3. rewrite !length_app in E3. lia. }
  assert (path m (Some y) = drop (length l2) l1 ++ path m (Some x)) as ->.
  { rewrite <- (drop_app_le l1 _ _ Hl), <- E3. by rewrite drop_app_length. }
  apply elem_of_app. right. rewrite (path_unfold _ _ Ex). left.
Qed.

Lemma path_trans x y z : is_Some (m !! z) -> x ∈ path m (Some y) -> y ∈ path m (Some z) -> x ∈ path m (Some z).
Proof.
  intros Hz Hx Hy. destruct (path_elem (Some z) y ltac:(by intros b [= <-]) Hy) as (_ & l & _ & ->). set_solver.
Qed.
End tree.

(** ** Maps with the same skeleton *)

Lemma skeleton_lookup m1 m2 h nd :
  (forall h, skeleton m1 h = skeleton m2 h) -> m1 !! h = Some nd ->
  exists nd', m2 !! h = Some nd' /\ bi_hash (node nd') = bi_hash (node nd) /\ bi_nHeight (node nd') = bi_nHeight (node nd) /\ pprev nd' = pprev nd.
Proof.
  intros Hs E. specialize (Hs h). unfold skeleton in Hs. rewrite E in Hs. destruct (m2 !! h) as [nd'|]; [|done].
  injection Hs as Eh Eg Ep. by exists nd'.
Qed.

Lemma skeleton_tree_ok m1 m2 : (forall h, skeleton m1 h = skeleton m2 h) -> tree_ok m1 -> tree_ok m2.
Proof.
  intros Hs Hm. assert (Hs' : forall h, skeleton m2 h = skeleton m1 h) by done. split; intros h nd; [..|intros p]; intros E;
    destruct (skeleton_lookup _ _ _ _ Hs' E) as (nd' & E' & Hh & Hg & Hp).
  - rewrite <- Hh. by apply (node_hash m1).
  - by apply (node_uint m1 Hm h nd').
  - rewrite <- Hg. by apply (node_height m1 Hm h).
  - rewrite <- Hg, <- Hp. by apply (root_height m1 Hm h).
  - rewrite <- Hg, <- Hp. intros Ep. destruct (parent_height m1 Hm _ _ _ E' Ep) as (pd & Epd & ->).
    destruct (skeleton_lookup _ _ _ _ Hs Epd) as (pd' & Epd' & _ & Hg' & _). exists pd'. split; [done|]. lia.
Qed.

Lemma skeleton_is_path m1 m2 p l : (forall h, skeleton m1 h = skeleton m2 h) -> is_path m1 p l -> is_path m2 p l.
Proof.
  intros Hs. revert p. induction l as [|h l IH]; intros p; [done|]. intros (-> & nd & E & W).
  destruct (skeleton_lookup _ _ _ _ Hs E) as (nd' & E' & _ & _ & Ep). split; [done|]. exists nd'. split; [done|]. rewrite Ep. by apply IH.
Qed.

Lemma skeleton_path m1 m2 p :
  (forall h, skeleton m1 h = skeleton m2 h) -> tree_ok m1 -> (forall b, p = Some b -> is_Some (m1 !! b)) -> path m1 p = path m2 p.
Proof.
  intros Hs Hm Hp. symmetry. apply path_eq; [by eapply skeleton_tree_ok|]. eapply skeleton_is_path; [done|]. by apply path_is_path.
Qed.

Lemma skeleton_dom m1 m2 h : (forall h, skeleton m1 h = skeleton m2 h) -> is_Some (m1 !! h) -> is_Some (m2 !! h).
Proof. intros Hs [nd E]. destruct (skeleton_lookup _ _ _ _ Hs E) as (nd' & -> & _). eauto. Qed.

Lemma skeleton_alter f h0 m h :
  (forall nd, bi_hash (node (f nd)) = bi_hash (node nd) /\ bi_nHeight (node (f nd)) = bi_nHeight (node nd) /\ pprev (f nd) = pprev nd) ->
  skeleton (alter f h0 m) h = skeleton m h.
Proof.
  intros Hf. unfold skeleton. destruct (decide (h0 = h)) as [->|Hn]; [|by rewrite lookup_alter_ne].
  rewrite lookup_alter_eq. destruct (m !! h) as [nd|]; [|done]. cbn. by destruct (Hf nd) as (-> & -> & ->).
Qed.

Lemma skeleton_set_pnext h0 next m h : skeleton (set_pnext h0 next m) h = skeleton m h.
Proof. by apply skeleton_alter. Qed.

(** ** The best chain *)

(** [pnext] leads from each block of the best chain to the next one and is [NULL]
    everywhere else *)
Definition marks_ok (m : BlockMap) (b : option (list Z)) : Prop :=
  forall h nd c, m !! h = Some nd ->
    (pnext nd = Some c <-> c ∈ path m b /\ exists cd, m !! c = Some cd /\ pprev cd = Some h).

Lemma main_chain m b h :
  tree_ok m -> (forall x, b = Some x -> is_Some (m !! x)) -> marks_ok m b ->
  IsInMainChain m b h = true <-> h ∈ path m b.
Proof.
  intros Hm Hb Hk. pose proof (path_is_path Hm _ Hb) as W. unfold IsInMainChain. split.
  - destruct (m !! h) as [nd|] eqn:E; [|done]. destruct (pnext nd) as [c|] eqn:En.
    + intros _. apply (Hk h nd c E) in En as (Hc & cd & Ec & Ep).
      destruct (path_elem Hm _ _ Hb Hc) as (cd' & l & Ec' & ->). simplify_eq. rewrite (path_unfold Hm _ _ Ec), Ep, (path_unfold Hm _ _ E).
      apply elem_of_app. right. right. left.
    + intros ->%bool_decide_eq_true_1. rewrite (path_unfold Hm _ _ E). left.
  - intros Hh. destruct (path_elem Hm _ _ Hb Hh) as (nd & l & E & Ep). rewrite E. destruct (pnext nd) as [c|] eqn:En; [done|].
    apply bool_decide_eq_true_2. destruct l as [|c l] using rev_ind; [|clear IHl].
    { destruct b as [x|]; [|rewrite (path_None Hm) in Hh; by apply not_elem_of_nil in Hh]. destruct (Hb x eq_refl) as [xd Ex].
      rewrite (path_unfold Hm _ _ Ex), (path_unfold Hm _ _ E) in Ep. cbn in Ep. by injection Ep as ->. }
    exfalso. rewrite <- app_assoc in Ep. cbn [app] in Ep. assert (Hc : c ∈ path m b) by (rewrite Ep; set_solver).
    destruct (path_elem Hm _ _ Hb Hc) as (cd & _ & Ec & _). pose proof (path_suffix Hm _ _ _ _ Ep W) as Hs.
    rewrite (path_unfold Hm _ _ Ec) in Hs. injection Hs as Hs. rewrite (path_unfold Hm _ _ E) in Hs.
    assert (pprev cd = Some h) as Hpc.
    { destruct (pprev cd) as [x|] eqn:Ex; [|by rewrite (path_None Hm) in Hs]. destruct (parent_height m Hm _ _ _ Ec Ex) as (xd & Exd & _).
      rewrite (path_unfold Hm _ _ Exd) in Hs. by injection Hs as ->. }
    assert (pnext nd = Some c) by (apply (Hk h nd c E); split; [done|eauto]). congruence.
Qed.

(** ** Deciding the invariant of a concrete tree *)

Definition tree_check (m : BlockMap) : bool :=
  forallb (fun e : list Z * BlockNode => let (h, nd) := e in
    bool_decide (bi_hash (node nd) = h) && (length h =? 8)%nat && forallb (fun x => (0 <=? x) && (x <? 2 ^ 32)) h &&
    (0 <=? bi_nHeight (node nd)) &&
    match pprev nd with
    | None => bi_nHeight (node nd) =? 0
    | Some p => match m !! p with Some pd => bi_nHeight (node nd) =? bi_nHeight (node pd) + 1 | None => false end
    end) (map_to_list m).

Lemma tree_check_ok m : tree_check m = true -> tree_ok m.
Proof.
  unfold tree_check. rewrite forallb_forall. intros Hall.
  assert (Hn : forall h nd, m !! h = Some nd -> bi_hash (node nd) = h /\ uint_ok WIDTH256 h /\ 0 <= bi_nHeight (node nd) /\
    match pprev nd with
    | None => bi_nHeight (node nd) = 0
    | Some p => match m !! p with Some pd => bi_nHeight (node nd) = bi_nHeight (node pd) + 1 | None => False end
    end).
  { intros h nd E. specialize (Hall (h, nd)). cbn beta iota in Hall.
    assert (In (h, nd) (map_to_list m)) as Hin by (apply list_elem_of_In; by apply elem_of_map_to_list). specialize (Hall Hin).
    rewrite !andb_true_iff in Hall. destruct Hall as ((((H1 & H2) & H3) & H4) & H5). split_and!.
    - by apply bool_decide_eq_true_1 in H1.
    - split; [by apply Nat.eqb_eq|]. rewrite forallb_forall in H3. apply Forall_forall. intros x Hx%list_elem_of_In. specialize (H3 x Hx). unfold is_digit. bool_prop. lia.
    - by apply Z.leb_le.
    - destruct (pprev nd) as [p|]; [|by apply Z.eqb_eq]. destruct (m !! p); [by apply Z.eqb_eq|done]. }
  split; intros h nd; [..|intros p]; intros E; destruct (Hn h nd E) as (H1 & H2 & H3 & H4); try done; intros Ep; rewrite Ep in H4; [done|].
  destruct (m !! p) as [pd|] eqn:Epd; [|done]. by exists pd.
Qed.

(** The mark of every block, as the best chain says *)
Definition marks_check (m : BlockMap) (b : option (list Z)) : bool :=
  forallb (fun e : list Z * BlockNode => let (h, nd) := e in
    match pnext nd with
    | Some c => bool_decide (c ∈ path m b) && bool_decide ((m !! c) ≫= pprev = Some h)
    | None => forallb (fun c => negb (bool_decide ((m !! c) ≫= pprev = Some h))) (path m b)
    end) (map_to_list m).

Lemma marks_check_ok m b : tree_ok m -> (forall x, b = Some x -> is_Some (m !! x)) -> marks_check m b = true -> marks_ok m b.
Proof.
  unfold marks_check. rewrite forallb_forall. intros Hm Hb Hall h nd c E. specialize (Hall (h, nd)). cbn beta iota in Hall.
  assert (In (h, nd) (map_to_list m)) as Hin by (apply list_elem_of_In; by apply elem_of_map_to_list). specialize (Hall Hin).
  assert (Hch : forall c, c ∈ path m b -> (m !! c) ≫= pprev = Some h -> pnext nd = Some c).
  { intros d Hd Ed. destruct (pnext nd) as [c'|].
    - apply andb_true_iff in Hall as [H1%bool_decide_eq_true_1 H2%bool_decide_eq_true_1]. f_equal.
      destruct (m !! c') as [cd'|] eqn:E1; [|done]. destruct (m !! d) as [dd|] eqn:E2; [|done]. cbn in H2, Ed.
      eapply (path_height_unique Hm b); eauto. destruct (parent_height m Hm _ _ _ E1 H2) as (? & ? & ->).
      destruct (parent_height m Hm _ _ _ E2 Ed) as (? & ? & ->). by simplify_eq.
    - rewrite forallb_forall in Hall. specialize (Hall d (proj1 (list_elem_of_In _ _) Hd)). apply negb_true_iff, bool_decide_eq_false_1 in Hall. done. }
  split.
  - intros En. rewrite En in Hall. apply andb_true_iff in Hall as [H1%bool_decide_eq_true_1 H2%bool_decide_eq_true_1]. split; [done|].
    destruct (m !! c) as [cd|]; [|done]. by exists cd.
  - intros (Hc & cd & Ec & Ep). apply Hch; [done|]. by rewrite Ec.
Qed.

(** A chain of three blocks and a block beside the last one *)
Definition toy_hash_of (k : Z) : list Z := assign64 WIDTH256 k.
Definition toy_index (k height time flags modifier : Z) : CBlockIndex :=
  mkIndex (toy_hash_of k) 1 k (assign64 WIDTH256 (height + 1)) height 0 0 flags modifier 0 COutPoint_null 0 (assign64 WIDTH256 0)
    1 (assign64 WIDTH256 0) time 0x1d00ffff 0.
Definition toy_tree : BlockMap :=
  <[toy_hash_of 1 := mkNode (toy_index 1 0 1600000000 4 0) None (Some (toy_hash_of 2))]>
  (<[toy_hash_of 2 := mkNode (toy_index 2 1 1600000060 3 0) (Some (toy_hash_of 1)) (Some (toy_hash_of 3))]>
  (<[toy_hash_of 3 := mkNode (toy_index 3 2 1600100000 1 0) (Some (toy_hash_of 2)) None]>
  (<[toy_hash_of 4 := mkNode (toy_index 4 2 1600000130 2 0) (Some (toy_hash_of 2)) None]> ∅))).

Lemma toy_tree_ok : tree_ok toy_tree.
Proof. apply tree_check_ok. vm_compute. reflexivity. Qed.

Lemma toy_marks_ok : marks_ok toy_tree (Some (toy_hash_of 3)).
Proof. apply marks_check_ok; [apply toy_tree_ok|by intros x [= <-]|vm_compute; reflexivity]. Qed.
