(* ===== verification/Checkpoints.v ===== *)
(** * Checkpoints: [checkpoints.h], [checkpoints.cpp]

    The compiled-in checkpoints, and the synchronized checkpoint the network's master
    key signs.  [CheckSync] decides whether a block may extend a chain; its shortcut for
    the best chain is shown to agree with the walk it replaces.  A failed [assert] is
    [None].  The steps that move the best chain are in [SyncCheckpoints]. *)

From S2P Require Import Prelude Uint256 BigNum Serialize Hash Transaction Block TxRules TxDB Chain BlockTree Key.

(** [uint256("0x...")] *)
Definition uint256_of (z : Z) : list Z := limbs_of_bytes WIDTH256 (le_bytes 32 z).

Definition hashGenesisBlockOfficial : list Z := uint256_of 0x000009ea5ef5019446b315e7e581fc2ea184315ed46c9ddeadc8aa9442deedc9.
Definition hashGenesisBlockTestNet : list Z := uint256_of 0x0000f9e0292f278190e4d58cd1e1e9a32b7466c8092bd2371ffc80b06f8eca4a.

(** In the order of the map *)
Definition mapCheckpoints : list (Z * list Z) := [
  (0, hashGenesisBlockOfficial);
  (50000, uint256_of 0x00000002751f54b06ffac8da64d221babf48e9d82365c08c20e82585d674e6b6);
  (110465, uint256_of 0x000000022e2e3c4a5d305aaf8d01b1bbb0fc5afccc0fb65dad642b333fdc2cd8);
  (210943, uint256_of 0x000000029af45dc0e3bcb929fe1e060593a59c2fd983ee57c769bce83d1f6e86);
  (265734, uint256_of 0x00000004d7a22505fb8a091c6fed6bc6c66f7ccc4789c396dc9fdb6f511d2945);
  (411000, uint256_of 0x000000010c06d563dfe062ac53d7765dedc18e16de9457d0e5742255887965bc);
  (750000, uint256_of 0xcda70f71ae25ef36fd7954b27067f7b4e11c6d0f3e162d53086a7516a4b067ca);
  (1000000, uint256_of 0x356be281863d1a006da922d184f81065db45d5ba1302ccedabed5175b8637994);
  (2000000, uint256_of 0x0000000002f68f476e4622e6a9e6eb60912df15d9822b0fe9ece9b5d372c88ab);
  (3000000, uint256_of 0x3a5414c5dd29bd6fac4fe15bf900dff00a95725c39f7096a0fcbb6e40072e75b);
  (4000000, uint256_of 0x212ed3ddae5f49ee7fe1092f62a393cabc50e2172ee400969dabd673ebd2051d);
  (5000000, uint256_of 0x7f00f5447153b3331fcd6743f184a9434d5f866f46200cc8c7fc10108659ef45);
  (5499330, uint256_of 0xaed47152a5cc2db3859dd9428089b8da1d0bdd445cd76e9711f3e304d727330f);
  (5499331, uint256_of 0x00000000050e13566f81f688f2edd372415685b3c048d5b051457d170c2ea848);
  (5499332, uint256_of 0x000000003806a3ee782ebc103bd7d7f47aeb753d4cce911a19dab453051e3ce5);
  (5500000, uint256_of 0xa8f0c882004f2f976ec8af49fa42c45620d4b33d7a1a95de748c9e19fc917962);
  (5520100, uint256_of 0x8231997f2fe53ab744f37531d619c37983b3d4dfb619169e2034e4d3d9467e6b);
  (5525100, uint256_of 0x99202c5db266191c3bebba59873b5fb7514d5c9e8926e5099c5d36400f8a0ff4);
  (5579000, uint256_of 0x74cd42bbe9781749a862317a21fcc97527c3e32569b4e3cd1fd59514210ed50b);
  (5608000, uint256_of 0x37fb3b685a62047542a8345f031f8199839ebe716679dfe8fa318e8a5ea46d64);
  (7000000, uint256_of 0x5951dafa0ca3bbe0ae77cde77e49aec3c24d7240c895009d59fc7d97ca5a8d5f);
  (7500000, uint256_of 0xff72f7e6be1a14ad0aa4853ca088180d8baddaa64dd5bc877356f550124eb1f9);
  (7900000, uint256_of 0x6bb7df798156d1029ca0704a0f808a4ed3f0af1d48685a59844cb394ab9b22fe);
  (7990000, uint256_of 0x5d96b92f208c0d5b5670bdeb357619f4567c022e9cfc1a5c022c11db9d0cf78f)
].

Definition mapCheckpointsTestnet : list (Z * list Z) := [(0, hashGenesisBlockTestNet)].
Definition checkpoints_of (fTestNet : bool) : list (Z * list Z) := if fTestNet then mapCheckpointsTestnet else mapCheckpoints.

(** [checkpoints.find(nHeight)] *)
Definition checkpoint_find (nHeight : Z) (cps : list (Z * list Z)) : option (list Z) :=
  snd <$> head (filter (fun c => c.1 = nHeight) cps).

Definition CheckHardened (fTestNet : bool) (nHeight : Z) (hash : list Z) : bool :=
  match checkpoint_find nHeight (checkpoints_of fTestNet) with
  | None => true
  | Some h => op_eq hash h
  end.

(** The result and [nChecked] *)
Fixpoint verify_loop (m : BlockMap) (nBestHeight : Z) (cps : list (Z * list Z)) (nChecked : Z) : bool * Z :=
  match cps with
  | [] => (true, nChecked)
  | (height, hash) :: cps =>
      if (height =? 0) || (nBestHeight <? height) then verify_loop m nBestHeight cps nChecked
      else
        match m !! hash with
        | Some nd =>
            if negb (bi_nHeight (node nd) =? height) then (false, nChecked)
            else verify_loop m nBestHeight cps (nChecked + 1)
        | None => (false, nChecked)
        end
  end.
Definition VerifyHardenedInChain (fTestNet : bool) (m : BlockMap) (nBestHeight : Z) : bool * Z :=
  verify_loop m nBestHeight (checkpoints_of fTestNet) 0.

Definition GetTotalBlocksEstimate (fTestNet : bool) : Z := default 0 (fst <$> last (checkpoints_of fTestNet)).

Definition GetLastCheckpoint (fTestNet : bool) (m : BlockMap) : option (list Z) :=
  snd <$> head (filter (fun c => is_Some (m !! c.2)) (rev (checkpoints_of fTestNet))).

(** ** The synchronized checkpoint *)

Record CSyncCheckpoint := mkCheckpoint { cp_nVersion : Z; hashCheckpoint : list Z; vchMsg : list Z; vchSig : list Z }.
Definition CSyncCheckpoint_null : CSyncCheckpoint := mkCheckpoint 1 (assign64 WIDTH256 0) [] [].
Definition CSyncCheckpoint_IsNull (c : CSyncCheckpoint) : bool := op_eq64 (hashCheckpoint c) 0.

Record SyncState := mkSync {
  hashSyncCheckpoint : list Z;
  hashPendingCheckpoint : list Z;
  checkpointMessage : CSyncCheckpoint;
  checkpointMessagePending : CSyncCheckpoint;
  hashInvalidCheckpoint : list Z;
  sync_height : Z
}.

Definition with_invalid (s : SyncState) (h : list Z) : SyncState :=
  mkSync (hashSyncCheckpoint s) (hashPendingCheckpoint s) (checkpointMessage s) (checkpointMessagePending s) h (sync_height s).
Definition with_pending (s : SyncState) (h : list Z) (msg : CSyncCheckpoint) : SyncState :=
  mkSync (hashSyncCheckpoint s) h (checkpointMessage s) msg (hashInvalidCheckpoint s) (sync_height s).

Definition GetLastSyncCheckpoint (s : SyncState) (m : BlockMap) : option (list Z) :=
  match m !! hashSyncCheckpoint s with Some _ => Some (hashSyncCheckpoint s) | None => None end.

(** [while (pindex->nHeight > nHeight) pindex = pindex->pprev]; empty when it meets [NULL] *)
Fixpoint trace_back (nHeight : Z) (chain : list CBlockIndex) : list CBlockIndex :=
  match chain with
  | [] => []
  | pindex :: chain' => if nHeight <? bi_nHeight pindex then trace_back nHeight chain' else chain
  end.

(** [None] is the error of a broken block index *)
Definition ancestor_at (m : BlockMap) (h : list Z) (nHeight : Z) : option CBlockIndex :=
  head (trace_back nHeight (way m (Some h))).

Definition ValidateSyncCheckpoint (s : SyncState) (m : BlockMap) (hashCp : list Z) : bool * SyncState :=
  match m !! hashSyncCheckpoint s, m !! hashCp with
  | Some pindexSyncCheckpoint, Some pindexCheckpointRecv =>
      if bi_nHeight (node pindexCheckpointRecv) <=? bi_nHeight (node pindexSyncCheckpoint) then
        match ancestor_at m (hashSyncCheckpoint s) (bi_nHeight (node pindexCheckpointRecv)) with
        | None => (false, s)
        | Some pindex => if op_ne (bi_hash pindex) hashCp then (false, with_invalid s hashCp) else (false, s)
        end
      else
        match ancestor_at m hashCp (bi_nHeight (node pindexSyncCheckpoint)) with
        | None => (false, s)
        | Some pindex => if op_ne (bi_hash pindex) (hashSyncCheckpoint s) then (false, with_invalid s hashCp) else (true, s)
        end
  | _, _ => (false, s)
  end.

(** What is left to check after the shortcut; [walk] is the trace back *)
Definition check_sync_rest (m : BlockMap) (s : SyncState) (hashBlock : list Z) (nHeight nSync : Z) : bool :=
  if (nHeight =? nSync) && op_ne hashBlock (hashSyncCheckpoint s) then false
  else if (nHeight <? nSync) && bool_decide (m !! hashBlock = None) then false
  else true.

Definition trace_to_sync (m : BlockMap) (s : SyncState) (prev : list Z) (nSync : Z) : bool :=
  match ancestor_at m prev nSync with
  | None => false
  | Some pindex => negb ((bi_nHeight pindex <? nSync) || op_ne (bi_hash pindex) (hashSyncCheckpoint s))
  end.

Definition CheckSync (s : SyncState) (m : BlockMap) (pindexBest : option (list Z)) (hashBlock prev : list Z) : option bool :=
  pindexPrev ← m !! prev;
  pindexSync ← m !! hashSyncCheckpoint s;
  let nHeight := bi_nHeight (node pindexPrev) + 1 in
  let nSync := bi_nHeight (node pindexSync) in
  if (nSync <? nHeight)
     && negb (IsInMainChain m pindexBest (hashSyncCheckpoint s) && IsInMainChain m pindexBest prev)
     && negb (trace_to_sync m s prev nSync)
  then Some false
  else Some (check_sync_rest m s hashBlock nHeight nSync).

Definition WantedByPendingSyncCheckpoint (s : SyncState) (orphan_wants : list Z -> option (list Z)) (hashBlock : list Z) : bool :=
  if op_eq64 (hashPendingCheckpoint s) 0 then false
  else if op_eq hashBlock (hashPendingCheckpoint s) then true
  else match orphan_wants (hashPendingCheckpoint s) with Some w => op_eq hashBlock w | None => false end.

Definition IsMatureSyncCheckpoint (s : SyncState) (m : BlockMap) (fTestNet : bool) (nBestHeight nCoinbaseMaturity nAdjustedTime : Z) : option bool :=
  pindexSync ← m !! hashSyncCheckpoint s;
  Some ((bi_nHeight (node pindexSync) + nCoinbaseMaturity <=? nBestHeight)
        || (bi_GetBlockTime (node pindexSync) + GetStakeMinAge fTestNet nBestHeight <? nAdjustedTime)).

(** [AutoSelectSyncCheckpoint] goes forward along [pnext], at most to the end of the chain *)
Definition CHECKPOINT_MAX_SPAN : Z := 60 * 60 * 4.
Fixpoint select_loop (fuel : nat) (m : BlockMap) (nCoinbaseMaturity : Z) (best : CBlockIndex) (h : list Z) : list Z :=
  match fuel with
  | O => h
  | S fuel =>
      match m !! h with
      | Some nd =>
          match pnext nd with
          | Some next =>
              if (bi_GetBlockTime (node nd) + CHECKPOINT_MAX_SPAN <=? bi_GetBlockTime best)
                 || (bi_nHeight (node nd) + Z.min 6 (nCoinbaseMaturity - 20) <=? bi_nHeight best)
              then select_loop fuel m nCoinbaseMaturity best next else h
          | None => h
          end
      | None => h
      end
  end.
Definition AutoSelectSyncCheckpoint (m : BlockMap) (pindexBest : option (list Z)) (nCoinbaseMaturity : Z) : option (list Z) :=
  b ← pindexBest; best ← m !! b;
  match GetLastBlockIndex (way m pindexBest) false with
  | pindex :: _ => Some (select_loop (base.size m) m nCoinbaseMaturity (node best) (bi_hash pindex))
  | [] => None
  end.

(** ** The signed message *)

Definition strMasterPubKey : list Z := rev (le_bytes 65 0x04bdd7aa319f16d2682afab4d0d807141be59caac0291802ba7467f0288eaf54db9d144f8c78231d61746bb7b5f1ef70f92c62d4b18c5488ab39118e38460304dd).
Definition strMasterPubKeyTestNet : list Z := rev (le_bytes 65 0x04d22e393d8500b017d0d3df9ef961321df12748bbd39a9f18b4cc47002717ad4d2f0ba87d1d81b83fff61472fad51ce11677b55b4f0861b4272ca3c6b001f8b1e).

Definition unsigned_checkpoint_codec : Codec (Z * list Z) := pair_codec (sint_codec 4) (base_uint_codec WIDTH256).

Section message.
Context {H : HashOps} {E : ECOps}.

(** [None]: the message does not parse, which throws *)
Definition CheckSignature (fTestNet : bool) (c : CSyncCheckpoint) : option (bool * CSyncCheckpoint) :=
  let '(ok, key) := SetPubKey CKey_Reset (if fTestNet then strMasterPubKeyTestNet else strMasterPubKey) in
  if negb ok then Some (false, c)
  else if negb (CKey_Verify key (Hash (vchMsg c)) (vchSig c)) then Some (false, c)
  else
    '((v, h), _) ← Unserialize unsigned_checkpoint_codec (vchMsg c);
    Some (true, mkCheckpoint v h (vchMsg c) (vchSig c)).
End message.

(** ** Lemmas: walking back to a height *)

Section facts.
Context {m : BlockMap} (Hm : tree_ok m).

Lemma ancestor_at_unfold h nd t :
  m !! h = Some nd ->
  ancestor_at m h t = if t <? bi_nHeight (node nd) then pprev nd ≫= fun p => ancestor_at m p t else Some (node nd).
Proof.
  intros E. unfold ancestor_at. rewrite (way_unfold Hm _ _ E). cbn [trace_back]. destruct (t <? bi_nHeight (node nd)); [|done].
  destruct (pprev nd) as [p|]; [done|]. unfold way. by destruct (base.size m).
Qed.

(** A block that is high enough has exactly one ancestor of every lower height *)
Lemma ancestor_at_spec h nd t :
  m !! h = Some nd -> 0 <= t <= bi_nHeight (node nd) ->
  exists i, ancestor_at m h t = Some i /\ bi_nHeight i = t /\ bi_hash i ∈ path m (Some h) /\ exists d, m !! bi_hash i = Some d /\ node d = i.
Proof.
  remember (Z.to_nat (bi_nHeight (node nd))) as n eqn:En. revert h nd En. induction n as [n IH] using lt_wf_ind. intros h nd -> E Ht.
  rewrite (ancestor_at_unfold _ _ _ E), (path_unfold Hm _ _ E). destruct (Z.ltb_spec t (bi_nHeight (node nd))).
  - destruct (pprev nd) as [p|] eqn:Ep; [|pose proof (root_height m Hm _ _ E Ep); lia].
    destruct (parent_height m Hm _ _ _ E Ep) as (pd & Epd & Hh). cbn [mbind option_bind].
    destruct (IH (Z.to_nat (bi_nHeight (node pd)))) with (h := p) (nd := pd) as (i & Ei & Hi & Hin & Hd); [lia|done|done|lia|].
    exists i. split_and!; [done..| |done]. by right.
  - exists (node nd). rewrite (node_hash m Hm _ _ E). split_and!; [done|lia|left|eauto].
Qed.

Lemma op_ne_spec h1 h2 : uint_ok WIDTH256 h1 -> uint_ok WIDTH256 h2 -> op_ne h1 h2 = bool_decide (h1 <> h2).
Proof.
  intros [H1 _] [H2 _]. unfold op_ne. rewrite op_eq_spec by congruence. by rewrite <- bool_decide_not.
Qed.

(** Going back to the height of [a] meets [a] exactly when [a] is an ancestor *)
Lemma ancestor_at_is h nd a ad :
  m !! h = Some nd -> m !! a = Some ad -> bi_nHeight (node ad) <= bi_nHeight (node nd) ->
  exists i, ancestor_at m h (bi_nHeight (node ad)) = Some i /\ bi_nHeight i = bi_nHeight (node ad) /\
    op_ne (bi_hash i) a = negb (bool_decide (a ∈ path m (Some h))).
Proof.
  intros E Ea Hh. pose proof (node_height m Hm _ _ Ea).
  destruct (ancestor_at_spec h nd (bi_nHeight (node ad)) E ltac:(lia)) as (i & Ei & Hi & Hin & d & Ed & <-). exists (node d). split; [done|]. split; [done|].
  rewrite op_ne_spec by (eapply (node_uint m Hm); eauto). rewrite <- bool_decide_not. apply bool_decide_ext. split; intros Hn.
  - intros Ha. apply Hn. eapply (path_height_unique Hm (Some h)); eauto. intros b [= <-]. eauto.
  - intros <-. done.
Qed.

Lemma trace_to_sync_spec s prev pd sd :
  m !! prev = Some pd -> m !! hashSyncCheckpoint s = Some sd -> bi_nHeight (node sd) <= bi_nHeight (node pd) ->
  trace_to_sync m s prev (bi_nHeight (node sd)) = bool_decide (hashSyncCheckpoint s ∈ path m (Some prev)).
Proof.
  intros Ep Es Hh. unfold trace_to_sync. destruct (ancestor_at_is _ _ _ _ Ep Es Hh) as (i & -> & -> & ->).
  rewrite Z.ltb_irrefl. cbn [orb]. by rewrite negb_involutive.
Qed.

(** The received checkpoint is accepted exactly when it strictly descends from the current
    one, and marked invalid exactly when neither descends from the other *)
Lemma ValidateSyncCheckpoint_spec s c cd sd :
  m !! hashSyncCheckpoint s = Some sd -> m !! c = Some cd ->
  ((ValidateSyncCheckpoint s m c).1 = true <-> hashSyncCheckpoint s ∈ path m (Some c) /\ c <> hashSyncCheckpoint s) /\
  (ValidateSyncCheckpoint s m c).2 =
    if bool_decide (c ∈ path m (Some (hashSyncCheckpoint s)) \/ hashSyncCheckpoint s ∈ path m (Some c)) then s else with_invalid s c.
Proof.
  intros Es Ec. unfold ValidateSyncCheckpoint. rewrite Es, Ec.
  assert (Hlow : forall x y xd yd, m !! x = Some xd -> m !! y = Some yd -> x ∈ path m (Some y) -> x = y \/ bi_nHeight (node xd) < bi_nHeight (node yd)).
  { intros x y xd yd Ex Ey Hx. destruct (path_elem Hm (Some y) x ltac:(intros b [= <-]; eauto) Hx) as (_ & l & _ & El).
    pose proof (path_length Hm _ _ Ex). pose proof (path_length Hm _ _ Ey). rewrite El, length_app in *. destruct l as [|z l]; [left|cbn [length] in *; lia].
    cbn [app] in El. rewrite (path_unfold Hm _ _ Ex), (path_unfold Hm _ _ Ey) in El. by injection El. }
  destruct (Z.leb_spec (bi_nHeight (node cd)) (bi_nHeight (node sd))) as [Hh|Hh].
  - destruct (ancestor_at_is _ _ _ _ Es Ec Hh) as (i & -> & _ & ->). destruct (decide (c ∈ path m (Some (hashSyncCheckpoint s)))) as [Hin|Hin].
    + rewrite (bool_decide_eq_true_2 _ Hin). cbn [negb fst snd]. rewrite bool_decide_eq_true_2 by (by left). split; [|done].
      split; [done|]. intros [Hs Hn]. destruct (Hlow _ _ _ _ Es Ec Hs); [congruence|lia].
    + rewrite (bool_decide_eq_false_2 _ Hin). cbn [negb fst snd]. assert (hashSyncCheckpoint s ∉ path m (Some c)) as Hs.
      { intros Hs. destruct (Hlow _ _ _ _ Es Ec Hs) as [Heq|]; [|lia]. apply Hin. by rewrite <- Heq at 1; rewrite <- Heq in Hs. }
      rewrite bool_decide_eq_false_2 by (by intros [|]). split; [|done]. split; [done|]. by intros [? _].
  - destruct (ancestor_at_is _ _ _ _ Ec Es ltac:(lia)) as (i & -> & _ & ->). assert (c <> hashSyncCheckpoint s) as Hn.
    { intros ->. simplify_eq. lia. }
    destruct (decide (hashSyncCheckpoint s ∈ path m (Some c))) as [Hin|Hin].
    + rewrite (bool_decide_eq_true_2 _ Hin). cbn [negb fst snd]. rewrite bool_decide_eq_true_2 by (by right). done.
    + rewrite (bool_decide_eq_false_2 _ Hin). cbn [negb fst snd]. rewrite bool_decide_eq_false_2.
      * split; [|done]. split; [done|]. by intros [? _].
      * intros [Hc|Hs]; [|done]. destruct (Hlow _ _ _ _ Ec Es Hc); [done|lia].
Qed.
End facts.

(** ** [CheckSync] without its shortcut, and what it decides *)

Definition CheckSync_walk (s : SyncState) (m : BlockMap) (hashBlock prev : list Z) : option bool :=
  pindexPrev ← m !! prev;
  pindexSync ← m !! hashSyncCheckpoint s;
  let nHeight := bi_nHeight (node pindexPrev) + 1 in
  let nSync := bi_nHeight (node pindexSync) in
  if (nSync <? nHeight) && negb (trace_to_sync m s prev nSync) then Some false
  else Some (check_sync_rest m s hashBlock nHeight nSync).

Definition sync_rule (s : SyncState) (m : BlockMap) (hashBlock prev : list Z) (nHeight nSync : Z) : Prop :=
  (nSync < nHeight -> hashSyncCheckpoint s ∈ path m (Some prev)) /\
  (nHeight = nSync -> hashBlock = hashSyncCheckpoint s) /\
  (nHeight < nSync -> is_Some (m !! hashBlock)).

(** the shortcut of [CheckSync] is sound.  When the block index is well formed and [pnext] marks
    exactly the best chain, [CheckSync] gives the same answer as the walk back to the height of the
    synchronized checkpoint for every block, and it answers [true] exactly for a block that descends from
    the checkpoint, is the checkpoint, or is a known block below it. *)
Theorem check_sync_shortcut s m pindexBest hashBlock prev pd sd :
  tree_ok m -> (forall b, pindexBest = Some b -> is_Some (m !! b)) -> marks_ok m pindexBest -> uint_ok WIDTH256 hashBlock ->
  m !! prev = Some pd -> m !! hashSyncCheckpoint s = Some sd ->
  CheckSync s m pindexBest hashBlock prev = CheckSync_walk s m hashBlock prev /\
  (CheckSync s m pindexBest hashBlock prev = Some true <->
     sync_rule s m hashBlock prev (bi_nHeight (node pd) + 1) (bi_nHeight (node sd))).
Proof.
  intros Hm Hb Hk Hu Ep Es.
  assert (Hsc : CheckSync s m pindexBest hashBlock prev = CheckSync_walk s m hashBlock prev).
  { unfold CheckSync, CheckSync_walk. rewrite Ep, Es. cbn [mbind option_bind].
    destruct (Z.ltb_spec (bi_nHeight (node sd)) (bi_nHeight (node pd) + 1)) as [Hh|]; [|done]. cbn [andb].
    rewrite (trace_to_sync_spec Hm _ _ _ _ Ep Es) by lia.
    destruct (IsInMainChain m pindexBest (hashSyncCheckpoint s) && IsInMainChain m pindexBest prev) eqn:Hf; [|done].
    apply andb_prop in Hf as [H1%main_chain H2%main_chain]; [|done..]. cbn [negb andb].
    rewrite bool_decide_eq_true_2; [done|]. eapply (path_linear Hm pindexBest); eauto. lia. }
  split; [done|]. rewrite Hsc. unfold CheckSync_walk, check_sync_rest, sync_rule. rewrite Ep, Es. cbn [mbind option_bind].
  rewrite op_ne_spec by (done || by eapply (node_uint m Hm)).
  destruct (Z.ltb_spec (bi_nHeight (node sd)) (bi_nHeight (node pd) + 1)) as [Hh|Hh].
  - rewrite (trace_to_sync_spec Hm _ _ _ _ Ep Es) by lia. rewrite (proj2 (Z.eqb_neq _ _)), (proj2 (Z.ltb_ge _ _)) by lia. cbn [andb negb].
    case_bool_decide as Hd; cbn [negb]; split; [|done|done|].
    + intros _. split_and!; [done|lia..].
    + intros (Hq & _). destruct Hd. apply Hq. lia.
  - cbn [andb]. destruct (Z.eqb_spec (bi_nHeight (node pd) + 1) (bi_nHeight (node sd))) as [He|He]; cbn [andb].
    + rewrite (proj2 (Z.ltb_ge _ _)) by lia. cbn [andb]. case_bool_decide as Hn; split; [done| | |done].
      * intros (_ & Hq & _). by destruct Hn, Hq.
      * intros _. split_and!; [lia|done|lia].
    + rewrite (proj2 (Z.ltb_lt _ _)) by lia. cbn [andb]. case_bool_decide as Hn; split; [done| | |done].
      * intros (_ & _ & Hq). destruct Hq as [x Hx]; [lia|]. congruence.
      * intros _. split_and!; [lia|done|]. intros _. destruct (m !! hashBlock); [eauto|done].
Qed.

(** ** Witness *)

Definition toy_sync : SyncState := mkSync (toy_hash_of 2) (assign64 WIDTH256 0) CSyncCheckpoint_null CSyncCheckpoint_null (assign64 WIDTH256 0) 1.

Lemma check_sync_shortcut_witness :
  CheckSync toy_sync toy_tree (Some (toy_hash_of 3)) (toy_hash_of 5) (toy_hash_of 4) = Some true.
Proof.
  assert (exists pd sd, toy_tree !! toy_hash_of 4 = Some pd /\ toy_tree !! hashSyncCheckpoint toy_sync = Some sd /\
    bi_nHeight (node pd) = 2 /\ bi_nHeight (node sd) = 1) as (pd & sd & Ep & Es & Hp & Hs) by (eexists _, _; vm_compute; done).
  destruct (check_sync_shortcut toy_sync toy_tree (Some (toy_hash_of 3)) (toy_hash_of 5) (toy_hash_of 4) pd sd) as [_ Hr];
    [apply toy_tree_ok|by intros b [= <-]|apply toy_marks_ok|apply uint_ok_assign64; lia|done|done|].
  apply Hr. rewrite Hp, Hs. unfold sync_rule. split_and!; [|lia..]. intros _. apply (bool_decide_unpack _). vm_compute. exact I.
Defined.

(** Only the right block fits the height of a checkpoint *)
Example hardened_50000 :
  CheckHardened false 50000 (uint256_of 0x00000002751f54b06ffac8da64d221babf48e9d82365c08c20e82585d674e6b6) = true /\
  CheckHardened false 50000 (assign64 WIDTH256 7) = false /\ CheckHardened false 50001 (assign64 WIDTH256 7) = true /\
  GetTotalBlocksEstimate false = 7990000.
Proof. vm_compute. done. Qed.
