(* ===== verification/Kernel.v ===== *)
(** * The proof-of-stake kernel: [kernel.h], [kernel.cpp]

    Stake modifiers, one bit from each of up to 64 blocks of the past, and the hash
    target that a coinstake's first input has to meet.  The block files are the reader
    of [BlockFiles]; the sum of the selection intervals, which the source computes
    once, is computed each time. *)

From stdpp Require Import sorting.
From S2P Require Import Prelude Uint256 BigNum Serialize Hash Transaction Script Canonical.
From S2P Require Import Interp Key SigCheck Templates KeyStore Scrypt Block TxRules TxDB Chain Rewards BlockTree Connect.

(** A block of the block files, by file and position *)
Class BlockFiles := { read_block : Z -> Z -> option CBlock }.

(** ** Stake modifiers *)

Definition MODIFIER_INTERVAL_RATIO : Z := 3.
Definition GetModiferInterval (fTestNet : bool) : Z := if fTestNet then 20 * 60 else 6 * 60 * 60.

Definition mapStakeModifierCheckpoints : list (Z * Z) := [
  (0, 0x0e00670b); (261031, 0x08c12bdb8); (435735, 0x0b956cfa0); (750000, 0x0b86ffee4);
  (1000000, 0x0a68f1279); (2000000, 0x0029173a3); (3000000, 0x0ecd4d6c7); (4000000, 0x0a655151a);
  (5000000, 0x0e02d611e); (5499330, 0x03026e5af); (5499331, 0x00e5f8ce1); (5499332, 0x091436a27);
  (5500000, 0x0a053fcf3); (5520100, 0x05c7752ee)
].

(** Back to the last block that generated a modifier; [None] is [false] *)
Fixpoint last_generated (chain : list CBlockIndex) : option CBlockIndex :=
  match chain with
  | [] => None
  | pindex :: chain' =>
      if bi_GeneratedStakeModifier pindex then Some pindex
      else match chain' with [] => None | _ :: _ => last_generated chain' end
  end.
Definition GetLastStakeModifier (chain : list CBlockIndex) : option (Z * Z) :=
  pindex ← last_generated chain;
  Some (bi_nStakeModifier pindex, bi_GetBlockTime pindex).

Definition GetStakeModifierSelectionIntervalSection (fTestNet : bool) (nSection : Z) : Z :=
  Z.quot (GetModiferInterval fTestNet * 63) (63 + (63 - nSection) * (MODIFIER_INTERVAL_RATIO - 1)).
Definition GetStakeModifierSelectionInterval (fTestNet : bool) : Z :=
  foldl (fun nSelectionInterval nSection => nSelectionInterval + GetStakeModifierSelectionIntervalSection fTestNet nSection) 0 (seqZ 0 64).

(** The order of [pair<int64_t, uint256>] *)
Definition candidate_le (a b : Z * list Z) : Prop := (a.1 <? b.1) || ((a.1 =? b.1) && op_le a.2 b.2) = true.
#[export] Instance candidate_le_dec a b : Decision (candidate_le a b).
Proof. unfold candidate_le. apply _. Defined.

Section kernel.
Context {B : BNOps} {H : HashOps}.

Definition selection_hash (pindex : CBlockIndex) (nStakeModifierPrev : Z) : list Z :=
  let hashProof := if bi_IsProofOfStake pindex then bi_hashProofOfStake pindex else bi_hash pindex in
  let hashSelection := Hash (limb_bytes hashProof ++ le_bytes 8 nStakeModifierPrev) in
  if bi_IsProofOfStake pindex then shr_assign WIDTH256 hashSelection 32 else hashSelection.

(** [None]: the index of a candidate is missing; [best] is the selected block with its
    hash, if there is one *)
Fixpoint select_candidates (m : BlockMap) (vSortedByTimestamp : list (Z * list Z)) (selected : gset (list Z))
    (nSelectionIntervalStop nStakeModifierPrev : Z) (best : option (list Z * CBlockIndex)) : option (option (list Z * CBlockIndex)) :=
  match vSortedByTimestamp with
  | [] => Some best
  | item :: rest =>
      nd ← m !! item.2;
      let pindex := node nd in
      if bool_decide (is_Some best) && (nSelectionIntervalStop <? bi_GetBlockTime pindex) then Some best
      else if bool_decide (bi_hash pindex ∈ selected) then
        select_candidates m rest selected nSelectionIntervalStop nStakeModifierPrev best
      else
        let hashSelection := selection_hash pindex nStakeModifierPrev in
        let best :=
          match best with
          | Some (hashBest, old) => if op_lt hashSelection hashBest then Some (hashSelection, pindex) else Some (hashBest, old)
          | None => Some (hashSelection, pindex)
          end in
        select_candidates m rest selected nSelectionIntervalStop nStakeModifierPrev best
  end.

(** [None] is [false] *)
Definition SelectBlockFromCandidates (m : BlockMap) (vSortedByTimestamp : list (Z * list Z)) (selected : gset (list Z))
    (nSelectionIntervalStop nStakeModifierPrev : Z) : option CBlockIndex :=
  best ← select_candidates m vSortedByTimestamp selected nSelectionIntervalStop nStakeModifierPrev None;
  snd <$> best.

(** The rounds [nRound, ..., nRounds - 1] of the selection *)
Fixpoint modifier_rounds (fTestNet : bool) (m : BlockMap) (vSortedByTimestamp : list (Z * list Z)) (nStakeModifierPrev : Z)
    (rounds : list Z) (nSelectionIntervalStop : Z) (selected : gset (list Z)) (nStakeModifierNew : Z) : option Z :=
  match rounds with
  | [] => Some nStakeModifierNew
  | nRound :: rounds =>
      let stop := nSelectionIntervalStop + GetStakeModifierSelectionIntervalSection fTestNet nRound in
      pindex ← SelectBlockFromCandidates m vSortedByTimestamp selected stop nStakeModifierPrev;
      modifier_rounds fTestNet m vSortedByTimestamp nStakeModifierPrev rounds stop ({[bi_hash pindex]} ∪ selected)
        (nStakeModifierNew .| (bi_GetStakeEntropyBit pindex .<< nRound))
  end.

(** The blocks from [pindexPrev] back to the start of the selection interval *)
Fixpoint candidates (nSelectionIntervalStart : Z) (chain : list CBlockIndex) : list (Z * list Z) :=
  match chain with
  | pindex :: chain =>
      if nSelectionIntervalStart <=? bi_GetBlockTime pindex then
        (bi_GetBlockTime pindex, bi_hash pindex) :: candidates nSelectionIntervalStart chain
      else []
  | [] => []
  end.

(** The modifier and whether it was generated; [None] is [false] *)
Definition ComputeNextStakeModifier (fTestNet : bool) (m : BlockMap) (pindexPrev : option (list Z)) : option (Z * bool) :=
  match way m pindexPrev with
  | [] => Some (0, true)
  | (prev :: _) as chain =>
      '(nStakeModifier, nModifierTime) ← GetLastStakeModifier chain;
      let nStakeModifierInterval := GetModiferInterval fTestNet in
      if Z.quot (bi_GetBlockTime prev) nStakeModifierInterval <=? Z.quot nModifierTime nStakeModifierInterval then
        Some (nStakeModifier, false)
      else
        let nSelectionIntervalStart :=
          Z.quot (bi_GetBlockTime prev) nStakeModifierInterval * nStakeModifierInterval - GetStakeModifierSelectionInterval fTestNet in
        let vSortedByTimestamp := merge_sort candidate_le (rev (candidates nSelectionIntervalStart chain)) in
        let rounds := seqZ 0 (Z.min 64 (Z.of_nat (length vSortedByTimestamp))) in
        nStakeModifierNew ← modifier_rounds fTestNet m vSortedByTimestamp nStakeModifier rounds nSelectionIntervalStart ∅ 0;
        Some (nStakeModifierNew, true)
  end.

(** [pprev] is the index of the parent, if any; [None] is the failed [assert] *)
Definition GetStakeModifierChecksum (hashGenesis : list Z) (pindex : CBlockIndex) (pprev : option CBlockIndex) : option Z :=
  if negb (bool_decide (is_Some pprev) || op_eq (bi_hash pindex) hashGenesis) then None
  else
    let ss := (match pprev with Some p => le_bytes 4 (bi_nStakeModifierChecksum p) | None => [] end) ++
      le_bytes 4 (bi_nFlags pindex) ++ limb_bytes (bi_hashProofOfStake pindex) ++ le_bytes 8 (bi_nStakeModifier pindex) in
    let hashChecksum := shr_assign WIDTH256 (Hash ss) (256 - 32) in
    Some (u32 (default 0 (Get64 hashChecksum 0))).

Definition CheckStakeModifierCheckpoints (fTestNet : bool) (nHeight nStakeModifierChecksum : Z) : bool :=
  if fTestNet then true
  else
    match head (filter (fun c => c.1 = nHeight) mapStakeModifierCheckpoints) with
    | Some (_, c) => nStakeModifierChecksum =? c
    | None => true
    end.

(** ** The kernel hash *)

Definition nStakeMaxAge : Z := 60 * 60 * 24 * 30.

Definition GetWeight (fTestNet : bool) (nBestHeight nIntervalBeginning nIntervalEnd : Z) : Z :=
  let nStakeMinAge := GetStakeMinAge fTestNet nBestHeight in
  if VERSION1_5_SWITCH_TIME <? nIntervalEnd then Z.min (nIntervalEnd - nIntervalBeginning - nStakeMinAge) nStakeMaxAge
  else Z.min (nIntervalEnd - nIntervalBeginning) nStakeMaxAge - nStakeMinAge.

(** Forward along [pnext] until a modifier is late enough; [None]: it meets the end *)
Fixpoint kernel_walk (fuel : nat) (m : BlockMap) (nUntil : Z) (h : list Z) (nStakeModifierHeight nStakeModifierTime : Z) : option (Z * Z * Z) :=
  match fuel with
  | O => None
  | S fuel =>
      nd ← m !! h;
      if nStakeModifierTime <? nUntil then
        next ← pnext nd;
        nd' ← m !! next;
        if bi_GeneratedStakeModifier (node nd') then
          kernel_walk fuel m nUntil next (bi_nHeight (node nd')) (bi_GetBlockTime (node nd'))
        else kernel_walk fuel m nUntil next nStakeModifierHeight nStakeModifierTime
      else Some (bi_nStakeModifier (node nd), nStakeModifierHeight, nStakeModifierTime)
  end.

(** The modifier, its height and its time; [None] is [false] *)
Definition GetKernelStakeModifier (fTestNet : bool) (m : BlockMap) (hashBlockFrom : list Z) : option (Z * Z * Z) :=
  pindexFrom ← m !! hashBlockFrom;
  let nFrom := bi_GetBlockTime (node pindexFrom) in
  kernel_walk (S (base.size m)) m (nFrom + GetStakeModifierSelectionInterval fTestNet) hashBlockFrom (bi_nHeight (node pindexFrom)) nFrom.

(** [None] cannot happen: neither divisor is zero *)
Definition coin_day_weight (fTestNet : bool) (nBestHeight nValueIn nTimePrev nTimeTx : Z) : option BIGNUM :=
  q ← bn_quot (bn_mult (CBigNum_of_long nValueIn) (CBigNum_of_long (GetWeight fTestNet nBestHeight nTimePrev nTimeTx))) (CBigNum_of_long COIN);
  bn_quot q (CBigNum_of_int (24 * 60 * 60)).

(** The bytes that are hashed *)
Definition kernel_bytes (nStakeModifier nTimeBlockFrom nTxPrevOffset nTimePrev n nTimeTx : Z) : list Z :=
  le_bytes 8 nStakeModifier ++ le_bytes 4 nTimeBlockFrom ++ le_bytes 4 nTxPrevOffset ++ le_bytes 4 nTimePrev ++ le_bytes 4 n ++ le_bytes 4 nTimeTx.

(** The proof hash and the target; [None] is [false], which leaves them unset or unused *)
Definition CheckStakeKernelHash (fTestNet : bool) (nBestHeight : Z) (m : BlockMap) (nBits : Z) (blockFrom : CBlock)
    (nTxPrevOffset : Z) (txPrev : CTransaction) (prevout_n nTimeTx : Z) : option (list Z * list Z) :=
  if nTimeTx <? nTime txPrev then None
  else
    let nTimeBlockFrom := u32 (GetBlockTime blockFrom) in
    if nTimeTx <? u32 (nTimeBlockFrom + GetStakeMinAge fTestNet nBestHeight) then None
    else
      let bnTargetPerCoinDay := SetCompact nBits in
      o ← vout txPrev !! Z.to_nat prevout_n;
      bnCoinDayWeight ← coin_day_weight fTestNet nBestHeight (nValue o) (nTime txPrev) nTimeTx;
      let targetProofOfStake := getuint256 (bn_mult bnCoinDayWeight bnTargetPerCoinDay) in
      '(nStakeModifier, _, _) ← GetKernelStakeModifier fTestNet m (CBlock_GetHash blockFrom).1;
      let hashProofOfStake := Hash (kernel_bytes nStakeModifier nTimeBlockFrom nTxPrevOffset (nTime txPrev) prevout_n nTimeTx) in
      if bn_gt (CBigNum_of_uint256 hashProofOfStake) (bn_mult bnCoinDayWeight bnTargetPerCoinDay) then None
      else Some (hashProofOfStake, targetProofOfStake).

(** ** The search for a kernel *)

Record KernelSearchSettings := mkSettings { ks_nBits : Z; ks_nTime : Z; ks_nSearchInterval : Z }.

(** A coin with its transaction, its block and the modifier for it *)
Record MetaItem := mkMeta { mi_txindex : CTxIndex; mi_tx : CTransaction; mi_n : Z; mi_block : CBlock; mi_modifier : Z }.

Definition nMaxStakeSearchInterval : Z := 60.

(** [keep_on] is whether the coins are still actual and the program is not shutting down *)
Fixpoint search_times (fTestNet : bool) (nBestHeight : Z) (settings : KernelSearchSettings) (item : MetaItem) (o : CTxOut)
    (keep_on : Z -> bool) (times : list Z) : option Z :=
  match times with
  | [] => None
  | n :: times =>
      if negb (keep_on n) then None
      else
        let nTimeTx := u32 (ks_nTime settings - n) in
        let nTxOffset := u32 (nTxPos (pos (mi_txindex item)) - nBlockPos (pos (mi_txindex item))) in
        match coin_day_weight fTestNet nBestHeight (nValue o) (nTime (mi_tx item)) nTimeTx with
        | None => None
        | Some bnCoinDayWeight =>
            let bnTargetProofOfStake := bn_mult bnCoinDayWeight (SetCompact (ks_nBits settings)) in
            let hashProofOfStake := Hash (kernel_bytes (mi_modifier item) (blk_nTime (mi_block item)) nTxOffset (nTime (mi_tx item)) (mi_n item) nTimeTx) in
            if bn_ge bnTargetProofOfStake (CBigNum_of_uint256 hashProofOfStake) then Some nTimeTx
            else search_times fTestNet nBestHeight settings item o keep_on times
        end
  end.

(** The coin found, the time of its coinstake and the time of its block *)
Fixpoint ScanForStakeKernelHash (fTestNet : bool) (nBestHeight : Z) (settings : KernelSearchSettings) (keep_on : nat -> Z -> bool)
    (mapMeta : list MetaItem) : option (MetaItem * Z * Z) :=
  match mapMeta with
  | [] => None
  | item :: mapMeta' =>
      if negb (keep_on (length mapMeta') (-1)) then None
      else if u32 (ks_nTime settings - nMaxStakeSearchInterval) <? u32 (GetStakeMinAge fTestNet nBestHeight + blk_nTime (mi_block item)) then
        ScanForStakeKernelHash fTestNet nBestHeight settings keep_on mapMeta'
      else
        o ← vout (mi_tx item) !! Z.to_nat (mi_n item);
        let nCurrentSearchInterval := Z.min (ks_nSearchInterval settings) nMaxStakeSearchInterval in
        match search_times fTestNet nBestHeight settings item o (keep_on (length mapMeta')) (seqZ 0 nCurrentSearchInterval) with
        | Some nTimeTx => Some (item, nTimeTx, blk_nTime (mi_block item))
        | None => ScanForStakeKernelHash fTestNet nBestHeight settings keep_on mapMeta'
        end
  end.
End kernel.

(** ** [CheckProofOfStake] *)

Section proof_of_stake.
Context {B : BNOps} {H : HashOps} {E : ECOps} {P : SecpOps} {F : Files} {G : BlockFiles} {T : TxStore}.

(** [VerifySignature(txFrom, txTo, nIn, flags, nHashType)] *)
Definition VerifySignature (par : Params) (txFrom txTo : CTransaction) (nIn : nat) (flags nHashType : Z) (c : CSignatureCache) : bool * CSignatureCache :=
  match vin txTo !! nIn with
  | Some txin =>
      match vout txFrom !! Z.to_nat (op_n (prevout txin)) with
      | Some o => run_check par (mkCheck (scriptPubKey o) txTo nIn flags nHashType) c
      | None => (false, c)
      end
  | None => (false, c)
  end.

(** The header alone *)
Definition read_header (nFile nBlockPos : Z) : option CBlock :=
  b ← read_block nFile nBlockPos;
  Some (mkBlock (blk_nVersion b) (hashPrevBlock b) (hashMerkleRoot b) (blk_nTime b) (nBits b) (nNonce b) [] [] [] (hashCache b) false).

(** The proof hash and the target, or the DoS score *)
Definition CheckProofOfStake (par : Params) (txdb : store) (m : BlockMap) (tx : CTransaction) (nBits : Z) (c : CSignatureCache) :
    (Z + list Z * list Z) * CSignatureCache :=
  if negb (IsCoinStake tx) then (inl 0, c)
  else
    match vin tx with
    | [] => (inl 0, c)
    | txin :: _ =>
        match ReadFromDisk txdb (prevout txin) with
        | None => (inl 1, c)
        | Some (txPrev, txindex) =>
            let '(ok, c) := VerifySignature par txPrev tx 0 MANDATORY_SCRIPT_VERIFY_FLAGS 0 c in
            if negb ok then (inl 100, c)
            else
              match read_header (nFile (pos txindex)) (nBlockPos (pos txindex)) with
              | None => (inl 0, c)
              | Some block =>
                  match CheckStakeKernelHash (fTestNet par) (nBestHeight par) m nBits block
                          (u32 (nTxPos (pos txindex) - nBlockPos (pos txindex))) txPrev (op_n (prevout txin)) (nTime tx) with
                  | None => (inl 1, c)
                  | Some r => (inr r, c)
                  end
              end
        end
    end.
End proof_of_stake.

(** ** Lemmas: the order of the candidates *)

Lemma cmp_scan_total l1 l2 : cmp_scan true false true l1 l2 = true \/ cmp_scan true false true l2 l1 = true.
Proof.
  revert l2. induction l1 as [|x l1 IH]; intros [|y l2]; [by left..|by right|]. cbn [cmp_scan].
  destruct (Z.ltb_spec x y), (Z.ltb_spec y x); try lia; auto.
Qed.

#[export] Instance candidate_le_total : Total candidate_le.
Proof.
  intros [t1 h1] [t2 h2]. unfold candidate_le, op_le. cbn [fst snd].
  destruct (Z.ltb_spec t1 t2); [by left|]. destruct (Z.ltb_spec t2 t1); [by right|]. assert (t1 = t2) as -> by lia.
  rewrite Z.eqb_refl. cbn [orb andb]. apply cmp_scan_total.
Qed.

Definition earlier (a b : Z * list Z) : Prop := a.1 <= b.1.

Lemma Sorted_mono {A} (R S : A -> A -> Prop) l : (forall x y, R x y -> S x y) -> Sorted R l -> Sorted S l.
Proof. intros HRS. induction 1 as [|x l _ IH Hd]; constructor; [done|]. destruct Hd; constructor; auto. Qed.

Lemma candidates_sorted l : StronglySorted earlier (merge_sort candidate_le l).
Proof.
  assert (Transitive earlier) by (intros [? ?] [? ?] [? ?]; unfold earlier; cbn; lia). apply Sorted_StronglySorted; [done|]. eapply Sorted_mono; [|apply (Sorted_merge_sort candidate_le)].
  intros [t1 h1] [t2 h2]. unfold candidate_le, earlier. cbn [fst snd].
  destruct (Z.ltb_spec t1 t2); [lia|]. destruct (Z.eqb_spec t1 t2); [lia|done].
Qed.

(** ** Lemmas: one selection *)

Section selection.
Context {B : BNOps} {H : HashOps} {HL : HashLaws H} {m : BlockMap} (Hm : tree_ok m).

Lemma selection_hash_ok i p : uint_ok WIDTH256 (selection_hash i p).
Proof.
  unfold selection_hash. destruct (bi_IsProofOfStake i); [|apply Hash_ok]. apply shr_assign_ok, Hash_ok.
Qed.

(** A candidate is a block of the map with its time *)
Definition is_candidate (c : Z * list Z) : Prop := exists nd, m !! c.2 = Some nd /\ c.1 = bi_GetBlockTime (node nd).

(** What a round selects: a candidate not selected before, and none of those in time has a smaller hash *)
Definition picked (cands : list (Z * list Z)) (selected : gset (list Z)) (stop nPrev : Z) (x : CBlockIndex) : Prop :=
  (bi_GetBlockTime x, bi_hash x) ∈ cands /\ (bi_hash x ∉ selected) /\ (exists nd, m !! bi_hash x = Some nd /\ node nd = x) /\
  forall c nd, c ∈ cands -> m !! c.2 = Some nd -> c.2 ∉ selected -> c.1 <= stop ->
    uval (selection_hash x nPrev) <= uval (selection_hash (node nd) nPrev).

Lemma select_candidates_best cands selected stop nPrev x :
  Forall is_candidate cands -> StronglySorted earlier cands ->
  exists y, select_candidates m cands selected stop nPrev (Some (selection_hash x nPrev, x)) = Some (Some (selection_hash y nPrev, y)) /\
    (y = x \/ (bi_GetBlockTime y, bi_hash y) ∈ cands /\ (bi_hash y ∉ selected) /\ (exists nd, m !! bi_hash y = Some nd /\ node nd = y)) /\
    uval (selection_hash y nPrev) <= uval (selection_hash x nPrev) /\
    forall c nd, c ∈ cands -> m !! c.2 = Some nd -> c.2 ∉ selected -> c.1 <= stop ->
      uval (selection_hash y nPrev) <= uval (selection_hash (node nd) nPrev).
Proof.
  revert x. induction cands as [|[t h] cands IH]; intros x Hc Hs.
  { exists x. split_and!; [done|by left|done|]. intros c nd Hin. by apply not_elem_of_nil in Hin. }
  apply Forall_cons in Hc as [(nd & E & Et) Hc]. cbn [fst snd] in E, Et. apply StronglySorted_inv in Hs as [Hs Hlate].
  pose proof (node_hash m Hm _ _ E) as Hh. cbn [select_candidates snd]. rewrite E. cbn [mbind option_bind].
  rewrite bool_decide_eq_true_2 by eauto. cbn [andb]. destruct (Z.ltb_spec stop (bi_GetBlockTime (node nd))) as [Hl|Hl].
  { exists x. split_and!; [done|by left|done|]. intros c cd Hin _ _ Hstop. exfalso. apply elem_of_cons in Hin as [->|Hin]; [cbn in Hstop; lia|].
    rewrite Forall_forall in Hlate. specialize (Hlate c Hin). unfold earlier in Hlate. cbn in Hlate. lia. }
  rewrite Hh. case_bool_decide as Hsel.
  { destruct (IH x Hc Hs) as (y & -> & Hy & Hle & Hmin). exists y. split_and!; [done| |done|].
    - destruct Hy as [->|(? & ? & ?)]; [by left|right]. split; [by right|done].
    - intros c cd Hin Ec Hn. apply elem_of_cons in Hin as [->|Hin]; [done|]. by eapply Hmin. }
  rewrite op_lt_val by apply selection_hash_ok. destruct (Z.ltb_spec (uval (selection_hash (node nd) nPrev)) (uval (selection_hash x nPrev))) as [Hlt|Hge].
  - destruct (IH (node nd) Hc Hs) as (y & -> & Hy & Hle & Hmin). exists y. split_and!; [done| |lia|].
    + right. destruct Hy as [->|(? & ? & ?)]; [|split; [by right|done]]. rewrite Hh, <- Et. split; [left|]. split; [done|]. eauto.
    + intros c cd Hin Ec Hn. apply elem_of_cons in Hin as [->|Hin]; [|by eapply Hmin]. cbn in Ec. simplify_eq. lia.
  - destruct (IH x Hc Hs) as (y & -> & Hy & Hle & Hmin). exists y. split_and!; [done| |done|].
    + destruct Hy as [->|(? & ? & ?)]; [by left|right]. split; [by right|done].
    + intros c cd Hin Ec Hn. apply elem_of_cons in Hin as [->|Hin]; [|by eapply Hmin]. cbn in Ec. simplify_eq. lia.
Qed.

(** While a candidate is left, a round selects one *)
Lemma SelectBlock_spec cands selected stop nPrev :
  Forall is_candidate cands -> StronglySorted earlier cands -> (exists c, c ∈ cands /\ c.2 ∉ selected) ->
  exists x, SelectBlockFromCandidates m cands selected stop nPrev = Some x /\ picked cands selected stop nPrev x.
Proof.
  unfold SelectBlockFromCandidates, picked. induction cands as [|[t h] cands IH]; intros Hc Hs (c & Hin & Hn); [by apply not_elem_of_nil in Hin|].
  apply Forall_cons in Hc as [(nd & E & Et) Hc]. cbn [fst snd] in E, Et. apply StronglySorted_inv in Hs as [Hs _].
  pose proof (node_hash m Hm _ _ E) as Hh. cbn [select_candidates snd]. rewrite E. cbn [mbind option_bind].
  rewrite bool_decide_eq_false_2 by (by intros []). cbn [andb]. rewrite Hh. case_bool_decide as Hsel.
  - destruct IH as (x & -> & Hx & Hnx & Hnode & Hmin); [done..| |].
    { exists c. split; [|done]. apply elem_of_cons in Hin as [->|]; done. }
    exists x. split_and!; [done|by right|done|done|]. intros c' cd Hin' Ec Hn'. apply elem_of_cons in Hin' as [->|Hin']; [done|]. by eapply Hmin.
  - destruct (select_candidates_best cands selected stop nPrev (node nd) Hc Hs) as (y & -> & Hy & Hle & Hmin). exists y. split_and!; [done|..].
    + destruct Hy as [->|(? & _)]; [|by right]. rewrite Hh, <- Et. left.
    + destruct Hy as [->|(_ & ? & _)]; [|done]. by rewrite Hh.
    + destruct Hy as [->|(_ & _ & ?)]; [|done]. rewrite Hh. eauto.
    + intros c' cd Hin' Ec Hn'. apply elem_of_cons in Hin' as [->|Hin']; [|by eapply Hmin]. cbn in Ec. simplify_eq. lia.
Qed.

(** ** Lemmas: the rounds *)

Fixpoint chosen (fTestNet : bool) (cands : list (Z * list Z)) (nPrev : Z) (k stop : Z) (selected : gset (list Z)) (sel : list CBlockIndex) : Prop :=
  match sel with
  | [] => True
  | x :: sel =>
      let stop := stop + GetStakeModifierSelectionIntervalSection fTestNet k in
      picked cands selected stop nPrev x /\ chosen fTestNet cands nPrev (k + 1) stop ({[bi_hash x]} ∪ selected) sel
  end.

Lemma entropy_bit i : is_digit 2 (bi_GetStakeEntropyBit i).
Proof.
  unfold bi_GetStakeEntropyBit, BLOCK_STAKE_ENTROPY. change (1 .<< 1) with (2 ^ 1). rewrite Z.land_comm.
  unfold is_digit. rewrite Z.shiftr_land. change (Z.shiftr (2 ^ 1) 1) with 1. rewrite Z.land_comm. change 1 with (Z.ones 1).
  rewrite Z.land_ones by lia. apply Z.mod_pos_bound. lia.
Qed.

Lemma unselected (cands : list (Z * list Z)) (selected : gset (list Z)) :
  NoDup cands.*2 -> (base.size selected < length cands)%nat -> exists c, c ∈ cands /\ c.2 ∉ selected.
Proof.
  intros Hnd Hlt. destruct (decide (List.Exists (fun c => c.2 ∉ selected) cands)) as [(c & Hc & Hn)%Exists_exists|Hall]; [eauto|exfalso].
  rewrite <- Forall_Exists_neg, Forall_forall in Hall. assert (Hsub : list_to_set cands.*2 ⊆ selected).
  { intros h (c & -> & Hc)%elem_of_list_to_set%list_elem_of_fmap. destruct (decide (c.2 ∈ selected)); [done|]. by destruct (Hall c Hc). }
  apply subseteq_size in Hsub. rewrite (size_list_to_set cands.*2 Hnd), length_fmap in Hsub. lia.
Qed.

Lemma modifier_rounds_spec fTestNet cands nPrev n k stop selected new0 :
  Forall is_candidate cands -> StronglySorted earlier cands -> NoDup cands.*2 ->
  base.size selected = k -> (k + n <= length cands)%nat -> 0 <= new0 < 2 ^ Z.of_nat k ->
  exists sel, modifier_rounds fTestNet m cands nPrev (seqZ (Z.of_nat k) (Z.of_nat n)) stop selected new0 =
      Some (new0 + 2 ^ Z.of_nat k * digits_val 2 (bi_GetStakeEntropyBit <$> sel)) /\
    length sel = n /\ chosen fTestNet cands nPrev (Z.of_nat k) stop selected sel.
Proof.
  intros Hc Hs Hnd. revert k stop selected new0. induction n as [|n IH]; intros k stop selected new0 Hk Hn H0.
  { exists []. cbn. split_and!; [|done|done]. f_equal. rewrite digits_val_nil. lia. }
  rewrite seqZ_cons by lia. cbn [modifier_rounds]. set (stop' := stop + _).
  destruct (SelectBlock_spec cands selected stop' nPrev Hc Hs) as (x & -> & Hx).
  { apply unselected; [done|lia]. }
  cbn [mbind option_bind]. pose proof (entropy_bit x) as Hb. unfold is_digit in Hb.
  assert (new0 .| (bi_GetStakeEntropyBit x .<< Z.of_nat k) = new0 + 2 ^ Z.of_nat k * bi_GetStakeEntropyBit x) as ->.
  { rewrite lor_shiftl_add by lia. lia. }
  replace (Z.succ (Z.of_nat k)) with (Z.of_nat (S k)) by lia. replace (Z.pred (Z.of_nat (S n))) with (Z.of_nat n) by lia.
  destruct (IH (S k) stop' ({[bi_hash x]} ∪ selected) (new0 + 2 ^ Z.of_nat k * bi_GetStakeEntropyBit x)) as (sel & -> & Hl & Hch).
  - rewrite size_union by (apply disjoint_singleton_l, Hx). rewrite size_singleton. lia.
  - lia.
  - rewrite Nat2Z.inj_succ, Z.pow_succ_r by lia. nia.
  - exists (x :: sel). split_and!.
    + f_equal. cbn [fmap list_fmap]. rewrite digits_val_cons, Nat2Z.inj_succ, Z.pow_succ_r by lia. ring.
    + cbn. lia.
    + cbn [chosen]. split; [done|]. by replace (Z.of_nat k + 1) with (Z.of_nat (S k)) by lia.
Qed.

(** The candidates are the latest blocks of the chain *)
Lemma candidates_way start p :
  exists n, candidates start (way m p) = (fun i => (bi_GetBlockTime i, bi_hash i)) <$> take n (way m p) /\
    Forall (fun i => start <= bi_GetBlockTime i) (take n (way m p)) /\ (forall x, way m p !! n = Some x -> bi_GetBlockTime x < start).
Proof.
  generalize (way m p) as l. induction l as [|x l (n & E & Hf & Hn)]; [by exists 0%nat|]. cbn [candidates].
  destruct (Z.leb_spec start (bi_GetBlockTime x)).
  - exists (S n). rewrite E. split_and!; [done| |done]. by constructor.
  - exists 0%nat. split_and!; [done|constructor|]. by intros y [= <-].
Qed.
End selection.

(** ** What is computed *)

Section claims.
Context {B : BNOps} {BL : BNLaws B} {H : HashOps} {HL : HashLaws H}.

Lemma chosen_NoDup (m : BlockMap) fTestNet cands nPrev k stop selected sel :
  chosen (m := m) fTestNet cands nPrev k stop selected sel ->
  NoDup (bi_hash <$> sel) /\ Forall (fun x => bi_hash x ∉ selected) sel /\ Forall (fun x => (bi_GetBlockTime x, bi_hash x) ∈ cands) sel.
Proof.
  revert k stop selected. induction sel as [|x sel IH]; intros k stop selected; [by intros _; split_and!; constructor|].
  cbn [chosen fmap list_fmap]. intros [(Hin & Hn & _) Hch]. destruct (IH _ _ _ Hch) as (Hnd & Hf & Hc). split_and!.
  - constructor; [|done]. intros (y & Ey & Hy)%list_elem_of_fmap. rewrite Forall_forall in Hf. specialize (Hf y Hy). rewrite <- Ey in Hf. set_solver.
  - constructor; [done|]. eapply Forall_impl; [exact Hf|]. cbn. set_solver.
  - by constructor.
Qed.

Definition stamp (i : CBlockIndex) : Z * list Z := (bi_GetBlockTime i, bi_hash i).

(** The blocks of a way as candidates *)
Lemma way_candidates m h nd n :
  tree_ok m -> m !! h = Some nd -> let cands := merge_sort candidate_le (rev (stamp <$> take n (way m (Some h)))) in
  Forall (is_candidate (m := m)) cands /\ StronglySorted earlier cands /\ NoDup cands.*2 /\ length cands = length (take n (way m (Some h))).
Proof.
  intros Hm E cands. assert (Hp : cands ≡ₚ stamp <$> take n (way m (Some h))).
  { unfold cands. rewrite merge_sort_Permutation. symmetry. apply Permutation_rev. }
  pose proof (way_nodes Hm (base.size m) (Some h)) as Hn. change (way_back (base.size m) m (Some h)) with (way m (Some h)) in Hn.
  split_and!; [|apply candidates_sorted| |].
  - rewrite Hp. apply Forall_fmap. apply Forall_take. eapply Forall_impl; [exact Hn|]. intros i (d & Ed & <-). by exists d.
  - rewrite Hp. rewrite <- list_fmap_compose. change (snd ∘ stamp) with bi_hash. rewrite fmap_take. apply (sublist_NoDup _ (path m (Some h))).
    + by eapply (is_path_NoDup Hm), (path_spec Hm).
    + apply sublist_take.
  - rewrite Hp. by rewrite length_fmap.
Qed.

(** C15: the next stake modifier.  After a block of a well-formed index, one of whose ancestors generated a
    modifier, the computation never fails.  Within the same modifier interval the last generated modifier is
    kept.  Otherwise the new one is generated, and its bits are the entropy bits of min(64, n) different
    blocks among the n candidates, the latest ancestors down to the start of the selection interval; round
    by round the block is one not selected before, and no candidate in time for the round has a smaller
    selection hash. *)
Theorem stake_modifier_computed fTestNet m h nd g :
  tree_ok m -> m !! h = Some nd -> last_generated (way m (Some h)) = Some g ->
  let I := GetModiferInterval fTestNet in
  let start := Z.quot (bi_GetBlockTime (node nd)) I * I - GetStakeModifierSelectionInterval fTestNet in
  if Z.quot (bi_GetBlockTime (node nd)) I <=? Z.quot (bi_GetBlockTime g) I then
    ComputeNextStakeModifier fTestNet m (Some h) = Some (bi_nStakeModifier g, false)
  else
    exists n sel, let window := take n (way m (Some h)) in
      Forall (fun i => start <= bi_GetBlockTime i) window /\
      (forall x, way m (Some h) !! n = Some x -> bi_GetBlockTime x < start) /\
      length sel = Nat.min 64 (length window) /\ NoDup (bi_hash <$> sel) /\
      chosen (m := m) fTestNet (merge_sort candidate_le (rev (stamp <$> window))) (bi_nStakeModifier g) 0 start ∅ sel /\
      ComputeNextStakeModifier fTestNet m (Some h) = Some (digits_val 2 (bi_GetStakeEntropyBit <$> sel), true).
Proof.
  intros Hm E Eg I start. destruct (candidates_way (m := m) start (Some h)) as (n & Ec & Hw & Hnext).
  destruct (way_candidates m h nd n Hm E) as (Hc & Hs & Hnd & Hl). pose proof (way_unfold Hm _ _ E) as Ew.
  unfold ComputeNextStakeModifier, GetLastStakeModifier. set (l := way m (Some h)) in *. clearbody l. subst l.
  rewrite Eg. cbn [mbind option_bind]. fold I. destruct (Z.quot _ I <=? Z.quot _ I); [done|]. fold start. rewrite Ec.
  change (fun i => (bi_GetBlockTime i, bi_hash i)) with stamp. set (l := node nd :: _) in *. set (cands := merge_sort _ _) in *.
  destruct (modifier_rounds_spec Hm fTestNet cands (bi_nStakeModifier g) (Nat.min 64 (length (take n l))) 0 start ∅ 0) as (sel & Er & Hsl & Hch);
    [done..|apply size_empty|rewrite Hl; lia|cbn; lia|].
  exists n, sel. destruct (chosen_NoDup _ _ _ _ _ _ _ _ Hch) as (Hnds & _). split_and!; try done.
  replace (Z.min 64 (Z.of_nat (length cands))) with (Z.of_nat (Nat.min 64 (length (take n l)))) by (rewrite Hl; lia).
  change (Z.of_nat 0) with 0 in Er. rewrite Er. cbn [mbind option_bind]. f_equal. f_equal. change (2 ^ Z.of_nat 0) with 1. lia.
Qed.

Lemma search_times_found fTestNet nBestHeight settings item o keep_on times t :
  search_times fTestNet nBestHeight settings item o keep_on times = Some t ->
  exists n w, n ∈ times /\ t = u32 (ks_nTime settings - n) /\
    coin_day_weight fTestNet nBestHeight (nValue o) (nTime (mi_tx item)) t = Some w /\
    bn_ge (bn_mult w (SetCompact (ks_nBits settings))) (CBigNum_of_uint256 (Hash (kernel_bytes (mi_modifier item) (blk_nTime (mi_block item))
      (u32 (nTxPos (pos (mi_txindex item)) - nBlockPos (pos (mi_txindex item)))) (nTime (mi_tx item)) (mi_n item) t))) = true.
Proof.
  induction times as [|n times IH]; [done|]. cbn [search_times]. destruct (keep_on n); cbn [negb]; [|done].
  set (t' := u32 (ks_nTime settings - n)). destruct (coin_day_weight _ _ _ _ t') as [w|] eqn:Ew; [|done]. destruct (bn_ge (bn_mult w _) _) eqn:Eb.
  - intros [= <-]. exists n, w. split_and!; [left|done..].
  - intros Ht. destruct (IH Ht) as (n' & w' & Hn & Hr). exists n', w'. split; [by right|done].
Qed.

Lemma Scan_found fTestNet nBestHeight settings keep_on mapMeta item t bt :
  ScanForStakeKernelHash fTestNet nBestHeight settings keep_on mapMeta = Some (item, t, bt) ->
  item ∈ mapMeta /\ bt = blk_nTime (mi_block item) /\
  u32 (GetStakeMinAge fTestNet nBestHeight + blk_nTime (mi_block item)) <= u32 (ks_nTime settings - nMaxStakeSearchInterval) /\
  exists o keep, vout (mi_tx item) !! Z.to_nat (mi_n item) = Some o /\
    search_times fTestNet nBestHeight settings item o keep (seqZ 0 (Z.min (ks_nSearchInterval settings) nMaxStakeSearchInterval)) = Some t.
Proof.
  assert (Hgo : forall x l, item ∈ l -> item ∈ x :: l) by (intros; by right).
  induction mapMeta as [|x mapMeta IH]; [done|]. cbn [ScanForStakeKernelHash]. destruct (keep_on _ _); cbn [negb]; [|done].
  destruct (Z.ltb_spec (u32 (ks_nTime settings - nMaxStakeSearchInterval)) (u32 (GetStakeMinAge fTestNet nBestHeight + blk_nTime (mi_block x)))) as [|Hage].
  { intros Hs. destruct (IH Hs) as (? & ?). auto. }
  destruct (vout (mi_tx x) !! _) as [o|] eqn:Eo; [|done]. cbn [mbind option_bind]. destruct (search_times _ _ _ _ _ _ _) as [t'|] eqn:Et.
  - intros [= <- <- <-]. split_and!; [left|done|done|]. by exists o, (keep_on (length mapMeta)).
  - intros Hs. destruct (IH Hs) as (? & ?). auto.
Qed.

(** C14: what the stake search finds, the network accepts.  When [ScanForStakeKernelHash] returns a coin with a
    coinstake time, then [CheckStakeKernelHash], with the coin's block, offset, transaction and output and with
    that time, accepts it, provided the metadata of the coin hold the modifier of its block and the coin's
    transaction is not later than its block. *)
Theorem stake_search_accepted fTestNet nBestHeight m settings keep_on mapMeta item nTimeTx nBlockTime height time :
  ScanForStakeKernelHash fTestNet nBestHeight settings keep_on mapMeta = Some (item, nTimeTx, nBlockTime) ->
  GetKernelStakeModifier fTestNet m (CBlock_GetHash (mi_block item)).1 = Some (mi_modifier item, height, time) ->
  0 <= blk_nTime (mi_block item) -> blk_nTime (mi_block item) + GetStakeMinAge fTestNet nBestHeight < 2 ^ 32 ->
  nTime (mi_tx item) <= blk_nTime (mi_block item) -> nMaxStakeSearchInterval <= ks_nTime settings < 2 ^ 32 ->
  item ∈ mapMeta /\ nBlockTime = blk_nTime (mi_block item) /\
  exists hashProofOfStake target,
    CheckStakeKernelHash fTestNet nBestHeight m (ks_nBits settings) (mi_block item)
      (u32 (nTxPos (pos (mi_txindex item)) - nBlockPos (pos (mi_txindex item)))) (mi_tx item) (mi_n item) nTimeTx =
    Some (hashProofOfStake, target).
Proof.
  intros Hs Hk Hb0 Hb Htx Hset. destruct (Scan_found _ _ _ _ _ _ _ _ Hs) as (Hin & -> & Hage & o & keep & Eo & Hse).
  split; [done|]. split; [done|]. destruct (search_times_found _ _ _ _ _ _ _ _ Hse) as (n & w & Hn & -> & Ew & Hge).
  apply elem_of_seqZ in Hn. assert (0 < GetStakeMinAge fTestNet nBestHeight) as Hpos by (unfold GetStakeMinAge; repeat case_goal; lia).
  unfold nMaxStakeSearchInterval in *. rewrite !wrap_small in Hage by lia. set (t := u32 (ks_nTime settings - n)) in *.
  assert (t = ks_nTime settings - n) as Et by (apply wrap_small; lia). unfold CheckStakeKernelHash, GetBlockTime.
  rewrite (swrap_small 64) by lia. rewrite (wrap_small 32 (blk_nTime (mi_block item))), (wrap_small 32 (blk_nTime (mi_block item) + _)) by lia.
  rewrite (proj2 (Z.ltb_ge t (nTime (mi_tx item)))) by lia. rewrite (proj2 (Z.ltb_ge t _)) by lia. rewrite Eo. cbn [mbind option_bind]. rewrite Ew. cbn [mbind option_bind].
  rewrite Hk. cbn [mbind option_bind]. destruct (bn_gt _ _) eqn:Eg; [|eauto]. exfalso.
  destruct (bn_compare_val (CBigNum_of_uint256 (Hash (kernel_bytes (mi_modifier item) (blk_nTime (mi_block item))
      (u32 (nTxPos (pos (mi_txindex item)) - nBlockPos (pos (mi_txindex item)))) (nTime (mi_tx item)) (mi_n item) t)))
      (bn_mult w (SetCompact (ks_nBits settings)))) as (_ & _ & _ & _ & _ & Hc1). rewrite Hc1 in Eg.
  edestruct bn_compare_val as (_ & _ & _ & Hc2 & _). rewrite Hc2 in Hge. lia.
Qed.
End claims.

(** ** Witnesses *)

Lemma stake_modifier_computed_witness :
  exists n sel, let window := take n (way toy_tree (Some (toy_hash_of 3))) in
    length sel = Nat.min 64 (length window) /\
    ComputeNextStakeModifier (H := toy_hash) false toy_tree (Some (toy_hash_of 3)) = Some (digits_val 2 (bi_GetStakeEntropyBit <$> sel), true).
Proof.
  assert (exists nd g, toy_tree !! toy_hash_of 3 = Some nd /\ last_generated (way toy_tree (Some (toy_hash_of 3))) = Some g /\
    bi_GetBlockTime (node nd) = 1600100000 /\ bi_GetBlockTime g = 1600000000) as (nd & g & E & Eg & Hn & Hg) by (eexists _, _; vm_compute; done).
  pose proof (stake_modifier_computed (H := toy_hash) false toy_tree (toy_hash_of 3) nd g toy_tree_ok E Eg) as Hc.
  rewrite Hn, Hg in Hc. destruct Hc as (n & sel & _ & _ & Hl & _ & _ & Hc). exists n, sel. by split.
Defined.

(** The third block generated a modifier, a selection interval after the coin's block *)
Definition staked_tree : BlockMap := <[toy_hash_of 3 := mkNode (toy_index 3 2 1600100000 5 77) (Some (toy_hash_of 2)) None]> toy_tree.
Definition staked_tx : CTransaction := mkTx 1 1600000000 [] [mkTxOut (1000 * COIN) []] 0.
Definition staked_block : CBlock := mkBlock 1 (toy_hash_of 0) (toy_hash_of 0) 1600000000 0x1d00ffff 0 [staked_tx] [] [] (toy_hash_of 1) true.
Definition staked_item : MetaItem := mkMeta (CTxIndex_new (mkPos 1 1000 1080) 1) staked_tx 0 staked_block 77.
Definition staked_settings : KernelSearchSettings := mkSettings 0x2200ffff 1600200000 30.

Lemma stake_search_accepted_witness :
  exists proof target, CheckStakeKernelHash (B := ZBN) (H := toy_hash) true 7000000 staked_tree 0x2200ffff staked_block 80 staked_tx 0 1600200000 = Some (proof, target).
Proof.
  assert (Ht : 0 <= blk_nTime (mi_block staked_item) /\ blk_nTime (mi_block staked_item) + GetStakeMinAge true 7000000 < 2 ^ 32 /\
    nTime (mi_tx staked_item) <= blk_nTime (mi_block staked_item) /\ nMaxStakeSearchInterval <= ks_nTime staked_settings < 2 ^ 32) by (vm_compute; done).
  destruct Ht as (H1 & H2 & H3 & H4).
  assert (Es : ScanForStakeKernelHash (B := ZBN) (H := toy_hash) true 7000000 staked_settings (fun _ _ => true) [staked_item] =
    Some (staked_item, 1600200000, 1600000000)) by (vm_compute; reflexivity).
  assert (Ek : GetKernelStakeModifier true staked_tree (CBlock_GetHash (H := toy_hash) (mi_block staked_item)).1 = Some (mi_modifier staked_item, 2, 1600100000)).
  { vm_compute. reflexivity. }
  destruct (stake_search_accepted (B := ZBN) (H := toy_hash) true 7000000 staked_tree staked_settings (fun _ _ => true) [staked_item]
    staked_item 1600200000 1600000000 2 1600100000 Es Ek H1 H2 H3 H4) as (_ & _ & p & t & Hc).
  exists p, t. exact Hc.
Defined.
