(* ===== verification/Reorganize.v ===== *)
(** * The best chain: [SetBestChain], [Reorganize], [AddToBlockIndex] of [main.cpp]

    The globals of the chain are one record.  A new block with more trust than the best
    chain makes its branch the best one: the blocks back to the fork are disconnected,
    the others connected, in one database transaction, and the pointers in memory follow
    when that is written.  The wallet's locator, the notifications and the block index
    records of the database are left out. *)

From S2P Require Import Prelude Uint256 BigNum Serialize Hash Transaction Script Canonical.
From S2P Require Import Interp Key SigCheck Templates KeyStore Scrypt Block TxRules TxDB Chain Rewards BlockRules Connect ConnectFacts BlockConnect.
From S2P Require Import MemPool BlockTree Checkpoints Kernel.

Record ChainState := mkChain {
  mapBlockIndex : BlockMap;
  pindexGenesisBlock : option (list Z);
  pindexBest : option (list Z);
  hashBestChain : list Z;
  cs_nBestHeight : Z;
  nBestChainTrust : list Z;
  nBestInvalidTrust : list Z;
  setStakeSeen : gset (COutPoint * Z);
  txdb : CTxDB;
  mempool : CTxMemPool;
  sigcache : CSignatureCache;
  sync : SyncState
}.

Definition with_map (s : ChainState) (m : BlockMap) : ChainState :=
  mkChain m (pindexGenesisBlock s) (pindexBest s) (hashBestChain s) (cs_nBestHeight s) (nBestChainTrust s) (nBestInvalidTrust s)
    (setStakeSeen s) (txdb s) (mempool s) (sigcache s) (sync s).
Definition with_db (s : ChainState) (t : CTxDB) : ChainState :=
  mkChain (mapBlockIndex s) (pindexGenesisBlock s) (pindexBest s) (hashBestChain s) (cs_nBestHeight s) (nBestChainTrust s) (nBestInvalidTrust s)
    (setStakeSeen s) t (mempool s) (sigcache s) (sync s).
Definition with_pool (s : ChainState) (p : CTxMemPool) (c : CSignatureCache) : ChainState :=
  mkChain (mapBlockIndex s) (pindexGenesisBlock s) (pindexBest s) (hashBestChain s) (cs_nBestHeight s) (nBestChainTrust s) (nBestInvalidTrust s)
    (setStakeSeen s) (txdb s) p c (sync s).
Definition with_best_invalid (s : ChainState) (t : list Z) (d : CTxDB) : ChainState :=
  mkChain (mapBlockIndex s) (pindexGenesisBlock s) (pindexBest s) (hashBestChain s) (cs_nBestHeight s) (nBestChainTrust s) t
    (setStakeSeen s) d (mempool s) (sigcache s) (sync s).
Definition with_genesis (s : ChainState) (g : list Z) : ChainState :=
  mkChain (mapBlockIndex s) (Some g) (pindexBest s) (hashBestChain s) (cs_nBestHeight s) (nBestChainTrust s) (nBestInvalidTrust s)
    (setStakeSeen s) (txdb s) (mempool s) (sigcache s) (sync s).

(** The parameters as the chain code sees them: the height and the checkpoint are globals *)
Definition par_at (par : Params) (s : ChainState) : Params :=
  mkParams (fTestNet par) (now par) (hashGenesisBlock par) (cs_nBestHeight s) (nCoinbaseMaturity par) (nScriptCheckThreads par)
    (maxsigcache par) (nCheckpointDepth par) (fDynCheckpoint par) (nTotalBlocksEstimate par) (sync_height (sync s)) (nBlocksOfPeers par).

Definition chars (s : string) : list Z := (fun c => Z.of_nat (Ascii.nat_of_ascii c)) <$> String.list_ascii_of_string s.

Definition WriteHashBestChain (t : CTxDB) (hash : list Z) : option CTxDB :=
  Write (base_uint_codec WIDTH256) t (Serialize string_codec (chars "hashBestChain")) hash.

Section best_chain.
Context {B : BNOps} {H : HashOps} {E : ECOps} {P : SecpOps} {F : Files} {G : BlockFiles}.

(** The value is serialized as the bytes of the number *)
Definition WriteBestInvalidTrust (t : CTxDB) (trust : list Z) : option CTxDB :=
  Write vch_codec t (Serialize string_codec (chars "bnBestInvalidTrust")) (getvch (CBigNum_of_uint256 trust)).

(** [block.ReadFromDisk(pindex)] *)
Definition ReadBlock (fTestNet : bool) (i : CBlockIndex) : option CBlock :=
  b ← read_block (bi_nFile i) (bi_nBlockPos i);
  let '(hash, b) := CBlock_GetHash b in
  if IsProofOfWork b && negb (CheckProofOfWork fTestNet hash (nBits b)) then None
  else if op_ne hash (bi_hash i) then None
  else Some b.

(** [if (pindex->pprev) pindex->pprev->pnext = next] *)
Definition set_parent_next (h : list Z) (next : option (list Z)) (m : BlockMap) : BlockMap :=
  match m !! h ≫= pprev with Some p => set_pnext p next m | None => m end.

(** ** [Reorganize] *)

(** The search for the fork, on the ways back of [pfork] and [plonger] *)
Fixpoint find_fork (pfork plonger : list CBlockIndex) : option (list Z) :=
  match pfork, plonger with
  | f :: pfork', q :: _ =>
      if bool_decide (bi_hash f = bi_hash q) then Some (bi_hash f)
      else
        match trace_back (bi_nHeight f) plonger with
        | [] => None
        | (q :: _) as plonger => if bool_decide (bi_hash f = bi_hash q) then Some (bi_hash f) else find_fork pfork' plonger
        end
  | _, _ => None
  end.

(** The blocks before the fork *)
Fixpoint branch (fork : list Z) (chain : list CBlockIndex) : list CBlockIndex :=
  match chain with
  | [] => []
  | i :: chain => if bool_decide (bi_hash i = fork) then [] else i :: branch fork chain
  end.

Definition resurrectable (par : Params) (i : CBlockIndex) (b : CBlock) : list CTransaction :=
  filter (fun tx => negb (IsCoinBase tx || IsCoinStake tx) && (nTotalBlocksEstimate par <? bi_nHeight i) = true) (vtx b).

Fixpoint disconnect_branch (par : Params) (vDisconnect : list CBlockIndex) (t : CTxDB) (vResurrect : list CTransaction) :
    option (CTxDB * list CTransaction) :=
  match vDisconnect with
  | [] => Some (t, vResurrect)
  | i :: vDisconnect =>
      b ← ReadBlock (fTestNet par) i;
      t ← DisconnectBlock (T := leveldb_store) b t;
      disconnect_branch par vDisconnect t (resurrectable par i b ++ vResurrect)
  end.

(** [block.ConnectBlock(txdb, pindex)], which also writes the money supply into the index *)
Definition connect_at (par : Params) (s : ChainState) (h : list Z) (b : CBlock) : result unit * CBlock * ChainState :=
  match mapBlockIndex s !! h with
  | None => (Fail 0, b, s)
  | Some nd =>
      let '(r, b, c) := ConnectBlock (T := leveldb_store) (par_at par s) false (txdb s) (mapTx (mempool s)) (node nd)
        (way (mapBlockIndex s) (pprev nd)) b (sigcache s) in
      let s := with_pool s (mempool s) c in
      match r with
      | Done (t, i) => (Done tt, b, with_db (with_map s (<[h := mkNode i (pprev nd) (pnext nd)]> (mapBlockIndex s))) t)
      | Fail nDoS => (Fail nDoS, b, s)
      | Throws => (Throws, b, s)
      end
  end.

Fixpoint connect_branch (par : Params) (vConnect : list (list Z)) (s : ChainState) (vDelete : list CTransaction) :
    result (list CTransaction) * ChainState :=
  match vConnect with
  | [] => (Done vDelete, s)
  | h :: vConnect =>
      match mapBlockIndex s !! h ≫= fun nd => ReadBlock (fTestNet par) (node nd) with
      | None => (Fail 0, s)
      | Some b =>
          match connect_at par s h b with
          | (Done _, b, s) => connect_branch par vConnect s (vDelete ++ vtx b)
          | (Fail nDoS, _, s) => (Fail nDoS, s)
          | (Throws, _, s) => (Throws, s)
          end
      end
  end.

(** The rejections are ignored; an exception ends the loop, [false] *)
Fixpoint resurrect (par : Params) (fLimited : bool) (txs : list CTransaction) (s : ChainState) : bool * ChainState :=
  match txs with
  | [] => (true, s)
  | tx :: txs =>
      match AcceptToMemoryPool (par_at par s) fLimited (CTxDB_open (pdb (txdb s)) true) (way (mapBlockIndex s) (pindexBest s))
              (mempool s) tx (sigcache s) with
      | (Raised, p, c) => (false, with_pool s p c)
      | (_, p, c) => resurrect par fLimited txs (with_pool s p c)
      end
  end.

Definition remove_all (txs : list CTransaction) (p : CTxMemPool) : CTxMemPool := foldl (fun p tx => remove tx p) p txs.

(** When it fails the caller drops the pending batch *)
Definition Reorganize (par : Params) (fLimited : bool) (s : ChainState) (new : list Z) : result unit * ChainState :=
  let old_way := way (mapBlockIndex s) (pindexBest s) in
  let new_way := way (mapBlockIndex s) (Some new) in
  match find_fork old_way new_way with
  | None => (Fail 0, s)
  | Some fork =>
      let vDisconnect := branch fork old_way in
      let vConnect := bi_hash <$> rev (branch fork new_way) in
      match disconnect_branch par vDisconnect (txdb s) [] with
      | None => (Fail 0, s)
      | Some (t, vResurrect) =>
          match connect_branch par vConnect (with_db s t) [] with
          | (Done vDelete, s) =>
              match WriteHashBestChain (txdb s) new ≫= TxnCommit with
              | None => (Fail 0, s)
              | Some t =>
                  let m := foldl (fun m i => set_parent_next (bi_hash i) None m) (mapBlockIndex s) vDisconnect in
                  let m := foldl (fun m h => set_parent_next h (Some h) m) m vConnect in
                  let '(ok, s) := resurrect par fLimited vResurrect (with_map (with_db s t) m) in
                  if ok then (Done tt, with_pool s (remove_all vDelete (mempool s)) (sigcache s)) else (Throws, s)
              end
          | (Fail _, s) => (Fail 0, s)
          | (Throws, s) => (Throws, s)
          end
      end
  end.

(** ** [SetBestChain] *)

Definition trust_of (m : BlockMap) (h : list Z) : list Z :=
  match m !! h with Some nd => bi_nChainTrust (node nd) | None => assign64 WIDTH256 0 end.

Definition InvalidChainFound (s : ChainState) (h : list Z) : ChainState :=
  let trust := trust_of (mapBlockIndex s) h in
  if op_gt trust (nBestInvalidTrust s) then
    with_best_invalid s trust (default (txdb s) (WriteBestInvalidTrust (txdb s) trust))
  else s.

Definition SetBestChainInner (par : Params) (s : ChainState) (h : list Z) (b : CBlock) : result unit * CBlock * ChainState :=
  let '(hash, b) := CBlock_GetHash b in
  let failed s := InvalidChainFound (with_db s (TxnAbort (txdb s))) h in
  match connect_at par s h b with
  | (Done _, b, s) =>
      match WriteHashBestChain (txdb s) hash with
      | None => (Fail 0, b, failed s)
      | Some t =>
          match TxnCommit t with
          | None => (Fail 0, b, s)
          | Some t =>
              let s := with_map (with_db s t) (set_parent_next h (Some h) (mapBlockIndex s)) in
              (Done tt, b, with_pool s (remove_all (vtx b) (mempool s)) (sigcache s))
          end
      end
  | (Fail nDoS, b, s) => (Fail nDoS, b, failed s)
  | (Throws, b, s) => (Throws, b, s)
  end.

(** The blocks that are connected after the switch, and the block to switch to *)
Fixpoint postpone (best : list Z) (chain : list CBlockIndex) : list CBlockIndex * option CBlockIndex :=
  match chain with
  | [] => ([], None)
  | i :: chain' =>
      match chain' with
      | p :: _ =>
          if op_gt (bi_nChainTrust p) best then
            let '(vpindexSecondary, intermediate) := postpone best chain' in (i :: vpindexSecondary, intermediate)
          else ([], Some i)
      | [] => ([], Some i)
      end
  end.

(** The first failure ends the loop, and the rest stays unconnected; the flag tells *)
Fixpoint connect_further (par : Params) (blocks : list (list Z)) (s : ChainState) : result bool * ChainState :=
  match blocks with
  | [] => (Done true, s)
  | h :: blocks =>
      match mapBlockIndex s !! h ≫= fun nd => ReadBlock (fTestNet par) (node nd) with
      | None => (Done false, s)
      | Some b =>
          match TxnBegin (txdb s) with
          | None => (Done false, s)
          | Some t =>
              match SetBestChainInner par (with_db s t) h b with
              | (Done _, _, s) => connect_further par blocks s
              | (Fail _, _, s) => (Done false, s)
              | (Throws, _, s) => (Throws, s)
              end
          end
      end
  end.

(** The globals of the new best block *)
Definition new_best (s : ChainState) (hash h : list Z) : ChainState :=
  let p := mempool s in
  mkChain (mapBlockIndex s) (pindexGenesisBlock s) (Some h) hash
    (match mapBlockIndex s !! h with Some nd => bi_nHeight (node nd) | None => 0 end) (trust_of (mapBlockIndex s) h) (nBestInvalidTrust s)
    (setStakeSeen s) (txdb s) (mkPool (mapTx p) (mapNextTx p) (u32 (nTransactionsUpdated p + 1))) (sigcache s) (sync s).

(** The branches of [SetBestChain] before the globals are set *)
Definition switch_chain (par : Params) (fLimited : bool) (s : ChainState) (hash h : list Z) (b : CBlock) : result bool * CBlock * ChainState :=
  if bool_decide (pindexGenesisBlock s = None) && op_eq hash (hashGenesisBlock par) then
    match WriteHashBestChain (txdb s) hash ≫= TxnCommit with
    | None => (Fail 0, b, s)
    | Some t => (Done true, b, with_genesis (with_db s t) h)
    end
  else if op_eq (hashPrevBlock b) (hashBestChain s) then
    match SetBestChainInner par s h b with
    | (Done _, b, s) => (Done true, b, s)
    | (Fail nDoS, b, s) => (Fail nDoS, b, s)
    | (Throws, b, s) => (Throws, b, s)
    end
  else
    let best_trust := match pindexBest s with Some x => trust_of (mapBlockIndex s) x | None => assign64 WIDTH256 0 end in
    let '(vpindexSecondary, intermediate) := postpone best_trust (way (mapBlockIndex s) (Some h)) in
    match intermediate with
    | None => (Fail 0, b, s)
    | Some i =>
        match Reorganize par fLimited s (bi_hash i) with
        | (Done _, s) => let '(r, s) := connect_further par (bi_hash <$> rev vpindexSecondary) s in (r, b, s)
        | (Fail _, s) => (Fail 0, b, InvalidChainFound (with_db s (TxnAbort (txdb s))) h)
        | (Throws, s) => (Throws, b, s)
        end
    end.

(** [Done fAll] is [true]; the source does not tell whether all postponed blocks were connected *)
Definition SetBestChain (par : Params) (fLimited : bool) (s : ChainState) (h : list Z) (b : CBlock) : result bool * CBlock * ChainState :=
  let '(hash, b) := CBlock_GetHash b in
  match TxnBegin (txdb s) with
  | None => (Fail 0, b, s)
  | Some t =>
      match switch_chain par fLimited (with_db s t) hash h b with
      | (Done fAll, b, s) => (Done fAll, b, new_best s hash h)
      | r => r
      end
  end.
End best_chain.
