(* ===== verification/ReorgFacts.v ===== *)
(** * Facts about the best chain

    The fork is the last common ancestor of the two branches; clearing and setting
    [pnext] along them moves the marks of the best chain; the transaction index is the
    trace of the blocks of the best chain. *)

From S2P Require Import Prelude Uint256 BigNum Serialize Hash Transaction Script Canonical.
From S2P Require Import Interp InterpSim Key SigCheck Templates KeyStore Scrypt Block TxRules TxDB Chain Rewards BlockRules Connect ConnectFacts BlockConnect.
From S2P Require Import MemPool BlockTree Checkpoints Kernel Reorganize.

(** ** The fork *)

Lemma find_fork_unfold f l1 q l2 :
  find_fork (f :: l1) (q :: l2) =
  if bool_decide (bi_hash f = bi_hash q) then Some (bi_hash f)
  else
    match trace_back (bi_nHeight f) (q :: l2) with
    | [] => None
    | (q :: _) as plonger => if bool_decide (bi_hash f = bi_hash q) then Some (bi_hash f) else find_fork l1 plonger
    end.
Proof. done. Qed.

Section fork.
Context {m : BlockMap} (Hm : tree_ok m).

Lemma path_top x xd y : m !! x = Some xd -> y ∈ path m (Some x) ->
  exists yd, m !! y = Some yd /\ bi_nHeight (node yd) <= bi_nHeight (node xd) /\ (bi_nHeight (node yd) = bi_nHeight (node xd) -> y = x).
Proof.
  intros E Hy. destruct (path_elem Hm (Some x) y ltac:(intros b [= <-]; eauto) Hy) as (yd & l & Ey & El). exists yd. split; [done|].
  pose proof (path_length Hm _ _ E) as Lx. pose proof (path_length Hm _ _ Ey) as Ly. rewrite El, length_app in Lx. split; [lia|].
  intros Heq. destruct l as [|z l]; [|cbn [length] in Lx; lia]. cbn [app] in El. rewrite (path_unfold Hm _ _ E), (path_unfold Hm _ _ Ey) in El.
  by injection El.
Qed.

Lemma trace_back_way t y yd :
  m !! y = Some yd -> 0 <= t ->
  exists z zd, trace_back t (way m (Some y)) = way m (Some z) /\ m !! z = Some zd /\ z ∈ path m (Some y) /\
    bi_nHeight (node zd) = Z.min t (bi_nHeight (node yd)).
Proof.
  remember (Z.to_nat (bi_nHeight (node yd))) as n eqn:En. revert y yd En. induction n as [n IH] using lt_wf_ind. intros y yd -> E Ht.
  rewrite (way_unfold Hm _ _ E), (path_unfold Hm _ _ E). cbn [trace_back]. destruct (Z.ltb_spec t (bi_nHeight (node yd))).
  - destruct (pprev yd) as [p|] eqn:Ep; [|pose proof (root_height m Hm _ _ E Ep); lia].
    destruct (parent_height m Hm _ _ _ E Ep) as (pd & Epd & Hh). pose proof (node_height m Hm _ _ Epd).
    destruct (IH (Z.to_nat (bi_nHeight (node pd)))) with (y := p) (yd := pd) as (z & zd & Ez & Hz & Hin & Hzh); [lia|done|done|done|].
    exists z, zd. split_and!; [done|done|by right|lia].
  - exists y, yd. split_and!; [by rewrite (way_unfold Hm _ _ E)|done|left|lia].
Qed.

(** When both branches come from one root the search finds their last common ancestor *)
Lemma find_fork_spec x xd y yd r :
  m !! x = Some xd -> m !! y = Some yd -> r ∈ path m (Some x) -> r ∈ path m (Some y) ->
  exists f, find_fork (way m (Some x)) (way m (Some y)) = Some f /\ f ∈ path m (Some x) /\ f ∈ path m (Some y) /\
    forall z, z ∈ path m (Some x) -> z ∈ path m (Some y) -> z ∈ path m (Some f).
Proof.
  remember (Z.to_nat (bi_nHeight (node xd))) as n eqn:En. revert x xd y yd En. induction n as [n IH] using lt_wf_ind.
  intros x xd y yd -> Ex Ey Hrx Hry. pose proof (node_height m Hm _ _ Ex) as Hx0.
  rewrite (way_unfold Hm _ _ Ex), (way_unfold Hm _ _ Ey), find_fork_unfold, <- (way_unfold Hm _ _ Ey).
  rewrite (node_hash m Hm _ _ Ex), (node_hash m Hm _ _ Ey). case_bool_decide as Hxy.
  { subst y. exists x. split; [done|]. rewrite (path_unfold Hm _ _ Ex). split_and!; [left|left|done]. }
  destruct (trace_back_way (bi_nHeight (node xd)) y yd Ey Hx0) as (z & zd & Ez & Hz & Hzy & Hzh). rewrite Ez.
  assert (Hcom : forall w, w ∈ path m (Some x) -> w ∈ path m (Some y) -> w ∈ path m (Some z)).
  { intros w Hwx Hwy. destruct (path_top _ _ _ Ex Hwx) as (wd & Ew & Hw & _). destruct (path_top _ _ _ Ey Hwy) as (wd' & Ew' & Hw' & _). simplify_eq.
    eapply (path_linear Hm (Some y)); eauto; [intros b [= <-]; eauto|lia]. }
  rewrite (way_unfold Hm _ _ Hz). rewrite (node_hash m Hm _ _ Hz). case_bool_decide as Hxz.
  { subst z. simplify_eq. exists x. split; [done|]. rewrite (path_unfold Hm _ _ Ex) at 1. split_and!; [left|done|]. intros w Hw Hw'. by apply Hcom. }
  rewrite <- (way_unfold Hm _ _ Hz).
  assert (Hnx : forall w, w ∈ path m (Some x) -> w ∈ path m (Some y) -> w <> x).
  { intros w Hwx Hwy ->. pose proof (Hcom x Hwx Hwy) as Hxz'. destruct (path_top _ _ _ Hz Hxz') as (xd' & Ex' & Hle & Heq). simplify_eq.
    apply Hxz. apply Heq. lia. }
  assert (Hpx : forall w, w ∈ path m (Some x) -> w ∈ path m (Some y) -> w ∈ path m (pprev xd)).
  { intros w Hwx Hwy. pose proof (Hnx w Hwx Hwy) as Hne. rewrite (path_unfold Hm _ _ Ex) in Hwx. apply elem_of_cons in Hwx as [->|]; done. }
  destruct (pprev xd) as [p|] eqn:Ep; [|pose proof (Hpx r Hrx Hry) as Hr; rewrite (path_None Hm) in Hr; by apply not_elem_of_nil in Hr].
  destruct (parent_height m Hm _ _ _ Ex Ep) as (pd & Epd & Hh). pose proof (node_height m Hm _ _ Epd).
  destruct (IH (Z.to_nat (bi_nHeight (node pd)))) with (x := p) (xd := pd) (y := z) (yd := zd) as (f & Ef & Hfx & Hfy & Hmax);
    [lia|done|done|done|by apply Hpx|by apply Hcom|].
  exists f. split_and!; [done| |by eapply (path_trans Hm); eauto|].
  - rewrite (path_unfold Hm _ _ Ex), Ep. by right.
  - intros w Hwx Hwy. apply Hmax; [by apply Hpx|by apply Hcom].
Qed.

(** The blocks before the fork and the way back from it make up the whole way *)
Lemma branch_path x xd f :
  m !! x = Some xd -> f ∈ path m (Some x) -> path m (Some x) = (bi_hash <$> branch f (way m (Some x))) ++ path m (Some f).
Proof.
  remember (Z.to_nat (bi_nHeight (node xd))) as n eqn:En. revert x xd En. induction n as [n IH] using lt_wf_ind. intros x xd -> Ex Hf.
  rewrite (way_unfold Hm _ _ Ex). cbn [branch]. rewrite (node_hash m Hm _ _ Ex). case_bool_decide as Hxf; [by subst f|].
  rewrite (path_unfold Hm _ _ Ex) in Hf |- *. cbn [fmap list_fmap app]. rewrite (node_hash m Hm _ _ Ex). f_equal.
  apply elem_of_cons in Hf as [->|Hf]; [done|]. destruct (pprev xd) as [p|] eqn:Ep; [|rewrite (path_None Hm) in Hf; by apply not_elem_of_nil in Hf].
  destruct (parent_height m Hm _ _ _ Ex Ep) as (pd & Epd & Hh). pose proof (node_height m Hm _ _ Epd).
  apply (IH (Z.to_nat (bi_nHeight (node pd)))) with (xd := pd); [lia|done..].
Qed.
End fork.

(** ** Moving the marks *)

Lemma skeleton_set_parent_next h next m k : skeleton (set_parent_next h next m) k = skeleton m k.
Proof. unfold set_parent_next. destruct (m !! h ≫= pprev); [apply skeleton_set_pnext|done]. Qed.

Lemma lookup_set_pnext p next m h : set_pnext p next m !! h =
  if decide (p = h) then (fun nd => mkNode (node nd) (pprev nd) next) <$> m !! h else m !! h.
Proof. unfold set_pnext. case_decide as Hd; [subst; apply lookup_alter_eq|by apply lookup_alter_ne]. Qed.

(** A child is not an ancestor of its parent *)
Lemma child_not_below m p c cd : tree_ok m -> m !! c = Some cd -> pprev cd = Some p -> c ∉ path m (Some p).
Proof.
  intros Hm Ec Ep Hc. destruct (parent_height m Hm _ _ _ Ec Ep) as (pd & Epd & Hh). destruct (path_top Hm _ _ _ Epd Hc) as (cd' & Ec' & Hle & _).
  simplify_eq. lia.
Qed.

(** With [p] as parent of [x]: what [pnext] of [p] becomes decides whether [x] is marked *)
Lemma marks_change m x xd p next :
  tree_ok m -> m !! x = Some xd -> pprev xd = Some p ->
  (forall h nd c, m !! h = Some nd -> h <> p -> pnext nd = Some c <-> c ∈ path m (Some p) /\ exists cd, m !! c = Some cd /\ pprev cd = Some h) ->
  marks_ok (set_pnext p next m) (match next with Some _ => Some x | None => Some p end) \/ next <> None /\ next <> Some x.
Proof.
  intros Hm Ex Ep Hk. destruct (decide (next = None \/ next = Some x)) as [Hn|Hn]; [left|right; split; congruence || tauto].
  destruct (parent_height m Hm _ _ _ Ex Ep) as (pd & Epd & _).
  assert (Hsk : forall k, skeleton m k = skeleton (set_pnext p next m) k) by (intros k; by rewrite skeleton_set_pnext).
  assert (Hpath : forall y, is_Some (m !! y) -> path (set_pnext p next m) (Some y) = path m (Some y)).
  { intros y Hy. symmetry. apply skeleton_path; [done|done|]. by intros b [= <-]. }
  assert (Hpar : forall c h, (exists cd, set_pnext p next m !! c = Some cd /\ pprev cd = Some h) <-> exists cd, m !! c = Some cd /\ pprev cd = Some h).
  { intros c h. rewrite lookup_set_pnext. case_decide; [|done]. destruct (m !! c) as [cd|]; cbn; [|naive_solver]. split; intros (cd' & [= <-] & He); eauto. }
  intros h nd' c E'. rewrite Hpar. rewrite lookup_set_pnext in E'. case_decide as Hd.
  - subst h. rewrite Epd in E'. cbn in E'. injection E' as <-. cbn [pnext]. destruct Hn as [-> | ->].
    + split; [done|]. rewrite Hpath by eauto. intros (Hc & cd & Ec & Ecp). exfalso. by eapply child_not_below.
    + rewrite Hpath by eauto. rewrite (path_unfold Hm _ _ Ex), Ep. split.
      * intros [= <-]. split; [left|eauto].
      * intros (Hc & cd & Ec & Ecp). apply elem_of_cons in Hc as [->|Hc]; [done|]. exfalso. by eapply child_not_below.
  - rewrite (Hk h nd' c E' ltac:(done)). destruct Hn as [-> | ->]; rewrite Hpath by eauto; [done|].
    rewrite (path_unfold Hm _ _ Ex), Ep. split; intros (Hc & cd & Ec & Ecp); (split; [|eauto]); [by right|].
    apply elem_of_cons in Hc as [->|]; [|done]. simplify_eq.
Qed.

Lemma marks_step_back m x xd :
  tree_ok m -> m !! x = Some xd -> marks_ok m (Some x) -> marks_ok (set_parent_next x None m) (pprev xd).
Proof.
  intros Hm Ex Hk. unfold set_parent_next. rewrite Ex. cbn [mbind option_bind]. destruct (pprev xd) as [p|] eqn:Ep.
  - destruct (marks_change m x xd p None Hm Ex Ep) as [Hq|[Hq _]]; [|exact Hq|done]. intros h nd c E Hh. rewrite (Hk h nd c E), (path_unfold Hm _ _ Ex), Ep.
    split; intros (Hc & cd & Ec & Ecp); (split; [|eauto]); [|by right]. apply elem_of_cons in Hc as [->|]; [|done]. simplify_eq.
  - intros h nd c E. rewrite (Hk h nd c E), (path_unfold Hm _ _ Ex), Ep, (path_None Hm). split; intros (Hc & cd & Ec & Ecp).
    + apply elem_of_cons in Hc as [->|Hc]; [simplify_eq|]. by apply not_elem_of_nil in Hc.
    + by apply not_elem_of_nil in Hc.
Qed.

Lemma marks_step_on m x xd p :
  tree_ok m -> m !! x = Some xd -> pprev xd = Some p -> marks_ok m (Some p) -> marks_ok (set_parent_next x (Some x) m) (Some x).
Proof.
  intros Hm Ex Ep Hk. unfold set_parent_next. rewrite Ex. cbn [mbind option_bind]. rewrite Ep.
  destruct (marks_change m x xd p (Some x) Hm Ex Ep) as [Hq|[_ Hq]]; [|exact Hq|done]. intros h nd c E Hh. by rewrite (Hk h nd c E).
Qed.

(** The folds of [Reorganize] *)
Lemma marks_back m x l f :
  tree_ok m -> is_Some (m !! x) -> path m (Some x) = l ++ path m (Some f) -> is_Some (m !! f) -> marks_ok m (Some x) ->
  let m' := foldl (fun m h => set_parent_next h None m) m l in
  marks_ok m' (Some f) /\ forall k, skeleton m' k = skeleton m k.
Proof.
  revert m x. induction l as [|h l IH]; intros m x Hm [xd Ex] Hp [fd Ef] Hk.
  { cbn. cbn [app] in Hp. rewrite (path_unfold Hm _ _ Ex), (path_unfold Hm _ _ Ef) in Hp. injection Hp as -> _. done. }
  rewrite (path_unfold Hm _ _ Ex) in Hp. cbn [app] in Hp. injection Hp as <- Hp. cbn [foldl].
  pose proof (marks_step_back m x xd Hm Ex Hk) as Hk1. set (m1 := set_parent_next x None m) in *.
  assert (Hsk : forall k, skeleton m k = skeleton m1 k) by (intros k; unfold m1; by rewrite skeleton_set_parent_next).
  destruct (pprev xd) as [p|] eqn:Ep; [|rewrite (path_None Hm), (path_unfold Hm _ _ Ef) in Hp; by destruct l].
  destruct (parent_height m Hm _ _ _ Ex Ep) as (pd & Epd & _).
  destruct (IH m1 p) as [HkF HsF]; [by eapply skeleton_tree_ok|by eapply skeleton_dom; eauto| |by eapply skeleton_dom; eauto|done|].
  - rewrite <- !(skeleton_path m m1) by (done || by intros b [= <-]; eauto). done.
  - split; [done|]. intros k. by rewrite HsF, Hsk.
Qed.

Lemma marks_on m x l f :
  tree_ok m -> is_Some (m !! x) -> path m (Some x) = l ++ path m (Some f) -> is_Some (m !! f) -> marks_ok m (Some f) ->
  let m' := foldl (fun m h => set_parent_next h (Some h) m) m (rev l) in
  marks_ok m' (Some x) /\ forall k, skeleton m' k = skeleton m k.
Proof.
  revert x. induction l as [|h l IH]; intros x Hm [xd Ex] Hp [fd Ef] Hk.
  { cbn. cbn [app] in Hp. rewrite (path_unfold Hm _ _ Ex), (path_unfold Hm _ _ Ef) in Hp. injection Hp as -> _. done. }
  rewrite (path_unfold Hm _ _ Ex) in Hp. cbn [app] in Hp. injection Hp as <- Hp. cbn [rev]. rewrite foldl_app. cbn [foldl].
  destruct (pprev xd) as [p|] eqn:Ep; [|rewrite (path_None Hm), (path_unfold Hm _ _ Ef) in Hp; by destruct l].
  destruct (parent_height m Hm _ _ _ Ex Ep) as (pd & Epd & _). destruct (IH p Hm ltac:(eauto) Hp ltac:(eauto) Hk) as [Hk1 Hs1].
  set (m1 := foldl _ m (rev l)) in *. destruct (skeleton_lookup m m1 x xd ltac:(done) Ex) as (xd' & Ex' & _ & _ & Ep').
  split; [|intros k; by rewrite skeleton_set_parent_next].
  eapply (marks_step_on m1 x xd' p); [eapply (skeleton_tree_ok m m1); [by intros k; rewrite Hs1|done]|done|by rewrite Ep'|done].
Qed.

(** ** The database *)

Lemma Read_other {A} (c : Codec A) t key x t' h :
  Write c t key x = Some t' -> head key <> Some 2 -> db_ReadTxIndex t' h = db_ReadTxIndex t h.
Proof.
  intros Hw Hk. rewrite !db_ReadTxIndex_view, (Write_view c t key x t' Hw), lookup_insert_ne; [done|]. intros ->. by apply Hk.
Qed.

Lemma Write_ok {A} (c : Codec A) t key x : fReadOnly t = false -> exists t', Write c t key x = Some t' /\ fReadOnly t' = false.
Proof. intros Ht. unfold Write. rewrite Ht. destruct (activeBatch t); eauto. Qed.

Lemma db_ok_ext t t' : db_ok t -> fReadOnly t' = false -> (forall h, db_ReadTxIndex t' h = db_ReadTxIndex t h) -> db_ok t'.
Proof. intros [_ Ht] Hr He. split; [done|]. intros h x Hh. rewrite He. by apply Ht. Qed.

Lemma commit_read t t' : TxnCommit t = Some t' -> fReadOnly t' = fReadOnly t /\ activeBatch t' = None /\ forall h, db_ReadTxIndex t' h = db_ReadTxIndex t h.
Proof.
  unfold TxnCommit. destruct (activeBatch t) as [batch|] eqn:Eb; [|done]. intros [= <-]. split_and!; [done..|].
  intros h. rewrite !db_ReadTxIndex_view. unfold view. by rewrite Eb.
Qed.

(** A transaction is open and nothing is written yet *)
Definition in_txn (t0 t : CTxDB) : Prop := pdb t = pdb t0 /\ is_Some (activeBatch t) /\ fReadOnly t = fReadOnly t0.

Lemma Write_txn {A} (c : Codec A) t0 t key x t' : in_txn t0 t -> Write c t key x = Some t' -> in_txn t0 t'.
Proof.
  intros (Hp & [b Hb] & Hr). unfold Write. destruct (fReadOnly t) eqn:Ef; [done|]. rewrite Hb. intros [= <-].
  split_and!; cbn; [done|eauto|congruence].
Qed.

Lemma Erase_txn t0 t key t' : in_txn t0 t -> Erase t key = Some t' -> in_txn t0 t'.
Proof.
  intros (Hp & [b Hb] & Hr). unfold Erase. destruct (fReadOnly t) eqn:Ef; [done|]. rewrite Hb. intros [= <-].
  split_and!; cbn; [done|eauto|congruence].
Qed.

Lemma write_queue_txn t0 t q t' : in_txn t0 t -> write_queue (T := leveldb_store) t q = Some t' -> in_txn t0 t'.
Proof.
  unfold write_queue. generalize (map_entries q) as l. intros l. revert t. induction l as [|e l IH]; intros t Ht; cbn [foldl]; [by intros [= <-]|].
  cbn [write_one mbind option_bind]. destruct (UpdateTxIndex (TxStore := leveldb_store) t e.1 e.2) as [t1|] eqn:E1.
  - apply IH. eapply Write_txn; [done|]. exact E1.
  - intros Hf. exfalso. clear -Hf. induction l as [|e' l IH]; [done|]. by apply IH.
Qed.

Lemma disconnect_ins_txn t0 t ins t' : in_txn t0 t -> disconnect_ins (T := leveldb_store) ins t = Some t' -> in_txn t0 t'.
Proof.
  revert t. induction ins as [|txin ins IH]; intros t Ht; cbn [disconnect_ins]; [by intros [= <-]|].
  destruct (ReadTxIndex (TxStore := leveldb_store) t (op_hash (prevout txin))) as [x|]; [|done]. cbn [mbind option_bind]. destruct (_ <=? _); [done|].
  destruct (UpdateTxIndex (TxStore := leveldb_store) t _ _) as [t1|] eqn:E1; [|done]. cbn [mbind option_bind]. apply IH. eapply Write_txn; [done|]. exact E1.
Qed.

Lemma DisconnectBlock_txn {H : HashOps} t0 b t t' : in_txn t0 t -> DisconnectBlock (T := leveldb_store) b t = Some t' -> in_txn t0 t'.
Proof.
  unfold DisconnectBlock. revert t. induction (rev (vtx b)) as [|tx txs IH]; intros t Ht; cbn [disconnect_txs]; [by intros [= <-]|].
  unfold DisconnectInputs. intros (t2 & (t1 & E1 & [= <-])%bind_Some & Hd)%bind_Some. revert Hd. apply IH.
  assert (in_txn t0 t1) as Ht1.
  { destruct (IsCoinBase tx); [by injection E1 as <-|by eapply disconnect_ins_txn]. }
  change (in_txn t0 (default t1 (Erase t1 (tx_key (CTransaction_GetHash tx))))). destruct (Erase t1 _) as [t2|] eqn:E2; [|done]. by eapply Erase_txn.
Qed.

(** ** The index as the trace of a chain *)

Section index.
Context {B : BNOps} {H : HashOps} {HL : HashLaws H} {E : ECOps} {EL : ECLaws E} {P : SecpOps} {F : Files} {G : BlockFiles}.

Abbreviation view_t := (list Z -> option CTxIndex).
Abbreviation txids := (fun b : CBlock => CTransaction_GetHash <$> vtx b).

(** The index after connecting blocks, the oldest first, to an empty one: every transaction is
    new, and spends outputs that are there and not spent *)
Inductive chain_trace : list CBlock -> view_t -> Prop :=
  | chain_nil : chain_trace [] (fun _ => None)
  | chain_snoc bs V b V' :
      chain_trace bs V -> Forall tx_ok (vtx b) -> NoDup (txids b) -> Forall (fun tx => V (CTransaction_GetHash tx) = None) (vtx b) ->
      block_trace V (vtx b) V' -> chain_trace (bs ++ [b]) V'.

Lemma chain_canonical bs V : chain_trace bs V -> all_canonical V.
Proof. induction 1; [done|by eapply trace_canonical]. Qed.

Lemma chain_dom bs V h x : chain_trace bs V -> V h = Some x -> h ∈ bs ≫= txids.
Proof.
  intros Ht. revert x. induction Ht as [|bs V b V' Ht IH Hok Hnd Hnew Hb]; [done|]. intros x Hx. rewrite bind_app, elem_of_app.
  destruct (V h) as [y|] eqn:Ey; [left; eauto|right]. cbn. rewrite app_nil_r. destruct (decide (h ∈ txids b)); [done|].
  rewrite (trace_dom V (vtx b) V' h Hb Ey) in Hx; done.
Qed.

(** Two views agree on hashes *)
Definition agree (V V' : view_t) : Prop := forall h, uint_ok WIDTH256 h -> V h = V' h.

Lemma trace_agree V txs V1 W :
  block_trace V txs V1 -> agree V W -> Forall tx_ok txs -> exists W1, block_trace W txs W1 /\ agree V1 W1.
Proof.
  intros Ht HW. induction Ht as [V1 Hc|txs V1 tx p V2 Ht IH Hf Hp Hc]; intros Hok.
  - exists W. split; [by constructor|]. intros h Hh. rewrite Hc. by apply HW.
  - apply Forall_app in Hok as [Hok [Htx _]%Forall_cons]. destruct (IH Hok) as (W1 & HW1 & Ha). exists (connected W1 tx p). split.
    + econstructor; [done| |done|done]. eapply Forall_impl; [|intros s Hs; exact Hs]. rewrite Forall_forall in Hf |- *. intros s Hs.
      destruct (Hf s Hs) as (x & q & Ex & Hq). exists x, q. split; [|done]. rewrite <- Ha by (by eapply slots_ok). done.
    + intros h Hh. rewrite Hc. unfold connected. case_decide; [done|]. by rewrite Ha.
Qed.

(** The block the index entry [h] stands for *)
Definition disk (par : Params) (m : BlockMap) (h : list Z) : option CBlock := m !! h ≫= fun nd => ReadBlock (fTestNet par) (node nd).

(** The index holds exactly what the blocks of [l], the oldest first, leave *)
Definition indexed (par : Params) (m : BlockMap) (l : list (list Z)) (t : CTxDB) : Prop :=
  db_ok t /\ exists bs V, Forall2 (fun h b => disk par m h = Some b) l bs /\ chain_trace bs V /\ agree (db_ReadTxIndex t) V.

Lemma indexed_undo par m l h t b :
  indexed par m (l ++ [h]) t -> disk par m h = Some b ->
  exists t', DisconnectBlock (T := leveldb_store) b t = Some t' /\ indexed par m l t'.
Proof.
  intros (Hs & bs & V & Hl & Ht & Ha) Hb. apply Forall2_app_inv_l in Hl as (bs1 & bs2 & Hl1 & Hl2 & ->).
  apply Forall2_cons_inv_l in Hl2 as (b' & bs3 & Hb' & Hl3 & ->). apply Forall2_nil_inv_l in Hl3 as ->. rewrite Hb in Hb'. injection Hb' as <-.
  inversion Ht as [E0|bs V0 b0 V' Ht0 Hok Hnd Hnew Htr E1 E2]; [by destruct bs1|]. apply app_inj_tail in E1 as [-> ->]. subst V'.
  destruct (undo_trace (T := leveldb_store) (L := leveldb_store_laws) V0 (vtx b) V t Htr Hs Hok (chain_canonical _ _ Ht0) Hnd Hnew Ha) as (t' & Ed & Hs' & Hr').
  exists t'. split; [done|]. split; [done|]. by exists bs1, V0.
Qed.

Lemma indexed_connect par m l h b t t' V :
  indexed par m l t -> disk par m h = Some b -> Forall tx_ok (vtx b) -> NoDup (txids b) ->
  (forall bs, Forall2 (fun h b => disk par m h = Some b) l bs -> Forall (fun tx => CTransaction_GetHash tx ∉ bs ≫= txids) (vtx b)) ->
  block_trace (db_ReadTxIndex t) (vtx b) V -> db_ok t' -> agree (db_ReadTxIndex t') V -> indexed par m (l ++ [h]) t'.
Proof.
  intros (Hs & bs & V0 & Hl & Ht & Ha) Hb Hok Hnd Hfresh Htr Hs' Ha'. split; [done|].
  destruct (trace_agree _ _ _ V0 Htr Ha Hok) as (V1 & Htr1 & Ha1). exists (bs ++ [b]), V1. split_and!.
  - apply Forall2_app; [done|]. by repeat constructor.
  - econstructor; [done..| |done]. eapply Forall_impl; [apply (Hfresh bs Hl)|]. cbn. intros tx Htx.
    destruct (V0 (CTransaction_GetHash tx)) as [x|] eqn:Ex; [|done]. destruct Htx. by eapply chain_dom.
  - intros x Hx. by rewrite Ha', Ha1.
Qed.

Lemma indexed_ext par m m' l t t' :
  indexed par m l t -> (forall h, disk par m' h = disk par m h) -> db_ok t' -> (forall h, db_ReadTxIndex t' h = db_ReadTxIndex t h) -> indexed par m' l t'.
Proof.
  intros (_ & bs & V & Hl & Ht & Ha) Hd Hs' Hr. split; [done|]. exists bs, V. split_and!; [|done|].
  - eapply Forall2_impl; [exact Hl|]. cbn. intros h b. by rewrite Hd.
  - intros h Hh. rewrite Hr. by apply Ha.
Qed.
End index.
