(* ===== verification/BestChain.v ===== *)
(** * What [SetBestChain] does to the chain

    One invariant ties the parts together: the tree is well formed, [pnext] marks the best
    chain, and the transaction index holds exactly what the blocks of that chain leave.
    [SetBestChain] moves it to the new block, or leaves it where it was. *)

From S2P Require Import Prelude Uint256 BigNum Serialize Hash Transaction Script Canonical.
From S2P Require Import Interp InterpSim Key SigCheck Templates KeyStore Scrypt Block TxRules TxDB Chain Rewards BlockRules Connect ConnectFacts BlockConnect.
From S2P Require Import MemPool BlockTree Checkpoints Kernel Reorganize ReorgFacts.

(** ** What stays the same in the map *)

Lemma fmap_rev {A C} (f : A -> C) (l : list A) : f <$> rev l = rev (f <$> l).
Proof. apply map_rev. Qed.

Definition core (m : BlockMap) (h : list Z) : option (CBlockIndex * option (list Z)) :=
  (fun nd => (with_money (node nd) 0 0, pprev nd)) <$> m !! h.
Definition same_core (m m' : BlockMap) : Prop := forall h, core m h = core m' h.
Definition same_marks (m m' : BlockMap) : Prop := forall h, pnext <$> m !! h = pnext <$> m' !! h.

#[export] Instance same_core_equiv : Equivalence same_core.
Proof. split; [done|by intros m m' Hc h|intros m1 m2 m3 H1 H2 h; by rewrite H1]. Qed.

Lemma core_lookup m m' h nd : same_core m m' -> m !! h = Some nd ->
  exists nd', m' !! h = Some nd' /\ with_money (node nd') 0 0 = with_money (node nd) 0 0 /\ pprev nd' = pprev nd.
Proof.
  intros Hc E. specialize (Hc h). unfold core in Hc. rewrite E in Hc. destruct (m' !! h) as [nd'|]; [|done]. apply (inj Some), pair_eq in Hc as [Hw Hp]. by exists nd'.
Qed.

Lemma core_skeleton m m' h : same_core m m' -> skeleton m h = skeleton m' h.
Proof.
  intros Hc. specialize (Hc h). unfold core, skeleton in *. destruct (m !! h) as [nd|], (m' !! h) as [nd'|]; [|done..].
  apply (inj Some), pair_eq in Hc as [Hw Hp]. cbn [fmap option_fmap option_map]. rewrite Hp.
  pose proof (f_equal bi_hash Hw) as Hh. pose proof (f_equal bi_nHeight Hw) as Hn. cbn in Hh, Hn. by rewrite Hh, Hn.
Qed.

Lemma core_set_parent_next m h next : same_core m (set_parent_next h next m).
Proof.
  intros k. unfold core, set_parent_next. destruct (m !! h ≫= pprev) as [p|]; [|done]. rewrite lookup_set_pnext. case_decide; [|done].
  by destruct (m !! k).
Qed.

Lemma core_fold_next m f l : same_core m (foldl (fun m h => set_parent_next h (f h) m) m l).
Proof. revert m. induction l as [|h l IH]; intros m; [done|]. cbn [foldl]. etrans; [apply core_set_parent_next|apply IH]. Qed.

Section disk.
Context {B : BNOps} {H : HashOps} {G : BlockFiles}.

Lemma core_disk par m m' h : same_core m m' -> disk par m h = disk par m' h.
Proof.
  intros Hc. specialize (Hc h). unfold core, disk in *. destruct (m !! h) as [nd|], (m' !! h) as [nd'|]; [|done..]. apply (inj Some), pair_eq in Hc as [Hw _]. cbn [mbind option_bind]. change (ReadBlock (fTestNet par) (with_money (node nd) 0 0) = ReadBlock (fTestNet par) (with_money (node nd') 0 0)).
  by rewrite Hw.
Qed.
End disk.

Lemma marks_move m m' b :
  same_core m m' -> same_marks m m' -> tree_ok m -> (forall x, b = Some x -> is_Some (m !! x)) -> marks_ok m b -> marks_ok m' b.
Proof.
  intros Hc Hs Hm Hb Hk h nd' c E'. destruct (core_lookup m' m h nd' ltac:(by symmetry) E') as (nd & Eh & _ & _).
  pose proof (Hs h) as Hn. rewrite Eh, E' in Hn. injection Hn as <-. rewrite (Hk h nd c Eh).
  rewrite (skeleton_path m m' b) by (done || (intros; by apply core_skeleton)).
  assert (Hp : forall n n' k, same_core n n' -> (exists cd, n !! c = Some cd /\ pprev cd = Some k) -> exists cd, n' !! c = Some cd /\ pprev cd = Some k).
  { intros n n' k Hnn (cd & Ec & Ep). destruct (core_lookup _ _ _ _ Hnn Ec) as (cd' & Ec' & _ & Ep'). exists cd'. by rewrite Ep'. }
  split; intros (Hin & Hex); (split; [done|]); eapply Hp; [|exact Hex| |exact Hex]; [done|by symmetry].
Qed.

(** ** The blocks of a chain, the oldest first, without the genesis block *)

Definition main_blocks (m : BlockMap) (b : option (list Z)) : list (list Z) := drop 1 (rev (path m b)).

Section blocks.
Context {m : BlockMap} (Hm : tree_ok m).

Lemma path_nonempty f fd : m !! f = Some fd -> exists l r, rev (path m (Some f)) = r :: l.
Proof.
  intros E. rewrite (path_unfold Hm _ _ E). cbn [rev]. destruct (rev (path m (pprev fd))) as [|r l]; [by exists [], f|]. by exists (l ++ [f]), r.
Qed.

Lemma main_blocks_app x l f fd :
  m !! f = Some fd -> path m (Some x) = l ++ path m (Some f) -> main_blocks m (Some x) = main_blocks m (Some f) ++ rev l.
Proof.
  intros Ef Hp. unfold main_blocks. rewrite Hp, rev_app_distr. destruct (path_nonempty f fd Ef) as (l' & r & ->). cbn [app drop]. by rewrite !drop_0.
Qed.

Lemma main_blocks_child x xd p pd :
  m !! x = Some xd -> pprev xd = Some p -> m !! p = Some pd -> main_blocks m (Some x) = main_blocks m (Some p) ++ [x].
Proof. intros Ex Ep Epd. apply (main_blocks_app x [x] p pd Epd). by rewrite (path_unfold Hm _ _ Ex), Ep. Qed.
End blocks.

(** A block between two blocks of a way is the child of the lower one *)
Lemma path_child m y l h x :
  tree_ok m -> is_Some (m !! y) -> is_Some (m !! x) -> path m (Some y) = l ++ h :: path m (Some x) ->
  exists hd, m !! h = Some hd /\ pprev hd = Some x.
Proof.
  intros Hm [yd Ey] [xd Ex] Hp. pose proof (path_spec Hm y yd Ey) as W. pose proof (path_suffix Hm _ _ _ _ Hp W) as Hs.
  rewrite Hp in W. apply is_path_app in W as (_ & hd & Eh & W). exists hd. split; [done|]. apply (path_eq Hm) in W.
  rewrite (path_unfold Hm _ _ Ex) in W. destruct (pprev hd) as [z|] eqn:Ez; [|by rewrite (path_None Hm) in W].
  destruct (parent_height m Hm _ _ _ Eh Ez) as (zd & Ezd & _). rewrite (path_unfold Hm _ _ Ezd) in W. by injection W as ->.
Qed.

(** ** What is assumed of the blocks on the disk *)

Section chain.
Context {B : BNOps} {H : HashOps} {HL : HashLaws H} {E : ECOps} {EL : ECLaws E} {P : SecpOps} {F : Files} {G : BlockFiles}.

Abbreviation on_disk par m := (Forall2 (fun h b => disk par m h = Some b)).

(** The tree is well formed, with one root; every block is at a place on the disk and its
    transactions serialize; no transaction is in two blocks of one chain *)
Record stored (par : Params) (m : BlockMap) : Prop := {
  st_tree : tree_ok m;
  st_root x y : is_Some (m !! x) -> is_Some (m !! y) -> exists r, r ∈ path m (Some x) /\ r ∈ path m (Some y);
  st_place h nd : m !! h = Some nd -> bi_nFile (node nd) <> UINT_MAX /\ fits 4 (bi_nFile (node nd)) /\ fits 4 (bi_nBlockPos (node nd));
  st_block h b : disk par m h = Some b -> cache_ok b /\ Forall tx_ok (vtx b);
  st_fresh h nd p bs b : m !! h = Some nd -> pprev nd = Some p -> on_disk par m (main_blocks m (Some p)) bs -> disk par m h = Some b ->
    Forall (fun tx => CTransaction_GetHash tx ∉ bs ≫= fun b => CTransaction_GetHash <$> vtx b) (vtx b)
}.

(** The index of transactions is that of the chain that ends in [x] *)
Record indexed_at (par : Params) (s : ChainState) (x : list Z) : Prop := {
  at_stored : stored par (mapBlockIndex s);
  at_node : is_Some (mapBlockIndex s !! x);
  at_cache : cache_valid (sigcache s);
  at_index : indexed par (mapBlockIndex s) (main_blocks (mapBlockIndex s) (Some x)) (txdb s)
}.

(** What no step but the last one of [SetBestChain] changes *)
Definition globals (s : ChainState) :=
  (pindexGenesisBlock s, pindexBest s, hashBestChain s, cs_nBestHeight s, nBestChainTrust s, setStakeSeen s, sync s).

Lemma core_path m m' x : same_core m m' -> tree_ok m -> is_Some (m !! x) -> path m' (Some x) = path m (Some x).
Proof. intros Hc Hm Hx. symmetry. apply skeleton_path; [intros; by apply core_skeleton|done|]. by intros b [= <-]. Qed.

Lemma core_dom m m' x : same_core m m' -> is_Some (m !! x) -> is_Some (m' !! x).
Proof. intros Hc [nd Ex]. destruct (core_lookup _ _ _ _ Hc Ex) as (nd' & -> & _). eauto. Qed.

Lemma core_main_blocks m m' x : same_core m m' -> tree_ok m -> is_Some (m !! x) -> main_blocks m' (Some x) = main_blocks m (Some x).
Proof. intros Hc Hm Hx. unfold main_blocks. by rewrite (core_path m m'). Qed.

Lemma on_disk_core par m m' l bs : same_core m m' -> on_disk par m l bs -> on_disk par m' l bs.
Proof. intros Hc Hl. eapply Forall2_impl; [exact Hl|]. cbn. intros h b. by rewrite (core_disk par m m' h Hc). Qed.

Lemma stored_core par m m' : same_core m m' -> stored par m -> stored par m'.
Proof.
  intros Hc [Hm Hr Hp Hb Hf]. assert (Hc' : same_core m' m) by by symmetry.
  assert (Hm' : tree_ok m') by (eapply skeleton_tree_ok; [|exact Hm]; intros h; by apply core_skeleton).
  split; [done|..].
  - intros x y Hx Hy. pose proof (core_dom _ _ _ Hc' Hx). pose proof (core_dom _ _ _ Hc' Hy). rewrite !(core_path m m') by done. by apply Hr.
  - intros h nd Eh. destruct (core_lookup _ _ _ _ Hc' Eh) as (nd' & Eh' & Hw & _). pose proof (Hp h nd' Eh') as Hq.
    change (bi_nFile (with_money (node nd) 0 0) <> UINT_MAX /\ fits 4 (bi_nFile (with_money (node nd) 0 0)) /\ fits 4 (bi_nBlockPos (with_money (node nd) 0 0))).
    by rewrite <- Hw.
  - intros h b. rewrite <- (core_disk par m m' h Hc). apply Hb.
  - intros h nd p bs b Eh Ep Hl Hd. destruct (core_lookup _ _ _ _ Hc' Eh) as (nd' & Eh' & _ & Ep'). rewrite <- (core_disk par m m' h Hc) in Hd.
    destruct (parent_height m Hm h nd' p Eh' ltac:(by rewrite Ep')) as (pd & Epd & _).
    eapply Hf; [exact Eh'|by rewrite Ep'|eapply on_disk_core; [exact Hc'|]|exact Hd]. by rewrite (core_main_blocks m m') in Hl by eauto.
Qed.

(** The index stays what it is when only marks, money and other records change *)
Lemma indexed_at_same par s s' x :
  indexed_at par s x -> same_core (mapBlockIndex s) (mapBlockIndex s') -> cache_valid (sigcache s') -> fReadOnly (txdb s') = false ->
  (forall h, db_ReadTxIndex (txdb s') h = db_ReadTxIndex (txdb s) h) -> indexed_at par s' x.
Proof.
  intros [Hs Hx Hc Hi] Hm Hc' Hro Hr. split; [by eapply stored_core|by eapply core_dom|done|].
  rewrite (core_main_blocks (mapBlockIndex s)) by (done || apply Hs). eapply indexed_ext; [exact Hi| | |exact Hr].
  - intros h. symmetry. by apply core_disk.
  - eapply db_ok_ext; [apply Hi|done|done].
Qed.

(** ** Connecting one block *)

Lemma ConnectBlock_cache par t pool i chain b c : cache_valid c -> (ConnectBlock (T := leveldb_store) par false t pool i chain b c).2 = c.
Proof.
  intros Hc. unfold ConnectBlock. destruct (CheckBlock _ _ _ _ _ _ b) as [[[]| |] b1]; [|done..].
  assert (Hn : (connect_txs (T := leveldb_store) par false t pool i chain b1 c).2 = c).
  { destruct (decide (nScriptCheckThreads par = 0)) as [H0|Hn].
    - destruct (connect_txs_threads (T := leveldb_store) 1 par false t pool i chain b1 c ltac:(done) Hc) as (Hr & _). rewrite <- H0 in Hr. by destruct par.
    - destruct (connect_txs_threads (T := leveldb_store) _ par false t pool i chain b1 c Hn Hc) as (_ & Hr & _). by destruct par. }
  by destruct (connect_txs _ _ _ _ _ _ _ _).
Qed.

Lemma ConnectBlock_done par t pool i chain b c t' i' b' c' :
  ConnectBlock (T := leveldb_store) par false t pool i chain b c = (Done (t', i'), b', c') ->
  (exists mint supply, i' = with_money i mint supply) /\ forall t0, in_txn t0 t -> in_txn t0 t'.
Proof.
  unfold ConnectBlock, connect_txs. destruct (CheckBlock _ _ _ _ _ _ b) as [[[]| |] b1]; [|done..].
  destruct (connect_loop _ _ _ _ _ _ _ _ _ _) as [[s| |] c1]; [|done..]. destruct (run_checks par (cn_vChecks s) c1) as [[] c2]; cbn [negb]; [|done].
  destruct (write_queue t (mapQueuedChanges s)) as [t1|] eqn:Ew; [|done]. intros [= <- <- _ _]. split; [by eexists _, _|].
  intros t0 Ht. by eapply write_queue_txn.
Qed.

(** What [connect_at] leaves alone, whatever its outcome *)
Definition frame (t0 : CTxDB) (s s' : ChainState) : Prop :=
  same_core (mapBlockIndex s) (mapBlockIndex s') /\ same_marks (mapBlockIndex s) (mapBlockIndex s') /\ mempool s' = mempool s /\
  sigcache s' = sigcache s /\ globals s' = globals s /\ in_txn t0 (txdb s').

Lemma frame_trans t0 s1 s2 s3 : frame t0 s1 s2 -> frame t0 s2 s3 -> frame t0 s1 s3.
Proof.
  intros (H1 & H2 & H3 & H4 & H5 & _) (K1 & K2 & K3 & K4 & K5 & K6). split_and!; [by etrans|intros h; by rewrite H2|congruence..|done].
Qed.

Lemma core_money m h nd mint supply :
  m !! h = Some nd ->
  let m' := <[h := mkNode (with_money (node nd) mint supply) (pprev nd) (pnext nd)]> m in same_core m m' /\ same_marks m m'.
Proof.
  intros Eh m'. split; intros k; unfold core, m'; destruct (decide (h = k)) as [<-|Hn];
    [rewrite lookup_insert_eq, Eh|rewrite lookup_insert_ne by done|rewrite lookup_insert_eq, Eh|rewrite lookup_insert_ne by done]; done.
Qed.

Lemma connect_at_frame par t0 s h b r b' s' :
  cache_valid (sigcache s) -> in_txn t0 (txdb s) -> connect_at par s h b = (r, b', s') -> frame t0 s s'.
Proof.
  intros Hc Ht. unfold connect_at. destruct (mapBlockIndex s !! h) as [nd|] eqn:Eh; [|by intros [= _ _ <-]].
  set (res := ConnectBlock _ _ _ _ _ _ _ _). pose proof (ConnectBlock_cache (par_at par s) (txdb s) (mapTx (mempool s)) (node nd)
    (way (mapBlockIndex s) (pprev nd)) b (sigcache s) Hc) as Hs. fold res in Hs. pose proof (ConnectBlock_done (par_at par s) (txdb s) (mapTx (mempool s)) (node nd)
    (way (mapBlockIndex s) (pprev nd)) b (sigcache s)) as Hd. fold res in Hd. destruct res as [[[[t i]| |] b1] c1]; cbn [snd] in Hs; subst c1.
  - intros [= _ _ <-]. destruct (Hd _ _ _ _ eq_refl) as ((mint & supply & ->) & Hin). destruct (core_money _ _ _ mint supply Eh) as [K1 K2].
    split_and!; [exact K1|exact K2|done..|]. by apply Hin.
  - by intros [= _ _ <-].
  - by intros [= _ _ <-].
Qed.

Lemma connect_at_done par s p h hd b0 b b' s' :
  indexed_at par s p -> mapBlockIndex s !! h = Some hd -> pprev hd = Some p -> disk par (mapBlockIndex s) h = Some b0 ->
  vtx b = vtx b0 -> cache_ok b -> connect_at par s h b = (Done tt, b', s') -> indexed_at par s' h /\ vtx b' = vtx b.
Proof.
  intros [Hs [pd Ep] Hc Hi] Eh Hp Hd Hv Hb. destruct (st_place _ _ Hs h hd Eh) as (P1 & P2 & P3). destruct (st_block _ _ Hs h b0 Hd) as [_ Htx].
  unfold connect_at. rewrite Eh. destruct (ConnectBlock _ _ _ _ _ _ _ _) as [[[[t i]| |] b1] c1] eqn:Ec; [|done..]. intros [= <- <-].
  apply (ConnectBlock_trace (T := leveldb_store) (L := leveldb_store_laws)) in Ec as (Hv' & Hnd & Hst & Hc1 & (mint & supply & ->) & V & Htr & Hr);
    [|apply Hi|done|done|by rewrite Hv|done..].
  destruct (core_money _ _ _ mint supply Eh) as [K1 _]. split; [|done].
  set (m := mapBlockIndex s) in *. set (m' := <[h := _]> m) in *.
  change (txdb (with_db _ t)) with t in *. split; cbn [mapBlockIndex sigcache txdb with_db with_map with_pool].
  - by eapply stored_core.
  - eapply core_dom; [exact K1|eauto].
  - done.
  - fold m m'. rewrite (core_main_blocks m m') by (done || eauto || apply Hs). rewrite (main_blocks_child (st_tree _ _ Hs) h hd p pd Eh Hp Ep).
    eapply indexed_ext; [|intros k; symmetry; by apply core_disk|exact Hst|reflexivity]. eapply indexed_connect; [exact Hi|exact Hd|..].
    + done.
    + by rewrite <- Hv.
    + intros bs Hbs. by eapply (st_fresh _ _ Hs).
    + rewrite <- Hv. exact Htr.
    + done.
    + exact Hr.
Qed.

(** ** [Reorganize] *)

Lemma connect_branch_spec par t0 l s x y vDelete r s' :
  indexed_at par s x -> in_txn t0 (txdb s) -> is_Some (mapBlockIndex s !! y) ->
  path (mapBlockIndex s) (Some y) = rev l ++ path (mapBlockIndex s) (Some x) ->
  connect_branch par l s vDelete = (r, s') -> frame t0 s s' /\ (forall d, r = Done d -> indexed_at par s' y).
Proof.
  revert s x vDelete. induction l as [|h l IH]; intros s x vDelete Hx Ht Hy Hp; cbn [connect_branch].
  { intros [= <- <-]. split; [done|]. intros d _. destruct Hy as [yd Ey], (at_node _ _ _ Hx) as [xd Ex]. pose proof (st_tree _ _ (at_stored _ _ _ Hx)) as Hm.
    cbn [rev app] in Hp. rewrite (path_unfold Hm _ _ Ex), (path_unfold Hm _ _ Ey) in Hp. injection Hp as -> _. done. }
  cbn [rev] in Hp. rewrite <- app_assoc in Hp. cbn [app] in Hp. pose proof (st_tree _ _ (at_stored _ _ _ Hx)) as Hm.
  destruct (path_child _ _ _ _ _ Hm Hy (at_node _ _ _ Hx) Hp) as (hd & Eh & Ehp).
  change (mapBlockIndex s !! h ≫= _) with (disk par (mapBlockIndex s) h). destruct (disk par (mapBlockIndex s) h) as [b|] eqn:Ed.
  2: { intros [= <- <-]. by split. }
  destruct (connect_at par s h b) as [[[[]| |] b1] s1] eqn:Ec; pose proof (connect_at_frame _ t0 _ _ _ _ _ _ (at_cache _ _ _ Hx) Ht Ec) as Hf.
  - destruct (connect_at_done _ _ _ _ _ _ _ _ _ Hx Eh Ehp Ed eq_refl (proj1 (st_block _ _ (at_stored _ _ _ Hx) _ _ Ed)) Ec) as [Hh _].
    intros Hr. pose proof Hf as (Hc & _ & _ & _ & _ & Ht1). apply (IH s1 h) in Hr as [Hf' Hd]; [|done|done|by eapply core_dom| ].
    + split; [by eapply frame_trans|done].
    + rewrite !(core_path _ _ _ Hc Hm) by eauto. rewrite Hp, (path_unfold Hm _ _ Eh), Ehp. done.
  - intros [= <- <-]. by split.
  - intros [= <- <-]. by split.
Qed.

(** Disconnecting cannot fail on a chain that is in the index and on the disk *)
Lemma disconnect_branch_spec par t0 l s x f vResurrect :
  indexed_at par s x -> in_txn t0 (txdb s) -> is_Some (mapBlockIndex s !! f) ->
  path (mapBlockIndex s) (Some x) = (bi_hash <$> l) ++ path (mapBlockIndex s) (Some f) ->
  Forall (fun i => exists nd, mapBlockIndex s !! bi_hash i = Some nd /\ node nd = i) l ->
  exists t txs, disconnect_branch par l (txdb s) vResurrect = Some (t, txs) /\ in_txn t0 t /\ indexed_at par (with_db s t) f.
Proof.
  revert s x vResurrect. induction l as [|i l IH]; intros s x vResurrect Hx Ht Hf Hp Hl; cbn [disconnect_branch].
  { exists (txdb s), vResurrect. split_and!; [done..|]. destruct Hf as [fd Ef], (at_node _ _ _ Hx) as [xd Ex].
    pose proof (st_tree _ _ (at_stored _ _ _ Hx)) as Hm. cbn [fmap list_fmap app] in Hp. rewrite (path_unfold Hm _ _ Ex), (path_unfold Hm _ _ Ef) in Hp.
    injection Hp as -> _. by destruct s, Hx. }
  apply Forall_cons in Hl as [(nd & Ei & En) Hl]. pose proof (st_tree _ _ (at_stored _ _ _ Hx)) as Hm. destruct (at_node _ _ _ Hx) as [xd Ex].
  cbn [fmap list_fmap app] in Hp. rewrite (path_unfold Hm _ _ Ex) in Hp. injection Hp as -> Hp. rewrite Ei in Ex. injection Ex as <-.
  destruct (pprev nd) as [p|] eqn:Ep.
  2: { destruct Hf as [fd Ef]. rewrite (path_None Hm), (path_unfold Hm _ _ Ef) in Hp. by destruct (bi_hash <$> l). }
  destruct (parent_height _ Hm _ _ _ Ei Ep) as (pd & Epd & _). pose proof (at_index _ _ _ Hx) as Hi. rewrite (main_blocks_child Hm _ _ _ _ Ei Ep Epd) in Hi.
  assert (exists b, disk par (mapBlockIndex s) (bi_hash i) = Some b) as [b Ed].
  { destruct Hi as (_ & bs & V & Hb & _). apply Forall2_app_inv_l in Hb as (bs1 & bs2 & _ & Hb & _). apply Forall2_cons_inv_l in Hb as (b & ? & Hb & _). eauto. }
  destruct (indexed_undo _ _ _ _ _ _ Hi Ed) as (t1 & E1 & Hi1). unfold disk in Ed. rewrite Ei in Ed. cbn [mbind option_bind] in Ed. rewrite En in Ed.
  rewrite Ed. cbn [mbind option_bind]. rewrite E1. cbn [mbind option_bind].
  destruct (IH (with_db s t1) p (resurrectable par i b ++ vResurrect)) as (t & txs & Hd & Ht' & Hx'); [|by eapply DisconnectBlock_txn|done|done|done|].
  - destruct Hx as [Hs _ Hc _]. split; [done|eauto|done|done].
  - exists t, txs. split_and!; [done..|]. exact Hx'.
Qed.

Lemma AcceptToMemoryPool_cache par fLimited t chain p tx c r p' c' :
  cache_valid c -> AcceptToMemoryPool par fLimited t chain p tx c = (r, p', c') -> cache_valid c'.
Proof.
  intros Hc. unfold AcceptToMemoryPool. destruct (CheckTransaction (now par) tx); [|by intros [= _ _ <-]].
  destruct (IsCoinBase tx) eqn:Ecb; [by intros [= _ _ <-]|]. destruct (IsCoinStake tx); [by intros [= _ _ <-]|].
  destruct (_ && _); [by intros [= _ _ <-]|]. destruct (pool_exists _ _); [by intros [= _ _ <-]|]. destruct (existsb _ _); [by intros [= _ _ <-]|].
  destruct (db_ContainsTx _ _); [by intros [= _ _ <-]|]. destruct (FetchInputs _ _ _ _ _ _) as [inputs|[]]; [|by intros [= _ _ <-]..].
  assert (cache_valid (accept_inputs par fLimited t chain tx inputs c).2) as Ha.
  { unfold accept_inputs. destruct (AreInputsStandard par tx inputs c) as [[st c1]|] eqn:Es; [|done].
    apply inputs_standard_cache in Es as Hc1; [|done]. repeat (case_goal; [done|]). destruct (GetValueIn tx inputs), (GetValueOut tx); [|done..].
    set (m := mkMode _ _ _ _ _). repeat (case_goal; [done|]).
    destruct (ConnectInputs_done (T := leveldb_store) par m t tx inputs ∅ POOL_POS chain c1 Ecb Hc1) as (Hv & _).
    by destruct (ConnectInputs _ _ _ _ _ _ _ _ _) as [[| |] c2]. }
  destruct (accept_inputs _ _ _ _ _ _ _) as [[] c1]; by intros [= _ _ <-].
Qed.

Lemma resurrect_spec par fLimited txs s r s' :
  cache_valid (sigcache s) -> resurrect par fLimited txs s = (r, s') ->
  cache_valid (sigcache s') /\ s' = with_pool s (mempool s') (sigcache s').
Proof.
  revert s. induction txs as [|tx txs IH]; intros s Hc; cbn [resurrect].
  { intros [= _ <-]. split; [done|]. by destruct s. }
  destruct (AcceptToMemoryPool _ _ _ _ _ _ _) as [[[] p] c] eqn:Ea; apply AcceptToMemoryPool_cache in Ea; [|done| |done| |done].
  - intros Hr. by apply IH in Hr.
  - intros Hr. by apply IH in Hr.
  - intros [= _ <-]. done.
Qed.

(** The best chain of [s] ends in [x]: marks and index, nothing pending *)
Record chain_at (par : Params) (s : ChainState) (x : list Z) : Prop := {
  ca_index : indexed_at par s x;
  ca_marks : marks_ok (mapBlockIndex s) (Some x);
  ca_idle : activeBatch (txdb s) = None
}.

Lemma commit_best par s x hash t t' :
  indexed_at par s x -> in_txn t (txdb s) -> WriteHashBestChain (txdb s) hash ≫= TxnCommit = Some t' ->
  activeBatch t' = None /\ fReadOnly t' = false /\ forall h, db_ReadTxIndex t' h = db_ReadTxIndex (txdb s) h.
Proof.
  intros Hx Ht (t1 & Hw & Hc)%bind_Some. destruct (commit_read _ _ Hc) as (R1 & R2 & R3). split_and!; [done| |].
  - rewrite R1. pose proof (proj1 (proj1 (at_index _ _ _ Hx))) as Hro. unfold WriteHashBestChain, Write in Hw. rewrite Hro in Hw. case_hyp Hw; by injection Hw as <-.
  - intros h. rewrite R3. eapply Read_other; [exact Hw|]. by vm_compute.
Qed.

Lemma marks_same_path m m' x :
  same_core m m' -> same_marks m m' -> tree_ok m -> is_Some (m !! x) -> marks_ok m (Some x) -> marks_ok m' (Some x).
Proof. intros Hc Hs Hm Hx. apply marks_move; [done..|]. by intros ? [= <-]. Qed.

Lemma fold_fmap_next m (l : list CBlockIndex) :
  foldl (fun m i => set_parent_next (bi_hash i) None m) m l = foldl (fun m h => set_parent_next h None m) m (bi_hash <$> l).
Proof. revert m. induction l as [|i l IH]; intros m; [done|]. apply IH. Qed.

Lemma branch_nodes (m : BlockMap) f l :
  Forall (fun i => exists nd, m !! bi_hash i = Some nd /\ node nd = i) l -> Forall (fun i => exists nd, m !! bi_hash i = Some nd /\ node nd = i) (branch f l).
Proof. induction 1 as [|i l Hi Hl IH]; cbn [branch]; [constructor|]. case_goal; [constructor|by constructor]. Qed.

Lemma Reorganize_spec par fLimited t0 s old new r s' :
  indexed_at par s old -> marks_ok (mapBlockIndex s) (Some old) -> pindexBest s = Some old -> in_txn t0 (txdb s) ->
  is_Some (mapBlockIndex s !! new) -> Reorganize par fLimited s new = (r, s') ->
  match r with
  | Done _ => chain_at par s' new /\ globals s' = globals s /\ same_core (mapBlockIndex s) (mapBlockIndex s')
  | Fail _ => frame t0 s s'
  | Throws => True
  end.
Proof.
  intros Ho Hk Hb Ht Hn. pose proof (st_tree _ _ (at_stored _ _ _ Ho)) as Hm. destruct (at_node _ _ _ Ho) as [od Eo], Hn as [nd En].
  destruct (st_root _ _ (at_stored _ _ _ Ho) old new ltac:(eauto) ltac:(eauto)) as (root & Hr1 & Hr2).
  destruct (find_fork_spec Hm old od new nd root Eo En Hr1 Hr2) as (f & Ef & Hf1 & Hf2 & _). unfold Reorganize. rewrite Hb, Ef.
  pose proof (branch_path Hm _ _ _ Eo Hf1) as Hp1. pose proof (branch_path Hm _ _ _ En Hf2) as Hp2.
  destruct (path_elem Hm (Some old) f ltac:(intros ? [= <-]; eauto) Hf1) as (fd & _ & Efd & _).
  set (vD := branch f (way (mapBlockIndex s) (Some old))) in *. set (vC := branch f (way (mapBlockIndex s) (Some new))) in *.
  destruct (disconnect_branch_spec par t0 vD s old f [] Ho Ht ltac:(eauto) Hp1) as (t & txs & -> & Ht1 & Hf).
  { apply branch_nodes. apply (way_nodes Hm). }
  destruct (connect_branch par (bi_hash <$> rev vC) (with_db s t) []) as [[vDelete| |] s1] eqn:Ec;
    (apply (connect_branch_spec par t0 _ _ f new) in Ec as [Hfr Hd]; [|done|done|by eauto|by rewrite fmap_rev, rev_involutive]).
  2: { by intros [= <- <-]. }
  2: { by intros [= <- <-]. }
  specialize (Hd vDelete eq_refl). pose proof Hfr as (K1 & K2 & _ & K4 & K5 & K6). cbn [mapBlockIndex with_db] in K1, K2, K4, K5.
  destruct (WriteHashBestChain (txdb s1) new ≫= TxnCommit) as [t2|] eqn:Ew; [|by intros [= <- <-]].
  destruct (commit_best _ _ _ _ _ _ Hd K6 Ew) as (C1 & C2 & C3). rewrite fold_fmap_next. set (m1 := foldl _ (mapBlockIndex s1) _). set (m2 := foldl _ m1 _).
  assert (Hc1 : same_core (mapBlockIndex s1) m1) by apply core_fold_next. assert (Hc2 : same_core m1 m2) by apply core_fold_next.
  pose proof (st_tree _ _ (at_stored _ _ _ Hd)) as Hm1. assert (Htree1 : tree_ok m1) by (eapply st_tree, stored_core; [exact Hc1|apply Hd]).
  assert (Hdom : forall z, is_Some (mapBlockIndex s !! z) -> is_Some (mapBlockIndex s1 !! z)) by (intros z; by apply core_dom).
  assert (Hdom1 : forall z, is_Some (mapBlockIndex s !! z) -> is_Some (m1 !! z)) by (intros z Hz; by eapply core_dom, Hdom).
  assert (marks_ok m1 (Some f)) as Hmk1.
  { apply (marks_back (mapBlockIndex s1) old (bi_hash <$> vD) f); [done|eauto| |eauto|].
    - by rewrite !(core_path _ _ _ K1 Hm) by eauto.
    - eapply (marks_same_path (mapBlockIndex s)); eauto. }
  assert (marks_ok m2 (Some new)) as Hmk2.
  { unfold m2. rewrite fmap_rev. apply (marks_on m1 new (bi_hash <$> vC) f); [done|eauto| |eauto|done].
    rewrite !(core_path _ _ _ Hc1 Hm1) by eauto. by rewrite !(core_path _ _ _ K1 Hm) by eauto. }
  destruct (resurrect par fLimited txs _) as [[] s2] eqn:Er; apply resurrect_spec in Er as [Hc3 Hs2]; [|apply Hd| |apply Hd]; [|by intros [= <- <-]].
  intros [= <- <-]. rewrite Hs2. cbn [sigcache mempool with_pool with_map with_db]. split_and!.
  - split; cbn [mapBlockIndex txdb with_pool with_map with_db]; [|done..].
    eapply indexed_at_same; [exact Hd|cbn; by etrans|done|done|done].
  - unfold globals. exact K5.
  - cbn. etrans; [exact K1|]. by etrans.
Qed.

(** ** [SetBestChainInner] *)

Lemma abort_txn t0 t : in_txn t0 t -> activeBatch t0 = None -> TxnAbort t = t0.
Proof. intros (Hp & _ & Hr) Hb. unfold TxnAbort. rewrite Hp, Hr, <- Hb. by destruct t0. Qed.

Lemma begin_txn t t' : TxnBegin t = Some t' -> in_txn t t' /\ activeBatch t = None /\ forall h, db_ReadTxIndex t' h = db_ReadTxIndex t h.
Proof.
  unfold TxnBegin. destruct (activeBatch t) eqn:Eb; [done|]. intros [= <-]. split_and!; [by split_and!|done|].
  intros h. rewrite !db_ReadTxIndex_view. unfold view. by rewrite Eb.
Qed.

(** After a failure: the batch is dropped and the invalid trust noted *)
Lemma chain_restored par s s' p h t0 :
  indexed_at par s p -> marks_ok (mapBlockIndex s) (Some p) -> activeBatch t0 = None ->
  in_txn t0 (txdb s) -> fReadOnly t0 = false -> (forall h, db_ReadTxIndex t0 h = db_ReadTxIndex (txdb s) h) -> frame t0 s s' ->
  let s2 := InvalidChainFound (with_db s' (TxnAbort (txdb s'))) h in
  chain_at par s2 p /\ globals s2 = globals s /\ mempool s2 = mempool s /\ same_core (mapBlockIndex s) (mapBlockIndex s2).
Proof.
  intros Hp Hk Hi Ht Hro Hr (K1 & K2 & K3 & K4 & K5 & K6). rewrite (abort_txn _ _ K6 Hi).
  assert (Hs : forall t tr, activeBatch t = None -> fReadOnly t = false -> (forall h, db_ReadTxIndex t h = db_ReadTxIndex t0 h) ->
    chain_at par (with_best_invalid (with_db s' t0) tr t) p).
  { intros t tr E1 E2 E3. split; cbn [mapBlockIndex txdb with_best_invalid with_db]; [|by eapply marks_same_path; [..|exact Hk]; [done|done|apply Hp|apply Hp]|done].
    eapply indexed_at_same; [exact Hp|done|cbn; rewrite K4; apply Hp|done|]. intros k. cbn. by rewrite E3. }
  cbv zeta. unfold InvalidChainFound. cbn [mapBlockIndex with_db nBestInvalidTrust txdb]. case_goal.
  - split_and!; [|done..]. destruct (WriteBestInvalidTrust t0 _) as [t1|] eqn:Ew; cbn [default]; [|by apply Hs].
    assert (activeBatch t1 = None /\ fReadOnly t1 = false) as [E1 E2].
    { unfold WriteBestInvalidTrust, Write in Ew. rewrite Hi, Hro in Ew. by injection Ew as <-. }
    apply Hs; [done..|]. intros k. eapply Read_other; [exact Ew|]. by vm_compute.
  - split_and!; [|done..]. specialize (Hs t0 (nBestInvalidTrust s') Hi Hro ltac:(done)). by destruct s'.
Qed.

Lemma SetBestChainInner_spec par t0 s p h hd b0 b r b' s' :
  indexed_at par s p -> marks_ok (mapBlockIndex s) (Some p) -> TxnBegin t0 = Some (txdb s) ->
  mapBlockIndex s !! h = Some hd -> pprev hd = Some p -> disk par (mapBlockIndex s) h = Some b0 -> vtx b = vtx b0 -> cache_ok b ->
  SetBestChainInner par s h b = (r, b', s') ->
  globals s' = globals s /\
  match r with
  | Done _ => chain_at par s' h /\ same_core (mapBlockIndex s) (mapBlockIndex s')
  | Fail _ => chain_at par s' p /\ mempool s' = mempool s /\ same_core (mapBlockIndex s) (mapBlockIndex s')
  | Throws => True
  end.
Proof.
  intros Hp Hk Hb Eh Ep Hd Hv Hc. destruct (begin_txn _ _ Hb) as (Ht & Hi & Hrd). pose proof (at_index _ _ _ Hp) as [[Hro _] _].
  assert (Hro0 : fReadOnly t0 = false) by (destruct Ht as (_ & _ & Hr0); congruence).
  pose proof (chain_restored par s) as Hres. unfold SetBestChainInner. destruct (GetHash_spec b Hc) as (_ & Hc' & _ & Hv').
  destruct (CBlock_GetHash b) as [hash b1]. cbn [snd] in Hc', Hv'.
  destruct (connect_at par s h b1) as [[[[]|n|] b2] s1] eqn:Ec; pose proof (connect_at_frame _ t0 _ _ _ _ _ _ (at_cache _ _ _ Hp) Ht Ec) as Hf.
  - destruct (connect_at_done _ _ _ _ _ _ _ _ _ Hp Eh Ep Hd ltac:(by rewrite Hv') Hc' Ec) as [Hh _]. pose proof Hf as (K1 & K2 & K3 & K4 & K5 & K6).
    destruct (WriteHashBestChain (txdb s1) hash) as [t1|] eqn:Ew.
    2: { unfold WriteHashBestChain, Write in Ew. rewrite (proj1 (proj1 (at_index _ _ _ Hh))) in Ew. by destruct (activeBatch (txdb s1)). }
    destruct (TxnCommit t1) as [t2|] eqn:Ect.
    2: { destruct (Write_txn _ _ _ _ _ _ K6 Ew) as (_ & [batch Hbt] & _). unfold TxnCommit in Ect. by rewrite Hbt in Ect. }
    destruct (commit_best par s1 h hash t0 t2 Hh K6) as (C1 & C2 & C3); [by rewrite Ew|].
    intros [= <- <- <-]. cbn [mempool with_map with_db sigcache]. split; [exact K5|]. pose proof (st_tree _ _ (at_stored _ _ _ Hp)) as Hm.
    split; [|cbn; etrans; [exact K1|apply core_set_parent_next]].
    split; cbn [mapBlockIndex txdb with_pool with_map with_db]; [| |done].
    + eapply indexed_at_same; [exact Hh|apply core_set_parent_next|apply Hh|done|done].
    + destruct (core_lookup _ _ _ _ K1 Eh) as (hd' & Eh' & _ & Ep'). eapply (marks_step_on _ h hd' p); [apply Hh|done|by rewrite Ep'|].
      eapply marks_same_path; [exact K1|exact K2|done|apply Hp|done].
  - intros [= <- <- <-]. edestruct Hres as (R1 & R2 & R3 & R4); [exact Hp|exact Hk|exact Hi|exact Ht|exact Hro0|done|exact Hf|].
    split_and!; done.
  - intros [= <- <- <-]. split; [|done]. apply Hf.
Qed.

(** ** The blocks connected after the switch *)

Lemma postpone_spec m best h hd :
  tree_ok m -> m !! h = Some hd ->
  exists l i, postpone best (way m (Some h)) = (l, Some i) /\ is_Some (m !! bi_hash i) /\
    path m (Some h) = (bi_hash <$> l) ++ path m (Some (bi_hash i)).
Proof.
  intros Hm. remember (Z.to_nat (bi_nHeight (node hd))) as n eqn:En. revert h hd En. induction n as [n IH] using lt_wf_ind. intros h hd -> Eh.
  assert (Hself : exists l i, ([], Some (node hd)) = (l, Some i) /\ is_Some (m !! bi_hash i) /\ path m (Some h) = (bi_hash <$> l) ++ path m (Some (bi_hash i))).
  { exists [], (node hd). rewrite (node_hash m Hm _ _ Eh). split_and!; [done|eauto|done]. }
  rewrite (way_unfold Hm _ _ Eh). destruct (pprev hd) as [p|] eqn:Ep.
  2: { unfold way. destruct (base.size m); exact Hself. }
  destruct (parent_height m Hm _ _ _ Eh Ep) as (pd & Epd & Hh). pose proof (node_height m Hm _ _ Epd).
  destruct (IH (Z.to_nat (bi_nHeight (node pd)))) with (h := p) (hd := pd) as (l & i & El & Hi & Hp); [lia|done..|].
  rewrite (way_unfold Hm _ _ Epd) in El |- *. cbn [postpone] in El |- *. destruct (op_gt (bi_nChainTrust (node pd)) best); [|exact Hself].
  cbn [postpone]. rewrite El. exists (node hd :: l), i. split_and!; [done..|]. rewrite (path_unfold Hm _ _ Eh), Ep, Hp. cbn [fmap list_fmap app].
  by rewrite (node_hash m Hm _ _ Eh).
Qed.

Lemma connect_further_spec par l s x y r s' :
  chain_at par s x -> is_Some (mapBlockIndex s !! y) -> path (mapBlockIndex s) (Some y) = rev l ++ path (mapBlockIndex s) (Some x) ->
  connect_further par l s = (r, s') ->
  globals s' = globals s /\
  match r with
  | Done all => same_core (mapBlockIndex s) (mapBlockIndex s') /\
      exists z, chain_at par s' z /\ z ∈ path (mapBlockIndex s') (Some y) /\ (all = true <-> z = y)
  | Fail _ => False
  | Throws => True
  end.
Proof.
  revert s x. induction l as [|h l IH]; intros s x Hx Hy Hp; cbn [connect_further]; pose proof (st_tree _ _ (at_stored _ _ _ (ca_index _ _ _ Hx))) as Hm;
    pose proof (at_node _ _ _ (ca_index _ _ _ Hx)) as [xd Ex]; destruct Hy as [yd Ey].
  { intros [= <- <-]. cbn [rev app] in Hp. rewrite (path_unfold Hm _ _ Ex), (path_unfold Hm _ _ Ey) in Hp. injection Hp as -> _.
    split_and!; [done..|]. exists x. rewrite (path_unfold Hm _ _ Ex). split_and!; [done|left|done]. }
  assert (Hxy : x ∈ path (mapBlockIndex s) (Some y)).
  { rewrite Hp, (path_unfold Hm _ _ Ex). apply elem_of_app. right. left. }
  assert (Hne : x <> y).
  { intros ->. apply (f_equal length) in Hp. rewrite length_app, length_rev in Hp. cbn [length] in Hp. lia. }
  assert (Hstop : forall s2, chain_at par s2 x -> same_core (mapBlockIndex s) (mapBlockIndex s2) ->
    exists z, chain_at par s2 z /\ z ∈ path (mapBlockIndex s2) (Some y) /\ (false = true <-> z = y)).
  { intros s2 H2 Hc. exists x. rewrite (core_path _ _ _ Hc Hm) by eauto. split_and!; [done..|]. by split. }
  cbn [rev] in Hp. rewrite <- app_assoc in Hp. cbn [app] in Hp.
  destruct (path_child _ y _ _ x Hm ltac:(eauto) ltac:(eauto) Hp) as (hd & Eh & Ehp).
  change (mapBlockIndex s !! h ≫= _) with (disk par (mapBlockIndex s) h). destruct (disk par (mapBlockIndex s) h) as [b|] eqn:Ed.
  2: { intros [= <- <-]. split_and!; [done..|]. by apply Hstop. }
  unfold TxnBegin. rewrite (ca_idle _ _ _ Hx). set (t := mkTxDB _ _ _). assert (Hb : TxnBegin (txdb s) = Some t) by (unfold TxnBegin; by rewrite (ca_idle _ _ _ Hx)).
  destruct (begin_txn _ _ Hb) as (Ht & _ & Hrd). destruct (SetBestChainInner par (with_db s t) h b) as [[r1 b1] s1] eqn:Ei.
  apply (SetBestChainInner_spec par (txdb s) (with_db s t) x h hd b b) in Ei as [Hg Ho].
  - destruct r1 as [[]|n|].
    + destruct Ho as [Hh Hc]. cbn [mapBlockIndex with_db] in Hc. intros Hr. apply (IH s1 h) in Hr as [Hg' Hr]; [|done|eapply core_dom; [exact Hc|eauto]| ].
      * split; [by rewrite Hg'|]. destruct r as [all| |]; [|done..]. destruct Hr as [Hc' Hr]. split; [by etrans|done].
      * rewrite !(core_path _ _ _ Hc Hm) by eauto. by rewrite Hp, (path_unfold Hm _ _ Eh), Ehp.
    + destruct Ho as (Hh & _ & Hc). intros [= <- <-]. split_and!; [done..|]. by apply Hstop.
    + by intros [= <- <-].
  - eapply indexed_at_same; [apply Hx|done|apply Hx| |done]. cbn. apply (at_index _ _ _ (ca_index _ _ _ Hx)).
  - apply Hx.
  - done.
  - done.
  - done.
  - done.
  - done.
  - by apply (st_block _ _ (at_stored _ _ _ (ca_index _ _ _ Hx)) h).
Qed.

(** ** The branches of [SetBestChain] *)

Lemma begin_open par s x : chain_at par s x -> exists t, TxnBegin (txdb s) = Some t /\ indexed_at par (with_db s t) x.
Proof.
  intros [Hx _ Hi]. unfold TxnBegin. rewrite Hi. eexists. split; [done|]. eapply indexed_at_same; [exact Hx|done|apply Hx|apply (at_index _ _ _ Hx)|].
  intros h. cbn [txdb with_db]. rewrite !db_ReadTxIndex_view. unfold view. by rewrite Hi.
Qed.

Lemma switch_chain_spec par fLimited s t best h hd b r b' s' :
  chain_at par s best -> pindexBest s = Some best -> hashBestChain s = best -> pindexGenesisBlock s <> None -> TxnBegin (txdb s) = Some t ->
  mapBlockIndex s !! h = Some hd -> pprev hd = Some (hashPrevBlock b) -> cache_ok b -> disk par (mapBlockIndex s) h = Some b ->
  switch_chain par fLimited (with_db s t) h h b = (r, b', s') ->
  match r with
  | Done all => same_core (mapBlockIndex s) (mapBlockIndex s') /\
      exists z, chain_at par s' z /\ z ∈ path (mapBlockIndex s') (Some h) /\ (all = true <-> z = h)
  | Fail _ => chain_at par s' best /\ globals s' = globals s /\ mempool s' = mempool s
  | Throws => True
  end.
Proof.
  intros Hs Hb Hhb Hg Hbt Eh Ep Hc Hd. pose proof (ca_index _ _ _ Hs) as Hx. pose proof (st_tree _ _ (at_stored _ _ _ Hx)) as Hm.
  destruct (begin_open _ _ _ Hs) as (t' & Hbt' & Hxt). rewrite Hbt in Hbt'. injection Hbt' as <-.
  unfold switch_chain. cbn [pindexGenesisBlock hashBestChain pindexBest mapBlockIndex with_db].
  rewrite bool_decide_eq_false_2 by done. cbn [andb]. rewrite Hhb, Hb.
  destruct (parent_height _ Hm _ _ _ Eh Ep) as (pd & Epd & _). destruct (at_node _ _ _ Hx) as [bd Ebd].
  destruct (node_uint _ Hm _ _ Epd) as [L1 _]. destruct (node_uint _ Hm _ _ Ebd) as [L2 _]. rewrite op_eq_spec by congruence. case_bool_decide as Hpb.
  - destruct (SetBestChainInner par (with_db s t) h b) as [[r1 b1] s1] eqn:Ei.
    apply (SetBestChainInner_spec par (txdb s) (with_db s t) best h hd b b) in Ei as [Hgl Ho]; [|done|apply Hs|done|done|by rewrite Ep, Hpb|done..].
    destruct r1 as [[]|n|]; intros [= <- <- <-]; [|destruct Ho as (Ho & Hp & _); by split_and!|done].
    destruct Ho as [Ho Hcore]. split; [done|]. exists h. split_and!; [done| |done].
    rewrite (core_path _ _ _ Hcore Hm) by eauto. cbn [mapBlockIndex with_db]. rewrite (path_unfold Hm _ _ Eh). left.
  - destruct (postpone_spec _ (trust_of (mapBlockIndex s) best) h hd Hm Eh) as (l & i & -> & Hi & Hp).
    destruct (Reorganize par fLimited (with_db s t) (bi_hash i)) as [r1 s1] eqn:Er. destruct (begin_txn _ _ Hbt) as (Ht & Hidle & Hrd).
    apply (Reorganize_spec par fLimited (txdb s) (with_db s t) best (bi_hash i)) in Er; [|done|apply Hs|done|done|done]. destruct r1 as [[]|n|]; [| |by intros [= <- <- <-]].
    + destruct Er as (Hi1 & Hg1 & Hcore). cbn [mapBlockIndex with_db] in Hcore. destruct (connect_further par (bi_hash <$> rev l) s1) as [r2 s2] eqn:Ef.
      apply (connect_further_spec par _ s1 (bi_hash i) h) in Ef as [_ Hr];
        [|done|by eapply core_dom; eauto|rewrite fmap_rev, rev_involutive; by rewrite !(core_path _ _ _ Hcore Hm) by eauto].
      intros [= <- <- <-]. destruct r2 as [all| |]; [|done..]. destruct Hr as [Hc2 Hr]. split; [by etrans|done].
    + intros [= <- <- <-]. destruct (chain_restored par (with_db s t) s1 best h (txdb s)) as (R1 & R2 & R3 & _); try done.
      * apply Hs.
      * apply (at_index _ _ _ Hx).
Qed.

Lemma SetBestChain_spec par fLimited s best h hd b r b' s' :
  chain_at par s best -> pindexBest s = Some best -> hashBestChain s = best -> pindexGenesisBlock s <> None ->
  mapBlockIndex s !! h = Some hd -> pprev hd = Some (hashPrevBlock b) -> cache_ok b -> (CBlock_GetHash b).1 = h ->
  disk par (mapBlockIndex s) h = Some (CBlock_GetHash b).2 ->
  SetBestChain par fLimited s h b = (r, b', s') ->
  match r with
  | Done all =>
      pindexBest s' = Some h /\ hashBestChain s' = h /\ cs_nBestHeight s' = bi_nHeight (node hd) /\ nBestChainTrust s' = bi_nChainTrust (node hd) /\
      exists z, chain_at par s' z /\ z ∈ path (mapBlockIndex s') (Some h) /\ (all = true <-> z = h)
  | Fail _ => chain_at par s' best /\ globals s' = globals s /\ mempool s' = mempool s
  | Throws => True
  end.
Proof.
  intros Hs Hb Hhb Hg Eh Ep Hc Hh Hd. pose proof (ca_index _ _ _ Hs) as Hx. pose proof (st_tree _ _ (at_stored _ _ _ Hx)) as Hm.
  destruct (begin_open _ _ _ Hs) as (t & Hbt & Hxt). unfold SetBestChain. rewrite Hbt.
  destruct (GetHash_spec b Hc) as (_ & Hc' & Hhd & _). destruct (CBlock_GetHash b) as [hash b1]. cbn [fst snd] in *. subst hash.
  assert (hashPrevBlock b1 = hashPrevBlock b) as Hprev by (unfold block_header in Hhd; congruence).
  destruct (switch_chain par fLimited (with_db s t) h h b1) as [[r1 b2] s1] eqn:Es.
  apply (switch_chain_spec par fLimited s t best h hd b1) in Es; [|done..|by rewrite Hprev|done|done].
  destruct r1 as [all|n|].
  - intros [= <- <- <-]. destruct Es as (Hcore & z & Hz & Hzp & Hall). destruct (core_lookup _ _ _ _ Hcore Eh) as (hd' & Eh' & Hw & _).
    unfold new_best, trust_of. cbn [pindexBest hashBestChain cs_nBestHeight nBestChainTrust]. rewrite Eh'.
    pose proof (f_equal bi_nHeight Hw) as Hn. pose proof (f_equal bi_nChainTrust Hw) as Ht. cbn in Hn, Ht. split_and!; [done..|].
    exists z. split; [|done]. destruct Hz as [[Z1 Z2 Z3 Z4] Z5 Z6]. by split.
  - by intros [= <- <- <-].
  - by intros [= <- <- <-].
Qed.

(** ** Claim *)

(** C3: what [SetBestChain] does to a chain whose marks and index of transactions are
    those of the best block.  When it reports success the best block is the new one, and
    if all the postponed blocks were connected marks and index are those of the new block;
    when one of them failed they are those of a block before it, though the new one is
    recorded as the best.  When it reports failure the best block, the marks, the index
    and the memory pool are what they were.  But for an exception no batch is left
    pending. *)
Theorem set_best_chain par fLimited s best h hd b r b' s' :
  chain_at par s best -> pindexBest s = Some best -> hashBestChain s = best -> pindexGenesisBlock s <> None ->
  mapBlockIndex s !! h = Some hd -> pprev hd = Some (hashPrevBlock b) -> cache_ok b -> (CBlock_GetHash b).1 = h ->
  disk par (mapBlockIndex s) h = Some (CBlock_GetHash b).2 ->
  SetBestChain par fLimited s h b = (r, b', s') ->
  match r with
  | Done all =>
      pindexBest s' = Some h /\ hashBestChain s' = h /\ cs_nBestHeight s' = bi_nHeight (node hd) /\ nBestChainTrust s' = bi_nChainTrust (node hd) /\
      exists z, chain_at par s' z /\ z ∈ path (mapBlockIndex s') (Some h) /\ (all = true <-> z = h)
  | Fail _ => chain_at par s' best /\ globals s' = globals s /\ mempool s' = mempool s
  | Throws => True
  end.
Proof. apply SetBestChain_spec. Qed.
End chain.

(** ** Witness: a block on top of the genesis block *)

(** Digests that are all zero, so that the hash of a block is known without its rounds *)
#[local] Instance zero_hash : HashOps := {| SHA1 _ := replicate 20 0; SHA256 _ := replicate 32 0; RIPEMD160 _ := replicate 20 0 |}.
#[local] Instance zero_hash_laws : HashLaws zero_hash.
Proof. split; intros; (split; [done|]); by vm_compute; repeat constructor. Qed.

Lemma zero_blockhash input : scrypt_blockhash (H := zero_hash) input = toy_hash_of 0.
Proof.
  unfold scrypt_blockhash, scrypt_nosalt. generalize (limb_bytes (scrypt_core (limbs_of_bytes 32 (PBKDF2_SHA256 (take 80 input) (take 80 input) 1 128)))).
  intros X. reflexivity.
Qed.

Definition first_block : CBlock :=
  mkBlock 4 (toy_hash_of 1) (toy_hash_of 0) 1600000000 0x1e0fffff 7 [lone_coinbase] [] [] (toy_hash_of 0) true.
#[local] Instance first_files : BlockFiles := {| read_block f p := if (f =? 1) && (p =? 0) then Some first_block else None |}.

Definition first_index : CBlockIndex :=
  mkIndex (toy_hash_of 0) 1 0 (toy_hash_of 2) 1 0 0 0 0 0 COutPoint_null 0 (toy_hash_of 0) 4 (toy_hash_of 0) 1600000000 0x1e0fffff 7.
Definition genesis_index : CBlockIndex := toy_index 1 0 1590000000 4 0.
Definition first_tree : BlockMap :=
  <[toy_hash_of 0 := mkNode first_index (Some (toy_hash_of 1)) None]> (<[toy_hash_of 1 := mkNode genesis_index None None]> ∅).
Definition first_state : ChainState :=
  mkChain first_tree (Some (toy_hash_of 1)) (Some (toy_hash_of 1)) (toy_hash_of 1) 0 (toy_hash_of 1) (toy_hash_of 0) ∅ (mkTxDB ∅ None false)
    (mkPool ∅ ∅ 0) empty_cache (mkSync (toy_hash_of 1) (toy_hash_of 0) CSyncCheckpoint_null CSyncCheckpoint_null (toy_hash_of 0) 0).

Definition first_step := SetBestChain (B := ZBN) (H := zero_hash) (E := toy_ec) (P := no_secp) (F := toy_files) (G := first_files)
  toy_params false first_state (toy_hash_of 0) first_block.

Lemma first_step_done : first_step.1.1 = Done true.
Proof. vm_compute. reflexivity. Qed.

Lemma first_tree_ok : tree_ok first_tree.
Proof. apply tree_check_ok. vm_compute. reflexivity. Qed.

Lemma first_lookup h nd : first_tree !! h = Some nd ->
  h = toy_hash_of 0 /\ nd = mkNode first_index (Some (toy_hash_of 1)) None \/ h = toy_hash_of 1 /\ nd = mkNode genesis_index None None.
Proof.
  unfold first_tree. intros [[<- <-]|[_ [[<- <-]|[_ Hn]]%lookup_insert_Some]]%lookup_insert_Some; [by left|by right|]. by rewrite lookup_empty in Hn.
Qed.

Lemma first_disk h b : disk toy_params first_tree h = Some b -> h = toy_hash_of 0 /\ b = first_block.
Proof.
  unfold disk. intros (nd & [[-> ->]|[-> ->]]%first_lookup & Hd)%bind_Some; [|by vm_compute in Hd].
  split; [done|]. assert (ReadBlock (fTestNet toy_params) first_index = Some first_block) as E by (vm_compute; reflexivity).
  cbn [node] in Hd. rewrite E in Hd. by injection Hd as <-.
Qed.

Lemma lone_coinbase_ok : tx_ok lone_coinbase.
Proof.
  pose proof (spend_block_ok) as Hs. change (vtx spend_block) with [lone_coinbase; spend_tx] in Hs. by apply Forall_cons in Hs as [? _].
Qed.

Lemma first_stored : stored (H := zero_hash) toy_params first_tree.
Proof.
  split.
  - exact first_tree_ok.
  - intros x y [xd Hx%first_lookup] [yd Hy%first_lookup]. exists (toy_hash_of 1).
    assert (forall z, z = toy_hash_of 0 \/ z = toy_hash_of 1 -> toy_hash_of 1 ∈ path first_tree (Some z)) as Hz.
    { intros z [-> | ->]; apply (bool_decide_eq_true_1 _); vm_compute; reflexivity. }
    split; apply Hz; naive_solver.
  - intros h nd [[-> ->]|[-> ->]]%first_lookup; cbn; unfold UINT_MAX, fits; lia.
  - intros h b [-> ->]%first_disk. split; [intros _; symmetry; apply zero_blockhash|]. constructor; [exact lone_coinbase_ok|constructor].
  - intros h nd p bs b [[-> ->]|[-> ->]]%first_lookup; [|done]. intros [= <-]. change (main_blocks first_tree (Some (toy_hash_of 1))) with (@nil (list Z)).
    intros ->%Forall2_nil_inv_l _. apply Forall_forall. intros tx _. apply not_elem_of_nil.
Qed.

Lemma first_chain : chain_at (B := ZBN) (H := zero_hash) (E := toy_ec) (P := no_secp) (G := first_files) toy_params first_state (toy_hash_of 1).
Proof.
  split; [|apply marks_check_ok; [exact first_tree_ok|by intros x [= <-]|vm_compute; reflexivity]|done].
  assert (forall h, db_ReadTxIndex (mkTxDB ∅ None false) h = None) as Hr.
  { intros h. rewrite db_ReadTxIndex_view. unfold view. cbn [activeBatch pdb]. by rewrite lookup_empty. }
  split; [exact first_stored|by eexists|intros e He; by apply not_elem_of_nil in He|].
  change (main_blocks (mapBlockIndex first_state) (Some (toy_hash_of 1))) with (@nil (list Z)). split.
  - split; [done|]. intros h x _ Hx. by rewrite Hr in Hx.
  - exists [], (fun _ => None). split_and!; [constructor|constructor|]. intros h _. apply Hr.
Qed.

Lemma set_best_chain_witness :
  exists b s, first_step = (Done true, b, s) /\ pindexBest s = Some (toy_hash_of 0) /\
    chain_at (B := ZBN) (H := zero_hash) (E := toy_ec) (P := no_secp) (G := first_files) toy_params s (toy_hash_of 0).
Proof.
  pose proof first_step_done as Hd. destruct first_step as [[r b] s] eqn:Es. cbn [fst] in Hd. subst r. exists b, s. split; [done|].
  pose proof (set_best_chain (B := ZBN) (H := zero_hash) (E := toy_ec) (P := no_secp) (F := toy_files) (G := first_files)
    toy_params false first_state (toy_hash_of 1) (toy_hash_of 0) (mkNode first_index (Some (toy_hash_of 1)) None) first_block (Done true) b s first_chain) as Hr.
  destruct Hr as (Hb & _ & _ & _ & z & Hz & _ & Hall); [done|done|done|done|done|intros _; symmetry; apply zero_blockhash|done| |exact Es|].
  - vm_compute. reflexivity.
  - split; [exact Hb|]. by rewrite <- (proj1 Hall eq_refl).
Defined.
