(* ===== verification/SyncProcess.v ===== *)
(** * Synchronized checkpoints at work: the rest of [checkpoints.cpp]

    A synchronized checkpoint is a signed message that names a block; the chain switches
    to that block, and from then on only its descendants are accepted.  The message waits
    as the pending checkpoint until the block is there.  Relaying and asking peers are
    left out. *)

From S2P Require Import Prelude Uint256 BigNum Serialize Hash Transaction Script Canonical.
From S2P Require Import Interp Key SigCheck Templates KeyStore Scrypt Block TxRules TxDB Chain Rewards BlockRules Connect ConnectFacts BlockConnect.
From S2P Require Import MemPool BlockTree Checkpoints Kernel Reorganize ReorgFacts BestChain.

Definition with_sync (s : ChainState) (y : SyncState) : ChainState :=
  mkChain (mapBlockIndex s) (pindexGenesisBlock s) (pindexBest s) (hashBestChain s) (cs_nBestHeight s) (nBestChainTrust s) (nBestInvalidTrust s)
    (setStakeSeen s) (txdb s) (mempool s) (sigcache s) y.

(** A new [CTxDB] object has no batch of its own *)
Definition reopen (s : ChainState) : ChainState := with_db s (TxnAbort (txdb s)).

(** [CTxDB::WriteSyncCheckpoint] *)
Definition db_WriteSyncCheckpoint (t : CTxDB) (hash : list Z) : option CTxDB :=
  Write (base_uint_codec WIDTH256) t (Serialize string_codec (chars "hashSyncCheckpoint")) hash.

(** [None] is [false] *)
Definition WriteSyncCheckpoint (s : ChainState) (hash : list Z) : option ChainState :=
  t ← TxnBegin (TxnAbort (txdb s));
  t ← db_WriteSyncCheckpoint t hash;
  t ← TxnCommit t;
  let y := sync s in
  let height := match mapBlockIndex s !! hash with Some nd => bi_nHeight (node nd) | None => 0 end in
  Some (with_sync (with_db s t)
    (mkSync hash (hashPendingCheckpoint y) (checkpointMessage y) (checkpointMessagePending y) (hashInvalidCheckpoint y) height)).

Section process.
Context {B : BNOps} {H : HashOps} {E : ECOps} {P : SecpOps} {F : Files} {G : BlockFiles}.

(** Making a checkpoint block the best one, when it is not in the main chain *)
Inductive switched := Switched | Unread | Unconnected | SwitchThrows.

Definition switch_to (par : Params) (fLimited : bool) (s : ChainState) (h : list Z) : switched * ChainState :=
  if IsInMainChain (mapBlockIndex s) (pindexBest s) h then (Switched, s)
  else
    match mapBlockIndex s !! h ≫= fun nd => ReadBlock (fTestNet par) (node nd) with
    | None => (Unread, s)
    | Some b =>
        match SetBestChain par fLimited (reopen s) h b with
        | (Done _, _, s) => (Switched, s)
        | (Fail _, _, s) => (Unconnected, s)
        | (Throws, _, s) => (SwitchThrows, s)
        end
    end.


(** [Done] is what is returned, [Throws] an exception on the way *)
Definition AcceptPendingSyncCheckpoint (par : Params) (fLimited : bool) (s : ChainState) : result bool * ChainState :=
  let hash := hashPendingCheckpoint (sync s) in
  if negb (op_eq64 hash 0) && bool_decide (is_Some (mapBlockIndex s !! hash)) then
    let '(ok, y) := ValidateSyncCheckpoint (sync s) (mapBlockIndex s) hash in
    if negb ok then (Done false, with_sync s (with_pending y zero256 CSyncCheckpoint_null))
    else
      match switch_to par fLimited (with_sync s y) hash with
      | (Unread, s) => (Done false, s)
      | (Unconnected, s) => (Done false, with_sync s (with_invalid (sync s) hash))
      | (SwitchThrows, s) => (Throws, s)
      | (Switched, s) =>
          match WriteSyncCheckpoint s hash with
          | None => (Done false, s)
          | Some s =>
              let y := sync s in
              (Done true, with_sync s (mkSync (hashSyncCheckpoint y) zero256 (checkpointMessagePending y) CSyncCheckpoint_null
                 (hashInvalidCheckpoint y) (sync_height y)))
          end
      end
  else (Done false, s).

(** The last loop of [ResetSyncCheckpoint], from the last checkpoint to the first *)
Fixpoint reset_loop (s : ChainState) (hashes : list (list Z)) : bool * ChainState :=
  match hashes with
  | [] => (false, s)
  | hash :: hashes =>
      if bool_decide (is_Some (mapBlockIndex s !! hash)) && IsInMainChain (mapBlockIndex s) (pindexBest s) hash then
        match WriteSyncCheckpoint s hash with None => (false, s) | Some s => (true, s) end
      else reset_loop s hashes
  end.

(** The checkpoints of the main network, also on the test network *)
Definition ResetSyncCheckpoint (par : Params) (fLimited : bool) (s : ChainState) : result bool * ChainState :=
  let hashes := snd <$> rev mapCheckpoints in
  let hash := default zero256 (head hashes) in
  let finish s := let '(ok, s) := reset_loop s hashes in (Done ok, s) in
  match mapBlockIndex s !! hash with
  | Some _ =>
      match switch_to par fLimited s hash with
      | (Switched, s) => finish s
      | (SwitchThrows, s) => (Throws, s)
      | (_, s) => (Done false, s)
      end
  | None => finish (with_sync s (with_pending (sync s) hash CSyncCheckpoint_null))
  end.

(** [Throws] is also a message that does not parse *)
Definition ProcessSyncCheckpoint (par : Params) (fLimited : bool) (s : ChainState) (msg : CSyncCheckpoint) :
    result bool * CSyncCheckpoint * ChainState :=
  match CheckSignature (fTestNet par) msg with
  | None => (Throws, msg, s)
  | Some (false, msg) => (Done false, msg, s)
  | Some (true, msg) =>
      let hash := hashCheckpoint msg in
      match mapBlockIndex s !! hash with
      | None => (Done false, msg, with_sync s (with_pending (sync s) hash msg))
      | Some _ =>
          let '(ok, y) := ValidateSyncCheckpoint (sync s) (mapBlockIndex s) hash in
          if negb ok then (Done false, msg, with_sync s y)
          else
            match switch_to par fLimited (with_sync s y) hash with
            | (Unread, s) => (Done false, msg, s)
            | (Unconnected, s) => (Done false, msg, with_sync s (with_invalid (sync s) hash))
            | (SwitchThrows, s) => (Throws, msg, s)
            | (Switched, s) =>
                match WriteSyncCheckpoint s hash with
                | None => (Done false, msg, s)
                | Some s =>
                    let y := sync s in
                    (Done true, msg, with_sync s (mkSync (hashSyncCheckpoint y) zero256 msg CSyncCheckpoint_null (hashInvalidCheckpoint y) (sync_height y)))
                end
            end
      end
  end.

(** ** What no step of the chain touches *)

(** The tree and the checkpoint stay, whatever happens *)
Definition shape (s s' : ChainState) : Prop := same_core (mapBlockIndex s) (mapBlockIndex s') /\ sync s' = sync s.

#[local] Instance shape_preorder : PreOrder shape.
Proof. split; [done|]. intros s1 s2 s3 [H1 H2] [K1 K2]. split; [by etrans|congruence]. Qed.

Lemma shape_core s s' : same_core (mapBlockIndex s) (mapBlockIndex s') -> sync s' = sync s -> shape s s'.
Proof. done. Qed.

Lemma connect_at_shape par s h b r b' s' : connect_at par s h b = (r, b', s') -> shape s s'.
Proof.
  unfold connect_at. destruct (mapBlockIndex s !! h) as [nd|] eqn:Eh; [|by intros [= _ _ <-]].
  destruct (ConnectBlock _ _ _ _ _ _ _ _) as [[[[t i]| |] b1] c1] eqn:Ec; [|by intros [= _ _ <-]..].
  apply ConnectBlock_done in Ec as [(mint & supply & ->) _]. intros [= _ _ <-]. split; [|done]. by apply (core_money (mapBlockIndex s)).
Qed.

Lemma connect_branch_shape par l s vDelete r s' : connect_branch par l s vDelete = (r, s') -> shape s s'.
Proof.
  revert s vDelete. induction l as [|h l IH]; intros s vDelete; cbn [connect_branch]; [by intros [= _ <-]|].
  destruct (mapBlockIndex s !! h ≫= _) as [b|]; [|by intros [= _ <-]].
  destruct (connect_at par s h b) as [[[[]| |] b1] s1] eqn:Ec; apply connect_at_shape in Ec; [|by intros [= _ <-]..].
  intros Hr. etrans; [exact Ec|by eapply IH].
Qed.

Lemma resurrect_shape par fLimited txs s r s' : resurrect par fLimited txs s = (r, s') -> shape s s'.
Proof.
  revert s. induction txs as [|tx txs IH]; intros s; cbn [resurrect]; [by intros [= _ <-]|].
  destruct (AcceptToMemoryPool _ _ _ _ _ _ _) as [[[] p] c]; [| |by intros [= _ <-]]; intros Hr; by apply IH in Hr.
Qed.

Lemma Reorganize_shape par fLimited s new r s' : Reorganize par fLimited s new = (r, s') -> shape s s'.
Proof.
  unfold Reorganize. destruct (find_fork _ _) as [f|]; [|by intros [= _ <-]].
  destruct (disconnect_branch _ _ _ _) as [[t txs]|]; [|by intros [= _ <-]].
  destruct (connect_branch par _ (with_db s t) []) as [[vDelete| |] s1] eqn:Ec; apply connect_branch_shape in Ec; [|by intros [= _ <-]..].
  destruct (WriteHashBestChain (txdb s1) new ≫= TxnCommit) as [t2|]; [|by intros [= _ <-]].
  rewrite fold_fmap_next. destruct (resurrect par fLimited txs _) as [[] s2] eqn:Er; apply resurrect_shape in Er as [R1 R2];
    intros [= _ <-]; (split; [|by destruct Ec; cbn in *; congruence]); cbn in *; (etrans; [apply Ec|]); (etrans; [|exact R1]);
    (etrans; [apply core_fold_next|apply core_fold_next]).
Qed.

Lemma InvalidChainFound_shape s h : shape s (InvalidChainFound s h).
Proof. unfold InvalidChainFound. by case_goal. Qed.

Lemma SetBestChainInner_shape par s h b r b' s' : SetBestChainInner par s h b = (r, b', s') -> shape s s'.
Proof.
  unfold SetBestChainInner. destruct (CBlock_GetHash b) as [hash b1].
  destruct (connect_at par s h b1) as [[[[]| |] b2] s1] eqn:Ec; apply connect_at_shape in Ec.
  - destruct (WriteHashBestChain (txdb s1) hash) as [t|]; [destruct (TxnCommit t) as [t2|]|]; intros [= _ _ <-]; [|done|].
    + destruct Ec. split; [|done]. cbn. etrans; [eassumption|apply core_set_parent_next].
    + etrans; [exact Ec|]. apply (InvalidChainFound_shape (with_db s1 _)).
  - intros [= _ _ <-]. etrans; [exact Ec|]. apply (InvalidChainFound_shape (with_db s1 _)).
  - by intros [= _ _ <-].
Qed.

Lemma connect_further_shape par l s r s' : connect_further par l s = (r, s') -> shape s s'.
Proof.
  revert s. induction l as [|h l IH]; intros s; cbn [connect_further]; [by intros [= _ <-]|].
  destruct (mapBlockIndex s !! h ≫= _) as [b|]; [|by intros [= _ <-]]. destruct (TxnBegin (txdb s)) as [t|]; [|by intros [= _ <-]].
  destruct (SetBestChainInner par (with_db s t) h b) as [[[[]| |] b1] s1] eqn:Ei; apply SetBestChainInner_shape in Ei; [|by intros [= _ <-]..].
  intros Hr. etrans; [exact Ei|by eapply IH].
Qed.

Lemma switch_chain_shape par fLimited s hash h b r b' s' : switch_chain par fLimited s hash h b = (r, b', s') -> shape s s'.
Proof.
  unfold switch_chain. case_goal.
  { destruct (WriteHashBestChain (txdb s) hash ≫= TxnCommit); by intros [= _ _ <-]. }
  case_goal.
  { destruct (SetBestChainInner par s h b) as [[[[]| |] b1] s1] eqn:Ei; apply SetBestChainInner_shape in Ei; by intros [= _ _ <-]. }
  destruct (postpone _ _) as [l [i|]]; [|by intros [= _ _ <-]].
  destruct (Reorganize par fLimited s (bi_hash i)) as [[[]| |] s1] eqn:Er; apply Reorganize_shape in Er.
  - destruct (connect_further par _ s1) as [r2 s2] eqn:Ef. apply connect_further_shape in Ef. intros [= _ _ <-]. by etrans.
  - intros [= _ _ <-]. etrans; [exact Er|]. apply (InvalidChainFound_shape (with_db s1 _)).
  - by intros [= _ _ <-].
Qed.

Lemma SetBestChain_shape par fLimited s h b r b' s' :
  SetBestChain par fLimited s h b = (r, b', s') -> shape s s' /\ forall all, r = Done all -> pindexBest s' = Some h.
Proof.
  unfold SetBestChain. destruct (CBlock_GetHash b) as [hash b1]. destruct (TxnBegin (txdb s)) as [t|]; [|by intros [= <- _ <-]].
  destruct (switch_chain par fLimited (with_db s t) hash h b1) as [[[all| |] b2] s1] eqn:Es; apply switch_chain_shape in Es; intros [= <- _ <-];
    (split; [exact Es|]); by try intros ? [=].
Qed.

(** ** Claim *)

Lemma in_main_core m m' b h : same_core m m' -> is_Some (m !! h) -> b = Some h -> IsInMainChain m' b h = true.
Proof.
  intros Hc Hh ->. destruct (core_dom _ _ _ Hc Hh) as [nd Eh]. unfold IsInMainChain. rewrite Eh. destruct (pnext nd); [done|]. by apply bool_decide_eq_true_2.
Qed.

Lemma switch_to_spec par fLimited s h r s' :
  is_Some (mapBlockIndex s !! h) -> switch_to par fLimited s h = (r, s') ->
  shape s s' /\ (r = Switched -> IsInMainChain (mapBlockIndex s') (pindexBest s') h = true).
Proof.
  intros Hh. unfold switch_to. destruct (IsInMainChain _ _ _) eqn:Em; [by intros [= <- <-]|].
  destruct (mapBlockIndex s !! h ≫= _) as [b|]; [|by intros [= <- <-]].
  destruct (SetBestChain par fLimited (reopen s) h b) as [[[all| |] b1] s1] eqn:Es; apply SetBestChain_shape in Es as [Hs Hb]; intros [= <- <-];
    (split; [exact Hs|]); [|done..]. intros _. eapply in_main_core; [apply Hs|done|by eapply Hb].
Qed.

Lemma WriteSyncCheckpoint_spec s h s' :
  WriteSyncCheckpoint s h = Some s' ->
  mapBlockIndex s' = mapBlockIndex s /\ pindexBest s' = pindexBest s /\ hashSyncCheckpoint (sync s') = h /\
  (forall nd, mapBlockIndex s !! h = Some nd -> sync_height (sync s') = bi_nHeight (node nd)).
Proof.
  unfold WriteSyncCheckpoint. intros (t1 & _ & (t2 & _ & (t3 & _ & [= <-])%bind_Some)%bind_Some)%bind_Some.
  split_and!; [done..|]. intros nd E0. cbn [sync with_sync sync_height]. by rewrite E0.
Qed.

Lemma validate_keeps y m h ok y' :
  ValidateSyncCheckpoint y m h = (ok, y') -> hashSyncCheckpoint y' = hashSyncCheckpoint y /\ sync_height y' = sync_height y.
Proof. unfold ValidateSyncCheckpoint. intros Hv. repeat case_hyp Hv; by injection Hv as <- <-. Qed.

(** A checkpoint has been put in force: a proper descendant of the one before it, in the
    main chain *)
Definition advanced (s s' : ChainState) : Prop :=
  let h := hashSyncCheckpoint (sync s') in
  hashSyncCheckpoint (sync s) ∈ path (mapBlockIndex s') (Some h) /\ h <> hashSyncCheckpoint (sync s) /\
  IsInMainChain (mapBlockIndex s') (pindexBest s') h = true /\
  (exists nd, mapBlockIndex s' !! h = Some nd /\ sync_height (sync s') = bi_nHeight (node nd)) /\
  hashPendingCheckpoint (sync s') = zero256 /\ checkpointMessagePending (sync s') = CSyncCheckpoint_null.

(** The common end of the two functions: [y] is the state after the validation *)
Lemma advance s y h s1 s2 s' :
  tree_ok (mapBlockIndex s) -> ValidateSyncCheckpoint (sync s) (mapBlockIndex s) h = (true, y) ->
  shape (with_sync s y) s1 -> IsInMainChain (mapBlockIndex s1) (pindexBest s1) h = true -> WriteSyncCheckpoint s1 h = Some s2 ->
  mapBlockIndex s' = mapBlockIndex s2 -> pindexBest s' = pindexBest s2 -> hashSyncCheckpoint (sync s') = hashSyncCheckpoint (sync s2) ->
  sync_height (sync s') = sync_height (sync s2) -> hashPendingCheckpoint (sync s') = zero256 -> checkpointMessagePending (sync s') = CSyncCheckpoint_null ->
  advanced s s'.
Proof.
  intros Hm Hv [Hc _] Hmain Hw E1 E2 E3 E4 E5 E6. apply WriteSyncCheckpoint_spec in Hw as (W1 & W2 & W3 & W4).
  assert (exists sd cd, mapBlockIndex s !! hashSyncCheckpoint (sync s) = Some sd /\ mapBlockIndex s !! h = Some cd) as (sd & cd & Es & Eh).
  { unfold ValidateSyncCheckpoint in Hv. destruct (mapBlockIndex s !! hashSyncCheckpoint (sync s)), (mapBlockIndex s !! h); [eauto|done..]. }
  destruct (ValidateSyncCheckpoint_spec Hm (sync s) h cd sd Es Eh) as [Hd _]. rewrite Hv in Hd. destruct (proj1 Hd eq_refl) as [Hp Hne].
  cbn [mapBlockIndex with_sync] in Hc. unfold advanced. rewrite E1, E2, E3, E4, W1, W2, W3. rewrite (core_path _ _ _ Hc Hm) by eauto. split_and!; [done..| |done|done].
  destruct (core_lookup _ _ _ _ Hc Eh) as (nd & End & _). exists nd. split; [done|]. by apply W4.
Qed.

(** C16: a synchronized checkpoint only moves forward.  Whether a pending checkpoint is
    accepted or one arrives in a message: the tree of blocks keeps its shape, and when
    the function returns true the checkpoint in force is a proper descendant of the one
    before, is in the main chain, has its height published, and nothing is pending; when
    it returns false, or when an exception is thrown, the checkpoint in force is the old
    one. *)
Theorem sync_checkpoint_advances par fLimited s msg r msg' s' :
  tree_ok (mapBlockIndex s) ->
  AcceptPendingSyncCheckpoint par fLimited s = (r, s') \/ ProcessSyncCheckpoint par fLimited s msg = (r, msg', s') ->
  same_core (mapBlockIndex s) (mapBlockIndex s') /\
  (r = Done true -> advanced s s') /\
  (r <> Done true -> hashSyncCheckpoint (sync s') = hashSyncCheckpoint (sync s) /\ sync_height (sync s') = sync_height (sync s)).
Proof.
  intros Hm [Hr|Hr].
  - unfold AcceptPendingSyncCheckpoint in Hr. set (h := hashPendingCheckpoint (sync s)) in *.
    destruct (negb _ && bool_decide _) eqn:Ec; [|by injection Hr as <- <-]. apply andb_true_iff in Ec as [_ Hh%bool_decide_eq_true_1].
    destruct (ValidateSyncCheckpoint (sync s) (mapBlockIndex s) h) as [ok y] eqn:Ev. pose proof (validate_keeps _ _ _ _ _ Ev) as [Y1 Y2].
    destruct ok; cbn [negb] in Hr; [|by injection Hr as <- <-].
    destruct (switch_to par fLimited (with_sync s y) h) as [w s1] eqn:Es. apply switch_to_spec in Es as [[Hc Hsy] Hmain]; [|done]. cbn [sync with_sync] in Hsy.
    destruct w; [specialize (Hmain eq_refl)|injection Hr as <- <-; cbn; rewrite ?Hsy, ?Y1, ?Y2; by split_and!..].
    destruct (WriteSyncCheckpoint s1 h) as [s2|] eqn:Ew; [|injection Hr as <- <-; rewrite Hsy, Y1, Y2; by split_and!].
    injection Hr as <- <-. pose proof (WriteSyncCheckpoint_spec _ _ _ Ew) as (W1 & _). cbn [mapBlockIndex with_sync] in *. rewrite W1.
    split_and!; [done| |done]. intros _. by eapply (advance s y h s1 s2).
  - unfold ProcessSyncCheckpoint in Hr. destruct (CheckSignature (fTestNet par) msg) as [[[] c]|]; [|by injection Hr as <- <- <-..].
    set (h := hashCheckpoint c) in *. destruct (mapBlockIndex s !! h) as [nd|] eqn:Eh; [|by injection Hr as <- <- <-].
    destruct (ValidateSyncCheckpoint (sync s) (mapBlockIndex s) h) as [ok y] eqn:Ev. pose proof (validate_keeps _ _ _ _ _ Ev) as [Y1 Y2].
    destruct ok; cbn [negb] in Hr; [|by injection Hr as <- <- <-].
    destruct (switch_to par fLimited (with_sync s y) h) as [w s1] eqn:Es. apply switch_to_spec in Es as [[Hc Hsy] Hmain]; [|cbn; eauto]. cbn [sync with_sync] in Hsy.
    destruct w; [specialize (Hmain eq_refl)|injection Hr as <- <- <-; cbn; rewrite ?Hsy, ?Y1, ?Y2; by split_and!..].
    destruct (WriteSyncCheckpoint s1 h) as [s2|] eqn:Ew; [|injection Hr as <- <- <-; rewrite Hsy, Y1, Y2; by split_and!].
    injection Hr as <- <- <-. pose proof (WriteSyncCheckpoint_spec _ _ _ Ew) as (W1 & _). cbn [mapBlockIndex with_sync] in *. rewrite W1.
    split_and!; [done| |done]. intros _. by eapply (advance s y h s1 s2).
Qed.
End process.

(** ** Witness: the tip of the toy chain becomes the checkpoint *)

Definition pending_state : ChainState :=
  mkChain toy_tree (Some (toy_hash_of 1)) (Some (toy_hash_of 3)) (toy_hash_of 3) 2 (toy_hash_of 3) (toy_hash_of 0) ∅ (mkTxDB ∅ None false)
    (mkPool ∅ ∅ 0) empty_cache (mkSync (toy_hash_of 2) (toy_hash_of 3) CSyncCheckpoint_null CSyncCheckpoint_null (toy_hash_of 0) 1).
Definition pending_step := AcceptPendingSyncCheckpoint (B := ZBN) (H := toy_hash) (E := toy_ec) (P := no_secp) (F := toy_files) (G := first_files)
  toy_params false pending_state.

Lemma pending_step_done : pending_step.1 = Done true.
Proof. vm_compute. reflexivity. Qed.

Lemma sync_checkpoint_advances_witness : pending_step.1 = Done true /\ advanced pending_state pending_step.2.
Proof.
  pose proof pending_step_done as Hd. destruct pending_step as [r s] eqn:Es. cbn [fst] in Hd. subst r. split; [done|].
  destruct (sync_checkpoint_advances (B := ZBN) (H := toy_hash) (E := toy_ec) (P := no_secp) (F := toy_files) (G := first_files)
    toy_params false pending_state CSyncCheckpoint_null (Done true) CSyncCheckpoint_null s toy_tree_ok) as (_ & Ha & _); [by left|]. by apply Ha.
Defined.
