(* ===== verification/Accept.v ===== *)
(** * Accepting a block: [CBlock::AddToBlockIndex], [CBlock::AcceptBlock] of [main.cpp]

    Where [WriteToDisk] has put the block is an argument, [None] when there is no space or
    writing fails.  The record of the block index in the database, the relay to the
    peers, the warnings and the notifications are left out. *)

From S2P Require Import Prelude Uint256 BigNum Serialize Hash Transaction Script Canonical.
From S2P Require Import Interp Key SigCheck Templates KeyStore Scrypt Block TxRules TxDB Chain Rewards BlockRules Connect ConnectFacts BlockConnect.
From S2P Require Import MemPool BlockTree Checkpoints Kernel Reorganize ReorgFacts BestChain SyncProcess.

Definition POW_LIMIT_HEIGHT_TESTNET : Z := 4500.
Definition POW_STOP_HEIGHT_TESTNET : Z := 4600.
Definition POW_TIME_LIMIT_TESTNET : Z := 60.
Definition POW_LIMIT_HEIGHT : Z := 5600000.
Definition POW_STOP_HEIGHT : Z := 6000000.
Definition POW_TIME_LIMIT : Z := 60 * 10.

Inductive CPMode := STRICT | ADVISORY | PERMISSIVE.

(** What [AddToBlockIndex] fills in before the stake modifier *)
Definition with_place (i : CBlockIndex) (hash trust : list Z) (nHeight : Z) (hashProofOfStake : list Z) : CBlockIndex :=
  mkIndex hash (bi_nFile i) (bi_nBlockPos i) trust nHeight (bi_nMint i) (bi_nMoneySupply i) (bi_nFlags i) (bi_nStakeModifier i)
    (bi_nStakeModifierChecksum i) (bi_prevoutStake i) (bi_nStakeTime i) hashProofOfStake (bi_nVersion i) (bi_hashMerkleRoot i) (bi_nTime i)
    (bi_nBits i) (bi_nNonce i).

Definition with_checksum (i : CBlockIndex) (c : Z) : CBlockIndex :=
  mkIndex (bi_hash i) (bi_nFile i) (bi_nBlockPos i) (bi_nChainTrust i) (bi_nHeight i) (bi_nMint i) (bi_nMoneySupply i) (bi_nFlags i)
    (bi_nStakeModifier i) c (bi_prevoutStake i) (bi_nStakeTime i) (bi_hashProofOfStake i) (bi_nVersion i) (bi_hashMerkleRoot i) (bi_nTime i)
    (bi_nBits i) (bi_nNonce i).

(** [mapBlockIndex.insert], [setStakeSeen.insert] *)
Definition with_block (s : ChainState) (hash : list Z) (i : CBlockIndex) (prev : option (list Z)) : ChainState :=
  mkChain (<[hash := mkNode i prev None]> (mapBlockIndex s)) (pindexGenesisBlock s) (pindexBest s) (hashBestChain s) (cs_nBestHeight s)
    (nBestChainTrust s) (nBestInvalidTrust s)
    (if bi_IsProofOfStake i then {[(bi_prevoutStake i, bi_nStakeTime i)]} ∪ setStakeSeen s else setStakeSeen s)
    (txdb s) (mempool s) (sigcache s) (sync s).

Section accept.
Context {B : BNOps} {H : HashOps} {E : ECOps} {P : SecpOps} {F : Files} {G : BlockFiles}.

(** The index object of a block; [Throws] is a failed [assert] *)
Definition new_index (par : Params) (m : BlockMap) (hash : list Z) (prev : option (list Z)) (nFile nBlockPos : Z) (hashProofOfStake : list Z)
    (b : CBlock) : result CBlockIndex * CBlock :=
  let pprev := node <$> (prev ≫= (m !!.)) in
  let i := CBlockIndex_of nFile nBlockPos b in
  let nHeight := match pprev with Some p => bi_nHeight p + 1 | None => 0 end in
  match GetBlockTrust (fTestNet par) i with
  | None => (Throws, b)
  | Some trust =>
      let nChainTrust := add_assign (match pprev with Some p => bi_nChainTrust p | None => zero256 end) trust in
      let '(nEntropyBit, b) := GetStakeEntropyBit (fTestNet par) nHeight b in
      let '(ok, i) := SetStakeEntropyBit nEntropyBit (with_place i hash nChainTrust nHeight hashProofOfStake) in
      if negb ok then (Fail 0, b)
      else
        match ComputeNextStakeModifier (fTestNet par) m prev with
        | None => (Fail 0, b)
        | Some (nStakeModifier, fGeneratedStakeModifier) =>
            let i := SetStakeModifier nStakeModifier fGeneratedStakeModifier i in
            match GetStakeModifierChecksum (hashGenesisBlock par) i pprev with
            | None => (Throws, b)
            | Some checksum =>
                if negb (CheckStakeModifierCheckpoints (fTestNet par) nHeight checksum) then (Fail 0, b)
                else (Done (with_checksum i checksum), b)
            end
        end
  end.

(** [Done] is [true]; its flag is that of [SetBestChain] *)
Definition AddToBlockIndex (par : Params) (fLimited : bool) (s : ChainState) (nFile nBlockPos : Z) (hashProofOfStake : list Z) (b : CBlock) :
    result bool * CBlock * ChainState :=
  let '(hash, b) := CBlock_GetHash b in
  let m := mapBlockIndex s in
  if bool_decide (is_Some (m !! hash)) then (Fail 0, b, s)
  else
    let prev := if bool_decide (is_Some (m !! hashPrevBlock b)) then Some (hashPrevBlock b) else None in
    match new_index par m hash prev nFile nBlockPos hashProofOfStake b with
    | (Done i, b) =>
        let s := with_block s hash i prev in
        match TxnBegin (TxnAbort (txdb s)) ≫= TxnCommit with
        | None => (Fail 0, b, s)
        | Some t =>
            let s := with_db s t in
            if op_gt (bi_nChainTrust i) (nBestChainTrust s) then SetBestChain par fLimited s hash b else (Done true, b, s)
        end
    | (Fail n, b) => (Fail n, b, s)
    | (Throws, b) => (Throws, b, s)
    end.

(** [if (!b) return ...] on the way of [AcceptBlock] *)
Definition pow_allowed (fTestNet : bool) (b : CBlock) (nHeight : Z) (prev : CBlockIndex) : bool :=
  let early := GetBlockTime b - FutureDrift (bi_GetBlockTime prev) <? (if fTestNet then POW_TIME_LIMIT_TESTNET else POW_TIME_LIMIT) in
  negb (IsProofOfWork b && ((if fTestNet then POW_STOP_HEIGHT_TESTNET else POW_STOP_HEIGHT) <? nHeight) && early) &&
  negb (IsProofOfWork b && ((if fTestNet then POW_LIMIT_HEIGHT_TESTNET else POW_LIMIT_HEIGHT) <? nHeight) && bi_IsProofOfWork prev && early).

(** The coinbase begins with the height *)
Definition height_in_coinbase (nHeight : Z) (coinbase : CTransaction) : option bool :=
  txin ← head (vin coinbase);
  let expect := push_int64 [] nHeight in
  Some (negb (Z.of_nat (length (scriptSig txin)) <? Z.of_nat (length expect)) && bool_decide (take (length expect) (scriptSig txin) = expect)).

(** The checks that need no disk and no stake *)
Definition check_context (par : Params) (s : ChainState) (hash : list Z) (prev : list Z) (pindexPrev : CBlockIndex) (b : CBlock) : result unit :=
  let chain := way (mapBlockIndex s) (Some prev) in
  let nHeight := bi_nHeight pindexPrev + 1 in
  guard (pow_allowed (fTestNet par) b nHeight pindexPrev) 10
    (match GetNextTargetRequired (fTestNet par) (cs_nBestHeight s) chain (IsProofOfStake b) with
     | None => Throws
     | Some required =>
         guard (nBits b =? required) 100
           (guard (negb ((GetBlockTime b <=? GetPastTimeLimit chain) || (FutureDrift (GetBlockTime b) <? bi_GetBlockTime pindexPrev))) 0
              (guard (forallb (fun tx => IsFinalTx (cs_nBestHeight s) (now par) tx nHeight (GetBlockTime b)) (vtx b)) 10
                 (guard (CheckHardened (fTestNet par) nHeight hash) 100 (Done tt))))
     end).

(** The stake of the block; [CTxDB txdb("r")] is opened for it *)
Definition check_kernel (par : Params) (s : ChainState) (b : CBlock) : option (list Z) * CSignatureCache :=
  if IsProofOfStake b then
    match vtx b with
    | _ :: tx :: _ =>
        let '(r, c) := CheckProofOfStake (T := leveldb_store) (par_at par s) (CTxDB_open (pdb (txdb s)) true) (mapBlockIndex s) tx (nBits b) (sigcache s) in
        (match r with inr (hashProofOfStake, _) => Some hashProofOfStake | inl _ => None end, c)
    | _ => (None, sigcache s)
    end
  else (Some zero256, sigcache s).

(** The rest of the checks; [Throws]: the checkpoint is not in the map (a failed
    [assert]), or there is no first input to look at *)
Definition check_sync_height (mode : CPMode) (s : ChainState) (hash prev : list Z) (nHeight : Z) (b : CBlock) : result unit :=
  match CheckSync (sync s) (mapBlockIndex s) (pindexBest s) hash prev with
  | None => Throws
  | Some cpSatisfies =>
      guard (negb (match mode with STRICT => true | _ => false end && negb cpSatisfies)) 0
        (match head (vtx b) ≫= height_in_coinbase nHeight with
         | None => Throws
         | Some ok => guard ok 100 (Done tt)
         end)
  end.

Definition AcceptBlock (par : Params) (mode : CPMode) (fLimited : bool) (s : ChainState) (place : option (Z * Z)) (b : CBlock) :
    result bool * CBlock * ChainState :=
  let '(hash, b) := CBlock_GetHash b in
  if bool_decide (is_Some (mapBlockIndex s !! hash)) then (Fail 0, b, s)
  else
    let prev := hashPrevBlock b in
    match mapBlockIndex s !! prev with
    | None => (Fail 10, b, s)
    | Some pindexPrev =>
        match check_context par s hash prev (node pindexPrev) b with
        | Done _ =>
            let '(proof, c) := check_kernel par s b in
            let s := with_pool s (mempool s) c in
            match proof with
            | None => (Fail 0, b, s)
            | Some hashProofOfStake =>
                match check_sync_height mode s hash prev (bi_nHeight (node pindexPrev) + 1) b with
                | Done _ =>
                    match place with
                    | None => (Fail 0, b, s)
                    | Some (nFile, nBlockPos) =>
                        match AddToBlockIndex par fLimited s nFile nBlockPos hashProofOfStake b with
                        | (Done fAll, b, s) =>
                            match AcceptPendingSyncCheckpoint par fLimited s with
                            | (Throws, s) => (Throws, b, s)
                            | (_, s) => (Done fAll, b, s)
                            end
                        | r => r
                        end
                    end
                | Fail nDoS => (Fail nDoS, b, s)
                | Throws => (Throws, b, s)
                end
            end
        | Fail nDoS => (Fail nDoS, b, s)
        | Throws => (Throws, b, s)
        end
    end.
End accept.
