(* ===== verification/AcceptFacts.v ===== *)
(** * What accepting a block does to the chain

    A new block is a leaf of the tree; it changes nothing of the chain until
    [SetBestChain] is called, so the invariant of [BestChain] carries over. *)

From S2P Require Import Prelude Uint256 BigNum Serialize Hash Transaction Script Canonical.
From S2P Require Import Interp Key SigCheck Templates KeyStore Scrypt Block TxRules TxDB Chain Rewards BlockRules Connect ConnectFacts BlockConnect.
From S2P Require Import MemPool BlockTree Checkpoints Kernel Reorganize ReorgFacts BestChain SyncProcess Accept.

(** ** A leaf is added *)

Section leaf.
Context {m : BlockMap} {h : list Z} {i : CBlockIndex} {p : list Z} {pd : BlockNode}.
Context (Hm : tree_ok m) (Hnew : m !! h = None) (Hi : bi_hash i = h) (Hu : uint_ok WIDTH256 h).
Context (Hp : m !! p = Some pd) (Hh : bi_nHeight i = bi_nHeight (node pd) + 1).

Definition leaf_map : BlockMap := <[h := mkNode i (Some p) None]> m.

Lemma leaf_old x nd : m !! x = Some nd -> leaf_map !! x = Some nd.
Proof. intros Ex. unfold leaf_map. rewrite lookup_insert_ne; [done|]. intros ->. congruence. Qed.

Lemma leaf_lookup x nd : leaf_map !! x = Some nd -> x = h /\ nd = mkNode i (Some p) None \/ x <> h /\ m !! x = Some nd.
Proof. unfold leaf_map. intros [[<- <-]|[Hn Ex]]%lookup_insert_Some; [by left|right; by split]. Qed.

Lemma leaf_tree_ok : tree_ok leaf_map.
Proof.
  pose proof (node_height m Hm _ _ Hp) as Hpd. split; intros x nd; [..|intros q]; intros [[-> ->]|[_ Ex]]%leaf_lookup; cbn [node pprev].
  - done.
  - by eapply node_hash.
  - done.
  - by eapply node_uint.
  - lia.
  - by eapply node_height.
  - done.
  - by eapply root_height.
  - intros [= <-]. exists pd. split; [by apply leaf_old|done].
  - intros Eq. destruct (parent_height m Hm _ _ _ Ex Eq) as (qd & Eqd & Hq). exists qd. split; [by apply leaf_old|done].
Qed.

Lemma leaf_path x : is_Some (m !! x) -> path leaf_map (Some x) = path m (Some x).
Proof.
  intros [xd Ex]. apply (path_eq leaf_tree_ok). enough (Hl : forall l q, is_path m q l -> is_path leaf_map q l) by (by apply Hl; eapply path_spec).
  intros l. induction l as [|y l IH]; intros q; [done|]. intros (-> & yd & Ey & W). split; [done|]. exists yd. split; [by apply leaf_old|by apply IH].
Qed.

Lemma leaf_marks b : is_Some (m !! b) -> marks_ok m (Some b) -> marks_ok leaf_map (Some b).
Proof.
  intros Hb Hk x nd c Ex. rewrite leaf_path by done.
  assert (Hdom : forall y, y ∈ path m (Some b) -> exists yd, m !! y = Some yd).
  { intros y Hy. destruct (path_elem Hm (Some b) y ltac:(by intros ? [= <-]) Hy) as (yd & _ & Ey & _). by exists yd. }
  apply leaf_lookup in Ex as [[-> ->]|[Hn Ex]]; cbn [pnext].
  - split; [done|]. intros (Hc & cd & Ec & Ecp). destruct (Hdom c Hc) as [cd' Ec']. rewrite (leaf_old _ _ Ec') in Ec. injection Ec as ->.
    destruct (parent_height m Hm _ _ _ Ec' Ecp) as (hd & Eh & _). congruence.
  - rewrite (Hk x nd c Ex). split; intros (Hc & cd & Ec & Ecp); (split; [done|]); exists cd; (split; [|done]); [by apply leaf_old|].
    destruct (Hdom c Hc) as [cd' Ec']. rewrite (leaf_old _ _ Ec') in Ec. by injection Ec as <-.
Qed.

Context {B : BNOps} {H : HashOps} {E : ECOps} {P : SecpOps} {F : Files} {G : BlockFiles}.

Lemma leaf_disk par x b : is_Some (m !! x) -> disk par leaf_map x = Some b <-> disk par m x = Some b.
Proof. intros [xd Ex]. unfold disk. by rewrite Ex, (leaf_old _ _ Ex). Qed.

Lemma leaf_main_blocks x : is_Some (m !! x) -> main_blocks leaf_map (Some x) = main_blocks m (Some x).
Proof. intros Hx. unfold main_blocks. by rewrite leaf_path. Qed.

Lemma main_blocks_dom x : is_Some (m !! x) -> Forall (fun y => is_Some (m !! y)) (main_blocks m (Some x)).
Proof.
  intros Hx. unfold main_blocks. apply Forall_drop, Forall_rev. apply Forall_forall. intros y Hy.
  destruct (path_elem Hm (Some x) y ltac:(by intros ? [= <-]) Hy) as (yd & _ & Ey & _). eauto.
Qed.

Lemma leaf_on_disk par l bs :
  Forall (fun y => is_Some (m !! y)) l ->
  Forall2 (fun h b => disk par leaf_map h = Some b) l bs <-> Forall2 (fun h b => disk par m h = Some b) l bs.
Proof.
  intros Hl. revert bs. induction Hl as [|y l Hy Hl IH]; intros bs; [split; intros Hb; apply Forall2_nil_inv_l in Hb as ->; constructor|].
  split; intros (b & bs' & Hb & Hbs & ->)%Forall2_cons_inv_l; (constructor; [by apply (leaf_disk par y b Hy)|by apply IH]).
Qed.

Lemma leaf_indexed par x t : is_Some (m !! x) -> indexed par m (main_blocks m (Some x)) t -> indexed par leaf_map (main_blocks leaf_map (Some x)) t.
Proof.
  intros Hx (Hs & bs & V & Hl & Ht). rewrite leaf_main_blocks by done. split; [done|]. exists bs, V. split; [|done].
  apply leaf_on_disk; [by apply main_blocks_dom|done].
Qed.

(** What is asked of a new block: it is where the index says, serializes, and none of its
    transactions is in a block before it *)
Record written (par : Params) (b : CBlock) : Prop := {
  wr_place : bi_nFile i <> UINT_MAX /\ fits 4 (bi_nFile i) /\ fits 4 (bi_nBlockPos i);
  wr_read : ReadBlock (fTestNet par) i = Some b;
  wr_block : cache_ok b /\ Forall tx_ok (vtx b);
  wr_fresh bs : Forall2 (fun h b => disk par m h = Some b) (main_blocks m (Some p)) bs ->
    Forall (fun tx => CTransaction_GetHash tx ∉ bs ≫= fun b => CTransaction_GetHash <$> vtx b) (vtx b)
}.

Lemma leaf_stored par b : stored par m -> written par b -> stored par leaf_map.
Proof.
  intros [_ Hr Hpl Hb Hf] [W1 W2 W3 W4]. split.
  - exact leaf_tree_ok.
  - assert (Hex : forall x, is_Some (leaf_map !! x) -> exists y, is_Some (m !! y) /\ forall r, r ∈ path m (Some y) -> r ∈ path leaf_map (Some x)).
    { intros x [xd [[-> ->]|[_ Ex]]%leaf_lookup]; [exists p|exists x].
      - split; [eauto|]. intros r Hin. rewrite (path_unfold leaf_tree_ok h (mkNode i (Some p) None)) by (by apply lookup_insert_eq). right.
        cbn [pprev]. by rewrite leaf_path by eauto.
      - split; [eauto|]. intros r Hin. by rewrite leaf_path by eauto. }
    intros x y (x' & Hx & Kx)%Hex (y' & Hy & Ky)%Hex. destruct (Hr x' y' Hx Hy) as (r & R1 & R2). exists r. by split; [apply Kx|apply Ky].
  - intros x nd [[-> ->]|[_ Ex]]%leaf_lookup; [exact W1|by eapply Hpl].
  - intros x c Hd. destruct (decide (x = h)) as [->|Hn].
    + unfold disk, leaf_map in Hd. rewrite lookup_insert_eq in Hd. cbn [mbind option_bind node] in Hd. rewrite W2 in Hd. by injection Hd as <-.
    + apply (Hb x c). unfold disk, leaf_map in Hd. by rewrite lookup_insert_ne in Hd by done.
  - intros x nd q bs c [[-> ->]|[Hn Ex]]%leaf_lookup.
    + cbn [pprev]. intros [= <-] Hl Hd. rewrite leaf_main_blocks in Hl by eauto. unfold disk, leaf_map in Hd. rewrite lookup_insert_eq in Hd.
      cbn [mbind option_bind node] in Hd. rewrite W2 in Hd. injection Hd as <-. apply W4. apply leaf_on_disk in Hl; [done|by apply main_blocks_dom].
    + intros Eq Hl Hd. destruct (parent_height m Hm _ _ _ Ex Eq) as (qd & Eqd & _). rewrite leaf_main_blocks in Hl by eauto.
      apply leaf_on_disk in Hl; [|by apply main_blocks_dom]. apply leaf_disk in Hd; [|by eauto]. exact (Hf x nd q bs c Ex Eq Hl Hd).
Qed.
End leaf.

(** ** [AddToBlockIndex] *)

Section accept.
Context {B : BNOps} {H : HashOps} {HL : HashLaws H} {E : ECOps} {EL : ECLaws E} {P : SecpOps} {F : Files} {G : BlockFiles}.

Lemma entropy_keeps fTestNet n hash b bit b' : CBlock_GetHash b = (hash, b) -> GetStakeEntropyBit fTestNet n b = (bit, b') -> b' = b.
Proof. intros Hb. unfold GetStakeEntropyBit. rewrite Hb. case_goal; by intros [= _ <-]. Qed.

(** What an index object that has been made holds *)
Lemma new_index_spec par m hash prev f p proof b i b' :
  CBlock_GetHash b = (hash, b) -> new_index par m hash prev f p proof b = (Done i, b') ->
  b' = b /\ bi_hash i = hash /\ bi_nFile i = f /\ bi_nBlockPos i = p /\ bi_hashProofOfStake i = proof /\
  bi_IsProofOfStake i = IsProofOfStake b /\
  bi_nHeight i = match node <$> (prev ≫= (m !!.)) with Some q => bi_nHeight q + 1 | None => 0 end /\
  exists trust, GetBlockTrust (fTestNet par) (CBlockIndex_of f p b) = Some trust /\
    bi_nChainTrust i = add_assign (match node <$> (prev ≫= (m !!.)) with Some q => bi_nChainTrust q | None => zero256 end) trust.
Proof.
  intros Hb. unfold new_index. set (pprev := node <$> (prev ≫= (m !!.))). destruct (GetBlockTrust _ _) as [trust|]; [|done].
  destruct (GetStakeEntropyBit _ _ b) as [bit b1] eqn:Eb. apply (entropy_keeps _ _ hash) in Eb as ->; [|done].
  unfold SetStakeEntropyBit. destruct (1 <? bit); cbn [negb]; [done|]. destruct (ComputeNextStakeModifier _ _ _) as [[md gen]|]; [|done].
  destruct (GetStakeModifierChecksum _ _ _) as [c|]; [|done]. destruct (CheckStakeModifierCheckpoints _ _ _); cbn [negb]; [|done].
  set (i0 := CBlockIndex_of f p b). assert (bi_nFile i0 = f /\ bi_nBlockPos i0 = p /\ bi_nFlags i0 = (if IsProofOfStake b then BLOCK_PROOF_OF_STAKE else 0)) as (I1 & I2 & I3).
  { unfold i0, CBlockIndex_of. by case_match. }
  intros [= <- <-]. split_and!; [done| | | | | |done|by exists trust]; cbn; try done.
  rewrite I3. by destruct (IsProofOfStake b), (bit =? 0), gen.
Qed.

(** A chain the whole state agrees on *)
Record settled (par : Params) (s : ChainState) (best : list Z) : Prop := {
  se_chain : chain_at par s best;
  se_best : pindexBest s = Some best;
  se_hash : hashBestChain s = best;
  se_genesis : pindexGenesisBlock s <> None
}.

Lemma leaf_chain_at par s i p pd b x :
  let h := bi_hash i in
  chain_at par s x -> mapBlockIndex s !! h = None -> uint_ok WIDTH256 h -> mapBlockIndex s !! p = Some pd ->
  bi_nHeight i = bi_nHeight (node pd) + 1 -> written (m := mapBlockIndex s) (i := i) (p := p) par b -> chain_at par (with_block s h i (Some p)) x.
Proof.
  intros h [[Hst Hx Hc Hi] Hk Hb] Hnew Hu Hp Hh Hw. pose proof (st_tree _ _ Hst) as Hm.
  change (mapBlockIndex (with_block s h i (Some p))) with (leaf_map (m := mapBlockIndex s) (h := h) (i := i) (p := p)) in *.
  split; [split|by eapply leaf_marks|done].
  - by eapply leaf_stored.
  - destruct Hx as [xd Ex]. exists xd. by apply leaf_old.
  - done.
  - by eapply leaf_indexed.
Qed.

Lemma begin_commit t : activeBatch t = None -> TxnBegin (TxnAbort t) ≫= TxnCommit = Some t.
Proof. intros Ht. cbn. f_equal. rewrite <- Ht. by destruct t. Qed.

(** Where the block is said to be, it can be read, and the rest of [written] *)
Definition writable (par : Params) (s : ChainState) (f p : Z) (b : CBlock) : Prop :=
  let '(hash, b) := CBlock_GetHash b in
  forall i, bi_hash i = hash -> bi_nFile i = f -> bi_nBlockPos i = p ->
    written (m := mapBlockIndex s) (i := i) (p := hashPrevBlock b) par b.

(** What a new block has done to the state *)
Definition block_added (par : Params) (s s' : ChainState) (best h prev : list Z) (trust : list Z) (all : bool) : Prop :=
  exists nd pd, mapBlockIndex s' !! h = Some nd /\ mapBlockIndex s !! prev = Some pd /\ pprev nd = Some prev /\
    bi_nHeight (node nd) = bi_nHeight (node pd) + 1 /\ bi_nChainTrust (node nd) = add_assign (bi_nChainTrust (node pd)) trust /\
    if op_gt (bi_nChainTrust (node nd)) (nBestChainTrust s) then
      pindexBest s' = Some h /\ hashBestChain s' = h /\ exists z, chain_at par s' z /\ z ∈ path (mapBlockIndex s') (Some h) /\ (all = true <-> z = h)
    else settled par s' best.

Lemma AddToBlockIndex_spec par fLimited s f p proof b r b' s' best :
  settled par s best -> cache_ok b -> uint_ok WIDTH256 (CBlock_GetHash b).1 -> is_Some (mapBlockIndex s !! hashPrevBlock b) -> writable par s f p b ->
  AddToBlockIndex par fLimited s f p proof b = (r, b', s') ->
  match r with
  | Done all => exists trust, GetBlockTrust (fTestNet par) (CBlockIndex_of f p b) = Some trust /\
      block_added par s s' best (CBlock_GetHash b).1 (hashPrevBlock b) trust all
  | Fail _ => settled par s' best /\ mempool s' = mempool s
  | Throws => True
  end.
Proof.
  intros [Hs Hbest Hhash Hgen] Hc Hu [pd Hp] Hw. unfold AddToBlockIndex, writable in *. pose proof (GetHash_again b) as Hag.
  destruct (GetHash_spec b Hc) as (_ & Hc' & Hhd & Hv). destruct (CBlock_GetHash b) as [hash b1]. cbn [fst snd] in *.
  assert (hashPrevBlock b1 = hashPrevBlock b) as Hprev by (unfold block_header in Hhd; congruence). rewrite Hprev in *.
  assert (CBlockIndex_of f p b1 = CBlockIndex_of f p b) as Hof.
  { unfold CBlockIndex_of, IsProofOfStake. unfold block_header in Hhd. rewrite Hv. by replace (blk_nVersion b1) with (blk_nVersion b) by congruence;
      replace (hashMerkleRoot b1) with (hashMerkleRoot b) by congruence; replace (blk_nTime b1) with (blk_nTime b) by congruence;
      replace (nBits b1) with (nBits b) by congruence; replace (nNonce b1) with (nNonce b) by congruence. }
  case_bool_decide as Hd; [by intros [= <- <- <-]|]. apply eq_None_not_Some in Hd. rewrite (bool_decide_eq_true_2 (is_Some (mapBlockIndex s !! hashPrevBlock b))) by eauto.
  destruct (new_index _ _ _ _ _ _ _ b1) as [[i|n|] b2] eqn:En; [|by intros [= <- <- <-]..].
  apply new_index_spec in En as (-> & Ih & If & Ip & _ & _ & Ihh & trust & Et & Ict); [|done].
  cbn [mbind option_bind] in Ihh, Ict. rewrite Hp in Ihh, Ict. cbn [fmap option_fmap option_map] in Ihh, Ict. rewrite Hof in Et.
  specialize (Hw i Ih If Ip). subst hash.
  pose proof (leaf_chain_at par s i (hashPrevBlock b) pd b1 best Hs Hd Hu Hp Ihh Hw) as Hs1. set (s1 := with_block _ _ _ _) in *.
  rewrite (begin_commit (txdb s1) (ca_idle _ _ _ Hs1)). assert (with_db s1 (txdb s1) = s1) as -> by done.
  assert (Hnd : mapBlockIndex s1 !! bi_hash i = Some (mkNode i (Some (hashPrevBlock b)) None)) by (apply lookup_insert_eq).
  assert (Hse1 : settled par s1 best) by (by split).
  destruct (op_gt (bi_nChainTrust i) (nBestChainTrust s1)) eqn:Egt.
  - intros Hr. pose proof (proj1 (SetBestChain_shape _ _ _ _ _ _ _ _ Hr)) as [Hcore _].
    destruct (core_lookup _ _ _ _ Hcore Hnd) as (nd & End & Hw' & Epp). pose proof (f_equal bi_nHeight Hw') as Enh. pose proof (f_equal bi_nChainTrust Hw') as Ent.
    cbn [pprev node bi_nHeight bi_nChainTrust with_money] in Epp, Enh, Ent.
    assert (Hdisk : disk par (mapBlockIndex s1) (bi_hash i) = Some (CBlock_GetHash b1).2).
    { rewrite Hag. cbn [snd]. unfold disk. rewrite Hnd. apply Hw. }
    apply (SetBestChain_spec par fLimited s1 best (bi_hash i) (mkNode i (Some (hashPrevBlock b)) None) b1) in Hr;
      [|done|done|done|done|exact Hnd|by rewrite Hprev|done|by rewrite Hag|exact Hdisk].
    destruct r as [all|n|]; [|split; [|apply Hr]|done].
    + destruct Hr as (R1 & R2 & _ & _ & R5). exists trust. split; [done|]. exists nd, pd. rewrite Ent.
      change (nBestChainTrust s) with (nBestChainTrust s1). rewrite Egt. split_and!; [done|done|done|congruence|done..].
    + destruct Hr as (Hch & Hg & _). unfold globals in Hg. injection Hg as G1 G2 G3 _ _ _ _. split; [done|by rewrite G2|by rewrite G3|by rewrite G1].
  - intros [= <- <- <-]. exists trust. split; [done|]. exists (mkNode i (Some (hashPrevBlock b)) None), pd. split_and!; [done..|].
    cbn [node]. change (nBestChainTrust s) with (nBestChainTrust s1). by rewrite Egt.
Qed.

(** ** [AcceptBlock] *)

(** What a block must satisfy where it attaches *)
Record context_rules (par : Params) (mode : CPMode) (s : ChainState) (hash : list Z) (prev : CBlockIndex) (b : CBlock) : Prop := {
  cr_pow : pow_allowed (fTestNet par) b (bi_nHeight prev + 1) prev = true;
  cr_target : GetNextTargetRequired (fTestNet par) (cs_nBestHeight s) (way (mapBlockIndex s) (Some (hashPrevBlock b))) (IsProofOfStake b) = Some (nBits b);
  cr_median : GetPastTimeLimit (way (mapBlockIndex s) (Some (hashPrevBlock b))) < GetBlockTime b;
  cr_drift : bi_GetBlockTime prev <= FutureDrift (GetBlockTime b);
  cr_final : Forall (fun tx => IsFinalTx (cs_nBestHeight s) (now par) tx (bi_nHeight prev + 1) (GetBlockTime b) = true) (vtx b);
  cr_hardened : CheckHardened (fTestNet par) (bi_nHeight prev + 1) hash = true;
  cr_stake : IsProofOfStake b = true -> exists proof, (check_kernel par s b).1 = Some proof;
  cr_sync : mode = STRICT -> CheckSync (sync s) (mapBlockIndex s) (pindexBest s) hash (hashPrevBlock b) = Some true;
  cr_height : head (vtx b) ≫= height_in_coinbase (bi_nHeight prev + 1) = Some true
}.

Lemma check_context_done par s hash prev pindexPrev b :
  check_context par s hash prev pindexPrev b = Done tt <->
  let n := bi_nHeight pindexPrev + 1 in
  pow_allowed (fTestNet par) b n pindexPrev = true /\
  GetNextTargetRequired (fTestNet par) (cs_nBestHeight s) (way (mapBlockIndex s) (Some prev)) (IsProofOfStake b) = Some (nBits b) /\
  GetPastTimeLimit (way (mapBlockIndex s) (Some prev)) < GetBlockTime b /\ bi_GetBlockTime pindexPrev <= FutureDrift (GetBlockTime b) /\
  Forall (fun tx => IsFinalTx (cs_nBestHeight s) (now par) tx n (GetBlockTime b) = true) (vtx b) /\ CheckHardened (fTestNet par) n hash = true.
Proof.
  unfold check_context, guard. cbv zeta. set (n := bi_nHeight pindexPrev + 1). destruct (pow_allowed _ b n pindexPrev); [|naive_solver].
  destruct (GetNextTargetRequired _ _ _ _) as [t|]; [|naive_solver]. destruct (Z.eqb_spec (nBits b) t) as [->|Hn]; [|split; [done|]; naive_solver].
  destruct (Z.leb_spec (GetBlockTime b) (GetPastTimeLimit (way (mapBlockIndex s) (Some prev)))); cbn [orb negb]; [split; [done|]; lia|].
  destruct (Z.ltb_spec (FutureDrift (GetBlockTime b)) (bi_GetBlockTime pindexPrev)); cbn [orb negb]; [split; [done|]; lia|].
  set (fin := fun tx => IsFinalTx _ _ tx n _). destruct (forallb fin (vtx b)) eqn:Ef.
  - rewrite forallb_forall in Ef. destruct (CheckHardened _ n hash); [|naive_solver]. split; [|done]. intros _. split_and!; [done..|lia| |done].
    apply Forall_forall. intros tx Htx%list_elem_of_In. by apply Ef.
  - split; [done|]. intros (_ & _ & _ & _ & Hf & _). exfalso. rewrite Forall_forall in Hf.
    assert (forallb fin (vtx b) = true); [|congruence]. apply forallb_forall. intros tx Htx. by apply Hf, list_elem_of_In.
Qed.

Lemma check_sync_height_done mode s hash prev n b :
  check_sync_height mode s hash prev n b = Done tt <->
  (exists ok, CheckSync (sync s) (mapBlockIndex s) (pindexBest s) hash prev = Some ok /\ (mode = STRICT -> ok = true)) /\
  head (vtx b) ≫= height_in_coinbase n = Some true.
Proof.
  unfold check_sync_height, guard. destruct (CheckSync _ _ _ _ _) as [ok|]; [|naive_solver].
  destruct (head (vtx b) ≫= height_in_coinbase n) as [[]|]; destruct mode, ok; naive_solver.
Qed.

Lemma VerifySignature_valid par txFrom txTo nIn fl ht c : cache_valid c -> cache_valid (VerifySignature par txFrom txTo nIn fl ht c).2.
Proof.
  intros Hc. unfold VerifySignature. destruct (vin txTo !! nIn) as [txin|]; [|done]. destruct (vout txFrom !! _) as [o|]; [|done].
  by apply run_check_spec.
Qed.

Lemma check_kernel_valid par s b : cache_valid (sigcache s) -> cache_valid (check_kernel par s b).2.
Proof.
  intros Hc. unfold check_kernel, CheckProofOfStake. destruct (IsProofOfStake b); [|done]. destruct (vtx b) as [|cb [|tx txs]]; [done..|].
  destruct (negb (IsCoinStake tx)); [done|]. destruct (vin tx) as [|txin ins]; [done|]. destruct (ReadFromDisk _ _) as [[txPrev x]|]; [|done].
  pose proof (VerifySignature_valid (par_at par s) txPrev tx 0 MANDATORY_SCRIPT_VERIFY_FLAGS 0 (sigcache s) Hc) as Hv.
  destruct (VerifySignature _ _ _ _ _ _ _) as [ok c]. cbn [snd] in Hv. destruct ok; cbn [negb]; [|done].
  destruct (read_header _ _); [|done]. by destruct (CheckStakeKernelHash _ _ _ _ _ _ _ _ _).
Qed.

Lemma settled_cache par s best c : settled par s best -> cache_valid c -> settled par (with_pool s (mempool s) c) best.
Proof. intros [[[Hst Hn _ Hi] Hk Hb] H1 H2 H3] Hc. split; [split; [by split|done|done]|done|done|done]. Qed.

(** ** Claims *)

(** C2: adding a block keeps the chain in order.  The block becomes a leaf under its
    parent, one higher, with the trust of its parent and its own; if that is more than
    the trust of the best chain the block is recorded as the best one, with marks and
    index on the way to it (on the block itself when every postponed block was
    connected); if not, or when the function fails, the best chain, its marks and its
    index are what they were. *)
Theorem add_block_keeps_chain par fLimited s f p proof b r b' s' best :
  settled par s best -> cache_ok b -> uint_ok WIDTH256 (CBlock_GetHash b).1 -> is_Some (mapBlockIndex s !! hashPrevBlock b) -> writable par s f p b ->
  AddToBlockIndex par fLimited s f p proof b = (r, b', s') ->
  match r with
  | Done all => exists trust, GetBlockTrust (fTestNet par) (CBlockIndex_of f p b) = Some trust /\
      block_added par s s' best (CBlock_GetHash b).1 (hashPrevBlock b) trust all
  | Fail _ => settled par s' best /\ mempool s' = mempool s
  | Throws => True
  end.
Proof. apply AddToBlockIndex_spec. Qed.

(** C1: a block that [AcceptBlock] accepts is new, attaches to a known block, has the
    target, the time, the final transactions, the stake and the checkpoints that its
    place asks for, and its coinbase begins with its height; it has been added as above,
    and then the pending checkpoint was tried.  A block it rejects changes neither the
    best chain nor the memory pool. *)
Theorem accept_block par mode fLimited s place b r b' s' best :
  settled par s best -> cache_ok b -> uint_ok WIDTH256 (CBlock_GetHash b).1 -> (forall f p, place = Some (f, p) -> writable par s f p b) ->
  AcceptBlock par mode fLimited s place b = (r, b', s') ->
  match r with
  | Done all => exists pd trust s1 q,
      mapBlockIndex s !! (CBlock_GetHash b).1 = None /\ mapBlockIndex s !! hashPrevBlock b = Some pd /\
      context_rules par mode s (CBlock_GetHash b).1 (node pd) (CBlock_GetHash b).2 /\
      block_added par s s1 best (CBlock_GetHash b).1 (hashPrevBlock b) trust all /\ AcceptPendingSyncCheckpoint par fLimited s1 = (q, s')
  | Fail _ => settled par s' best /\ mempool s' = mempool s
  | Throws => True
  end.
Proof.
  intros Hs Hc Hu Hw. unfold AcceptBlock. pose proof (GetHash_again b) as Hag. destruct (GetHash_spec b Hc) as (_ & Hc' & Hhd & Hv).
  assert (Hw' : forall f p, place = Some (f, p) -> writable par s f p (CBlock_GetHash b).2).
  { intros f p Hp. specialize (Hw f p Hp). unfold writable in *. by rewrite Hag. }
  destruct (CBlock_GetHash b) as [hash b1]. cbn [fst snd] in *. assert (hashPrevBlock b1 = hashPrevBlock b) as Hprev by (unfold block_header in Hhd; congruence).
  case_bool_decide as Hd; [by intros [= <- <- <-]|]. apply eq_None_not_Some in Hd. rewrite Hprev.
  destruct (mapBlockIndex s !! hashPrevBlock b) as [pd|] eqn:Epd; [|by intros [= <- <- <-]].
  destruct (check_context par s hash (hashPrevBlock b) (node pd) b1) as [[]|n|] eqn:Ecc; [|by intros [= <- <- <-]..].
  apply check_context_done in Ecc as (C1 & C2 & C3 & C4 & C5 & C6). pose proof (check_kernel_valid par s b1 (at_cache _ _ _ (ca_index _ _ _ (se_chain _ _ _ Hs)))) as Hk.
  destruct (check_kernel par s b1) as [proof c] eqn:Eck. cbn [snd] in Hk. pose proof (settled_cache _ _ _ _ Hs Hk) as Hs1.
  destruct proof as [proof|]; [|by intros [= <- <- <-]].
  destruct (check_sync_height mode _ _ _ _ b1) as [[]|n|] eqn:Ecs; [|by intros [= <- <- <-]..]. apply check_sync_height_done in Ecs as ((ok & S1 & S2) & S3).
  destruct place as [[f p]|]; [|by intros [= <- <- <-]]. specialize (Hw' f p eq_refl).
  destruct (AddToBlockIndex _ _ _ _ _ _ _) as [[r1 b2] s2] eqn:Ea.
  apply (AddToBlockIndex_spec par fLimited _ f p proof b1 r1 b2 s2 best) in Ea; [|done|done|by rewrite Hag|rewrite Hprev; by eexists|exact Hw'].
  rewrite Hag, Hprev in Ea. cbn [fst] in Ea. destruct r1 as [all|n|]; [|by intros [= <- <- <-]..].
  destruct Ea as (trust & _ & Ea). destruct (AcceptPendingSyncCheckpoint par fLimited s2) as [q s3] eqn:Eq. intros Hr.
  assert (r = Throws \/ r = Done all /\ s' = s3) as [->|[-> ->]] by (destruct q; injection Hr as <- <- <-; auto); [done|].
  exists pd, trust, s2, q. split_and!; [done..| |exact Ea|done]. split; rewrite ?Hprev; try done.
  - intros _. exists proof. by rewrite Eck.
  - intros Hst. cbn in S1. by rewrite S1, (S2 Hst).
Qed.
End accept.

(** ** Witness: the first block is mined *)

#[local] Existing Instance zero_hash_laws.

Definition mined_coinbase : CTransaction :=
  mkTx 1 1600000000 [mkTxIn COutPoint_null [0x51; 7] UINT_MAX] [mkTxOut (5 * COIN) [0x51]] 0.
Definition mined_block : CBlock :=
  mkBlock 4 (toy_hash_of 1) (toy_hash_of 0) 1600000000 0x1e0fffff 7 [mined_coinbase] [] [] (toy_hash_of 0) true.
#[local] Instance mined_files : BlockFiles := {| read_block f p := if (f =? 1) && (p =? 0) then Some mined_block else None |}.
Definition lone_tree : BlockMap := <[toy_hash_of 1 := mkNode genesis_index None None]> ∅.
Definition lone_state : ChainState := with_map first_state lone_tree.

Lemma mined_coinbase_ok : tx_ok mined_coinbase.
Proof.
  unfold mined_coinbase, tx_ok, vec_ok, txin_ok, txout_ok, outpoint_ok, vch_ok, fits, sfits, MAX_SIZE, UINT_MAX, COIN.
  repeat (apply Forall_cons_2 || apply Forall_nil_2 || split_and!); cbn; unfold is_digit; try lia; try done.
  all: repeat (apply Forall_cons_2 || apply Forall_nil_2 || split_and!); cbn; unfold is_digit; try lia; done.
Qed.

Lemma lone_lookup h nd : lone_tree !! h = Some nd -> h = toy_hash_of 1 /\ nd = mkNode genesis_index None None.
Proof. unfold lone_tree. intros [[<- <-]|[_ Hn]]%lookup_insert_Some; [done|]. by rewrite lookup_empty in Hn. Qed.

Lemma lone_settled : settled (B := ZBN) (H := zero_hash) (E := toy_ec) (P := no_secp) (G := mined_files) toy_params lone_state (toy_hash_of 1).
Proof.
  assert (Hm : tree_ok lone_tree) by (apply tree_check_ok; vm_compute; reflexivity).
  split; [|done..]. split; [|apply marks_check_ok; [exact Hm|by intros x [= <-]|vm_compute; reflexivity]|done].
  assert (forall h, db_ReadTxIndex (mkTxDB ∅ None false) h = None) as Hr.
  { intros h. rewrite db_ReadTxIndex_view. unfold view. cbn [activeBatch pdb]. by rewrite lookup_empty. }
  split; [|by eexists|intros e He; by apply not_elem_of_nil in He|].
  - split; [exact Hm| | | |].
    + intros x y [xd [-> _]%lone_lookup] [yd [-> _]%lone_lookup]. exists (toy_hash_of 1).
      assert (toy_hash_of 1 ∈ path lone_tree (Some (toy_hash_of 1))) by (apply (bool_decide_eq_true_1 _); vm_compute; reflexivity). done.
    + intros h nd [-> ->]%lone_lookup. cbn. unfold UINT_MAX, fits. lia.
    + intros h b (nd & [-> ->]%lone_lookup & Hd)%bind_Some. by vm_compute in Hd.
    + intros h nd p bs b [-> ->]%lone_lookup. done.
  - change (main_blocks (mapBlockIndex lone_state) (Some (toy_hash_of 1))) with (@nil (list Z)). split.
    + split; [done|]. intros h x _ Hx. by rewrite Hr in Hx.
    + exists [], (fun _ => None). split_and!; [constructor|constructor|]. intros h _. apply Hr.
Qed.

Lemma mined_cached : cache_ok (H := zero_hash) mined_block.
Proof. intros _. symmetry. apply zero_blockhash. Qed.

Lemma mined_writable : writable (B := ZBN) (H := zero_hash) (G := mined_files) toy_params lone_state 1 0 mined_block.
Proof.
  unfold writable. change (CBlock_GetHash (H := zero_hash) mined_block) with (toy_hash_of 0, mined_block). cbn beta iota. intros i Hi Hf Hp. split.
  - rewrite Hf, Hp. unfold UINT_MAX, fits. lia.
  - unfold ReadBlock. rewrite Hf, Hp, Hi. vm_compute. reflexivity.
  - split; [exact mined_cached|]. constructor; [exact mined_coinbase_ok|constructor].
  - intros bs. change (main_blocks (mapBlockIndex lone_state) (Some (hashPrevBlock mined_block))) with (@nil (list Z)). intros ->%Forall2_nil_inv_l.
    apply Forall_forall. intros tx _. apply not_elem_of_nil.
Qed.

Lemma mined_hash_ok : uint_ok WIDTH256 (CBlock_GetHash (H := zero_hash) mined_block).1.
Proof. apply uint_ok_assign64. lia. Qed.

Definition mined_step := AddToBlockIndex (B := ZBN) (H := zero_hash) (E := toy_ec) (P := no_secp) (F := toy_files) (G := mined_files)
  toy_params false lone_state 1 0 zero256 mined_block.
Definition accepted_step := AcceptBlock (B := ZBN) (H := zero_hash) (E := toy_ec) (P := no_secp) (F := toy_files) (G := mined_files)
  toy_params STRICT false lone_state (Some (1, 0)) mined_block.

Lemma mined_step_done : mined_step.1.1 = Done true.
Proof. vm_compute. reflexivity. Qed.
Lemma accepted_step_done : accepted_step.1.1 = Done true /\ pindexBest accepted_step.2 = Some (toy_hash_of 0).
Proof. vm_compute. split; reflexivity. Qed.

Lemma add_block_keeps_chain_witness : exists b s trust, mined_step = (Done true, b, s) /\
  block_added (B := ZBN) (H := zero_hash) (E := toy_ec) (P := no_secp) (G := mined_files) toy_params lone_state s (toy_hash_of 1) (toy_hash_of 0) (toy_hash_of 1) trust true.
Proof.
  pose proof mined_step_done as Hd. destruct mined_step as [[r b] s] eqn:Es. cbn [fst] in Hd. subst r.
  destruct (add_block_keeps_chain (B := ZBN) (H := zero_hash) (E := toy_ec) (P := no_secp) (F := toy_files) (G := mined_files)
    toy_params false lone_state 1 0 zero256 mined_block (Done true) b s (toy_hash_of 1) lone_settled mined_cached mined_hash_ok) as (trust & _ & Ha);
    [by eexists|exact mined_writable|exact Es|].
  exists b, s, trust. split; [reflexivity|]. change (CBlock_GetHash (H := zero_hash) mined_block) with (toy_hash_of 0, mined_block) in Ha. exact Ha.
Defined.

Lemma accept_block_witness : accepted_step.1.1 = Done true /\ exists pd,
  context_rules (B := ZBN) (H := zero_hash) (E := toy_ec) (P := no_secp) (F := toy_files) (G := mined_files) toy_params STRICT lone_state (toy_hash_of 0) pd mined_block.
Proof.
  split; [apply accepted_step_done|]. pose proof (proj1 accepted_step_done) as Hd. destruct accepted_step as [[r b] s] eqn:Es. cbn [fst] in Hd. subst r.
  destruct (accept_block (B := ZBN) (H := zero_hash) (E := toy_ec) (P := no_secp) (F := toy_files) (G := mined_files)
    toy_params STRICT false lone_state (Some (1, 0)) mined_block (Done true) b s (toy_hash_of 1) lone_settled mined_cached mined_hash_ok)
    as (pd & _ & _ & _ & _ & _ & Hr & _); [intros f p [= <- <-]; exact mined_writable|exact Es|].
  exists (node pd). change (CBlock_GetHash (H := zero_hash) mined_block) with (toy_hash_of 0, mined_block) in Hr. exact Hr.
Defined.
