(* ===== verification/Process.v ===== *)
(** * Blocks from peers: [ProcessBlock] and the buffer of orphan blocks of [main.cpp]

    A block whose parent is not known yet waits in [mapOrphanBlocks]; a pointer to a
    waiting block is its hash.  When a block is accepted those that wait for it are
    tried, in the order of arrival, then those that wait for these.  What the network,
    the clock and the disk answer is an argument, one answer for each block that is
    tried.  Asking peers for blocks is left out. *)

From S2P Require Import Prelude Uint256 BigNum Serialize Hash Transaction Script Canonical.
From S2P Require Import Interp Key SigCheck Templates KeyStore Scrypt Block TxRules TxDB Chain Rewards BlockRules Connect ConnectFacts BlockConnect.
From S2P Require Import MemPool BlockTree Checkpoints Kernel Reorganize ReorgFacts BestChain SyncProcess Accept AcceptFacts.

Definition MAX_ORPHAN_BLOCKS : Z := 2000.
Definition MAX_ORPHANDRAIN_BLOCKS : Z := 256.

(** [mapOrphanBlocksByPrev] is a multimap: the blocks of a parent in the order they came *)
Record BlockOrphans := mkBlockOrphans {
  mapOrphanBlocks : gmap (list Z) CBlock;
  mapOrphanBlocksByPrev : gmap (list Z) (list (list Z));
  setStakeSeenOrphan : gset (COutPoint * Z)
}.

Definition waiting (o : BlockOrphans) (hashPrev : list Z) : list (list Z) := default [] (mapOrphanBlocksByPrev o !! hashPrev).
Definition set_waiting (k : list Z) (l : list (list Z)) (m : gmap (list Z) (list (list Z))) : gmap (list Z) (list (list Z)) :=
  match l with [] => delete k m | _ => <[k := l]> m end.

(** Both [insert]s *)
Definition add_orphan (hash : list Z) (b : CBlock) (o : BlockOrphans) : BlockOrphans :=
  mkBlockOrphans (<[hash := b]> (mapOrphanBlocks o))
    (set_waiting (hashPrevBlock b) (waiting o (hashPrevBlock b) ++ [hash]) (mapOrphanBlocksByPrev o)) (setStakeSeenOrphan o).

(** Both [erase]s *)
Definition erase_orphan (hash : list Z) (b : CBlock) (o : BlockOrphans) : BlockOrphans :=
  mkBlockOrphans (delete hash (mapOrphanBlocks o))
    (set_waiting (hashPrevBlock b) (filter (fun h => h <> hash) (waiting o (hashPrevBlock b))) (mapOrphanBlocksByPrev o)) (setStakeSeenOrphan o).

Definition stake_seen (k : COutPoint * Z) (o : BlockOrphans) : BlockOrphans :=
  mkBlockOrphans (mapOrphanBlocks o) (mapOrphanBlocksByPrev o) ({[k]} ∪ setStakeSeenOrphan o).
Definition stake_forget (k : COutPoint * Z) (o : BlockOrphans) : BlockOrphans :=
  mkBlockOrphans (mapOrphanBlocks o) (mapOrphanBlocksByPrev o) (setStakeSeenOrphan o ∖ {[k]}).

(** The walk back to the first block that waits; a chain of orphans is not longer than
    their number *)
Fixpoint orphan_root (fuel : nat) (o : BlockOrphans) (b : CBlock) : CBlock :=
  match fuel with
  | O => b
  | S fuel => match mapOrphanBlocks o !! hashPrevBlock b with Some p => orphan_root fuel o p | None => b end
  end.
Definition WantedByOrphan (o : BlockOrphans) (b : CBlock) : list Z := hashPrevBlock (orphan_root (base.size (mapOrphanBlocks o)) o b).
Definition orphan_wants (o : BlockOrphans) (h : list Z) : option (list Z) := WantedByOrphan o <$> mapOrphanBlocks o !! h.

(** The entry not below a random hash, else the first *)
Definition pick_block (randomhash : list Z) (o : BlockOrphans) : option (list Z * CBlock) :=
  match filter (fun e => op_lt e.1 randomhash = false) (map_entries (mapOrphanBlocks o)) with
  | e :: _ => Some e
  | [] => head (map_entries (mapOrphanBlocks o))
  end.

Fixpoint limit_blocks_loop (fuel : nat) (nMaxOrphans : Z) (rnd : nat -> list Z) (o : BlockOrphans) (nEvicted : Z) : Z * BlockOrphans :=
  match fuel with
  | O => (nEvicted, o)
  | S fuel =>
      if nMaxOrphans <? Z.of_nat (base.size (mapOrphanBlocks o)) then
        match pick_block (rnd fuel) o with
        | Some (hash, b) =>
            let o := erase_orphan hash b o in
            let o := if IsProofOfStake b then stake_forget (GetProofOfStake b) o else o in
            limit_blocks_loop fuel nMaxOrphans rnd o (u32 (nEvicted + 1))
        | None => (nEvicted, o)
        end
      else (nEvicted, o)
  end.
Definition LimitOrphanBlocks (nMaxOrphans : Z) (rnd : nat -> list Z) (o : BlockOrphans) : Z * BlockOrphans :=
  limit_blocks_loop (base.size (mapOrphanBlocks o)) nMaxOrphans rnd o 0.

(** The answers for the block tried as number [n]: where it is written, whether the rate
    limiter refuses, whether the time is up after it *)
Record Env := mkEnv { place : nat -> option (Z * Z); limited : nat -> bool; late : nat -> bool }.

Section process.
Context {B : BNOps} {H : HashOps} {E : ECOps} {P : SecpOps} {F : Files} {G : BlockFiles}.

Definition GetOrphanRoot (o : BlockOrphans) (b : CBlock) : list Z := (CBlock_GetHash (orphan_root (base.size (mapOrphanBlocks o)) o b)).1.

(** [vWorkQueue] is what is left of the queue.  A round takes a block out of the buffer
    or a hash off the queue.  [Done true]: blocks may remain; [Throws]: [AcceptBlock]
    threw, or a pointer to no block *)
Fixpoint buffered_loop (fuel : nat) (par : Params) (mode : CPMode) (env : Env) (nMaxBlocks : Z) (vWorkQueue : list (list Z)) (nConnected : nat)
    (o : BlockOrphans) (s : ChainState) : result bool * BlockOrphans * ChainState :=
  match fuel with
  | O => (Done true, o, s)
  | S fuel =>
      match vWorkQueue with
      | [] => (Done false, o, s)
      | hashPrev :: rest =>
          match waiting o hashPrev with
          | [] => buffered_loop fuel par mode env nMaxBlocks rest nConnected o s
          | hashOrphan :: _ =>
              match mapOrphanBlocks o !! hashOrphan with
              | None => (Throws, o, s)
              | Some b =>
                  let n := S nConnected in
                  match AcceptBlock par mode (limited env n) s (place env n) b with
                  | (Throws, _, s) => (Throws, o, s)
                  | (r, _, s) =>
                      let vWorkQueue := match r with Done _ => vWorkQueue ++ [hashOrphan] | _ => vWorkQueue end in
                      let o := stake_forget (GetProofOfStake b) (erase_orphan hashOrphan b o) in
                      if (nMaxBlocks <=? Z.of_nat n) || late env n then (Done true, o, s)
                      else buffered_loop fuel par mode env nMaxBlocks vWorkQueue n o s
                  end
              end
          end
      end
  end.
Definition ProcessBufferedBlocks (par : Params) (mode : CPMode) (env : Env) (hashStart : list Z) (nMaxBlocks : Z) (o : BlockOrphans) (s : ChainState) :
    result bool * BlockOrphans * ChainState :=
  buffered_loop (2 * base.size (mapOrphanBlocks o) + 2) par mode env nMaxBlocks [hashStart] 0 o s.

Definition DrainBufferedBlocks (par : Params) (mode : CPMode) (env : Env) (o : BlockOrphans) (s : ChainState) : result bool * BlockOrphans * ChainState :=
  if bool_decide (mapOrphanBlocksByPrev o = ∅) then (Done false, o, s)
  else ProcessBufferedBlocks par mode env (hashBestChain s) MAX_ORPHANDRAIN_BLOCKS o s.

(** A block that does not extend the best chain must not be too easy *)
Definition enough_work (par : Params) (s : ChainState) (wanted : bool) (b : CBlock) : bool :=
  match GetLastSyncCheckpoint (sync s) (mapBlockIndex s) with
  | Some cp =>
      if op_ne (hashPrevBlock b) (hashBestChain s) && negb wanted then
        let chain := way (mapBlockIndex s) (Some cp) in
        let deltaTime := i64 (GetBlockTime b - match chain with c :: _ => bi_nTime c | [] => 0 end) in
        let nBase := match GetLastBlockIndex chain (IsProofOfStake b) with i :: _ => bi_nBits i | [] => 0 end in
        let required := if IsProofOfStake b then ComputeMinStake (fTestNet par) nBase deltaTime else ComputeMinWork (fTestNet par) nBase deltaTime in
        negb (bn_gt (SetCompact (nBits b)) (SetCompact required))
      else true
  | None => true
  end.

(** [Done] is [true], its flag whether the block is in the tree now or waits.  The score of
    a block that is too easy goes to the peer directly *)
Definition ProcessBlock (par : Params) (mode : CPMode) (env : Env) (rnd : nat -> list Z) (o : BlockOrphans) (s : ChainState) (b : CBlock) :
    result bool * CBlock * BlockOrphans * ChainState :=
  let '(hash, b) := CBlock_GetHash b in
  if bool_decide (is_Some (mapBlockIndex s !! hash)) then (Fail 0, b, o, s)
  else if bool_decide (is_Some (mapOrphanBlocks o !! hash)) then (Fail 0, b, o, s)
  else
    let wanted := WantedByPendingSyncCheckpoint (sync s) (orphan_wants o) hash in
    let allowed := bool_decide (is_Some (mapOrphanBlocksByPrev o !! hash)) || wanted in
    if IsProofOfStake b && bool_decide (GetProofOfStake b ∈ setStakeSeen s) && negb allowed then (Fail 0, b, o, s)
    else
      match CheckBlock (fTestNet par) (now par) (hashGenesisBlock par) true true true b with
      | (Fail n, b) => (Fail n, b, o, s)
      | (Throws, b) => (Throws, b, o, s)
      | (Done _, b) =>
          if negb (enough_work par s wanted b) then (Fail 100, b, o, s)
          else
            match mapBlockIndex s !! hashPrevBlock b with
            | None =>
                if IsProofOfStake b && bool_decide (GetProofOfStake b ∈ setStakeSeenOrphan o) && negb allowed then (Fail 0, b, o, s)
                else
                  let o := if IsProofOfStake b then stake_seen (GetProofOfStake b) o else o in
                  (Done false, b, (LimitOrphanBlocks MAX_ORPHAN_BLOCKS rnd (add_orphan hash b o)).2, s)
            | Some _ =>
                match AcceptBlock par mode (limited env 0) s (place env 0) b with
                | (Done _, b, s) =>
                    match ProcessBufferedBlocks par mode env hash MAX_ORPHANDRAIN_BLOCKS o s with
                    | (Throws, o, s) => (Throws, b, o, s)
                    | (_, o, s) => (Done true, b, o, s)
                    end
                | (Fail n, b, s) => (Fail n, b, o, s)
                | (Throws, b, s) => (Throws, b, o, s)
                end
            end
      end.
End process.

(** ** Lemmas: the two maps *)

Lemma lookup_set_waiting k l m k' : default [] (set_waiting k l m !! k') = if decide (k = k') then l else default [] (m !! k').
Proof.
  unfold set_waiting. case_decide as Hk; [subst k'|]; (destruct l as [|h l]; [|]); by rewrite ?lookup_delete_eq, ?lookup_insert_eq, ?lookup_delete_ne, ?lookup_insert_ne.
Qed.

Lemma set_waiting_used k l m : (forall k' l', m !! k' = Some l' -> l' <> []) -> forall k' l', set_waiting k l m !! k' = Some l' -> l' <> [].
Proof.
  intros Hm k' l'. unfold set_waiting. destruct l as [|h l]; [rewrite lookup_delete_Some; intros [_ ?]; by eapply Hm|].
  rewrite lookup_insert_Some. intros [[_ <-]|[_ ?]]; [done|by eapply Hm].
Qed.

Section facts.
Context {H : HashOps}.

(** Every block is under its hash and listed once, under its parent *)
Record block_orphans_ok (o : BlockOrphans) : Prop := {
  bo_hash h b : mapOrphanBlocks o !! h = Some b -> (CBlock_GetHash b).1 = h;
  bo_used k l : mapOrphanBlocksByPrev o !! k = Some l -> l <> [];
  bo_prev k h : h ∈ waiting o k <-> exists b, mapOrphanBlocks o !! h = Some b /\ hashPrevBlock b = k;
  bo_nodup k : NoDup (waiting o k)
}.

Lemma stake_forget_ok k o : block_orphans_ok o -> block_orphans_ok (stake_forget k o).
Proof. by intros [? ? ? ?]. Qed.
Lemma stake_seen_ok k o : block_orphans_ok o -> block_orphans_ok (stake_seen k o).
Proof. by intros [? ? ? ?]. Qed.

Lemma add_orphan_ok hash b o :
  block_orphans_ok o -> (CBlock_GetHash b).1 = hash -> mapOrphanBlocks o !! hash = None -> block_orphans_ok (add_orphan hash b o).
Proof.
  intros [Hh Hu Hp Hn] Hb Hnew.
  assert (Hw : forall k, waiting (add_orphan hash b o) k = if decide (hashPrevBlock b = k) then waiting o (hashPrevBlock b) ++ [hash] else waiting o k).
  { intros k. apply lookup_set_waiting. }
  split; [| | |]; cbn [mapOrphanBlocks mapOrphanBlocksByPrev add_orphan].
  - intros h c. rewrite lookup_insert_Some. intros [[<- <-]|[_ ?]]; [done|by apply Hh].
  - by apply set_waiting_used.
  - intros k h. rewrite Hw. setoid_rewrite lookup_insert_Some. case_decide as Hk.
    + rewrite elem_of_app, Hp, list_elem_of_singleton. split.
      * intros [(c & Hc & Hck)| ->]; [exists c; split; [right; split; [congruence|done]|congruence]|exists b; by split; [left|]].
      * intros (c & [[<- <-]|[Hne Hc]] & Hck); [by right|left; exists c; split; [done|congruence]].
    + rewrite Hp. split; intros (c & Hc & Hck); exists c; (split; [|done]); [right; split; [congruence|done]|].
      destruct Hc as [[<- <-]|[_ Hc]]; [congruence|done].
  - intros k. rewrite Hw. case_decide; [|done]. apply NoDup_app. split_and!; [done| |apply NoDup_singleton].
    intros h (c & Hc & _)%Hp ->%list_elem_of_singleton. congruence.
Qed.

Lemma erase_orphan_ok hash b o : block_orphans_ok o -> mapOrphanBlocks o !! hash = Some b -> block_orphans_ok (erase_orphan hash b o).
Proof.
  intros [Hh Hu Hp Hn] Hb.
  assert (Hw : forall k, waiting (erase_orphan hash b o) k = if decide (hashPrevBlock b = k) then filter (fun h => h <> hash) (waiting o (hashPrevBlock b)) else waiting o k).
  { intros k. apply lookup_set_waiting. }
  split; cbn [mapOrphanBlocks mapOrphanBlocksByPrev erase_orphan].
  - intros h c. rewrite lookup_delete_Some. intros [_ ?]. by apply Hh.
  - by apply set_waiting_used.
  - intros k h. rewrite Hw. setoid_rewrite lookup_delete_Some. case_decide as Hk.
    + rewrite list_elem_of_filter, Hp. split.
      * intros (Hne & c & Hc & Hck). exists c. split_and!; congruence.
      * intros (c & [Hne Hc] & Hck). split; [congruence|]. exists c. split; congruence.
    + rewrite Hp. split; intros (c & Hc & Hck); exists c; (split; [|done]); [|by destruct Hc]. split; [|done]. intros <-. congruence.
  - intros k. rewrite Hw. case_decide; [by apply NoDup_filter|done].
Qed.

Lemma pick_block_spec rnd o : (0 < base.size (mapOrphanBlocks o))%nat -> exists h b, pick_block rnd o = Some (h, b) /\ mapOrphanBlocks o !! h = Some b.
Proof.
  intros Hs. assert (Hin : forall h b, (h, b) ∈ map_entries (mapOrphanBlocks o) -> mapOrphanBlocks o !! h = Some b).
  { intros h b Hb. by apply elem_of_map_entries in Hb. }
  unfold pick_block. destruct (filter _ _) as [|[h b] l] eqn:Ef.
  - destruct (map_entries (mapOrphanBlocks o)) as [|[h b] l] eqn:Em.
    + exfalso. assert (length (map_entries (mapOrphanBlocks o)) = 0%nat) as Hl by (by rewrite Em). rewrite map_entries_perm, length_map_to_list in Hl. lia.
    + exists h, b. split; [done|]. apply Hin. by left.
  - exists h, b. split; [done|]. apply Hin. assert ((h, b) ∈ (h, b) :: l) as Hk by left. rewrite <- Ef in Hk. by apply list_elem_of_filter in Hk as [_ ?].
Qed.

Lemma erase_size hash b o : mapOrphanBlocks o !! hash = Some b -> base.size (mapOrphanBlocks (erase_orphan hash b o)) = pred (base.size (mapOrphanBlocks o)).
Proof. intros Hb. cbn [mapOrphanBlocks erase_orphan]. rewrite map_size_delete, Hb. lia. Qed.

Lemma limit_blocks_spec fuel n rnd o k :
  0 <= n -> block_orphans_ok o -> (base.size (mapOrphanBlocks o) <= fuel)%nat ->
  let r := limit_blocks_loop fuel n rnd o k in
  block_orphans_ok r.2 /\ mapOrphanBlocks r.2 ⊆ mapOrphanBlocks o /\
  Z.of_nat (base.size (mapOrphanBlocks r.2)) = Z.min n (Z.of_nat (base.size (mapOrphanBlocks o))).
Proof.
  intros Hn. revert o k. induction fuel as [|fuel IH]; intros o k Ho Hf; cbn [limit_blocks_loop]; [cbn; split_and!; [done..|lia]|].
  destruct (Z.ltb_spec n (Z.of_nat (base.size (mapOrphanBlocks o)))) as [Hlt|]; [|cbn; split_and!; [done..|lia]].
  destruct (pick_block_spec (rnd fuel) o) as (h & b & -> & Hb); [lia|]. pose proof (erase_size _ _ _ Hb) as Hs.
  set (o1 := if IsProofOfStake b then _ else _). assert (block_orphans_ok o1 /\ mapOrphanBlocks o1 = mapOrphanBlocks (erase_orphan h b o)) as [Ho1 E1].
  { unfold o1. pose proof (erase_orphan_ok _ _ _ Ho Hb). case_goal; [split; [by apply stake_forget_ok|done]|done]. }
  destruct (IH o1 (u32 (k + 1)) Ho1) as (H1 & H2 & H3); [rewrite E1; lia|]. split_and!; [done| |rewrite H3, E1, Hs; lia].
  etrans; [exact H2|]. rewrite E1. apply delete_subseteq.
Qed.
End facts.

(** ** Lemmas: the work queue *)

Section loop.
Context {B : BNOps} {H : HashOps} {E : ECOps} {P : SecpOps} {F : Files} {G : BlockFiles}.

(** What happened to the block [h] of the buffer *)
Definition was_accepted (par : Params) (mode : CPMode) (env : Env) (o : BlockOrphans) (h : list Z) : Prop :=
  exists b n s all b' s', mapOrphanBlocks o !! h = Some b /\ AcceptBlock par mode (limited env n) s (place env n) b = (Done all, b', s').
Definition was_rejected (par : Params) (mode : CPMode) (env : Env) (o : BlockOrphans) (h : list Z) : Prop :=
  exists b n s k b' s', mapOrphanBlocks o !! h = Some b /\ AcceptBlock par mode (limited env n) s (place env n) b = (Fail k, b', s').

(** A complete run from the queue [q]: [acc] are the hashes whose waiting blocks were tried *)
Definition drained (par : Params) (mode : CPMode) (env : Env) (q : list (list Z)) (o o' : BlockOrphans) (acc : list (list Z)) : Prop :=
  (forall h, h ∈ q -> h ∈ acc) /\ (forall h, h ∈ acc -> h ∈ q \/ was_accepted par mode env o h) /\
  (forall h b, mapOrphanBlocks o !! h = Some b -> mapOrphanBlocks o' !! h = None <-> hashPrevBlock b ∈ acc) /\
  (forall h b, mapOrphanBlocks o !! h = Some b -> mapOrphanBlocks o' !! h = None -> h ∈ acc \/ was_rejected par mode env o h).

Lemma was_sub par mode env o o1 h : mapOrphanBlocks o1 ⊆ mapOrphanBlocks o ->
  (was_accepted par mode env o1 h -> was_accepted par mode env o h) /\ (was_rejected par mode env o1 h -> was_rejected par mode env o h).
Proof.
  intros Hs. split; intros (b & n & s & k & b' & s' & Hb & Ha); exists b, n, s, k, b', s'; (split; [by eapply lookup_weaken|done]).
Qed.

(** One more block taken out in front of a complete run *)
Lemma drained_step par mode env q p rest h0 b0 o o1 o' acc r :
  q = p :: rest -> mapOrphanBlocks o !! h0 = Some b0 -> hashPrevBlock b0 = p -> mapOrphanBlocks o1 = delete h0 (mapOrphanBlocks o) ->
  mapOrphanBlocks o' ⊆ mapOrphanBlocks o1 ->
  (r = true /\ was_accepted par mode env o h0 \/ r = false /\ was_rejected par mode env o h0) ->
  drained par mode env (if r : bool then q ++ [h0] else q) o1 o' acc -> drained par mode env q o o' acc.
Proof.
  intros -> Hb0 Hp Ho1 Hsub Hr (D1 & D2 & D3 & D4). assert (Hsub1 : mapOrphanBlocks o1 ⊆ mapOrphanBlocks o) by (rewrite Ho1; apply delete_subseteq).
  assert (Hq : forall h, h ∈ p :: rest -> h ∈ acc).
  { intros h Hh. apply D1. destruct r; [apply elem_of_app; by left|done]. }
  assert (Hgone : mapOrphanBlocks o' !! h0 = None).
  { destruct (mapOrphanBlocks o' !! h0) as [c|] eqn:Ec; [|done]. apply (lookup_weaken _ (mapOrphanBlocks o1)) in Ec; [|done]. by rewrite Ho1, lookup_delete_eq in Ec. }
  split_and!; [done| | |].
  - intros h [Hh|Hh]%D2; [|right; by eapply was_sub]. destruct Hr as [[-> Hr]|[-> Hr]]; [|by left].
    apply elem_of_app in Hh as [Hh|Hh]; [by left|]. apply list_elem_of_singleton in Hh as ->. by right.
  - intros h b Hb. destruct (decide (h = h0)) as [->|Hn].
    + rewrite Hb0 in Hb. injection Hb as <-. split; [intros _; apply Hq; rewrite Hp; left|done].
    + apply D3. by rewrite Ho1, lookup_delete_ne.
  - intros h b Hb Hnone. destruct (decide (h = h0)) as [->|Hn].
    + destruct Hr as [[-> Hr]|[-> Hr]]; [left; apply D1, elem_of_app; right; by apply list_elem_of_singleton|by right].
    + destruct (D4 h b) as [?|?]; [by rewrite Ho1, lookup_delete_ne|done|by left|right; by eapply was_sub].
Qed.

Lemma buffered_loop_spec fuel par mode env nMax q n o s r o' s' :
  block_orphans_ok o -> (2 * base.size (mapOrphanBlocks o) + length q < fuel)%nat ->
  buffered_loop fuel par mode env nMax q n o s = (r, o', s') ->
  block_orphans_ok o' /\ mapOrphanBlocks o' ⊆ mapOrphanBlocks o /\
  (r = Done true -> exists k, (n < k)%nat /\ (nMax <= Z.of_nat k \/ late env k = true)) /\
  (r = Done false -> exists acc, drained par mode env q o o' acc).
Proof.
  revert q n o s. induction fuel as [|fuel IH]; intros q n o s Ho Hf; [lia|]. cbn [buffered_loop].
  destruct q as [|p rest].
  { intros [= <- <- <-]. split_and!; [done..|]. intros _. exists []. split_and!; [done|intros h Hh; by apply not_elem_of_nil in Hh| |congruence].
    intros h b Hb. rewrite Hb. split; [done|]. intros Hh. by apply not_elem_of_nil in Hh. }
  destruct (waiting o p) as [|h0 hs] eqn:Ew.
  - intros Hr. cbn [length] in Hf. apply IH in Hr as (R1 & R2 & R3 & R4); [|done|lia]. split_and!; [done..|]. intros Hd. destruct (R4 Hd) as (acc & D1 & D2 & D3 & D4).
    exists (p :: acc). split_and!.
    + intros h [->|Hh]%elem_of_cons; [left|right; by apply D1].
    + intros h [->|Hh]%elem_of_cons; [left; left|]. destruct (D2 h Hh); [left; by right|by right].
    + intros h b Hb. rewrite (D3 h b Hb), elem_of_cons. split; [by right|]. intros [Hp|?]; [|done].
      assert (h ∈ waiting o p) as Hw by (apply (bo_prev o Ho); eauto). rewrite Ew in Hw. by apply not_elem_of_nil in Hw.
    + intros h b Hb Hn. destruct (D4 h b Hb Hn); [left; by right|by right].
  - assert (h0 ∈ waiting o p) as (b0 & Hb0 & Hp)%(bo_prev o Ho) by (rewrite Ew; left). rewrite Hb0.
    pose proof (erase_size _ _ _ Hb0) as Hsz. assert (Hpos : (0 < base.size (mapOrphanBlocks o))%nat).
    { destruct (base.size (mapOrphanBlocks o)) eqn:E0; [|lia]. apply map_size_empty_inv in E0. by rewrite E0, lookup_empty in Hb0. }
    set (o1 := stake_forget (GetProofOfStake b0) (erase_orphan h0 b0 o)). assert (Ho1 : block_orphans_ok o1) by (apply stake_forget_ok; by apply erase_orphan_ok).
    assert (Hsub1 : mapOrphanBlocks o1 ⊆ mapOrphanBlocks o) by apply delete_subseteq. change (base.size (mapOrphanBlocks o1) = pred (base.size (mapOrphanBlocks o))) in Hsz.
    assert (Hnext : forall (ok : bool) s1, (ok = true /\ was_accepted par mode env o h0 \/ ok = false /\ was_rejected par mode env o h0) ->
      (if (nMax <=? Z.of_nat (S n)) || late env (S n) then (Done true, o1, s1)
       else buffered_loop fuel par mode env nMax (if ok then (p :: rest) ++ [h0] else p :: rest) (S n) o1 s1) = (r, o', s') ->
      block_orphans_ok o' /\ mapOrphanBlocks o' ⊆ mapOrphanBlocks o /\
      (r = Done true -> exists k, (n < k)%nat /\ (nMax <= Z.of_nat k \/ late env k = true)) /\
      (r = Done false -> exists acc, drained par mode env (p :: rest) o o' acc)).
    { intros ok s1 Hok. destruct ((nMax <=? Z.of_nat (S n)) || late env (S n)) eqn:Eb.
      - intros [= <- <- <-]. split_and!; [done..| |done]. intros _. exists (S n). split; [lia|]. apply orb_true_iff in Eb as [Eb|Eb]; [left; by apply Z.leb_le in Eb|by right].
      - intros Hr. apply IH in Hr as (R1 & R2 & R3 & R4); [|done|destruct ok; rewrite ?length_app; cbn [length] in *; lia]. split_and!; [done|by etrans| |].
        + intros Hd. destruct (R3 Hd) as (k & Hk & Hb). exists k. split; [lia|done].
        + intros Hd. destruct (R4 Hd) as (acc & Ha). exists acc. by eapply (drained_step par mode env (p :: rest) p rest h0 b0 o o1 o' acc ok). }
    destruct (AcceptBlock par mode (limited env (S n)) s (place env (S n)) b0) as [[[all|k|] b1] s1] eqn:Ea.
    + apply (Hnext true). left. split; [done|]. by exists b0, (S n), s, all, b1, s1.
    + apply (Hnext false). right. split; [done|]. by exists b0, (S n), s, k, b1, s1.
    + by intros [= <- <- <-].
Qed.

(** ** Claims *)

(** the buffer of orphan blocks stays consistent.  Every block waits under its own
    hash and is listed once, for its parent; processing a block and draining the buffer
    keep this, and after a block has been put in the buffer at most 2000 wait. *)
Theorem block_orphans_consistent par mode env rnd o s b r b' o' s' :
  block_orphans_ok o -> cache_ok b -> Z.of_nat (base.size (mapOrphanBlocks o)) <= MAX_ORPHAN_BLOCKS ->
  (ProcessBlock par mode env rnd o s b = (r, b', o', s') \/ DrainBufferedBlocks par mode env o s = (r, o', s')) ->
  block_orphans_ok o' /\ Z.of_nat (base.size (mapOrphanBlocks o')) <= MAX_ORPHAN_BLOCKS.
Proof.
  intros Ho Hc Hsz. assert (Hbuf : forall h n s r o' s', ProcessBufferedBlocks par mode env h n o s = (r, o', s') ->
    block_orphans_ok o' /\ Z.of_nat (base.size (mapOrphanBlocks o')) <= MAX_ORPHAN_BLOCKS).
  { intros h n s0 r0 o0 s1 Hr. unfold ProcessBufferedBlocks in Hr. apply buffered_loop_spec in Hr as (R1 & R2 & _); [|done|cbn; lia].
    split; [done|]. apply map_subseteq_size in R2. lia. }
  intros [Hr|Hr]; [|unfold DrainBufferedBlocks in Hr; case_hyp Hr; [by injection Hr as <- <- <-|by eapply Hbuf]].
  unfold ProcessBlock in Hr. pose proof (GetHash_again b) as Hag. destruct (GetHash_spec b Hc) as (Hh & Hc' & Hhd & _). destruct (CBlock_GetHash b) as [hash b1]. cbn [fst snd] in *.
  case_hyp Hr; [by injection Hr as <- <- <- <-|]. case_bool_decide as Hd; [by injection Hr as <- <- <- <-|]. apply eq_None_not_Some in Hd.
  case_hyp Hr; [by injection Hr as <- <- <- <-|].
  pose proof (CheckBlock_same (fTestNet par) (now par) (hashGenesisBlock par) true true true b1 Hc') as Hsame.
  destruct (CheckBlock _ _ _ true true true b1) as [[[]|n|] b2]; [|by injection Hr as <- <- <- <-..]. cbn [snd] in Hsame.
  case_hyp Hr; [by injection Hr as <- <- <- <-|]. destruct (mapBlockIndex s !! hashPrevBlock b2) as [pd|].
  - destruct (AcceptBlock par mode (limited env 0) s (place env 0) b2) as [[[all|k|] b3] s1]; [|by injection Hr as <- <- <- <-..].
    destruct (ProcessBufferedBlocks par mode env hash MAX_ORPHANDRAIN_BLOCKS o s1) as [[r2 o2] s2] eqn:Ep. apply Hbuf in Ep.
    destruct r2; by injection Hr as <- <- <- <-.
  - case_hyp Hr; [by injection Hr as <- <- <- <-|]. injection Hr as <- <- <- <-.
    set (o1 := if IsProofOfStake b2 then _ else _).
    assert (block_orphans_ok o1 /\ mapOrphanBlocks o1 = mapOrphanBlocks o) as [Ho1 E1] by (unfold o1; case_goal; [split; [by apply stake_seen_ok|done]|done]).
    destruct (limit_blocks_spec (base.size (mapOrphanBlocks (add_orphan hash b2 o1))) MAX_ORPHAN_BLOCKS rnd (add_orphan hash b2 o1) 0) as (L1 & _ & L3);
      [by unfold MAX_ORPHAN_BLOCKS|apply add_orphan_ok; [done| |by rewrite E1]|done|].
    + rewrite (same_block_hash b1 b2 Hc' Hsame), <- (same_block_hash b1 b1 Hc' (same_block_refl b1)). by rewrite Hag.
    + split; [exact L1|]. unfold LimitOrphanBlocks. rewrite L3. lia.
Qed.

(** C17: no orphan block is left behind.  Connecting the blocks that wait for [hashStart]
    ends; unless the bound on blocks or time is reached, every block that waits for
    [hashStart] or for a block accepted in the run has been tried, and no other; what was
    tried is out of the buffer, either accepted (and then its own waiting blocks were
    tried too) or rejected. *)
Theorem buffered_blocks_complete par mode env hashStart nMaxBlocks o s r o' s' :
  block_orphans_ok o -> ProcessBufferedBlocks par mode env hashStart nMaxBlocks o s = (r, o', s') ->
  match r with
  | Done true => exists k, (0 < k)%nat /\ (nMaxBlocks <= Z.of_nat k \/ late env k = true)
  | Done false => exists acc, drained par mode env [hashStart] o o' acc
  | _ => True
  end.
Proof.
  intros Ho Hr. apply buffered_loop_spec in Hr as (_ & _ & R3 & R4); [|done|cbn; lia]. destruct r as [[]| |]; [by apply R3|by apply R4|done..].
Qed.
End loop.

(** ** Witnesses: the mined block waits for its parent, and is connected *)

#[local] Existing Instances zero_hash_laws mined_files.

Definition calm : Env := mkEnv (fun _ => Some (1, 0)) (fun _ => false) (fun _ => false).
Definition one_orphan : BlockOrphans := add_orphan (toy_hash_of 0) mined_block (mkBlockOrphans ∅ ∅ ∅).

Lemma no_orphans_ok : block_orphans_ok (H := zero_hash) (mkBlockOrphans ∅ ∅ ∅).
Proof.
  split; cbn [mapOrphanBlocks mapOrphanBlocksByPrev].
  - intros h b. by rewrite lookup_empty.
  - intros k l. by rewrite lookup_empty.
  - intros k h. unfold waiting. cbn [mapOrphanBlocksByPrev]. rewrite lookup_empty. split; [intros Hh; by apply not_elem_of_nil in Hh|].
    intros (b & Hb & _). by rewrite lookup_empty in Hb.
  - intros k. unfold waiting. cbn [mapOrphanBlocksByPrev]. rewrite lookup_empty. constructor.
Qed.

Lemma one_orphan_ok : block_orphans_ok (H := zero_hash) one_orphan.
Proof. apply add_orphan_ok; [exact no_orphans_ok|reflexivity|reflexivity]. Qed.

Definition buffered_step := ProcessBufferedBlocks (B := ZBN) (H := zero_hash) (E := toy_ec) (P := no_secp) (F := toy_files) (G := mined_files)
  toy_params STRICT calm (toy_hash_of 1) 256 one_orphan lone_state.

Lemma buffered_step_done : buffered_step.1.1 = Done false /\ base.size (mapOrphanBlocks buffered_step.1.2) = 0%nat /\
  pindexBest buffered_step.2 = Some (toy_hash_of 0).
Proof. vm_compute. split_and!; reflexivity. Qed.

Lemma buffered_blocks_complete_witness : buffered_step.1.1 = Done false /\ exists acc,
  drained (B := ZBN) (H := zero_hash) (E := toy_ec) (P := no_secp) (F := toy_files) (G := mined_files) toy_params STRICT calm [toy_hash_of 1]
    one_orphan buffered_step.1.2 acc.
Proof.
  pose proof (proj1 buffered_step_done) as Hd. split; [exact Hd|]. destruct buffered_step as [[r o] s] eqn:Es. cbn [fst snd] in *. subst r.
  exact (buffered_blocks_complete (B := ZBN) (H := zero_hash) (E := toy_ec) (P := no_secp) (F := toy_files) (G := mined_files)
    toy_params STRICT calm (toy_hash_of 1) 256 one_orphan lone_state (Done false) o s one_orphan_ok Es).
Defined.

Definition drain_step := DrainBufferedBlocks (B := ZBN) (H := zero_hash) (E := toy_ec) (P := no_secp) (F := toy_files) (G := mined_files)
  toy_params STRICT calm one_orphan lone_state.

Lemma block_orphans_consistent_witness : drain_step.1.1 = Done false /\ block_orphans_ok (H := zero_hash) drain_step.1.2.
Proof.
  assert (drain_step.1.1 = Done false) as Hd by (vm_compute; reflexivity). split; [exact Hd|].
  destruct drain_step as [[r o] s] eqn:Es. cbn [fst snd] in *. subst r.
  destruct (block_orphans_consistent (B := ZBN) (H := zero_hash) (E := toy_ec) (P := no_secp) (F := toy_files) (G := mined_files)
    toy_params STRICT calm (fun _ => []) one_orphan lone_state mined_block (Done false) mined_block o s one_orphan_ok mined_cached) as [Ho _];
    [|by right|exact Ho]. vm_compute. by intros [=].
Defined.
