(* ===== verification/Util.v ===== *)
(** * Text utilities ([util.cpp], [util.h]): amounts of money, hexadecimal, base 64, base
    32 and percent-escaped dumps, wild cards, command-line arguments, and random
    integers.  A string is the list of its characters, each in 0..255; a C string ends
    at the first 0 or, in this model, at the end of the list. *)

From S2P Require Import Prelude.
From S2P Require Import Uint256.
From S2P Require Import Transaction.

(** ** Characters and decimal numbers *)

(** [str.c_str()] *)
Fixpoint c_str (str : list Z) : list Z :=
  match str with
  | c :: r => if c =? 0 then [] else c :: c_str r
  | [] => []
  end.

Definition isdigit (c : Z) : bool := (48 <=? c) && (c <=? 57).

(** The number of decimal digits of [n] *)
Fixpoint count_digits (fuel : nat) (n : Z) : nat :=
  match fuel with
  | O => 1
  | S f => if n <? 10 then 1 else S (count_digits f (n / 10))
  end.

Definition decimal (n : Z) : list Z :=
  (fun d => 48 + d) <$> rev (to_digits 10 (count_digits (Z.to_nat (Z.log2 n)) n) n).

(** [strprintf("%d", n)] and [strprintf("%06d", n)] *)
Definition i64tostr (n : Z) : list Z := if n <? 0 then 45 :: decimal (- n) else decimal n.

Definition pad0 (width : nat) (n : Z) : list Z :=
  if n <? 0 then 45 :: replicate (width - 1 - length (decimal (- n))) 48 ++ decimal (- n)
  else replicate (width - length (decimal n)) 48 ++ decimal n.

(** The leading digits of a text and their value *)
Fixpoint digits_prefix (s : list Z) (v : Z) : Z :=
  match s with
  | c :: r => if isdigit c then digits_prefix r (10 * v + (c - 48)) else v
  | [] => v
  end.

(** [strtoll(s, NULL, 10)]: white space, a sign, digits; clamped to 64 bits *)
Definition atoi64 (s : list Z) : Z :=
  let v :=
    match skip_spaces (c_str s) with
    | c :: r =>
        if c =? 45 then - digits_prefix r 0
        else if c =? 43 then digits_prefix r 0
        else digits_prefix (c :: r) 0
    | [] => 0
    end in
  Z.max (- 2 ^ 63) (Z.min (2 ^ 63 - 1) v).

(** [atoi], as the truncation of [strtol] *)
Definition atoi (s : list Z) : Z := i32 (atoi64 s).

(** ** Money *)

(** The loop that right-trims zeros; [i] is the index of the last character kept *)
Fixpoint trim_zeros (fuel : nat) (str : list Z) (i : nat) : nat :=
  match fuel with
  | O => 0
  | S f => if (nthZ str i =? 48) && isdigit (nthZ str (i - 2)) then S (trim_zeros f str (i - 1)) else 0
  end.

Definition FormatMoney (n : Z) (fPlus : bool) : list Z :=
  let n_abs := if 0 <? n then n else i64 (- n) in
  let quotient := Z.quot n_abs COIN in
  let remainder := Z.rem n_abs COIN in
  let str := i64tostr quotient ++ 46 :: pad0 6 remainder in
  let nTrim := trim_zeros (length str) str (length str - 1) in
  let str := take (length str - nTrim) str in
  if n <? 0 then 45 :: str
  else if fPlus && (0 <? n) then 43 :: str
  else str.

(** The digits after the point: what they are worth, and the rest of the text *)
Fixpoint money_units (p : list Z) (nMult nUnits : Z) : Z * list Z :=
  match p with
  | c :: r =>
      if isdigit c && (0 <? nMult) then money_units r (nMult / 10) (i64 (nUnits + nMult * (c - 48)))
      else (nUnits, p)
  | [] => (nUnits, [])
  end.

Fixpoint money_whole (p strWhole : list Z) : option (list Z * Z * list Z) :=
  match p with
  | c :: r =>
      if c =? 46 then let '(nUnits, p') := money_units r (CENT * 10) 0 in Some (strWhole, nUnits, p')
      else if isspace c then Some (strWhole, 0, p)
      else if negb (isdigit c) then None
      else money_whole r (strWhole ++ [c])
  | [] => Some (strWhole, 0, [])
  end.

Definition ParseMoney (pszIn : list Z) : option Z :=
  let p := skip_spaces (c_str pszIn) in
  match money_whole p [] with
  | None => None
  | Some (strWhole, nUnits, p) =>
      if negb (forallb isspace p) then None
      else if 10 <? Z.of_nat (length strWhole) then None
      else if (nUnits <? 0) || (COIN <? nUnits) then None
      else Some (i64 (i64 (atoi64 strWhole * COIN) + nUnits))
  end.

(** ** Hexadecimal *)

(** The table [phexdigit] of [util.cpp], with -1 for other characters *)
Definition hexdigit (c : Z) : Z :=
  if (48 <=? c) && (c <=? 57) then c - 48
  else if (65 <=? c) && (c <=? 70) then c - 55
  else if (97 <=? c) && (c <=? 102) then c - 87
  else -1.

Definition IsHex (str : list Z) : bool :=
  forallb (fun c => negb (hexdigit c <? 0)) str &&
  (0 <? Z.of_nat (length str)) && (Z.of_nat (length str) mod 2 =? 0).

(** [ParseHex]: the fuel counts the bytes produced *)
Fixpoint parse_hex (fuel : nat) (psz : list Z) : list Z :=
  match fuel with
  | O => []
  | S f =>
      match skip_spaces psz with
      | c1 :: c2 :: r =>
          if hexdigit c1 =? -1 then []
          else if hexdigit c2 =? -1 then []
          else (u8 (hexdigit c1 .<< 4) .| hexdigit c2) :: parse_hex f r
      | _ => []
      end
  end.

Definition ParseHex (psz : list Z) : list Z := parse_hex (length psz) (c_str psz).

(** [HexStr] without and with spaces *)
Definition HexStr (vch : list Z) (fSpaces : bool) : list Z :=
  mjoin (imap (fun i val =>
    (if fSpaces && negb (Nat.eqb i 0) then [32] else []) ++ [hexchar (val .>> 4); hexchar (val .& 15)]) vch).

(** ** Base 64 and base 32

    The encoders keep [mode], the number of bytes seen in the current group, and
    [nLeft], the bits of the last byte that are not yet written; the decoders keep the
    number of characters seen and the bits not yet stored. *)

(** Where a digit is in the alphabets [pbase64] and [pbase32] *)
Definition pbase64 (d : Z) : Z :=
  if d <? 26 then 65 + d else if d <? 52 then 71 + d else if d <? 62 then d - 4 else if d =? 62 then 43 else 47.

Definition pbase32 (d : Z) : Z := if d <? 26 then 97 + d else 24 + d.

(** [decode64_table] and [decode32_table] *)
Definition decode64 (c : Z) : Z :=
  if (65 <=? c) && (c <=? 90) then c - 65
  else if (97 <=? c) && (c <=? 122) then c - 71
  else if (48 <=? c) && (c <=? 57) then c + 4
  else if c =? 43 then 62
  else if c =? 47 then 63
  else -1.

Definition decode32 (c : Z) : Z :=
  if (65 <=? c) && (c <=? 90) then c - 65
  else if (97 <=? c) && (c <=? 122) then c - 97
  else if (50 <=? c) && (c <=? 55) then c - 24
  else -1.

(** One byte of [EncodeBase64]: the characters written and the new mode and bits *)
Definition encode64_step (mode : nat) (nLeft enc : Z) : list Z * (nat * Z) :=
  match mode with
  | 0%nat => ([pbase64 (enc .>> 2)], (1%nat, (enc .& 3) .<< 4))
  | 1%nat => ([pbase64 (nLeft .| (enc .>> 4))], (2%nat, (enc .& 15) .<< 2))
  | _ => ([pbase64 (nLeft .| (enc .>> 6)); pbase64 (enc .& 63)], (0%nat, nLeft))
  end.

Fixpoint encode64_loop (pch : list Z) (mode : nat) (nLeft : Z) : list Z :=
  match pch with
  | enc :: r => let '(out, (mode, nLeft)) := encode64_step mode nLeft enc in out ++ encode64_loop r mode nLeft
  | [] =>
      match mode with
      | 0%nat => []
      | 1%nat => [pbase64 nLeft; 61; 61]
      | _ => [pbase64 nLeft; 61]
      end
  end.

Definition EncodeBase64 (pch : list Z) : list Z := encode64_loop pch 0 0.

(** One character of [DecodeBase64]: the bytes stored and the new mode and bits *)
Definition decode64_step (mode : nat) (nLeft dec : Z) : list Z * (nat * Z) :=
  match mode with
  | 0%nat => ([], (1%nat, dec))
  | 1%nat => ([u8 ((nLeft .<< 2) .| (dec .>> 4))], (2%nat, dec .& 15))
  | 2%nat => ([u8 ((nLeft .<< 4) .| (dec .>> 2))], (3%nat, dec .& 3))
  | _ => ([u8 ((nLeft .<< 6) .| dec)], (0%nat, nLeft))
  end.

(** The loop stops at the first character outside the alphabet, at the end of the text
    at the latest; it returns the bytes, the mode, the bits left and that text *)
Fixpoint decode64_loop (p : list Z) (mode : nat) (nLeft : Z) : list Z * (nat * Z * list Z) :=
  match p with
  | c :: r =>
      if decode64 c =? -1 then ([], (mode, nLeft, p))
      else
        let '(out, (mode, nLeft)) := decode64_step mode nLeft (decode64 c) in
        let '(rest, fin) := decode64_loop r mode nLeft in (out ++ rest, fin)
  | [] => ([], (mode, nLeft, []))
  end.

(** [pads n p]: [n] characters [=], then one outside the alphabet [decode] *)
Definition pads (decode : Z -> Z) (n : nat) (p : list Z) : bool :=
  forallb (fun i => nthZ p i =? 61) (seq 0 n) && (decode (nthZ p n) =? -1).

Definition invalid64 (mode : nat) (nLeft : Z) (p : list Z) : bool :=
  match mode with
  | 0%nat => false
  | 1%nat => true
  | 2%nat => negb (nLeft =? 0) || negb (pads decode64 2 p)
  | _ => negb (nLeft =? 0) || negb (pads decode64 1 p)
  end.

(** The bytes and [*pfInvalid] *)
Definition DecodeBase64 (p : list Z) : list Z * bool :=
  let '(vchRet, (mode, nLeft, p)) := decode64_loop (c_str p) 0 0 in
  (vchRet, invalid64 mode nLeft p).

Definition encode32_step (mode : nat) (nLeft enc : Z) : list Z * (nat * Z) :=
  match mode with
  | 0%nat => ([pbase32 (enc .>> 3)], (1%nat, (enc .& 7) .<< 2))
  | 1%nat => ([pbase32 (nLeft .| (enc .>> 6)); pbase32 ((enc .>> 1) .& 31)], (2%nat, (enc .& 1) .<< 4))
  | 2%nat => ([pbase32 (nLeft .| (enc .>> 4))], (3%nat, (enc .& 15) .<< 1))
  | 3%nat => ([pbase32 (nLeft .| (enc .>> 7)); pbase32 ((enc .>> 2) .& 31)], (4%nat, (enc .& 3) .<< 3))
  | _ => ([pbase32 (nLeft .| (enc .>> 5)); pbase32 (enc .& 31)], (0%nat, nLeft))
  end.

Definition nPadding (mode : nat) : nat :=
  match mode with 1%nat => 6 | 2%nat => 4 | 3%nat => 3 | 4%nat => 1 | _ => 0 end.

Fixpoint encode32_loop (pch : list Z) (mode : nat) (nLeft : Z) : list Z :=
  match pch with
  | enc :: r => let '(out, (mode, nLeft)) := encode32_step mode nLeft enc in out ++ encode32_loop r mode nLeft
  | [] => if Nat.eqb mode 0 then [] else pbase32 nLeft :: replicate (nPadding mode) 61
  end.

Definition EncodeBase32 (pch : list Z) : list Z := encode32_loop pch 0 0.

Definition decode32_step (mode : nat) (nLeft dec : Z) : list Z * (nat * Z) :=
  match mode with
  | 0%nat => ([], (1%nat, dec))
  | 1%nat => ([u8 ((nLeft .<< 3) .| (dec .>> 2))], (2%nat, dec .& 3))
  | 2%nat => ([], (3%nat, (nLeft .<< 5) .| dec))
  | 3%nat => ([u8 ((nLeft .<< 1) .| (dec .>> 4))], (4%nat, dec .& 15))
  | 4%nat => ([u8 ((nLeft .<< 4) .| (dec .>> 1))], (5%nat, dec .& 1))
  | 5%nat => ([], (6%nat, (nLeft .<< 5) .| dec))
  | 6%nat => ([u8 ((nLeft .<< 2) .| (dec .>> 3))], (7%nat, dec .& 7))
  | _ => ([u8 ((nLeft .<< 5) .| dec)], (0%nat, nLeft))
  end.

Fixpoint decode32_loop (p : list Z) (mode : nat) (nLeft : Z) : list Z * (nat * Z * list Z) :=
  match p with
  | c :: r =>
      if decode32 c =? -1 then ([], (mode, nLeft, p))
      else
        let '(out, (mode, nLeft)) := decode32_step mode nLeft (decode32 c) in
        let '(rest, fin) := decode32_loop r mode nLeft in (out ++ rest, fin)
  | [] => ([], (mode, nLeft, []))
  end.

Definition invalid32 (mode : nat) (nLeft : Z) (p : list Z) : bool :=
  match mode with
  | 0%nat => false
  | 1%nat | 3%nat | 6%nat => true
  | 2%nat => negb (nLeft =? 0) || negb (pads decode32 6 p)
  | 4%nat => negb (nLeft =? 0) || negb (pads decode32 4 p)
  | 5%nat => negb (nLeft =? 0) || negb (pads decode32 3 p)
  | _ => negb (nLeft =? 0) || negb (pads decode32 1 p)
  end.

Definition DecodeBase32 (p : list Z) : list Z * bool :=
  let '(vchRet, (mode, nLeft, p)) := decode32_loop (c_str p) 0 0 in
  (vchRet, invalid32 mode nLeft p).

(** ** Dump files *)

Definition EncodeDumpString (str : list Z) : list Z :=
  mjoin ((fun c =>
    if (c <=? 32) || (128 <=? c) || (c =? 37) then 37 :: HexStr [c] false else [c]) <$> str).

(** The value of a hexadecimal digit as [DecodeDumpString] computes it, from a signed
    character *)
Definition dump_digit (c : Z) : Z := (swrap 8 c .>> 6) * 9 + ((swrap 8 c - 48) .& 15).

Fixpoint DecodeDumpString (str : list Z) : list Z :=
  match str with
  | c :: r =>
      match r with
      | c1 :: c2 :: r' =>
          if c =? 37 then u8 ((dump_digit c1 .<< 4) .| dump_digit c2) :: DecodeDumpString r'
          else c :: DecodeDumpString r
      | _ => c :: DecodeDumpString r
      end
  | [] => []
  end.

(** ** Wild cards *)

Fixpoint WildcardMatch_c (mask psz : list Z) : bool :=
  match mask with
  | [] => bool_decide (psz = [])
  | m :: mask' =>
      if m =? 42 then
        (fix star (psz : list Z) : bool :=
           WildcardMatch_c mask' psz || match psz with _ :: psz' => star psz' | [] => false end) psz
      else
        match psz with
        | [] => false
        | c :: psz' => if m =? 63 then WildcardMatch_c mask' psz' else if c =? m then WildcardMatch_c mask' psz' else false
        end
  end.

Definition WildcardMatch (str mask : list Z) : bool := WildcardMatch_c (c_str mask) (c_str str).

(** ** Decimal numbers read back *)

Lemma count_digits_bound f n : 0 <= n < 10 ^ Z.of_nat (S f) -> n < 10 ^ Z.of_nat (count_digits f n).
Proof.
  revert n. induction f as [|f IH]; intros n Hn; cbn [count_digits]; [lia|].
  destruct (Z.ltb_spec n 10) as [Hl|Hl]; [by rewrite Z.pow_1_r|].
  rewrite Nat2Z.inj_succ, Z.pow_succ_r in Hn |- * by lia.
  assert (0 <= n / 10 < 10 ^ Z.of_nat (S f)) as Hd by (split; [apply Z.div_pos; lia|apply Z.div_lt_upper_bound; lia]).
  specialize (IH _ Hd). pose proof (Z.div_mod n 10). pose proof (Z.mod_pos_bound n 10). lia.
Qed.

Lemma count_digits_le f n k : 0 <= n < 10 ^ Z.of_nat k -> (0 < k)%nat -> (count_digits f n <= k)%nat.
Proof.
  revert n k. induction f as [|f IH]; intros n k Hn Hk; cbn [count_digits]; [lia|].
  destruct (Z.ltb_spec n 10) as [Hl|Hl]; [lia|]. destruct k as [|k]; [lia|].
  rewrite Nat2Z.inj_succ, Z.pow_succ_r in Hn by lia. apply le_n_S, IH.
  - split; [apply Z.div_pos; lia|apply Z.div_lt_upper_bound; lia].
  - destruct k; [simpl in Hn; lia|lia].
Qed.

Lemma count_digits_log n : 0 <= n -> n < 10 ^ Z.of_nat (count_digits (Z.to_nat (Z.log2 n)) n).
Proof.
  intros Hn. apply count_digits_bound. split; [done|].
  rewrite Nat2Z.inj_succ, Z2Nat.id by apply Z.log2_nonneg.
  destruct (Z.eq_dec n 0) as [-> |Hz]; [done|].
  pose proof (Z.log2_spec n ltac:(lia)) as [_ Hu]. pose proof (Z.log2_nonneg n).
  eapply Z.lt_le_trans; [exact Hu|]. apply Z.pow_le_mono_l. lia.
Qed.

Lemma digits_prefix_chars l s v :
  Forall (is_digit 10) l -> (forall c, head s = Some c -> isdigit c = false) ->
  digits_prefix (((fun d => 48 + d) <$> l) ++ s) v = v * 10 ^ Z.of_nat (length l) + digits_val 10 (rev l).
Proof.
  intros Hl Hs. revert v. induction Hl as [|d l Hd _ IH]; intros v.
  - cbn [fmap list_fmap app length rev]. rewrite digits_val_nil. change (10 ^ Z.of_nat 0) with 1.
    destruct s as [|c s]; cbn [digits_prefix]; [lia|]. rewrite (Hs c eq_refl). lia.
  - cbn [fmap list_fmap app length rev digits_prefix]. red in Hd.
    replace (isdigit (48 + d)) with true by (unfold isdigit; symmetry; apply andb_true_intro; split; apply Z.leb_le; lia).
    unfold fmap in IH. rewrite IH, digits_val_app, digits_val_cons, digits_val_nil, length_rev, Nat2Z.inj_succ, Z.pow_succ_r by lia. lia.
Qed.

Lemma decimal_digits n : Forall (fun c => isdigit c = true) (decimal n).
Proof.
  apply Forall_fmap, Forall_rev. eapply Forall_impl; [apply to_digits_digits; lia|].
  intros d Hd. red in Hd. cbn. unfold isdigit. apply andb_true_intro; split; apply Z.leb_le; lia.
Qed.

Lemma decimal_value n s v :
  0 <= n -> (forall c, head s = Some c -> isdigit c = false) ->
  digits_prefix (decimal n ++ s) v = v * 10 ^ Z.of_nat (length (decimal n)) + n.
Proof.
  intros Hn Hs. unfold decimal. rewrite digits_prefix_chars; [|apply Forall_rev, to_digits_digits; lia|done].
  rewrite rev_involutive, digits_val_to_digits by lia. rewrite Z.mod_small by (split; [lia|by apply count_digits_log]).
  by rewrite length_fmap.
Qed.

Lemma length_decimal n : length (decimal n) = count_digits (Z.to_nat (Z.log2 n)) n.
Proof. unfold decimal. by rewrite length_fmap, length_rev, length_to_digits. Qed.

Lemma decimal_length_le n k : 0 <= n -> (0 < k)%nat -> (length (decimal n) <= k)%nat <-> n < 10 ^ Z.of_nat k.
Proof.
  intros Hn Hk. rewrite length_decimal. split; intros H.
  - eapply Z.lt_le_trans; [by apply count_digits_log|]. apply Z.pow_le_mono_r; lia.
  - by apply count_digits_le.
Qed.

Lemma decimal_pos n : (0 < length (decimal n))%nat.
Proof. rewrite length_decimal. destruct (Z.to_nat _); cbn; [lia|]. case_goal; lia. Qed.

Lemma isdigit_spec c : isdigit c = true <-> 48 <= c <= 57.
Proof. unfold isdigit. rewrite andb_true_iff, !Z.leb_le. done. Qed.

Lemma isspace_digit c : isdigit c = true -> isspace c = false.
Proof. rewrite isdigit_spec. unfold isspace. intros. bool_prop. apply orb_false_iff; split; [apply Z.eqb_neq; lia|apply andb_false_iff; right; apply Z.leb_gt; lia]. Qed.

Lemma c_str_id s : Forall (fun c => c <> 0) s -> c_str s = s.
Proof. induction 1 as [|c s Hc _ IH]; [done|]. cbn. case_goal; bool_prop; [done|]. by rewrite IH. Qed.

(** The decimal form of an integer reads back. *)
Lemma atoi64_i64tostr n : - 2 ^ 63 <= n < 2 ^ 63 -> atoi64 (i64tostr n) = n.
Proof.
  intros Hn.
  assert (Hz : forall m, Forall (fun c => c <> 0) (decimal m)).
  { intros m. eapply Forall_impl; [apply decimal_digits|]. intros c. cbn. rewrite isdigit_spec. lia. }
  assert (Hv : forall m, 0 <= m -> digits_prefix (decimal m) 0 = m).
  { intros m Hm. rewrite <- (app_nil_r (decimal m)), decimal_value by done. lia. }
  unfold i64tostr, atoi64. destruct (Z.ltb_spec n 0) as [Hl|Hl].
  - cbn [c_str]. change (45 =? 0) with false. cbv iota. rewrite c_str_id by done. cbn [skip_spaces]. change (isspace 45) with false.
    cbv zeta iota. rewrite Z.eqb_refl, Hv by lia. lia.
  - rewrite c_str_id by done. pose proof (decimal_digits n) as Hd. pose proof (decimal_pos n) as Hp. specialize (Hv n Hl).
    destruct (decimal n) as [|c r]; [simpl in Hp; lia|]. inversion_clear Hd as [|? ? Hc _].
    cbn [skip_spaces]. rewrite (isspace_digit _ Hc). apply isdigit_spec in Hc.
    repeat case_goal; bool_prop; lia.
Qed.

(** ** Amounts read back *)

(** Trimming stops two characters after the point, and only removes zeros. *)
Lemma trim_zeros_spec f str i p :
  nthZ str p = 46 -> (p + 2 <= i)%nat ->
  let k := trim_zeros f str i in
  (k <= i - (p + 2))%nat /\ forall j, (i - k < j <= i)%nat -> nthZ str j = 48.
Proof.
  intros Hp. revert i. induction f as [|f IH]; intros i Hi; cbn [trim_zeros]; [split; [lia|intros; lia]|].
  destruct ((nthZ str i =? 48) && isdigit (nthZ str (i - 2))) eqn:E; [|split; [lia|intros; lia]].
  apply andb_true_iff in E as [E1 E2]. apply Z.eqb_eq in E1.
  assert (i <> p + 2)%nat.
  { intros ->. replace (p + 2 - 2)%nat with p in E2 by lia. by rewrite Hp in E2. }
  destruct (IH (i - 1)%nat ltac:(lia)) as [H1 H2]. split; [lia|].
  intros j Hj. destruct (decide (j = i)) as [-> |]; [done|]. apply H2. lia.
Qed.

Lemma isdigit_chars l : Forall (is_digit 10) l -> Forall (fun c => isdigit c = true) ((fun d => 48 + d) <$> l).
Proof.
  intros Hl. apply Forall_fmap. eapply Forall_impl; [exact Hl|]. intros d Hd. red in Hd. cbn. apply isdigit_spec. lia.
Qed.

(** The digits after the point, most significant first *)
Lemma money_units_spec l m u :
  Forall (is_digit 10) l -> (length l <= m)%nat -> (m <= 6)%nat -> 0 <= u <= 10 ^ 6 - 10 ^ Z.of_nat m ->
  money_units ((fun d => 48 + d) <$> l) (10 ^ Z.of_nat m / 10) u =
    (u + digits_val 10 (rev l) * 10 ^ Z.of_nat (m - length l), []).
Proof.
  intros Hl. revert m u. induction Hl as [|d l Hd Hl IH]; intros m u Hm H6 Hu.
  - cbn [fmap list_fmap money_units rev length]. rewrite digits_val_nil. f_equal. lia.
  - cbn [fmap list_fmap money_units rev length] in *. destruct m as [|m]; [lia|]. red in Hd.
    assert (Hpow : 10 ^ Z.of_nat (S m) = 10 * 10 ^ Z.of_nat m) by (rewrite Nat2Z.inj_succ, Z.pow_succ_r; lia).
    assert (Hpos : 0 < 10 ^ Z.of_nat m) by (apply Z.pow_pos_nonneg; lia).
    rewrite Hpow, (Z.mul_comm 10), Z.div_mul by lia.
    replace (isdigit (48 + d)) with true by (symmetry; apply isdigit_spec; lia).
    replace (0 <? 10 ^ Z.of_nat m) with true by (symmetry; by apply Z.ltb_lt).
    cbn [andb]. replace (48 + d - 48) with d by lia. rewrite Hpow in Hu.
    assert (Hb : 0 <= 10 ^ Z.of_nat m * d <= 9 * 10 ^ Z.of_nat m) by nia.
    unfold i64 at 1. rewrite (Z.mod_small _ (2 ^ 64)) by lia.
    replace (u + 10 ^ Z.of_nat m * d + 2 ^ (64 - 1) - 2 ^ (64 - 1)) with (u + 10 ^ Z.of_nat m * d) by lia.
    unfold fmap in IH. rewrite IH by lia. f_equal. rewrite digits_val_app, digits_val_cons, digits_val_nil, length_rev.
    replace (S m - S (length l))%nat with (m - length l)%nat by lia.
    replace (10 ^ Z.of_nat m) with (10 ^ Z.of_nat (length l) * 10 ^ Z.of_nat (m - length l)) by (rewrite <- Z.pow_add_r by lia; f_equal; lia).
    ring.
Qed.

Lemma money_whole_digits l s acc :
  Forall (fun c => isdigit c = true) l -> money_whole (l ++ s) acc = money_whole s (acc ++ l).
Proof.
  intros Hl. revert acc. induction Hl as [|c l Hc _ IH]; intros acc; cbn [app]; [by rewrite app_nil_r|].
  cbn [money_whole]. rewrite (isspace_digit _ Hc), Hc. apply isdigit_spec in Hc.
  destruct (Z.eqb_spec c 46) as [-> |]; [lia|]. cbn. rewrite IH. by rewrite <- app_assoc.
Qed.

Lemma to_digits_pad k m n : 0 <= n < 10 ^ Z.of_nat k -> (k <= m)%nat -> to_digits 10 m n = to_digits 10 k n ++ replicate (m - k) 0.
Proof.
  intros Hn Hk. apply (digits_val_inj 10); [lia|by apply to_digits_digits| | |].
  - apply Forall_app. split; [by apply to_digits_digits|]. apply Forall_replicate. red. lia.
  - rewrite length_app, length_replicate, !length_to_digits. lia.
  - rewrite digits_val_app, digits_val_replicate_0, !digits_val_to_digits by lia.
    assert (10 ^ Z.of_nat k <= 10 ^ Z.of_nat m) by (apply Z.pow_le_mono_r; lia).
    rewrite !Z.mod_small by lia. lia.
Qed.

Lemma pad0_digits m n : 0 <= n < 10 ^ Z.of_nat m -> (0 < m)%nat -> pad0 m n = (fun d => 48 + d) <$> rev (to_digits 10 m n).
Proof.
  intros Hn Hm. unfold pad0. destruct (Z.ltb_spec n 0) as [?|_]; [lia|].
  assert (Hk : (length (decimal n) <= m)%nat) by (apply decimal_length_le; lia).
  rewrite length_decimal in Hk |- *. pose proof (count_digits_log n ltac:(lia)).
  rewrite (to_digits_pad (count_digits (Z.to_nat (Z.log2 n)) n) m n) by (lia || done).
  rewrite rev_app_distr, fmap_app. unfold decimal. f_equal.
  induction (m - _)%nat as [|j IH]; [done|]. cbn [replicate rev]. rewrite fmap_app, <- IH. cbn.
  clear. induction j as [|j IH]; [done|]. cbn. by f_equal.
Qed.

Lemma rev_replicate_same {A} k (x : A) : rev (replicate k x) = replicate k x.
Proof. induction k as [|k IH]; [done|]. cbn [replicate rev]. rewrite IH. symmetry. apply replicate_cons_app. Qed.

(** The text of an amount: the whole part, a point, and the first digits of the six
    decimals, which are worth the remainder. *)
Lemma FormatMoney_text n :
  0 <= n -> exists l, FormatMoney n false = decimal (n / COIN) ++ 46 :: ((fun d => 48 + d) <$> l) /\
    Forall (is_digit 10) l /\ (2 <= length l <= 6)%nat /\
    digits_val 10 (rev l) * 10 ^ Z.of_nat (6 - length l) = n mod COIN.
Proof.
  intros Hn. unfold COIN. pose proof (Z.mod_pos_bound n 1000000 ltac:(lia)) as Hr.
  unfold FormatMoney. change COIN with 1000000.
  assert ((if 0 <? n then n else i64 (- n)) = n) as ->.
  { destruct (Z.ltb_spec 0 n); [done|]. replace n with 0 by lia. done. }
  rewrite Z.quot_div_nonneg, Z.rem_mod_nonneg by lia.
  pose proof (Z.div_pos n 1000000 Hn ltac:(lia)) as Hq. unfold i64tostr.
  destruct (Z.ltb_spec (n / 1000000) 0) as [?|_]; [lia|].
  rewrite pad0_digits by (change (10 ^ Z.of_nat 6) with 1000000; lia).
  set (D := rev (to_digits 10 6 (n mod 1000000))).
  assert (HDl : length D = 6%nat) by (unfold D; by rewrite length_rev, length_to_digits).
  assert (HD : Forall (is_digit 10) D) by (apply Forall_rev, to_digits_digits; lia).
  assert (HDv : digits_val 10 (rev D) = n mod 1000000).
  { unfold D. rewrite rev_involutive, digits_val_to_digits by lia. change (10 ^ Z.of_nat 6) with 1000000. apply Z.mod_small. lia. }
  set (q := decimal (n / 1000000)). set (str := q ++ 46 :: ((fun d => 48 + d) <$> D)).
  assert (Hlen : length str = (length q + 7)%nat) by (unfold str; rewrite length_app; cbn [length]; rewrite length_fmap; lia).
  assert (Hpt : nthZ str (length q) = 46).
  { unfold str. replace (length q) with (length q + 0)%nat by lia. by rewrite nthZ_app_r. }
  destruct (trim_zeros_spec (length str) str (length str - 1) (length q) Hpt ltac:(lia)) as [Hk Hz].
  set (k := trim_zeros (length str) str (length str - 1)) in *.
  assert ((n <? 0) = false) as -> by (apply Z.ltb_ge; lia). cbn [andb].
  exists (take (6 - k) D). split; [|split; [|split]].
  - rewrite Hlen. unfold str. replace (length q + 7 - k)%nat with (length q + S (6 - k))%nat by lia.
    rewrite take_app_add. cbn [take]. by rewrite <- fmap_take.
  - by apply Forall_take.
  - rewrite length_take. lia.
  - rewrite length_take, HDl. replace (6 - min (6 - k) 6)%nat with k by lia.
    assert (Htail : drop (6 - k) D = replicate k 0).
    { apply list_eq. intros i. rewrite lookup_drop. destruct (decide (i < k)%nat) as [Hi|Hi].
      - rewrite lookup_replicate_2 by done. destruct (lookup_lt_is_Some_2 D (6 - k + i)) as [d Hd]; [lia|]. rewrite Hd.
        specialize (Hz (length q + S (6 - k + i))%nat ltac:(lia)). unfold str in Hz. rewrite nthZ_app_r in Hz.
        change (nthZ ((fun d => 48 + d) <$> D) (6 - k + i) = 48) in Hz.
        unfold nthZ in Hz. rewrite list_lookup_fmap, Hd in Hz. cbn in Hz. f_equal. lia.
      - rewrite lookup_ge_None_2 by lia. by rewrite lookup_ge_None_2 by (rewrite length_replicate; lia). }
    rewrite <- HDv. rewrite <- (take_drop (6 - k) D) at 2. rewrite Htail, rev_app_distr, digits_val_app.
    replace (rev (replicate k 0)) with (replicate k 0).
    { rewrite digits_val_replicate_0, length_replicate. lia. }
    symmetry. apply rev_replicate_same.
Qed.

(** Amounts of money survive being printed and read back: for every 64-bit amount but
    the least one, [ParseMoney] reads the text [FormatMoney] wrote back to that amount if
    it is not negative, has at most ten digits before the point and no plus sign was
    asked for, and rejects the text otherwise; trimming zeros never changes the amount. *)
Theorem money_roundtrip (n : Z) (fPlus : bool) :
  - 2 ^ 63 < n < 2 ^ 63 ->
  ParseMoney (FormatMoney n fPlus) =
    if (0 <=? n) && (n <? 10 ^ 16) && negb (fPlus && (0 <? n)) then Some n else None.
Proof.
  intros Hn.
  assert (Hsign : forall c s, c = 45 \/ c = 43 -> ParseMoney (c :: s) = None) by (by intros c s [-> | ->]).
  destruct (Z.leb_spec 0 n) as [Hp|Hp]; cbn [andb].
  2: { unfold FormatMoney. destruct (Z.ltb_spec n 0); [|lia]. apply Hsign. by left. }
  destruct (fPlus && (0 <? n)) eqn:Es.
  { rewrite andb_false_r. unfold FormatMoney. rewrite Es. destruct (Z.ltb_spec n 0); [lia|]. apply Hsign. by right. }
  rewrite andb_true_r.
  assert (FormatMoney n fPlus = FormatMoney n false) as -> by (unfold FormatMoney; by rewrite Es).
  destruct (FormatMoney_text n Hp) as (l & -> & Hl & Hlen & Hv).
  pose proof (Z.div_pos n COIN Hp ltac:(done)) as Hq. pose proof (decimal_digits (n / COIN)) as Hd.
  pose proof (isdigit_chars l Hl) as Hc. unfold ParseMoney.
  rewrite c_str_id.
  2: { apply Forall_app. split; [|constructor; [done|]]; (eapply Forall_impl; [eassumption|]); cbn; intros c; rewrite isdigit_spec; lia. }
  assert (skip_spaces (decimal (n / COIN) ++ 46 :: ((fun d => 48 + d) <$> l)) = decimal (n / COIN) ++ 46 :: ((fun d => 48 + d) <$> l)) as ->.
  { pose proof (decimal_pos (n / COIN)) as Hpos. destruct (decimal (n / COIN)) as [|c r]; [simpl in Hpos; lia|].
    inversion_clear Hd as [|? ? H0 _]. cbn. by rewrite (isspace_digit _ H0). }
  rewrite money_whole_digits by done. cbn [app money_whole]. rewrite Z.eqb_refl.
  change (CENT * 10) with (10 ^ Z.of_nat 6 / 10). rewrite (money_units_spec l 6 0) by (done || lia).
  rewrite Hv. cbn [forallb negb]. pose proof (Z.mod_pos_bound n COIN ltac:(done)) as Hr.
  pose proof (decimal_length_le (n / COIN) 10 Hq ltac:(lia)) as H10. change (10 ^ Z.of_nat 10) with (10 ^ 10) in H10.
  pose proof (Z.div_mod n COIN ltac:(done)) as Hdm. unfold COIN in *.
  destruct (Z.ltb_spec 10 (Z.of_nat (length (decimal (n / 1000000))))) as [Hb|Hb].
  { destruct (Z.ltb_spec n (10 ^ 16)); [|done]. assert (n / 1000000 < 10 ^ 10) by (apply Z.div_lt_upper_bound; lia). lia. }
  assert (n / 1000000 < 10 ^ 10) by lia.
  replace ((0 + n mod 1000000 <? 0) || (1000000 <? 0 + n mod 1000000)) with false
    by (symmetry; apply orb_false_iff; split; apply Z.ltb_ge; lia).
  destruct (Z.ltb_spec n (10 ^ 16)); [|lia]. f_equal.
  pose proof (atoi64_i64tostr (n / 1000000) ltac:(lia)) as Ha. unfold i64tostr in Ha.
  destruct (Z.ltb_spec (n / 1000000) 0); [lia|]. rewrite Ha.
  rewrite (swrap_small _ (n / 1000000 * 1000000)), swrap_small; lia.
Qed.

Lemma money_roundtrip_witness : - 2 ^ 63 < 1230000 < 2 ^ 63 /\ ParseMoney (FormatMoney 1230000 false) = Some 1230000.
Proof. split; [lia|]. apply (money_roundtrip 1230000 false). lia. Defined.

(** ** Encodings read back *)

Definition byte_values : list Z := seqZ 0 256.

Lemma byte_values_spec b : is_byte b -> b ∈ byte_values.
Proof. intros Hb. apply elem_of_seqZ. red in Hb. lia. Qed.

Lemma forallb_bytes (f : Z -> bool) b : forallb f byte_values = true -> is_byte b -> f b = true.
Proof. intros Hf Hb. rewrite forallb_forall in Hf. apply Hf, list_elem_of_In. by apply byte_values_spec. Qed.

(** *** Simulation of an encoder by its decoder

    After each byte the decoder has stored all earlier bytes, and the bits of the last
    byte [c] are split between the two: [kept mode c] is what the encoder holds of it,
    and the mode and bits of the decoder. *)

Section text_code.
Context (enc_step dec_step : nat -> Z -> Z -> list Z * (nat * Z)) (decode : Z -> Z).
Context (enc_loop : list Z -> nat -> Z -> list Z) (dec_loop : list Z -> nat -> Z -> list Z * (nat * Z * list Z)).
Context (invalid : nat -> Z -> list Z -> bool) (size : nat) (kept : nat -> Z -> Z * (nat * Z)).

(** Decoding characters that are all in the alphabet *)
Fixpoint dec_all (p : list Z) (mode : nat) (nLeft : Z) : list Z * (nat * Z) :=
  match p with
  | c :: r =>
      let '(out, (mode, nLeft)) := dec_step mode nLeft (decode c) in
      let '(rest, fin) := dec_all r mode nLeft in (out ++ rest, fin)
  | [] => ([], (mode, nLeft))
  end.

Definition pending (mode : nat) (c : Z) : list Z := if Nat.eqb mode 0 then [] else [c].

(** The encoder in [mode] with [el] and the decoder in [dm] with [dl], after [c] *)
Definition coupled (mode : nat) (c el : Z) (dm : nat) (dl : Z) : Prop :=
  (mode < size)%nat /\ is_byte c /\ if Nat.eqb mode 0 then dm = 0%nat else (el, (dm, dl)) = kept mode c.

(** A character of the alphabet *)
Definition coded (c : Z) : Prop := (decode c =? -1) = false /\ c <> 0.

Hypothesis enc_loop_cons : forall b r m l,
  enc_loop (b :: r) m l = let '(out, (m', l')) := enc_step m l b in out ++ enc_loop r m' l'.
Hypothesis dec_loop_cons : forall c r m l, dec_loop (c :: r) m l =
  if decode c =? -1 then ([], (m, l, c :: r))
  else let '(out, (m', l')) := dec_step m l (decode c) in let '(rest, fin) := dec_loop r m' l' in (out ++ rest, fin).
Hypothesis coupled_step : forall mode c b el dm dl,
  coupled mode c el dm dl -> is_byte b ->
  let '(out, (m', el')) := enc_step mode el b in
  let '(got, (dm', dl')) := dec_all out dm dl in
  Forall coded out /\ coupled m' b el' dm' dl' /\ got ++ pending m' b = pending mode c ++ [b].
Hypothesis coupled_end : forall mode c el dm dl,
  coupled mode c el dm dl ->
  Forall (fun c => c <> 0) (enc_loop [] mode el) /\
  exists dm' dl' p, dec_loop (enc_loop [] mode el) dm dl = (pending mode c, (dm', dl', p)) /\ invalid dm' dl' p = false.

Lemma dec_loop_app p s m l :
  Forall coded p ->
  dec_loop (p ++ s) m l =
    let '(out, (m', l')) := dec_all p m l in let '(rest, fin) := dec_loop s m' l' in (out ++ rest, fin).
Proof using dec_loop_cons.
  intros Hp. revert m l. induction Hp as [|c p [Hc _] Hp IH]; intros m l; cbn [app dec_all].
  { by destruct (dec_loop s m l). }
  rewrite dec_loop_cons, Hc.
  destruct (dec_step m l (decode c)) as [out [m1 l1]]. rewrite IH.
  destruct (dec_all p m1 l1) as [o2 [m2 l2]]. destruct (dec_loop s m2 l2) as [o3 f3]. by rewrite app_assoc.
Qed.

Lemma text_decodes r mode c el dm dl :
  coupled mode c el dm dl -> bytes_ok r ->
  Forall (fun c => c <> 0) (enc_loop r mode el) /\
  exists dm' dl' p, dec_loop (enc_loop r mode el) dm dl = (pending mode c ++ r, (dm', dl', p)) /\ invalid dm' dl' p = false.
Proof using All.
  intros Hk Hr. revert mode c el dm dl Hk. induction Hr as [|b r Hb Hr IH]; intros mode c el dm dl Hk.
  - rewrite app_nil_r. by apply coupled_end.
  - pose proof (coupled_step mode c b el dm dl Hk Hb) as Hs. rewrite enc_loop_cons.
    destruct (enc_step mode el b) as [out [m' el']]. destruct (dec_all out dm dl) as [got [dm1 dl1]] eqn:Ed.
    destruct Hs as (A & Hk' & Hg). destruct (IH _ _ _ _ _ Hk') as (B1 & dm' & dl' & p & B2 & B3). split.
    + apply Forall_app. split; [|done]. eapply Forall_impl; [exact A|]. by intros x [_ ?].
    + exists dm', dl', p. split; [|done]. rewrite dec_loop_app, Ed, B2 by done. f_equal. rewrite app_assoc, Hg, <- app_assoc. done.
Qed.
End text_code.

(** What is kept of byte [c] by the encoder and the decoder of each base *)
Definition kept64 (mode : nat) (c : Z) : Z * (nat * Z) :=
  match mode with
  | 0%nat => (0, (0%nat, 0))
  | 1%nat => (c mod 4 * 16, (1%nat, c / 4))
  | _ => (c mod 16 * 4, (2%nat, c / 16))
  end.

Definition kept32 (mode : nat) (c : Z) : Z * (nat * Z) :=
  match mode with
  | 0%nat => (0, (0%nat, 0))
  | 1%nat => (c mod 8 * 4, (1%nat, c / 8))
  | 2%nat => (c mod 2 * 16, (3%nat, c / 2))
  | 3%nat => (c mod 16 * 2, (4%nat, c / 16))
  | _ => (c mod 4 * 8, (6%nat, c / 4))
  end.

(** Shifts, masks and disjoint unions of bits as arithmetic *)
Lemma land_mask x k : 0 <= k -> x .& (2 ^ k - 1) = x mod 2 ^ k.
Proof. intros Hk. rewrite <- Z.land_ones by done. by rewrite Z.ones_equiv, <- Z.sub_1_r. Qed.

Lemma land_masks x :
  x .& 1 = x mod 2 /\ x .& 3 = x mod 4 /\ x .& 7 = x mod 8 /\ x .& 15 = x mod 16 /\ x .& 31 = x mod 32 /\ x .& 63 = x mod 64.
Proof.
  by pose proof (land_mask x 1 ltac:(lia)); pose proof (land_mask x 2 ltac:(lia)); pose proof (land_mask x 3 ltac:(lia));
    pose proof (land_mask x 4 ltac:(lia)); pose proof (land_mask x 5 ltac:(lia)); pose proof (land_mask x 6 ltac:(lia)).
Qed.

Lemma lor_mul_add k m a r : m = 2 ^ k -> 0 <= k -> 0 <= r < m -> (a * m) .| r = a * m + r.
Proof. intros -> Hk Hr. rewrite Z.lor_comm, <- Z.shiftl_mul_pow2, lor_shiftl_add, Z.shiftl_mul_pow2 by done. lia. Qed.

Ltac divmod_lia := Z.div_mod_to_equations; lia.

(** Write the shifts and masks of the goal as arithmetic. *)
Ltac bits_arith :=
  repeat match goal with
  | |- context [?x .& 1] => rewrite (proj1 (land_masks x))
  | |- context [?x .& 3] => rewrite (proj1 (proj2 (land_masks x)))
  | |- context [?x .& 7] => rewrite (proj1 (proj2 (proj2 (land_masks x))))
  | |- context [?x .& 15] => rewrite (proj1 (proj2 (proj2 (proj2 (land_masks x)))))
  | |- context [?x .& 31] => rewrite (proj1 (proj2 (proj2 (proj2 (proj2 (land_masks x))))))
  | |- context [?x .& 63] => rewrite (proj2 (proj2 (proj2 (proj2 (proj2 (land_masks x))))))
  | |- context [?x .<< ?n] => let m := eval vm_compute in (2 ^ n) in replace (x .<< n) with (x * m) by (symmetry; apply (Z.shiftl_mul_pow2 x n); lia)
  | |- context [?x .>> ?n] => let m := eval vm_compute in (2 ^ n) in replace (x .>> n) with (x / m) by (symmetry; apply (Z.shiftr_div_pow2 x n); lia)
  | |- context [(?a * ?m) .| ?r] => let k := eval vm_compute in (Z.log2 m) in rewrite (lor_mul_add k m a r) by first [reflexivity | lia | divmod_lia]
  end.

Lemma coded64 d : 0 <= d < 64 -> decode64 (pbase64 d) = d /\ coded decode64 (pbase64 d).
Proof.
  intros Hd. assert (Ha : forallb (fun d => (decode64 (pbase64 d) =? d) && negb (decode64 (pbase64 d) =? -1) && negb (pbase64 d =? 0)) (seqZ 0 64) = true)
    by (vm_compute; reflexivity).
  rewrite forallb_forall in Ha. specialize (Ha d ltac:(apply list_elem_of_In, elem_of_seqZ; lia)).
  rewrite !andb_true_iff, !negb_true_iff, Z.eqb_eq, (Z.eqb_neq _ 0) in Ha. by destruct Ha as [[? ?] ?].
Qed.

Lemma coded32 d : 0 <= d < 32 -> decode32 (pbase32 d) = d /\ coded decode32 (pbase32 d).
Proof.
  intros Hd. assert (Ha : forallb (fun d => (decode32 (pbase32 d) =? d) && negb (decode32 (pbase32 d) =? -1) && negb (pbase32 d =? 0)) (seqZ 0 32) = true)
    by (vm_compute; reflexivity).
  rewrite forallb_forall in Ha. specialize (Ha d ltac:(apply list_elem_of_In, elem_of_seqZ; lia)).
  rewrite !andb_true_iff, !negb_true_iff, Z.eqb_eq, (Z.eqb_neq _ 0) in Ha. by destruct Ha as [[? ?] ?].
Qed.

(** One byte through encoder and decoder: the characters decode to their digits, and
    the rest is arithmetic. *)
Ltac text_step coded_lemma :=
  bits_arith; cbn [dec_all];
  repeat match goal with
  | |- context [pbase64 ?d] =>
      lazymatch goal with H : decode64 (pbase64 d) = _ |- _ => fail | _ => destruct (coded_lemma d) as [? ?]; [divmod_lia|] end
  | |- context [pbase32 ?d] =>
      lazymatch goal with H : decode32 (pbase32 d) = _ |- _ => fail | _ => destruct (coded_lemma d) as [? ?]; [divmod_lia|] end
  end;
  repeat match goal with H : decode64 _ = _ |- _ => rewrite H | H : decode32 _ = _ |- _ => rewrite H end;
  cbn [decode64_step decode32_step app pending Nat.eqb]; bits_arith; unfold wrap;
  (split; [by repeat (apply Forall_cons; split); try apply Forall_nil|]);
  (split; [split; [lia|split; [red; lia|cbn [Nat.eqb kept64 kept32]; try reflexivity; do 2 f_equal; divmod_lia]]|
    try reflexivity; repeat f_equal; divmod_lia]).

Lemma coupled_step64 mode c b el dm dl :
  coupled 3 kept64 mode c el dm dl -> is_byte b ->
  let '(out, (m', el')) := encode64_step mode el b in
  let '(got, (dm', dl')) := dec_all decode64_step decode64 out dm dl in
  Forall (coded decode64) out /\ coupled 3 kept64 m' b el' dm' dl' /\ got ++ pending m' b = pending mode c ++ [b].
Proof.
  intros (Hm & Hc & Hk) Hb. red in Hc, Hb. destruct mode as [|[|[|mode]]]; [| | |lia]; cbn [Nat.eqb kept64] in Hk.
  - subst dm. cbn [encode64_step]. text_step coded64.
  - injection Hk as -> -> ->. cbn [encode64_step]. text_step coded64.
  - injection Hk as -> -> ->. cbn [encode64_step]. text_step coded64.
Qed.

Lemma coupled_step32 mode c b el dm dl :
  coupled 5 kept32 mode c el dm dl -> is_byte b ->
  let '(out, (m', el')) := encode32_step mode el b in
  let '(got, (dm', dl')) := dec_all decode32_step decode32 out dm dl in
  Forall (coded decode32) out /\ coupled 5 kept32 m' b el' dm' dl' /\ got ++ pending m' b = pending mode c ++ [b].
Proof.
  intros (Hm & Hc & Hk) Hb. red in Hc, Hb. destruct mode as [|[|[|[|[|mode]]]]]; [| | | | |lia]; cbn [Nat.eqb kept32] in Hk.
  - subst dm. cbn [encode32_step]. text_step coded32.
  - injection Hk as -> -> ->. cbn [encode32_step]. text_step coded32.
  - injection Hk as -> -> ->. cbn [encode32_step]. text_step coded32.
  - injection Hk as -> -> ->. cbn [encode32_step]. text_step coded32.
  - injection Hk as -> -> ->. cbn [encode32_step]. text_step coded32.
Qed.

Lemma coupled_end64 mode c el dm dl :
  coupled 3 kept64 mode c el dm dl ->
  Forall (fun c => c <> 0) (encode64_loop [] mode el) /\
  exists dm' dl' p, decode64_loop (encode64_loop [] mode el) dm dl = (pending mode c, (dm', dl', p)) /\ invalid64 dm' dl' p = false.
Proof.
  intros (Hm & Hc & Hk). red in Hc. destruct mode as [|[|[|mode]]]; [| | |lia]; cbn [Nat.eqb kept64] in Hk.
  - subst dm. split; [done|]. by exists 0%nat, dl, [].
  - injection Hk as -> -> ->. destruct (coded64 (c mod 4 * 16)) as [E [C1 C2]]; [divmod_lia|].
    split; [by repeat (apply Forall_cons; split); try apply Forall_nil|].
    cbn [encode64_loop decode64_loop]. rewrite C1, E. cbn [decode64_step]. bits_arith. exists 2%nat, 0, [61; 61].
    split; [|done]. unfold wrap. cbn [pending Nat.eqb app]. repeat f_equal; divmod_lia.
  - injection Hk as -> -> ->. destruct (coded64 (c mod 16 * 4)) as [E [C1 C2]]; [divmod_lia|].
    split; [by repeat (apply Forall_cons; split); try apply Forall_nil|].
    cbn [encode64_loop decode64_loop]. rewrite C1, E. cbn [decode64_step]. bits_arith. exists 3%nat, 0, [61].
    split; [|done]. unfold wrap. cbn [pending Nat.eqb app]. repeat f_equal; divmod_lia.
Qed.

Ltac text_end d :=
  destruct (coded32 d) as [E [C1 C2]]; [divmod_lia|];
  (split; [by apply Forall_cons; split; [|repeat constructor]|]);
  cbn [encode32_loop decode32_loop Nat.eqb nPadding replicate]; rewrite C1, E; cbn [decode32_step]; bits_arith.

Lemma coupled_end32 mode c el dm dl :
  coupled 5 kept32 mode c el dm dl ->
  Forall (fun c => c <> 0) (encode32_loop [] mode el) /\
  exists dm' dl' p, decode32_loop (encode32_loop [] mode el) dm dl = (pending mode c, (dm', dl', p)) /\ invalid32 dm' dl' p = false.
Proof.
  intros (Hm & Hc & Hk). red in Hc. destruct mode as [|[|[|[|[|mode]]]]]; [| | | | |lia]; cbn [Nat.eqb kept32] in Hk.
  - subst dm. split; [done|]. by exists 0%nat, dl, [].
  - injection Hk as -> -> ->. text_end (c mod 8 * 4). exists 2%nat, 0, (replicate 6 61).
    split; [|done]. unfold wrap. cbn [pending Nat.eqb app]. repeat f_equal; divmod_lia.
  - injection Hk as -> -> ->. text_end (c mod 2 * 16). exists 4%nat, 0, (replicate 4 61).
    split; [|done]. unfold wrap. cbn [pending Nat.eqb app]. repeat f_equal; divmod_lia.
  - injection Hk as -> -> ->. text_end (c mod 16 * 2). exists 5%nat, 0, (replicate 3 61).
    split; [|done]. unfold wrap. cbn [pending Nat.eqb app]. repeat f_equal; divmod_lia.
  - injection Hk as -> -> ->. text_end (c mod 4 * 8). exists 7%nat, 0, (replicate 1 61).
    split; [|done]. unfold wrap. cbn [pending Nat.eqb app]. repeat f_equal; divmod_lia.
Qed.

Lemma coupled_start size kept el dl : (0 < size)%nat -> coupled size kept 0 0 el 0 dl.
Proof. intros H. split; [done|]. split; [red; lia|done]. Qed.

Lemma base64_roundtrip bs : bytes_ok bs -> DecodeBase64 (EncodeBase64 bs) = (bs, false).
Proof.
  intros Hb. destruct (text_decodes encode64_step decode64_step decode64 encode64_loop decode64_loop invalid64 3 kept64
    (fun _ _ _ _ => eq_refl) (fun _ _ _ _ => eq_refl) coupled_step64 coupled_end64 bs 0 0 0 0 0
    (coupled_start 3 kept64 0 0 ltac:(lia)) Hb) as (Hz & dm & dl & p & Hd & Hi).
  unfold DecodeBase64, EncodeBase64. rewrite c_str_id, Hd by done. cbn [pending Nat.eqb app]. by rewrite Hi.
Qed.

Lemma base32_roundtrip bs : bytes_ok bs -> DecodeBase32 (EncodeBase32 bs) = (bs, false).
Proof.
  intros Hb. destruct (text_decodes encode32_step decode32_step decode32 encode32_loop decode32_loop invalid32 5 kept32
    (fun _ _ _ _ => eq_refl) (fun _ _ _ _ => eq_refl) coupled_step32 coupled_end32 bs 0 0 0 0 0
    (coupled_start 5 kept32 0 0 ltac:(lia)) Hb) as (Hz & dm & dl & p & Hd & Hi).
  unfold DecodeBase32, EncodeBase32. rewrite c_str_id, Hd by done. cbn [pending Nat.eqb app]. by rewrite Hi.
Qed.

(** *** Hexadecimal and dumps *)

Lemma hex_chars b : is_byte b ->
  hexdigit (hexchar (b .>> 4)) = b / 16 /\ hexdigit (hexchar (b .& 15)) = b mod 16 /\
  dump_digit (hexchar (b .>> 4)) = b / 16 /\ dump_digit (hexchar (b .& 15)) = b mod 16 /\
  isspace (hexchar (b .>> 4)) = false /\ hexchar (b .>> 4) <> 0 /\ hexchar (b .& 15) <> 0.
Proof.
  intros Hb. assert (Ha : forallb (fun b =>
    let h := hexchar (b .>> 4) in let l := hexchar (b .& 15) in
    (hexdigit h =? b / 16) && (hexdigit l =? b mod 16) && (dump_digit h =? b / 16) && (dump_digit l =? b mod 16) &&
    negb (isspace h) && negb (h =? 0) && negb (l =? 0)) byte_values = true) by (vm_compute; reflexivity).
  pose proof (forallb_bytes _ b Ha Hb) as E. cbn zeta beta in E.
  rewrite !andb_true_iff, !negb_true_iff, !Z.eqb_eq, !Z.eqb_neq in E. tauto.
Qed.

Lemma nibbles b : is_byte b -> u8 ((b / 16) .<< 4) .| (b mod 16) = b.
Proof.
  intros Hb. red in Hb. bits_arith. unfold wrap. rewrite Z.mod_small by (change (2 ^ 8) with 256; divmod_lia).
  bits_arith. divmod_lia.
Qed.

Lemma HexStr_cons b bs : HexStr (b :: bs) false = hexchar (b .>> 4) :: hexchar (b .& 15) :: HexStr bs false.
Proof. done. Qed.

Lemma hex_roundtrip bs : bytes_ok bs -> ParseHex (HexStr bs false) = bs.
Proof.
  intros Hb. unfold ParseHex. rewrite c_str_id.
  2: { induction Hb as [|b bs Hb _ IH]; [apply Forall_nil_2|]. rewrite HexStr_cons. destruct (hex_chars b Hb) as (?&?&?&?&?&?&?). by repeat (apply Forall_cons; split). }
  set (n := length (HexStr bs false)). assert (Hn : (length bs <= n)%nat).
  { unfold n. clear. induction bs as [|b bs IH]; [cbn; lia|]. rewrite HexStr_cons. cbn [length]. lia. }
  clearbody n. revert n Hn. induction Hb as [|b bs Hb _ IH]; intros n Hn; [by destruct n|]; destruct n as [|n]; cbn [length] in Hn; [lia|].
  rewrite HexStr_cons. destruct (hex_chars b Hb) as (E1 & E2 & _ & _ & E3 & _). cbn [parse_hex skip_spaces]. rewrite E3, E1, E2.
  pose proof Hb as Hr. red in Hr. replace (b / 16 =? -1) with false by (symmetry; apply Z.eqb_neq; divmod_lia).
  replace (b mod 16 =? -1) with false by (symmetry; apply Z.eqb_neq; divmod_lia). rewrite nibbles, IH by (done || lia). done.
Qed.

Lemma DecodeDumpString_plain c r : c <> 37 -> DecodeDumpString (c :: r) = c :: DecodeDumpString r.
Proof. intros Hc. destruct r as [|c1 [|c2 r]]; [done..|]. cbn [DecodeDumpString]. by rewrite (proj2 (Z.eqb_neq c 37) Hc). Qed.

Lemma EncodeDumpString_cons b bs :
  EncodeDumpString (b :: bs) =
    (if (b <=? 32) || (128 <=? b) || (b =? 37) then 37 :: HexStr [b] false else [b]) ++ EncodeDumpString bs.
Proof. done. Qed.

Lemma dump_roundtrip bs : bytes_ok bs -> DecodeDumpString (EncodeDumpString bs) = bs.
Proof.
  induction 1 as [|b bs Hb _ IH]; [done|]. rewrite EncodeDumpString_cons.
  destruct ((b <=? 32) || (128 <=? b) || (b =? 37)) eqn:E.
  - change (HexStr [b] false) with [hexchar (b .>> 4); hexchar (b .& 15)]. cbn [app DecodeDumpString].
    rewrite Z.eqb_refl. destruct (hex_chars b Hb) as (_ & _ & -> & -> & _). rewrite IH. f_equal. red in Hb.
    bits_arith. unfold wrap. change (2 ^ 8) with 256. divmod_lia.
  - cbn [app]. rewrite DecodeDumpString_plain, IH; [done|]. bool_prop. lia.
Qed.

(** The text encodings lose nothing: any bytes come back from base 64 and base 32, with
    their padding judged valid, from hexadecimal text, and from the percent escapes of
    dump files. *)
Theorem text_roundtrips (bs : list Z) :
  bytes_ok bs ->
  DecodeBase64 (EncodeBase64 bs) = (bs, false) /\
  DecodeBase32 (EncodeBase32 bs) = (bs, false) /\
  ParseHex (HexStr bs false) = bs /\
  DecodeDumpString (EncodeDumpString bs) = bs.
Proof. intros Hb. split_and!; [by apply base64_roundtrip|by apply base32_roundtrip|by apply hex_roundtrip|by apply dump_roundtrip]. Qed.

Lemma text_roundtrips_witness :
  bytes_ok [0; 37; 255; 65] /\ DecodeBase32 (EncodeBase32 [0; 37; 255; 65]) = ([0; 37; 255; 65], false).
Proof.
  assert (Hb : bytes_ok [0; 37; 255; 65]) by (apply (bool_decide_eq_true_1 _); vm_compute; reflexivity).
  split; [exact Hb|]. exact (proj1 (proj2 (text_roundtrips _ Hb))).
Defined.

(** ** Wild cards *)

(** What a mask means: [*] stands for any text, [?] for any one character, and every
    other character for itself *)
Inductive wild : list Z -> list Z -> Prop :=
  | wild_end : wild [] []
  | wild_star mask s1 s2 : wild mask s2 -> wild (42 :: mask) (s1 ++ s2)
  | wild_any mask c s : wild mask s -> wild (63 :: mask) (c :: s)
  | wild_char m mask s : m <> 42 -> m <> 63 -> wild mask s -> wild (m :: mask) (m :: s).

Lemma WildcardMatch_star mask s :
  WildcardMatch_c (42 :: mask) s = true <-> exists s1 s2, s = s1 ++ s2 /\ WildcardMatch_c mask s2 = true.
Proof.
  induction s as [|c s IH].
  - cbn. rewrite orb_false_r. split; [by exists [], []|]. intros (s1 & s2 & Hs & Hm). symmetry in Hs. by apply app_nil in Hs as [-> ->].
  - assert (WildcardMatch_c (42 :: mask) (c :: s) = WildcardMatch_c mask (c :: s) || WildcardMatch_c (42 :: mask) s) as -> by done.
    rewrite orb_true_iff, IH. split.
    + intros [Hm|(s1 & s2 & -> & Hm)]; [by exists [], (c :: s)|by exists (c :: s1), s2].
    + intros ([|c1 s1] & s2 & Hs & Hm); cbn in Hs; [left; by rewrite Hs|]. injection Hs as -> ->. right. by exists s1, s2.
Qed.

Lemma WildcardMatch_spec mask s : WildcardMatch_c mask s = true <-> wild mask s.
Proof.
  revert s. induction mask as [|m mask IH]; intros s.
  - cbn. rewrite bool_decide_eq_true. split; [intros ->; constructor|by inversion 1].
  - destruct (Z.eq_dec m 42) as [-> |H42].
    + rewrite WildcardMatch_star. split.
      * intros (s1 & s2 & -> & Hm). constructor. by apply IH.
      * inversion 1 as [|? s1 s2 Hw| |]; subst; [|done]. exists s1, s2. by rewrite IH.
    + cbn [WildcardMatch_c]. rewrite (proj2 (Z.eqb_neq m 42) H42). destruct s as [|c s]; [split; [done|by inversion 1]|].
      destruct (Z.eqb_spec m 63) as [-> |H63].
      * rewrite IH. split; [by constructor|]. inversion 1; subst; done.
      * destruct (Z.eqb_spec c m) as [-> |Hc].
        -- rewrite IH. split; [by constructor|]. inversion 1; subst; done.
        -- split; [done|]. inversion 1; subst; done.
Qed.

(** [WildcardMatch] decides the meaning of masks, where [*] stands for any text, [?] for
    any character and every other character for itself, on the parts of both strings
    before their first zero byte. *)
Theorem wildcard_match (str mask : list Z) : WildcardMatch str mask = true <-> wild (c_str mask) (c_str str).
Proof. apply WildcardMatch_spec. Qed.
