(* ===== verification/Support.v ===== *)
(** * Support code ([util.h], [util.cpp], [mruset.h]): splitting and filtering text,
    comparison in constant time, random integers, the median of the clocks of other
    nodes, and sets that forget their oldest elements. *)

From stdpp Require Import sorting.
From S2P Require Import Prelude.
From S2P Require Import Util.

(** ** Text *)

(** [ParseString]: the parts of [str] between the separators [c]; nothing for an empty
    string *)
Fixpoint split_at (c : Z) (str : list Z) : list (list Z) :=
  match str with
  | [] => [[]]
  | x :: r =>
      if x =? c then [] :: split_at c r
      else match split_at c r with
           | p :: ps => (x :: p) :: ps
           | [] => [[x]]
           end
  end.

Definition ParseString (str : list Z) (c : Z) (v : list (list Z)) : list (list Z) :=
  match str with
  | [] => v
  | _ => v ++ split_at c str
  end.

(** [safeChars] *)
Definition safe_char (c : Z) : bool :=
  ((97 <=? c) && (c <=? 122)) || ((65 <=? c) && (c <=? 90)) || ((48 <=? c) && (c <=? 57)) ||
  bool_decide (c ∈ [32; 46; 44; 59; 95; 47; 58; 63; 64]).

Definition SanitizeString (str : list Z) : list Z := filter (fun c => safe_char c = true) str.

Definition FormatVersion (nVersion : Z) : list Z :=
  i64tostr (Z.quot nVersion 1000000) ++ 46 :: i64tostr (Z.rem (Z.quot nVersion 10000) 100) ++
  46 :: i64tostr (Z.rem (Z.quot nVersion 100) 100) ++
  if Z.rem nVersion 100 =? 0 then [] else 46 :: i64tostr (Z.rem nVersion 100).

(** [boost::algorithm::join(comments, "; ")] *)
Fixpoint join_comments (comments : list (list Z)) : list Z :=
  match comments with
  | [] => []
  | [c] => c
  | c :: r => c ++ [59; 32] ++ join_comments r
  end.

Definition FormatSubVersion (name : list Z) (nClientVersion : Z) (comments : list (list Z)) : list Z :=
  [47] ++ name ++ [58] ++ FormatVersion nClientVersion ++
  (match comments with [] => [] | _ => [40] ++ join_comments comments ++ [41] end) ++ [47].

(** [TimingResistantEqual] on strings; the accumulator gathers every difference *)
Definition TimingResistantEqual (a b : list Z) : bool :=
  if (length b =? 0)%nat then (length a =? 0)%nat
  else
    let accumulator := Z.lxor (Z.of_nat (length a)) (Z.of_nat (length b)) in
    let accumulator :=
      foldl (fun acc i => acc .| Z.lxor (nthZ a i) (nthZ b (i mod length b)%nat)) accumulator (seq 0 (length a)) in
    accumulator =? 0.

(** ** Random integers *)

(** The range of accepted samples *)
Definition rand_range (nMax : Z) : Z := (2 ^ 64 - 1) / nMax * nMax.

(** [GetRand] on the samples [rnd] of [RAND_bytes]; [None] while it still loops.  Also
    the samples not used *)
Fixpoint GetRand (nMax : Z) (rnd : list Z) : option (Z * list Z) :=
  if nMax =? 0 then Some (0, rnd)
  else
    match rnd with
    | [] => None
    | nRand :: r => if nRand >=? rand_range nMax then GetRand nMax r else Some (nRand mod nMax, r)
    end.

(** [GetRandInt(nMax)], given the samples that [GetRand] accepts: the next one modulo
    [nMax] *)
Definition rand_int (nMax : Z) (rnd : list Z) : Z * list Z :=
  (if nMax =? 0 then 0 else default 0 (head rnd) mod nMax, tail rnd).

(** [insecure_rand] of [util.h]: the two words of its state and the value *)
Definition insecure_rand (Rz Rw : Z) : Z * (Z * Z) :=
  let Rz := u32 (36969 * (Rz .& 65535) + (Rz .>> 16)) in
  let Rw := u32 (18000 * (Rw .& 65535) + (Rw .>> 16)) in
  (u32 (u32 (Rw .<< 16) + Rz), (Rz, Rw)).

Definition ByteReverse (value : Z) : Z :=
  let value := ((value .& 0xFF00FF00) .>> 8) .| u32 ((value .& 0x00FF00FF) .<< 8) in
  u32 (value .<< 16) .| (value .>> 16).

(** ** The median filter *)

Record CMedianFilter := mkFilter { vValues : list Z; vSorted : list Z; nSize : nat }.

Definition filter_new (size : nat) (initial_value : Z) : CMedianFilter :=
  mkFilter [initial_value] [initial_value] size.

Definition filter_input (f : CMedianFilter) (value : Z) : CMedianFilter :=
  let vals := if (length (vValues f) =? nSize f)%nat then tail (vValues f) else vValues f in
  let vals := vals ++ [value] in
  mkFilter vals (merge_sort Z.le vals) (nSize f).

(** The median; [None] where [assert(size>0)] fails *)
Definition filter_median (f : CMedianFilter) : option Z :=
  let size := length (vSorted f) in
  if (size =? 0)%nat then None
  else if Nat.odd size then Some (nthZ (vSorted f) (size / 2))
  else Some (Z.quot (i64 (nthZ (vSorted f) (size / 2 - 1) + nthZ (vSorted f) (size / 2))) 2).

Definition abs64 (n : Z) : Z := if 0 <=? n then n else i64 (- n).

(** ** The offset of the network's time: the statics of [AddTimeData] *)

Record TimeState := mkTime {
  setKnown : gset (list Z);      (** addresses that gave a sample *)
  vTimeOffsets : CMedianFilter;
  nTimeOffset : Z;
  fDone : bool                   (** the warning was shown *)
}.

Definition time_start : TimeState := mkTime ∅ (filter_new 200 0) 0 false.

(** [AddTimeData(ip, nTime)] when [GetTime()] is [now] *)
Definition AddTimeData (ip : list Z) (nTime now : Z) (s : TimeState) : TimeState :=
  let nOffsetSample := i64 (nTime - now) in
  if bool_decide (ip ∈ setKnown s) then s
  else
    let f := filter_input (vTimeOffsets s) nOffsetSample in
    let s := mkTime ({[ip]} ∪ setKnown s) f (nTimeOffset s) (fDone s) in
    if (5 <=? length (vValues f))%nat && Nat.odd (length (vValues f)) then
      let nMedian := default 0 (filter_median f) in
      if abs64 nMedian <? 70 * 60 then mkTime (setKnown s) f nMedian (fDone s)
      else
        let fMatch := existsb (fun nOffset => negb (nOffset =? 0) && (abs64 nOffset <? 5 * 60)) (vSorted f) in
        mkTime (setKnown s) f 0 (fDone s || negb fMatch)
    else s.

(** ** [mruset]: a set with the queue of its elements, oldest first *)

Section mruset.
Context {T : Type} `{Countable T}.

Record mruset := mkMru { mru_set : gset T; mru_queue : list T; nMaxSize : nat }.

Definition mru_new (nMaxSizeIn : nat) : mruset := mkMru ∅ [] nMaxSizeIn.
Definition mru_count (m : mruset) (k : T) : bool := bool_decide (k ∈ mru_set m).
Definition mru_size (m : mruset) : nat := size (mru_set m).
Definition mru_clear (m : mruset) : mruset := mkMru ∅ [] (nMaxSize m).

(** [set.erase(queue.front()); queue.pop_front();] *)
Definition mru_pop (m : mruset) : mruset :=
  match mru_queue m with
  | x :: q => mkMru (mru_set m ∖ {[x]}) q (nMaxSize m)
  | [] => m
  end.

(** [insert]: also whether the element is new *)
Definition mru_insert (m : mruset) (x : T) : mruset * bool :=
  if mru_count m x then (m, false)
  else
    let m := mkMru ({[x]} ∪ mru_set m) (mru_queue m) (nMaxSize m) in
    let m := if negb (nMaxSize m =? 0)%nat && (length (mru_queue m) =? nMaxSize m)%nat then mru_pop m else m in
    (mkMru (mru_set m) (mru_queue m ++ [x]) (nMaxSize m), true).

(** [max_size(s)]: while the queue is longer than [s], forget the oldest *)
Definition mru_max_size (m : mruset) (s : nat) : mruset :=
  let m := if (s =? 0)%nat then m else Nat.iter (length (mru_queue m) - s) mru_pop m in
  mkMru (mru_set m) (mru_queue m) s.
End mruset.
Arguments mruset T {_ _}.

(** ** Text and comparison *)

Definition join_with (c : Z) (parts : list (list Z)) : list Z :=
  match parts with
  | [] => []
  | p :: ps => p ++ mjoin ((fun q => c :: q) <$> ps)
  end.

Lemma split_at_join c str : join_with c (split_at c str) = str /\ split_at c str <> [] /\ Forall (fun p => c ∉ p) (split_at c str).
Proof.
  induction str as [|x r (IH & Hne & Hc)].
  { cbn. split; [done|]. split; [done|]. apply Forall_singleton, not_elem_of_nil. }
  cbn [split_at]. destruct (Z.eqb_spec x c) as [-> |Hx].
  - split; [|split; [done|by apply Forall_cons; split; [apply not_elem_of_nil|]]].
    cbn [join_with app]. destruct (split_at c r) as [|p ps]; [done|]. cbn [fmap list_fmap mjoin list_join app]. f_equal. exact IH.
  - destruct (split_at c r) as [|p ps]; [done|]. inversion_clear Hc as [|? ? Hp Hps]. split; [|split; [done|]].
    + cbn [join_with app] in *. by f_equal.
    + apply Forall_cons. split; [|done]. rewrite not_elem_of_cons. by split; [intros ->|].
Qed.

Lemma foldl_lor (f : nat -> Z) l acc :
  foldl (fun acc i => acc .| f i) acc l = 0 <-> acc = 0 /\ Forall (fun i => f i = 0) l.
Proof.
  revert acc. induction l as [|i l IH]; intros acc; cbn [foldl].
  - split; [intros ->; by split|by intros [-> _]].
  - rewrite IH, Z.lor_eq_0_iff, Forall_cons. tauto.
Qed.

(** Comparing in constant time decides equality. *)
Lemma TimingResistantEqual_spec a b : TimingResistantEqual a b = true <-> a = b.
Proof.
  unfold TimingResistantEqual. destruct (Nat.eqb_spec (length b) 0) as [Hb|Hb].
  { apply nil_length_inv in Hb as ->. rewrite Nat.eqb_eq. split; [apply nil_length_inv|by intros ->]. }
  rewrite Z.eqb_eq, foldl_lor, Z.lxor_eq_0_iff, Nat2Z.inj_iff. split.
  - intros [Hl Hf]. apply list_eq_same_length with (length b); [done|done|]. intros i x y Hi Hx Hy.
    rewrite Forall_forall in Hf. specialize (Hf i ltac:(apply elem_of_seq; lia)). rewrite Z.lxor_eq_0_iff in Hf.
    rewrite Nat.mod_small in Hf by done. by rewrite (nthZ_lookup _ _ _ Hx), (nthZ_lookup _ _ _ Hy) in Hf.
  - intros ->. split; [done|]. apply Forall_forall. intros i Hi. apply elem_of_seq in Hi. rewrite Nat.mod_small by lia. apply Z.lxor_nilpotent.
Qed.

(** ** Random integers *)

Lemma GetRand_range nMax rnd r rnd' : 0 < nMax -> GetRand nMax rnd = Some (r, rnd') -> 0 <= r < nMax.
Proof.
  intros Hn. induction rnd as [|x rnd IH]; cbn [GetRand]; (destruct (Z.eqb_spec nMax 0); [lia|]); [done|].
  case_goal; [done|]. intros [= <- _]. by apply Z.mod_pos_bound.
Qed.

(** The samples that give [r] are spread evenly: one in each of the
    [(2^64 - 1) / nMax] blocks of the accepted range, for every [r]. *)
Lemma GetRand_unbiased nMax x r rnd :
  0 < nMax < 2 ^ 64 -> 0 <= x < 2 ^ 64 -> 0 <= r < nMax ->
  (GetRand nMax (x :: rnd) = Some (r, rnd) /\ x < rand_range nMax) <->
  exists k, 0 <= k < (2 ^ 64 - 1) / nMax /\ x = k * nMax + r.
Proof.
  intros Hn Hx Hr. cbn [GetRand]. destruct (Z.eqb_spec nMax 0); [lia|]. unfold rand_range.
  pose proof (Z.div_mod x nMax ltac:(lia)) as Hd. pose proof (Z.mod_pos_bound x nMax ltac:(lia)). split.
  - intros [He Hl]. rewrite Z.geb_leb in He. destruct (Z.leb_spec ((2 ^ 64 - 1) / nMax * nMax) x); [lia|]. injection He as <-.
    exists (x / nMax). split; [split; [apply Z.div_pos; lia|apply Z.div_lt_upper_bound; lia]|lia].
  - intros (k & Hk & ->). rewrite Z.add_comm, Z.mod_add, Z.mod_small by lia. rewrite Z.geb_leb.
    assert (r + k * nMax < (2 ^ 64 - 1) / nMax * nMax) by nia.
    destruct (Z.leb_spec ((2 ^ 64 - 1) / nMax * nMax) (r + k * nMax)); [lia|done].
Qed.

(** ** Sets that forget *)

Section mruset_facts.
Context {T : Type} `{Countable T}.
Implicit Types m : mruset T.

Definition mru_ok m : Prop :=
  mru_set m = list_to_set (mru_queue m) /\ NoDup (mru_queue m) /\
  (nMaxSize m <> 0%nat -> (length (mru_queue m) <= nMaxSize m)%nat).

Lemma mru_ok_pop m : mru_ok m -> mru_ok (mru_pop m).
Proof.
  intros (Hs & Hd & Hl). unfold mru_pop. destruct (mru_queue m) as [|x q] eqn:E; [split_and!; rewrite ?E; done|].
  apply NoDup_cons in Hd as [Hx Hd]. split_and!; cbn; [|done|intros Hne; specialize (Hl Hne); cbn in Hl; lia].
  rewrite Hs. cbn. set_solver.
Qed.

Lemma mru_pop_queue m : mru_queue (mru_pop m) = tail (mru_queue m) /\ nMaxSize (mru_pop m) = nMaxSize m.
Proof. by destruct m as [s [|x q] n]. Qed.

Lemma mru_pops n m :
  mru_ok m -> let m' := Nat.iter n mru_pop m in mru_ok m' /\ mru_queue m' = drop n (mru_queue m) /\ nMaxSize m' = nMaxSize m.
Proof.
  intros Hm. induction n as [|n (IH1 & IH2 & IH3)]; [done|]. cbn [Nat.iter]. split; [by apply mru_ok_pop|].
  destruct (mru_pop_queue (Nat.iter n mru_pop m)) as [E1 E2]. split; [|by rewrite <- IH3].
  etrans; [exact E1|]. assert (forall l : list T, tail l = drop 1 l) as -> by (by intros []). rewrite IH2, drop_drop. f_equal. lia.
Qed.

(** [mruset] is a queue without duplicates of bounded length: a new element is added at
    the end, the oldest ones leave, and a known element changes nothing. *)
Lemma mru_insert_spec m x :
  mru_ok m ->
  let '(m', fresh) := mru_insert m x in
  mru_ok m' /\ x ∈ mru_set m' /\ nMaxSize m' = nMaxSize m /\ fresh = negb (mru_count m x) /\
  mru_queue m' = if fresh then drop (if (nMaxSize m =? 0)%nat then 0 else length (mru_queue m) - (nMaxSize m - 1)) (mru_queue m) ++ [x]
                 else mru_queue m.
Proof.
  intros Hm. pose proof Hm as (Hs & Hd & Hl). unfold mru_insert, mru_count. destruct (bool_decide (x ∈ mru_set m)) eqn:E.
  { apply bool_decide_eq_true in E. by split_and!. }
  apply bool_decide_eq_false in E. cbn [nMaxSize mru_queue negb].
  assert (Hx : x ∉ mru_queue m) by (rewrite Hs in E; by rewrite elem_of_list_to_set in E).
  set (m1 := mkMru ({[x]} ∪ mru_set m) (mru_queue m) (nMaxSize m)).
  destruct (Nat.eqb_spec (nMaxSize m) 0) as [Hz|Hz]; cbn [negb andb].
  - split_and!; [|cbn; set_solver|done|done|done]. split_and!; cbn; [rewrite Hs, list_to_set_app_L; set_solver| |done].
    apply NoDup_app. split_and!; [done| |apply NoDup_singleton]. intros y Hy Hy'. apply list_elem_of_singleton in Hy' as ->. done.
  - specialize (Hl Hz). destruct (Nat.eqb_spec (length (mru_queue m)) (nMaxSize m)) as [He|He].
    + unfold mru_pop. cbn [mru_queue]. destruct (mru_queue m) as [|y q] eqn:Eq; [by simpl in He|]. cbn in He.
      apply NoDup_cons in Hd as [Hy Hd]. apply not_elem_of_cons in Hx as [Hxy Hx].
      replace (length (y :: q) - (nMaxSize m - 1))%nat with 1%nat by (cbn; lia).
      split_and!; [|cbn; set_solver|done|done|done]. split_and!; cbn.
      * rewrite Hs, list_to_set_app_L. cbn. set_solver.
      * apply NoDup_app. split_and!; [done| |apply NoDup_singleton]. intros z Hz1 Hz2. apply list_elem_of_singleton in Hz2 as ->. done.
      * intros _. rewrite length_app. cbn. lia.
    + replace (length (mru_queue m) - (nMaxSize m - 1))%nat with 0%nat by lia.
      split_and!; [|cbn; set_solver|done|done|done]. split_and!; cbn; [rewrite Hs, list_to_set_app_L; set_solver| |intros _; rewrite length_app; cbn; lia].
      apply NoDup_app. split_and!; [done| |apply NoDup_singleton]. intros y Hy Hy'. apply list_elem_of_singleton in Hy' as ->. done.
Qed.

Lemma mru_max_size_spec m s :
  mru_ok m -> let m' := mru_max_size m s in
  mru_ok m' /\ mru_queue m' = drop (if (s =? 0)%nat then 0 else length (mru_queue m) - s) (mru_queue m) /\ nMaxSize m' = s.
Proof.
  intros Hm. unfold mru_max_size. destruct (Nat.eqb_spec s 0) as [-> |Hs].
  - destruct Hm as (A & B & C). cbn. split_and!; try done.
  - destruct (mru_pops (length (mru_queue m) - s) m Hm) as ((A & B & C) & E & F).
    split; [|by split]. split; [done|]. split; [done|]. intros _. cbn [mru_queue nMaxSize]. rewrite E, length_drop. lia.
Qed.

Lemma mru_size_queue m : mru_ok m -> mru_size m = length (mru_queue m).
Proof. intros (Hs & Hd & _). unfold mru_size. by rewrite Hs, size_list_to_set. Qed.
End mruset_facts.

(** ** The network's time *)

(** The samples of a filter are kept sorted beside their arrival order. *)
Definition filter_ok (f : CMedianFilter) : Prop :=
  vSorted f ≡ₚ vValues f /\ Sorted Z.le (vSorted f) /\ (0 < length (vValues f) <= nSize f)%nat.

Lemma filter_input_ok f v : filter_ok f -> filter_ok (filter_input f v) /\
  length (vValues (filter_input f v)) = Nat.min (nSize f) (S (length (vValues f))) /\
  (forall x, x ∈ vValues (filter_input f v) -> x = v \/ x ∈ vValues f).
Proof.
  intros (Hp & Hs & Hl). unfold filter_input. set (vals := if (length (vValues f) =? nSize f)%nat then tail (vValues f) else vValues f). cbn.
  assert (Hv : length (vals ++ [v]) = Nat.min (nSize f) (S (length (vValues f))) /\ forall x, x ∈ vals -> x ∈ vValues f).
  { unfold vals. rewrite length_app. cbn [length].
    destruct (Nat.eqb_spec (length (vValues f)) (nSize f)) as [He|He]; [|split; [lia|done]].
    destruct (vValues f) as [|y q]; [cbn in Hl; lia|]. cbn in *. split; [lia|]. intros x. by right. }
  destruct Hv as [Hv Hin]. split; [split; [apply merge_sort_Permutation|split; [apply (Sorted_merge_sort Z.le)|cbn; lia]]|]. split; [done|].
  intros x. rewrite elem_of_app, list_elem_of_singleton. intros [?| ->]; [right; by apply Hin|by left].
Qed.

(** A value [m] such that at least half of [l], rounded up, is not above it, and as
    many not below *)
Definition is_median (l : list Z) (m : Z) : Prop :=
  m ∈ l /\ (length l < 2 * length (filter (fun x => (x <= m)%Z) l))%nat /\ (length l < 2 * length (filter (fun x => (m <= x)%Z) l))%nat.

Lemma filter_all_le (P : Z -> Prop) {dec : forall x, Decision (P x)} (l : list Z) : Forall P l -> filter P l = l.
Proof. induction 1 as [|x l Hx _ IH]; [done|]. by rewrite filter_cons_True, IH. Qed.

Lemma filter_median_odd f :
  filter_ok f -> Nat.odd (length (vValues f)) = true -> exists m, filter_median f = Some m /\ is_median (vValues f) m.
Proof.
  intros (Hp & Hs & Hl) Ho. pose proof (Permutation_length Hp) as Hlen. unfold filter_median. rewrite Hlen.
  destruct (Nat.eqb_spec (length (vValues f)) 0); [lia|]. rewrite Ho.
  apply Nat.odd_spec in Ho as [h Hh]. rewrite Hh. replace ((2 * h + 1) / 2)%nat with h by (rewrite Nat.mul_comm, Nat.div_add_l; cbn; lia).
  exists (nthZ (vSorted f) h). split; [done|].
  assert (Hlk : vSorted f !! h = Some (nthZ (vSorted f) h)) by (apply lookup_nthZ; lia).
  set (m := nthZ (vSorted f) h) in *. apply Sorted_StronglySorted in Hs; [|intros x y z; lia].
  pose proof (take_drop_middle _ _ _ Hlk) as Hsplit.
  assert (Hlo : forall x, x ∈ take h (vSorted f) -> x <= m).
  { intros x Hx. rewrite <- Hsplit in Hs. eapply (StronglySorted_app_1_elem_of Z.le); [exact Hs|done|by left]. }
  assert (Hhi : forall x, x ∈ drop (S h) (vSorted f) -> m <= x).
  { intros x Hx. rewrite <- Hsplit in Hs. apply StronglySorted_app_1_r in Hs. apply StronglySorted_cons in Hs as [Hs _].
    rewrite Forall_forall in Hs. by apply Hs. }
  assert (Hlt : length (take h (vSorted f)) = h) by (rewrite length_take; lia).
  assert (Hld : length (drop (S h) (vSorted f)) = h) by (rewrite length_drop; lia).
  split_and!.
  - rewrite <- Hp. by apply list_elem_of_lookup_2 in Hlk.
  - rewrite <- Hp, Hlen, Hh, <- Hsplit, filter_app, filter_cons_True, length_app by lia. cbn [length].
    rewrite (filter_all_le (fun x => x <= m) (take h _)) by (apply Forall_forall, Hlo). lia.
  - rewrite <- Hp, Hlen, Hh, <- Hsplit, filter_app, filter_cons_True, length_app by lia. cbn [length].
    rewrite (filter_all_le (fun x => m <= x) (drop (S h) _)) by (apply Forall_forall, Hhi). lia.
Qed.

Definition time_ok (s : TimeState) : Prop :=
  filter_ok (vTimeOffsets s) /\ nSize (vTimeOffsets s) = 200%nat /\
  length (vValues (vTimeOffsets s)) = Nat.min 200 (S (size (setKnown s))) /\
  Forall (fun v => - 2 ^ 63 < v < 2 ^ 63) (vValues (vTimeOffsets s)) /\
  Z.abs (nTimeOffset s) < 4200.

Lemma i64_bound x : - 2 ^ 63 <= i64 x < 2 ^ 63.
Proof. unfold swrap. pose proof (Z.mod_pos_bound (x + 2 ^ (64 - 1)) (2 ^ 64)). lia. Qed.

Lemma abs64_abs m : - 2 ^ 63 < m < 2 ^ 63 -> abs64 m = Z.abs m.
Proof. intros Hm. unfold abs64. destruct (Z.leb_spec 0 m); [lia|]. rewrite Transaction.swrap_small; lia. Qed.

(** What one sample does to the offset *)
Lemma AddTimeData_step ip nTime now s :
  time_ok s -> i64 (nTime - now) <> - 2 ^ 63 ->
  let s' := AddTimeData ip nTime now s in
  time_ok s' /\
  (nTimeOffset s' = nTimeOffset s \/
   (length (vValues (vTimeOffsets s')) < 200)%nat /\
   exists m, is_median (vValues (vTimeOffsets s')) m /\ nTimeOffset s' = if Z.abs m <? 4200 then m else 0).
Proof.
  intros (Hf & Hn & Hl & Hv & Ho) Hmin. unfold AddTimeData.
  destruct (bool_decide (ip ∈ setKnown s)) eqn:Ek; [split; [by split_and!|by left]|]. apply bool_decide_eq_false in Ek.
  set (v := i64 (nTime - now)) in *. pose proof (i64_bound (nTime - now)) as Hb. fold v in Hb.
  destruct (filter_input_ok (vTimeOffsets s) v Hf) as (Hf' & Hl' & Hin). rewrite Hn, Hl in Hl'.
  assert (Hv' : Forall (fun v => - 2 ^ 63 < v < 2 ^ 63) (vValues (filter_input (vTimeOffsets s) v))).
  { apply Forall_forall. intros x Hx. rewrite Forall_forall in Hv. destruct (Hin x Hx) as [-> |Hx']; [lia|by apply Hv]. }
  assert (Hs : size ({[ip]} ∪ setKnown s) = S (size (setKnown s))).
  { rewrite size_union by set_solver. by rewrite size_singleton. }
  assert (Hok : forall o d, Z.abs o < 4200 -> time_ok (mkTime ({[ip]} ∪ setKnown s) (filter_input (vTimeOffsets s) v) o d)).
  { intros o d Hod. split_and!; cbn [vTimeOffsets setKnown nTimeOffset]; [done|done| |done|done]. rewrite Hl', Hs. lia. }
  cbn [setKnown nTimeOffset fDone vTimeOffsets].
  destruct ((5 <=? _)%nat && Nat.odd _) eqn:E; [|split; [by apply Hok|by left]].
  apply andb_true_iff in E as [_ Eo]. destruct (filter_median_odd _ Hf' Eo) as (m & -> & Hm). change (default 0 (Some m)) with m.
  assert (Hlt : (length (vValues (filter_input (vTimeOffsets s) v)) < 200)%nat).
  { rewrite Hl' in Eo |- *. destruct (decide (Nat.min 200 (S (Nat.min 200 (S (size (setKnown s))))) = 200)%nat) as [E2|]; [by rewrite E2 in Eo|lia]. }
  assert (Hmr : - 2 ^ 63 < m < 2 ^ 63) by (rewrite Forall_forall in Hv'; apply Hv', Hm).
  rewrite abs64_abs by done. change (70 * 60) with 4200.
  destruct (Z.ltb_spec (Z.abs m) 4200) as [Hm2|Hm2].
  - split; [exact (Hok m (fDone s) Hm2)|]. right. split; [exact Hlt|]. exists m. split; [exact Hm|].
    cbn [nTimeOffset]. by rewrite (proj2 (Z.ltb_lt _ _) Hm2).
  - split; [exact (Hok 0 _ ltac:(lia))|]. right. split; [exact Hlt|]. exists m. split; [exact Hm|].
    cbn [nTimeOffset]. by rewrite (proj2 (Z.ltb_ge _ _) Hm2).
Qed.

(** A call of [AddTimeData]: address, time told, own time *)
Definition time_call (s : TimeState) (c : list Z * Z * Z) : TimeState := AddTimeData c.1.1 c.1.2 c.2 s.

Lemma time_start_ok : time_ok time_start.
Proof.
  split_and!; cbn; [|done|done| |lia]; [split; [done|split; [by repeat constructor|cbn; lia]]|]. apply Forall_singleton. lia.
Qed.

(** Other nodes move this node's clock only within limits.  After any calls of
    [AddTimeData] whose samples are not the least 64-bit integer, the offset stays
    below 70 minutes either way, each address was counted once, up to 200 samples with
    the initial zero, and the next call keeps the offset or sets it to the median of
    the samples held, at least half of which lie on each side of it, when it is within
    the limit, and to zero otherwise; once 200 samples are held the offset never
    changes. *)
Theorem time_offset_bounded (calls : list (list Z * Z * Z)) (ip : list Z) (nTime now : Z) :
  Forall (fun c => i64 (c.1.2 - c.2) <> - 2 ^ 63) calls -> i64 (nTime - now) <> - 2 ^ 63 ->
  let s := foldl time_call time_start calls in
  let s' := AddTimeData ip nTime now s in
  Z.abs (nTimeOffset s) < 70 * 60 /\
  length (vValues (vTimeOffsets s)) = Nat.min 200 (S (size (setKnown s))) /\
  (nTimeOffset s' = nTimeOffset s \/
   exists m, is_median (vValues (vTimeOffsets s')) m /\ nTimeOffset s' = if Z.abs m <? 70 * 60 then m else 0) /\
  (length (vValues (vTimeOffsets s)) = 200%nat -> nTimeOffset s' = nTimeOffset s).
Proof.
  intros Hc Hs. assert (Hok : time_ok (foldl time_call time_start calls)).
  { revert Hc. generalize time_start time_start_ok. induction calls as [|c calls IH]; intros s0 H0 Hc; [done|].
    inversion_clear Hc as [|? ? Hc1 Hc2]. cbn [foldl]. apply IH; [|done]. by apply AddTimeData_step. }
  cbv zeta. set (s := foldl time_call time_start calls) in *. clearbody s.
  destruct (AddTimeData_step ip nTime now s Hok Hs) as (Hok' & Hstep). pose proof Hok as (_ & _ & Hl & _ & Ho).
  split_and!; [done|done| |].
  - destruct Hstep as [?|(_ & m & ?)]; [by left|right; by exists m].
  - intros H200. destruct Hstep as [?|(Hlt & _)]; [done|]. exfalso. revert Hlt. destruct Hok' as (_ & _ & Hl' & _). rewrite Hl'.
    assert (size (setKnown s) <= size (setKnown (AddTimeData ip nTime now s)))%nat; [|lia].
    apply subseteq_size. unfold AddTimeData. repeat case_goal; cbn; set_solver.
Qed.

Lemma time_offset_bounded_witness :
  let calls := (fun i => ([i], 1000 + i, 1000)) <$> [1; 2; 3] in
  Forall (fun c : list Z * Z * Z => i64 (c.1.2 - c.2) <> - 2 ^ 63) calls /\
  nTimeOffset (AddTimeData [4] 1100 1000 (foldl time_call time_start calls)) = 2 /\
  Z.abs (nTimeOffset (foldl time_call time_start calls)) < 70 * 60.
Proof.
  cbv zeta. assert (Hc : Forall (fun c : list Z * Z * Z => i64 (c.1.2 - c.2) <> - 2 ^ 63) ((fun i => ([i], 1000 + i, 1000)) <$> [1; 2; 3]))
    by (repeat constructor; vm_compute; discriminate).
  split; [exact Hc|]. split; [vm_compute; reflexivity|].
  exact (proj1 (time_offset_bounded _ [4] 1100 1000 Hc ltac:(vm_compute; discriminate))).
Defined.
