(* ===== verification/NetAddr.v ===== *)
(** * Network addresses ([netbase.h], [netbase.cpp], [protocol.h], [protocol.cpp]): the
    classes of an address, its group, the orders of [std::map], services and known
    peers, message headers and inventory items, and the names of hosts.

    An address is the list of its 16 bytes, [::ffff:a.b.c.d] for IPv4.  Names are
    resolved by [getaddrinfo], which is an argument. *)

From S2P Require Import Prelude.
From S2P Require Import Uint256.
From S2P Require Import Serialize.
From S2P Require Import Hash.
From S2P Require Import Transaction.
From S2P Require Import Util.

(** ** [CNetAddr] *)

Definition CNetAddr : Type := list Z.

Definition CNetAddr_Init : CNetAddr := replicate 16 0.

Definition pchIPv4 : list Z := [0; 0; 0; 0; 0; 0; 0; 0; 0; 0; 255; 255].
Definition pchOnionCat : list Z := [0xFD; 0x87; 0xD8; 0x7E; 0xEB; 0x43].
Definition pchGarliCat : list Z := [0xFD; 0x60; 0xDB; 0x4D; 0xDD; 0xB5].

(** The constructor from [in_addr] *)
Definition CNetAddr_of_ipv4 (ipv4Addr : list Z) : CNetAddr := pchIPv4 ++ ipv4Addr.

(** [memcmp(ip, p, sizeof(p)) == 0] *)
Definition starts (ip p : list Z) : bool := bool_decide (take (length p) ip = p).

Definition GetByte (ip : CNetAddr) (n : nat) : Z := nthZ ip (15 - n).

Definition IsIPv4 (ip : CNetAddr) : bool := starts ip pchIPv4.
Definition IsTor (ip : CNetAddr) : bool := starts ip pchOnionCat.
Definition IsI2P (ip : CNetAddr) : bool := starts ip pchGarliCat.
Definition IsIPv6 (ip : CNetAddr) : bool := negb (IsIPv4 ip) && negb (IsTor ip) && negb (IsI2P ip).

Definition IsRFC1918 (ip : CNetAddr) : bool :=
  IsIPv4 ip &&
  ((GetByte ip 3 =? 10) || ((GetByte ip 3 =? 192) && (GetByte ip 2 =? 168)) ||
   ((GetByte ip 3 =? 172) && ((16 <=? GetByte ip 2) && (GetByte ip 2 <=? 31)))).

Definition IsRFC3927 (ip : CNetAddr) : bool := IsIPv4 ip && ((GetByte ip 3 =? 169) && (GetByte ip 2 =? 254)).

Definition IsRFC3849 (ip : CNetAddr) : bool :=
  (GetByte ip 15 =? 0x20) && (GetByte ip 14 =? 0x01) && (GetByte ip 13 =? 0x0D) && (GetByte ip 12 =? 0xB8).

Definition IsRFC3964 (ip : CNetAddr) : bool := (GetByte ip 15 =? 0x20) && (GetByte ip 14 =? 0x02).

Definition IsRFC6052 (ip : CNetAddr) : bool := starts ip [0; 0x64; 0xFF; 0x9B; 0; 0; 0; 0; 0; 0; 0; 0].

Definition IsRFC4380 (ip : CNetAddr) : bool :=
  (GetByte ip 15 =? 0x20) && (GetByte ip 14 =? 0x01) && (GetByte ip 13 =? 0) && (GetByte ip 12 =? 0).

Definition IsRFC4862 (ip : CNetAddr) : bool := starts ip [0xFE; 0x80; 0; 0; 0; 0; 0; 0].

Definition IsRFC4193 (ip : CNetAddr) : bool := (GetByte ip 15 .& 0xFE) =? 0xFC.

Definition IsRFC6145 (ip : CNetAddr) : bool := starts ip [0; 0; 0; 0; 0; 0; 0; 0; 0xFF; 0xFF; 0; 0].

Definition IsRFC4843 (ip : CNetAddr) : bool :=
  (GetByte ip 15 =? 0x20) && (GetByte ip 14 =? 0x01) && (GetByte ip 13 =? 0x00) && ((GetByte ip 12 .& 0xF0) =? 0x10).

Definition IsLocal (ip : CNetAddr) : bool :=
  if IsIPv4 ip && ((GetByte ip 3 =? 127) || (GetByte ip 3 =? 0)) then true
  else starts ip [0; 0; 0; 0; 0; 0; 0; 0; 0; 0; 0; 0; 0; 0; 0; 1].

Definition IsMulticast (ip : CNetAddr) : bool :=
  (IsIPv4 ip && ((GetByte ip 3 .& 0xF0) =? 0xE0)) || (GetByte ip 15 =? 0xFF).

Definition CNetAddr_IsValid (ip : CNetAddr) : bool :=
  if starts ip (drop 3 pchIPv4) then false
  else if starts ip (replicate 16 0) then false
  else if IsRFC3849 ip then false
  else if IsIPv4 ip then
    if starts (drop 12 ip) [255; 255; 255; 255] then false
    else if starts (drop 12 ip) [0; 0; 0; 0] then false
    else true
  else true.

Definition IsRoutable (ip : CNetAddr) : bool :=
  CNetAddr_IsValid ip &&
  negb (IsRFC1918 ip || IsRFC3927 ip || IsRFC4862 ip || (IsRFC4193 ip && negb (IsTor ip) && negb (IsI2P ip)) ||
        IsRFC4843 ip || IsLocal ip).

Inductive Network := NET_UNROUTABLE | NET_IPV4 | NET_IPV6 | NET_TOR | NET_I2P.
#[export] Instance Network_eq_dec : EqDecision Network.
Proof. solve_decision. Defined.

Definition net_class (n : Network) : Z :=
  match n with NET_UNROUTABLE => 0 | NET_IPV4 => 1 | NET_IPV6 => 2 | NET_TOR => 3 | NET_I2P => 4 end.

Definition GetNetwork (ip : CNetAddr) : Network :=
  if negb (IsRoutable ip) then NET_UNROUTABLE
  else if IsIPv4 ip then NET_IPV4
  else if IsTor ip then NET_TOR
  else if IsI2P ip then NET_I2P
  else NET_IPV6.

(** [memcmp(a, b, n) < 0] *)
Fixpoint mem_lt (a b : list Z) : bool :=
  match a, b with
  | x :: a', y :: b' => if x <? y then true else if y <? x then false else mem_lt a' b'
  | _, _ => false
  end.

Definition addr_eq (a b : CNetAddr) : bool := bool_decide (a = b).
Definition addr_lt (a b : CNetAddr) : bool := mem_lt a b.

Definition GetInAddr (ip : CNetAddr) : option (list Z) := if negb (IsIPv4 ip) then None else Some (drop 12 ip).

(** [GetGroup]: the class, [nBits] bits from byte [nStartByte] on, ones for the others *)
Definition group_bytes (ip : CNetAddr) (nClass : Z) (nStartByte nBits : nat) : list Z :=
  nClass :: ((fun i => GetByte ip (15 - (nStartByte + i))) <$> seq 0 (nBits / 8)) ++
  (if (0 <? nBits mod 8)%nat
   then [GetByte ip (15 - (nStartByte + nBits / 8)) .| (2 ^ Z.of_nat (nBits mod 8) - 1)] else []).

Definition GetGroup (ip : CNetAddr) : list Z :=
  let '(nClass, nBits) := if IsLocal ip then (255, 0%nat) else (net_class NET_IPV6, 16%nat) in
  if negb (IsRoutable ip) then group_bytes ip (net_class NET_UNROUTABLE) 0 0
  else if IsIPv4 ip || IsRFC6145 ip || IsRFC6052 ip then group_bytes ip (net_class NET_IPV4) 12 nBits
  else if IsRFC3964 ip then group_bytes ip (net_class NET_IPV4) 2 nBits
  else if IsRFC4380 ip then [net_class NET_IPV4; Z.lxor (GetByte ip 3) 0xFF; Z.lxor (GetByte ip 2) 0xFF]
  else if IsTor ip then group_bytes ip (net_class NET_TOR) 6 4
  else if IsI2P ip then group_bytes ip (net_class NET_I2P) 6 4
  else if (GetByte ip 15 =? 0x20) && (GetByte ip 14 =? 0x11) && (GetByte ip 13 =? 0x04) && (GetByte ip 12 =? 0x70)
  then group_bytes ip nClass 0 36
  else group_bytes ip nClass 0 32.

(** [GetExtNetwork] adds Teredo and the unknown partner to the networks. *)
Inductive ExtNetwork := NET (n : Network) | NET_UNKNOWN | NET_TEREDO.

Definition GetExtNetwork (addr : option CNetAddr) : ExtNetwork :=
  match addr with
  | None => NET_UNKNOWN
  | Some ip => if IsRFC4380 ip then NET_TEREDO else NET (GetNetwork ip)
  end.

Inductive Reachability :=
  REACH_UNREACHABLE | REACH_DEFAULT | REACH_TEREDO | REACH_IPV6_WEAK | REACH_IPV4 | REACH_IPV6_STRONG | REACH_PRIVATE.

Definition GetReachabilityFrom (ip : CNetAddr) (paddrPartner : option CNetAddr) : Reachability :=
  if negb (IsRoutable ip) then REACH_UNREACHABLE
  else
    let ourNet := GetExtNetwork (Some ip) in
    let fTunnel := IsRFC3964 ip || IsRFC6052 ip || IsRFC6145 ip in
    match GetExtNetwork paddrPartner with
    | NET NET_IPV4 => match ourNet with NET NET_IPV4 => REACH_IPV4 | _ => REACH_DEFAULT end
    | NET NET_IPV6 =>
        match ourNet with
        | NET_TEREDO => REACH_TEREDO
        | NET NET_IPV4 => REACH_IPV4
        | NET NET_IPV6 => if fTunnel then REACH_IPV6_WEAK else REACH_IPV6_STRONG
        | _ => REACH_DEFAULT
        end
    | NET NET_TOR =>
        match ourNet with NET NET_IPV4 => REACH_IPV4 | NET NET_TOR => REACH_PRIVATE | _ => REACH_DEFAULT end
    | NET NET_I2P => match ourNet with NET NET_I2P => REACH_PRIVATE | _ => REACH_DEFAULT end
    | NET_TEREDO =>
        match ourNet with
        | NET_TEREDO => REACH_TEREDO
        | NET NET_IPV6 => REACH_IPV6_WEAK
        | NET NET_IPV4 => REACH_IPV4
        | _ => REACH_DEFAULT
        end
    | NET_UNKNOWN | NET NET_UNROUTABLE =>
        match ourNet with
        | NET_TEREDO => REACH_TEREDO
        | NET NET_IPV6 => REACH_IPV6_WEAK
        | NET NET_IPV4 => REACH_IPV4
        | NET NET_I2P | NET NET_TOR => REACH_PRIVATE
        | _ => REACH_DEFAULT
        end
    end.

(** ** Names *)

(** [strName.substr(strName.size() - n, n) == suffix] with [strName.size() > n] *)
Definition has_suffix (strName suffix : list Z) : bool :=
  (length suffix <? length strName)%nat && bool_decide (drop (length strName - length suffix) strName = suffix).

(** ".onion" and ".oc.b32.i2p" *)
Definition dot_onion : list Z := [46; 111; 110; 105; 111; 110].
Definition dot_i2p : list Z := [46; 111; 99; 46; 98; 51; 50; 46; 105; 50; 112].

(** [SetSpecial]: the address the name stands for, if it is one *)
Definition SetSpecial (strName : list Z) : option CNetAddr :=
  if has_suffix strName dot_onion then
    let vchAddr := (DecodeBase32 (take (length strName - 6) strName)).1 in
    if negb (length vchAddr =? 16 - length pchOnionCat)%nat then None
    else Some (pchOnionCat ++ vchAddr)
  else if has_suffix strName dot_i2p then
    let vchAddr := (DecodeBase32 (take (length strName - 11) strName)).1 in
    if negb (length vchAddr =? 16 - length pchGarliCat)%nat then None
    else Some (take (length pchGarliCat) pchOnionCat ++ vchAddr)
  else None.

(** [strprintf("%x", n)] for 16 bits *)
Definition hex_text (n : Z) : list Z :=
  hexchar <$> (if n <? 16 then [n] else if n <? 256 then [n / 16; n mod 16]
    else if n <? 4096 then [n / 256; n / 16 mod 16; n mod 16] else [n / 4096; n / 256 mod 16; n / 16 mod 16; n mod 16]).

(** [ToStringIP]; [name_info] is [getnameinfo] of the socket address, which exists for IPv4 and IPv6 *)
Definition ToStringIP (name_info : CNetAddr -> option (list Z)) (ip : CNetAddr) : list Z :=
  if IsTor ip then EncodeBase32 (take 10 (drop 6 ip)) ++ dot_onion
  else if IsI2P ip then EncodeBase32 (take 10 (drop 6 ip)) ++ dot_i2p
  else
    match name_info ip with
    | Some name => name
    | None =>
        if IsIPv4 ip then
          i64tostr (GetByte ip 3) ++ 46 :: i64tostr (GetByte ip 2) ++ 46 :: i64tostr (GetByte ip 1) ++ 46 :: i64tostr (GetByte ip 0)
        else
          let word n := hex_text ((GetByte ip (S n) .<< 8) .| GetByte ip n) in
          word 14%nat ++ mjoin ((fun n => 58 :: word n) <$> [12; 10; 8; 6; 4; 2; 0]%nat)
    end.

(** [ParseNetwork], after [boost::to_lower] *)
Definition ParseNetwork (net : list Z) : Network :=
  let net := tolower <$> net in
  if bool_decide (net = [105; 112; 118; 52]) then NET_IPV4
  else if bool_decide (net = [105; 112; 118; 54]) then NET_IPV6
  else if bool_decide (net = [116; 111; 114]) then NET_TOR
  else if bool_decide (net = [105; 50; 112]) then NET_I2P
  else NET_UNROUTABLE.

(** [in.find_last_of(c)]: the last index of [c] *)
Definition find_last_of (s : list Z) (c : Z) : option nat := last (filter (fun i => s !! i = Some c) (seq 0 (length s))).

(** [strtol(s, &endp, 10)] converted to [int], when [*endp == 0]; without digits [endp] is [s] *)
Definition strtol_whole (s : list Z) : option Z :=
  let s := c_str s in
  let body :=
    match skip_spaces s with
    | c :: r => if (c =? 45) || (c =? 43) then r else c :: r
    | [] => []
    end in
  match body with
  | [] => if bool_decide (s = []) then Some 0 else None
  | _ => if forallb isdigit body then Some (i32 (atoi64 s)) else None
  end.

(** [SplitHostPort]: the new port, if one is given, and the host *)
Definition SplitHostPort (str : list Z) (portOut : Z) : Z * list Z :=
  let colon := find_last_of str 58 in
  let '(portOut, str) :=
    match colon with
    | None => (portOut, str)
    | Some k =>
        let fBracketed := (nthZ str 0 =? 91) && (nthZ str (k - 1) =? 93) in
        let fMultiColon := if (k =? 0)%nat then true else bool_decide (58 ∈ take k str) in
        if (k =? 0)%nat || fBracketed || negb fMultiColon then
          match strtol_whole (drop (S k) str) with
          | Some n => if 0 <=? n then (if (0 <? n) && (n <? 0x10000) then n else portOut, take k str) else (portOut, str)
          | None => (portOut, str)
          end
        else (portOut, str)
    end in
  (portOut, if (0 <? length str)%nat && (nthZ str 0 =? 91) && (nthZ str (length str - 1) =? 93) then take (length str - 2) (tail str) else str).

(** ** [CService] *)

Record CService := mkService { sv_ip : CNetAddr; port : Z }.
#[export] Instance CService_eq_dec : EqDecision CService.
Proof. solve_decision. Defined.

Definition CService_Init : CService := mkService CNetAddr_Init 0.
Definition service_eq (a b : CService) : bool := addr_eq (sv_ip a) (sv_ip b) && (port a =? port b).
Definition service_ne (a b : CService) : bool := negb (addr_eq (sv_ip a) (sv_ip b)) || negb (port a =? port b).
Definition service_lt (a b : CService) : bool :=
  addr_lt (sv_ip a) (sv_ip b) || (addr_eq (sv_ip a) (sv_ip b) && (port a <? port b)).

(** [CService::GetKey] *)
Definition service_GetKey (s : CService) : list Z := sv_ip s ++ [port s / 0x100; port s .& 0x0FF].

Definition ToStringPort (s : CService) : list Z := i64tostr (port s).
Definition ToStringIPPort (name_info : CNetAddr -> option (list Z)) (s : CService) : list Z :=
  let ip := sv_ip s in
  if IsIPv4 ip || IsTor ip || IsI2P ip then ToStringIP name_info ip ++ 58 :: ToStringPort s
  else 91 :: ToStringIP name_info ip ++ [93; 58] ++ ToStringPort s.

(** The port is stored in network order. *)
Definition htons (p : Z) : Z := u16 (p .<< 8) .| (p .>> 8).

Definition ip_codec : Codec CNetAddr := {|
  GetSerializeSize _ := 16;
  Serialize ip := ip;
  Unserialize s := stream_read 16 s
|}.

Definition service_codec : Codec CService := {|
  GetSerializeSize _ := 18;
  Serialize s := Serialize ip_codec (sv_ip s) ++ Serialize (uint_codec 2) (htons (port s));
  Unserialize s :=
    '(ip, s) ← Unserialize ip_codec s;
    '(portN, s) ← Unserialize (uint_codec 2) s;
    Some (mkService ip (htons portN), s)
|}.

(** ** Looking names up *)

(** What [getaddrinfo] found: the family and address of each entry *)
Inductive SockFamily := AF_INET (ip : list Z) | AF_INET6 (ip : list Z) | AF_OTHER.

Section lookup.
Context (getaddrinfo : list Z -> bool -> option (list SockFamily)).

Fixpoint take_solutions (aiRes : list SockFamily) (vIP : list CNetAddr) (nMaxSolutions : nat) : list CNetAddr :=
  match aiRes with
  | [] => vIP
  | a :: r =>
      if (nMaxSolutions =? 0)%nat || (length vIP <? nMaxSolutions)%nat then
        take_solutions r (vIP ++ match a with AF_INET ip => [CNetAddr_of_ipv4 ip] | AF_INET6 ip => [ip] | AF_OTHER => [] end) nMaxSolutions
      else vIP
  end.

(** [LookupIntern]: the addresses, none on failure *)
Definition LookupIntern (pszName : list Z) (nMaxSolutions : nat) (fAllowLookup : bool) : list CNetAddr :=
  match SetSpecial pszName with
  | Some addr => [addr]
  | None =>
      match getaddrinfo pszName fAllowLookup with
      | None => []
      | Some aiRes => take_solutions aiRes [] nMaxSolutions
      end
  end.

(** [LookupHost]: the name is cut at 255 characters; brackets around it are dropped *)
Definition LookupHost (pszName : list Z) (nMaxSolutions : nat) (fAllowLookup : bool) : list CNetAddr :=
  match pszName with
  | [] => []
  | _ =>
      let psz := take 255 pszName in
      LookupIntern (if (nthZ psz 0 =? 91) && (nthZ psz (length psz - 1) =? 93) then take (length psz - 2) (tail psz) else psz)
        nMaxSolutions fAllowLookup
  end.

Definition Lookup (pszName : list Z) (portDefault : Z) (fAllowLookup : bool) (nMaxSolutions : nat) : list CService :=
  match pszName with
  | [] => []
  | _ =>
      let '(port, hostname) := SplitHostPort pszName portDefault in
      (fun ip => mkService ip (u16 port)) <$> LookupIntern hostname nMaxSolutions fAllowLookup
  end.

Definition LookupNumeric (pszName : list Z) (portDefault : Z) : option CService :=
  head (Lookup pszName portDefault false 1).
End lookup.

(** ** Proxies: the globals [proxyInfo] and [nameproxyInfo] *)

Definition proxyType : Type := CService * Z.
Record Proxies := mkProxies { proxyInfo : Network -> proxyType; nameproxyInfo : proxyType }.

Definition proxies_start : Proxies := mkProxies (fun _ => (CService_Init, 0)) (CService_Init, 0).

Definition SetProxy (net : Network) (addrProxy : CService) (nSocksVersion : Z) (s : Proxies) : bool * Proxies :=
  if negb (nSocksVersion =? 0) && negb (nSocksVersion =? 4) && negb (nSocksVersion =? 5) then (false, s)
  else if negb (nSocksVersion =? 0) && negb (CNetAddr_IsValid (sv_ip addrProxy)) then (false, s)
  else (true, mkProxies (fun n => if decide (n = net) then (addrProxy, nSocksVersion) else proxyInfo s n) (nameproxyInfo s)).

Definition GetProxy (net : Network) (s : Proxies) : option proxyType :=
  if (proxyInfo s net).2 =? 0 then None else Some (proxyInfo s net).

Definition SetNameProxy (addrProxy : CService) (nSocksVersion : Z) (s : Proxies) : bool * Proxies :=
  if negb (nSocksVersion =? 0) && negb (nSocksVersion =? 5) then (false, s)
  else if negb (nSocksVersion =? 0) && negb (CNetAddr_IsValid (sv_ip addrProxy)) then (false, s)
  else (true, mkProxies (proxyInfo s) (addrProxy, nSocksVersion)).

Definition GetNameProxy (s : Proxies) : option proxyType :=
  if (nameproxyInfo s).2 =? 0 then None else Some (nameproxyInfo s).

Definition HaveNameProxy (s : Proxies) : bool := negb ((nameproxyInfo s).2 =? 0).

Definition IsProxy (addr : CNetAddr) (s : Proxies) : bool :=
  existsb (fun n => negb ((proxyInfo s n).2 =? 0) && addr_eq addr (sv_ip (proxyInfo s n).1))
    [NET_UNROUTABLE; NET_IPV4; NET_IPV6; NET_TOR; NET_I2P].

(** ** Messages ([protocol.h]) *)

Definition COMMAND_SIZE : nat := 12.

Record CMessageHeader := mkHeader {
  hdr_start : list Z; pchCommand : list Z; nMessageSize : Z; nChecksum : Z
}.

(** [strncpy(pchCommand, pszCommand, COMMAND_SIZE)]: cut or padded with zeros *)
Definition strncpy (n : nat) (s : list Z) : list Z := take n (c_str s) ++ replicate (n - length (c_str s)) 0.

(** The two constructors; [pchMessageStart] is the global of the network *)
Definition CMessageHeader_default (pchMessageStart : list Z) : CMessageHeader :=
  mkHeader pchMessageStart (<[1%nat := 1]> (replicate COMMAND_SIZE 0)) (u32 (-1)) 0.

Definition CMessageHeader_new (pchMessageStart pszCommand : list Z) (nMessageSizeIn : Z) : CMessageHeader :=
  mkHeader pchMessageStart (strncpy COMMAND_SIZE pszCommand) (u32 nMessageSizeIn) 0.

Definition GetCommand (h : CMessageHeader) : list Z :=
  if nthZ (pchCommand h) (COMMAND_SIZE - 1) =? 0 then c_str (pchCommand h) else take COMMAND_SIZE (pchCommand h).

(** The loop over the command: printable characters, and only zeros after a zero *)
Fixpoint command_ok (p1 : list Z) : bool :=
  match p1 with
  | c :: r =>
      if c =? 0 then forallb (fun c => c =? 0) r
      else if (swrap 8 c <? 32) || (0x7E <? swrap 8 c) then false
      else command_ok r
  | [] => true
  end.

Definition header_IsValid (pchMessageStart : list Z) (h : CMessageHeader) : bool :=
  if negb (bool_decide (hdr_start h = pchMessageStart)) then false
  else if negb (command_ok (pchCommand h)) then false
  else if MAX_SIZE <? nMessageSize h then false
  else true.

Definition flat_codec (n : nat) : Codec (list Z) := {|
  GetSerializeSize _ := Z.of_nat n;
  Serialize bs := bs;
  Unserialize s := stream_read n s
|}.

Definition message_header_codec : Codec CMessageHeader := {|
  GetSerializeSize _ := 24;
  Serialize h :=
    Serialize (flat_codec 4) (hdr_start h) ++ Serialize (flat_codec COMMAND_SIZE) (pchCommand h) ++
    Serialize (uint_codec 4) (nMessageSize h) ++ Serialize (uint_codec 4) (nChecksum h);
  Unserialize s :=
    '(st, s) ← Unserialize (flat_codec 4) s;
    '(cmd, s) ← Unserialize (flat_codec COMMAND_SIZE) s;
    '(size, s) ← Unserialize (uint_codec 4) s;
    '(sum, s) ← Unserialize (uint_codec 4) s;
    Some (mkHeader st cmd size sum, s)
|}.

(** *** Peers *)

Definition NODE_NETWORK : Z := 1.
Definition CADDR_TIME_VERSION : Z := 31402.

Record CAddress := mkAddress { ad_service : CService; nServices : Z; ad_nTime : Z; nLastTry : Z }.
#[export] Instance CAddress_eq_dec : EqDecision CAddress.
Proof. solve_decision. Defined.

(** [CAddress(ipIn, nServicesIn)] and the default constructor *)
Definition CAddress_new (ipIn : CService) (nServicesIn : Z) : CAddress := mkAddress ipIn nServicesIn 100000000 0.
Definition CAddress_Init : CAddress := CAddress_new CService_Init NODE_NETWORK.

(** The types of a stream *)
Record StreamType := mkType { SER_DISK : bool; SER_GETHASH : bool; st_version : Z }.

(** Whether [nTime] is in the stream *)
Definition has_time (t : StreamType) : bool := SER_DISK t || ((CADDR_TIME_VERSION <=? st_version t) && negb (SER_GETHASH t)).

Definition address_codec (t : StreamType) : Codec CAddress := {|
  GetSerializeSize _ := (if SER_DISK t then 4 else 0) + (if has_time t then 4 else 0) + 8 + 18;
  Serialize a :=
    (if SER_DISK t then Serialize (sint_codec 4) (st_version t) else []) ++
    (if has_time t then Serialize (uint_codec 4) (ad_nTime a) else []) ++
    Serialize (uint_codec 8) (nServices a) ++ Serialize service_codec (ad_service a);
  Unserialize s :=
    '(_, s) ← (if SER_DISK t then Unserialize (sint_codec 4) s else Some (0, s));
    '(nTime, s) ← (if has_time t then Unserialize (uint_codec 4) s else Some (ad_nTime CAddress_Init, s));
    '(services, s) ← Unserialize (uint_codec 8) s;
    '(ip, s) ← Unserialize service_codec s;
    Some (mkAddress ip services nTime 0, s)
|}.

(** *** Inventory *)

Record CInv := mkInv { inv_type : Z; inv_hash : list Z }.

(** [ppszTypeName] *)
Definition ppszTypeName : list (list Z) := [[69; 82; 82; 79; 82]; [116; 120]; [98; 108; 111; 99; 107]].

(** The constructor from a type's name; [None] for the exception *)
Definition CInv_named (strType hashIn : list Z) : option CInv :=
  match filter (fun i => ppszTypeName !! i = Some strType) [1; 2]%nat with
  | i :: _ => Some (mkInv (Z.of_nat i) hashIn)
  | [] => None
  end.

Definition inv_lt (a b : CInv) : bool :=
  (inv_type a <? inv_type b) || ((inv_type a =? inv_type b) && op_lt (inv_hash a) (inv_hash b)).

Definition IsKnownType (i : CInv) : bool := (1 <=? inv_type i) && (inv_type i <? 3).

(** [None] for the exception *)
Definition inv_GetCommand (i : CInv) : option (list Z) :=
  if negb (IsKnownType i) then None else ppszTypeName !! Z.to_nat (inv_type i).

(** ** Classes of addresses *)

Definition addr_ok (ip : CNetAddr) : Prop := length ip = 16%nat /\ bytes_ok ip.

Lemma starts_spec ip p : starts ip p = true <-> exists r, ip = p ++ r.
Proof.
  unfold starts. rewrite bool_decide_eq_true. split.
  - intros H. exists (drop (length p) ip). by rewrite <- H at 1; rewrite take_drop.
  - intros [r ->]. apply take_app_length.
Qed.

Lemma starts_exclusive ip p q : starts ip p = true -> starts ip q = true -> length p = length q -> p = q.
Proof. unfold starts. rewrite !bool_decide_eq_true. intros H1 H2 Hl. transitivity (take (length p) ip); [done|by rewrite Hl]. Qed.

(** An address belongs to exactly one network. *)
Lemma one_network ip :
  (IsIPv4 ip && IsTor ip = false) /\ (IsIPv4 ip && IsI2P ip = false) /\ (IsTor ip && IsI2P ip = false).
Proof.
  assert (Hd : forall p, starts ip p = true -> nthZ ip 0 = nthZ p 0 \/ p = []).
  { intros p Hp. apply starts_spec in Hp as [r ->]. destruct p as [|x p]; [by right|by left]. }
  split_and!.
  - destruct (IsIPv4 ip) eqn:E1, (IsTor ip) eqn:E2; try done. destruct (Hd _ E1) as [A|?], (Hd _ E2) as [B|?]; try done. rewrite A in B. by vm_compute in B.
  - destruct (IsIPv4 ip) eqn:E1, (IsI2P ip) eqn:E2; try done. destruct (Hd _ E1) as [A|?], (Hd _ E2) as [B|?]; try done. rewrite A in B. by vm_compute in B.
  - destruct (IsTor ip) eqn:E1, (IsI2P ip) eqn:E2; try done. by pose proof (starts_exclusive _ _ _ E1 E2 eq_refl).
Qed.

(** Local addresses are not routable, so that the group of a local address is always
    the one of unroutable addresses, never 255. *)
Lemma local_not_routable ip : IsLocal ip = true -> IsRoutable ip = false.
Proof. unfold IsRoutable. intros ->. by rewrite !orb_true_r, andb_false_r. Qed.

Lemma unroutable_group ip : IsRoutable ip = false -> GetGroup ip = [0].
Proof. unfold GetGroup. intros ->. by destruct (IsLocal ip). Qed.

Lemma routable_IPv4_group ip : IsRoutable ip = true -> IsIPv4 ip = true -> GetGroup ip = [1; nthZ ip 12; nthZ ip 13].
Proof.
  intros Hr H4. unfold GetGroup. rewrite Hr, H4. destruct (IsLocal ip) eqn:El; [by rewrite local_not_routable in Hr|done].
Qed.

Lemma length_group ip : (1 <= length (GetGroup ip) <= 6)%nat.
Proof. unfold GetGroup. repeat (case_goal; try (cbn; lia)). Qed.

Lemma group_bytes_ok ip nClass start nBits :
  bytes_ok ip -> is_byte nClass -> bytes_ok (group_bytes ip nClass start nBits).
Proof.
  intros Hb Hc. apply Forall_cons. split; [done|]. apply Forall_app. split.
  - apply Forall_fmap, Forall_forall. intros i _. apply nthZ_digit; [lia|done].
  - case_goal; [|apply Forall_nil_2]. apply Forall_singleton. bool_prop. apply Nat.ltb_lt in Heqb.
    set (k := (nBits mod 8)%nat) in *. assert (k < 8)%nat by (apply Nat.mod_upper_bound; lia).
    assert (2 ^ Z.of_nat k <= 2 ^ 8) by (apply Z.pow_le_mono_r; lia). assert (0 < 2 ^ Z.of_nat k) by (apply Z.pow_pos_nonneg; lia).
    assert (Hg : is_byte (GetByte ip (15 - (start + nBits / 8)))) by (apply nthZ_digit; [lia|done]). red in Hg |- *.
    change (2 ^ 8) with 256 in *. apply (lor_range 8); change (2 ^ 8) with 256; lia.
Qed.

(** ** The order of [std::map] *)

Lemma mem_lt_irrefl a : mem_lt a a = false.
Proof. induction a as [|x a IH]; [done|]. cbn. by rewrite Z.ltb_irrefl. Qed.

Lemma mem_lt_trans a b c : length a = length b -> length b = length c -> mem_lt a b = true -> mem_lt b c = true -> mem_lt a c = true.
Proof.
  revert b c. induction a as [|x a IH]; intros [|y b] [|z c] H1 H2; cbn; try done. injection H1 as H1. injection H2 as H2.
  destruct (Z.ltb_spec x y), (Z.ltb_spec y x), (Z.ltb_spec y z), (Z.ltb_spec z y), (Z.ltb_spec x z), (Z.ltb_spec z x); try done; try lia.
  by apply IH.
Qed.

(** Addresses neither of which is below the other are equal: the keys of a map. *)
Lemma addr_lt_total a b : addr_ok a -> addr_ok b -> addr_lt a b = false -> addr_lt b a = false -> a = b.
Proof.
  intros [Ha _] [Hb _]. unfold addr_lt. assert (Hl : length a = length b) by lia. clear Ha Hb.
  revert b Hl. induction a as [|x a IH]; intros [|y b] Hl; cbn; try done. injection Hl as Hl.
  destruct (Z.ltb_spec x y), (Z.ltb_spec y x); try done; intros; try lia. f_equal; [lia|by apply IH].
Qed.

(** ** Names of hidden services *)

Lemma has_suffix_app s suffix : s <> [] -> has_suffix (s ++ suffix) suffix = true.
Proof.
  intros Hs. unfold has_suffix. rewrite length_app. apply andb_true_intro. split.
  - apply Nat.ltb_lt. destruct s; [done|]. cbn. lia.
  - apply bool_decide_eq_true. replace (length s + length suffix - length suffix)%nat with (length s) by lia. apply drop_app_length.
Qed.

Lemma EncodeBase32_nonempty bs : bs <> [] -> EncodeBase32 bs <> [].
Proof. destruct bs as [|b bs]; done. Qed.

(** Names of Tor services stand for their addresses: the name [ToStringIP] prints for an
    OnionCat address is read back by [SetSpecial] to the address.  The name of an I2P
    address, though, is read to the OnionCat address with the same ten bytes, because
    [SetSpecial] copies the wrong prefix: a Tor address, which is never the one named. *)
Theorem special_names (name_info : CNetAddr -> option (list Z)) (ip : CNetAddr) :
  addr_ok ip ->
  (IsTor ip = true -> SetSpecial (ToStringIP name_info ip) = Some ip) /\
  (IsI2P ip = true ->
    exists ip', SetSpecial (ToStringIP name_info ip) = Some ip' /\ drop 6 ip' = drop 6 ip /\ IsTor ip' = true /\ ip' <> ip).
Proof.
  intros [Hl Hb]. set (id := take 10 (drop 6 ip)).
  assert (Hid : id = drop 6 ip) by (apply take_ge; rewrite length_drop; lia).
  assert (Hdec : DecodeBase32 (EncodeBase32 id) = (id, false)).
  { apply base32_roundtrip. rewrite Hid. by apply Forall_drop. }
  assert (Hlen : length id = 10%nat) by (rewrite Hid, length_drop; lia).
  assert (Hne : EncodeBase32 id <> []) by (apply EncodeBase32_nonempty; by destruct id).
  destruct (one_network ip) as (_ & _ & Hti). split.
  - intros Ht. unfold ToStringIP. rewrite Ht. fold id. unfold SetSpecial. rewrite has_suffix_app by done.
    rewrite length_app. replace (length (EncodeBase32 id) + length dot_onion - 6)%nat with (length (EncodeBase32 id)) by (cbn; lia).
    rewrite take_app_length, Hdec. cbn [fst]. rewrite Hlen. cbn [negb length pchOnionCat Nat.eqb Nat.sub].
    f_equal. rewrite Hid. unfold IsTor in Ht. apply starts_spec in Ht as [r ->]. done.
  - intros Hi. rewrite Hi, andb_true_r in Hti. unfold ToStringIP. rewrite Hti, Hi. fold id. unfold SetSpecial.
    assert (has_suffix (EncodeBase32 id ++ dot_i2p) dot_onion = false) as ->.
    { unfold has_suffix. apply andb_false_iff. right. apply bool_decide_eq_false. rewrite length_app.
      replace (length (EncodeBase32 id) + length dot_i2p - length dot_onion)%nat with (length (EncodeBase32 id) + 5)%nat by (cbn; lia).
      rewrite drop_app_add. done. }
    rewrite has_suffix_app by done. rewrite length_app.
    replace (length (EncodeBase32 id) + length dot_i2p - 11)%nat with (length (EncodeBase32 id)) by (cbn; lia).
    rewrite take_app_length, Hdec. cbn [fst]. rewrite Hlen. exists (pchOnionCat ++ id). split; [done|].
    assert (Ht : IsTor (pchOnionCat ++ id) = true) by (apply starts_spec; by exists id).
    split_and!; [by rewrite Hid|done|]. intros E. rewrite E in Ht. by rewrite Ht in Hti.
Qed.

Lemma special_names_witness :
  let ip := pchOnionCat ++ [1; 2; 3; 4; 5; 6; 7; 8; 9; 255] in
  addr_ok ip /\ IsTor ip = true /\ SetSpecial (ToStringIP (fun _ => None) ip) = Some ip.
Proof.
  cbv zeta. assert (Hok : addr_ok (pchOnionCat ++ [1; 2; 3; 4; 5; 6; 7; 8; 9; 255])).
  { split; [reflexivity|]. apply (bool_decide_eq_true_1 _). vm_compute. reflexivity. }
  split; [exact Hok|]. split; [reflexivity|].
  exact (proj1 (special_names (fun _ => None) _ Hok) eq_refl).
Defined.

(** ** Records on the wire *)

Definition service_ok (s : CService) : Prop := addr_ok (sv_ip s) /\ fits 2 (port s).

Lemma htons_twice p : fits 2 p -> fits 2 (htons p) /\ htons (htons p) = p.
Proof.
  intros Hp. unfold fits in *. change (256 ^ Z.of_nat 2) with 65536 in *.
  assert (E : forall q, 0 <= q < 65536 -> htons q = q mod 256 * 256 + q / 256).
  { intros q Hq. unfold htons. bits_arith. unfold wrap. change (2 ^ 16) with 65536.
    replace (q * 256 mod 65536) with (q mod 256 * 256) by divmod_lia. apply (lor_mul_add 8); [done|lia|divmod_lia]. }
  rewrite (E p Hp). split; [divmod_lia|]. rewrite E by divmod_lia. divmod_lia.
Qed.

#[export] Instance flat_codec_ok n `{!TCEq (n <=? 1000)%nat true} : CodecOk (flat_codec n) (fun bs => length bs = n /\ bytes_ok bs).
Proof.
  rename select (TCEq _ _) into Hn. apply TCEq_eq, Nat.leb_le in Hn. split; cbn.
  - intros x rest [Hl _]. by apply stream_read_app.
  - intros x [-> _]. rewrite wrap_small by lia. done.
  - by intros x [_ ?].
Qed.

#[export] Instance ip_codec_ok : CodecOk ip_codec addr_ok.
Proof.
  split; cbn.
  - intros x rest [Hl _]. by apply stream_read_app.
  - by intros x [-> _].
  - by intros x [_ ?].
Qed.

#[export] Instance service_codec_ok : CodecOk service_codec service_ok.
Proof.
  split; cbn [Unserialize Serialize GetSerializeSize service_codec]; intros [ip p]; cbn [sv_ip port].
  - intros rest [Hi Hp]. cbn [sv_ip port] in *. destruct (htons_twice p Hp) as [Hf Hh]. rewrite <- app_assoc.
    do 2 codec_step. by rewrite Hh.
  - intros [[Hl _] _]. cbn [sv_ip] in Hl. rewrite length_app. cbn [Serialize ip_codec uint_codec]. by rewrite Hl, length_to_digits.
  - intros [Hi Hp]. cbn [sv_ip port] in *. apply Forall_app. split; [by eapply codec_bytes|]. by eapply codec_bytes; apply htons_twice.
Qed.

Definition address_ok (t : StreamType) (a : CAddress) : Prop :=
  service_ok (ad_service a) /\ fits 8 (nServices a) /\ fits 4 (ad_nTime a) /\ nLastTry a = 0 /\
  sfits 4 (st_version t) /\ (has_time t = false -> ad_nTime a = 100000000).

(** A known peer survives every kind of stream, but for its last try, which is kept in
    memory only, and its time where the stream has none. *)
#[export] Instance address_codec_ok t : CodecOk (address_codec t) (address_ok t).
Proof.
  split; cbn [Unserialize Serialize GetSerializeSize address_codec]; intros [sv ns nt lt]; cbn [ad_service nServices ad_nTime nLastTry].
  - intros rest (Hs & Hn & Ht & Hl & Hv & Hd). cbn [ad_service nServices ad_nTime nLastTry] in *. rewrite <- !app_assoc. subst lt.
    destruct (SER_DISK t) eqn:Ed; [codec_step|cbn [app mbind option_bind]];
      (destruct (has_time t) eqn:Et; [codec_step|cbn [app mbind option_bind]; rewrite (Hd eq_refl)]); by do 2 codec_step.
  - intros (Hs & Hn & Ht & Hl & Hv & Hd). cbn [ad_service nServices ad_nTime nLastTry] in *.
    destruct Hs as [[Hi _] _]. rewrite !length_app. cbn [Serialize uint_codec sint_codec service_codec ip_codec].
    rewrite length_app, !length_to_digits, Hi. by destruct (SER_DISK t), (has_time t).
  - intros (Hs & Hn & Ht & Hl & Hv & Hd). cbn [ad_service nServices ad_nTime nLastTry] in *. rewrite !Forall_app.
    split_and!; [destruct (SER_DISK t); [by eapply codec_bytes|done]|destruct (has_time t); [by eapply codec_bytes|done]|by eapply codec_bytes..].
Qed.

#[export] Instance message_header_codec_ok :
  CodecOk message_header_codec (fun h => (length (hdr_start h) = 4%nat /\ bytes_ok (hdr_start h)) /\
    (length (pchCommand h) = COMMAND_SIZE /\ bytes_ok (pchCommand h)) /\ fits 4 (nMessageSize h) /\ fits 4 (nChecksum h)).
Proof.
  split; cbn [Unserialize Serialize GetSerializeSize message_header_codec]; intros [st cmd size sum]; cbn [hdr_start pchCommand nMessageSize nChecksum].
  - intros rest (H1 & H2 & H3 & H4). rewrite <- !app_assoc. by do 4 codec_step.
  - intros ([H1 _] & [H2 _] & _). cbn [Serialize flat_codec uint_codec]. by rewrite !length_app, !length_to_digits, H1, H2.
  - intros (H1 & H2 & H3 & H4). rewrite !Forall_app. split_and!; [by destruct H1|by destruct H2|by eapply codec_bytes..].
Qed.

(** ** Commands *)

Lemma command_ok_app s z : Forall (fun c => 32 <= c <= 126) s -> forallb (fun c => c =? 0) z = true -> command_ok (s ++ z) = true.
Proof.
  intros Hs Hz. induction Hs as [|c s Hc _ IH]; cbn [app].
  - destruct z as [|x z]; [done|]. cbn [forallb] in Hz. apply andb_true_iff in Hz as [Hx Hz]. cbn [command_ok]. by rewrite Hx.
  - cbn [command_ok]. rewrite swrap_small by lia. destruct (Z.eqb_spec c 0); [lia|].
    destruct (Z.ltb_spec c 32); [lia|]. destruct (Z.ltb_spec 126 c); [lia|done].
Qed.

Lemma forallb_replicate_0 n : forallb (fun c => c =? 0) (replicate n 0) = true.
Proof. by induction n. Qed.

Lemma c_str_padded s n : Forall (fun c => c <> 0) s -> c_str (s ++ replicate n 0) = s.
Proof.
  induction 1 as [|c s Hc _ IH]; [by destruct n|]. cbn [app c_str]. rewrite IH. by rewrite (proj2 (Z.eqb_neq c 0) Hc).
Qed.

(** A header names its command, and is valid when its payload is not too large. *)
Lemma header_command start cmd size :
  Forall (fun c => 32 <= c <= 126) cmd -> (length cmd <= COMMAND_SIZE)%nat -> fits 4 size ->
  GetCommand (CMessageHeader_new start cmd size) = cmd /\
  header_IsValid start (CMessageHeader_new start cmd size) = (size <=? MAX_SIZE).
Proof.
  intros Hc Hl Hs. assert (Hz : Forall (fun c => c <> 0) cmd) by (eapply Forall_impl; [exact Hc|]; cbn; lia).
  unfold CMessageHeader_new, strncpy. rewrite c_str_id, take_ge by done. split.
  - unfold GetCommand. cbn [pchCommand]. destruct (nthZ _ _ =? 0) eqn:E; [by apply c_str_padded|].
    assert (length cmd = COMMAND_SIZE) as Hfull.
    { destruct (decide (length cmd = COMMAND_SIZE)); [done|]. apply Z.eqb_neq in E. exfalso. apply E.
      unfold nthZ. rewrite lookup_app_r by (unfold COMMAND_SIZE in *; lia). rewrite lookup_replicate_2; [done|unfold COMMAND_SIZE in *; lia]. }
    rewrite Hfull, Nat.sub_diag. cbn [replicate]. rewrite app_nil_r. apply take_ge. lia.
  - unfold header_IsValid. cbn [hdr_start pchCommand nMessageSize]. rewrite bool_decide_eq_true_2 by done.
    rewrite command_ok_app by (done || apply forallb_replicate_0). cbn [negb].
    rewrite wrap_small by exact Hs. by destruct (Z.leb_spec size MAX_SIZE), (Z.ltb_spec MAX_SIZE size); try lia.
Qed.
