(* ===== verification/AddrMan.v ===== *)
(** * The address manager ([addrman.h], [addrman.cpp]): what the node knows of its peers,
    in buckets of untried and of tried addresses.

    [nullopt] of an operation, the result [None], is a failed [assert], or the use of
    an entry of [mapInfo] that does not exist, where the source's [operator[]] would make
    one; the theory shows that neither happens.  [GetRandInt(n)] takes the next sample
    modulo [n].  The time [GetAdjustedTime()] is an argument.  Locks are left out. *)

From stdpp Require Import sorting.
From S2P Require Import Prelude.
From S2P Require Import Uint256.
From S2P Require Import Serialize.
From S2P Require Import Hash.
From S2P Require Import Support.
From S2P Require Import NetAddr.

Definition ADDRMAN_TRIED_BUCKET_COUNT : nat := 64.
Definition ADDRMAN_TRIED_BUCKET_SIZE : nat := 64.
Definition ADDRMAN_NEW_BUCKET_COUNT : nat := 256.
Definition ADDRMAN_NEW_BUCKET_SIZE : nat := 64.
Definition ADDRMAN_TRIED_BUCKETS_PER_GROUP : Z := 4.
Definition ADDRMAN_NEW_BUCKETS_PER_SOURCE_GROUP : Z := 32.
Definition ADDRMAN_NEW_BUCKETS_PER_ADDRESS : Z := 4.
Definition ADDRMAN_TRIED_ENTRIES_INSPECT_ON_EVICT : nat := 4.
Definition ADDRMAN_HORIZON_DAYS : Z := 30.
Definition ADDRMAN_RETRIES : Z := 3.
Definition ADDRMAN_MAX_FAILURES : Z := 10.
Definition ADDRMAN_MIN_FAIL_DAYS : Z := 7.
Definition ADDRMAN_GETADDR_MAX_PCT : Z := 23.
Definition ADDRMAN_GETADDR_MAX : Z := 2500.

(** ** Entries *)

Record CAddrInfo := mkInfo {
  ai_addr : CAddress;      (** the base class *)
  source : CNetAddr;
  nLastSuccess : Z;
  nAttempts : Z;
  nRefCount : Z;
  fInTried : bool;
  nRandomPos : Z
}.

Definition info_ip (info : CAddrInfo) : CNetAddr := sv_ip (ad_service (ai_addr info)).
Definition info_nTime (info : CAddrInfo) : Z := ad_nTime (ai_addr info).
Definition info_nLastTry (info : CAddrInfo) : Z := nLastTry (ai_addr info).

(** [CAddrInfo(addrIn, addrSource)] with [Init()] *)
Definition CAddrInfo_new (addrIn : CAddress) (addrSource : CNetAddr) : CAddrInfo :=
  mkInfo (mkAddress (ad_service addrIn) (nServices addrIn) (ad_nTime addrIn) 0) addrSource 0 0 0 false (-1).

(** Assignments to the fields *)
Definition with_nTime (t : Z) (i : CAddrInfo) : CAddrInfo :=
  mkInfo (mkAddress (ad_service (ai_addr i)) (nServices (ai_addr i)) (u32 t) (nLastTry (ai_addr i)))
    (source i) (nLastSuccess i) (nAttempts i) (nRefCount i) (fInTried i) (nRandomPos i).
Definition with_nServices (n : Z) (i : CAddrInfo) : CAddrInfo :=
  mkInfo (mkAddress (ad_service (ai_addr i)) n (ad_nTime (ai_addr i)) (nLastTry (ai_addr i)))
    (source i) (nLastSuccess i) (nAttempts i) (nRefCount i) (fInTried i) (nRandomPos i).
Definition with_nLastTry (t : Z) (i : CAddrInfo) : CAddrInfo :=
  mkInfo (mkAddress (ad_service (ai_addr i)) (nServices (ai_addr i)) (ad_nTime (ai_addr i)) t)
    (source i) (nLastSuccess i) (nAttempts i) (nRefCount i) (fInTried i) (nRandomPos i).
Definition with_nLastSuccess (t : Z) (i : CAddrInfo) : CAddrInfo :=
  mkInfo (ai_addr i) (source i) t (nAttempts i) (nRefCount i) (fInTried i) (nRandomPos i).
Definition with_nAttempts (n : Z) (i : CAddrInfo) : CAddrInfo :=
  mkInfo (ai_addr i) (source i) (nLastSuccess i) n (nRefCount i) (fInTried i) (nRandomPos i).
Definition with_nRefCount (n : Z) (i : CAddrInfo) : CAddrInfo :=
  mkInfo (ai_addr i) (source i) (nLastSuccess i) (nAttempts i) n (fInTried i) (nRandomPos i).
Definition with_fInTried (b : bool) (i : CAddrInfo) : CAddrInfo :=
  mkInfo (ai_addr i) (source i) (nLastSuccess i) (nAttempts i) (nRefCount i) b (nRandomPos i).
Definition with_nRandomPos (p : Z) (i : CAddrInfo) : CAddrInfo :=
  mkInfo (ai_addr i) (source i) (nLastSuccess i) (nAttempts i) (nRefCount i) (fInTried i) p.

Definition IsTerrible (nNow : Z) (i : CAddrInfo) : bool :=
  if negb (info_nLastTry i =? 0) && (nNow - 60 <=? info_nLastTry i) then false
  else if nNow + 10 * 60 <? info_nTime i then true
  else if (info_nTime i =? 0) || (ADDRMAN_HORIZON_DAYS * 86400 <? nNow - info_nTime i) then true
  else if (nLastSuccess i =? 0) && (ADDRMAN_RETRIES <=? nAttempts i) then true
  else if (ADDRMAN_MIN_FAIL_DAYS * 86400 <? nNow - nLastSuccess i) && (ADDRMAN_MAX_FAILURES <=? nAttempts i) then true
  else false.

Section buckets.
Context {H : HashOps}.

Definition hash64 (bytes : list Z) : Z := default 0 (Get64 (Hash bytes) 0).

Definition GetTriedBucket (nKey : list Z) (i : CAddrInfo) : nat :=
  let hash1 := hash64 (Serialize vch_codec nKey ++ Serialize vch_codec (service_GetKey (ad_service (ai_addr i)))) in
  let hash2 := hash64 (Serialize vch_codec nKey ++ Serialize vch_codec (GetGroup (info_ip i)) ++
                       Serialize (uint_codec 8) (hash1 mod ADDRMAN_TRIED_BUCKETS_PER_GROUP)) in
  Z.to_nat (hash2 mod Z.of_nat ADDRMAN_TRIED_BUCKET_COUNT).

Definition GetNewBucket (nKey : list Z) (i : CAddrInfo) (src : CNetAddr) : nat :=
  let hash1 := hash64 (Serialize vch_codec nKey ++ Serialize vch_codec (GetGroup (info_ip i)) ++ Serialize vch_codec (GetGroup src)) in
  let hash2 := hash64 (Serialize vch_codec nKey ++ Serialize vch_codec (GetGroup src) ++
                       Serialize (uint_codec 8) (hash1 mod ADDRMAN_NEW_BUCKETS_PER_SOURCE_GROUP)) in
  Z.to_nat (hash2 mod Z.of_nat ADDRMAN_NEW_BUCKET_COUNT).
End buckets.

(** ** The manager *)

Record CAddrMan := mkAddrMan {
  nKey : list Z;
  nIdCount : Z;
  mapInfo : gmap Z CAddrInfo;
  mapAddr : gmap CNetAddr Z;
  vRandom : list Z;
  nTried : Z;
  vvTried : list (list Z);
  nNew : Z;
  vvNew : list (gset Z)
}.

Definition CAddrMan_new (key : list Z) : CAddrMan :=
  mkAddrMan key 0 ∅ ∅ [] 0 (replicate ADDRMAN_TRIED_BUCKET_COUNT []) 0 (replicate ADDRMAN_NEW_BUCKET_COUNT ∅).

Definition am_size (s : CAddrMan) : nat := length (vRandom s).

(** Assignments to the members *)
Definition set_info (m : gmap Z CAddrInfo) (s : CAddrMan) : CAddrMan :=
  mkAddrMan (nKey s) (nIdCount s) m (mapAddr s) (vRandom s) (nTried s) (vvTried s) (nNew s) (vvNew s).
Definition upd_info (id : Z) (f : CAddrInfo -> CAddrInfo) (s : CAddrMan) : CAddrMan := set_info (alter f id (mapInfo s)) s.
Definition set_random (r : list Z) (s : CAddrMan) : CAddrMan :=
  mkAddrMan (nKey s) (nIdCount s) (mapInfo s) (mapAddr s) r (nTried s) (vvTried s) (nNew s) (vvNew s).
Definition set_tried (n : Z) (v : list (list Z)) (s : CAddrMan) : CAddrMan :=
  mkAddrMan (nKey s) (nIdCount s) (mapInfo s) (mapAddr s) (vRandom s) n v (nNew s) (vvNew s).
Definition set_new (n : Z) (v : list (gset Z)) (s : CAddrMan) : CAddrMan :=
  mkAddrMan (nKey s) (nIdCount s) (mapInfo s) (mapAddr s) (vRandom s) (nTried s) (vvTried s) n v.
Definition set_addr (m : gmap CNetAddr Z) (s : CAddrMan) : CAddrMan :=
  mkAddrMan (nKey s) (nIdCount s) (mapInfo s) m (vRandom s) (nTried s) (vvTried s) (nNew s) (vvNew s).

(** Bucket [b] of untried and of tried addresses *)
Definition new_bucket (s : CAddrMan) (b : nat) : gset Z := default ∅ (vvNew s !! b).
Definition tried_bucket (s : CAddrMan) (b : nat) : list Z := default [] (vvTried s !! b).

Definition Find (addr : CNetAddr) (s : CAddrMan) : option (Z * CAddrInfo) :=
  nId ← mapAddr s !! addr; info ← mapInfo s !! nId; Some (nId, info).

(** [nIdCount] is an [int]: after 2^31 entries it overflows *)
Definition Create (addr : CAddress) (addrSource : CNetAddr) (s : CAddrMan) : Z * CAddrMan :=
  let nId := nIdCount s in
  (nId, mkAddrMan (nKey s) (i32 (nId + 1))
    (<[nId := with_nRandomPos (Z.of_nat (length (vRandom s))) (CAddrInfo_new addr addrSource)]> (mapInfo s))
    (<[sv_ip (ad_service addr) := nId]> (mapAddr s)) (vRandom s ++ [nId]) (nTried s) (vvTried s) (nNew s) (vvNew s)).

Definition SwapRandom (nRndPos1 nRndPos2 : Z) (s : CAddrMan) : option CAddrMan :=
  if nRndPos1 =? nRndPos2 then Some s
  else if negb ((nRndPos1 <? Z.of_nat (length (vRandom s))) && (nRndPos2 <? Z.of_nat (length (vRandom s)))) then None
  else
    let nId1 := nthZ (vRandom s) (Z.to_nat nRndPos1) in
    let nId2 := nthZ (vRandom s) (Z.to_nat nRndPos2) in
    _ ← mapInfo s !! nId1; _ ← mapInfo s !! nId2;
    let s := upd_info nId1 (with_nRandomPos nRndPos2) s in
    let s := upd_info nId2 (with_nRandomPos nRndPos1) s in
    Some (set_random (<[Z.to_nat nRndPos2 := nId1]> (<[Z.to_nat nRndPos1 := nId2]> (vRandom s))) s).

(** One round of [SelectTried] on the bucket [vTried]: swap entry [i] with a random later
    one, and compare the entry that was there *)
Definition select_round (s : CAddrMan) (i : nat) (st : list Z * Z * Z * list Z) : option (list Z * Z * Z * list Z) :=
  let '(vTried, nOldest, nOldestPos, rnd) := st in
  let '(r, rnd) := rand_int (Z.of_nat (length vTried) - Z.of_nat i) rnd in
  let nPos := (Z.to_nat r + i)%nat in
  let nTemp := nthZ vTried nPos in
  let vTried := <[i := nTemp]> (<[nPos := nthZ vTried i]> vTried) in
  if nOldest =? -1 then Some (vTried, nTemp, Z.of_nat nPos, rnd)
  else
    it ← mapInfo s !! nTemp; io ← mapInfo s !! nOldest;
    Some (if nLastSuccess it <? nLastSuccess io then (vTried, nTemp, Z.of_nat nPos, rnd) else (vTried, nOldest, nOldestPos, rnd)).

Fixpoint select_rounds (rounds : list nat) (s : CAddrMan) (st : list Z * Z * Z * list Z) : option (list Z * Z * Z * list Z) :=
  match rounds with
  | [] => Some st
  | i :: r => st ← select_round s i st; select_rounds r s st
  end.

(** [SelectTried(nKBucket)]: the position, -1 in an empty bucket, and the samples left *)
Definition SelectTried (nKBucket : nat) (rnd : list Z) (s : CAddrMan) : option (Z * list Z * CAddrMan) :=
  let vTried := tried_bucket s nKBucket in
  '(vTried, _, nOldestPos, rnd) ←
    select_rounds (seq 0 (Nat.min ADDRMAN_TRIED_ENTRIES_INSPECT_ON_EVICT (length vTried))) s (vTried, -1, -1, rnd);
  Some (nOldestPos, rnd, set_tried (nTried s) (<[nKBucket := vTried]> (vvTried s)) s).

(** The items of a bucket in the order of [std::set] *)
Definition items (b : gset Z) : list Z := merge_sort Z.le (elements b).

(** [if (--info.nRefCount == 0) { ... }] and [vNew.erase(id)] of [ShrinkNew] *)
Definition drop_ref (nUBucket : nat) (id : Z) (s : CAddrMan) : option CAddrMan :=
  info ← mapInfo s !! id;
  let s := upd_info id (with_nRefCount (nRefCount info - 1)) s in
  s ← (if nRefCount info - 1 =? 0 then
         s ← SwapRandom (u32 (nRandomPos info)) (u32 (Z.of_nat (length (vRandom s)) - 1)) s;
         let s := set_random (removelast (vRandom s)) s in
         let s := set_addr (delete (info_ip info) (mapAddr s)) s in
         let s := set_info (delete id (mapInfo s)) s in
         Some (set_new (nNew s - 1) (vvNew s) s)
       else Some s);
  Some (set_new (nNew s) (alter (fun b => b ∖ {[id]}) nUBucket (vvNew s)) s).

(** The first loop of [ShrinkNew]: the first terrible entry *)
Fixpoint find_terrible (nNow : Z) (ids : list Z) (s : CAddrMan) : option (option Z) :=
  match ids with
  | [] => Some None
  | id :: r => info ← mapInfo s !! id; if IsTerrible nNow info then Some (Some id) else find_terrible nNow r s
  end.

(** The second loop: the entry least recently seen among those at the positions [n] *)
Fixpoint find_oldest (n : list Z) (nI : Z) (nOldest : Z) (ids : list Z) (s : CAddrMan) : option Z :=
  match ids with
  | [] => Some nOldest
  | id :: r =>
      if bool_decide (nI ∈ n) then
        if nOldest =? -1 then find_oldest n (nI + 1) id r s
        else
          it ← mapInfo s !! id; io ← mapInfo s !! nOldest;
          find_oldest n (nI + 1) (if info_nTime it <? info_nTime io then id else nOldest) r s
      else find_oldest n (nI + 1) nOldest r s
  end.

(** [ShrinkNew(nUBucket)]: its result, the samples left and the manager *)
Definition ShrinkNew (nNow : Z) (nUBucket : nat) (rnd : list Z) (s : CAddrMan) : option (Z * list Z * CAddrMan) :=
  if negb (nUBucket <? length (vvNew s))%nat then None
  else
    let vNew := items (new_bucket s nUBucket) in
    t ← find_terrible nNow vNew s;
    match t with
    | Some id => s ← drop_ref nUBucket id s; Some (0, rnd, s)
    | None =>
        let size := Z.of_nat (length vNew) in
        let '(n0, rnd) := rand_int size rnd in
        let '(n1, rnd) := rand_int size rnd in
        let '(n2, rnd) := rand_int size rnd in
        let '(n3, rnd) := rand_int size rnd in
        nOldest ← find_oldest [n0; n1; n2; n3] 0 (-1) vNew s;
        s ← drop_ref nUBucket nOldest s; Some (1, rnd, s)
    end.

Section operations.
Context {H : HashOps}.

(** The number of untried buckets that hold [id] *)
Definition refs (id : Z) (v : list (gset Z)) : nat := length (filter (fun b : gset Z => id ∈ b) v).

(** The second part of [MakeTried(info, nId, nOrigin)]: into the tried bucket, evicting
    an entry to the untried ones if there is no room *)
Definition enter_tried (nId : Z) (nOrigin : nat) (info : CAddrInfo) (rnd : list Z) (s : CAddrMan) : option (list Z * CAddrMan) :=
  let nKBucket := GetTriedBucket (nKey s) info in
  let vTried := tried_bucket s nKBucket in
  if (length vTried <? ADDRMAN_TRIED_BUCKET_SIZE)%nat then
    let s := set_tried (nTried s + 1) (alter (fun v => v ++ [nId]) nKBucket (vvTried s)) s in
    Some (rnd, upd_info nId (with_fInTried true) s)
  else
    '(nPos, rnd, s) ← SelectTried nKBucket rnd s;
    let nOld := nthZ (tried_bucket s nKBucket) (Z.to_nat nPos) in
    infoOld ← mapInfo s !! nOld;
    let nUBucket := GetNewBucket (nKey s) infoOld (source infoOld) in
    let s := upd_info nOld (fun i => with_nRefCount 1 (with_fInTried false i)) s in
    let b := if (size (new_bucket s nUBucket) <? ADDRMAN_NEW_BUCKET_SIZE)%nat then nUBucket else nOrigin in
    let s := set_new (nNew s + 1) (alter (fun v => {[nOld]} ∪ v) b (vvNew s)) s in
    let s := set_tried (nTried s) (alter (fun v => <[Z.to_nat nPos := nId]> v) nKBucket (vvTried s)) s in
    Some (rnd, upd_info nId (with_fInTried true) s).

(** [MakeTried(info, nId, nOrigin)], where [info] is the entry of [nId] *)
Definition MakeTried (nId : Z) (nOrigin : nat) (rnd : list Z) (s : CAddrMan) : option (list Z * CAddrMan) :=
  if negb (bool_decide (nId ∈ new_bucket s nOrigin)) then None
  else
    info ← mapInfo s !! nId;
    let nRef := nRefCount info - Z.of_nat (refs nId (vvNew s)) in
    let s := upd_info nId (with_nRefCount nRef) s in
    let s := set_new (nNew s - 1) ((fun b => b ∖ {[nId]}) <$> vvNew s) s in
    if negb (nRef =? 0) then None
    else enter_tried nId nOrigin info rnd s.

(** The search of [Good_] for a bucket of [nId], from a random one on *)
Definition find_bucket (nId : Z) (nRnd : nat) (s : CAddrMan) : option nat :=
  head (filter (fun b => nId ∈ new_bucket s b) ((fun n => ((n + nRnd) mod length (vvNew s))%nat) <$> seq 0 (length (vvNew s)))).

Definition Good_ (addr : CService) (nTime : Z) (rnd : list Z) (s : CAddrMan) : option (list Z * CAddrMan) :=
  match Find (sv_ip addr) s with
  | None => Some (rnd, s)
  | Some (nId, info) =>
      if service_ne (ad_service (ai_addr info)) addr then Some (rnd, s)
      else
        let s := upd_info nId (fun i => with_nAttempts 0 (AddrMan.with_nTime nTime (with_nLastTry nTime (with_nLastSuccess nTime i)))) s in
        if fInTried info then Some (rnd, s)
        else
          let '(nRnd, rnd) := rand_int (Z.of_nat (length (vvNew s))) rnd in
          match find_bucket nId (Z.to_nat nRnd) s with
          | None => Some (rnd, s)
          | Some nUBucket => MakeTried nId nUBucket rnd s
          end
  end.

(** The second part of [Add_]: put [nId] into its bucket for [source] *)
Definition place (nNow : Z) (src : CNetAddr) (nId : Z) (rnd : list Z) (s : CAddrMan) : option (list Z * CAddrMan) :=
  info ← mapInfo s !! nId;
  let nUBucket := GetNewBucket (nKey s) info src in
  if bool_decide (nId ∈ new_bucket s nUBucket) then Some (rnd, s)
  else
    let s := upd_info nId (with_nRefCount (nRefCount info + 1)) s in
    '(rnd, s) ← (if (size (new_bucket s nUBucket) =? ADDRMAN_NEW_BUCKET_SIZE)%nat
                  then '(_, rnd, s) ← ShrinkNew nNow nUBucket rnd s; Some (rnd, s)
                  else Some (rnd, s));
    Some (rnd, set_new (nNew s) (alter (fun v => {[nId]} ∪ v) nUBucket (vvNew s)) s).

(** What [Add_] changes of an entry it knows: time and services *)
Definition refresh (nNow nTimePenalty : Z) (addr : CAddress) (info : CAddrInfo) : CAddrInfo :=
  let fCurrentlyOnline := nNow - ad_nTime addr <? 24 * 60 * 60 in
  let nUpdateInterval := if fCurrentlyOnline then 60 * 60 else 24 * 60 * 60 in
  let info :=
    if negb (ad_nTime addr =? 0) && ((info_nTime info =? 0) || (info_nTime info <? ad_nTime addr - nUpdateInterval - nTimePenalty))
    then AddrMan.with_nTime (Z.max 0 (ad_nTime addr - nTimePenalty)) info else info in
  with_nServices (nServices (ai_addr info) .| nServices addr) info.

(** [Add_(addr, source, nTimePenalty)]: its result, the samples left and the manager *)
Definition Add_ (nNow : Z) (addr : CAddress) (src : CNetAddr) (nTimePenalty : Z) (rnd : list Z) (s : CAddrMan) :
    option (bool * list Z * CAddrMan) :=
  if negb (IsRoutable (sv_ip (ad_service addr))) then Some (false, rnd, s)
  else
    match Find (sv_ip (ad_service addr)) s with
    | Some (nId, info) =>
        let pinfo := refresh nNow nTimePenalty addr info in
        let s := upd_info nId (fun _ => pinfo) s in
        if (ad_nTime addr =? 0) || (negb (info_nTime pinfo =? 0) && (ad_nTime addr <=? info_nTime pinfo)) then Some (false, rnd, s)
        else if fInTried pinfo then Some (false, rnd, s)
        else if nRefCount pinfo =? ADDRMAN_NEW_BUCKETS_PER_ADDRESS then Some (false, rnd, s)
        else
          let nFactor := Nat.iter (Z.to_nat (nRefCount pinfo)) (fun f => i32 (f * 2)) 1 in
          let '(skip, rnd) :=
            if 1 <? nFactor then let '(r, rnd) := rand_int nFactor rnd in (negb (r =? 0), rnd) else (false, rnd) in
          if skip then Some (false, rnd, s)
          else '(rnd, s) ← place nNow src nId rnd s; Some (false, rnd, s)
    | None =>
        let '(nId, s) := Create addr src s in
        let s := upd_info nId (fun i => AddrMan.with_nTime (Z.max 0 (info_nTime i - nTimePenalty)) i) s in
        let s := set_new (nNew s + 1) (vvNew s) s in
        '(rnd, s) ← place nNow src nId rnd s; Some (true, rnd, s)
    end.

(** [Add] of several addresses: whether any was new *)
Fixpoint Add_loop (nNow : Z) (vAddr : list CAddress) (src : CNetAddr) (nTimePenalty nAdd : Z) (rnd : list Z) (s : CAddrMan) :
    option (Z * list Z * CAddrMan) :=
  match vAddr with
  | [] => Some (nAdd, rnd, s)
  | a :: r =>
      '(fRet, rnd, s) ← Add_ nNow a src nTimePenalty rnd s;
      Add_loop nNow r src nTimePenalty (nAdd + if (fRet : bool) then 1 else 0) rnd s
  end.

Definition Add_many (nNow : Z) (vAddr : list CAddress) (src : CNetAddr) (nTimePenalty : Z) (rnd : list Z) (s : CAddrMan) :
    option (bool * list Z * CAddrMan) :=
  '(nAdd, rnd, s) ← Add_loop nNow vAddr src nTimePenalty 0 rnd s; Some (0 <? nAdd, rnd, s).

Definition Attempt_ (addr : CService) (nTime : Z) (s : CAddrMan) : CAddrMan :=
  match Find (sv_ip addr) s with
  | None => s
  | Some (nId, info) =>
      if service_ne (ad_service (ai_addr info)) addr then s
      else upd_info nId (fun i => with_nAttempts (i32 (nAttempts i + 1)) (with_nLastTry nTime i)) s
  end.

Definition Connected_ (addr : CService) (nTime : Z) (s : CAddrMan) : CAddrMan :=
  match Find (sv_ip addr) s with
  | None => s
  | Some (nId, info) =>
      if service_ne (ad_service (ai_addr info)) addr then s
      else if 20 * 60 <? nTime - info_nTime info then upd_info nId (AddrMan.with_nTime nTime) s
      else s
  end.

(** The loop of [GetAddr_] over the first [nNodes] positions *)
Fixpoint getaddr_loop (positions : list nat) (vAddr : list CAddress) (rnd : list Z) (s : CAddrMan) :
    option (list CAddress * list Z * CAddrMan) :=
  match positions with
  | [] => Some (vAddr, rnd, s)
  | n :: r =>
      let '(k, rnd) := rand_int (Z.of_nat (length (vRandom s)) - Z.of_nat n) rnd in
      s ← SwapRandom (Z.of_nat n) (k + Z.of_nat n) s;
      info ← mapInfo s !! nthZ (vRandom s) n;
      getaddr_loop r (vAddr ++ [ai_addr info]) rnd s
  end.

Definition GetAddr_ (rnd : list Z) (s : CAddrMan) : option (list CAddress * list Z * CAddrMan) :=
  let nNodes := ADDRMAN_GETADDR_MAX_PCT * Z.of_nat (length (vRandom s)) / 100 in
  let nNodes := if ADDRMAN_GETADDR_MAX <? nNodes then ADDRMAN_GETADDR_MAX else nNodes in
  getaddr_loop (seq 0 (Z.to_nat nNodes)) [] rnd s.

(** [Select_]: the choice between the tables and the chances of entries are computed in
    floating point; here they are decisions that come with the samples.  A round is a
    bucket, a position and whether the entry is taken; [None] of the outer option is a
    failed assertion, of the inner one that the loop goes on *)
Fixpoint select_tried_loop (rounds : list (Z * Z * bool)) (s : CAddrMan) : option (option CAddress) :=
  match rounds with
  | [] => Some None
  | (b, p, take_it) :: r =>
      let vTried := tried_bucket s (Z.to_nat (b mod Z.of_nat (length (vvTried s)))) in
      if (length vTried =? 0)%nat then select_tried_loop r s
      else
        info ← mapInfo s !! nthZ vTried (Z.to_nat (p mod Z.of_nat (length vTried)));
        if (take_it : bool) then Some (Some (ai_addr info)) else select_tried_loop r s
  end.

Fixpoint select_new_loop (rounds : list (Z * Z * bool)) (s : CAddrMan) : option (option CAddress) :=
  match rounds with
  | [] => Some None
  | (b, p, take_it) :: r =>
      let vNew := items (new_bucket s (Z.to_nat (b mod Z.of_nat (length (vvNew s))))) in
      if (length vNew =? 0)%nat then select_new_loop r s
      else
        info ← mapInfo s !! nthZ vNew (Z.to_nat (p mod Z.of_nat (length vNew)));
        if (take_it : bool) then Some (Some (ai_addr info)) else select_new_loop r s
  end.

Definition Select_ (fUseTried : bool) (rounds : list (Z * Z * bool)) (s : CAddrMan) : option (option CAddress) :=
  if (am_size s =? 0)%nat then Some (Some CAddress_Init)
  else if fUseTried then select_tried_loop rounds s
  else select_new_loop rounds s.

(** ** [Check_]: the checks of the entries, then of the tables *)

Definition check_entry (s : CAddrMan) (n : Z) (info : CAddrInfo) : Z :=
  let err :=
    if fInTried info then (if nLastSuccess info =? 0 then -1 else if negb (nRefCount info =? 0) then -2 else 0)
    else if (nRefCount info <? 0) || (ADDRMAN_NEW_BUCKETS_PER_ADDRESS <? nRefCount info) then -3
    else if nRefCount info =? 0 then -4 else 0 in
  if negb (err =? 0) then err
  else if negb (default 0 (mapAddr s !! info_ip info) =? n) then -5
  else if (nRandomPos info <? 0) || (Z.of_nat (length (vRandom s)) <=? nRandomPos info) ||
          negb (nthZ (vRandom s) (Z.to_nat (nRandomPos info)) =? n) then -14
  else if info_nLastTry info <? 0 then -6
  else if nLastSuccess info <? 0 then -8
  else 0.

(** The first error of a list of checks *)
Fixpoint first_error (errs : list Z) : Z :=
  match errs with
  | e :: r => if e =? 0 then first_error r else e
  | [] => 0
  end.

(** The ids of the tried buckets, each taken out of [setTried] *)
Fixpoint check_tried (ids : list Z) (setTried : gset Z) : option (gset Z) :=
  match ids with
  | [] => Some setTried
  | id :: r => if bool_decide (id ∈ setTried) then check_tried r (setTried ∖ {[id]}) else None
  end.

(** The ids of the new buckets, each counted down in [mapNew] *)
Fixpoint check_new (ids : list Z) (mapNew : gmap Z Z) : option (gmap Z Z) :=
  match ids with
  | [] => Some mapNew
  | id :: r =>
      match mapNew !! id with
      | None => None
      | Some k => check_new r (if k - 1 =? 0 then delete id mapNew else <[id := k - 1]> mapNew)
      end
  end.

Definition Check_ (s : CAddrMan) : Z :=
  let setTried : gset Z := dom (filter (fun p => fInTried p.2 = true) (mapInfo s)) in
  let mapNew : gmap Z Z := nRefCount <$> filter (fun p => fInTried p.2 = false) (mapInfo s) in
  if negb (Z.of_nat (length (vRandom s)) =? nTried s + nNew s) then -7
  else
    let err := first_error ((fun n => match mapInfo s !! n with Some info => check_entry s n info | None => 0 end) <$> items (dom (mapInfo s))) in
    if negb (err =? 0) then err
    else if negb (Z.of_nat (size setTried) =? nTried s) then -9
    else if negb (Z.of_nat (size mapNew) =? nNew s) then -10
    else
      match check_tried (mjoin (vvTried s)) setTried with
      | None => -11
      | Some setTried =>
          match check_new (mjoin (items <$> vvNew s)) mapNew with
          | None => -12
          | Some mapNew => if negb (size setTried =? 0)%nat then -13 else if negb (size mapNew =? 0)%nat then -15 else 0
          end
      end.
End operations.
