(* ===== verification/AddrManFacts.v ===== *)
(** * The theory of the address manager: its tables agree after every operation, no
    assertion fails, and its size is bounded. *)

From stdpp Require Import sorting.
From S2P Require Import Prelude.
From S2P Require Import Support.
From S2P Require Import Hash.
From S2P Require Import Transaction.
From S2P Require Import NetAddr.
From S2P Require Import AddrMan.

(** ** The invariant *)

(** [vRandom] lists every id once, at the position its entry names. *)
Definition random_ok (r : list Z) (m : gmap Z CAddrInfo) : Prop :=
  (forall i id, r !! i = Some id <-> exists info, m !! id = Some info /\ nRandomPos info = Z.of_nat i) /\
  (forall id info, m !! id = Some info -> 0 <= nRandomPos info).

(** The other tables; [pend] is an entry whose reference count is one ahead of the
    buckets, because it is about to be put into one. *)
Record tables_ok (pend : option Z) (s : CAddrMan) : Prop := {
  ok_addr key id : mapAddr s !! key = Some id <-> exists info, mapInfo s !! id = Some info /\ info_ip info = key;
  ok_count : 0 <= nIdCount s;
  ok_ids id : is_Some (mapInfo s !! id) -> 0 <= id < nIdCount s;
  ok_refs id info : mapInfo s !! id = Some info ->
    nRefCount info = Z.of_nat (refs id (vvNew s)) + (if decide (pend = Some id) then 1 else 0) /\
    (if fInTried info then nRefCount info = 0 else 1 <= nRefCount info <= 4);
  ok_new b id : id ∈ new_bucket s b -> is_Some (mapInfo s !! id);
  ok_tried id : id ∈ mjoin (vvTried s) <-> exists info, mapInfo s !! id = Some info /\ fInTried info = true;
  ok_nodup : NoDup (mjoin (vvTried s));
  ok_tried_shape : length (vvTried s) = ADDRMAN_TRIED_BUCKET_COUNT /\ Forall (fun b => length b <= ADDRMAN_TRIED_BUCKET_SIZE)%nat (vvTried s);
  ok_new_shape : length (vvNew s) = ADDRMAN_NEW_BUCKET_COUNT /\ Forall (fun b : gset Z => size b <= ADDRMAN_NEW_BUCKET_SIZE)%nat (vvNew s);
  ok_nTried : nTried s = Z.of_nat (length (mjoin (vvTried s)));
  ok_nNew : nTried s + nNew s = Z.of_nat (size (mapInfo s))
}.

Definition addrman_ok (pend : option Z) (s : CAddrMan) : Prop := random_ok (vRandom s) (mapInfo s) /\ tables_ok pend s.

(** ** Reference counts *)

Lemma alter_insert_list {A} (f : A -> A) (l : list A) i x : l !! i = Some x -> alter f i l = <[i := f x]> l.
Proof.
  revert i. induction l as [|y l IH]; intros [|i] Hi; try done; cbn in Hi.
  - by injection Hi as ->.
  - cbn. f_equal. by apply IH.
Qed.

Lemma refs_app id v1 v2 : refs id (v1 ++ v2) = (refs id v1 + refs id v2)%nat.
Proof. unfold refs. by rewrite filter_app, length_app. Qed.

Lemma refs_cons id (b : gset Z) v : refs id (b :: v) = ((if decide (id ∈ b) then 1 else 0) + refs id v)%nat.
Proof. unfold refs. rewrite filter_cons. by destruct (decide (id ∈ b)). Qed.

Lemma refs_alter id f i v b :
  v !! i = Some b ->
  (refs id (alter f i v) + (if decide (id ∈ b) then 1 else 0) = refs id v + (if decide (id ∈ f b) then 1 else 0))%nat.
Proof.
  intros Hi. rewrite (alter_insert_list _ _ _ _ Hi). pose proof (take_drop_middle _ _ _ Hi) as E.
  rewrite (insert_take_drop _ _ _ (lookup_lt_Some _ _ _ Hi)). rewrite <- E at 3. rewrite !refs_app, !refs_cons. lia.
Qed.

Lemma refs_bucket id v : (0 < refs id v)%nat <-> exists i b, v !! i = Some b /\ id ∈ b.
Proof.
  induction v as [|b v IH].
  - split; [cbn; lia|]. by intros ([|i] & b & Hi & _).
  - rewrite refs_cons. destruct (decide (id ∈ b)) as [Hb|Hb].
    + split; [intros _; by exists 0%nat, b|lia].
    + cbn [Nat.add]. rewrite IH. split; [intros (i & b' & Hi & Hb'); by exists (S i), b'|].
      intros ([|i] & b' & Hi & Hb'); [by injection Hi as ->|by exists i, b'].
Qed.

Lemma refs_remove_all id x v : refs id ((fun b : gset Z => b ∖ {[x]}) <$> v) = if decide (id = x) then 0%nat else refs id v.
Proof.
  induction v as [|b v IH]; [by destruct (decide _)|]. rewrite fmap_cons, !refs_cons, IH.
  destruct (decide (id = x)) as [-> |Hne].
  - rewrite decide_False by set_solver. done.
  - destruct (decide (id ∈ b)); [rewrite decide_True by set_solver|rewrite decide_False by set_solver]; done.
Qed.

Lemma new_bucket_lookup s b id : id ∈ new_bucket s b -> exists v, vvNew s !! b = Some v /\ id ∈ v.
Proof. unfold new_bucket. intros Hi. destruct (vvNew s !! b) as [v|]; [by exists v|]. change (id ∈ (∅ : gset Z)) in Hi. set_solver. Qed.

Lemma refs_new_bucket s b id : id ∈ new_bucket s b -> (0 < refs id (vvNew s))%nat.
Proof. intros Hi. apply refs_bucket. apply new_bucket_lookup in Hi as (v & ? & ?). by exists b, v. Qed.

(** ** Entries up to their position *)

Definition core (info : CAddrInfo) : CAddrInfo := with_nRandomPos 0 info.

(** What the tables need to know of an entry *)
Lemma core_fields i j :
  core i = core j -> info_ip i = info_ip j /\ nRefCount i = nRefCount j /\ fInTried i = fInTried j /\ ai_addr i = ai_addr j /\
    nLastSuccess i = nLastSuccess j.
Proof. destruct i, j. unfold core, info_ip. cbn. intros [=]. by subst. Qed.

Lemma info_core_lookup (m1 m2 : gmap Z CAddrInfo) :
  core <$> m1 = core <$> m2 -> forall id i1, m1 !! id = Some i1 -> exists i2, m2 !! id = Some i2 /\ core i1 = core i2.
Proof.
  intros Hc id i1 Hi. assert (E : (core <$> m1) !! id = (core <$> m2) !! id) by (by rewrite Hc).
  rewrite !lookup_fmap, Hi in E. destruct (m2 !! id) as [i2|]; [|done]. apply (inj Some) in E. by exists i2.
Qed.

(** What the tables see of an entry *)
Definition view (info : CAddrInfo) : CNetAddr * Z * bool := (info_ip info, nRefCount info, fInTried info).

Lemma view_lookup (m1 m2 : gmap Z CAddrInfo) :
  view <$> m1 = view <$> m2 -> forall id i1, m1 !! id = Some i1 -> exists i2, m2 !! id = Some i2 /\ view i1 = view i2.
Proof.
  intros Hc id i1 Hi. assert (E : (view <$> m1) !! id = (view <$> m2) !! id) by (by rewrite Hc).
  rewrite !lookup_fmap, Hi in E. destruct (m2 !! id) as [i2|]; [|done]. apply (inj Some) in E. by exists i2.
Qed.

Lemma view_fields i j : view i = view j -> info_ip i = info_ip j /\ nRefCount i = nRefCount j /\ fInTried i = fInTried j.
Proof. by intros [=]. Qed.

(** [tables_ok] sees only addresses, reference counts and [fInTried]. *)
Lemma tables_view pend s m :
  view <$> mapInfo s = view <$> m -> tables_ok pend s -> tables_ok pend (set_info m s).
Proof.
  intros Hc Hs.
  assert (Hlk := view_lookup m (mapInfo s) (eq_sym Hc)). assert (Hlk' := view_lookup (mapInfo s) m Hc).
  assert (Hdom : forall id, is_Some (m !! id) <-> is_Some (mapInfo s !! id)).
  { intros id. split; intros [i Hi]; [destruct (Hlk _ _ Hi) as (i' & ? & _)|destruct (Hlk' _ _ Hi) as (i' & ? & _)]; by exists i'. }
  destruct Hs as [A A0 B C D E F G I J K]. constructor; cbn [set_info mapInfo mapAddr vvNew vvTried nTried nNew nIdCount]; try done.
  - intros key id. rewrite A. split; intros (info & Hi & Hk).
    + destruct (Hlk' _ _ Hi) as (i' & Hi' & Hcore). exists i'. split; [done|]. apply view_fields in Hcore as [<- _]. done.
    + destruct (Hlk _ _ Hi) as (i' & Hi' & Hcore). exists i'. split; [done|]. apply view_fields in Hcore as [<- _]. done.
  - intros id Hi. by apply B, Hdom.
  - intros id info Hi. destruct (Hlk _ _ Hi) as (i' & Hi' & Hcore). apply view_fields in Hcore as (_ & -> & ->). by apply C.
  - intros b id Hi. apply Hdom. by eapply D.
  - intros id. rewrite E. split; intros (info & Hi & Ht).
    + destruct (Hlk' _ _ Hi) as (i' & Hi' & Hcore). exists i'. split; [done|]. apply view_fields in Hcore as (_ & _ & <-). done.
    + destruct (Hlk _ _ Hi) as (i' & Hi' & Hcore). exists i'. split; [done|]. apply view_fields in Hcore as (_ & _ & <-). done.
  - by rewrite K, <- (map_size_fmap view (mapInfo s)), Hc, map_size_fmap.
Qed.

Lemma tables_core pend s m :
  core <$> mapInfo s = core <$> m -> tables_ok pend s -> tables_ok pend (set_info m s).
Proof.
  intros Hc. apply tables_view. apply map_eq. intros id.
  rewrite !lookup_fmap. destruct (mapInfo s !! id) as [i1|] eqn:E1.
  - destruct (info_core_lookup _ _ Hc _ _ E1) as (i2 & -> & E). cbn. f_equal.
    apply core_fields in E as (F1 & F2 & F3 & _). unfold view. by rewrite F1, F2, F3.
  - destruct (m !! id) as [i2|] eqn:E2; [|done]. destruct (info_core_lookup _ _ (eq_sym Hc) _ _ E2) as (i1 & ? & _). congruence.
Qed.

(** ** [SwapRandom] *)

Lemma random_pos r m id info :
  random_ok r m -> m !! id = Some info -> exists i, nRandomPos info = Z.of_nat i /\ r !! i = Some id /\ (i < length r)%nat.
Proof.
  intros [Hr Hp] Hi. exists (Z.to_nat (nRandomPos info)). specialize (Hp _ _ Hi). split; [lia|].
  assert (r !! Z.to_nat (nRandomPos info) = Some id) as E by (apply Hr; exists info; split; [done|lia]).
  split; [done|]. by apply lookup_lt_Some in E.
Qed.

Lemma random_inj r m i j id : random_ok r m -> r !! i = Some id -> r !! j = Some id -> i = j.
Proof.
  intros [Hr _] Hi Hj. apply Hr in Hi as (info & Hm & Hp). apply Hr in Hj as (info' & Hm' & Hp'). rewrite Hm in Hm'. injection Hm' as <-. lia.
Qed.

Lemma lookup_alter_core (f : CAddrInfo -> CAddrInfo) (id : Z) (m : gmap Z CAddrInfo) :
  (forall i, core (f i) = core i) -> core <$> alter f id m = core <$> m.
Proof.
  intros Hf. apply map_eq. intros k. rewrite !lookup_fmap. destruct (decide (id = k)) as [-> |Hne].
  - rewrite lookup_alter_eq. destruct (m !! k); [|done]. cbn. by rewrite Hf.
  - by rewrite lookup_alter_ne.
Qed.

Definition swapped (r : list Z) (p1 p2 : nat) : list Z := <[p2 := nthZ r p1]> (<[p1 := nthZ r p2]> r).

Lemma random_swap r m p1 p2 :
  random_ok r m -> (p1 < length r)%nat -> (p2 < length r)%nat -> p1 <> p2 ->
  random_ok (swapped r p1 p2)
    (alter (with_nRandomPos (Z.of_nat p1)) (nthZ r p2) (alter (with_nRandomPos (Z.of_nat p2)) (nthZ r p1) m)).
Proof.
  intros Hr0 H1 H2 Hne. pose proof Hr0 as [Hr Hpos]. pose proof (lookup_nthZ r p1 H1) as L1. pose proof (lookup_nthZ r p2 H2) as L2.
  set (id1 := nthZ r p1) in *. set (id2 := nthZ r p2) in *.
  assert (Hid : id1 <> id2) by (intros E; apply Hne; eapply random_inj; [exact Hr0|exact L1|by rewrite E]).
  split.
  2: { intros id info Hi. apply lookup_alter_Some in Hi as [(-> & i' & _ & ->)|[_ Hi]]; [cbn; lia|].
       apply lookup_alter_Some in Hi as [(-> & i' & _ & ->)|[_ Hi]]; [cbn; lia|by eapply Hpos]. }
  intros i id. unfold swapped. fold id1 id2. destruct (decide (id = id1)) as [-> |N1].
  - rewrite lookup_alter_ne, lookup_alter_eq by done. destruct (proj1 (Hr _ _) L1) as (i1 & M1 & P1). rewrite M1. cbn.
    destruct (decide (i = p2)) as [-> |Ni].
    + rewrite list_lookup_insert_eq by (rewrite length_insert; lia). split; [by intros _; eexists|done].
    + rewrite list_lookup_insert_ne by done. destruct (decide (i = p1)) as [-> |Ni1].
      * rewrite list_lookup_insert_eq by lia. split; [by intros [= E]|]. intros (info & [= <-] & Hp). cbn in Hp. lia.
      * rewrite list_lookup_insert_ne by done. split; [intros Hi; exfalso; apply Ni1; by eapply random_inj|].
        intros (info & [= <-] & Hp). cbn in Hp. lia.
  - destruct (decide (id = id2)) as [-> |N2].
    + rewrite lookup_alter_eq, lookup_alter_ne by done. destruct (proj1 (Hr _ _) L2) as (i2 & M2 & P2). rewrite M2. cbn.
      destruct (decide (i = p2)) as [-> |Ni].
      * rewrite list_lookup_insert_eq by (rewrite length_insert; lia). split; [by intros [= E]|]. intros (info & [= <-] & Hp). cbn in Hp. lia.
      * rewrite list_lookup_insert_ne by done. destruct (decide (i = p1)) as [-> |Ni1].
        -- rewrite list_lookup_insert_eq by lia. split; [by intros _; eexists|done].
        -- rewrite list_lookup_insert_ne by done. split; [intros Hi; exfalso; apply Ni; by eapply random_inj|].
           intros (info & [= <-] & Hp). cbn in Hp. lia.
    + rewrite !lookup_alter_ne by done. rewrite <- (Hr i id).
      destruct (decide (i = p2)) as [-> |Ni].
      * rewrite list_lookup_insert_eq by (rewrite length_insert; lia). rewrite L2. split; intros [= E]; by subst.
      * rewrite list_lookup_insert_ne by done. destruct (decide (i = p1)) as [-> |Ni1].
        -- rewrite list_lookup_insert_eq by lia. rewrite L1. split; intros [= E]; by subst.
        -- by rewrite list_lookup_insert_ne.
Qed.

(** Swapping two positions succeeds, and changes nothing but positions. *)
Lemma SwapRandom_ok s p1 p2 :
  random_ok (vRandom s) (mapInfo s) -> (p1 < length (vRandom s))%nat -> (p2 < length (vRandom s))%nat ->
  exists m, SwapRandom (Z.of_nat p1) (Z.of_nat p2) s = Some (set_random (swapped (vRandom s) p1 p2) (set_info m s)) /\
    core <$> m = core <$> mapInfo s /\ random_ok (swapped (vRandom s) p1 p2) m.
Proof.
  intros Hr0 H1 H2. pose proof Hr0 as [Hr _].
  pose proof (lookup_nthZ _ p1 H1) as L1. pose proof (lookup_nthZ _ p2 H2) as L2. unfold SwapRandom.
  destruct (Z.eqb_spec (Z.of_nat p1) (Z.of_nat p2)) as [E|E].
  - apply Nat2Z.inj in E as ->. exists (mapInfo s).
    assert (swapped (vRandom s) p2 p2 = vRandom s) as -> by (unfold swapped; rewrite list_insert_insert_eq; by apply list_insert_id). by destruct s.
  - rewrite (proj2 (Z.ltb_lt (Z.of_nat p1) _)), (proj2 (Z.ltb_lt (Z.of_nat p2) _)), !Nat2Z.id by lia. cbn [andb negb].
    destruct (proj1 (Hr _ _) L1) as (i1 & -> & P1). destruct (proj1 (Hr _ _) L2) as (i2 & -> & P2). cbn [mbind option_bind].
    exists (alter (with_nRandomPos (Z.of_nat p1)) (nthZ (vRandom s) p2) (alter (with_nRandomPos (Z.of_nat p2)) (nthZ (vRandom s) p1) (mapInfo s))).
    split; [reflexivity|]. split; [by rewrite !lookup_alter_core|]. apply random_swap; try done. intros ->. by apply E.
Qed.

Lemma length_swapped r p1 p2 : length (swapped r p1 p2) = length r.
Proof. unfold swapped. by rewrite !length_insert. Qed.

(** The ids of [vRandom] are those of [mapInfo], each once. *)
Lemma random_perm r m : random_ok r m -> NoDup r /\ list_to_set r = dom m.
Proof.
  intros Hr. split.
  - apply NoDup_alt. intros i j id Hi Hj. exact (random_inj _ _ _ _ _ Hr Hi Hj).
  - apply set_eq. intros id. rewrite elem_of_list_to_set, elem_of_dom. split.
    + intros Hi. apply list_elem_of_lookup in Hi as [i Hi]. apply Hr in Hi as (info & Hi & _). by exists info.
    + intros [info Hi]. destruct (random_pos _ _ _ _ Hr Hi) as (i & _ & Hl & _). by apply list_elem_of_lookup_2 in Hl.
Qed.

Lemma random_size r m : random_ok r m -> length r = size m.
Proof.
  intros Hr. destruct (random_perm r m Hr) as [Hd Hs]. rewrite <- size_dom, <- Hs. symmetry. by apply size_list_to_set.
Qed.

(** ** Buckets of untried addresses *)

Lemma lookup_alter_bucket f v b b' :
  (b < length v)%nat -> default ∅ (alter f b v !! b') = if decide (b' = b) then f (default ∅ (v !! b)) else default (∅ : gset Z) (v !! b').
Proof.
  intros Hb. destruct (lookup_lt_is_Some_2 v b Hb) as [x Hx]. rewrite (alter_insert_list _ _ _ _ Hx). case_decide as E.
  - subst. by rewrite list_lookup_insert_eq, Hx.
  - by rewrite list_lookup_insert_ne.
Qed.

Lemma bucket_lt s b id : id ∈ new_bucket s b -> (b < length (vvNew s))%nat.
Proof. intros Hi. apply new_bucket_lookup in Hi as (v & Hv & _). by apply lookup_lt_Some in Hv. Qed.

(** What taking [id] out of bucket [b] does to the counts *)
Lemma refs_take s b id k :
  id ∈ new_bucket s b ->
  Z.of_nat (refs k (alter (fun b => b ∖ {[id]}) b (vvNew s))) = Z.of_nat (refs k (vvNew s)) - (if decide (k = id) then 1 else 0).
Proof.
  intros Hi. apply new_bucket_lookup in Hi as (v & Hv & Hid). pose proof (refs_alter k (fun b => b ∖ {[id]}) b (vvNew s) v Hv) as E.
  destruct (decide (k = id)) as [-> |Hne].
  - rewrite decide_True in E by done. rewrite decide_False in E by set_solver. lia.
  - destruct (decide (k ∈ v)); [rewrite decide_True in E by set_solver|rewrite decide_False in E by set_solver]; lia.
Qed.

(** What putting [id] into bucket [b] does to the counts *)
Lemma refs_put s b id k :
  (b < length (vvNew s))%nat -> id ∉ new_bucket s b ->
  Z.of_nat (refs k (alter (fun v => {[id]} ∪ v) b (vvNew s))) = Z.of_nat (refs k (vvNew s)) + (if decide (k = id) then 1 else 0).
Proof.
  intros Hb Hi. destruct (lookup_lt_is_Some_2 _ _ Hb) as [v Hv]. unfold new_bucket in Hi. rewrite Hv in Hi. cbn in Hi.
  pose proof (refs_alter k (fun b => {[id]} ∪ b) b (vvNew s) v Hv) as E.
  destruct (decide (k = id)) as [-> |Hne].
  - rewrite decide_False in E by done. rewrite decide_True in E by set_solver. lia.
  - destruct (decide (k ∈ v)); [rewrite decide_True in E by set_solver|rewrite decide_False in E by set_solver]; lia.
Qed.

Lemma sizes_alter f b (v : list (gset Z)) n :
  Forall (fun b => size b <= n)%nat v -> (forall x, v !! b = Some x -> size (f x) <= n)%nat -> Forall (fun b => size b <= n)%nat (alter f b v).
Proof.
  intros Hv Hf. destruct (v !! b) as [x|] eqn:Hx.
  - rewrite (alter_insert_list _ _ _ _ Hx). apply Forall_insert; [done|by apply Hf].
  - rewrite Forall_lookup in Hv |- *. intros i y Hi. destruct (decide (i = b)) as [-> |Hne].
    + rewrite list_lookup_alter_eq, Hx in Hi. done.
    + rewrite list_lookup_alter_ne in Hi by done. by eapply Hv.
Qed.

Lemma size_difference_le_set (x y : gset Z) : (size (x ∖ y) <= size x)%nat.
Proof. apply subseteq_size. set_solver. Qed.

Lemma size_difference_le (x : gset Z) id : (size (x ∖ {[id]}) <= size x)%nat.
Proof. apply size_difference_le_set. Qed.

(** Taking [id] out of a bucket when other buckets hold it too *)
Lemma tables_unref pend s b id info :
  tables_ok pend s -> id ∈ new_bucket s b -> mapInfo s !! id = Some info -> nRefCount info <> 1 ->
  tables_ok pend (set_new (nNew s) (alter (fun b => b ∖ {[id]}) b (vvNew s)) (upd_info id (with_nRefCount (nRefCount info - 1)) s)).
Proof.
  intros [A A0 B C D E F G [I1 I2] J K] Hid Hi Hr. pose proof (refs_new_bucket _ _ _ Hid) as Hpos. pose proof (bucket_lt _ _ _ Hid) as Hb.
  assert (Hlk : forall k i', alter (with_nRefCount (nRefCount info - 1)) id (mapInfo s) !! k = Some i' ->
    exists i, mapInfo s !! k = Some i /\ i' = if decide (k = id) then with_nRefCount (nRefCount info - 1) i else i).
  { intros k i' Hk. apply lookup_alter_Some in Hk as [(-> & i & Hi' & ->)|[Hne Hk]]; eexists; (split; [done|]); [by rewrite decide_True|by rewrite decide_False by congruence]. }
  assert (Hlk' : forall k i, mapInfo s !! k = Some i ->
    alter (with_nRefCount (nRefCount info - 1)) id (mapInfo s) !! k = Some (if decide (k = id) then with_nRefCount (nRefCount info - 1) i else i)).
  { intros k i Hk. destruct (decide (k = id)) as [-> |Hne]; [by rewrite lookup_alter_eq, Hk|by rewrite lookup_alter_ne]. }
  destruct (C _ _ Hi) as [C1 C2].
  constructor; cbn [set_new upd_info set_info mapInfo mapAddr vvNew vvTried nTried nNew nIdCount]; try done.
  - intros key k. rewrite A. split.
    + intros (i & Hk & Hip). eexists. split; [by apply Hlk'|]. by destruct (decide (k = id)).
    + intros (i' & Hk & Hip). apply Hlk in Hk as (i & Hk & ->). exists i. split; [done|]. by destruct (decide (k = id)).
  - intros k [i' Hk]. apply Hlk in Hk as (i & Hk & _). apply B. by exists i.
  - intros k i' Hk. apply Hlk in Hk as (i & Hk & ->). destruct (C _ _ Hk) as [D1 D2]. rewrite (refs_take _ _ _ _ Hid).
    destruct (decide (k = id)) as [-> |Hne]; [|split; [lia|done]]. rewrite Hk in Hi. injection Hi as ->. cbn [nRefCount fInTried with_nRefCount].
    split; [lia|]. destruct (fInTried info); [|lia]. case_decide; lia.
  - intros b' k. unfold new_bucket. cbn [set_new vvNew]. rewrite lookup_alter_bucket by done. intros Hk.
    assert (is_Some (mapInfo s !! k)) as [i Hki]; [|exists (if decide (k = id) then with_nRefCount (nRefCount info - 1) i else i); by apply Hlk'].
    case_decide as Eb; [subst b'; apply (D b); unfold new_bucket; set_solver|by apply (D b')].
  - intros k. rewrite E. split.
    + intros (i & Hk & Ht). eexists. split; [by apply Hlk'|]. by destruct (decide (k = id)).
    + intros (i' & Hk & Ht). apply Hlk in Hk as (i & Hk & ->). exists i. split; [done|]. by destruct (decide (k = id)).
  - split; [by rewrite length_alter|]. apply sizes_alter; [done|]. intros x Hx. rewrite Forall_lookup in I2. specialize (I2 _ _ Hx).
    pose proof (size_difference_le x id). lia.
  - by rewrite K, <- !size_dom, dom_alter_L.
Qed.

(** Forgetting an entry whose last bucket lost it *)
Lemma tables_erase pend s b id info :
  tables_ok pend s -> id ∈ new_bucket s b -> mapInfo s !! id = Some info -> nRefCount info = 1 -> pend <> Some id ->
  tables_ok pend (set_new (nNew s - 1) (alter (fun b => b ∖ {[id]}) b (vvNew s))
    (set_info (delete id (mapInfo s)) (set_addr (delete (info_ip info) (mapAddr s)) s))).
Proof.
  intros [A A0 B C D E F G [I1 I2] J K] Hid Hi Hr Hp. pose proof (bucket_lt _ _ _ Hid) as Hb.
  destruct (C _ _ Hi) as [C1 C2]. rewrite decide_False in C1 by done.
  assert (Ht : fInTried info = false) by (destruct (fInTried info); [lia|done]).
  constructor; cbn [set_new set_addr set_info mapInfo mapAddr vvNew vvTried nTried nNew nIdCount]; try done.
  - intros key k. rewrite lookup_delete_Some, A. split.
    + intros (Hne & i & Hk & Hip). exists i. split; [|done]. apply lookup_delete_Some. split; [|done]. intros <-.
      rewrite Hi in Hk. injection Hk as <-. done.
    + intros (i & Hk & Hip). apply lookup_delete_Some in Hk as [Hne Hk]. split; [|by exists i]. intros Heq.
      assert (mapAddr s !! key = Some k) as E1 by (apply A; by exists i). assert (mapAddr s !! key = Some id) as E2 by (apply A; by exists info).
      rewrite E1 in E2. by injection E2.
  - intros k [i Hk]. apply lookup_delete_Some in Hk as [_ Hk]. apply B. by exists i.
  - intros k i Hk. apply lookup_delete_Some in Hk as [Hne Hk]. destruct (C _ _ Hk) as [D1 D2]. rewrite (refs_take _ _ _ _ Hid), decide_False by done.
    split; [lia|done].
  - intros b' k. unfold new_bucket. cbn [set_new vvNew]. rewrite lookup_alter_bucket by done. intros Hk.
    assert (Hkb : exists b0, k ∈ new_bucket s b0 /\ (b0 = b -> k <> id)).
    { unfold new_bucket. case_decide as Eb; [exists b; set_solver|exists b'; by split]. }
    destruct Hkb as (b0 & Hk0 & Hk1). destruct (D _ _ Hk0) as [i Hki]. exists i. apply lookup_delete_Some. split; [|done]. intros <-.
    pose proof (refs_take _ _ _ id Hid) as Ht1. rewrite decide_True in Ht1 by done.
    assert (0 < refs id (alter (fun b => b ∖ {[id]}) b (vvNew s)))%nat; [|lia]. apply new_bucket_lookup in Hk0 as (v & Hv & Hin).
    apply refs_bucket. exists b0, v. split; [|done]. rewrite list_lookup_alter_ne; [done|]. intros <-. by apply Hk1.
  - intros k. rewrite E. split; intros (i & Hk & Hti); exists i; (split; [|done]).
    + apply lookup_delete_Some. split; [|done]. intros <-. rewrite Hi in Hk. injection Hk as <-. congruence.
    + by apply lookup_delete_Some in Hk as [_ ?].
  - split; [by rewrite length_alter|]. apply sizes_alter; [done|]. intros x Hx. rewrite Forall_lookup in I2. specialize (I2 _ _ Hx).
    pose proof (size_difference_le x id). lia.
  - rewrite map_size_delete, Hi. cbn. pose proof (map_size_ne_0_lookup_2 (mapInfo s) id (mk_is_Some _ _ Hi)). lia.
Qed.

(** The last element of [vRandom], once it is the one to forget, can be popped. *)
Lemma random_pop r m id :
  random_ok r m -> r !! (length r - 1)%nat = Some id -> random_ok (removelast r) (delete id m).
Proof.
  intros [Hr Hp] Hl. assert (Hr0 : random_ok r m) by done.
  assert (Hlen : (0 < length r)%nat) by (destruct r; [done|cbn; lia]).
  assert (Hrl : removelast r = take (length r - 1) r).
  { destruct (exists_last (l := r)) as (r' & x & ->); [by destruct r|]. rewrite removelast_last, length_app. cbn.
    replace (length r' + 1 - 1)%nat with (length r') by lia. by rewrite take_app_length. }
  rewrite Hrl. split.
  - intros i k. rewrite lookup_take_Some, Hr. split.
    + intros [(info & Hk & Hpos) Hi]. exists info. split; [|done]. apply lookup_delete_Some. split; [|done]. intros <-.
      apply Hr in Hl as (info' & Hk' & Hpos'). rewrite Hk in Hk'. injection Hk' as <-. lia.
    + intros (info & Hk & Hpos). apply lookup_delete_Some in Hk as [Hne Hk]. split; [by exists info|].
      assert (r !! i = Some k) as Hi by (apply Hr; by exists info). pose proof (lookup_lt_Some _ _ _ Hi) as Hlt.
      destruct (decide (i = length r - 1)%nat) as [-> |]; [|lia]. rewrite Hl in Hi. injection Hi as ->. done.
  - intros k info Hk. apply lookup_delete_Some in Hk as [_ Hk]. by eapply Hp.
Qed.

Lemma swapped_last r p : (p < length r)%nat -> swapped r p (length r - 1) !! (length r - 1)%nat = Some (nthZ r p).
Proof. intros Hp. unfold swapped. apply list_lookup_insert_eq. rewrite length_insert. lia. Qed.

Lemma addrman_size pend s : addrman_ok pend s -> nTried s + nNew s = Z.of_nat (length (vRandom s)).
Proof. intros [Hr Ht]. rewrite (random_size _ _ Hr). by apply (ok_nNew _ _ Ht). Qed.

(** ** [ShrinkNew] *)

(** What a step on the untried tables keeps *)
Definition keeps (s s' : CAddrMan) : Prop :=
  nKey s' = nKey s /\ nIdCount s' = nIdCount s /\ vvTried s' = vvTried s /\ nTried s' = nTried s /\
  forall k i', mapInfo s' !! k = Some i' ->
    exists i, mapInfo s !! k = Some i /\ ai_addr i' = ai_addr i /\ nLastSuccess i' = nLastSuccess i /\ fInTried i' = fInTried i.

Lemma random_alter (f : CAddrInfo -> CAddrInfo) r (m : gmap Z CAddrInfo) id :
  (forall i, nRandomPos (f i) = nRandomPos i) -> random_ok r m -> random_ok r (alter f id m).
Proof.
  intros Hf [R1 R2]. split.
  - intros i k. rewrite R1. destruct (decide (k = id)) as [-> |Hne]; [|by rewrite lookup_alter_ne].
    rewrite lookup_alter_eq. destruct (m !! id) as [x|]; cbn; split; intros (y & [= <-] & Hy); eexists; (split; [done|]); [by rewrite Hf|by rewrite Hf in Hy].
  - intros k x Hk. apply lookup_alter_Some in Hk as [(-> & y & Hy & ->)|[_ Hk]]; [rewrite Hf; by eapply R2|by eapply R2].
Qed.

Lemma drop_ref_ok pend s b id :
  addrman_ok pend s -> Z.of_nat (length (vRandom s)) < 2 ^ 32 -> id ∈ new_bucket s b -> pend <> Some id ->
  exists s', drop_ref b id s = Some s' /\ addrman_ok pend s' /\ keeps s s' /\
    vvNew s' = alter (fun b => b ∖ {[id]}) b (vvNew s) /\ (forall k, k <> id -> is_Some (mapInfo s !! k) -> is_Some (mapInfo s' !! k)).
Proof.
  intros [Hr Ht] Hsz Hid Hp. destruct (ok_new _ _ Ht _ _ Hid) as [info Hi]. unfold drop_ref. rewrite Hi. cbn [mbind option_bind].
  destruct (Z.eqb_spec (nRefCount info - 1) 0) as [E|E].
  - destruct (random_pos _ _ _ _ Hr Hi) as (p & Hpos & Hlk & Hlt). set (s0 := upd_info id (with_nRefCount (nRefCount info - 1)) s).
    assert (Hr0 : random_ok (vRandom s0) (mapInfo s0)).
    { by apply random_alter. }
    rewrite Hpos. replace (u32 (Z.of_nat p)) with (Z.of_nat p) by (symmetry; apply wrap_small; lia).
    replace (u32 (Z.of_nat (length (vRandom s0)) - 1)) with (Z.of_nat (length (vRandom s) - 1))
      by (cbn [s0 upd_info set_info vRandom]; rewrite wrap_small; lia).
    destruct (SwapRandom_ok s0 p (length (vRandom s) - 1) Hr0 Hlt ltac:(cbn; lia)) as (m & -> & Hcore & Hrm). cbn [mbind option_bind].
    eexists. split; [reflexivity|].
    assert (Hpop : random_ok (removelast (swapped (vRandom s) p (length (vRandom s) - 1))) (delete id m)).
    { apply random_pop; [exact Hrm|]. rewrite length_swapped. rewrite swapped_last by done. f_equal. by apply nthZ_lookup. }
    assert (Hdel : core <$> delete id (mapInfo s) = core <$> delete id m).
    { rewrite !fmap_delete, Hcore. cbn. rewrite <- !fmap_delete. f_equal. apply map_eq. intros k. destruct (decide (k = id)) as [-> |Hne]; [by rewrite !lookup_delete_eq|].
      by rewrite !lookup_delete_ne, lookup_alter_ne by done. }
    split; [split; [exact Hpop|]|].
    + pose proof (tables_erase pend s b id info Ht Hid Hi ltac:(lia) Hp) as He. apply (tables_core _ _ (delete id m)) in He; [|exact Hdel].
      destruct He. by constructor.
    + split; [|split; [done|]].
      * split_and!; try done. cbn. intros k i' Hk. destruct (info_core_lookup _ _ (eq_sym Hdel) _ _ Hk) as (i & Hki & Hc).
        apply lookup_delete_Some in Hki as [_ Hki]. exists i. apply core_fields in Hc as (_ & _ & ? & ? & ?). done.
      * cbn. intros k Hne [i Hk]. destruct (info_core_lookup _ _ Hdel k i) as (i2 & ? & _); [by rewrite lookup_delete_ne|]. by exists i2.
  - eexists. split; [reflexivity|]. split; [split|split; [|split; [done|]]].
    + by apply random_alter.
    + apply (tables_unref pend s b id info); [done|done|done|lia].
    + split_and!; try done. cbn. intros k i' Hk. apply lookup_alter_Some in Hk as [(-> & y & Hy & ->)|[_ Hk]]; by eexists.
    + cbn. intros k Hne [i Hk]. exists i. by rewrite lookup_alter_ne.
Qed.

Lemma elem_of_items x b : x ∈ items b <-> x ∈ b.
Proof. unfold items. by rewrite merge_sort_Permutation, elem_of_elements. Qed.

Lemma length_items b : length (items b) = size b.
Proof. unfold items. by rewrite merge_sort_Permutation. Qed.

Lemma find_terrible_ok nNow ids s :
  (forall id, id ∈ ids -> is_Some (mapInfo s !! id)) ->
  exists t, find_terrible nNow ids s = Some t /\ forall id, t = Some id -> id ∈ ids.
Proof.
  induction ids as [|x ids IH]; intros Hm; [by exists None|]. cbn [find_terrible].
  destruct (Hm x ltac:(by left)) as [info ->]. cbn [mbind option_bind]. destruct (IsTerrible nNow info).
  - exists (Some x). split; [done|]. intros id [= ->]. by left.
  - destruct IH as (t & -> & Ht); [intros id Hid; apply Hm; by right|]. exists t. split; [done|]. intros id Hid. right. by apply Ht.
Qed.

Lemma find_oldest_ok n nI old ids s :
  (forall id, id ∈ ids -> is_Some (mapInfo s !! id) /\ id <> -1) -> (old <> -1 -> is_Some (mapInfo s !! old)) ->
  exists r, find_oldest n nI old ids s = Some r /\ (r = old \/ r ∈ ids) /\
    (r = -1 -> old = -1 /\ forall j, nI <= j < nI + Z.of_nat (length ids) -> j ∉ n).
Proof.
  revert nI old. induction ids as [|x ids IH]; intros nI old Hm Ho; cbn [find_oldest].
  { exists old. split; [done|]. split; [by left|]. intros ->. split; [done|]. cbn. intros j Hj. lia. }
  destruct (Hm x ltac:(by left)) as [[ix Hx] Hx1].
  assert (Hrec : forall nI' old', (old' <> -1 -> is_Some (mapInfo s !! old')) ->
    exists r, find_oldest n nI' old' ids s = Some r /\ (r = old' \/ r ∈ ids) /\
      (r = -1 -> old' = -1 /\ forall j, nI' <= j < nI' + Z.of_nat (length ids) -> j ∉ n)).
  { intros nI' old' Ho'. apply IH; [intros id Hid; apply Hm; by right|done]. }
  assert (Hskip : nI ∉ n -> forall r, (r = -1 -> old = -1 /\ forall j, nI + 1 <= j < nI + 1 + Z.of_nat (length ids) -> j ∉ n) ->
    r = -1 -> old = -1 /\ forall j, nI <= j < nI + Z.of_nat (length (x :: ids)) -> j ∉ n).
  { intros Hn r Hr Hr1. destruct (Hr Hr1) as [H1 H2]. split; [done|]. intros j Hj. cbn [length] in Hj.
    destruct (decide (j = nI)) as [-> |]; [done|]. apply H2. lia. }
  destruct (bool_decide (nI ∈ n)) eqn:E.
  - destruct (Z.eqb_spec old (-1)) as [-> |Hne].
    + destruct (Hrec (nI + 1) x) as (r & -> & Hr & Hr1); [by intros _; exists ix|]. exists r. split; [done|].
      split; [right; destruct Hr as [-> |]; [by left|by right]|]. intros Hrm. destruct (Hr1 Hrm) as [? _]. done.
    + rewrite Hx. destruct (Ho Hne) as [io ->]. cbn [mbind option_bind].
      destruct (Hrec (nI + 1) (if info_nTime ix <? info_nTime io then x else old)) as (r & -> & Hr & Hr1).
      { intros _. destruct (info_nTime ix <? info_nTime io); [by exists ix|by apply Ho]. }
      exists r. split; [done|]. split.
      * destruct Hr as [-> |Hr]; [|right; by right]. destruct (info_nTime ix <? info_nTime io); [right; by left|by left].
      * intros Hrm. destruct (Hr1 Hrm) as [H1 _]. destruct (info_nTime ix <? info_nTime io); done.
  - apply bool_decide_eq_false in E. destruct (Hrec (nI + 1) old Ho) as (r & -> & Hr & Hr1). exists r. split; [done|].
    split; [destruct Hr; [by left|right; by right]|]. by apply Hskip.
Qed.

Lemma rand_int_range n rnd : 0 < n -> 0 <= (rand_int n rnd).1 < n.
Proof. intros Hn. unfold rand_int. cbn. destruct (Z.eqb_spec n 0); [lia|]. by apply Z.mod_pos_bound. Qed.

(** [ShrinkNew] takes an entry out of a bucket that is not empty. *)
Lemma ShrinkNew_ok pend nNow b rnd s :
  addrman_ok pend s -> Z.of_nat (length (vRandom s)) < 2 ^ 32 ->
  (0 < size (new_bucket s b))%nat -> (forall p, pend = Some p -> p ∉ new_bucket s b) ->
  exists r rnd' s' id, ShrinkNew nNow b rnd s = Some (r, rnd', s') /\ id ∈ new_bucket s b /\ addrman_ok pend s' /\ keeps s s' /\
    vvNew s' = alter (fun b => b ∖ {[id]}) b (vvNew s) /\ (forall k, k <> id -> is_Some (mapInfo s !! k) -> is_Some (mapInfo s' !! k)).
Proof.
  intros Hok Hsz Hne Hp. pose proof Hok as [_ Ht].
  assert (Hm : forall id, id ∈ items (new_bucket s b) -> is_Some (mapInfo s !! id)).
  { intros id Hid. apply elem_of_items in Hid. by eapply ok_new. }
  assert (Hdrop : forall id, id ∈ new_bucket s b -> exists s', drop_ref b id s = Some s' /\ addrman_ok pend s' /\ keeps s s' /\
    vvNew s' = alter (fun b => b ∖ {[id]}) b (vvNew s) /\ (forall k, k <> id -> is_Some (mapInfo s !! k) -> is_Some (mapInfo s' !! k))).
  { intros id Hid. apply drop_ref_ok; try done. intros ->. by apply (Hp id). }
  assert (Hb : (b < length (vvNew s))%nat).
  { destruct (size_pos_elem_of _ Hne) as [x Hx]. by eapply bucket_lt. }
  unfold ShrinkNew. rewrite (proj2 (Nat.ltb_lt _ _) Hb). cbn [negb].
  destruct (find_terrible_ok nNow _ s Hm) as (t & -> & Hin). cbn [mbind option_bind]. destruct t as [id|].
  - specialize (Hin id eq_refl). apply elem_of_items in Hin. destruct (Hdrop id Hin) as (s' & -> & H1 & H2 & H3 & H4). by exists 0, rnd, s', id.
  - rewrite length_items. assert (Hz : 0 < Z.of_nat (size (new_bucket s b))) by lia.
    pose proof (rand_int_range _ rnd Hz) as H0.
    destruct (rand_int _ rnd) as [n0 rnd0]. destruct (rand_int _ rnd0) as [n1 rnd1]. destruct (rand_int _ rnd1) as [n2 rnd2].
    destruct (rand_int _ rnd2) as [n3 rnd3]. cbn [fst] in H0.
    destruct (find_oldest_ok [n0; n1; n2; n3] 0 (-1) (items (new_bucket s b)) s) as (r & -> & Hr & Hr1); [|done|].
    + intros id Hid. split; [by apply Hm|]. pose proof (ok_ids _ _ Ht id (Hm _ Hid)). lia.
    + cbn [mbind option_bind]. destruct Hr as [Hr|Hr].
      * destruct (Hr1 Hr) as [_ Hno]. rewrite length_items in Hno. exfalso. apply (Hno n0); [lia|by left].
      * apply elem_of_items in Hr. destruct (Hdrop r Hr) as (s' & -> & H1 & H2 & H3 & H4). by exists 1, rnd3, s', r.
Qed.

(** ** Entries and buckets gained *)

(** Updates of an entry that the tables do not see *)
Lemma addrman_data pend s id f :
  (forall i, view (f i) = view i /\ nRandomPos (f i) = nRandomPos i) -> addrman_ok pend s -> addrman_ok pend (upd_info id f s).
Proof.
  intros Hf [Hr Ht]. split.
  - apply random_alter; [|done]. intros i. by destruct (Hf i).
  - apply tables_view; [|done]. apply map_eq. intros k. rewrite !lookup_fmap. destruct (decide (k = id)) as [-> |Hne].
    + rewrite lookup_alter_eq. destruct (mapInfo s !! id) as [i|]; [|done]. cbn. by destruct (Hf i) as [-> _].
    + by rewrite lookup_alter_ne.
Qed.

(** One more reference, ahead of the buckets *)
Lemma addrman_ref s id info :
  addrman_ok None s -> mapInfo s !! id = Some info -> fInTried info = false -> nRefCount info < 4 ->
  addrman_ok (Some id) (upd_info id (with_nRefCount (nRefCount info + 1)) s).
Proof.
  intros [Hr [A A0 B C D E F G I J K]] Hi Ht H4. split; [by apply random_alter|].
  assert (Hlk : forall k i', alter (with_nRefCount (nRefCount info + 1)) id (mapInfo s) !! k = Some i' <->
    exists i, mapInfo s !! k = Some i /\ i' = if decide (k = id) then with_nRefCount (nRefCount info + 1) i else i).
  { intros k i'. destruct (decide (k = id)) as [-> |Hne].
    - rewrite lookup_alter_eq, Hi. cbn. split; [intros [= <-]; by exists info|by intros (i & [= <-] & ->)].
    - rewrite lookup_alter_ne by done. split; [intros Hk; by exists i'|by intros (i & Hk & ->)]. }
  constructor; cbn [upd_info set_info mapInfo mapAddr vvNew vvTried nTried nNew nIdCount]; try done.
  - intros key k. rewrite A. split.
    + intros (i & Hk & Hip). eexists. split; [apply Hlk; by exists i|]. by destruct (decide (k = id)).
    + intros (i' & Hk & Hip). apply Hlk in Hk as (i & Hk & ->). exists i. split; [done|]. by destruct (decide (k = id)).
  - intros k [i' Hk]. apply Hlk in Hk as (i & Hk & _). apply B. by exists i.
  - intros k i' Hk. apply Hlk in Hk as (i & Hk & ->). destruct (C _ _ Hk) as [D1 D2]. rewrite decide_False in D1 by done.
    destruct (decide (k = id)) as [-> |Hne].
    + rewrite Hk in Hi. injection Hi as ->. rewrite decide_True by done. cbn. rewrite Ht in D2 |- *. lia.
    + rewrite decide_False by congruence. split; [lia|done].
  - intros b k Hk. destruct (D b k Hk) as [i Hki]. eexists. apply Hlk. by exists i.
  - intros k. rewrite E. split.
    + intros (i & Hk & Hti). eexists. split; [apply Hlk; by exists i|]. by destruct (decide (k = id)).
    + intros (i' & Hk & Hti). apply Hlk in Hk as (i & Hk & ->). exists i. split; [done|]. by destruct (decide (k = id)).
  - by rewrite K, <- !size_dom, dom_alter_L.
Qed.

(** A new entry with its first reference *)
Lemma addrman_create s addr src t :
  addrman_ok None s -> nIdCount s + 1 < 2 ^ 31 -> mapAddr s !! sv_ip (ad_service addr) = None ->
  let s1 := set_new (nNew s + 1) (vvNew s) (upd_info (nIdCount s) (AddrMan.with_nTime t) (Create addr src s).2) in
  addrman_ok (Some (nIdCount s)) (upd_info (nIdCount s) (with_nRefCount 1) s1).
Proof.
  intros [Hr Ht] Hcount Hna. pose proof Ht as [A A0 B C D E F G I J K]. set (n := nIdCount s).
  assert (Hnext : i32 (n + 1) = n + 1) by (apply swrap_small; unfold n; lia).
  assert (Hfresh : mapInfo s !! n = None).
  { destruct (mapInfo s !! n) eqn:Ei; [|done]. destruct (B n ltac:(by eexists)). unfold n in *. lia. }
  set (info := with_nRefCount 1 (AddrMan.with_nTime t (with_nRandomPos (Z.of_nat (length (vRandom s))) (CAddrInfo_new addr src)))).
  cbv zeta. set (s1 := upd_info _ _ _).
  assert (Hm : mapInfo s1 = <[n := info]> (mapInfo s)).
  { apply map_eq. intros k. cbn. destruct (decide (k = n)) as [-> |Hne].
    - by rewrite !lookup_alter_eq, !lookup_insert_eq.
    - by rewrite !lookup_alter_ne, !lookup_insert_ne by done. }
  assert (Hrefs : refs n (vvNew s) = 0%nat).
  { destruct (decide (0 < refs n (vvNew s))%nat) as [Hp|]; [|lia]. apply refs_bucket in Hp as (b & v & Hv & Hin).
    destruct (D b n) as [i Hi]; [unfold new_bucket; by rewrite Hv|]. by rewrite Hfresh in Hi. }
  split.
  - rewrite Hm. change (vRandom s1) with (vRandom s ++ [n]). destruct Hr as [R1 R2]. split.
    + intros i k. destruct (decide (k = n)) as [-> |Hne].
      * rewrite lookup_insert_eq. rewrite lookup_app_Some. cbn [nRandomPos info]. split.
        -- intros [Hi|[Hge Hi]]; [apply R1 in Hi as (x & Hx & _); by rewrite Hfresh in Hx|].
           apply list_lookup_singleton_Some in Hi as [Hz _]. exists info. split; [done|]. cbn. lia.
        -- intros (x & [= <-] & Hx). cbn in Hx. right. split; [lia|]. by replace (i - length (vRandom s))%nat with 0%nat by lia.
      * rewrite lookup_insert_ne, <- R1, lookup_app_Some by done. split; [|by left]. intros [Hi|[_ Hi]]; [done|].
        apply list_lookup_singleton_Some in Hi as [_ Hz]. done.
    + intros k x Hk. apply lookup_insert_Some in Hk as [[_ <-]|[_ Hk]]; [cbn; lia|by eapply R2].
  - constructor; try rewrite Hm; cbn [s1 upd_info set_new set_info Create snd mapAddr vvNew vvTried nTried nNew nIdCount]; fold n; rewrite ?Hnext; try done.
    + intros key k. rewrite lookup_insert_Some. destruct (decide (k = n)) as [-> |Hne].
      * rewrite lookup_insert_eq. split.
        -- intros [[<- _]|[_ Ha]]; [by exists info|]. apply A in Ha as (x & Hx & _). by rewrite Hfresh in Hx.
        -- intros (x & [= <-] & Hx). left. by split.
      * rewrite lookup_insert_ne by done. rewrite A. split.
        -- intros [[_ ?]|[_ Hx]]; [done|exact Hx].
        -- intros (x & Hx & Hip). right. split; [|by exists x]. intros <-. assert (mapAddr s !! sv_ip (ad_service addr) = Some k) as Hk; [|by rewrite Hna in Hk].
           apply A. by exists x.
    + unfold n. lia.
    + intros k [x Hx]. apply lookup_insert_Some in Hx as [[<- _]|[_ Hx]]; [|destruct (B k ltac:(by eexists)); unfold n; lia].
      unfold n. lia.
    + intros k x Hx. apply lookup_insert_Some in Hx as [[<- <-]|[Hne Hx]].
      * rewrite decide_True, Hrefs by done. cbn. lia.
      * rewrite decide_False by congruence. apply C in Hx. by rewrite decide_False in Hx by done.
    + intros b k Hk. destruct (D b k Hk) as [x Hx]. exists x. rewrite lookup_insert_ne; [done|]. intros <-. by rewrite Hfresh in Hx.
    + intros k. rewrite E. split; intros (x & Hx & Htr); exists x; (split; [|done]).
      * rewrite lookup_insert_ne; [done|]. intros <-. by rewrite Hfresh in Hx.
      * apply lookup_insert_Some in Hx as [[_ <-]|[_ Hx]]; [done|exact Hx].
    + rewrite map_size_insert_None by done. lia.
Qed.

(** Putting the pending entry into a bucket with room *)
Lemma addrman_put s b id :
  addrman_ok (Some id) s -> is_Some (mapInfo s !! id) -> (b < length (vvNew s))%nat -> id ∉ new_bucket s b ->
  (size (new_bucket s b) < ADDRMAN_NEW_BUCKET_SIZE)%nat ->
  addrman_ok None (set_new (nNew s) (alter (fun v => {[id]} ∪ v) b (vvNew s)) s).
Proof.
  intros [Hr [A A0 B C D E F G [I1 I2] J K]] Hi Hb Hid Hsz. split; [done|].
  constructor; cbn [set_new mapInfo mapAddr vvNew vvTried nTried nNew nIdCount]; try done.
  - intros k info Hk. destruct (C _ _ Hk) as [C1 C2]. split; [|done]. rewrite (refs_put s b id k Hb Hid), C1, (decide_False (P := None = Some k)) by done.
    destruct (decide (k = id)) as [-> |Hne]; [rewrite decide_True by done; lia|rewrite decide_False by congruence; lia].
  - intros b' k. unfold new_bucket. cbn [set_new vvNew]. rewrite lookup_alter_bucket by done. case_decide as Eb; [|apply D].
    intros Hk. apply elem_of_union in Hk as [Hk|Hk]; [by apply elem_of_singleton in Hk as ->|]. by apply (D b).
  - split; [by rewrite length_alter|]. apply sizes_alter; [done|]. intros x Hx. unfold new_bucket in Hsz. rewrite Hx in Hsz.
    change (default ∅ (Some x)) with x in Hsz. rewrite (size_union_alt {[id]} x), size_singleton. pose proof (size_difference_le x id). lia.
Qed.

(** ** The size of the tables *)

Lemma length_mjoin_le {A} (v : list (list A)) n : Forall (fun l => length l <= n)%nat v -> (length (mjoin v) <= length v * n)%nat.
Proof.
  induction 1 as [|l v Hl _ IH]; [done|]. change (mjoin (l :: v)) with (l ++ mjoin v). rewrite length_app. cbn [length]. lia.
Qed.

Lemma size_union_list_le (v : list (gset Z)) n : Forall (fun b => size b <= n)%nat v -> (size (⋃ v) <= length v * n)%nat.
Proof.
  induction 1 as [|b v Hb _ IH]; [done|]. rewrite union_list_cons, size_union_alt. cbn [length].
  pose proof (size_difference_le_set (⋃ v) b). lia.
Qed.

(** At most 64 tried and 256 untried buckets of 64 entries *)
Definition ADDRMAN_MAX : nat := 64 * 64 + 256 * 64.

Lemma addrman_bound pend s :
  addrman_ok pend s -> (length (vRandom s) <= ADDRMAN_MAX + (if pend is Some _ then 1 else 0))%nat.
Proof.
  intros [Hr [A A0 B C D E F [G1 G2] [I1 I2] J K]]. rewrite (random_size _ _ Hr), <- size_dom.
  assert (Hsub : dom (mapInfo s) ⊆ list_to_set (mjoin (vvTried s)) ∪ ⋃ vvNew s ∪ (if pend is Some p then {[p]} else ∅)).
  { intros id Hid. apply elem_of_dom in Hid as [info Hi]. destruct (C _ _ Hi) as [C1 C2]. rewrite !elem_of_union, elem_of_list_to_set.
    destruct (fInTried info) eqn:Et; [left; left; apply E; by exists info|]. case_decide as Ep; [right; subst pend; set_solver|].
    left. right. assert (0 < refs id (vvNew s))%nat as Hp by lia. apply refs_bucket in Hp as (b & v & Hv & Hin).
    apply elem_of_union_list. exists v. split; [|done]. by apply list_elem_of_lookup_2 in Hv. }
  apply subseteq_size in Hsub. rewrite !size_union_alt in Hsub.
  pose proof (length_mjoin_le _ _ G2) as H1. pose proof (size_union_list_le _ _ I2) as H2. rewrite G1 in H1. rewrite I1 in H2.
  pose proof (size_list_to_set (C := gset Z) _ F) as H3.
  pose proof (size_difference_le_set (⋃ vvNew s) (list_to_set (mjoin (vvTried s)))) as H4.
  assert (H5 : forall Y, (size ((if pend is Some p then {[p]} else ∅ : gset Z) ∖ Y) <= if pend is Some _ then 1 else 0)%nat).
  { intros Y. etrans; [apply size_difference_le_set|]. destruct pend; [by rewrite size_singleton|by rewrite size_empty]. }
  specialize (H5 (list_to_set (mjoin (vvTried s)) ∪ ⋃ vvNew s)).
  unfold ADDRMAN_MAX. unfold ADDRMAN_TRIED_BUCKET_COUNT, ADDRMAN_TRIED_BUCKET_SIZE in H1. unfold ADDRMAN_NEW_BUCKET_COUNT, ADDRMAN_NEW_BUCKET_SIZE in H2.
  clear -Hsub H1 H2 H3 H4 H5. lia.
Qed.

(** ** [Add_] *)

Lemma keeps_refl s : keeps s s.
Proof. split_and!; try done. intros k i Hi. by exists i. Qed.

Lemma keeps_trans s1 s2 s3 : keeps s1 s2 -> keeps s2 s3 -> keeps s1 s3.
Proof.
  intros (A1 & B1 & C1 & D1 & E1) (A2 & B2 & C2 & D2 & E2). split_and!; try congruence.
  intros k i Hi. destruct (E2 _ _ Hi) as (i2 & Hi2 & P1 & P2 & P3). destruct (E1 _ _ Hi2) as (i1 & Hi1 & Q1 & Q2 & Q3).
  exists i1. split_and!; congruence.
Qed.

Section operations_facts.
Context {H : HashOps}.

Lemma mod_nat_lt x n : (0 < n)%nat -> (Z.to_nat (x mod Z.of_nat n) < n)%nat.
Proof. intros Hn. pose proof (Z.mod_pos_bound x (Z.of_nat n)). lia. Qed.

Lemma GetNewBucket_lt key i src : (GetNewBucket key i src < 256)%nat.
Proof. apply (mod_nat_lt _ ADDRMAN_NEW_BUCKET_COUNT). unfold ADDRMAN_NEW_BUCKET_COUNT. lia. Qed.

Lemma GetTriedBucket_lt key i : (GetTriedBucket key i < 64)%nat.
Proof. apply (mod_nat_lt _ ADDRMAN_TRIED_BUCKET_COUNT). unfold ADDRMAN_TRIED_BUCKET_COUNT. lia. Qed.

Lemma addrman_small pend s : addrman_ok pend s -> Z.of_nat (length (vRandom s)) < 2 ^ 32.
Proof. intros Hok. pose proof (addrman_bound _ _ Hok) as Hb. unfold ADDRMAN_MAX in Hb. destruct pend; lia. Qed.

(** [place] settles an entry that has one reference to come. *)
Lemma place_ok nNow src nId rnd s info :
  mapInfo s !! nId = Some info ->
  addrman_ok (Some nId) (upd_info nId (with_nRefCount (nRefCount info + 1)) s) ->
  (nId ∈ new_bucket s (GetNewBucket (nKey s) info src) -> addrman_ok None s) ->
  exists rnd' s', place nNow src nId rnd s = Some (rnd', s') /\ addrman_ok None s' /\ keeps s s' /\ is_Some (mapInfo s' !! nId).
Proof.
  intros Hi Hok Hin. unfold place. rewrite Hi. cbn [mbind option_bind]. set (b := GetNewBucket (nKey s) info src) in *.
  case_bool_decide as Hb; [exists rnd, s; split_and!; [done|by apply Hin|apply keeps_refl|by exists info]|].
  set (s1 := upd_info nId (with_nRefCount (nRefCount info + 1)) s) in *.
  assert (Hk1 : keeps s s1).
  { split_and!; try done. cbn. intros k i' Hk. apply lookup_alter_Some in Hk as [(-> & y & Hy & ->)|[_ Hk]]; by eexists. }
  assert (Hi1 : is_Some (mapInfo s1 !! nId)) by (cbn; rewrite lookup_alter_eq, Hi; by eexists).
  assert (Hlen : (b < length (vvNew s1))%nat).
  { destruct Hok as [_ Ht]. destruct (ok_new_shape _ _ Ht) as [-> _]. apply GetNewBucket_lt. }
  destruct (Nat.eqb_spec (size (new_bucket s1 b)) ADDRMAN_NEW_BUCKET_SIZE) as [He|He].
  - destruct (ShrinkNew_ok (Some nId) nNow b rnd s1 Hok (addrman_small _ _ Hok)) as (r & rnd' & s2 & id & -> & Hid & Hok2 & Hk2 & Hv2 & Hm2).
    { rewrite He. unfold ADDRMAN_NEW_BUCKET_SIZE. lia. }
    { by intros p [= <-]. }
    cbn [mbind option_bind]. assert (Hne : nId <> id) by (by intros ->).
    assert (Hb2 : new_bucket s2 b = new_bucket s1 b ∖ {[id]}).
    { unfold new_bucket. rewrite Hv2, lookup_alter_bucket by done. by rewrite decide_True. }
    eexists _, _. split; [reflexivity|]. split_and!.
    + apply addrman_put; [done|by apply Hm2|by rewrite Hv2, length_alter| |].
      * rewrite Hb2. intros Hx. apply elem_of_difference in Hx as [Hx _]. done.
      * rewrite Hb2, size_difference, size_singleton by set_solver. unfold ADDRMAN_NEW_BUCKET_SIZE in *. lia.
    + eapply keeps_trans; [exact Hk1|exact Hk2].
    + by apply Hm2.
  - cbn [mbind option_bind]. eexists _, _. split; [reflexivity|]. split_and!; [|exact Hk1|exact Hi1].
    apply addrman_put; try done. destruct Hok as [_ Ht]. destruct (ok_new_shape _ _ Ht) as [_ Hf]. rewrite Forall_lookup in Hf.
    destruct (lookup_lt_is_Some_2 _ _ Hlen) as [v Hv]. specialize (Hf _ _ Hv). unfold new_bucket in He |- *. rewrite Hv in *.
    change (default ∅ (Some v)) with v in *. lia.
Qed.

Lemma Find_Some pend s addr nId info :
  addrman_ok pend s -> Find addr s = Some (nId, info) <-> mapInfo s !! nId = Some info /\ info_ip info = addr.
Proof.
  intros [_ Ht]. unfold Find. split.
  - destruct (mapAddr s !! addr) as [n|] eqn:Ea; [|done]. cbn. destruct (mapInfo s !! n) as [i|] eqn:Ei; [|done]. cbn. intros [= <- <-].
    split; [done|]. apply (ok_addr _ _ Ht) in Ea as (i' & Hi' & Hip). rewrite Ei in Hi'. by injection Hi' as <-.
  - intros [Hi Hip]. assert (mapAddr s !! addr = Some nId) as -> by (apply (ok_addr _ _ Ht); by exists info). cbn. by rewrite Hi.
Qed.

Lemma Find_None pend s addr : addrman_ok pend s -> Find addr s = None -> mapAddr s !! addr = None.
Proof.
  intros [_ Ht]. unfold Find. destruct (mapAddr s !! addr) as [n|] eqn:Ea; [|done].
  apply (ok_addr _ _ Ht) in Ea as (i & Hi & _). cbn. by rewrite Hi.
Qed.

(** Times that [Check_] accepts *)
Definition times_ok (s : CAddrMan) : Prop :=
  forall k i, mapInfo s !! k = Some i -> 0 <= info_nLastTry i /\ 0 <= nLastSuccess i /\ (fInTried i = true -> nLastSuccess i <> 0).

Lemma keeps_times s s' : keeps s s' -> times_ok s -> times_ok s'.
Proof.
  intros (_ & _ & _ & _ & He) Ht k i' Hi. destruct (He _ _ Hi) as (i & Hi0 & E1 & E2 & E3). unfold info_nLastTry. rewrite E1, E2, E3. by apply (Ht k).
Qed.

Lemma upd_times s id f :
  (forall i, 0 <= info_nLastTry i /\ 0 <= nLastSuccess i /\ (fInTried i = true -> nLastSuccess i <> 0) ->
    0 <= info_nLastTry (f i) /\ 0 <= nLastSuccess (f i) /\ (fInTried (f i) = true -> nLastSuccess (f i) <> 0)) ->
  times_ok s -> times_ok (upd_info id f s).
Proof.
  intros Hf Ht k i Hi. cbn in Hi. apply lookup_alter_Some in Hi as [(-> & y & Hy & ->)|[_ Hi]]; [apply Hf; by apply (Ht _ _ Hy)|by apply (Ht k)].
Qed.

Lemma refresh_view nNow p addr i :
  view (refresh nNow p addr i) = view i /\ nRandomPos (refresh nNow p addr i) = nRandomPos i /\ info_nLastTry (refresh nNow p addr i) = info_nLastTry i /\
  nLastSuccess (refresh nNow p addr i) = nLastSuccess i /\ nRefCount (refresh nNow p addr i) = nRefCount i /\ fInTried (refresh nNow p addr i) = fInTried i.
Proof. unfold refresh. by repeat case_goal. Qed.

(** What every [Add_] of a routable address ensures *)
Definition add_good (addr : CAddress) (s s' : CAddrMan) : Prop :=
  addrman_ok None s' /\ times_ok s' /\ nKey s' = nKey s /\ is_Some (Find (sv_ip (ad_service addr)) s').

(** Placing an entry that has the address makes it good. *)
Lemma place_good nNow addr src nId rnd s s1 info :
  nKey s1 = nKey s -> times_ok s1 -> mapInfo s1 !! nId = Some info -> info_ip info = sv_ip (ad_service addr) ->
  addrman_ok (Some nId) (upd_info nId (with_nRefCount (nRefCount info + 1)) s1) ->
  (nId ∈ new_bucket s1 (GetNewBucket (nKey s1) info src) -> addrman_ok None s1) ->
  exists rnd' s', place nNow src nId rnd s1 = Some (rnd', s') /\ add_good addr s s'.
Proof.
  intros Hk Ht Hi Hip Hok Hin. destruct (place_ok nNow src nId rnd s1 info Hi Hok Hin) as (r2 & s2 & -> & Hok2 & Hk2 & [i2 Hi2]).
  exists r2, s2. split; [done|]. split; [done|]. split; [by eapply keeps_times|]. split; [destruct Hk2 as [-> _]; done|].
  exists (nId, i2). apply (Find_Some _ _ _ _ _ Hok2). split; [done|].
  destruct Hk2 as (_ & _ & _ & _ & He). destruct (He _ _ Hi2) as (i1 & Hi1 & Ea & _). rewrite Hi in Hi1. injection Hi1 as <-.
  unfold info_ip in *. by rewrite Ea.
Qed.

Lemma Add_known nNow addr src penalty rnd s nId info :
  addrman_ok None s -> times_ok s -> IsRoutable (sv_ip (ad_service addr)) = true -> Find (sv_ip (ad_service addr)) s = Some (nId, info) ->
  exists rnd' s', Add_ nNow addr src penalty rnd s = Some (false, rnd', s') /\ add_good addr s s'.
Proof.
  intros Hok Hti Er Ef. unfold Add_. rewrite Er, Ef. cbn [negb].
  pose proof (proj1 (Find_Some _ _ _ _ _ Hok) Ef) as [Hi Hip]. set (pinfo := refresh nNow penalty addr info).
  set (s1 := upd_info nId (fun _ => pinfo) s). destruct (refresh_view nNow penalty addr info) as (Ev & _ & _ & _ & Er2 & Et2).
  assert (Hs1 : s1 = upd_info nId (refresh nNow penalty addr) s).
  { unfold s1, upd_info. f_equal. apply map_eq. intros k. destruct (decide (k = nId)) as [-> |Hne]; [by rewrite !lookup_alter_eq, Hi|by rewrite !lookup_alter_ne]. }
  assert (Hok1 : addrman_ok None s1).
  { rewrite Hs1. apply addrman_data; [|done]. intros i. by destruct (refresh_view nNow penalty addr i) as (? & ? & _). }
  assert (Hti1 : times_ok s1).
  { rewrite Hs1. apply upd_times; [|done]. intros i. destruct (refresh_view nNow penalty addr i) as (_ & _ & -> & -> & _ & ->). done. }
  assert (Hi1 : mapInfo s1 !! nId = Some pinfo) by (cbn; by rewrite lookup_alter_eq, Hi).
  assert (Hip1 : info_ip pinfo = sv_ip (ad_service addr)) by (rewrite <- Hip; apply (view_fields _ _ Ev)).
  assert (Hstay : forall r : list Z, exists (rnd' : list Z) (s' : CAddrMan), Some (false, r, s1) = Some (false, rnd', s') /\ add_good addr s s').
  { intros r. exists r, s1. split; [done|]. split; [done|]. split; [done|]. split; [done|]. exists (nId, pinfo). by apply (Find_Some _ _ _ _ _ Hok1). }
  case_goal; [apply Hstay|]. destruct (fInTried pinfo) eqn:Etr; [apply Hstay|].
  destruct (Z.eqb_spec (nRefCount pinfo) ADDRMAN_NEW_BUCKETS_PER_ADDRESS) as [|H4]; [apply Hstay|].
  assert (Hlt : nRefCount pinfo < 4).
  { destruct Hok1 as [_ Ht1]. destruct (ok_refs _ _ Ht1 _ _ Hi1) as [_ Hr]. rewrite Etr in Hr. unfold ADDRMAN_NEW_BUCKETS_PER_ADDRESS in H4. lia. }
  assert (Hplace : forall r, exists (rnd' : list Z) (s' : CAddrMan), ('(rnd, s) ← place nNow src nId r s1; Some (false, rnd, s)) = Some (false, rnd', s') /\ add_good addr s s').
  { intros r. destruct (place_good nNow addr src nId r s s1 pinfo eq_refl Hti1 Hi1 Hip1 (addrman_ref _ _ _ Hok1 Hi1 Etr Hlt) (fun _ => Hok1)) as (r2 & s2 & -> & Hg).
    by exists r2, s2. }
  destruct (1 <? _); [|apply Hplace]. destruct (rand_int _ rnd) as [r1 rnd1]. destruct (negb (r1 =? 0)); [apply Hstay|apply Hplace].
Qed.

Lemma Add_new nNow addr src penalty rnd s :
  addrman_ok None s -> times_ok s -> nIdCount s + 1 < 2 ^ 31 -> IsRoutable (sv_ip (ad_service addr)) = true -> Find (sv_ip (ad_service addr)) s = None ->
  exists rnd' s', Add_ nNow addr src penalty rnd s = Some (true, rnd', s') /\ add_good addr s s'.
Proof.
  intros Hok Hti Hcount Er Ef. unfold Add_. rewrite Er, Ef. cbn [negb]. pose proof (Find_None _ _ _ Hok Ef) as Hna. cbn [Create fst snd].
  match goal with |- context [place _ _ _ _ ?x] => set (s1 := x) end. set (id := nIdCount s).
  set (t := Z.max 0 (ad_nTime addr - penalty)).
  set (s0 := set_new (nNew s + 1) (vvNew s) (upd_info (nIdCount s) (AddrMan.with_nTime t) (Create addr src s).2)).
  assert (Hs1 : s1 = s0).
  { unfold s1, s0, upd_info, set_info, set_new. cbn. f_equal. apply map_eq. intros k.
    destruct (decide (k = nIdCount s)) as [-> |Hne]; [by rewrite !lookup_alter_eq, !lookup_insert_eq|by rewrite !lookup_alter_ne]. }
  assert (Hi1 : exists info, mapInfo s1 !! id = Some info /\ nRefCount info = 0 /\ info_ip info = sv_ip (ad_service addr) /\
    info_nLastTry info = 0 /\ nLastSuccess info = 0 /\ fInTried info = false).
  { eexists. split; [cbn; by rewrite lookup_alter_eq, lookup_insert_eq|]. done. }
  destruct Hi1 as (info & Hi1 & Hr0 & Hip & T1 & T2 & T3).
  pose proof (addrman_create s addr src t Hok Hcount Hna) as Hcr. cbv zeta in Hcr. fold s0 id in Hcr. rewrite <- Hs1 in Hcr.
  assert (Hti1 : times_ok s1).
  { intros k i Hk. cbn in Hk. fold id in Hk. destruct (decide (k = id)) as [-> |Hne].
    - cbn in Hi1. fold id in Hi1. rewrite Hi1 in Hk. injection Hk as <-. rewrite T1, T2, T3. done.
    - rewrite lookup_alter_ne, lookup_insert_ne in Hk by done. by apply (Hti k). }
  destruct (place_good nNow addr src id rnd s s1 info eq_refl Hti1 Hi1 Hip) as (r2 & s2 & -> & Hg).
  - rewrite Hr0. exact Hcr.
  - intros Hin. exfalso. change (id ∈ new_bucket s (GetNewBucket (nKey s1) info src)) in Hin.
    destruct Hok as [_ Ht]. pose proof (ok_ids _ _ Ht _ (ok_new _ _ Ht _ _ Hin)) as Hlt. unfold id in Hlt. lia.
  - by exists r2, s2.
Qed.

(** ** [MakeTried]

    Its steps are seen as: [nId] leaves the untried buckets and is pending; an entry of
    the tried bucket goes back to the untried ones, if there is no room; [nId] enters
    the tried bucket. *)

(** [s'] has the entries of [s], up to reference counts and [fInTried], and its indexes *)
Record relabel (f : Z -> CAddrInfo -> CAddrInfo) (s s' : CAddrMan) : Prop := {
  rl_info k : mapInfo s' !! k = f k <$> mapInfo s !! k;
  rl_keep k i : info_ip (f k i) = info_ip i /\ nRandomPos (f k i) = nRandomPos i;
  rl_addr : mapAddr s' = mapAddr s;
  rl_random : vRandom s' = vRandom s;
  rl_count : nIdCount s' = nIdCount s
}.

(** What relabelling leaves to show *)
Lemma relabel_ok f pend pend' s s' :
  addrman_ok pend s -> relabel f s s' ->
  (forall id i, mapInfo s !! id = Some i -> nRefCount (f id i) = Z.of_nat (refs id (vvNew s')) + (if decide (pend' = Some id) then 1 else 0) /\
    (if fInTried (f id i) then nRefCount (f id i) = 0 else 1 <= nRefCount (f id i) <= 4)) ->
  (forall b id, id ∈ new_bucket s' b -> is_Some (mapInfo s !! id)) ->
  (forall id, id ∈ mjoin (vvTried s') <-> exists i, mapInfo s !! id = Some i /\ fInTried (f id i) = true) ->
  NoDup (mjoin (vvTried s')) ->
  length (vvTried s') = ADDRMAN_TRIED_BUCKET_COUNT /\ Forall (fun b => length b <= ADDRMAN_TRIED_BUCKET_SIZE)%nat (vvTried s') ->
  length (vvNew s') = ADDRMAN_NEW_BUCKET_COUNT /\ Forall (fun b : gset Z => size b <= ADDRMAN_NEW_BUCKET_SIZE)%nat (vvNew s') ->
  nTried s' = Z.of_nat (length (mjoin (vvTried s'))) -> nTried s' + nNew s' = nTried s + nNew s ->
  addrman_ok pend' s'.
Proof.
  intros [[R1 R2] [A A0 B C D E F G I J K]] [L1 L2 L3 L4 L5] H1 H2 H3 H4 H5 H6 H7 H8.
  assert (Hlk : forall k i', mapInfo s' !! k = Some i' <-> exists i, mapInfo s !! k = Some i /\ i' = f k i).
  { intros k i'. rewrite L1. destruct (mapInfo s !! k) as [i|]; cbn; [|by split; [|intros (? & ? & _)]].
    split; [intros [= <-]; by exists i|by intros (? & [= <-] & ->)]. }
  assert (Hdom : forall k, is_Some (mapInfo s' !! k) <-> is_Some (mapInfo s !! k)) by (intros k; rewrite L1; apply fmap_is_Some).
  split; [split|constructor]; try done.
  - intros i id. rewrite L4, R1. split.
    + intros (x & Hx & Hp). exists (f id x). split; [apply Hlk; by exists x|]. by destruct (L2 id x) as [_ ->].
    + intros (x' & Hx & Hp). apply Hlk in Hx as (x & Hx & ->). exists x. split; [done|]. by destruct (L2 id x) as [_ <-].
  - intros id x' Hx. apply Hlk in Hx as (x & Hx & ->). destruct (L2 id x) as [_ ->]. by eapply R2.
  - intros key id. rewrite L3, A. split.
    + intros (x & Hx & Hp). exists (f id x). split; [apply Hlk; by exists x|]. by destruct (L2 id x) as [-> _].
    + intros (x' & Hx & Hp). apply Hlk in Hx as (x & Hx & ->). exists x. split; [done|]. by destruct (L2 id x) as [<- _].
  - by rewrite L5.
  - intros id Hid. rewrite L5. by apply B, Hdom.
  - intros id x' Hx. apply Hlk in Hx as (x & Hx & ->). by apply H1.
  - intros b id Hid. apply Hdom. by eapply H2.
  - intros id. rewrite H3. split; intros (x & Hx & Ht); [exists (f id x); split; [apply Hlk; by exists x|done]|].
    apply Hlk in Hx as (y & Hy & ->). by exists y.
  - rewrite H8, K. f_equal. rewrite <- !size_dom. f_equal. apply set_eq. intros k. by rewrite !elem_of_dom, Hdom.
Qed.

Lemma mjoin_insert {A} (v : list (list A)) k old :
  v !! k = Some old -> exists R, mjoin v ≡ₚ old ++ R /\ forall new, mjoin (<[k := new]> v) ≡ₚ new ++ R.
Proof.
  intros Hk. exists (mjoin (take k v ++ drop (S k) v)). split.
  - rewrite <- (take_drop_middle _ _ _ Hk) at 1. rewrite !join_app. apply Permutation_app_swap_app.
  - intros new. rewrite (insert_take_drop _ _ _ (lookup_lt_Some _ _ _ Hk)), !join_app. apply Permutation_app_swap_app.
Qed.

(** Step 1: [p] leaves the untried buckets. *)
Lemma clear_ok s s' p info f :
  addrman_ok None s -> mapInfo s !! p = Some info -> fInTried info = false ->
  (forall k i, f k i = if decide (k = p) then with_nRefCount 1 i else i) -> relabel f s s' ->
  vvNew s' = (fun b => b ∖ {[p]}) <$> vvNew s -> vvTried s' = vvTried s -> nTried s' = nTried s -> nNew s' = nNew s ->
  addrman_ok (Some p) s'.
Proof.
  intros Hok Hi Ht Hf Hrl E1 E2 E3 E4. pose proof Hok as [_ [A A0 B C D E F G [I1 I2] J K]].
  apply (relabel_ok f None (Some p) s s'); try done; rewrite ?E1, ?E2, ?E3, ?E4; try done.
  - intros id i Hid. rewrite refs_remove_all, Hf. destruct (C _ _ Hid) as [C1 C2]. rewrite decide_False in C1 by done.
    destruct (decide (id = p)) as [-> |Hne].
    + rewrite decide_True by done. rewrite Hi in Hid. injection Hid as <-. cbn. rewrite Ht. lia.
    + rewrite decide_False by congruence. split; [lia|done].
  - intros b id. unfold new_bucket. rewrite E1, list_lookup_fmap. destruct (vvNew s !! b) as [v|] eqn:Ev; cbn; [|by intros ?%not_elem_of_empty].
    intros Hin. apply elem_of_difference in Hin as [Hin _]. apply (D b). unfold new_bucket. by rewrite Ev.
  - intros id. rewrite E. split; intros (i & Hid & Hti); exists i; (split; [done|]); rewrite Hf in *.
    + by destruct (decide (id = p)).
    + destruct (decide (id = p)); [by cbn in Hti|done].
  - split; [by rewrite length_fmap|]. apply Forall_fmap. eapply Forall_impl; [exact I2|]. intros b Hb. exact (Nat.le_trans _ _ _ (size_difference_le b p) Hb).
Qed.

(** Step 2: [old] goes from its tried bucket to bucket [b]. *)
Lemma evict_ok s s' p kb vT pos old b f :
  addrman_ok (Some p) s -> vvTried s !! kb = Some vT -> vT !! pos = Some old -> (b < length (vvNew s))%nat ->
  (size (new_bucket s b) < ADDRMAN_NEW_BUCKET_SIZE)%nat ->
  (forall k i, f k i = if decide (k = old) then with_nRefCount 1 (with_fInTried false i) else i) -> relabel f s s' ->
  vvNew s' = alter (fun v => {[old]} ∪ v) b (vvNew s) -> vvTried s' = <[kb := delete pos vT]> (vvTried s) ->
  nTried s' = nTried s - 1 -> nNew s' = nNew s + 1 ->
  addrman_ok (Some p) s'.
Proof.
  intros Hok Hkb Hpos Hb Hsz Hf Hrl E1 E2 E3 E4. pose proof Hok as [_ [A A0 B C D E F [G1 G2] [I1 I2] J K]].
  destruct (mjoin_insert _ _ _ Hkb) as (R & P2 & P1). specialize (P1 (delete pos vT)).
  pose proof (delete_Permutation _ _ _ Hpos) as P3.
  assert (P4 : mjoin (vvTried s) ≡ₚ old :: (delete pos vT ++ R)) by (etrans; [exact P2|exact (Permutation_app_tail R P3)]).
  assert (Hdup : NoDup (old :: (delete pos vT ++ R))) by (by rewrite <- P4). apply NoDup_cons in Hdup as [Hno Hdup].
  assert (Hold : exists io, mapInfo s !! old = Some io /\ fInTried io = true) by (apply E; rewrite P4; by left).
  destruct Hold as (io & Hio & Hto). destruct (C _ _ Hio) as [C1 C2]. rewrite Hto in C2.
  assert (Hp : p <> old) by (intros ->; rewrite decide_True in C1 by done; lia). rewrite decide_False in C1 by congruence.
  assert (Hnb : old ∉ new_bucket s b) by (intros Hin; pose proof (refs_new_bucket _ _ _ Hin); lia).
  apply (relabel_ok f (Some p) (Some p) s s'); try done; rewrite ?E1, ?E2.
  - intros id i Hid. rewrite (refs_put _ _ _ _ Hb Hnb), Hf. destruct (C _ _ Hid) as [D1 D2]. destruct (decide (id = old)) as [-> |Hne].
    + rewrite decide_False by congruence. cbn. lia.
    + split; [lia|done].
  - intros b' k. unfold new_bucket. rewrite E1, lookup_alter_bucket by done. case_decide as Eb; [|apply D].
    intros Hk. apply elem_of_union in Hk as [Hk|Hk]; [apply elem_of_singleton in Hk as ->; by exists io|]. by apply (D b).
  - intros id. rewrite P1. split.
    + intros Hin. destruct (proj1 (E id)) as (i & Hid & Hti); [rewrite P4; by right|]. exists i. split; [done|]. rewrite Hf.
      rewrite decide_False; [done|]. by intros ->.
    + intros (i & Hid & Hti). rewrite Hf in Hti. destruct (decide (id = old)) as [-> |Hne]; [by cbn in Hti|].
      assert (Hin : id ∈ mjoin (vvTried s)) by (apply E; by exists i). rewrite P4 in Hin. by apply elem_of_cons in Hin as [?|?].
  - by rewrite P1.
  - split; [by rewrite length_insert|]. apply Forall_insert; [done|]. rewrite Forall_lookup in G2. specialize (G2 _ _ Hkb).
    rewrite length_delete by (by eexists). lia.
  - split; [by rewrite length_alter|]. apply sizes_alter; [done|]. intros x Hx. unfold new_bucket in Hsz. rewrite Hx in Hsz.
    change (default ∅ (Some x)) with x in Hsz. rewrite (size_union_alt {[old]} x), size_singleton. pose proof (size_difference_le x old). lia.
  - rewrite E3, J, P1, P4. cbn [length]. lia.
  - lia.
Qed.

(** Step 3: [p] enters its tried bucket, whose new contents are [vT']. *)
Lemma enter_ok s s' p kb vT vT' f :
  addrman_ok (Some p) s -> refs p (vvNew s) = 0%nat -> is_Some (mapInfo s !! p) -> vvTried s !! kb = Some vT ->
  vT' ≡ₚ p :: vT -> (length vT < ADDRMAN_TRIED_BUCKET_SIZE)%nat ->
  (forall k i, f k i = if decide (k = p) then with_nRefCount 0 (with_fInTried true i) else i) -> relabel f s s' ->
  vvNew s' = vvNew s -> vvTried s' = <[kb := vT']> (vvTried s) -> nTried s' = nTried s + 1 -> nNew s' = nNew s - 1 ->
  addrman_ok None s'.
Proof.
  intros Hok Hrefs [ip Hip] Hkb Hperm Hsz Hf Hrl E1 E2 E3 E4. pose proof Hok as [_ [A A0 B C D E F [G1 G2] [I1 I2] J K]].
  destruct (mjoin_insert _ _ _ Hkb) as (R & P2 & P1). specialize (P1 vT').
  assert (P4 : mjoin (<[kb := vT']> (vvTried s)) ≡ₚ p :: mjoin (vvTried s)).
  { etrans; [exact P1|]. etrans; [exact (Permutation_app_tail R Hperm)|]. cbn. by rewrite P2. }
  destruct (C _ _ Hip) as [C1 C2]. rewrite Hrefs, decide_True in C1 by done.
  assert (Htp : fInTried ip = false) by (destruct (fInTried ip); [lia|done]).
  apply (relabel_ok f (Some p) None s s'); try done; rewrite ?E1, ?E2; try done.
  - intros id i Hid. rewrite Hf. destruct (C _ _ Hid) as [D1 D2]. rewrite (decide_False (P := None = Some id)) by done.
    destruct (decide (id = p)) as [-> |Hne]; [cbn; lia|]. rewrite decide_False in D1 by congruence. by split.
  - intros b id. unfold new_bucket. rewrite E1. apply D.
  - intros id. rewrite P4, elem_of_cons, E. split.
    + intros [-> |(i & Hid & Hti)]; [exists ip; rewrite Hf, decide_True by done; done|]. exists i. split; [done|]. rewrite Hf. by destruct (decide (id = p)).
    + intros (i & Hid & Hti). rewrite Hf in Hti. destruct (decide (id = p)); [by left|]. right. by exists i.
  - rewrite P4. apply NoDup_cons. split; [|done]. rewrite E. intros (i & Hid & Hti). rewrite Hip in Hid. injection Hid as <-. congruence.
  - split; [by rewrite length_insert|]. apply Forall_insert; [done|]. rewrite Hperm. cbn. lia.
  - rewrite E3, J, P4. cbn [length]. lia.
  - lia.
Qed.

(** Entries of a tried bucket may change places. *)
Lemma permute_ok pend s kb vT vT' :
  addrman_ok pend s -> vvTried s !! kb = Some vT -> vT' ≡ₚ vT -> addrman_ok pend (set_tried (nTried s) (<[kb := vT']> (vvTried s)) s).
Proof.
  intros [Hr [A A0 B C D E F [G1 G2] I J K]] Hkb Hp. split; [done|]. destruct (mjoin_insert _ _ _ Hkb) as (R & P2 & P1). specialize (P1 vT').
  assert (P4 : mjoin (<[kb := vT']> (vvTried s)) ≡ₚ mjoin (vvTried s)).
  { etrans; [exact P1|]. etrans; [exact (Permutation_app_tail R Hp)|]. by rewrite P2. }
  constructor; cbn [set_tried mapInfo mapAddr vvNew vvTried nTried nNew nIdCount]; try done.
  - intros id. by rewrite P4.
  - by rewrite P4.
  - split; [by rewrite length_insert|]. apply Forall_insert; [done|]. rewrite Hp. rewrite Forall_lookup in G2. by apply (G2 kb).
  - by rewrite P4.
Qed.

Lemma swap_perm (l : list Z) i j : (i < length l)%nat -> (j < length l)%nat -> <[i := nthZ l j]> (<[j := nthZ l i]> l) ≡ₚ l.
Proof.
  intros Hi Hj. destruct (decide (i = j)) as [-> |Hne].
  - rewrite list_insert_insert_eq, list_insert_id; [done|]. by apply lookup_nthZ.
  - pose proof (lookup_nthZ l i Hi) as Li. pose proof (lookup_nthZ l j Hj) as Lj. by apply (Permutation_insert_swap l j i).
Qed.

(** The rounds of [SelectTried] permute the bucket and keep a position in it. *)
Lemma select_rounds_ok s vT rounds :
  (forall id, id ∈ vT -> is_Some (mapInfo s !! id) /\ id <> -1) -> Forall (fun i => i < length vT)%nat rounds ->
  forall v old pos rnd, v ≡ₚ vT -> (old = -1 \/ (old ∈ vT /\ 0 <= pos < Z.of_nat (length vT))) ->
  exists v' old' pos' rnd', select_rounds rounds s (v, old, pos, rnd) = Some (v', old', pos', rnd') /\ v' ≡ₚ vT /\
    (old' = -1 \/ (old' ∈ vT /\ 0 <= pos' < Z.of_nat (length vT))) /\ (rounds <> [] -> old' <> -1).
Proof.
  intros Hm Hr. induction Hr as [|i rounds Hi Hr IH]; intros v old pos rnd Hv Ho; cbn [select_rounds]; [by exists v, old, pos, rnd|].
  unfold select_round. pose proof (Permutation_length Hv) as Hlen.
  pose proof (rand_int_range (Z.of_nat (length v) - Z.of_nat i) rnd ltac:(lia)) as Hrnd.
  destruct (rand_int (Z.of_nat (length v) - Z.of_nat i) rnd) as [r rnd1]. cbn [fst] in Hrnd.
  set (np := (Z.to_nat r + i)%nat). assert (Hnp : (np < length v)%nat) by (unfold np; lia).
  set (v1 := <[i := nthZ v np]> (<[np := nthZ v i]> v)).
  assert (Hv1 : v1 ≡ₚ vT) by (etrans; [apply swap_perm; lia|exact Hv]).
  assert (Hin : nthZ v np ∈ vT) by (rewrite <- Hv; eapply list_elem_of_lookup_2; by apply lookup_nthZ).
  destruct (Hm _ Hin) as [[it Hit] Hne].
  assert (Hrec : forall o p, o ∈ vT -> 0 <= p < Z.of_nat (length vT) ->
    exists v' old' pos' rnd', select_rounds rounds s (v1, o, p, rnd1) = Some (v', old', pos', rnd') /\ v' ≡ₚ vT /\
      (old' = -1 \/ (old' ∈ vT /\ 0 <= pos' < Z.of_nat (length vT))) /\ (i :: rounds <> [] -> old' <> -1)).
  { intros o p Ho1 Hp1. destruct (IH v1 o p rnd1 Hv1 ltac:(by right)) as (v' & o' & p' & r' & E & E1 & E2 & E3).
    exists v', o', p', r'. split; [done|]. split; [done|]. split; [done|]. intros _. destruct rounds as [|j rounds]; [|by apply E3].
    cbn in E. injection E as <- <- <- <-. by apply Hm in Ho1 as [_ ?]. }
  destruct (Z.eqb_spec old (-1)) as [Hold|Hold]; cbn [mbind option_bind].
  - apply Hrec; [done|lia].
  - destruct Ho as [?|[Hoin Hpos]]; [done|]. destruct (Hm _ Hoin) as [[io Hio] _]. rewrite Hit, Hio. cbn [mbind option_bind].
    destruct (_ <? _); apply Hrec; (done || lia).
Qed.

Lemma SelectTried_ok s kb vT rnd :
  vvTried s !! kb = Some vT -> vT <> [] -> (forall id, id ∈ vT -> is_Some (mapInfo s !! id) /\ id <> -1) ->
  exists pos rnd' vT', SelectTried kb rnd s = Some (Z.of_nat pos, rnd', set_tried (nTried s) (<[kb := vT']> (vvTried s)) s) /\
    vT' ≡ₚ vT /\ (pos < length vT)%nat.
Proof.
  intros Hkb Hne Hm. unfold SelectTried, tried_bucket. rewrite Hkb. change (default [] (Some vT)) with vT.
  destruct (select_rounds_ok s vT (seq 0 (Nat.min ADDRMAN_TRIED_ENTRIES_INSPECT_ON_EVICT (length vT))) Hm) with (v := vT) (old := -1) (pos := -1) (rnd := rnd)
    as (v' & o' & p' & r' & -> & E1 & E2 & E3); [|done|by left|].
  - apply Forall_forall. intros i Hi. apply elem_of_seq in Hi. lia.
  - cbn [mbind option_bind]. assert (o' <> -1) as Ho.
    { apply E3. destruct vT as [|x vT]; [done|]. unfold ADDRMAN_TRIED_ENTRIES_INSPECT_ON_EVICT. by destruct (length vT) as [|[|[|?]]]. }
    destruct E2 as [?|[_ E2]]; [done|]. exists (Z.to_nat p'), r', v'. rewrite Z2Nat.id by lia. split; [done|]. split; [done|lia].
Qed.

Lemma insert_delete_perm (l : list Z) i x : (i < length l)%nat -> <[i := x]> l ≡ₚ x :: delete i l.
Proof.
  intros Hi. rewrite (delete_Permutation (<[i := x]> l) i x) by (by apply list_lookup_insert_eq). f_equiv.
  rewrite !delete_take_drop, take_insert_ge, drop_insert_lt by lia. done.
Qed.

(** The entry of [nId] is tried afterwards, with the address it had. *)
Definition made_tried (nId : Z) (info : CAddrInfo) (s s' : CAddrMan) : Prop :=
  addrman_ok None s' /\ nKey s' = nKey s /\
  (exists i, mapInfo s' !! nId = Some i /\ fInTried i = true /\ ai_addr i = ai_addr info /\ nLastSuccess i = nLastSuccess info) /\
  (forall k i', k <> nId -> mapInfo s' !! k = Some i' -> exists i, mapInfo s !! k = Some i /\ ai_addr i' = ai_addr i /\
    nLastSuccess i' = nLastSuccess i /\ (fInTried i' = true -> fInTried i = true)).

(** [enter_tried] into a full bucket *)
Lemma enter_full nId nOrigin info rnd sA vT :
  let s1 := set_new (nNew sA - 1) (vvNew sA) (upd_info nId (with_nRefCount 0) sA) in
  let kb := GetTriedBucket (nKey s1) info in
  addrman_ok (Some nId) sA -> refs nId (vvNew sA) = 0%nat -> mapInfo sA !! nId = Some (with_nRefCount 1 info) -> fInTried info = false ->
  (nOrigin < length (vvNew sA))%nat -> (size (new_bucket sA nOrigin) < ADDRMAN_NEW_BUCKET_SIZE)%nat ->
  vvTried sA !! kb = Some vT -> (ADDRMAN_TRIED_BUCKET_SIZE <= length vT)%nat ->
  exists rnd' s', enter_tried nId nOrigin info rnd s1 = Some (rnd', s') /\ made_tried nId info sA s'.
Proof.
  intros s1 kb HA HrA HiA Ht HoL HoS HvT Hfull. pose proof HA as [_ Htab]. unfold enter_tried. fold kb.
  assert (Hb1 : tried_bucket s1 kb = vT) by (unfold tried_bucket; change (vvTried s1) with (vvTried sA); by rewrite HvT).
  rewrite Hb1, (proj2 (Nat.ltb_ge _ _) Hfull).
  assert (HinT : forall id, id ∈ vT -> exists i, mapInfo sA !! id = Some i /\ fInTried i = true).
  { intros id Hid. apply (ok_tried _ _ Htab), list_elem_of_join. exists vT. split; [done|]. by apply list_elem_of_lookup_2 in HvT. }
  assert (Hne0 : forall id, id ∈ vT -> id <> nId) by (intros id Hid ->; destruct (HinT _ Hid) as (i & Hi & Hti); rewrite HiA in Hi; injection Hi as <-; by cbn in Hti; congruence).
  destruct (SelectTried_ok s1 kb vT rnd) as (pos & rnd' & vT' & -> & Hperm & Hpos).
  { done. }
  { intros ->. unfold ADDRMAN_TRIED_BUCKET_SIZE in Hfull. cbn in Hfull. lia. }
  { intros id Hid. destruct (HinT _ Hid) as (i & Hi & _). split; [cbn; rewrite lookup_alter_ne by (by apply not_eq_sym, Hne0); by exists i|].
    pose proof (ok_ids _ _ Htab id (mk_is_Some _ _ Hi)). lia. }
  cbn [mbind option_bind]. rewrite Nat2Z.id. set (s2 := set_tried (nTried s1) (<[kb := vT']> (vvTried s1)) s1).
  assert (Hkb : (kb < length (vvTried sA))%nat) by (by apply lookup_lt_Some in HvT).
  assert (Hb2 : tried_bucket s2 kb = vT') by (unfold tried_bucket; change (vvTried s2) with (<[kb := vT']> (vvTried sA)); by rewrite list_lookup_insert_eq).
  rewrite Hb2. pose proof (Permutation_length Hperm) as Hlen. pose proof (lookup_nthZ vT' pos ltac:(lia)) as Hold. set (old := nthZ vT' pos) in *.
  assert (HoldT : old ∈ vT) by (rewrite <- Hperm; by apply list_elem_of_lookup_2 in Hold).
  destruct (HinT _ HoldT) as (io & Hio & Htio). pose proof (Hne0 _ HoldT) as Hneo.
  assert (mapInfo s2 !! old = Some io) as -> by (cbn; by rewrite lookup_alter_ne by done). cbn [mbind option_bind].
  set (nU := GetNewBucket (nKey s2) io (source io)).
  set (b := if (size (new_bucket (upd_info old _ s2) nU) <? ADDRMAN_NEW_BUCKET_SIZE)%nat then nU else nOrigin).
  assert (Hb : (b < length (vvNew sA))%nat /\ (size (new_bucket sA b) < ADDRMAN_NEW_BUCKET_SIZE)%nat).
  { unfold b. change (new_bucket (upd_info old _ s2) nU) with (new_bucket sA nU). destruct (Nat.ltb_spec (size (new_bucket sA nU)) ADDRMAN_NEW_BUCKET_SIZE) as [Hl|Hl]; [|done].
    split; [|done]. destruct (ok_new_shape _ _ Htab) as [-> _]. apply GetNewBucket_lt. }
  destruct Hb as [Hb HbS]. clearbody b.
  eexists _, _. split; [reflexivity|]. set (s' := upd_info nId (with_fInTried true) _).
  set (sB := mkAddrMan (nKey sA) (nIdCount sA) (alter (fun i => with_nRefCount 1 (with_fInTried false i)) old (mapInfo sA)) (mapAddr sA) (vRandom sA)
    (nTried sA - 1) (<[kb := delete pos vT']> (<[kb := vT']> (vvTried sA))) (nNew sA + 1) (alter (fun v => {[old]} ∪ v) b (vvNew sA))).
  assert (HB : addrman_ok (Some nId) sB).
  { pose proof (permute_ok _ sA kb vT vT' HA HvT Hperm) as HA'.
    apply (evict_ok _ sB nId kb vT' pos old b (fun k i => if decide (k = old) then with_nRefCount 1 (with_fInTried false i) else i) HA'); try done.
    - cbn. by rewrite list_lookup_insert_eq.
    - constructor; try done.
      + intros k. cbn. destruct (decide (k = old)) as [-> |Hne]; [by rewrite lookup_alter_eq|]. rewrite lookup_alter_ne by done. by destruct (mapInfo sA !! k).
      + intros k i. by destruct (decide (k = old)). }
  split; [|split; [done|split]].
  - apply (enter_ok sB s' nId kb (delete pos vT') (<[pos := nId]> vT') (fun k i => if decide (k = nId) then with_nRefCount 0 (with_fInTried true i) else i) HB).
    + destruct (lookup_lt_is_Some_2 _ _ Hb) as [v Hv]. pose proof (refs_alter nId (fun v => {[old]} ∪ v) b (vvNew sA) v Hv) as Er. cbn [sB vvNew].
      assert (Hnv : nId ∉ v) by (intros Hx; assert (0 < refs nId (vvNew sA))%nat by (apply refs_bucket; by exists b, v); lia).
      rewrite HrA, !decide_False in Er by set_solver. lia.
    + cbn. rewrite lookup_alter_ne, HiA by done. by eexists.
    + cbn. by rewrite list_lookup_insert_eq by (rewrite length_insert; done).
    + apply insert_delete_perm. lia.
    + rewrite length_delete by (by eexists). destruct (ok_tried_shape _ _ Htab) as [_ Hf]. rewrite Forall_lookup in Hf. specialize (Hf _ _ HvT). lia.
    + done.
    + constructor; try done.
      * intros k. cbn. destruct (decide (k = nId)) as [-> |Hne]; [by rewrite lookup_alter_eq, !(lookup_alter_ne _ _ old) by done; rewrite lookup_alter_eq, HiA|].
        destruct (decide (k = old)) as [-> |Hne2]; [by rewrite lookup_alter_ne, !lookup_alter_eq, lookup_alter_ne by done; destruct (mapInfo sA !! old)|].
        rewrite !lookup_alter_ne by done. by destruct (mapInfo sA !! k).
      * intros k i. by destruct (decide (k = nId)).
    + done.
    + cbn. rewrite (alter_insert_list _ _ _ vT') by (by rewrite list_lookup_insert_eq). by rewrite !list_insert_insert_eq.
    + cbn. lia.
    + cbn. lia.
  - eexists. split; [cbn; rewrite lookup_alter_eq, lookup_alter_ne, lookup_alter_eq, HiA by done; reflexivity|]. done.
  - intros k i' Hne Hk. cbn in Hk. rewrite lookup_alter_ne in Hk by done. destruct (decide (k = old)) as [-> |Hne2].
    + rewrite lookup_alter_eq, lookup_alter_ne, Hio in Hk by done. injection Hk as <-. by exists io.
    + rewrite !lookup_alter_ne in Hk by done. by exists i'.
Qed.

(** [enter_tried], from a state where [nId] is pending *)
Lemma enter_tried_ok nId nOrigin info rnd sA :
  addrman_ok (Some nId) sA -> refs nId (vvNew sA) = 0%nat -> mapInfo sA !! nId = Some (with_nRefCount 1 info) -> fInTried info = false ->
  (nOrigin < length (vvNew sA))%nat -> (size (new_bucket sA nOrigin) < ADDRMAN_NEW_BUCKET_SIZE)%nat ->
  exists rnd' s', enter_tried nId nOrigin info rnd (set_new (nNew sA - 1) (vvNew sA) (upd_info nId (with_nRefCount 0) sA)) = Some (rnd', s') /\
    made_tried nId info sA s'.
Proof.
  intros HA HrA HiA Ht HoL HoS. pose proof HA as [_ Htab]. set (s1 := set_new _ _ _).
  set (kb := GetTriedBucket (nKey s1) info).
  set (f := fun k i => if decide (k = nId) then with_nRefCount 0 (with_fInTried true i) else i).
  destruct (lookup_lt_is_Some_2 (vvTried sA) kb) as [vT HvT].
  { destruct (ok_tried_shape _ _ Htab) as [-> _]. apply GetTriedBucket_lt. }
  assert (Hb1 : tried_bucket s1 kb = vT) by (unfold tried_bucket; change (vvTried s1) with (vvTried sA); by rewrite HvT).
  destruct (decide (length vT < ADDRMAN_TRIED_BUCKET_SIZE)%nat) as [Hroom|Hfull].
  - unfold enter_tried. fold kb. rewrite Hb1, (proj2 (Nat.ltb_lt _ _) Hroom). eexists _, _. split; [reflexivity|]. set (s' := upd_info nId (with_fInTried true) _). split; [|split; [done|split]].
    + apply (enter_ok sA s' nId kb vT (vT ++ [nId]) f HA HrA).
      * rewrite HiA. by eexists.
      * exact HvT.
      * by rewrite Permutation_app_comm.
      * exact Hroom.
      * done.
      * constructor; try done.
        -- intros k. unfold f. cbn. destruct (decide (k = nId)) as [-> |Hne]; [by rewrite !lookup_alter_eq, HiA|].
           rewrite !lookup_alter_ne by done. by destruct (mapInfo sA !! k).
        -- intros k i. unfold f. by destruct (decide (k = nId)).
      * done.
      * change (vvTried s') with (alter (fun v => v ++ [nId]) kb (vvTried sA)). by rewrite (alter_insert_list _ _ _ _ HvT).
      * done.
      * done.
    + eexists. split; [cbn; by rewrite !lookup_alter_eq, HiA|]. done.
    + intros k i' Hne Hk. cbn in Hk. rewrite !lookup_alter_ne in Hk by done. by exists i'.
  - apply (enter_full nId nOrigin info rnd sA vT); (done || lia).
Qed.

Lemma MakeTried_ok nId nOrigin rnd s info :
  addrman_ok None s -> mapInfo s !! nId = Some info -> fInTried info = false -> nId ∈ new_bucket s nOrigin ->
  exists rnd' s', MakeTried nId nOrigin rnd s = Some (rnd', s') /\ made_tried nId info s s'.
Proof.
  intros Hok Hi Ht Hin. pose proof Hok as [_ Htab]. unfold MakeTried. rewrite bool_decide_eq_true_2 by done. cbn [negb].
  rewrite Hi. cbn [mbind option_bind]. destruct (ok_refs _ _ Htab _ _ Hi) as [Hr _]. rewrite decide_False in Hr by done.
  replace (nRefCount info - Z.of_nat (refs nId (vvNew s))) with 0 by lia. cbn [Z.eqb negb].
  set (V := (fun b : gset Z => b ∖ {[nId]}) <$> vvNew s). set (sA := set_new (nNew s) V (upd_info nId (with_nRefCount 1) s)).
  assert (HA : addrman_ok (Some nId) sA).
  { eapply (clear_ok s sA nId info (fun k i => if decide (k = nId) then with_nRefCount 1 i else i)); try done. constructor; try done.
    - intros k. cbn. destruct (decide (k = nId)) as [-> |Hne]; [by rewrite lookup_alter_eq|]. rewrite lookup_alter_ne by done. by destruct (mapInfo s !! k).
    - intros k i. by destruct (decide (k = nId)). }
  match goal with |- context [enter_tried _ _ _ _ ?x] => assert (x = set_new (nNew sA - 1) (vvNew sA) (upd_info nId (with_nRefCount 0) sA)) as -> end.
  { unfold sA, set_new, upd_info, set_info. cbn. f_equal. apply map_eq. intros k. destruct (decide (k = nId)) as [-> |Hne].
    - by rewrite !lookup_alter_eq, Hi.
    - by rewrite !lookup_alter_ne. }
  pose proof (bucket_lt _ _ _ Hin) as HoL. apply new_bucket_lookup in Hin as (v & Hv & Hin).
  destruct (enter_tried_ok nId nOrigin info rnd sA HA) as (rnd' & s' & -> & Hmt).
  - change (vvNew sA) with V. unfold V. rewrite refs_remove_all. by rewrite decide_True.
  - cbn. by rewrite lookup_alter_eq, Hi.
  - done.
  - change (vvNew sA) with V. unfold V. by rewrite length_fmap.
  - unfold new_bucket. change (vvNew sA) with V. unfold V. rewrite list_lookup_fmap, Hv. cbn [fmap option_fmap option_map default from_option].
    destruct (ok_new_shape _ _ Htab) as [_ Hf]. rewrite Forall_lookup in Hf. specialize (Hf _ _ Hv). change (size (v ∖ {[nId]}) < ADDRMAN_NEW_BUCKET_SIZE)%nat.
    rewrite size_difference, size_singleton by set_solver. unfold ADDRMAN_NEW_BUCKET_SIZE in *. lia.
  - exists rnd', s'. split; [done|]. destruct Hmt as (M1 & M2 & (i & Hii & M3) & M4). split; [done|]. split; [done|]. split; [by exists i|].
    intros k i' Hne Hk. destruct (M4 k i' Hne Hk) as (i0 & Hi0 & M5). exists i0. split; [|done]. cbn in Hi0. by rewrite lookup_alter_ne in Hi0.
Qed.

(** ** [Good_] *)

Lemma find_bucket_ok nId nRnd s b0 :
  nId ∈ new_bucket s b0 -> exists b, find_bucket nId nRnd s = Some b /\ nId ∈ new_bucket s b.
Proof.
  intros Hb0. pose proof (bucket_lt _ _ _ Hb0) as Hlt. unfold find_bucket. set (n := length (vvNew s)) in *.
  set (l := filter _ _). assert (Hin : b0 ∈ l).
  { apply list_elem_of_filter. split; [done|]. apply list_elem_of_fmap. exists ((b0 + (n - nRnd mod n)) mod n)%nat.
    assert (Hm : (nRnd mod n < n)%nat) by (apply Nat.mod_upper_bound; lia). split.
    - rewrite Nat.Div0.add_mod_idemp_l. rewrite (Nat.div_mod_eq nRnd n) at 2.
      replace (b0 + (n - nRnd mod n) + (n * (nRnd / n) + nRnd mod n))%nat with (b0 + (1 + nRnd / n) * n)%nat by lia.
      rewrite Nat.Div0.mod_add. symmetry. by apply Nat.mod_small.
    - apply elem_of_seq. pose proof (Nat.mod_upper_bound (b0 + (n - nRnd mod n)) n). lia. }
  destruct l as [|b l'] eqn:El; [by apply not_elem_of_nil in Hin|]. exists b. split; [done|].
  assert (Hb : b ∈ l) by (rewrite El; by left). subst l. by apply list_elem_of_filter in Hb as [? _].
Qed.

Lemma service_ne_ip a b : service_ne a b = false -> sv_ip a = sv_ip b.
Proof. unfold service_ne, addr_eq. intros E. bool_prop. destruct E as [E _]. by apply bool_decide_eq_true in E. Qed.

(** [Good_] succeeds, and a known service with the same port is tried afterwards. *)
Lemma Good_ok addr nTime rnd s :
  addrman_ok None s -> times_ok s -> 0 < nTime ->
  exists rnd' s', Good_ addr nTime rnd s = Some (rnd', s') /\ addrman_ok None s' /\ times_ok s' /\ nKey s' = nKey s /\
    (forall nId info, Find (sv_ip addr) s = Some (nId, info) -> service_ne (ad_service (ai_addr info)) addr = false ->
      exists i', Find (sv_ip addr) s' = Some (nId, i') /\ fInTried i' = true /\ nLastSuccess i' = nTime).
Proof.
  intros Hok Hti Hn. unfold Good_. destruct (Find (sv_ip addr) s) as [[nId info]|] eqn:Ef.
  2: { by exists rnd, s. }
  destruct (service_ne (ad_service (ai_addr info)) addr) eqn:Es.
  { exists rnd, s. split_and!; try done. intros n i [= <- <-] E. congruence. }
  pose proof (proj1 (Find_Some _ _ _ _ _ Hok) Ef) as [Hi Hip].
  set (g := fun i => with_nAttempts 0 (AddrMan.with_nTime nTime (with_nLastTry nTime (with_nLastSuccess nTime i)))).
  set (s1 := upd_info nId g s).
  assert (Hok1 : addrman_ok None s1) by (apply addrman_data; [|done]; by intros i).
  assert (Hti1 : times_ok s1) by (apply upd_times; [intros i _; cbn; lia|done]).
  assert (Hi1 : mapInfo s1 !! nId = Some (g info)) by (cbn; by rewrite lookup_alter_eq, Hi).
  destruct (fInTried info) eqn:Et.
  { exists rnd, s1. split_and!; try done. intros n i [= <- <-] _. exists (g info). split; [|done]. by apply (Find_Some _ _ _ _ _ Hok1). }
  destruct (rand_int _ rnd) as [nRnd rnd1]. pose proof Hok1 as [_ Ht1]. destruct (ok_refs _ _ Ht1 _ _ Hi1) as [R1 R2].
  change (fInTried (g info)) with (fInTried info) in R2. rewrite Et in R2. rewrite decide_False in R1 by done.
  assert (Hb : exists b, nId ∈ new_bucket s1 b).
  { assert (0 < refs nId (vvNew s1))%nat as Hp by lia. apply refs_bucket in Hp as (b & v & Hv & Hin). exists b. unfold new_bucket. by rewrite Hv. }
  destruct Hb as [b0 Hb0]. destruct (find_bucket_ok nId (Z.to_nat nRnd) s1 b0 Hb0) as (b & -> & Hb).
  destruct (MakeTried_ok nId b rnd1 s1 (g info) Hok1 Hi1 Et Hb) as (r2 & s2 & -> & M1 & M2 & (i2 & Hi2 & T2 & A2 & L2) & M4).
  exists r2, s2. split; [done|]. split; [done|]. split.
  - intros k i' Hk. destruct (decide (k = nId)) as [-> |Hne].
    + rewrite Hi2 in Hk. injection Hk as <-. unfold info_nLastTry. rewrite A2, L2. cbn. lia.
    + destruct (M4 _ _ Hne Hk) as (i & Hki & A & L & T). destruct (Hti1 _ _ Hki) as (Q1 & Q2 & Q3). unfold info_nLastTry in *. rewrite A, L. tauto.
  - split; [done|]. intros n i [= <- <-] _. exists i2. split; [|by rewrite L2]. apply (Find_Some _ _ _ _ _ M1). split; [done|].
    unfold info_ip in *. rewrite A2. exact Hip.
Qed.

Lemma Attempt_ok addr nTime s : addrman_ok None s -> times_ok s -> 0 <= nTime -> addrman_ok None (Attempt_ addr nTime s) /\ times_ok (Attempt_ addr nTime s).
Proof.
  intros Hok Hti Hn. unfold Attempt_. destruct (Find (sv_ip addr) s) as [[nId info]|]; [|done]. case_goal; [done|].
  split; [by apply addrman_data|]. apply upd_times; [|done]. intros i (_ & ? & ?). done.
Qed.

Lemma Connected_ok addr nTime s : addrman_ok None s -> times_ok s -> addrman_ok None (Connected_ addr nTime s) /\ times_ok (Connected_ addr nTime s).
Proof.
  intros Hok Hti. unfold Connected_. destruct (Find (sv_ip addr) s) as [[nId info]|]; [|done]. repeat (case_goal; [done|] || case_goal); try done.
  split; [by apply addrman_data|]. by apply upd_times.
Qed.

(** [GetAddr_] only shuffles. *)
Lemma getaddr_loop_ok positions vAddr rnd s :
  addrman_ok None s -> times_ok s -> Forall (fun n => n < length (vRandom s))%nat positions ->
  exists v rnd' s', getaddr_loop positions vAddr rnd s = Some (v, rnd', s') /\ addrman_ok None s' /\ times_ok s' /\ nKey s' = nKey s /\
    length v = (length vAddr + length positions)%nat.
Proof.
  intros Hok Hti Hp. revert vAddr rnd s Hok Hti Hp. induction positions as [|n positions IH]; intros vAddr rnd s Hok Hti Hp; cbn [getaddr_loop].
  { exists vAddr, rnd, s. cbn [length]. rewrite Nat.add_0_r. done. }
  inversion_clear Hp as [|? ? Hn Hp']. pose proof Hok as [Hr Ht].
  pose proof (rand_int_range (Z.of_nat (length (vRandom s)) - Z.of_nat n) rnd ltac:(lia)) as Hk.
  destruct (rand_int _ rnd) as [k rnd1]. cbn [fst] in Hk. replace (k + Z.of_nat n) with (Z.of_nat (Z.to_nat k + n)) by lia.
  destruct (SwapRandom_ok s n (Z.to_nat k + n) Hr Hn ltac:(lia)) as (m & -> & Hcore & Hrm). cbn [mbind option_bind].
  set (s1 := set_random _ _). assert (Hok1 : addrman_ok None s1).
  { split; [exact Hrm|]. pose proof (tables_core None s m (eq_sym Hcore) Ht) as T. destruct T. by constructor. }
  assert (Hti1 : times_ok s1).
  { intros id i Hi. destruct (info_core_lookup _ _ Hcore _ _ Hi) as (i0 & Hi0 & Hc). apply core_fields in Hc as (_ & _ & E1 & E2 & E3).
    unfold info_nLastTry. rewrite E1, E2, E3. by apply (Hti id). }
  assert (Hn1 : (n < length (vRandom s1))%nat) by (cbn; by rewrite length_swapped).
  destruct (proj1 (proj1 Hrm n (nthZ (vRandom s1) n)) (lookup_nthZ _ _ Hn1)) as (i & Hi & _).
  change (mapInfo s1 !! nthZ (vRandom s1) n) with (m !! nthZ (vRandom s1) n). rewrite Hi. cbn [mbind option_bind].
  destruct (IH (vAddr ++ [ai_addr i]) rnd1 s1 Hok1 Hti1) as (v & r & s2 & -> & Q1 & Q2 & Q3 & Q4).
  - cbn [s1 set_random vRandom]. by rewrite length_swapped.
  - exists v, r, s2. split_and!; try done. rewrite Q4, length_app. cbn. lia.
Qed.

Lemma GetAddr_ok rnd s :
  addrman_ok None s -> times_ok s ->
  exists v rnd' s', GetAddr_ rnd s = Some (v, rnd', s') /\ addrman_ok None s' /\ times_ok s' /\ nKey s' = nKey s /\ Z.of_nat (length v) <= ADDRMAN_GETADDR_MAX.
Proof.
  intros Hok Hti. unfold GetAddr_. set (n := if _ <? _ then _ else _).
  assert (Hn : 0 <= n <= ADDRMAN_GETADDR_MAX /\ n <= Z.of_nat (length (vRandom s))).
  { unfold n, ADDRMAN_GETADDR_MAX, ADDRMAN_GETADDR_MAX_PCT. set (L := Z.of_nat (length (vRandom s))). assert (0 <= L) by (unfold L; lia).
    assert (23 * L / 100 <= L) by (apply Z.div_le_upper_bound; lia). pose proof (Z.div_pos (23 * L) 100 ltac:(lia) ltac:(lia)).
    destruct (Z.ltb_spec 2500 (23 * L / 100)); lia. }
  destruct (getaddr_loop_ok (seq 0 (Z.to_nat n)) [] rnd s Hok Hti) as (v & r & s' & -> & Q1 & Q2 & Q3 & Q4).
  - apply Forall_forall. intros i Hi. apply elem_of_seq in Hi. lia.
  - exists v, r, s'. split_and!; try done. rewrite Q4, length_seq. cbn. lia.
Qed.

(** ** [Check_] accepts the invariant *)

Lemma check_tried_ok ids (S : gset Z) : NoDup ids -> list_to_set ids = S -> check_tried ids S = Some ∅.
Proof.
  revert S. induction ids as [|x ids IH]; intros S Hd HS; cbn [check_tried]; [by rewrite <- HS|].
  apply NoDup_cons in Hd as [Hx Hd]. rewrite bool_decide_eq_true_2 by (rewrite <- HS; set_solver).
  apply IH; [done|]. rewrite <- HS. set_solver.
Qed.

(** The number of times [id] is in a list *)
Definition occurrences (id : Z) (l : list Z) : nat := length (filter (fun x => x = id) l).

Lemma occurrences_cons id x l : occurrences id (x :: l) = ((if decide (x = id) then 1 else 0) + occurrences id l)%nat.
Proof. unfold occurrences. rewrite filter_cons. by destruct (decide (x = id)). Qed.

Lemma check_new_ok ids (m : gmap Z Z) :
  (forall id, m !! id = (if (occurrences id ids =? 0)%nat then None else Some (Z.of_nat (occurrences id ids)))) -> check_new ids m = Some ∅.
Proof.
  revert m. induction ids as [|x ids IH]; intros m Hm; cbn [check_new].
  { f_equal. apply map_eq. intros id. by rewrite Hm. }
  pose proof (Hm x) as Hx. rewrite occurrences_cons, decide_True in Hx by done. cbn [Nat.add Nat.eqb] in Hx. rewrite Hx.
  apply IH. intros id. specialize (Hm id). rewrite occurrences_cons in Hm. destruct (decide (x = id)) as [<- |Hne].
  - destruct (Nat.eqb_spec (occurrences x ids) 0) as [E|E], (Z.eqb_spec (Z.of_nat (S (occurrences x ids)) - 1) 0); try lia.
    + apply lookup_delete_eq.
    + rewrite lookup_insert_eq. f_equal. lia.
  - cbn [Nat.add] in Hm. rewrite <- Hm. destruct (_ =? 0); [by rewrite lookup_delete_ne|by rewrite lookup_insert_ne].
Qed.

Lemma occurrences_NoDup id l : NoDup l -> occurrences id l = if decide (id ∈ l) then 1%nat else 0%nat.
Proof.
  induction 1 as [|x l Hx Hd IH]; [done|]. rewrite occurrences_cons, IH. destruct (decide (x = id)) as [-> |Hne].
  - rewrite (decide_False (P := id ∈ l)), (decide_True (P := id ∈ id :: l)) by (done || by left). done.
  - destruct (decide (id ∈ l)); [rewrite decide_True by (by right)|rewrite decide_False by (by intros [->|?]%elem_of_cons)]; done.
Qed.

Lemma occurrences_buckets id v : occurrences id (mjoin (items <$> v)) = refs id v.
Proof.
  induction v as [|b v IH]; [done|]. rewrite fmap_cons, refs_cons, <- IH. change (mjoin (items b :: (items <$> v))) with (items b ++ mjoin (items <$> v)).
  unfold occurrences at 1. rewrite filter_app, length_app. f_equal. change (occurrences id (items b) = if decide (id ∈ b) then 1 else 0)%nat.
  rewrite occurrences_NoDup by (unfold items; rewrite merge_sort_Permutation; apply NoDup_elements).
  destruct (decide (id ∈ b)); [rewrite decide_True by (by apply elem_of_items)|rewrite decide_False by (by rewrite elem_of_items)]; done.
Qed.

Lemma first_error_0 errs : Forall (fun e => e = 0) errs -> first_error errs = 0.
Proof. by induction 1 as [|e errs -> _ IH]. Qed.

Lemma check_entry_0 s id info : addrman_ok None s -> times_ok s -> mapInfo s !! id = Some info -> check_entry s id info = 0.
Proof.
  intros [Hr Ht] Hti Hi. destruct (Hti _ _ Hi) as (T1 & T2 & T3). destruct (ok_refs _ _ Ht _ _ Hi) as [_ R].
  unfold check_entry. destruct (random_pos _ _ _ _ Hr Hi) as (p & Hp & Hl & Hlt).
  assert (mapAddr s !! info_ip info = Some id) as -> by (apply (ok_addr _ _ Ht); by exists info).
  rewrite Hp, Nat2Z.id, (nthZ_lookup _ _ _ Hl), (proj2 (Z.ltb_ge _ _) T1), (proj2 (Z.ltb_ge _ _) T2).
  rewrite (proj2 (Z.ltb_ge (Z.of_nat p) 0)), (proj2 (Z.leb_gt _ (Z.of_nat p))) by lia. unfold ADDRMAN_NEW_BUCKETS_PER_ADDRESS.
  destruct (fInTried info).
  - destruct (Z.eqb_spec (nLastSuccess info) 0); [by destruct T3|]. rewrite R. cbn. by rewrite Z.eqb_refl.
  - destruct (Z.ltb_spec (nRefCount info) 0); [lia|]. destruct (Z.ltb_spec 4 (nRefCount info)); [lia|].
    destruct (Z.eqb_spec (nRefCount info) 0); [lia|]. cbn. by rewrite Z.eqb_refl.
Qed.

Lemma Check_ok s : addrman_ok None s -> times_ok s -> Check_ s = 0.
Proof.
  intros Hok Hti. pose proof Hok as [Hr Ht]. unfold Check_. rewrite (addrman_size _ _ Hok), Z.eqb_refl. cbn [negb].
  rewrite first_error_0.
  2: { apply Forall_fmap, Forall_forall. intros id Hid. cbn. destruct (mapInfo s !! id) as [i|] eqn:Ei; [|done]. by apply check_entry_0. }
  cbn [Z.eqb negb]. set (T := filter (fun p => fInTried p.2 = true) (mapInfo s)). set (N := filter (fun p => fInTried p.2 = false) (mapInfo s)).
  assert (HT : list_to_set (mjoin (vvTried s)) = dom T).
  { apply set_eq. intros id. rewrite elem_of_list_to_set, (ok_tried _ _ Ht), elem_of_dom. unfold T. split.
    - intros (i & Hi & Hti'). exists i. by apply map_lookup_filter_Some.
    - intros [i Hi]. apply map_lookup_filter_Some in Hi as [Hi Htr]. by exists i. }
  assert (HsT : Z.of_nat (size (dom T)) = nTried s) by (rewrite <- HT, size_list_to_set, (ok_nTried _ _ Ht); [done|apply (ok_nodup _ _ Ht)]).
  assert (HsN : Z.of_nat (size N) = nNew s).
  { pose proof (ok_nNew _ _ Ht) as Hn. rewrite size_dom in HsT.
    rewrite <- (map_filter_union_complement (fun p => fInTried p.2 = true) (mapInfo s)) in Hn.
    rewrite map_size_disj_union in Hn by apply map_disjoint_filter_complement.
    match type of Hn with context [(_ + size ?m)%nat] => replace m with N in Hn end; [unfold T, N in *; lia|].
    apply map_filter_ext. intros k x _. cbn. destruct (fInTried x); split; congruence. }
  rewrite HsT, map_size_fmap, HsN, !Z.eqb_refl. cbn [negb].
  rewrite (check_tried_ok _ _ (ok_nodup _ _ Ht) HT), check_new_ok.
  - by rewrite map_size_empty, size_empty.
  - intros id. rewrite occurrences_buckets, lookup_fmap. destruct (N !! id) as [i|] eqn:Ei.
    + apply map_lookup_filter_Some in Ei as [Hi Htr]. destruct (ok_refs _ _ Ht _ _ Hi) as [R1 R2]. rewrite decide_False in R1 by done. cbn in Htr.
      rewrite Htr in R2. cbn. destruct (Nat.eqb_spec (refs id (vvNew s)) 0); [lia|]. f_equal. lia.
    + cbn. destruct (Nat.eqb_spec (refs id (vvNew s)) 0) as [|E]; [done|]. exfalso. assert (0 < refs id (vvNew s))%nat as Hp by lia.
      apply refs_bucket in Hp as (b & v & Hv & Hin). destruct (ok_new _ _ Ht b id) as [i Hi]; [unfold new_bucket; by rewrite Hv|].
      destruct (ok_refs _ _ Ht _ _ Hi) as [R1 R2]. rewrite decide_False in R1 by done.
      assert (N !! id = Some i) as Hc; [|by rewrite Ei in Hc]. apply map_lookup_filter_Some. split; [done|]. cbn. destruct (fInTried i); [lia|done].
Qed.

(** ** Histories *)

(** The public operations, with the time they see *)
Inductive addr_op :=
  | OpAdd (nNow : Z) (vAddr : list CAddress) (src : CNetAddr) (nTimePenalty : Z)
  | OpGood (addr : CService) (nTime : Z)
  | OpAttempt (addr : CService) (nTime : Z)
  | OpConnected (addr : CService) (nTime : Z)
  | OpGetAddr.

Definition run_op (op : addr_op) (rnd : list Z) (s : CAddrMan) : option (list Z * CAddrMan) :=
  match op with
  | OpAdd nNow vAddr src penalty => '(_, rnd, s) ← Add_many nNow vAddr src penalty rnd s; Some (rnd, s)
  | OpGood addr nTime => Good_ addr nTime rnd s
  | OpAttempt addr nTime => Some (rnd, Attempt_ addr nTime s)
  | OpConnected addr nTime => Some (rnd, Connected_ addr nTime s)
  | OpGetAddr => '(_, rnd, s) ← GetAddr_ rnd s; Some (rnd, s)
  end.

Fixpoint run_ops (ops : list addr_op) (rnd : list Z) (s : CAddrMan) : option (list Z * CAddrMan) :=
  match ops with
  | [] => Some (rnd, s)
  | op :: r => '(rnd, s) ← run_op op rnd s; run_ops r rnd s
  end.

(** Clocks after 1970 *)
Definition op_time_ok (op : addr_op) : Prop :=
  match op with
  | OpGood _ t => 0 < t
  | OpAttempt _ t => 0 <= t
  | _ => True
  end.

(** How many entries an operation can create *)
Definition adds (op : addr_op) : Z := match op with OpAdd _ vAddr _ _ => Z.of_nat (length vAddr) | _ => 0 end.
Definition added (ops : list addr_op) : Z := foldr (fun op n => adds op + n) 0 ops.

Lemma adds_nonneg op : 0 <= adds op.
Proof. destruct op; cbn; lia. Qed.
Lemma added_nonneg ops : 0 <= added ops.
Proof. induction ops as [|op ops IH]; [done|]. cbn. pose proof (adds_nonneg op). fold (added ops). lia. Qed.

(** *** What counts the ids: only [Create] *)

Lemma SwapRandom_count i j s s' : SwapRandom i j s = Some s' -> nIdCount s' = nIdCount s.
Proof. unfold SwapRandom. case_goal; [by intros [= <-]|]. case_goal; [done|]. intros (? & _ & (? & _ & He)%bind_Some)%bind_Some. by injection He as <-. Qed.

Lemma drop_ref_count b id s s' : drop_ref b id s = Some s' -> nIdCount s' = nIdCount s.
Proof.
  unfold drop_ref. intros (info & _ & (s1 & H1 & He)%bind_Some)%bind_Some. injection He as <-. case_hyp H1; [|by injection H1 as <-].
  apply bind_Some in H1 as (s2 & H2 & He). injection He as <-. by apply SwapRandom_count in H2.
Qed.

Lemma ShrinkNew_count nNow b rnd s n rnd' s' : ShrinkNew nNow b rnd s = Some (n, rnd', s') -> nIdCount s' = nIdCount s.
Proof.
  unfold ShrinkNew. case_goal; [done|]. intros ([id|] & _ & He)%bind_Some.
  - apply bind_Some in He as (s1 & H1 & He). injection He as _ _ <-. by eapply drop_ref_count.
  - repeat match type of He with context [rand_int ?a ?b] => destruct (rand_int a b) end. apply bind_Some in He as (? & _ & (s1 & H1 & He)%bind_Some).
    injection He as _ _ <-. by eapply drop_ref_count.
Qed.

Lemma place_count nNow src id rnd s rnd' s' : place nNow src id rnd s = Some (rnd', s') -> nIdCount s' = nIdCount s.
Proof.
  unfold place. intros (info & _ & He)%bind_Some. case_hyp He; [by injection He as _ <-|]. apply bind_Some in He as ([r s1] & H1 & He).
  injection He as _ <-. change (nIdCount s1 = nIdCount s). case_hyp H1; [|by injection H1 as _ <-].
  apply bind_Some in H1 as ([[n r1] s2] & H2 & He). injection He as _ <-. by apply ShrinkNew_count in H2.
Qed.

Lemma Add_count nNow addr src penalty rnd s f rnd' s' :
  Add_ nNow addr src penalty rnd s = Some (f, rnd', s') -> nIdCount s' = nIdCount s \/ nIdCount s' = i32 (nIdCount s + 1).
Proof.
  unfold Add_. case_goal; [by intros [= _ _ <-]; left|]. destruct (Find _ s) as [[id info]|].
  - do 3 (case_goal; [by intros [= _ _ <-]; left|]). destruct (if 1 <? _ then _ else _) as [skip r]. destruct skip; [by intros [= _ _ <-]; left|].
    intros ([r1 s1] & H1 & He)%bind_Some. injection He as _ _ <-. left. by apply place_count in H1.
  - cbn [Create]. intros ([r1 s1] & H1 & He)%bind_Some. injection He as _ _ <-. right. by apply place_count in H1.
Qed.

Lemma MakeTried_count id b rnd s rnd' s' : MakeTried id b rnd s = Some (rnd', s') -> nIdCount s' = nIdCount s.
Proof.
  unfold MakeTried. case_goal; [done|]. intros (info & _ & He)%bind_Some. case_hyp He; [done|]. unfold enter_tried in He.
  case_hyp He; [by injection He as _ <-|]. apply bind_Some in He as ([[n r] s1] & H1 & (io & _ & He)%bind_Some). injection He as _ <-.
  change (nIdCount s1 = nIdCount s). unfold SelectTried in H1. apply bind_Some in H1 as ([[[v o] p] r1] & _ & He). by injection He as _ _ <-.
Qed.

Lemma Good_count addr t rnd s rnd' s' : Good_ addr t rnd s = Some (rnd', s') -> nIdCount s' = nIdCount s.
Proof.
  unfold Good_. destruct (Find _ s) as [[id info]|]; [|by intros [= _ <-]]. do 2 (case_goal; [by intros [= _ <-]|]).
  destruct (rand_int _ rnd). destruct (find_bucket _ _ _); [|by intros [= _ <-]]. by intros ?%MakeTried_count.
Qed.

Lemma getaddr_count l v rnd s v' rnd' s' : getaddr_loop l v rnd s = Some (v', rnd', s') -> nIdCount s' = nIdCount s.
Proof.
  revert v rnd s. induction l as [|n l IH]; intros v rnd s; cbn [getaddr_loop]; [by intros [= _ _ <-]|]. destruct (rand_int _ rnd).
  intros (s1 & H1 & (info & _ & Hr)%bind_Some)%bind_Some. apply IH in Hr. by rewrite Hr, (SwapRandom_count _ _ _ _ H1).
Qed.

Lemma Attempt_count addr t s : nIdCount (Attempt_ addr t s) = nIdCount s.
Proof. unfold Attempt_. destruct (Find _ s) as [[id info]|]; [|done]. by case_goal. Qed.
Lemma Connected_count addr t s : nIdCount (Connected_ addr t s) = nIdCount s.
Proof. unfold Connected_. destruct (Find _ s) as [[id info]|]; [|done]. by repeat case_goal. Qed.

Lemma Add_ok nNow addr src penalty rnd s :
  addrman_ok None s -> times_ok s -> nIdCount s + 1 < 2 ^ 31 ->
  exists fRet rnd' s', Add_ nNow addr src penalty rnd s = Some (fRet, rnd', s') /\ addrman_ok None s' /\ times_ok s'.
Proof.
  intros Hok Hti Hcount. destruct (IsRoutable (sv_ip (ad_service addr))) eqn:Er.
  - destruct (Find (sv_ip (ad_service addr)) s) as [[n i]|] eqn:Ef.
    + destruct (Add_known nNow addr src penalty rnd s n i Hok Hti Er Ef) as (r & s' & -> & ? & ? & _). by exists false, r, s'.
    + destruct (Add_new nNow addr src penalty rnd s Hok Hti Hcount Er Ef) as (r & s' & -> & ? & ? & _). by exists true, r, s'.
  - exists false, rnd, s. unfold Add_. by rewrite Er.
Qed.

Lemma Add_loop_ok nNow vAddr src penalty nAdd rnd s :
  addrman_ok None s -> times_ok s -> nIdCount s + Z.of_nat (length vAddr) < 2 ^ 31 ->
  exists n rnd' s', Add_loop nNow vAddr src penalty nAdd rnd s = Some (n, rnd', s') /\ addrman_ok None s' /\ times_ok s' /\
    nIdCount s' <= nIdCount s + Z.of_nat (length vAddr).
Proof.
  revert nAdd rnd s. induction vAddr as [|a vAddr IH]; intros nAdd rnd s Hok Hti Hcount; cbn [Add_loop length] in *.
  { exists nAdd, rnd, s. split_and!; try done. lia. }
  destruct (Add_ok nNow a src penalty rnd s Hok Hti) as (f & r & s' & E & Hok' & Hti'); [lia|]. rewrite E. cbn [mbind option_bind].
  assert (nIdCount s' <= nIdCount s + 1).
  { pose proof (ok_count _ _ (proj2 Hok)). destruct (Add_count _ _ _ _ _ _ _ _ _ E) as [->| ->]; [lia|]. rewrite swrap_small by lia. lia. }
  destruct (IH (nAdd + if f then 1 else 0) r s' Hok' Hti') as (n & r' & s2 & -> & ? & ? & ?); [lia|]. exists n, r', s2. split_and!; try done. lia.
Qed.

Lemma run_op_ok op rnd s :
  addrman_ok None s -> times_ok s -> op_time_ok op -> nIdCount s + adds op < 2 ^ 31 ->
  exists rnd' s', run_op op rnd s = Some (rnd', s') /\ addrman_ok None s' /\ times_ok s' /\ nIdCount s' <= nIdCount s + adds op.
Proof.
  intros Hok Hti Ho Hcount. destruct op as [nNow vAddr src penalty|addr t|addr t|addr t|]; cbn [run_op adds] in *; rewrite ?Z.add_0_r.
  - unfold Add_many. destruct (Add_loop_ok nNow vAddr src penalty 0 rnd s Hok Hti Hcount) as (n & r & s' & -> & ? & ? & ?). by exists r, s'.
  - destruct (Good_ok addr t rnd s Hok Hti Ho) as (r & s' & E & ? & ? & _). exists r, s'. split_and!; try done. by rewrite (Good_count _ _ _ _ _ _ E).
  - exists rnd, (Attempt_ addr t s). split; [done|]. rewrite Attempt_count. destruct (Attempt_ok addr t s) as [??]; [done..|]. by split_and!.
  - exists rnd, (Connected_ addr t s). split; [done|]. rewrite Connected_count. destruct (Connected_ok addr t s) as [??]; [done..|]. by split_and!.
  - destruct (GetAddr_ok rnd s Hok Hti) as (v & r & s' & E & ? & ? & _). rewrite E. exists r, s'. split_and!; try done. by rewrite (getaddr_count _ _ _ _ _ _ _ E).
Qed.

Lemma CAddrMan_new_ok key : addrman_ok None (CAddrMan_new key) /\ times_ok (CAddrMan_new key).
Proof.
  assert (Hj : mjoin (replicate ADDRMAN_TRIED_BUCKET_COUNT ([] : list Z)) = []) by done.
  split; [split; [split|]|done].
  - intros i id. cbn. rewrite lookup_nil. split; [done|]. by intros (x & Hx & _).
  - done.
  - constructor; cbn [CAddrMan_new mapInfo mapAddr vvNew vvTried nTried nNew nIdCount]; rewrite ?Hj; try done.
    + intros k id. split; [done|]. by intros (x & Hx & _).
    + by intros id [x Hx].
    + intros b id Hin. unfold new_bucket in Hin. cbn [CAddrMan_new vvNew] in Hin.
      destruct (replicate ADDRMAN_NEW_BUCKET_COUNT (∅ : gset Z) !! b) as [v|] eqn:Ev; [apply lookup_replicate in Ev as [-> _]|];
        by apply not_elem_of_empty in Hin.
    + intros id. split; [by intros ?%not_elem_of_nil|by intros (x & Hx & _)].
    + constructor.
    + split; [done|]. apply Forall_replicate. cbn. lia.
    + split; [by rewrite length_replicate|]. apply Forall_replicate. rewrite size_empty. unfold ADDRMAN_NEW_BUCKET_SIZE. lia.
Qed.

Lemma run_ops_ok ops rnd s :
  addrman_ok None s -> times_ok s -> Forall op_time_ok ops -> nIdCount s + added ops < 2 ^ 31 ->
  exists rnd' s', run_ops ops rnd s = Some (rnd', s') /\ addrman_ok None s' /\ times_ok s' /\ nIdCount s' <= nIdCount s + added ops.
Proof.
  intros Hok Hti Ho. revert rnd s Hok Hti. induction Ho as [|op ops Hop Ho IH]; intros rnd s Hok Hti Hcount; cbn [run_ops added foldr] in *.
  { exists rnd, s. split_and!; try done. lia. }
  fold (added ops) in *. pose proof (added_nonneg ops). destruct (run_op_ok op rnd s Hok Hti Hop) as (r & s' & -> & Hok' & Hti' & Hc'); [lia|].
  cbn [mbind option_bind]. destruct (IH r s' Hok' Hti') as (r' & s2 & -> & ? & ? & ?); [lia|]. exists r', s2. split_and!; try done. lia.
Qed.

(** The managers the operations lead to *)
Lemma reached_ok key ops rnd0 rnd s :
  Forall op_time_ok ops -> added ops < 2 ^ 31 -> run_ops ops rnd0 (CAddrMan_new key) = Some (rnd, s) ->
  addrman_ok None s /\ times_ok s /\ nIdCount s <= added ops.
Proof.
  intros Ho Hn Hr. destruct (CAddrMan_new_ok key) as [Hok Hti]. destruct (run_ops_ok ops rnd0 _ Hok Hti Ho Hn) as (r & s' & E & ? & ? & ?).
  rewrite Hr in E. injection E as -> ->. by split_and!.
Qed.

(** [Select_] takes an entry of the manager. *)
Lemma lookup_mod {A} (l : list A) p : length l <> 0%nat -> exists x, l !! Z.to_nat (p mod Z.of_nat (length l)) = Some x.
Proof. intros Hl. apply lookup_lt_is_Some_2. pose proof (Z.mod_pos_bound p (Z.of_nat (length l))). lia. Qed.

Lemma select_tried_known rounds s :
  addrman_ok None s ->
  exists r, select_tried_loop rounds s = Some r /\
    (forall a, r = Some a -> exists id info, mapInfo s !! id = Some info /\ fInTried info = true /\ ai_addr info = a).
Proof.
  intros Hok. pose proof Hok as [_ Ht]. induction rounds as [|[[b p] t] rounds IH]; cbn [select_tried_loop]; [by exists None|].
  set (v := tried_bucket s _). destruct (Nat.eqb_spec (length v) 0) as [|Hl]; [done|]. destruct (lookup_mod v p Hl) as [id Hid].
  rewrite (nthZ_lookup _ _ _ Hid). assert (Hin : id ∈ mjoin (vvTried s)).
  { apply list_elem_of_join. exists v. split; [by eapply list_elem_of_lookup_2|]. unfold v, tried_bucket in *.
    destruct (vvTried s !! _) as [l|] eqn:El; [by eapply list_elem_of_lookup_2|done]. }
  apply (ok_tried _ _ Ht) in Hin as (info & Hi & Htr). rewrite Hi. cbn [mbind option_bind]. destruct t; [|done].
  exists (Some (ai_addr info)). split; [done|]. intros a [= <-]. by exists id, info.
Qed.

Lemma select_new_known rounds s :
  addrman_ok None s ->
  exists r, select_new_loop rounds s = Some r /\
    (forall a, r = Some a -> exists id info, mapInfo s !! id = Some info /\ fInTried info = false /\ ai_addr info = a).
Proof.
  intros Hok. pose proof Hok as [_ Ht]. induction rounds as [|[[b p] t] rounds IH]; cbn [select_new_loop]; [by exists None|].
  set (n := Z.to_nat (b mod _)). set (v := items (new_bucket s n)). destruct (Nat.eqb_spec (length v) 0) as [|Hl]; [done|].
  destruct (lookup_mod v p Hl) as [id Hid]. rewrite (nthZ_lookup _ _ _ Hid).
  assert (Hin : id ∈ new_bucket s n) by (apply elem_of_items; by eapply list_elem_of_lookup_2).
  destruct (ok_new _ _ Ht _ _ Hin) as [info Hi]. rewrite Hi. cbn [mbind option_bind]. destruct t; [|done].
  exists (Some (ai_addr info)). split; [done|]. intros a [= <-]. exists id, info. split_and!; try done.
  destruct (ok_refs _ _ Ht _ _ Hi) as [R1 R2]. rewrite decide_False in R1 by done. pose proof (refs_new_bucket _ _ _ Hin).
  destruct (fInTried info); [lia|done].
Qed.

Lemma Select_known fUseTried rounds s :
  addrman_ok None s -> am_size s <> 0%nat ->
  exists r, Select_ fUseTried rounds s = Some r /\
    (forall a, r = Some a -> exists id info, mapInfo s !! id = Some info /\ fInTried info = fUseTried /\ ai_addr info = a).
Proof.
  intros Hok Hn. unfold Select_. destruct (Nat.eqb_spec (am_size s) 0); [done|].
  destruct fUseTried; [by apply select_tried_known|by apply select_new_known].
Qed.
End operations_facts.

(** ** Properties *)

(** C28: from an empty address manager no history of [Add], [Good], [Attempt], [Connected]
    and [GetAddr], with any key, any addresses and any random samples, fails an assertion
    of the code; the consistency check [Check_] of the debug build (ids, reference counts,
    positions in [vRandom], contents of the tried and new buckets, times) answers 0 after
    it; and the manager holds at most [64*64 + 256*64] addresses.  Fewer than 2^31
    addresses are added in all: the ids are counted in an [int]. *)
Theorem addrman_consistent {H : HashOps} key ops rnd :
  Forall op_time_ok ops -> added ops < 2 ^ 31 ->
  exists rnd' s, run_ops ops rnd (CAddrMan_new key) = Some (rnd', s) /\ Check_ s = 0 /\ (length (vRandom s) <= ADDRMAN_MAX)%nat.
Proof.
  intros Ho Hn. destruct (CAddrMan_new_ok key) as [Hok Hti]. destruct (run_ops_ok ops rnd _ Hok Hti Ho Hn) as (r & s & E & Hs & Hst & _).
  exists r, s. split; [done|]. split; [by apply Check_ok|]. pose proof (addrman_bound _ _ Hs) as Hb. rewrite Nat.add_0_r in Hb. exact Hb.
Qed.

(** A hash for the examples *)
#[local] Instance sum_hash : HashOps := {|
  SHA1 := fun _ => replicate 20 0;
  SHA256 := fun bs => u8 (foldr Z.add 0 bs) :: replicate 31 0;
  RIPEMD160 := fun _ => replicate 20 0 |}.

Definition toy_peer (a b : Z) : CService := mkService (CNetAddr_of_ipv4 [a; b; 3; 4]) 7372.
Definition toy_address (a b : Z) : CAddress := mkAddress (toy_peer a b) 1 1600000000 0.
Definition toy_ops : list addr_op :=
  [OpAdd 1600000100 [toy_address 8 8; toy_address 9 9; toy_address 10 1] (CNetAddr_of_ipv4 [5; 6; 7; 8]) 0;
   OpGood (toy_peer 8 8) 1600000200; OpAttempt (toy_peer 9 9) 1600000300; OpConnected (toy_peer 8 8) 1600009000;
   OpAdd 1600000400 [toy_address 9 9; toy_address 11 2] (CNetAddr_of_ipv4 [15; 6; 7; 8]) 7200; OpGetAddr].

Lemma toy_ops_ok : Forall op_time_ok toy_ops.
Proof. unfold toy_ops. rewrite !Forall_cons, Forall_nil. by cbn. Qed.

Lemma addrman_consistent_witness :
  Forall op_time_ok toy_ops /\
  exists rnd' s, run_ops toy_ops [3; 1; 4; 1; 5; 9; 2; 6] (CAddrMan_new [1; 2]) = Some (rnd', s) /\
    Check_ s = 0 /\ (length (vRandom s) <= ADDRMAN_MAX)%nat.
Proof.
  split; [exact toy_ops_ok|]. exact (addrman_consistent [1; 2] toy_ops [3; 1; 4; 1; 5; 9; 2; 6] toy_ops_ok eq_refl).
Defined.

(** In a manager that a history led to, [Add] of an address that is not routable
    changes nothing, and of a routable one leaves it findable, answering true just when it
    was not before; [Good] of a known service whose port agrees leaves its entry tried,
    with the time as its last success; [Select] returns, without a failed assertion, only
    addresses of the manager, from the table it was told to use; [GetAddr] returns at most
    2,500 addresses. *)
Theorem addrman_operations {H : HashOps} key ops rnd0 rnd s :
  Forall op_time_ok ops -> added ops + 1 < 2 ^ 31 -> run_ops ops rnd0 (CAddrMan_new key) = Some (rnd, s) ->
  (forall nNow addr src penalty, let ip := sv_ip (ad_service addr) in
    if IsRoutable ip
    then exists rnd' s', Add_ nNow addr src penalty rnd s = Some (bool_decide (Find ip s = None), rnd', s') /\ is_Some (Find ip s')
    else Add_ nNow addr src penalty rnd s = Some (false, rnd, s)) /\
  (forall addr nTime nId info, 0 < nTime -> Find (sv_ip addr) s = Some (nId, info) -> service_ne (ad_service (ai_addr info)) addr = false ->
    exists rnd' s' info', Good_ addr nTime rnd s = Some (rnd', s') /\ Find (sv_ip addr) s' = Some (nId, info') /\
      fInTried info' = true /\ nLastSuccess info' = nTime) /\
  (forall fUseTried rounds, am_size s <> 0%nat ->
    exists r, Select_ fUseTried rounds s = Some r /\
      (forall a, r = Some a -> exists id info, mapInfo s !! id = Some info /\ fInTried info = fUseTried /\ ai_addr info = a)) /\
  (exists v rnd' s', GetAddr_ rnd s = Some (v, rnd', s') /\ Z.of_nat (length v) <= ADDRMAN_GETADDR_MAX).
Proof.
  intros Ho Hadd Hr. destruct (reached_ok _ _ _ _ _ Ho ltac:(lia) Hr) as (Hok & Hti & Hc). split_and!.
  - intros nNow addr src penalty. cbn zeta. set (ip := sv_ip (ad_service addr)) in *. destruct (IsRoutable ip) eqn:Er; [|unfold Add_; fold ip; by rewrite Er].
    destruct (Find ip s) as [[n i]|] eqn:Ef.
    + destruct (Add_known nNow addr src penalty rnd s n i Hok Hti Er Ef) as (r & s' & E & G). exists r, s'. split; [exact E|apply G].
    + destruct (Add_new nNow addr src penalty rnd s Hok Hti ltac:(lia) Er Ef) as (r & s' & E & G). exists r, s'. split; [exact E|apply G].
  - intros addr nTime nId info Hn Ef Es. destruct (Good_ok addr nTime rnd s Hok Hti Hn) as (r & s' & E & _ & _ & _ & F).
    destruct (F _ _ Ef Es) as (i' & ? & ? & ?). by exists r, s', i'.
  - intros fUseTried rounds. by apply Select_known.
  - destruct (GetAddr_ok rnd s Hok Hti) as (v & r & s' & E & _ & _ & _ & Hl). by exists v, r, s'.
Qed.

Lemma addrman_operations_witness :
  exists rnd s, run_ops toy_ops [3; 1; 4; 1; 5; 9; 2; 6] (CAddrMan_new [1; 2]) = Some (rnd, s) /\
    (exists r, Select_ true [(0, 0, false); (7, 1, true)] s = Some r) /\
    (exists v rnd' s', GetAddr_ rnd s = Some (v, rnd', s') /\ Z.of_nat (length v) <= ADDRMAN_GETADDR_MAX).
Proof.
  destruct (run_ops toy_ops [3; 1; 4; 1; 5; 9; 2; 6] (CAddrMan_new [1; 2])) as [[rnd s]|] eqn:E.
  - exists rnd, s. split; [reflexivity|].
    destruct (addrman_operations [1; 2] toy_ops [3; 1; 4; 1; 5; 9; 2; 6] rnd s toy_ops_ok eq_refl E) as (_ & _ & A & B).
    split; [|exact B]. assert (Hn : am_size s <> 0%nat).
    { intros Hz. assert (Ht : option_map (fun p => am_size p.2) (run_ops toy_ops [3; 1; 4; 1; 5; 9; 2; 6] (CAddrMan_new [1; 2])) = Some 3%nat)
        by (vm_compute; reflexivity). rewrite E in Ht. cbn in Ht. congruence. }
    destruct (A true [(0, 0, false); (7, 1, true)] Hn) as (r & Hr & _). by exists r.
  - exfalso. assert (Ht : option_map (fun p => am_size p.2) (run_ops toy_ops [3; 1; 4; 1; 5; 9; 2; 6] (CAddrMan_new [1; 2])) = Some 3%nat)
      by (vm_compute; reflexivity). by rewrite E in Ht.
Defined.
