(* ===== verification/KeyPool.v ===== *)
(** * The keys of a wallet ([wallet.h], [wallet.cpp], [walletdb.h]): new keys, the records
    of the wallet file, and the pool of keys kept in reserve *)

From stdpp Require Import sorting.
From S2P Require Import Prelude.
From S2P Require Import Uint256.
From S2P Require Import Hash.
From S2P Require Import Script.
From S2P Require Import Key.
From S2P Require Import Templates.
From S2P Require Import KeyStore.

(** [CKeyPool]: a key of the pool and when it was made *)
Record CKeyPool := mkKeyPool { kp_nTime : Z; vchPubKey : list Z }.

(** ** The wallet file *)

(** The records of [CWalletDB] about keys.  [db_open]: the file could be opened, and
    writing to it works. *)
Record WalletDB := mkWalletDB {
  db_open : bool;
  db_keymeta : gmap (list Z) Z;          (** "keymeta": when a key was created *)
  db_key : gmap (list Z) (list Z);       (** "key" *)
  db_ckey : gmap (list Z) (list Z);      (** "ckey" *)
  db_cscript : gmap (list Z) (list Z);   (** "cscript" *)
  db_watch : gset (list Z);              (** "watchs" *)
  db_pool : gmap Z CKeyPool;             (** "pool" *)
  db_minversion : option Z               (** "minversion" *)
}.

Definition db_set_keys meta key ckey (d : WalletDB) : WalletDB :=
  mkWalletDB (db_open d) meta key ckey (db_cscript d) (db_watch d) (db_pool d) (db_minversion d).
Definition db_set_pool (p : gmap Z CKeyPool) (d : WalletDB) : WalletDB :=
  mkWalletDB (db_open d) (db_keymeta d) (db_key d) (db_ckey d) (db_cscript d) (db_watch d) p (db_minversion d).

(** A record is written; without [fOverwrite] only if there is none under the key. *)
Definition WriteKey (pub priv : list Z) (meta : Z) (d : WalletDB) : bool * WalletDB :=
  if negb (db_open d) then (false, d)
  else
    let d := db_set_keys (<[pub := meta]> (db_keymeta d)) (db_key d) (db_ckey d) d in
    if bool_decide (is_Some (db_key d !! pub)) then (false, d)
    else (true, db_set_keys (db_keymeta d) (<[pub := priv]> (db_key d)) (db_ckey d) d).

Definition WriteCryptedKey (pub crypted : list Z) (meta : Z) (d : WalletDB) : bool * WalletDB :=
  if negb (db_open d) then (false, d)
  else
    let d := db_set_keys (<[pub := meta]> (db_keymeta d)) (db_key d) (db_ckey d) d in
    if bool_decide (is_Some (db_ckey d !! pub)) then (false, d)
    else (true, db_set_keys (db_keymeta d) (delete pub (db_key d)) (<[pub := crypted]> (db_ckey d)) d).

Definition WriteCScript (hash script : list Z) (d : WalletDB) : bool * WalletDB :=
  if negb (db_open d) then (false, d)
  else if bool_decide (is_Some (db_cscript d !! hash)) then (false, d)
  else (true, mkWalletDB (db_open d) (db_keymeta d) (db_key d) (db_ckey d) (<[hash := script]> (db_cscript d)) (db_watch d)
                (db_pool d) (db_minversion d)).

Definition WriteWatchOnly (dest : list Z) (d : WalletDB) : bool * WalletDB :=
  if negb (db_open d) then (false, d)
  else (true, mkWalletDB (db_open d) (db_keymeta d) (db_key d) (db_ckey d) (db_cscript d) ({[dest]} ∪ db_watch d)
                (db_pool d) (db_minversion d)).

Definition ReadPool (nPool : Z) (d : WalletDB) : option CKeyPool := if negb (db_open d) then None else db_pool d !! nPool.
Definition WritePool (nPool : Z) (keypool : CKeyPool) (d : WalletDB) : bool * WalletDB :=
  if negb (db_open d) then (false, d) else (true, db_set_pool (<[nPool := keypool]> (db_pool d)) d).
Definition ErasePool (nPool : Z) (d : WalletDB) : WalletDB :=
  if negb (db_open d) then d else db_set_pool (delete nPool (db_pool d)) d.

Definition WriteMinVersion (nVersion : Z) (d : WalletDB) : WalletDB :=
  if negb (db_open d) then d
  else mkWalletDB (db_open d) (db_keymeta d) (db_key d) (db_ckey d) (db_cscript d) (db_watch d) (db_pool d) (Some nVersion).

(** ** The wallet's keys *)

Definition FEATURE_BASE : Z := 10500.
Definition FEATURE_WALLETCRYPT : Z := 40000.
Definition FEATURE_COMPRPUBKEY : Z := 60000.
Definition FEATURE_LATEST : Z := 60002.

Definition MAX_SCRIPT_ELEMENT_SIZE : Z := 520.

(** How a call ends that changes a state: with a value, or by throwing (a failed assertion
    is counted as that); in both cases the changes made so far stay. *)
Inductive call (W A : Type) :=
  | Returned (x : A) (w : W)
  | Thrown (w : W).
Arguments Returned {W A} x w.
Arguments Thrown {W A} w.

Definition call_bind {W A B} (m : call W A) (k : A -> W -> call W B) : call W B :=
  match m with Returned x w => k x w | Thrown w => Thrown w end.
Notation "'let!' x , w := m 'in' k" := (call_bind m (fun x w => k)) (at level 10, x name, w name, m at level 200, k at level 200) : hbn_scope.

Section wallet_keys.
Context {E : ECOps} {S : ECSecretOps E} {C : CipherOps} {H : HashOps}.
(** OpenSSL: the keys [EC_KEY_generate_key] will make, one for each call, and the
    encoding of a private key *)
Context (EC_KEY_generate_key : nat -> EC_KEY) (i2d_ECPrivateKey : EC_KEY -> list Z).

(** The part of [CWallet] about keys; [drawn] counts the keys generated *)
Record WalletKeys := mkKeys {
  store : CCryptoKeyStore;
  fFileBacked : bool;
  nWalletVersion : Z;
  nWalletMaxVersion : Z;
  mapKeyMetadata : gmap (list Z) Z;
  nTimeFirstKey : Z;
  vchDefaultKey : list Z;
  setKeyPool : gset Z;
  walletdb : WalletDB;
  drawn : nat
}.

Definition with_store s (w : WalletKeys) := mkKeys s (fFileBacked w) (nWalletVersion w) (nWalletMaxVersion w)
  (mapKeyMetadata w) (nTimeFirstKey w) (vchDefaultKey w) (setKeyPool w) (walletdb w) (drawn w).
Definition with_versions v m (w : WalletKeys) := mkKeys (store w) (fFileBacked w) v m
  (mapKeyMetadata w) (nTimeFirstKey w) (vchDefaultKey w) (setKeyPool w) (walletdb w) (drawn w).
Definition with_metadata m t (w : WalletKeys) := mkKeys (store w) (fFileBacked w) (nWalletVersion w) (nWalletMaxVersion w)
  m t (vchDefaultKey w) (setKeyPool w) (walletdb w) (drawn w).
Definition with_pool p (w : WalletKeys) := mkKeys (store w) (fFileBacked w) (nWalletVersion w) (nWalletMaxVersion w)
  (mapKeyMetadata w) (nTimeFirstKey w) (vchDefaultKey w) p (walletdb w) (drawn w).
Definition with_db d (w : WalletKeys) := mkKeys (store w) (fFileBacked w) (nWalletVersion w) (nWalletMaxVersion w)
  (mapKeyMetadata w) (nTimeFirstKey w) (vchDefaultKey w) (setKeyPool w) d (drawn w).
Definition with_drawn n (w : WalletKeys) := mkKeys (store w) (fFileBacked w) (nWalletVersion w) (nWalletMaxVersion w)
  (mapKeyMetadata w) (nTimeFirstKey w) (vchDefaultKey w) (setKeyPool w) (walletdb w) n.

Definition wallet_empty (fFileBackedIn : bool) (d : WalletDB) : WalletKeys :=
  mkKeys crypto_empty fFileBackedIn FEATURE_BASE FEATURE_BASE ∅ 0 [] ∅ d 0.

Definition CanSupportFeature (wf : Z) (w : WalletKeys) : bool := wf <=? nWalletMaxVersion w.

Definition SetMinVersion (nVersion : Z) (fExplicit : bool) (w : WalletKeys) : WalletKeys :=
  if nVersion <=? nWalletVersion w then w
  else
    let nVersion := if fExplicit && (nWalletMaxVersion w <? nVersion) then FEATURE_LATEST else nVersion in
    let w := with_versions nVersion (if nWalletMaxVersion w <? nVersion then nVersion else nWalletMaxVersion w) w in
    if fFileBacked w && (40000 <? nWalletVersion w) then with_db (WriteMinVersion (nWalletVersion w) (walletdb w)) w else w.

Definition SetMaxVersion (nVersion : Z) (w : WalletKeys) : bool * WalletKeys :=
  if nVersion <? nWalletVersion w then (false, w) else (true, with_versions (nWalletVersion w) nVersion w).

Definition LoadMinVersion (nVersion : Z) (w : WalletKeys) : WalletKeys :=
  with_versions nVersion (Z.max (nWalletMaxVersion w) nVersion) w.

(** [mapKeyMetadata[id]]: its value, and the entry that [operator[]] makes when there is none *)
Definition metadata (id : list Z) (w : WalletKeys) : Z := default 0 (mapKeyMetadata w !! id).
Definition touch_metadata (id : list Z) (w : WalletKeys) : WalletKeys :=
  with_metadata (<[id := metadata id w]> (mapKeyMetadata w)) (nTimeFirstKey w) w.

Definition wallet_AddCryptedKey (pub crypted : list Z) (w : WalletKeys) : bool * WalletKeys :=
  let '(ok, s) := AddCryptedKey (store w) pub crypted in
  let w := with_store s w in
  if negb ok then (false, w)
  else if negb (fFileBacked w) then (true, w)
  else
    let meta := metadata (CPubKey_GetID pub) w in
    let w := touch_metadata (CPubKey_GetID pub) w in
    let '(ok, d) := WriteCryptedKey pub crypted meta (walletdb w) in (ok, with_db d w).

(** [CWallet::AddKey].  In an encrypted store [CCryptoKeyStore::AddKey] ends in the virtual
    [AddCryptedKey], which the wallet extends by writing what it stored.  [None]: it throws *)
Definition wallet_AddKey (key : CKey) (w : WalletKeys) : option (bool * WalletKeys) :=
  pub ← GetPubKey key;
  '(ok, s) ← crypto_AddKey (store w) key;
  let fCrypted := IsCrypted (store w) in
  let w := with_store s w in
  if negb ok then Some (false, w)
  else if negb (fFileBacked w) then Some (true, w)
  else
    let meta := metadata (CPubKey_GetID pub) w in
    let w := touch_metadata (CPubKey_GetID pub) w in
    let '(ok, d) :=
      if fCrypted then
        match mapCryptedKeys s !! CPubKey_GetID pub with
        | Some (_, crypted) => WriteCryptedKey pub crypted meta (walletdb w)
        | None => (true, walletdb w)
        end
      else WriteKey pub (i2d_ECPrivateKey (pkey key)) meta (walletdb w) in
    Some (ok, with_db d w).

(** [CKey::MakeNewKey] on the key OpenSSL generates *)
Definition MakeNewKey (fCompressed : bool) (p : EC_KEY) : CKey :=
  let k := mkKey p true false in
  if fCompressed then SetCompressedPubKey k else k.

(** [GenerateNewKey] at time [now]: the public key.  [wallet_AddKey] throws before it
    changes anything. *)
Definition GenerateNewKey (now : Z) (w : WalletKeys) : call WalletKeys (list Z) :=
  let fCompressed := CanSupportFeature FEATURE_COMPRPUBKEY w in
  let key := MakeNewKey fCompressed (EC_KEY_generate_key (drawn w)) in
  let w := with_drawn (drawn w + 1) w in
  let w := if fCompressed then SetMinVersion FEATURE_COMPRPUBKEY false w else w in
  match GetPubKey key with
  | None => Thrown w
  | Some pub =>
      let w := with_metadata (<[CPubKey_GetID pub := now]> (mapKeyMetadata w))
                 (if (nTimeFirstKey w =? 0) || (now <? nTimeFirstKey w) then now else nTimeFirstKey w) w in
      match wallet_AddKey key w with
      | None => Thrown w
      | Some (ok, w) => if negb ok then Thrown w else Returned pub w
      end
  end.

Definition LoadKeyMetadata (pub : list Z) (nCreateTime : Z) (w : WalletKeys) : WalletKeys :=
  let t := if negb (nCreateTime =? 0) && ((nTimeFirstKey w =? 0) || (nCreateTime <? nTimeFirstKey w))
           then nCreateTime else nTimeFirstKey w in
  with_metadata (<[CPubKey_GetID pub := nCreateTime]> (mapKeyMetadata w)) t w.

Definition LoadKey (key : CKey) (w : WalletKeys) : option (bool * WalletKeys) :=
  '(ok, s) ← crypto_AddKey (store w) key; Some (ok, with_store s w).

Definition LoadCryptedKey (pub crypted : list Z) (w : WalletKeys) : bool * WalletKeys :=
  let '(ok, s) := AddCryptedKey (store w) pub crypted in (ok, with_store s w).

Definition wallet_AddCScript (redeemScript : list Z) (w : WalletKeys) : bool * WalletKeys :=
  let '(ok, b) := basic_AddCScript (basic (store w)) redeemScript in
  let w := with_store (with_basic (store w) b) w in
  if negb ok then (false, w)
  else if negb (fFileBacked w) then (true, w)
  else let '(ok, d) := WriteCScript (Hash160 redeemScript) redeemScript (walletdb w) in (ok, with_db d w).

Definition LoadCScript (redeemScript : list Z) (w : WalletKeys) : bool * WalletKeys :=
  if MAX_SCRIPT_ELEMENT_SIZE <? Z.of_nat (length redeemScript) then (true, w)
  else
    let '(ok, b) := basic_AddCScript (basic (store w)) redeemScript in (ok, with_store (with_basic (store w) b) w).

Definition LoadWatchOnly (dest : list Z) (w : WalletKeys) : bool * WalletKeys :=
  let '(ok, b) := basic_AddWatchOnly (crypto_HaveKey (store w)) (basic (store w)) dest in
  (ok, with_store (with_basic (store w) b) w).

Definition wallet_AddWatchOnly (dest : list Z) (w : WalletKeys) : bool * WalletKeys :=
  let '(ok, w) := LoadWatchOnly dest w in
  if negb ok then (false, w)
  else
    let w := with_metadata (mapKeyMetadata w) 1 w in
    if negb (fFileBacked w) then (true, w)
    else let '(ok, d) := WriteWatchOnly dest (walletdb w) in (ok, with_db d w).

(** ** The pool of keys *)

(** A [std::set] of indices, in its order *)
Definition pool_items (s : gset Z) : list Z := merge_sort Z.le (elements s).

(** The loop of [TopUpKeyPool].  Each round adds an index above all others, so that the
    number of missing keys bounds the rounds. *)
Fixpoint topup_loop (fuel : nat) (nTargetSize now : Z) (w : WalletKeys) : call WalletKeys unit :=
  match fuel with
  | O => Returned tt w
  | Datatypes.S fuel =>
      if Z.of_nat (size (setKeyPool w)) <? u32 (nTargetSize + 1) then
        let nEnd := match last (pool_items (setKeyPool w)) with Some m => i64 (m + 1) | None => 1 end in
        let! pub , w := GenerateNewKey now w in
        let '(ok, d) := WritePool nEnd (mkKeyPool now pub) (walletdb w) in
        let w := with_db d w in
        if negb ok then Thrown w
        else topup_loop fuel nTargetSize now (with_pool ({[nEnd]} ∪ setKeyPool w) w)
      else Returned tt w
  end.

(** [keypool] is the argument "-keypool" (100 without it), [nSize] 0 for the default *)
Definition TopUpKeyPool (keypool nSize now : Z) (w : WalletKeys) : call WalletKeys bool :=
  if IsLocked (store w) then Returned false w
  else
    let nTargetSize := if 0 <? nSize then nSize else u32 (Z.max keypool 0) in
    let! _ , w := topup_loop (Z.to_nat (u32 (nTargetSize + 1))) nTargetSize now w in
    Returned true w.

(** The second loop of [NewKeyPool], for the indices from [nIndex] on *)
Fixpoint new_pool_loop (n : nat) (nIndex now : Z) (w : WalletKeys) : call WalletKeys unit :=
  match n with
  | O => Returned tt w
  | Datatypes.S n =>
      let! pub , w := GenerateNewKey now w in
      let w := with_db (WritePool nIndex (mkKeyPool now pub) (walletdb w)).2 w in
      new_pool_loop n (nIndex + 1) now (with_pool ({[nIndex]} ∪ setKeyPool w) w)
  end.

Definition NewKeyPool (keypool now : Z) (w : WalletKeys) : call WalletKeys bool :=
  let w := with_db (foldr ErasePool (walletdb w) (pool_items (setKeyPool w))) w in
  let w := with_pool ∅ w in
  if IsLocked (store w) then Returned false w
  else let! _ , w := new_pool_loop (Z.to_nat (Z.max keypool 0)) 1 now w in Returned true w.

(** [ReserveKeyFromKeyPool]: the key; the state includes the caller's [nIndex], -1 where no
    key is reserved.  The index leaves the pool before the record is read, and stays out
    of it when that throws. *)
Definition ReserveKeyFromKeyPool (keypool now : Z) (w : WalletKeys) : call (Z * WalletKeys) CKeyPool :=
  match (if negb (IsLocked (store w)) then TopUpKeyPool keypool 0 now w else Returned false w) with
  | Thrown w => Thrown (-1, w)
  | Returned _ w =>
      match pool_items (setKeyPool w) with
      | [] => Returned (mkKeyPool now []) (-1, w)
      | nIndex :: _ =>
          let w := with_pool (setKeyPool w ∖ {[nIndex]}) w in
          match ReadPool nIndex (walletdb w) with
          | None => Thrown (nIndex, w)
          | Some kp =>
              if negb (crypto_HaveKey (store w) (CPubKey_GetID (vchPubKey kp))) then Thrown (nIndex, w)
              else if negb (CPubKey_IsValid (vchPubKey kp)) then Thrown (nIndex, w)
              else Returned kp (nIndex, w)
          end
      end
  end.

(** [AddReserveKey]; on an empty pool it reads past the beginning of the set, which is
    counted as throwing *)
Definition AddReserveKey (kp : CKeyPool) (w : WalletKeys) : call WalletKeys Z :=
  match last (pool_items (setKeyPool w)) with
  | None => Thrown w
  | Some m =>
      let nIndex := i64 (1 + m) in
      let '(ok, d) := WritePool nIndex kp (walletdb w) in
      if negb ok then Thrown w else Returned nIndex (with_pool ({[nIndex]} ∪ setKeyPool w) (with_db d w))
  end.

Definition KeepKey (nIndex : Z) (w : WalletKeys) : WalletKeys :=
  if fFileBacked w then with_db (ErasePool nIndex (walletdb w)) w else w.

Definition ReturnKey (nIndex : Z) (w : WalletKeys) : WalletKeys := with_pool ({[nIndex]} ∪ setKeyPool w) w.

(** [GetKeyFromPool]: the key, [None] for false *)
Definition GetKeyFromPool (keypool now : Z) (fAllowReuse : bool) (w : WalletKeys) : call WalletKeys (option (list Z)) :=
  match ReserveKeyFromKeyPool keypool now w with
  | Thrown (_, w) => Thrown w
  | Returned kp (nIndex, w) =>
      if nIndex =? -1 then
        if fAllowReuse && CPubKey_IsValid (vchDefaultKey w) then Returned (Some (vchDefaultKey w)) w
        else if IsLocked (store w) then Returned None w
        else let! pub , w := GenerateNewKey now w in Returned (Some pub) w
      else Returned (Some (vchPubKey kp)) (KeepKey nIndex w)
  end.

Definition GetOldestKeyPoolTime (keypool now : Z) (w : WalletKeys) : call WalletKeys Z :=
  match ReserveKeyFromKeyPool keypool now w with
  | Thrown (_, w) => Thrown w
  | Returned kp (nIndex, w) => if nIndex =? -1 then Returned now w else Returned (kp_nTime kp) (ReturnKey nIndex w)
  end.

(** [GetAllReserveKeys]: [None] where it throws *)
Definition GetAllReserveKeys (w : WalletKeys) : option (list (list Z)) :=
  mapM (fun id =>
    kp ← ReadPool id (walletdb w);
    if negb (CPubKey_IsValid (vchPubKey kp)) then None
    else if negb (crypto_HaveKey (store w) (CPubKey_GetID (vchPubKey kp))) then None
    else Some (CPubKey_GetID (vchPubKey kp))) (pool_items (setKeyPool w)).

(** *** [CReserveKey] *)

Record CReserveKey := mkReserve { rk_nIndex : Z; rk_vchPubKey : list Z }.
Definition CReserveKey_new : CReserveKey := mkReserve (-1) [].

(** [GetReservedKey]: the key, [None] for false.  [nIndex] of the object is the variable
    that [ReserveKeyFromKeyPool] sets, also where it throws. *)
Definition GetReservedKey (keypool now : Z) (k : CReserveKey) (w : WalletKeys) : call (CReserveKey * WalletKeys) (option (list Z)) :=
  let reserved : call (CReserveKey * WalletKeys) bool :=
    if rk_nIndex k =? -1 then
      match ReserveKeyFromKeyPool keypool now w with
      | Thrown (nIndex, w) => Thrown (mkReserve nIndex (rk_vchPubKey k), w)
      | Returned kp (nIndex, w) =>
          if negb (nIndex =? -1) then Returned true (mkReserve nIndex (vchPubKey kp), w)
          else if CPubKey_IsValid (vchDefaultKey w) then Returned true (mkReserve nIndex (vchDefaultKey w), w)
          else Returned false (mkReserve nIndex (rk_vchPubKey k), w)
      end
    else Returned true (k, w) in
  let! ok , st := reserved in
  if negb ok then Returned None st
  else if negb (CPubKey_IsValid (rk_vchPubKey st.1)) then Thrown st
  else Returned (Some (rk_vchPubKey st.1)) st.

(** [KeepKey] and [ReturnKey]; the destructor of [CReserveKey] calls [ReturnKey] *)
Definition reserve_KeepKey (k : CReserveKey) (w : WalletKeys) : CReserveKey * WalletKeys :=
  (CReserveKey_new, if negb (rk_nIndex k =? -1) then KeepKey (rk_nIndex k) w else w).
Definition reserve_ReturnKey (k : CReserveKey) (w : WalletKeys) : CReserveKey * WalletKeys :=
  (CReserveKey_new, if negb (rk_nIndex k =? -1) then ReturnKey (rk_nIndex k) w else w).
End wallet_keys.
