(* ===== verification/KeyPoolFacts.v ===== *)
(** * The theory of the key pool: no key is handed out twice, and no reservation loses
    its key, as long as a key stays in the pool *)

From stdpp Require Import sorting.
From S2P Require Import Prelude.
From S2P Require Import Uint256.
From S2P Require Import Hash.
From S2P Require Import Transaction.
From S2P Require Import Key.
From S2P Require Import Templates.
From S2P Require Import KeyStore.
From S2P Require Import KeyPool.

(** ** The indices of the pool *)

#[export] Instance Zle_total : Total Z.le.
Proof. intros x y. destruct (Z.le_ge_cases x y); auto. Qed.

Lemma elem_of_pool_items x s : x ∈ pool_items s <-> x ∈ s.
Proof. unfold pool_items. by rewrite merge_sort_Permutation, elem_of_elements. Qed.

Lemma pool_items_sorted s : StronglySorted Z.le (pool_items s).
Proof. apply (StronglySorted_merge_sort Z.le). Qed.

Lemma pool_items_empty : pool_items ∅ = [].
Proof. done. Qed.

Lemma pool_items_nil s : pool_items s = [] -> s = ∅.
Proof. intros E. apply set_eq. intros x. rewrite <- elem_of_pool_items, E. split; [by intros ?%not_elem_of_nil|set_solver]. Qed.

Lemma pool_items_head s x l : pool_items s = x :: l -> x ∈ s /\ (forall y, y ∈ s -> x <= y).
Proof.
  intros E. split; [apply elem_of_pool_items; rewrite E; by left|]. intros y Hy. apply elem_of_pool_items in Hy. rewrite E in Hy.
  pose proof (pool_items_sorted s) as Hs. rewrite E in Hs. apply StronglySorted_inv in Hs as [_ Hf].
  apply elem_of_cons in Hy as [-> |Hy]; [lia|]. by eapply Forall_forall in Hf.
Qed.

Lemma sorted_last (l : list Z) m : StronglySorted Z.le l -> last l = Some m -> m ∈ l /\ (forall y, y ∈ l -> y <= m).
Proof.
  induction l as [|x l IH]; intros Hs Hl; [done|]. apply StronglySorted_inv in Hs as [Hs Hf].
  destruct l as [|x' l]; [cbn in Hl; injection Hl as ->; split; [by left|]; intros y [-> |Hy]%elem_of_cons; [lia|by apply not_elem_of_nil in Hy]|].
  change (last (x' :: l) = Some m) in Hl. destruct (IH Hs Hl) as [Hm Hle]. split; [by right|].
  intros y [-> |Hy]%elem_of_cons; [|by apply Hle]. eapply Forall_forall in Hf; [exact Hf|done].
Qed.

Lemma pool_items_last s m : last (pool_items s) = Some m -> m ∈ s /\ (forall y, y ∈ s -> y <= m).
Proof.
  intros E. apply sorted_last in E as [Hm Hle]; [|apply pool_items_sorted]. split; [by apply elem_of_pool_items|].
  intros y Hy. apply Hle. by apply elem_of_pool_items.
Qed.

Lemma pool_items_no_last s : last (pool_items s) = None -> s = ∅.
Proof. intros E. apply pool_items_nil. by apply last_None in E. Qed.

Section facts.
Context {E : ECOps} {S : ECSecretOps E} {C : CipherOps} {H : HashOps} {HL : HashLaws H}.
Context (EC_KEY_generate_key : nat -> EC_KEY) (i2d_ECPrivateKey : EC_KEY -> list Z).

(** What is assumed of [EC_KEY_generate_key], for the first 2^62 keys: each has its two
    parts, its encodings are public keys, and no two are the same. *)
Definition KEYS : Z := 2 ^ 62.
Definition key_of (n : nat) (c : bool) (pub : list Z) : Prop := GetPubKey (MakeNewKey c (EC_KEY_generate_key n)) = Some pub.

Class GenLaws := {
  gen_private n c : is_Some (EC_KEY_get0_private_key (pkey (MakeNewKey c (EC_KEY_generate_key n))));
  gen_public n c : exists pub, key_of n c pub /\ CPubKey_IsValid pub = true;
  gen_fresh n m c c' pub : Z.of_nat n < KEYS -> Z.of_nat m < KEYS -> key_of n c pub -> key_of m c' pub -> n = m
}.

(** The cipher does not fail on a key of the right length. *)
Class CipherTotal := aes_total key iv p : is_Some (aes_256_cbc_encrypt key iv p).

Context {GL : GenLaws} {CT : CipherTotal}.

Definition have (w : WalletKeys) (pub : list Z) : Prop := crypto_HaveKey (store w) (CPubKey_GetID pub) = true.

(** A wallet in which keys can be made: it is unlocked, its file can be written, and the
    keys still to be made are not in it. *)
Record key_ready (w : WalletKeys) : Prop := {
  kr_unlocked : IsLocked (store w) = false;
  kr_master : IsCrypted (store w) = true -> length (vMasterKey (store w)) = 32%nat;
  kr_open : db_open (walletdb w) = true;
  kr_future n c pub : (drawn w <= n)%nat -> Z.of_nat n < KEYS -> key_of n c pub ->
    db_key (walletdb w) !! pub = None /\ db_ckey (walletdb w) !! pub = None /\
    (SetDestination (CKeyID (CPubKey_GetID pub))).2 ∉ setWatchOnly (basic (store w))
}.

(** What making a key leaves alone *)
Definition key_made (pub : list Z) (w w' : WalletKeys) : Prop :=
  drawn w' = (drawn w + 1)%nat /\ setKeyPool w' = setKeyPool w /\ db_pool (walletdb w') = db_pool (walletdb w) /\
  vchDefaultKey w' = vchDefaultKey w /\ fFileBacked w' = fFileBacked w /\ have w' pub /\ (forall p, have w p -> have w' p).

(** [crypto_AddKey] of a new key *)
Lemma crypto_AddKey_new s key pub :
  GetPubKey key = Some pub -> is_Some (EC_KEY_get0_private_key (pkey key)) -> IsLocked s = false ->
  (IsCrypted s = true -> length (vMasterKey s) = 32%nat) ->
  (SetDestination (CKeyID (CPubKey_GetID pub))).2 ∉ setWatchOnly (basic s) ->
  exists s', crypto_AddKey s key = Some (true, s') /\ IsLocked s' = false /\ IsCrypted s' = IsCrypted s /\ vMasterKey s' = vMasterKey s /\
    setWatchOnly (basic s') = setWatchOnly (basic s) /\ crypto_HaveKey s' (CPubKey_GetID pub) = true /\
    (forall id, crypto_HaveKey s id = true -> crypto_HaveKey s' id = true) /\
    (IsCrypted s = true -> exists c, mapCryptedKeys s' !! CPubKey_GetID pub = Some (pub, c)).
Proof.
  intros Hp [d Hd] Hl Hm Hw. unfold crypto_AddKey. rewrite Hp. cbn [mbind option_bind].
  unfold basic_HaveWatchOnly. rewrite bool_decide_eq_false_2 by done. unfold GetSecret. rewrite Hd. cbn [mbind option_bind].
  destruct (IsCrypted s) eqn:Ec; cbn [negb].
  - rewrite Hl. destruct (aes_total (vMasterKey s) (limb_bytes (CPubKey_GetHash pub)) (rev (le_bytes 32 d))) as [c Hc].
    unfold EncryptSecret, SetKey. rewrite (Hm eq_refl). assert (length (limb_bytes (CPubKey_GetHash pub)) = 32%nat) as ->.
    { unfold CPubKey_GetHash. rewrite Hash_bytes. apply SHA256_ok. }
    change (Z.of_nat 32 =? WALLET_CRYPTO_KEY_SIZE) with true. cbn [negb orb]. unfold Encrypt. cbn [fKeySet chKey chIV negb]. rewrite Hc. unfold AddCryptedKey, SetCrypted. unfold IsCrypted in Ec. rewrite Ec. cbn [negb]. eexists. split; [done|].
    unfold crypto_HaveKey, IsLocked, IsCrypted in *. cbn [fUseCrypto vMasterKey basic mapCryptedKeys]. rewrite Ec in *. cbn [negb] in *. split_and!; try done.
    + apply bool_decide_eq_true. rewrite lookup_insert_eq. by eexists.
    + intros id Hid. apply bool_decide_eq_true in Hid. apply bool_decide_eq_true. apply lookup_insert_is_Some'. by right.
    + intros _. exists c. by rewrite lookup_insert_eq.
  - unfold basic_AddKey, GetSecret. rewrite Hd, Hp. cbn [mbind option_bind]. eexists. split; [done|].
    unfold crypto_HaveKey, IsLocked, IsCrypted in *. cbn [fUseCrypto vMasterKey basic mapCryptedKeys with_basic setWatchOnly]. rewrite Ec in *. cbn [negb] in *.
    split_and!; try done; unfold basic_HaveKey; cbn [mapKeys].
    + apply bool_decide_eq_true. rewrite lookup_insert_eq. by eexists.
    + intros id Hid. apply bool_decide_eq_true in Hid. apply bool_decide_eq_true. apply lookup_insert_is_Some'. by right.
Qed.

(** [wallet_AddKey] of a new key *)
Lemma wallet_AddKey_new w key pub n c :
  key_ready w -> (drawn w <= n)%nat -> Z.of_nat n < KEYS -> key = MakeNewKey c (EC_KEY_generate_key n) -> key_of n c pub ->
  exists w', wallet_AddKey i2d_ECPrivateKey key w = Some (true, w') /\ key_ready (with_drawn (n + 1) w') /\ key_made pub w (with_drawn (drawn w + 1) w').
Proof.
  intros Hr Hn Hk -> Hp. destruct (kr_future _ Hr n c pub Hn Hk Hp) as (F1 & F2 & F3). unfold wallet_AddKey. unfold key_of in Hp. rewrite Hp. cbn [mbind option_bind].
  destruct (crypto_AddKey_new (store w) _ pub Hp (gen_private n c) (kr_unlocked _ Hr) (kr_master _ Hr) F3) as (s & -> & Sl & Sc & Sm & Sw & Sh & Sk & Se).
  cbn [mbind option_bind negb]. cbn [fFileBacked with_store].
  assert (Hfut : forall m c' pub', (n + 1 <= m)%nat -> Z.of_nat m < KEYS -> key_of m c' pub' -> pub' <> pub).
  { intros m c' pub' Hm Hmk Hpub' ->. pose proof (gen_fresh n m c c' pub Hk Hmk Hp Hpub'). lia. }
  assert (Hbase : forall d m t, db_open d = true -> (forall p, p <> pub -> db_key d !! p = db_key (walletdb w) !! p) ->
    (forall p, p <> pub -> db_ckey d !! p = db_ckey (walletdb w) !! p) -> db_pool d = db_pool (walletdb w) ->
    key_ready (with_drawn (n + 1) (with_db d (with_metadata m t (with_store s w)))) /\
    key_made pub w (with_drawn (drawn w + 1) (with_db d (with_metadata m t (with_store s w))))).
  { intros d mm t D1 D2 D3 D4. split.
    - split; cbn [store with_drawn with_db with_store with_metadata walletdb drawn]; [done|by rewrite Sc, Sm; apply Hr|done|].
      intros m c' pub' Hm Hmk Hpub'. specialize (Hfut _ _ _ Hm Hmk Hpub'). rewrite D2, D3, Sw by done. apply (kr_future _ Hr m c'); [lia|done|done].
    - unfold key_made, have. cbn [store with_drawn with_db with_store with_metadata walletdb drawn setKeyPool vchDefaultKey fFileBacked]. split_and!; try done. intros p. apply Sk. }
  destruct (fFileBacked w) eqn:Ef; cbn [negb].
  - destruct (IsCrypted (store w)) eqn:Ec.
    + destruct (Se eq_refl) as [cr ->]. unfold WriteCryptedKey. cbn [walletdb touch_metadata with_metadata with_store]. rewrite (kr_open _ Hr). cbn [negb db_set_keys db_ckey].
      rewrite bool_decide_eq_false_2 by (rewrite F2; by intros []). eexists. split; [done|].
      apply Hbase; cbn [db_set_keys db_open db_key db_ckey db_pool]; try done; [apply Hr| |]; intros p Hpne.
      * by rewrite lookup_delete_ne.
      * by rewrite lookup_insert_ne.
    + unfold WriteKey. cbn [walletdb touch_metadata with_metadata with_store]. rewrite (kr_open _ Hr). cbn [negb db_set_keys db_key].
      rewrite bool_decide_eq_false_2 by (rewrite F1; by intros []). eexists. split; [done|].
      apply Hbase; cbn [db_set_keys db_open db_key db_ckey db_pool]; try done; [apply Hr|]. intros p Hpne. by rewrite lookup_insert_ne.
  - eexists. split; [done|]. apply (Hbase (walletdb w) (mapKeyMetadata w) (nTimeFirstKey w)); try done. apply Hr.
Qed.

Lemma SetMinVersion_frame v b w :
  store (SetMinVersion v b w) = store w /\ setKeyPool (SetMinVersion v b w) = setKeyPool w /\ drawn (SetMinVersion v b w) = drawn w /\
  vchDefaultKey (SetMinVersion v b w) = vchDefaultKey w /\ fFileBacked (SetMinVersion v b w) = fFileBacked w /\
  db_open (walletdb (SetMinVersion v b w)) = db_open (walletdb w) /\ db_key (walletdb (SetMinVersion v b w)) = db_key (walletdb w) /\
  db_ckey (walletdb (SetMinVersion v b w)) = db_ckey (walletdb w) /\ db_pool (walletdb (SetMinVersion v b w)) = db_pool (walletdb w).
Proof. unfold SetMinVersion, WriteMinVersion. by repeat case_goal. Qed.

(** [GenerateNewKey] works in a wallet that is ready. *)
Lemma GenerateNewKey_ok now w :
  key_ready w -> Z.of_nat (drawn w) < KEYS ->
  exists pub c w', GenerateNewKey EC_KEY_generate_key i2d_ECPrivateKey now w = Returned pub w' /\ key_ready w' /\ key_made pub w w' /\
    key_of (drawn w) c pub /\ CPubKey_IsValid pub = true.
Proof.
  intros Hr Hk. unfold GenerateNewKey. set (c := CanSupportFeature _ w). destruct (gen_public (drawn w) c) as (pub & Hp & Hv).
  cbn zeta. set (w1 := if c then _ else _). rewrite Hp.
  assert (F : store w1 = store w /\ setKeyPool w1 = setKeyPool w /\ drawn w1 = (drawn w + 1)%nat /\ vchDefaultKey w1 = vchDefaultKey w /\
    fFileBacked w1 = fFileBacked w /\ db_open (walletdb w1) = db_open (walletdb w) /\ db_key (walletdb w1) = db_key (walletdb w) /\
    db_ckey (walletdb w1) = db_ckey (walletdb w) /\ db_pool (walletdb w1) = db_pool (walletdb w)).
  { subst w1. destruct c; [|done]. apply (SetMinVersion_frame FEATURE_COMPRPUBKEY false (with_drawn (drawn w + 1) w)). }
  destruct F as (A1 & A2 & A3 & A4 & A5 & A6 & A7 & A8 & A9).
  set (w2 := with_metadata _ _ w1). set (w0 := with_drawn (drawn w) w2).
  assert (Hr0 : key_ready w0).
  { destruct Hr as [R1 R2 R3 R4]. split; cbn [store w0 w2 with_drawn with_metadata walletdb drawn]; [by rewrite A1|by rewrite A1|by rewrite A6|].
    intros n c' p Hn Hnk Hpk. rewrite A1, A7, A8. by apply (R4 n c'). }
  destruct (wallet_AddKey_new w0 _ pub (drawn w) c Hr0 (le_n _) Hk eq_refl Hp) as (w' & Ha & Hr' & Hm).
  assert (Hd : wallet_AddKey i2d_ECPrivateKey (MakeNewKey c (EC_KEY_generate_key (drawn w))) w2 =
    Some (true, with_drawn (drawn w + 1) w')).
  { revert Ha. unfold wallet_AddKey. rewrite Hp. cbn [mbind option_bind]. change (store w0) with (store w2).
    destruct (crypto_AddKey (store w2) _) as [[ok s]|]; [|done]. cbn [mbind option_bind]. destruct ok; cbn [negb]; [|done].
    change (fFileBacked (with_store s w0)) with (fFileBacked (with_store s w2)).
    cbn zeta. change (walletdb (touch_metadata (CPubKey_GetID pub) (with_store s w0))) with (walletdb (touch_metadata (CPubKey_GetID pub) (with_store s w2))).
    change (metadata (CPubKey_GetID pub) (with_store s w0)) with (metadata (CPubKey_GetID pub) (with_store s w2)).
    destruct (fFileBacked (with_store s w2)); cbn [negb].
    - match goal with |- context [let '(_, _) := ?x in _] => destruct x as [ok d] end. intros [= -> <-]. rewrite <- A3. reflexivity.
    - intros [= <-]. rewrite <- A3. reflexivity. }
  rewrite Hd. cbn [negb]. exists pub, c, (with_drawn (drawn w + 1) w'). split; [done|]. split; [exact Hr'|].
  split; [|done]. change (drawn w0) with (drawn w) in Hm. destruct Hm as (M1 & M2 & M3 & M4 & M5 & M6 & M7). split_and!; try done.
  - rewrite M2. exact A2.
  - rewrite M3. exact A9.
  - rewrite M4. exact A4.
  - rewrite M5. exact A5.
  - intros p Hpp. apply M7. unfold have in *. cbn [store w0 w2 with_drawn with_metadata]. by rewrite A1.
Qed.

(** ** The invariant *)

(** An index is live while it is in the pool or reserved. *)
Definition live (w : WalletKeys) (out : gmap Z CKeyPool) (i : Z) : Prop := i ∈ setKeyPool w \/ is_Some (out !! i).
Definition drawn_key (w : WalletKeys) (k : list Z) : Prop := exists n c, (n < drawn w)%nat /\ key_of n c k.

(** [out]: the reservations; [handed]: the keys given away for good *)
Record pool_inv (w : WalletKeys) (out : gmap Z CKeyPool) (handed : list (list Z)) : Prop := {
  pi_ready : key_ready w;
  pi_db i : live w out i -> exists kp, db_pool (walletdb w) !! i = Some kp /\ have w (vchPubKey kp) /\
    CPubKey_IsValid (vchPubKey kp) = true /\ drawn_key w (vchPubKey kp) /\ 1 <= i <= Z.of_nat (drawn w);
  pi_out i kp : out !! i = Some kp ->
    db_pool (walletdb w) !! i = Some kp /\ i ∉ setKeyPool w /\ exists j, j ∈ setKeyPool w /\ i < j;
  pi_distinct i j kp kp' : live w out i -> live w out j -> db_pool (walletdb w) !! i = Some kp ->
    db_pool (walletdb w) !! j = Some kp' -> vchPubKey kp = vchPubKey kp' -> i = j;
  pi_handed k : k ∈ handed -> drawn_key w k /\ (forall i kp, live w out i -> db_pool (walletdb w) !! i = Some kp -> vchPubKey kp <> k);
  pi_nodup : NoDup handed
}.

Lemma drawn_key_mono w w' k : (drawn w <= drawn w')%nat -> drawn_key w k -> drawn_key w' k.
Proof. intros Hle (n & c & Hn & Hk). exists n, c. split; [lia|done]. Qed.

(** A new key is not among those drawn before. *)
Lemma fresh_key w c pub k : Z.of_nat (drawn w) < KEYS -> key_of (drawn w) c pub -> drawn_key w k -> k <> pub.
Proof. intros Hb Hp (n & c' & Hn & Hk) ->. pose proof (gen_fresh n (drawn w) c' c pub ltac:(lia) Hb Hk Hp). lia. Qed.

Lemma key_made_drawn pub c w w' : key_made pub w w' -> key_of (drawn w) c pub -> drawn_key w' pub.
Proof. intros (Hd & _) Hp. exists (drawn w), c. split; [lia|done]. Qed.

Lemma pool_next w out handed nEnd :
  pool_inv w out handed -> Z.of_nat (drawn w) < KEYS ->
  nEnd = match last (pool_items (setKeyPool w)) with Some m => i64 (m + 1) | None => 1 end ->
  1 <= nEnd <= Z.of_nat (drawn w) + 1 /\ (forall i, live w out i -> i < nEnd).
Proof.
  intros Hi Hb ->. unfold KEYS in Hb. destruct (last _) as [m|] eqn:El.
  - apply pool_items_last in El as [Hm Hle]. destruct (pi_db _ _ _ Hi m) as (kp & _ & _ & _ & _ & Hr); [by left|].
    rewrite swrap_small by (change (2 ^ (64 - 1)) with (2 * KEYS); unfold KEYS; lia). split; [lia|].
    intros i [Hp|[kp' Ho]]; [specialize (Hle _ Hp); lia|]. destruct (pi_out _ _ _ Hi _ _ Ho) as (_ & _ & j & Hj & Hlt). specialize (Hle _ Hj). lia.
  - apply pool_items_no_last in El. split; [lia|]. intros i [Hp|[kp' Ho]]; [rewrite El in Hp; set_solver|].
    destruct (pi_out _ _ _ Hi _ _ Ho) as (_ & _ & j & Hj & _). rewrite El in Hj. set_solver.
Qed.

Lemma key_ready_db w d p :
  key_ready w -> db_open d = true -> db_key d = db_key (walletdb w) -> db_ckey d = db_ckey (walletdb w) -> key_ready (with_pool p (with_db d w)).
Proof.
  intros [R1 R2 R3 R4] Ho Hk Hc. split; cbn [store with_pool with_db walletdb drawn]; try done. intros n c pub Hn Hb Hp. rewrite Hk, Hc. by apply (R4 n c).
Qed.

(** A key added at the end of the pool *)
Lemma pool_add now w out handed pub c w' nEnd :
  pool_inv w out handed -> Z.of_nat (drawn w) < KEYS -> key_ready w' -> key_made pub w w' -> key_of (drawn w) c pub -> CPubKey_IsValid pub = true ->
  1 <= nEnd <= Z.of_nat (drawn w) + 1 -> (forall i, live w out i -> i < nEnd) ->
  pool_inv (with_pool ({[nEnd]} ∪ setKeyPool w') (with_db (db_set_pool (<[nEnd := mkKeyPool now pub]> (db_pool (walletdb w'))) (walletdb w')) w')) out handed.
Proof.
  intros Hi Hb Hr Hm Hp Hv Hn Hlt. pose proof (key_made_drawn _ _ _ _ Hm Hp) as Hdp. destruct Hm as (M1 & M2 & M3 & _ & _ & M6 & M7).
  set (w2 := with_pool _ _). assert (Hpool : setKeyPool w2 = {[nEnd]} ∪ setKeyPool w) by (cbn; by rewrite M2).
  assert (Hdb : db_pool (walletdb w2) = <[nEnd := mkKeyPool now pub]> (db_pool (walletdb w))) by (cbn; by rewrite M3).
  assert (Hlive : forall i, live w2 out i -> i = nEnd \/ (live w out i /\ i <> nEnd)).
  { intros i. unfold live. rewrite Hpool. intros Hl. assert (i = nEnd \/ live w out i) as [-> |Hl'] by (unfold live; set_solver); [by left|].
    right. split; [done|]. specialize (Hlt _ Hl'). lia. }
  assert (Hmono : forall k, drawn_key w k -> drawn_key w2 k) by (intros k; apply drawn_key_mono; cbn; lia).
  assert (Hold : forall i kp, live w out i -> db_pool (walletdb w) !! i = Some kp -> vchPubKey kp <> pub).
  { intros i kp Hl Hkp. destruct (pi_db _ _ _ Hi _ Hl) as (kp' & Hkp' & _ & _ & Hd & _). rewrite Hkp in Hkp'. injection Hkp' as <-. by apply (fresh_key w c). }
  split.
  - apply key_ready_db; try done. cbn. apply Hr.
  - intros i Hl. rewrite Hdb. destruct (Hlive _ Hl) as [-> |[Hl' Hne]].
    + rewrite lookup_insert_eq. eexists. split; [done|]. cbn [vchPubKey]. split_and!; [exact M6|done|exact Hdp|lia|cbn; lia].
    + rewrite lookup_insert_ne by done. destruct (pi_db _ _ _ Hi _ Hl') as (kp & K1 & K2 & K3 & K4 & K5). exists kp.
      split_and!; [done|by apply M7|done|by apply Hmono|lia|cbn; lia].
  - intros i kp Ho. destruct (pi_out _ _ _ Hi _ _ Ho) as (O1 & O2 & j & O3 & O4). assert (live w out i) as Hl by (right; by eexists).
    specialize (Hlt _ Hl). rewrite Hdb, Hpool, lookup_insert_ne by lia. split_and!; [done|set_solver by lia|]. exists j. split; [set_solver|done].
  - intros i j kp kp' Hl Hl'. rewrite Hdb. destruct (Hlive _ Hl) as [-> |[L1 N1]], (Hlive _ Hl') as [-> |[L2 N2]]; rewrite ?lookup_insert_eq, ?lookup_insert_ne by done.
    + done.
    + intros [= <-] K E'. cbn in E'. exfalso. by apply (Hold j kp').
    + intros K [= <-] E'. cbn in E'. exfalso. by apply (Hold i kp).
    + by apply (pi_distinct _ _ _ Hi).
  - intros k Hk. destruct (pi_handed _ _ _ Hi _ Hk) as [K1 K2]. split; [by apply Hmono|]. intros i kp Hl. rewrite Hdb.
    destruct (Hlive _ Hl) as [-> |[L1 N1]]; rewrite ?lookup_insert_eq, ?lookup_insert_ne by done; [|by apply K2].
    intros [= <-]. cbn. intros E'. symmetry in E'. by apply (fresh_key w c pub k).
  - apply Hi.
Qed.

(** ** The operations *)

(** Filling the pool up keeps the invariant, and there are enough keys afterwards. *)
Lemma topup_loop_ok fuel nTarget now w out handed :
  pool_inv w out handed -> Z.of_nat (drawn w) + Z.of_nat fuel < KEYS -> u32 (nTarget + 1) <= Z.of_nat (size (setKeyPool w)) + Z.of_nat fuel ->
  exists w', topup_loop EC_KEY_generate_key i2d_ECPrivateKey fuel nTarget now w = Returned tt w' /\ pool_inv w' out handed /\
    (drawn w <= drawn w' <= drawn w + fuel)%nat /\ u32 (nTarget + 1) <= Z.of_nat (size (setKeyPool w')).
Proof.
  revert w. induction fuel as [|fuel IH]; intros w Hi Hb Ht; cbn [topup_loop].
  { exists w. split_and!; try done; lia. }
  destruct (Z.ltb_spec (Z.of_nat (size (setKeyPool w))) (u32 (nTarget + 1))) as [Hlt|Hge].
  2: { exists w. split_and!; try done; lia. }
  set (nEnd := match last _ with Some _ => _ | None => _ end). destruct (pool_next w out handed nEnd Hi ltac:(lia) eq_refl) as [Hn Habove].
  destruct (GenerateNewKey_ok now w (pi_ready _ _ _ Hi) ltac:(lia)) as (pub & c & w1 & -> & Hr1 & Hm & Hp & Hv). cbn [call_bind].
  unfold WritePool. rewrite (kr_open _ Hr1). cbn [negb]. pose proof (pool_add now w out handed pub c w1 nEnd Hi ltac:(lia) Hr1 Hm Hp Hv Hn Habove) as Hi2.
  match type of Hi2 with pool_inv ?x _ _ => set (w2 := x) in *; change (with_pool _ _) with w2 end. pose proof Hm as (M1 & M2 & _).
  assert (Hnew : nEnd ∉ setKeyPool w) by (intros Hin; specialize (Habove nEnd); unfold live in Habove; lia || (specialize (Habove (or_introl Hin)); lia)).
  assert (Hsz : size (setKeyPool w2) = Datatypes.S (size (setKeyPool w))).
  { cbn [w2 setKeyPool with_pool]. rewrite M2, size_union by set_solver. by rewrite size_singleton. }
  assert (Hd2 : drawn w2 = (drawn w + 1)%nat) by exact M1.
  destruct (IH w2 Hi2) as (w' & Hrun & Hi' & Hd' & Hs'); [lia|lia|]. exists w'. split_and!; try done; lia.
Qed.

(** The state of a wallet with its reservations *)
Record PoolState := mkPoolState { ps_wallet : WalletKeys; ps_out : gmap Z CKeyPool; ps_handed : list (list Z) }.
Definition pool_ok (st : PoolState) : Prop := pool_inv (ps_wallet st) (ps_out st) (ps_handed st).

Context (keypool : Z).
(** "-keypool" asks for a key at least *)
Hypothesis keypool_range : 1 <= keypool < 2 ^ 31.

Lemma topup_default now w out handed :
  pool_inv w out handed -> Z.of_nat (drawn w) + 2 ^ 32 < KEYS ->
  exists w', TopUpKeyPool EC_KEY_generate_key i2d_ECPrivateKey keypool 0 now w = Returned true w' /\ pool_inv w' out handed /\
    (drawn w <= drawn w')%nat /\ Z.of_nat (drawn w') <= Z.of_nat (drawn w) + 2 ^ 32 /\ 2 <= Z.of_nat (size (setKeyPool w')).
Proof.
  intros Hi Hb. unfold TopUpKeyPool. rewrite (kr_unlocked _ (pi_ready _ _ _ Hi)). cbn [Z.ltb Z.compare]. rewrite Z.max_l by lia.
  rewrite (wrap_small 32 keypool) by lia. assert (Hu : u32 (keypool + 1) = keypool + 1) by (apply wrap_small; lia).
  destruct (topup_loop_ok (Z.to_nat (u32 (keypool + 1))) keypool now w out handed Hi) as (w' & -> & Hi' & Hd & Hs); [rewrite Hu; lia|rewrite Hu; lia|].
  rewrite Hu in Hs. exists w'. split_and!; try done; lia.
Qed.

(** Moving an index between the pool, the reservations and the keys given away *)
Lemma pool_move w w' out out' handed :
  pool_inv w out handed -> key_ready w' -> drawn w' = drawn w -> store w' = store w ->
  (forall i, live w' out' i -> live w out i) ->
  (forall i, live w' out' i -> db_pool (walletdb w') !! i = db_pool (walletdb w) !! i) ->
  (forall i kp, out' !! i = Some kp -> db_pool (walletdb w) !! i = Some kp /\ i ∉ setKeyPool w' /\ exists j, j ∈ setKeyPool w' /\ i < j) ->
  pool_inv w' out' handed.
Proof.
  intros Hi Hr Hd Hs Hl Hdb Ho. assert (Hdk : forall k, drawn_key w k -> drawn_key w' k) by (intros k; apply drawn_key_mono; lia). split.
  - done.
  - intros i Hli. rewrite Hdb by done. destruct (pi_db _ _ _ Hi i (Hl _ Hli)) as (kp & K1 & K2 & K3 & K4 & K5). exists kp.
    split_and!; try done; [unfold have in *; by rewrite Hs|by apply Hdk|lia|lia].
  - intros i kp Hoi. destruct (Ho _ _ Hoi) as (O1 & O2 & O3). rewrite Hdb by (right; by eexists). done.
  - intros i j kp kp' L1 L2. rewrite !Hdb by done. apply (pi_distinct _ _ _ Hi); by apply Hl.
  - intros k Hk. destruct (pi_handed _ _ _ Hi k Hk) as [K1 K2]. split; [by apply Hdk|]. intros i kp Hli. rewrite Hdb by done. apply K2. by apply Hl.
  - apply Hi.
Qed.

Lemma key_ready_pool w p : key_ready w -> key_ready (with_pool p w).
Proof. intros Hr. by destruct Hr. Qed.

(** Reserving a key *)
Lemma Reserve_ok now w out handed :
  pool_inv w out handed -> Z.of_nat (drawn w) + 2 ^ 32 < KEYS ->
  exists i kp w', ReserveKeyFromKeyPool EC_KEY_generate_key i2d_ECPrivateKey keypool now w = Returned kp (i, w') /\ 1 <= i /\
    pool_inv w' (<[i := kp]> out) handed /\ out !! i = None /\ (drawn w <= drawn w')%nat /\ Z.of_nat (drawn w') <= Z.of_nat (drawn w) + 2 ^ 32.
Proof.
  intros Hi Hb. unfold ReserveKeyFromKeyPool. rewrite (kr_unlocked _ (pi_ready _ _ _ Hi)). cbn [negb].
  destruct (topup_default now w out handed Hi Hb) as (w1 & -> & Hi1 & Hd1 & Hd2 & Hs).
  destruct (pool_items (setKeyPool w1)) as [|i l] eqn:El.
  { apply pool_items_nil in El. rewrite El, size_empty in Hs. lia. }
  apply pool_items_head in El as [Hin Hmin]. destruct (pi_db _ _ _ Hi1 i) as (kp & K1 & K2 & K3 & K4 & K5); [by left|].
  unfold ReadPool. cbn [walletdb with_pool store]. rewrite (kr_open _ (pi_ready _ _ _ Hi1)). cbn [negb]. rewrite K1.
  unfold have in K2. rewrite K2, K3. cbn [negb]. eexists i, kp, _. split; [done|]. split; [lia|].
  assert (Hno : out !! i = None).
  { destruct (out !! i) as [kp'|] eqn:Eo; [|done]. destruct (pi_out _ _ _ Hi1 _ _ Eo) as (_ & Hni & _). done. }
  assert (Hj : exists j, j ∈ setKeyPool w1 ∖ {[i]}).
  { destruct (decide (setKeyPool w1 ∖ {[i]} = ∅)) as [He|Hne]; [|by apply set_choose_L in Hne].
    assert (Hsub : setKeyPool w1 ⊆ {[i]}).
    { intros x Hx. apply elem_of_singleton. destruct (decide (x = i)) as [|Hxi]; [done|]. exfalso.
      apply (not_elem_of_empty (C := gset Z) x). rewrite <- He. by apply elem_of_difference; rewrite elem_of_singleton. }
    apply subseteq_size in Hsub. rewrite size_singleton in Hsub. lia. }
  split; [|split_and!; cbn [drawn with_pool]; done || lia]. apply (pool_move w1 _ out _ handed Hi1); try done.
  - apply key_ready_pool, Hi1.
  - intros k [Hk|Hk]; [left; set_solver|]. destruct (decide (k = i)) as [-> |Hne]; [by left|]. right. by rewrite lookup_insert_ne in Hk.
  - intros k kp'. rewrite lookup_insert_Some. cbn [setKeyPool with_pool]. intros [[<- <-]|[Hne Ho]].
    + split_and!; [done|set_solver|]. destruct Hj as [j Hj]. exists j. split; [done|]. specialize (Hmin j ltac:(set_solver)).
      assert (j <> i) by set_solver. lia.
    + destruct (pi_out _ _ _ Hi1 _ _ Ho) as (O1 & O2 & j & O3 & O4). split_and!; [done|set_solver|]. destruct Hj as [j' Hj'].
      destruct (decide (j = i)) as [-> |Hji]; [|exists j; split; [set_solver|done]]. exists j'. split; [done|].
      specialize (Hmin j' ltac:(set_solver)). lia.
Qed.

(** A reservation ends: its key is kept, or goes back to the pool. *)
Lemma Keep_ok i kp w out handed :
  pool_inv w out handed -> out !! i = Some kp -> pool_inv (KeepKey i w) (delete i out) (handed ++ [vchPubKey kp]).
Proof.
  intros Hi Ho. destruct (pi_out _ _ _ Hi _ _ Ho) as (O1 & O2 & O3). assert (Hli : live w out i) by (right; by eexists).
  assert (Hdb : forall j, j <> i -> db_pool (walletdb (KeepKey i w)) !! j = db_pool (walletdb w) !! j).
  { intros j Hj. unfold KeepKey, ErasePool. destruct (fFileBacked w); [|done]. cbn [walletdb with_db].
    destruct (negb _); [done|]. cbn. by rewrite lookup_delete_ne. }
  assert (Hp : setKeyPool (KeepKey i w) = setKeyPool w /\ drawn (KeepKey i w) = drawn w /\ store (KeepKey i w) = store w).
  { unfold KeepKey. by destruct (fFileBacked w). }
  destruct Hp as (P1 & P2 & P3). assert (Hl : forall j, live (KeepKey i w) (delete i out) j -> live w out j /\ j <> i).
  { intros j. unfold live. rewrite P1. intros [Hj|[kp' Hj]].
    - split; [by left|]. by intros ->.
    - apply lookup_delete_Some in Hj as [Hne Hj]. split; [right; by eexists|done]. }
  assert (Hm : pool_inv (KeepKey i w) (delete i out) handed).
  { apply (pool_move w _ out _ handed Hi).
    - unfold KeepKey, ErasePool. destruct (fFileBacked w); [|apply Hi]. pose proof (pi_ready _ _ _ Hi) as Hr. destruct (negb _); [by destruct Hr|].
      apply (key_ready_db w _ (setKeyPool w)); try done. apply Hr.
    - done.
    - done.
    - intros j Hj. by apply Hl.
    - intros j Hj. apply Hdb. by apply Hl.
    - intros j kp'. rewrite P1. intros Hj. apply lookup_delete_Some in Hj as [Hne Hj]. by apply (pi_out _ _ _ Hi). }
  destruct (pi_db _ _ _ Hi i Hli) as (kp0 & K1 & _ & _ & K4 & _). rewrite O1 in K1. injection K1 as <-. split.
  - apply Hm.
  - apply Hm.
  - apply Hm.
  - apply Hm.
  - intros k [Hk|Hk%list_elem_of_singleton]%elem_of_app; [by apply (pi_handed _ _ _ Hm)|]. subst k.
    split; [by apply (drawn_key_mono w); [lia|]|]. intros j kp' Hj Hkp' E'. destruct (Hl _ Hj) as [Hj' Hne]. rewrite Hdb in Hkp' by done.
    apply Hne. by apply (pi_distinct _ _ _ Hi j i kp' kp).
  - apply NoDup_app. split; [apply Hi|]. split; [|apply NoDup_singleton]. intros k Hk Hk'%list_elem_of_singleton. subst k.
    destruct (pi_handed _ _ _ Hi _ Hk) as [_ Hne]. by apply (Hne i kp).
Qed.

Lemma Return_ok i kp w out handed :
  pool_inv w out handed -> out !! i = Some kp -> pool_inv (ReturnKey i w) (delete i out) handed.
Proof.
  intros Hi Ho. apply (pool_move w _ out _ handed Hi); try done.
  - apply key_ready_pool, Hi.
  - intros j [Hj|[kp' Hj]].
    + cbn in Hj. apply elem_of_union in Hj as [->%elem_of_singleton|Hj]; [right; by eexists|by left].
    + apply lookup_delete_Some in Hj as [_ Hj]. right. by eexists.
  - intros j kp' Hj. apply lookup_delete_Some in Hj as [Hne Hj]. destruct (pi_out _ _ _ Hi _ _ Hj) as (O1 & O2 & j' & O3 & O4).
    cbn [setKeyPool ReturnKey with_pool]. split_and!; [done|set_solver|]. exists j'. split; [set_solver|done].
Qed.

(** Taking a key out of the pool for good *)
Lemma GetKey_ok now fAllowReuse w out handed :
  pool_inv w out handed -> Z.of_nat (drawn w) + 2 ^ 32 < KEYS ->
  exists pub w', GetKeyFromPool EC_KEY_generate_key i2d_ECPrivateKey keypool now fAllowReuse w = Returned (Some pub) w' /\
    pool_inv w' out (handed ++ [pub]) /\ (drawn w <= drawn w')%nat /\ Z.of_nat (drawn w') <= Z.of_nat (drawn w) + 2 ^ 32.
Proof.
  intros Hi Hb. unfold GetKeyFromPool. destruct (Reserve_ok now w out handed Hi Hb) as (i & kp & w1 & -> & H1 & Hi1 & Hno & Hd1 & Hd2).
  rewrite (proj2 (Z.eqb_neq i (-1))) by lia. pose proof (Keep_ok i kp w1 _ handed Hi1 ltac:(by rewrite lookup_insert_eq)) as Hk.
  rewrite delete_insert_id in Hk by done. eexists _, _. split; [done|]. split; [exact Hk|].
  assert (drawn (KeepKey i w1) = drawn w1) as -> by (unfold KeepKey; by destruct (fFileBacked w1)). done.
Qed.

Lemma Oldest_ok now w out handed :
  pool_inv w out handed -> Z.of_nat (drawn w) + 2 ^ 32 < KEYS ->
  exists t w', GetOldestKeyPoolTime EC_KEY_generate_key i2d_ECPrivateKey keypool now w = Returned t w' /\
    pool_inv w' out handed /\ (drawn w <= drawn w')%nat /\ Z.of_nat (drawn w') <= Z.of_nat (drawn w) + 2 ^ 32.
Proof.
  intros Hi Hb. unfold GetOldestKeyPoolTime. destruct (Reserve_ok now w out handed Hi Hb) as (i & kp & w1 & -> & H1 & Hi1 & Hno & Hd1 & Hd2).
  rewrite (proj2 (Z.eqb_neq i (-1))) by lia. pose proof (Return_ok i kp w1 _ handed Hi1 ltac:(by rewrite lookup_insert_eq)) as Hk.
  rewrite delete_insert_id in Hk by done. eexists _, _. split; [done|]. split; [exact Hk|]. done.
Qed.

(** A new pool, when nothing is reserved *)
Lemma new_pool_loop_ok n nIndex now w handed :
  pool_inv w ∅ handed -> Z.of_nat (drawn w) + Z.of_nat n < KEYS -> 1 <= nIndex <= Z.of_nat (drawn w) + 1 ->
  (forall i, i ∈ setKeyPool w -> i < nIndex) ->
  exists w', new_pool_loop EC_KEY_generate_key i2d_ECPrivateKey n nIndex now w = Returned tt w' /\ pool_inv w' ∅ handed /\
    drawn w' = (drawn w + n)%nat.
Proof.
  revert nIndex w. induction n as [|n IH]; intros nIndex w Hi Hb Hn Hp; cbn [new_pool_loop].
  { exists w. split_and!; [done|done|lia]. }
  destruct (GenerateNewKey_ok now w (pi_ready _ _ _ Hi) ltac:(lia)) as (pub & c & w1 & -> & Hr1 & Hm & Hk & Hv). cbn [call_bind].
  unfold WritePool. rewrite (kr_open _ Hr1). cbn [negb snd]. assert (Hlt : forall i, live w ∅ i -> i < nIndex).
  { intros i [Hin|[kp Ho]]; [by apply Hp|by rewrite lookup_empty in Ho]. }
  pose proof (pool_add now w ∅ handed pub c w1 nIndex Hi ltac:(lia) Hr1 Hm Hk Hv Hn Hlt) as Hi2.
  match type of Hi2 with pool_inv ?x _ _ => set (w2 := x) in *; change (with_pool _ _) with w2 end. pose proof Hm as (M1 & M2 & _).
  assert (Hd2 : drawn w2 = (drawn w + 1)%nat) by exact M1. destruct (IH (nIndex + 1) w2 Hi2) as (w' & Hrun & Hi' & Hd'); [lia|lia| |].
  - intros i Hin. cbn [w2 setKeyPool with_pool] in Hin. rewrite M2 in Hin. apply elem_of_union in Hin as [->%elem_of_singleton|Hin]; [lia|].
    specialize (Hp i Hin). lia.
  - exists w'. split_and!; [exact Hrun|done|lia].
Qed.

Lemma ErasePool_frame d l :
  db_open (foldr ErasePool d l) = db_open d /\ db_key (foldr ErasePool d l) = db_key d /\ db_ckey (foldr ErasePool d l) = db_ckey d.
Proof. induction l as [|i l IH]; [done|]. cbn [foldr]. unfold ErasePool at 1 3 5. by destruct (negb _). Qed.

Lemma NewKeyPool_ok now w handed :
  pool_inv w ∅ handed -> Z.of_nat (drawn w) + 2 ^ 32 < KEYS ->
  exists w', NewKeyPool EC_KEY_generate_key i2d_ECPrivateKey keypool now w = Returned true w' /\ pool_inv w' ∅ handed /\
    Z.of_nat (drawn w') <= Z.of_nat (drawn w) + 2 ^ 32.
Proof.
  intros Hi Hb. unfold NewKeyPool. set (d := foldr _ _ _). set (w0 := with_pool ∅ (with_db d w)).
  destruct (ErasePool_frame (walletdb w) (pool_items (setKeyPool w))) as (D1 & D2 & D3).
  assert (Hno : forall i, ~ live w0 ∅ i) by (intros i [Hin|[kp Ho]]; [by apply not_elem_of_empty in Hin|by rewrite lookup_empty in Ho]).
  assert (Hi0 : pool_inv w0 ∅ handed).
  { apply (pool_move w w0 ∅ ∅ handed Hi); try done; try (intros i Hl; by apply Hno in Hl).
    apply key_ready_db; [apply Hi| |done|done]. rewrite (D1 : db_open d = _). apply (kr_open _ (pi_ready _ _ _ Hi)). }
  change (store (with_pool ∅ (with_db d w))) with (store w0). rewrite (kr_unlocked _ (pi_ready _ _ _ Hi0)).
  destruct (new_pool_loop_ok (Z.to_nat (Z.max keypool 0)) 1 now w0 handed Hi0) as (w' & -> & Hi' & Hd).
  - change (drawn w0) with (drawn w). lia.
  - lia.
  - intros i Hin. by apply not_elem_of_empty in Hin.
  - exists w'. split_and!; [done|done|]. change (drawn w0) with (drawn w) in Hd. lia.
Qed.

(** ** Histories *)

Inductive pool_op :=
  | PTopUp (nSize now : Z)
  | PReserve (now : Z)
  | PKeep (nIndex : Z)
  | PReturn (nIndex : Z)
  | PGetKey (now : Z) (fAllowReuse : bool)
  | POldest (now : Z)
  | PNew (now : Z).

(** One operation, [None] where it throws; only reserved keys are kept or returned, and the
    pool is made anew only while nothing is reserved. *)
Definition run_pool_op (op : pool_op) (st : PoolState) : option PoolState :=
  let '(mkPoolState w out handed) := st in
  match op with
  | PTopUp nSize now =>
      match TopUpKeyPool EC_KEY_generate_key i2d_ECPrivateKey keypool nSize now w with
      | Returned _ w => Some (mkPoolState w out handed)
      | Thrown _ => None
      end
  | PReserve now =>
      match ReserveKeyFromKeyPool EC_KEY_generate_key i2d_ECPrivateKey keypool now w with
      | Returned kp (i, w) => Some (mkPoolState w (if i =? -1 then out else <[i := kp]> out) handed)
      | Thrown _ => None
      end
  | PKeep i =>
      match out !! i with
      | Some kp => Some (mkPoolState (KeepKey i w) (delete i out) (handed ++ [vchPubKey kp]))
      | None => Some st
      end
  | PReturn i =>
      match out !! i with
      | Some _ => Some (mkPoolState (ReturnKey i w) (delete i out) handed)
      | None => Some st
      end
  | PGetKey now fAllowReuse =>
      match GetKeyFromPool EC_KEY_generate_key i2d_ECPrivateKey keypool now fAllowReuse w with
      | Returned r w => Some (mkPoolState w out (handed ++ match r with Some pub => [pub] | None => [] end))
      | Thrown _ => None
      end
  | POldest now =>
      match GetOldestKeyPoolTime EC_KEY_generate_key i2d_ECPrivateKey keypool now w with
      | Returned _ w => Some (mkPoolState w out handed)
      | Thrown _ => None
      end
  | PNew now =>
      if bool_decide (out = ∅) then
        match NewKeyPool EC_KEY_generate_key i2d_ECPrivateKey keypool now w with
        | Returned _ w => Some (mkPoolState w out handed)
        | Thrown _ => None
        end
      else Some st
  end.

Fixpoint run_pool (ops : list pool_op) (st : PoolState) : option PoolState :=
  match ops with
  | [] => Some st
  | op :: r => st ← run_pool_op op st; run_pool r st
  end.

Lemma run_pool_op_ok op st :
  pool_ok st -> Z.of_nat (drawn (ps_wallet st)) + 2 ^ 32 < KEYS ->
  exists st', run_pool_op op st = Some st' /\ pool_ok st' /\
    Z.of_nat (drawn (ps_wallet st')) <= Z.of_nat (drawn (ps_wallet st)) + 2 ^ 32.
Proof.
  destruct st as [w out handed]. unfold pool_ok. cbn [ps_wallet ps_out ps_handed]. intros Hi Hb.
  assert (Hskip : exists st', Some (mkPoolState w out handed) = Some st' /\ pool_inv (ps_wallet st') (ps_out st') (ps_handed st') /\
    Z.of_nat (drawn (ps_wallet st')) <= Z.of_nat (drawn w) + 2 ^ 32) by (eexists; split; [done|]; split; [done|cbn; lia]).
  destruct op as [nSize now|now|i|i|now r|now|now]; cbn [run_pool_op].
  - unfold TopUpKeyPool. rewrite (kr_unlocked _ (pi_ready _ _ _ Hi)). set (n := if 0 <? nSize then _ else _).
    assert (Hu : 0 <= u32 (n + 1) < 2 ^ 32) by (apply (wrap_range 32); lia).
    destruct (topup_loop_ok (Z.to_nat (u32 (n + 1))) n now w out handed Hi) as (w' & -> & Hi' & Hd & _); [lia|lia|].
    eexists. split; [done|]. split; [done|]. cbn [ps_wallet]. lia.
  - destruct (Reserve_ok now w out handed Hi Hb) as (i & kp & w' & -> & H1 & Hi' & _ & _ & Hd). rewrite (proj2 (Z.eqb_neq i (-1))) by lia.
    eexists. by split.
  - destruct (out !! i) as [kp|] eqn:Eo; [|done].
    eexists. split; [done|]. split; [by apply Keep_ok|]. cbn [ps_wallet]. unfold KeepKey. destruct (fFileBacked w); cbn [drawn with_db]; lia.
  - destruct (out !! i) as [kp|] eqn:Eo; [|done].
    eexists. split; [done|]. split; [by eapply Return_ok|]. cbn. lia.
  - destruct (GetKey_ok now r w out handed Hi Hb) as (pub & w' & -> & Hi' & _ & Hd). eexists. by split.
  - destruct (Oldest_ok now w out handed Hi Hb) as (t & w' & -> & Hi' & _ & Hd). eexists. by split.
  - case_bool_decide as Ho; [|done]. subst out. destruct (NewKeyPool_ok now w handed Hi Hb) as (w' & -> & Hi' & Hd). eexists. by split.
Qed.

Lemma run_pool_ok ops st :
  pool_ok st -> Z.of_nat (drawn (ps_wallet st)) + 2 ^ 32 * Z.of_nat (length ops) < KEYS ->
  exists st', run_pool ops st = Some st' /\ pool_ok st'.
Proof.
  revert st. induction ops as [|op ops IH]; intros st Hi Hb; cbn [run_pool]; [by exists st|]. cbn [length] in Hb.
  destruct (run_pool_op_ok op st Hi) as (st' & -> & Hi' & Hd); [lia|]. cbn [mbind option_bind]. apply IH; [done|lia].
Qed.

Lemma pool_start w : key_ready w -> setKeyPool w = ∅ -> pool_inv w ∅ [].
Proof.
  intros Hr Hp. assert (Hno : forall i, ~ live w ∅ i) by (intros i [Hi|[kp Hi]]; [rewrite Hp in Hi; set_solver|by rewrite lookup_empty in Hi]).
  split; try done.
  - intros i Hi. by apply Hno in Hi.
  - intros i j kp kp' Hi. by apply Hno in Hi.
  - intros k Hk. by apply not_elem_of_nil in Hk.
  - constructor.
Qed.

(** The keys at work: given away, reserved, or in the pool *)
Definition key_at (st : PoolState) (i : Z) : option (list Z) := vchPubKey <$> db_pool (walletdb (ps_wallet st)) !! i.
Definition live_indices (st : PoolState) : list Z := (map_to_list (ps_out st)).*1 ++ pool_items (setKeyPool (ps_wallet st)).
Definition keys_at_work (st : PoolState) : list (list Z) := ps_handed st ++ omap (key_at st) (live_indices st).

Lemma live_indices_live st i : i ∈ live_indices st <-> live (ps_wallet st) (ps_out st) i.
Proof.
  unfold live_indices, live. rewrite elem_of_app, elem_of_pool_items, list_elem_of_fmap. split.
  - intros [([j kp] & -> & Hj)|Hp]; [right; apply elem_of_map_to_list in Hj; by eexists|by left].
  - intros [Hp|[kp Hk]]; [by right|left]. exists (i, kp). split; [done|]. by apply elem_of_map_to_list.
Qed.

Lemma live_indices_NoDup st : pool_ok st -> NoDup (live_indices st).
Proof.
  intros Hi. apply NoDup_app. split; [apply NoDup_fst_map_to_list|]. split.
  - intros i Hin Hp. apply list_elem_of_fmap in Hin as ([j kp] & -> & Hj). apply elem_of_map_to_list in Hj. apply elem_of_pool_items in Hp.
    by destruct (pi_out _ _ _ Hi _ _ Hj) as (_ & ? & _).
  - unfold pool_items. rewrite merge_sort_Permutation. apply NoDup_elements.
Qed.

Lemma omap_NoDup {A B} (f : A -> option B) l :
  NoDup l -> (forall x y z, x ∈ l -> y ∈ l -> f x = Some z -> f y = Some z -> x = y) -> NoDup (omap f l).
Proof.
  induction 1 as [|x l Hx Hl IH]; intros Hf; [constructor|]. cbn. assert (Hrest : NoDup (omap f l)) by (apply IH; intros; eapply Hf; eauto; by right).
  destruct (f x) as [z|] eqn:E'; [|done]. apply NoDup_cons. split; [|done]. intros Hz. apply list_elem_of_omap in Hz as (y & Hy & Hfy).
  apply Hx. by rewrite (Hf x y z) by (done || by left || by right).
Qed.

Lemma keys_at_work_NoDup st : pool_ok st -> NoDup (keys_at_work st).
Proof.
  intros Hi. apply NoDup_app. split; [apply Hi|]. split.
  - intros k Hk Hw. apply list_elem_of_omap in Hw as (i & Hli & Hkey). apply live_indices_live in Hli. unfold key_at in Hkey.
    apply fmap_Some in Hkey as (kp & Hkp & ->). destruct (pi_handed _ _ _ Hi _ Hk) as [_ Hne]. by apply (Hne i kp).
  - apply omap_NoDup; [by apply live_indices_NoDup|]. intros i j k Hli Hlj Hki Hkj. apply live_indices_live in Hli, Hlj. unfold key_at in *.
    apply fmap_Some in Hki as (kp & Hkp & ->). apply fmap_Some in Hkj as (kp' & Hkp' & Heq). by apply (pi_distinct _ _ _ Hi i j kp kp').
Qed.
End facts.

(** ** Properties *)

(** C25: Let the wallet be unlocked and its file writable, the keys still to be made not in
    it ([key_ready]), its pool empty, and "-keypool" at least 1, so that the pool keeps a
    spare key.  Then no history of topping up, reserving, keeping, returning and taking
    keys, and of making the pool anew while nothing is reserved, throws; and at its end
    the keys given away, those reserved and those in the pool are all different; each
    reservation still holds the key recorded in the file under its index, whose secret the
    wallet has, and that index is not in the pool.  Assumed of OpenSSL: the keys it makes
    are valid and differ, and the cipher encrypts; and fewer than 2^62 keys are made. *)
Theorem keypool_distinct {E : ECOps} {S : ECSecretOps E} {C : CipherOps} {H : HashOps} {HL : HashLaws H}
    (gen : nat -> EC_KEY) (i2d : EC_KEY -> list Z) {GL : GenLaws gen} {CT : CipherTotal} (keypool : Z) (w : WalletKeys) (ops : list pool_op) :
  1 <= keypool < 2 ^ 31 -> key_ready gen w -> setKeyPool w = ∅ ->
  Z.of_nat (drawn w) + 2 ^ 32 * Z.of_nat (length ops) < 2 ^ 62 ->
  exists st, run_pool gen i2d keypool ops (mkPoolState w ∅ []) = Some st /\ NoDup (keys_at_work st) /\
    (forall i kp, ps_out st !! i = Some kp ->
      db_pool (walletdb (ps_wallet st)) !! i = Some kp /\ i ∉ setKeyPool (ps_wallet st) /\
      crypto_HaveKey (store (ps_wallet st)) (CPubKey_GetID (vchPubKey kp)) = true).
Proof.
  intros Hk Hr Hp Hb. destruct (run_pool_ok gen i2d keypool Hk ops (mkPoolState w ∅ []) (pool_start gen keypool Hk w Hr Hp) Hb) as (st & Hrun & Hi).
  exists st. split; [done|]. split; [by apply (keys_at_work_NoDup gen)|]. intros i kp Ho. destruct (pi_out gen _ _ _ Hi _ _ Ho) as (O1 & O2 & _).
  split_and!; [done|done|]. destruct (pi_db gen _ _ _ Hi i) as (kp' & K1 & K2 & _); [right; by eexists|]. rewrite O1 in K1. by injection K1 as <-.
Qed.

(** Reserving from an empty pool with "-keypool=0" *)
Lemma Reserve_empty {E : ECOps} {S : ECSecretOps E} {C : CipherOps} {H : HashOps} {HL : HashLaws H}
    (gen : nat -> EC_KEY) (i2d : EC_KEY -> list Z) {GL : GenLaws gen} {CT : CipherTotal} w now :
  key_ready gen w -> setKeyPool w = ∅ -> Z.of_nat (drawn w) < KEYS ->
  exists pub c w', ReserveKeyFromKeyPool gen i2d 0 now w = Returned (mkKeyPool now pub) (1, w') /\ key_ready gen w' /\ setKeyPool w' = ∅ /\
    key_of gen (drawn w) c pub /\ drawn w' = (drawn w + 1)%nat /\ fFileBacked w' = fFileBacked w.
Proof.
  intros Hr Hp Hb. destruct (GenerateNewKey_ok gen i2d now w Hr Hb) as (pub & c & w1 & Hg & Hr1 & (M1 & M2 & M3 & _ & M5 & M6 & _) & Hk & Hv).
  set (d := db_set_pool (<[1 := mkKeyPool now pub]> (db_pool (walletdb w1))) (walletdb w1)). set (w2 := with_pool {[1]} (with_db d w1)).
  exists pub, c, (with_pool ∅ w2). assert (Hr2 : key_ready gen w2) by (apply key_ready_db; try done; apply Hr1).
  split; [|split_and!; try done; by apply key_ready_pool].
  unfold ReserveKeyFromKeyPool, TopUpKeyPool. rewrite (kr_unlocked _ _ Hr). cbn [negb]. change (0 <? 0) with false. cbn beta iota.
  change (u32 (Z.max 0 0)) with 0. change (u32 (0 + 1)) with 1. change (Z.to_nat 1) with 1%nat. cbn [topup_loop]. rewrite Hp, size_empty.
  change (Z.of_nat 0 <? u32 (0 + 1)) with true. cbn beta iota. rewrite pool_items_empty. cbn [last]. rewrite Hg. cbn [call_bind].
  unfold WritePool. rewrite (kr_open _ _ Hr1). cbn [negb]. fold d.
  assert (Hw2 : with_pool ({[1]} ∪ setKeyPool (with_db d w1)) (with_db d w1) = w2).
  { unfold w2. change (setKeyPool (with_db d w1)) with (setKeyPool w1). by rewrite M2, Hp, union_empty_r_L. }
  rewrite Hw2. cbn [call_bind].
  change (setKeyPool w2) with ({[1]} : gset Z). change (pool_items {[1]}) with [1]. cbn beta iota. rewrite difference_diag_L.
  unfold ReadPool. change (walletdb (with_pool ∅ w2)) with d. change (db_open d) with (db_open (walletdb w1)). rewrite (kr_open _ _ Hr1). cbn [negb].
  change (db_pool d) with (<[1 := mkKeyPool now pub]> (db_pool (walletdb w1))). rewrite lookup_insert_eq. cbn [vchPubKey].
  change (store (with_pool ∅ w2)) with (store w1). unfold have in M6. rewrite M6, Hv. done.
Qed.

(** Reserving from a pool whose only index has no record *)
Lemma Reserve_dangling {E : ECOps} {S : ECSecretOps E} {C : CipherOps} {H : HashOps}
    (gen : nat -> EC_KEY) (i2d : EC_KEY -> list Z) w now :
  IsLocked (store w) = false -> setKeyPool w = {[1]} -> db_pool (walletdb w) !! 1 = None ->
  ReserveKeyFromKeyPool gen i2d 0 now w = Thrown (1, with_pool ∅ w).
Proof.
  intros Hl Hs Hd. unfold ReserveKeyFromKeyPool, TopUpKeyPool. rewrite Hl. cbn [negb].
  change (u32 ((if 0 <? 0 then 0 else u32 (Z.max 0 0)) + 1)) with 1. change (Z.to_nat 1) with 1%nat. cbn [topup_loop].
  rewrite Hs, size_singleton. change (Z.of_nat 1 <? u32 ((if 0 <? 0 then 0 else u32 (Z.max 0 0)) + 1)) with false. cbn [call_bind].
  rewrite Hs. change (pool_items {[1]}) with [1]. cbn beta iota. rewrite difference_diag_L. unfold ReadPool. cbn [walletdb with_pool]. rewrite Hd.
  by destruct (negb _).
Qed.

(** C26: With "-keypool=0" the pool of an unlocked wallet with a file, empty at first, can
    lose a key: the only key is reserved under index 1, topping the empty pool up uses index 1 again and overwrites the record, so that a
    second reservation has the same index; when one reservation is kept and the other
    returned, the pool holds an index without a record.  Reserving a key then throws.
    The index has left the pool by then, so that after a call that drops it (as
    [GetKeyFromPool] does) the next one makes a key and succeeds; but a [CReserveKey] has
    taken it over, its destructor returns it, and the wallet is as it was: reserving
    through such an object, as a payment with change does, throws again and again. *)
Theorem keypool_index_reused {E : ECOps} {S : ECSecretOps E} {C : CipherOps} {H : HashOps} {HL : HashLaws H}
    (gen : nat -> EC_KEY) (i2d : EC_KEY -> list Z) {GL : GenLaws gen} {CT : CipherTotal} (w : WalletKeys) (now : Z) :
  key_ready gen w -> setKeyPool w = ∅ -> fFileBacked w = true -> Z.of_nat (drawn w) + 3 < 2 ^ 62 ->
  exists kp1 kp2 w1 w2,
    ReserveKeyFromKeyPool gen i2d 0 now w = Returned kp1 (1, w1) /\
    ReserveKeyFromKeyPool gen i2d 0 now w1 = Returned kp2 (1, w2) /\ vchPubKey kp1 <> vchPubKey kp2 /\
    let w3 := ReturnKey 1 (KeepKey 1 w2) in
    exists w4,
      ReserveKeyFromKeyPool gen i2d 0 now w3 = Thrown (1, w4) /\ setKeyPool w4 = ∅ /\
      (exists kp3 w5, ReserveKeyFromKeyPool gen i2d 0 now w4 = Returned kp3 (1, w5)) /\
      (exists k, GetReservedKey gen i2d 0 now CReserveKey_new w3 = Thrown (k, w4) /\ reserve_ReturnKey k w4 = (CReserveKey_new, w3)).
Proof.
  intros Hr Hp Hf Hb. destruct (Reserve_empty gen i2d w now Hr Hp) as (pub1 & c1 & w1 & E1 & Hr1 & Hp1 & K1 & D1 & F1); [unfold KEYS; lia|].
  destruct (Reserve_empty gen i2d w1 now Hr1 Hp1) as (pub2 & c2 & w2 & E2 & Hr2 & Hp2 & K2 & D2 & F2); [unfold KEYS; lia|].
  exists (mkKeyPool now pub1), (mkKeyPool now pub2), w1, w2. split; [exact E1|]. split; [exact E2|]. split.
  { cbn. intros ->. pose proof (gen_fresh _ (drawn w) (drawn w1) c1 c2 pub2 ltac:(unfold KEYS; lia) ltac:(unfold KEYS; lia) K1 K2). lia. }
  intros w3. assert (Hkeep : KeepKey 1 w2 = with_db (db_set_pool (delete 1 (db_pool (walletdb w2))) (walletdb w2)) w2).
  { unfold KeepKey, ErasePool. by rewrite F2, F1, Hf, (kr_open _ _ Hr2). }
  assert (Hs3 : setKeyPool w3 = {[1]}) by (subst w3; rewrite Hkeep; cbn; rewrite Hp2; apply union_empty_r_L).
  assert (Ht : ReserveKeyFromKeyPool gen i2d 0 now w3 = Thrown (1, with_pool ∅ w3)).
  { apply Reserve_dangling; [subst w3; rewrite Hkeep; apply Hr2|exact Hs3|]. subst w3. rewrite Hkeep. cbn. apply lookup_delete_eq. }
  exists (with_pool ∅ w3). split; [exact Ht|]. split; [done|]. split.
  - destruct (Reserve_empty gen i2d (with_pool ∅ w3) now) as (pub3 & _ & w5 & E3 & _); [|done|subst w3; rewrite Hkeep; cbn; unfold KEYS; lia|by exists (mkKeyPool now pub3), w5].
    subst w3. rewrite Hkeep. by apply (key_ready_db gen w2); [|apply Hr2|..].
  - exists (mkReserve 1 []). split.
    + unfold GetReservedKey. change (rk_nIndex CReserveKey_new =? -1) with true. cbn iota. by rewrite Ht.
    + unfold reserve_ReturnKey. cbn [rk_nIndex]. f_equal. change (1 =? -1) with false. cbn [negb]. unfold ReturnKey. cbn [setKeyPool with_pool].
      rewrite union_empty_r_L, <- Hs3. by destruct w3.
Qed.


(** ** Witnesses *)

(** Key n has secret n + 1. *)
Definition toy_gen (n : nat) : EC_KEY (ECOps := toy_ec) := mkToy (Some (Z.of_nat n + 1)) (Some (Z.of_nat n + 1)) false.
Definition toy_der (k : EC_KEY (ECOps := toy_ec)) : list Z := [].

Lemma toy_key_of n c : key_of (E := toy_ec) toy_gen n c (toy_encode (mkToy None (Some (Z.of_nat n + 1)) c)).
Proof. by destruct c. Qed.

#[export] Instance toy_gen_laws : GenLaws (E := toy_ec) (S := toy_secrets) toy_gen.
Proof.
  split.
  - intros n [|]; by eexists.
  - intros n c. eexists. split; [apply toy_key_of|]. by destruct c.
  - intros n m c c' pub Hn Hm K1 K2. unfold KEYS in *. pose proof (toy_key_of n c) as K3. pose proof (toy_key_of m c') as K4. unfold key_of in *.
    rewrite K1 in K3. rewrite K2 in K4. assert (Hk : toy_encode (mkToy None (Some (Z.of_nat n + 1)) c) = toy_encode (mkToy None (Some (Z.of_nat m + 1)) c')) by congruence.
    clear K1 K2 K3 K4. unfold toy_encode in Hk. cbn [toy_point toy_comp] in Hk.
    assert (Hv : forall (k : nat) x, 0 <= x < 2 ^ 63 -> (32 <= k)%nat -> le_val (le_bytes k x) = x).
    { intros k x Hx Hk'. rewrite digits_val_to_digits by lia. apply Z.mod_small. split; [lia|].
      apply Z.lt_le_trans with (256 ^ 32); [lia|]. apply Z.pow_le_mono_r; lia. }
    assert (Hl : forall l l' : list Z, l = l' -> le_val (tail l) = le_val (tail l')) by (by intros l l' ->).
    destruct c, c'; apply Hl in Hk; cbn [tail] in Hk; rewrite !Hv in Hk by lia; lia.
Qed.

#[export] Instance toy_cipher_total : CipherTotal (C := toy_cipher).
Proof. intros key iv p. by eexists. Qed.

Definition toy_wallet : WalletKeys := wallet_empty true (mkWalletDB true ∅ ∅ ∅ ∅ ∅ ∅ None).

Lemma toy_ready : key_ready (E := toy_ec) (H := toy_hash) toy_gen toy_wallet.
Proof. split; [reflexivity|done|reflexivity|]. intros n c pub _ _ _. split_and!; [apply lookup_empty|apply lookup_empty|]. apply not_elem_of_empty. Qed.

Lemma keypool_distinct_witness :
  exists st, run_pool (E := toy_ec) (S := toy_secrets) (C := toy_cipher) (H := toy_hash) toy_gen toy_der 1
    [PNew 4; PTopUp 0 5; PReserve 6; PReserve 7; PKeep 1; PReturn 2; PGetKey 8 true; POldest 9] (mkPoolState toy_wallet ∅ []) = Some st /\
    NoDup (keys_at_work st).
Proof.
  destruct (keypool_distinct (E := toy_ec) (S := toy_secrets) (C := toy_cipher) (H := toy_hash) toy_gen toy_der 1 toy_wallet
    [PNew 4; PTopUp 0 5; PReserve 6; PReserve 7; PKeep 1; PReturn 2; PGetKey 8 true; POldest 9]) as (st & Hrun & Hn & _);
    [lia|apply toy_ready|reflexivity|cbn; lia|]. exists st. split; [exact Hrun|exact Hn].
Defined.

Lemma keypool_index_reused_witness :
  exists kp1 kp2 w1 w2,
    ReserveKeyFromKeyPool (E := toy_ec) (S := toy_secrets) (C := toy_cipher) (H := toy_hash) toy_gen toy_der 0 5 toy_wallet = Returned kp1 (1, w1) /\
    ReserveKeyFromKeyPool (E := toy_ec) (S := toy_secrets) (C := toy_cipher) (H := toy_hash) toy_gen toy_der 0 5 w1 = Returned kp2 (1, w2) /\
    vchPubKey kp1 <> vchPubKey kp2 /\
    let w3 := ReturnKey 1 (KeepKey 1 w2) in
    exists w4,
      ReserveKeyFromKeyPool (E := toy_ec) (S := toy_secrets) (C := toy_cipher) (H := toy_hash) toy_gen toy_der 0 5 w3 = Thrown (1, w4) /\ setKeyPool w4 = ∅ /\
      (exists kp3 w5, ReserveKeyFromKeyPool (E := toy_ec) (S := toy_secrets) (C := toy_cipher) (H := toy_hash) toy_gen toy_der 0 5 w4 = Returned kp3 (1, w5)) /\
      (exists k, GetReservedKey (E := toy_ec) (S := toy_secrets) (C := toy_cipher) (H := toy_hash) toy_gen toy_der 0 5 CReserveKey_new w3 = Thrown (k, w4) /\
         reserve_ReturnKey k w4 = (CReserveKey_new, w3)).
Proof.
  apply (keypool_index_reused (E := toy_ec) (S := toy_secrets) (C := toy_cipher) (H := toy_hash) toy_gen toy_der toy_wallet 5);
    [apply toy_ready|reflexivity|reflexivity|cbn; lia].
Defined.
