(* ===== verification/Wallet.v ===== *)
(** * [wallet.h], [wallet.cpp], [main.cpp]: the transactions of a wallet, what they are
    worth and which coins can be spent

    A wallet keeps the transactions that concern its owner in [mapWallet], with a flag
    for each output that is spent.  The values a transaction has for the wallet are
    computed once and kept in the transaction ([mutable] members), so the methods that
    look like observers change it: here they run in the monad [wtxM], whose state is the
    transaction.  A cached value with its flag is an [option].  A pointer to a
    transaction of the wallet is its hash, the key of [mapWallet]. *)

From S2P Require Import Prelude.
From S2P Require Import Uint256.
From S2P Require Import Serialize.
From S2P Require Import Hash.
From S2P Require Import Transaction.
From S2P Require Import Script.
From S2P Require Import Key.
From S2P Require Import Templates.
From S2P Require Import KeyStore.
From S2P Require Import Sign.
From S2P Require Import Block.
From S2P Require Import TxRules.
From S2P Require Import Chain.
From S2P Require Import TxDB.
From S2P Require Import Connect.
From S2P Require Import MemPool.
From S2P Require Import BlockTree.
From S2P Require Import Reorganize.
From S2P Require Import KeyPool.

#[export] Instance CTxDestination_countable : Countable CTxDestination.
Proof.
  refine (inj_countable' (fun d => match d with CNoDestination => (0, []) | CKeyID k => (1, k) | CScriptID k => (2, k) end)
    (fun '(n, k) => if n =? 0 then CNoDestination else if n =? 1 then CKeyID k else CScriptID k) _).
  by intros [].
Defined.

(** ** Transactions with their place in the chain *)

Record CMerkleTx := mkMerkle {
  mtx : CTransaction;
  hashBlock : list Z;
  vMerkleBranch : list (list Z);
  mtx_nIndex : Z;
  fMerkleVerified : bool
}.

Definition CMerkleTx_of (tx : CTransaction) : CMerkleTx := mkMerkle tx zero256 [] (-1) false.

(** What the wallet has computed of a transaction.  [GetAvailableWatchCredit] keeps the
    value [true], 1, and never sets the flag, so the last field stays [None]. *)
Record WtxCache := mkCache {
  nDebitCached : option Z;
  nWatchDebitCached : option Z;
  nCreditCached : option Z;
  nAvailableCreditCached : option Z;
  nImmatureCreditCached : option Z;
  nImmatureWatchCreditCached : option Z;
  nChangeCached : option Z;
  nAvailableWatchCreditCached : option Z
}.
Definition no_cache : WtxCache := mkCache None None None None None None None None.

Record CWalletTx := mkWtx {
  merkle : CMerkleTx;
  vtxPrev : list CMerkleTx;
  mapValue : gmap (list Z) (list Z);
  vOrderForm : list (list Z * list Z);
  fTimeReceivedIsTxTime : Z;
  nTimeReceived : Z;
  nTimeSmart : Z;
  fFromMe : Z;
  strFromAccount : list Z;
  vfSpent : list bool;
  nOrderPos : Z;
  cache : WtxCache
}.
Abbreviation wtx_tx x := (mtx (merkle x)).
Abbreviation wtx_hash x := (CTransaction_GetHash (wtx_tx x)).

Definition CWalletTx_of (tx : CTransaction) : CWalletTx :=
  mkWtx (CMerkleTx_of tx) [] ∅ [] 0 0 0 0 [] [] (-1) no_cache.

Definition with_merkle (m : CMerkleTx) (x : CWalletTx) : CWalletTx :=
  mkWtx m (vtxPrev x) (mapValue x) (vOrderForm x) (fTimeReceivedIsTxTime x) (nTimeReceived x) (nTimeSmart x) (fFromMe x)
    (strFromAccount x) (vfSpent x) (nOrderPos x) (cache x).
Definition with_prev (p : list CMerkleTx) (x : CWalletTx) : CWalletTx :=
  mkWtx (merkle x) p (mapValue x) (vOrderForm x) (fTimeReceivedIsTxTime x) (nTimeReceived x) (nTimeSmart x) (fFromMe x)
    (strFromAccount x) (vfSpent x) (nOrderPos x) (cache x).
Definition with_times (received smart : Z) (x : CWalletTx) : CWalletTx :=
  mkWtx (merkle x) (vtxPrev x) (mapValue x) (vOrderForm x) (fTimeReceivedIsTxTime x) received smart (fFromMe x)
    (strFromAccount x) (vfSpent x) (nOrderPos x) (cache x).
Definition with_fFromMe (f : Z) (x : CWalletTx) : CWalletTx :=
  mkWtx (merkle x) (vtxPrev x) (mapValue x) (vOrderForm x) (fTimeReceivedIsTxTime x) (nTimeReceived x) (nTimeSmart x) f
    (strFromAccount x) (vfSpent x) (nOrderPos x) (cache x).
Definition with_nOrderPos (n : Z) (x : CWalletTx) : CWalletTx :=
  mkWtx (merkle x) (vtxPrev x) (mapValue x) (vOrderForm x) (fTimeReceivedIsTxTime x) (nTimeReceived x) (nTimeSmart x) (fFromMe x)
    (strFromAccount x) (vfSpent x) n (cache x).
Definition with_spent (v : list bool) (c : WtxCache) (x : CWalletTx) : CWalletTx :=
  mkWtx (merkle x) (vtxPrev x) (mapValue x) (vOrderForm x) (fTimeReceivedIsTxTime x) (nTimeReceived x) (nTimeSmart x) (fFromMe x)
    (strFromAccount x) v (nOrderPos x) c.
Definition with_cache (c : WtxCache) (x : CWalletTx) : CWalletTx := with_spent (vfSpent x) c x.

Definition set_debit v c := mkCache v (nWatchDebitCached c) (nCreditCached c) (nAvailableCreditCached c)
  (nImmatureCreditCached c) (nImmatureWatchCreditCached c) (nChangeCached c) (nAvailableWatchCreditCached c).
Definition set_watch_debit v c := mkCache (nDebitCached c) v (nCreditCached c) (nAvailableCreditCached c)
  (nImmatureCreditCached c) (nImmatureWatchCreditCached c) (nChangeCached c) (nAvailableWatchCreditCached c).
Definition set_credit v c := mkCache (nDebitCached c) (nWatchDebitCached c) v (nAvailableCreditCached c)
  (nImmatureCreditCached c) (nImmatureWatchCreditCached c) (nChangeCached c) (nAvailableWatchCreditCached c).
Definition set_available v c := mkCache (nDebitCached c) (nWatchDebitCached c) (nCreditCached c) v
  (nImmatureCreditCached c) (nImmatureWatchCreditCached c) (nChangeCached c) (nAvailableWatchCreditCached c).
Definition set_immature v c := mkCache (nDebitCached c) (nWatchDebitCached c) (nCreditCached c) (nAvailableCreditCached c)
  v (nImmatureWatchCreditCached c) (nChangeCached c) (nAvailableWatchCreditCached c).
Definition set_immature_watch v c := mkCache (nDebitCached c) (nWatchDebitCached c) (nCreditCached c) (nAvailableCreditCached c)
  (nImmatureCreditCached c) v (nChangeCached c) (nAvailableWatchCreditCached c).
Definition set_change v c := mkCache (nDebitCached c) (nWatchDebitCached c) (nCreditCached c) (nAvailableCreditCached c)
  (nImmatureCreditCached c) (nImmatureWatchCreditCached c) v (nAvailableWatchCreditCached c).
(** [fAvailableCreditCached = fAvailableWatchCreditCached = false] *)
Definition drop_available c := mkCache (nDebitCached c) (nWatchDebitCached c) (nCreditCached c) None
  (nImmatureCreditCached c) (nImmatureWatchCreditCached c) (nChangeCached c) None.

(** ** The spent flags *)

(** [vfSpent.resize(n)] *)
Definition resize_flags (n : nat) (v : list bool) : list bool := take n v ++ replicate (n - length v) false.

(** The loop of [UpdateSpent]: the new flags and whether one was set *)
Fixpoint update_flags (vfNewSpent vfSpent : list bool) : list bool * bool :=
  match vfNewSpent, vfSpent with
  | n :: new, o :: old => let '(v, b) := update_flags new old in ((o || n) :: v, (n && negb o) || b)
  | _, _ => (vfSpent, false)
  end.
Definition UpdateSpent (vfNewSpent : list bool) (x : CWalletTx) : bool * CWalletTx :=
  let '(v, fReturn) := update_flags vfNewSpent (vfSpent x) in
  (fReturn, with_spent v (if fReturn then drop_available (cache x) else cache x) x).

(** It clears neither the immature credits nor the watched ones. *)
Definition MarkDirty (x : CWalletTx) : CWalletTx :=
  with_cache (set_debit None (set_watch_debit None (set_credit None (set_change None (drop_available (cache x)))))) x.
Definition BindWallet (x : CWalletTx) : CWalletTx := MarkDirty x.

(** Flag [nOut] becomes [b]; [None] where it throws *)
Definition mark_flag (b : bool) (nOut : Z) (x : CWalletTx) : option CWalletTx :=
  if Z.of_nat (length (vout (wtx_tx x))) <=? nOut then None
  else
    let v := resize_flags (length (vout (wtx_tx x))) (vfSpent x) in
    Some (if eqb (default false (v !! Z.to_nat nOut)) b then with_spent v (cache x) x
          else with_spent (<[Z.to_nat nOut := b]> v) (drop_available (cache x)) x).
Definition MarkSpent : Z -> CWalletTx -> option CWalletTx := mark_flag true.
Definition MarkUnspent : Z -> CWalletTx -> option CWalletTx := mark_flag false.

Definition IsSpent (x : CWalletTx) (nOut : Z) : option bool :=
  if Z.of_nat (length (vout (wtx_tx x))) <=? nOut then None
  else Some (default false (vfSpent x !! Z.to_nat nOut)).

(** ** The monad of the methods: they may throw, and change what is cached *)

Definition wtxM (A : Type) : Type := CWalletTx -> option (A * CWalletTx).
#[export] Instance wtxM_ret : MRet wtxM := fun A a x => Some (a, x).
#[export] Instance wtxM_bind : MBind wtxM := fun A B k m x => '(a, x) ← m x; k a x.
Definition lift {A} (o : option A) : wtxM A := fun x => a ← o; Some (a, x).
Definition this : wtxM CWalletTx := fun x => Some (x, x).
(** The value in a cache, or the value computed and put there *)
Definition cached (get : WtxCache -> option Z) (set : option Z -> WtxCache -> WtxCache) (compute : option Z) : wtxM Z :=
  fun x =>
    match get (cache x) with
    | Some n => Some (n, x)
    | None => n ← compute; Some (n, with_cache (set (Some n) (cache x)) x)
    end.

(** ** The wallet *)

(** [-mininput], [-confchange], whether there is a user interface, [-keypool] *)
Record WalletOptions := mkOptions {
  nMinimumInputValue : Z;
  fConfChange : bool;
  fHaveGUI : bool;
  arg_keypool : Z
}.

(** [isminefilter] is a set of bits; so is what [IsMine] returns. *)
Definition mine_bits (m : isminetype) : Z :=
  match m with MINE_NO => 0 | MINE_WATCH_ONLY => 1 | MINE_SPENDABLE => 2 | MINE_ALL => 3 end.

Section wallet.
Context {E : ECOps} {SO : ECSecretOps E} {C : CipherOps} {H : HashOps}.

Record CWallet := mkWallet {
  wkeys : WalletKeys;
  mapWallet : gmap (list Z) CWalletTx;
  nOrderPosNext : Z;
  mapRequestCount : gmap (list Z) Z;
  mapAddressBook : gmap CTxDestination (list Z);
  setLockedCoins : gset COutPoint;
  db_tx : gmap (list Z) CWalletTx;          (** "tx" *)
  db_orderposnext : option Z;               (** "orderposnext" *)
  db_acentries : list (Z * Z)               (** "acentry" of account "": position and time *)
}.

Definition with_keys (k : WalletKeys) (w : CWallet) : CWallet :=
  mkWallet k (mapWallet w) (nOrderPosNext w) (mapRequestCount w) (mapAddressBook w) (setLockedCoins w) (db_tx w)
    (db_orderposnext w) (db_acentries w).
Definition with_txs (m : gmap (list Z) CWalletTx) (w : CWallet) : CWallet :=
  mkWallet (wkeys w) m (nOrderPosNext w) (mapRequestCount w) (mapAddressBook w) (setLockedCoins w) (db_tx w)
    (db_orderposnext w) (db_acentries w).
Definition with_order (n : Z) (d : option Z) (w : CWallet) : CWallet :=
  mkWallet (wkeys w) (mapWallet w) n (mapRequestCount w) (mapAddressBook w) (setLockedCoins w) (db_tx w) d (db_acentries w).
Definition with_requests (m : gmap (list Z) Z) (w : CWallet) : CWallet :=
  mkWallet (wkeys w) (mapWallet w) (nOrderPosNext w) m (mapAddressBook w) (setLockedCoins w) (db_tx w)
    (db_orderposnext w) (db_acentries w).
Definition with_book (b : gmap CTxDestination (list Z)) (w : CWallet) : CWallet :=
  mkWallet (wkeys w) (mapWallet w) (nOrderPosNext w) (mapRequestCount w) b (setLockedCoins w) (db_tx w)
    (db_orderposnext w) (db_acentries w).
Definition with_locked (l : gset COutPoint) (w : CWallet) : CWallet :=
  mkWallet (wkeys w) (mapWallet w) (nOrderPosNext w) (mapRequestCount w) (mapAddressBook w) l (db_tx w)
    (db_orderposnext w) (db_acentries w).
Definition with_db_tx (m : gmap (list Z) CWalletTx) (w : CWallet) : CWallet :=
  mkWallet (wkeys w) (mapWallet w) (nOrderPosNext w) (mapRequestCount w) (mapAddressBook w) (setLockedCoins w) m
    (db_orderposnext w) (db_acentries w).

(** The nesting of redeem scripts that [IsMine] follows; what the code reads of the
    rest of the program: the chain, and the options *)
Context (depth : nat) (par : Params) (s : ChainState) (opt : WalletOptions).

(** ** What is the wallet's *)

Section ownership.
Context (w : CWallet).

Definition IsMine_script (script : list Z) : isminetype := Sign.IsMine (K := crypto_keystore (store (wkeys w))) depth script.
Definition IsMine_out (txout : CTxOut) : isminetype := IsMine_script (scriptPubKey txout).

(** The output of a transaction of the wallet that an input spends *)
Definition prev_out (txin : CTxIn) : option CTxOut :=
  prev ← mapWallet w !! op_hash (prevout txin); vout (wtx_tx prev) !! Z.to_nat (op_n (prevout txin)).
Definition IsMine_in (txin : CTxIn) : isminetype :=
  match prev_out txin with Some txout => IsMine_out txout | None => MINE_NO end.

Definition matches (filter : Z) (m : isminetype) : bool := negb (mine_bits m .& filter =? 0).

Definition GetDebit_in (filter : Z) (txin : CTxIn) : Z :=
  match prev_out txin with
  | Some txout => if matches filter (IsMine_out txout) then nValue txout else 0
  | None => 0
  end.
Definition GetCredit_out (filter : Z) (txout : CTxOut) : option Z :=
  if negb (MoneyRange (nValue txout)) then None
  else Some (if matches filter (IsMine_out txout) then nValue txout else 0).

Definition IsChange (txout : CTxOut) : bool :=
  if bool_decide (IsMine_out txout = MINE_NO) then false
  else
    match ExtractDestination (scriptPubKey txout) with
    | None => true
    | Some address => negb (bool_decide (is_Some (mapAddressBook w !! address)))
    end.
Definition GetChange_out (txout : CTxOut) : option Z :=
  if negb (MoneyRange (nValue txout)) then None else Some (if IsChange txout then nValue txout else 0).

(** [n += v], which throws out of the range of money *)
Definition add_money (n v : Z) : option Z := let n := i64 (n + v) in if negb (MoneyRange n) then None else Some n.

Fixpoint debit_loop (filter : Z) (ins : list CTxIn) (nDebit : Z) : option Z :=
  match ins with
  | [] => Some nDebit
  | txin :: ins => nDebit ← add_money nDebit (GetDebit_in filter txin); debit_loop filter ins nDebit
  end.
Definition GetDebit_tx (filter : Z) (tx : CTransaction) : option Z := debit_loop filter (vin tx) 0.

(** [GetCredit] and [GetChange] of a transaction; [credit] is that of an output *)
Fixpoint credit_loop (credit : CTxOut -> option Z) (outs : list CTxOut) (nCredit : Z) : option Z :=
  match outs with
  | [] => Some nCredit
  | txout :: outs => v ← credit txout; nCredit ← add_money nCredit v; credit_loop credit outs nCredit
  end.
Definition GetCredit_tx (filter : Z) (tx : CTransaction) : option Z := credit_loop (GetCredit_out filter) (vout tx) 0.
Definition GetChange_tx (tx : CTransaction) : option Z := credit_loop GetChange_out (vout tx) 0.

Definition IsMine_tx (tx : CTransaction) : bool :=
  existsb (fun o => negb (bool_decide (IsMine_out o = MINE_NO)) && (nMinimumInputValue opt <=? nValue o)) (vout tx).
Definition IsFromMe_tx (tx : CTransaction) : option bool := nDebit ← GetDebit_tx 3 tx; Some (0 <? nDebit).
End ownership.

(** ** The place in the chain *)

(** The height of the best block *)
Definition best_height : Z :=
  match pindexBest s ≫= (mapBlockIndex s !!.) with Some b => bi_nHeight (node b) | None => 0 end.

Definition GetDepthInMainChainINTERNAL (m : CMerkleTx) : Z * CMerkleTx :=
  if bool_decide (hashBlock m = zero256) || (mtx_nIndex m =? -1) then (0, m)
  else
    match mapBlockIndex s !! hashBlock m with
    | None => (0, m)
    | Some pindex =>
        if negb (IsInMainChain (mapBlockIndex s) (pindexBest s) (hashBlock m)) then (0, m)
        else if negb (fMerkleVerified m) &&
          negb (bool_decide (CheckMerkleBranch (CTransaction_GetHash (mtx m)) (vMerkleBranch m) (mtx_nIndex m) = bi_hashMerkleRoot (node pindex)))
        then (0, m)
        else (best_height - bi_nHeight (node pindex) + 1, mkMerkle (mtx m) (hashBlock m) (vMerkleBranch m) (mtx_nIndex m) true)
    end.

Definition GetDepth (m : CMerkleTx) : Z * CMerkleTx :=
  let '(nResult, m) := GetDepthInMainChainINTERNAL m in
  (if (nResult =? 0) && negb (pool_exists (mempool s) (CTransaction_GetHash (mtx m))) then -1 else nResult, m).

(** The same methods of a transaction of the wallet *)
Definition GetDepthInMainChain : wtxM Z := fun x => let '(n, m) := GetDepth (merkle x) in Some (n, with_merkle m x).
Definition wtx_IsInMainChain : wtxM bool :=
  fun x => let '(n, m) := GetDepthInMainChainINTERNAL (merkle x) in Some (0 <? n, with_merkle m x).

Definition generated (tx : CTransaction) : bool := IsCoinBase tx || IsCoinStake tx.
Definition GetBlocksToMaturity : wtxM Z :=
  x ← this;
  if negb (generated (wtx_tx x)) then mret 0
  else nDepth ← GetDepthInMainChain; mret (Z.max 0 (nCoinbaseMaturity par + 20 - nDepth)).

Definition is_final (tx : CTransaction) : bool := IsFinalTx (cs_nBestHeight s) (now par) tx 0 0.

(** [a && b], where [b] is not evaluated when [a] is false *)
Definition and_then (a b : wtxM bool) : wtxM bool := v ← a; if (v : bool) then b else mret false.
Definition immature : wtxM bool := n ← GetBlocksToMaturity; mret (0 <? n).

(** ** What a transaction is worth *)

Section values.
Context (w : CWallet).

Definition GetDebit (filter : Z) : wtxM Z :=
  x ← this;
  match vin (wtx_tx x) with
  | [] => mret 0
  | _ =>
      a ← (if filter .& 2 =? 0 then mret 0 else cached nDebitCached set_debit (GetDebit_tx w 2 (wtx_tx x)) : wtxM Z);
      b ← (if filter .& 1 =? 0 then mret 0 else cached nWatchDebitCached set_watch_debit (GetDebit_tx w 1 (wtx_tx x)) : wtxM Z);
      mret (i64 (a + b))
  end.

Definition IsFromMe (filter : Z) : wtxM bool := n ← GetDebit filter; mret (0 <? n).

Definition wtx_GetCredit (fUseCache : bool) : wtxM Z :=
  x ← this;
  im ← and_then (mret (generated (wtx_tx x))) immature;
  if (im : bool) then mret 0
  else cached (if fUseCache then nCreditCached else fun _ => None) set_credit (GetCredit_tx w 3 (wtx_tx x)).

Definition immature_credit (filter : Z) (get : WtxCache -> option Z) (set : option Z -> WtxCache -> WtxCache)
    (fUseCache : bool) : wtxM Z :=
  x ← this;
  b ← and_then (mret (IsCoinBase (wtx_tx x))) (and_then immature wtx_IsInMainChain);
  if (b : bool) then cached (if fUseCache then get else fun _ => None) set (GetCredit_tx w filter (wtx_tx x)) else mret 0.
Definition GetImmatureCredit : bool -> wtxM Z := immature_credit 2 nImmatureCreditCached set_immature.
Definition GetImmatureWatchOnlyCredit : bool -> wtxM Z := immature_credit 1 nImmatureWatchCreditCached set_immature_watch.

(** The loop over the outputs of [GetAvailableCredit], from output [i] *)
Fixpoint available_loop (filter : Z) (x : CWalletTx) (outs : list CTxOut) (i nCredit : Z) : option Z :=
  match outs with
  | [] => Some nCredit
  | txout :: outs =>
      fSpent ← IsSpent x i;
      nCredit ← if (fSpent : bool) then Some nCredit else v ← GetCredit_out w filter txout; add_money nCredit v;
      available_loop filter x outs (i + 1) nCredit
  end.

Definition GetAvailableCredit (fUseCache : bool) : wtxM Z :=
  x ← this;
  im ← and_then (mret (generated (wtx_tx x))) immature;
  if (im : bool) then mret 0
  else cached (if fUseCache then nAvailableCreditCached else fun _ => None) set_available
         (available_loop 2 x (vout (wtx_tx x)) 0 0).

(** It never sets the flag of its cache. *)
Definition GetAvailableWatchCredit (fUseCache : bool) : wtxM Z :=
  x ← this;
  im ← and_then (mret (generated (wtx_tx x))) immature;
  if (im : bool) then mret 0
  else
    match (if fUseCache then nAvailableWatchCreditCached (cache x) else None) with
    | Some n => mret n
    | None => lift (available_loop 1 x (vout (wtx_tx x)) 0 0)
    end.

Definition wtx_GetChange : wtxM Z := x ← this; cached nChangeCached set_change (GetChange_tx w (wtx_tx x)).

(** ** [IsTrusted] *)

(** An entry of [vWorkQueue]: the transaction itself, or one of [vtxPrev] *)
Definition pointer := option nat.
Definition target (p : pointer) (x : CWalletTx) : option CMerkleTx :=
  match p with None => Some (merkle x) | Some k => vtxPrev x !! k end.
Definition pointer_depth (p : pointer) : wtxM Z :=
  match p with
  | None => GetDepthInMainChain
  | Some k => fun x => m ← vtxPrev x !! k; let '(n, m) := GetDepth m in Some (n, with_prev (<[k := m]> (vtxPrev x)) x)
  end.

(** [mapPrev]: the last of [vtxPrev] with that hash *)
Definition find_prev (x : CWalletTx) (h : list Z) : option nat :=
  last (filter (fun k => (fun m => CTransaction_GetHash (mtx m)) <$> vtxPrev x !! k = Some h) (seq 0 (length (vtxPrev x)))).
Definition find_inputs (x : CWalletTx) (ins : list CTxIn) : option (list pointer) :=
  mapM (fun txin => Some <$> find_prev x (op_hash (prevout txin))) ins.

(** The loop over [vWorkQueue]; [None] also when [fuel] runs out *)
Fixpoint trusted_loop (fuel : nat) (vWorkQueue : list pointer) : wtxM bool :=
  match vWorkQueue with
  | [] => mret true
  | p :: queue =>
      match fuel with
      | O => fun _ => None
      | S fuel =>
          x ← this;
          ptx ← lift (target p x);
          if negb (is_final (mtx ptx)) then mret false
          else
            nPDepth ← pointer_depth p;
            if 1 <=? nPDepth then trusted_loop fuel queue
            else if nPDepth <? 0 then mret false
            else
              mine ← lift (IsFromMe_tx w (mtx ptx));
              if negb (mine : bool) then mret false
              else
                match find_inputs x (vin (mtx ptx)) with
                | None => mret false
                | Some ps => trusted_loop fuel (queue ++ ps)
                end
      end
  end.

Definition IsTrusted (fuel : nat) : wtxM bool :=
  x ← this;
  if negb (is_final (wtx_tx x)) then mret false
  else
    nDepth ← GetDepthInMainChain;
    if 1 <=? nDepth then mret true
    else if nDepth <? 0 then mret false
    else
      mine ← and_then (mret (negb (fConfChange opt))) (IsFromMe 3);
      if negb (mine : bool) then mret false else trusted_loop fuel [None].
End values.

(** ** Loops over the wallet *)

(** [f] on every transaction, in the order of the map *)
Fixpoint wallet_loop {A} (f : list Z -> A -> wtxM A) (keys : list (list Z)) (acc : A) (m : gmap (list Z) CWalletTx) :
    option (A * gmap (list Z) CWalletTx) :=
  match keys with
  | [] => Some (acc, m)
  | h :: keys =>
      x ← m !! h;
      '(acc, x) ← f h acc x;
      wallet_loop f keys acc (<[h := x]> m)
  end.
Definition for_wallet {A} (f : CWallet -> list Z -> A -> wtxM A) (acc : A) (w : CWallet) : option (A * CWallet) :=
  '(acc, m) ← wallet_loop (f w) (map_entries (mapWallet w)).*1 acc (mapWallet w); Some (acc, with_txs m w).

(** The total of [value] over the transactions that satisfy [p] *)
Definition total (p : CWallet -> wtxM bool) (value : CWallet -> wtxM Z) : CWallet -> option (Z * CWallet) :=
  for_wallet (fun w _ nTotal => b ← p w; if (b : bool) then n ← value w; mret (i64 (nTotal + n)) else mret nTotal) 0.

Definition if_negb (m : wtxM bool) : wtxM bool := b ← m; mret (negb b).
Definition depth_is (test : Z -> bool) : wtxM bool := n ← GetDepthInMainChain; mret (test n).
Definition not_final : wtxM bool := x ← this; mret (negb (is_final (wtx_tx x))).
Definition or_else (a b : wtxM bool) : wtxM bool := v ← a; if (v : bool) then mret true else b.

Definition GetBalance (fuel : nat) := total (fun w => IsTrusted w fuel) (fun w => GetAvailableCredit w true).
Definition GetWatchOnlyBalance (fuel : nat) := total (fun w => IsTrusted w fuel) (fun w => GetAvailableWatchCredit w true).
Definition GetUnconfirmedBalance (fuel : nat) :=
  total (fun w => or_else not_final (and_then (if_negb (IsTrusted w fuel)) (depth_is (Z.eqb 0))))
    (fun w => GetAvailableCredit w true).
Definition GetUnconfirmedWatchOnlyBalance (fuel : nat) :=
  total (fun w => or_else not_final (if_negb (IsTrusted w fuel))) (fun w => GetAvailableWatchCredit w true).
Definition GetImmatureBalance := total (fun _ => mret true) (fun w => GetImmatureCredit w true).
Definition GetImmatureWatchOnlyBalance := total (fun _ => mret true) (fun w => GetImmatureWatchOnlyCredit w true).

(** [GetStake], [GetNewMint] and their watched forms *)
Definition generated_total (p : CTransaction -> bool) (filter : Z) :=
  total (fun _ => x ← this; and_then (mret (p (wtx_tx x))) (and_then immature (depth_is (Z.ltb 0))))
    (fun w => x ← this; lift (GetCredit_tx w filter (wtx_tx x))).
Definition GetStake := generated_total IsCoinStake 3.
Definition GetWatchOnlyStake := generated_total IsCoinStake 1.
Definition GetNewMint := generated_total IsCoinBase 3.
Definition GetWatchOnlyNewMint := generated_total IsCoinBase 1.

(** ** The coins that can be spent *)

Record COutput := mkOutput { out_tx : list Z; out_i : nat; out_nDepth : Z; out_fSpendable : bool }.

(** The outputs of [x], from output [i], that are the wallet's, not spent, and chosen *)
Fixpoint outputs_loop (w : CWallet) (h : list Z) (nDepth : Z) (chosen : nat -> CTxOut -> bool) (x : CWalletTx)
    (outs : list CTxOut) (i : nat) (vCoins : list COutput) : option (list COutput) :=
  match outs with
  | [] => Some vCoins
  | txout :: outs =>
      let mine := IsMine_out w txout in
      fSpent ← IsSpent x (Z.of_nat i);
      outputs_loop w h nDepth chosen x outs (S i)
        (if negb fSpent && negb (bool_decide (mine = MINE_NO)) && chosen i txout
         then vCoins ++ [mkOutput h i nDepth (bool_decide (mine = MINE_SPENDABLE))] else vCoins)
  end.

(** The transactions that satisfy [p], with their depth *)
Definition coins (p : CWallet -> wtxM bool) (chosen : list Z -> nat -> CTxOut -> bool) : CWallet -> option (list COutput * CWallet) :=
  for_wallet (fun w h vCoins =>
    b ← p w;
    if (b : bool) then
      nDepth ← GetDepthInMainChain;
      x ← this;
      lift (outputs_loop w h nDepth (chosen h) x (vout (wtx_tx x)) 0 vCoins)
    else mret vCoins) [].

(** [CCoinControl::setSelected]; there is no coin control when [NULL] is passed *)
Definition HasSelected (setSelected : gset COutPoint) : bool := negb (bool_decide (setSelected = ∅)).
Definition IsSelected (setSelected : gset COutPoint) (h : list Z) (n : nat) : bool :=
  bool_decide (mkOutPoint h (Z.of_nat n) ∈ setSelected).

Definition coin_usable (fuel : nat) (fOnlyConfirmed : bool) (w : CWallet) : wtxM bool :=
  x ← this;
  and_then (mret (is_final (wtx_tx x)))
    (and_then (if fOnlyConfirmed then IsTrusted w fuel else mret true)
      (and_then (if_negb (and_then (mret (IsCoinBase (wtx_tx x))) immature))
        (and_then (if_negb (and_then (mret (IsCoinStake (wtx_tx x))) immature))
          (depth_is (Z.leb 0))))).

Definition AvailableCoins (fuel : nat) (fOnlyConfirmed : bool) (coinControl : option (gset COutPoint)) :=
  coins (coin_usable fuel fOnlyConfirmed)
    (fun h i txout => (nMinimumInputValue opt <=? nValue txout) &&
       match coinControl with Some sel => negb (HasSelected sel) || IsSelected sel h i | None => true end).

Definition AvailableCoinsForStaking (nSpendTime : Z) :=
  coins (fun _ => x ← this;
      and_then (mret (u32 (nTime (wtx_tx x) + GetStakeMinAge (fTestNet par) (cs_nBestHeight s)) <=? nSpendTime))
        (and_then (if_negb immature) (depth_is (Z.leb 1))))
    (fun _ _ txout => nMinimumInputValue opt <=? nValue txout).

Definition AvailableCoinsMinConf (nConf nMinValue nMaxValue : Z) :=
  coins (fun _ => x ← this; and_then (mret (is_final (wtx_tx x))) (depth_is (Z.leb nConf)))
    (fun _ _ txout => (nMinValue <=? nValue txout) && (nValue txout <? nMaxValue)).

(** ** Locked coins *)

Definition LockCoin (o : COutPoint) (w : CWallet) : CWallet := with_locked ({[o]} ∪ setLockedCoins w) w.
Definition UnlockCoin (o : COutPoint) (w : CWallet) : CWallet := with_locked (setLockedCoins w ∖ {[o]}) w.
Definition UnlockAllCoins (w : CWallet) : CWallet := with_locked ∅ w.
Definition IsLockedCoin (h : list Z) (n : Z) (w : CWallet) : bool := bool_decide (mkOutPoint h n ∈ setLockedCoins w).
End wallet.
