(* ===== verification/WalletFacts.v ===== *)
(** * What the wallet remembers of a transaction is what it would compute

    [same] relates two states of a transaction that differ in what is cached only, and
    [cache_ok] says that every cached value is the one the wallet would compute now.
    [computes] is the triple for the methods of a transaction: they return the value of
    a pure function and keep both. *)

From stdpp Require Import sorting.
From S2P Require Import Prelude.
From S2P Require Import Uint256.
From S2P Require Import Hash.
From S2P Require Import Transaction.
From S2P Require Import Script.
From S2P Require Import Key.
From S2P Require Import Templates.
From S2P Require Import KeyStore.
From S2P Require Import Block.
From S2P Require Import TxRules.
From S2P Require Import Chain.
From S2P Require Import TxDB.

From S2P Require Import SigCheck.
From S2P Require Import Checkpoints.
From S2P Require Import Connect.
From S2P Require Import BlockConnect.
From S2P Require Import MemPool.
From S2P Require Import BlockTree.
From S2P Require Import Reorganize.
From S2P Require Import KeyPool.
From S2P Require Import Wallet.

(** ** Forgetting what is cached *)

Definition erase_merkle (m : CMerkleTx) : CMerkleTx := mkMerkle (mtx m) (hashBlock m) (vMerkleBranch m) (mtx_nIndex m) false.
Definition erase (x : CWalletTx) : CWalletTx :=
  with_cache no_cache (with_prev (erase_merkle <$> vtxPrev x) (with_merkle (erase_merkle (merkle x)) x)).
Definition same (x y : CWalletTx) : Prop := erase x = erase y.

#[export] Instance same_equiv : Equivalence same.
Proof. unfold same. split; [done|by intros ? ? ->|by intros ? ? ? -> ->]. Qed.

Lemma same_merkle x y : same x y -> erase_merkle (merkle x) = erase_merkle (merkle y).
Proof. unfold same. intros E. exact (f_equal merkle E). Qed.
Lemma same_tx x y : same x y -> wtx_tx x = wtx_tx y.
Proof. intros E%same_merkle. exact (f_equal mtx E). Qed.
Lemma same_spent x y : same x y -> vfSpent x = vfSpent y.
Proof. unfold same. intros E. exact (f_equal vfSpent E). Qed.
Lemma same_prev x y : same x y -> erase_merkle <$> vtxPrev x = erase_merkle <$> vtxPrev y.
Proof. unfold same. intros E. exact (f_equal vtxPrev E). Qed.
Lemma same_IsSpent x y i : same x y -> IsSpent x i = IsSpent y i.
Proof. intros E. unfold IsSpent. by rewrite (same_tx _ _ E), (same_spent _ _ E). Qed.

Lemma same_with_cache c x : same (with_cache c x) x.
Proof. done. Qed.
Lemma same_with_merkle m x : erase_merkle m = erase_merkle (merkle x) -> same (with_merkle m x) x.
Proof. unfold same, erase. cbn. by intros ->. Qed.
Lemma same_with_prev p x : erase_merkle <$> p = erase_merkle <$> vtxPrev x -> same (with_prev p x) x.
Proof. unfold same, erase. cbn. by intros ->. Qed.

Section facts.
Context {E : ECOps} {SO : ECSecretOps E} {C : CipherOps} {H : HashOps}.
Context (depth : nat) (par : Params) (s : ChainState) (opt : WalletOptions).

(** ** Depth *)

(** The depth of a transaction, its merkle branch always checked *)
Definition internal_depth (m : CMerkleTx) : Z := (GetDepthInMainChainINTERNAL s (erase_merkle m)).1.
Definition depth_value (m : CMerkleTx) : Z := (GetDepth s (erase_merkle m)).1.

(** The branch has been verified, and against the block it is said to be in *)
Definition verified_ok (m : CMerkleTx) : Prop :=
  fMerkleVerified m = true -> forall nd, mapBlockIndex s !! hashBlock m = Some nd ->
  CheckMerkleBranch (CTransaction_GetHash (mtx m)) (vMerkleBranch m) (mtx_nIndex m) = bi_hashMerkleRoot (node nd).

Lemma GetDepthINTERNAL_ok m :
  verified_ok m -> exists m', GetDepthInMainChainINTERNAL s m = (internal_depth m, m') /\ erase_merkle m' = erase_merkle m /\ verified_ok m'.
Proof.
  intros Hv. unfold internal_depth, GetDepthInMainChainINTERNAL. cbn [erase_merkle hashBlock mtx_nIndex mtx vMerkleBranch fMerkleVerified].
  destruct (bool_decide _ || _) eqn:E0; [by exists m|]. destruct (mapBlockIndex s !! hashBlock m) as [nd|] eqn:Em; [|by exists m].
  destruct (negb (IsInMainChain _ _ _)) eqn:E1; [by exists m|]. cbn [negb andb].
  destruct (bool_decide (CheckMerkleBranch _ _ _ = _)) eqn:E2; cbn [negb andb]; [|destruct (fMerkleVerified m) eqn:Ef; cbn [negb andb]].
  - rewrite andb_false_r. eexists. split; [reflexivity|]. split; [done|]. intros _ nd' Hnd. cbn in Hnd. rewrite Em in Hnd. injection Hnd as <-.
    by apply bool_decide_eq_true in E2.
  - apply bool_decide_eq_false in E2. exfalso. apply E2. by apply Hv.
  - by exists m.
Qed.

Lemma GetDepth_ok m :
  verified_ok m -> exists m', GetDepth s m = (depth_value m, m') /\ erase_merkle m' = erase_merkle m /\ verified_ok m'.
Proof.
  intros Hv. unfold depth_value, GetDepth. destruct (GetDepthINTERNAL_ok m Hv) as (m' & -> & He & Hv').
  unfold internal_depth. pose proof (f_equal mtx He) as Ht. change (mtx m' = mtx m) in Ht.
  destruct (GetDepthInMainChainINTERNAL s (erase_merkle m)) as [n m0] eqn:E0. cbn [fst].
  assert (Hm0 : mtx m0 = mtx m).
  { unfold GetDepthInMainChainINTERNAL in E0. repeat case_hyp E0; by simplify_eq. }
  exists m'. rewrite Ht, Hm0. done.
Qed.

Lemma depth_value_same m m' : erase_merkle m = erase_merkle m' -> depth_value m = depth_value m'.
Proof. unfold depth_value. by intros ->. Qed.

(** ** Values *)

Section wallet_values.
Context (w : CWallet).

Definition debit_value (filter : Z) (x : CWalletTx) : option Z :=
  match vin (wtx_tx x) with
  | [] => Some 0
  | _ =>
      a ← (if filter .& 2 =? 0 then Some 0 else GetDebit_tx depth w 2 (wtx_tx x));
      b ← (if filter .& 1 =? 0 then Some 0 else GetDebit_tx depth w 1 (wtx_tx x));
      Some (i64 (a + b))
  end.
Definition available_value (filter : Z) (x : CWalletTx) : option Z := available_loop depth w filter x (vout (wtx_tx x)) 0 0.

Definition maturity_value (x : CWalletTx) : Z :=
  if negb (generated (wtx_tx x)) then 0 else Z.max 0 (nCoinbaseMaturity par + 20 - depth_value (merkle x)).

Lemma debit_value_same f x y : same x y -> debit_value f x = debit_value f y.
Proof. intros Hs. unfold debit_value. by rewrite (same_tx _ _ Hs). Qed.
Lemma maturity_value_same x y : same x y -> maturity_value x = maturity_value y.
Proof. intros Hs. unfold maturity_value. by rewrite (same_tx _ _ Hs), (depth_value_same _ _ (same_merkle _ _ Hs)). Qed.

Lemma available_loop_same f x y outs i n : same x y -> available_loop depth w f x outs i n = available_loop depth w f y outs i n.
Proof.
  intros Hs. revert i n. induction outs as [|o outs IH]; intros i n; cbn [available_loop]; [done|]. rewrite (same_IsSpent x y i Hs).
  destruct (IsSpent y i) as [b|]; [|done]. cbn [mbind option_bind]. destruct (if b then Some n else _) as [n'|]; [|done]. apply IH.
Qed.
Lemma available_value_same f x y : same x y -> available_value f x = available_value f y.
Proof. intros Hs. unfold available_value. rewrite (same_tx _ _ Hs). by apply available_loop_same. Qed.

(** A cached value is the one that would be computed. *)
Definition holds (c o : option Z) : Prop := forall n, c = Some n -> o = Some n.

Record cache_ok (x : CWalletTx) : Prop := {
  co_verified : verified_ok (merkle x);
  co_prev : Forall verified_ok (vtxPrev x);
  co_debit : holds (nDebitCached (cache x)) (GetDebit_tx depth w 2 (wtx_tx x));
  co_watch_debit : holds (nWatchDebitCached (cache x)) (GetDebit_tx depth w 1 (wtx_tx x));
  co_credit : holds (nCreditCached (cache x)) (GetCredit_tx depth w 3 (wtx_tx x));
  co_available : holds (nAvailableCreditCached (cache x)) (available_value 2 x);
  co_immature : holds (nImmatureCreditCached (cache x)) (GetCredit_tx depth w 2 (wtx_tx x));
  co_immature_watch : holds (nImmatureWatchCreditCached (cache x)) (GetCredit_tx depth w 1 (wtx_tx x));
  co_change : holds (nChangeCached (cache x)) (GetChange_tx depth w (wtx_tx x));
  co_available_watch : holds (nAvailableWatchCreditCached (cache x)) (available_value 1 x)
}.

Lemma holds_none o : holds None o.
Proof. by intros n. Qed.
Lemma holds_some n o : o = Some n -> holds (Some n) o.
Proof. by intros -> n' [= ->]. Qed.

(** [m], run on [x], returns [o] or throws when [o] is [None], and only caches. *)
Definition computes {A} (x : CWalletTx) (m : wtxM A) (o : option A) : Prop :=
  match o with
  | Some a => exists x', m x = Some (a, x') /\ same x' x /\ cache_ok x'
  | None => m x = None
  end.

Lemma computes_ret {A} x (a : A) : cache_ok x -> computes x (mret a) (Some a).
Proof. intros Hx. by exists x. Qed.
Lemma computes_lift {A} x (o : option A) : cache_ok x -> computes x (lift o) o.
Proof. intros Hx. unfold computes, lift. destruct o as [a|]; [by exists x|done]. Qed.
Lemma computes_this {A} x (k : CWalletTx -> wtxM A) o : computes x (k x) o -> computes x (this ≫= k) o.
Proof. done. Qed.

Lemma computes_bind {A B} x (m : wtxM A) (k : A -> wtxM B) o (u : A -> option B) :
  computes x m o -> (forall a x', o = Some a -> same x' x -> cache_ok x' -> computes x' (k a) (u a)) -> computes x (m ≫= k) (o ≫= u).
Proof.
  intros Hm Hk. unfold computes in Hm. unfold mbind at 1, wtxM_bind. destruct o as [a|]; cbn [mbind option_bind].
  - destruct Hm as (x' & Em & Hs & Hx'). specialize (Hk a x' eq_refl Hs Hx'). unfold computes in *. rewrite Em. cbn [mbind option_bind].
    destruct (u a) as [b|]; [|done]. destruct Hk as (x'' & -> & Hs' & Hx''). exists x''. split_and!; [done|by transitivity x'|done].
  - unfold computes. by rewrite Hm.
Qed.

(** After a step whose value is known *)
Lemma computes_seq {A B} x (m : wtxM A) (k : A -> wtxM B) a o :
  computes x m (Some a) -> (forall x', same x' x -> cache_ok x' -> computes x' (k a) o) -> computes x (m ≫= k) o.
Proof. intros Hm Hk. apply (computes_bind x m k (Some a) (fun _ => o) Hm). intros ? x' [= <-]. apply Hk. Qed.

Lemma computes_eq {A} x (m : wtxM A) o o' : computes x m o -> o = o' -> computes x m o'.
Proof. by intros ? <-. Qed.

Lemma computes_cached x get set compute :
  cache_ok x -> holds (get (cache x)) compute -> (forall n, compute = Some n -> cache_ok (with_cache (set (Some n) (cache x)) x)) ->
  computes x (cached get set compute) compute.
Proof.
  intros Hx Hg Hs. unfold computes, cached. destruct (get (cache x)) as [n|] eqn:Eg.
  - rewrite (Hg n eq_refl). by exists x.
  - destruct compute as [n|]; [|done]. eexists. split; [done|]. split; [apply same_with_cache|by apply Hs].
Qed.

Lemma cache_ok_merkle x m : cache_ok x -> erase_merkle m = erase_merkle (merkle x) -> verified_ok m -> cache_ok (with_merkle m x).
Proof.
  intros [] Hm Hv. assert (Ht : mtx m = wtx_tx x) by (exact (f_equal mtx Hm)).
  assert (Ha : forall f, available_value f (with_merkle m x) = available_value f x) by (intros f; apply available_value_same; by apply same_with_merkle).
  split; cbn [with_merkle cache merkle vtxPrev]; rewrite ?Ht, ?Ha; done.
Qed.
Lemma cache_ok_prev x p : cache_ok x -> erase_merkle <$> p = erase_merkle <$> vtxPrev x -> Forall verified_ok p -> cache_ok (with_prev p x).
Proof.
  intros [] Hm Hv. assert (Ha : forall f, available_value f (with_prev p x) = available_value f x) by (intros f; apply available_value_same; by apply same_with_prev).
  split; cbn [with_prev cache merkle vtxPrev]; rewrite ?Ha; done.
Qed.

Lemma cache_ok_cache x c :
  cache_ok x ->
  holds (nDebitCached c) (GetDebit_tx depth w 2 (wtx_tx x)) -> holds (nWatchDebitCached c) (GetDebit_tx depth w 1 (wtx_tx x)) ->
  holds (nCreditCached c) (GetCredit_tx depth w 3 (wtx_tx x)) -> holds (nAvailableCreditCached c) (available_value 2 x) ->
  holds (nImmatureCreditCached c) (GetCredit_tx depth w 2 (wtx_tx x)) ->
  holds (nImmatureWatchCreditCached c) (GetCredit_tx depth w 1 (wtx_tx x)) -> holds (nChangeCached c) (GetChange_tx depth w (wtx_tx x)) ->
  holds (nAvailableWatchCreditCached c) (available_value 1 x) -> cache_ok (with_cache c x).
Proof.
  intros []. assert (Ha : forall f, available_value f (with_cache c x) = available_value f x) by (intros f; by apply available_value_same).
  intros. split; cbn [with_cache with_spent cache merkle vtxPrev]; rewrite ?Ha; done.
Qed.
(** After one cache has been filled *)
Ltac refill Hx := apply cache_ok_cache; cbn [nDebitCached nWatchDebitCached nCreditCached nAvailableCreditCached nImmatureCreditCached
  nImmatureWatchCreditCached nChangeCached nAvailableWatchCreditCached set_debit set_watch_debit set_credit set_available set_immature
  set_immature_watch set_change]; try apply Hx; by apply holds_some.

Lemma computes_depth x : cache_ok x -> computes x (GetDepthInMainChain s) (Some (depth_value (merkle x))).
Proof.
  intros Hx. destruct (GetDepth_ok (merkle x)) as (m' & Eg & He & Hv); [apply Hx|]. exists (with_merkle m' x). unfold GetDepthInMainChain. rewrite Eg.
  split; [done|]. split; [by apply same_with_merkle|by apply cache_ok_merkle].
Qed.
Lemma computes_in_chain x : cache_ok x -> computes x (wtx_IsInMainChain s) (Some (0 <? internal_depth (merkle x))).
Proof.
  intros Hx. destruct (GetDepthINTERNAL_ok (merkle x)) as (m' & Eg & He & Hv); [apply Hx|]. exists (with_merkle m' x). unfold wtx_IsInMainChain. rewrite Eg.
  split; [done|]. split; [by apply same_with_merkle|by apply cache_ok_merkle].
Qed.

Lemma computes_maturity x : cache_ok x -> computes x (GetBlocksToMaturity par s) (Some (maturity_value x)).
Proof.
  intros Hx. apply computes_this. unfold maturity_value. destruct (generated (wtx_tx x)); cbn [negb]; [|by apply computes_ret].
  eapply computes_seq; [by apply computes_depth|]. intros x' _ Hx'. by apply computes_ret.
Qed.

Lemma computes_and_then x (a b : wtxM bool) va vb :
  computes x a (Some va) -> (va = true -> forall x', same x' x -> cache_ok x' -> computes x' b vb) ->
  computes x (and_then a b) (if va then vb else Some false).
Proof.
  intros Ha Hb. eapply computes_seq; [exact Ha|]. intros x' Hs Hx'. destruct va; [by apply Hb|by apply computes_ret].
Qed.

Lemma computes_immature x : cache_ok x -> computes x (immature par s) (Some (0 <? maturity_value x)).
Proof.
  intros Hx. eapply computes_seq; [by apply computes_maturity|]. intros x' _ Hx'. by apply computes_ret.
Qed.

Lemma computes_debit filter x : cache_ok x -> computes x (GetDebit depth w filter) (debit_value filter x).
Proof.
  intros Hx. apply computes_this. unfold debit_value. destruct (vin (wtx_tx x)) as [|i ins] eqn:Ev; [by apply computes_ret|].
  eapply computes_bind.
  { destruct (filter .& 2 =? 0); [by apply computes_ret|]. apply computes_cached; [done|apply Hx|]. intros n Hn. refill Hx. }
  intros a x' _ Hs Hx'. eapply computes_bind.
  { destruct (filter .& 1 =? 0); [by apply computes_ret|]. rewrite <- (same_tx _ _ Hs). apply computes_cached; [done|apply Hx'|]. intros n Hn. refill Hx'. }
  intros b x'' _ Hs' Hx''. by apply computes_ret.
Qed.

(** [IsFromMe] *)
Definition from_me_value (x : CWalletTx) : option bool := n ← debit_value 3 x; Some (0 <? n).
Lemma computes_from_me x : cache_ok x -> computes x (IsFromMe depth w 3) (from_me_value x).
Proof. intros Hx. eapply computes_bind; [by apply computes_debit|]. intros n x' _ _ Hx'. by apply computes_ret. Qed.

Definition available_credit_value (filter : Z) (x : CWalletTx) : option Z :=
  if generated (wtx_tx x) && (0 <? maturity_value x) then Some 0 else available_value filter x.

Lemma computes_immature_generated x :
  cache_ok x -> computes x (and_then (mret (generated (wtx_tx x))) (immature par s)) (Some (generated (wtx_tx x) && (0 <? maturity_value x))).
Proof.
  intros Hx. eapply computes_eq; [apply (computes_and_then _ _ _ (generated (wtx_tx x)) (Some (0 <? maturity_value x))); [by apply computes_ret|]|].
  - intros _ x' Hs Hx'. rewrite <- (maturity_value_same _ _ Hs). by apply computes_immature.
  - by destruct (generated (wtx_tx x)).
Qed.

Lemma computes_available x : cache_ok x -> computes x (GetAvailableCredit depth par s w true) (available_credit_value 2 x).
Proof.
  intros Hx. apply computes_this. unfold available_credit_value. eapply computes_seq; [by apply computes_immature_generated|]. intros x' Hs Hx'.
  destruct (generated _ && _); [by apply computes_ret|]. fold (available_value 2 x). rewrite <- (available_value_same 2 _ _ Hs).
  apply computes_cached; [done|apply Hx'|]. intros n Hn. refill Hx'.
Qed.

Lemma computes_available_watch x : cache_ok x -> computes x (GetAvailableWatchCredit depth par s w true) (available_credit_value 1 x).
Proof.
  intros Hx. apply computes_this. unfold available_credit_value. eapply computes_seq; [by apply computes_immature_generated|]. intros x' Hs Hx'.
  destruct (generated _ && _); [by apply computes_ret|]. destruct (nAvailableWatchCreditCached (cache x)) as [n|] eqn:En; [|by apply computes_lift].
  rewrite (co_available_watch _ Hx n En). by apply computes_ret.
Qed.

(** ** Trust *)

Fixpoint trusted_loop_value (fuel : nat) (x : CWalletTx) (queue : list pointer) : option bool :=
  match queue with
  | [] => Some true
  | p :: queue =>
      match fuel with
      | O => None
      | S fuel =>
          m ← target p x;
          if negb (is_final par s (mtx m)) then Some false
          else if 1 <=? depth_value m then trusted_loop_value fuel x queue
          else if depth_value m <? 0 then Some false
          else
            mine ← IsFromMe_tx depth w (mtx m);
            if negb mine then Some false
            else match find_inputs x (vin (mtx m)) with
                 | None => Some false
                 | Some ps => trusted_loop_value fuel x (queue ++ ps)
                 end
      end
  end.
Definition trusted_value (fuel : nat) (x : CWalletTx) : option bool :=
  if negb (is_final par s (wtx_tx x)) then Some false
  else if 1 <=? depth_value (merkle x) then Some true
  else if depth_value (merkle x) <? 0 then Some false
  else
    mine ← (if fConfChange opt then Some false else from_me_value x);
    if negb mine then Some false else trusted_loop_value fuel x [None].

Lemma target_same p x y m : same x y -> target p x = Some m -> exists m', target p y = Some m' /\ erase_merkle m' = erase_merkle m.
Proof.
  intros Hs Ht. destruct p as [k|]; cbn [target] in *.
  - pose proof (f_equal (.!! k) (same_prev _ _ Hs)) as Hk. rewrite !list_lookup_fmap, Ht in Hk. cbn in Hk. symmetry in Hk.
    apply fmap_Some in Hk as (m' & -> & Hm'). by exists m'.
  - injection Ht as <-. exists (merkle y). split; [done|]. symmetry. by apply same_merkle.
Qed.

Lemma find_prev_same x y h : same x y -> find_prev x h = find_prev y h.
Proof.
  intros Hs. unfold find_prev. pose proof (same_prev _ _ Hs) as Hp. assert (Hl : length (vtxPrev x) = length (vtxPrev y)).
  { pose proof (f_equal length Hp) as Hl. by rewrite !length_fmap in Hl. }
  rewrite Hl. f_equal. apply list_filter_iff. intros k. pose proof (f_equal (.!! k) Hp) as Hk. rewrite !list_lookup_fmap in Hk.
  destruct (vtxPrev x !! k) as [m|], (vtxPrev y !! k) as [m'|]; cbn in *; try done. injection Hk as Hk. by rewrite Hk.
Qed.
Lemma find_inputs_same x y ins : same x y -> find_inputs x ins = find_inputs y ins.
Proof. intros Hs. unfold find_inputs. apply mapM_ext. intros i. by rewrite (find_prev_same x y). Qed.

Lemma trusted_loop_value_same fuel x y queue : same x y -> trusted_loop_value fuel x queue = trusted_loop_value fuel y queue.
Proof.
  intros Hs. revert queue. induction fuel as [|fuel IH]; intros [|p queue]; try done. cbn [trusted_loop_value].
  destruct (target p x) as [m|] eqn:Et.
  - destruct (target_same _ _ _ _ Hs Et) as (m' & -> & He). cbn [mbind option_bind]. rewrite (depth_value_same _ _ He).
    pose proof (f_equal mtx He : mtx m' = mtx m) as ->. rewrite IH. destruct (negb _); [done|]. destruct (1 <=? _); [done|]. destruct (_ <? 0); [done|].
    destruct (IsFromMe_tx depth w (mtx m)) as [b|]; [|done]. cbn [mbind option_bind]. destruct (negb b); [done|].
    rewrite (find_inputs_same _ _ _ Hs). destruct (find_inputs y _); [apply IH|done].
  - destruct (target p y) as [m|] eqn:Et'; [|done]. symmetry in Hs. destruct (target_same _ _ _ _ Hs Et') as (m' & ? & _). congruence.
Qed.

Lemma trusted_value_same fuel x y : same x y -> trusted_value fuel x = trusted_value fuel y.
Proof.
  intros Hs. unfold trusted_value, from_me_value. rewrite (same_tx _ _ Hs), (depth_value_same _ _ (same_merkle _ _ Hs)), (debit_value_same 3 _ _ Hs).
  by rewrite (trusted_loop_value_same fuel _ _ _ Hs).
Qed.

Lemma computes_pointer_depth p x m : cache_ok x -> target p x = Some m -> computes x (pointer_depth s p) (Some (depth_value m)).
Proof.
  intros Hx Ht. destruct p as [k|]; cbn [target pointer_depth] in *.
  - pose proof (co_prev _ Hx) as Hf. destruct (GetDepth_ok m) as (m' & Eg & He & Hv); [by eapply Forall_lookup_1|].
    exists (with_prev (<[k := m']> (vtxPrev x)) x). rewrite Ht. cbn [mbind option_bind]. rewrite Eg. split; [done|].
    assert (Hp : erase_merkle <$> <[k := m']> (vtxPrev x) = erase_merkle <$> vtxPrev x).
    { rewrite list_fmap_insert, He, <- list_fmap_insert. f_equal. by apply list_insert_id. }
    split; [by apply same_with_prev|]. apply cache_ok_prev; [done|done|]. by apply Forall_insert.
  - injection Ht as <-. by apply computes_depth.
Qed.

Lemma computes_trusted_loop fuel x queue :
  cache_ok x -> computes x (trusted_loop depth par s w fuel queue) (trusted_loop_value fuel x queue).
Proof.
  revert x queue. induction fuel as [|fuel IH]; intros x [|p queue] Hx; [by apply computes_ret|done|by apply computes_ret|].
  cbn [trusted_loop trusted_loop_value]. apply computes_this. destruct (target p x) as [m|] eqn:Et; cbn [mbind option_bind]; [|done].
  eapply computes_seq; [by apply (computes_lift x (Some m))|]. intros x1 Hs1 Hx1. destruct (negb (is_final par s (mtx m))); [by apply computes_ret|].
  destruct (target_same p x x1 m ltac:(by symmetry) Et) as (m1 & Et1 & He1).
  eapply computes_seq; [by apply (computes_pointer_depth p x1 m1)|]. intros x2 Hs2 Hx2. rewrite (depth_value_same _ _ He1).
  assert (Hs : same x2 x) by (by transitivity x1).
  destruct (1 <=? _); [rewrite <- (trusted_loop_value_same fuel _ _ _ Hs); by apply IH|]. destruct (_ <? 0); [by apply computes_ret|].
  eapply computes_bind; [by apply computes_lift|]. intros mine x3 _ Hs3 Hx3. destruct (negb mine); [by apply computes_ret|].
  destruct (find_inputs x _) as [ps|]; [|by apply computes_ret].
  rewrite <- (trusted_loop_value_same fuel x3 x) by (by transitivity x2). by apply IH.
Qed.

Lemma computes_trusted fuel x : cache_ok x -> computes x (IsTrusted depth par s opt w fuel) (trusted_value fuel x).
Proof.
  intros Hx. apply computes_this. unfold trusted_value. destruct (negb (is_final par s (wtx_tx x))); [by apply computes_ret|].
  eapply computes_seq; [by apply computes_depth|]. intros x1 Hs1 Hx1. destruct (1 <=? _); [by apply computes_ret|]. destruct (_ <? 0); [by apply computes_ret|].
  eapply computes_bind.
  { eapply computes_eq; [apply (computes_and_then _ _ _ (negb (fConfChange opt)) (from_me_value x)); [by apply computes_ret|]|by destruct (fConfChange opt)].
    intros _ x2 Hs2 Hx2. unfold from_me_value. rewrite <- (debit_value_same 3 x2 x) by (by transitivity x1). by apply computes_from_me. }
  intros mine x3 _ Hs3 Hx3. destruct (negb mine); [by apply computes_ret|].
  rewrite <- (trusted_loop_value_same fuel x3 x) by (by transitivity x1). by apply computes_trusted_loop.
Qed.

(** ** The work queue of [IsTrusted] ends *)

Lemma trusted_loop_more fuel fuel' x queue b :
  trusted_loop_value fuel x queue = Some b -> (fuel <= fuel')%nat -> trusted_loop_value fuel' x queue = Some b.
Proof.
  revert fuel' queue. induction fuel as [|fuel IH]; intros [|fuel'] [|p queue] Hb Hf; try done; try lia.
  cbn [trusted_loop_value] in *. destruct (target p x) as [m|]; [|done]. cbn [mbind option_bind] in *. destruct (negb _); [done|].
  destruct (1 <=? _); [apply IH; [done|lia]|]. destruct (_ <? 0); [done|]. destruct (IsFromMe_tx _ _ _) as [mine|]; [|done]. cbn [mbind option_bind] in *.
  destruct (negb mine); [done|]. destruct (find_inputs x _); [apply IH; [done|lia]|done].
Qed.

(** No transaction among [vtxPrev] leads back to itself. *)
Definition acyclic (x : CWalletTx) : Prop :=
  exists rank : nat -> nat, forall k m txin j, vtxPrev x !! k = Some m -> txin ∈ vin (mtx m) ->
    find_prev x (op_hash (prevout txin)) = Some j -> (rank j < rank k)%nat.
(** [GetDebit] throws for none of the transactions. *)
Definition debits_defined (x : CWalletTx) : Prop :=
  is_Some (debit_value 3 x) /\ forall p m, target p x = Some m -> is_Some (IsFromMe_tx depth w (mtx m)).

Lemma find_inputs_elem x ins ps p :
  find_inputs x ins = Some ps -> p ∈ ps -> exists txin j, txin ∈ ins /\ find_prev x (op_hash (prevout txin)) = Some j /\ p = Some j.
Proof.
  unfold find_inputs. intros Hm Hp. apply mapM_Some in Hm. induction Hm as [|txin q ins ps Hq _ IH]; [by apply not_elem_of_nil in Hp|].
  apply elem_of_cons in Hp as [-> |Hp].
  - apply fmap_Some in Hq as (j & Hj & ->). exists txin, j. split; [by left|done].
  - destruct (IH Hp) as (txin' & j & ? & ?). exists txin', j. split; [by right|done].
Qed.
Lemma find_prev_target x h j : find_prev x h = Some j -> is_Some (vtxPrev x !! j).
Proof.
  unfold find_prev. intros Hl. apply last_Some_elem_of in Hl. apply list_elem_of_filter in Hl as [Hl _]. by destruct (vtxPrev x !! j).
Qed.

Section terminates.
Context (x : CWalletTx) (rank : nat -> nat) (b R : nat).
Context (Hrank : forall k m txin j, vtxPrev x !! k = Some m -> txin ∈ vin (mtx m) -> find_prev x (op_hash (prevout txin)) = Some j -> (rank j < rank k)%nat).
Context (Hb : forall p m, target p x = Some m -> (length (vin (mtx m)) <= b)%nat) (HR : forall j m, vtxPrev x !! j = Some m -> (rank j <= R)%nat).
Context (Hd : debits_defined x).

(** How many rounds an entry of the queue can cause *)
Fixpoint weight (r : nat) : nat := match r with O => 1 | S r => 1 + b * weight r end.
Definition pointer_weight (p : pointer) : nat := weight (match p with Some k => rank k | None => S R end).
Definition queue_weight (queue : list pointer) : nat := foldr (fun p n => pointer_weight p + n)%nat 0%nat queue.

Lemma weight_mono r r' : (1 <= b)%nat -> (r <= r')%nat -> (weight r <= weight r')%nat.
Proof.
  intros Hb1 Hr. revert r Hr. induction r' as [|r' IH]; intros [|r] Hr; try lia; cbn [weight]; [lia|]. specialize (IH r ltac:(lia)). nia.
Qed.

Lemma queue_weight_app q q' : queue_weight (q ++ q') = (queue_weight q + queue_weight q')%nat.
Proof. unfold queue_weight. induction q as [|p q IH]; [done|]. cbn [app foldr]. rewrite IH. lia. Qed.

Lemma queue_weight_inputs p m ps :
  target p x = Some m -> find_inputs x (vin (mtx m)) = Some ps -> (queue_weight ps < pointer_weight p)%nat.
Proof.
  intros Ht Hf. assert (Hall : forall q, q ∈ ps -> exists r, (S r <= match p with Some k => rank k | None => S R end)%nat /\ pointer_weight q = weight r).
  { intros q Hq. destruct (find_inputs_elem _ _ _ _ Hf Hq) as (txin & j & Hin & Hj & ->). exists (rank j). split; [|done].
    destruct p as [k|]; [|destruct (find_prev_target _ _ _ Hj) as [m' Hm']; specialize (HR _ _ Hm'); lia]. by apply (Hrank k m txin j). }
  assert (Hlen : (length ps <= b)%nat) by (rewrite <- (length_mapM _ _ _ Hf); by apply (Hb p)).
  unfold pointer_weight. set (r0 := match p with Some k => _ | None => _ end) in *. destruct r0 as [|r0].
  { destruct ps as [|q ps]; [cbn; lia|]. destruct (Hall q) as (r & Hr & _); [by left|lia]. }
  assert (Hq : (queue_weight ps <= length ps * weight r0)%nat); [|cbn [weight]; nia].
  assert (Hpos : ps <> [] -> (1 <= b)%nat) by (destruct ps; [done|cbn in Hlen; lia]).
  assert (Hall' : forall q, q ∈ ps -> (pointer_weight q <= weight r0)%nat).
  { intros q Hq. destruct (Hall q Hq) as (r & Hr & ->). apply weight_mono; [|lia]. apply Hpos. intros ->. by apply not_elem_of_nil in Hq. }
  clear -Hall'. induction ps as [|q ps IH]; [cbn; lia|]. change (queue_weight (q :: ps)) with (pointer_weight q + queue_weight ps)%nat. cbn [length].
  pose proof (Hall' q ltac:(by left)). assert (queue_weight ps <= length ps * weight r0)%nat by (apply IH; intros; apply Hall'; by right). lia.
Qed.

Lemma trusted_loop_terminates fuel queue :
  (forall p, p ∈ queue -> is_Some (target p x)) -> (queue_weight queue <= fuel)%nat -> is_Some (trusted_loop_value fuel x queue).
Proof.
  revert queue. induction fuel as [|fuel IH]; intros [|p queue] Hq Hw; try by eexists.
  - change (queue_weight (p :: queue)) with (pointer_weight p + queue_weight queue)%nat in Hw.
    assert (1 <= pointer_weight p)%nat by (unfold pointer_weight; destruct (match p with Some k => _ | None => _ end); cbn; lia). lia.
  - change (queue_weight (p :: queue)) with (pointer_weight p + queue_weight queue)%nat in Hw. cbn [trusted_loop_value].
    assert (1 <= pointer_weight p)%nat by (unfold pointer_weight; destruct (match p with Some k => _ | None => _ end); cbn; lia).
    destruct (Hq p) as [m Hm]; [by left|]. rewrite Hm. cbn [mbind option_bind]. destruct (negb _); [by eexists|].
    assert (Hrest : forall q, q ∈ queue -> is_Some (target q x)) by (intros q ?; apply Hq; by right).
    destruct (1 <=? _); [apply IH; [done|lia]|]. destruct (_ <? 0); [by eexists|].
    destruct (proj2 Hd p m Hm) as [mine ->]. cbn [mbind option_bind]. destruct (negb mine); [by eexists|].
    destruct (find_inputs x _) as [ps|] eqn:Ef; [|by eexists]. pose proof (queue_weight_inputs _ _ _ Hm Ef). apply IH.
    + intros q [Hin|Hin]%elem_of_app; [by apply Hrest|]. destruct (find_inputs_elem _ _ _ _ Ef Hin) as (txin & j & _ & Hj & ->). by eapply find_prev_target.
    + rewrite queue_weight_app. lia.
Qed.
End terminates.

(** Enough fuel decides whether a transaction is trusted. *)
Lemma trusted_enough x : acyclic x -> debits_defined x -> exists fuel0 b, forall fuel, (fuel0 <= fuel)%nat -> trusted_value fuel x = Some b.
Proof.
  intros [rank Hrank] Hd. set (lens := (fun m => length (vin (mtx m))) <$> (merkle x :: vtxPrev x)). set (ranks := rank <$> seq 0 (length (vtxPrev x))).
  assert (Hb : forall p m, target p x = Some m -> (length (vin (mtx m)) <= max_list lens)%nat).
  { intros p m Hm. apply max_list_elem_of_le. apply list_elem_of_fmap. exists m. split; [done|].
    destruct p as [k|]; [right; by eapply list_elem_of_lookup_2|injection Hm as <-; by left]. }
  assert (HR : forall j m, vtxPrev x !! j = Some m -> (rank j <= max_list ranks)%nat).
  { intros j m Hj. apply max_list_elem_of_le. apply list_elem_of_fmap. exists j. split; [done|]. apply elem_of_seq. apply lookup_lt_Some in Hj. lia. }
  set (fuel0 := queue_weight rank (max_list lens) (max_list ranks) [None]). exists fuel0.
  destruct (trusted_loop_terminates x rank (max_list lens) (max_list ranks) Hrank Hb HR Hd fuel0 [None]) as [b Eb]; [intros p ->%list_elem_of_singleton; by eexists|lia|].
  unfold trusted_value. destruct (negb (is_final par s (wtx_tx x))); [by exists false|]. destruct (1 <=? _); [by exists true|]. destruct (_ <? 0); [by exists false|].
  assert (Hm : is_Some (if fConfChange opt then Some false else from_me_value x)).
  { destruct (fConfChange opt); [by eexists|]. unfold from_me_value. destruct (proj1 Hd) as [n ->]. by eexists. }
  destruct Hm as [mine ->]. cbn [mbind option_bind]. destruct (negb mine); [by exists false|]. exists b. intros fuel Hf. by apply (trusted_loop_more fuel0).
Qed.

(** ** What is not spent *)

(** The sum of the outputs from number [i] that are not spent and pass the filter *)
Fixpoint unspent_loop (filter : Z) (x : CWalletTx) (outs : list CTxOut) (i : Z) : Z :=
  match outs with
  | [] => 0
  | o :: outs =>
      (if bool_decide (IsSpent x i = Some false) && matches filter (IsMine_out depth w o) then nValue o else 0) +
      unspent_loop filter x outs (i + 1)
  end.
Definition unspent (filter : Z) (x : CWalletTx) : Z := unspent_loop filter x (vout (wtx_tx x)) 0.

(** The values of a transaction are within the range of money; so is their sum. *)
Definition money_ok (x : CWalletTx) : Prop :=
  Forall (fun o => 0 <= nValue o) (vout (wtx_tx x)) /\ total_value (vout (wtx_tx x)) <= MAX_MONEY.

Lemma add_money_ok n v : 0 <= n -> 0 <= v -> n + v <= MAX_MONEY -> add_money n v = Some (n + v).
Proof.
  intros Hn Hv Hm. unfold add_money. assert (MAX_MONEY < 2 ^ 62) by done. rewrite swrap_small by lia. cbn zeta.
  unfold MoneyRange. by rewrite (proj2 (Z.leb_le 0 (n + v))), (proj2 (Z.leb_le (n + v) MAX_MONEY)) by lia.
Qed.

Lemma available_loop_unspent filter x outs i n :
  Forall (fun o => 0 <= nValue o) outs -> 0 <= n -> n + total_value outs <= MAX_MONEY -> 0 <= i ->
  i + Z.of_nat (length outs) <= Z.of_nat (length (vout (wtx_tx x))) ->
  available_loop depth w filter x outs i n = Some (n + unspent_loop filter x outs i) /\ 0 <= unspent_loop filter x outs i <= total_value outs.
Proof.
  intros Hf. revert i n. induction Hf as [|o outs Ho Hf IH]; intros i n Hn Hm Hi Hl; cbn [available_loop unspent_loop]; [rewrite Z.add_0_r; done|].
  change (total_value (o :: outs)) with (nValue o + total_value outs) in *. cbn [length] in Hl.
  assert (Ht : 0 <= total_value outs) by (clear -Hf; induction Hf as [|a l Ha _ IHl]; cbn; [lia|fold (total_value l); lia]).
  assert (Hsp : IsSpent x i = Some (default false (vfSpent x !! Z.to_nat i))).
  { unfold IsSpent. by rewrite (proj2 (Z.leb_gt _ _)) by lia. }
  rewrite Hsp. cbn [mbind option_bind]. destruct (default false _).
  - rewrite bool_decide_eq_false_2 by done. cbn [andb mbind option_bind]. destruct (IH (i + 1) n) as [-> ?]; [lia..|]. rewrite Z.add_0_l. split; [done|lia].
  - rewrite bool_decide_eq_true_2 by done. cbn [andb]. unfold GetCredit_out, MoneyRange.
    rewrite (proj2 (Z.leb_le 0 (nValue o))), (proj2 (Z.leb_le (nValue o) MAX_MONEY)) by lia. cbn [andb negb mbind option_bind].
    destruct (matches filter _).
    + rewrite add_money_ok by lia. cbn [mbind option_bind]. destruct (IH (i + 1) (n + nValue o)) as [-> ?]; [lia..|]. split; [f_equal; lia|lia].
    + rewrite add_money_ok by lia. cbn [mbind option_bind]. destruct (IH (i + 1) (n + 0)) as [-> ?]; [lia..|]. split; [f_equal; lia|lia].
Qed.

Lemma available_unspent filter x : money_ok x -> available_value filter x = Some (unspent filter x) /\ 0 <= unspent filter x <= MAX_MONEY.
Proof. intros [Hf Ht]. destruct (available_loop_unspent filter x (vout (wtx_tx x)) 0 0) as [Ha Hu]; [done|lia..|]. split; [exact Ha|unfold unspent; lia]. Qed.

Lemma unspent_same filter x y : same x y -> unspent filter x = unspent filter y.
Proof.
  intros Hs. unfold unspent. rewrite (same_tx _ _ Hs). generalize 0. induction (vout (wtx_tx y)) as [|o outs IH]; intros i; cbn [unspent_loop]; [done|].
  by rewrite (same_IsSpent x y i Hs), IH.
Qed.

(** ** Loops over the wallet *)

Section loop.
Context {A : Type} (f : list Z -> A -> wtxM A) (v : list Z -> A -> CWalletTx -> option A).
Context (Hf : forall h acc x, cache_ok x -> computes x (f h acc) (v h acc x)) (Hv : forall h acc x y, same x y -> v h acc x = v h acc y).

Fixpoint loop_value (entries : list (list Z * CWalletTx)) (acc : A) : option A :=
  match entries with
  | [] => Some acc
  | (h, x) :: entries => acc ← v h acc x; loop_value entries acc
  end.

Lemma wallet_loop_ok entries acc acc' m :
  NoDup entries.*1 -> (forall h x, (h, x) ∈ entries -> m !! h = Some x) -> (forall h x, m !! h = Some x -> cache_ok x) ->
  loop_value entries acc = Some acc' ->
  exists m', wallet_loop f entries.*1 acc m = Some (acc', m') /\ (forall h, option_Forall2 same (m' !! h) (m !! h)) /\
    (forall h x, m' !! h = Some x -> cache_ok x).
Proof.
  revert acc m. induction entries as [|[h x] entries IH]; intros acc m Hnd Hin Hc Hl; cbn [loop_value] in Hl; cbn [fmap list_fmap fst wallet_loop].
  { injection Hl as <-. exists m. split; [done|]. split; [|done]. intros h. destruct (m !! h); by constructor. }
  pose proof (Hin h x ltac:(by left)) as Hx. cbn in Hnd. apply NoDup_cons in Hnd as [Hnh Hnd].
  destruct (v h acc x) as [acc1|] eqn:Ev; [|done]. cbn [mbind option_bind] in Hl. pose proof (Hf h acc x (Hc _ _ Hx)) as Hcomp. rewrite Ev in Hcomp.
  destruct Hcomp as (x' & Ef & Hs & Hx'). rewrite Hx. cbn [mbind option_bind]. rewrite Ef. cbn [mbind option_bind].
  destruct (IH acc1 (<[h := x']> m) Hnd) as (m' & Em & Hm & Hc').
  - intros h' y Hy. rewrite lookup_insert_ne; [apply Hin; by right|]. intros ->. apply Hnh. apply list_elem_of_fmap. by exists (h', y).
  - intros h' y. rewrite lookup_insert_Some. intros [[_ <-]|[_ Hy]]; [done|by apply (Hc h')].
  - done.
  - exists m'. split; [exact Em|]. split; [|exact Hc']. intros k. specialize (Hm k). destruct (decide (k = h)) as [->|Hne].
    + rewrite lookup_insert_eq in Hm. rewrite Hx. inversion Hm as [? ? Hss|]; subst. constructor. by transitivity x'.
    + by rewrite lookup_insert_ne in Hm.
Qed.
End loop.
End wallet_values.

(** ** The wallet's invariant *)

(** Two maps whose transactions differ in what is cached *)
Definition same_txs (m m' : gmap (list Z) CWalletTx) : Prop := forall h, option_Forall2 same (m !! h) (m' !! h).

#[export] Instance same_txs_equiv : Equivalence same_txs.
Proof.
  split.
  - intros m h. destruct (m !! h); by constructor.
  - intros m m' Hm h. specialize (Hm h). inversion Hm; constructor. by symmetry.
  - intros m m' m'' H1 H2 h. specialize (H1 h). specialize (H2 h). inversion H1; subst; inversion H2; subst; try congruence; constructor.
    etransitivity; [eassumption|]. by replace y with x0 by congruence.
Qed.

Lemma same_txs_lookup m m' h x : same_txs m m' -> m !! h = Some x -> exists x', m' !! h = Some x' /\ same x x'.
Proof. intros Hm Hx. specialize (Hm h). rewrite Hx in Hm. inversion Hm; subst. by eexists. Qed.

(** Every transaction is under its hash and caches what the wallet would compute. *)
Definition wallet_ok (w : CWallet) : Prop :=
  forall h x, mapWallet w !! h = Some x -> h = wtx_hash x /\ cache_ok w x.

(** Where nothing is cached the caches are right. *)
Lemma uncached_ok w :
  (forall h x, mapWallet w !! h = Some x -> h = wtx_hash x /\ cache x = no_cache /\ fMerkleVerified (merkle x) = false /\
     Forall (fun m => fMerkleVerified m = false) (vtxPrev x)) -> wallet_ok w.
Proof.
  intros Hw h x Hx. destruct (Hw h x Hx) as (Hh & Hc & Hm & Hp). split; [done|]. split; rewrite ?Hc; try done.
  - unfold verified_ok. by rewrite Hm.
  - eapply Forall_impl; [exact Hp|]. intros m Hf. unfold verified_ok. by rewrite Hf.
Qed.

(** Transactions that agree but for their caches spend the same outputs. *)
Lemma prev_out_same m w txin : same_txs m (mapWallet w) -> prev_out (with_txs m w) txin = prev_out w txin.
Proof.
  intros Hm. unfold prev_out. cbn [with_txs mapWallet]. specialize (Hm (op_hash (prevout txin))). inversion Hm as [x y Hs|]; [|done].
  cbn [mbind option_bind]. by rewrite (same_tx _ _ Hs).
Qed.
Lemma GetDebit_same m w filter tx : same_txs m (mapWallet w) -> GetDebit_tx depth (with_txs m w) filter tx = GetDebit_tx depth w filter tx.
Proof.
  intros Hm. unfold GetDebit_tx. generalize 0. induction (vin tx) as [|i ins IH]; intros n; cbn [debit_loop]; [done|].
  assert (GetDebit_in depth (with_txs m w) filter i = GetDebit_in depth w filter i) as ->.
  { unfold GetDebit_in. rewrite (prev_out_same m w i Hm). by destruct (prev_out w i). }
  destruct (add_money _ _); [apply IH|done].
Qed.
Lemma cache_ok_same m w x : same_txs m (mapWallet w) -> cache_ok w x -> cache_ok (with_txs m w) x.
Proof.
  intros Hm []. split; rewrite ?(GetDebit_same m w) by done; try done.
Qed.
Lemma wallet_ok_same m w :
  same_txs m (mapWallet w) -> (forall h x, m !! h = Some x -> cache_ok w x) -> wallet_ok w -> wallet_ok (with_txs m w).
Proof.
  intros Hm Hc Hw h x Hx. cbn [with_txs mapWallet] in Hx. split; [|apply cache_ok_same; [done|by apply (Hc h)]].
  destruct (same_txs_lookup _ _ _ _ Hm Hx) as (x' & Hx' & Hs). rewrite (same_tx _ _ Hs). by apply (Hw h).
Qed.

Lemma for_wallet_ok {A} (f : CWallet -> list Z -> A -> wtxM A) (v : list Z -> A -> CWalletTx -> option A) acc acc' w :
  wallet_ok w -> (forall h acc x, cache_ok w x -> computes w x (f w h acc) (v h acc x)) -> (forall h acc x y, same x y -> v h acc x = v h acc y) ->
  loop_value v (map_entries (mapWallet w)) acc = Some acc' ->
  exists m, for_wallet f acc w = Some (acc', with_txs m w) /\ same_txs m (mapWallet w) /\ wallet_ok (with_txs m w).
Proof.
  intros Hw Hf Hv Hl. destruct (wallet_loop_ok w (f w) v Hf (map_entries (mapWallet w)) acc acc' (mapWallet w)) as (m & Em & Hm & Hc).
  - apply map_entries_NoDup.
  - intros h x. apply elem_of_map_entries.
  - intros h x Hx. by apply (Hw h).
  - exact Hl.
  - exists m. unfold for_wallet. rewrite Em. split; [done|]. split; [done|]. by apply wallet_ok_same.
Qed.

(** ** Totals *)

(** The sum of [n] over the transactions of the wallet *)
Definition sum_wallet (n : CWalletTx -> Z) (w : CWallet) : Z := foldr (fun e t => n e.2 + t) 0 (map_entries (mapWallet w)).

Definition total_step (pv : CWalletTx -> option bool) (vv : CWalletTx -> option Z) (h : list Z) (t : Z) (x : CWalletTx) : option Z :=
  b ← pv x; if (b : bool) then k ← vv x; Some (i64 (t + k)) else Some t.

Lemma total_ok (p : CWallet -> wtxM bool) (value : CWallet -> wtxM Z) (pv : CWalletTx -> option bool) (vv : CWalletTx -> option Z)
    (b : CWalletTx -> bool) (n : CWalletTx -> Z) w :
  wallet_ok w -> (forall x, cache_ok w x -> computes w x (p w) (pv x)) -> (forall x, cache_ok w x -> computes w x (value w) (vv x)) ->
  (forall x y, same x y -> pv x = pv y) -> (forall x y, same x y -> vv x = vv y) ->
  (forall h x, mapWallet w !! h = Some x -> pv x = Some (b x) /\ vv x = Some (n x) /\ 0 <= n x) -> sum_wallet n w < 2 ^ 63 ->
  exists m, total p value w = Some (sum_wallet (fun x => if b x then n x else 0) w, with_txs m w) /\
    same_txs m (mapWallet w) /\ wallet_ok (with_txs m w).
Proof.
  intros Hw Hp Hval Hps Hvs Hdef Hb. unfold total.
  apply (for_wallet_ok _ (total_step pv vv)); [done| | |].
  - intros h t x Hx. eapply computes_bind; [by apply Hp|]. intros c x' _ Hs Hx'. destruct c; [|by apply computes_ret].
    rewrite <- (Hvs _ _ Hs). eapply computes_bind; [by apply Hval|]. intros k x'' _ _ Hx''. by apply computes_ret.
  - intros h t x y Hs. unfold total_step. by rewrite (Hps _ _ Hs), (Hvs _ _ Hs).
  - unfold sum_wallet in *. assert (Hin : forall e, e ∈ map_entries (mapWallet w) -> pv e.2 = Some (b e.2) /\ vv e.2 = Some (n e.2) /\ 0 <= n e.2).
    { intros [h x] He. apply elem_of_map_entries in He. by apply (Hdef h). }
    assert (Hg : forall t, 0 <= t -> t + foldr (fun e t => n e.2 + t) 0 (map_entries (mapWallet w)) < 2 ^ 63 ->
      loop_value (total_step pv vv) (map_entries (mapWallet w)) t =
      Some (t + foldr (fun e t => (if b e.2 then n e.2 else 0) + t) 0 (map_entries (mapWallet w)))); [|by apply (Hg 0)].
    clear Hb. induction (map_entries (mapWallet w)) as [|[h x] l IH]; intros t Ht Hb; cbn [loop_value foldr]; [by rewrite Z.add_0_r|].
    destruct (Hin (h, x) ltac:(by left)) as (E1 & E2 & E3). cbn [snd] in *. cbn [foldr snd] in Hb.
    assert (Et : total_step pv vv h t x = Some (if b x then i64 (t + n x) else t)) by (unfold total_step; rewrite E1, E2; by destruct (b x)).
    rewrite Et. cbn [mbind option_bind].
    assert (Hrest : 0 <= foldr (fun e t => n e.2 + t) 0 l).
    { clear -Hin. induction l as [|e l IHl]; [done|]. cbn. pose proof (Hin e ltac:(right; by left)) as (_ & _ & ?).
      assert (0 <= foldr (fun e t => n e.2 + t) 0 l); [|lia]. apply IHl. intros e' [->|He']%elem_of_cons; [apply Hin; by left|apply Hin; by right; right]. }
    destruct (b x).
    + rewrite swrap_small by lia. rewrite IH by (lia || (intros; apply Hin; by right)). f_equal. lia.
    + rewrite IH by (lia || (intros; apply Hin; by right)). f_equal.
Qed.

(** Fuel that decides the trust of every transaction of the wallet *)
Lemma trusted_enough_all w (l : list CWalletTx) :
  Forall (fun x => acyclic x /\ debits_defined w x) l ->
  exists fuel0, forall x fuel, x ∈ l -> (fuel0 <= fuel)%nat ->
    trusted_value w fuel x = trusted_value w fuel0 x /\ is_Some (trusted_value w fuel0 x).
Proof.
  induction 1 as [|x l [Ha Hd] _ (f0 & IH)]; [exists 0%nat; intros x fuel Hx; by apply not_elem_of_nil in Hx|].
  destruct (trusted_enough w x Ha Hd) as (f1 & b & Hb). exists (f0 `max` f1)%nat. intros y fuel [->|Hy]%elem_of_cons Hf.
  - rewrite !Hb by lia. split; [done|by eexists].
  - destruct (IH y fuel Hy) as [E1 E2]; [lia|]. destruct (IH y (f0 `max` f1)%nat Hy) as [E3 _]; [lia|]. by rewrite E1, E3.
Qed.

(** What a transaction counts for the balance *)
Definition spendable_credit (w : CWallet) (fuel : nat) (x : CWalletTx) : Z :=
  if bool_decide (trusted_value w fuel x = Some true) && negb (generated (wtx_tx x) && (0 <? maturity_value x)) then unspent w 2 x else 0.

Lemma GetBalance_ok w fuel :
  wallet_ok w -> (forall h x, mapWallet w !! h = Some x -> is_Some (trusted_value w fuel x) /\ money_ok x) ->
  sum_wallet (unspent w 2) w < 2 ^ 63 ->
  exists m, GetBalance depth par s opt fuel w = Some (sum_wallet (spendable_credit w fuel) w, with_txs m w) /\
    same_txs m (mapWallet w) /\ wallet_ok (with_txs m w).
Proof.
  intros Hw Hx Hb. set (b := fun x => bool_decide (trusted_value w fuel x = Some true)).
  set (n := fun x => if generated (wtx_tx x) && (0 <? maturity_value x) then 0 else unspent w 2 x).
  destruct (total_ok (fun w => IsTrusted depth par s opt w fuel) (fun w => GetAvailableCredit depth par s w true)
    (trusted_value w fuel) (available_credit_value w 2) b n w Hw) as (m & Em & Hm & Hok).
  - intros x. apply computes_trusted.
  - intros x. apply computes_available.
  - intros x y. apply trusted_value_same.
  - intros x y Hs. unfold available_credit_value. by rewrite (same_tx _ _ Hs), (maturity_value_same _ _ Hs), (available_value_same w 2 _ _ Hs).
  - intros h x Hl. destruct (Hx h x Hl) as [[t Ht] Hmo]. destruct (available_unspent w 2 x Hmo) as [Ha ?]. unfold b, n, available_credit_value. rewrite Ht.
    split; [by destruct t|]. rewrite Ha. destruct (_ && _); split; done || lia.
  - eapply Z.le_lt_trans; [|exact Hb]. unfold sum_wallet. assert (Hin : forall e, e ∈ map_entries (mapWallet w) -> n e.2 <= unspent w 2 e.2).
    { intros [h x] He. apply elem_of_map_entries in He. destruct (available_unspent w 2 x (proj2 (Hx h x He))) as [_ ?]. unfold n. cbn [snd]. destruct (_ && _); lia. }
    induction (map_entries (mapWallet w)) as [|e l IH]; [done|]. cbn. pose proof (Hin e ltac:(by left)).
    assert (foldr (fun e t => n e.2 + t) 0 l <= foldr (fun e t => unspent w 2 e.2 + t) 0 l); [|lia]. apply IH. intros e' ?. apply Hin. by right.
  - exists m. split; [|done]. unfold GetBalance. rewrite Em. do 2 f_equal. unfold sum_wallet.
    induction (map_entries (mapWallet w)) as [|e l IH]; [done|]. cbn. rewrite IH. f_equal. unfold spendable_credit, b, n.
    destruct (bool_decide _), (generated _ && _); done.
Qed.
(** ** The coins that can be spent *)

(** The outputs of [x], from number [i], that are the wallet's, not spent and chosen *)
Fixpoint outputs_of (w : CWallet) (h : list Z) (nDepth : Z) (chosen : nat -> CTxOut -> bool) (x : CWalletTx) (outs : list CTxOut) (i : nat) :
    list COutput :=
  match outs with
  | [] => []
  | o :: outs =>
      (if bool_decide (IsSpent x (Z.of_nat i) = Some false) && negb (bool_decide (IsMine_out depth w o = MINE_NO)) && chosen i o
       then [mkOutput h i nDepth (bool_decide (IsMine_out depth w o = MINE_SPENDABLE))] else []) ++
      outputs_of w h nDepth chosen x outs (S i)
  end.

Lemma outputs_loop_of w h nDepth chosen x outs i vCoins :
  (i + length outs <= length (vout (wtx_tx x)))%nat ->
  outputs_loop depth w h nDepth chosen x outs i vCoins = Some (vCoins ++ outputs_of w h nDepth chosen x outs i).
Proof.
  revert i vCoins. induction outs as [|o outs IH]; intros i vCoins Hl; cbn [outputs_loop outputs_of]; [by rewrite app_nil_r|]. cbn [length] in Hl.
  assert (Hsp : IsSpent x (Z.of_nat i) = Some (default false (vfSpent x !! i))).
  { unfold IsSpent. rewrite (proj2 (Z.leb_gt _ _)) by lia. by rewrite Nat2Z.id. }
  rewrite Hsp. cbn [mbind option_bind]. rewrite IH by lia. f_equal. rewrite app_assoc. f_equal.
  destruct (default false _); [by rewrite app_nil_r|]. rewrite (bool_decide_eq_true_2 (Some false = Some false)) by done. cbn [negb andb].
  destruct (_ && chosen i o); [done|by rewrite app_nil_r].
Qed.

Lemma elem_of_outputs w h nDepth chosen x outs i c :
  c ∈ outputs_of w h nDepth chosen x outs i <->
  exists k o, outs !! k = Some o /\ c = mkOutput h (i + k) nDepth (bool_decide (IsMine_out depth w o = MINE_SPENDABLE)) /\
    IsSpent x (Z.of_nat (i + k)) = Some false /\ IsMine_out depth w o <> MINE_NO /\ chosen (i + k)%nat o = true.
Proof.
  revert i. induction outs as [|o outs IH]; intros i; cbn [outputs_of].
  { split; [by intros ?%not_elem_of_nil|]. by intros (k & o & Hk & _). }
  rewrite elem_of_app, IH. split.
  - intros [Hc|(k & o' & Hk & Hc)].
    + case_hyp Hc; [|by apply not_elem_of_nil in Hc]. apply list_elem_of_singleton in Hc as ->. bool_prop. destruct Heqb as [[Hs Hm] Hch]. bool_prop.
      exists 0%nat, o. by rewrite Nat.add_0_r.
    + exists (S k), o'. replace (i + S k)%nat with (S i + k)%nat by lia. done.
  - intros ([|k] & o' & Hk & -> & Hs & Hm & Hch).
    + left. injection Hk as <-. rewrite Nat.add_0_r in *. rewrite (bool_decide_eq_true_2 _ Hs), (bool_decide_eq_false_2 _ Hm), Hch. cbn [negb andb]. by left.
    + right. exists k, o'. replace (i + S k)%nat with (S i + k)%nat in * by lia. done.
Qed.

Lemma outputs_of_NoDup w h nDepth chosen x outs i : NoDup ((fun c => (out_tx c, out_i c)) <$> outputs_of w h nDepth chosen x outs i).
Proof.
  revert i. induction outs as [|o outs IH]; intros i; cbn [outputs_of]; [constructor|].
  destruct (_ && _); [|apply IH]. cbn. apply NoDup_cons. split; [|apply IH].
  intros (c & Hc & Hin)%list_elem_of_fmap. apply elem_of_outputs in Hin as (k & o' & _ & -> & _). injection Hc as Hc. lia.
Qed.

Lemma outputs_of_same w h nDepth chosen x y outs i : same x y -> outputs_of w h nDepth chosen x outs i = outputs_of w h nDepth chosen y outs i.
Proof. intros Hs. revert i. induction outs as [|o outs IH]; intros i; cbn [outputs_of]; [done|]. by rewrite (same_IsSpent x y _ Hs), IH. Qed.

(** The coins of the wallet's transactions that pass [pv] *)
Definition coins_value (w : CWallet) (pv : CWalletTx -> bool) (chosen : list Z -> nat -> CTxOut -> bool) : list COutput :=
  map_entries (mapWallet w) ≫= (fun '(h, x) => if pv x then outputs_of w h (depth_value (merkle x)) (chosen h) x (vout (wtx_tx x)) 0 else []).

Lemma coins_ok (p : CWallet -> wtxM bool) (pv : CWalletTx -> option bool) (b : CWalletTx -> bool) chosen w :
  wallet_ok w -> (forall x, cache_ok w x -> computes w x (p w) (pv x)) -> (forall x y, same x y -> pv x = pv y) ->
  (forall h x, mapWallet w !! h = Some x -> pv x = Some (b x)) ->
  exists m, coins depth s p chosen w = Some (coins_value w b chosen, with_txs m w) /\ same_txs m (mapWallet w) /\ wallet_ok (with_txs m w).
Proof.
  intros Hw Hp Hs Hdef. set (step := fun h vCoins x => c ← pv x; if (c : bool)
    then Some (vCoins ++ outputs_of w h (depth_value (merkle x)) (chosen h) x (vout (wtx_tx x)) 0) else Some vCoins).
  unfold coins. apply (for_wallet_ok _ step); [done| | |].
  - intros h vCoins x Hx. eapply computes_bind; [by apply Hp|]. intros c x' _ Hs1 Hx1. destruct c; [|by apply computes_ret].
    eapply computes_seq; [by apply computes_depth|]. intros x2 Hs2 Hx2. apply computes_this. rewrite outputs_loop_of by lia.
    rewrite (depth_value_same _ _ (same_merkle _ _ Hs1)), (outputs_of_same w h _ _ x2 x) by (by transitivity x').
    rewrite (same_tx x2 x) by (by transitivity x'). by apply (computes_lift w x2 (Some _)).
  - intros h vCoins x y Hxy. unfold step. rewrite (Hs _ _ Hxy), (depth_value_same _ _ (same_merkle _ _ Hxy)), (same_tx _ _ Hxy).
    by rewrite (outputs_of_same w h _ _ x y _ _ Hxy).
  - unfold coins_value. assert (Hin : forall e, e ∈ map_entries (mapWallet w) -> pv e.2 = Some (b e.2)).
    { intros [h x] He. apply elem_of_map_entries in He. by apply (Hdef h). }
    assert (Hg : forall acc, loop_value step (map_entries (mapWallet w)) acc = Some (acc ++ (map_entries (mapWallet w) ≫= (fun '(h, x) =>
      if b x then outputs_of w h (depth_value (merkle x)) (chosen h) x (vout (wtx_tx x)) 0 else [])))); [|apply (Hg [])].
    induction (map_entries (mapWallet w)) as [|[h x] l IH]; intros acc; cbn [loop_value mbind list_bind]; [by rewrite app_nil_r|].
    assert (step h acc x = Some (acc ++ (if b x then outputs_of w h (depth_value (merkle x)) (chosen h) x (vout (wtx_tx x)) 0 else []))) as ->.
    { unfold step. pose proof (Hin (h, x) ltac:(by left)) as Hx. cbn [snd] in Hx. rewrite Hx. cbn [mbind option_bind].
      destruct (b x); [done|by rewrite app_nil_r]. }
    cbn [mbind option_bind]. rewrite IH by (intros; apply Hin; by right). by rewrite app_assoc.
Qed.

(** A coin of the wallet: an output of its own that is not spent *)
Definition coin_of (w : CWallet) (c : COutput) (x : CWalletTx) (o : CTxOut) : Prop :=
  mapWallet w !! out_tx c = Some x /\ vout (wtx_tx x) !! out_i c = Some o /\ IsSpent x (Z.of_nat (out_i c)) = Some false /\
  IsMine_out depth w o <> MINE_NO /\ out_fSpendable c = bool_decide (IsMine_out depth w o = MINE_SPENDABLE) /\
  out_nDepth c = depth_value (merkle x).

Lemma elem_of_coins w pv chosen c :
  c ∈ coins_value w pv chosen <-> exists x o, coin_of w c x o /\ pv x = true /\ chosen (out_tx c) (out_i c) o = true.
Proof.
  unfold coins_value. rewrite list_elem_of_bind. split.
  - intros ([h x] & Hc & He). apply elem_of_map_entries in He. destruct (pv x) eqn:Ep; [|by apply not_elem_of_nil in Hc].
    apply elem_of_outputs in Hc as (k & o & Hk & -> & Hs & Hm & Hch). by exists x, o.
  - intros (x & o & (H1 & H2 & H3 & H4 & H5 & H6) & Hp & Hch). exists (out_tx c, x). split; [|by apply elem_of_map_entries]. rewrite Hp.
    apply elem_of_outputs. exists (out_i c), o. split_and!; try done. destruct c. cbn in *. by subst.
Qed.

Lemma coins_value_NoDup w pv chosen : NoDup ((fun c => (out_tx c, out_i c)) <$> coins_value w pv chosen).
Proof.
  unfold coins_value. pose proof (map_entries_NoDup (mapWallet w)) as Hnd. induction (map_entries (mapWallet w)) as [|[h x] l IH]; [constructor|].
  cbn in Hnd. apply NoDup_cons in Hnd as [Hh Hnd]. cbn [mbind list_bind]. rewrite fmap_app. apply NoDup_app. split_and!.
  - destruct (pv x); [apply outputs_of_NoDup|constructor].
  - intros a (c & -> & Hc)%list_elem_of_fmap (c' & Ha & Hc')%list_elem_of_fmap. destruct (pv x); [|by apply not_elem_of_nil in Hc].
    apply elem_of_outputs in Hc as (k & o & _ & -> & _). apply list_elem_of_bind in Hc' as ([h' x'] & Hc' & Hl).
    destruct (pv x'); [|by apply not_elem_of_nil in Hc']. apply elem_of_outputs in Hc' as (k' & o' & _ & -> & _). injection Ha as <- _.
    apply Hh, list_elem_of_fmap. by exists (h, x').
  - by apply IH.
Qed.

(** What [AvailableCoins] asks of a transaction *)
Definition usable (fuel : nat) (fOnlyConfirmed : bool) (w : CWallet) (x : CWalletTx) : bool :=
  is_final par s (wtx_tx x) && (negb fOnlyConfirmed || bool_decide (trusted_value w fuel x = Some true)) &&
  negb (generated (wtx_tx x) && (0 <? maturity_value x)) && (0 <=? depth_value (merkle x)).
Lemma computes_and w x (a b : wtxM bool) va vb :
  computes w x a (Some va) -> (forall x', same x' x -> cache_ok w x' -> computes w x' b (Some vb)) -> computes w x (and_then a b) (Some (va && vb)).
Proof. intros Ha Hb. eapply computes_eq; [apply (computes_and_then w x a b va (Some vb) Ha); by intros _|]. by destruct va. Qed.

(** "Not both [p] and immature" *)
Lemma computes_unless w x (p : bool) :
  cache_ok w x -> computes w x (if_negb (and_then (mret p) (immature par s))) (Some (negb (p && (0 <? maturity_value x)))).
Proof.
  intros Hx. eapply computes_seq; [|by intros x' _ Hx'; apply computes_ret]. apply computes_and; [by apply computes_ret|].
  intros x' Hs Hx'. rewrite <- (maturity_value_same _ _ Hs). by apply computes_immature.
Qed.

Definition usable_value (fuel : nat) (fOnlyConfirmed : bool) (w : CWallet) (x : CWalletTx) : option bool :=
  if negb (is_final par s (wtx_tx x)) then Some false
  else
    t ← (if fOnlyConfirmed then trusted_value w fuel x else Some true);
    Some (t && negb (generated (wtx_tx x) && (0 <? maturity_value x)) && (0 <=? depth_value (merkle x))).

Lemma computes_usable fuel fOnly w x : cache_ok w x -> computes w x (coin_usable depth par s opt fuel fOnly w) (usable_value fuel fOnly w x).
Proof.
  intros Hx. apply computes_this. unfold usable_value. destruct (is_final par s (wtx_tx x)); cbn [negb].
  2:{ eapply computes_seq; [by apply computes_ret|]. intros x' _ Hx'. by apply computes_ret. }
  eapply computes_seq; [by apply computes_ret|]. intros x0 Hs0 Hx0. cbn beta.
  apply (computes_bind w x0 _ _ (if fOnly then trusted_value w fuel x else Some true)
    (fun t => Some (t && negb (generated (wtx_tx x) && (0 <? maturity_value x)) && (0 <=? depth_value (merkle x))))).
  { destruct fOnly; [|by apply computes_ret]. rewrite <- (trusted_value_same w fuel x0 x Hs0). by apply computes_trusted. }
  intros t x1 _ Hs1 Hx1. destruct t; cbn [andb]; [|by apply computes_ret]. assert (Hsx : same x1 x) by (by transitivity x0).
  eapply computes_eq; [apply (computes_and w x1 _ _ (negb (IsCoinBase (wtx_tx x) && (0 <? maturity_value x)))
    (negb (IsCoinStake (wtx_tx x) && (0 <? maturity_value x)) && (0 <=? depth_value (merkle x))))|].
  - rewrite <- (maturity_value_same _ _ Hsx). by apply computes_unless.
  - intros x2 Hs2 Hx2. assert (Hs2x : same x2 x) by (by transitivity x1). apply computes_and.
    + rewrite <- (maturity_value_same _ _ Hs2x). by apply computes_unless.
    + intros x3 Hs3 Hx3. eapply computes_seq; [by apply computes_depth|]. intros x4 _ Hx4.
      rewrite (depth_value_same (merkle x3) (merkle x)) by (apply same_merkle; by transitivity x2). by apply computes_ret.
  - f_equal. unfold generated. destruct (IsCoinBase _), (IsCoinStake _), (0 <? _), (0 <=? _); done.
Qed.

Lemma usable_value_same fuel fOnly w x y : same x y -> usable_value fuel fOnly w x = usable_value fuel fOnly w y.
Proof.
  intros Hs. unfold usable_value. by rewrite (same_tx _ _ Hs), (trusted_value_same w fuel _ _ Hs), (maturity_value_same _ _ Hs),
    (depth_value_same _ _ (same_merkle _ _ Hs)).
Qed.

(** Which outputs [AvailableCoins] takes under coin control *)
Definition chosen_coin (coinControl : option (gset COutPoint)) (h : list Z) (i : nat) (txout : CTxOut) : bool :=
  (nMinimumInputValue opt <=? nValue txout) &&
  match coinControl with Some sel => negb (HasSelected sel) || IsSelected sel h i | None => true end.

Lemma AvailableCoins_ok fuel coinControl w :
  wallet_ok w -> (forall h x, mapWallet w !! h = Some x -> is_Some (trusted_value w fuel x)) ->
  exists m, AvailableCoins depth par s opt fuel true coinControl w = Some (coins_value w (usable fuel true w) (chosen_coin coinControl), with_txs m w) /\
    same_txs m (mapWallet w) /\ wallet_ok (with_txs m w).
Proof.
  intros Hw Ht. apply (coins_ok _ (usable_value fuel true w)); [done|intros x; apply computes_usable|intros x y; apply usable_value_same|].
  intros h x Hx. unfold usable_value, usable. destruct (is_final par s (wtx_tx x)); [|done]. cbn [negb andb orb].
  destruct (Ht h x Hx) as [t Et]. rewrite Et. cbn [mbind option_bind]. by destruct t.
Qed.
End facts.

(** ** Properties *)

(** C19: Let every transaction of the wallet be under its hash, and every value that it
    has cached be the one that would be computed now ([wallet_ok]: it holds where nothing
    is cached, as in a wallet just loaded, and the computation keeps it); let no debit
    throw, the amounts be in the range of money, what is unspent sum to less than 2^63,
    and no transaction that supports another lead back to itself.  Then [GetBalance] is
    the sum, over the trusted and mature transactions, of the outputs that are the
    wallet's own and not spent; whether a transaction is trusted is decided after finitely
    many rounds; and only caches change. *)
Theorem wallet_balance {E : ECOps} {SO : ECSecretOps E} {C : CipherOps} {H : HashOps}
    (depth : nat) (par : Params) (s : ChainState) (opt : WalletOptions) (w : CWallet) :
  wallet_ok depth s w ->
  (forall h x, mapWallet w !! h = Some x -> acyclic x /\ debits_defined depth w x /\ money_ok x) ->
  sum_wallet (unspent depth w 2) w < 2 ^ 63 ->
  exists fuel0, forall fuel, (fuel0 <= fuel)%nat ->
    exists m, GetBalance depth par s opt fuel w = Some (sum_wallet (spendable_credit depth par s opt w fuel0) w, with_txs m w) /\
      same_txs m (mapWallet w) /\ wallet_ok depth s (with_txs m w).
Proof.
  intros Hw Hx Hb. destruct (trusted_enough_all depth par s opt w (map_entries (mapWallet w)).*2) as (fuel0 & Hf).
  { apply Forall_forall. intros x ([h y] & -> & Hy)%list_elem_of_fmap. apply elem_of_map_entries in Hy. destruct (Hx h y Hy) as (? & ? & _). done. }
  exists fuel0. intros fuel Hle. assert (Ht : forall h x, mapWallet w !! h = Some x ->
    trusted_value depth par s opt w fuel x = trusted_value depth par s opt w fuel0 x /\ is_Some (trusted_value depth par s opt w fuel0 x)).
  { intros h x Hl. apply Hf; [|done]. apply list_elem_of_fmap. exists (h, x). split; [done|by apply elem_of_map_entries]. }
  destruct (GetBalance_ok depth par s opt w fuel Hw) as (m & Em & Hm); [|done|].
  { intros h x Hl. destruct (Ht h x Hl) as [-> ?]. split; [done|]. by apply (Hx h). }
  exists m. split; [|done]. rewrite Em. do 2 f_equal. unfold sum_wallet.
  assert (Hin : forall e, e ∈ map_entries (mapWallet w) -> spendable_credit depth par s opt w fuel e.2 = spendable_credit depth par s opt w fuel0 e.2).
  { intros [h x] He. apply elem_of_map_entries in He. unfold spendable_credit. cbn [snd]. by rewrite (proj1 (Ht h x He)). }
  clear -Hin. induction (map_entries (mapWallet w)) as [|e l IH]; [done|]. cbn. rewrite (Hin e ltac:(by left)), IH; [done|]. intros; apply Hin; by right.
Qed.

(** ** Witnesses *)

(** A transaction in the best block pays 50000 to the key of the wallet. *)
Definition toy_payment : CTransaction :=
  mkTx 1 1000 [mkTxIn (mkOutPoint (assign64 WIDTH256 9) 0) [1; 7] 0xffffffff] [mkTxOut 50000 (33 :: toy_pub ++ [OP_CHECKSIG])] 0.
Definition toy_payment_hash : list Z := CTransaction_GetHash (H := toy_hash) toy_payment.
Definition toy_best : CBlockIndex :=
  mkIndex (assign64 WIDTH256 0) 1 0 (assign64 WIDTH256 2) 7 0 0 0 0 0 COutPoint_null 0 (assign64 WIDTH256 0) 4 toy_payment_hash 1600000000 0x1e0fffff 7.
Definition toy_chain : ChainState :=
  mkChain {[assign64 WIDTH256 5 := mkNode toy_best None None]} (Some (assign64 WIDTH256 5)) (Some (assign64 WIDTH256 5)) (assign64 WIDTH256 5) 7
    (assign64 WIDTH256 1) (assign64 WIDTH256 0) ∅ (mkTxDB ∅ None false) (mkPool ∅ ∅ 0) empty_cache
    (mkSync (assign64 WIDTH256 5) (assign64 WIDTH256 0) CSyncCheckpoint_null CSyncCheckpoint_null (assign64 WIDTH256 0) 0).
Definition toy_options : WalletOptions := mkOptions 0 false true 100.
Definition toy_wtx : CWalletTx := with_merkle (mkMerkle toy_payment (assign64 WIDTH256 5) [] 0 false) (CWalletTx_of toy_payment).
Definition toy_funds : CWallet :=
  mkWallet (mkKeys toy_store false FEATURE_BASE FEATURE_BASE ∅ 0 [] ∅ (mkWalletDB true ∅ ∅ ∅ ∅ ∅ ∅ None) 0)
    {[toy_payment_hash := toy_wtx]} 0 ∅ ∅ ∅ ∅ None [].

Lemma toy_funds_lookup h x : mapWallet toy_funds !! h = Some x -> h = toy_payment_hash /\ x = toy_wtx.
Proof. unfold toy_funds. cbn [mapWallet]. intros [<- <-]%lookup_singleton_Some. done. Qed.

Lemma toy_funds_ok : wallet_ok (SO := toy_secrets) (C := toy_cipher) (H := toy_hash) 5 toy_chain toy_funds.
Proof. apply uncached_ok. intros h x [-> ->]%toy_funds_lookup. by split_and!. Qed.

Lemma toy_funds_txs h x : mapWallet toy_funds !! h = Some x ->
  acyclic (H := toy_hash) x /\ debits_defined (SO := toy_secrets) (C := toy_cipher) (H := toy_hash) 5 toy_funds x /\ money_ok x.
Proof.
  intros [-> ->]%toy_funds_lookup. split_and!.
  - exists (fun _ => 0%nat). intros k m txin j Hk. by destruct k.
  - split; [exists 0; by vm_compute|]. intros [k|] m Ht; cbn in Ht; [by destruct k|]. injection Ht as <-. exists false. by vm_compute.
  - split; [repeat constructor; cbn; lia|by vm_compute].
Qed.

Lemma toy_funds_unspent : sum_wallet (unspent (SO := toy_secrets) (C := toy_cipher) (H := toy_hash) 5 toy_funds 2) toy_funds = 50000.
Proof. by vm_compute. Qed.

Lemma wallet_balance_witness :
  exists fuel m, GetBalance (SO := toy_secrets) (C := toy_cipher) (H := toy_hash) 5 toy_params toy_chain toy_options fuel toy_funds =
    Some (50000, with_txs m toy_funds).
Proof.
  destruct (wallet_balance (SO := toy_secrets) (C := toy_cipher) (H := toy_hash) 5 toy_params toy_chain toy_options toy_funds toy_funds_ok toy_funds_txs)
    as (fuel & Hf).
  - rewrite toy_funds_unspent. lia.
  - destruct (Hf fuel (le_n fuel)) as (m & Em & _). exists fuel, m. rewrite Em. reflexivity.
Defined.
