(* ===== verification/CoinSelect.v ===== *)
(** * [wallet.cpp]: choosing the coins that pay for a transaction

    [SelectCoinsMinConf] shuffles the coins it is offered, looks for a single coin of the
    value it needs, and otherwise solves a subset-sum problem by random tries
    ([ApproximateBestSubset]).  Random numbers are arguments: the samples of
    [GetRandInt] and the seeds of [insecure_rand]. *)

From stdpp Require Import sorting.
From S2P Require Import Prelude.
From S2P Require Import Uint256.
From S2P Require Import Hash.
From S2P Require Import Transaction.
From S2P Require Import Key.
From S2P Require Import KeyStore.
From S2P Require Import Connect.
From S2P Require Import Reorganize.
From S2P Require Import Support.
From S2P Require Import Wallet.

(** ** [std::random_shuffle] *)

(** [std::iter_swap] *)
Definition swap_at {A} (i j : nat) (l : list A) : list A :=
  match l !! i, l !! j with
  | Some a, Some b => <[i := b]> (<[j := a]> l)
  | _, _ => l
  end.

(** Element [i] is swapped with one of the elements 0 to [i] *)
Fixpoint shuffle_loop {A} (n i : nat) (rnd : list Z) (l : list A) : list A :=
  match n with
  | O => l
  | S n =>
      let '(r, rnd) := rand_int (Z.of_nat i + 1) rnd in
      shuffle_loop n (S i) rnd (swap_at i (Z.to_nat r) l)
  end.
Definition random_shuffle {A} (rnd : list Z) (l : list A) : list A := shuffle_loop (length l - 1) 1 rnd l.

(** ** [ApproximateBestSubset] *)

Record Approx := mkApprox {
  nTotal : Z;
  fReachedTarget : bool;
  vfIncluded : list bool;
  vfBest : list bool;
  nBest : Z;
  ap_rand : Z * Z
}.

Section approximate.
Context (vValue : list Z) (nTargetValue : Z).

(** The body of the inner loop, for coin [i] in pass [nPass] *)
Definition try_coin (nPass : nat) (st : Approx) (i : nat) : Approx :=
  let '(fTake, rnd) :=
    if (nPass =? 0)%nat then let '(r, rnd) := insecure_rand (ap_rand st).1 (ap_rand st).2 in (Z.testbit r 0, rnd)
    else (negb (default false (vfIncluded st !! i)), ap_rand st) in
  if negb fTake then mkApprox (nTotal st) (fReachedTarget st) (vfIncluded st) (vfBest st) (nBest st) rnd
  else
    let v := nthZ vValue i in
    let nTotal := i64 (nTotal st + v) in
    let vfIncluded := <[i := true]> (vfIncluded st) in
    if nTargetValue <=? nTotal then
      let '(vfBest, nBest) := if nTotal <? nBest st then (vfIncluded, nTotal) else (vfBest st, nBest st) in
      mkApprox (i64 (nTotal - v)) true (<[i := false]> vfIncluded) vfBest nBest rnd
    else mkApprox nTotal (fReachedTarget st) vfIncluded (vfBest st) (nBest st) rnd.

Definition one_pass (nPass : nat) (st : Approx) : Approx := foldl (try_coin nPass) st (seq 0 (length vValue)).

(** One repetition: a random pass, and a second one over the coins left out when the
    first has not reached the target *)
Definition repetition (vfBest : list bool) (nBest : Z) (rnd : Z * Z) : Approx :=
  let st := one_pass 0 (mkApprox 0 false (replicate (length vValue) false) vfBest nBest rnd) in
  if fReachedTarget st then st else one_pass 1 st.

Fixpoint approx_loop (iterations : nat) (vfBest : list bool) (nBest : Z) (rnd : Z * Z) : list bool * Z :=
  match iterations with
  | O => (vfBest, nBest)
  | S n =>
      if nBest =? nTargetValue then (vfBest, nBest)
      else let st := repetition vfBest nBest rnd in approx_loop n (CoinSelect.vfBest st) (CoinSelect.nBest st) (ap_rand st)
  end.

Definition ApproximateBestSubset (nTotalLower : Z) (iterations : nat) (seed : Z * Z) : list bool * Z :=
  approx_loop iterations (replicate (length vValue) true) nTotalLower seed.
End approximate.

(** ** The selection *)

(** A coin with its value *)
Record Coin := mkCoin { coin_n : Z; coin_at : list Z * nat }.
#[export] Instance Coin_eq_dec : EqDecision Coin.
Proof. solve_decision. Defined.
Abbreviation CoinsSet := (gset (list Z * nat)).

(** [std::sort] by [CompareValueOnly], the largest first: the order of coins of the same
    value is left open *)
Class SortOps := sort_coins : list Coin -> list Coin.
Class SortLaws (Q : SortOps) := {
  sort_coins_perm l : sort_coins l ≡ₚ l;
  sort_coins_sorted l : Sorted (fun a b => coin_n b <= coin_n a) (sort_coins l)
}.

(** [setCoinsRet.insert] and [nValueRet +=] for each coin whose flag is set *)
Fixpoint insert_coins (flags : list bool) (vValue : list Coin) (setCoinsRet : CoinsSet) (nValueRet : Z) : CoinsSet * Z :=
  match flags, vValue with
  | b :: flags, c :: vValue =>
      if b : bool then insert_coins flags vValue ({[coin_at c]} ∪ setCoinsRet) (i64 (nValueRet + coin_n c))
      else insert_coins flags vValue setCoinsRet nValueRet
  | _, _ => (setCoinsRet, nValueRet)
  end.

(** What the scan over the coins finds: one of the very value, or the coins below the
    target, their sum, and the lowest of the larger ones *)
Inductive scan_result :=
  | Exact (c : Coin)
  | Scanned (vValue : list Coin) (nTotalLower : Z) (coinLowestLarger : option Coin).

(** [ApproximateBestSubset] and what is made of its result *)
Definition solve (nTargetValue : Z) {Q : SortOps} (vValue : list Coin) (nTotalLower : Z) (coinLowestLarger : option Coin)
    (seed1 seed2 : Z * Z) : CoinsSet * Z :=
  let vValue := sort_coins vValue in
  let values := coin_n <$> vValue in
  let '(vfBest, nBest) := ApproximateBestSubset values nTargetValue nTotalLower 1000 seed1 in
  let '(vfBest, nBest) :=
    if negb (nBest =? nTargetValue) && (i64 (nTargetValue + CENT) <=? nTotalLower)
    then ApproximateBestSubset values (i64 (nTargetValue + CENT)) nTotalLower 1000 seed2 else (vfBest, nBest) in
  match coinLowestLarger with
  | Some c =>
      if (negb (nBest =? nTargetValue) && (nBest <? i64 (nTargetValue + CENT))) || (coin_n c <=? nBest)
      then ({[coin_at c]}, coin_n c) else insert_coins vfBest vValue ∅ 0
  | None => insert_coins vfBest vValue ∅ 0
  end.

Definition choose (nTargetValue : Z) {Q : SortOps} (r : scan_result) (seed1 seed2 : Z * Z) : bool * CoinsSet * Z :=
  match r with
  | Exact c => (true, {[coin_at c]}, coin_n c)
  | Scanned vValue nTotalLower coinLowestLarger =>
      if nTotalLower =? nTargetValue then
        let '(l, n) := insert_coins (replicate (length vValue) true) vValue ∅ 0 in (true, l, n)
      else if nTotalLower <? nTargetValue then
        match coinLowestLarger with
        | None => (false, ∅, 0)
        | Some c => (true, {[coin_at c]}, coin_n c)
        end
      else let '(l, n) := solve nTargetValue vValue nTotalLower coinLowestLarger seed1 seed2 in (true, l, n)
  end.

(** The random numbers of one attempt *)
Record Randomness := mkRandomness { shuffle_rnd : list Z; seed_first : Z * Z; seed_second : Z * Z }.

Section select.
Context {E : ECOps} {SO : ECSecretOps E} {C : CipherOps} {H : HashOps} {Q : SortOps}.
Context (depth : nat) (par : Params) (s : ChainState) (opt : WalletOptions).

(** The loop over the shuffled coins.  [IsFromMe] keeps the debit it computes; [w] is
    the wallet the debits are computed in. *)
Fixpoint scan_loop (w : CWallet) (nTargetValue nSpendTime nConfMine nConfTheirs : Z) (vCoins : list COutput)
    (vValue : list Coin) (nTotalLower : Z) (coinLowestLarger : option Coin) (m : gmap (list Z) CWalletTx) :
    option (scan_result * gmap (list Z) CWalletTx) :=
  match vCoins with
  | [] => Some (Scanned vValue nTotalLower coinLowestLarger, m)
  | output :: vCoins =>
      if negb (out_fSpendable output) then
        scan_loop w nTargetValue nSpendTime nConfMine nConfTheirs vCoins vValue nTotalLower coinLowestLarger m
      else
        pcoin ← m !! out_tx output;
        '(mine, pcoin) ← IsFromMe depth w 3 pcoin;
        let m := <[out_tx output := pcoin]> m in
        if out_nDepth output <? (if (mine : bool) then nConfMine else nConfTheirs) then
          scan_loop w nTargetValue nSpendTime nConfMine nConfTheirs vCoins vValue nTotalLower coinLowestLarger m
        else if nSpendTime <? nTime (wtx_tx pcoin) then
          scan_loop w nTargetValue nSpendTime nConfMine nConfTheirs vCoins vValue nTotalLower coinLowestLarger m
        else
          txout ← vout (wtx_tx pcoin) !! out_i output;
          let n := nValue txout in
          let coin := mkCoin n (out_tx output, out_i output) in
          if n =? nTargetValue then Some (Exact coin, m)
          else if n <? i64 (nTargetValue + CENT) then
            scan_loop w nTargetValue nSpendTime nConfMine nConfTheirs vCoins (vValue ++ [coin]) (i64 (nTotalLower + n)) coinLowestLarger m
          else if n <? match coinLowestLarger with Some c => coin_n c | None => 2 ^ 63 - 1 end then
            scan_loop w nTargetValue nSpendTime nConfMine nConfTheirs vCoins vValue nTotalLower (Some coin) m
          else
            scan_loop w nTargetValue nSpendTime nConfMine nConfTheirs vCoins vValue nTotalLower coinLowestLarger m
  end.

Definition SelectCoinsMinConf (nTargetValue nSpendTime nConfMine nConfTheirs : Z) (vCoins : list COutput) (rnd : Randomness)
    (w : CWallet) : option (bool * CoinsSet * Z * CWallet) :=
  '(r, m) ← scan_loop w nTargetValue nSpendTime nConfMine nConfTheirs (random_shuffle (shuffle_rnd rnd) vCoins) [] 0 None (mapWallet w);
  let '(ok, setCoinsRet, nValueRet) := choose nTargetValue r (seed_first rnd) (seed_second rnd) in
  Some (ok, setCoinsRet, nValueRet, with_txs m w).

(** The loop of [SelectCoins] under coin control: every spendable coin is taken *)
Fixpoint control_loop (w : CWallet) (vCoins : list COutput) (setCoinsRet : CoinsSet) (nValueRet : Z) : option (CoinsSet * Z) :=
  match vCoins with
  | [] => Some (setCoinsRet, nValueRet)
  | out :: vCoins =>
      if negb (out_fSpendable out) then control_loop w vCoins setCoinsRet nValueRet
      else
        x ← mapWallet w !! out_tx out;
        txout ← vout (wtx_tx x) !! out_i out;
        control_loop w vCoins ({[(out_tx out, out_i out)]} ∪ setCoinsRet) (i64 (nValueRet + nValue txout))
  end.

(** [setCoinsRet] and [nValueRet] are the caller's; coin control adds to them *)
Definition SelectCoins (fuel : nat) (nTargetValue nSpendTime : Z) (coinControl : option (gset COutPoint)) (rnd1 rnd2 rnd3 : Randomness)
    (setCoinsRet : CoinsSet) (nValueRet : Z) (w : CWallet) : option (bool * CoinsSet * Z * CWallet) :=
  '(vCoins, w) ← AvailableCoins depth par s opt fuel true coinControl w;
  if match coinControl with Some sel => HasSelected sel | None => false end then
    '(l, n) ← control_loop w vCoins setCoinsRet nValueRet; Some (nTargetValue <=? n, l, n, w)
  else
    '(ok, l, n, w) ← SelectCoinsMinConf nTargetValue nSpendTime 1 6 vCoins rnd1 w;
    if ok : bool then Some (ok, l, n, w)
    else
      '(ok, l, n, w) ← SelectCoinsMinConf nTargetValue nSpendTime 1 1 vCoins rnd2 w;
      if ok : bool then Some (ok, l, n, w)
      else SelectCoinsMinConf nTargetValue nSpendTime 0 1 vCoins rnd3 w.

(** The common loop of [SelectCoinsForStaking] and [SelectCoinsSimple]; [skip] is the
    test that only the second makes *)
Fixpoint simple_loop (skip : wtxM bool) (nTargetValue nSpendTime : Z) (vCoins : list COutput) (setCoinsRet : CoinsSet) (nValueRet : Z)
    (m : gmap (list Z) CWalletTx) : option (CoinsSet * Z * gmap (list Z) CWalletTx) :=
  match vCoins with
  | [] => Some (setCoinsRet, nValueRet, m)
  | output :: vCoins =>
      if negb (out_fSpendable output) then simple_loop skip nTargetValue nSpendTime vCoins setCoinsRet nValueRet m
      else
        pcoin ← m !! out_tx output;
        '(b, pcoin) ← skip pcoin;
        let m := <[out_tx output := pcoin]> m in
        if b : bool then simple_loop skip nTargetValue nSpendTime vCoins setCoinsRet nValueRet m
        else if nTargetValue <=? nValueRet then Some (setCoinsRet, nValueRet, m)
        else if nSpendTime <? nTime (wtx_tx pcoin) then simple_loop skip nTargetValue nSpendTime vCoins setCoinsRet nValueRet m
        else
          txout ← vout (wtx_tx pcoin) !! out_i output;
          let n := nValue txout in
          let setCoins := {[(out_tx output, out_i output)]} ∪ setCoinsRet in
          if nTargetValue <=? n then Some (setCoins, i64 (nValueRet + n), m)
          else if n <? i64 (nTargetValue + CENT) then
            simple_loop skip nTargetValue nSpendTime vCoins setCoins (i64 (nValueRet + n)) m
          else simple_loop skip nTargetValue nSpendTime vCoins setCoinsRet nValueRet m
  end.

Definition SelectCoinsForStaking (nTargetValue nSpendTime : Z) (w : CWallet) : option (CoinsSet * Z * CWallet) :=
  '(vCoins, w) ← AvailableCoinsForStaking depth par s opt nSpendTime w;
  '(l, n, m) ← simple_loop (mret false) nTargetValue nSpendTime vCoins ∅ 0 (mapWallet w);
  Some (l, n, with_txs m w).

Definition SelectCoinsSimple (nTargetValue nMinValue nMaxValue nSpendTime nMinConf : Z) (w : CWallet) : option (CoinsSet * Z * CWallet) :=
  '(vCoins, w) ← AvailableCoinsMinConf depth par s nMinConf nMinValue nMaxValue w;
  '(l, n, m) ← simple_loop (immature par s) nTargetValue nSpendTime vCoins ∅ 0 (mapWallet w);
  Some (l, n, with_txs m w).
End select.
