(* ===== verification/CoinSelectFacts.v ===== *)
(** * The coins chosen pay for the transaction, and leave no dust as change when that
    can be avoided *)

From stdpp Require Import sorting.
From S2P Require Import Prelude.
From S2P Require Import Uint256.
From S2P Require Import Hash.
From S2P Require Import Transaction.
From S2P Require Import Script.
From S2P Require Import Key.
From S2P Require Import KeyStore.
From S2P Require Import TxRules.
From S2P Require Import Connect.
From S2P Require Import BlockConnect.
From S2P Require Import Reorganize.
From S2P Require Import Support.
From S2P Require Import Wallet.
From S2P Require Import WalletFacts.
From S2P Require Import CoinSelect.

(** ** Shuffling *)

Lemma swap_at_perm {A} i j (l : list A) : swap_at i j l ≡ₚ l.
Proof.
  unfold swap_at. destruct (l !! i) as [a|] eqn:Ei; [|done]. destruct (l !! j) as [b|] eqn:Ej; [|done].
  pose proof (lookup_lt_Some _ _ _ Ei). pose proof (lookup_lt_Some _ _ _ Ej).
  apply Permutation_inj. split; [by rewrite !length_insert|].
  exists (fun k => if decide (k = i) then j else if decide (k = j) then i else k). split.
  - intros x y. repeat case_decide; subst; congruence.
  - intros k. destruct (decide (k = i)) as [->|Hi]; [rewrite list_lookup_insert_eq; [congruence|by rewrite length_insert]|].
    rewrite list_lookup_insert_ne by done. destruct (decide (k = j)) as [->|Hj]; [rewrite list_lookup_insert_eq by done; congruence|].
    by rewrite list_lookup_insert_ne.
Qed.

Lemma random_shuffle_perm {A} rnd (l : list A) : random_shuffle rnd l ≡ₚ l.
Proof.
  unfold random_shuffle. generalize (length l - 1)%nat as n. generalize 1%nat as i. intros i n. revert i rnd l.
  induction n as [|n IH]; intros i rnd l; [done|]. cbn [shuffle_loop]. destruct (rand_int _ _) as [r rnd']. by rewrite IH, swap_at_perm.
Qed.

(** ** The random tries *)

(** The sum of the chosen values *)
Fixpoint chosen_sum (mask : list bool) (vs : list Z) : Z :=
  match mask, vs with
  | b :: mask, v :: vs => (if b : bool then v else 0) + chosen_sum mask vs
  | _, _ => 0
  end.

Definition sumZ (vs : list Z) : Z := foldr Z.add 0 vs.

Lemma chosen_sum_range mask vs : Forall (Z.le 0) vs -> 0 <= chosen_sum mask vs <= sumZ vs.
Proof.
  intros Hv. revert mask. induction Hv as [|v vs Hv _ IH]; intros [|b mask]; cbn [chosen_sum sumZ foldr]; try lia.
  - pose proof (IH []) as Hs. destruct vs; cbn in *; lia.
  - fold (sumZ vs). pose proof (IH mask). destruct b; lia.
Qed.

Lemma chosen_sum_insert (mask : list bool) vs i (b b' : bool) :
  mask !! i = Some b' -> (i < length vs)%nat ->
  chosen_sum (<[i := b]> mask) vs = chosen_sum mask vs + (if b then nthZ vs i else 0) - (if b' then nthZ vs i else 0).
Proof.
  revert mask i. induction vs as [|v vs IH]; intros mask i Hm Hi; [cbn in Hi; lia|].
  destruct mask as [|b0 mask]; [done|]. destruct i as [|i].
  - injection Hm as ->. change (nthZ (v :: vs) 0) with v. cbn [insert list_insert chosen_sum]. destruct b, b'; lia.
  - change (nthZ (v :: vs) (S i)) with (nthZ vs i). change (chosen_sum (<[S i := b]> (b0 :: mask)) (v :: vs)) with ((if b0 then v else 0) + chosen_sum (<[i := b]> mask) vs). cbn [chosen_sum].
    rewrite IH by (done || cbn in Hi; lia). lia.
Qed.

Lemma chosen_sum_all n vs : n = length vs -> chosen_sum (replicate n true) vs = sumZ vs.
Proof. intros ->. induction vs as [|v vs IH]; [done|]. cbn. by rewrite IH. Qed.
Lemma chosen_sum_none n vs : chosen_sum (replicate n false) vs = 0.
Proof. revert n. induction vs as [|v vs IH]; intros [|n]; try done. cbn. by rewrite IH. Qed.

Section approximate.
Context (vs : list Z) (T : Z) (Hv : Forall (Z.le 0) vs) (Hs : sumZ vs < 2 ^ 62).

Definition best_ok (best : list bool) (n : Z) : Prop := length best = length vs /\ n = chosen_sum best vs /\ T <= n.

(** The state before coin [i] of pass [p] *)
Definition try_ok (p i : nat) (st : Approx) : Prop :=
  length (vfIncluded st) = length vs /\ nTotal st = chosen_sum (vfIncluded st) vs /\ best_ok (vfBest st) (nBest st) /\
  (p = 0%nat -> forall j, (i <= j)%nat -> (j < length vs)%nat -> vfIncluded st !! j = Some false).

Lemma try_coin_ok p i st : (i < length vs)%nat -> try_ok p i st -> try_ok p (S i) (try_coin vs T p st i).
Proof.
  intros Hi (L & N & B & P). unfold try_coin.
  destruct (lookup_lt_is_Some_2 (vfIncluded st) i) as [b Hb]; [by rewrite L|].
  set (q := if (p =? 0)%nat then _ else _). assert (Hq : q.1 = true -> b = false).
  { unfold q. destruct (Nat.eqb_spec p 0) as [Hp|Hp].
    - intros _. rewrite P in Hb by (done || lia). congruence.
    - cbn. rewrite Hb. by destruct b. }
  destruct q as [take rnd]. cbn [fst] in Hq. destruct take; cbn [negb].
  2:{ split_and!; cbn; [done|done|done|]. intros -> j Hj. apply P; [done|lia]. }
  specialize (Hq eq_refl) as ->. pose proof (chosen_sum_insert _ vs i true _ Hb Hi) as Ht. rewrite <- N in Ht.
  pose proof (chosen_sum_range (<[i := true]> (vfIncluded st)) vs Hv). pose proof (chosen_sum_range (vfIncluded st) vs Hv).
  assert (E : i64 (nTotal st + nthZ vs i) = chosen_sum (<[i := true]> (vfIncluded st)) vs) by (rewrite Ht, swrap_small; lia).
  cbn zeta. rewrite E. assert (P' : forall c, p = 0%nat -> forall j, (S i <= j)%nat -> (j < length vs)%nat ->
    <[i := c]> (vfIncluded st) !! j = Some false).
  { intros c Hp j Hj Hl. rewrite list_lookup_insert_ne by lia. apply P; [done|lia|done]. }
  destruct (Z.leb_spec T (chosen_sum (<[i := true]> (vfIncluded st)) vs)) as [Hle|Hlt].
  - rewrite list_insert_insert_eq.
    assert (R : i64 (chosen_sum (<[i := true]> (vfIncluded st)) vs - nthZ vs i) = chosen_sum (<[i := false]> (vfIncluded st)) vs).
    { rewrite (chosen_sum_insert _ vs i false _ Hb Hi), swrap_small by lia. lia. }
    destruct (chosen_sum _ vs <? nBest st) eqn:Eb; (split_and!; cbn [vfIncluded nTotal vfBest nBest]; [by rewrite length_insert|done| |by apply P']).
    + split_and!; [by rewrite length_insert|done|done].
    + done.
  - split_and!; cbn [vfIncluded nTotal vfBest nBest]; [by rewrite length_insert|done|done|by apply P'].
Qed.

Lemma one_pass_ok p st : try_ok p 0 st -> try_ok p (length vs) (one_pass vs T p st).
Proof.
  unfold one_pass. intros Hst. assert (forall k i st, (i + k = length vs)%nat -> try_ok p i st ->
    try_ok p (length vs) (foldl (try_coin vs T p) st (seq i k))) as Hg; [|by apply Hg].
  induction k as [|k IH]; intros i st' Hk Ht; [by replace (length vs) with i by lia|]. cbn [seq foldl].
  apply IH; [lia|]. apply try_coin_ok; [lia|done].
Qed.

Lemma repetition_ok best n rnd : best_ok best n -> best_ok (vfBest (repetition vs T best n rnd)) (nBest (repetition vs T best n rnd)).
Proof.
  intros Hb. unfold repetition. set (st := one_pass vs T 0 _). assert (Hst : try_ok 0 (length vs) st).
  { apply one_pass_ok. split_and!; cbn; [apply length_replicate|by rewrite chosen_sum_none|done|]. intros _ j _ Hj. by apply lookup_replicate_2. }
  destruct (fReachedTarget st); [apply Hst|]. apply one_pass_ok. destruct Hst as (L & N & B & _). by split_and!.
Qed.

Lemma approx_loop_ok k best n rnd : best_ok best n -> best_ok (approx_loop vs T k best n rnd).1 (approx_loop vs T k best n rnd).2.
Proof.
  revert best n rnd. induction k as [|k IH]; intros best n rnd Hb; cbn [approx_loop]; [done|]. destruct (n =? T); [done|].
  apply IH, repetition_ok, Hb.
Qed.

(** What [ApproximateBestSubset] returns is a subset that reaches the target, with its
    sum. *)
Lemma ApproximateBestSubset_ok k seed :
  T <= sumZ vs -> best_ok (ApproximateBestSubset vs T (sumZ vs) k seed).1 (ApproximateBestSubset vs T (sumZ vs) k seed).2.
Proof. intros Ht. apply approx_loop_ok. split_and!; [apply length_replicate|by rewrite chosen_sum_all|done]. Qed.
End approximate.

(** ** The choice among the coins scanned *)

Definition coins_sum (l : list Coin) : Z := sumZ (coin_n <$> l).
Definition coins_set (l : list Coin) : CoinsSet := list_to_set (coin_at <$> l).

(** The coins whose flag is set *)
Fixpoint pick (flags : list bool) (l : list Coin) : list Coin :=
  match flags, l with
  | b :: flags, c :: l => if b : bool then c :: pick flags l else pick flags l
  | _, _ => []
  end.

Lemma pick_submseteq flags l : pick flags l ⊆+ l.
Proof.
  revert flags. induction l as [|c l IH]; intros [|[] flags]; cbn.
  1-4: apply submseteq_nil_l.
  - by apply submseteq_skip.
  - by apply submseteq_cons.
Qed.

Lemma pick_sum flags l : coins_sum (pick flags l) = chosen_sum flags (coin_n <$> l).
Proof.
  revert flags. induction l as [|c l IH]; intros [|[] flags]; try done.
  - change (coin_n c + coins_sum (pick flags l) = coin_n c + chosen_sum flags (coin_n <$> l)). by rewrite IH.
  - change (coins_sum (pick flags l) = 0 + chosen_sum flags (coin_n <$> l)). by rewrite IH.
Qed.

Lemma pick_all l : pick (replicate (length l) true) l = l.
Proof. induction l as [|c l IH]; [done|]. cbn. by rewrite IH. Qed.

Lemma coins_sum_perm l l' : l ≡ₚ l' -> coins_sum l = coins_sum l'.
Proof. unfold coins_sum, sumZ. induction 1; cbn in *; lia. Qed.

Lemma coins_sum_nonneg l : Forall (fun c => 0 <= coin_n c) l -> 0 <= coins_sum l.
Proof. induction 1 as [|c l Hc _ IH]; unfold coins_sum; cbn; [lia|]. fold (sumZ (coin_n <$> l)) (coins_sum l). lia. Qed.

Lemma coins_sum_app l l' : coins_sum (l ++ l') = coins_sum l + coins_sum l'.
Proof.
  unfold coins_sum. induction l as [|c l IH]; [done|]. change (coin_n <$> (c :: l) ++ l') with (coin_n c :: (coin_n <$> l ++ l')).
  change (coin_n <$> c :: l) with (coin_n c :: (coin_n <$> l)). cbn [sumZ foldr]. fold (sumZ (coin_n <$> l)) (sumZ (coin_n <$> l ++ l')). lia.
Qed.

Lemma submseteq_Forall {A} (P : A -> Prop) (l k : list A) : l ⊆+ k -> Forall P k -> Forall P l.
Proof. rewrite !Forall_forall. intros Hs Hk x Hx. apply Hk. by eapply elem_of_submseteq. Qed.

Lemma coins_sum_submseteq l k : l ⊆+ k -> Forall (fun c => 0 <= coin_n c) k -> coins_sum l <= coins_sum k.
Proof.
  intros (rest & Hr)%submseteq_Permutation Hk. rewrite Hr in Hk. apply Forall_app in Hk as [_ Hk].
  rewrite (coins_sum_perm _ _ Hr), coins_sum_app. pose proof (coins_sum_nonneg _ Hk). lia.
Qed.

Lemma insert_coins_pick flags l set n :
  Forall (fun c => 0 <= coin_n c) l -> 0 <= n -> n + coins_sum l < 2 ^ 63 ->
  insert_coins flags l set n = (coins_set (pick flags l) ∪ set, n + coins_sum (pick flags l)).
Proof.
  intros Hl. assert (Hnil : forall set n, (set, n) = (coins_set [] ∪ set, n + coins_sum [])).
  { intros. f_equal; [unfold coins_set; cbn; set_solver|unfold coins_sum; cbn; lia]. }
  revert flags set n. induction Hl as [|c l Hc Hl IH]; intros [|b flags] set n Hn Hb; [apply Hnil|apply Hnil|apply Hnil|].
  pose proof (coins_sum_nonneg l Hl). change (coins_sum (c :: l)) with (coin_n c + coins_sum l) in Hb. cbn [insert_coins pick].
  destruct b; [|apply IH; lia]. rewrite swrap_small by lia. rewrite IH by lia.
  change (coins_sum (c :: pick flags l)) with (coin_n c + coins_sum (pick flags l)).
  f_equal; [unfold coins_set; cbn; set_solver|lia].
Qed.

(** What is offered pays for [T]: the coins chosen are among those offered and are worth
    at least [T], and either exactly [T], or a cent more, or there was not a cent more to
    choose from; or else all of them together are not worth [T]. *)
Definition pays (T : Z) (offered : list Coin) (ok : bool) (setCoinsRet : CoinsSet) (nValueRet : Z) : Prop :=
  if ok then
    exists l, l ⊆+ offered /\ setCoinsRet = coins_set l /\ nValueRet = coins_sum l /\ T <= nValueRet /\
      (nValueRet = T \/ T + CENT <= nValueRet \/ coins_sum offered < T + CENT)
  else setCoinsRet = ∅ /\ nValueRet = 0 /\ coins_sum offered < T.

(** What the scan over the coins [offered] finds *)
Definition scan_ok (T : Z) (offered : list Coin) (r : scan_result) : Prop :=
  match r with
  | Exact c => c ∈ offered /\ coin_n c = T
  | Scanned vValue nTotalLower None => offered ≡ₚ vValue /\ nTotalLower = coins_sum vValue
  | Scanned vValue nTotalLower (Some c) =>
      (exists rest, offered ≡ₚ vValue ++ c :: rest) /\ nTotalLower = coins_sum vValue /\ T + CENT <= coin_n c
  end.

Section choice.
Context {Q : SortOps} {QL : SortLaws Q}.
Context (T : Z) (offered : list Coin).
Context (HT : 0 < T < 2 ^ 61) (Hpos : Forall (fun c => 0 <= coin_n c) offered) (Hsum : coins_sum offered < 2 ^ 62).

Lemma single_pays c : c ∈ offered -> T + CENT <= coin_n c \/ coin_n c = T -> pays T offered true {[coin_at c]} (coin_n c).
Proof.
  intros Hc Hn. exists [c]. split_and!.
  - by apply singleton_submseteq_l.
  - unfold coins_set. cbn. set_solver.
  - unfold coins_sum. cbn. lia.
  - unfold CENT in Hn. lia.
  - lia.
Qed.

Lemma pick_pays flags vValue v :
  vValue ⊆+ offered -> v ≡ₚ vValue -> T <= coins_sum (pick flags v) ->
  coins_sum (pick flags v) = T \/ T + CENT <= coins_sum (pick flags v) \/ coins_sum offered < T + CENT ->
  pays T offered true (insert_coins flags v ∅ 0).1 (insert_coins flags v ∅ 0).2.
Proof.
  intros Hsub Hv Hle Hch. assert (Hp : Forall (fun c => 0 <= coin_n c) v).
  { rewrite Hv. by eapply submseteq_Forall. }
  assert (Hle' : coins_sum v <= coins_sum offered).
  { rewrite (coins_sum_perm _ _ Hv). by apply coins_sum_submseteq. }
  rewrite insert_coins_pick by (done || lia). cbn [fst snd]. exists (pick flags v). split_and!; [|set_solver|done|lia|].
  - transitivity v; [apply pick_submseteq|]. by rewrite Hv.
  - rewrite !Z.add_0_l. done.
Qed.

Lemma solve_pays vValue nTotalLower coinLowestLarger seed1 seed2 :
  scan_ok T offered (Scanned vValue nTotalLower coinLowestLarger) -> T < nTotalLower ->
  pays T offered true (solve T vValue nTotalLower coinLowestLarger seed1 seed2).1 (solve T vValue nTotalLower coinLowestLarger seed1 seed2).2.
Proof.
  intros Hscan Hlow. pose proof (sort_coins_perm vValue) as Hperm. unfold solve. set (v := sort_coins vValue) in *.
  assert (Hsub : vValue ⊆+ offered /\ nTotalLower = coins_sum vValue).
  { destruct coinLowestLarger as [c|]; cbn in Hscan; [destruct Hscan as [[rest ->] [-> _]]; split; [by apply submseteq_inserts_r|done]|].
    destruct Hscan as [-> ->]. done. }
  destruct Hsub as [Hsub Hlower]. pose proof (coins_sum_perm _ _ Hperm) as Hsame.
  assert (Hv : Forall (Z.le 0) (coin_n <$> v)).
  { apply Forall_fmap. rewrite Hperm. by eapply (submseteq_Forall (fun c => 0 <= coin_n c)). }
  assert (Hle : coins_sum v <= coins_sum offered).
  { rewrite Hsame. by apply coins_sum_submseteq. }
  assert (Hs : sumZ (coin_n <$> v) < 2 ^ 62) by (fold (coins_sum v); lia).
  assert (HC : i64 (T + CENT) = T + CENT) by (apply swrap_small; unfold CENT; lia). rewrite HC.
  replace nTotalLower with (sumZ (coin_n <$> v)) in * by (fold (coins_sum v); lia).
  pose proof (ApproximateBestSubset_ok (coin_n <$> v) T Hv Hs 1000 seed1 ltac:(lia)) as (L1 & N1 & B1).
  destruct (ApproximateBestSubset (coin_n <$> v) T _ 1000 seed1) as [best1 n1]. cbn [fst snd] in *.
  set (second := negb (n1 =? T) && _). destruct (if second then _ else _) as [best n] eqn:Eb.
  assert (Hbest : n = coins_sum (pick best v) /\ T <= n /\ (n = T \/ T + CENT <= n \/ sumZ (coin_n <$> v) < T + CENT)).
  { subst second. rewrite pick_sum. destruct (Z.eqb_spec n1 T) as [->|Hne]; cbn [negb andb] in Eb; [injection Eb as <- <-; split_and!; auto|].
    destruct (Z.leb_spec (T + CENT) (sumZ (coin_n <$> v))) as [Hc|Hc]; [|injection Eb as <- <-; split_and!; auto].
    pose proof (ApproximateBestSubset_ok (coin_n <$> v) (T + CENT) Hv Hs 1000 seed2 Hc) as (L2 & N2 & B2). rewrite Eb in N2, B2.
    cbn [fst snd] in *. unfold CENT in *. split_and!; [done|lia|lia]. }
  destruct Hbest as (-> & Hle1 & Hch). clear Eb second. destruct coinLowestLarger as [c|].
  - destruct Hscan as ([rest Hrest] & _ & Hc). assert (Hin : c ∈ offered) by (rewrite Hrest; set_solver).
    assert (Htake : pays T offered true {[coin_at c]} (coin_n c)) by (apply single_pays; [done|by left]).
    destruct (Z.eqb_spec (coins_sum (pick best v)) T) as [He|He]; cbn [negb andb orb].
    + destruct (coin_n c <=? _); [exact Htake|]. apply (pick_pays best vValue); [done|done|done|by left].
    + destruct (Z.ltb_spec (coins_sum (pick best v)) (T + CENT)) as [Hl|Hl]; cbn [orb]; [exact Htake|].
      destruct (coin_n c <=? _); [exact Htake|]. apply (pick_pays best vValue); [done|done|done|right; by left].
  - destruct Hscan as [Hp _]. apply (pick_pays best vValue); [done|done|done|]. destruct Hch as [Hch|[Hch|Hch]]; [by left|by right; left|].
    right; right. rewrite (coins_sum_perm _ _ Hp), <- Hsame. exact Hch.
Qed.

Lemma choose_pays r seed1 seed2 :
  scan_ok T offered r ->
  pays T offered (choose T r seed1 seed2).1.1 (choose T r seed1 seed2).1.2 (choose T r seed1 seed2).2.
Proof.
  intros Hr. destruct r as [c|vValue nTotalLower larger]; unfold choose.
  { destruct Hr as [Hc Hn]. cbn [fst snd]. apply single_pays; [done|by right]. }
  destruct (Z.eqb_spec nTotalLower T) as [Heq|Hne].
  { assert (Hs : vValue ⊆+ offered /\ nTotalLower = coins_sum vValue).
    { destruct larger as [c|]; cbn in Hr; [destruct Hr as [[rest ->] [-> _]]; split; [by apply submseteq_inserts_r|done]|by destruct Hr as [-> ->]]. }
    destruct Hs as [Hs ->]. pose proof (pick_pays (replicate (length vValue) true) vValue vValue Hs ltac:(done)) as Hp.
    rewrite pick_all in Hp. destruct (insert_coins _ _ _ _) as [l n]. cbn [fst snd] in *. apply Hp; [lia|by left]. }
  destruct (Z.ltb_spec nTotalLower T) as [Hlt|Hge].
  - destruct larger as [c|]; cbn in Hr; cbn [fst snd].
    + destruct Hr as ([rest Hrest] & _ & Hc). apply single_pays; [|by left]. rewrite Hrest. set_solver.
    + destruct Hr as [Hp ->]. split_and!; [done|done|]. by rewrite (coins_sum_perm _ _ Hp).
  - pose proof (solve_pays vValue nTotalLower larger seed1 seed2 Hr ltac:(lia)) as Hp.
    destruct (solve _ _ _ _ _ _) as [l n]. exact Hp.
Qed.
End choice.

(** ** The scan over the coins *)

Lemma omap_perm {A B} (f : A -> option B) l l' : l ≡ₚ l' -> omap f l ≡ₚ omap f l'.
Proof. by intros ->. Qed.

Lemma pays_perm T l l' ok set value : l ≡ₚ l' -> pays T l ok set value -> pays T l' ok set value.
Proof.
  intros Hp. unfold pays. rewrite (coins_sum_perm _ _ Hp). destruct ok; [|done]. intros (k & Hk & Hrest).
  exists k. split; [|exact Hrest]. etransitivity; [exact Hk|by apply Permutation_submseteq].
Qed.

Section select.
Context {E : ECOps} {SO : ECSecretOps E} {C : CipherOps} {H : HashOps} {Q : SortOps} {QL : SortLaws Q}.
Context (depth : nat) (par : Params) (s : ChainState) (opt : WalletOptions).
Context (w : CWallet) (T nSpendTime : Z) (HT : 0 < T < 2 ^ 61).

(** The coin that an output offered stands for, if it has the confirmations asked for
    and is not younger than the transaction to make *)
Definition eligible (nConfMine nConfTheirs : Z) (o : COutput) : option Coin :=
  if negb (out_fSpendable o) then None
  else
    x ← mapWallet w !! out_tx o;
    mine ← from_me_value depth w x;
    if out_nDepth o <? (if (mine : bool) then nConfMine else nConfTheirs) then None
    else if nSpendTime <? nTime (wtx_tx x) then None
    else txout ← vout (wtx_tx x) !! out_i o; Some (mkCoin (nValue txout) (out_tx o, out_i o)).

(** The outputs are of the wallet's transactions, whose debits can be computed. *)
Definition output_ok (o : COutput) : Prop :=
  exists x, mapWallet w !! out_tx o = Some x /\ is_Some (vout (wtx_tx x) !! out_i o) /\ is_Some (from_me_value depth w x).

(** The map may only differ from the wallet's in its caches. *)
Definition map_ok (m : gmap (list Z) CWalletTx) : Prop :=
  same_txs m (mapWallet w) /\ forall h x, m !! h = Some x -> cache_ok depth s w x.

Section scan.
Context (nConfMine nConfTheirs : Z).
Abbreviation offered := (omap (eligible nConfMine nConfTheirs)).

(** One more coin, of value below the target or larger *)
Lemma scan_ok_lower off v lower larger c :
  scan_ok T off (Scanned v lower larger) -> scan_ok T (off ++ [c]) (Scanned (v ++ [c]) (lower + coin_n c) larger).
Proof.
  assert (Hs : coins_sum (v ++ [c]) = coins_sum v + coin_n c) by (rewrite coins_sum_app; unfold coins_sum; cbn; lia).
  destruct larger as [d|]; cbn [scan_ok].
  - intros ([rest Hr] & -> & Hd). split_and!; [|by rewrite Hs|done]. exists rest. rewrite Hr. solve_Permutation.
  - intros [Hp ->]. split; [by rewrite Hp|by rewrite Hs].
Qed.
Lemma scan_ok_larger off v lower larger c :
  T + CENT <= coin_n c -> scan_ok T off (Scanned v lower larger) -> scan_ok T (off ++ [c]) (Scanned v lower (Some c)).
Proof.
  intros Hc. destruct larger as [d|]; cbn [scan_ok].
  - intros ([rest Hr] & -> & Hd). split_and!; [|done|done]. exists (d :: rest). rewrite Hr. solve_Permutation.
  - intros [Hp ->]. split_and!; [|done|done]. exists []. by rewrite Hp.
Qed.
Lemma scan_ok_skip off v lower d c :
  scan_ok T off (Scanned v lower (Some d)) -> scan_ok T (off ++ [c]) (Scanned v lower (Some d)).
Proof. cbn [scan_ok]. intros ([rest Hr] & -> & Hd). split_and!; [|done|done]. exists (rest ++ [c]). rewrite Hr. solve_Permutation. Qed.

Lemma scan_lower_bound off v lower larger :
  Forall (fun c => 0 <= coin_n c) off -> scan_ok T off (Scanned v lower larger) -> 0 <= lower <= coins_sum off.
Proof.
  intros Hp Hs. assert (Hv : v ⊆+ off /\ lower = coins_sum v).
  { destruct larger as [d|]; cbn in Hs; [destruct Hs as ([rest ->] & -> & _); split; [by apply submseteq_inserts_r|done]|by destruct Hs as [-> ->]]. }
  destruct Hv as [Hv ->]. split; [|by apply coins_sum_submseteq]. apply coins_sum_nonneg. by eapply submseteq_Forall.
Qed.

Lemma map_ok_insert m h y y' : map_ok m -> m !! h = Some y -> same y' y -> cache_ok depth s w y' -> map_ok (<[h := y']> m).
Proof.
  intros [Hm Hc] Hy Hs Hcy. split.
  - intros k. destruct (decide (k = h)) as [->|Hne]; [|rewrite lookup_insert_ne by done; apply Hm]. rewrite lookup_insert_eq.
    specialize (Hm h). rewrite Hy in Hm. inversion Hm; subst. constructor. by transitivity y.
  - intros k x. rewrite lookup_insert_Some. intros [[_ <-]|[_ Hx]]; [done|by apply (Hc k)].
Qed.

Lemma scan_loop_ok vCoins off v lower larger m :
  map_ok m -> Forall output_ok vCoins -> scan_ok T off (Scanned v lower larger) ->
  Forall (fun c => 0 <= coin_n c) (off ++ offered vCoins) -> coins_sum (off ++ offered vCoins) < 2 ^ 62 ->
  exists r m', scan_loop depth w T nSpendTime nConfMine nConfTheirs vCoins v lower larger m = Some (r, m') /\
    scan_ok T (off ++ offered vCoins) r /\ map_ok m'.
Proof.
  intros Hm Hf. revert off v lower larger m Hm. induction Hf as [|o vCoins Ho _ IH]; intros off v lower larger m Hm Hs Hp Hb.
  { rewrite app_nil_r. by exists (Scanned v lower larger), m. }
  cbn [scan_loop]. cbn [omap list_omap] in *. unfold eligible at 1 in Hp. unfold eligible at 1 in Hb. unfold eligible at 1.
  destruct (out_fSpendable o); cbn [negb] in *; [|by apply IH].
  destruct Ho as (x & Hx & [txout Ht] & [mine Hmine]). rewrite Hx in Hp, Hb |- *. cbn [mbind option_bind] in Hp, Hb |- *.
  rewrite Hmine in Hp, Hb |- *. cbn [mbind option_bind] in Hp, Hb |- *.
  destruct (same_txs_lookup (mapWallet w) m (out_tx o) x ltac:(symmetry; apply Hm) Hx) as (y & Hy & Hxy). rewrite Hy. cbn [mbind option_bind].
  pose proof (computes_from_me depth s w y (proj2 Hm _ _ Hy)) as Hc.
  assert (from_me_value depth w y = Some mine) as Ey by (unfold from_me_value; by rewrite <- (debit_value_same depth w 3 x y)).
  rewrite Ey in Hc. destruct Hc as (y' & -> & Hyy & Hcy). cbn [mbind option_bind].
  assert (Hm' : map_ok (<[out_tx o := y']> m)) by (apply (map_ok_insert m _ y y'); done).
  assert (Htx : wtx_tx y' = wtx_tx x) by (apply same_tx; transitivity y; [done|by symmetry]). rewrite Htx.
  destruct (out_nDepth o <? _); [by apply IH|]. destruct (nSpendTime <? _); [by apply IH|].
  rewrite Ht in Hp, Hb |- *. cbn [mbind option_bind] in Hp, Hb |- *. set (c := mkCoin (nValue txout) _) in *. assert (Happ : forall l, off ++ c :: l = (off ++ [c]) ++ l) by (intros; by rewrite <- app_assoc).
  destruct (Z.eqb_spec (nValue txout) T) as [He|Hne].
  { exists (Exact c), (<[out_tx o := y']> m). split; [done|]. split; [|done]. split; [set_solver|done]. }
  rewrite Happ in *. assert (HC : i64 (T + CENT) = T + CENT) by (apply swrap_small; unfold CENT; lia). rewrite HC.
  assert (Hpc : Forall (fun c => 0 <= coin_n c) (off ++ [c])) by (by apply Forall_app in Hp as [? _]).
  assert (Hbc : coins_sum off + nValue txout < 2 ^ 62 /\ 0 <= nValue txout).
  { rewrite coins_sum_app in Hb. pose proof Hp as Hp'. apply Forall_app in Hp' as [_ Hrest]. pose proof (coins_sum_nonneg _ Hrest).
    assert (coins_sum [c] = nValue txout) by (unfold coins_sum; cbn; lia). rewrite coins_sum_app in Hb. apply Forall_app in Hpc as [_ Hc1]. apply Forall_cons in Hc1 as [Hc1 _].
    change (coin_n c) with (nValue txout) in Hc1. lia. }
  pose proof (scan_lower_bound off v lower larger ltac:(by apply Forall_app in Hpc as [? _]) Hs) as Hlow.
  destruct (Z.ltb_spec (nValue txout) (T + CENT)) as [Hl|Hl].
  - rewrite swrap_small by lia. apply IH; [done|by apply scan_ok_lower|done|done].
  - destruct larger as [d|].
    + destruct (nValue txout <? coin_n d); [by apply IH; [done|apply scan_ok_larger with (Some d)|..]|by apply IH; [done|apply scan_ok_skip|..]].
    + rewrite (proj2 (Z.ltb_lt _ _)) by lia. apply IH; [done|by apply scan_ok_larger with None|done|done].
Qed.
End scan.

(** One attempt pays, or nothing it may use does. *)
Lemma SelectCoinsMinConf_ok nConfMine nConfTheirs vCoins rnd :
  wallet_ok depth s w -> Forall output_ok vCoins ->
  Forall (fun c => 0 <= coin_n c) (omap (eligible nConfMine nConfTheirs) vCoins) ->
  coins_sum (omap (eligible nConfMine nConfTheirs) vCoins) < 2 ^ 62 ->
  exists ok setCoinsRet nValueRet m,
    SelectCoinsMinConf depth T nSpendTime nConfMine nConfTheirs vCoins rnd w = Some (ok, setCoinsRet, nValueRet, with_txs m w) /\
    pays T (omap (eligible nConfMine nConfTheirs) vCoins) ok setCoinsRet nValueRet /\
    same_txs m (mapWallet w) /\ wallet_ok depth s (with_txs m w).
Proof.
  intros Hw Hf Hp Hb. pose proof (random_shuffle_perm (shuffle_rnd rnd) vCoins) as Hperm. pose proof (omap_perm (eligible nConfMine nConfTheirs) _ _ Hperm) as Hoff.
  destruct (scan_loop_ok nConfMine nConfTheirs (random_shuffle (shuffle_rnd rnd) vCoins) [] [] 0 None (mapWallet w)) as (r & m & Er & Hr & Hm).
  - split; [done|]. intros h x Hx. by apply (Hw h).
  - by rewrite Hperm.
  - done.
  - cbn [app]. by rewrite Hoff.
  - cbn [app]. by rewrite (coins_sum_perm _ _ Hoff).
  - cbn [app] in Hr. unfold SelectCoinsMinConf. rewrite Er. cbn [mbind option_bind].
    pose proof (choose_pays T (omap (eligible nConfMine nConfTheirs) (random_shuffle (shuffle_rnd rnd) vCoins)) HT) as Hc.
    specialize (Hc ltac:(by rewrite Hoff) ltac:(by rewrite (coins_sum_perm _ _ Hoff)) r (seed_first rnd) (seed_second rnd) Hr).
    destruct (choose T r _ _) as [[ok set] value]. cbn [fst snd] in Hc. exists ok, set, value, m. split; [done|].
    split; [by apply (pays_perm _ _ _ _ _ _ Hoff)|]. destruct Hm as [Hm Hcm]. split; [done|by apply wallet_ok_same].
Qed.
End select.

Section spend.
Context {E : ECOps} {SO : ECSecretOps E} {C : CipherOps} {H : HashOps} {Q : SortOps} {QL : SortLaws Q}.
Context (depth : nat) (par : Params) (s : ChainState) (opt : WalletOptions).

Lemma eligible_same m w nSpendTime cm ct o :
  same_txs m (mapWallet w) -> eligible depth (with_txs m w) nSpendTime cm ct o = eligible depth w nSpendTime cm ct o.
Proof.
  intros Hm. unfold eligible. destruct (negb (out_fSpendable o)); [done|]. cbn [with_txs mapWallet]. pose proof (Hm (out_tx o)) as Ho.
  inversion Ho as [x y Hxy|]; [|done]. cbn [mbind option_bind].
  assert (from_me_value depth (with_txs m w) x = from_me_value depth w y) as ->.
  { unfold from_me_value, debit_value. rewrite !(GetDebit_same depth m w) by done. by rewrite (same_tx _ _ Hxy). }
  by rewrite (same_tx _ _ Hxy).
Qed.

Lemma output_ok_same m w o : same_txs m (mapWallet w) -> output_ok depth w o -> output_ok depth (with_txs m w) o.
Proof.
  intros Hm (x & Hx & Hv & Hf). destruct (same_txs_lookup (mapWallet w) m _ _ ltac:(by symmetry) Hx) as (y & Hy & Hxy). exists y. split; [done|].
  rewrite <- (same_tx _ _ Hxy). split; [done|]. unfold from_me_value, debit_value in *. rewrite !(GetDebit_same depth m w) by done. by rewrite <- (same_tx _ _ Hxy).
Qed.

(** The outputs that [AvailableCoins] finds *)
Definition available (coinControl : option (gset COutPoint)) (w : CWallet) (fuel : nat) : list COutput :=
  coins_value depth s w (usable depth par s opt fuel true w) (chosen_coin opt coinControl).

(** The coins of the wallet that can be offered to an attempt, and their outputs *)
Definition offered (w : CWallet) (fuel : nat) (nSpendTime cm ct : Z) : list Coin :=
  omap (eligible depth w nSpendTime cm ct) (available None w fuel).

(** An output that can be spent: it is the wallet's, its key is there, it is not spent,
    and its transaction is final, trusted and mature *)
Definition spendable_coin (w : CWallet) (fuel : nat) (c : Coin) : Prop :=
  exists x o, mapWallet w !! (coin_at c).1 = Some x /\ vout (wtx_tx x) !! (coin_at c).2 = Some o /\ coin_n c = nValue o /\
    IsSpent x (Z.of_nat (coin_at c).2) = Some false /\ IsMine_out depth w o = MINE_SPENDABLE /\
    trusted_value depth par s opt w fuel x = Some true /\ generated (wtx_tx x) && (0 <? maturity_value par s x) = false /\
    nMinimumInputValue opt <= nValue o.

(** [f] makes coins out of outputs whose key is there. *)
Definition coin_source (w : CWallet) (f : COutput -> option Coin) : Prop := forall o c, f o = Some c ->
  out_fSpendable o = true /\ coin_at c = (out_tx o, out_i o) /\
  exists x txout, mapWallet w !! out_tx o = Some x /\ vout (wtx_tx x) !! out_i o = Some txout /\ coin_n c = nValue txout.

Lemma eligible_source w nSpendTime cm ct : coin_source w (eligible depth w nSpendTime cm ct).
Proof.
  intros o c. unfold eligible. destruct (out_fSpendable o); [|done]. cbn [negb]. intros Ee. apply bind_Some in Ee as (x & Hx & Ee).
  apply bind_Some in Ee as (mine & _ & Ee). case_hyp Ee; [done|]. case_hyp Ee; [done|]. apply bind_Some in Ee as (t & Ht & [= <-]).
  split_and!; [done|done|]. by exists x, t.
Qed.

Lemma coins_sum_cons c l : coins_sum (c :: l) = coin_n c + coins_sum l.
Proof. done. Qed.

(** *** The coins made of the outputs found *)

Section source.
Context (w : CWallet) (f : COutput -> option Coin) (Hf : coin_source w f) (cc : option (gset COutPoint)) (fuel : nat).

Lemma source_spendable c : c ∈ omap f (available cc w fuel) -> spendable_coin w fuel c.
Proof.
  intros (o & Ho & Ee)%list_elem_of_omap. apply Hf in Ee as (Hsp & Hat & x & txout & Hx & Ht & Hn).
  apply elem_of_coins in Ho as (x' & o' & (H1 & H2 & H3 & H4 & H5 & H6) & Hu & Hch). replace x' with x in * by congruence. replace o' with txout in * by congruence.
  exists x, txout. rewrite Hat. cbn [fst snd]. rewrite Hsp in H5. symmetry in H5. apply bool_decide_eq_true in H5.
  unfold usable in Hu. unfold chosen_coin in Hch. apply andb_true_iff in Hch as [Hch _]. apply Z.leb_le in Hch.
  rewrite !andb_true_iff in Hu. destruct Hu as [[[_ Htr] Hma] _]. cbn [negb orb] in Htr. apply bool_decide_eq_true in Htr. apply negb_true_iff in Hma.
  split_and!; done.
Qed.

Lemma source_NoDup : NoDup (coin_at <$> omap f (available cc w fuel)).
Proof.
  pose proof (coins_value_NoDup depth s w (usable depth par s opt fuel true w) (chosen_coin opt cc)) as Hnd. unfold available.
  induction (coins_value _ _ _ _ _) as [|o l IH]; [constructor|]. cbn in Hnd. apply NoDup_cons in Hnd as [Ho Hnd]. cbn [omap list_omap].
  destruct (f o) as [c|] eqn:Ee; [|by apply IH]. cbn. apply NoDup_cons. split; [|by apply IH].
  intros (c' & Hc & (o' & Ho' & Ee')%list_elem_of_omap)%list_elem_of_fmap. apply Ho, list_elem_of_fmap. exists o'. split; [|done].
  apply Hf in Ee as (_ & E1 & _). apply Hf in Ee' as (_ & E2 & _). congruence.
Qed.

Lemma source_outputs_sum h x nDepth chosen outs i :
  mapWallet w !! h = Some x -> outs = drop i (vout (wtx_tx x)) -> Forall (fun o => 0 <= nValue o) outs ->
  coins_sum (omap f (outputs_of depth w h nDepth chosen x outs i)) <= unspent_loop depth w 2 x outs (Z.of_nat i).
Proof.
  intros Hx Ho Hpos. revert i Ho. induction Hpos as [|o outs Hpos _ IH]; intros i Ho; cbn [outputs_of unspent_loop]; [done|].
  assert (Hi : vout (wtx_tx x) !! i = Some o) by (rewrite <- (Nat.add_0_r i), <- lookup_drop, <- Ho; done).
  cbn beta in Hpos. specialize (IH (S i)). replace (Z.of_nat i + 1) with (Z.of_nat (S i)) by lia.
  assert (Hrest : outs = drop (S i) (vout (wtx_tx x))) by (rewrite (drop_S _ _ _ Hi) in Ho; congruence). specialize (IH Hrest).
  rewrite omap_app, coins_sum_app.
  assert (Hh : coins_sum (omap f
    (if bool_decide (IsSpent x (Z.of_nat i) = Some false) && negb (bool_decide (IsMine_out depth w o = MINE_NO)) && chosen i o
     then [mkOutput h i nDepth (bool_decide (IsMine_out depth w o = MINE_SPENDABLE))] else [])) <=
    (if bool_decide (IsSpent x (Z.of_nat i) = Some false) && matches 2 (IsMine_out depth w o) then nValue o else 0)); [|lia].
  destruct (bool_decide (IsSpent x (Z.of_nat i) = Some false)); cbn [andb]; [|done].
  destruct (negb _ && chosen i o); [|cbn; destruct (matches _ _); unfold coins_sum; cbn; lia]. cbn [omap list_omap].
  destruct (f _) as [c|] eqn:Ee; [|unfold coins_sum; cbn; destruct (matches _ _); lia].
  apply Hf in Ee as (Hsp & _ & x' & txout & Hx' & Ht & Hn). cbn [out_fSpendable out_tx out_i] in *. apply bool_decide_eq_true in Hsp.
  rewrite Hsp. change (matches 2 MINE_SPENDABLE) with true. cbn iota. replace x' with x in * by congruence. rewrite Hi in Ht. injection Ht as <-. change (coins_sum [c]) with (coin_n c + 0). lia.
Qed.

Lemma source_sum :
  (forall h x, mapWallet w !! h = Some x -> money_ok x) -> coins_sum (omap f (available cc w fuel)) <= sum_wallet (unspent depth w 2) w.
Proof.
  intros Hmo. unfold available, sum_wallet, coins_value. assert (Hin : forall h x, (h, x) ∈ map_entries (mapWallet w) -> mapWallet w !! h = Some x).
  { intros h x. apply elem_of_map_entries. }
  induction (map_entries (mapWallet w)) as [|[h x] l IH]; [done|]. cbn [mbind list_bind foldr snd]. rewrite omap_app, coins_sum_app.
  specialize (IH ltac:(intros; apply Hin; by right)). pose proof (Hin h x ltac:(by left)) as Hx. destruct (Hmo h x Hx) as [Hpos Ht].
  destruct (usable depth par s opt fuel true w x).
  - pose proof (source_outputs_sum h x (depth_value s (merkle x)) (chosen_coin opt cc h) (vout (wtx_tx x)) 0 Hx eq_refl Hpos) as Ho.
    change (unspent_loop depth w 2 x (vout (wtx_tx x)) (Z.of_nat 0)) with (unspent depth w 2 x) in Ho. lia.
  - destruct (available_unspent depth w 2 x (Hmo h x Hx)) as [_ ?]. unfold coins_sum at 1. cbn. lia.
Qed.

Lemma source_nonneg :
  (forall h x, mapWallet w !! h = Some x -> money_ok x) -> Forall (fun c => 0 <= coin_n c) (omap f (available cc w fuel)).
Proof.
  intros Hmo. apply Forall_forall. intros c Hc. apply source_spendable in Hc as (x & o & Hx & Ho & -> & _).
  destruct (Hmo _ _ Hx) as [Hpos _]. by eapply Forall_lookup_1 in Hpos.
Qed.
End source.

(** What is asked of a wallet whose coins are to be chosen *)
Definition wallet_sound (w : CWallet) : Prop :=
  wallet_ok depth s w /\ (forall h x, mapWallet w !! h = Some x -> acyclic x /\ debits_defined depth w x /\ money_ok x) /\
  sum_wallet (unspent depth w 2) w < 2 ^ 62.

(** An attempt on a wallet that differs from [w] in its caches *)
Lemma attempt_ok w m fuel T nSpendTime cm ct rnd :
  0 < T < 2 ^ 61 -> wallet_sound w -> same_txs m (mapWallet w) -> wallet_ok depth s (with_txs m w) ->
  exists ok setCoinsRet nValueRet m',
    SelectCoinsMinConf depth T nSpendTime cm ct (available None w fuel) rnd (with_txs m w) =
      Some (ok, setCoinsRet, nValueRet, with_txs m' w) /\
    pays T (offered w fuel nSpendTime cm ct) ok setCoinsRet nValueRet /\ same_txs m' (mapWallet w) /\ wallet_ok depth s (with_txs m' w).
Proof.
  intros HT (Hw & Hx & Hb) Hm Hok. set (vCoins := available None w fuel).
  assert (Ho : omap (eligible depth (with_txs m w) nSpendTime cm ct) vCoins = offered w fuel nSpendTime cm ct).
  { unfold offered. fold vCoins. clearbody vCoins. induction vCoins as [|o l IH]; [done|]. cbn [omap list_omap]. by rewrite (eligible_same m w _ _ _ o Hm), IH. }
  assert (Hmo : forall h x, mapWallet w !! h = Some x -> money_ok x) by (intros h x Hl; by apply (Hx h)).
  destruct (SelectCoinsMinConf_ok depth s (with_txs m w) T nSpendTime HT cm ct vCoins rnd Hok) as (ok & set & value & m' & Es & Hp & Hm' & Hok').
  - apply Forall_forall. intros o Hin. apply output_ok_same; [done|]. apply elem_of_coins in Hin as (x & txout & (H1 & H2 & _) & _ & _).
    exists x. split; [done|]. split; [by eexists|]. destruct (Hx _ _ H1) as (_ & [[n Hn] _] & _). unfold from_me_value. rewrite Hn. by eexists.
  - rewrite Ho. apply source_nonneg; [apply eligible_source|done].
  - rewrite Ho. pose proof (source_sum w _ (eligible_source w nSpendTime cm ct) None fuel Hmo). unfold offered. lia.
  - exists ok, set, value, m'. split; [exact Es|]. rewrite Ho in Hp. split; [exact Hp|]. split; [by transitivity m|exact Hok'].
Qed.

Lemma pays_spendable w fuel T nSpendTime cm ct set value :
  pays T (offered w fuel nSpendTime cm ct) true set value ->
  exists l, NoDup (coin_at <$> l) /\ (forall c, c ∈ l -> spendable_coin w fuel c) /\ set = coins_set l /\ value = coins_sum l /\ T <= value /\
    (value = T \/ T + CENT <= value \/ coins_sum (offered w fuel nSpendTime cm ct) < T + CENT).
Proof.
  intros (l & Hl & Hrest). exists l. split.
  - pose proof (source_NoDup w _ (eligible_source w nSpendTime cm ct) None fuel) as Hnd. apply submseteq_Permutation in Hl as [rest Hr]. fold (offered w fuel nSpendTime cm ct) in Hnd. rewrite Hr, fmap_app in Hnd.
    by apply NoDup_app in Hnd as [? _].
  - split; [|done]. intros c Hc. apply (source_spendable w _ (eligible_source w nSpendTime cm ct) None). by eapply elem_of_submseteq.
Qed.

(** What [SelectCoins] promises *)
Definition selected (w : CWallet) (fuel : nat) (T nSpendTime : Z) (ok : bool) (setCoinsRet : CoinsSet) (nValueRet : Z) : Prop :=
  if ok then
    exists l cm ct, (cm, ct) ∈ [(1, 6); (1, 1); (0, 1)] /\ NoDup (coin_at <$> l) /\
      (forall c, c ∈ l -> spendable_coin w fuel c) /\ setCoinsRet = coins_set l /\ nValueRet = coins_sum l /\ T <= nValueRet /\
      (nValueRet = T \/ T + CENT <= nValueRet \/ coins_sum (offered w fuel nSpendTime cm ct) < T + CENT)
  else setCoinsRet = ∅ /\ nValueRet = 0 /\ coins_sum (offered w fuel nSpendTime 0 1) < T.

Lemma pays_bound w fuel T nSpendTime cm ct set value :
  wallet_sound w -> pays T (offered w fuel nSpendTime cm ct) true set value -> value < 2 ^ 62.
Proof.
  intros (_ & Hx & Hb) (l & Hl & _ & -> & _). assert (Hmo : forall h x, mapWallet w !! h = Some x -> money_ok x) by (intros h x Hl'; by apply (Hx h)).
  pose proof (source_sum w _ (eligible_source w nSpendTime cm ct) None fuel Hmo) as Hsum.
  pose proof (source_nonneg w _ (eligible_source w nSpendTime cm ct) None fuel Hmo) as Hnn. fold (offered w fuel nSpendTime cm ct) in Hsum, Hnn.
  apply submseteq_Permutation in Hl as [rest Hr]. rewrite (coins_sum_perm _ _ Hr), coins_sum_app in *. rewrite Hr in Hnn. apply Forall_app in Hnn as [_ Hnn].
  pose proof (coins_sum_nonneg _ Hnn). lia.
Qed.

(** Coin control with nothing selected chooses nothing. *)
Definition uncontrolled (cc : option (gset COutPoint)) : Prop := match cc with Some sel => HasSelected sel | None => false end = false.

Lemma available_uncontrolled cc w fuel : uncontrolled cc -> available cc w fuel = available None w fuel.
Proof.
  intros Hcc. unfold available, coins_value. apply list_bind_ext; [|done]. intros [h x]. destruct (usable _ _ _ _ _ _ _ _); [|done].
  generalize 0%nat. induction (vout (wtx_tx x)) as [|o outs IH]; intros i; cbn [outputs_of]; [done|]. rewrite IH. f_equal.
  assert (chosen_coin opt cc h i o = chosen_coin opt None h i o) as ->; [|done]. unfold chosen_coin, uncontrolled in *. destruct cc as [sel|]; [|done]. by rewrite Hcc.
Qed.

Lemma SelectCoins_ok cc w fuel T nSpendTime rnd1 rnd2 rnd3 :
  uncontrolled cc -> 0 < T < 2 ^ 61 -> wallet_sound w -> (forall h x, mapWallet w !! h = Some x -> is_Some (trusted_value depth par s opt w fuel x)) ->
  exists ok setCoinsRet nValueRet m,
    SelectCoins depth par s opt fuel T nSpendTime cc rnd1 rnd2 rnd3 ∅ 0 w = Some (ok, setCoinsRet, nValueRet, with_txs m w) /\
    same_txs m (mapWallet w) /\ wallet_ok depth s (with_txs m w) /\ selected w fuel T nSpendTime ok setCoinsRet nValueRet /\ nValueRet < 2 ^ 62.
Proof.
  intros Hcc HT Hs Ht. pose proof Hs as (Hw & _ & _). destruct (AvailableCoins_ok depth par s opt fuel cc w Hw Ht) as (m0 & Ea & Hm0 & Hok0).
  fold (available cc w fuel) in Ea. rewrite available_uncontrolled in Ea by done. unfold SelectCoins. rewrite Ea. cbn [mbind option_bind]. rewrite Hcc.
  destruct (attempt_ok w m0 fuel T nSpendTime 1 6 rnd1 HT Hs Hm0 Hok0) as (ok1 & l1 & n1 & m1 & -> & Hp1 & Hm1 & Hok1). cbn [mbind option_bind].
  destruct ok1; [exists true, l1, n1, m1; split_and!; [done|done|done| |by eapply pays_bound]; apply pays_spendable in Hp1 as (l & Hl); exists l, 1, 6; split; [set_solver|done]|].
  destruct (attempt_ok w m1 fuel T nSpendTime 1 1 rnd2 HT Hs Hm1 Hok1) as (ok2 & l2 & n2 & m2 & -> & Hp2 & Hm2 & Hok2). cbn [mbind option_bind].
  destruct ok2; [exists true, l2, n2, m2; split_and!; [done|done|done| |by eapply pays_bound]; apply pays_spendable in Hp2 as (l & Hl); exists l, 1, 1; split; [set_solver|done]|].
  destruct (attempt_ok w m2 fuel T nSpendTime 0 1 rnd3 HT Hs Hm2 Hok2) as (ok3 & l3 & n3 & m3 & -> & Hp3 & Hm3 & Hok3).
  exists ok3, l3, n3, m3. split_and!; [done|done|done| |].
  - destruct ok3; [|exact Hp3]. apply pays_spendable in Hp3 as (l & Hl). exists l, 0, 1. split; [set_solver|done].
  - destruct ok3; [by eapply pays_bound|]. destruct Hp3 as (_ & -> & _). lia.
Qed.
(** *** Coin control *)

(** The coin of an output that is taken *)
Definition control_coin (w : CWallet) (o : COutput) : option Coin :=
  if negb (out_fSpendable o) then None
  else x ← mapWallet w !! out_tx o; txout ← vout (wtx_tx x) !! out_i o; Some (mkCoin (nValue txout) (out_tx o, out_i o)).

Lemma control_source w : coin_source w (control_coin w).
Proof.
  intros o c. unfold control_coin. destruct (out_fSpendable o); [|done]. cbn [negb]. intros (x & Hx & (t & Ht & He)%bind_Some)%bind_Some.
  injection He as <-. split_and!; [done|done|]. by exists x, t.
Qed.

(** Every output that can be spent is taken. *)
Lemma control_loop_ok w l set n :
  Forall (fun o => exists x, mapWallet w !! out_tx o = Some x /\ is_Some (vout (wtx_tx x) !! out_i o)) l ->
  Forall (fun c => 0 <= coin_n c) (omap (control_coin w) l) -> 0 <= n -> n + coins_sum (omap (control_coin w) l) < 2 ^ 62 ->
  control_loop w l set n = Some (coins_set (omap (control_coin w) l) ∪ set, n + coins_sum (omap (control_coin w) l)).
Proof.
  intros Hl. revert set n. induction Hl as [|o l (x & Hx & t & Ht) _ IH]; intros set n Hp Hn Hb; cbn [control_loop omap list_omap].
  { unfold coins_set, coins_sum. cbn. by rewrite union_empty_l_L, Z.add_0_r. }
  assert (Hc : control_coin w o = if negb (out_fSpendable o) then None else Some (mkCoin (nValue t) (out_tx o, out_i o))).
  { unfold control_coin. rewrite Hx. cbn [mbind option_bind]. by rewrite Ht. }
  cbn [omap list_omap] in Hp, Hb. rewrite Hc in Hp, Hb |- *. destruct (out_fSpendable o); cbn [negb] in *; [|by apply IH].
  rewrite Hx. cbn [mbind option_bind]. rewrite Ht. cbn [mbind option_bind]. apply Forall_cons in Hp as [Hv Hp]. cbn [coin_n] in Hv.
  rewrite coins_sum_cons in Hb |- *. cbn [coin_n] in Hb |- *. pose proof (coins_sum_nonneg _ Hp).
  rewrite swrap_small by lia. rewrite IH by (done || lia). f_equal. f_equal; [|lia]. unfold coins_set. cbn. set_solver.
Qed.

(** What is asked of a coin by the coin control *)
Definition control_allows (cc : option (gset COutPoint)) (c : Coin) : Prop :=
  match cc with Some sel => HasSelected sel = true -> mkOutPoint (coin_at c).1 (Z.of_nat (coin_at c).2) ∈ sel | None => True end.

(** With or without coin control: coins that are chosen can be spent and are worth the amount. *)
Lemma SelectCoins_sound cc w fuel T nSpendTime rnd1 rnd2 rnd3 :
  0 < T < 2 ^ 61 -> wallet_sound w -> (forall h x, mapWallet w !! h = Some x -> is_Some (trusted_value depth par s opt w fuel x)) ->
  exists ok setCoinsRet nValueRet m,
    SelectCoins depth par s opt fuel T nSpendTime cc rnd1 rnd2 rnd3 ∅ 0 w = Some (ok, setCoinsRet, nValueRet, with_txs m w) /\
    same_txs m (mapWallet w) /\ wallet_ok depth s (with_txs m w) /\
    (ok = true -> exists l, NoDup (coin_at <$> l) /\ (forall c, c ∈ l -> spendable_coin w fuel c /\ control_allows cc c) /\
       setCoinsRet = coins_set l /\ nValueRet = coins_sum l /\ T <= nValueRet < 2 ^ 62).
Proof.
  intros HT Hs Ht. destruct (match cc with Some sel => HasSelected sel | None => false end) eqn:Ecc.
  - destruct cc as [sel|]; [|done]. pose proof Hs as (Hw & Hx & Hb). assert (Hmo : forall h x, mapWallet w !! h = Some x -> money_ok x) by (intros h x Hl; by apply (Hx h)).
    destruct (AvailableCoins_ok depth par s opt fuel (Some sel) w Hw Ht) as (m0 & Ea & Hm0 & Hok0). fold (available (Some sel) w fuel) in Ea.
    unfold SelectCoins. rewrite Ea. cbn [mbind option_bind]. rewrite Ecc. assert (Hc : forall o, control_coin (with_txs m0 w) o = control_coin w o).
    { intros o. unfold control_coin. destruct (negb _); [done|]. cbn [with_txs mapWallet]. pose proof (Hm0 (out_tx o)) as Ho.
      inversion Ho as [x y Hxy|]; [|done]. cbn [mbind option_bind]. by rewrite (same_tx _ _ Hxy). }
    assert (Hom : forall l : list COutput, omap (control_coin (with_txs m0 w)) l = omap (control_coin w) l).
    { induction l as [|o l IH]; [done|]. cbn [omap list_omap]. by rewrite Hc, IH. }
    pose proof (source_sum w _ (control_source w) (Some sel) fuel Hmo). pose proof (source_nonneg w _ (control_source w) (Some sel) fuel Hmo) as Hnn.
    rewrite control_loop_ok; rewrite ?Hom; [|apply Forall_forall|done|done|lia].
    + cbn [mbind option_bind]. eexists _, _, _, m0. split; [done|]. split; [done|]. split; [done|]. intros Hle%Z.leb_le.
      exists (omap (control_coin w) (available (Some sel) w fuel)). split; [apply source_NoDup, control_source|]. split.
      * intros c Hin. split; [by eapply source_spendable; [apply control_source|]|]. intros _.
        apply list_elem_of_omap in Hin as (o & Ho & Ec). apply control_source in Ec as (_ & Hat & _). rewrite Hat. cbn [fst snd].
        apply elem_of_coins in Ho as (_ & o' & _ & _ & Hch). unfold chosen_coin in Hch. rewrite Ecc in Hch. cbn [negb orb] in Hch.
        apply andb_true_iff in Hch as [_ Hch]. by apply bool_decide_eq_true in Hch.
      * split; [apply union_empty_r_L|]. split; [lia|]. lia.
    + intros o Ho. apply elem_of_coins in Ho as (x & txout & (H1 & H2 & _) & _ & _).
      destruct (same_txs_lookup (mapWallet w) m0 _ _ ltac:(by symmetry) H1) as (y & Hy & Hxy). exists y. split; [done|].
      rewrite <- (same_tx _ _ Hxy). by eexists.
  - destruct (SelectCoins_ok cc w fuel T nSpendTime rnd1 rnd2 rnd3 Ecc HT Hs Ht) as (ok & set & n & m & Es & Hm & Hok & Hsel & Hb).
    exists ok, set, n, m. split; [done|]. split; [done|]. split; [done|]. intros ->. destruct Hsel as (l & _ & _ & _ & Hnd & Hsp & -> & -> & HTl & _).
    exists l. split_and!; try done. intros c Hin. split; [by apply Hsp|]. destruct cc as [sel|]; [|done]. cbn. congruence.
Qed.
End spend.

(** ** Properties *)

(** C18: Let the values a wallet has cached be right, its amounts in range, and no
    transaction that supports another lead back to itself ([wallet_sound]).  Then
    [SelectCoins], without coin control, either chooses different outputs that the
    wallet can spend -- its own, with the key at hand, not spent, of final, trusted and
    mature transactions -- and returns what they are worth, at least the amount asked
    for; or it fails, and then all the coins it may use are not worth that amount.  The
    change is nothing or at least a cent, unless the coins of that attempt are not worth
    the amount and a cent.  This holds for all random numbers, and caches stay right. *)
Theorem select_coins {E : ECOps} {SO : ECSecretOps E} {C : CipherOps} {H : HashOps} {Q : SortOps} {QL : SortLaws Q}
    (depth : nat) (par : Params) (s : ChainState) (opt : WalletOptions) (w : CWallet) (T nSpendTime : Z) :
  0 < T < 2 ^ 61 -> wallet_sound depth s w ->
  exists fuel0, forall fuel rnd1 rnd2 rnd3, (fuel0 <= fuel)%nat ->
    exists ok setCoinsRet nValueRet m,
      SelectCoins depth par s opt fuel T nSpendTime None rnd1 rnd2 rnd3 ∅ 0 w = Some (ok, setCoinsRet, nValueRet, with_txs m w) /\
      same_txs m (mapWallet w) /\ wallet_ok depth s (with_txs m w) /\
      if ok : bool then
        exists l cm ct, (cm, ct) ∈ [(1, 6); (1, 1); (0, 1)] /\ NoDup (coin_at <$> l) /\
          (forall c, c ∈ l -> spendable_coin depth par s opt w fuel c) /\ setCoinsRet = coins_set l /\ nValueRet = coins_sum l /\ T <= nValueRet /\
          (nValueRet = T \/ T + CENT <= nValueRet \/ coins_sum (offered depth par s opt w fuel nSpendTime cm ct) < T + CENT)
      else setCoinsRet = ∅ /\ nValueRet = 0 /\ coins_sum (offered depth par s opt w fuel nSpendTime 0 1) < T.
Proof.
  intros HT Hs. pose proof Hs as (Hw & Hx & Hb). destruct (trusted_enough_all depth par s opt w (map_entries (mapWallet w)).*2) as (fuel0 & Hf).
  { apply Forall_forall. intros x ([h y] & -> & Hy)%list_elem_of_fmap. apply elem_of_map_entries in Hy. destruct (Hx h y Hy) as (? & ? & _). done. }
  exists fuel0. intros fuel rnd1 rnd2 rnd3 Hle. destruct (SelectCoins_ok depth par s opt None w fuel T nSpendTime rnd1 rnd2 rnd3 eq_refl HT Hs) as (ok & l & n & m & Es & Hm & Hok & Hsel & _).
  { intros h x Hl. destruct (Hf x fuel) as [-> ?]; [|done|done]. apply list_elem_of_fmap. exists (h, x). split; [done|by apply elem_of_map_entries]. }
  exists ok, l, n, m. split; [exact Es|]. split; [exact Hm|]. split; [exact Hok|exact Hsel].
Qed.

(** ** Witnesses *)

(** A sort by descending value *)
Definition coin_le (a b : Coin) : Prop := coin_n b <= coin_n a.
#[local] Instance coin_le_dec : RelDecision coin_le := fun a b => Z_le_dec (coin_n b) (coin_n a).
#[local] Instance toy_sort : SortOps := merge_sort coin_le.
#[local] Instance toy_sort_laws : SortLaws toy_sort.
Proof.
  split; intros l; [apply merge_sort_Permutation|].
  apply Sorted_merge_sort. intros a b. unfold coin_le. lia.
Qed.

Definition toy_random : Randomness := mkRandomness [] (1, 2) (3, 4).

Lemma select_coins_witness :
  exists fuel ok setCoinsRet nValueRet m,
    SelectCoins (SO := toy_secrets) (C := toy_cipher) (H := toy_hash) 5 toy_params toy_chain toy_options fuel 200 1600000000 None
      toy_random toy_random toy_random ∅ 0 toy_funds = Some (ok, setCoinsRet, nValueRet, with_txs m toy_funds) /\
    (ok, setCoinsRet, nValueRet) = (true, {[(toy_payment_hash, 0%nat)]}, 50000).
Proof.
  destruct (select_coins (SO := toy_secrets) (C := toy_cipher) (H := toy_hash) (Q := toy_sort) 5 toy_params toy_chain toy_options toy_funds 200 1600000000)
    as (fuel & Hf).
  - lia.
  - split; [apply toy_funds_ok|]. split; [apply toy_funds_txs|]. rewrite toy_funds_unspent. lia.
  - destruct (Hf fuel toy_random toy_random toy_random (le_n fuel)) as (ok & l & n & m & Es & _).
    exists fuel, ok, l, n, m. split; [exact Es|].
    assert (Er : fst <$> SelectCoins (SO := toy_secrets) (C := toy_cipher) (H := toy_hash) 5 toy_params toy_chain toy_options fuel 200 1600000000 None
      toy_random toy_random toy_random ∅ 0 toy_funds = Some (true, {[(toy_payment_hash, 0%nat)]}, 50000)) by (vm_compute; reflexivity).
    rewrite Es in Er. exact (f_equal (default (false, ∅, 0)) Er).
Defined.
