(* ===== verification/WalletOps.v ===== *)
(** * [wallet.cpp], [main.cpp]: transactions enter and leave the wallet

    What changes [mapWallet]: transactions that are added or merged, the flags of the
    outputs they spend, the repair of these flags by the index of the chain, and the
    commitment of a transaction the wallet has made.  The messages to the user interface
    and to external scripts are left out; a message to the log is kept where computing
    its text changes a cache. *)

From S2P Require Import Prelude.
From S2P Require Import Uint256.
From S2P Require Import BigNum.
From S2P Require Import Hash.
From S2P Require Import Transaction.
From S2P Require Import Script.
From S2P Require Import Key.
From S2P Require Import Templates.
From S2P Require Import KeyStore.
From S2P Require Import Block.
From S2P Require Import TxRules.
From S2P Require Import TxDB.
From S2P Require Import Chain.
From S2P Require Import Connect.
From S2P Require Import MemPool.
From S2P Require Import Kernel.
From S2P Require Import BlockTree.
From S2P Require Import Reorganize.
From S2P Require Import KeyPool.
From S2P Require Import Wallet.

(** [operator==] of vectors and of transactions *)
Fixpoint list_eqb {A} (eqb : A -> A -> bool) (l l' : list A) : bool :=
  match l, l' with
  | [], [] => true
  | a :: l, b :: l' => eqb a b && list_eqb eqb l l'
  | _, _ => false
  end.
Definition CTransaction_eq (a b : CTransaction) : bool :=
  (nVersion a =? nVersion b) && (nTime a =? nTime b) && list_eqb CTxIn_eq (vin a) (vin b) &&
  list_eqb CTxOut_eq (vout a) (vout b) && (nLockTime a =? nLockTime b).

(** The first position of a vector that satisfies [p], or its size *)
Fixpoint find_index {A} (p : A -> bool) (l : list A) : nat :=
  match l with [] => 0 | a :: l => if p a then 0 else S (find_index p l) end.

(** [std::multimap::insert]: after the entries with the same key *)
Fixpoint multimap_insert {A} (k : Z) (v : A) (l : list (Z * A)) : list (Z * A) :=
  match l with
  | [] => [(k, v)]
  | (k', v') :: l' => if k <? k' then (k, v) :: l else (k', v') :: multimap_insert k v l'
  end.

(** A method that changes the transaction and returns nothing *)
Definition act (f : CWalletTx -> option CWalletTx) : wtxM unit := fun x => x ← f x; Some (tt, x).

(** What the serialization of a transaction makes of [mapValue]: the entries it writes
    for members are erased afterwards *)
Definition reserved_names : list (list Z) := chars <$> ["fromaccount"; "version"; "spent"; "n"; "timesmart"]%string.
Definition with_mapValue (m : gmap (list Z) (list Z)) (x : CWalletTx) : CWalletTx :=
  mkWtx (merkle x) (vtxPrev x) m (vOrderForm x) (fTimeReceivedIsTxTime x) (nTimeReceived x) (nTimeSmart x) (fFromMe x)
    (strFromAccount x) (vfSpent x) (nOrderPos x) (cache x).
Definition serialized (x : CWalletTx) : CWalletTx := with_mapValue (foldr delete (mapValue x) reserved_names) x.
(** The transaction as loading the record gives it: nothing is cached or verified *)
Definition unverified (m : CMerkleTx) : CMerkleTx := mkMerkle (mtx m) (hashBlock m) (vMerkleBranch m) (mtx_nIndex m) false.
Definition record_of (x : CWalletTx) : CWalletTx :=
  with_cache no_cache (with_prev (unverified <$> vtxPrev x) (with_merkle (unverified (merkle x)) (serialized x))).

Section wallet_ops.
Context {B : BNOps} {E : ECOps} {SO : ECSecretOps E} {C : CipherOps} {H : HashOps} {F : Files} {G : BlockFiles}.
Context (EC_KEY_generate_key : nat -> EC_KEY) (i2d_ECPrivateKey : EC_KEY -> list Z).
(** [GetTime()]; [now par] is the adjusted time *)
Context (GetTime : Z) (depth : nat) (par : Params) (s : ChainState) (opt : WalletOptions).

(** A method of the transaction [h] of the wallet *)
Definition at_tx {A} (h : list Z) (f : wtxM A) (w : CWallet) : option (A * CWallet) :=
  x ← mapWallet w !! h; '(a, x) ← f x; Some (a, with_txs (<[h := x]> (mapWallet w)) w).

(** [CWalletTx::WriteToDisk] of the transaction [h] *)
Definition WriteToDisk (h : list Z) (w : CWallet) : bool * CWallet :=
  match mapWallet w !! h with
  | None => (false, w)
  | Some x =>
      if negb (db_open (walletdb (wkeys w))) then (false, w)
      else
        let w := with_txs (<[h := serialized x]> (mapWallet w)) w in
        (true, with_db_tx (<[h := record_of x]> (db_tx w)) w)
  end.

(** ** The place of a transaction in the chain *)

Definition with_place (hash : list Z) (branch : list (list Z)) (nIndex : Z) (m : CMerkleTx) : CMerkleTx :=
  mkMerkle (mtx m) hash branch nIndex (fMerkleVerified m).

(** [ReadFromDisk(nFile, nBlockPos)] *)
Definition read_block_at (nFile nBlockPos : Z) : option CBlock :=
  b ← read_block nFile nBlockPos;
  let '(hash, b) := CBlock_GetHash b in
  if IsProofOfWork b && negb (CheckProofOfWork (fTestNet par) hash (nBits b)) then None else Some b.

(** [SetMerkleBranch]: the depth, and the block with what it has cached *)
Definition SetMerkleBranch_in (b : CBlock) (m : CMerkleTx) : Z * CMerkleTx * CBlock :=
  let '(hash, b) := CBlock_GetHash b in
  let nIndex := find_index (fun tx => CTransaction_eq tx (mtx m)) (vtx b) in
  if (nIndex =? length (vtx b))%nat then (0, with_place hash [] (-1) m, b)
  else
    let '(branch, b) := GetMerkleBranch (Z.of_nat nIndex) b in
    let m := with_place hash branch (Z.of_nat nIndex) m in
    match mapBlockIndex s !! hash with
    | None => (0, m, b)
    | Some pindex =>
        if negb (IsInMainChain (mapBlockIndex s) (pindexBest s) hash) then (0, m, b)
        else (best_height s - bi_nHeight (node pindex) + 1, m, b)
    end.
Definition SetMerkleBranch (m : CMerkleTx) : Z * CMerkleTx :=
  match db_ReadTxIndex (txdb s) (CTransaction_GetHash (mtx m)) with
  | None => (0, m)
  | Some txindex =>
      match read_block_at (nFile (pos txindex)) (nBlockPos (pos txindex)) with
      | None => (0, m)
      | Some b => let '(n, m, _) := SetMerkleBranch_in b m in (n, m)
      end
  end.

(** ** Outputs that are spent *)

(** [wtx.IsSpent(n)] and [IsMine(wtx.vout[n])] *)
Definition spent_and_mine (w : CWallet) (x : CWalletTx) (n : Z) : option (bool * bool) :=
  fSpent ← IsSpent x n;
  txout ← vout (wtx_tx x) !! Z.to_nat n;
  Some (fSpent, negb (bool_decide (IsMine_out depth w txout = MINE_NO))).

(** The loop of [WalletUpdateSpent]; the message it logs computes the credit of the coin *)
Fixpoint spent_loop (ins : list CTxIn) (w : CWallet) : option CWallet :=
  match ins with
  | [] => Some w
  | txin :: ins =>
      let '(h, n) := (op_hash (prevout txin), op_n (prevout txin)) in
      match mapWallet w !! h with
      | None => spent_loop ins w
      | Some wtx =>
          if Z.of_nat (length (vout (wtx_tx wtx))) <=? n then spent_loop ins w
          else
            '(fSpent, mine) ← spent_and_mine w wtx n;
            if negb fSpent && mine then
              '(_, w) ← at_tx h (_ ← wtx_GetCredit depth par s w true; act (MarkSpent n)) w;
              spent_loop ins (WriteToDisk h w).2
            else spent_loop ins w
      end
  end.

(** The outputs of a transaction that has been confirmed, from output [i]: those of the
    wallet are marked unspent *)
Fixpoint confirm_loop (w : CWallet) (outs : list CTxOut) (i : nat) (wtx : CWalletTx) (fUpdated : bool) : option (CWalletTx * bool) :=
  match outs with
  | [] => Some (wtx, fUpdated)
  | txout :: outs =>
      if bool_decide (IsMine_out depth w txout = MINE_NO) then confirm_loop w outs (S i) wtx fUpdated
      else wtx ← MarkUnspent (Z.of_nat i) wtx; confirm_loop w outs (S i) wtx true
  end.

Definition WalletUpdateSpent (tx : CTransaction) (fBlock : bool) (w : CWallet) : option CWallet :=
  w ← spent_loop (vin tx) w;
  if negb fBlock then Some w
  else
    let hash := CTransaction_GetHash tx in
    wtx ← mapWallet w !! hash;
    '(wtx, fUpdated) ← confirm_loop w (vout tx) 0 wtx false;
    let w := with_txs (<[hash := wtx]> (mapWallet w)) w in
    Some (if fUpdated : bool then (WriteToDisk hash w).2 else w).

Definition wallet_MarkDirty (w : CWallet) : CWallet := with_txs (MarkDirty <$> mapWallet w) w.

(** ** Transactions that are added *)

Definition IncOrderPosNext (w : CWallet) : Z * CWallet :=
  let n := i64 (nOrderPosNext w + 1) in
  (nOrderPosNext w, with_order n (if db_open (walletdb (wkeys w)) then Some n else db_orderposnext w) w).

(** The transactions of the wallet, by hash, and the accounting entries, by time *)
Definition OrderedTxItems (w : CWallet) : list (Z * (list Z + Z)) :=
  let items := foldl (fun l e => multimap_insert (nOrderPos e.2) (inl e.1) l) [] (map_entries (mapWallet w)) in
  foldl (fun l e => multimap_insert e.1 (inr e.2) l) items (db_acentries w).

(** The time of the last entry but [self] that is not later than [latestTolerated],
    looking from the end: the new [latestEntry] and [latestNow] *)
Fixpoint smart_loop (w : CWallet) (self : list Z) (items : list (Z * (list Z + Z))) (latestTolerated latestNow : Z) : Z * Z :=
  match items with
  | [] => (0, latestNow)
  | (_, item) :: items =>
      if bool_decide (item = inl self) then smart_loop w self items latestTolerated latestNow
      else
        let nSmartTime :=
          match item with
          | inl h => match mapWallet w !! h with Some x => if nTimeSmart x =? 0 then nTimeReceived x else nTimeSmart x | None => 0 end
          | inr t => t
          end in
        if nSmartTime <=? latestTolerated then (u32 nSmartTime, if latestNow <? nSmartTime then u32 nSmartTime else latestNow)
        else smart_loop w self items latestTolerated latestNow
  end.

Definition smart_time (w : CWallet) (hash hashBlock : list Z) (received : Z) : Z :=
  if bool_decide (hashBlock = zero256) then received
  else
    match mapBlockIndex s !! hashBlock with
    | None => received
    | Some pindex =>
        let '(latestEntry, latestNow) := smart_loop w hash (rev (OrderedTxItems w)) (u32 (received + 300)) received in
        Z.max latestEntry (Z.min (bi_nTime (node pindex)) latestNow)
    end.

(** The update of a transaction that was there, and whether it changed *)
Definition merge_tx (wtxIn wtx : CWalletTx) : CWalletTx * bool :=
  let m := merkle wtx in
  let block := negb (bool_decide (hashBlock (merkle wtxIn) = zero256)) && negb (bool_decide (hashBlock (merkle wtxIn) = hashBlock m)) in
  let m := if block then with_place (hashBlock (merkle wtxIn)) (vMerkleBranch m) (mtx_nIndex m) m else m in
  let branch := negb (mtx_nIndex (merkle wtxIn) =? -1) &&
    (negb (bool_decide (vMerkleBranch (merkle wtxIn) = vMerkleBranch m)) || negb (mtx_nIndex (merkle wtxIn) =? mtx_nIndex m)) in
  let m := if branch then with_place (hashBlock m) (vMerkleBranch (merkle wtxIn)) (mtx_nIndex (merkle wtxIn)) m else m in
  let wtx := with_merkle m wtx in
  let from := negb (fFromMe wtxIn =? 0) && negb (fFromMe wtxIn =? fFromMe wtx) in
  let wtx := if from then with_fFromMe (fFromMe wtxIn) wtx else wtx in
  let '(fSpent, wtx) := UpdateSpent (vfSpent wtxIn) wtx in
  (wtx, block || branch || from || fSpent).

Definition SetAddressBookName (address : CTxDestination) (strName : list Z) (w : CWallet) : CWallet :=
  with_book (<[address := strName]> (mapAddressBook w)) w.
Definition DelAddressBookName (address : CTxDestination) (w : CWallet) : CWallet :=
  with_book (delete address (mapAddressBook w)) w.

Definition SetDefaultKey (pub : list Z) (w : CWallet) : bool * CWallet :=
  let k := wkeys w in
  if fFileBacked k && negb (db_open (walletdb k)) then (false, w)
  else (true, with_keys (mkKeys (store k) (fFileBacked k) (nWalletVersion k) (nWalletMaxVersion k) (mapKeyMetadata k)
                 (nTimeFirstKey k) pub (setKeyPool k) (walletdb k) (drawn k)) w).

(** A default key that receives is replaced, once for each output to the one there was *)
Fixpoint default_loop (scriptDefaultKey : list Z) (outs : list CTxOut) (w : CWallet) : option CWallet :=
  match outs with
  | [] => Some w
  | txout :: outs =>
      if bool_decide (scriptPubKey txout = scriptDefaultKey) then
        match GetKeyFromPool EC_KEY_generate_key i2d_ECPrivateKey (arg_keypool opt) GetTime false (wkeys w) with
        | Thrown _ => None
        | Returned r k =>
            let w := with_keys k w in
            default_loop scriptDefaultKey outs
              match r with
              | Some newDefaultKey =>
                  let w := (SetDefaultKey newDefaultKey w).2 in
                  SetAddressBookName (CKeyID (CPubKey_GetID (vchDefaultKey (wkeys w)))) [] w
              | None => w
              end
        end
      else default_loop scriptDefaultKey outs w
  end.
Definition replace_default_key (tx : CTransaction) (w : CWallet) : option CWallet :=
  let def := vchDefaultKey (wkeys w) in
  if fHaveGUI opt || negb (CPubKey_IsValid def) then Some w
  else default_loop (SetDestination (CKeyID (CPubKey_GetID def))).2 (vout tx) w.

Definition AddToWallet (wtxIn : CWalletTx) (w : CWallet) : option (bool * CWallet) :=
  let hash := wtx_hash wtxIn in
  let '(wtx, w, changed) :=
    match mapWallet w !! hash with
    | None =>
        let wtx := BindWallet wtxIn in
        let received := u32 (now par) in
        let '(n, w) := IncOrderPosNext (with_txs (<[hash := wtx]> (mapWallet w)) w) in
        let wtx := with_nOrderPos n (with_times received received wtx) in
        let w := with_txs (<[hash := wtx]> (mapWallet w)) w in
        (with_times received (smart_time w hash (hashBlock (merkle wtxIn)) received) wtx, w, true)
    | Some wtx => let '(wtx, fUpdated) := merge_tx wtxIn (BindWallet wtx) in (wtx, w, fUpdated)
    end in
  let w := with_txs (<[hash := wtx]> (mapWallet w)) w in
  let '(ok, w) := if changed : bool then WriteToDisk hash w else (true, w) in
  if negb ok then Some (false, w)
  else
    w ← replace_default_key (wtx_tx wtx) w;
    w ← WalletUpdateSpent (wtx_tx wtx) (negb (bool_decide (hashBlock (merkle wtxIn) = zero256))) w;
    Some (true, w).

Definition AddToWalletIfInvolvingMe (tx : CTransaction) (pblock : option CBlock) (fUpdate : bool) (w : CWallet) :
    option (bool * option CBlock * CWallet) :=
  let hash := CTransaction_GetHash tx in
  let fExisted := bool_decide (is_Some (mapWallet w !! hash)) in
  if fExisted && negb fUpdate then Some (false, pblock, w)
  else
    mine ← (if fExisted || IsMine_tx depth opt w tx then Some true else IsFromMe_tx depth w tx);
    if mine : bool then
      let wtx := CWalletTx_of tx in
      let '(wtx, pblock) :=
        match pblock with
        | Some b => let '(_, m, b) := SetMerkleBranch_in b (merkle wtx) in (with_merkle m wtx, Some b)
        | None => (wtx, None)
        end in
      '(ok, w) ← AddToWallet wtx w;
      Some (ok, pblock, w)
    else w ← WalletUpdateSpent tx false w; Some (false, pblock, w).

Definition EraseFromWallet (hash : list Z) (w : CWallet) : bool * CWallet :=
  if negb (fFileBacked (wkeys w)) then (false, w)
  else
    match mapWallet w !! hash with
    | None => (true, w)
    | Some _ =>
        let w := with_txs (delete hash (mapWallet w)) w in
        (true, if db_open (walletdb (wkeys w)) then with_db_tx (delete hash (db_tx w)) w else w)
    end.

(** ** A rescan of the chain *)

(** The transactions of one block: how many were added or updated *)
Fixpoint scan_block (txs : list CTransaction) (block : CBlock) (fUpdate : bool) (ret : Z) (w : CWallet) : option (Z * CWallet) :=
  match txs with
  | [] => Some (ret, w)
  | tx :: txs =>
      '(ok, pblock, w) ← AddToWalletIfInvolvingMe tx (Some block) fUpdate w;
      scan_block txs (default block pblock) fUpdate (if (ok : bool) then i32 (ret + 1) else ret) w
  end.

(** Along [pnext] from a block of the index; [None] also where [fuel] runs out.  A block
    that cannot be read has no transactions. *)
Fixpoint scan_chain (fuel : nat) (pindex : option (list Z)) (fUpdate : bool) (ret : Z) (w : CWallet) : option (Z * CWallet) :=
  match pindex with
  | None => Some (ret, w)
  | Some h =>
      match fuel with
      | O => None
      | S fuel =>
          nd ← mapBlockIndex s !! h;
          let first := nTimeFirstKey (wkeys w) in
          if negb (first =? 0) && (bi_nTime (node nd) <? i64 (first - 7200)) then scan_chain fuel (pnext nd) fUpdate ret w
          else
            '(ret, w) ←
              match read_block (bi_nFile (node nd)) (bi_nBlockPos (node nd)) with
              | Some block => scan_block (vtx block) block fUpdate ret w
              | None => Some (ret, w)
              end;
            scan_chain fuel (pnext nd) fUpdate ret w
      end
  end.
Definition ScanForWalletTransactions (fuel : nat) (pindexStart : option (list Z)) (fUpdate : bool) (w : CWallet) : option (Z * CWallet) :=
  scan_chain fuel pindexStart fUpdate 0 w.

(** ** A transaction the wallet has made *)

(** [mapWallet[h]], which makes an empty transaction when there is none *)
Definition entry (h : list Z) (w : CWallet) : CWallet :=
  match mapWallet w !! h with
  | Some _ => w
  | None => with_txs (<[h := CWalletTx_of (CTransaction_SetNull (now par))]> (mapWallet w)) w
  end.

(** The coins spent are marked; [None] where [MarkSpent] throws *)
Fixpoint mark_inputs (ins : list CTxIn) (w : CWallet) : option CWallet :=
  match ins with
  | [] => Some w
  | txin :: ins =>
      let '(h, n) := (op_hash (prevout txin), op_n (prevout txin)) in
      '(_, w) ← at_tx h (act (fun coin => MarkSpent n (BindWallet coin))) (entry h w);
      mark_inputs ins (WriteToDisk h w).2
  end.

(** [accept]: whether the memory pool takes the transaction.  [AcceptToMemoryPool] then
    reports it to the wallet ([SyncWithWallets], without a block), and it is relayed. *)
Definition CommitTransaction (accept : CTransaction -> bool) (wtxNew : CWalletTx) (k : CReserveKey) (w : CWallet) :
    option (bool * CReserveKey * CWallet) :=
  let '(k, keys) := reserve_KeepKey k (wkeys w) in
  '(_, w) ← AddToWallet wtxNew (with_keys keys w);
  w ← mark_inputs (vin (wtx_tx wtxNew)) w;
  let w := with_requests (<[wtx_hash wtxNew := 0]> (mapRequestCount w)) w in
  if accept (wtx_tx wtxNew) then
    '(_, _, w) ← AddToWalletIfInvolvingMe (wtx_tx wtxNew) None true w;
    Some (true, k, w)
  else Some (false, k, w).

(** ** The wallet and the index of the chain *)

(** One transaction of [FixSpentCoins], from output [n]: the number of mismatches and
    their value *)
Fixpoint fix_outputs (fCheckOnly : bool) (txindex : CTxIndex) (h : list Z) (outs : list CTxOut) (n : nat) (acc : Z * Z) (w : CWallet) :
    option (Z * Z * CWallet) :=
  match outs with
  | [] => Some (acc, w)
  | txout :: outs =>
      wtx ← mapWallet w !! h;
      '(fSpent, mine) ← spent_and_mine w wtx (Z.of_nat n);
      let in_index := match vSpent txindex !! n with Some p => negb (CDiskTxPos_IsNull p) | None => false end in
      if mine && negb (eqb fSpent in_index) then
        let acc := (i32 (acc.1 + 1), i64 (acc.2 + nValue txout)) in
        if fCheckOnly then fix_outputs fCheckOnly txindex h outs (S n) acc w
        else
          '(_, w) ← at_tx h (act (mark_flag in_index (Z.of_nat n))) w;
          fix_outputs fCheckOnly txindex h outs (S n) acc (WriteToDisk h w).2
      else fix_outputs fCheckOnly txindex h outs (S n) acc w
  end.

Fixpoint fix_loop (fCheckOnly : bool) (hashes : list (list Z)) (acc : Z * Z) (nOrphansFound : Z) (w : CWallet) :
    option (Z * Z * Z * CWallet) :=
  match hashes with
  | [] => Some (acc, nOrphansFound, w)
  | h :: hashes =>
      pcoin ← mapWallet w !! h;
      let gen := generated (wtx_tx pcoin) in
      match db_ReadTxIndex (txdb s) (wtx_hash pcoin), gen with
      | None, false => fix_loop fCheckOnly hashes acc nOrphansFound w
      | r, _ =>
          '(acc, w) ← fix_outputs fCheckOnly (default CTxIndex_null r) h (vout (wtx_tx pcoin)) 0 acc w;
          if gen then
            '(nDepth, w) ← at_tx h (GetDepthInMainChain s) w;
            if nDepth <? 0 then
              fix_loop fCheckOnly hashes acc (i32 (nOrphansFound + 1)) (if fCheckOnly then w else (EraseFromWallet (wtx_hash pcoin) w).2)
            else fix_loop fCheckOnly hashes acc nOrphansFound w
          else fix_loop fCheckOnly hashes acc nOrphansFound w
      end
  end.

(** The mismatches, their value and the orphans found *)
Definition FixSpentCoins (fCheckOnly : bool) (w : CWallet) : option (Z * Z * Z * CWallet) :=
  fix_loop fCheckOnly (map_entries (mapWallet w)).*1 (0, 0) 0 w.

(** The loop of [DisableTransaction] *)
Fixpoint disable_loop (ins : list CTxIn) (w : CWallet) : option CWallet :=
  match ins with
  | [] => Some w
  | txin :: ins =>
      let '(h, n) := (op_hash (prevout txin), op_n (prevout txin)) in
      match prev_out w txin with
      | Some txout =>
          if bool_decide (IsMine_out depth w txout = MINE_NO) then disable_loop ins w
          else '(_, w) ← at_tx h (act (MarkUnspent n)) w; disable_loop ins (WriteToDisk h w).2
      | None => disable_loop ins w
      end
  end.
Definition DisableTransaction (tx : CTransaction) (w : CWallet) : option CWallet :=
  if negb (IsCoinStake tx) then Some w
  else b ← IsFromMe_tx depth w tx; if (b : bool) then disable_loop (vin tx) w else Some w.
End wallet_ops.
