(* ===== verification/WalletOpsFacts.v ===== *)
(** * What the operations of the wallet do to the outputs marked as spent *)

From S2P Require Import Prelude.
From S2P Require Import Uint256.
From S2P Require Import BigNum.
From S2P Require Import Hash.
From S2P Require Import Transaction.
From S2P Require Import Script.
From S2P Require Import Key.
From S2P Require Import Templates.
From S2P Require Import KeyStore.
From S2P Require Import Block.
From S2P Require Import TxRules.
From S2P Require Import TxDB.
From S2P Require Import Chain.
From S2P Require Import SigCheck.
From S2P Require Import Checkpoints.
From S2P Require Import Connect.
From S2P Require Import BlockConnect.
From S2P Require Import MemPool.
From S2P Require Import Kernel.
From S2P Require Import BlockTree.
From S2P Require Import Reorganize.
From S2P Require Import KeyPool.
From S2P Require Import KeyPoolFacts.
From S2P Require Import Wallet.
From S2P Require Import WalletFacts.
From S2P Require Import WalletOps.

(** ** Methods that leave the transaction and its spent outputs as they are *)

Definition kept (x y : CWalletTx) : Prop := wtx_tx x = wtx_tx y /\ vfSpent x = vfSpent y.
#[export] Instance kept_preorder : PreOrder kept.
Proof. split; [by intros x|]. intros x y z [H1 H2] [H3 H4]. split; congruence. Qed.

Definition keeps {A} (f : wtxM A) : Prop := forall x a x', f x = Some (a, x') -> kept x' x.

Lemma keeps_ret {A} (a : A) : keeps (mret a).
Proof. intros x b x' Hx. by injection Hx as <- <-. Qed.
Lemma keeps_lift {A} (o : option A) : keeps (lift o).
Proof. intros x b x' Hx. destruct o as [a|]; [|done]. by injection Hx as <- <-. Qed.
Lemma keeps_none {A} : keeps (fun _ => None : option (A * CWalletTx)).
Proof. by intros x b x'. Qed.
Lemma keeps_this : keeps this.
Proof. intros x b x' Hx. by injection Hx as <- <-. Qed.
Lemma keeps_bind {A B} (m : wtxM A) (k : A -> wtxM B) : keeps m -> (forall a, keeps (k a)) -> keeps (m ≫= k).
Proof.
  intros Hm Hk x b x'. unfold mbind, wtxM_bind. destruct (m x) as [[a x1]|] eqn:Em; [|done]. intros Hx.
  etransitivity; [by eapply Hk|by eapply Hm].
Qed.
Lemma keeps_if {A} (b : bool) (f g : wtxM A) : keeps f -> keeps g -> keeps (if b then f else g).
Proof. by destruct b. Qed.
Lemma keeps_and_then a b : keeps a -> keeps b -> keeps (and_then a b).
Proof. intros Ha Hb. apply keeps_bind; [done|]. intros v. apply keeps_if; [done|apply keeps_ret]. Qed.
Lemma keeps_cached get set o : keeps (cached get set o).
Proof.
  intros x n x'. unfold cached. destruct (get (cache x)); [intros Hx; by injection Hx as <- <-|].
  destruct o; [|done]. intros Hx. by injection Hx as <- <-.
Qed.

Create HintDb keeps.
#[export] Hint Resolve keeps_ret keeps_lift keeps_none keeps_this keeps_bind keeps_if keeps_and_then keeps_cached : keeps.

Section methods.
Context {E : ECOps} {SO : ECSecretOps E} {C : CipherOps} {H : HashOps}.
Context (depth : nat) (par : Params) (s : ChainState) (opt : WalletOptions).

Lemma GetDepthINTERNAL_tx m : mtx (GetDepthInMainChainINTERNAL s m).2 = mtx m.
Proof. unfold GetDepthInMainChainINTERNAL. by repeat case_match. Qed.
Lemma GetDepth_tx m : mtx (GetDepth s m).2 = mtx m.
Proof. unfold GetDepth. pose proof (GetDepthINTERNAL_tx m) as Hm. by destruct (GetDepthInMainChainINTERNAL s m). Qed.

Lemma keeps_GetDepth : keeps (GetDepthInMainChain s).
Proof.
  intros x n x'. unfold GetDepthInMainChain. pose proof (GetDepth_tx (merkle x)) as Hm. destruct (GetDepth s (merkle x)) as [k m].
  intros Hx. injection Hx as <- <-. split; [exact Hm|done].
Qed.
Hint Resolve keeps_GetDepth : keeps.

Lemma keeps_immature : keeps (immature par s).
Proof. unfold immature, GetBlocksToMaturity. eauto 10 with keeps. Qed.
Hint Resolve keeps_immature : keeps.

Lemma keeps_GetCredit w b : keeps (wtx_GetCredit depth par s w b).
Proof. unfold wtx_GetCredit. auto 10 with keeps. Qed.
Lemma keeps_GetDebit w f : keeps (GetDebit depth w f).
Proof. unfold GetDebit. apply keeps_bind; [apply keeps_this|]. intros x. destruct (vin (wtx_tx x)); auto 10 with keeps. Qed.
Hint Resolve keeps_GetCredit keeps_GetDebit : keeps.

Lemma keeps_pointer_depth p : keeps (pointer_depth s p).
Proof.
  destruct p as [k|]; [|apply keeps_GetDepth]. intros x n x'. cbn. destruct (vtxPrev x !! k) as [m|]; [|done]. cbn.
  destruct (GetDepth s m). intros Hx. by injection Hx as <- <-.
Qed.
Hint Resolve keeps_pointer_depth : keeps.

Lemma keeps_trusted_loop w fuel queue : keeps (trusted_loop depth par s w fuel queue).
Proof.
  revert queue. induction fuel as [|fuel IH]; intros [|p queue]; cbn [trusted_loop]; [apply keeps_ret|apply keeps_none|apply keeps_ret|].
  apply keeps_bind; [apply keeps_this|intros x]. apply keeps_bind; [apply keeps_lift|intros ptx]. apply keeps_if; [apply keeps_ret|].
  apply keeps_bind; [apply keeps_pointer_depth|intros n]. apply keeps_if; [apply IH|]. apply keeps_if; [apply keeps_ret|].
  apply keeps_bind; [apply keeps_lift|intros mine]. apply keeps_if; [apply keeps_ret|]. destruct (find_inputs _ _); [apply IH|apply keeps_ret].
Qed.
Hint Resolve keeps_trusted_loop : keeps.

Lemma keeps_IsTrusted w fuel : keeps (IsTrusted depth par s opt w fuel).
Proof. unfold IsTrusted, IsFromMe. auto 20 with keeps. Qed.
Hint Resolve keeps_IsTrusted : keeps.

Lemma keeps_coin_usable fuel b w : keeps (coin_usable depth par s opt fuel b w).
Proof. unfold coin_usable, if_negb, depth_is. auto 20 with keeps. Qed.
End methods.
#[export] Hint Resolve keeps_GetDepth keeps_immature keeps_GetCredit keeps_GetDebit keeps_IsTrusted keeps_coin_usable : keeps.

(** ** One output *)

Lemma IsSpent_kept x y k : kept x y -> IsSpent x k = IsSpent y k.
Proof. intros [Ht Hs]. unfold IsSpent. by rewrite Ht, Hs. Qed.
Lemma kept_dirty x : kept (BindWallet x) x.
Proof. done. Qed.
Lemma kept_serialized x : kept (serialized x) x.
Proof. done. Qed.
Lemma kept_record x : kept (record_of x) x.
Proof. done. Qed.

Lemma resize_flags_lookup n v i : (i < n)%nat -> default false (resize_flags n v !! i) = default false (v !! i).
Proof.
  intros Hi. unfold resize_flags. destruct (decide (i < length v)%nat) as [Hl|Hl].
  - rewrite lookup_app_l by (rewrite length_take; lia). by rewrite lookup_take_lt.
  - rewrite lookup_app_r by (rewrite length_take; lia). rewrite (lookup_ge_None_2 v) by lia. rewrite lookup_replicate_2 by (rewrite length_take; lia). done.
Qed.
Lemma length_resize_flags n v : length (resize_flags n v) = n.
Proof. unfold resize_flags. rewrite length_app, length_take, length_replicate. lia. Qed.

Lemma mark_flag_spec b n x :
  0 <= n < Z.of_nat (length (vout (wtx_tx x))) ->
  exists x', mark_flag b n x = Some x' /\ wtx_tx x' = wtx_tx x /\ forall k, 0 <= k -> IsSpent x' k = if k =? n then Some b else IsSpent x k.
Proof.
  intros Hn. unfold mark_flag. rewrite (proj2 (Z.leb_gt _ _)) by lia. eexists. split; [done|]. split; [by destruct (eqb _ _)|].
  intros k Hk. unfold IsSpent. set (v := resize_flags _ _). assert (Ht : forall y, wtx_tx (if eqb (default false (v !! Z.to_nat n)) b then with_spent v (cache x) x
    else with_spent (<[Z.to_nat n := b]> v) y x) = wtx_tx x) by (intros y; by destruct (eqb _ _)). rewrite Ht.
  destruct (Z.leb_spec (Z.of_nat (length (vout (wtx_tx x)))) k) as [Hl|Hl]; [by rewrite (proj2 (Z.eqb_neq k n)) by lia|].
  destruct (Z.eqb_spec k n) as [->|Hkn].
  - destruct (eqb _ _) eqn:Eb; cbn [vfSpent with_spent].
    + apply eqb_prop in Eb. by rewrite Eb.
    + rewrite list_lookup_insert_eq by (unfold v; rewrite length_resize_flags; lia). done.
  - destruct (eqb _ _); cbn [vfSpent with_spent]; [|rewrite list_lookup_insert_ne by lia]; unfold v; by rewrite resize_flags_lookup by lia.
Qed.

Lemma IsSpent_bounds x k b : IsSpent x k = Some b -> k < Z.of_nat (length (vout (wtx_tx x))).
Proof. unfold IsSpent. destruct (Z.leb_spec (Z.of_nat (length (vout (wtx_tx x)))) k); [done|]. lia. Qed.

(** ** The wallet as its transactions and the outputs spent *)

Section wallet.
Context {E : ECOps} {SO : ECSecretOps E} {C : CipherOps} {H : HashOps}.
Implicit Types w : CWallet.

Definition tx_at w (h : list Z) : option CTransaction := (fun x => wtx_tx x) <$> mapWallet w !! h.
Definition spent w (h : list Z) (k : Z) : option bool := mapWallet w !! h ≫= fun x => IsSpent x k.
Definition on_disk w (h : list Z) (k : Z) : option bool := db_tx w !! h ≫= fun x => IsSpent x k.

(** [w'] is [w] with the outputs of [l] marked as spent, and nothing forgotten on disk *)
Record marked (l : list (list Z * Z)) w w' : Prop := {
  mk_tx h : tx_at w' h = tx_at w h;
  mk_spent h k : 0 <= k -> spent w' h k = if bool_decide ((h, k) ∈ l) then (fun _ => true) <$> spent w h k else spent w h k;
  mk_keys : wkeys w' = wkeys w;
  mk_disk h k : 0 <= k -> spent w h k = Some true -> on_disk w h k = Some true -> on_disk w' h k = Some true
}.

Lemma marked_refl w : marked [] w w.
Proof. split; [done| |done|done]. intros h k _. by rewrite bool_decide_eq_false_2 by apply not_elem_of_nil. Qed.
Lemma marked_trans l1 l2 w w1 w2 : marked l1 w w1 -> marked l2 w1 w2 -> marked (l1 ++ l2) w w2.
Proof.
  intros H1 H2. split.
  - intros h. by rewrite (mk_tx _ _ _ H2), (mk_tx _ _ _ H1).
  - intros h k Hk. rewrite (mk_spent _ _ _ H2) by done. rewrite (mk_spent _ _ _ H1) by done.
    destruct (spent w h k) as [b|]; repeat case_bool_decide; cbn; rewrite elem_of_app in *; naive_solver.
  - by rewrite (mk_keys _ _ _ H2), (mk_keys _ _ _ H1).
  - intros h k Hk Hs Hd. apply (mk_disk _ _ _ H2); [done| |by apply (mk_disk _ _ _ H1)].
    rewrite (mk_spent _ _ _ H1) by done. rewrite Hs. by case_bool_decide.
Qed.

Lemma marked_spent l w w' h k : marked l w w' -> 0 <= k -> spent w h k = Some true -> spent w' h k = Some true.
Proof. intros Hm Hk Hs. rewrite (mk_spent _ _ _ Hm) by done. rewrite Hs. by case_bool_decide. Qed.

(** What [WriteToDisk] does *)
Lemma WriteToDisk_marked h w :
  marked [] w (WriteToDisk h w).2 /\
  (db_open (walletdb (wkeys w)) = true -> is_Some (mapWallet w !! h) -> (WriteToDisk h w).1 = true /\ forall k, on_disk (WriteToDisk h w).2 h k = spent w h k).
Proof.
  unfold WriteToDisk. destruct (mapWallet w !! h) as [x|] eqn:Ex; [|split; [apply marked_refl|by intros _ [? ?]]].
  destruct (db_open _); cbn [negb]; [|split; [apply marked_refl|done]]. split.
  - split; [| |done|].
    + intros h'. unfold tx_at. cbn [snd with_db_tx with_txs mapWallet]. destruct (decide (h' = h)) as [->|Hh]; [|by rewrite lookup_insert_ne].
      by rewrite lookup_insert_eq, Ex.
    + intros h' k Hk. rewrite bool_decide_eq_false_2 by apply not_elem_of_nil. unfold spent. cbn [snd with_db_tx with_txs mapWallet].
      destruct (decide (h' = h)) as [->|Hh]; [|by rewrite lookup_insert_ne]. by rewrite lookup_insert_eq, Ex.
    + intros h' k Hk. unfold spent, on_disk. cbn [snd with_db_tx with_txs db_tx]. destruct (decide (h' = h)) as [->|Hh]; [|by rewrite lookup_insert_ne].
      rewrite lookup_insert_eq, Ex. by intros Hs _.
  - intros _ _. split; [done|]. intros k. unfold on_disk, spent. cbn [snd with_db_tx with_txs db_tx]. by rewrite lookup_insert_eq, Ex.
Qed.

(** A transaction and its flags are kept. *)
Lemma marked_insert h x x' w : mapWallet w !! h = Some x -> kept x' x -> marked [] w (with_txs (<[h := x']> (mapWallet w)) w).
Proof.
  intros Ex [Ht Hs]. split; [| |done|done].
  - intros h'. unfold tx_at. cbn [with_txs mapWallet]. destruct (decide (h' = h)) as [->|Hh]; [|by rewrite lookup_insert_ne].
    rewrite lookup_insert_eq, Ex. cbn. by rewrite Ht.
  - intros h' k Hk. rewrite bool_decide_eq_false_2 by apply not_elem_of_nil. unfold spent. cbn [with_txs mapWallet].
    destruct (decide (h' = h)) as [->|Hh]; [|by rewrite lookup_insert_ne]. rewrite lookup_insert_eq, Ex. cbn. by apply IsSpent_kept.
Qed.

(** A method that keeps the transaction *)
Lemma at_tx_kept {A} h (f : wtxM A) w a w' : keeps f -> at_tx h f w = Some (a, w') -> marked [] w w'.
Proof.
  intros Hf Ha. unfold at_tx in Ha. apply bind_Some in Ha as (x & Ex & ([b x'] & Ef & Ha)%bind_Some). injection Ha as <- <-.
  apply (marked_insert h x); [done|by apply (Hf _ _ _ Ef)].
Qed.
End wallet.

(** ** The steps of the operations *)

Section steps.
Context {E : ECOps} {SO : ECSecretOps E} {C : CipherOps} {H : HashOps}.
Context (depth : nat) (par : Params) (s : ChainState).
Implicit Types w : CWallet.

Lemma credit_loop_total w filter outs n :
  Forall (fun o => 0 <= nValue o) outs -> 0 <= n -> n + total_value outs <= MAX_MONEY ->
  is_Some (credit_loop (GetCredit_out depth w filter) outs n).
Proof.
  intros Hf. revert n. induction Hf as [|o outs Ho Hf IH]; intros n Hn Hm; cbn [credit_loop]; [by eexists|].
  change (total_value (o :: outs)) with (nValue o + total_value outs) in Hm.
  assert (Ht : 0 <= total_value outs) by (clear -Hf; induction Hf as [|a l Ha _ IHl]; cbn; [lia|fold (total_value l); lia]).
  assert (exists v, GetCredit_out depth w filter o = Some v /\ 0 <= v <= nValue o) as (v & -> & Hv).
  { unfold GetCredit_out. assert (MoneyRange (nValue o) = true) as -> by (unfold MoneyRange; apply andb_true_iff; rewrite !Z.leb_le; lia).
    cbn [negb]. eexists. split; [done|]. destruct (matches _ _); lia. }
  cbn [mbind option_bind]. rewrite add_money_ok by lia; cbn [mbind option_bind]; apply IH; lia.
Qed.

Lemma GetCredit_total w x b : money_ok x -> exists n x', wtx_GetCredit depth par s w b x = Some (n, x').
Proof.
  intros [Hf Hm]. assert (exists v x1, and_then (mret (generated (wtx_tx x))) (immature par s) x = Some (v, x1)) as (v & x1 & Hi).
  { unfold and_then, mbind, wtxM_bind. cbn [mret wtxM_ret mbind option_bind]. destruct (generated (wtx_tx x)) eqn:Eg; [|by eexists _, _].
    unfold immature, GetBlocksToMaturity, mbind, wtxM_bind, this, GetDepthInMainChain. cbn [mbind option_bind]. rewrite Eg.
    cbn [negb mbind option_bind]. destruct (GetDepth s (merkle x)). by eexists _, _. }
  unfold wtx_GetCredit, mbind, wtxM_bind, this. cbn [mbind option_bind]. rewrite Hi. cbn [mbind option_bind].
  destruct v; [by eexists _, _|]. unfold cached.
  destruct (credit_loop_total w 3 (vout (wtx_tx x)) 0 Hf ltac:(done) ltac:(done)) as [n Hn]. fold (GetCredit_tx depth w 3 (wtx_tx x)) in Hn.
  rewrite Hn. destruct ((if b then nCreditCached else _) _); by eexists _, _.
Qed.

Lemma tx_at_lookup w h tx : tx_at w h = Some tx <-> exists x, mapWallet w !! h = Some x /\ wtx_tx x = tx.
Proof. unfold tx_at. rewrite fmap_Some. naive_solver. Qed.

(** An output is marked after a method that keeps the transaction. *)
Lemma at_tx_mark {A} h n (f : wtxM A) (g : CWalletTx -> CWalletTx) w x :
  mapWallet w !! h = Some x -> 0 <= n < Z.of_nat (length (vout (wtx_tx x))) -> keeps f -> (exists a y, f x = Some (a, y)) ->
  (forall y, kept (g y) y) ->
  exists w', at_tx h (_ ← f; act (fun x => MarkSpent n (g x))) w = Some (tt, w') /\ marked [(h, n)] w w' /\
    is_Some (mapWallet w' !! h) /\ spent w' h n = Some true.
Proof.
  intros Hx Hn Hf (a & y & Ef) Hg. destruct (Hf _ _ _ Ef) as [Ht Hs]. destruct (Hg y) as [Gt Gs].
  destruct (mark_flag_spec true n (g y)) as (x' & Em & Ht' & Hs'); [rewrite Gt, Ht; lia|].
  assert (Hk : forall k, 0 <= k -> IsSpent x' k = if k =? n then Some true else IsSpent x k).
  { intros k Hk. rewrite Hs' by done. by rewrite (IsSpent_kept (g y) x) by (split; congruence). }
  exists (with_txs (<[h := x']> (mapWallet w)) w). split; [|split; [|split]].
  - unfold at_tx. rewrite Hx. cbn [mbind option_bind]. unfold mbind, wtxM_bind. rewrite Ef. cbn [mbind option_bind]. unfold act, MarkSpent. cbv beta. rewrite Em. done.
  - assert (Hsp : forall h' k, spent (with_txs (<[h := x']> (mapWallet w)) w) h' k = if decide (h' = h) then IsSpent x' k else spent w h' k).
    { intros h' k. unfold spent. cbn [with_txs mapWallet]. case_decide as Hh; [subst; by rewrite lookup_insert_eq|by rewrite lookup_insert_ne]. }
    split; [| |done|done].
    + intros h'. unfold tx_at. cbn [with_txs mapWallet]. destruct (decide (h' = h)) as [->|Hh]; [|by rewrite lookup_insert_ne].
      rewrite lookup_insert_eq, Hx. cbn. congruence.
    + intros h' k Hk0. rewrite Hsp. case_decide as Hh.
      * subst h'. rewrite Hk by done. unfold spent. rewrite Hx. cbn [mbind option_bind]. destruct (Z.eqb_spec k n) as [->|Hkn].
        { rewrite bool_decide_eq_true_2 by set_solver. unfold IsSpent. by rewrite (proj2 (Z.leb_gt _ _)) by lia. }
        rewrite bool_decide_eq_false_2 by set_solver. done.
      * rewrite bool_decide_eq_false_2 by set_solver. done.
  - cbn [with_txs mapWallet]. rewrite lookup_insert_eq. by eexists.
  - unfold spent. cbn [with_txs mapWallet]. rewrite lookup_insert_eq. cbn. rewrite Hk by lia. by rewrite Z.eqb_refl.
Qed.

(** One coin marked and written *)
Lemma mark_and_write {A} h n (f : wtxM A) (g : CWalletTx -> CWalletTx) w x :
  mapWallet w !! h = Some x -> 0 <= n < Z.of_nat (length (vout (wtx_tx x))) -> keeps f -> (exists a y, f x = Some (a, y)) ->
  (forall y, kept (g y) y) ->
  exists w', at_tx h (_ ← f; act (fun x => MarkSpent n (g x))) w = Some (tt, w') /\ marked [(h, n)] w (WriteToDisk h w').2 /\
    spent (WriteToDisk h w').2 h n = Some true /\ (db_open (walletdb (wkeys w)) = true -> on_disk (WriteToDisk h w').2 h n = Some true).
Proof.
  intros Hx Hn Hf Hfx Hg. destruct (at_tx_mark h n f g w x Hx Hn Hf Hfx Hg) as (w' & Ew & Hm & Hi & Hs). exists w'. split; [done|].
  destruct (WriteToDisk_marked h w') as [Hm' Hd]. pose proof (marked_trans _ _ _ _ _ Hm Hm') as Hm2. split; [exact Hm2|].
  assert (Hs' : spent (WriteToDisk h w').2 h n = Some true) by (eapply marked_spent; [exact Hm'|lia|exact Hs]). split; [done|].
  intros Ho. destruct Hd as [_ ->]; [by rewrite (mk_keys _ _ _ Hm)|done|done].
Qed.

(** The outputs that the inputs spend *)
Definition input_coins (ins : list CTxIn) : list (list Z * Z) := (fun i => (op_hash (prevout i), op_n (prevout i))) <$> ins.
Definition funds_ok w : Prop := forall h x, mapWallet w !! h = Some x -> money_ok x.
Definition indices_ok (ins : list CTxIn) : Prop := Forall (fun i => 0 <= op_n (prevout i)) ins.

Lemma funds_ok_marked l w w' : marked l w w' -> funds_ok w -> funds_ok w'.
Proof.
  intros Hm Hf h x Hx. pose proof (mk_tx _ _ _ Hm h) as Ht. unfold tx_at in Ht. rewrite Hx in Ht. cbn in Ht.
  destruct (mapWallet w !! h) as [y|] eqn:Ey; [|done]. injection Ht as Ht. unfold money_ok. rewrite Ht. exact (Hf h y Ey).
Qed.

(** [WalletUpdateSpent] of a transaction that is not in a block marks coins it spends. *)
Lemma spent_loop_marked ins w :
  funds_ok w -> indices_ok ins ->
  exists w' l, spent_loop depth par s ins w = Some w' /\ marked l w w' /\ l ⊆ input_coins ins.
Proof.
  intros Hf Hi. revert w Hf. induction Hi as [|i ins Hi0 Hi IH]; intros w Hf; cbn [spent_loop]; [exists w, []; split; [done|split; [apply marked_refl|set_solver]]|].
  assert (Hskip : exists w' l, spent_loop depth par s ins w = Some w' /\ marked l w w' /\ l ⊆ input_coins (i :: ins)).
  { destruct (IH w Hf) as (w' & l & ? & ? & ?). exists w', l. split; [done|split; [done|]]. unfold input_coins in *. cbn. set_solver. }
  destruct (mapWallet w !! op_hash (prevout i)) as [x|] eqn:Ex; [|done].
  destruct (Z.leb_spec (Z.of_nat (length (vout (wtx_tx x)))) (op_n (prevout i))) as [Hl|Hl]; [done|].
  unfold spent_and_mine, IsSpent. rewrite (proj2 (Z.leb_gt _ _)) by lia. cbn [mbind option_bind].
  destruct (lookup_lt_is_Some_2 (vout (wtx_tx x)) (Z.to_nat (op_n (prevout i)))) as [o Ho]; [lia|]. rewrite Ho. cbn [mbind option_bind].
  destruct (negb _ && _); [|done].
  destruct (mark_and_write (op_hash (prevout i)) (op_n (prevout i)) (wtx_GetCredit depth par s w true) (fun y => y) w x) as (w1 & E1 & Hm1 & _ & _);
    [done|lia|apply keeps_GetCredit|apply GetCredit_total; by eapply Hf|done|].
  change (at_tx (op_hash (prevout i)) (_ ← wtx_GetCredit depth par s w true; act (MarkSpent (op_n (prevout i)))) w = Some (tt, w1)) in E1.
  rewrite E1. cbn [mbind option_bind]. destruct (IH (WriteToDisk (op_hash (prevout i)) w1).2) as (w' & l & E' & Hm' & Hl').
  { by eapply funds_ok_marked. }
  exists w', ([(op_hash (prevout i), op_n (prevout i))] ++ l). split; [done|]. split; [by eapply marked_trans|].
  unfold input_coins in *. cbn. set_solver.
Qed.

(** The inputs are outputs of transactions of the wallet. *)
Definition inputs_known w (ins : list CTxIn) : Prop := Forall (fun i => is_Some (prev_out w i)) ins.

Lemma inputs_known_tx w w' ins : (forall h, is_Some (tx_at w h) -> tx_at w' h = tx_at w h) -> inputs_known w ins -> inputs_known w' ins.
Proof.
  intros Ht Hk. apply (Forall_impl _ _ _ Hk). intros i [o Ho]. unfold prev_out in *. apply bind_Some in Ho as (x & Ex & Ho).
  pose proof (Ht (op_hash (prevout i))) as Hh. unfold tx_at in Hh. rewrite Ex in Hh. specialize (Hh ltac:(by eexists)). cbn in Hh.
  apply fmap_Some in Hh as (y & Ey & Hy). rewrite Ey. cbn. rewrite <- Hy. by exists o.
Qed.

Lemma mark_inputs_marked ins w :
  indices_ok ins -> inputs_known w ins ->
  exists w', mark_inputs par ins w = Some w' /\ marked (input_coins ins) w w' /\
    (db_open (walletdb (wkeys w)) = true -> forall c, c ∈ input_coins ins -> spent w' c.1 c.2 = Some true /\ on_disk w' c.1 c.2 = Some true).
Proof.
  intros Hi. revert w. induction Hi as [|i ins Hi0 Hi IH]; intros w Hk; cbn [mark_inputs]; [exists w; split; [done|split; [apply marked_refl|by intros _ c ?%not_elem_of_nil]]|].
  apply Forall_cons in Hk as [[o Ho] Hk]. pose proof Ho as Ho'. unfold prev_out in Ho'. apply bind_Some in Ho' as (x & Ex & Ho').
  apply lookup_lt_Some in Ho'. unfold entry. rewrite Ex.
  destruct (mark_and_write (op_hash (prevout i)) (op_n (prevout i)) (mret tt) BindWallet w x) as (w1 & E1 & Hm1 & Hs1 & Hd1);
    [done|lia|apply keeps_ret|by eexists _, _|done|].
  change (at_tx (op_hash (prevout i)) (act (fun coin => MarkSpent (op_n (prevout i)) (BindWallet coin))) w = Some (tt, w1)) in E1.
  rewrite E1. cbn [mbind option_bind]. set (w2 := (WriteToDisk _ w1).2) in *. destruct (IH w2) as (w' & E' & Hm' & Hd').
  { eapply inputs_known_tx; [|exact Hk]. intros h _. apply (mk_tx _ _ _ Hm1). }
  exists w'. split; [done|]. split; [by eapply (marked_trans [_])|]. intros Hopen c [->|Hc]%elem_of_cons.
  - cbn [fst snd]. split; [by eapply marked_spent|]. apply (mk_disk _ _ _ Hm'); [done|done|by apply Hd1].
  - apply Hd'; [by rewrite (mk_keys _ _ _ Hm1)|done].
Qed.
End steps.

(** ** The coins that are offered are not spent *)

Section offered.
Context {E : ECOps} {SO : ECSecretOps E} {C : CipherOps} {H : HashOps}.
Context (depth : nat) (par : Params) (s : ChainState) (opt : WalletOptions).
Implicit Types w : CWallet.

(** The entries of [m] are those of [m0], but for what is cached. *)
Definition kept_map (m m0 : gmap (list Z) CWalletTx) : Prop := forall h x, m !! h = Some x -> exists y, m0 !! h = Some y /\ kept x y.

Lemma wallet_loop_ind {A} (f : list Z -> A -> wtxM A) (P : A -> Prop) (m0 : gmap (list Z) CWalletTx) :
  (forall h acc x acc' x' y, m0 !! h = Some y -> kept x y -> P acc -> f h acc x = Some (acc', x') -> P acc' /\ kept x' x) ->
  forall keys acc m acc' m', kept_map m m0 -> P acc -> wallet_loop f keys acc m = Some (acc', m') -> P acc'.
Proof.
  intros Hf keys. induction keys as [|h keys IH]; intros acc m acc' m' Hm HP; cbn [wallet_loop]; [intros He; by injection He as <- <-|].
  intros (x & Ex & ([a x'] & Ef & Hl)%bind_Some)%bind_Some. destruct (Hm h x Ex) as (y & Ey & Hy).
  destruct (Hf h acc x a x' y Ey Hy HP Ef) as [Ha Hx']. eapply IH; [|exact Ha|exact Hl].
  intros h' z. destruct (decide (h' = h)) as [->|Hh]; [rewrite lookup_insert_eq|by rewrite lookup_insert_ne; eauto].
  intros Hz. injection Hz as <-. exists y. split; [done|by etransitivity].
Qed.

Lemma outputs_loop_unspent w h n chosen x outs i l l' (P : COutput -> Prop) :
  (forall k d b, IsSpent x (Z.of_nat k) = Some false -> P (mkOutput h k d b)) -> Forall P l ->
  outputs_loop depth w h n chosen x outs i l = Some l' -> Forall P l'.
Proof.
  intros HP. revert i l. induction outs as [|o outs IH]; intros i l Hl; cbn [outputs_loop]; [intros He; by injection He as <-|].
  intros (b & Hb & Ho)%bind_Some. refine (IH _ _ _ Ho). destruct b; cbn [negb andb]; [done|].
  destruct (_ && _); [|done]. apply Forall_app. split; [done|]. by apply Forall_singleton, HP.
Qed.

Lemma coins_unspent (p : CWallet -> wtxM bool) chosen w l w' :
  keeps (p w) -> coins depth s p chosen w = Some (l, w') -> Forall (fun c => spent w (out_tx c) (Z.of_nat (out_i c)) = Some false) l.
Proof.
  intros Hp Hc. unfold coins, for_wallet in Hc. apply bind_Some in Hc as ([acc m] & Hl & Hr). injection Hr as <- _.
  eapply (wallet_loop_ind _ _ (mapWallet w)); [| | |exact Hl]; [|by intros h x Hx; exists x|constructor].
  intros h acc0 x acc' x' y Hy Hk Ha. unfold mbind, wtxM_bind. intros ([b x1] & Eb & Hb)%bind_Some.
  pose proof (Hp _ _ _ Eb) as Hx1. destruct b; [|by injection Hb as <- <-].
  apply bind_Some in Hb as ([n x2] & Ed & Hb). pose proof (keeps_GetDepth s _ _ _ Ed) as Hx2. unfold this in Hb. cbn [mbind option_bind] in Hb.
  unfold lift in Hb. apply bind_Some in Hb as (l' & Eo & Hb). injection Hb as <- <-. split; [|by etransitivity].
  eapply outputs_loop_unspent; [|exact Ha|exact Eo]. intros k d b Hs. cbn [out_tx out_i]. unfold spent. rewrite Hy. cbn [mbind option_bind].
  rewrite <- Hs. symmetry. apply IsSpent_kept. etransitivity; [exact Hx2|]. by etransitivity.
Qed.

Lemma AvailableCoins_unspent fuel fOnly cc w l w' :
  AvailableCoins depth par s opt fuel fOnly cc w = Some (l, w') -> Forall (fun c => spent w (out_tx c) (Z.of_nat (out_i c)) = Some false) l.
Proof. apply coins_unspent, keeps_coin_usable. Qed.
End offered.

(** ** A transaction is added and committed *)

Section commit.
Context {E : ECOps} {SO : ECSecretOps E} {C : CipherOps} {H : HashOps}.
Context (gen : nat -> EC_KEY) (i2d : EC_KEY -> list Z) (GetTime : Z) (depth : nat) (par : Params) (s : ChainState) (opt : WalletOptions).
Implicit Types w : CWallet.

(** [w0] is [w] with [x] added, but for what is cached and the bookkeeping of [x] *)
Definition inserted (x : CWalletTx) w w0 : Prop :=
  exists y, kept y x /\ mapWallet w0 = <[wtx_hash x := y]> (mapWallet w) /\ wkeys w0 = wkeys w /\ db_tx w0 = db_tx w.

(** The default key is not replaced. *)
Definition default_stays w : Prop := fHaveGUI opt || negb (CPubKey_IsValid (vchDefaultKey (wkeys w))) = true.

Lemma inserted_tx x w w0 h : inserted x w w0 -> tx_at w0 h = if decide (h = wtx_hash x) then Some (wtx_tx x) else tx_at w h.
Proof.
  intros (y & [Ht _] & Hm & _ & _). unfold tx_at. rewrite Hm. case_decide as Hh; [subst; rewrite lookup_insert_eq; cbn; by rewrite Ht|by rewrite lookup_insert_ne].
Qed.
Lemma inserted_spent x w w0 h k : inserted x w w0 -> spent w0 h k = if decide (h = wtx_hash x) then IsSpent x k else spent w h k.
Proof.
  intros (y & Hk & Hm & _ & _). unfold spent. rewrite Hm. case_decide as Hh; [subst; rewrite lookup_insert_eq; cbn; by apply IsSpent_kept|by rewrite lookup_insert_ne].
Qed.

Lemma AddToWallet_new x w :
  mapWallet w !! wtx_hash x = None -> hashBlock (merkle x) = zero256 -> default_stays w -> funds_ok w -> money_ok x -> indices_ok (vin (wtx_tx x)) ->
  exists w0 w' l, AddToWallet gen i2d GetTime depth par s opt x w = Some (db_open (walletdb (wkeys w)), w') /\
    inserted x w w0 /\ marked l w0 w' /\ l ⊆ input_coins (vin (wtx_tx x)).
Proof.
  intros Hn Hb Hd Hf Hx Hi. assert (Hsm : forall v h r, smart_time s v h zero256 r = r) by (intros v h r; unfold smart_time; by rewrite bool_decide_eq_true_2).
  unfold AddToWallet. rewrite Hn, Hb. cbn [IncOrderPosNext]. rewrite Hsm.
  rewrite (bool_decide_eq_true_2 (zero256 = zero256)) by done. cbn [negb].
  match goal with |- context [WriteToDisk (wtx_hash x) ?v] => set (w0 := v) end.
  assert (Hins : inserted x w w0).
  { eexists. split; [|split; [cbn; by rewrite !insert_insert_eq|done]]. done. }
  assert (Hdb : (WriteToDisk (wtx_hash x) w0).1 = db_open (walletdb (wkeys w))).
  { unfold WriteToDisk. destruct Hins as (z & _ & Hm & Hk & _). rewrite Hm, lookup_insert_eq, Hk. by destruct (db_open _). }
  destruct (WriteToDisk_marked (wtx_hash x) w0) as [Hw _]. destruct (WriteToDisk (wtx_hash x) w0) as [ok w2]. cbn [fst snd] in Hdb, Hw. rewrite <- Hdb. subst ok.
  destruct (db_open (walletdb (wkeys w))) eqn:Eo; cbn [negb]; [|exists w0, w2, []; split; [done|split; [done|split; [done|set_solver]]]].
  assert (Hk2 : wkeys w2 = wkeys w) by (rewrite (mk_keys _ _ _ Hw); by destruct Hins as (? & _ & _ & -> & _)).
  unfold replace_default_key. rewrite Hk2, Hd. cbn [mbind option_bind]. unfold WalletUpdateSpent. change (vin (wtx_tx (with_times _ _ _))) with (vin (wtx_tx x)).
  destruct (spent_loop_marked depth par s (vin (wtx_tx x)) w2) as (w' & l & -> & Hm & Hl); [|done|].
  { eapply funds_ok_marked; [exact Hw|]. destruct Hins as (z & [Hz _] & Hmz & _ & _). intros h v. rewrite Hmz.
    destruct (decide (h = wtx_hash x)) as [->|Hh]; [rewrite lookup_insert_eq|rewrite lookup_insert_ne by done; apply Hf].
    intros Hv. injection Hv as <-. unfold money_ok. by rewrite Hz. }
  cbn [mbind option_bind negb]. exists w0, w', ([] ++ l). split; [done|]. split; [done|]. split; [by eapply marked_trans|done].
Qed.

(** A transaction of the wallet is reported again, without a block. *)
Lemma report_again tx w :
  tx_at w (CTransaction_GetHash tx) = Some tx -> default_stays w -> funds_ok w -> indices_ok (vin tx) ->
  exists w' l, AddToWalletIfInvolvingMe gen i2d GetTime depth par s opt tx None true w = Some (true, None, w') /\
    marked l w w' /\ l ⊆ input_coins (vin tx).
Proof.
  intros (y & Hy & Ht)%tx_at_lookup Hd Hf Hi. unfold AddToWalletIfInvolvingMe. rewrite Hy, (bool_decide_eq_true_2 (is_Some (Some y))) by by eexists.
  cbn [negb andb orb mbind option_bind]. unfold AddToWallet. cbn [CWalletTx_of merkle CMerkleTx_of mtx]. rewrite Hy. unfold merge_tx.
  cbn [CWalletTx_of merkle CMerkleTx_of mtx hashBlock mtx_nIndex fFromMe vfSpent].
  rewrite (bool_decide_eq_true_2 (zero256 = zero256)) by done. change (-1 =? -1) with true. change (0 =? 0) with true. cbn [negb andb].
  destruct (UpdateSpent [] _) as [fSpent y1] eqn:Eu. unfold UpdateSpent in Eu. cbn [update_flags] in Eu. injection Eu as <- <-. cbn [orb negb].
  set (y1 := with_spent _ _ _). set (w1 := with_txs _ w).
  assert (Hm1 : marked [] w w1) by (by apply (marked_insert _ y)). unfold replace_default_key.
  change (vchDefaultKey (wkeys w1)) with (vchDefaultKey (wkeys w)). rewrite Hd. cbn [mbind option_bind]. unfold WalletUpdateSpent.
  change (wtx_tx y1) with (wtx_tx y). rewrite Ht.
  destruct (spent_loop_marked depth par s (vin tx) w1) as (w' & l & -> & Hm & Hl); [by eapply funds_ok_marked|done|].
  exists w', ([] ++ l). split; [done|]. split; [by eapply marked_trans|done].
Qed.

(** The memory pool's answer: nothing, or the report *)
Lemma accepted_ok (ok : bool) tx k w :
  tx_at w (CTransaction_GetHash tx) = Some tx -> default_stays w -> funds_ok w -> indices_ok (vin tx) ->
  exists w' l, (if ok then '(_, _, w) ← AddToWalletIfInvolvingMe gen i2d GetTime depth par s opt tx None true w; Some (true, k, w)
                else Some (false, k, w)) = Some (ok, k : CReserveKey, w') /\ marked l w w' /\ l ⊆ input_coins (vin tx).
Proof.
  intros Ht Hd Hf Hi. destruct ok; [|exists w, []; split_and!; [done|apply marked_refl|set_solver]].
  destruct (report_again tx w Ht Hd Hf Hi) as (w' & l & -> & Hm & Hl). by exists w', l.
Qed.

Lemma CommitTransaction_ok accept x k w :
  mapWallet w !! wtx_hash x = None -> hashBlock (merkle x) = zero256 -> default_stays w -> funds_ok w -> money_ok x ->
  indices_ok (vin (wtx_tx x)) -> inputs_known w (vin (wtx_tx x)) ->
  exists w', CommitTransaction gen i2d GetTime depth par s opt accept x k w = Some (accept (wtx_tx x), CReserveKey_new, w') /\
    (forall h, tx_at w' h = if decide (h = wtx_hash x) then Some (wtx_tx x) else tx_at w h) /\
    (forall h n, 0 <= n -> h <> wtx_hash x ->
       spent w' h n = if bool_decide ((h, n) ∈ input_coins (vin (wtx_tx x))) then (fun _ => true) <$> spent w h n else spent w h n) /\
    (forall c, c ∈ input_coins (vin (wtx_tx x)) -> spent w' c.1 c.2 = Some true) /\
    (db_open (walletdb (wkeys w)) = true -> forall c, c ∈ input_coins (vin (wtx_tx x)) -> on_disk w' c.1 c.2 = Some true).
Proof.
  intros Hn Hb Hd Hf Hx Hi Hk. unfold CommitTransaction, reserve_KeepKey. set (keys := if negb _ then _ else _). set (w1 := with_keys keys w).
  assert (Hopen : db_open (walletdb (wkeys w1)) = db_open (walletdb (wkeys w))).
  { cbn. unfold keys, KeepKey. repeat case_match; try done. cbn. unfold ErasePool. by case_match. }
  assert (Hdef : vchDefaultKey (wkeys w1) = vchDefaultKey (wkeys w)) by (cbn; unfold keys, KeepKey; by repeat case_match).
  assert (Hd1 : default_stays w1) by (unfold default_stays; by rewrite Hdef).
  destruct (AddToWallet_new x w1) as (w2 & w3 & l & -> & Hins & Hm & Hl); [done..|].
  cbn [mbind option_bind]. destruct (mark_inputs_marked par (vin (wtx_tx x)) w3) as (w4 & E4 & Hm4 & Hd4); [done| |].
  { eapply inputs_known_tx; [|exact Hk]. intros h [tx Htx]. rewrite (mk_tx _ _ _ Hm), (inserted_tx _ _ _ _ Hins). change (tx_at w1 h) with (tx_at w h).
    case_decide as Hh; [|done]. subst h. unfold tx_at in Htx. by rewrite Hn in Htx. }
  rewrite E4. cbn [mbind option_bind]. pose proof (marked_trans _ _ _ _ _ Hm Hm4) as Hm5. set (w5 := with_requests _ w4).
  assert (Hk5 : wkeys w5 = wkeys w1).
  { change (wkeys w5) with (wkeys w4). rewrite (mk_keys _ _ _ Hm5). by destruct Hins as (_ & _ & _ & -> & _). }
  assert (Ht5 : forall h, tx_at w5 h = if decide (h = wtx_hash x) then Some (wtx_tx x) else tx_at w h).
  { intros h. etransitivity; [exact (mk_tx _ _ _ Hm5 h)|]. by rewrite (inserted_tx _ _ _ _ Hins). }
  destruct (accepted_ok (accept (wtx_tx x)) (wtx_tx x) CReserveKey_new w5) as (w6 & l6 & E6 & Hm6 & Hl6).
  - by rewrite Ht5, decide_True.
  - unfold default_stays. by rewrite Hk5.
  - intros h v Hv. pose proof (Ht5 h) as Hth. unfold tx_at in Hth. rewrite Hv in Hth. cbn in Hth. unfold money_ok. case_decide; [by injection Hth as ->|].
    symmetry in Hth. apply fmap_Some in Hth as (v0 & Hv0 & ->). by apply (Hf h).
  - done.
  - exists w6. split; [exact E6|]. assert (Hfin : forall h n, 0 <= n -> h <> wtx_hash x ->
      spent w6 h n = if bool_decide ((h, n) ∈ input_coins (vin (wtx_tx x))) then (fun _ => true) <$> spent w h n else spent w h n).
    { intros h n H0 Hh. rewrite (mk_spent _ _ _ Hm6) by done. change (spent w5 h n) with (spent w4 h n). rewrite (mk_spent _ _ _ Hm5) by done.
      rewrite (inserted_spent _ _ _ _ _ Hins), decide_False by done. change (spent w1 h n) with (spent w h n).
      destruct (spent w h n); repeat case_bool_decide; cbn; set_solver. }
    assert (Hin : forall c, c ∈ input_coins (vin (wtx_tx x)) -> 0 <= c.2 /\ c.1 <> wtx_hash x /\ is_Some (spent w c.1 c.2)).
    { intros c Hc. unfold input_coins in Hc. apply list_elem_of_fmap in Hc as (i & -> & Hin). cbn [fst snd].
      unfold indices_ok in Hi. unfold inputs_known in Hk. rewrite Forall_forall in Hi. rewrite Forall_forall in Hk. pose proof (Hi i Hin) as H0.
      destruct (Hk i Hin) as [o Ho]. unfold prev_out in Ho. apply bind_Some in Ho as (v & Ev & Ho). apply lookup_lt_Some in Ho.
      split; [done|]. split; [intros Hh; rewrite Hh in Ev; congruence|]. unfold spent. rewrite Ev. cbn [mbind option_bind].
      unfold IsSpent. rewrite (proj2 (Z.leb_gt _ _)) by lia. by eexists. }
    assert (Hsp : forall c, c ∈ input_coins (vin (wtx_tx x)) -> spent w6 c.1 c.2 = Some true).
    { intros c Hc. destruct (Hin c Hc) as (H0 & Hh & b & Hs). rewrite Hfin by done. by rewrite bool_decide_eq_true_2, Hs by (by destruct c). }
    split_and!; [|exact Hfin|exact Hsp|].
    + intros h. etransitivity; [exact (mk_tx _ _ _ Hm6 h)|]. apply Ht5.
    + intros Ho c Hc. destruct (Hin c Hc) as (H0 & Hh & b & Hs). destruct (Hd4 ltac:(by rewrite (mk_keys _ _ _ Hm); destruct Hins as (_ & _ & _ & -> & _); rewrite Hopen) c Hc) as [Hs4 Ho4].
      by apply (mk_disk _ _ _ Hm6).
Qed.
End commit.

(** ** The repair of the flags *)

Section repair.
Context {E : ECOps} {SO : ECSecretOps E} {C : CipherOps} {H : HashOps}.
Context (depth : nat) (s : ChainState).
Implicit Types w : CWallet.

(** Output [k] of a transaction is the wallet's. *)
Definition mine_at w (tx : CTransaction) (k : Z) : bool :=
  match vout tx !! Z.to_nat k with Some o => negb (bool_decide (IsMine_out depth w o = MINE_NO)) | None => false end.
(** The index of the chain says that output [k] is spent. *)
Definition index_spent (r : CTxIndex) (k : Z) : bool :=
  match vSpent r !! Z.to_nat k with Some p => negb (CDiskTxPos_IsNull p) | None => false end.

Lemma mine_at_keys w w' tx k : wkeys w' = wkeys w -> mine_at w' tx k = mine_at w tx k.
Proof. intros Hk. unfold mine_at, IsMine_out, IsMine_script. by rewrite Hk. Qed.

Lemma spent_and_mine_at w x (n : nat) o :
  vout (wtx_tx x) !! n = Some o ->
  exists b, IsSpent x (Z.of_nat n) = Some b /\ spent_and_mine depth w x (Z.of_nat n) = Some (b, mine_at w (wtx_tx x) (Z.of_nat n)).
Proof.
  intros Ho. pose proof (lookup_lt_Some _ _ _ Ho). unfold spent_and_mine, mine_at, IsSpent. rewrite (proj2 (Z.leb_gt _ _)) by lia.
  eexists. split; [done|]. cbn [mbind option_bind]. by rewrite Nat2Z.id, Ho.
Qed.

Lemma from_next n k : k <> Z.of_nat n -> (Z.of_nat (S n) <=? k) = (Z.of_nat n <=? k).
Proof. intros Hk. destruct (Z.leb_spec (Z.of_nat n) k), (Z.leb_spec (Z.of_nat (S n)) k); lia. Qed.

(** The flags from output [n] on follow the index where the output is the wallet's. *)
Lemma fix_outputs_repair r h x n acc w :
  mapWallet w !! h = Some x -> (n <= length (vout (wtx_tx x)))%nat ->
  exists acc' w' x', fix_outputs depth false r h (drop n (vout (wtx_tx x))) n acc w = Some (acc', w') /\ wkeys w' = wkeys w /\
    mapWallet w' !! h = Some x' /\ wtx_tx x' = wtx_tx x /\ (forall h', h' <> h -> mapWallet w' !! h' = mapWallet w !! h') /\
    forall k, 0 <= k -> IsSpent x' k = if (Z.of_nat n <=? k) && mine_at w (wtx_tx x) k then Some (index_spent r k) else IsSpent x k.
Proof.
  intros Hx Hn. remember (length (vout (wtx_tx x)) - n)%nat as m eqn:Em. revert n acc w x Hx Hn Em. induction m as [|m IH]; intros n acc w x Hx Hn Em.
  - rewrite drop_ge by lia. exists acc, w, x. split_and!; try done. intros k Hk. destruct (Z.leb_spec (Z.of_nat n) k) as [Hl|Hl]; [|done].
    unfold mine_at. by rewrite lookup_ge_None_2 by lia.
  - destruct (lookup_lt_is_Some_2 (vout (wtx_tx x)) n) as [o Ho]; [lia|]. rewrite (drop_S _ o) by done. cbn [fix_outputs]. rewrite Hx. cbn [mbind option_bind].
    destruct (spent_and_mine_at w x n o Ho) as (b & Hb & ->). cbn [mbind option_bind]. fold (index_spent r (Z.of_nat n)).
    replace (match vSpent r !! n with Some p => negb (CDiskTxPos_IsNull p) | None => false end) with (index_spent r (Z.of_nat n))
      by (unfold index_spent; by rewrite Nat2Z.id).
    destruct (mine_at w (wtx_tx x) (Z.of_nat n)) eqn:Emine; cbn [andb].
    2: { destruct (IH (S n) acc w x Hx ltac:(lia) ltac:(lia)) as (acc' & w' & x' & -> & Hk & Hx' & Ht & Ho' & Hs).
         exists acc', w', x'. split_and!; try done. intros k H0. rewrite Hs by done. destruct (Z.eq_dec k (Z.of_nat n)) as [->|Hne].
         - rewrite Emine, !andb_false_r. done.
         - by rewrite from_next. }
    destruct (eqb b (index_spent r (Z.of_nat n))) eqn:Eb; cbn [negb].
    + apply eqb_prop in Eb. destruct (IH (S n) acc w x Hx ltac:(lia) ltac:(lia)) as (acc' & w' & x' & -> & Hk & Hx' & Ht & Ho' & Hs).
      exists acc', w', x'. split_and!; try done. intros k H0. rewrite Hs by done. destruct (Z.eq_dec k (Z.of_nat n)) as [->|Hne].
      * rewrite Emine, Z.leb_refl, (proj2 (Z.leb_gt _ _)) by lia. cbn [andb]. by rewrite Hb, Eb.
      * by rewrite from_next.
    + pose proof (lookup_lt_Some _ _ _ Ho) as Hlt. destruct (mark_flag_spec (index_spent r (Z.of_nat n)) (Z.of_nat n) x) as (x1 & Em1 & Ht1 & Hs1); [lia|].
      unfold at_tx, act. rewrite Hx. cbn [mbind option_bind]. rewrite Em1. cbn [mbind option_bind]. set (w1 := with_txs _ w).
      assert (exists x2, mapWallet (WriteToDisk h w1).2 !! h = Some x2 /\ kept x2 x1 /\ wkeys (WriteToDisk h w1).2 = wkeys w /\
        forall h', h' <> h -> mapWallet (WriteToDisk h w1).2 !! h' = mapWallet w !! h') as (x2 & Hx2 & [Ht2 Hv2] & Hk2 & Ho2).
      { unfold WriteToDisk. cbn [w1 with_txs mapWallet]. rewrite lookup_insert_eq. case_match; cbn.
        - exists x1. rewrite lookup_insert_eq. split_and!; [done|done|done|]. intros h' Hh. by rewrite lookup_insert_ne.
        - exists (serialized x1). rewrite lookup_insert_eq. split_and!; [done|done|done|]. intros h' Hh. by rewrite !lookup_insert_ne. }
      assert (Htx : wtx_tx x2 = wtx_tx x) by congruence.
      destruct (IH (S n) (i32 (acc.1 + 1), i64 (acc.2 + nValue o)) (WriteToDisk h w1).2 x2) as (acc' & w' & x' & Ef & Hk & Hx' & Ht & Ho' & Hs);
        [done|rewrite Htx; lia|rewrite Htx; lia|]. rewrite Htx in Ef.
      exists acc', w', x'. split_and!; [exact Ef|congruence|exact Hx'|congruence|intros h' Hh; rewrite Ho', Ho2 by done; done|].
      intros k H0. rewrite Hs by done. rewrite Htx, (mine_at_keys w) by done. rewrite (IsSpent_kept x2 x1) by done. rewrite Hs1 by done.
      destruct (Z.eqb_spec k (Z.of_nat n)) as [->|Hne].
      * by rewrite Emine, Z.leb_refl, (proj2 (Z.leb_gt _ _)) by lia.
      * by rewrite from_next.
Qed.

(** With the flags right, a check finds nothing. *)
Lemma fix_outputs_check r h x n acc w :
  mapWallet w !! h = Some x -> (n <= length (vout (wtx_tx x)))%nat ->
  (forall k, 0 <= k -> mine_at w (wtx_tx x) k = true -> IsSpent x k = Some (index_spent r k)) ->
  fix_outputs depth true r h (drop n (vout (wtx_tx x))) n acc w = Some (acc, w).
Proof.
  intros Hx Hn Hr. remember (length (vout (wtx_tx x)) - n)%nat as m eqn:Em. revert n Hn Em. induction m as [|m IH]; intros n Hn Em.
  - by rewrite drop_ge by lia.
  - destruct (lookup_lt_is_Some_2 (vout (wtx_tx x)) n) as [o Ho]; [lia|]. rewrite (drop_S _ o) by done. cbn [fix_outputs]. rewrite Hx. cbn [mbind option_bind].
    destruct (spent_and_mine_at w x n o Ho) as (b & Hb & ->). cbn [mbind option_bind].
    replace (match vSpent r !! n with Some p => negb (CDiskTxPos_IsNull p) | None => false end) with (index_spent r (Z.of_nat n))
      by (unfold index_spent; by rewrite Nat2Z.id).
    destruct (mine_at w (wtx_tx x) (Z.of_nat n)) eqn:Emine; cbn [andb]; [|apply IH; lia].
    pose proof (Hr (Z.of_nat n) ltac:(lia) Emine) as Hrn. rewrite Hb in Hrn. injection Hrn as ->. rewrite eqb_reflx. apply IH; lia.
Qed.

(** The record of a transaction in the index; one without a record is looked at only if
    it was generated *)
Definition index_of (x : CWalletTx) : CTxIndex := default CTxIndex_null (db_ReadTxIndex (txdb s) (wtx_hash x)).
Definition looked_at (x : CWalletTx) : bool := generated (wtx_tx x) || bool_decide (is_Some (db_ReadTxIndex (txdb s) (wtx_hash x))).
(** What the flag of output [k] should be *)
Definition right_flag w (x : CWalletTx) (k : Z) : option bool :=
  if looked_at x && mine_at w (wtx_tx x) k then Some (index_spent (index_of x) k) else IsSpent x k.
Definition keyed w : Prop := forall h x, mapWallet w !! h = Some x -> h = wtx_hash x.

(** A transaction after the repair: with the right flags, or gone if it was generated *)
Definition fixed_at w w' (h : list Z) : Prop :=
  exists x, mapWallet w !! h = Some x /\
  match mapWallet w' !! h with
  | Some x' => wtx_tx x' = wtx_tx x /\ forall k, 0 <= k -> IsSpent x' k = right_flag w x k
  | None => generated (wtx_tx x) = true
  end.

Lemma at_tx_depth h x w :
  mapWallet w !! h = Some x -> exists n x', at_tx h (GetDepthInMainChain s) w = Some (n, with_txs (<[h := x']> (mapWallet w)) w) /\ kept x' x.
Proof.
  intros Hx. unfold at_tx. rewrite Hx. cbn [mbind option_bind]. destruct (GetDepthInMainChain s x) as [[n x']|] eqn:Ed.
  - exists n, x'. split; [done|]. by eapply keeps_GetDepth.
  - unfold GetDepthInMainChain in Ed. by destruct (GetDepth s (merkle x)).
Qed.

(** One round of the repair *)
Lemma fix_step h hashes acc o w x :
  mapWallet w !! h = Some x -> h = wtx_hash x ->
  exists acc' o' w', fix_loop depth s false (h :: hashes) acc o w = fix_loop depth s false hashes acc' o' w' /\
    wkeys w' = wkeys w /\ fixed_at w w' h /\ forall h', h' <> h -> mapWallet w' !! h' = mapWallet w !! h'.
Proof.
  intros Hx Hh. cbn [fix_loop]. rewrite Hx. cbn [mbind option_bind].
  destruct (fix_outputs_repair (index_of x) h x 0 acc w Hx ltac:(lia)) as (acc' & w1 & x1 & Ef & Hk1 & Hx1 & Ht1 & Ho1 & Hs1).
  rewrite drop_0 in Ef. unfold index_of in Ef. assert (Hright : looked_at x = true -> forall k, 0 <= k -> IsSpent x1 k = right_flag w x k).
  { intros Hl k H0. unfold right_flag. rewrite Hl, Hs1 by done. by rewrite (proj2 (Z.leb_le _ _)) by lia. }
  assert (Hnone : db_ReadTxIndex (txdb s) (wtx_hash x) = None -> generated (wtx_tx x) = false ->
    exists acc' o' w', fix_loop depth s false hashes acc o w = fix_loop depth s false hashes acc' o' w' /\
      wkeys w' = wkeys w /\ fixed_at w w' h /\ forall h', h' <> h -> mapWallet w' !! h' = mapWallet w !! h').
  { intros En Eg. exists acc, o, w. split_and!; try done. exists x. rewrite Hx. split; [done|]. split; [done|]. intros k H0.
    unfold right_flag, looked_at. by rewrite Eg, En. }
  assert (Hfound : looked_at x = true -> exists acc' o' w',
    ('(acc, w) ← fix_outputs depth false (default CTxIndex_null (db_ReadTxIndex (txdb s) (wtx_hash x))) h (vout (wtx_tx x)) 0 acc w;
     if generated (wtx_tx x) then
       '(nDepth, w) ← at_tx h (GetDepthInMainChain s) w;
       if nDepth <? 0 then fix_loop depth s false hashes acc (i32 (o + 1)) (EraseFromWallet (wtx_hash x) w).2
       else fix_loop depth s false hashes acc o w
     else fix_loop depth s false hashes acc o w) = fix_loop depth s false hashes acc' o' w' /\
      wkeys w' = wkeys w /\ fixed_at w w' h /\ forall h', h' <> h -> mapWallet w' !! h' = mapWallet w !! h').
  { intros Hl. specialize (Hright Hl). rewrite Ef. cbn [mbind option_bind]. destruct (generated (wtx_tx x)) eqn:Eg.
    2: { exists acc', o, w1. split_and!; [done|done| |done]. exists x. rewrite Hx, Hx1. split; [done|]. by split. }
    destruct (at_tx_depth h x1 w1 Hx1) as (n & x2 & -> & Hk2). cbn [mbind option_bind]. set (w2 := with_txs _ w1).
    assert (Hx2 : fixed_at w w2 h).
    { exists x. rewrite Hx. cbn [w2 with_txs mapWallet]. rewrite lookup_insert_eq. split; [done|]. split; [destruct Hk2; congruence|].
      intros k H0. rewrite (IsSpent_kept _ _ _ Hk2). by apply Hright. }
    assert (Ho2 : forall h', h' <> h -> mapWallet w2 !! h' = mapWallet w !! h').
    { intros h' Hne. cbn [w2 with_txs mapWallet]. rewrite lookup_insert_ne by done. by apply Ho1. }
    destruct (n <? 0); [|by exists acc', o, w2; split_and!]. exists acc', (i32 (o + 1)), (EraseFromWallet (wtx_hash x) w2).2.
    split; [done|]. rewrite <- Hh. unfold EraseFromWallet. destruct (negb (fFileBacked (wkeys w2))); [by split_and!|].
    cbn [w2 with_txs mapWallet]. rewrite lookup_insert_eq. cbn [snd]. split_and!.
    - by case_match.
    - exists x. split; [done|]. replace (mapWallet _ !! h) with (@None CWalletTx) by (case_match; cbn; by rewrite lookup_delete_eq). done.
    - intros h' Hne. case_match; cbn; rewrite lookup_delete_ne, lookup_insert_ne by done; by apply Ho1. }
  destruct (db_ReadTxIndex (txdb s) (wtx_hash x)) as [r|] eqn:En.
  - destruct (generated (wtx_tx x)) eqn:Eg; apply Hfound; unfold looked_at; rewrite En; by rewrite bool_decide_eq_true_2, ?orb_true_r.
  - destruct (generated (wtx_tx x)) eqn:Eg; [|by apply Hnone]. apply Hfound. unfold looked_at. by rewrite Eg.
Qed.

Lemma fix_loop_repair hashes acc o w :
  NoDup hashes -> keyed w -> (forall h, h ∈ hashes -> is_Some (mapWallet w !! h)) ->
  exists acc' o' w', fix_loop depth s false hashes acc o w = Some (acc', o', w') /\ wkeys w' = wkeys w /\
    (forall h, h ∈ hashes -> fixed_at w w' h) /\ forall h, h ∉ hashes -> mapWallet w' !! h = mapWallet w !! h.
Proof.
  revert acc o w. induction hashes as [|h hashes IH]; intros acc o w Hnd Hkeyed Hin; [exists acc, o, w; split_and!; try done; by intros ? ?%not_elem_of_nil|].
  apply NoDup_cons in Hnd as [Hnin Hnd]. destruct (Hin h ltac:(by left)) as [x Hx].
  destruct (fix_step h hashes acc o w x Hx (Hkeyed h x Hx)) as (acc1 & o1 & w1 & -> & Hk1 & Hf1 & Ho1).
  destruct (IH acc1 o1 w1 Hnd) as (acc' & o' & w' & -> & Hk' & Hf' & Ho').
  - intros h' x' Hx'. destruct (decide (h' = h)) as [->|Hne]; [|apply Hkeyed; by rewrite <- Ho1].
    destruct Hf1 as (y & Hy & Hm). rewrite Hx' in Hm. destruct Hm as [-> _]. by apply Hkeyed.
  - intros h' Hh'. rewrite Ho1 by (intros ->; done). apply Hin. by right.
  - exists acc', o', w'. split_and!; [done|congruence| |].
    + intros h' [->|Hh']%elem_of_cons.
      * destruct Hf1 as (y & Hy & Hm). exists y. split; [done|]. by rewrite Ho'.
      * destruct (Hf' h' Hh') as (y & Hy & Hm). exists y. split; [rewrite <- Ho1; [done|by intros ->]|]. destruct (mapWallet w' !! h'); [|done].
        destruct Hm as [Ht Hs]. split; [done|]. intros k H0. rewrite Hs by done. unfold right_flag. by rewrite (mine_at_keys w1 w) by done.
    + intros h' Hh'. rewrite not_elem_of_cons in Hh'. destruct Hh'. rewrite Ho' by done. by apply Ho1.
Qed.

(** A check of a wallet with the right flags *)
Lemma fix_loop_check hashes o w :
  NoDup hashes -> (forall h, h ∈ hashes -> exists x, mapWallet w !! h = Some x /\ forall k, 0 <= k -> IsSpent x k = right_flag w x k) ->
  exists o' w', fix_loop depth s true hashes (0, 0) o w = Some (0, 0, o', w').
Proof.
  revert o w. induction hashes as [|h hashes IH]; intros o w Hnd Hin; [by exists o, w|].
  apply NoDup_cons in Hnd as [Hnin Hnd]. destruct (Hin h ltac:(by left)) as (x & Hx & Hr). cbn [fix_loop]. rewrite Hx. cbn [mbind option_bind].
  assert (Hw : exists o' w', fix_loop depth s true hashes (0, 0) o w = Some (0, 0, o', w')).
  { apply IH; [done|]. intros h' Hh'. apply Hin. by right. }
  assert (Hfound : looked_at x = true -> exists o' w',
    ('(acc, w) ← fix_outputs depth true (index_of x) h (vout (wtx_tx x)) 0 (0, 0) w;
     if generated (wtx_tx x) then
       '(nDepth, w) ← at_tx h (GetDepthInMainChain s) w;
       if nDepth <? 0 then fix_loop depth s true hashes acc (i32 (o + 1)) w
       else fix_loop depth s true hashes acc o w
     else fix_loop depth s true hashes acc o w) = Some (0, 0, o', w')).
  { intros Hl. pose proof (fix_outputs_check (index_of x) h x 0 (0, 0) w Hx ltac:(lia)) as Ec. rewrite drop_0 in Ec. rewrite Ec.
    2: { intros k H0 Hm. rewrite Hr by done. unfold right_flag. by rewrite Hl, Hm. }
    cbn [mbind option_bind]. destruct (generated (wtx_tx x)); [|exact Hw].
    destruct (at_tx_depth h x w Hx) as (n & x2 & -> & _). cbn [mbind option_bind].
    assert (Hw2 : forall o2, exists o' w', fix_loop depth s true hashes (0, 0) o2 (with_txs (<[h := x2]> (mapWallet w)) w) = Some (0, 0, o', w')).
    { intros o2. apply IH; [done|]. intros h' Hh'. destruct (Hin h' ltac:(by right)) as (y & Hy & Hs). exists y. split; [|exact Hs].
      cbn [with_txs mapWallet]. rewrite lookup_insert_ne; [done|by intros ->]. }
    destruct (n <? 0); apply Hw2. }
  unfold index_of in Hfound. destruct (db_ReadTxIndex (txdb s) (wtx_hash x)) as [r|] eqn:En; cbn [default] in Hfound.
  - destruct (generated (wtx_tx x)) eqn:Eg; apply Hfound; unfold looked_at; rewrite En; by rewrite bool_decide_eq_true_2, ?orb_true_r.
  - destruct (generated (wtx_tx x)) eqn:Eg; [|exact Hw]. apply Hfound. unfold looked_at. by rewrite Eg.
Qed.
End repair.

(** ** Properties *)

(** C24: Let the wallet's default key be none that is replaced when it receives, and all
    amounts in the range of money.  Committing a new transaction, in no block yet, that
    spends outputs of the wallet records it, marks the outputs it spends -- and no other
    -- as spent, in memory and in the wallet file, and gives up the reserved key; the
    memory pool may refuse the transaction, or take it and report it back to the wallet.
    In the wallet as the call leaves it [AvailableCoins] offers none of these outputs, for
    any state of the chain.  A later operation may unmark them again: [WalletUpdateSpent]
    does when a block confirms the transaction that made them. *)
Theorem committed_coins_spent {E : ECOps} {SO : ECSecretOps E} {C : CipherOps} {H : HashOps}
    (gen : nat -> EC_KEY) (i2d : EC_KEY -> list Z) (GetTime : Z) (depth : nat) (par : Params) (s : ChainState) (opt : WalletOptions)
    (accept : CTransaction -> bool) (x : CWalletTx) (k : CReserveKey) (w : CWallet) :
  mapWallet w !! wtx_hash x = None -> hashBlock (merkle x) = zero256 -> default_stays opt w -> funds_ok w -> money_ok x ->
  indices_ok (vin (wtx_tx x)) -> inputs_known w (vin (wtx_tx x)) ->
  exists w', CommitTransaction gen i2d GetTime depth par s opt accept x k w = Some (accept (wtx_tx x), CReserveKey_new, w') /\
    (forall h, tx_at w' h = if decide (h = wtx_hash x) then Some (wtx_tx x) else tx_at w h) /\
    (forall h n, 0 <= n -> h <> wtx_hash x ->
       spent w' h n = if bool_decide ((h, n) ∈ input_coins (vin (wtx_tx x))) then (fun _ => true) <$> spent w h n else spent w h n) /\
    (db_open (walletdb (wkeys w)) = true -> forall c, c ∈ input_coins (vin (wtx_tx x)) -> on_disk w' c.1 c.2 = Some true) /\
    forall par' s' fuel fOnlyConfirmed coinControl vCoins w'',
      AvailableCoins depth par' s' opt fuel fOnlyConfirmed coinControl w' = Some (vCoins, w'') ->
      Forall (fun c => (out_tx c, Z.of_nat (out_i c)) ∉ input_coins (vin (wtx_tx x))) vCoins.
Proof.
  intros Hn Hb Hd Hf Hx Hi Hk.
  destruct (CommitTransaction_ok gen i2d GetTime depth par s opt accept x k w Hn Hb Hd Hf Hx Hi Hk) as (w' & Ec & Ht & Hs & Hin & Hdisk).
  exists w'. split_and!; [exact Ec|exact Ht|exact Hs|exact Hdisk|]. intros par' s' fuel fOnly cc vCoins w'' Ha.
  eapply Forall_impl; [by eapply AvailableCoins_unspent|]. intros c Hc Hi'. apply Hin in Hi'. cbn in Hi'. congruence.
Qed.

(** Repairing the wallet always ends well: every output of the wallet, of a
    transaction that the index of the chain knows or that was generated, is then marked
    as spent exactly if the index says so, the other flags are as before, and only
    generated transactions are removed; a check of the repaired wallet finds no
    mismatch. *)
Theorem fix_spent_coins {E : ECOps} {SO : ECSecretOps E} {C : CipherOps} {H : HashOps}
    (depth : nat) (s : ChainState) (w : CWallet) :
  keyed w ->
  exists nMismatchFound nBalanceInQuestion nOrphansFound w',
    FixSpentCoins depth s false w = Some (nMismatchFound, nBalanceInQuestion, nOrphansFound, w') /\
    (forall h, is_Some (mapWallet w !! h) -> fixed_at depth s w w' h) /\ (forall h, mapWallet w !! h = None -> mapWallet w' !! h = None) /\
    exists nOrphans w'', FixSpentCoins depth s true w' = Some (0, 0, nOrphans, w'').
Proof.
  intros Hkeyed. unfold FixSpentCoins. set (hashes := (map_entries (mapWallet w)).*1).
  assert (Hin : forall h, h ∈ hashes <-> is_Some (mapWallet w !! h)).
  { intros h. unfold hashes. rewrite list_elem_of_fmap. split.
    - intros ([h' x] & -> & He). apply elem_of_map_entries in He. by exists x.
    - intros [x Hx]. exists (h, x). split; [done|]. by apply elem_of_map_entries. }
  destruct (fix_loop_repair depth s hashes (0, 0) 0 w) as (acc & o & w' & -> & Hk & Hf & Ho); [apply map_entries_NoDup|done|by intros h ?%Hin|].
  destruct acc as [n v]. exists n, v, o, w'. split; [done|]. split; [by intros h ?%Hin; apply Hf|]. split.
  { intros h Hn. rewrite Ho; [done|]. intros [x Hx]%Hin. congruence. }
  apply fix_loop_check; [apply map_entries_NoDup|]. intros h ([h' x'] & -> & He)%list_elem_of_fmap. apply elem_of_map_entries in He. cbn [fst].
  exists x'. split; [done|]. intros k H0. assert (Hw : is_Some (mapWallet w !! h')).
  { destruct (mapWallet w !! h') eqn:Ew; [by eexists|]. rewrite Ho in He; [congruence|]. rewrite Hin, Ew. by intros []. }
  destruct (Hf h' ltac:(by apply Hin)) as (x & Hx & Hm). rewrite He in Hm. destruct Hm as [Ht Hs]. rewrite Hs by done.
  unfold right_flag at 2. unfold looked_at, index_of. rewrite Ht, (mine_at_keys depth w w') by done. rewrite Hs by done.
  unfold right_flag, looked_at, index_of. by destruct (_ && _).
Qed.

(** ** Witnesses *)

(** A transaction that spends the payment in the wallet *)
Definition toy_spend : CTransaction :=
  mkTx 1 2000 [mkTxIn (mkOutPoint toy_payment_hash 0) [1; 9] 0xffffffff] [mkTxOut 400 (33 :: toy_pub ++ [OP_CHECKSIG])] 0.

Lemma toy_funds_money : funds_ok toy_funds.
Proof. intros h x [-> ->]%toy_funds_lookup. split; [repeat constructor; cbn; lia|by vm_compute]. Qed.

Lemma committed_coins_spent_witness :
  exists w', CommitTransaction (SO := toy_secrets) (C := toy_cipher) (H := toy_hash) toy_gen toy_der 7 5 toy_params toy_chain toy_options
      (fun _ => true) (CWalletTx_of toy_spend) (mkReserve 1 []) toy_funds = Some (true, CReserveKey_new, w') /\
    spent w' toy_payment_hash 0 = Some true.
Proof.
  destruct (committed_coins_spent (SO := toy_secrets) (C := toy_cipher) (H := toy_hash) toy_gen toy_der 7 5 toy_params toy_chain toy_options
    (fun _ => true) (CWalletTx_of toy_spend) (mkReserve 1 []) toy_funds) as (w' & Ec & _ & Hs & _).
  - vm_compute. reflexivity.
  - reflexivity.
  - reflexivity.
  - apply toy_funds_money.
  - split; [repeat constructor; cbn; lia|by vm_compute].
  - repeat constructor; cbn; lia.
  - repeat constructor. vm_compute. by eexists.
  - exists w'. split; [exact Ec|]. rewrite Hs by (try lia; intros Heq; vm_compute in Heq; discriminate). vm_compute. reflexivity.
Defined.

Lemma fix_spent_coins_witness :
  exists n v o w', FixSpentCoins (SO := toy_secrets) (C := toy_cipher) (H := toy_hash) 5 toy_chain false toy_funds = Some (n, v, o, w') /\
    is_Some (mapWallet w' !! toy_payment_hash).
Proof.
  destruct (fix_spent_coins (SO := toy_secrets) (C := toy_cipher) (H := toy_hash) 5 toy_chain toy_funds) as (n & v & o & w' & Ef & Hf & _).
  - intros h x [-> ->]%toy_funds_lookup. reflexivity.
  - exists n, v, o, w'. split; [exact Ef|]. destruct (Hf toy_payment_hash) as (x & Hx & Hm); [vm_compute; by eexists|].
    apply toy_funds_lookup in Hx as [_ ->]. destruct (mapWallet w' !! toy_payment_hash); [by eexists|]. vm_compute in Hm. discriminate.
Defined.

(** The block that confirms a transaction makes its outputs unspent again, although
    another transaction of the wallet spends them. *)
Lemma confirmation_unspends :
  let add := AddToWallet (SO := toy_secrets) (C := toy_cipher) (H := toy_hash) toy_gen toy_der 7 5 toy_params toy_chain toy_options in
  (fun r => spent r.2 toy_payment_hash 0) <$> add (CWalletTx_of toy_spend) toy_funds = Some (Some true) /\
  (fun r => (bool_decide (is_Some (mapWallet r.2 !! CTransaction_GetHash (H := toy_hash) toy_spend)), spent r.2 toy_payment_hash 0)) <$>
    ('(_, w) ← add (CWalletTx_of toy_spend) toy_funds; add toy_wtx w) = Some (true, Some false).
Proof. split; vm_compute; reflexivity. Qed.
