(* ===== verification/CreateTx.v ===== *)
(** * [CreateTransaction] of [wallet.cpp]: coins, change, signatures and the fee

    One round chooses coins for the amount and the fee, gives the change back to a key of
    the wallet, signs, and compares the fee with what the size asks for; while the fee is
    too low the next round starts with the higher one. *)

From S2P Require Import Prelude.
From S2P Require Import Uint256.
From S2P Require Import BigNum.
From S2P Require Import Serialize.
From S2P Require Import Hash.
From S2P Require Import Transaction.
From S2P Require Import Script.
From S2P Require Import Canonical.
From S2P Require Import Interp.
From S2P Require Import Key.
From S2P Require Import SigCheck.
From S2P Require Import Templates.
From S2P Require Import KeyStore.
From S2P Require Import Sign.
From S2P Require Import Block.
From S2P Require Import TxRules.
From S2P Require Import TxDB.
From S2P Require Import Chain.
From S2P Require Import Connect.
From S2P Require Import MemPool.
From S2P Require Import Kernel.
From S2P Require Import BlockTree.
From S2P Require Import Reorganize.
From S2P Require Import Support.
From S2P Require Import KeyPool.
From S2P Require Import Wallet.
From S2P Require Import WalletOps.
From S2P Require Import CoinSelect.

(** A set of coins is a [std::set] of pointers with numbers: the order of its elements
    depends on where the transactions of the wallet lie in memory. *)
Class OrderOps := order_coins : CoinsSet -> list (list Z * nat).
Class OrderLaws (OO : OrderOps) := order_coins_perm s : order_coins s ≡ₚ elements s.

(** The fee per kilobyte and the members of the wallet that [CreateTransaction] reads; the
    address for change of the charity stakes, when it is valid *)
Record SendOptions := mkSend {
  nTransactionFee : Z;
  fSplitBlock : bool;
  charity_change : option CTxDestination;
  maxsigcache_size : Z
}.

(** [CCoinControl] *)
Record CCoinControl := mkControl { destChange : CTxDestination; setSelected : gset COutPoint }.

(** The random numbers of one round: those of the three attempts of [SelectCoins], and of
    the position of the change *)
Record RoundRandom := mkRound { rnd_first : Randomness; rnd_second : Randomness; rnd_third : Randomness; rnd_position : list Z }.

Inductive sent := CT_true | CT_false | CT_throws.

Definition with_tx (tx : CTransaction) (x : CWalletTx) : CWalletTx :=
  with_merkle (mkMerkle tx (hashBlock (merkle x)) (vMerkleBranch (merkle x)) (mtx_nIndex (merkle x)) (fMerkleVerified (merkle x))) x.
Definition with_inout (ins : list CTxIn) (outs : list CTxOut) (tx : CTransaction) : CTransaction :=
  mkTx (nVersion tx) (nTime tx) ins outs (nLockTime tx).

(** The sum of what is sent, and whether it became negative before the last step *)
Fixpoint send_sum (vecSend : list (list Z * Z)) (nValue : Z) : option Z :=
  match vecSend with
  | [] => Some nValue
  | (_, v) :: vecSend => if nValue <? 0 then None else send_sum vecSend (i64 (nValue + v))
  end.

(** The outputs to the payees, each in [nSplitBlock] parts when blocks are split *)
Definition split_parts (nSplitBlock v : Z) : list Z :=
  replicate (Z.to_nat (nSplitBlock - 1)) (Z.quot v nSplitBlock) ++ [i64 (Z.quot v nSplitBlock + Z.rem v nSplitBlock)].
Definition payees (fSplitBlock : bool) (nSplitBlock : Z) (vecSend : list (list Z * Z)) : list CTxOut :=
  vecSend ≫= fun '(script, v) => (fun n => mkTxOut n script) <$> (if fSplitBlock then split_parts nSplitBlock v else [v]).

(** What is left over, when it is too little for an output, goes to the fee: the change and
    the fee *)
Definition move_to_fee (nChange nFeeRet : Z) : Z * Z :=
  let '(nChange, nFeeRet) :=
    if (nFeeRet <? MIN_TX_FEE) && (0 <? nChange) && (nChange <? CENT) then
      let nMoveToFee := Z.min nChange (MIN_TX_FEE - nFeeRet) in (i64 (nChange - nMoveToFee), i64 (nFeeRet + nMoveToFee))
    else (nChange, nFeeRet) in
  if (0 <? nChange) && (nChange <? MIN_TXOUT_AMOUNT) then (0, i64 (nFeeRet + nChange)) else (nChange, nFeeRet).

Definition insert_output {A} (n : nat) (a : A) (l : list A) : list A := take n l ++ a :: drop n l.

Section create.
Context {B : BNOps} {E : ECOps} {SO : ECSecretOps E} {P : SecpOps} {C : CipherOps} {H : HashOps} {F : Files} {G : BlockFiles}.
Context {Q : SortOps} {OO : OrderOps}.
Context (EC_KEY_generate_key : nat -> EC_KEY) (i2d_ECPrivateKey : EC_KEY -> list Z).
Context (GetTime : Z) (depth : nat) (par : Params) (s : ChainState) (opt : WalletOptions) (snd_opt : SendOptions).

(** ** [AddSupportingTransactions] *)

(** The transaction [hash]: from the wallet, from what supports a transaction of the wallet
    seen before, or from the disk; with [mapWalletPrev] afterwards *)
Definition find_supporting (w : CWallet) (hash : list Z) (mapWalletPrev : gmap (list Z) CMerkleTx) :
    option CMerkleTx * gmap (list Z) CMerkleTx :=
  match mapWallet w !! hash with
  | Some x => (Some (merkle x), foldl (fun m t => <[CTransaction_GetHash (mtx t) := t]> m) mapWalletPrev (vtxPrev x))
  | None =>
      match mapWalletPrev !! hash with
      | Some t => (Some t, mapWalletPrev)
      | None => (CMerkleTx_of <$> (txindex ← db_ReadTxIndex (txdb s) hash; read_tx (pos txindex)), mapWalletPrev)
      end
  end.

Definition COPY_DEPTH : Z := 3.

(** The loop over [vWorkQueue]; [None] where [fuel] runs out *)
Fixpoint supporting_loop (fuel : nat) (w : CWallet) (vWorkQueue : list (list Z)) (mapWalletPrev : gmap (list Z) CMerkleTx)
    (setAlreadyDone : gset (list Z)) (vtxPrev : list CMerkleTx) : option (list CMerkleTx) :=
  match vWorkQueue with
  | [] => Some vtxPrev
  | hash :: queue =>
      match fuel with
      | O => None
      | S fuel =>
          if bool_decide (hash ∈ setAlreadyDone) then supporting_loop fuel w queue mapWalletPrev setAlreadyDone vtxPrev
          else
            let setAlreadyDone := {[hash]} ∪ setAlreadyDone in
            match find_supporting w hash mapWalletPrev with
            | (None, mapWalletPrev) => supporting_loop fuel w queue mapWalletPrev setAlreadyDone vtxPrev
            | (Some tx, mapWalletPrev) =>
                let '(nDepth, tx) := SetMerkleBranch par s tx in
                supporting_loop fuel w (if nDepth <? COPY_DEPTH then queue ++ ((fun i => op_hash (prevout i)) <$> vin (mtx tx)) else queue)
                  mapWalletPrev setAlreadyDone (vtxPrev ++ [tx])
            end
      end
  end.

Definition AddSupportingTransactions (fuel : nat) (w : CWallet) (x : CWalletTx) : option CWalletTx :=
  let '(n, m) := SetMerkleBranch par s (merkle x) in
  let x := with_merkle m x in
  if n <? COPY_DEPTH then
    l ← supporting_loop fuel w ((fun i => op_hash (prevout i)) <$> vin (wtx_tx x)) ∅ ∅ [];
    Some (with_prev (rev l) x)
  else Some (with_prev [] x).

(** ** One round *)

Record SendState := mkState {
  st_wtx : CWalletTx;
  st_reserve : CReserveKey;
  st_fee : Z;
  st_wallet : CWallet;
  st_cache : CSignatureCache
}.

(** The depths of the coins, for the priority; they are remembered as verified *)
Fixpoint depth_loop (coins : list (list Z * nat)) (w : CWallet) : option CWallet :=
  match coins with
  | [] => Some w
  | (h, _) :: coins => '(_, w) ← at_tx h (GetDepthInMainChain s) w; depth_loop coins w
  end.

(** The script for a reserved key; the [assert] fails where there is none *)
Definition reserved_script (k : CReserveKey) (w : CWallet) : call (CReserveKey * CWallet) (list Z) :=
  match GetReservedKey EC_KEY_generate_key i2d_ECPrivateKey (arg_keypool opt) GetTime k (wkeys w) with
  | Returned (Some pub) (k, keys) => Returned (SetDestination (CKeyID (CPubKey_GetID pub))).2 (k, with_keys keys w)
  | Returned None (k, keys) | Thrown (k, keys) => Thrown (k, with_keys keys w)
  end.

(** The script for the change *)
Definition change_script (fAllowS4C : bool) (coinControl : option CCoinControl) (k : CReserveKey) (w : CWallet) :
    call (CReserveKey * CWallet) (list Z) :=
  match (if fAllowS4C then charity_change snd_opt else None) with
  | Some dest => Returned (SetDestination dest).2 (k, w)
  | None =>
      match coinControl with
      | Some c =>
          if bool_decide (destChange c = CNoDestination) then reserved_script k w
          else Returned (SetDestination (destChange c)).2 (k, w)
      | None => reserved_script k w
      end
  end.

(** The inputs are signed one after the other: [None] where it throws *)
Fixpoint sign_loop (w : CWallet) (coins : list (list Z * nat)) (nIn : nat) (tx : CTransaction) (c : CSignatureCache) :
    option (bool * CTransaction * CSignatureCache) :=
  match coins with
  | [] => Some (true, tx, c)
  | (h, _) :: coins =>
      x ← mapWallet w !! h;
      '(ok, tx, c) ← SignSignature_from (K := crypto_keystore (store (wkeys w))) (maxsigcache_size snd_opt) (wtx_tx x) tx nIn SIGHASH_ALL c;
      if ok : bool then sign_loop w coins (S nIn) tx c else Some (false, tx, c)
  end.

(** The fee that the size asks for *)
Definition needed_fee (nBytes : Z) (tx : CTransaction) : Z :=
  Z.max (i64 (nTransactionFee snd_opt * (1 + nBytes / 1000))) (GetMinFee 1 false GMF_SEND nBytes tx).

Definition finish_round (nBytes : Z) (st : SendState) : SendState + sent * SendState :=
  if MAX_BLOCK_SIZE_GEN / 5 <=? nBytes then inr (CT_false, st)
  else
    let nFee := needed_fee nBytes (wtx_tx (st_wtx st)) in
    if st_fee st <? nFee then inl (mkState (st_wtx st) (st_reserve st) nFee (st_wallet st) (st_cache st))
    else inr (CT_true, st).

(** The inputs and their signatures, once the coins and the outputs are known *)
Definition sign_round (coins : list (list Z * nat)) (st : SendState) : SendState + sent * SendState :=
  let tx := wtx_tx (st_wtx st) in
  let tx := with_inout ((fun '(h, n) => mkTxIn (mkOutPoint h (Z.of_nat n)) [] UINT_MAX) <$> coins) (vout tx) tx in
  match sign_loop (st_wallet st) coins 0 tx (st_cache st) with
  | None => inr (CT_throws, st)
  | Some (ok, tx, c) =>
      let st := mkState (with_tx tx (st_wtx st)) (st_reserve st) (st_fee st) (st_wallet st) c in
      if negb ok then inr (CT_false, st) else finish_round (u32 (GetSerializeSize tx_codec tx)) st
  end.

(** One round of the loop: [inl] where it goes on; [None] where the choice of the coins
    runs out of fuel or throws *)
Definition create_round (fuel : nat) (vecSend : list (list Z * Z)) (nValue nSplitBlock : Z) (fAllowS4C : bool)
    (coinControl : option CCoinControl) (rnd : RoundRandom) (st : SendState) : option (SendState + sent * SendState) :=
  let outs := payees (fSplitBlock snd_opt) nSplitBlock vecSend in
  let x := with_fFromMe 1 (with_tx (with_inout [] outs (wtx_tx (st_wtx st))) (st_wtx st)) in
  '(ok, setCoins, nValueIn, w) ← SelectCoins depth par s opt fuel (i64 (nValue + st_fee st)) (nTime (wtx_tx x)) (setSelected <$> coinControl)
    (rnd_first rnd) (rnd_second rnd) (rnd_third rnd) ∅ 0 (st_wallet st);
  let st := mkState x (st_reserve st) (st_fee st) w (st_cache st) in
  if negb ok then Some (inr (CT_false, st))
  else
    let coins := order_coins setCoins in
    w ← depth_loop coins w;
    let '(nChange, nFee) := move_to_fee (i64 (nValueIn - nValue - st_fee st)) (st_fee st) in
    if 0 <? nChange then
      match change_script fAllowS4C coinControl (st_reserve st) w with
      | Thrown (k, w) => Some (inr (CT_throws, mkState x k nFee w (st_cache st)))
      | Returned script (k, w) =>
          let '(r, _) := rand_int (Z.of_nat (length outs)) (rnd_position rnd) in
          let outs := insert_output (Z.to_nat r) (mkTxOut nChange script) outs in
          Some (sign_round coins (mkState (with_tx (with_inout [] outs (wtx_tx x)) x) k nFee w (st_cache st)))
      end
    else
      let '(k, keys) := reserve_ReturnKey (st_reserve st) (wkeys w) in
      Some (sign_round coins (mkState x k nFee (with_keys keys w) (st_cache st))).

(** ** [CreateTransaction]

    [rounds] bounds the rounds, [fuel] the walks that decide which transactions are trusted,
    [queue] the queue of the supporting transactions. *)

Fixpoint create_loop (rounds fuel : nat) (vecSend : list (list Z * Z)) (nValue nSplitBlock : Z) (fAllowS4C : bool)
    (coinControl : option CCoinControl) (rnd : nat -> RoundRandom) (st : SendState) : option (sent * SendState) :=
  match rounds with
  | O => None
  | S rounds =>
      r ← create_round fuel vecSend nValue nSplitBlock fAllowS4C coinControl (rnd rounds) st;
      match r with
      | inl st => create_loop rounds fuel vecSend nValue nSplitBlock fAllowS4C coinControl rnd st
      | inr r => Some r
      end
  end.

Definition CreateTransaction (rounds fuel queue : nat) (vecSend : list (list Z * Z)) (nSplitBlock : Z) (fAllowS4C : bool)
    (coinControl : option CCoinControl) (rnd : nat -> RoundRandom) (wtxNew : CWalletTx) (k : CReserveKey) (nFeeRet : Z)
    (w : CWallet) (c : CSignatureCache) : option (sent * SendState) :=
  match send_sum vecSend 0 with
  | None => Some (CT_false, mkState wtxNew k nFeeRet w c)
  | Some nValue =>
      if match vecSend with [] => true | _ => false end || (nValue <? 0) then Some (CT_false, mkState wtxNew k nFeeRet w c)
      else
        '(r, st) ← create_loop rounds fuel vecSend nValue (Z.max 1 nSplitBlock) fAllowS4C coinControl rnd
                     (mkState (BindWallet wtxNew) k (nTransactionFee snd_opt) w c);
        match r with
        | CT_true =>
            x ← AddSupportingTransactions queue (st_wallet st) (st_wtx st);
            let x := mkWtx (merkle x) (vtxPrev x) (mapValue x) (vOrderForm x) 1 (nTimeReceived x) (nTimeSmart x) (fFromMe x)
                       (strFromAccount x) (vfSpent x) (nOrderPos x) (cache x) in
            Some (CT_true, mkState x (st_reserve st) (st_fee st) (st_wallet st) (st_cache st))
        | _ => Some (r, st)
        end
  end.

(** ** [SendMoney] *)

Inductive send_error := SE_locked | SE_staking_only | SE_fee | SE_failed | SE_aborted | SE_rejected | SE_throws.

(** [fAsk] stands for the answer of the user to the fee when [fAskFee], [accept] for the
    memory pool; [None] is the empty text.  A [CReserveKey] that goes out of scope returns
    its key. *)
Definition SendMoney (rounds fuel queue : nat) (scriptPubKey : list Z) (nValue : Z) (fWalletUnlockMintOnly fAskFee fAllowS4C : bool)
    (fAsk : Z -> bool) (accept : CTransaction -> bool) (rnd : nat -> RoundRandom) (wtxNew : CWalletTx) (w : CWallet) (c : CSignatureCache) :
    option (option send_error * CWallet) :=
  if IsLocked (store (wkeys w)) then Some (Some SE_locked, w)
  else if fWalletUnlockMintOnly && negb fAllowS4C then Some (Some SE_staking_only, w)
  else
    '(r, st) ← CreateTransaction rounds fuel queue [(scriptPubKey, nValue)] 1 fAllowS4C None rnd wtxNew CReserveKey_new 0 w c;
    let returned := with_keys (reserve_ReturnKey (st_reserve st) (wkeys (st_wallet st))).2 (st_wallet st) in
    match r with
    | CT_throws => Some (Some SE_throws, returned)
    | CT_false =>
        '(nBalance, w) ← GetBalance depth par s opt fuel (st_wallet st);
        Some (Some (if nBalance <? i64 (nValue + st_fee st) then SE_fee else SE_failed),
          with_keys (reserve_ReturnKey (st_reserve st) (wkeys w)).2 w)
    | CT_true =>
        if fAskFee && negb (fAsk (st_fee st)) then Some (Some SE_aborted, returned)
        else
          '(ok, _, w) ← CommitTransaction EC_KEY_generate_key i2d_ECPrivateKey GetTime depth par s opt accept (st_wtx st) (st_reserve st) (st_wallet st);
          Some (if (ok : bool) then None else Some SE_rejected, w)
    end.
End create.
