(* ===== verification/CreateTxFacts.v ===== *)
(** * A transaction that has been created pays what was asked, from coins of the wallet,
    with the fee that its size asks for *)

From stdpp Require Import sorting.
From S2P Require Import Prelude.
From S2P Require Import Uint256.
From S2P Require Import BigNum.
From S2P Require Import Serialize.
From S2P Require Import Hash.
From S2P Require Import Transaction.
From S2P Require Import Script.
From S2P Require Import Canonical.
From S2P Require Import Interp.
From S2P Require Import InterpSim.
From S2P Require Import Key.
From S2P Require Import SigCheck.
From S2P Require Import Templates.
From S2P Require Import KeyStore.
From S2P Require Import Sign.
From S2P Require Import Block.
From S2P Require Import TxRules.
From S2P Require Import TxDB.
From S2P Require Import Chain.
From S2P Require Import Connect.
From S2P Require Import ConnectFacts.
From S2P Require Import BlockConnect.
From S2P Require Import MemPool.
From S2P Require Import Kernel.
From S2P Require Import BlockTree.
From S2P Require Import Reorganize.
From S2P Require Import Support.
From S2P Require Import KeyPool.
From S2P Require Import KeyPoolFacts.
From S2P Require Import Wallet.
From S2P Require Import WalletFacts.
From S2P Require Import WalletOps.
From S2P Require Import WalletOpsFacts.
From S2P Require Import CoinSelect.
From S2P Require Import CoinSelectFacts.
From S2P Require Import CreateTx.

(** ** Wallets that differ in what is cached *)

Section alike.
Context {E : ECOps} {SO : ECSecretOps E} {C : CipherOps} {H : HashOps}.
Context (depth : nat) (par : Params) (s : ChainState) (opt : WalletOptions).
Implicit Types w : CWallet.

Lemma IsFromMe_same m w tx : same_txs m (mapWallet w) -> IsFromMe_tx depth (with_txs m w) tx = IsFromMe_tx depth w tx.
Proof. intros Hm. unfold IsFromMe_tx. by rewrite (GetDebit_same depth m w). Qed.
Lemma debit_value_wallet m w f x : same_txs m (mapWallet w) -> debit_value depth (with_txs m w) f x = debit_value depth w f x.
Proof. intros Hm. unfold debit_value. by rewrite !(GetDebit_same depth m w). Qed.

Lemma trusted_value_wallet m w fuel x :
  same_txs m (mapWallet w) -> trusted_value depth par s opt (with_txs m w) fuel x = trusted_value depth par s opt w fuel x.
Proof.
  intros Hm. unfold trusted_value, from_me_value. rewrite (debit_value_wallet m w) by done.
  assert (Hl : forall queue, trusted_loop_value depth par s (with_txs m w) fuel x queue = trusted_loop_value depth par s w fuel x queue).
  { induction fuel as [|fuel IH]; intros [|p queue]; try done. cbn [trusted_loop_value]. destruct (target p x) as [t|]; [|done]. cbn [mbind option_bind].
    rewrite (IsFromMe_same m w) by done. rewrite IH. destruct (negb _); [done|]. destruct (1 <=? _); [done|]. destruct (_ <? 0); [done|].
    destruct (IsFromMe_tx depth w (mtx t)) as [b|]; [|done]. cbn [mbind option_bind]. destruct (negb b); [done|]. destruct (find_inputs _ _); [apply IH|done]. }
  by rewrite Hl.
Qed.

Lemma acyclic_same x y : same x y -> acyclic x -> acyclic y.
Proof.
  intros Hs [rank Hr]. exists rank. intros k m txin j Hk Hin Hj. rewrite <- (find_prev_same x y) in Hj by done.
  pose proof (f_equal (.!! k) (same_prev _ _ Hs)) as Hp. rewrite !list_lookup_fmap, Hk in Hp. cbn in Hp.
  apply fmap_Some in Hp as (m' & Hm' & He). apply (Hr k m' txin j Hm'); [|done]. pose proof (f_equal mtx He : mtx m = mtx m') as <-. done.
Qed.

Lemma debits_defined_same m w x y : same_txs m (mapWallet w) -> same x y -> debits_defined depth w x -> debits_defined depth (with_txs m w) y.
Proof.
  intros Hm Hs [H1 H2]. split; [by rewrite (debit_value_wallet m w), <- (debit_value_same depth w _ _ _ Hs)|].
  intros p t Ht. destruct (target_same p y x t ltac:(by symmetry) Ht) as (t' & Ht' & He). rewrite (IsFromMe_same m w) by done.
  pose proof (f_equal mtx He : mtx t' = mtx t) as <-. by eapply H2.
Qed.
Lemma money_ok_same x y : same x y -> money_ok x -> money_ok y.
Proof. intros Hs. unfold money_ok. by rewrite (same_tx _ _ Hs). Qed.

Lemma same_txs_erase m m' : same_txs m m' -> erase <$> m = erase <$> m'.
Proof.
  intros Hm. apply map_eq. intros h. rewrite !lookup_fmap. pose proof (Hm h) as Hh. inversion Hh as [x y Hxy E1 E2|E1 E2]; cbn; [by rewrite Hxy|done].
Qed.

Lemma same_erase x : same x (erase x).
Proof.
  unfold same, erase. cbn. unfold with_cache, with_spent, with_prev, with_merkle. cbn. f_equal. rewrite <- list_fmap_compose.
  by apply list_fmap_ext.
Qed.

Lemma sum_wallet_erase (n : CWalletTx -> Z) w :
  (forall x y, same x y -> n x = n y) ->
  sum_wallet n w = foldr (fun e t => n e.2 + t) 0 (map_to_list (erase <$> mapWallet w)).
Proof.
  intros Hn. unfold sum_wallet. assert (Hp : map_entries (mapWallet w) ≡ₚ map_to_list (mapWallet w)) by (unfold map_entries; apply merge_sort_Permutation).
  assert (Hsum : forall l l' : list (list Z * CWalletTx), l ≡ₚ l' -> foldr (fun e t => n e.2 + t) 0 l = foldr (fun e t => n e.2 + t) 0 l').
  { induction 1; cbn; lia. }
  rewrite (Hsum _ _ Hp), map_to_list_fmap. clear Hp. induction (map_to_list (mapWallet w)) as [|[h x] l IH]; [done|]. cbn. rewrite IH. f_equal.
  apply Hn, same_erase.
Qed.

Lemma sum_wallet_same n m w : (forall x y, same x y -> n x = n y) -> same_txs m (mapWallet w) -> sum_wallet n (with_txs m w) = sum_wallet n w.
Proof. intros Hn Hm. rewrite !sum_wallet_erase by done. cbn [with_txs mapWallet]. by rewrite (same_txs_erase _ _ Hm). Qed.

Lemma wallet_sound_same m w :
  same_txs m (mapWallet w) -> wallet_ok depth s (with_txs m w) -> wallet_sound depth s w -> wallet_sound depth s (with_txs m w).
Proof.
  intros Hm Hok (_ & Hx & Hb). split; [done|]. split.
  - intros h x Hl. cbn [with_txs mapWallet] in Hl. destruct (same_txs_lookup _ _ _ _ Hm Hl) as (y & Hy & Hs). destruct (Hx h y Hy) as (H1 & H2 & H3).
    split; [by apply (acyclic_same y); [symmetry|]|]. split; [by eapply debits_defined_same; [|symmetry|]|by apply (money_ok_same y); [symmetry|]].
  - change (unspent depth (with_txs m w) 2) with (unspent depth w 2). rewrite (sum_wallet_same _ m w); [done| |done].
    intros x y Hs. by apply unspent_same.
Qed.

(** *** Keys that say the same about the outputs of the wallet's transactions *)

Definition mine_alike w (k : WalletKeys) : Prop :=
  forall h x o, mapWallet w !! h = Some x -> o ∈ vout (wtx_tx x) -> IsMine_out depth (with_keys k w) o = IsMine_out depth w o.

Section alike_keys.
Context (w : CWallet) (k : WalletKeys) (Hk : mine_alike w k).

Lemma keys_debit f tx : GetDebit_tx depth (with_keys k w) f tx = GetDebit_tx depth w f tx.
Proof.
  unfold GetDebit_tx. generalize 0. induction (vin tx) as [|i ins IH]; intros n; cbn [debit_loop]; [done|].
  assert (GetDebit_in depth (with_keys k w) f i = GetDebit_in depth w f i) as ->.
  { unfold GetDebit_in. change (prev_out (with_keys k w) i) with (prev_out w i). destruct (prev_out w i) as [o|] eqn:Eo; [|done].
    unfold prev_out in Eo. apply bind_Some in Eo as (x & Hx & Ho). by rewrite (Hk _ x o Hx) by by eapply list_elem_of_lookup_2. }
  destruct (add_money _ _); [apply IH|done].
Qed.
Lemma keys_from_me tx : IsFromMe_tx depth (with_keys k w) tx = IsFromMe_tx depth w tx.
Proof. unfold IsFromMe_tx. by rewrite keys_debit. Qed.
Lemma keys_debit_value f x : debit_value depth (with_keys k w) f x = debit_value depth w f x.
Proof. unfold debit_value. by rewrite !keys_debit. Qed.

Lemma keys_credit_loop (g g' : CTxOut -> option Z) outs n : (forall o, o ∈ outs -> g o = g' o) -> credit_loop g outs n = credit_loop g' outs n.
Proof.
  revert n. induction outs as [|o outs IH]; intros n Hg; cbn [credit_loop]; [done|]. rewrite Hg by by left.
  destruct (g' o); [|done]. cbn [mbind option_bind]. destruct (add_money _ _); [|done]. apply IH. intros o' Ho'. apply Hg. by right.
Qed.

Section of_tx.
Context (h : list Z) (x : CWalletTx) (Hx : mapWallet w !! h = Some x).

Lemma keys_credit f : GetCredit_tx depth (with_keys k w) f (wtx_tx x) = GetCredit_tx depth w f (wtx_tx x).
Proof. apply keys_credit_loop. intros o Ho. unfold GetCredit_out. by rewrite (Hk h x o). Qed.
Lemma keys_change : GetChange_tx depth (with_keys k w) (wtx_tx x) = GetChange_tx depth w (wtx_tx x).
Proof. apply keys_credit_loop. intros o Ho. unfold GetChange_out, IsChange. by rewrite (Hk h x o). Qed.
Lemma keys_available f : available_value depth (with_keys k w) f x = available_value depth w f x.
Proof.
  unfold available_value. assert (Hin : forall o, o ∈ vout (wtx_tx x) -> IsMine_out depth (with_keys k w) o = IsMine_out depth w o) by (intros o; by apply (Hk h)).
  revert Hin. generalize 0 at 1 3. generalize 0. induction (vout (wtx_tx x)) as [|o outs IH]; intros n i Hin; cbn [available_loop]; [done|].
  destruct (IsSpent x i) as [b|]; [|done]. cbn [mbind option_bind]. unfold GetCredit_out. rewrite Hin by by left.
  destruct (if b then Some n else _) as [n'|]; [|done]. apply IH. intros o' Ho'. apply Hin. by right.
Qed.
Lemma keys_unspent f : unspent depth (with_keys k w) f x = unspent depth w f x.
Proof.
  unfold unspent. assert (Hin : forall o, o ∈ vout (wtx_tx x) -> IsMine_out depth (with_keys k w) o = IsMine_out depth w o) by (intros o; by apply (Hk h)).
  revert Hin. generalize 0. induction (vout (wtx_tx x)) as [|o outs IH]; intros i Hin; cbn [unspent_loop]; [done|].
  rewrite Hin by by left. rewrite IH; [done|]. intros o' Ho'. apply Hin. by right.
Qed.
Lemma keys_cache_ok : cache_ok depth s w x -> cache_ok depth s (with_keys k w) x.
Proof. intros []. split; rewrite ?keys_debit, ?keys_credit, ?keys_change, ?keys_available; done. Qed.
End of_tx.

Lemma keys_sound : wallet_sound depth s w -> wallet_sound depth s (with_keys k w).
Proof.
  intros (Hw & Hx & Hb). split; [|split].
  - intros h x Hl. change (mapWallet w !! h = Some x) in Hl. destruct (Hw h x Hl). split; [done|by apply (keys_cache_ok h)].
  - intros h x Hl. change (mapWallet w !! h = Some x) in Hl. destruct (Hx h x Hl) as (Ha & [H1 H2] & Hm). split; [done|]. split; [|done]. split.
    + by rewrite keys_debit_value.
    + intros p m Hp. rewrite keys_from_me. by eapply H2.
  - assert (sum_wallet (unspent depth (with_keys k w) 2) (with_keys k w) = sum_wallet (unspent depth w 2) w) as ->; [|done].
    unfold sum_wallet. change (mapWallet (with_keys k w)) with (mapWallet w).
    assert (Hin : forall e, e ∈ map_entries (mapWallet w) -> mapWallet w !! e.1 = Some e.2) by (intros [h x]; apply elem_of_map_entries).
    induction (map_entries (mapWallet w)) as [|[h x] l IH]; [done|]. cbn [foldr snd]. rewrite (keys_unspent h x) by apply (Hin (h, x)), list_elem_of_here.
    rewrite IH; [done|]. intros e He. apply Hin. by right.
Qed.

Lemma keys_trusted fuel x : trusted_value depth par s opt (with_keys k w) fuel x = trusted_value depth par s opt w fuel x.
Proof.
  unfold trusted_value, from_me_value. rewrite keys_debit_value. assert (Hl : forall queue,
    trusted_loop_value depth par s (with_keys k w) fuel x queue = trusted_loop_value depth par s w fuel x queue).
  { induction fuel as [|fuel IH]; intros [|p queue]; try done. cbn [trusted_loop_value]. destruct (target p x) as [t|]; [|done]. cbn [mbind option_bind].
    rewrite keys_from_me, IH. destruct (negb _); [done|]. destruct (1 <=? _); [done|]. destruct (_ <? 0); [done|].
    destruct (IsFromMe_tx depth w (mtx t)) as [b|]; [|done]. cbn [mbind option_bind]. destruct (negb b); [done|]. destruct (find_inputs _ _); [apply IH|done]. }
  by rewrite Hl.
Qed.
End alike_keys.
End alike.

(** ** New keys *)

(** The addresses that [IsMine] looks up for a script *)
Fixpoint key_ids {E : ECOps} {H : HashOps} {K : CKeyStore} (depth : nat) (scriptPubKey : list Z) : list (list Z) :=
  let '(ok, whichType, vSolutions) := Solver scriptPubKey in
  let first := default [] (head vSolutions) in
  if negb ok then []
  else
    match whichType with
    | TX_NONSTANDARD | TX_NULL_DATA => []
    | TX_PUBKEY => [CPubKey_GetID first]
    | TX_PUBKEYHASH => [uint_of_vch WIDTH160 first]
    | TX_SCRIPTHASH =>
        match GetCScript (uint_of_vch WIDTH160 first), depth with
        | Some subscript, S depth => key_ids depth subscript
        | _, _ => []
        end
    | TX_MULTISIG => CPubKey_GetID <$> removelast (tail vSolutions)
    end.

(** Stores that agree on them, on the redeem scripts and on what is watched *)
Lemma IsMine_agree {E : ECOps} {H : HashOps} (K K' : CKeyStore) depth script :
  (forall id, GetCScript (CKeyStore := K') id = GetCScript (CKeyStore := K) id) ->
  (forall sc, HaveWatchOnly (CKeyStore := K') sc = HaveWatchOnly (CKeyStore := K) sc) ->
  (forall id, id ∈ key_ids (K := K) depth script -> HaveKey (CKeyStore := K') id = HaveKey (CKeyStore := K) id) ->
  IsMine (K := K') depth script = IsMine (K := K) depth script.
Proof.
  intros Hc Hw. revert script. induction depth as [|depth IH]; intros script; cbn [IsMine key_ids]; rewrite Hw;
    destruct (Solver script) as [[ok which] sols]; (destruct ok; cbn [negb]; [|done]); destruct which; try done; intros Hk.
  all: try (rewrite (Hk _ ltac:(by left)); done).
  all: try (rewrite Hc; destruct (GetCScript _); done || (by rewrite IH)).
  all: assert (Hn : forall n, foldl (fun n pubkey => if HaveKey (CKeyStore := K') (CPubKey_GetID pubkey) then u32 (n + 1) else n) n (removelast (tail sols)) =
      foldl (fun n pubkey => if HaveKey (CKeyStore := K) (CPubKey_GetID pubkey) then u32 (n + 1) else n) n (removelast (tail sols)));
    [induction (removelast (tail sols)) as [|k l IHl]; intros n; [done|]; cbn [foldl]; rewrite (Hk (CPubKey_GetID k)) by (cbn; by left);
     apply IHl; intros id Hid; apply Hk; cbn; by right|].
  all: unfold HaveKeys; by rewrite Hn.
Qed.

Section pool.
Context {E : ECOps} {SO : ECSecretOps E} {C : CipherOps} {H : HashOps}.
Context (gen : nat -> EC_KEY) (i2d : EC_KEY -> list Z) (now : Z).

(** A step of the wallet's keys: a new key, or a change that leaves the store and the keys
    still to be made as they are *)
Definition key_step (k k' : WalletKeys) : Prop :=
  (store k' = store k /\ drawn k' = drawn k) \/ exists pub, GenerateNewKey gen i2d now k = Returned pub k'.
(** [k'] is [k] with keys made since *)
Definition grown : WalletKeys -> WalletKeys -> Prop := rtc key_step.

(** What a store gains: keys with addresses in [P] *)
Record store_grown (P : list Z -> Prop) (s s' : CCryptoKeyStore) : Prop := {
  sg_scripts : mapScripts (basic s') = mapScripts (basic s);
  sg_watch : setWatchOnly (basic s') = setWatchOnly (basic s);
  sg_kept id : crypto_HaveKey s id = true -> crypto_HaveKey s' id = true;
  sg_new id : crypto_HaveKey s' id = true -> crypto_HaveKey s id = true \/ P id
}.
Lemma store_grown_refl P s : store_grown P s s.
Proof. split; auto. Qed.
Lemma store_grown_trans P s s' s'' : store_grown P s s' -> store_grown P s' s'' -> store_grown P s s''.
Proof. intros [A1 A2 A3 A4] [B1 B2 B3 B4]. split; [congruence|congruence|auto|]. intros id Hid. destruct (B4 id Hid); auto. Qed.
Lemma store_grown_mono (P Q : list Z -> Prop) s s' : (forall id, P id -> Q id) -> store_grown P s s' -> store_grown Q s s'.
Proof. intros HPQ [A1 A2 A3 A4]. split; [done|done|done|]. intros id Hid. destruct (A4 id Hid); auto. Qed.

Lemma crypto_AddKey_grown s key b s' :
  crypto_AddKey s key = Some (b, s') -> store_grown (fun id => exists pub, GetPubKey key = Some pub /\ id = CPubKey_GetID pub) s s'.
Proof.
  unfold crypto_AddKey. destruct (GetPubKey key) as [pub|] eqn:Ep; [|done]. cbn [mbind option_bind]. case_goal; [intros [= _ <-]; apply store_grown_refl|].
  assert (Hid : forall (A : Type) (m : gmap (list Z) A) (v : A) id, is_Some (<[CPubKey_GetID pub := v]> m !! id) <-> CPubKey_GetID pub = id \/ is_Some (m !! id)).
  { intros A m v id. apply lookup_insert_is_Some'. }
  destruct (IsCrypted s) eqn:Ec; cbn [negb].
  - destruct (IsLocked s); [intros [= _ <-]; apply store_grown_refl|]. destruct (GetSecret key) as [[secret fc]|]; [|done]. cbn [mbind option_bind].
    destruct (EncryptSecret _ _ _) as [cr|]; [|intros [= _ <-]; apply store_grown_refl]. unfold AddCryptedKey, SetCrypted.
    unfold IsCrypted in Ec. rewrite Ec. cbn [negb]. intros [= _ <-]. split; [done|done|..]; intros id; unfold crypto_HaveKey, IsCrypted;
      cbn [fUseCrypto mapCryptedKeys]; rewrite Ec; cbn [negb]; rewrite !bool_decide_eq_true, Hid; [by right|]. intros [<-|?]; [right; by exists pub|by left].
  - unfold basic_AddKey. destruct (GetSecret key) as [[secret fc]|]; [|done]. cbn [mbind option_bind]. rewrite Ep. cbn [mbind option_bind].
    intros [= _ <-]. split; [done|done|..]; intros id; unfold crypto_HaveKey, IsCrypted in *; cbn [fUseCrypto basic with_basic]; rewrite Ec; cbn [negb];
      unfold basic_HaveKey; cbn [mapKeys]; rewrite !bool_decide_eq_true, Hid; [by right|]. intros [<-|?]; [right; by exists pub|by left].
Qed.

(** The address of key [n] or of a later one *)
Definition address_from (n : nat) (id : list Z) : Prop := exists m c pub, (n <= m)%nat /\ key_of gen m c pub /\ id = CPubKey_GetID pub.

Lemma key_step_store k k' : key_step k k' -> store_grown (address_from (drawn k)) (store k) (store k') /\ (drawn k <= drawn k')%nat.
Proof.
  intros [[Hs Hd]|[pub Hg]]; [rewrite Hs, Hd; split; [apply store_grown_refl|done]|]. unfold GenerateNewKey in Hg. cbv zeta in Hg.
  set (c := CanSupportFeature _ k) in Hg. set (k1 := if c then _ else _) in Hg.
  assert (F : store k1 = store k /\ drawn k1 = (drawn k + 1)%nat).
  { subst k1. destruct c; [|done]. destruct (SetMinVersion_frame FEATURE_COMPRPUBKEY false (with_drawn (drawn k + 1) k)) as (-> & _ & -> & _). done. }
  destruct (GetPubKey _) as [pub'|] eqn:Ep; [|done]. unfold wallet_AddKey in Hg. rewrite Ep in Hg. cbn [mbind option_bind] in Hg.
  match type of Hg with context [crypto_AddKey ?s ?key] => destruct (crypto_AddKey s key) as [[ok s']|] eqn:Ea; [|done]; cbn [mbind option_bind] in Hg end.
  apply crypto_AddKey_grown in Ea. cbn [store with_metadata] in Ea. rewrite (proj1 F) in Ea.
  assert (Hfin : store k' = s' /\ drawn k' = drawn k1).
  { cbv zeta in Hg. destruct ok; cbn [negb] in Hg; [|done]. case_hyp Hg; [by injection Hg as _ <-|].
    match type of Hg with context [let '(_, _) := ?x in _] => destruct x as [ok d] end. destruct ok; [|done]. by injection Hg as _ <-. }
  destruct Hfin as [-> ->]. split; [|lia]. eapply store_grown_mono; [|exact Ea]. intros id (pub0 & Hp & ->). rewrite Ep in Hp. injection Hp as <-.
  exists (drawn k), c, pub'. split; [done|]. by split.
Qed.

Lemma grown_store k k' : grown k k' -> store_grown (address_from (drawn k)) (store k) (store k') /\ (drawn k <= drawn k')%nat.
Proof.
  induction 1 as [k|k k1 k' Hs _ [IH Hd]]; [split; [apply store_grown_refl|done]|]. apply key_step_store in Hs as [Hs Hd1]. split; [|lia].
  eapply store_grown_trans; [exact Hs|]. eapply store_grown_mono; [|exact IH]. intros id (m & c & pub & Hm & Hp). exists m, c, pub. split; [lia|done].
Qed.

Lemma grown_same k k' : store k' = store k -> drawn k' = drawn k -> grown k k'.
Proof. intros Hs Hd. apply rtc_once. by left. Qed.

Lemma topup_grown n t keys keys' : topup_loop gen i2d n t now keys = Returned tt keys' -> grown keys keys'.
Proof.
  revert keys. induction n as [|n IH]; intros keys; cbn [topup_loop]; [by intros [= <-]|]. case_goal; [|by intros [= <-]].
  destruct (GenerateNewKey gen i2d now keys) as [pub k1|k1] eqn:Eg; [|done]. cbn [call_bind].
  destruct (WritePool _ _ _) as [ok d]. destruct (negb ok); [done|]. intros Ht%IH. eapply rtc_l; [right; by exists pub|].
  etransitivity; [|exact Ht]. by apply grown_same.
Qed.

Lemma TopUpKeyPool_grown keypool n keys b keys' : TopUpKeyPool gen i2d keypool n now keys = Returned b keys' -> grown keys keys'.
Proof.
  unfold TopUpKeyPool. destruct (IsLocked _); [by intros [= _ <-]|]. destruct (topup_loop _ _ _ _ _ _) as [[] k1|k1] eqn:Et; [|done].
  cbn [call_bind]. intros [= _ <-]. by eapply topup_grown.
Qed.

Lemma Reserve_grown keypool keys kp i keys' : ReserveKeyFromKeyPool gen i2d keypool now keys = Returned kp (i, keys') -> grown keys keys'.
Proof.
  unfold ReserveKeyFromKeyPool. destruct (if negb (IsLocked _) then _ else _) as [b k1|k1] eqn:Et; [|done].
  assert (Hg : grown keys k1) by (destruct (negb _); [by eapply TopUpKeyPool_grown|by injection Et as _ <-]).
  destruct (pool_items _) as [|j l]; [by intros [= _ _ <-]|]. destruct (ReadPool _ _); [|done]. clear Et.
  do 2 (case_goal; [done|]).
  intros [= _ _ <-]. etransitivity; [exact Hg|by apply grown_same].
Qed.

Lemma GetReservedKey_grown keypool k keys r k' keys' :
  GetReservedKey gen i2d keypool now k keys = Returned r (k', keys') -> grown keys keys'.
Proof.
  unfold GetReservedKey. assert (Hend : forall st : CReserveKey * WalletKeys, grown keys st.2 -> forall ok : bool,
    (if negb ok then Returned None st else if negb (CPubKey_IsValid (rk_vchPubKey st.1)) then Thrown st else Returned (Some (rk_vchPubKey st.1)) st) =
      Returned r (k', keys') -> grown keys keys').
  { intros st Hg ok. destruct (negb ok); [by intros [= _ ->]|]. destruct (negb _); [done|]. by intros [= _ ->]. }
  destruct (rk_nIndex k =? -1); [|by apply (Hend (k, keys))]. destruct (ReserveKeyFromKeyPool _ _ _ _ _) as [kp [i k1]|[i k1]] eqn:Er; [|done].
  apply Reserve_grown in Er. destruct (negb (i =? -1)); [by apply (Hend (_, k1))|]. destruct (CPubKey_IsValid _); by apply (Hend (_, k1)).
Qed.

Lemma ReturnKey_grown k keys : grown keys (reserve_ReturnKey k keys).2.
Proof. apply grown_same; unfold reserve_ReturnKey; cbn [snd]; by destruct (negb _). Qed.
End pool.

(** ** Amounts *)

Lemma total_value_app l l' : total_value (l ++ l') = total_value l + total_value l'.
Proof. unfold total_value. induction l as [|o l IH]; [done|]. cbn. rewrite IH. lia. Qed.

Definition send_total (vecSend : list (list Z * Z)) : Z := foldr (fun e t => e.2 + t) 0 vecSend.

Lemma send_total_nonneg vecSend : Forall (fun e => 0 <= e.2) vecSend -> 0 <= send_total vecSend.
Proof. induction 1; cbn; [lia|]. fold (send_total l). lia. Qed.

Lemma send_sum_total vecSend n :
  Forall (fun e => 0 <= e.2) vecSend -> 0 <= n -> n + send_total vecSend < 2 ^ 63 -> send_sum vecSend n = Some (n + send_total vecSend).
Proof.
  intros Hf. revert n. induction Hf as [|[script v] l Hv Hf IH]; intros n Hn Hb; cbn [send_sum send_total foldr snd] in *; [by rewrite Z.add_0_r|].
  fold (send_total l) in *. pose proof (send_total_nonneg l Hf). rewrite (proj2 (Z.ltb_ge n 0)) by lia. rewrite swrap_small by lia. rewrite IH by lia. f_equal. lia.
Qed.

Lemma split_parts_sum n v : 1 <= n -> 0 <= v < 2 ^ 63 -> foldr Z.add 0 (split_parts n v) = v.
Proof.
  intros Hn Hv. unfold split_parts. rewrite foldr_app. cbn [foldr].
  rewrite (Z.quot_div_nonneg v n), (Z.rem_mod_nonneg v n) by lia. pose proof (Z.div_mod v n ltac:(lia)) as Hdm. pose proof (Z.mod_pos_bound v n ltac:(lia)).
  pose proof (Z.div_pos v n ltac:(lia) ltac:(lia)). assert (v / n <= n * (v / n)) by nia. rewrite swrap_small by lia.
  assert (Hrep : forall k z, foldr Z.add z (replicate k (v / n)) = Z.of_nat k * (v / n) + z) by (induction k; intros z; cbn [replicate foldr]; [lia|]; rewrite IHk; lia).
  rewrite Hrep. rewrite Z2Nat.id by lia. nia.
Qed.

Lemma payees_total fSplit n vecSend :
  1 <= n -> Forall (fun e => 0 <= e.2) vecSend -> send_total vecSend < 2 ^ 63 -> total_value (payees fSplit n vecSend) = send_total vecSend.
Proof.
  intros Hn Hf. unfold payees. induction Hf as [|[script v] l Hv Hf IH]; intros Hb; [done|]. cbn [mbind list_bind send_total foldr snd] in *.
  fold (send_total l) in *. pose proof (send_total_nonneg l Hf). rewrite total_value_app, IH by lia. f_equal.
  assert (Ht : forall l, total_value ((fun n => mkTxOut n script) <$> l) = foldr Z.add 0 l) by (induction l0 as [|a l0 IHl]; [done|]; cbn; by rewrite <- IHl).
  rewrite Ht. destruct fSplit; [apply split_parts_sum; lia|cbn; lia].
Qed.

Lemma insert_output_total n o l : total_value (insert_output n o l) = nValue o + total_value l.
Proof.
  unfold insert_output. rewrite total_value_app. change (total_value (o :: drop n l)) with (nValue o + total_value (drop n l)).
  rewrite <- (take_drop n l) at 3. rewrite total_value_app. lia.
Qed.

Lemma move_to_fee_ok c f c' f' :
  0 <= c < 2 ^ 62 -> 0 <= f < 2 ^ 61 -> move_to_fee c f = (c', f') ->
  c' + f' = c + f /\ f <= f' /\ f' <= f + CENT /\ (c' = 0 \/ MIN_TXOUT_AMOUNT <= c').
Proof.
  intros Hc Hf. assert (HM : MIN_TX_FEE = 1000) by done. assert (HO : MIN_TXOUT_AMOUNT = 1000) by done. assert (HC : CENT = 10000) by done.
  unfold move_to_fee.
  destruct (Z.ltb_spec f MIN_TX_FEE), (Z.ltb_spec 0 c), (Z.ltb_spec c CENT); cbn [andb];
    rewrite ?(swrap_small 64 (c - _)), ?(swrap_small 64 (f + Z.min _ _)) by lia;
    repeat match goal with |- context [?a <? ?b] => destruct (Z.ltb_spec a b); cbn [andb] end;
    intros Hm; injection Hm as <- <-; rewrite ?swrap_small by lia; lia.
Qed.

Lemma GetMinFee_bound nBytes tx : GetMinFee 1 false GMF_SEND nBytes tx <= MAX_MONEY.
Proof.
  unfold GetMinFee. cbv zeta. change (negb (1 =? 1)) with false. cbn [andb].
  match goal with |- context [MoneyRange ?n] => generalize n end. intros n. destruct (MoneyRange n) eqn:En; cbn [negb]; [|lia].
  apply MoneyRange_spec in En. lia.
Qed.

Lemma needed_fee_bound o nBytes tx :
  0 <= nTransactionFee o <= MAX_MONEY -> 0 <= nBytes < MAX_BLOCK_SIZE_GEN / 5 -> needed_fee o nBytes tx <= 100 * MAX_MONEY.
Proof.
  intros Hf Hb. change (MAX_BLOCK_SIZE_GEN / 5) with 100000 in Hb. unfold needed_fee. pose proof (GetMinFee_bound nBytes tx).
  assert (0 <= nBytes / 1000 <= 99) by (split; [apply Z.div_pos; lia|]; pose proof (Z.div_lt_upper_bound nBytes 1000 100); lia).
  assert (HM : MAX_MONEY = 120000000000000) by done. rewrite swrap_small by nia. nia.
Qed.

(** ** Signatures *)

Section signing.
Context {B : BNOps} {H : HashOps} {HL : HashLaws H} {E : ECOps} {EL : ECLaws E} {P : SecpOps} {K : CKeyStore}.

(** What signing input [n] leaves as it is *)
Record signs (n : nat) (tx tx' : CTransaction) : Prop := {
  sg_time : nTime tx' = nTime tx;
  sg_out : vout tx' = vout tx;
  sg_prevout : prevout <$> vin tx' = prevout <$> vin tx;
  sg_others m : m <> n -> vin tx' !! m = vin tx !! m;
  sg_hash code m t : SignatureHash code tx' m t = SignatureHash code tx m t
}.
#[local] Instance signs_preorder n : PreOrder (signs n).
Proof.
  split; [by split|]. intros x y z [A0 A1 A2 A3 A4] [B0 B1 B2 B3 B4]. split; [congruence..| |].
  - intros m Hm. by rewrite B3, A3.
  - intros code m t. by rewrite B4, A4.
Qed.

Lemma with_scriptSig_signs tx n script : signs n tx (with_scriptSig tx n script).
Proof.
  split; [done|done| | |].
  - cbn. apply list_eq. intros i. rewrite !list_lookup_fmap.
    destruct (decide (i = n)) as [->|Hi]; [rewrite list_lookup_alter_eq|by rewrite list_lookup_alter_ne]. by destruct (vin tx !! n).
  - intros m Hm. cbn. by rewrite list_lookup_alter_ne.
  - intros code m t. apply sighash_with_scriptSig.
Qed.

(** The check of an input against the output it spends, under the strict rules *)
Definition input_check (tx : CTransaction) (n : nat) (o : CTxOut) : CScriptCheck := mkCheck (scriptPubKey o) tx n STRICT_FLAGS 0.

(** An input that verifies does so whatever is signed besides. *)
Lemma input_check_signs tx tx' n m o : signs m tx tx' -> m <> n -> script_ok (input_check tx n o) = true -> script_ok (input_check tx' n o) = true.
Proof.
  intros Hs Hm. unfold script_ok, input_check. cbn [chk_txTo chk_nIn chk_nHashType chk_nFlags chk_scriptPubKey].
  rewrite (sg_others _ _ _ Hs n) by done. destruct (vin tx !! n) as [i|]; [|done]. intros <-.
  apply (sim_VerifyScript (fun _ _ => True)); [|done]. intros sig key code [] [] _. split; [|done]. cbn [fst].
  unfold CheckSig_plain. destruct (SetPubKey CKey_Reset key) as [[] k]; [|done]. destruct (GetPubKey k) as [pub|]; [|done]. cbn [mbind option_bind].
  destruct (negb _); [done|]. destruct (last sig); [|done]. destruct (_ && _); [done|]. by rewrite (sg_hash _ _ _ Hs).
Qed.

Lemma VerifyScript_check maxsize tx n i o c :
  vin tx !! n = Some i -> cache_valid c ->
  (VerifyScript maxsize (scriptSig i) (scriptPubKey o) tx n STRICT_FLAGS 0 c).1 = script_ok (input_check tx n o) /\
  cache_valid (VerifyScript maxsize (scriptSig i) (scriptPubKey o) tx n STRICT_FLAGS 0 c).2.
Proof.
  intros Hi Hc. destruct (run_check_spec (mkParams false 0 [] 0 0 0 maxsize 0 false 0 0 0) (input_check tx n o) c Hc) as (E1 & E2 & _).
  unfold run_check, input_check in E1, E2. cbn [chk_txTo chk_nIn chk_nHashType chk_nFlags chk_scriptPubKey maxsigcache] in E1, E2.
  rewrite Hi in E1, E2. by split.
Qed.

Lemma SignSignature_ok maxsize o tx n t c b tx' c' :
  cache_valid c -> SignSignature maxsize (scriptPubKey o) tx n t c = Some (b, tx', c') ->
  signs n tx tx' /\ cache_valid c' /\ (b = true -> script_ok (input_check tx' n o) = true).
Proof.
  intros Hc. unfold SignSignature. destruct (Nat.leb_spec (length (vin tx)) n) as [|Hn]; [done|]. intros ([[ok sig] which] & _ & Hs)%bind_Some.
  pose proof (with_scriptSig_signs tx n sig) as H1. destruct (negb ok); [by injection Hs as <- <- <-|].
  assert (Hend : forall tx1 sig1, signs n tx tx1 -> (exists i, vin tx1 !! n = Some i /\ scriptSig i = sig1) ->
    (let '(b, c) := VerifyScript maxsize sig1 (scriptPubKey o) tx1 n STRICT_FLAGS 0 c in Some (b, tx1, c)) = Some (b, tx', c') ->
    signs n tx tx' /\ cache_valid c' /\ (b = true -> script_ok (input_check tx' n o) = true)).
  { intros tx1 sig1 Hs1 (i & Hi & <-) Hv. destruct (VerifyScript_check maxsize tx1 n i o c Hi Hc) as [E1 E2].
    destruct (VerifyScript maxsize (scriptSig i) (scriptPubKey o) tx1 n STRICT_FLAGS 0 c) as [b1 c1]. cbn [fst snd] in E1, E2. injection Hv as -> -> ->. split; [done|]. split; [done|]. by intros <-. }
  assert (Hin : forall tx1 s1, signs n tx tx1 -> exists i, vin (with_scriptSig tx1 n s1) !! n = Some i /\ scriptSig i = s1).
  { intros tx1 s1 Hs1. pose proof (f_equal length (sg_prevout _ _ _ Hs1)) as Hl. rewrite !length_fmap in Hl.
    destruct (lookup_lt_is_Some_2 (vin tx1) n) as [i Hi]; [lia|]. exists (with_sig s1 i). split; [|done]. cbn. by rewrite list_lookup_alter_eq, Hi. }
  destruct (bool_decide _).
  - apply bind_Some in Hs as ([[ok2 sig2] which2] & _ & Hs). destruct (negb _).
    + injection Hs as <- <- <-. split; [|done]. etransitivity; [exact H1|]. apply with_scriptSig_signs.
    + eapply Hend; [|by apply (Hin (with_scriptSig tx n sig))|exact Hs]. etransitivity; [exact H1|]. apply with_scriptSig_signs.
  - eapply Hend; [exact H1|by apply (Hin tx)|exact Hs].
Qed.
End signing.

Section sign_loop.
Context {B : BNOps} {H : HashOps} {HL : HashLaws H} {E : ECOps} {EL : ECLaws E} {SO : ECSecretOps E} {P : SecpOps} {C : CipherOps}.
Context (o : SendOptions).

(** Input [k] spends an output of the transaction [h] of the wallet, and verifies. *)
Definition input_signed (w : CWallet) (tx : CTransaction) (k : nat) (h : list Z) : Prop :=
  exists x i out, mapWallet w !! h = Some x /\ vin tx !! k = Some i /\ vout (wtx_tx x) !! Z.to_nat (op_n (prevout i)) = Some out /\
    script_ok (input_check tx k out) = true.

Lemma sign_inputs_ok w coins n tx c b tx' c' :
  cache_valid c -> sign_loop o w coins n tx c = Some (b, tx', c') ->
  vout tx' = vout tx /\ prevout <$> vin tx' = prevout <$> vin tx /\ cache_valid c' /\
  (forall k h, (k < n)%nat -> input_signed w tx k h -> input_signed w tx' k h) /\
  (b = true -> forall k c, coins !! k = Some c -> input_signed w tx' (n + k) c.1).
Proof.
  revert n tx c. induction coins as [|[h i] coins IH]; intros n tx c Hc; cbn [sign_loop].
  { intros Hs. injection Hs as <- <- <-. by split_and!. }
  intros (x & Hx & ([[ok tx1] c1] & Hs & Hl)%bind_Some)%bind_Some. unfold SignSignature_from in Hs.
  apply bind_Some in Hs as (txin & Hi & (out & Ho & Hs)%bind_Some). destruct (negb _); [done|].
  destruct (SignSignature_ok _ out _ _ _ _ _ _ _ Hc Hs) as (Hsg & Hc1 & Hok).
  assert (Hstep : forall k h, k <> n -> input_signed w tx k h -> input_signed w tx1 k h).
  { intros k h' Hk (x' & i' & out' & H1 & H2 & H3 & H4). exists x', i', out'. rewrite (sg_others _ _ _ Hsg) by done. split_and!; try done.
    by eapply input_check_signs. }
  destruct ok.
  - destruct (IH (S n) tx1 c1 Hc1 Hl) as (E1 & E2 & Hc' & Hkeep & Hdone). split_and!.
    + by rewrite E1, (sg_out _ _ _ Hsg).
    + by rewrite E2, (sg_prevout _ _ _ Hsg).
    + done.
    + intros k h' Hk Hin. apply Hkeep; [lia|]. apply Hstep; [lia|done].
    + intros Hb [|k] c0 Hk0; cbn in Hk0; [|replace (n + S k)%nat with (S n + k)%nat by lia; by apply Hdone].
      injection Hk0 as <-. cbn [fst]. rewrite Nat.add_0_r. apply Hkeep; [lia|].
      pose proof (f_equal (.!! n) (sg_prevout _ _ _ Hsg)) as Hp. rewrite !list_lookup_fmap, Hi in Hp. cbn in Hp. apply fmap_Some in Hp as (i1 & Hi1 & Hp).
      exists x, i1, out. rewrite <- Hp. split_and!; try done. by apply Hok.
  - injection Hl as <- <- <-. split_and!; [by rewrite (sg_out _ _ _ Hsg)|by rewrite (sg_prevout _ _ _ Hsg)|done| |done].
    intros k h' Hk Hin. apply Hstep; [lia|done].
Qed.

Lemma sign_loop_time w coins n tx c b tx' c' :
  cache_valid c -> sign_loop o w coins n tx c = Some (b, tx', c') -> nTime tx' = nTime tx.
Proof.
  revert n tx c. induction coins as [|[h i] coins IH]; intros n tx c Hc; cbn [sign_loop]; [intros Hs; by injection Hs as _ <- _|].
  intros (x & Hx & ([[ok tx1] c1] & Hs & Hl)%bind_Some)%bind_Some. unfold SignSignature_from in Hs.
  apply bind_Some in Hs as (txin & Hi & (out & Ho & Hs)%bind_Some). destruct (negb _); [done|].
  destruct (SignSignature_ok _ out _ _ _ _ _ _ _ Hc Hs) as (Hsg & Hc1 & _). rewrite <- (sg_time _ _ _ Hsg).
  destruct ok; [by eapply IH|]. by injection Hl as _ <- _.
Qed.
End sign_loop.

(** ** The wallet during the rounds *)

Section rounds.
Context {B : BNOps} {E : ECOps} {SO : ECSecretOps E} {P : SecpOps} {C : CipherOps} {H : HashOps} {F : Files} {G : BlockFiles}.
Context {HL : HashLaws H} {EL : ECLaws E} {Q : SortOps} {QL : SortLaws Q} {OO : OrderOps} {OL : OrderLaws OO}.
Context (gen : nat -> EC_KEY) (i2d : EC_KEY -> list Z).
Context (GetTime : Z) (depth : nat) (par : Params) (s : ChainState) (opt : WalletOptions) (snd_opt : SendOptions).
Implicit Types w v : CWallet.

(** The wallet is sound, and [fuel] decides which of its transactions are trusted. *)
Definition ready (fuel : nat) w : Prop :=
  wallet_sound depth s w /\ forall h x, mapWallet w !! h = Some x -> is_Some (trusted_value depth par s opt w fuel x).

Lemma ready_same m w fuel : same_txs m (mapWallet w) -> wallet_ok depth s (with_txs m w) -> ready fuel w -> ready fuel (with_txs m w).
Proof.
  intros Hm Hok [Hs Ht]. split; [by apply wallet_sound_same|]. intros h x Hx. cbn [with_txs mapWallet] in Hx.
  destruct (same_txs_lookup _ _ _ _ Hm Hx) as (y & Hy & Hxy). rewrite trusted_value_wallet by done.
  rewrite (trusted_value_same depth par s opt w fuel x y Hxy). by apply (Ht h).
Qed.
Lemma ready_keys k w fuel : mine_alike depth w k -> ready fuel w -> ready fuel (with_keys k w).
Proof. intros Hk [Hs Ht]. split; [by apply keys_sound|]. intros h x Hx. rewrite keys_trusted by done. by apply (Ht h). Qed.

(** [v] is [w] later: the same transactions, and perhaps new keys *)
Definition later w v : Prop := same_txs (mapWallet v) (mapWallet w) /\ grown gen i2d GetTime (wkeys w) (wkeys v).

(** No output of the wallet's transactions is to a key that the wallet has yet to make. *)
Definition new_keys_unpaid w : Prop := forall h x o id, mapWallet w !! h = Some x -> o ∈ vout (wtx_tx x) ->
  id ∈ key_ids (K := crypto_keystore (store (wkeys w))) depth (scriptPubKey o) ->
  crypto_HaveKey (store (wkeys w)) id = true \/ ~ address_from gen (drawn (wkeys w)) id.

Lemma unpaid_alike w k : new_keys_unpaid w -> grown gen i2d GetTime (wkeys w) k -> mine_alike depth w k.
Proof.
  intros Hnew [[G1 G2 G3 G4] _]%grown_store h x o Hx Ho. unfold IsMine_out, IsMine_script. cbn [wkeys with_keys]. apply IsMine_agree.
  - intros id. cbn. unfold basic_GetCScript. by rewrite G1.
  - intros sc. cbn. unfold basic_HaveWatchOnly. by rewrite G2.
  - intros id Hid. cbn. pose proof (G3 id) as K1. pose proof (G4 id) as K2. destruct (Hnew h x o id Hx Ho Hid) as [Hh|Hn]; [by rewrite Hh, K1|].
    destruct (crypto_HaveKey (store k) id), (crypto_HaveKey (store (wkeys w)) id); naive_solver.
Qed.

Lemma later_trans w v v' : later w v -> later v v' -> later w v'.
Proof. intros [A1 A2] [B1 B2]. split; [by etransitivity|]. unfold grown in *. by etransitivity. Qed.
Lemma later_txs m v : same_txs m (mapWallet v) -> later v (with_txs m v).
Proof. intros Hm. by split. Qed.
Lemma later_keys k v : grown gen i2d GetTime (wkeys v) k -> later v (with_keys k v).
Proof. intros Hk. by split. Qed.

Section from.
Context (w : CWallet) (Hnew : new_keys_unpaid w).

Lemma IsMine_later v h x o : later w v -> mapWallet w !! h = Some x -> o ∈ vout (wtx_tx x) -> IsMine_out depth v o = IsMine_out depth w o.
Proof. intros [_ Hk] Hx Ho. exact (unpaid_alike w _ Hnew Hk h x o Hx Ho). Qed.

Lemma alike_later v k : later w v -> grown gen i2d GetTime (wkeys v) k -> mine_alike depth v k.
Proof.
  intros Hl Hk h x o Hx Ho. destruct (same_txs_lookup _ _ _ _ (proj1 Hl) Hx) as (y & Hy & Hxy). rewrite (same_tx _ _ Hxy) in Ho.
  pose proof (later_trans _ _ _ Hl (later_keys k v Hk)) as Hl'. by rewrite (IsMine_later _ h y o Hl' Hy Ho), (IsMine_later _ h y o Hl Hy Ho).
Qed.

Lemma trusted_later v fuel x : later w v -> trusted_value depth par s opt v fuel x = trusted_value depth par s opt w fuel x.
Proof.
  intros [Hm Hk]. rewrite <- (trusted_value_wallet depth par s opt (mapWallet v) w fuel x Hm).
  symmetry. rewrite <- (keys_trusted depth par s opt (with_txs (mapWallet v) w) (wkeys v)); [done|].
  apply (alike_later (with_txs (mapWallet v) w)); [by apply later_txs|exact Hk].
Qed.

Lemma spendable_later v fuel c : later w v -> spendable_coin depth par s opt v fuel c -> spendable_coin depth par s opt w fuel c.
Proof.
  intros Hl (x & o & Hx & Ho & Hn & Hs & Hm & Ht & Hg & Hv). destruct (same_txs_lookup _ _ _ _ (proj1 Hl) Hx) as (y & Hy & Hxy). exists y, o.
  rewrite (same_tx _ _ Hxy) in Ho, Hg. rewrite <- (maturity_value_same par s _ _ Hxy), <- (same_IsSpent _ _ _ Hxy).
  rewrite <- (IsMine_later v _ y o Hl Hy) by by eapply list_elem_of_lookup_2.
  rewrite <- (trusted_value_same depth par s opt w fuel _ _ Hxy), <- (trusted_later v fuel x Hl). by split_and!.
Qed.

Lemma input_signed_later v tx k h : later w v -> input_signed v tx k h -> input_signed w tx k h.
Proof.
  intros Hl (x & i & out & Hx & Hi & Ho & Hok). destruct (same_txs_lookup _ _ _ _ (proj1 Hl) Hx) as (y & Hy & Hxy).
  exists y, i, out. by rewrite <- (same_tx _ _ Hxy).
Qed.
End from.

Lemma depth_loop_ok coins w :
  wallet_ok depth s w -> Forall (fun c => is_Some (mapWallet w !! c.1)) coins ->
  exists m, depth_loop s coins w = Some (with_txs m w) /\ same_txs m (mapWallet w) /\ wallet_ok depth s (with_txs m w).
Proof.
  intros Hw Hc. revert w Hw Hc. induction coins as [|[h n] coins IH]; intros w Hw Hc; cbn [depth_loop].
  { exists (mapWallet w). split; [by destruct w|]. split; [done|]. by destruct w. }
  apply Forall_cons in Hc as [[x Hx] Hc]. cbn [fst] in Hx. unfold at_tx. rewrite Hx. cbn [mbind option_bind].
  destruct (Hw h x Hx) as [_ Hok]. pose proof (computes_depth depth s w x Hok) as Hd. cbn in Hd. destruct Hd as (x' & -> & Hs & Hx'). cbn [mbind option_bind].
  assert (Hm : same_txs (<[h := x']> (mapWallet w)) (mapWallet w)).
  { intros h'. destruct (decide (h' = h)) as [->|Hh]; [rewrite lookup_insert_eq, Hx; by constructor|].
    rewrite lookup_insert_ne by done. destruct (mapWallet w !! h'); by constructor. }
  assert (Hw' : wallet_ok depth s (with_txs (<[h := x']> (mapWallet w)) w)).
  { apply wallet_ok_same; [done| |done]. intros h' y. destruct (decide (h' = h)) as [->|Hh]; [rewrite lookup_insert_eq; intros Hy; by injection Hy as <-|].
    rewrite lookup_insert_ne by done. intros Hy. by apply (Hw h'). }
  destruct (IH _ Hw') as (m & -> & Hm' & Hok').
  { eapply Forall_impl; [exact Hc|]. intros c [y Hy]. cbn [with_txs mapWallet]. destruct (decide (c.1 = h)) as [->|Hh]; [rewrite lookup_insert_eq; by eexists|].
    rewrite lookup_insert_ne by done. by exists y. }
  exists m. split; [done|]. split; [|exact Hok']. etransitivity; [exact Hm'|exact Hm].
Qed.

Lemma change_script_ok fAllow cc k w script k' w' :
  change_script gen i2d GetTime opt snd_opt fAllow cc k w = Returned script (k', w') ->
  exists keys, w' = with_keys keys w /\ grown gen i2d GetTime (wkeys w) keys.
Proof.
  assert (Hsame : forall sc, Returned sc (k, w) = Returned script (k', w') -> exists keys, w' = with_keys keys w /\ grown gen i2d GetTime (wkeys w) keys).
  { intros sc Hs. injection Hs as _ _ <-. exists (wkeys w). split; [by destruct w|by apply grown_same]. }
  assert (Hkey : reserved_script gen i2d GetTime opt k w = Returned script (k', w') ->
    exists keys, w' = with_keys keys w /\ grown gen i2d GetTime (wkeys w) keys).
  { unfold reserved_script. destruct (GetReservedKey _ _ _ _ _ _) as [[pub|] [k1 keys]|[k1 keys]] eqn:Eg; [|done..].
    intros Hs. injection Hs as _ _ <-. exists keys. split; [done|]. by eapply GetReservedKey_grown. }
  unfold change_script. destruct (if fAllow then _ else _); [apply Hsame|]. destruct cc as [cc|]; [|exact Hkey].
  destruct (bool_decide _); [exact Hkey|apply Hsame].
Qed.

(** ** One round *)

Context (vecSend : list (list Z * Z)) (nSplitBlock : Z) (coinControl : option CCoinControl).

(** No fee exceeds this. *)
Definition FEE_BOUND : Z := 100 * MAX_MONEY.

(** A transaction that pays: its inputs are different coins of the wallet that can be
    spent and that the coin control allows, with signatures that verify; its outputs are those to the payees and perhaps
    the change; what remains is the fee, and it is enough for the size *)
Definition pays_for w fuel (tx : CTransaction) (nFee : Z) : Prop :=
  exists l coins, coins ≡ₚ coin_at <$> l /\ NoDup coins /\
    (forall c, c ∈ l -> spendable_coin depth par s opt w fuel c /\ control_allows (setSelected <$> coinControl) c) /\
    prevout <$> vin tx = (fun '(h, n) => mkOutPoint h (Z.of_nat n)) <$> coins /\
    (forall k c, coins !! k = Some c -> input_signed w tx k c.1) /\
    (vout tx = payees (fSplitBlock snd_opt) nSplitBlock vecSend \/
     exists i script nChange, MIN_TXOUT_AMOUNT <= nChange /\ vout tx = insert_output i (mkTxOut nChange script) (payees (fSplitBlock snd_opt) nSplitBlock vecSend)) /\
    coins_sum l = total_value (vout tx) + nFee /\
    needed_fee snd_opt (u32 (GetSerializeSize tx_codec tx)) tx <= nFee /\ u32 (GetSerializeSize tx_codec tx) < MAX_BLOCK_SIZE_GEN / 5.

(** What holds between the rounds *)
Record state_ok w fuel (st : SendState) : Prop := {
  so_later : later w (st_wallet st);
  so_ready : ready fuel (st_wallet st);
  so_cache : cache_valid (st_cache st);
  so_fee : 0 <= st_fee st <= FEE_BOUND
}.

(** How a round may end, when the fee was [nFee] at its start *)
Definition round_ok w fuel (nFee : Z) (r : SendState + sent * SendState) : Prop :=
  match r with
  | inl st => state_ok w fuel st /\ nFee < st_fee st
  | inr (CT_true, st) => later w (st_wallet st) /\ pays_for w fuel (wtx_tx (st_wtx st)) (st_fee st)
  | inr _ => True
  end.

Lemma finish_round_ok w fuel nFee st :
  0 <= nTransactionFee snd_opt <= MAX_MONEY -> later w (st_wallet st) -> ready fuel (st_wallet st) ->
  cache_valid (st_cache st) -> 0 <= nFee <= st_fee st ->
  (forall fee, needed_fee snd_opt (u32 (GetSerializeSize tx_codec (wtx_tx (st_wtx st)))) (wtx_tx (st_wtx st)) <= fee -> fee = st_fee st ->
     u32 (GetSerializeSize tx_codec (wtx_tx (st_wtx st))) < MAX_BLOCK_SIZE_GEN / 5 -> pays_for w fuel (wtx_tx (st_wtx st)) fee) ->
  round_ok w fuel nFee (finish_round snd_opt (u32 (GetSerializeSize tx_codec (wtx_tx (st_wtx st)))) st).
Proof.
  intros Hf Hl Hr Hc Hfee Hpay. unfold finish_round. set (nBytes := u32 _) in *.
  destruct (Z.leb_spec (MAX_BLOCK_SIZE_GEN / 5) nBytes) as [Hb|Hb]; [done|].
  destruct (Z.ltb_spec (st_fee st) (needed_fee snd_opt nBytes (wtx_tx (st_wtx st)))) as [Hn|Hn].
  - assert (0 <= nBytes) by (unfold nBytes, u32; apply Z.mod_pos_bound; lia).
    pose proof (needed_fee_bound snd_opt nBytes (wtx_tx (st_wtx st)) Hf ltac:(lia)). split; [|cbn; lia]. split; try done. cbn [st_fee]. unfold FEE_BOUND. lia.
  - split; [done|]. by apply Hpay.
Qed.

Lemma sign_round_ok w fuel nFee l st :
  new_keys_unpaid w -> 0 <= nTransactionFee snd_opt <= MAX_MONEY -> later w (st_wallet st) -> ready fuel (st_wallet st) ->
  cache_valid (st_cache st) -> 0 <= nFee <= st_fee st ->
  NoDup (coin_at <$> l) -> (forall c, c ∈ l -> spendable_coin depth par s opt w fuel c /\ control_allows (setSelected <$> coinControl) c) ->
  (vout (wtx_tx (st_wtx st)) = payees (fSplitBlock snd_opt) nSplitBlock vecSend \/
     exists i script nChange, MIN_TXOUT_AMOUNT <= nChange /\
       vout (wtx_tx (st_wtx st)) = insert_output i (mkTxOut nChange script) (payees (fSplitBlock snd_opt) nSplitBlock vecSend)) ->
  coins_sum l = total_value (vout (wtx_tx (st_wtx st))) + st_fee st ->
  round_ok w fuel nFee (sign_round snd_opt (order_coins (coins_set l)) st).
Proof.
  intros Hnew Hf Hl Hr Hc Hfee Hnd Hsp Hout Hsum. unfold sign_round. set (coins := order_coins _). set (tx := with_inout _ _ _).
  assert (Hperm : coins ≡ₚ coin_at <$> l).
  { unfold coins. rewrite (order_coins_perm (OrderLaws := OL)). unfold coins_set. by apply elements_list_to_set. }
  destruct (sign_loop snd_opt (st_wallet st) coins 0 tx (st_cache st)) as [[[ok tx'] c']|] eqn:Es; [|done].
  destruct (sign_inputs_ok snd_opt _ _ _ _ _ _ _ _ Hc Es) as (E1 & E2 & Hc' & _ & Hdone).
  destruct ok; cbn [negb]; [|done]. apply (finish_round_ok w fuel nFee (mkState (with_tx tx' (st_wtx st)) (st_reserve st) (st_fee st) (st_wallet st) c')); try done.
  cbn [st_wtx st_fee with_tx with_merkle merkle mtx]. intros fee Hn -> Hb. exists l, coins. split_and!; try done.
  - by rewrite Hperm.
  - rewrite E2. unfold tx. cbn [with_inout vin]. rewrite <- list_fmap_compose. apply list_fmap_ext. by intros i [h n] _.
  - intros k c Hk. apply (input_signed_later w (st_wallet st)); [done|]. by apply (Hdone eq_refl k c).
  - by rewrite E1.
  - by rewrite E1.
Qed.

Context (Hfee : 0 <= nTransactionFee snd_opt <= MAX_MONEY) (Hsplit : 1 <= nSplitBlock).
Context (Hpos : Forall (fun e => 0 <= e.2) vecSend) (Htotal : 0 < send_total vecSend <= MAX_MONEY).

Lemma create_round_ok w fuel fAllow rnd st :
  new_keys_unpaid w -> state_ok w fuel st ->
  exists r, create_round gen i2d GetTime depth par s opt snd_opt fuel vecSend (send_total vecSend) nSplitBlock fAllow coinControl rnd st = Some r /\
    round_ok w fuel (st_fee st) r.
Proof.
  intros Hnew [Hl Hr Hc Hf]. assert (HM : MAX_MONEY = 120000000000000) by done. assert (HF : FEE_BOUND = 100 * MAX_MONEY) by done.
  assert (HT : MIN_TXOUT_AMOUNT = 1000) by done. assert (HC : CENT = 10000) by done.
  unfold create_round. set (v := st_wallet st) in *. set (outs := payees _ _ _). set (x := with_fFromMe 1 _).
  rewrite swrap_small by lia.
  destruct (SelectCoins_sound depth par s opt (setSelected <$> coinControl) v fuel (send_total vecSend + st_fee st) (nTime (wtx_tx x))
    (rnd_first rnd) (rnd_second rnd) (rnd_third rnd)) as (ok & setCoins & nValueIn & m & Es & Hm & Hok & Hsel); [lia|apply Hr|apply Hr|].
  rewrite Es. cbn [mbind option_bind]. destruct ok; cbn [negb]; [|by eexists]. destruct (Hsel eq_refl) as (l & Hnd & Hsp & -> & -> & HTl).
  assert (Hr1 : ready fuel (with_txs m v)) by by apply ready_same.
  destruct (depth_loop_ok (order_coins (coins_set l)) (with_txs m v)) as (m2 & -> & Hm2 & Hok2); [done| |].
  { apply Forall_forall. intros c Hin. assert (c ∈ coin_at <$> l) as (c' & -> & Hc')%list_elem_of_fmap.
    { rewrite (order_coins_perm (OrderLaws := OL)) in Hin. unfold coins_set in Hin. by rewrite elements_list_to_set in Hin. }
    destruct (Hsp c' Hc') as [(y & _ & Hy & _) _]. destruct (same_txs_lookup (mapWallet v) m _ _ ltac:(by symmetry) Hy) as (z & Hz & _). by exists z. }
  cbn [mbind option_bind]. set (v2 := with_txs m2 (with_txs m v)).
  assert (Hl2 : later w v2) by (apply (later_trans w v); [done|]; apply (later_trans v (with_txs m v)); by apply later_txs).
  assert (Hr2 : ready fuel v2) by by apply ready_same.
  assert (Hsp2 : forall c, c ∈ l -> spendable_coin depth par s opt w fuel c /\ control_allows (setSelected <$> coinControl) c).
  { intros c Hin. destruct (Hsp c Hin). split; [by apply (spendable_later w Hnew v)|done]. }
  assert (Hkeys : forall k, grown gen i2d GetTime (wkeys v2) k -> later w (with_keys k v2) /\ ready fuel (with_keys k v2)).
  { intros k Hk. split; [apply (later_trans w v2); [done|by apply later_keys]|]. apply ready_keys; [by apply (alike_later w)|done]. }
  cbn [st_fee st_reserve st_cache]. rewrite (swrap_small 64 (coins_sum l - send_total vecSend - st_fee st)) by lia. destruct (move_to_fee _ _) as [nChange nFee] eqn:Em. apply move_to_fee_ok in Em as (E1 & E2 & E3 & E4); [|lia|lia].
  assert (Houts : total_value outs = send_total vecSend) by (apply payees_total; try done; lia).
  destruct (Z.ltb_spec 0 nChange) as [Hch|Hch].
  - destruct (change_script gen i2d GetTime opt snd_opt fAllow coinControl (st_reserve st) v2) as [script [k w3]|[k w3]] eqn:Ec; [|by eexists].
    apply change_script_ok in Ec as (keys & -> & Hks). destruct (Hkeys keys Hks).
    destruct (rand_int _ _) as [r rest]. eexists. split; [done|]. apply (sign_round_ok w fuel (st_fee st) l); cbn [st_wallet st_reserve st_cache st_fee st_wtx]; try done.
    + lia.
    + right. exists (Z.to_nat r), script, nChange. split; [lia|done].
    + cbn [with_tx with_merkle merkle mtx with_inout vout]. rewrite insert_output_total, Houts. cbn [nValue]. lia.
  - pose proof (ReturnKey_grown gen i2d GetTime (st_reserve st) (wkeys v2)) as Hks. destruct (reserve_ReturnKey (st_reserve st) (wkeys v2)) as [k keys].
    cbn [snd] in Hks. destruct (Hkeys keys Hks). eexists. split; [done|].
    apply (sign_round_ok w fuel (st_fee st) l); cbn [st_wallet st_reserve st_cache st_fee st_wtx]; try done.
    + lia.
    + by left.
    + change (vout (wtx_tx x)) with outs. rewrite Houts. lia.
Qed.

(** The fee grows from round to round, and is bounded. *)
Lemma create_loop_ok w fuel fAllow rnd rounds st :
  new_keys_unpaid w -> state_ok w fuel st -> FEE_BOUND - st_fee st < Z.of_nat rounds ->
  exists r, create_loop gen i2d GetTime depth par s opt snd_opt rounds fuel vecSend (send_total vecSend) nSplitBlock fAllow coinControl rnd st = Some r /\
    round_ok w fuel 0 (inr r).
Proof.
  intros Hnew. revert st. induction rounds as [|rounds IH]; intros st Hst Hr; [pose proof (so_fee _ _ _ Hst); lia|]. cbn [create_loop].
  destruct (create_round_ok w fuel fAllow (rnd rounds) st Hnew Hst) as (r & -> & Hok). cbn [mbind option_bind].
  destruct r as [st'|[r st']]; [|by exists (r, st')]. destruct Hok as [Hst' Hlt]. apply IH; [done|lia].
Qed.
End rounds.

(** ** The supporting transactions

    The queue holds inputs of transactions of the wallet, of what supports them, and of
    transactions on the disk: these are finitely many, and each is worked on once. *)

Section supporting.
Context {B : BNOps} {H : HashOps} {F : Files} {G : BlockFiles}.
Context (par : Params) (s : ChainState) (w : CWallet).

Definition tx_inputs (tx : CTransaction) : list (list Z) := (fun i => op_hash (prevout i)) <$> vin tx.
Definition inputs_in (D : gset (list Z)) (tx : CTransaction) : Prop := forall h, h ∈ tx_inputs tx -> h ∈ D.

(** The inputs of everything that the queue may meet *)
Record closed (D : gset (list Z)) : Prop := {
  cl_wallet h x : mapWallet w !! h = Some x -> inputs_in D (wtx_tx x);
  cl_prev h x t : mapWallet w !! h = Some x -> t ∈ vtxPrev x -> inputs_in D (mtx t);
  cl_disk h i tx : db_ReadTxIndex (txdb s) h = Some i -> read_tx (pos i) = Some tx -> inputs_in D tx
}.

Lemma closed_mono D D' : D ⊆ D' -> closed D -> closed D'.
Proof.
  intros HD [H1 H2 H3]. split.
  - intros h x Hx h' Hin. by eapply HD, H1.
  - intros h x t Hx Ht h' Hin. by eapply HD, H2.
  - intros h i tx Hi Ht h' Hin. by eapply HD, H3.
Qed.

Definition all_inputs : gset (list Z) :=
  list_to_set ((map_to_list (mapWallet w)).*2 ≫= fun x => tx_inputs (wtx_tx x) ++ (vtxPrev x ≫= fun t => tx_inputs (mtx t))) ∪
  list_to_set ((map_to_list (view (txdb s))).*2 ≫= fun v =>
    match Unserialize txindex_codec v with Some (i, _) => match read_tx (pos i) with Some tx => tx_inputs tx | None => [] end | None => [] end).

Lemma all_inputs_closed : closed all_inputs.
Proof.
  split.
  - intros h x Hx h' Hin. apply elem_of_union_l, elem_of_list_to_set, list_elem_of_bind. exists x. split; [apply elem_of_app; by left|].
    apply list_elem_of_fmap. exists (h, x). split; [done|by apply elem_of_map_to_list].
  - intros h x t Hx Ht h' Hin. apply elem_of_union_l, elem_of_list_to_set, list_elem_of_bind. exists x. split.
    + apply elem_of_app. right. apply list_elem_of_bind. by exists t.
    + apply list_elem_of_fmap. exists (h, x). split; [done|by apply elem_of_map_to_list].
  - intros h i tx Hi Ht h' Hin. rewrite db_ReadTxIndex_view in Hi. apply bind_Some in Hi as (v & Hv & ([j l] & Hj & He)%fmap_Some). cbn in He. subst j.
    apply elem_of_union_r, elem_of_list_to_set, list_elem_of_bind. exists v. split; [by rewrite Hj, Ht|].
    apply list_elem_of_fmap. exists (tx_key h, v). split; [done|by apply elem_of_map_to_list].
Qed.

Lemma SetMerkleBranch_mtx m n m' : SetMerkleBranch par s m = (n, m') -> mtx m' = mtx m.
Proof.
  unfold SetMerkleBranch. destruct (db_ReadTxIndex _ _) as [i|]; [|intros Hm; by injection Hm as _ <-].
  destruct (read_block_at par _ _) as [b|]; [|intros Hm; by injection Hm as _ <-].
  destruct (SetMerkleBranch_in s b m) as [[k m1] b1] eqn:Em. intros Hm. injection Hm as _ <-. unfold SetMerkleBranch_in in Em.
  destruct (CBlock_GetHash b) as [hash b2]. cbv zeta in Em. destruct (_ =? length _)%nat; [by injection Em as _ <- _|].
  destruct (GetMerkleBranch _ b2) as [branch b3]. destruct (mapBlockIndex s !! hash); [|by injection Em as _ <- _].
  destruct (negb _); by injection Em as _ <- _.
Qed.

(** Every entry of [mapWalletPrev] is found with its inputs among [D]. *)
Definition prev_closed (D : gset (list Z)) (m : gmap (list Z) CMerkleTx) : Prop := forall h t, m !! h = Some t -> inputs_in D (mtx t).

Lemma foldl_prev_closed D l m :
  (forall t, t ∈ l -> inputs_in D (mtx t)) -> prev_closed D m -> prev_closed D (foldl (fun m t => <[CTransaction_GetHash (mtx t) := t]> m) m l).
Proof.
  revert m. induction l as [|t l IH]; intros m Hl Hm; cbn [foldl]; [done|]. apply IH; [intros t' Ht; apply Hl; by right|].
  intros h t' [[_ <-]|[_ Ht]]%lookup_insert_Some; [apply Hl; by left|by eapply Hm].
Qed.

Lemma find_supporting_closed D m hash r m' :
  closed D -> prev_closed D m -> find_supporting s w hash m = (r, m') ->
  prev_closed D m' /\ forall t, r = Some t -> inputs_in D (mtx t).
Proof.
  intros HD Hm. unfold find_supporting. destruct (mapWallet w !! hash) as [x|] eqn:Ex.
  { intros Hf. injection Hf as <- <-. split; [|intros t Ht; injection Ht as <-; by eapply cl_wallet].
    apply foldl_prev_closed; [|done]. intros t Ht. by eapply cl_prev. }
  destruct (m !! hash) as [t|] eqn:Et; intros Hf; injection Hf as <- <-; (split; [done|]).
  - intros t' Ht. injection Ht as <-. by eapply Hm.
  - intros t (tx & (i & Hi & Hr)%bind_Some & ->)%fmap_Some. cbn [mtx CMerkleTx_of]. by eapply cl_disk.
Qed.

(** The queue empties: its hashes that have not been worked on become fewer, or else the
    queue does. *)
Lemma supporting_loop_ends D n :
  closed D -> forall done, (base.size (D ∖ done) < n)%nat -> forall queue m l, (forall h, h ∈ queue -> h ∈ D) -> prev_closed D m ->
  exists f r, forall fuel, (f <= fuel)%nat -> supporting_loop par s fuel w queue m done l = Some r.
Proof.
  intros HD. induction n as [|n IH]; intros done Hn; [lia|]. induction queue as [|h queue IHq]; intros m l Hq Hm.
  { exists 0%nat, l. by intros [|fuel] _. }
  assert (Hq' : forall h, h ∈ queue -> h ∈ D) by (intros h' Hh; apply Hq; by right).
  enough (exists f r, forall fuel, (f <= fuel)%nat -> supporting_loop par s (S fuel) w (h :: queue) m done l = Some r) as (f & r & Hf).
  { exists (S f), r. intros [|fuel] Hle; [lia|]. apply Hf. lia. }
  cbn [supporting_loop]. case_bool_decide as Hd; [by apply IHq|].
  assert (Hh : h ∈ D) by (apply Hq; by left).
  assert (Hn' : (base.size (D ∖ ({[h]} ∪ done)) < n)%nat).
  { enough (base.size (D ∖ ({[h]} ∪ done)) < base.size (D ∖ done))%nat by lia. apply subset_size. set_solver. }
  destruct (find_supporting s w h m) as [r m'] eqn:Ef. destruct (find_supporting_closed D _ _ _ _ HD Hm Ef) as [Hm' Hr].
  destruct r as [t|]; [|by apply IH]. destruct (SetMerkleBranch par s t) as [nDepth t'] eqn:Et.
  apply SetMerkleBranch_mtx in Et. apply IH; [done| |done]. specialize (Hr t eq_refl). unfold inputs_in, tx_inputs in Hr. rewrite <- Et in Hr.
  destruct (nDepth <? COPY_DEPTH); [|done]. intros h' [?|?]%elem_of_app; [by apply Hq'|by apply Hr].
Qed.

Lemma AddSupportingTransactions_ends x :
  exists f x', wtx_tx x' = wtx_tx x /\ forall fuel, (f <= fuel)%nat -> AddSupportingTransactions par s fuel w x = Some x'.
Proof.
  unfold AddSupportingTransactions. destruct (SetMerkleBranch par s (merkle x)) as [n m] eqn:Em. apply SetMerkleBranch_mtx in Em.
  destruct (n <? COPY_DEPTH); [|by exists 0%nat, (with_prev [] (with_merkle m x))].
  set (D := all_inputs ∪ list_to_set (tx_inputs (wtx_tx (with_merkle m x)))).
  destruct (supporting_loop_ends D (S (base.size (D ∖ ∅)))) with (done := ∅ : gset (list Z)) (queue := tx_inputs (wtx_tx (with_merkle m x)))
    (m := ∅ : gmap (list Z) CMerkleTx) (l := [] : list CMerkleTx) as (f & r & Hf).
  - apply (closed_mono all_inputs); [set_solver|apply all_inputs_closed].
  - lia.
  - set_solver.
  - intros h t Ht. by rewrite lookup_empty in Ht.
  - exists f, (with_prev (rev r) (with_merkle m x)). split; [done|]. intros fuel Hle. unfold tx_inputs in Hf. by rewrite (Hf fuel Hle).
Qed.
End supporting.

(** ** [CreateTransaction] *)

Section created.
Context {B : BNOps} {E : ECOps} {SO : ECSecretOps E} {P : SecpOps} {C : CipherOps} {H : HashOps} {F : Files} {G : BlockFiles}.
Context {HL : HashLaws H} {EL : ECLaws E} {Q : SortOps} {QL : SortLaws Q} {OO : OrderOps} {OL : OrderLaws OO}.
Context (gen : nat -> EC_KEY) (i2d : EC_KEY -> list Z).
Context (GetTime : Z) (depth : nat) (par : Params) (s : ChainState) (opt : WalletOptions) (snd_opt : SendOptions).

Lemma ready_enough w : wallet_sound depth s w -> exists fuel0, forall fuel, (fuel0 <= fuel)%nat -> ready depth par s opt fuel w.
Proof.
  intros Hs. pose proof Hs as (Hw & Hx & Hb). destruct (trusted_enough_all depth par s opt w (map_entries (mapWallet w)).*2) as (fuel0 & Hf).
  { apply Forall_forall. intros x ([h y] & -> & Hy)%list_elem_of_fmap. apply elem_of_map_entries in Hy. destruct (Hx h y Hy) as (? & ? & _). done. }
  exists fuel0. intros fuel Hle. split; [done|]. intros h x Hl.
  destruct (Hf x fuel) as [-> ?]; [|done|done]. apply list_elem_of_fmap. exists (h, x). split; [done|by apply elem_of_map_entries].
Qed.

(** C23: Let the values the wallet has cached be right, its amounts in range, no support of
    its transactions circular ([wallet_sound]), no output of its transactions to a key
    it has yet to make, and the cached signatures valid; let the payments be at least 0
    and their sum and the fee rate in the range of money.  With or without coin control,
    and whether or not the pool of keys is full, [CreateTransaction] ends: the fee grows from
    round to round and stays below a bound, and the queue of the supporting transactions
    empties.  When it succeeds, the transaction spends different coins of the wallet that
    are unspent, mature, trusted and its own, and selected ones if the coin control has
    selected any; every input carries a signature that verifies; the outputs are those to
    the payees and perhaps one of change; and what remains is the fee, which is at least
    what the size of the transaction asks for.  The wallet keeps its transactions, and may
    have new keys. *)
Theorem create_transaction w vecSend nSplitBlock fAllowS4C coinControl wtxNew k nFeeRet c :
  0 <= nTransactionFee snd_opt <= MAX_MONEY -> Forall (fun e => 0 <= e.2) vecSend -> 0 < send_total vecSend <= MAX_MONEY ->
  wallet_sound depth s w -> new_keys_unpaid gen depth w -> cache_valid c ->
  exists fuel0, forall fuel rounds rnd, (fuel0 <= fuel)%nat -> FEE_BOUND < Z.of_nat rounds ->
  exists queue0 r st,
    (forall queue, (queue0 <= queue)%nat ->
       CreateTransaction gen i2d GetTime depth par s opt snd_opt rounds fuel queue vecSend nSplitBlock fAllowS4C coinControl rnd wtxNew k nFeeRet w c = Some (r, st)) /\
    (r = CT_true -> later gen i2d GetTime w (st_wallet st) /\
       pays_for depth par s opt snd_opt vecSend (Z.max 1 nSplitBlock) coinControl w fuel (wtx_tx (st_wtx st)) (st_fee st)).
Proof.
  intros Hfee Hpos Htotal Hs Hnew Hc. destruct (ready_enough w Hs) as (fuel0 & Hready). exists fuel0. intros fuel rounds rnd Hf Hr.
  assert (HM : MAX_MONEY = 120000000000000) by done. assert (HF : FEE_BOUND = 100 * MAX_MONEY) by done.
  unfold CreateTransaction. rewrite send_sum_total, Z.add_0_l by first [assumption|lia]. rewrite (proj2 (Z.ltb_ge (send_total vecSend) 0)) by lia.
  destruct vecSend as [|e l]; [cbn in Htotal; lia|]. cbn [orb]. set (vecSend := e :: l) in *.
  destruct (create_loop_ok gen i2d GetTime depth par s opt snd_opt vecSend (Z.max 1 nSplitBlock) coinControl Hfee ltac:(lia) Hpos Htotal w fuel fAllowS4C rnd rounds
    (mkState (BindWallet wtxNew) k (nTransactionFee snd_opt) w c) Hnew) as ([r st] & -> & Hok).
  - split; cbn [st_wallet st_reserve st_cache st_fee]; [split; [done|by apply grown_same]|by apply Hready|done|lia].
  - cbn [st_fee]. lia.
  - cbn [mbind option_bind]. destruct r; cbn [round_ok] in Hok; [|by exists 0%nat, CT_false, st|by exists 0%nat, CT_throws, st].
    destruct (AddSupportingTransactions_ends par s (st_wallet st) (st_wtx st)) as (queue0 & x & Hx & Hq).
    eexists queue0, CT_true, _. split; [intros queue Hle; by rewrite (Hq queue Hle)|]. intros _. cbn [st_wallet st_wtx st_fee wtx_tx merkle].
    fold (wtx_tx x). by rewrite Hx.
Qed.
End created.

(** ** Witnesses *)

#[local] Instance no_blocks : BlockFiles := {| read_block _ _ := None |}.
#[local] Instance toy_order : OrderOps := elements.
#[local] Instance toy_order_laws : OrderLaws toy_order.
Proof. intros l. reflexivity. Qed.

Definition toy_send_options : SendOptions := mkSend 0 true None 50000.
Definition toy_round : RoundRandom := mkRound toy_random toy_random toy_random [7].
Definition toy_pool_options : WalletOptions := mkOptions 0 false true 0.

(** The coin is selected; the change goes to a new key, the pool being empty. *)
Definition toy_control : CCoinControl := mkControl CNoDestination {[mkOutPoint toy_payment_hash 0]}.

(** 20000 of the 50000 are sent, in three parts. *)
Definition toy_create (rounds fuel queue : nat) : option (sent * SendState) :=
  CreateTransaction (B := ZBN) (E := toy_ec) (SO := toy_secrets) (P := no_secp) (C := toy_cipher) (H := toy_hash) (F := toy_files) (G := no_blocks) (Q := toy_sort)
    toy_gen toy_der 1600000000 5 toy_params toy_chain toy_pool_options toy_send_options rounds fuel queue [([OP_TRUE], 20000)] 3 false (Some toy_control)
    (fun _ => toy_round) (CWalletTx_of (mkTx 1 1600000000 [] [] 0)) CReserveKey_new 0 toy_funds empty_cache.

Lemma toy_unpaid : new_keys_unpaid (E := toy_ec) (SO := toy_secrets) (C := toy_cipher) (H := toy_hash) toy_gen 5 toy_funds.
Proof.
  intros h x o id [-> ->]%toy_funds_lookup Ho Hid. left. change (vout (wtx_tx toy_wtx)) with [mkTxOut 50000 (33 :: toy_pub ++ [OP_CHECKSIG])] in Ho.
  apply list_elem_of_singleton in Ho as ->.
  assert (Hk : key_ids (H := toy_hash) (K := crypto_keystore (S := toy_secrets) (C := toy_cipher) (store (wkeys toy_funds))) 5
    (33 :: toy_pub ++ [OP_CHECKSIG]) = [toy_id]) by (vm_compute; reflexivity).
  cbn [scriptPubKey] in Hid. rewrite Hk in Hid. apply list_elem_of_singleton in Hid as ->. vm_compute. reflexivity.
Qed.

Lemma create_transaction_witness :
  exists rounds fuel queue st, toy_create rounds fuel queue = Some (CT_true, st) /\
    total_value (vout (wtx_tx (st_wtx st))) = 49000 /\ st_fee st = 1000 /\ drawn (wkeys (st_wallet st)) = 1%nat.
Proof.
  destruct (create_transaction (B := ZBN) (E := toy_ec) (SO := toy_secrets) (P := no_secp) (C := toy_cipher) (H := toy_hash) (F := toy_files) (G := no_blocks) (Q := toy_sort) (QL := toy_sort_laws)
    toy_gen toy_der 1600000000 5 toy_params toy_chain toy_pool_options toy_send_options toy_funds [([OP_TRUE], 20000)] 3 false (Some toy_control)
    (CWalletTx_of (mkTx 1 1600000000 [] [] 0)) CReserveKey_new 0 empty_cache) as (fuel & Hf).
  - split; by vm_compute.
  - by repeat constructor.
  - split; by vm_compute.
  - split; [apply toy_funds_ok|]. split; [apply toy_funds_txs|]. rewrite toy_funds_unspent. lia.
  - apply toy_unpaid.
  - apply empty_cache_valid.
  - destruct (Hf (5 + fuel)%nat (3 + Z.to_nat (FEE_BOUND + 1))%nat (fun _ => toy_round)) as (queue & r & st & Hc & Hok); [lia| |].
    { rewrite Nat2Z.inj_add, Z2Nat.id by (vm_compute; discriminate). lia. }
    specialize (Hc (5 + queue)%nat ltac:(lia)). revert Hc. generalize (Z.to_nat (FEE_BOUND + 1)). intros n Hc.
    exists (3 + n)%nat, (5 + fuel)%nat, (5 + queue)%nat, st.
    assert (Hr : (fun '(r, st) => (r, total_value (vout (wtx_tx (st_wtx st))), st_fee st, drawn (wkeys (st_wallet st)))) <$>
      toy_create (3 + n) (5 + fuel) (5 + queue) = Some (CT_true, 49000, 1000, 1%nat)) by (vm_compute; reflexivity).
    unfold toy_create in *. rewrite Hc in Hr |- *. injection Hr as -> ? ? ?. by split_and!.
Defined.
