(* ===== verification/Stake.v ===== *)
(** * Staking by the wallet: [wallet.cpp], [main.cpp]

    The coins that may stake, with what the search for a kernel needs of their blocks,
    are kept until the wallet or the best block changes; [CreateCoinStake] searches them,
    spends the coin found together with others of the same key, and pays the reward. *)

From stdpp Require Import sorting.
From S2P Require Import Prelude.
From S2P Require Import Uint256.
From S2P Require Import BigNum.
From S2P Require Import Serialize.
From S2P Require Import Hash.
From S2P Require Import Transaction.
From S2P Require Import Script.
From S2P Require Import Canonical.
From S2P Require Import Interp.
From S2P Require Import Key.
From S2P Require Import SigCheck.
From S2P Require Import Templates.
From S2P Require Import KeyStore.
From S2P Require Import Sign.
From S2P Require Import Block.
From S2P Require Import TxRules.
From S2P Require Import TxDB.
From S2P Require Import Chain.
From S2P Require Import Rewards.
From S2P Require Import Connect.
From S2P Require Import MemPool.
From S2P Require Import Kernel.
From S2P Require Import BlockTree.
From S2P Require Import Reorganize.
From S2P Require Import KeyPool.
From S2P Require Import Wallet.
From S2P Require Import WalletOps.
From S2P Require Import CoinSelect.
From S2P Require Import CreateTx.

(** The members of [CWallet] that only staking uses *)
Record StakeWallet := mkStake {
  sk_wallet : CWallet;
  mapMeta : gmap (list Z * Z) MetaItem;
  mapStakeMetaCache : gmap (Z * Z) (CBlock * Z);
  fCoinsDataActual : bool;
  nStakeCacheBalance : Z
}.

Definition with_sk_wallet (w : CWallet) (st : StakeWallet) : StakeWallet :=
  mkStake w (mapMeta st) (mapStakeMetaCache st) (fCoinsDataActual st) (nStakeCacheBalance st).
Definition with_meta (m : gmap (list Z * Z) MetaItem) (st : StakeWallet) : StakeWallet :=
  mkStake (sk_wallet st) m (mapStakeMetaCache st) (fCoinsDataActual st) (nStakeCacheBalance st).
Definition with_meta_cache (c : gmap (Z * Z) (CBlock * Z)) (st : StakeWallet) : StakeWallet :=
  mkStake (sk_wallet st) (mapMeta st) c (fCoinsDataActual st) (nStakeCacheBalance st).
Definition with_actual (b : bool) (st : StakeWallet) : StakeWallet :=
  mkStake (sk_wallet st) (mapMeta st) (mapStakeMetaCache st) b (nStakeCacheBalance st).
Definition with_stake_balance (n : Z) (st : StakeWallet) : StakeWallet :=
  mkStake (sk_wallet st) (mapMeta st) (mapStakeMetaCache st) (fCoinsDataActual st) n.

(** What the user has set; the address for charity when it is valid *)
Record StakeOptions := mkStakeOptions {
  nReserveBalance : Z;
  nSplitThreshold : Z;
  nCombineThreshold : Z;
  fStakeForCharity : bool;
  charity_address : option CTxDestination;
  nStakeForCharityPercent : Z;
  nStakeForCharityMin : Z;
  nStakeForCharityMax : Z
}.

(** The order of [mapMeta]: by the hash, then by the number of the output *)
Definition meta_le (a b : list Z * Z * MetaItem) : Prop :=
  (op_lt a.1.1 b.1.1 || (op_eq a.1.1 b.1.1 && (a.1.2 <=? b.1.2))) = true.
#[export] Instance meta_le_dec : RelDecision meta_le.
Proof. intros a b. unfold meta_le. apply _. Defined.
Definition meta_items (m : gmap (list Z * Z) MetaItem) : list MetaItem := (merge_sort meta_le (map_to_list m)).*2.

Definition set_value (n : nat) (v : Z) (outs : list CTxOut) : list CTxOut := alter (fun o => mkTxOut v (scriptPubKey o)) n outs.

(** The amounts of the outputs of a coinstake: what the staker gets, in two parts when
    the stake is split, and the part for charity, which comes last *)
Definition stake_amounts (fSplit : bool) (nStakerValue nCharity : Z) (outs : list CTxOut) : list CTxOut :=
  let outs :=
    if fSplit then
      let first := i64 (Z.quot (Z.quot nStakerValue 2) CENT * CENT) in
      set_value 2 (i64 (nStakerValue - first)) (set_value 1 first outs)
    else set_value 1 nStakerValue outs in
  if 0 <? nCharity then set_value (length outs - 1) nCharity outs else outs.

(** The part of the reward for charity, zero where there is none *)
Definition charity_part (so : StakeOptions) (nReward : Z) : Z :=
  let nCharity := Z.quot (i64 (nReward * nStakeForCharityPercent so)) 100 in
  let nCharity := if (0 <? nStakeForCharityMax so) && (nStakeForCharityMax so <? nCharity) then nStakeForCharityMax so else nCharity in
  let nCharity := if (0 <? nStakeForCharityMin so) && (nCharity <? nStakeForCharityMin so) then 0 else nCharity in
  if (MIN_TXOUT_AMOUNT <=? nCharity) && (nCharity <? nReward) then nCharity else 0.

(** Success with the coinstake and the key of the kernel; these count on success alone *)
Inductive staked {E : ECOps} := CS_true (tx : CTransaction) (key : CKey) | CS_false | CS_throws.

Section stake.
Context {B : BNOps} {E : ECOps} {SO : ECSecretOps E} {P : SecpOps} {C : CipherOps} {H : HashOps} {F : Files} {G : BlockFiles}.
Context {OO : OrderOps}.
(** The arguments of [AddToWallet] and of the wallet's operations *)
Context (EC_KEY_generate_key : nat -> EC_KEY) (i2d_ECPrivateKey : EC_KEY -> list Z).
Context (GetTime : Z) (depth : nat) (par : Params) (s : ChainState) (opt : WalletOptions) (snd_opt : SendOptions) (so : StakeOptions).

Definition SetCoinsDataActual (b : bool) (st : StakeWallet) : StakeWallet :=
  if IsLocked (store (wkeys (sk_wallet st))) then st else with_actual b st.
Definition ClearStakeMetaCache (st : StakeWallet) : StakeWallet := with_meta_cache ∅ st.

(** [CTxDB("r")] *)
Definition read_db : CTxDB := CTxDB_open (pdb (txdb s)) true.

(** ** The coins that may stake *)

(** The header of the block of a coin and the modifier for it, from the cache or the disk *)
Definition stake_meta (metas : gmap (Z * Z) (CBlock * Z)) (p : CDiskTxPos) : option (CBlock * Z) :=
  match metas !! (nFile p, nBlockPos p) with
  | Some meta => Some meta
  | None =>
      block ← read_header (nFile p) (nBlockPos p);
      let '(hash, block) := CBlock_GetHash block in
      '(nStakeModifier, _, _) ← GetKernelStakeModifier (fTestNet par) (mapBlockIndex s) hash;
      Some (block, nStakeModifier)
  end.

(** One coin; it is left out where its transaction is not in the index, its block cannot
    be read or has no modifier *)
Definition load_coin (w : CWallet) (metas : gmap (Z * Z) (CBlock * Z))
    (acc : gmap (list Z * Z) MetaItem * gmap (Z * Z) (CBlock * Z)) (coin : list Z * nat) :
    option (gmap (list Z * Z) MetaItem * gmap (Z * Z) (CBlock * Z)) :=
  pcoin ← mapWallet w !! coin.1;
  let hash := wtx_hash pcoin in
  Some
    match (txindex ← db_ReadTxIndex read_db hash; meta ← stake_meta metas (pos txindex); Some (txindex, meta)) with
    | None => acc
    | Some (txindex, (block, nStakeModifier)) =>
        (<[(hash, Z.of_nat coin.2) := mkMeta txindex (wtx_tx pcoin) (Z.of_nat coin.2) block nStakeModifier]> acc.1,
         <[(nFile (pos txindex), nBlockPos (pos txindex)) := (block, nStakeModifier)]> acc.2)
    end.

Fixpoint load_coins (w : CWallet) (metas : gmap (Z * Z) (CBlock * Z)) (coins : list (list Z * nat))
    (acc : gmap (list Z * Z) MetaItem * gmap (Z * Z) (CBlock * Z)) :
    option (gmap (list Z * Z) MetaItem * gmap (Z * Z) (CBlock * Z)) :=
  match coins with
  | [] => Some acc
  | coin :: coins => acc ← load_coin w metas acc coin; load_coins w metas coins acc
  end.

(** The coins are loaded anew when they are not actual; [false] where there are none *)
Definition load_stake (nBalance : Z) (st : StakeWallet) : option (bool * StakeWallet) :=
  if negb (fCoinsDataActual st) && negb (IsLocked (store (wkeys (sk_wallet st)))) then
    '(setCoins, _, w) ← SelectCoinsForStaking depth par s opt (i64 (nBalance - nReserveBalance so)) (u32 (now par)) (sk_wallet st);
    let st := with_meta ∅ (with_sk_wallet w st) in
    if bool_decide (setCoins = ∅) then Some (false, st)
    else
      '(meta, metas) ← load_coins w (mapStakeMetaCache st) (order_coins setCoins) (∅, ∅);
      Some (true, with_actual true (with_meta_cache metas (with_meta meta st)))
  else Some (true, st).

(** ** The weight of the stake *)

Definition GetStakeWeightFromValue (nTime nValue : Z) : option Z :=
  let nTimeWeight := Z.max 0 (GetWeight (fTestNet par) (cs_nBestHeight s) nTime GetTime) in
  q ← bn_quot (bn_mult (CBigNum_of_long nValue) (CBigNum_of_long nTimeWeight)) (CBigNum_of_long COIN);
  bnCoinDayWeight ← bn_quot q (CBigNum_of_int (24 * 60 * 60));
  Some (getuint64 bnCoinDayWeight).

(** [nMinWeight], [nMaxWeight] and [nWeight] *)
Fixpoint weight_loop (items : list MetaItem) (nMinWeight nMaxWeight nWeight : Z) : option (Z * Z * Z) :=
  match items with
  | [] => Some (nMinWeight, nMaxWeight, nWeight)
  | item :: items =>
      o ← vout (mi_tx item) !! Z.to_nat (mi_n item);
      let nTimeWeight := GetWeight (fTestNet par) (cs_nBestHeight s) (nTime (mi_tx item)) GetTime in
      bnCoinDayWeight ← coin_day_weight (fTestNet par) (cs_nBestHeight s) (nValue o) (nTime (mi_tx item)) GetTime;
      let n := getuint64 bnCoinDayWeight in
      weight_loop items
        (if (0 <? nTimeWeight) && (nTimeWeight <? nStakeMaxAge) then u64 (nMinWeight + n) else nMinWeight)
        (if nTimeWeight =? nStakeMaxAge then u64 (nMaxWeight + n) else nMaxWeight)
        (if 0 <? nTimeWeight then u64 (nWeight + n) else nWeight)
  end.

Definition GetStakeWeight (fuel : nat) (st : StakeWallet) : option (bool * (Z * Z * Z) * StakeWallet) :=
  '(nBalance, w) ← GetBalance depth par s opt fuel (sk_wallet st);
  let st := with_sk_wallet w st in
  if nBalance <=? nReserveBalance so then Some (false, (0, 0, 0), st)
  else
    '(ok, st) ← load_stake nBalance st;
    if negb ok then Some (false, (0, 0, 0), st)
    else weights ← weight_loop (meta_items (mapMeta st)) 0 0 0; Some (true, weights, st).

(** ** [CreateCoinStake] *)

(** The balance, computed again when the coins are not actual *)
Definition stake_balance (fuel : nat) (st : StakeWallet) : option (Z * StakeWallet) :=
  if fCoinsDataActual st then Some (nStakeCacheBalance st, st)
  else
    '(nBalance, w) ← GetBalance depth par s opt fuel (sk_wallet st);
    Some (nBalance, with_stake_balance nBalance (with_sk_wallet w st)).

(** The script the stake is paid to and the key of the kernel: [None] throws, [Some None]
    is [false] *)
Definition stake_script (keystore : CCryptoKeyStore) (scriptPubKeyKernel : list Z) (key : CKey) : option (option (list Z * CKey)) :=
  let '(ok, whichType, vSolutions) := Solver scriptPubKeyKernel in
  let first := default [] (head vSolutions) in
  if negb ok then Some None
  else
    match whichType with
    | TX_PUBKEYHASH =>
        r ← crypto_GetKey keystore key (uint_of_vch WIDTH160 first);
        match r with
        | None => Some None
        | Some key => pub ← GetPubKey key; Some (Some (push_op (push_vch [] pub) OP_CHECKSIG, key))
        end
    | TX_PUBKEY =>
        r ← crypto_GetKey keystore key (CPubKey_GetID first);
        match r with
        | None => Some None
        | Some key => pub ← GetPubKey key; Some (if bool_decide (pub = first) then Some (scriptPubKeyKernel, key) else None)
        end
    | _ => Some None
    end.

Definition coin_input (coin : list Z * nat) : CTxIn := mkTxIn (mkOutPoint coin.1 (Z.of_nat coin.2)) [] UINT_MAX.
Definition item_coin (item : MetaItem) : list Z * nat := (CTransaction_GetHash (mi_tx item), Z.to_nat (mi_n item)).

(** More coins of the same key: the coins spent, the kernel first, and their value.  [outs]
    are the outputs so far, [nTimeTx] the time of the coinstake. *)
Fixpoint add_inputs (nLimit nTimeTx : Z) (scriptPubKeyKernel : list Z) (outs : list CTxOut) (items : list MetaItem)
    (coins : list (list Z * nat)) (nCredit : Z) : option (list (list Z * nat) * Z) :=
  match items with
  | [] => Some (coins, nCredit)
  | item :: items =>
      o ← vout (mi_tx item) !! Z.to_nat (mi_n item);
      out ← outs !! 1%nat;
      kernel ← head coins;
      if (length outs =? 2)%nat &&
         (bool_decide (scriptPubKey o = scriptPubKeyKernel) || bool_decide (scriptPubKey o = scriptPubKey out)) &&
         negb (op_eq (CTransaction_GetHash (mi_tx item)) kernel.1) then
        let nTimeWeight := GetWeight (fTestNet par) (cs_nBestHeight s) (nTime (mi_tx item)) nTimeTx in
        if (100 <=? length coins)%nat then Some (coins, nCredit)
        else if nCombineThreshold so <? nCredit then Some (coins, nCredit)
        else if nLimit <? i64 (nCredit + nValue o) then Some (coins, nCredit)
        else if nCombineThreshold so <? nValue o then add_inputs nLimit nTimeTx scriptPubKeyKernel outs items coins nCredit
        else if nTimeWeight <=? 0 then add_inputs nLimit nTimeTx scriptPubKeyKernel outs items coins nCredit
        else add_inputs nLimit nTimeTx scriptPubKeyKernel outs items (coins ++ [item_coin item]) (i64 (nCredit + nValue o))
      else add_inputs nLimit nTimeTx scriptPubKeyKernel outs items coins nCredit
  end.

(** Amounts, signatures, size and fee; [rounds] bounds the repetitions *)
Fixpoint stake_fee_loop (rounds : nat) (w : CWallet) (coins : list (list Z * nat)) (fSplit : bool) (nCredit nCharity nMinFee : Z)
    (tx : CTransaction) (key : CKey) (c : CSignatureCache) : option (staked * CSignatureCache) :=
  match rounds with
  | O => None
  | S rounds =>
      let tx := with_inout (vin tx) (stake_amounts fSplit (i64 (nCredit - nMinFee - nCharity)) nCharity (vout tx)) tx in
      match sign_loop snd_opt w coins 0 tx c with
      | None => Some (CS_throws, c)
      | Some (ok, tx, c) =>
          if negb ok then Some (CS_false, c)
          else if MAX_BLOCK_SIZE_GEN / 5 <=? u32 (GetSerializeSize tx_codec tx) then Some (CS_false, c)
          else
            let nFee := i64 (GetMinFee_default tx - MIN_TX_FEE) in
            if nMinFee <? nFee then stake_fee_loop rounds w coins fSplit nCredit nCharity nFee tx key c
            else Some (CS_true tx key, c)
      end
  end.

(** What follows once the coins are known: the reward, the part for charity, the rest *)
Definition finish_stake (rounds : nat) (nBits : Z) (w : CWallet) (coins : list (list Z * nat)) (nCredit : Z) (tx : CTransaction)
    (key : CKey) (c : CSignatureCache) : option (staked * CSignatureCache) :=
  let tx := with_inout (coin_input <$> coins) (vout tx) tx in
  match GetCoinAge (T := leveldb_store) (par_at par s) read_db tx with
  | None => Some (CS_false, c)
  | Some nCoinAge =>
      match GetProofOfStakeReward (fTestNet par) (i64 nCoinAge) nBits (nTime tx) false with
      | None => Some (CS_throws, c)
      | Some nReward =>
          let nCredit := i64 (nCredit + nReward) in
          let fSplit := (length (vout tx) =? 3)%nat in
          let '(nCharity, outs) :=
            match charity_address so with
            | Some dest =>
                if fStakeForCharity so && (0 <? nStakeForCharityPercent so) then
                  let nCharity := charity_part so nReward in
                  (nCharity, if 0 <? nCharity then vout tx ++ [mkTxOut 0 (SetDestination dest).2] else vout tx)
                else (0, vout tx)
            | None => (0, vout tx)
            end in
          stake_fee_loop rounds w coins fSplit nCredit nCharity 0 (with_inout (vin tx) outs tx) key c
      end
  end.

(** The coinstake for the kernel [item] *)
Definition stake_with (rounds : nat) (nBits nLimit : Z) (st : StakeWallet) (item : MetaItem) (nTimeTx nBlockTime : Z)
    (txNew : CTransaction) (key : CKey) (c : CSignatureCache) : option (staked * CSignatureCache) :=
  match vout (mi_tx item) !! Z.to_nat (mi_n item) with
  | None => Some (CS_throws, c)
  | Some o =>
      match stake_script (store (wkeys (sk_wallet st))) (scriptPubKey o) key with
      | None => Some (CS_throws, c)
      | Some None => Some (CS_false, c)
      | Some (Some (scriptPubKeyOut, key)) =>
          let nCredit := nValue o in
          let split := (nSplitThreshold so <=? nCredit) && (GetWeight (fTestNet par) (cs_nBestHeight s) nBlockTime nTimeTx <? nStakeMaxAge) in
          let outs := mkTxOut 0 [] :: mkTxOut 0 scriptPubKeyOut :: if split then [mkTxOut 0 scriptPubKeyOut] else [] in
          if (nCredit =? 0) || (nLimit <? nCredit) then Some (CS_false, c)
          else
            match add_inputs nLimit nTimeTx (scriptPubKey o) outs (meta_items (mapMeta st)) [item_coin item] nCredit with
            | None => Some (CS_throws, c)
            | Some (coins, nCredit) =>
                finish_stake rounds nBits (sk_wallet st) coins nCredit (mkTx (nVersion txNew) nTimeTx [] outs (nLockTime txNew)) key c
            end
      end
  end.

(** [keep_on] is as for [ScanForStakeKernelHash]; the key store is the wallet. *)
Definition CreateCoinStake (rounds fuel : nat) (nBits nSearchInterval : Z) (keep_on : nat -> Z -> bool) (txNew : CTransaction) (key : CKey)
    (st : StakeWallet) (c : CSignatureCache) : option (staked * StakeWallet * CSignatureCache) :=
  '(nBalance, st) ← stake_balance fuel st;
  if nBalance <=? nReserveBalance so then Some (CS_false, st, c)
  else
    '(ok, st) ← load_stake nBalance st;
    if negb ok then Some (CS_false, st, c)
    else
      match ScanForStakeKernelHash (fTestNet par) (cs_nBestHeight s) (mkSettings nBits (nTime txNew) nSearchInterval)
              (fun k n => fCoinsDataActual st && keep_on k n) (meta_items (mapMeta st)) with
      | None => Some (CS_false, st, c)
      | Some (item, nTimeTx, nBlockTime) =>
          '(r, c) ← stake_with rounds nBits (i64 (nBalance - nReserveBalance so)) st item nTimeTx nBlockTime txNew key c;
          Some (r, st, c)
      end.

(** ** [SyncWithWallets], over the registered wallets *)

(** A wallet learns of a transaction; with the block whose hash may be cached *)
Definition sync_connected (tx : CTransaction) (fUpdate : bool) (pblock : option CBlock) (st : StakeWallet) :
    option (option CBlock * StakeWallet) :=
  '(fInvolved, pblock, w) ← AddToWalletIfInvolvingMe EC_KEY_generate_key i2d_ECPrivateKey GetTime depth par s opt tx pblock fUpdate (sk_wallet st);
  let st := with_sk_wallet w st in
  Some (pblock, if (fInvolved : bool) || bool_decide (is_Some pblock) then SetCoinsDataActual false st else st).

(** A wallet whose stake is disconnected gets its inputs back *)
Definition sync_disconnected (tx : CTransaction) (st : StakeWallet) : option StakeWallet :=
  let st := ClearStakeMetaCache st in
  if IsCoinStake tx then
    mine ← IsFromMe_tx depth (sk_wallet st) tx;
    if mine : bool then w ← DisableTransaction depth tx (sk_wallet st); Some (with_sk_wallet w st) else Some st
  else Some st.

Fixpoint sync_wallets (tx : CTransaction) (fUpdate : bool) (pblock : option CBlock) (wallets : list StakeWallet) :
    option (option CBlock * list StakeWallet) :=
  match wallets with
  | [] => Some (pblock, [])
  | st :: wallets =>
      '(pblock, st) ← sync_connected tx fUpdate pblock st;
      '(pblock, wallets) ← sync_wallets tx fUpdate pblock wallets;
      Some (pblock, st :: wallets)
  end.

Definition SyncWithWallets (tx : CTransaction) (pblock : option CBlock) (fUpdate fConnect : bool) (wallets : list StakeWallet) :
    option (option CBlock * list StakeWallet) :=
  if negb fConnect then wallets ← mapM (sync_disconnected tx) wallets; Some (pblock, wallets)
  else sync_wallets tx fUpdate pblock wallets.
End stake.
