(* ===== verification/StakeFacts.v ===== *)
(** * A coinstake that has been created pays its reward from ripe coins of the wallet *)

From stdpp Require Import sorting.
From S2P Require Import Prelude.
From S2P Require Import Uint256.
From S2P Require Import BigNum.
From S2P Require Import Serialize.
From S2P Require Import Hash.
From S2P Require Import Transaction.
From S2P Require Import Script.
From S2P Require Import Canonical.
From S2P Require Import Interp.
From S2P Require Import Key.
From S2P Require Import SigCheck.
From S2P Require Import Templates.
From S2P Require Import KeyStore.
From S2P Require Import Sign.
From S2P Require Import Scrypt.
From S2P Require Import Block.
From S2P Require Import TxRules.
From S2P Require Import TxDB.
From S2P Require Import Chain.
From S2P Require Import Rewards.
From S2P Require Import BlockRules.
From S2P Require Import Connect.
From S2P Require Import ConnectFacts.
From S2P Require Import BlockConnect.
From S2P Require Import MemPool.
From S2P Require Import Kernel.
From S2P Require Import BlockTree.
From S2P Require Import Checkpoints.
From S2P Require Import Reorganize.
From S2P Require Import BestChain.
From S2P Require Import KeyPool.
From S2P Require Import KeyPoolFacts.
From S2P Require Import Wallet.
From S2P Require Import WalletFacts.
From S2P Require Import WalletOps.
From S2P Require Import WalletOpsFacts.
From S2P Require Import CoinSelect.
From S2P Require Import CoinSelectFacts.
From S2P Require Import CreateTx.
From S2P Require Import CreateTxFacts.
From S2P Require Import Stake.

(** ** Amounts *)

(** The fee asked for does not depend on the transaction. *)
Lemma GetMinFee_default_constant tx : GetMinFee_default tx = MIN_TX_FEE.
Proof. done. Qed.

(** The outputs of a coinstake *)
Definition stake_outs (fSplit : bool) (script : list Z) (extra : list CTxOut) : list CTxOut :=
  mkTxOut 0 [] :: mkTxOut 0 script :: (if fSplit then [mkTxOut 0 script] else []) ++ extra.

(** What a staker gets: one output, or two that are worth as much *)
Definition staker_outs (script : list Z) (n : Z) (outs : list CTxOut) : Prop :=
  outs = [mkTxOut n script] \/ exists a b, 0 <= a <= b /\ a + b = n /\ outs = [mkTxOut a script; mkTxOut b script].

Lemma stake_amounts_ok fSplit n nCharity script dest :
  0 <= n < 2 ^ 63 -> 0 <= nCharity ->
  exists outs, staker_outs script n outs /\
    stake_amounts fSplit n nCharity (stake_outs fSplit script (if 0 <? nCharity then [mkTxOut 0 dest] else [])) =
      mkTxOut 0 [] :: outs ++ (if 0 <? nCharity then [mkTxOut nCharity dest] else []).
Proof.
  intros Hn Hc. unfold stake_amounts. destruct fSplit.
  - set (a := Z.quot (Z.quot n 2) CENT * CENT). assert (Ha : 0 <= a <= n / 2).
    { unfold a. rewrite !Z.quot_div_nonneg by (try apply Z.quot_pos; lia || done). pose proof (Z.div_pos n 2 ltac:(lia) ltac:(lia)).
      assert (HC : CENT = 10000) by done. pose proof (Z.mul_div_le (n / 2) CENT ltac:(lia)). pose proof (Z.div_pos (n / 2) CENT ltac:(lia) ltac:(lia)). lia. }
    pose proof (Z.mul_div_le n 2 ltac:(lia)). rewrite (swrap_small 64 a) by lia. rewrite (swrap_small 64 (n - a)) by lia.
    exists [mkTxOut a script; mkTxOut (n - a) script]. split; [right; exists a, (n - a); split_and!; lia || done|]. by destruct (0 <? nCharity).
  - exists [mkTxOut n script]. split; [by left|]. by destruct (0 <? nCharity).
Qed.

Lemma staker_outs_total script n outs : staker_outs script n outs -> total_value outs = n.
Proof. intros [->|(a & b & _ & Hn & ->)]; cbn; lia. Qed.

Lemma charity_part_bounds so nReward : let n := charity_part so nReward in n = 0 \/ MIN_TXOUT_AMOUNT <= n < nReward.
Proof.
  cbv zeta. unfold charity_part. match goal with |- context [(MIN_TXOUT_AMOUNT <=? ?m) && _] => set (n := m) end.
  destruct (Z.leb_spec MIN_TXOUT_AMOUNT n), (Z.ltb_spec n nReward); cbn [andb]; lia.
Qed.

(** ** More coins for the stake *)

Section inputs.
Context {B : BNOps} {H : HashOps}.
Context (par : Params) (s : ChainState) (so : StakeOptions).

(** The output of an item, and its value *)
Definition item_out (item : MetaItem) : option CTxOut := vout (mi_tx item) !! Z.to_nat (mi_n item).
Definition item_value (item : MetaItem) : Z := default 0 (nValue <$> item_out item).
Definition items_value (l : list MetaItem) : Z := foldr (fun item t => item_value item + t) 0 l.

Lemma items_value_app l l' : items_value (l ++ l') = items_value l + items_value l'.
Proof. unfold items_value. induction l as [|x l IH]; [done|]. cbn. rewrite IH. lia. Qed.

(** What the coins of one stake have in common *)
Definition joins (nTimeTx : Z) (script scriptOut : list Z) (kernel item : MetaItem) : Prop :=
  exists o, item_out item = Some o /\ (scriptPubKey o = script \/ scriptPubKey o = scriptOut) /\
    CTransaction_GetHash (mi_tx item) <> CTransaction_GetHash (mi_tx kernel) /\
    0 < GetWeight (fTestNet par) (cs_nBestHeight s) (nTime (mi_tx item)) nTimeTx.

Lemma add_inputs_ok nLimit nTimeTx script fSplit scriptOut kernel items l n :
  nLimit < 2 ^ 62 -> 0 <= n <= nLimit -> (S (length l) <= 100)%nat -> n = items_value (kernel :: l) ->
  Forall (fun item => is_Some (item_out item) /\ 0 <= item_value item < 2 ^ 62) items ->
  exists l' n', add_inputs par s so nLimit nTimeTx script (stake_outs fSplit scriptOut []) items (item_coin <$> kernel :: l) n =
      Some (item_coin <$> kernel :: l ++ l', n') /\
    l' `sublist_of` items /\ Forall (joins nTimeTx script scriptOut kernel) l' /\ n' = items_value (kernel :: l ++ l') /\ 0 <= n' <= nLimit /\
    (S (length (l ++ l')) <= 100)%nat.
Proof.
  intros HL. revert l n. induction items as [|item items IH]; intros l n Hn Hl Hs Hf; cbn [add_inputs].
  { exists [], n. rewrite app_nil_r. split_and!; try done || lia; constructor. }
  apply Forall_cons in Hf as [[[o Ho] Hv] Hf]. unfold item_value in Hv. rewrite Ho in Hv. cbn in Hv. unfold item_out in Ho. rewrite Ho. cbn [mbind option_bind].
  change (stake_outs fSplit scriptOut [] !! 1%nat) with (Some (mkTxOut 0 scriptOut)). cbn [mbind option_bind fmap list_fmap head]. rewrite length_cons, length_fmap.
  assert (Hstop : exists l' n', Some (item_coin kernel :: (item_coin <$> l), n) = Some (item_coin <$> kernel :: l ++ l', n') /\
    l' `sublist_of` item :: items /\ Forall (joins nTimeTx script scriptOut kernel) l' /\ n' = items_value (kernel :: l ++ l') /\ 0 <= n' <= nLimit /\
    (S (length (l ++ l')) <= 100)%nat).
  { exists [], n. rewrite app_nil_r. split_and!; try done || lia; apply sublist_nil_l || constructor. }
  assert (Hgo : exists l' n', add_inputs par s so nLimit nTimeTx script (stake_outs fSplit scriptOut []) items (item_coin <$> kernel :: l) n =
      Some (item_coin <$> kernel :: l ++ l', n') /\
    l' `sublist_of` item :: items /\ Forall (joins nTimeTx script scriptOut kernel) l' /\ n' = items_value (kernel :: l ++ l') /\ 0 <= n' <= nLimit /\
    (S (length (l ++ l')) <= 100)%nat).
  { destruct (IH l n Hn Hl Hs Hf) as (l' & n' & Ea & Hsub & Hr). exists l', n'. split; [exact Ea|]. split; [by apply sublist_cons|exact Hr]. }
  destruct (_ && negb _) eqn:Ec; [|exact Hgo]. destruct (Nat.leb_spec 100 (S (length l))) as [|Hlen]; [exact Hstop|].
  destruct (_ <? n); [exact Hstop|]. rewrite swrap_small by lia. destruct (Z.ltb_spec nLimit (n + nValue o)) as [|Hlim]; [exact Hstop|].
  destruct (_ <? nValue o); [exact Hgo|]. destruct (Z.leb_spec (GetWeight (fTestNet par) (cs_nBestHeight s) (nTime (mi_tx item)) nTimeTx) 0) as [|Hw]; [exact Hgo|].
  assert (Hval : item_value item = nValue o) by (unfold item_value, item_out; by rewrite Ho).
  destruct (IH (l ++ [item]) (n + nValue o)) as (l' & n' & Ea & Hsub & Hj & Hv' & Hb & Hc); [lia|rewrite length_app; cbn; lia| |done|].
  { rewrite app_comm_cons, items_value_app, <- Hs. cbn. lia. }
  rewrite <- app_assoc in Hv', Hc, Ea. exists (item :: l'), n'. split; [|split; [by apply sublist_skip|split_and!; [|done|lia|lia|done]]].
  - etransitivity; [|exact Ea]. f_equal. cbn [fmap list_fmap]. by rewrite fmap_app.
  - apply Forall_cons. split; [|done]. exists o. split; [done|]. rewrite !andb_true_iff, orb_true_iff, negb_true_iff in Ec. destruct Ec as [[_ Hsc] Hh].
    rewrite !bool_decide_eq_true in Hsc. cbn [fst item_coin scriptPubKey] in *. split_and!; [exact Hsc| |done]. intros He. rewrite He, op_eq_spec, bool_decide_eq_true_2 in Hh by done. done.
Qed.
End inputs.

(** ** The coins that may stake *)

Section load.
Context {B : BNOps} {E : ECOps} {SO : ECSecretOps E} {P : SecpOps} {C : CipherOps} {H : HashOps} {F : Files} {G : BlockFiles}.
Context {OO : OrderOps} {OL : OrderLaws OO}.
Context (depth : nat) (par : Params) (s : ChainState) (opt : WalletOptions) (so : StakeOptions).
Implicit Types w v : CWallet.

(** What [AvailableCoinsForStaking] asks of a transaction *)
Definition ripe (nSpendTime : Z) (x : CWalletTx) : bool :=
  (u32 (nTime (wtx_tx x) + GetStakeMinAge (fTestNet par) (cs_nBestHeight s)) <=? nSpendTime) &&
  (negb (0 <? maturity_value par s x) && (1 <=? depth_value s (merkle x))).

Lemma ripe_same nSpendTime x y : same x y -> ripe nSpendTime x = ripe nSpendTime y.
Proof.
  intros Hs. unfold ripe. by rewrite (same_tx _ _ Hs), (maturity_value_same par s _ _ Hs), (depth_value_same s _ _ (same_merkle _ _ Hs)).
Qed.

Lemma AvailableCoinsForStaking_ok nSpendTime w :
  wallet_ok depth s w ->
  exists m, AvailableCoinsForStaking depth par s opt nSpendTime w =
      Some (coins_value depth s w (ripe nSpendTime) (fun _ _ txout => nMinimumInputValue opt <=? nValue txout), with_txs m w) /\
    same_txs m (mapWallet w) /\ wallet_ok depth s (with_txs m w).
Proof.
  intros Hw. apply (coins_ok depth s _ (fun x => Some (ripe nSpendTime x))); [done| |intros x y Hs; by rewrite (ripe_same _ _ _ Hs)|done].
  intros x Hx. apply computes_this. apply computes_and; [by apply computes_ret|]. intros x1 H1 Hx1. apply computes_and.
  - rewrite <- (maturity_value_same par s _ _ H1). eapply computes_seq; [by apply computes_immature|]. intros x2 _ Hx2. by apply computes_ret.
  - intros x2 H2 Hx2. eapply computes_seq; [by apply computes_depth|]. intros x3 _ Hx3.
    rewrite (depth_value_same s (merkle x2) (merkle x)) by (apply same_merkle; by transitivity x1). by apply computes_ret.
Qed.

Lemma simple_loop_ok T nSpendTime vCoins set n m :
  Forall (fun o => exists x t, m !! out_tx o = Some x /\ vout (wtx_tx x) !! out_i o = Some t) vCoins ->
  exists set' n', simple_loop (mret false) T nSpendTime vCoins set n m = Some (set', n', m) /\
    forall c, c ∈ set' -> c ∈ set \/ exists o, o ∈ vCoins /\ c = (out_tx o, out_i o) /\ out_fSpendable o = true.
Proof.
  intros Hf. revert set n. induction Hf as [|o vCoins (x & t & Hx & Ht) Hf IH]; intros set n; cbn [simple_loop]; [exists set, n; split; [done|by left]|].
  assert (Hgo : forall set1 n1, (forall c, c ∈ set1 -> c ∈ set \/ c = (out_tx o, out_i o) /\ out_fSpendable o = true) ->
    exists set' n', simple_loop (mret false) T nSpendTime vCoins set1 n1 m = Some (set', n', m) /\
      forall c, c ∈ set' -> c ∈ set \/ exists o', o' ∈ o :: vCoins /\ c = (out_tx o', out_i o') /\ out_fSpendable o' = true).
  { intros set1 n1 H1. destruct (IH set1 n1) as (set' & n' & Es & Hin). exists set', n'. split; [done|]. intros c Hc.
    destruct (Hin c Hc) as [Hc1|(o' & Ho' & Hr)]; [|right; exists o'; split; [by right|done]].
    destruct (H1 c Hc1) as [?|Hr]; [by left|]. right. exists o. split; [by left|done]. }
  destruct (out_fSpendable o) eqn:Eo; cbn [negb]; [|by apply Hgo; left]. rewrite Hx. cbn [mbind option_bind mret wtxM_ret].
  rewrite insert_id by done. destruct (T <=? n); [exists set, n; split; [done|by left]|]. destruct (nSpendTime <? _); [by apply Hgo; left|].
  rewrite Ht. cbn [mbind option_bind].
  assert (Hnew : forall c, c ∈ {[(out_tx o, out_i o)]} ∪ set -> c ∈ set \/ c = (out_tx o, out_i o) /\ true = true) by set_solver.
  destruct (T <=? nValue t).
  - eexists _, _. split; [done|]. intros c Hc. destruct (Hnew c Hc) as [?|[-> _]]; [by left|]. right. exists o. split; [by left|done].
  - destruct (nValue t <? _); [by apply Hgo|by apply Hgo; left].
Qed.

(** A coin that may be searched for a kernel *)
Definition ripe_coin w (nSpendTime : Z) (c : list Z * nat) : Prop :=
  exists x o, mapWallet w !! c.1 = Some x /\ vout (wtx_tx x) !! c.2 = Some o /\ IsSpent x (Z.of_nat c.2) = Some false /\
    IsMine_out depth w o = MINE_SPENDABLE /\ ripe nSpendTime x = true.

Lemma SelectCoinsForStaking_ok T nSpendTime w :
  wallet_ok depth s w ->
  exists set n m, SelectCoinsForStaking depth par s opt T nSpendTime w = Some (set, n, with_txs m w) /\
    same_txs m (mapWallet w) /\ wallet_ok depth s (with_txs m w) /\ forall c, c ∈ set -> ripe_coin w nSpendTime c.
Proof.
  intros Hw. unfold SelectCoinsForStaking. destruct (AvailableCoinsForStaking_ok nSpendTime w Hw) as (m & -> & Hm & Hok). cbn [mbind option_bind].
  destruct (simple_loop_ok T nSpendTime (coins_value depth s w (ripe nSpendTime) (fun _ _ txout => nMinimumInputValue opt <=? nValue txout)) ∅ 0 m)
    as (set & n & Es & Hin).
  - apply Forall_forall. intros o Ho. apply elem_of_coins in Ho as (x & t & (H1 & H2 & _) & _). destruct (same_txs_lookup (mapWallet w) m _ _ ltac:(by symmetry) H1) as (y & Hy & Hs).
    exists y, t. by rewrite <- (same_tx _ _ Hs).
  - cbn [mapWallet with_txs]. rewrite Es. cbn [mbind option_bind]. exists set, n, m. split; [by destruct w|]. split; [done|]. split; [done|].
    intros c Hc. destruct (Hin c Hc) as [Hno|(o & Ho & -> & Hsp)]; [by apply elem_of_empty in Hno|].
    apply elem_of_coins in Ho as (x & t & (H1 & H2 & H3 & H4 & H5 & H6) & Hr & _). exists x, t. cbn [fst snd]. split_and!; try done.
    rewrite H5 in Hsp. by apply bool_decide_eq_true in Hsp.
Qed.

(** The cache of blocks and modifiers holds what the disk and the tree give. *)
Definition metas_ok (metas : gmap (Z * Z) (CBlock * Z)) : Prop :=
  forall p meta, metas !! (nFile p, nBlockPos p) = Some meta -> stake_meta par s ∅ p = Some meta.

Lemma stake_meta_cached metas p : metas_ok metas -> stake_meta par s metas p = stake_meta par s ∅ p.
Proof.
  intros Hm. unfold stake_meta at 1. destruct (metas !! _) as [meta|] eqn:Em; [by rewrite (Hm p meta)|].
  unfold stake_meta. by rewrite lookup_empty.
Qed.

Lemma stake_meta_place p p' : nFile p = nFile p' -> nBlockPos p = nBlockPos p' -> stake_meta par s ∅ p = stake_meta par s ∅ p'.
Proof. intros Hf Hp. unfold stake_meta. by rewrite Hf, Hp. Qed.

(** An entry of [mapMeta]: an output of the wallet that is not spent and can be, with its
    place, its block and the modifier for it *)
Record stake_item w (k : list Z * Z) (item : MetaItem) : Prop := {
  si_key : k = (CTransaction_GetHash (mi_tx item), mi_n item);
  si_index : 0 <= mi_n item;
  si_coin : exists x o, mapWallet w !! k.1 = Some x /\ mi_tx item = wtx_tx x /\ item_out item = Some o /\
    IsSpent x (mi_n item) = Some false /\ IsMine_out depth w o = MINE_SPENDABLE;
  si_place : db_ReadTxIndex (read_db s) k.1 = Some (mi_txindex item);
  si_block : stake_meta par s ∅ (pos (mi_txindex item)) = Some (mi_block item, mi_modifier item)
}.

(** [v] has the transactions and the keys of [w]. *)
Definition same_wallet w v : Prop := same_txs (mapWallet v) (mapWallet w) /\ store (wkeys v) = store (wkeys w).

Lemma IsMine_same_wallet w v o : same_wallet w v -> IsMine_out depth v o = IsMine_out depth w o.
Proof. intros [_ Hs]. unfold IsMine_out, IsMine_script. by rewrite Hs. Qed.

Lemma stake_item_same w v k item : same_wallet w v -> stake_item v k item -> stake_item w k item.
Proof.
  intros Hl [H1 H2 (x & o & Hx & Ht & Ho & Hs & Hm) H4 H5]. split; try done.
  destruct (same_txs_lookup _ _ _ _ (proj1 Hl) Hx) as (y & Hy & Hxy). exists y, o.
  rewrite <- (same_tx _ _ Hxy), <- (same_IsSpent _ _ _ Hxy). rewrite <- (IsMine_same_wallet w v o Hl). by split_and!.
Qed.

Lemma same_wallet_refl w : same_wallet w w.
Proof. by split. Qed.
Lemma same_wallet_trans w v v' : same_wallet w v -> same_wallet v v' -> same_wallet w v'.
Proof. intros [H1 H2] [H3 H4]. split; [by etrans|congruence]. Qed.
Lemma same_wallet_txs m v : same_txs m (mapWallet v) -> same_wallet v (with_txs m v).
Proof. by split. Qed.
Lemma same_wallet_sym w v : same_wallet w v -> same_wallet v w.
Proof. intros [H1 H2]. split; [by symmetry|done]. Qed.

Definition items_ok w (meta : gmap (list Z * Z) MetaItem) : Prop := forall k item, meta !! k = Some item -> stake_item w k item.

Lemma load_coins_ok w nSpendTime metas coins acc :
  wallet_ok depth s w -> metas_ok metas -> Forall (ripe_coin w nSpendTime) coins -> items_ok w acc.1 -> metas_ok acc.2 ->
  exists acc', load_coins par s w metas coins acc = Some acc' /\ items_ok w acc'.1 /\ metas_ok acc'.2.
Proof.
  intros Hw Hm Hf. revert acc. induction Hf as [|c coins (x & o & Hx & Ho & Hs & Hmine & _) Hf IH]; intros acc Hi Ha; cbn [load_coins]; [by exists acc|].
  unfold load_coin. rewrite Hx. cbn [mbind option_bind]. destruct (Hw c.1 x Hx) as [Hh _].
  destruct (db_ReadTxIndex (read_db s) (wtx_hash x)) as [txindex|] eqn:Ei; cbn [mbind option_bind]; [|by apply IH].
  rewrite stake_meta_cached by done. destruct (stake_meta par s ∅ (pos txindex)) as [[block modifier]|] eqn:Es; cbn [mbind option_bind]; [|by apply IH].
  apply IH; cbn [fst snd].
  - intros k item. rewrite lookup_insert_Some. intros [[<- <-]|[_ Hk]]; [|by apply Hi]. split; cbn [mi_tx mi_n mi_txindex mi_block mi_modifier fst]; try done; [lia|].
    exists x, o. rewrite <- Hh. unfold item_out. cbn [mi_tx mi_n]. rewrite Nat2Z.id. by split_and!.
  - intros p meta. rewrite lookup_insert_Some. intros [[Hp <-]|[_ Hk]]; [|by apply Ha]. injection Hp as Hf1 Hp1.
    by rewrite <- (stake_meta_place (pos txindex) p).
Qed.

(** The invariant of a wallet that stakes *)
Record stake_ok (st : StakeWallet) : Prop := {
  sk_sound : wallet_sound depth s (sk_wallet st);
  sk_small h x : mapWallet (sk_wallet st) !! h = Some x -> Z.of_nat (length (vout (wtx_tx x))) < UINT_MAX;
  sk_metas : metas_ok (mapStakeMetaCache st);
  sk_items : fCoinsDataActual st = true -> items_ok (sk_wallet st) (mapMeta st);
  sk_balance : fCoinsDataActual st = true -> 0 <= nStakeCacheBalance st < 2 ^ 62
}.

Lemma stake_ok_same st m :
  same_txs m (mapWallet (sk_wallet st)) -> wallet_ok depth s (with_txs m (sk_wallet st)) -> stake_ok st ->
  stake_ok (with_sk_wallet (with_txs m (sk_wallet st)) st).
Proof.
  intros Hm Hok [H1 H2 H3 H4 H5]. split; cbn [sk_wallet with_sk_wallet mapMeta mapStakeMetaCache fCoinsDataActual nStakeCacheBalance]; try done.
  - by apply wallet_sound_same.
  - intros h x Hx. cbn [with_txs mapWallet] in Hx. destruct (same_txs_lookup _ _ _ _ Hm Hx) as (y & Hy & Hs). rewrite (same_tx _ _ Hs). by eapply H2.
  - intros Ha k item Hk. eapply stake_item_same; [|by apply H4]. apply same_wallet_sym. by split.
Qed.

(** [load_stake] finds every coin that is loaded already, or loads them anew. *)
Lemma load_stake_ok nBalance st :
  stake_ok st -> (fCoinsDataActual st = false -> 0 <= nStakeCacheBalance st < 2 ^ 62) ->
  exists ok st', load_stake depth par s opt so nBalance st = Some (ok, st') /\ same_wallet (sk_wallet st) (sk_wallet st') /\ stake_ok st' /\
    nStakeCacheBalance st' = nStakeCacheBalance st.
Proof.
  intros Hst Hb. unfold load_stake. destruct (fCoinsDataActual st) eqn:Ef; cbn [negb andb]; [exists true, st; split_and!; try done|].
  destruct (IsLocked _); cbn [negb]; [exists true, st; split_and!; try done|].
  destruct (SelectCoinsForStaking_ok (i64 (nBalance - nReserveBalance so)) (u32 (now par)) (sk_wallet st) (proj1 (sk_sound _ Hst))) as (set & n & m & -> & Hm & Hok & Hset).
  cbn [mbind option_bind mapStakeMetaCache with_meta with_sk_wallet]. pose proof (stake_ok_same st m Hm Hok Hst) as Hst'. case_bool_decide as Hemp.
  - eexists false, _. split; [done|]. split; [by apply same_wallet_txs|]. split; [|done].
    destruct Hst' as [H1 H2 H3 _ _]. split; try done; cbn [fCoinsDataActual with_meta with_sk_wallet]; by rewrite Ef.
  - assert (Hripe : Forall (ripe_coin (with_txs m (sk_wallet st)) (u32 (now par))) (order_coins set)).
    { apply Forall_forall. intros c Hc. rewrite (order_coins_perm (OrderLaws := OL)), elem_of_elements in Hc. destruct (Hset c Hc) as (x & o & Hx & Ho & Hs & Hmine & Hr).
      destruct (same_txs_lookup (mapWallet (sk_wallet st)) m _ _ ltac:(by symmetry) Hx) as (y & Hy & Hxy). exists y, o.
      rewrite <- (same_tx _ _ Hxy), <- (same_IsSpent _ _ _ Hxy), <- (ripe_same _ _ _ Hxy). by split_and!. }
    destruct (load_coins_ok (with_txs m (sk_wallet st)) (u32 (now par)) (mapStakeMetaCache st) (order_coins set) (∅, ∅) Hok (sk_metas _ Hst) Hripe) as ([meta metas] & -> & Hi & Ha).
    + intros k item Hk. cbn [fst snd] in Hk; by apply lookup_empty_Some in Hk.
    + intros p meta Hk. cbn [fst snd] in Hk; by apply lookup_empty_Some in Hk.
    + cbn [mbind option_bind fst snd] in *. eexists true, _. split; [done|]. split; [by apply same_wallet_txs|]. split; [|done].
      destruct Hst' as [H1 H2 _ _ _]. split; try done. intros _. by apply Hb.
Qed.
End load.

(** ** What the age of the coins depends on *)

Section age.
Context {B : BNOps} {H : HashOps} {F : Files} {G : BlockFiles} {T : TxStore}.

Lemma coin_age_loop_prevouts par txdb t ins ins' n :
  prevout <$> ins = prevout <$> ins' -> coin_age_loop par txdb t ins n = coin_age_loop par txdb t ins' n.
Proof.
  revert ins' n. induction ins as [|i ins IH]; intros [|i' ins'] n Hp; try done. cbn in Hp. injection Hp as Hi Hp. cbn [coin_age_loop]. rewrite Hi.
  destruct (ReadFromDisk txdb (prevout i')) as [[txPrev txindex]|]; [|by apply IH]. destruct (t <? nTime txPrev); [done|].
  destruct (read_block_time _ _) as [bt|]; [|done]. cbn [mbind option_bind]. destruct (t <? _); [by apply IH|].
  destruct (vout txPrev !! _) as [o|]; [|done]. cbn [mbind option_bind]. destruct (bn_quot _ _); [|done]. by apply IH.
Qed.

Lemma GetCoinAge_prevouts par txdb tx tx' :
  nTime tx = nTime tx' -> prevout <$> vin tx = prevout <$> vin tx' -> IsCoinBase tx = IsCoinBase tx' -> GetCoinAge par txdb tx = GetCoinAge par txdb tx'.
Proof. intros Ht Hp Hb. unfold GetCoinAge. by rewrite Hb, Ht, (coin_age_loop_prevouts _ _ _ _ _ _ Hp). Qed.
End age.

(** ** The coinstake *)

(** An output does not exceed the total. *)
Lemma total_value_lookup outs i o : Forall (fun o => 0 <= nValue o) outs -> outs !! i = Some o -> 0 <= nValue o <= total_value outs.
Proof.
  intros Hf Hi. revert i Hi. induction Hf as [|x outs Hx Hf IH]; intros [|i] Hi; try done.
  - injection Hi as ->. cbn. assert (0 <= foldr (fun o n => nValue o + n) 0 outs) by (clear -Hf; induction Hf; cbn; lia). lia.
  - specialize (IH i Hi). cbn. unfold total_value in *. lia.
Qed.

Section stake.
Context {B : BNOps} {E : ECOps} {SO : ECSecretOps E} {P : SecpOps} {C : CipherOps} {H : HashOps} {F : Files} {G : BlockFiles}.
Context {HL : HashLaws H} {EL : ECLaws E} {OO : OrderOps} {OL : OrderLaws OO}.
Context (depth : nat) (par : Params) (s : ChainState) (opt : WalletOptions) (snd_opt : SendOptions) (so : StakeOptions).
Implicit Types w : CWallet.

Lemma elem_of_meta_items m item : item ∈ meta_items m <-> exists k, m !! k = Some item.
Proof.
  unfold meta_items. rewrite list_elem_of_fmap. setoid_rewrite merge_sort_Permutation. split.
  - intros ([k x] & -> & Hk). exists k. by apply elem_of_map_to_list.
  - intros (k & Hk). exists (k, item). split; [done|by apply elem_of_map_to_list].
Qed.

Lemma meta_items_NoDup w m : items_ok depth par s w m -> NoDup (item_coin <$> meta_items m).
Proof.
  intros Hi. unfold meta_items. rewrite merge_sort_Permutation.
  assert (Hnd : NoDup (map_to_list m).*1) by apply NoDup_fst_map_to_list.
  assert (Hin : forall k item, (k, item) ∈ map_to_list m -> stake_item depth par s w k item) by (intros k item Hk; apply Hi; by apply elem_of_map_to_list).
  induction (map_to_list m) as [|[k item] l IH]; [constructor|]. cbn in Hnd. apply NoDup_cons in Hnd as [Hk Hnd]. cbn. apply NoDup_cons. split.
  - rewrite <- list_fmap_compose. intros ([k' item'] & Hc & Hl)%list_elem_of_fmap. cbn in Hc. apply Hk, list_elem_of_fmap. exists (k', item'). split; [|done]. cbn.
    pose proof (Hin k item ltac:(by left)) as H1. pose proof (Hin k' item' ltac:(by right)) as H2.
    rewrite (si_key _ _ _ _ _ _ H1), (si_key _ _ _ _ _ _ H2). pose proof (si_index _ _ _ _ _ _ H1). pose proof (si_index _ _ _ _ _ _ H2).
    pose proof (f_equal fst Hc) as Hc1. pose proof (f_equal snd Hc) as Hc2. unfold item_coin in Hc1, Hc2. cbn [fst snd] in Hc1, Hc2. rewrite Hc1. f_equal. lia.
  - apply IH; [done|]. intros k' item' Hl. apply Hin. by right.
Qed.

Lemma stake_item_value w k item : wallet_sound depth s w -> stake_item depth par s w k item -> is_Some (item_out item) /\ 0 <= item_value item <= MAX_MONEY.
Proof.
  intros (_ & Hx & _) Hi. destruct (si_coin _ _ _ _ _ _ Hi) as (x & o & Hl & Ht & Ho & _). unfold item_value. rewrite Ho. split; [done|]. cbn.
  destruct (Hx _ _ Hl) as (_ & _ & Hpos & Htot). unfold item_out in Ho. rewrite Ht in Ho. pose proof (total_value_lookup _ _ _ Hpos Ho). lia.
Qed.

(** The signatures and the size: one repetition is enough, since the fee is constant. *)
Lemma stake_fee_loop_ok rounds w coins fSplit nCredit nCharity tx key c :
  cache_valid c ->
  exists r c', stake_fee_loop snd_opt (S rounds) w coins fSplit nCredit nCharity 0 tx key c = Some (r, c') /\ cache_valid c' /\
    forall tx' key', r = CS_true tx' key' -> key' = key /\ nTime tx' = nTime tx /\ prevout <$> vin tx' = prevout <$> vin tx /\
      vout tx' = stake_amounts fSplit (i64 (nCredit - 0 - nCharity)) nCharity (vout tx) /\
      (forall k c, coins !! k = Some c -> input_signed w tx' k c.1) /\ u32 (GetSerializeSize tx_codec tx') < MAX_BLOCK_SIZE_GEN / 5.
Proof.
  intros Hc. cbn [stake_fee_loop]. set (tx1 := with_inout _ _ _). destruct (sign_loop snd_opt w coins 0 tx1 c) as [[[ok tx2] c2]|] eqn:El; [|by exists CS_throws, c].
  pose proof (sign_loop_time snd_opt _ _ _ _ _ _ _ _ Hc El) as Ht. destruct (sign_inputs_ok snd_opt _ _ _ _ _ _ _ _ Hc El) as (E1 & E2 & Hc2 & _ & Hdone).
  destruct ok; cbn [negb]; [|by exists CS_false, c2]. destruct (Z.leb_spec (MAX_BLOCK_SIZE_GEN / 5) (u32 (GetSerializeSize tx_codec tx2))) as [|Hsz]; [by exists CS_false, c2|].
  change (0 <? i64 (GetMinFee_default tx2 - MIN_TX_FEE)) with false. cbn iota. exists (CS_true tx2 key), c2. split; [done|]. split; [done|].
  intros tx' key' Hr. injection Hr as <- <-. split_and!; [done|by rewrite Ht|by rewrite E2|by rewrite E1| |done].
  intros k c0 Hk. apply (Hdone eq_refl k c0 Hk).
Qed.

Definition coin_point (c : list Z * nat) : COutPoint := mkOutPoint c.1 (Z.of_nat c.2).

(** What a coinstake promises: it spends the kernel [item] and the coins [l] *)
Record coin_stake w (nBits nLimit : Z) (item : MetaItem) (l : list MetaItem) (script : list Z) (tx : CTransaction) : Prop := {
  cs_inputs : prevout <$> vin tx = coin_point <$> (item_coin <$> item :: l);
  cs_signed k c : (item_coin <$> item :: l) !! k = Some c -> input_signed w tx k c.1;
  cs_kernel : exists o, item_out item = Some o /\ Forall (joins par s (nTime tx) (scriptPubKey o) script item) l;
  cs_limit : 0 <= items_value (item :: l) <= nLimit;
  cs_count : (length (vin tx) <= 100)%nat;
  cs_size : u32 (GetSerializeSize tx_codec tx) < MAX_BLOCK_SIZE_GEN / 5;
  cs_marker : exists o outs, vout tx = mkTxOut 0 [] :: o :: outs;
  cs_reward : exists age reward nCharity dest,
    GetCoinAge (T := leveldb_store) (par_at par s) (read_db s) tx = Some age /\
    GetProofOfStakeReward (fTestNet par) (i64 age) nBits (nTime tx) false = Some reward /\
    (nCharity = 0 \/ MIN_TXOUT_AMOUNT <= nCharity < reward) /\
    (0 <= reward <= MAX_MONEY -> exists outs, staker_outs script (items_value (item :: l) + reward - nCharity) outs /\
       vout tx = mkTxOut 0 [] :: outs ++ (if 0 <? nCharity then [mkTxOut nCharity dest] else []))
}.

Lemma stake_amounts_marker fSplit n nCharity script extra : exists o outs, stake_amounts fSplit n nCharity (stake_outs fSplit script extra) = mkTxOut 0 [] :: o :: outs.
Proof.
  unfold stake_amounts. assert (Hset : forall k v o outs, exists o' outs', set_value (S k) v (mkTxOut 0 [] :: o :: outs) = mkTxOut 0 [] :: o' :: outs').
  { intros [|k] v o outs; cbn; by eexists _, _. }
  assert (H1 : exists o outs, (if fSplit then set_value 2 (i64 (n - i64 (Z.quot (Z.quot n 2) CENT * CENT))) (set_value 1 (i64 (Z.quot (Z.quot n 2) CENT * CENT)) (stake_outs fSplit script extra))
    else set_value 1 n (stake_outs fSplit script extra)) = mkTxOut 0 [] :: o :: outs).
  { unfold stake_outs. destruct fSplit; [|apply Hset]. by eexists _, _. }
  cbv zeta. destruct H1 as (o & outs & ->). destruct (0 <? nCharity); [|by eexists _, _]. change (length (mkTxOut 0 [] :: o :: outs) - 1)%nat with (S (length outs) - 0)%nat. rewrite Nat.sub_0_r. apply Hset.
Qed.

Lemma finish_stake_ok rounds nBits w nLimit item l o script fSplit version lock nTimeTx key c :
  cache_valid c -> nLimit < 2 ^ 62 -> 0 <= items_value (item :: l) <= nLimit -> (S (length l) <= 100)%nat -> item_out item = Some o ->
  Forall (joins par s nTimeTx (scriptPubKey o) script item) l ->
  exists r c', finish_stake par s snd_opt so (S rounds) nBits w (item_coin <$> item :: l) (items_value (item :: l))
      (mkTx version nTimeTx [] (stake_outs fSplit script []) lock) key c = Some (r, c') /\ cache_valid c' /\
    forall tx key', r = CS_true tx key' -> key' = key /\ nTime tx = nTimeTx /\ coin_stake w nBits nLimit item l script tx.
Proof.
  intros Hc Hlim Hv Hlen Ho Hj. unfold finish_stake. cbn [vout nTime]. set (tx0 := with_inout _ _ _).
  destruct (GetCoinAge _ _ tx0) as [age|] eqn:Eage; [|by exists CS_false, c]. change (nTime tx0) with nTimeTx.
  destruct (GetProofOfStakeReward _ _ _ _ _) as [reward|] eqn:Erew; [|by exists CS_throws, c]. change (vout tx0) with (stake_outs fSplit script []).
  assert (Hsplit : (length (stake_outs fSplit script []) =? 3)%nat = fSplit) by by destruct fSplit. rewrite Hsplit.
  assert (Hend : forall nCharity dest, (nCharity = 0 \/ MIN_TXOUT_AMOUNT <= nCharity < reward) ->
    exists r c', stake_fee_loop snd_opt (S rounds) w (item_coin <$> item :: l) fSplit (i64 (items_value (item :: l) + reward)) nCharity 0
        (with_inout (vin tx0) (stake_outs fSplit script (if 0 <? nCharity then [mkTxOut 0 dest] else [])) tx0) key c = Some (r, c') /\ cache_valid c' /\
      forall tx key', r = CS_true tx key' -> key' = key /\ nTime tx = nTimeTx /\ coin_stake w nBits nLimit item l script tx).
  { intros nCharity dest Hch. destruct (stake_fee_loop_ok rounds w (item_coin <$> item :: l) fSplit (i64 (items_value (item :: l) + reward)) nCharity
      (with_inout (vin tx0) (stake_outs fSplit script (if 0 <? nCharity then [mkTxOut 0 dest] else [])) tx0) key c Hc) as (r & c' & Er & Hc' & Hr).
    exists r, c'. split; [exact Er|]. split; [done|]. intros tx key' ->. destruct (Hr tx key' eq_refl) as (-> & Ht & Hp & Hout & Hsig & Hsz).
    cbn [with_inout vin vout nTime] in Ht, Hp, Hout. assert (Hin : prevout <$> vin tx = coin_point <$> (item_coin <$> item :: l)).
    { rewrite Hp. unfold tx0. cbn [with_inout vin]. rewrite <- list_fmap_compose. by apply list_fmap_ext. }
    split; [done|]. split; [done|]. assert (HM : MAX_MONEY = 120000000000000) by done. assert (HT : MIN_TXOUT_AMOUNT = 1000) by done. split; [exact Hin|exact Hsig| |done| |done| |].
    - exists o. split; [done|]. by rewrite Ht.
    - rewrite <- (length_fmap prevout), Hin, !length_fmap. done.
    - rewrite Hout. apply stake_amounts_marker.
    - exists age, reward, nCharity, dest. split.
      { rewrite <- Eage. apply GetCoinAge_prevouts; [done|by rewrite Hp|]. unfold IsCoinBase.
        destruct (stake_amounts_marker fSplit (i64 (i64 (items_value (item :: l) + reward) - 0 - nCharity)) nCharity script (if 0 <? nCharity then [mkTxOut 0 dest] else [])) as (o1 & outs1 & Em).
        rewrite Hout, Em. change (vout tx0) with (stake_outs fSplit script []). cbn [length stake_outs].
        pose proof (f_equal (fun p => match p with [q] => COutPoint_IsNull q | _ => false end) Hp) as Hb. revert Hb.
        destruct (vin tx) as [|i1 [|i2 l1]], (vin tx0) as [|j1 [|j2 l2]]; try done. cbn. by intros ->. }
      split; [by rewrite Ht|]. split; [done|]. intros Hrange. destruct (stake_amounts_ok fSplit (items_value (item :: l) + reward - nCharity) nCharity script dest) as (outs & Hs & He); [lia|lia|].
      exists outs. split; [done|]. rewrite Hout, <- He. f_equal. rewrite Z.sub_0_r, (swrap_small 64 (items_value (item :: l) + reward)), swrap_small by lia. done. }
  destruct (charity_address so) as [dest|]; [|apply (Hend 0 []); by left]. destruct (_ && _); [|apply (Hend 0 []); by left].
  assert (Hst : (if 0 <? charity_part so reward then stake_outs fSplit script [] ++ [mkTxOut 0 (SetDestination dest).2] else stake_outs fSplit script []) =
    stake_outs fSplit script (if 0 <? charity_part so reward then [mkTxOut 0 (SetDestination dest).2] else [])).
  { destruct (0 <? _); [|done]. unfold stake_outs. by destruct fSplit. }
  rewrite Hst. apply Hend, charity_part_bounds.
Qed.

Lemma stake_with_ok rounds nBits nLimit st item nTimeTx nBlockTime txNew key c :
  stake_ok depth par s st -> fCoinsDataActual st = true -> item ∈ meta_items (mapMeta st) -> nLimit < 2 ^ 62 -> cache_valid c ->
  exists r c', stake_with par s snd_opt so (S rounds) nBits nLimit st item nTimeTx nBlockTime txNew key c = Some (r, c') /\ cache_valid c' /\
    forall tx key', r = CS_true tx key' -> nTime tx = nTimeTx /\ exists o l script, item_out item = Some o /\
      stake_script (store (wkeys (sk_wallet st))) (scriptPubKey o) key = Some (Some (script, key')) /\
      l `sublist_of` meta_items (mapMeta st) /\ NoDup (item_coin <$> item :: l) /\ coin_stake (sk_wallet st) nBits nLimit item l script tx.
Proof.
  intros Hst Ha Hin Hlim Hc. pose proof (sk_items _ _ _ _ Hst Ha) as Hi. pose proof Hin as (k & Hk)%elem_of_meta_items.
  destruct (stake_item_value _ k item (sk_sound _ _ _ _ Hst) (Hi _ _ Hk)) as [[o Ho] Hv].
  unfold stake_with. unfold item_out in Ho. rewrite Ho. assert (Hval : nValue o = items_value [item]).
  { unfold items_value. cbn [foldr]. unfold item_value, item_out. rewrite Ho. cbn. lia. }
  destruct (stake_script _ (scriptPubKey o) key) as [[[script key1]|]|] eqn:Es; [|by exists CS_false, c|by exists CS_throws, c].
  set (split := _ && _). destruct (Z.eqb_spec (nValue o) 0) as [|Hnz]; [by exists CS_false, c|]. cbn [orb].
  destruct (Z.ltb_spec nLimit (nValue o)) as [|Hle]; [by exists CS_false, c|].
  assert (Houts : mkTxOut 0 [] :: mkTxOut 0 script :: (if split then [mkTxOut 0 script] else []) = stake_outs split script []).
  { unfold stake_outs. by rewrite app_nil_r. }
  rewrite Houts, Hval. assert (Hv0 : 0 <= items_value [item]) by (cbn; lia).
  destruct (add_inputs_ok par s so nLimit nTimeTx (scriptPubKey o) split script item (meta_items (mapMeta st)) [] (items_value [item]))
    as (l & n & Ea & Hsub & Hj & -> & Hb & Hlen); [done|lia|cbn; lia|done| |].
  { apply Forall_forall. intros x (kx & Hx)%elem_of_meta_items. destruct (stake_item_value _ kx x (sk_sound _ _ _ _ Hst) (Hi _ _ Hx)) as [? Hb].
    split; [done|]. assert (HM : MAX_MONEY = 120000000000000) by done. lia. }
  cbn [app] in Ea, Hb, Hlen. change (item_coin <$> [item]) with [item_coin item] in Ea. rewrite Ea.
  destruct (finish_stake_ok rounds nBits (sk_wallet st) nLimit item l o script split (nVersion txNew) (nLockTime txNew) nTimeTx key1 c)
    as (r & c' & Ef & Hc' & Hr); [done|done|exact Hb|exact Hlen|exact Ho|exact Hj|].
  change (items_value (item :: [] ++ l)) with (items_value (item :: l)). rewrite Ef. exists r, c'. split; [done|]. split; [done|]. intros tx key' ->.
  destruct (Hr tx key' eq_refl) as (-> & Ht & Hcs). split; [done|]. exists o, l, script. split_and!; try done.
  cbn [fmap list_fmap]. apply NoDup_cons. split.
  - intros (x & Hx & Hl)%list_elem_of_fmap. rewrite Forall_forall in Hj. destruct (Hj x Hl) as (_ & _ & _ & Hne & _). apply Hne.
    pose proof (f_equal fst Hx) as He. unfold item_coin in He. cbn [fst] in He. by rewrite He.
  - pose proof (meta_items_NoDup _ _ Hi) as Hnd. revert Hnd. clear -Hsub.
    induction Hsub as [|x l1 l2 Hsub IH|x l1 l2 Hsub IH]; [done| |]; intros [Hx Hnd]%NoDup_cons; [|by apply IH]. apply NoDup_cons. split; [|by apply IH].
    intros (y & Hy & Hin)%list_elem_of_fmap. apply Hx, list_elem_of_fmap. exists y. split; [done|]. eapply elem_of_submseteq; [exact Hin|by apply sublist_submseteq].
Qed.

Lemma coin_stake_marked w nBits nLimit item l script tx k :
  stake_item depth par s w k item -> (forall h x, mapWallet w !! h = Some x -> Z.of_nat (length (vout (wtx_tx x))) < UINT_MAX) ->
  coin_stake w nBits nLimit item l script tx -> IsCoinStake tx = true.
Proof.
  intros Hi Hsmall Hcs. destruct (cs_marker _ _ _ _ _ _ _ Hcs) as (o & outs & Hout). pose proof (cs_inputs _ _ _ _ _ _ _ Hcs) as Hin.
  unfold IsCoinStake. rewrite Hout. destruct (vin tx) as [|i ins]; [done|]. cbn in Hin. pose proof (f_equal head Hin) as Hp. cbn [head] in Hp. injection Hp as Hp.
  change (CTxOut_IsEmpty (mkTxOut 0 [])) with true. rewrite andb_true_r, negb_true_iff, Hp. unfold COutPoint_IsNull. cbn [op_n]. apply andb_false_iff. right.
  apply Z.eqb_neq. destruct (si_coin _ _ _ _ _ _ Hi) as (x & o' & Hx & Ht & Ho & _). apply lookup_lt_Some in Ho. specialize (Hsmall _ _ Hx).
  rewrite Ht in Ho. unfold coin_point, item_coin. cbn [snd op_n]. lia.
Qed.

Lemma sum_wallet_le (f g : CWalletTx -> Z) w :
  (forall h x, mapWallet w !! h = Some x -> 0 <= f x <= g x) -> 0 <= sum_wallet f w <= sum_wallet g w.
Proof.
  intros Hfg. unfold sum_wallet. assert (Hin : forall e, e ∈ map_entries (mapWallet w) -> 0 <= f e.2 <= g e.2).
  { intros [h x] He. apply elem_of_map_entries in He. by apply (Hfg h). }
  induction (map_entries (mapWallet w)) as [|e l IH]; [cbn; lia|]. cbn. pose proof (Hin e ltac:(by left)).
  assert (Hl : forall e, e ∈ l -> 0 <= f e.2 <= g e.2) by (intros e' He; apply Hin; by right). specialize (IH Hl). lia.
Qed.

Lemma stake_balance_ok fuel st :
  stake_ok depth par s st -> ready depth par s opt fuel (sk_wallet st) ->
  exists st', stake_balance depth par s opt fuel st = Some (nStakeCacheBalance st', st') /\ same_wallet (sk_wallet st) (sk_wallet st') /\
    stake_ok depth par s st' /\ 0 <= nStakeCacheBalance st' < 2 ^ 62 /\ fCoinsDataActual st' = fCoinsDataActual st.
Proof.
  intros Hst [Hs Ht]. unfold stake_balance. destruct (fCoinsDataActual st) eqn:Ea.
  { exists st. pose proof (sk_balance _ _ _ _ Hst Ea) as Hb. split; [done|]. split; [apply same_wallet_refl|]. split; [done|]. by split. }
  pose proof Hs as (Hw & Hx & Hb). destruct (GetBalance_ok depth par s opt (sk_wallet st) fuel Hw) as (m & -> & Hm & Hok); [|lia|].
  { intros h x Hl. split; [by apply (Ht h)|by apply (Hx h)]. }
  cbn [mbind option_bind]. set (n := sum_wallet _ _). assert (Hn : 0 <= n < 2 ^ 62).
  { enough (0 <= n <= sum_wallet (unspent depth (sk_wallet st) 2) (sk_wallet st)) by lia. apply sum_wallet_le. intros h x Hl.
    destruct (available_unspent depth (sk_wallet st) 2 x ltac:(by apply (Hx h))) as [_ ?]. unfold spendable_credit. destruct (_ && _); lia. }
  exists (with_stake_balance n (with_sk_wallet (with_txs m (sk_wallet st)) st)). split; [done|]. split; [by apply same_wallet_txs|]. cbn [nStakeCacheBalance fCoinsDataActual with_stake_balance with_sk_wallet]. rewrite Ea. split; [|done].
  destruct (stake_ok_same depth par s st m Hm Hok Hst) as [H1 H2 H3 _ _].
  split; try done; cbn [fCoinsDataActual with_stake_balance with_sk_wallet]; by rewrite Ea.
Qed.

(** The reward of such a coinstake is one that [ConnectInputs] lets pass. *)
Lemma coin_stake_fee w nBits nLimit item l script tx :
  coin_stake w nBits nLimit item l script tx -> IsCoinStake tx = true ->
  exists age reward, GetCoinAge (T := leveldb_store) (par_at par s) (read_db s) tx = Some age /\
    GetProofOfStakeReward (fTestNet par) (i64 age) nBits (nTime tx) false = Some reward /\
    (0 <= reward -> items_value (item :: l) + reward <= MAX_MONEY -> total_value (vout tx) = items_value (item :: l) + reward /\
       forall m pindex chain, bi_nBits pindex = nBits -> 0 <= age < 2 ^ 63 ->
         check_fee (T := leveldb_store) (par_at par s) m (read_db s) tx (pindex :: chain) (items_value (item :: l)) = Done tt).
Proof.
  intros Hcs Hstake. destruct (cs_reward _ _ _ _ _ _ _ Hcs) as (age & reward & nCharity & dest & Hage & Hrew & Hch & Hout).
  exists age, reward. split; [done|]. split; [done|]. intros H0 Hmax. pose proof (cs_limit _ _ _ _ _ _ _ Hcs) as Hlim.
  assert (HM : MAX_MONEY = 120000000000000) by done. assert (HT : MIN_TXOUT_AMOUNT = 1000) by done.
  destruct (Hout ltac:(lia)) as (outs & Hso & Hv). pose proof (staker_outs_total _ _ _ Hso) as Hto.
  assert (Htot : total_value (vout tx) = items_value (item :: l) + reward).
  { rewrite Hv. change (total_value (mkTxOut 0 [] :: ?l)) with (0 + total_value l). rewrite total_value_app, Hto.
    destruct (Z.ltb_spec 0 nCharity); unfold total_value; cbn [foldr nValue]; lia. }
  split; [done|]. intros m pindex chain Hb Ha. unfold check_fee. rewrite Hstake, Hage.
  assert (Hval : GetValueOut tx = Some (total_value (vout tx))).
  { unfold GetValueOut. apply GetValueOut_fold; [lia|]. split_and!; [|lia|lia]. rewrite Hv. apply Forall_cons. split; [cbn; lia|]. apply Forall_app. split.
    - destruct Hso as [->|(a & b & Hab & Hsum & ->)]; repeat constructor; cbn [nValue]; lia.
    - destruct (0 <? nCharity); repeat constructor; cbn [nValue]; lia. }
  rewrite Hval, Hb. change (fTestNet (par_at par s)) with (fTestNet par).
  rewrite swrap_small in Hrew by lia. rewrite Hrew, GetMinFee_default_constant. replace (reward - MIN_TX_FEE + MIN_TX_FEE) with reward by lia.
  rewrite swrap_small by lia. rewrite Htot. rewrite (proj2 (Z.ltb_ge _ _)) by lia. done.
Qed.
End stake.

(** ** Properties *)

(** C20: Let the wallet be sound, as for the choice of coins, and the kernels, blocks and
    the balance that staking caches be right ([stake_ok]).  Then [CreateCoinStake] ends,
    after one round, keeps the wallet's transactions and keys and this invariant.  When it succeeds, the kernel is a coin that the search for a kernel
    found, with the time of the transaction; the inputs are the kernel and coins of the
    same key, different, unspent and the wallet's own, of which each is signed and
    verifies; they are worth no more than the balance less the reserve, and there are at
    most a hundred; and the outputs are the marker of a coinstake, one or two for the
    staker and perhaps one for charity, worth the inputs and the reward for their age,
    which [ConnectInputs] lets pass. *)
Theorem create_coin_stake {B : BNOps} {E : ECOps} {SO : ECSecretOps E} {P : SecpOps} {C : CipherOps} {H : HashOps} {F : Files} {G : BlockFiles}
    {HL : HashLaws H} {EL : ECLaws E} {OO : OrderOps} {OL : OrderLaws OO}
    (depth : nat) (par : Params) (s : ChainState) (opt : WalletOptions) (snd_opt : SendOptions) (so : StakeOptions) st c :
  stake_ok depth par s st -> cache_valid c -> 0 <= nReserveBalance so < 2 ^ 62 ->
  exists fuel0, forall fuel rounds nBits nSearchInterval keep_on txNew key, (fuel0 <= fuel)%nat ->
  exists r st' c',
    CreateCoinStake depth par s opt snd_opt so (S rounds) fuel nBits nSearchInterval keep_on txNew key st c = Some (r, st', c') /\
    same_wallet (sk_wallet st) (sk_wallet st') /\ stake_ok depth par s st' /\ cache_valid c' /\
    forall tx key', r = CS_true tx key' -> IsCoinStake tx = true /\
      exists item l o script nBlockTime keep,
        ScanForStakeKernelHash (fTestNet par) (cs_nBestHeight s) (mkSettings nBits (nTime txNew) nSearchInterval) keep (meta_items (mapMeta st')) =
          Some (item, nTime tx, nBlockTime) /\
        item_out item = Some o /\ stake_script (store (wkeys (sk_wallet st'))) (scriptPubKey o) key = Some (Some (script, key')) /\
        Forall (fun i => exists k, stake_item depth par s (sk_wallet st') k i) (item :: l) /\ NoDup (item_coin <$> item :: l) /\
        coin_stake par s (sk_wallet st') nBits (nStakeCacheBalance st' - nReserveBalance so) item l script tx /\
        exists age reward, GetCoinAge (T := leveldb_store) (par_at par s) (read_db s) tx = Some age /\
          GetProofOfStakeReward (fTestNet par) (i64 age) nBits (nTime tx) false = Some reward /\
          (0 <= reward -> items_value (item :: l) + reward <= MAX_MONEY -> total_value (vout tx) = items_value (item :: l) + reward /\
             forall m pindex chain, bi_nBits pindex = nBits -> 0 <= age < 2 ^ 63 ->
               check_fee (T := leveldb_store) (par_at par s) m (read_db s) tx (pindex :: chain) (items_value (item :: l)) = Done tt).
Proof.
  intros Hst Hc Hres. destruct (ready_enough depth par s opt (sk_wallet st) (sk_sound _ _ _ _ Hst)) as (fuel0 & Hready). exists fuel0.
  intros fuel rounds nBits nSearchInterval keep_on txNew key Hf. unfold CreateCoinStake.
  destruct (stake_balance_ok depth par s opt fuel st Hst (Hready fuel Hf)) as (st1 & -> & Hl1 & Hst1 & Hb1 & Ha1). cbn [mbind option_bind].
  destruct (Z.leb_spec (nStakeCacheBalance st1) (nReserveBalance so)) as [|Hbal].
  { exists CS_false, st1, c. by split_and!. }
  destruct (load_stake_ok depth par s opt so (nStakeCacheBalance st1) st1 Hst1 ltac:(done)) as (ok & st2 & -> & Hl2 & Hst2 & Hb2). cbn [mbind option_bind].
  pose proof (same_wallet_trans _ _ _ Hl1 Hl2) as Hl. destruct ok; cbn [negb]; [|exists CS_false, st2, c; by split_and!].
  destruct (ScanForStakeKernelHash _ _ _ _ _) as [[[item nTimeTx] nBlockTime]|] eqn:Es; [|exists CS_false, st2, c; by split_and!].
  pose proof (Scan_found _ _ _ _ _ _ _ _ Es) as (Hin & _).
  assert (Ha : fCoinsDataActual st2 = true).
  { destruct (fCoinsDataActual st2); [done|]. destruct (meta_items (mapMeta st2)); [by apply not_elem_of_nil in Hin|done]. }
  rewrite swrap_small by lia. destruct (stake_with_ok depth par s snd_opt so rounds nBits (nStakeCacheBalance st1 - nReserveBalance so) st2 item nTimeTx nBlockTime txNew key c
    Hst2 Ha Hin ltac:(lia) Hc) as (r & c' & -> & Hc' & Hr). cbn [mbind option_bind]. exists r, st2, c'. split; [done|]. split; [done|]. split; [done|]. split; [done|].
  intros tx key' ->. destruct (Hr tx key' eq_refl) as (Ht & o & l & script & Ho & Hscr & Hsub & Hnd & Hcs). rewrite <- Hb2 in Hcs.
  pose proof (sk_items _ _ _ _ Hst2 Ha) as Hi. assert (Hall : forall i, i ∈ meta_items (mapMeta st2) -> exists k, stake_item depth par s (sk_wallet st2) k i).
  { intros i (k & Hk)%elem_of_meta_items. exists k. by apply Hi. }
  destruct (Hall item Hin) as (k & Hk). pose proof (coin_stake_marked depth par s _ _ _ _ _ _ _ _ Hk (sk_small _ _ _ _ Hst2) Hcs) as Hstake.
  split; [done|]. eexists item, l, o, script, nBlockTime, _. rewrite Ht. split; [exact Es|]. split; [done|]. split; [done|]. split.
  { apply Forall_cons. split; [by exists k|]. apply Forall_forall. intros i Hl'. apply Hall. eapply elem_of_submseteq; [exact Hl'|by apply sublist_submseteq]. }
  split; [done|]. split; [done|]. rewrite <- Ht. by eapply coin_stake_fee.
Qed.

Lemma GetBalance_keys {E : ECOps} {SO : ECSecretOps E} {C : CipherOps} {H : HashOps} depth par s opt fuel w n w' :
  GetBalance depth par s opt fuel w = Some (n, w') -> wkeys w' = wkeys w.
Proof. unfold GetBalance, total, for_wallet. intros ([m n'] & _ & Hw)%bind_Some. by injection Hw as _ <-. Qed.

(** C22: A staking wallet that is asked for its weight before it stakes does not stake.
    [GetStakeWeight] loads the coins and marks them actual, but leaves the balance that
    [CreateCoinStake] keeps under the same mark as it was; so, when that balance, zero at
    the start, is within the reserve, [CreateCoinStake] fails at once and changes nothing,
    whatever the wallet holds, until the mark is cleared. *)
Theorem stake_weight_stalls {B : BNOps} {E : ECOps} {SO : ECSecretOps E} {P : SecpOps} {C : CipherOps} {H : HashOps} {F : Files} {G : BlockFiles}
    {OO : OrderOps} (GetTime : Z) (depth : nat) (par : Params) (s : ChainState) (opt : WalletOptions) (snd_opt : SendOptions) (so : StakeOptions)
    st st' fuel weights :
  IsLocked (store (wkeys (sk_wallet st))) = false -> nStakeCacheBalance st <= nReserveBalance so ->
  GetStakeWeight GetTime depth par s opt so fuel st = Some (true, weights, st') ->
  fCoinsDataActual st' = true /\ nStakeCacheBalance st' = nStakeCacheBalance st /\
  forall rounds fuel' nBits nSearchInterval keep_on txNew key c,
    CreateCoinStake depth par s opt snd_opt so rounds fuel' nBits nSearchInterval keep_on txNew key st' c = Some (CS_false, st', c).
Proof.
  intros Hlock Hbal Hw. enough (fCoinsDataActual st' = true /\ nStakeCacheBalance st' = nStakeCacheBalance st) as [Ha Hb].
  { split; [done|]. split; [done|]. intros. unfold CreateCoinStake, stake_balance. rewrite Ha. cbn [mbind option_bind]. rewrite Hb.
    by rewrite (proj2 (Z.leb_le _ _)). }
  unfold GetStakeWeight in Hw. apply bind_Some in Hw as ([nBalance w] & Hbal' & Hw). apply GetBalance_keys in Hbal'.
  destruct (nBalance <=? nReserveBalance so); [done|]. apply bind_Some in Hw as ([ok st1] & Hload & Hw).
  destruct ok; cbn [negb] in Hw; [|done]. apply bind_Some in Hw as (ws & _ & Hw). injection Hw as _ <-.
  unfold load_stake in Hload. cbn [sk_wallet with_sk_wallet fCoinsDataActual] in Hload. rewrite Hbal', Hlock in Hload.
  destruct (fCoinsDataActual st) eqn:Ea; cbn [negb andb] in Hload; [by injection Hload as <-|].
  apply bind_Some in Hload as ([[set n] w1] & _ & Hload). case_bool_decide; [done|]. apply bind_Some in Hload as ([meta metas] & _ & Hload).
  by injection Hload as <-.
Qed.

(** ** Witness: a coin of the first block is staked *)

#[local] Existing Instance zero_hash.
#[local] Existing Instance zero_hash_laws.
#[local] Existing Instance toy_order.
#[local] Existing Instance toy_order_laws.
Definition stk_hash : list Z := toy_hash_of 0.
Definition stk_tx : CTransaction :=
  mkTx 1 1600000000 [mkTxIn (mkOutPoint (toy_hash_of 9) 0) [1; 7] UINT_MAX] [mkTxOut (1000 * COIN) (33 :: toy_pub ++ [OP_CHECKSIG])] 0.
Definition stk_header : CBlock := mkBlock 4 (toy_hash_of 1) (toy_hash_of 0) 1600000000 0x1e0fffff 7 [] [] [] (toy_hash_of 0) false.
#[local] Instance stk_files : Files := {| read_tx _ := Some stk_tx; read_block_time _ _ := Some 1600000000 |}.
#[local] Instance stk_block_files : BlockFiles := {| read_block _ _ := Some stk_header |}.
Definition stk_block : CBlock := mkBlock 4 (toy_hash_of 1) (toy_hash_of 0) 1600000000 0x1e0fffff 7 [] [] [] (toy_hash_of 0) true.
Definition stk_index : CTxIndex := CTxIndex_new (mkPos 1 1000 1080) 1.
Definition stk_item : MetaItem := mkMeta stk_index stk_tx 0 stk_block 77.
Definition stk_tree : BlockMap :=
  <[toy_hash_of 0 := mkNode (toy_index 0 0 1600000000 4 0) None (Some (toy_hash_of 3))]>
  {[toy_hash_of 3 := mkNode (toy_index 3 1 1601500000 5 77) (Some (toy_hash_of 0)) None]}.
Definition stk_chain : ChainState :=
  mkChain stk_tree (Some (toy_hash_of 0)) (Some (toy_hash_of 3)) (toy_hash_of 3) 7
    (assign64 WIDTH256 1) (assign64 WIDTH256 0) ∅ (mkTxDB {[tx_key stk_hash := Serialize txindex_codec stk_index]} None false) (mkPool ∅ ∅ 0) empty_cache
    (mkSync (assign64 WIDTH256 5) (assign64 WIDTH256 0) CSyncCheckpoint_null CSyncCheckpoint_null (assign64 WIDTH256 0) 0).
Definition stk_store : CCryptoKeyStore := match crypto_AddKey crypto_empty toy_key with Some (_, s) => s | None => crypto_empty end.
Definition stk_wtx : CWalletTx := with_merkle (mkMerkle stk_tx (toy_hash_of 3) [] 0 false) (CWalletTx_of stk_tx).
Definition stk_wallet : CWallet :=
  mkWallet (mkKeys stk_store false FEATURE_BASE FEATURE_BASE ∅ 0 [] ∅ (mkWalletDB true ∅ ∅ ∅ ∅ ∅ ∅ None) 0)
    {[stk_hash := stk_wtx]} 0 ∅ ∅ ∅ ∅ None [].
Definition stk_state : StakeWallet := mkStake stk_wallet {[(stk_hash, 0) := stk_item]} ∅ true (1000 * COIN).
Definition stk_options : StakeOptions := mkStakeOptions 0 (25 * COIN) (50 * COIN) true (Some (CKeyID (CPubKey_GetID toy_pub))) 10 0 MAX_MONEY.
Definition stk_run (rounds fuel : nat) := CreateCoinStake (B := ZBN) (E := toy_ec) (SO := toy_secrets) (P := no_secp) (C := toy_cipher)
  5 toy_params stk_chain toy_options toy_send_options stk_options rounds fuel 0x2200ffff 30 (fun _ _ => true) (mkTx 1 1602000000 [] [] 0) CKey_Reset stk_state empty_cache.

Lemma stk_lookup h x : mapWallet stk_wallet !! h = Some x -> h = stk_hash /\ x = stk_wtx.
Proof. unfold stk_wallet. cbn [mapWallet]. intros [<- <-]%lookup_singleton_Some. done. Qed.

Lemma stk_sound : wallet_sound (E := toy_ec) (SO := toy_secrets) (C := toy_cipher) 5 stk_chain stk_wallet.
Proof.
  split; [|split].
  - intros h x [-> ->]%stk_lookup. split; [done|]. split; try done; by constructor.
  - intros h x [-> ->]%stk_lookup. split_and!.
    + exists (fun _ => 0%nat). intros k m txin j Hk. by destruct k.
    + split; [exists 0; by vm_compute|]. intros [k|] m Ht; cbn in Ht; [by destruct k|]. injection Ht as <-. exists false. by vm_compute.
    + split; [apply Forall_singleton; by vm_compute|by vm_compute].
  - by vm_compute.
Qed.

Lemma stk_ok : stake_ok (E := toy_ec) (SO := toy_secrets) (C := toy_cipher) 5 toy_params stk_chain stk_state.
Proof.
  split; cbn [sk_wallet mapMeta mapStakeMetaCache fCoinsDataActual nStakeCacheBalance stk_state].
  - apply stk_sound.
  - intros h x [-> ->]%stk_lookup. by vm_compute.
  - intros p meta Hp. by apply lookup_empty_Some in Hp.
  - intros _ k item [<- <-]%lookup_singleton_Some. split.
    + vm_compute. reflexivity.
    + done.
    + exists stk_wtx, (mkTxOut (1000 * COIN) (33 :: toy_pub ++ [OP_CHECKSIG])). split_and!; vm_compute; reflexivity.
    + vm_compute. reflexivity.
    + change (stake_meta toy_params stk_chain ∅ (pos (mi_txindex stk_item))) with
        ('(m, _, _) ← GetKernelStakeModifier false stk_tree (scrypt_blockhash (header_bytes stk_header));
         Some (mkBlock 4 (toy_hash_of 1) (toy_hash_of 0) 1600000000 0x1e0fffff 7 [] [] [] (scrypt_blockhash (header_bytes stk_header)) true, m)).
      rewrite zero_blockhash. vm_compute. reflexivity.
  - done.
Qed.

Lemma create_coin_stake_witness :
  exists fuel tx key st c, stk_run 1 fuel = Some (CS_true tx key, st, c) /\ total_value (vout tx) = 1000 * COIN + 63377084.
Proof.
  destruct (create_coin_stake (B := ZBN) (E := toy_ec) (SO := toy_secrets) (P := no_secp) (C := toy_cipher) 5 toy_params stk_chain toy_options toy_send_options stk_options
    stk_state empty_cache) as (fuel & Hf).
  - apply stk_ok.
  - apply empty_cache_valid.
  - by split.
  - destruct (Hf fuel 0%nat 0x2200ffff 30 (fun _ _ => true) (mkTx 1 1602000000 [] [] 0) CKey_Reset (le_n fuel)) as (r & st & c & Hrun & _).
    assert (Hr : (fun '(r, _, _) => match r with CS_true tx _ => Some (total_value (vout tx)) | _ => None end) <$> stk_run 1 fuel = Some (Some (1000 * COIN + 63377084)))
      by (vm_compute; reflexivity).
    unfold stk_run in *. rewrite Hrun in Hr. destruct r as [tx key| |]; try discriminate Hr. exists fuel, tx, key, st, c. split; [exact Hrun|]. cbn in Hr. by injection Hr.
Defined.

(** The same coin, not loaded yet, seen when it is ripe *)
Definition stk_params : Params := mkParams false 1602000000 (assign64 WIDTH256 0) 100 60 3 50000 0 true 100 0 0.
Definition stk_fresh : StakeWallet := mkStake stk_wallet ∅ {[(1, 1000) := (stk_block, 77)]} false 0.

(** It stakes when it has not been asked for its weight. *)
Lemma stake_unasked :
  (fun '(r, _, _) => match r with CS_true tx _ => Some (total_value (vout tx)) | _ => None end) <$>
    CreateCoinStake (B := ZBN) (E := toy_ec) (SO := toy_secrets) (P := no_secp) (C := toy_cipher) 5 stk_params stk_chain toy_options toy_send_options stk_options
      1 5 0x2200ffff 30 (fun _ _ => true) (mkTx 1 1602000000 [] [] 0) CKey_Reset stk_fresh empty_cache = Some (Some (1000 * COIN + 63377084)).
Proof. vm_compute. reflexivity. Qed.

Lemma stake_weight_stalls_witness :
  exists weights st c, GetStakeWeight (B := ZBN) (E := toy_ec) (SO := toy_secrets) (C := toy_cipher) 1602000000 5 stk_params stk_chain toy_options stk_options
      5 stk_fresh = Some (true, weights, st) /\ weights.2 <> 0 /\
    CreateCoinStake (B := ZBN) (E := toy_ec) (SO := toy_secrets) (P := no_secp) (C := toy_cipher) 5 stk_params stk_chain toy_options toy_send_options stk_options
      1 5 0x2200ffff 30 (fun _ _ => true) (mkTx 1 1602000000 [] [] 0) CKey_Reset st empty_cache = Some (CS_false, st, c).
Proof.
  assert (exists weights st, GetStakeWeight (B := ZBN) (E := toy_ec) (SO := toy_secrets) (C := toy_cipher) 1602000000 5 stk_params stk_chain toy_options
    stk_options 5 stk_fresh = Some (true, weights, st) /\ weights.2 <> 0) as (weights & st & Hw & Hn).
  { eexists _, _. split; [vm_compute; reflexivity|vm_compute; discriminate]. }
  exists weights, st, empty_cache. split; [exact Hw|]. split; [exact Hn|].
  apply (stake_weight_stalls (P := no_secp) 1602000000 5 stk_params stk_chain toy_options toy_send_options stk_options stk_fresh st 5 weights);
    [reflexivity|cbn; lia|exact Hw].
Defined.
