(* ===== verification/Heap.v ===== *)
(** * Binary heaps: [std::make_heap], [std::push_heap] and [std::pop_heap]

    The library functions by which the miner orders the transactions, on a vector as a
    list: the children of place [i] are [2 i + 1] and [2 i + 2], and [comp a b] says
    that [a] comes after [b].  The algorithms are those of libstdc++, hole and all: the
    order of elements that compare equal is what they make of it.  The theory: they
    permute the vector, and where [comp] is a strict weak order no element comes before
    the one they leave at the front. *)

From S2P Require Import Prelude.

Definition parent (i : nat) : nat := (i - 1) `div` 2.

Section heap.
Context {A : Type} (comp : A -> A -> bool).

(** [__push_heap]: [value] moves up from the hole, not above [top] *)
Fixpoint sift_up (fuel : nat) (l : list A) (hole top : nat) (value : A) : list A :=
  match fuel with
  | O => <[hole := value]> l
  | S fuel =>
      if (top <? hole)%nat then
        match l !! parent hole with
        | Some p => if comp p value then sift_up fuel (<[hole := p]> l) (parent hole) top value else <[hole := value]> l
        | None => <[hole := value]> l
        end
      else <[hole := value]> l
  end.

(** The first half of [__adjust_heap]: the hole moves down to a place without children,
    the greater child going up each time *)
Fixpoint sift_down (fuel : nat) (l : list A) (hole len : nat) : list A * nat :=
  match fuel with
  | O => (l, hole)
  | S fuel =>
      let right := (2 * (hole + 1))%nat in
      if (right <? len)%nat then
        match l !! right, l !! (right - 1)%nat with
        | Some r, Some s => if comp r s then sift_down fuel (<[hole := s]> l) (right - 1) len else sift_down fuel (<[hole := r]> l) right len
        | _, _ => (l, hole)
        end
      else if (right =? len)%nat then
        match l !! (right - 1)%nat with
        | Some s => (<[hole := s]> l, (right - 1)%nat)
        | None => (l, hole)
        end
      else (l, hole)
  end.

(** [__adjust_heap] on the first [len] elements *)
Definition adjust_heap (l : list A) (hole len : nat) (value : A) : list A :=
  let '(l, bottom) := sift_down len l hole len in sift_up len l bottom hole value.

(** The loop of [__make_heap], from the parent [n - 1] down *)
Fixpoint make_heap_loop (n : nat) (l : list A) : list A :=
  match n with
  | O => l
  | S n =>
      match l !! n with
      | Some value => make_heap_loop n (adjust_heap l n (length l) value)
      | None => make_heap_loop n l
      end
  end.
Definition make_heap (l : list A) : list A := make_heap_loop (length l `div` 2) l.

(** [push_back] and [push_heap] *)
Definition push_heap (l : list A) (value : A) : list A := sift_up (length l) (l ++ [value]) (length l) 0 value.

(** [pop_heap] and [pop_back]: what is left when the front is taken *)
Definition pop_heap (l : list A) : list A :=
  match l with
  | [] => []
  | x :: _ =>
      match last l with
      | Some value => let len := (length l - 1)%nat in if (len =? 0)%nat then [] else adjust_heap (take len l) 0 len value
      | None => []
      end
  end.
End heap.

(** ** Lemmas: nothing is lost *)

Section perm.
Context {A : Type} (comp : A -> A -> bool).

(** Moving the hole: the list with [v] in the hole is the same up to order *)
Lemma move_hole (l : list A) i j v p :
  l !! j = Some p -> (i < length l)%nat -> <[j := v]> (<[i := p]> l) ≡ₚ <[i := v]> l.
Proof.
  intros Hj Hi. destruct (decide (i = j)) as [->|Hn]; [by rewrite list_insert_insert_eq|].
  apply Permutation_inj. split; [by rewrite !length_insert|].
  exists (fun k => if decide (k = i) then j else if decide (k = j) then i else k). split.
  - intros a b. repeat case_decide; congruence.
  - intros k. apply lookup_lt_Some in Hj as Hl. destruct (decide (k = i)) as [->|Hki].
    + rewrite list_lookup_insert_ne, list_lookup_insert_eq by done. by rewrite list_lookup_insert_ne.
    + case_decide as Hkj; [subst k; by rewrite !list_lookup_insert_eq by (rewrite ?length_insert; done)|].
      by rewrite !list_lookup_insert_ne by congruence.
Qed.

Lemma sift_up_perm fuel l hole top v : (hole < length l)%nat -> sift_up comp fuel l hole top v ≡ₚ <[hole := v]> l.
Proof.
  revert l hole. induction fuel as [|fuel IH]; intros l hole Hl; cbn [sift_up]; [done|].
  case_goal; [|done]. destruct (l !! parent hole) as [p|] eqn:Ep; [|done]. case_goal; [|done].
  rewrite IH by (rewrite length_insert; by eapply lookup_lt_Some). by apply move_hole.
Qed.

Lemma sift_down_perm fuel l hole len v l' bottom :
  (hole < length l)%nat -> sift_down comp fuel l hole len = (l', bottom) ->
  (bottom < length l')%nat /\ length l' = length l /\ <[bottom := v]> l' ≡ₚ <[hole := v]> l.
Proof.
  revert l hole. induction fuel as [|fuel IH]; intros l hole Hl; cbn [sift_down]; [by intros [= <- <-]|].
  set (right := (2 * (hole + 1))%nat).
  assert (Hstep : forall j p, l !! j = Some p -> sift_down comp fuel (<[hole := p]> l) j len = (l', bottom) ->
    (bottom < length l')%nat /\ length l' = length l /\ <[bottom := v]> l' ≡ₚ <[hole := v]> l).
  { intros j p Hj Hs. apply IH in Hs as (H1 & H2 & H3); [|rewrite length_insert; by eapply lookup_lt_Some].
    rewrite length_insert in H2. split_and!; [done..|]. rewrite H3. by apply move_hole. }
  case_goal; [|case_goal; [|by intros [= <- <-]]].
  - destruct (l !! right) as [r|] eqn:Er; [|by intros [= <- <-]]. destruct (l !! (right - 1)%nat) as [s|] eqn:Es; [|by intros [= <- <-]].
    case_goal; by apply Hstep.
  - destruct (l !! (right - 1)%nat) as [s|] eqn:Es; [|by intros [= <- <-]]. intros [= <- <-].
    rewrite length_insert. split; [by eapply lookup_lt_Some|]. split; [done|]. by apply move_hole.
Qed.

Lemma adjust_heap_perm l hole len v : (hole < length l)%nat -> adjust_heap comp l hole len v ≡ₚ <[hole := v]> l.
Proof.
  intros Hl. unfold adjust_heap. destruct (sift_down comp len l hole len) as [l' bottom] eqn:Es.
  destruct (sift_down_perm _ _ _ _ v _ _ Hl Es) as (Hb & _ & Hp). by rewrite sift_up_perm.
Qed.

Lemma make_heap_loop_perm n l : make_heap_loop comp n l ≡ₚ l.
Proof.
  revert l. induction n as [|n IH]; intros l; cbn [make_heap_loop]; [done|]. destruct (l !! n) as [v|] eqn:Ev; [|apply IH].
  rewrite IH, adjust_heap_perm by (by eapply lookup_lt_Some). by rewrite list_insert_id.
Qed.

Lemma make_heap_perm l : make_heap comp l ≡ₚ l.
Proof. apply make_heap_loop_perm. Qed.

Lemma push_heap_perm l v : push_heap comp l v ≡ₚ v :: l.
Proof.
  unfold push_heap. rewrite sift_up_perm by (rewrite length_app; cbn; lia).
  rewrite insert_app_r_alt, Nat.sub_diag by done. cbn. by rewrite <- Permutation_cons_append.
Qed.

Lemma pop_heap_perm x l : x :: pop_heap comp (x :: l) ≡ₚ x :: l.
Proof.
  constructor. unfold pop_heap. destruct l as [|y l _] using rev_ind; [done|]. rewrite app_comm_cons, last_snoc.
  assert (Hlen : (length ((x :: l) ++ [y]) - 1)%nat = length (x :: l)) by (rewrite length_app; cbn; lia).
  cbn zeta. rewrite Hlen, take_app_length. cbn [app length Nat.eqb].
  rewrite adjust_heap_perm by (cbn; lia). cbn. by rewrite Permutation_cons_append.
Qed.
End perm.

(** ** Lemmas: the front *)

Record strict_weak {A} (comp : A -> A -> bool) : Prop := {
  sw_asym x y : comp x y = true -> comp y x = false;
  sw_neg_trans x y z : comp x y = false -> comp y z = false -> comp x z = false
}.

Definition child (i c : nat) : Prop := c = (2 * i + 1)%nat \/ c = (2 * i + 2)%nat.

Lemma child_parent i c : child i c -> parent c = i /\ (i < c)%nat.
Proof.
  unfold child, parent. intros Hc. split; [|lia]. symmetry. apply Nat.div_unique with (r := (c - 1 - 2 * i)%nat); lia.
Qed.

Lemma parent_child c : (0 < c)%nat -> child (parent c) c.
Proof. intros Hc. unfold child, parent. pose proof (Nat.div_mod_eq (c - 1) 2). pose proof (Nat.mod_upper_bound (c - 1) 2). lia. Qed.

Section order.
Context {A : Type} (comp : A -> A -> bool) (Hsw : strict_weak comp).

(** No element from [top] on comes before the one above it; [but] is left out *)
Definition ordered_but (Q : nat -> nat -> Prop) (top : nat) (l : list A) : Prop :=
  forall i c x y, (top <= i)%nat -> child i c -> Q i c -> l !! i = Some x -> l !! c = Some y -> comp x y = false.
Definition ordered := ordered_but (fun _ _ => True).

(** The hole's own parent is not before the children of the hole *)
Definition bridged (top hole : nat) (l : list A) : Prop :=
  forall g c x y, (top <= g)%nat -> child g hole -> child hole c -> l !! g = Some x -> l !! c = Some y -> comp x y = false.

(** Reading a list with one place set *)
Lemma lookup_set (l : list A) i k v x : (i < length l)%nat -> <[i := v]> l !! k = Some x -> (k = i /\ x = v) \/ (k <> i /\ l !! k = Some x).
Proof.
  intros Hl. destruct (decide (k = i)) as [->|Hn]; [rewrite list_lookup_insert_eq by done; intros [= <-]; by left|].
  rewrite list_lookup_insert_ne by done. by right.
Qed.

Inductive below (top : nat) : nat -> Prop :=
  | below_top : below top top
  | below_child i c : below top i -> child i c -> below top c.

Lemma below_parent top i : below top i -> (top < i)%nat -> below top (parent i) /\ (top <= parent i)%nat.
Proof.
  assert (Hle : forall i, below top i -> (top <= i)%nat).
  { intros j Hb. induction Hb as [|j c _ IH Hc]; [done|]. apply child_parent in Hc as [_ ?]. lia. }
  intros Hb Hi. destruct Hb as [|j c Hb Hc]; [lia|]. apply child_parent in Hc as [-> _]. auto.
Qed.

Lemma sift_up_ordered fuel l hole top v :
  (hole < length l)%nat -> (hole <= fuel)%nat -> below top hole ->
  ordered_but (fun _ c => c <> hole) top (<[hole := v]> l) -> bridged top hole l -> ordered top (sift_up comp fuel l hole top v).
Proof.
  revert l hole. induction fuel as [|fuel IH]; intros l hole Hl Hf Hb H1 H2; cbn [sift_up].
  { intros i c x y Ht Hc _. destruct (child_parent _ _ Hc) as [_ ?]. apply (H1 i c); [done..|lia]. }
  destruct (Nat.ltb_spec top hole) as [Ht|Ht].
  - destruct (below_parent _ _ Hb Ht) as [Hb' Ht']. pose proof (parent_child hole ltac:(lia)) as Hc. set (up := parent hole) in *.
    destruct (child_parent _ _ Hc) as [_ Hlt]. destruct (l !! up) as [p|] eqn:Ep; [|apply lookup_ge_None in Ep; lia].
    assert (Hrest : forall c y, child up c -> c <> hole -> l !! c = Some y -> comp p y = false).
    { intros c y Hc' Hn Hy. apply (H1 up c); [done..| |]; by rewrite list_lookup_insert_ne by lia. }
    destruct (comp p v) eqn:Ecmp.
    + assert (Hlen : (up < length (<[hole := p]> l))%nat) by (rewrite length_insert; lia).
      apply IH; [rewrite ?length_insert; lia|lia|done| |].
      * intros i c x y Hi Hic Hn Hx Hy. apply lookup_set in Hx, Hy; [|done..]. destruct (child_parent _ _ Hic) as [Hpi Hlt'].
        destruct Hy as [[-> _]|[_ Hy]]; [done|]. apply lookup_set in Hy; [|done]. destruct Hx as [[-> ->]|[Hne Hx]].
        -- destruct Hy as [[-> ->]|[Hne Hy]]; [by apply (sw_asym _ Hsw)|]. specialize (Hrest c y Hic Hne Hy).
           destruct (comp v y) eqn:Evy; [|done]. apply (sw_asym _ Hsw) in Evy. pose proof (sw_neg_trans _ Hsw _ _ _ Hrest Evy). congruence.
        -- apply lookup_set in Hx; [|done]. destruct Hx as [[-> ->]|[Hnh Hx]].
           ++ destruct Hy as [[-> _]|[_ Hy]]; [lia|]. by apply (H2 up c).
           ++ destruct Hy as [[-> _]|[Hnc Hy]]; [unfold up in Hne; congruence|]. apply (H1 i c); [done..| |]; by rewrite list_lookup_insert_ne by congruence.
      * intros g c x y Hg Hgu Huc Hx Hy. apply lookup_set in Hx, Hy; [|done..]. destruct (child_parent _ _ Hgu) as [_ Hlt1].
        destruct Hx as [[-> _]|[_ Hx]]; [lia|].
        assert (Hxp : comp x p = false).
        { apply (H1 g up); [done|done|by apply Nat.lt_neq| |]; by rewrite list_lookup_insert_ne by lia. }
        destruct Hy as [[-> ->]|[Hn Hy]]; [done|]. apply (sw_neg_trans _ Hsw _ p); [done|]. by apply (Hrest c).
    + intros i c x y Hi Hic _ Hx Hy. destruct (decide (c = hole)) as [->|Hn]; [|by apply (H1 i c)].
      apply child_parent in Hic as [Hpi ?]. fold up in Hpi. subst i. rewrite list_lookup_insert_ne in Hx by lia.
      rewrite list_lookup_insert_eq in Hy by done. congruence.
  - intros i c x y Hi Hic _. apply (H1 i c); [done..|]. apply child_parent in Hic as [_ ?]. lia.
Qed.

(** What holds while the hole moves down *)
Definition holed (top hole : nat) (l : list A) : Prop :=
  ordered_but (fun i c => i <> hole /\ c <> hole) top l /\ bridged top hole l /\ below top hole.

Lemma holed_step top hole l j p :
  (hole < length l)%nat -> holed top hole l -> (top <= hole)%nat -> child hole j -> l !! j = Some p ->
  (forall c y, child hole c -> c <> j -> l !! c = Some y -> comp p y = false) -> holed top j (<[hole := p]> l).
Proof.
  intros Hl (H1 & H2 & Hb) Ht Hj Hp Hmax. destruct (child_parent _ _ Hj) as [Hpj Hlt]. split_and!; [| |by eapply below_child].
  - intros i c x y Hi Hic [Hni Hnc] Hx Hy. apply lookup_set in Hx, Hy; [|done..]. destruct (child_parent _ _ Hic) as [Hpi Hlt'].
    destruct Hx as [[-> ->]|[Hn Hx]].
    + destruct Hy as [[-> _]|[_ Hy]]; [lia|]. by apply (Hmax c).
    + destruct Hy as [[-> ->]|[Hn' Hy]]; [by apply (H2 i j)|by apply (H1 i c)].
  - intros g c x y Hg Hgj Hjc Hx Hy. apply child_parent in Hgj as [Hg' _]. assert (g = hole) as -> by congruence.
    destruct (child_parent _ _ Hjc) as [_ ?]. apply lookup_set in Hx, Hy; [|done..].
    destruct Hx as [[_ ->]|[? _]]; [|done]. destruct Hy as [[-> _]|[_ Hy]]; [lia|]. apply (H1 j c); [lia|done|split; lia|done|done].
Qed.

Lemma sift_down_ordered fuel l hole top l' bottom :
  (hole < length l)%nat -> (length l <= hole + fuel)%nat -> (top <= hole)%nat -> holed top hole l ->
  sift_down comp fuel l hole (length l) = (l', bottom) -> holed top bottom l' /\ forall c, child bottom c -> (length l' <= c)%nat.
Proof.
  revert l hole. induction fuel as [|fuel IH]; intros l hole Hl Hf Ht Hh; cbn [sift_down]; [lia|].
  set (right := (2 * (hole + 1))%nat). assert (Hr : child hole right /\ child hole (right - 1)%nat) by (unfold child; lia).
  assert (Hstep : forall j p, child hole j -> l !! j = Some p -> (forall c y, child hole c -> c <> j -> l !! c = Some y -> comp p y = false) ->
    sift_down comp fuel (<[hole := p]> l) j (length l) = (l', bottom) -> holed top bottom l' /\ forall c, child bottom c -> (length l' <= c)%nat).
  { intros j p Hj Hp Hmax. destruct (child_parent _ _ Hj) as [_ ?]. replace (length l) with (length (<[hole := p]> l)) by apply length_insert.
    apply IH; [rewrite length_insert; by eapply lookup_lt_Some|rewrite length_insert; lia|lia|by apply holed_step]. }
  destruct (Nat.ltb_spec right (length l)) as [Hlt|Hge].
  - destruct (l !! right) as [r|] eqn:Er; [|apply lookup_ge_None in Er; lia].
    destruct (l !! (right - 1)%nat) as [s|] eqn:Es; [|apply lookup_ge_None in Es; lia].
    destruct (comp r s) eqn:Ec; apply Hstep; try tauto; intros c y Hc Hn Hy.
    + assert (c = right) as -> by (destruct Hc; unfold right in *; lia). rewrite Er in Hy. injection Hy as <-. by apply (sw_asym _ Hsw).
    + assert (c = (right - 1)%nat) as -> by (destruct Hc; unfold right in *; lia). rewrite Es in Hy. by injection Hy as <-.
  - destruct (Nat.eqb_spec right (length l)) as [He|Hne].
    + destruct (l !! (right - 1)%nat) as [s|] eqn:Es; [|apply lookup_ge_None in Es; lia]. intros [= <- <-]. rewrite length_insert. split.
      * apply holed_step; [done..|tauto|done|]. intros c y Hc Hn Hy. apply lookup_lt_Some in Hy. destruct Hc; unfold right in *; lia.
      * intros c Hc. destruct Hc; unfold right in *; lia.
    + intros [= <- <-]. split; [done|]. intros c Hc. destruct Hc; unfold right in *; lia.
Qed.

Lemma sift_down_length fuel l hole len l' bottom (v : A) :
  (hole < length l)%nat -> sift_down comp fuel l hole len = (l', bottom) -> (bottom < length l')%nat /\ length l' = length l.
Proof. intros Hl Hs. destruct (sift_down_perm comp _ _ _ _ v _ _ Hl Hs) as (H1 & H2 & _). done. Qed.

Lemma adjust_heap_ordered l top v :
  (top < length l)%nat -> ordered_but (fun i _ => i <> top) top l -> ordered top (adjust_heap comp l top (length l) v).
Proof.
  intros Hl Ho. unfold adjust_heap. destruct (sift_down comp (length l) l top (length l)) as [l' bottom] eqn:Es.
  destruct (sift_down_length _ _ _ _ _ _ v Hl Es) as [Hb Hlen].
  assert (Hh : holed top top l).
  { split_and!; [|intros g c x y Hg Hc; apply child_parent in Hc; lia|constructor]. intros i c x y Hi Hic [Hn _]. by apply Ho. }
  destruct (sift_down_ordered (length l) l top top l' bottom Hl ltac:(lia) ltac:(lia) Hh Es) as ((H1 & _ & Hbelow) & Hlast).
  apply sift_up_ordered; [done|lia|done| |].
  - intros i c x y Hi Hic Hn Hx Hy. apply lookup_set in Hx, Hy; [|done..]. destruct Hy as [[-> _]|[_ Hy]]; [done|].
    destruct Hx as [[-> _]|[Hni Hx]]; [apply lookup_lt_Some in Hy; specialize (Hlast c Hic); lia|by apply (H1 i c)].
  - intros g c x y _ _ Hc _ Hy. apply lookup_lt_Some in Hy. specialize (Hlast c Hc). lia.
Qed.

Lemma make_heap_loop_ordered n l : (n <= length l)%nat -> ordered n l -> ordered 0 (make_heap_loop comp n l).
Proof.
  revert l. induction n as [|n IH]; intros l Hn Ho; cbn [make_heap_loop]; [done|].
  destruct (l !! n) as [v|] eqn:Ev; [|apply lookup_ge_None in Ev; lia].
  apply IH; [rewrite (Permutation_length (adjust_heap_perm comp l n (length l) v ltac:(lia))), length_insert; lia|].
  apply adjust_heap_ordered; [lia|]. intros i c x y Hi Hic Hne. apply (Ho i c); [lia|done|done].
Qed.

Lemma make_heap_ordered l : ordered 0 (make_heap comp l).
Proof.
  unfold make_heap. pose proof (Nat.div_mod_eq (length l) 2). pose proof (Nat.mod_upper_bound (length l) 2).
  apply make_heap_loop_ordered; [lia|]. intros i c x y Hi Hic _ _ Hy. apply lookup_lt_Some in Hy. destruct Hic; lia.
Qed.

Lemma below_0 i : below 0 i.
Proof.
  induction (lt_wf i) as [i _ IH]. destruct (decide (i = 0%nat)) as [->|Hn]; [constructor|].
  pose proof (parent_child i ltac:(lia)) as Hc. eapply below_child; [apply IH|exact Hc]. by destruct (child_parent _ _ Hc).
Qed.

Lemma push_heap_ordered l v : ordered 0 l -> ordered 0 (push_heap comp l v).
Proof.
  intros Ho. unfold push_heap. apply sift_up_ordered; [rewrite length_app; cbn; lia|lia|apply below_0| |].
  - intros i c x y Hi Hic Hn Hx Hy. rewrite insert_app_r_alt, Nat.sub_diag in Hx, Hy by done. cbn [insert list_insert] in Hx, Hy.
    destruct (child_parent _ _ Hic) as [_ ?]. apply lookup_lt_Some in Hy as Hlc. rewrite length_app in Hlc. cbn [length] in Hlc.
    rewrite lookup_app_l in Hx, Hy by lia. by apply (Ho i c).
  - intros g c x y _ _ Hc _ Hy. apply lookup_lt_Some in Hy. rewrite length_app in Hy. cbn [length] in Hy. destruct Hc; lia.
Qed.

Lemma ordered_take n l : ordered 0 l -> ordered 0 (take n l).
Proof.
  intros Ho i c x y Hi Hic _ Hx Hy. apply lookup_take_Some in Hx as [Hx _]. apply lookup_take_Some in Hy as [Hy _]. by apply (Ho i c).
Qed.

Lemma pop_heap_ordered l : ordered 0 l -> ordered 0 (pop_heap comp l).
Proof.
  intros Ho. unfold pop_heap. destruct l as [|x l]; [done|]. assert (Hnil : ordered 0 []) by (intros i c y z _ _ _ Hy; done).
  destruct (last (x :: l)) as [v|]; [|done]. cbv zeta. destruct (Nat.eqb_spec (length (x :: l) - 1) 0) as [|Hlen]; [done|].
  set (m := take (length (x :: l) - 1) (x :: l)). assert (Hm : (length (x :: l) - 1)%nat = length m) by (unfold m; rewrite length_take; lia).
  rewrite Hm in *. apply adjust_heap_ordered; [lia|]. intros i c y z Hi Hic _. by apply (ordered_take _ _ Ho).
Qed.

(** The front of a heap is a greatest element *)
Lemma ordered_front x l y : ordered 0 (x :: l) -> y ∈ x :: l -> comp x y = false.
Proof.
  intros Ho [c Hc]%list_elem_of_lookup_1. assert (Hrefl : comp x x = false).
  { destruct (comp x x) eqn:E; [|done]. rewrite <- E. by apply (sw_asym _ Hsw). }
  revert y Hc. induction (lt_wf c) as [c _ IH]. intros y Hy. destruct (decide (c = 0%nat)) as [->|Hn]; [injection Hy as <-; done|].
  pose proof (parent_child c ltac:(lia)) as Hc. destruct (child_parent _ _ Hc) as [_ Hlt].
  destruct ((x :: l) !! parent c) as [z|] eqn:Ez; [|apply lookup_ge_None in Ez; apply lookup_lt_Some in Hy; lia].
  apply (sw_neg_trans _ Hsw _ z); [by apply (IH (parent c))|]. by apply (Ho (parent c) c z y ltac:(lia) Hc).
Qed.
End order.
