(* ===== verification/SigOps.v ===== *)
(** * Bounds on the signature operations of a transaction

    The counters of [GetSigOpCount] and its sums are 32 bits wide.  An opcode counts for
    at most twenty, so that a transaction no longer than a block cannot make them wrap
    around. *)

From S2P Require Import Prelude.
From S2P Require Import Uint256.
From S2P Require Import Serialize.
From S2P Require Import Hash.
From S2P Require Import Transaction.
From S2P Require Import Script.
From S2P Require Import TxRules.
From S2P Require Import TxDB.
From S2P Require Import Connect.

Lemma u32_le n : 0 <= n -> 0 <= u32 n <= n.
Proof. intros Hn. split; [apply wrap_range; lia|]. unfold wrap. by apply Z.mod_le. Qed.

Lemma DecodeOP_N_small op : 0 <= default 0 (DecodeOP_N op) <= 20.
Proof. unfold DecodeOP_N. repeat case_goal; bool_prop; cbn; lia. Qed.

Lemma sigop_loop_bound fuel acc last pc n : 0 <= n -> 0 <= sigop_loop fuel acc last pc n <= n + 20 * Z.of_nat (length pc).
Proof.
  revert last pc n. induction fuel as [|fuel IH]; intros last pc n Hn; cbn [sigop_loop]; [lia|].
  destruct pc as [|b pc]; [cbn; lia|]. set (l := b :: pc). destruct (GetOp2 l) as [[[opcode d]|] pc'] eqn:Eo; [|lia].
  apply GetOp2_length in Eo. set (n' := if (opcode =? OP_CHECKSIG) || (opcode =? OP_CHECKSIGVERIFY) then _ else _).
  assert (0 <= n' <= n + 20) as Hn'.
  { unfold n'. pose proof (DecodeOP_N_small last). repeat case_goal; try lia;
      match goal with |- 0 <= wrap 32 ?x <= _ => pose proof (u32_le x) end; lia. }
  specialize (IH opcode pc' n'). lia.
Qed.

Lemma GetSigOpCount_bound acc script : 0 <= GetSigOpCount acc script <= 20 * Z.of_nat (length script).
Proof. apply (sigop_loop_bound _ _ _ script 0). lia. Qed.

Lemma GetOp2_data pc op d pc' : GetOp2 pc = (Some (op, d), pc') -> (length d <= length pc)%nat.
Proof.
  assert (Ht : forall o n p, take_operand o n p = (Some (op, d), pc') -> (length d <= length p)%nat).
  { intros o n p. unfold take_operand. case_goal; [done|]. intros [= _ <- _]. rewrite length_take. lia. }
  destruct pc as [|opcode pc]; [done|]. cbn [GetOp2]. destruct (opcode <=? OP_PUSHDATA4); [|intros [= _ <- _]; cbn; lia].
  destruct (opcode <? OP_PUSHDATA1); [intros Hd%Ht; cbn; lia|]. destruct (opcode =? OP_PUSHDATA1).
  { destruct pc as [|n pc]; [done|]. intros Hd%Ht. cbn. lia. }
  destruct (opcode =? OP_PUSHDATA2); (case_goal; [done|]; intros Hd%Ht; rewrite length_drop in Hd; cbn; lia).
Qed.

Lemma last_push_length fuel pc data d : last_push fuel pc data = Some d -> (length d <= Nat.max (length data) (length pc))%nat.
Proof.
  revert pc data. induction fuel as [|fuel IH]; intros pc data; cbn [last_push]; [intros [= ->]; lia|].
  destruct pc as [|b pc]; [intros [= ->]; lia|]. set (l := b :: pc). destruct (GetOp2 l) as [[[opcode d']|] pc'] eqn:Eo; [|done].
  pose proof (GetOp2_length _ _ _ Eo). apply GetOp2_data in Eo. case_goal; [done|]. intros Hd%IH. lia.
Qed.

Lemma GetSigOpCount_P2SH_bound script sig :
  IsPayToScriptHash script = true -> 0 <= GetSigOpCount_P2SH script sig <= 20 * Z.of_nat (length sig).
Proof.
  intros Hp. unfold GetSigOpCount_P2SH. rewrite Hp. cbn [negb]. destruct (last_push _ sig []) as [d|] eqn:El; [|lia].
  apply last_push_length in El. cbn [length] in El. pose proof (GetSigOpCount_bound true d). lia.
Qed.

(** ** Sums over a transaction *)

Definition in_bytes (ins : list CTxIn) : Z := foldr (fun i n => Z.of_nat (length (scriptSig i)) + n) 0 ins.
Definition out_bytes (outs : list CTxOut) : Z := foldr (fun o n => Z.of_nat (length (scriptPubKey o)) + n) 0 outs.

Lemma in_bytes_nonneg ins : 0 <= in_bytes ins.
Proof. induction ins as [|i ins IH]; cbn; [lia|]. unfold in_bytes in IH. lia. Qed.

Lemma out_bytes_nonneg outs : 0 <= out_bytes outs.
Proof. induction outs as [|o outs IH]; cbn; [lia|]. unfold out_bytes in IH. lia. Qed.

Lemma legacy_bound tx : 0 <= GetLegacySigOpCount tx <= 20 * (in_bytes (vin tx) + out_bytes (vout tx)).
Proof.
  assert (Hin : forall ins n, 0 <= n -> 0 <= foldl (fun n i => u32 (n + GetSigOpCount false (scriptSig i))) n ins <= n + 20 * in_bytes ins).
  { intros ins. induction ins as [|i ins IH]; intros n Hn; cbn [foldl in_bytes foldr]; [lia|]. fold (in_bytes ins).
    pose proof (GetSigOpCount_bound false (scriptSig i)). pose proof (u32_le (n + GetSigOpCount false (scriptSig i))).
    specialize (IH (u32 (n + GetSigOpCount false (scriptSig i)))). lia. }
  assert (Hout : forall outs n, 0 <= n -> 0 <= foldl (fun n o => u32 (n + GetSigOpCount false (scriptPubKey o))) n outs <= n + 20 * out_bytes outs).
  { intros outs. induction outs as [|i outs IH]; intros n Hn; cbn [foldl out_bytes foldr]; [lia|]. fold (out_bytes outs).
    pose proof (GetSigOpCount_bound false (scriptPubKey i)). pose proof (u32_le (n + GetSigOpCount false (scriptPubKey i))).
    specialize (IH (u32 (n + GetSigOpCount false (scriptPubKey i)))). lia. }
  unfold GetLegacySigOpCount. specialize (Hin (vin tx) 0). specialize (Hout (vout tx) _ (proj1 (Hin ltac:(lia)))). lia.
Qed.

Lemma p2sh_bound tx inputs n : GetP2SHSigOpCount tx inputs = Some n -> 0 <= n <= 20 * in_bytes (vin tx).
Proof.
  unfold GetP2SHSigOpCount. pose proof (in_bytes_nonneg (vin tx)). destruct (IsCoinBase tx); [intros [= <-]; lia|].
  enough (Hl : forall ins m r, 0 <= m -> p2sh_sigops_loop ins inputs m = Some r -> 0 <= r <= m + 20 * in_bytes ins) by (intros Hn%Hl; lia).
  intros ins. induction ins as [|i ins IH]; intros m r Hm; cbn [p2sh_sigops_loop in_bytes foldr]; [intros [= <-]; lia|]. fold (in_bytes ins).
  destruct (GetOutputFor i inputs) as [o|]; [|done]. cbn [mbind option_bind]. intros Hr.
  destruct (IsPayToScriptHash (scriptPubKey o)) eqn:Ep.
  - pose proof (GetSigOpCount_P2SH_bound _ (scriptSig i) Ep). pose proof (u32_le (m + GetSigOpCount_P2SH (scriptPubKey o) (scriptSig i))).
    apply IH in Hr; lia.
  - apply IH in Hr; lia.
Qed.

(** ** The length of a transaction *)

(** Its true length, where [GetSerializeSize] is modulo [2^32] *)
Definition tx_bytes (tx : CTransaction) : Z := Z.of_nat (length (Serialize tx_codec tx)).

Lemma vector_bytes {T} (sz : Z) (c : Codec T) (f : T -> list Z) (l : list T) :
  (forall x, (length (f x) <= length (Serialize c x))%nat) ->
  foldr (fun x n => Z.of_nat (length (f x)) + n) 0 l <= Z.of_nat (length (Serialize (vector_codec sz c) l)).
Proof.
  intros Hf. cbn [Serialize vector_codec]. rewrite length_app.
  enough (foldr (fun x n => Z.of_nat (length (f x)) + n) 0 l <= Z.of_nat (length (mjoin (Serialize c <$> l)))) by lia.
  induction l as [|x l IH]; [cbn; lia|]. change (mjoin (Serialize c <$> x :: l)) with (Serialize c x ++ mjoin (Serialize c <$> l)).
  cbn [foldr]. rewrite length_app. specialize (Hf x). lia.
Qed.

Lemma tx_bytes_scripts tx : in_bytes (vin tx) + out_bytes (vout tx) <= tx_bytes tx.
Proof.
  unfold tx_bytes. cbn [Serialize tx_codec]. rewrite !length_app.
  pose proof (vector_bytes sizeof_CTxIn txin_codec scriptSig (vin tx)) as Hi. pose proof (vector_bytes sizeof_CTxOut txout_codec scriptPubKey (vout tx)) as Ho.
  fold (in_bytes (vin tx)) in Hi. fold (out_bytes (vout tx)) in Ho.
  assert (forall b, (length b <= length (Serialize vch_codec b))%nat) as Hv by (intros b; cbn; rewrite length_app; lia).
  lapply Hi; [clear Hi; intros Hi|intros x; cbn [Serialize txin_codec]; rewrite !length_app; specialize (Hv (scriptSig x)); unfold script_codec; lia].
  lapply Ho; [clear Ho; intros Ho|intros x; cbn [Serialize txout_codec]; rewrite !length_app; specialize (Hv (scriptPubKey x)); unfold script_codec; lia].
  lia.
Qed.

(** A transaction no longer than a block *)
Lemma small_tx tx : tx_bytes tx <= MAX_BLOCK_SIZE ->
  0 <= GetLegacySigOpCount tx <= 20 * MAX_BLOCK_SIZE /\
  (forall inputs n, GetP2SHSigOpCount tx inputs = Some n -> 0 <= n <= 20 * MAX_BLOCK_SIZE) /\
  (tx_ok tx -> u32 (GetSerializeSize tx_codec tx) = tx_bytes tx).
Proof.
  intros Hb. pose proof (tx_bytes_scripts tx). pose proof (legacy_bound tx). pose proof (in_bytes_nonneg (vin tx)).
  pose proof (out_bytes_nonneg (vout tx)).
  split; [lia|]. split; [intros inputs n Hn%p2sh_bound; lia|]. intros Ht. rewrite codec_size by done. fold (tx_bytes tx).
  assert (0 <= tx_bytes tx < 2 ^ 32) by (unfold MAX_BLOCK_SIZE, tx_bytes in *; lia). by rewrite !wrap_small by (rewrite ?wrap_small; lia).
Qed.
