(* ===== verification/Miner.v ===== *)
(** * Making blocks: [miner.cpp], [CBlock::SignPoSBlock] of [main.cpp]

    [CreateNewBlock] fills a block with transactions of the memory pool, [SignPoSBlock]
    adds a coinstake of the wallet and signs, [CheckStake] and [CheckWork] hand the block
    over as if a peer had sent it; [StakeMiner] repeats this.  Numbers of type [double]
    are the binary64 numbers of the Standard Library.  [vOrphan] keeps the transactions
    that wait for others of the pool; a pointer to an element is its number, never used
    again, and reading through the pointer of an element that is gone is undefined.  The
    sleeping and the threads of [StakeMiner] are left out. *)

From Stdlib Require Import SpecFloat.
From S2P Require Import Prelude.
From S2P Require Import Heap.
From S2P Require Import Uint256.
From S2P Require Import BigNum.
From S2P Require Import Serialize.
From S2P Require Import Hash.
From S2P Require Import Transaction.
From S2P Require Import Script.
From S2P Require Import Interp.
From S2P Require Import Key.
From S2P Require Import SigCheck.
From S2P Require Import Templates.
From S2P Require Import KeyStore.
From S2P Require Import Block.
From S2P Require Import TxRules.
From S2P Require Import TxDB.
From S2P Require Import Chain.
From S2P Require Import Rewards.
From S2P Require Import BlockRules.
From S2P Require Import Connect.
From S2P Require Import MemPool.
From S2P Require Import BlockTree.
From S2P Require Import Checkpoints.
From S2P Require Import Kernel.
From S2P Require Import Reorganize.
From S2P Require Import Accept.
From S2P Require Import Process.
From S2P Require Import Util.
From S2P Require Import KeyPool.
From S2P Require Import Wallet.
From S2P Require Import CoinSelect.
From S2P Require Import CreateTx.
From S2P Require Import Stake.

(** ** Numbers of type [double] *)

Abbreviation double := spec_float.
Definition to_double (n : Z) : double := binary_normalize 53 1024 n 0 false.
Definition d_add : double -> double -> double := SFadd 53 1024.
Definition d_mul : double -> double -> double := SFmul 53 1024.
Definition d_div : double -> double -> double := SFdiv 53 1024.

(** ** Priorities *)

(** Priority, fee per kilobyte, transaction *)
Definition TxPriority : Type := double * double * CTransaction.

Definition TxPriorityCompare (byFee : bool) (a b : TxPriority) : bool :=
  let '(p1, f1, _) := a in
  let '(p2, f2, _) := b in
  if byFee then if SFeqb f1 f2 then SFltb p1 p2 else SFltb f1 f2
  else if SFeqb p1 p2 then SFltb f1 f2 else SFltb p1 p2.

Record COrphan := mkCOrphan {
  orphan_tx : CTransaction;
  setDependsOn : gset (list Z);
  orphan_dPriority : double;
  orphan_dFeePerKb : double
}.
Definition COrphan_of (tx : CTransaction) : COrphan := mkCOrphan tx ∅ (to_double 0) (to_double 0).

(** The locals of the first loop of [CreateNewBlock]; elements of [vOrphan] are numbered
    as they are added *)
Record Collecting := mkCollecting {
  vOrphan : gmap nat COrphan;
  nOrphans : nat;
  mapDependers : gmap (list Z) (list nat);
  vecPriority : list TxPriority
}.

(** The locals of its loop over the inputs *)
Record Summing := mkSumming {
  sm_lists : Collecting;
  porphan : option nat;
  sm_dPriority : double;
  nTotalIn : Z
}.

Definition with_orphans (m : gmap nat COrphan) (l : Collecting) : Collecting :=
  mkCollecting m (nOrphans l) (mapDependers l) (vecPriority l).
Definition with_priority (v : list TxPriority) (l : Collecting) : Collecting :=
  mkCollecting (vOrphan l) (nOrphans l) (mapDependers l) v.

(** The transaction waits for the one of hash [h] *)
Definition wait_for (tx : CTransaction) (h : list Z) (sm : Summing) : Summing :=
  let l := sm_lists sm in
  let '(id, l) :=
    match porphan sm with
    | Some id => (id, l)
    | None => (nOrphans l, mkCollecting (<[nOrphans l := COrphan_of tx]> (vOrphan l)) (S (nOrphans l)) (mapDependers l) (vecPriority l))
    end in
  let depends o := mkCOrphan (orphan_tx o) ({[h]} ∪ setDependsOn o) (orphan_dPriority o) (orphan_dFeePerKb o) in
  mkSumming
    (mkCollecting (alter depends id (vOrphan l)) (nOrphans l) (<[h := default [] (mapDependers l !! h) ++ [id]]> (mapDependers l)) (vecPriority l))
    (Some id) (sm_dPriority sm) (nTotalIn sm).

(** [if (porphan) vOrphan.pop_back()]: the pointers in [mapDependers] stay *)
Definition drop_orphan (sm : Summing) : Collecting :=
  match porphan sm with
  | Some id => with_orphans (delete id (vOrphan (sm_lists sm))) (sm_lists sm)
  | None => sm_lists sm
  end.

Definition add_input (nValueIn : Z) (dPriority : double) (sm : Summing) : Summing :=
  mkSumming (sm_lists sm) (porphan sm) dPriority (i64 (nTotalIn sm + nValueIn)).

(** How the miner's loops end: [MineFails] is undefined behaviour, a failed [assert] or an
    exception; the state is not followed then *)
Inductive mined (A : Type) := Mined (a : A) | MineFails | OutOfFuel.
Arguments Mined {A} _.
Arguments MineFails {A}.
Arguments OutOfFuel {A}.

(** What the command line asks: sizes, [-mintxfee] when it is given, [-debug] *)
Record MineOptions := mkMineOptions {
  blockmaxsize : Z;
  blockprioritysize : Z;
  blockminsize : Z;
  mintxfee : option (list Z);
  fDebug : bool
}.
Definition nBlockMaxSize (mo : MineOptions) : Z := Z.max 1000 (Z.min (MAX_BLOCK_SIZE - 1000) (u32 (blockmaxsize mo))).
Definition nBlockPrioritySize (mo : MineOptions) : Z := Z.min (nBlockMaxSize mo) (u32 (blockprioritysize mo)).
Definition nBlockMinSize (mo : MineOptions) : Z := Z.min (nBlockMaxSize mo) (u32 (blockminsize mo)).
Definition nMinTxFee (mo : MineOptions) : Z := default MIN_TX_FEE (mintxfee mo ≫= ParseMoney).

(** The locals of the loop that fills the block; [blk_txs] are the transactions after the
    coinbase *)
Record Filling := mkFilling {
  queue : list TxPriority;
  waiting_orphans : gmap nat COrphan;
  mapTestPool : TestPool;
  blk_txs : list CTransaction;
  nBlockSize : Z;
  nBlockTx : Z;
  nBlockSigOps : Z;
  fl_nFees : Z;
  fSortedByFee : bool;
  fl_cache : CSignatureCache
}.

Definition with_queue (q : list TxPriority) (f : Filling) : Filling :=
  mkFilling q (waiting_orphans f) (mapTestPool f) (blk_txs f) (nBlockSize f) (nBlockTx f) (nBlockSigOps f) (fl_nFees f) (fSortedByFee f) (fl_cache f).
Definition with_fl_cache (c : CSignatureCache) (f : Filling) : Filling :=
  mkFilling (queue f) (waiting_orphans f) (mapTestPool f) (blk_txs f) (nBlockSize f) (nBlockTx f) (nBlockSigOps f) (fl_nFees f) (fSortedByFee f) c.

(** What the miner keeps between blocks: globals, the two static variables and the counter
    of [StakeMiner] *)
Record MinerState := mkMiner {
  nLastBlockTx : Z;
  nLastBlockSize : Z;
  nLastCoinStakeSearchInterval : Z;
  nLastCoinStakeSearchTime : Z;
  ms_hashPrevBlock : list Z;
  nExtraNonce : Z
}.

Section miner.
Context {B : BNOps} {E : ECOps} {SO : ECSecretOps E} {P : SecpOps} {C : CipherOps} {H : HashOps} {F : Files} {G : BlockFiles}.
Context {OO : OrderOps}.
Context (EC_KEY_generate_key : nat -> EC_KEY) (i2d_ECPrivateKey : EC_KEY -> list Z).
Context (par : Params) (s : ChainState) (mo : MineOptions).

(** ** [CreateNewBlock]: the transactions of the pool *)

(** [CTxIndex::GetDepthInMainChain] *)
Definition txindex_depth (x : CTxIndex) : Z :=
  match read_header (nFile (pos x)) (nBlockPos (pos x)) with
  | None => 0
  | Some block =>
      let hash := (CBlock_GetHash block).1 in
      match mapBlockIndex s !! hash with
      | None => 0
      | Some pindex =>
          if negb (IsInMainChain (mapBlockIndex s) (pindexBest s) hash) then 0
          else 1 + cs_nBestHeight s - bi_nHeight (node pindex)
      end
  end.

(** The loop over the inputs: [MineFails] for an output that does not exist or the failed
    [assert] of [fDebug]; [None] where an input is missing *)
Fixpoint sum_inputs (tx : CTransaction) (ins : list CTxIn) (sm : Summing) : mined (Collecting + Summing) :=
  match ins with
  | [] => Mined (inr sm)
  | txin :: ins =>
      match ReadFromDisk (T := leveldb_store) (read_db s) (prevout txin) with
      | None =>
          match mapTx (mempool s) !! op_hash (prevout txin) with
          | None => if fDebug mo then MineFails else Mined (inl (drop_orphan sm))
          | Some txPrev =>
              match vout txPrev !! Z.to_nat (op_n (prevout txin)) with
              | None => MineFails
              | Some o => sum_inputs tx ins (add_input (nValue o) (sm_dPriority sm) (wait_for tx (op_hash (prevout txin)) sm))
              end
          end
      | Some (txPrev, txindex) =>
          match vout txPrev !! Z.to_nat (op_n (prevout txin)) with
          | None => MineFails
          | Some o =>
              sum_inputs tx ins (add_input (nValue o)
                (d_add (sm_dPriority sm) (d_mul (to_double (nValue o)) (to_double (txindex_depth txindex)))) sm)
          end
      end
  end.

(** One transaction of the pool *)
Definition collect_tx (nHeight : Z) (tx : CTransaction) (l : Collecting) : mined Collecting :=
  if IsCoinBase tx || IsCoinStake tx || negb (IsFinalTx (cs_nBestHeight s) (now par) tx nHeight 0) then Mined l
  else
    match sum_inputs tx (vin tx) (mkSumming l None (to_double 0) 0) with
    | MineFails => MineFails
    | OutOfFuel => OutOfFuel
    | Mined (inl l) => Mined l
    | Mined (inr sm) =>
        match GetValueOut tx with
        | None => MineFails
        | Some nValueOut =>
            let nTxSize := u32 (GetSerializeSize tx_codec tx) in
            let dPriority := d_div (sm_dPriority sm) (to_double nTxSize) in
            let dFeePerKb := d_div (to_double (i64 (nTotalIn sm - nValueOut))) (d_div (to_double nTxSize) (to_double 1000)) in
            let l := sm_lists sm in
            Mined
              match porphan sm with
              | Some id => with_orphans (alter (fun o => mkCOrphan (orphan_tx o) (setDependsOn o) dPriority dFeePerKb) id (vOrphan l)) l
              | None => with_priority (vecPriority l ++ [(dPriority, dFeePerKb, tx)]) l
              end
        end
    end.

Fixpoint collect_loop (nHeight : Z) (txs : list CTransaction) (l : Collecting) : mined Collecting :=
  match txs with
  | [] => Mined l
  | tx :: txs =>
      match collect_tx nHeight tx l with
      | Mined l => collect_loop nHeight txs l
      | r => r
      end
  end.

(** ** [CreateNewBlock]: filling the block *)

(** The transactions that wait for the one of hash [h] *)
Fixpoint release (byFee : bool) (h : list Z) (ids : list nat) (q : list TxPriority) (m : gmap nat COrphan) :
    option (list TxPriority * gmap nat COrphan) :=
  match ids with
  | [] => Some (q, m)
  | id :: ids =>
      o ← m !! id;
      if bool_decide (setDependsOn o = ∅) then release byFee h ids q m
      else
        let deps := setDependsOn o ∖ {[h]} in
        let m := <[id := mkCOrphan (orphan_tx o) deps (orphan_dPriority o) (orphan_dFeePerKb o)]> m in
        release byFee h ids
          (if bool_decide (deps = ∅) then push_heap (TxPriorityCompare byFee) q (orphan_dPriority o, orphan_dFeePerKb o, orphan_tx o) else q) m
  end.

(** Past the size for priority, or where the priority is low, the queue is ordered by fee *)
Definition resort (nTxSize : Z) (dPriority : double) (f : Filling) : Filling :=
  if negb (fSortedByFee f) &&
     ((nBlockPrioritySize mo <=? u64 (nBlockSize f + nTxSize)) || SFltb dPriority (to_double (COIN * 144 / 250)))
  then mkFilling (make_heap (TxPriorityCompare true) (queue f)) (waiting_orphans f) (mapTestPool f) (blk_txs f) (nBlockSize f) (nBlockTx f)
         (nBlockSigOps f) (fl_nFees f) true (fl_cache f)
  else f.

(** The transaction is connected and goes into the block; [f] has been sorted again *)
Definition connect_to_block (depends : gmap (list Z) (list nat)) (chain : list CBlockIndex) (tx : CTransaction) (nTxSize nTxSigOps nMinFee : Z)
    (f : Filling) : option Filling :=
  match FetchInputs (T := leveldb_store) (read_db s) (mapTestPool f) (mapTx (mempool s)) false true tx with
  | NotFetched _ _ => Some f
  | Fetched mapInputs =>
      nValueIn ← GetValueIn tx mapInputs;
      nValueOut ← GetValueOut tx;
      let nTxFees := i64 (nValueIn - nValueOut) in
      if nTxFees <? nMinFee then Some f
      else
        nP2SH ← GetP2SHSigOpCount tx mapInputs;
        let nTxSigOps := u32 (nTxSigOps + nP2SH) in
        if MAX_BLOCK_SIGOPS <=? u32 (nBlockSigOps f + nTxSigOps) then Some f
        else
          match ConnectInputs (T := leveldb_store) (par_at par s) (mkMode false true true MANDATORY_SCRIPT_VERIFY_FLAGS false) (read_db s) tx
                  mapInputs (mapTestPool f) POOL_POS chain (fl_cache f) with
          | (Throws, _) => None
          | (Fail _, c) => Some (with_fl_cache c f)
          | (Done (pool, _), c) =>
              let hash := CTransaction_GetHash tx in
              '(q, m) ← release (fSortedByFee f) hash (default [] (depends !! hash)) (queue f) (waiting_orphans f);
              Some (mkFilling q m (<[hash := CTxIndex_new POOL_POS (length (vout tx))]> pool) (blk_txs f ++ [tx])
                (u64 (nBlockSize f + nTxSize)) (u64 (nBlockTx f + 1)) (u32 (nBlockSigOps f + nTxSigOps)) (i64 (fl_nFees f + nTxFees))
                (fSortedByFee f) c)
          end
  end.

(** One round, with the item taken off the queue; [nTimeMax] is the time of the coinbase *)
Definition fill_step (fProofOfStake : bool) (depends : gmap (list Z) (list nat)) (chain : list CBlockIndex) (nTimeMax : Z)
    (item : TxPriority) (f : Filling) : option Filling :=
  let '(dPriority, dFeePerKb, tx) := item in
  let nTxSize := u32 (GetSerializeSize tx_codec tx) in
  if nBlockMaxSize mo <=? u64 (nBlockSize f + nTxSize) then Some f
  else
    let nTxSigOps := GetLegacySigOpCount tx in
    if MAX_BLOCK_SIGOPS <=? u32 (nBlockSigOps f + nTxSigOps) then Some f
    else if (now par <? nTime tx) || (fProofOfStake && (nTimeMax <? nTime tx)) then Some f
    else
      let nMinFee := GetMinFee (u32 (nBlockSize f)) false GMF_BLOCK 0 tx in
      if fSortedByFee f && SFltb dFeePerKb (to_double (nMinTxFee mo)) && (nBlockMinSize mo <=? u64 (nBlockSize f + nTxSize)) then Some f
      else connect_to_block depends chain tx nTxSize nTxSigOps nMinFee (resort nTxSize dPriority f).

Fixpoint mine_loop (fuel : nat) (fProofOfStake : bool) (depends : gmap (list Z) (list nat)) (chain : list CBlockIndex) (nTimeMax : Z)
    (f : Filling) : mined Filling :=
  match queue f with
  | [] => Mined f
  | item :: _ =>
      match fuel with
      | O => OutOfFuel
      | S fuel =>
          match fill_step fProofOfStake depends chain nTimeMax item (with_queue (pop_heap (TxPriorityCompare (fSortedByFee f)) (queue f)) f) with
          | None => MineFails
          | Some f => mine_loop fuel fProofOfStake depends chain nTimeMax f
          end
      end
  end.

(** The transactions of the pool and what the block is filled with; every transaction of
    the pool is taken off the queue at most once *)
Definition fill_block (fProofOfStake : bool) (chain : list CBlockIndex) (nHeight nTimeMax : Z) : mined Filling :=
  match collect_loop nHeight (map_entries (mapTx (mempool s))).*2 (mkCollecting ∅ 0 ∅ []) with
  | Mined l =>
      let byFee := nBlockPrioritySize mo <=? 0 in
      mine_loop (base.size (mapTx (mempool s))) fProofOfStake (mapDependers l) chain nTimeMax
        (mkFilling (make_heap (TxPriorityCompare byFee) (vecPriority l)) (vOrphan l) ∅ [] 1000 0 100 0 byFee (sigcache s))
  | MineFails => MineFails
  | OutOfFuel => OutOfFuel
  end.

(** ** [CreateNewBlock] *)

Definition best_chain : list CBlockIndex := way (mapBlockIndex s) (pindexBest s).

(** [txNew] with the outputs [outs] *)
Definition coinbase_with (outs : list CTxOut) : CTransaction := mkTx CURRENT_VERSION (now par) [CTxIn_null] outs 0.

(** The coinbase and the wallet, whose reserved key goes back at the end of the block it
    is declared in, also by an exception; [None] where there is no key *)
Definition new_coinbase (keypool GetTime : Z) (fProofOfStake : bool) (w : CWallet) : call CWallet (option CTransaction) :=
  if fProofOfStake then Returned (Some (coinbase_with [CTxOut_SetEmpty])) w
  else
    match GetReservedKey EC_KEY_generate_key i2d_ECPrivateKey keypool GetTime CReserveKey_new (wkeys w) with
    | Thrown (k, keys) => Thrown (with_keys (reserve_ReturnKey k keys).2 w)
    | Returned pubkey (k, keys) =>
        Returned ((fun pubkey => coinbase_with [mkTxOut (-1) (push_op (push_vch [] pubkey) OP_CHECKSIG)]) <$> pubkey)
          (with_keys (reserve_ReturnKey k keys).2 w)
    end.

(** The header of a block of transactions [txs] on top of [prev] *)
Definition new_header (fProofOfStake : bool) (prev : CBlockIndex) (chain : list CBlockIndex) (nBits : Z) (txs : list CTransaction) : CBlock :=
  let b := mkBlock CBlock_CURRENT_VERSION (bi_hash prev) (assign64 WIDTH256 0) 0 nBits 0 txs [] [] (assign64 WIDTH256 0) false in
  let b := with_header b (hashMerkleRoot b) (u32 (Z.max (GetPastTimeLimit chain + 1) (GetMaxTransactionTime b))) 0 in
  let b := with_header b (hashMerkleRoot b) (u32 (Z.max (GetBlockTime b) (PastDrift (bi_GetBlockTime prev)))) 0 in
  if fProofOfStake then b else UpdateTime (now par) b.

Definition with_last (f : Filling) (ms : MinerState) : MinerState :=
  mkMiner (nBlockTx f) (nBlockSize f) (nLastCoinStakeSearchInterval ms) (nLastCoinStakeSearchTime ms) (ms_hashPrevBlock ms) (nExtraNonce ms).

Definition set_coinbase_value (v : Z) (tx : CTransaction) : CTransaction :=
  with_inout (vin tx) (set_value 0 v (vout tx)) tx.

(** The block, [None] for [NULL]; the signature cache may grow *)
Definition CreateNewBlock (keypool GetTime : Z) (fProofOfStake : bool) (w : CWallet) (ms : MinerState) :
    mined (option CBlock * CWallet * MinerState * CSignatureCache) :=
  match new_coinbase keypool GetTime fProofOfStake w with
  | Thrown _ => MineFails
  | Returned None w => Mined (None, w, ms, sigcache s)
  | Returned (Some txNew) w =>
      match best_chain, GetNextTargetRequired (fTestNet par) (cs_nBestHeight s) best_chain fProofOfStake with
      | prev :: _, Some nBits =>
          match fill_block fProofOfStake best_chain (bi_nHeight prev + 1) (nTime txNew) with
          | MineFails => MineFails
          | OutOfFuel => OutOfFuel
          | Mined f =>
              let txNew := if fProofOfStake then txNew else set_coinbase_value GetProofOfWorkReward txNew in
              Mined (Some (new_header fProofOfStake prev best_chain nBits (txNew :: blk_txs f)), w, with_last f ms, fl_cache f)
          end
      | _, _ => MineFails
      end
  end.

(** ** [IncrementExtraNonce] *)

(** [COINBASE_FLAGS] is never given a value *)
Definition COINBASE_FLAGS : list Z := [].

(** [None]: the block has no coinbase, or the [assert] fails *)
Definition IncrementExtraNonce (nHeightPrev : Z) (b : CBlock) (ms : MinerState) : option (CBlock * MinerState) :=
  let fresh := op_ne (ms_hashPrevBlock ms) (hashPrevBlock b) in
  let nExtraNonce := u32 ((if fresh then 0 else nExtraNonce ms) + 1) in
  let ms := mkMiner (nLastBlockTx ms) (nLastBlockSize ms) (nLastCoinStakeSearchInterval ms) (nLastCoinStakeSearchTime ms)
    (if fresh then hashPrevBlock b else ms_hashPrevBlock ms) nExtraNonce in
  match vtx b with
  | cb :: txs =>
      match vin cb with
      | txin :: ins =>
          let scriptSig := push_bignum (push_uint64 [] (u32 (nHeightPrev + 1))) (CBigNum_of_ulong nExtraNonce) ++ COINBASE_FLAGS in
          if 100 <? Z.of_nat (length scriptSig) then None
          else
            let cb := with_inout (mkTxIn (prevout txin) scriptSig (nSequence txin) :: ins) (vout cb) cb in
            let '(merkle, b) := BuildMerkleTree (with_vtx b (cb :: txs)) in
            Some (with_header b merkle (blk_nTime b) (nNonce b), ms)
      | [] => None
      end
  | [] => None
  end.

(** ** [CBlock::SignPoSBlock] *)

Definition with_time (t : Z) (tx : CTransaction) : CTransaction := mkTx (nVersion tx) t (vin tx) (vout tx) (nLockTime tx).

(** The time a block of these transactions takes on top of the best chain *)
Definition stake_block_time (prev : CBlockIndex) (b : CBlock) : Z :=
  let b := with_header b (hashMerkleRoot b) (u32 (Z.max (GetPastTimeLimit best_chain + 1) (GetMaxTransactionTime b))) (nNonce b) in
  u32 (Z.max (GetBlockTime b) (PastDrift (bi_GetBlockTime prev))).

(** The block with the coinstake in its place, not signed yet; [None]: the transactions
    that are removed take the coinbase with them and the iterator is past the end *)
Definition insert_stake (prev : CBlockIndex) (tx : CTransaction) (b : CBlock) : option CBlock :=
  match vtx b with
  | [] => None
  | cb :: txs =>
      let b := with_vtx b (with_time (nTime tx) cb :: txs) in
      let b := with_header b (hashMerkleRoot b) (stake_block_time prev b) (nNonce b) in
      match filter (fun t => nTime t <= blk_nTime b) (vtx b) with
      | [] => None
      | cb :: txs =>
          let '(merkle, b) := BuildMerkleTree (with_vtx b (cb :: tx :: txs)) in
          Some (Block.with_cache (with_header b merkle (blk_nTime b) (nNonce b)) (hashCache b) false)
      end
  end.

Definition searched (nSearchTime : Z) (ms : MinerState) : MinerState :=
  mkMiner (nLastBlockTx ms) (nLastBlockSize ms) (nSearchTime - nLastCoinStakeSearchTime ms) nSearchTime (ms_hashPrevBlock ms) (nExtraNonce ms).

(** The arguments of [CreateCoinStake] are those of the wallet's options *)
Definition SignPoSBlock (depth : nat) (opt : WalletOptions) (snd_opt : SendOptions) (so : StakeOptions) (rounds fuel : nat)
    (keep_on : nat -> Z -> bool) (b : CBlock) (st : StakeWallet) (ms : MinerState) (c : CSignatureCache) :
    option (bool * CBlock * StakeWallet * MinerState * CSignatureCache) :=
  o ← head (vtx b) ≫= (fun cb => head (vout cb));
  if negb (CTxOut_IsEmpty o) then Some (false, b, st, ms, c)
  else if IsProofOfStake b then Some (true, b, st, ms, c)
  else
    let txCoinStake := CTransaction_SetNull (now par) in
    let nSearchTime := nTime txCoinStake in
    if nLastCoinStakeSearchTime ms <? nSearchTime then
      '(r, st, c) ← CreateCoinStake depth par s opt snd_opt so rounds fuel (nBits b) (nSearchTime - nLastCoinStakeSearchTime ms) keep_on
        txCoinStake CKey_Reset st c;
      match r with
      | CS_throws => None
      | CS_false => Some (false, b, st, searched nSearchTime ms, c)
      | CS_true tx key =>
          prev ← head best_chain;
          if Z.max (GetPastTimeLimit best_chain + 1) (PastDrift (bi_GetBlockTime prev)) <=? nTime tx then
            b ← insert_stake prev tx b;
            let '(hash, b) := CBlock_GetHash b in
            Some
              match CKey_Sign key hash with
              | Some sig => (true, with_blocksig b sig, st, ms, c)
              | None => (false, with_blocksig b [], st, ms, c)
              end
          else Some (false, b, st, searched nSearchTime ms, c)
      end
    else Some (false, b, st, ms, c).

(** ** Handing the block over *)

Definition with_cache_of (s : ChainState) (c : CSignatureCache) : ChainState := Reorganize.with_pool s (mempool s) c.

Definition count_requests (hash : list Z) (w : CWallet) : CWallet := with_requests (<[hash := 0]> (mapRequestCount w)) w.

(** [ProcessBlock] for a block of our own: [None] where it throws *)
Definition process_own (mode : CPMode) (env : Env) (rnd : nat -> list Z) (o : BlockOrphans) (s : ChainState) (b : CBlock) :
    option (bool * CBlock * BlockOrphans * ChainState) :=
  match ProcessBlock par mode env rnd o s b with
  | (Done _, b, o, s) => Some (true, b, o, s)
  | (Fail _, b, o, s) => Some (false, b, o, s)
  | (Throws, _, _, _) => None
  end.

Definition CheckStake (mode : CPMode) (env : Env) (rnd : nat -> list Z) (o : BlockOrphans) (b : CBlock) (w : CWallet) :
    option (bool * CBlock * CWallet * BlockOrphans * ChainState) :=
  let '(hashBlock, b) := CBlock_GetHash b in
  if negb (IsProofOfStake b) then Some (false, b, w, o, s)
  else
    tx ← vtx b !! 1%nat;
    let '(r, c) := CheckProofOfStake (T := leveldb_store) (par_at par s) (read_db s) (mapBlockIndex s) tx (nBits b) (sigcache s) in
    let s := with_cache_of s c in
    match r with
    | inl _ => Some (false, b, w, o, s)
    | inr _ =>
        if op_ne (hashPrevBlock b) (hashBestChain s) then Some (false, b, w, o, s)
        else
          let w := count_requests hashBlock w in
          '(ok, b, o, s) ← process_own mode env rnd o s b;
          Some (ok, b, w, o, s)
    end.

Definition CheckWork (mode : CPMode) (env : Env) (rnd : nat -> list Z) (o : BlockOrphans) (b : CBlock) (k : CReserveKey) (w : CWallet) :
    option (bool * CBlock * CReserveKey * CWallet * BlockOrphans * ChainState) :=
  let '(hashBlock, b) := CBlock_GetHash b in
  let hashTarget := getuint256 (SetCompact (nBits b)) in
  if negb (IsProofOfWork b) then Some (false, b, k, w, o, s)
  else if op_gt hashBlock hashTarget then Some (false, b, k, w, o, s)
  else if op_ne (hashPrevBlock b) (hashBestChain s) then Some (false, b, k, w, o, s)
  else
    let '(k, keys) := reserve_KeepKey k (wkeys w) in
    let w := count_requests hashBlock (with_keys keys w) in
    '(ok, b, o, s) ← process_own mode env rnd o s b;
    Some (ok, b, k, w, o, s).
End miner.

(** ** One round of [StakeMiner] *)

Section stake_miner.
Context {B : BNOps} {E : ECOps} {SO : ECSecretOps E} {P : SecpOps} {C : CipherOps} {H : HashOps} {F : Files} {G : BlockFiles}.
Context {OO : OrderOps}.
Context (EC_KEY_generate_key : nat -> EC_KEY) (i2d_ECPrivateKey : EC_KEY -> list Z).
Context (par : Params) (mo : MineOptions) (opt : WalletOptions) (snd_opt : SendOptions) (so : StakeOptions).

(** From [CreateNewBlock] to [CheckStake], whose result is dropped: whether the block was
    signed; [false] also where there is no block *)
Definition stake_round (GetTime : Z) (keypool : Z) (depth rounds fuel : nat) (keep_on : nat -> Z -> bool) (mode : CPMode) (env : Env)
    (rnd : nat -> list Z) (o : BlockOrphans) (s : ChainState) (st : StakeWallet) (ms : MinerState) :
    mined (bool * StakeWallet * MinerState * BlockOrphans * ChainState) :=
  match CreateNewBlock EC_KEY_generate_key i2d_ECPrivateKey par s mo keypool GetTime true (sk_wallet st) ms with
  | MineFails => MineFails
  | OutOfFuel => OutOfFuel
  | Mined (None, w, ms, c) => Mined (false, with_sk_wallet w st, ms, o, with_cache_of s c)
  | Mined (Some b, w, ms, c) =>
      match
        prev ← head (best_chain s);
        '(b, ms) ← IncrementExtraNonce (bi_nHeight prev) b ms;
        SignPoSBlock par s depth opt snd_opt so rounds fuel keep_on b (with_sk_wallet w st) ms c
      with
      | None => MineFails
      | Some (false, _, st, ms, c) => Mined (false, st, ms, o, with_cache_of s c)
      | Some (true, b, st, ms, c) =>
          match CheckStake par (with_cache_of s c) mode env rnd o b (sk_wallet st) with
          | None => MineFails
          | Some (_, _, w, o, s) => Mined (true, with_sk_wallet w st, ms, o, s)
          end
      end
  end.
End stake_miner.

(** ** The hash buffers: [FormatHashBlocks], [FormatHashBuffers] *)

(** What is in memory after the call: the padding of SHA-256, whose length takes four bytes *)
Definition FormatHashBlocks (msg : list Z) : Z * list Z :=
  let len := Z.of_nat (length msg) in
  let blocks := 1 + (len + 8) / 64 in
  let bits := u32 (len * 8) in
  (blocks, msg ++ 0x80 :: replicate (Z.to_nat (64 * blocks - len - 1) - 4) 0 ++ rev (le_bytes 4 bits)).

(** [ByteReverse] of every word *)
Fixpoint swap_words (l : list Z) : list Z :=
  match l with
  | b0 :: b1 :: b2 :: b3 :: l => b3 :: b2 :: b1 :: b0 :: swap_words l
  | _ => l
  end.

Definition pSHA256InitState : list Z :=
  [0x6a09e667; 0xbb67ae85; 0x3c6ef372; 0xa54ff53a; 0x510e527f; 0x9b05688c; 0x1f83d9ab; 0x5be0cd19].

Section hash_buffers.
(** [SHA256_Update] with one block of 64 bytes: the eight words after it *)
Context (SHA256_block : list Z -> list Z -> list Z).

Definition SHA256Transform (pinput pinit : list Z) : list Z := SHA256_block pinit (swap_words (take 64 pinput)).

(** The memory of [tmp]: the header in 80 bytes and 64 of padding, [hash1] in 32 and 64 of
    padding *)
Definition FormatHashBuffers (b : CBlock) : list Z * list Z * list Z :=
  let fill n l := l ++ replicate (n - length l) 0 in
  let tmp := swap_words (fill 144%nat (FormatHashBlocks (header_bytes b)).2 ++ fill 96%nat (FormatHashBlocks (replicate 32 0)).2) in
  (SHA256Transform tmp pSHA256InitState, take 128 tmp, take 64 (drop 144 tmp)).
End hash_buffers.
