(* ===== verification/MinerFacts.v ===== *)
(** * What the miner's blocks are: theory of [Miner] *)

From Stdlib Require Import SpecFloat.
From stdpp Require Import sorting.
From S2P Require Import Prelude.
From S2P Require Import BestChain.
From S2P Require Import AcceptFacts.
From S2P Require Import KeyPoolFacts.
From S2P Require Import WalletFacts.
From S2P Require Import Heap.
From S2P Require Import Uint256.
From S2P Require Import BigNum.
From S2P Require Import Serialize.
From S2P Require Import Hash.
From S2P Require Import Transaction.
From S2P Require Import Script.
From S2P Require Import Interp.
From S2P Require Import Key.
From S2P Require Import SigCheck.
From S2P Require Import Templates.
From S2P Require Import KeyStore.
From S2P Require Import Scrypt.
From S2P Require Import Block.
From S2P Require Import TxRules.
From S2P Require Import TxDB.
From S2P Require Import Chain.
From S2P Require Import Rewards.
From S2P Require Import BlockRules.
From S2P Require Import Connect.
From S2P Require Import ConnectFacts.
From S2P Require Import BlockConnect.
From S2P Require Import MemPool.
From S2P Require Import BlockTree.
From S2P Require Import Checkpoints.
From S2P Require Import Kernel.
From S2P Require Import Reorganize.
From S2P Require Import Accept.
From S2P Require Import Process.
From S2P Require Import Util.
From S2P Require Import KeyPool.
From S2P Require Import Wallet.
From S2P Require Import CoinSelect.
From S2P Require Import CreateTx.
From S2P Require Import CreateTxFacts.
From S2P Require Import Stake.
From S2P Require Import StakeFacts.
From S2P Require Import SigOps.
From S2P Require Import Miner.

(** ** The transactions that wait for others *)

Definition still_waits (o : COrphan) : bool := negb (bool_decide (setDependsOn o = ∅)).

(** The transactions in [vOrphan] that have not been released *)
Definition waiting_txs (m : gmap nat COrphan) : list CTransaction := (fun e => orphan_tx e.2) <$> filter (fun e => still_waits e.2 = true) (map_to_list m).

Lemma waiting_split m id o :
  m !! id = Some o -> waiting_txs m ≡ₚ (if still_waits o then [orphan_tx o] else []) ++ waiting_txs (delete id m).
Proof.
  intros Hm. unfold waiting_txs. rewrite <- (map_to_list_delete m id o Hm). rewrite filter_cons. cbn [snd].
  destruct (still_waits o); [by rewrite decide_True|by rewrite decide_False].
Qed.

Lemma waiting_txs_insert m id o :
  waiting_txs (<[id := o]> m) ≡ₚ (if still_waits o then [orphan_tx o] else []) ++ waiting_txs (delete id m).
Proof. rewrite (waiting_split _ id o) by apply lookup_insert_eq. by rewrite delete_insert_eq. Qed.

(** The transactions on the queue *)
Definition queued (q : list TxPriority) : list CTransaction := (fun e => e.2) <$> q.

Lemma queued_perm q q' : q ≡ₚ q' -> queued q ≡ₚ queued q'.
Proof. intros Hq. unfold queued. by rewrite Hq. Qed.

Lemma queued_pop comp item q : item.2 :: queued (pop_heap comp (item :: q)) ≡ₚ queued (item :: q).
Proof. apply (queued_perm (item :: pop_heap comp (item :: q))), pop_heap_perm. Qed.

(** Releasing moves transactions from those that wait to the queue *)
Lemma release_perm byFee h ids q m q' m' :
  release byFee h ids q m = Some (q', m') -> queued q' ++ waiting_txs m' ≡ₚ queued q ++ waiting_txs m.
Proof.
  revert q m. induction ids as [|id ids IH]; intros q m; cbn [release]; [by intros [= <- <-]|].
  destruct (m !! id) as [o|] eqn:Eo; [|done]. cbn [mbind option_bind]. case_bool_decide as Hd; [apply IH|].
  intros Hr. apply IH in Hr as ->. rewrite waiting_txs_insert, (waiting_split m id o Eo). unfold still_waits at 2. cbn [orphan_tx].
  rewrite (bool_decide_eq_false_2 _ Hd). cbn [negb]. unfold still_waits. cbn [setDependsOn]. case_bool_decide as He; cbn [negb app].
  - rewrite (queued_perm _ _ (push_heap_perm _ q _)). cbn. by rewrite Permutation_middle.
  - done.
Qed.

(** ** The first loop *)

(** What the loop over the inputs of [tx] does to the lists [l] *)
Record summing (l : Collecting) (tx : CTransaction) (sm : Summing) : Prop := {
  su_priority : vecPriority (sm_lists sm) = vecPriority l;
  su_orphan : match porphan sm with
    | None => sm_lists sm = l
    | Some id => id = nOrphans l /\ nOrphans (sm_lists sm) = S id /\
        exists o, orphan_tx o = tx /\ still_waits o = true /\ vOrphan (sm_lists sm) = <[id := o]> (vOrphan l)
    end
}.

Lemma summing_wait l tx h sm : summing l tx sm -> summing l tx (wait_for tx h sm).
Proof.
  intros [Hp Ho]. unfold wait_for.
  destruct (porphan sm) as [id|] eqn:Ei; (split; cbn [sm_lists porphan vecPriority vOrphan nOrphans]; [congruence|]).
  - destruct Ho as (-> & Hn & o & Ht & Hd & Hv). split; [done|]. split; [done|].
    eexists. split; [|split; [|rewrite Hv, alter_insert_eq; reflexivity]]; [done|]. unfold still_waits. cbn [setDependsOn].
    rewrite bool_decide_eq_false_2 by set_solver. done.
  - rewrite Ho. split; [done|]. split; [done|]. eexists. split; [|split; [|rewrite alter_insert_eq; reflexivity]]; [done|].
    unfold still_waits. cbn [setDependsOn]. by rewrite bool_decide_eq_false_2 by set_solver.
Qed.

Lemma summing_add l tx v d sm : summing l tx sm -> summing l tx (add_input v d sm).
Proof. by intros [Hp Ho]. Qed.

Section theory.
Context {B : BNOps} {E : ECOps} {SO : ECSecretOps E} {P : SecpOps} {C : CipherOps} {H : HashOps} {F : Files} {G : BlockFiles}.
Context {HL : HashLaws H} {EL : ECLaws E} {OO : OrderOps}.
Context (EC_KEY_generate_key : nat -> EC_KEY) (i2d_ECPrivateKey : EC_KEY -> list Z).
Context (par : Params) (s : ChainState) (mo : MineOptions).

Lemma sum_inputs_spec tx ins l sm r :
  (forall id, is_Some (vOrphan l !! id) -> (id < nOrphans l)%nat) -> summing l tx sm -> sum_inputs s mo tx ins sm = Mined r ->
  match r with
  | inl l' => vecPriority l' = vecPriority l /\ vOrphan l' = vOrphan l /\ (nOrphans l <= nOrphans l')%nat
  | inr sm' => summing l tx sm'
  end.
Proof.
  intros Hfresh. revert sm. induction ins as [|txin ins IH]; intros sm Hs; cbn [sum_inputs]; [by intros [= <-]|].
  destruct (ReadFromDisk _ (prevout txin)) as [[txPrev txindex]|].
  { case_goal; [|done]. by apply IH, summing_add. }
  destruct (mapTx (mempool s) !! _) as [txPrev|].
  { case_goal; [|done]. by apply IH, summing_add, summing_wait. }
  case_goal; [done|]. intros [= <-]. destruct Hs as [Hp Ho]. unfold drop_orphan. destruct (porphan sm) as [id|]; [|by rewrite Ho].
  destruct Ho as (-> & Hn & o & _ & _ & Hv). cbn [vecPriority vOrphan nOrphans with_orphans]. rewrite Hn, Hv. split; [done|]. split; [|lia].
  apply delete_insert_id, eq_None_not_Some. intros Hid%Hfresh. lia.
Qed.

(** What the first loop has collected of the transactions [done] *)
Record collected (nHeight : Z) (l : Collecting) (done : list CTransaction) : Prop := {
  co_fresh : forall id, is_Some (vOrphan l !! id) -> (id < nOrphans l)%nat;
  co_sub : queued (vecPriority l) ++ waiting_txs (vOrphan l) ⊆+ done;
  co_plain : Forall (fun tx => IsCoinBase tx = false /\ IsCoinStake tx = false /\ IsFinalTx (cs_nBestHeight s) (now par) tx nHeight 0 = true)
    (queued (vecPriority l) ++ waiting_txs (vOrphan l))
}.

Lemma collect_tx_spec nHeight tx l done l' :
  collected nHeight l done -> collect_tx par s mo nHeight tx l = Mined l' -> collected nHeight l' (done ++ [tx]).
Proof.
  intros Hc. assert (Hskip : collected nHeight l (done ++ [tx])).
  { destruct Hc as [H1 H2 H3]. split; [done| |done]. by apply submseteq_inserts_r. }
  unfold collect_tx. destruct (IsCoinBase tx || IsCoinStake tx || negb (IsFinalTx _ _ tx nHeight 0)) eqn:Eskip; [by intros [= <-]|].
  assert (Hplain : IsCoinBase tx = false /\ IsCoinStake tx = false /\ IsFinalTx (cs_nBestHeight s) (now par) tx nHeight 0 = true) by (bool_prop; tauto).
  destruct (sum_inputs _ _ _ _ _) as [r| |] eqn:Es; [|congruence..].
  apply (sum_inputs_spec _ _ l) in Es; [|apply Hc|by split]. destruct Hc as [Hf Hsub Hpl]. destruct r as [l1|sm].
  { destruct Es as (E1 & E2 & E3). intros [= <-]. destruct Hskip as [_ Hs2 _]. split; rewrite ?E1, ?E2; [|done..].
    intros id Hid%Hf. lia. }
  destruct (GetValueOut tx) as [v|]; [|congruence]. destruct Es as [Ep Eo]. intros [= <-].
  enough (Hgo : forall lf, (forall id, is_Some (vOrphan lf !! id) -> (id < nOrphans lf)%nat) ->
    queued (vecPriority lf) ++ waiting_txs (vOrphan lf) ≡ₚ tx :: (queued (vecPriority l) ++ waiting_txs (vOrphan l)) -> collected nHeight lf (done ++ [tx])).
  { apply Hgo; (destruct (porphan sm) as [id|]; [destruct Eo as (-> & En & o & Ht & Hd & Hv)|]); cbn [vOrphan nOrphans vecPriority with_orphans with_priority].
    - rewrite En, Hv, alter_insert_eq. intros id [<-|Hid%Hf]%lookup_insert_is_Some'; lia.
    - rewrite Eo. exact Hf.
    - rewrite Ep, Hv, alter_insert_eq, waiting_txs_insert. unfold still_waits. cbn [setDependsOn orphan_tx]. fold (still_waits o). rewrite Hd, Ht.
      rewrite delete_id by (apply eq_None_not_Some; intros Hid%Hf; lia). cbn. by rewrite Permutation_middle.
    - rewrite Eo. unfold queued. rewrite fmap_app, <- app_assoc. cbn. by rewrite <- Permutation_middle. }
  intros lf Hfresh Hperm. split; [done| |].
  - rewrite Hperm, (comm app done). cbn. by apply submseteq_skip.
  - rewrite Hperm. by constructor.
Qed.

Lemma collect_loop_spec nHeight txs l done l' :
  collected nHeight l done -> collect_loop par s mo nHeight txs l = Mined l' -> collected nHeight l' (done ++ txs).
Proof.
  revert l done. induction txs as [|tx txs IH]; intros l done Hc; cbn [collect_loop]; [intros [= <-]; by rewrite app_nil_r|].
  destruct (collect_tx par s mo nHeight tx l) as [l1| |] eqn:Et; [|done..]. intros Hl. eapply collect_tx_spec in Et; [|done].
  specialize (IH _ _ Et Hl). by rewrite <- app_assoc in IH.
Qed.

(** ** A transaction of the block *)

Abbreviation db := (read_db s).
Abbreviation pool := (mapTx (mempool s)).

(** The inputs fetched for a transaction are what the index [V] and the transactions
    behind it say *)
Definition fetched_from (V : list Z -> option CTxIndex) (inputs : MapPrevTx) : Prop :=
  forall h x tp, inputs !! h = Some (x, tp) -> V h = Some x /\ (if decide (pos x = POOL_POS) then pool !! h else read_tx (pos x)) = Some tp.

(** What makes a transaction valid on these inputs: it spends different outputs, unspent,
    mature and not younger; its scripts hold; it pays the least fee *)
Record connects (chain : list CBlockIndex) (tx : CTransaction) (inputs : MapPrevTx) : Prop := {
  cn_distinct : NoDup (slots tx);
  cn_unspent : Forall (unspent inputs) (slots tx);
  cn_rules : Forall (input_rules (par_at par s) tx chain inputs) (vin tx);
  cn_scripts : forallb script_ok (checks_of MANDATORY_SCRIPT_VERIFY_FLAGS tx inputs 0 (vin tx)) = true;
  cn_fee : exists out, GetValueOut tx = Some out /\ out + MIN_TX_FEE <= total_in inputs (vin tx) <= MAX_MONEY
}.

(** The transactions of a block, each valid on the index as those before it leave it *)
Inductive filled (chain : list CBlockIndex) : list CTransaction -> (list Z -> option CTxIndex) -> Prop :=
  | filled_nil V : (forall h, V h = db_ReadTxIndex db h) -> filled chain [] V
  | filled_snoc txs V tx inputs V' :
      filled chain txs V -> fetched_from V inputs -> connects chain tx inputs ->
      (forall h, V' h = connected V tx POOL_POS h) -> filled chain (txs ++ [tx]) V'.

Lemma fetch_one_miner q txin inputs inputs' :
  fetch_one (T := leveldb_store) db q pool false true inputs txin = Some inputs' ->
  fetched_from (queue_view (T := leveldb_store) db q) inputs -> fetched_from (queue_view (T := leveldb_store) db q) inputs'.
Proof.
  unfold fetch_one. cbn [orb]. case_bool_decide as Hd; [by intros [= <-]|]. intros Hf Hi. set (h := op_hash (prevout txin)) in *.
  assert (Hx : forall x tp, queue_view (T := leveldb_store) db q h = Some x -> (if decide (pos x = POOL_POS) then pool !! h else read_tx (pos x)) = Some tp ->
    inputs' = <[h := (x, tp)]> inputs -> fetched_from (queue_view (T := leveldb_store) db q) inputs').
  { intros x tp Hx Htp -> h' x' tp' [[<- [= <- <-]]|[_ Hin]]%lookup_insert_Some; [done|by apply Hi]. }
  enough (exists x, queue_view (T := leveldb_store) db q h = Some x /\
    (if bool_decide (pos x = POOL_POS) then txPrev ← pool !! h; Some (<[h := (x, txPrev)]> inputs)
     else txPrev ← read_tx (pos x); Some (<[h := (x, txPrev)]> inputs)) = Some inputs') as (x & Hq & Hg).
  { case_bool_decide as Hp; apply bind_Some in Hg as (tp & Htp & [= <-]); apply (Hx x tp); [done| |done|done| |done]; by case_decide. }
  unfold queue_view. destruct (q !! h) as [x|]; [by exists x|]. destruct (@ReadTxIndex leveldb_store db h) as [x|]; [by exists x|done].
Qed.

Lemma FetchInputs_miner q tx inputs :
  IsCoinBase tx = false -> FetchInputs (T := leveldb_store) db q pool false true tx = Fetched inputs ->
  fetched_from (queue_view (T := leveldb_store) db q) inputs /\ Forall (fun txin => in_range inputs txin = true) (vin tx).
Proof.
  intros Hcb. unfold FetchInputs. rewrite Hcb. destruct (fetch_loop _ _ _ _ _ _ _) as [i|] eqn:El; [|done].
  destruct (forallb (in_range i) (vin tx)) eqn:Er; [|done]. intros [= <-]. split.
  - assert (Hnil : fetched_from (queue_view (T := leveldb_store) db q) ∅) by (intros h x tp Hh; by rewrite lookup_empty in Hh).
    revert El Hnil. clear Er. generalize (∅ : MapPrevTx). generalize (vin tx). intros ins. induction ins as [|txin ins IH]; intros m; cbn [fetch_loop]; [by intros [= ->]|].
    intros (m' & Hm & Hl)%bind_Some Hv. eapply IH; [exact Hl|]. by eapply fetch_one_miner.
  - apply Forall_forall. intros txin Hin. rewrite forallb_forall in Er. by apply Er, list_elem_of_In.
Qed.

Lemma total_in_GetValueIn tx inputs chain v :
  IsCoinBase tx = false -> value_loop (par_at par s) tx chain (vin tx) inputs 0 = Done v -> GetValueIn tx inputs = Some v /\ v = total_in inputs (vin tx).
Proof.
  intros Hcb Hv. split; [|by apply value_loop_spec in Hv as (_ & -> & _); [|unfold MAX_MONEY, COIN; lia]].
  unfold GetValueIn. rewrite Hcb. by eapply value_loop_GetValueIn.
Qed.

(** What [ConnectInputs] has found and written for the miner *)
Lemma ConnectInputs_miner tx inputs q chain c q' ks c' :
  IsCoinBase tx = false -> IsCoinStake tx = false -> cache_valid c ->
  ConnectInputs (T := leveldb_store) (par_at par s) (mkMode false true true MANDATORY_SCRIPT_VERIFY_FLAGS false) db tx inputs q POOL_POS chain c = (Done (q', ks), c') ->
  fetched_from (queue_view (T := leveldb_store) db q) inputs ->
  cache_valid c' /\ connects chain tx inputs /\
  forall h, queue_view (T := leveldb_store) db (<[CTransaction_GetHash tx := CTxIndex_new POOL_POS (length (vout tx))]> q') h =
    connected (queue_view (T := leveldb_store) db q) tx POOL_POS h.
Proof.
  intros Hcb Hcs Hc Hr Hfetch. set (m := mkMode false true true MANDATORY_SCRIPT_VERIFY_FLAGS false) in *.
  destruct (ConnectInputs_done (T := leveldb_store) (par_at par s) m db tx inputs q POOL_POS chain c Hcb Hc) as (Hc' & _ & Hd).
  rewrite Hr in Hc', Hd. cbn [fst snd] in *. destruct (proj1 (Hd q' ks) eq_refl) as ((v & Hv & Hf) & Hs & _ & Hi).
  destruct (spend_spec _ POOL_POS _ _ _ _ eq_refl Hs) as (Hnd & Hun & Hq). change (fBlock m || fMiner m) with true in Hq. cbn [andb] in Hq.
  destruct (value_loop_spec _ _ _ _ _ 0 v ltac:(unfold MAX_MONEY, COIN; lia) Hv) as (Hrules & Ev & Hrange).
  apply (check_fee_done (T := leveldb_store)) in Hf as (out & Hout & Hfee); [|done]. rewrite Hcs in Hfee.
  assert (Hsl : slots tx = slot_of <$> vin tx) by (unfold slots; by rewrite Hcb).
  assert (Hcn : connects chain tx inputs).
  { split; rewrite ?Hsl; try done. exists out. split; [done|]. lia. }
  split; [done|]. split; [done|]. apply connected_view.
  - intros h. case_decide as Hh; [by rewrite Hh, lookup_insert_eq|]. rewrite lookup_insert_ne, Hq, Hsl by congruence.
    case_bool_decide as Hin; [|done]. apply list_elem_of_fmap in Hin as ([h' n'] & -> & Hin). cbn [fst].
    rewrite Forall_forall in Hun. destruct (Hun _ Hin) as (x & tp & r & E1 & _). cbn [fst] in E1. rewrite E1. by destruct (Hfetch _ _ _ E1) as [-> _].
  - rewrite Hsl. eapply Forall_impl; [exact Hun|]. intros [h n] (x & tp & r & E1 & E2 & E3 & _). exists x, r. split_and!; [|done..]. by destruct (Hfetch _ _ _ E1).
Qed.

(** ** The second loop *)

Definition total_bytes (txs : list CTransaction) : Z := foldr (fun tx n => tx_bytes tx + n) 0 txs.
Definition sigops_sum (txs : list CTransaction) : Z := foldr (fun tx n => GetLegacySigOpCount tx + n) 0 txs.

Lemma total_bytes_snoc txs tx : total_bytes (txs ++ [tx]) = total_bytes txs + tx_bytes tx.
Proof. unfold total_bytes. rewrite foldr_app. cbn. induction txs as [|t txs IH]; cbn; lia. Qed.
Lemma sigops_sum_snoc txs tx : sigops_sum (txs ++ [tx]) = sigops_sum txs + GetLegacySigOpCount tx.
Proof. unfold sigops_sum. rewrite foldr_app. cbn. induction txs as [|t txs IH]; cbn; lia. Qed.

Lemma total_bytes_nonneg txs : 0 <= total_bytes txs.
Proof. induction txs as [|t txs IH]; cbn; [lia|]. unfold total_bytes, tx_bytes in *. lia. Qed.
Lemma sigops_sum_nonneg txs : 0 <= sigops_sum txs.
Proof. induction txs as [|t txs IH]; cbn; [lia|]. pose proof (legacy_bound t). pose proof (tx_bytes_scripts t). pose proof (in_bytes_nonneg (vin t)).
  pose proof (out_bytes_nonneg (vout t)). unfold sigops_sum in *. lia. Qed.

(** Every transaction of the pool has been read from a peer and is no longer than a block *)
Definition pool_small : Prop := forall h tx, pool !! h = Some tx -> tx_ok tx /\ tx_bytes tx <= MAX_BLOCK_SIZE.

Definition pool_txs : list CTransaction := (map_entries pool).*2.

Lemma elem_of_pool_txs tx : tx ∈ pool_txs <-> exists h, pool !! h = Some tx.
Proof.
  unfold pool_txs. rewrite list_elem_of_fmap. split.
  - intros ([h t] & -> & Hin%elem_of_map_entries). by exists h.
  - intros (h & Hh). exists (h, tx). split; [done|]. by apply elem_of_map_entries.
Qed.

Lemma length_pool_txs : length pool_txs = base.size pool.
Proof. unfold pool_txs. by rewrite length_fmap, (Permutation_length (map_entries_perm pool)), length_map_to_list. Qed.

(** Different transactions of the pool have different hashes *)
Lemma pool_txs_distinct : pool_ok (mempool s) -> NoDup (CTransaction_GetHash <$> pool_txs).
Proof.
  intros [Hh _]. unfold pool_txs. rewrite <- list_fmap_compose. assert (He : (CTransaction_GetHash ∘ snd) <$> map_entries pool = (map_entries pool).*1).
  { apply list_fmap_ext. intros i [h tx] Hi%list_elem_of_lookup_2%elem_of_map_entries. cbn. by apply Hh. }
  unfold fmap in *. rewrite He. apply map_entries_NoDup.
Qed.

Section filling.
Context (fProofOfStake : bool) (chain : list CBlockIndex) (nHeight nTimeMax : Z) (Hsmall : pool_small).

(** All that the loop keeps *)
Record filling (f : Filling) : Prop := {
  fi_cache : cache_valid (fl_cache f);
  fi_sub : blk_txs f ++ queued (queue f) ++ waiting_txs (waiting_orphans f) ⊆+ pool_txs;
  fi_plain : Forall (fun tx => IsCoinBase tx = false /\ IsCoinStake tx = false /\ IsFinalTx (cs_nBestHeight s) (now par) tx nHeight 0 = true)
    (blk_txs f ++ queued (queue f) ++ waiting_txs (waiting_orphans f));
  fi_time : Forall (fun tx => nTime tx <= now par /\ (fProofOfStake = true -> nTime tx <= nTimeMax)) (blk_txs f);
  fi_filled : filled chain (blk_txs f) (queue_view (T := leveldb_store) db (mapTestPool f));
  fi_size : nBlockSize f = 1000 + total_bytes (blk_txs f) /\ nBlockSize f <= nBlockMaxSize mo;
  fi_sigops : 100 + sigops_sum (blk_txs f) <= nBlockSigOps f < MAX_BLOCK_SIGOPS
}.

(** Only the transactions that are left count *)
Lemma filling_less f q :
  filling f -> queued q ⊆+ queued (queue f) -> filling (with_queue q f).
Proof.
  intros [H1 H2 H3 H4 H5 H6 H7] Hq. assert (Hsub : blk_txs f ++ queued q ++ waiting_txs (waiting_orphans f) ⊆+ blk_txs f ++ queued (queue f) ++ waiting_txs (waiting_orphans f)).
  { by apply submseteq_app, submseteq_app. }
  split; try done; cbn [blk_txs queue waiting_orphans with_queue].
  - by etrans.
  - apply Forall_forall. intros tx Htx. rewrite Forall_forall in H3. by apply H3, (elem_of_submseteq _ _ _ Htx).
Qed.

Lemma filling_resort nTxSize dPriority f : filling f -> filling (resort mo nTxSize dPriority f).
Proof.
  intros Hf. unfold resort. case_goal; [|done].
  destruct (filling_less f (make_heap (TxPriorityCompare true) (queue f)) Hf) as [H1 H2 H3 H4 H5 H6 H7]; [|by split].
  by rewrite (queued_perm _ _ (make_heap_perm _ (queue f))).
Qed.

Lemma MaxSize_range : 1000 <= nBlockMaxSize mo <= MAX_BLOCK_SIZE - 1000.
Proof. unfold nBlockMaxSize. pose proof (wrap_range 32 (blockmaxsize mo) ltac:(lia)). unfold MAX_BLOCK_SIZE. lia. Qed.

Lemma connect_to_block_filling depends tx nMinFee nTxSize f f' :
  filling f -> nTxSize = tx_bytes tx ->
  blk_txs f ++ tx :: queued (queue f) ++ waiting_txs (waiting_orphans f) ⊆+ pool_txs ->
  IsCoinBase tx = false /\ IsCoinStake tx = false /\ IsFinalTx (cs_nBestHeight s) (now par) tx nHeight 0 = true ->
  nTime tx <= now par /\ (fProofOfStake = true -> nTime tx <= nTimeMax) ->
  nBlockSize f + tx_bytes tx < nBlockMaxSize mo -> nBlockSigOps f + GetLegacySigOpCount tx < MAX_BLOCK_SIGOPS ->
  connect_to_block par s depends chain tx nTxSize (GetLegacySigOpCount tx) nMinFee f = Some f' -> filling f'.
Proof.
  intros Hf Hsz Hsub Hplain Htime Hsize Hsig. unfold connect_to_block.
  destruct (FetchInputs _ _ _ _ _ tx) as [inputs|] eqn:Efetch; [|by intros [= <-]].
  intros (vi & _ & Hr)%bind_Some. apply bind_Some in Hr as (vo & _ & Hr). cbv zeta in Hr. case_hyp Hr; [by injection Hr as <-|].
  apply bind_Some in Hr as (np & Hp & Hr). destruct (MAX_BLOCK_SIGOPS <=? _) eqn:Hlim; [by injection Hr as <-|].
  assert (Hin : tx ∈ pool_txs). { eapply elem_of_submseteq; [|exact Hsub]. set_solver. }
  apply elem_of_pool_txs in Hin as (h & Hh). destruct (Hsmall h tx Hh) as [Hok Hlen]. destruct (small_tx tx Hlen) as (Hleg & Hp2sh & _). specialize (Hp2sh _ _ Hp).
  destruct Hplain as (Hcb & Hcs & Hfin). apply FetchInputs_miner in Efetch as [Hfetch _]; [|done].
  destruct Hf as [H1 H2 H3 H4 H5 [H6 H6'] H7]. destruct (ConnectInputs _ _ _ _ _ _ _ _ _) as [[[q' ks]|n|] c'] eqn:Ec; [| |done].
  - apply ConnectInputs_miner in Ec as (Hc' & Hcn & Hview); [|done..]. apply bind_Some in Hr as ([qq m] & Hrel & Hr). injection Hr as <-.
    apply release_perm in Hrel. pose proof MaxSize_range as Hmax. change MAX_BLOCK_SIGOPS with 20000 in *. unfold MAX_BLOCK_SIZE in *.
    pose proof (total_bytes_nonneg (blk_txs f)). pose proof (sigops_sum_nonneg (blk_txs f)).
    assert (0 <= tx_bytes tx) by (unfold tx_bytes; lia).
    split; cbn [blk_txs queue waiting_orphans fl_cache mapTestPool nBlockSize nBlockSigOps].
    + done.
    + rewrite <- app_assoc, Hrel. done.
    + rewrite <- app_assoc, Hrel. rewrite Forall_app in H3 |- *. cbn. rewrite Forall_cons. tauto.
    + rewrite Forall_app, Forall_singleton. done.
    + by eapply filled_snoc.
    + rewrite total_bytes_snoc, Hsz, wrap_small by lia. lia.
    + rewrite sigops_sum_snoc. apply Z.leb_gt in Hlim.
      assert (Hn : u32 (GetLegacySigOpCount tx + np) = GetLegacySigOpCount tx + np) by (apply wrap_small; lia). rewrite Hn in *.
      rewrite wrap_small in Hlim by lia. rewrite wrap_small by lia. change MAX_BLOCK_SIGOPS with 20000. lia.
  - pose proof (ConnectInputs_done (T := leveldb_store) (par_at par s) (mkMode false true true MANDATORY_SCRIPT_VERIFY_FLAGS false) db tx inputs (mapTestPool f) POOL_POS chain
      (fl_cache f) Hcb H1) as (Hc' & _). rewrite Ec in Hc'. injection Hr as <-. by split.
Qed.

Lemma fill_step_filling depends item f f' :
  filling f -> blk_txs f ++ item.2 :: queued (queue f) ++ waiting_txs (waiting_orphans f) ⊆+ pool_txs ->
  IsCoinBase item.2 = false /\ IsCoinStake item.2 = false /\ IsFinalTx (cs_nBestHeight s) (now par) item.2 nHeight 0 = true ->
  fill_step par s mo fProofOfStake depends chain nTimeMax item f = Some f' -> filling f'.
Proof.
  intros Hf Hsub Hplain. destruct item as [[dPriority dFeePerKb] tx]. cbn [snd] in *. unfold fill_step.
  assert (Hin : tx ∈ pool_txs). { eapply elem_of_submseteq; [|exact Hsub]. set_solver. }
  apply elem_of_pool_txs in Hin as (h & Hh). destruct (Hsmall h tx Hh) as [Hok Hlen]. destruct (small_tx tx Hlen) as (Hleg & _ & Hsz).
  rewrite (Hsz Hok). pose proof MaxSize_range as Hmax. pose proof (fi_size _ Hf) as [Hs1 Hs2]. pose proof (fi_sigops _ Hf) as Hs3.
  pose proof (total_bytes_nonneg (blk_txs f)). pose proof (sigops_sum_nonneg (blk_txs f)). assert (0 <= tx_bytes tx) by (unfold tx_bytes; lia).
  change MAX_BLOCK_SIGOPS with 20000 in Hs3. unfold MAX_BLOCK_SIZE in *. rewrite !(wrap_small 64 (nBlockSize f + tx_bytes tx)) by lia.
  destruct (Z.leb_spec (nBlockMaxSize mo) (nBlockSize f + tx_bytes tx)) as [|Hsize]; [by intros [= <-]|].
  rewrite wrap_small by lia. destruct (Z.leb_spec MAX_BLOCK_SIGOPS (nBlockSigOps f + GetLegacySigOpCount tx)) as [|Hsig]; [by intros [= <-]|].
  destruct ((now par <? nTime tx) || (fProofOfStake && (nTimeMax <? nTime tx))) eqn:Etime; [by intros [= <-]|].
  assert (Htime : nTime tx <= now par /\ (fProofOfStake = true -> nTime tx <= nTimeMax)).
  { apply orb_false_iff in Etime as [Ht1%Z.ltb_ge Ht2]. split; [done|]. intros ->. by apply Z.ltb_ge in Ht2. }
  case_goal; [by intros [= <-]|]. intros Hr. apply connect_to_block_filling in Hr; try done.
  - by apply filling_resort.
  - unfold resort. case_goal; [|done]. cbn [blk_txs queue waiting_orphans].
    by rewrite (queued_perm _ _ (make_heap_perm (TxPriorityCompare true) (queue f))).
  - unfold resort. by case_goal.
  - unfold resort. by case_goal.
Qed.

Lemma fill_loop_filling fuel depends f f' :
  filling f -> mine_loop par s mo fuel fProofOfStake depends chain nTimeMax f = Mined f' -> filling f'.
Proof.
  revert f. induction fuel as [|fuel IH]; intros f Hf; cbn [mine_loop]; (destruct (queue f) as [|item q] eqn:Eq; [by intros [= <-]|]); [done|].
  set (f1 := with_queue _ f). assert (Hpop : item.2 :: queued (queue f1) ≡ₚ queued (queue f)) by (rewrite Eq; apply queued_pop).
  assert (Hf1 : filling f1).
  { apply filling_less; [done|]. rewrite <- Hpop. by apply submseteq_cons. }
  destruct (fill_step _ _ _ _ _ _ _ item f1) as [f2|] eqn:Es; [|done]. apply IH. eapply fill_step_filling; [exact Hf1| | |exact Es].
  - change (blk_txs f1) with (blk_txs f). change (waiting_orphans f1) with (waiting_orphans f). rewrite app_comm_cons, Hpop. apply Hf.
  - pose proof (fi_plain _ Hf) as Hp. rewrite Forall_forall in Hp. apply Hp. apply elem_of_app. right. apply elem_of_app. left. rewrite <- Hpop. by left.
Qed.
End filling.

(** The block is filled with what holds of [filling] *)
Lemma fill_block_filling fProofOfStake chain nHeight nTimeMax f :
  pool_small -> cache_valid (sigcache s) -> fill_block par s mo fProofOfStake chain nHeight nTimeMax = Mined f ->
  filling fProofOfStake chain nHeight nTimeMax f.
Proof.
  intros Hsmall Hc. unfold fill_block. destruct (collect_loop par s mo nHeight _ _) as [l| |] eqn:El; [|done..].
  apply (collect_loop_spec nHeight _ _ []) in El as [_ Hsub Hplain]; [|split; [intros id [? Hid]; cbn [vOrphan] in Hid; by rewrite lookup_empty in Hid|done|constructor]].
  cbn [app] in Hsub. intros Hf. eapply fill_loop_filling; [done| |exact Hf].
  assert (Hq : queued (make_heap (TxPriorityCompare (nBlockPrioritySize mo <=? 0)) (vecPriority l)) ≡ₚ queued (vecPriority l)) by apply queued_perm, make_heap_perm.
  split; cbn [blk_txs queue waiting_orphans fl_cache mapTestPool nBlockSize nBlockSigOps app]; try done.
  - by rewrite Hq.
  - by rewrite Hq.
  - constructor. intros h. unfold queue_view. by rewrite lookup_empty.
  - split; [done|]. pose proof MaxSize_range. lia.
Qed.

(** ** Nothing goes wrong where every input has a source *)

(** The output of an input is on the disk, or of another transaction of the pool *)
Definition sourced (txin : CTxIn) : Prop :=
  is_Some (ReadFromDisk (T := leveldb_store) db (prevout txin)) \/
  exists txPrev, pool !! op_hash (prevout txin) = Some txPrev /\ (Z.to_nat (op_n (prevout txin)) < length (vout txPrev))%nat.

Definition pool_sourced : Prop := forall h tx, pool !! h = Some tx -> Forall sourced (vin tx) /\ is_Some (GetValueOut tx).

(** Every pointer in [mapDependers] is to an element of [vOrphan] *)
Definition pointers_ok (depends : gmap (list Z) (list nat)) (m : gmap nat COrphan) : Prop :=
  forall h ids id, depends !! h = Some ids -> id ∈ ids -> is_Some (m !! id).

Lemma wait_for_pointers tx h sm :
  match porphan sm with Some id => is_Some (vOrphan (sm_lists sm) !! id) | None => True end ->
  pointers_ok (mapDependers (sm_lists sm)) (vOrphan (sm_lists sm)) ->
  match porphan (wait_for tx h sm) with Some id => is_Some (vOrphan (sm_lists (wait_for tx h sm)) !! id) | None => True end /\
  pointers_ok (mapDependers (sm_lists (wait_for tx h sm))) (vOrphan (sm_lists (wait_for tx h sm))).
Proof.
  intros Hid Hp. unfold wait_for.
  assert (Hgo : forall id (m : gmap nat COrphan) (d : gmap (list Z) (list nat)) g, is_Some (m !! id) -> pointers_ok d m ->
    is_Some (alter g id m !! id) /\ pointers_ok (<[h := default [] (d !! h) ++ [id]]> d) (alter g id m)).
  { intros id m d g Hl Hpl. assert (Ha : forall j, is_Some (m !! j) -> is_Some (alter g id m !! j)).
    { intros j Hj. destruct (decide (id = j)) as [<-|Hn]; [rewrite lookup_alter_eq; by apply fmap_is_Some|by rewrite lookup_alter_ne]. }
    split; [by apply Ha|]. intros h' ids j [[<- <-]|[_ Hh']]%lookup_insert_Some Hj; [|by apply Ha, (Hpl h' ids)].
    apply elem_of_app in Hj as [Hj| ->%list_elem_of_singleton]; [|by apply Ha]. destruct (d !! h) as [js|] eqn:Ej; [|by apply not_elem_of_nil in Hj].
    by apply Ha, (Hpl h js). }
  destruct (porphan sm) as [id|]; cbn [sm_lists porphan vOrphan mapDependers]; [by apply Hgo|]. apply Hgo.
  - rewrite lookup_insert_eq. by eexists.
  - intros h' ids j Hh' Hj. apply lookup_insert_is_Some'. right. by apply (Hp h' ids).
Qed.

Lemma ReadFromDisk_output prevout txPrev x :
  0 <= op_n prevout -> ReadFromDisk (T := leveldb_store) db prevout = Some (txPrev, x) -> is_Some (vout txPrev !! Z.to_nat (op_n prevout)).
Proof.
  intros Hn. unfold ReadFromDisk. intros (i & _ & Hr)%bind_Some. apply bind_Some in Hr as (t & _ & Hr).
  destruct (Z.leb_spec (Z.of_nat (length (vout t))) (op_n prevout)); [done|]. injection Hr as <- _. apply lookup_lt_is_Some. lia.
Qed.

Lemma sum_inputs_defined tx ins sm :
  Forall sourced ins -> Forall txin_ok ins ->
  match porphan sm with Some id => is_Some (vOrphan (sm_lists sm) !! id) | None => True end ->
  pointers_ok (mapDependers (sm_lists sm)) (vOrphan (sm_lists sm)) ->
  exists sm', sum_inputs s mo tx ins sm = Mined (inr sm') /\
    match porphan sm' with Some id => is_Some (vOrphan (sm_lists sm') !! id) | None => True end /\
    pointers_ok (mapDependers (sm_lists sm')) (vOrphan (sm_lists sm')).
Proof.
  intros Hs Hok. revert sm. induction Hs as [|txin ins Hsrc Hs IH]; intros sm Hid Hp; cbn [sum_inputs]; [by exists sm|].
  apply Forall_cons in Hok as [((_ & Hn) & _) Hok]. destruct (ReadFromDisk _ (prevout txin)) as [[txPrev x]|] eqn:Er.
  - apply ReadFromDisk_output in Er as [o ->]; [|apply Hn]. by apply IH.
  - destruct Hsrc as [[? Hd]|(txPrev & Htp & Hl)]; [congruence|]. rewrite Htp. apply lookup_lt_is_Some in Hl as [o ->].
    destruct (wait_for_pointers tx (op_hash (prevout txin)) sm Hid Hp) as [H1 H2]. by apply IH.
Qed.

Lemma collect_tx_defined nHeight h tx l :
  pool !! h = Some tx -> pool_sourced -> pool_small -> pointers_ok (mapDependers l) (vOrphan l) ->
  exists l', collect_tx par s mo nHeight tx l = Mined l' /\ pointers_ok (mapDependers l') (vOrphan l').
Proof.
  intros Hh Hsrc Hsm Hp. unfold collect_tx. case_goal; [by exists l|]. destruct (Hsrc h tx Hh) as [Hins [v Hv]].
  destruct (Hsm h tx Hh) as [(_ & _ & (Hok & _) & _) _].
  destruct (sum_inputs_defined tx (vin tx) (mkSumming l None (to_double 0) 0) Hins Hok I Hp) as (sm & -> & Hid & Hp'). rewrite Hv.
  eexists. split; [reflexivity|]. destruct (porphan sm) as [id|]; [|done]. cbn [mapDependers vOrphan with_orphans].
  intros h' ids j Hh' Hj. destruct (decide (id = j)) as [<-|Hn]; [rewrite lookup_alter_eq; by apply fmap_is_Some|].
  rewrite lookup_alter_ne by done. by apply (Hp' h' ids).
Qed.

Lemma collect_loop_defined nHeight txs l :
  Forall (fun tx => exists h, pool !! h = Some tx) txs -> pool_sourced -> pool_small -> pointers_ok (mapDependers l) (vOrphan l) ->
  exists l', collect_loop par s mo nHeight txs l = Mined l' /\ pointers_ok (mapDependers l') (vOrphan l').
Proof.
  intros Hin Hsrc Hsm. revert l. induction Hin as [|tx txs [h Hh] Hin IH]; intros l Hp; cbn [collect_loop]; [by exists l|].
  destruct (collect_tx_defined nHeight h tx l Hh Hsrc Hsm Hp) as (l1 & -> & Hp1). by apply IH.
Qed.

Lemma release_defined byFee h ids q m :
  (forall id, id ∈ ids -> is_Some (m !! id)) ->
  exists q' m', release byFee h ids q m = Some (q', m') /\ forall id, is_Some (m !! id) -> is_Some (m' !! id).
Proof.
  revert q m. induction ids as [|id ids IH]; intros q m Hids; cbn [release]; [by exists q, m|].
  destruct (Hids id ltac:(by left)) as [o Ho]. rewrite Ho. cbn [mbind option_bind]. case_bool_decide.
  - apply IH. intros j Hj. apply Hids. by right.
  - match goal with |- context [release byFee h ids ?q1 ?m1] => destruct (IH q1 m1) as (q' & m' & -> & Hm) end.
    + intros j Hj. apply lookup_insert_is_Some'. right. apply Hids. by right.
    + exists q', m'. split; [done|]. intros j Hj. apply Hm, lookup_insert_is_Some'. by right.
Qed.

(** The inputs that [FetchInputs] has checked *)
Definition ranged (inputs : MapPrevTx) (ins : list CTxIn) : Prop :=
  Forall (fun txin => exists x tp, inputs !! op_hash (prevout txin) = Some (x, tp) /\
    (Z.to_nat (op_n (prevout txin)) < length (vout tp))%nat /\ (Z.to_nat (op_n (prevout txin)) < length (vSpent x))%nat /\
    op_n (prevout txin) < Z.of_nat (length (vout tp))) ins.

Lemma in_range_ranged inputs ins : Forall txin_ok ins -> Forall (fun txin => in_range inputs txin = true) ins -> ranged inputs ins.
Proof.
  intros Hok Hr. unfold ranged. rewrite Forall_forall in *. intros txin Hin. specialize (Hr txin Hin). destruct (Hok txin Hin) as ((_ & Hn) & _).
  unfold in_range in Hr. unfold fits in Hn. destruct (inputs !! _) as [[x tp]|]; [|done]. exists x, tp. bool_prop. split; [done|]. lia.
Qed.

Lemma value_loop_defined tx chain ins inputs n : ranged inputs ins -> value_loop (par_at par s) tx chain ins inputs n <> Throws.
Proof.
  intros Hr. revert n. induction Hr as [|txin ins (x & tp & Hi & _) Hr IH]; intros n; cbn [value_loop]; [done|]. rewrite Hi.
  case_goal; [|done]. unfold guard. repeat (case_goal; [|done]). apply IH.
Qed.

Lemma spend_loop_defined m tx p i ins inputs q ks c : ranged inputs ins -> (spend_loop (par_at par s) m tx p i ins inputs q ks c).1 <> Throws.
Proof.
  revert i inputs q ks c. induction ins as [|txin ins IH]; intros i inputs q ks c Hr; cbn [spend_loop]; [done|].
  apply Forall_cons in Hr as [(x & tp & Hi & Hl1 & Hl2 & _) Hr]. rewrite Hi.
  apply lookup_lt_is_Some in Hl1 as [o ->]. apply lookup_lt_is_Some in Hl2 as [r ->]. case_goal; [done|].
  destruct (check_input _ m _ ks c) as [[ks1|n|] c1] eqn:Ec; [|done|].
  - apply IH. eapply Forall_impl; [exact Hr|]. intros t (x' & tp' & Hi' & Hl' & Hl2' & Hz').
    destruct (decide (op_hash (prevout txin) = op_hash (prevout t))) as [He|Hn].
    + rewrite <- He in *. rewrite Hi in Hi'. injection Hi' as <- <-. eexists _, tp. rewrite lookup_insert_eq. split; [done|]. cbn [vSpent].
      rewrite length_insert. done.
    + exists x', tp'. by rewrite lookup_insert_ne.
  - exfalso. unfold check_input in Ec. repeat case_hyp Ec; by injection Ec.
Qed.

Lemma ConnectInputs_defined m tx inputs q p chain c :
  IsCoinStake tx = false -> is_Some (GetValueOut tx) -> ranged inputs (vin tx) ->
  (ConnectInputs (T := leveldb_store) (par_at par s) m db tx inputs q p chain c).1 <> Throws.
Proof.
  intros Hcs [v Hv] Hr. unfold ConnectInputs. destruct (IsCoinBase tx); [done|].
  pose proof (value_loop_defined tx chain (vin tx) inputs 0 Hr) as H1. destruct (value_loop _ _ _ _ _ 0) as [n|n|]; [|done|done].
  pose proof (spend_loop_defined m tx p 0 (vin tx) inputs q [] c Hr) as H2. destruct (spend_loop _ _ _ _ _ _ _ _ _ c) as [[[q1 k1]|k|] c1]; [|done|done].
  unfold check_fee. rewrite Hcs, Hv. unfold guard. by repeat case_goal.
Qed.

Lemma GetOutputFor_ranged inputs txin ins : ranged inputs ins -> txin ∈ ins -> is_Some (GetOutputFor txin inputs).
Proof.
  intros Hr Hin. unfold ranged in Hr. rewrite Forall_forall in Hr. destruct (Hr txin Hin) as (x & tp & Hi & Hl & _ & Hz). unfold GetOutputFor. rewrite Hi.
  cbn [mbind option_bind]. rewrite (proj2 (Z.leb_gt _ _)) by lia. by apply lookup_lt_is_Some.
Qed.

Lemma values_defined tx inputs : ranged inputs (vin tx) -> is_Some (GetValueIn tx inputs) /\ is_Some (GetP2SHSigOpCount tx inputs).
Proof.
  intros Hr. unfold GetValueIn, GetP2SHSigOpCount. destruct (IsCoinBase tx); [by split; eexists|].
  assert (Hall : forall txin, txin ∈ vin tx -> is_Some (GetOutputFor txin inputs)) by (intros txin; by apply GetOutputFor_ranged).
  revert Hall. clear Hr. generalize (vin tx). intros ins Hall. split.
  - generalize 0. induction ins as [|txin ins IH]; intros n; cbn [value_in_loop]; [by eexists|].
    destruct (Hall txin ltac:(by left)) as [o ->]. cbn [mbind option_bind]. apply IH. intros t Ht. apply Hall. by right.
  - generalize 0. induction ins as [|txin ins IH]; intros n; cbn [p2sh_sigops_loop]; [by eexists|].
    destruct (Hall txin ltac:(by left)) as [o ->]. cbn [mbind option_bind]. apply IH. intros t Ht. apply Hall. by right.
Qed.

(** The transactions that the second loop may still take off the queue *)
Definition still (f : Filling) : list CTransaction := queued (queue f) ++ waiting_txs (waiting_orphans f).

Lemma connect_to_block_defined depends chain tx nTxSize nTxSigOps nMinFee f h :
  pool !! h = Some tx -> IsCoinBase tx = false -> IsCoinStake tx = false -> pool_sourced -> pool_small -> pointers_ok depends (waiting_orphans f) ->
  exists f', connect_to_block par s depends chain tx nTxSize nTxSigOps nMinFee f = Some f' /\
    pointers_ok depends (waiting_orphans f') /\ still f' ≡ₚ still f.
Proof.
  intros Hh Hcb Hcs Hsrc Hsm Hp. unfold connect_to_block. destruct (Hsrc h tx Hh) as [_ Hv]. destruct (Hsm h tx Hh) as [(_ & _ & (Hok & _) & _) _].
  destruct (FetchInputs _ _ _ _ _ tx) as [inputs|] eqn:Ef; [|by exists f]. apply FetchInputs_miner in Ef as [_ Hr]; [|done].
  apply in_range_ranged in Hr; [|done]. destruct (values_defined tx inputs Hr) as [[vi ->] [np Hnp]]. destruct Hv as [vo Hvo]. rewrite Hvo. cbn [mbind option_bind].
  case_goal; [by exists f|]. rewrite Hnp. cbn [mbind option_bind]. case_goal; [by exists f|].
  pose proof (ConnectInputs_defined (mkMode false true true MANDATORY_SCRIPT_VERIFY_FLAGS false) tx inputs (mapTestPool f) POOL_POS chain (fl_cache f)
    Hcs (mk_is_Some _ _ Hvo) Hr) as Hd.
  destruct (ConnectInputs _ _ _ _ _ _ _ _ _) as [[[q' ks]|n|] c'] eqn:Ec; [|by exists (with_fl_cache c' f)|done].
  assert (Hids : forall id, id ∈ default [] (depends !! CTransaction_GetHash tx) -> is_Some (waiting_orphans f !! id)).
  { intros id Hid. destruct (depends !! CTransaction_GetHash tx) as [ids|] eqn:Ei; [|by apply not_elem_of_nil in Hid]. by apply (Hp (CTransaction_GetHash tx) ids). }
  destruct (release_defined (fSortedByFee f) (CTransaction_GetHash tx) _ (queue f) (waiting_orphans f) Hids) as (qq & m & Hrel & Hm).
  rewrite Hrel. cbn [mbind option_bind]. eexists. split; [reflexivity|]. cbn [waiting_orphans queue]. split.
  - intros h' ids id H1 H2. apply Hm. by apply (Hp h' ids).
  - unfold still. cbn [waiting_orphans queue]. by eapply release_perm.
Qed.

Lemma fill_step_defined fProofOfStake depends chain nTimeMax item f h :
  pool !! h = Some item.2 -> IsCoinBase item.2 = false -> IsCoinStake item.2 = false -> pool_sourced -> pool_small -> pointers_ok depends (waiting_orphans f) ->
  exists f', fill_step par s mo fProofOfStake depends chain nTimeMax item f = Some f' /\
    pointers_ok depends (waiting_orphans f') /\ still f' ≡ₚ still f.
Proof.
  intros Hh Hcb Hcs Hsrc Hsm Hp. destruct item as [[dPriority dFeePerKb] tx]. cbn [snd] in *. unfold fill_step.
  repeat (case_goal; [by exists f|]).
  destruct (connect_to_block_defined depends chain tx (u32 (GetSerializeSize tx_codec tx)) (GetLegacySigOpCount tx) (GetMinFee (u32 (nBlockSize f)) false GMF_BLOCK 0 tx)
    (resort mo (u32 (GetSerializeSize tx_codec tx)) dPriority f) h Hh Hcb Hcs Hsrc Hsm) as (f' & Hf' & Hp' & Hs').
  - unfold resort. by case_goal.
  - exists f'. split; [done|]. split; [done|]. rewrite Hs'. unfold resort, still. case_goal; [|done]. cbn [queue waiting_orphans].
    by rewrite (queued_perm _ _ (make_heap_perm (TxPriorityCompare true) (queue f))).
Qed.

Lemma fill_loop_defined fuel fProofOfStake depends chain nHeight nTimeMax f :
  pool_sourced -> pool_small -> filling fProofOfStake chain nHeight nTimeMax f -> pointers_ok depends (waiting_orphans f) ->
  (length (still f) <= fuel)%nat -> exists f', mine_loop par s mo fuel fProofOfStake depends chain nTimeMax f = Mined f'.
Proof.
  intros Hsrc Hsm. revert f. induction fuel as [|fuel IH]; intros f Hf Hp Hl; cbn [mine_loop]; (destruct (queue f) as [|item q] eqn:Eq; [by exists f|]).
  { unfold still in Hl. rewrite Eq in Hl. cbn in Hl. lia. }
  set (f1 := with_queue _ f). assert (Hpop : item.2 :: queued (queue f1) ≡ₚ queued (queue f)) by (rewrite Eq; apply queued_pop).
  assert (Hf1 : filling fProofOfStake chain nHeight nTimeMax f1) by (apply filling_less; [done|]; rewrite <- Hpop; by apply submseteq_cons).
  assert (Hitem : item.2 ∈ blk_txs f ++ queued (queue f) ++ waiting_txs (waiting_orphans f)).
  { apply elem_of_app. right. apply elem_of_app. left. rewrite <- Hpop. by left. }
  pose proof (fi_plain _ _ _ _ _ Hf) as Hplain. rewrite Forall_forall in Hplain. destruct (Hplain _ Hitem) as (Hcb & Hcs & Hfin).
  pose proof (elem_of_submseteq _ _ _ Hitem (fi_sub _ _ _ _ _ Hf)) as (h & Hh)%elem_of_pool_txs.
  destruct (fill_step_defined fProofOfStake depends chain nTimeMax item f1 h Hh Hcb Hcs Hsrc Hsm Hp) as (f2 & Hs & Hp2 & Hst). rewrite Hs.
  apply IH; [|done|].
  - eapply fill_step_filling; [exact Hsm|exact Hf1| |done|exact Hs].
    change (blk_txs f1) with (blk_txs f). change (waiting_orphans f1) with (waiting_orphans f). rewrite app_comm_cons, Hpop. apply Hf.
  - rewrite Hst. unfold still in *. change (waiting_orphans f1) with (waiting_orphans f). apply Permutation_length in Hpop. cbn [length] in Hpop.
    rewrite !length_app in *. lia.
Qed.

Lemma fill_block_defined fProofOfStake chain nHeight nTimeMax :
  pool_sourced -> pool_small -> cache_valid (sigcache s) -> exists f, fill_block par s mo fProofOfStake chain nHeight nTimeMax = Mined f.
Proof.
  intros Hsrc Hsm Hc. unfold fill_block. fold pool_txs. destruct (collect_loop_defined nHeight pool_txs (mkCollecting ∅ 0 ∅ [])) as (l & El & Hp); try done.
  { apply Forall_forall. intros tx. by apply elem_of_pool_txs. }
  rewrite El. assert (Hq : queued (make_heap (TxPriorityCompare (nBlockPrioritySize mo <=? 0)) (vecPriority l)) ≡ₚ queued (vecPriority l)) by apply queued_perm, make_heap_perm.
  apply (collect_loop_spec nHeight _ _ []) in El as [_ Hsub Hplain]; [|split; [intros id [? Hid]; cbn [vOrphan] in Hid; by rewrite lookup_empty in Hid|done|constructor]].
  cbn [app] in Hsub. eapply (fill_loop_defined _ fProofOfStake _ chain nHeight); try done.
  - split; cbn [blk_txs queue waiting_orphans fl_cache mapTestPool nBlockSize nBlockSigOps app]; try done; try by rewrite Hq.
    + constructor. intros h. unfold queue_view. by rewrite lookup_empty.
    + split; [done|]. pose proof MaxSize_range. lia.
  - unfold still. cbn [queue waiting_orphans]. rewrite Hq. rewrite <- length_pool_txs. by apply submseteq_length.
Qed.

(** The loop ends with an empty queue *)
Lemma fill_loop_empty fuel fProofOfStake depends chain nTimeMax f f' :
  mine_loop par s mo fuel fProofOfStake depends chain nTimeMax f = Mined f' -> queue f' = [].
Proof.
  revert f. induction fuel as [|fuel IH]; intros f; cbn [mine_loop]; (destruct (queue f) eqn:Eq; [by intros [= <-]|]); [done|].
  destruct (fill_step _ _ _ _ _ _ _ _ _); [apply IH|done].
Qed.

Lemma fill_block_empty fProofOfStake chain nHeight nTimeMax f : fill_block par s mo fProofOfStake chain nHeight nTimeMax = Mined f -> queue f = [].
Proof. unfold fill_block. destruct (collect_loop _ _ _ _ _ _); [apply fill_loop_empty|done..]. Qed.

(** ** The header *)

Lemma max_time_spec b :
  Forall (fun tx => 0 <= nTime tx < 2 ^ 32) (vtx b) ->
  0 <= GetMaxTransactionTime b < 2 ^ 32 /\ Forall (fun tx => nTime tx <= GetMaxTransactionTime b) (vtx b) /\
  forall k, 0 <= k -> Forall (fun tx => nTime tx <= k) (vtx b) -> GetMaxTransactionTime b <= k.
Proof.
  unfold GetMaxTransactionTime. generalize (vtx b). clear b. intros txs Ht.
  enough (Hgo : forall t, 0 <= t < 2 ^ 32 -> let m := foldl (fun t tx => Z.max t (i64 (nTime tx))) t txs in
    t <= m < 2 ^ 32 /\ Forall (fun tx => nTime tx <= m) txs /\ forall k, t <= k -> Forall (fun tx => nTime tx <= k) txs -> m <= k).
  { destruct (Hgo 0 ltac:(lia)) as (H1 & H2 & H3). done. }
  induction Ht as [|tx txs Hr Ht IH]; intros t Hb; cbn [foldl]; [split_and!; [lia..|constructor|]; intros k Hk _; lia|].
  rewrite swrap_small by lia. destruct (IH (Z.max t (nTime tx)) ltac:(lia)) as (H1 & H2 & H3). split; [lia|]. split.
  - constructor; [lia|done].
  - intros k Hk [Hk1 Hk2]%Forall_cons. apply H3; [lia|done].
Qed.

Lemma median_range chain : Forall (fun i => 0 <= bi_nTime i < 2 ^ 32 - 1) chain -> 0 <= GetPastTimeLimit chain < 2 ^ 32 - 1.
Proof.
  intros Hc. unfold GetPastTimeLimit, GetMedianTimePast. apply (nthZ_digit (2 ^ 32 - 1)); [lia|].
  rewrite (merge_sort_Permutation Z.le). apply Forall_rev, Forall_fmap, Forall_take. exact Hc.
Qed.

Lemma new_header_same fProofOfStake prev chain nBits txs :
  let b := new_header par fProofOfStake prev chain nBits txs in
  vtx b = txs /\ hashPrevBlock b = bi_hash prev /\ Block.nBits b = nBits /\ fHashCached b = false.
Proof. unfold new_header. by destruct fProofOfStake. Qed.

Lemma PastDrift_bound t : 0 <= t -> t - 7200 <= PastDrift t < t.
Proof. intros Ht. unfold PastDrift. case_goal; lia. Qed.

(** The time of a new block keeps the rules where it attaches *)
Lemma new_header_time fProofOfStake prev chain nBits txs :
  0 <= now par < 2 ^ 32 -> Forall (fun i => 0 <= bi_nTime i < 2 ^ 32 - 1) (prev :: chain) -> Forall (fun tx => 0 <= nTime tx < 2 ^ 32) txs ->
  let b := new_header par fProofOfStake prev (prev :: chain) nBits txs in
  GetPastTimeLimit (prev :: chain) < GetBlockTime b /\ bi_GetBlockTime prev <= FutureDrift (GetBlockTime b) /\
  Forall (fun tx => nTime tx <= GetBlockTime b) txs /\ 0 <= GetBlockTime b < 2 ^ 32 /\ (fProofOfStake = false -> now par <= GetBlockTime b).
Proof.
  intros Hnow Hchain Htxs. pose proof (median_range _ Hchain) as Hm. apply Forall_cons in Hchain as [Hprev _].
  set (b0 := mkBlock CBlock_CURRENT_VERSION (bi_hash prev) (assign64 WIDTH256 0) 0 nBits 0 txs [] [] (assign64 WIDTH256 0) false).
  destruct (max_time_spec b0 Htxs) as (Hmax & Hle & _). change (bi_GetBlockTime prev) with (bi_nTime prev).
  pose proof (PastDrift_bound (bi_nTime prev) ltac:(lia)) as Hd. set (lim := GetPastTimeLimit (prev :: chain)) in *. set (top := GetMaxTransactionTime b0) in *.
  set (t2 := Z.max (Z.max (lim + 1) top) (PastDrift (bi_nTime prev))).
  assert (Ht : GetBlockTime (new_header par fProofOfStake prev (prev :: chain) nBits txs) = if fProofOfStake then t2 else Z.max t2 (now par)).
  { unfold new_header. fold b0. fold top. fold lim. destruct fProofOfStake; unfold UpdateTime, GetBlockTime; cbn [blk_nTime with_header Block.with_cache hashMerkleRoot b0];
      change (bi_GetBlockTime prev) with (bi_nTime prev); rewrite (wrap_small 32 (Z.max (lim + 1) top)) by lia; rewrite (swrap_small 64 (Z.max (lim + 1) top)) by lia;
      fold t2; rewrite (wrap_small 32 t2) by lia; rewrite (swrap_small 64 t2) by lia; [done|]. rewrite wrap_small, swrap_small by lia. done. }
  cbv zeta. rewrite Ht. assert (Ht2 : lim < t2 /\ top <= t2 /\ PastDrift (bi_nTime prev) <= t2 < 2 ^ 32) by lia. clearbody t2 lim top.
  split; [destruct fProofOfStake; lia|]. split.
  - assert (Hle2 : t2 <= if fProofOfStake then t2 else Z.max t2 (now par)) by (destruct fProofOfStake; lia).
    revert Hle2. generalize (if fProofOfStake then t2 else Z.max t2 (now par)). intros t Hle2. unfold FutureDrift, PastDrift in *.
    destruct (Z.ltb_spec VERSION1_5_SWITCH_TIME t), (Z.ltb_spec VERSION1_5_SWITCH_TIME (bi_nTime prev)); lia.
  - split; [|split; [destruct fProofOfStake; lia|by intros ->; lia]]. eapply Forall_impl; [exact Hle|]. cbn. intros tx Hx. destruct fProofOfStake; lia.
Qed.

(** What the first transaction of the new block is *)
Definition coinbase_of (fProofOfStake : bool) (cb : CTransaction) : Prop :=
  nTime cb = now par /\ vin cb = [CTxIn_null] /\
  if fProofOfStake then vout cb = [CTxOut_SetEmpty]
  else exists pubkey, vout cb = [mkTxOut GetProofOfWorkReward (push_op (push_vch [] pubkey) OP_CHECKSIG)].

Lemma coinbase_of_IsCoinBase fProofOfStake cb : coinbase_of fProofOfStake cb -> IsCoinBase cb = true.
Proof. intros (_ & Hi & Ho). unfold IsCoinBase. rewrite Hi. destruct fProofOfStake; [by rewrite Ho|]. by destruct Ho as [? ->]. Qed.

Lemma new_coinbase_spec keypool GetTime fProofOfStake w txNew w' :
  new_coinbase EC_KEY_generate_key i2d_ECPrivateKey par keypool GetTime fProofOfStake w = Returned (Some txNew) w' ->
  coinbase_of fProofOfStake (if fProofOfStake then txNew else set_coinbase_value GetProofOfWorkReward txNew) /\ nTime txNew = now par.
Proof.
  unfold new_coinbase. destruct fProofOfStake; [by intros [= <- _]|]. destruct (GetReservedKey _ _ _ _ _ _) as [[pubkey|] [k keys]|[k keys]]; [|done..].
  intros Hr. injection Hr as <- _. split; [|done]. split; [done|]. split; [done|]. by exists pubkey.
Qed.

(** [CreateNewBlock] taken apart *)
Lemma CreateNewBlock_steps keypool GetTime fProofOfStake w ms b w' ms' c' :
  CreateNewBlock EC_KEY_generate_key i2d_ECPrivateKey par s mo keypool GetTime fProofOfStake w ms = Mined (Some b, w', ms', c') ->
  exists cb prev chain nBits f, coinbase_of fProofOfStake cb /\ best_chain s = prev :: chain /\
    GetNextTargetRequired (fTestNet par) (cs_nBestHeight s) (prev :: chain) fProofOfStake = Some nBits /\
    fill_block par s mo fProofOfStake (prev :: chain) (bi_nHeight prev + 1) (now par) = Mined f /\
    b = new_header par fProofOfStake prev (prev :: chain) nBits (cb :: blk_txs f) /\ ms' = with_last f ms /\ c' = fl_cache f.
Proof.
  unfold CreateNewBlock. destruct (new_coinbase _ _ _ _ _ _ w) as [[txNew|] w1|w1] eqn:En; [|done..].
  apply new_coinbase_spec in En as [Hcb Ht]. destruct (best_chain s) as [|prev chain] eqn:Eb; [done|].
  destruct (GetNextTargetRequired _ _ _ _) as [nBits|] eqn:Eg; [|done]. rewrite Ht.
  destruct (fill_block _ _ _ _ _ _ _) as [f| |] eqn:Ef; [|done..]. intros [= <- _ <- <-].
  eexists _, prev, chain, nBits, f. split; [exact Hcb|]. by split_and!.
Qed.
(** ** Signing *)

Lemma finish_stake_time snd_opt so rounds nBits w coins nCredit tx0 key c tx key' c' :
  cache_valid c -> finish_stake par s snd_opt so rounds nBits w coins nCredit tx0 key c = Some (CS_true tx key', c') -> nTime tx = nTime tx0.
Proof.
  intros Hc. unfold finish_stake. destruct (GetCoinAge _ _ _); [|done]. destruct (GetProofOfStakeReward _ _ _ _ _) as [nReward|]; [|done].
  match goal with |- context [stake_fee_loop] => idtac end.
  assert (Hgo : forall fSplit nCred nChar tx1, nTime tx1 = nTime tx0 ->
    stake_fee_loop snd_opt rounds w coins fSplit nCred nChar 0 tx1 key c = Some (CS_true tx key', c') -> nTime tx = nTime tx0).
  { intros fSplit nCred nChar tx1 Ht Hl. destruct rounds as [|rounds]; [done|].
    destruct (stake_fee_loop_ok snd_opt rounds w coins fSplit nCred nChar tx1 key c Hc) as (r & c1 & Hr & _ & Hok). rewrite Hl in Hr. injection Hr as <- <-.
    destruct (Hok tx key' eq_refl) as (_ & E1 & _). congruence. }
  repeat case_goal; by apply Hgo.
Qed.

Lemma stake_with_time snd_opt so rounds nBits nLimit st item nTimeTx nBlockTime txNew key c tx key' c' :
  cache_valid c -> stake_with par s snd_opt so rounds nBits nLimit st item nTimeTx nBlockTime txNew key c = Some (CS_true tx key', c') -> nTime tx = nTimeTx.
Proof.
  intros Hc. unfold stake_with. destruct (vout (mi_tx item) !! _) as [o|]; [|done]. destruct (stake_script _ _ _) as [[[script key1]|]|]; [|done..].
  cbv zeta. case_goal; [done|]. destruct (add_inputs _ _ _ _ _ _ _ _ _ _) as [[coins credit]|]; [|done]. by intros Ht%finish_stake_time.
Qed.

(** The time of a coinstake is one of those searched *)
Lemma CreateCoinStake_time depth opt snd_opt so rounds fuel nBits nSearchInterval keep_on txNew key st c tx key' st' c' :
  cache_valid c -> CreateCoinStake depth par s opt snd_opt so rounds fuel nBits nSearchInterval keep_on txNew key st c = Some (CS_true tx key', st', c') ->
  0 <= nTime tx < 2 ^ 32.
Proof.
  intros Hc. unfold CreateCoinStake. intros ([nBalance st1] & _ & Hr)%bind_Some. case_hyp Hr; [done|]. apply bind_Some in Hr as ([ok st2] & _ & Hr).
  destruct ok; [cbn [negb] in Hr|done]. destruct (ScanForStakeKernelHash _ _ _ _ _) as [[[item t] bt]|] eqn:Es; [|done].
  apply bind_Some in Hr as ([r c1] & Hw & Hr). injection Hr as -> _ ->. apply stake_with_time in Hw as ->; [|done].
  apply Scan_found in Es as (_ & _ & _ & o & keep & _ & Ht). apply search_times_found in Ht as (n & _ & _ & -> & _). apply wrap_range. lia.
Qed.

Lemma stake_block_time_eq prev chain b :
  best_chain s = prev :: chain -> Forall (fun i => 0 <= bi_nTime i < 2 ^ 32 - 1) (prev :: chain) -> Forall (fun tx => 0 <= nTime tx < 2 ^ 32) (vtx b) ->
  stake_block_time s prev b = Z.max (Z.max (GetPastTimeLimit (prev :: chain) + 1) (GetMaxTransactionTime b)) (PastDrift (bi_GetBlockTime prev)) /\
  0 <= stake_block_time s prev b < 2 ^ 32.
Proof.
  intros Eb Hchain Htxs. pose proof (median_range _ Hchain) as Hm. apply Forall_cons in Hchain as [Hprev _]. destruct (max_time_spec b Htxs) as (Hmax & _ & _).
  pose proof (PastDrift_bound (bi_nTime prev) ltac:(lia)) as Hd. unfold stake_block_time. rewrite Eb. change (bi_GetBlockTime prev) with (bi_nTime prev).
  unfold GetBlockTime. cbn [blk_nTime with_header].
  rewrite (wrap_small 32 (Z.max (GetPastTimeLimit (prev :: chain) + 1) (GetMaxTransactionTime b))) by lia. rewrite swrap_small by lia. rewrite wrap_small by lia. lia.
Qed.

Lemma filter_keeps {A} (Q : A -> Prop) `{forall x, Decision (Q x)} (l : list A) : Forall Q l -> filter Q l = l.
Proof. intros Hl. induction Hl as [|x l Hx Hl IH]; [done|]. by rewrite filter_cons_True, IH. Qed.

Lemma BuildMerkleTree_vtx b b' : vtx b = vtx b' -> (BuildMerkleTree b).1 = (BuildMerkleTree b').1.
Proof. intros Hv. unfold BuildMerkleTree. cbn [fst]. by rewrite Hv. Qed.

(** Nothing is removed: the time of the block is already that of its latest transaction *)
Lemma insert_stake_spec prev chain tx b cb txs :
  best_chain s = prev :: chain -> Forall (fun i => 0 <= bi_nTime i < 2 ^ 32 - 1) (prev :: chain) -> Forall (fun tx => 0 <= nTime tx < 2 ^ 32) txs ->
  0 <= nTime tx < 2 ^ 32 -> vtx b = cb :: txs ->
  exists b', insert_stake s prev tx b = Some b' /\ vtx b' = with_time (nTime tx) cb :: tx :: txs /\ fHashCached b' = false /\
    hashPrevBlock b' = hashPrevBlock b /\ nBits b' = nBits b /\ hashMerkleRoot b' = (BuildMerkleTree b').1 /\ 0 <= GetBlockTime b' < 2 ^ 32 /\
    GetBlockTime b' = Z.max (Z.max (GetPastTimeLimit (prev :: chain) + 1) (GetMaxTransactionTime (with_vtx b (with_time (nTime tx) cb :: txs))))
      (PastDrift (bi_GetBlockTime prev)).
Proof.
  intros Eb Hchain Htxs Htx Hv. unfold insert_stake. rewrite Hv. set (b1 := with_vtx b (with_time (nTime tx) cb :: txs)).
  assert (H1 : Forall (fun tx => 0 <= nTime tx < 2 ^ 32) (vtx b1)) by (constructor; done).
  destruct (stake_block_time_eq prev chain b1 Eb Hchain H1) as [Ht Hr]. destruct (max_time_spec b1 H1) as (Hmax & Hle & _).
  set (t := stake_block_time s prev b1) in *. rewrite (filter_keeps _ (vtx (with_header b1 _ _ _))).
  2:{ eapply Forall_impl; [exact Hle|]. intros u Hu. cbn [blk_nTime with_header]. cbv beta in Hu. lia. }
  cbn [vtx with_header b1 with_vtx]. set (b2 := with_vtx _ (with_time (nTime tx) cb :: tx :: txs)). destruct (BuildMerkleTree b2) as [merkle b3] eqn:Em.
  assert (Hb3 : b3 = with_tree b2 (vMerkleTree b3)) by (unfold BuildMerkleTree in Em; by injection Em as _ <-). eexists. split; [reflexivity|].
  rewrite Hb3. unfold GetBlockTime. cbn [vtx fHashCached hashPrevBlock Block.nBits hashMerkleRoot blk_nTime with_header Block.with_cache with_tree b2 with_vtx b1].
  rewrite (swrap_small 64 t) by lia. split_and!; try done; [|lia..]. change merkle with ((merkle, b3).1). rewrite <- Em. by apply BuildMerkleTree_vtx.
Qed.

(** A stake whose time is not that of its block is refused *)
Lemma late_stake_refused fTestNet now g f1 f2 f3 b cb tx txs :
  vtx b = cb :: tx :: txs -> IsCoinStake tx = true -> GetBlockTime b <> nTime tx ->
  (CheckBlock fTestNet now g f1 f2 f3 b).1 <> Done tt.
Proof.
  intros Hv Hcs Ht. assert (Hp : vtx (check_pow fTestNet f1 b).2 = vtx b /\ GetBlockTime (check_pow fTestNet f1 b).2 = GetBlockTime b).
  { unfold check_pow, CBlock_GetHash. by repeat case_goal. }
  unfold CheckBlock. rewrite Hv. case_goal; [done|]. destruct (check_pow fTestNet f1 b) as [ok b1]. cbn [snd] in Hp. destruct Hp as [Hv1 Ht1].
  destruct ok; cbn [negb]; [|done]. repeat (case_goal; [done|]). unfold IsProofOfStake. rewrite Hv1, Hv, Hcs.
  unfold check_stake, CheckCoinStakeTimestamp. rewrite Hv1, Hv, Ht1. rewrite (proj2 (Z.eqb_neq _ _) Ht). cbn [negb]. by repeat case_goal.
Qed.
End theory.

(** ** Claims *)

(** C9: A block made by [CreateNewBlock] is one that can join the chain: it builds on the
    best block with the target that is required there and a time that keeps the rules of
    [AcceptBlock] and is no earlier than that of any transaction in it.  Behind a coinbase
    (that mints the reward for a proof of work, nothing for a proof of stake) come
    different transactions of the pool, final and not from the future, that fit in the
    size asked for and in the limits of a block; and each of them is valid, by
    [ConnectInputs] with every script run, on the index of the chain with those before it
    connected, so that none comes before one it spends and no output is spent twice. *)
Theorem create_new_block {B : BNOps} {E : ECOps} {SO : ECSecretOps E} {P : SecpOps} {C : CipherOps} {H : HashOps} {F : Files} {G : BlockFiles}
    {HL : HashLaws H} {EL : ECLaws E} EC_KEY_generate_key i2d_ECPrivateKey (par : Params) (s : ChainState) (mo : MineOptions)
    keypool GetTime fProofOfStake w ms b w' ms' c' :
  pool_ok (mempool s) -> pool_small s -> cache_valid (sigcache s) ->
  0 <= now par < 2 ^ 32 -> Forall (fun i => 0 <= bi_nTime i < 2 ^ 32 - 1) (best_chain s) ->
  CreateNewBlock EC_KEY_generate_key i2d_ECPrivateKey par s mo keypool GetTime fProofOfStake w ms = Mined (Some b, w', ms', c') ->
  exists prev chain cb txs V, best_chain s = prev :: chain /\ vtx b = cb :: txs /\ coinbase_of par fProofOfStake cb /\ cache_valid c' /\
    hashPrevBlock b = bi_hash prev /\
    GetNextTargetRequired (fTestNet par) (cs_nBestHeight s) (best_chain s) fProofOfStake = Some (nBits b) /\
    (GetPastTimeLimit (best_chain s) < GetBlockTime b /\ bi_GetBlockTime prev <= FutureDrift (GetBlockTime b) /\
      Forall (fun tx => nTime tx <= GetBlockTime b) (vtx b)) /\
    NoDup (CTransaction_GetHash <$> txs) /\
    Forall (fun tx => mapTx (mempool s) !! CTransaction_GetHash tx = Some tx /\ IsCoinBase tx = false /\ IsCoinStake tx = false /\
      IsFinalTx (cs_nBestHeight s) (now par) tx (bi_nHeight prev + 1) 0 = true /\ nTime tx <= now par) txs /\
    1000 + total_bytes txs <= nBlockMaxSize mo <= MAX_BLOCK_SIZE - 1000 /\ 100 + sigops_sum txs < MAX_BLOCK_SIGOPS /\
    filled par s (best_chain s) txs V.
Proof.
  intros Hpool Hsmall Hc Hnow Hchain Hr. apply CreateNewBlock_steps in Hr as (cb & prev & chain & bits & f & Hcb & Eb & Hbits & Hf & -> & _ & ->).
  apply fill_block_filling in Hf as [H1 H2 H3 H4 H5 [H6 H6'] H7]; [|done..]. rewrite Eb in *.
  destruct (new_header_same par fProofOfStake prev (prev :: chain) bits (cb :: blk_txs f)) as (Hv & Hp & Hb & _). rewrite Hv, Hp, Hb.
  assert (Hin : forall tx, tx ∈ blk_txs f -> exists h, mapTx (mempool s) !! h = Some tx).
  { intros tx Htx. apply elem_of_pool_txs. eapply elem_of_submseteq; [|exact H2]. set_solver. }
  assert (Htimes : Forall (fun tx => 0 <= nTime tx < 2 ^ 32) (cb :: blk_txs f)).
  { constructor; [destruct Hcb as (-> & _); lia|]. apply Forall_forall. intros tx (h & Hh)%Hin. destruct (Hsmall h tx Hh) as [(_ & Ht & _) _]. exact Ht. }
  destruct (new_header_time par fProofOfStake prev chain bits (cb :: blk_txs f) Hnow Hchain Htimes) as (T1 & T2 & T3 & _ & _).
  exists prev, chain, cb, (blk_txs f), (queue_view (T := leveldb_store) (read_db s) (mapTestPool f)). split_and!; try done.
  - assert (Hsub : blk_txs f ⊆+ pool_txs s) by (etrans; [apply submseteq_inserts_r; reflexivity|exact H2]).
    apply (fmap_submseteq CTransaction_GetHash) in Hsub. apply submseteq_Permutation in Hsub as [k Hk]. pose proof (pool_txs_distinct s Hpool) as Hnd.
    rewrite Hk in Hnd. by apply NoDup_app in Hnd as [Hnd _].
  - rewrite Forall_forall in *. intros tx Htx. destruct (Hin tx Htx) as (h & Hh). pose proof (pool_hashes _ Hpool h tx Hh) as <-. split; [done|].
    destruct (H3 tx ltac:(set_solver)) as (? & ? & ?). destruct (H4 tx Htx). done.
  - lia.
  - pose proof (MaxSize_range mo). lia.
  - lia.
Qed.

(** C10: [CreateNewBlock] ends with a block, whatever order the priorities give: where it has
    a coinbase and the target is defined, and every input of the pool is an output of a
    transaction on the disk or in the pool, its loops read no output that does not exist
    and no pointer into [vOrphan] that is gone, and each transaction of the pool is taken
    off the queue at most once. *)
Theorem create_new_block_made {B : BNOps} {E : ECOps} {SO : ECSecretOps E} {P : SecpOps} {C : CipherOps} {H : HashOps} {F : Files} {G : BlockFiles}
    {HL : HashLaws H} {EL : ECLaws E} EC_KEY_generate_key i2d_ECPrivateKey (par : Params) (s : ChainState) (mo : MineOptions)
    keypool GetTime fProofOfStake w w' txNew bits :
  pool_small s -> pool_sourced s -> cache_valid (sigcache s) ->
  new_coinbase EC_KEY_generate_key i2d_ECPrivateKey par keypool GetTime fProofOfStake w = Returned (Some txNew) w' ->
  GetNextTargetRequired (fTestNet par) (cs_nBestHeight s) (best_chain s) fProofOfStake = Some bits ->
  exists b f, nBits b = bits /\ length (vtx b) = S (length (blk_txs f)) /\ queue f = [] /\
    forall ms, CreateNewBlock EC_KEY_generate_key i2d_ECPrivateKey par s mo keypool GetTime fProofOfStake w ms = Mined (Some b, w', with_last f ms, fl_cache f).
Proof.
  intros Hsmall Hsrc Hc Hcb Hbits. destruct (best_chain s) as [|prev chain] eqn:Eb; [done|]. assert (Ht : nTime txNew = now par) by (by eapply new_coinbase_spec).
  destruct (fill_block_defined par s mo fProofOfStake (prev :: chain) (bi_nHeight prev + 1) (nTime txNew) Hsrc Hsmall Hc) as [f Hf].
  set (cb := if fProofOfStake then txNew else set_coinbase_value GetProofOfWorkReward txNew).
  destruct (new_header_same par fProofOfStake prev (prev :: chain) bits (cb :: blk_txs f)) as (Hv & _ & Hb & _).
  exists (new_header par fProofOfStake prev (prev :: chain) bits (cb :: blk_txs f)), f. rewrite Hv, Hb. split; [done|]. split; [done|]. split.
  - by eapply fill_block_empty.
  - intros ms. unfold CreateNewBlock. rewrite Hcb, Eb, Hbits, Hf. done.
Qed.


(** ** Witnesses: two transactions of the pool, one of which spends the other *)

Section make_witness.
#[local] Instance mine_blocks : BlockFiles := {| read_block _ _ := None |}.

Definition spend_child : CTransaction :=
  mkTx 1 1590000001 [mkTxIn (mkOutPoint (CTransaction_GetHash spend_tx) 0) [] UINT_MAX] [mkTxOut (8 * COIN) [0x51]] 0.
Definition mine_pool : CTxMemPool :=
  addUnchecked (CTransaction_GetHash spend_child) spend_child (addUnchecked (CTransaction_GetHash spend_tx) spend_tx (mkPool ∅ ∅ 0)).
Definition mine_state : ChainState :=
  mkChain lone_tree (Some (toy_hash_of 1)) (Some (toy_hash_of 1)) (toy_hash_of 1) 0 (toy_hash_of 1) (toy_hash_of 0) ∅ toy_db mine_pool empty_cache
    (mkSync (toy_hash_of 1) (toy_hash_of 0) CSyncCheckpoint_null CSyncCheckpoint_null (toy_hash_of 0) 0).
Definition mine_options : MineOptions := mkMineOptions 500000 27000 0 None false.
Definition mine_idle : MinerState := mkMiner 0 0 0 0 [] 0.
Definition mine_new (fProofOfStake : bool) :=
  CreateNewBlock (B := ZBN) (E := toy_ec) (SO := toy_secrets) (P := no_secp) (C := toy_cipher) toy_gen toy_der toy_params mine_state mine_options
    10 1600000000 fProofOfStake toy_funds mine_idle.

Lemma mine_pool_lookup h tx :
  mapTx mine_pool !! h = Some tx -> h = CTransaction_GetHash tx /\ (tx = spend_tx \/ tx = spend_child).
Proof.
  unfold mine_pool, addUnchecked. cbn [mapTx].
  intros [[<- <-]|[_ [[<- <-]|[_ Hn]]%lookup_insert_Some]]%lookup_insert_Some; [by eauto..|by rewrite lookup_empty in Hn].
Qed.

Lemma mine_pool_ok : pool_ok mine_pool.
Proof.
  apply addUnchecked_ok; [apply addUnchecked_ok|..].
  - split; cbn; [by intros h tx|]. intros k h n. split; [done|]. by intros (tx & ? & Htx & _).
  - done.
  - apply NoDup_singleton.
  - by repeat constructor.
  - vm_compute. reflexivity.
  - apply NoDup_singleton.
  - constructor; [vm_compute; reflexivity|constructor].
Qed.

Lemma mine_pool_small : pool_small mine_state.
Proof.
  intros h tx [_ [-> | ->]]%mine_pool_lookup; (split; [|vm_compute; discriminate]).
  - pose proof spend_block_ok as Hs. apply Forall_cons in Hs as [_ Hs]. by apply Forall_cons in Hs as [Hs _].
  - assert (Hh : uint_ok WIDTH256 (CTransaction_GetHash spend_tx)) by apply Hash_ok. unfold spend_child.
    unfold tx_ok, vec_ok, txin_ok, txout_ok, outpoint_ok, vch_ok, fits, sfits, MAX_SIZE, UINT_MAX, COIN.
    generalize dependent (CTransaction_GetHash spend_tx). intros ph Hh.
    repeat (apply Forall_cons_2 || apply Forall_nil_2 || split_and!); cbn; try lia; try done.
    all: repeat (apply Forall_cons_2 || apply Forall_nil_2 || split_and!); cbn; unfold is_digit; try lia; try done; by apply Hh.
Qed.

Lemma create_new_block_witness :
  exists b w ms c, mine_new false = Mined (Some b, w, ms, c) /\ Datatypes.length (vtx b) = 3%nat /\
    Forall (fun tx => nTime tx <= GetBlockTime b) (vtx b).
Proof.
  assert (Hm : match mine_new false with Mined (Some b, _, _, _) => Datatypes.length (vtx b) = 3%nat | _ => False end) by (vm_compute; reflexivity).
  destruct (mine_new false) as [[[[[b|] w] ms] c]| |] eqn:Em; [|destruct Hm..].
  destruct (create_new_block (B := ZBN) (E := toy_ec) (SO := toy_secrets) (P := no_secp) (C := toy_cipher) toy_gen toy_der toy_params mine_state mine_options
    10 1600000000 false toy_funds mine_idle b w ms c) as (prev & chain & cb & txs & V & _ & _ & _ & _ & _ & _ & (_ & _ & Ht) & _).
  - exact mine_pool_ok.
  - exact mine_pool_small.
  - exact empty_cache_valid.
  - cbn; lia.
  - change (best_chain mine_state) with [genesis_index]. repeat constructor; cbn; lia.
  - exact Em.
  - exists b, w, ms, c. split_and!; done.
Defined.

Lemma create_new_block_made_witness :
  exists b w ms c, mine_new true = Mined (Some b, w, ms, c) /\ Datatypes.length (vtx b) = 3%nat /\ nBits b = 503382015.
Proof.
  destruct (create_new_block_made (B := ZBN) (E := toy_ec) (SO := toy_secrets) (P := no_secp) (C := toy_cipher) toy_gen toy_der toy_params mine_state
    mine_options 10 1600000000 true toy_funds toy_funds (coinbase_with toy_params [CTxOut_SetEmpty]) 503382015) as (b & f & Hb & _ & _ & Hmade).
  - exact mine_pool_small.
  - intros h tx [_ [-> | ->]]%mine_pool_lookup; (split; [|eexists; vm_compute; reflexivity]); (constructor; [|constructor]).
    + left. vm_compute. by eexists.
    + right. exists spend_tx. split; [vm_compute; reflexivity|cbn; lia].
  - exact empty_cache_valid.
  - reflexivity.
  - vm_compute. reflexivity.
  - assert (Hn : match mine_new true with Mined (Some b, _, _, _) => Datatypes.length (vtx b) = 3%nat | _ => False end) by (vm_compute; reflexivity).
    unfold mine_new in *. rewrite (Hmade mine_idle) in *. eexists b, _, _, _. split; [reflexivity|]. done.
Defined.
End make_witness.

(** ** Witness: a stake whose template has a transaction from later *)

Section stake_witness.
#[local] Existing Instances zero_hash zero_hash_laws toy_order stk_files stk_block_files.

Definition template : CBlock :=
  mkBlock 4 (toy_hash_of 3) (toy_hash_of 0) 1602000000 0x2200ffff 0 [mkTx 1 1602000000 [CTxIn_null] [CTxOut_SetEmpty] 0; with_time 1602000005 stk_tx]
    [] [] (toy_hash_of 0) false.
Definition searching : MinerState := mkMiner 0 0 0 (1602000000 - 30) [] 0.
Definition sign_template :=
  SignPoSBlock (B := ZBN) (E := toy_ec) (SO := toy_secrets) (P := no_secp) (C := toy_cipher) stk_params stk_chain 5 toy_options toy_send_options stk_options
    1 5 (fun _ _ => true) template stk_state searching empty_cache.

Lemma template_signed : exists b' st' ms' c', sign_template = Some (true, b', st', ms', c') /\ (fun t => (IsCoinStake t, nTime t)) <$> (vtx b' !! 1%nat) = Some (true, 1602000000).
Proof.
  assert (Hs : match CreateCoinStake (B := ZBN) (E := toy_ec) (SO := toy_secrets) (P := no_secp) (C := toy_cipher) 5 stk_params stk_chain toy_options
      toy_send_options stk_options 1 5 0x2200ffff 30 (fun _ _ => true) (CTransaction_SetNull 1602000000) CKey_Reset stk_state empty_cache with
    | Some (CS_true tx key, _, _) =>
        match insert_stake stk_chain (toy_index 3 1 1601500000 5 77) tx template with
        | Some b => (fHashCached b, bool_decide (is_Some (CKey_Sign key (toy_hash_of 0))), Z.max (GetPastTimeLimit [toy_index 3 1 1601500000 5 77; toy_index 0 0 1600000000 4 0] + 1)
              (PastDrift (bi_GetBlockTime (toy_index 3 1 1601500000 5 77))) <=? nTime tx, (fun t => (IsCoinStake t, nTime t)) <$> (vtx b !! 1%nat)) =
            (false, true, true, Some (true, 1602000000))
        | None => False
        end
    | _ => False
    end) by (vm_compute; reflexivity).
  unfold sign_template, SignPoSBlock. change (head (vtx template) ≫= _) with (Some CTxOut_SetEmpty). cbn [mbind option_bind].
  change (CTxOut_IsEmpty CTxOut_SetEmpty) with true. change (IsProofOfStake template) with false.
  change (nLastCoinStakeSearchTime searching <? _) with true. cbn [negb].
  change (nBits template) with 0x2200ffff. change (nTime (CTransaction_SetNull _) - _) with 30.
  change (CTransaction_SetNull (now stk_params)) with (CTransaction_SetNull 1602000000).
  destruct (CreateCoinStake _ _ _ _ _ _ _ _ _ _ _ _ _ _ _) as [[[[tx key| |] st] c]|]; [|done..]. cbn [mbind option_bind].
  change (best_chain stk_chain) with [toy_index 3 1 1601500000 5 77; toy_index 0 0 1600000000 4 0] at 1 2. cbn [head mbind option_bind].
  destruct (insert_stake _ _ _ _) as [b|]; [|done]. injection Hs as Hf Hk Hl Hcs. cbn [mbind option_bind]. case_bool_decide as Hsig; [|done].
  change (bi_GetBlockTime (toy_index 3 1 1601500000 5 77)) with 1601500000. rewrite Hl. unfold CBlock_GetHash. rewrite Hf, zero_blockhash.
  destruct Hsig as [sig Hsig]. cbn [hashCache Block.with_cache]. rewrite Hsig. eexists _, _, _, _. split; [reflexivity|]. exact Hcs.
Qed.

End stake_witness.
