(* ===== verification/Work.v ===== *)
(** * Work for miners: [getwork], [getworkex], [getblocktemplate] and [submitblock] of
      [rpcmining.cpp]

    Both kinds of work keep blocks on the heap: [vNewBlock] owns them, [mapNewBlock] finds
    one by its merkle root, and a static pointer names the last.  A pointer is a number,
    used for one block only, and reading through the null pointer or one to a block that
    was deleted is [Breaks].  Data is in bytes, before and after the hexadecimal form. *)

From S2P Require Import Prelude.
From S2P Require Import Heap.
From S2P Require Import Uint256.
From S2P Require Import BigNum.
From S2P Require Import Serialize.
From S2P Require Import Hash.
From S2P Require Import Transaction.
From S2P Require Import Script.
From S2P Require Import Interp.
From S2P Require Import Key.
From S2P Require Import SigCheck.
From S2P Require Import Templates.
From S2P Require Import KeyStore.
From S2P Require Import Scrypt.
From S2P Require Import Block.
From S2P Require Import TxRules.
From S2P Require Import TxDB.
From S2P Require Import Chain.
From S2P Require Import BlockRules.
From S2P Require Import Connect.
From S2P Require Import MemPool.
From S2P Require Import BlockTree.
From S2P Require Import Checkpoints.
From S2P Require Import Kernel.
From S2P Require Import Reorganize.
From S2P Require Import Accept.
From S2P Require Import Process.
From S2P Require Import KeyPool.
From S2P Require Import Wallet.
From S2P Require Import Stake.
From S2P Require Import Miner.

(** ** The node around a call *)

Definition RPC_MISC_ERROR : Z := -1.
Definition RPC_OUT_OF_MEMORY : Z := -7.
Definition RPC_INVALID_PARAMETER : Z := -8.
Definition RPC_CLIENT_NOT_CONNECTED : Z := -9.
Definition RPC_CLIENT_IN_INITIAL_DOWNLOAD : Z := -10.
Definition RPC_DESERIALIZATION_ERROR : Z := -22.
Definition UNABLE_TO_SIGN : Z := -100.

(** The statics of [IsInitialBlockDownload] *)
Record Download := mkDownload { nLastUpdate : Z; pindexLastBest : option (list Z) }.

Record Node := mkNodeState {
  nd_chain : ChainState;
  nd_orphans : BlockOrphans;
  nd_wallet : CWallet;
  nd_miner : MinerState;
  nd_download : Download
}.

(** What one call finds: the parameters with the adjusted clock, [GetTime()], whether
    there are peers, the size of the key pool, and the answers for [ProcessBlock] *)
Record Call := mkCall {
  c_par : Params;
  c_time : Z;
  vNodes_empty : bool;
  c_keypool : Z;
  c_mode : CPMode;
  c_env : Env;
  c_rnd : nat -> list Z
}.

(** A call returns, throws [JSONRPCError] or breaks: an exception of another kind, a failed
    [assert], undefined behaviour.  [T] is what the statics of the command hold *)
Inductive rpc (T A : Type) := Returns (a : A) (nd : Node) (st : T) | RPCError (code : Z) (nd : Node) (st : T) | Breaks.
Arguments Returns {T A} _ _ _.
Arguments RPCError {T A} _ _ _.
Arguments Breaks {T A}.

Definition with_download (d : Download) (nd : Node) : Node := mkNodeState (nd_chain nd) (nd_orphans nd) (nd_wallet nd) (nd_miner nd) d.
Definition with_miner (ms : MinerState) (nd : Node) : Node := mkNodeState (nd_chain nd) (nd_orphans nd) (nd_wallet nd) ms (nd_download nd).
Definition after_create (w : CWallet) (ms : MinerState) (c : CSignatureCache) (nd : Node) : Node :=
  mkNodeState (with_cache_of (nd_chain nd) c) (nd_orphans nd) w ms (nd_download nd).

Definition IsInitialBlockDownload (fTestNet : bool) (GetTime : Z) (nd : Node) : bool * Node :=
  let s := nd_chain nd in
  match best_chain s with
  | best :: _ =>
      if cs_nBestHeight s <? GetTotalBlocksEstimate fTestNet then (true, nd)
      else
        let d := nd_download nd in
        let d := if negb (bool_decide (pindexBest s = pindexLastBest d)) then mkDownload GetTime (pindexBest s) else d in
        ((i64 (GetTime - nLastUpdate d) <? 10) && (bi_GetBlockTime best <? i64 (GetTime - 24 * 60 * 60)), with_download d nd)
  | [] => (true, nd)
  end.

(** The tests in front of all three commands: the code that is thrown, if any; [None]
    reads [pprev] of the first block *)
Definition work_gate (c : Call) (nd : Node) : option (option Z * Node) :=
  if vNodes_empty c then Some (Some RPC_CLIENT_NOT_CONNECTED, nd)
  else
    let test := fTestNet (c_par c) in
    let '(initial, nd) := IsInitialBlockDownload test (c_time c) nd in
    if initial then Some (Some RPC_CLIENT_IN_INITIAL_DOWNLOAD, nd)
    else
      match best_chain (nd_chain nd) with
      | best :: rest =>
          let early := (fun prev => now (c_par c) - FutureDrift (bi_GetBlockTime prev) <? (if test then POW_TIME_LIMIT_TESTNET else POW_TIME_LIMIT)) <$> head rest in
          stopped ← if (if test then POW_STOP_HEIGHT_TESTNET else POW_STOP_HEIGHT) <=? bi_nHeight best then early else Some false;
          if stopped : bool then Some (Some RPC_MISC_ERROR, nd)
          else
            flash ← if bi_IsProofOfWork best && ((if test then POW_LIMIT_HEIGHT_TESTNET else POW_LIMIT_HEIGHT) <=? bi_nHeight best) then early
                    else Some false;
            Some (if flash : bool then Some RPC_MISC_ERROR else None, nd)
      | [] => None
      end.

(** ** The statics of [getwork] and of [getworkex] *)

Record WorkState := mkWork {
  mapNewBlock : gmap (list Z) (nat * list Z);
  heap_blocks : gmap nat CBlock;
  nBlocksMade : nat;
  vNewBlock : list nat;
  nTransactionsUpdatedLast : Z;
  wk_pindexPrev : option (list Z);
  nStart : Z;
  wk_pblock : option nat;
  wk_nExtraNonce : Z;
  reservekey : CReserveKey
}.
Definition work_init : WorkState := mkWork ∅ ∅ 0 [] 0 None 0 None 0 CReserveKey_new.

Definition put_block (id : nat) (b : CBlock) (wk : WorkState) : WorkState :=
  mkWork (mapNewBlock wk) (<[id := b]> (heap_blocks wk)) (nBlocksMade wk) (vNewBlock wk) (nTransactionsUpdatedLast wk) (wk_pindexPrev wk) (nStart wk)
    (wk_pblock wk) (wk_nExtraNonce wk) (reservekey wk).
Definition with_reserve (k : CReserveKey) (wk : WorkState) : WorkState :=
  mkWork (mapNewBlock wk) (heap_blocks wk) (nBlocksMade wk) (vNewBlock wk) (nTransactionsUpdatedLast wk) (wk_pindexPrev wk) (nStart wk)
    (wk_pblock wk) (wk_nExtraNonce wk) k.

(** The block changed and the nonce counted: the work is saved *)
Definition save_work (id : nat) (b : CBlock) (script : list Z) (n : Z) (wk : WorkState) : WorkState :=
  mkWork (<[hashMerkleRoot b := (id, script)]> (mapNewBlock wk)) (<[id := b]> (heap_blocks wk)) (nBlocksMade wk) (vNewBlock wk)
    (nTransactionsUpdatedLast wk) (wk_pindexPrev wk) (nStart wk) (wk_pblock wk) n (reservekey wk).

(** A new block is due: another best block, or new transactions for [wait] seconds *)
Definition work_is_old (wait GetTime : Z) (s : ChainState) (updated start : Z) (prev : option (list Z)) : bool :=
  negb (bool_decide (prev = pindexBest s)) ||
  (negb (nTransactionsUpdated (mempool s) =? updated) && (wait <? i64 (GetTime - start))).

(** The blocks of another best block are deleted *)
Definition forget_works (s : ChainState) (wk : WorkState) : WorkState :=
  if bool_decide (wk_pindexPrev wk = pindexBest s) then wk
  else mkWork ∅ (foldr delete (heap_blocks wk) (vNewBlock wk)) (nBlocksMade wk) [] (nTransactionsUpdatedLast wk) (wk_pindexPrev wk) (nStart wk)
         (wk_pblock wk) (wk_nExtraNonce wk) (reservekey wk).

(** The statics before [CreateNewBlock] is called *)
Definition start_work (prev : option (list Z)) (s : ChainState) (GetTime : Z) (wk : WorkState) : WorkState :=
  mkWork (mapNewBlock wk) (heap_blocks wk) (nBlocksMade wk) (vNewBlock wk) (nTransactionsUpdated (mempool s)) prev GetTime (wk_pblock wk)
    (wk_nExtraNonce wk) (reservekey wk).

(** [pblock = CreateNewBlock(pWallet)]: the null pointer, or a new block *)
Definition no_block (wk : WorkState) : WorkState :=
  mkWork (mapNewBlock wk) (heap_blocks wk) (nBlocksMade wk) (vNewBlock wk) (nTransactionsUpdatedLast wk) (wk_pindexPrev wk) (nStart wk) None
    (wk_nExtraNonce wk) (reservekey wk).
Definition new_block (prev : option (list Z)) (b : CBlock) (wk : WorkState) : WorkState :=
  let id := nBlocksMade wk in
  mkWork (mapNewBlock wk) (<[id := b]> (heap_blocks wk)) (S id) (vNewBlock wk ++ [id]) (nTransactionsUpdatedLast wk) prev (nStart wk) (Some id)
    (wk_nExtraNonce wk) (reservekey wk).

(** A call with parameters has the data and, of [getworkex], the coinbase *)
Inductive request := NewWork | Solution (vchData coinbase : list Z).

Inductive reply :=
  | WorkData (midstate data hash1 target : list Z)
  | WorkDataEx (data target coinbase : list Z) (merkle : list (list Z))
  | Judged (ok : bool).

Section work.
Context {B : BNOps} {E : ECOps} {SO : ECSecretOps E} {P : SecpOps} {C : CipherOps} {H : HashOps} {F : Files} {G : BlockFiles}.
Context (SHA256_block : list Z -> list Z -> list Z).
Context (EC_KEY_generate_key : nat -> EC_KEY) (i2d_ECPrivateKey : EC_KEY -> list Z) (mo : MineOptions).

Definition create (c : Call) (nd : Node) : mined (option CBlock * CWallet * MinerState * CSignatureCache) :=
  CreateNewBlock EC_KEY_generate_key i2d_ECPrivateKey (c_par c) (nd_chain nd) mo (c_keypool c) (c_time c) false (nd_wallet nd) (nd_miner nd).

(** ** New work *)

(** "Update block".  [fSafe]: [getwork], which takes [pindexPrev] back until the block is
    made; [getworkex] leaves it changed *)
Definition renew_work (fSafe : bool) (c : Call) (nd : Node) (wk : WorkState) : rpc WorkState unit :=
  let s := nd_chain nd in
  if work_is_old 60 (c_time c) s (nTransactionsUpdatedLast wk) (nStart wk) (wk_pindexPrev wk) then
    let wk := start_work (if fSafe then None else pindexBest s) s (c_time c) (forget_works s wk) in
    match create c nd with
    | Mined (Some b, w, ms, sc) => Returns tt (after_create w ms sc nd) (new_block (pindexBest s) b wk)
    | Mined (None, w, ms, sc) => RPCError RPC_OUT_OF_MEMORY (after_create w ms sc nd) (no_block wk)
    | _ => Breaks
    end
  else Returns tt nd wk.

Definition with_nonce (n : Z) (ms : MinerState) : MinerState :=
  mkMiner (nLastBlockTx ms) (nLastBlockSize ms) (nLastCoinStakeSearchInterval ms) (nLastCoinStakeSearchTime ms) (ms_hashPrevBlock ms) n.

(** [IncrementExtraNonce] with the counter of the command, and the coinbase script after it *)
Definition bump (prev : CBlockIndex) (b : CBlock) (n : Z) (ms : MinerState) : option (CBlock * list Z * Z * MinerState) :=
  '(b, ms') ← IncrementExtraNonce (bi_nHeight prev) b (with_nonce n ms);
  txin ← head (vtx b) ≫= (fun cb => head (vin cb));
  Some (b, scriptSig txin, nExtraNonce ms', with_nonce (nExtraNonce ms) ms').

Definition target_bytes (b : CBlock) : list Z := limb_bytes (getuint256 (SetCompact (nBits b))).

(** From "Update nTime" to the end of the work that is handed out *)
Definition issue_work (fSafe : bool) (c : Call) (nd : Node) (wk : WorkState) : rpc WorkState reply :=
  match
    id ← wk_pblock wk;
    b ← heap_blocks wk !! id;
    prev ← head (best_chain (nd_chain nd));
    let b :=
      if fSafe then UpdateTime (now (c_par c)) b
      else with_header b (hashMerkleRoot b) (u32 (Z.max (GetPastTimeLimit (best_chain (nd_chain nd)) + 1) (now (c_par c)))) (nNonce b) in
    let b := with_header b (hashMerkleRoot b) (blk_nTime b) 0 in
    '(b, script, n, ms) ← bump prev b (wk_nExtraNonce wk) (nd_miner nd);
    cb ← head (vtx b);
    Some (id, b, script, n, ms, cb)
  with
  | None => Breaks
  | Some (id, b, script, n, ms, cb) =>
      let '(midstate, data, hash1) := FormatHashBuffers SHA256_block b in
      let nd := with_miner ms nd in
      if fSafe then Returns (WorkData midstate data hash1 (target_bytes b)) nd (save_work id b script n wk)
      else
        let '(merkle, b') := GetMerkleBranch 0 b in
        Returns (WorkDataEx data (target_bytes b) (Serialize tx_codec cb) (limb_bytes <$> merkle)) nd (put_block id b' (save_work id b script n wk))
  end.

(** ** Solutions *)

(** The merkle root, the time and the nonce of the data as a block in memory *)
Definition read_solution (vchData : list Z) : list Z * Z * Z :=
  let pdata := swap_words vchData in
  (limbs_of_bytes WIDTH256 (take 32 (drop 36 pdata)), le_val (take 4 (drop 68 pdata)), le_val (take 4 (drop 76 pdata))).

(** [SignBlock] and [CheckWork] of the block *)
Definition judge (c : Call) (id : nat) (b : CBlock) (nd : Node) (wk : WorkState) : rpc WorkState reply :=
  match SignBlock (K := crypto_keystore (store (wkeys (nd_wallet nd)))) b with
  | None => Breaks
  | Some (false, b) => RPCError UNABLE_TO_SIGN nd (put_block id b wk)
  | Some (true, b) =>
      match CheckWork (c_par c) (nd_chain nd) (c_mode c) (c_env c) (c_rnd c) (nd_orphans nd) b (reservekey wk) (nd_wallet nd) with
      | None => Breaks
      | Some (ok, b, k, w, o, s) =>
          Returns (Judged ok) (mkNodeState s o w (nd_miner nd) (nd_download nd)) (put_block id b (with_reserve k wk))
      end
  end.

(** The coinbase as it is read; [torn] is what a reading that fails leaves of it *)
Definition replace_coinbase (torn : CTransaction -> CTransaction) (coinbase : list Z) (time nonce : Z) (b : CBlock) : bool * CBlock :=
  let b := with_header b (hashMerkleRoot b) time nonce in
  match Unserialize tx_codec coinbase with
  | None => (false, with_vtx b (alter torn 0%nat (vtx b)))
  | Some (tx, _) =>
      let '(root, b) := BuildMerkleTree (with_vtx b (alter (fun _ => tx) 0%nat (vtx b))) in
      (true, with_header b root time nonce)
  end.

Definition has_coinbase_input (b : CBlock) : bool :=
  match vtx b with cb :: _ => match vin cb with _ :: _ => true | [] => false end | [] => false end.

Definition submit_work (torn : CTransaction -> CTransaction) (c : Call) (vchData coinbase : list Z) (nd : Node) (wk : WorkState) : rpc WorkState reply :=
  if negb (Z.of_nat (length vchData) =? 128) then RPCError RPC_INVALID_PARAMETER nd wk
  else
    let '(root, time, nonce) := read_solution vchData in
    match mapNewBlock wk !! root with
    | None => Returns (Judged false) nd wk
    | Some (id, script) =>
        match heap_blocks wk !! id with
        | None => Breaks
        | Some b =>
            match coinbase with
            | [] => if has_coinbase_input b then judge c id (getwork_update time nonce script b) nd wk else Breaks
            | _ =>
                if bool_decide (vtx b = []) then Breaks
                else
                  let '(ok, b) := replace_coinbase torn coinbase time nonce b in
                  if ok : bool then judge c id b nd wk else RPCError RPC_MISC_ERROR nd (put_block id b wk)
            end
        end
    end.

(** [getwork] has no coinbase among its parameters *)
Definition getwork (c : Call) (r : request) (nd : Node) (wk : WorkState) : rpc WorkState reply :=
  match work_gate c nd with
  | None => Breaks
  | Some (Some code, nd) => RPCError code nd wk
  | Some (None, nd) =>
      match r with
      | NewWork =>
          match renew_work true c nd wk with
          | Returns _ nd wk => issue_work true c nd wk
          | RPCError code nd wk => RPCError code nd wk
          | Breaks => Breaks
          end
      | Solution vchData _ => submit_work Datatypes.id c vchData [] nd wk
      end
  end.

Definition getworkex (torn : CTransaction -> CTransaction) (c : Call) (r : request) (nd : Node) (wk : WorkState) : rpc WorkState reply :=
  match work_gate c nd with
  | None => Breaks
  | Some (Some code, nd) => RPCError code nd wk
  | Some (None, nd) =>
      match r with
      | NewWork =>
          match renew_work false c nd wk with
          | Returns _ nd wk => issue_work false c nd wk
          | RPCError code nd wk => RPCError code nd wk
          | Breaks => Breaks
          end
      | Solution vchData coinbase => submit_work torn c vchData coinbase nd wk
      end
  end.

(** ** [submitblock] *)

(** [Judged false] is "rejected".  A block without transactions breaks [SignBlock] *)
Definition submitblock (c : Call) (fresh : CBlock) (blockData : list Z) (nd : Node) : rpc unit reply :=
  match block_Unserialize false fresh blockData with
  | None => RPCError RPC_DESERIALIZATION_ERROR nd tt
  | Some (b, _) =>
      match vtx b with
      | [] => Breaks
      | _ =>
          match SignBlock (K := crypto_keystore (store (wkeys (nd_wallet nd)))) b with
          | None => Breaks
          | Some (false, _) => RPCError UNABLE_TO_SIGN nd tt
          | Some (true, b) =>
              match process_own (c_par c) (c_mode c) (c_env c) (c_rnd c) (nd_orphans nd) (nd_chain nd) b with
              | None => Breaks
              | Some (ok, _, o, s) => Returns (Judged ok) (mkNodeState s o (nd_wallet nd) (nd_miner nd) (nd_download nd)) tt
              end
          end
      end
  end.

(** ** [getblocktemplate] *)

Record TemplateState := mkTemplate {
  gt_nTransactionsUpdatedLast : Z;
  gt_pindexPrev : option (list Z);
  gt_nStart : Z;
  gt_pblock : option CBlock
}.

(** What is said of a transaction; fee, dependencies and operations where its inputs are
    found *)
Record TemplateTx := mkTemplateTx {
  te_data : list Z;
  te_hash : list Z;
  te_details : option (Z * list Z * Z)
}.

Record TemplateReply := mkTemplateReply {
  tr_version : Z;
  previousblockhash : list Z;
  transactions : list TemplateTx;
  coinbasevalue : Z;
  tr_target : list Z;
  mintime : Z;
  curtime : Z;
  bits : Z;
  height : Z
}.

(** "fee", "depends" and "sigops": [None] throws *)
Definition template_details (s : ChainState) (setTxIndex : gmap (list Z) Z) (tx : CTransaction) : option (option (Z * list Z * Z)) :=
  match FetchInputs (T := leveldb_store) (read_db s) ∅ (mapTx (mempool s)) false false tx with
  | NotFetched _ _ => Some None
  | Fetched mapInputs =>
      nValueIn ← GetValueIn tx mapInputs;
      nValueOut ← GetValueOut tx;
      nP2SH ← GetP2SHSigOpCount tx mapInputs;
      Some (Some (i64 (nValueIn - nValueOut), omap (fun h => setTxIndex !! h) (map_entries mapInputs).*1, i64 (GetLegacySigOpCount tx + nP2SH)))
  end.

Fixpoint template_loop (s : ChainState) (txs : list CTransaction) (i : Z) (setTxIndex : gmap (list Z) Z) : option (list TemplateTx) :=
  match txs with
  | [] => Some []
  | tx :: txs =>
      let txHash := CTransaction_GetHash tx in
      let setTxIndex := <[txHash := i]> setTxIndex in
      if IsCoinBase tx || IsCoinStake tx then template_loop s txs (i + 1) setTxIndex
      else
        details ← template_details s setTxIndex tx;
        rest ← template_loop s txs (i + 1) setTxIndex;
        Some (mkTemplateTx (Serialize tx_codec tx) txHash details :: rest)
  end.

(** "Update block" *)
Definition renew_template (c : Call) (nd : Node) (gt : TemplateState) : rpc TemplateState unit :=
  let s := nd_chain nd in
  if work_is_old 5 (c_time c) s (gt_nTransactionsUpdatedLast gt) (gt_nStart gt) (gt_pindexPrev gt) then
    match create c nd with
    | Mined (Some b, w, ms, sc) =>
        Returns tt (after_create w ms sc nd) (mkTemplate (nTransactionsUpdated (mempool s)) (pindexBest s) (c_time c) (Some b))
    | Mined (None, w, ms, sc) =>
        RPCError RPC_OUT_OF_MEMORY (after_create w ms sc nd) (mkTemplate (nTransactionsUpdated (mempool s)) None (c_time c) None)
    | _ => Breaks
    end
  else Returns tt nd gt.

Definition issue_template (c : Call) (nd : Node) (gt : TemplateState) : rpc TemplateState TemplateReply :=
  match
    b ← gt_pblock gt;
    prev ← head (best_chain (nd_chain nd));
    let b := UpdateTime (now (c_par c)) b in
    let b := with_header b (hashMerkleRoot b) (blk_nTime b) 0 in
    txs ← template_loop (nd_chain nd) (vtx b) 0 ∅;
    o ← head (vtx b) ≫= (fun cb => head (vout cb));
    Some (b, mkTemplateReply (blk_nVersion b) (hashPrevBlock b) txs (nValue o) (getuint256 (SetCompact (nBits b)))
      (GetPastTimeLimit (best_chain (nd_chain nd)) + 1) (blk_nTime b) (nBits b) (bi_nHeight prev + 1))
  with
  | None => Breaks
  | Some (b, r) => Returns r nd (mkTemplate (gt_nTransactionsUpdatedLast gt) (gt_pindexPrev gt) (gt_nStart gt) (Some b))
  end.

(** [fMode]: the mode asked for is "template" or none *)
Definition getblocktemplate (c : Call) (fMode : bool) (nd : Node) (gt : TemplateState) : rpc TemplateState TemplateReply :=
  if negb fMode then RPCError RPC_INVALID_PARAMETER nd gt
  else
    match work_gate c nd with
    | None => Breaks
    | Some (Some code, nd) => RPCError code nd gt
    | Some (None, nd) =>
        match renew_template c nd gt with
        | Returns _ nd gt => issue_template c nd gt
        | RPCError code nd gt => RPCError code nd gt
        | Breaks => Breaks
        end
    end.
End work.
