(* ===== verification/WorkFacts.v ===== *)
(** * What the work handed to miners is worth: theory of [Work] *)

From S2P Require Import BestChain.
From S2P Require Import AcceptFacts.
From S2P Require Import KeyPoolFacts.
From S2P Require Import WalletFacts.
From S2P Require Import Prelude.
From S2P Require Import Heap.
From S2P Require Import Uint256.
From S2P Require Import BigNum.
From S2P Require Import Serialize.
From S2P Require Import Hash.
From S2P Require Import Transaction.
From S2P Require Import Script.
From S2P Require Import Interp.
From S2P Require Import Key.
From S2P Require Import SigCheck.
From S2P Require Import Templates.
From S2P Require Import KeyStore.
From S2P Require Import Scrypt.
From S2P Require Import Block.
From S2P Require Import TxRules.
From S2P Require Import TxDB.
From S2P Require Import Chain.
From S2P Require Import BlockRules.
From S2P Require Import Connect.
From S2P Require Import MemPool.
From S2P Require Import BlockTree.
From S2P Require Import Checkpoints.
From S2P Require Import Kernel.
From S2P Require Import Reorganize.
From S2P Require Import Accept.
From S2P Require Import Process.
From S2P Require Import KeyPool.
From S2P Require Import Wallet.
From S2P Require Import Stake.
From S2P Require Import Miner.
From S2P Require Import BlockConnect.
From S2P Require Import MinerFacts.
From S2P Require Import Work.

(** ** The data of a work *)

Lemma words_ind (P : list Z -> Prop) :
  P [] -> (forall a, P [a]) -> (forall a b, P [a; b]) -> (forall a b c, P [a; b; c]) -> (forall a b c d l, P l -> P (a :: b :: c :: d :: l)) ->
  forall l, P l.
Proof.
  intros P0 P1 P2 P3 P4. fix IH 1. intros [|a [|b [|c [|d l]]]]; [exact P0|apply P1|apply P2|apply P3|]. apply P4, IH.
Qed.

Lemma swap_words_involutive l : swap_words (swap_words l) = l.
Proof. induction l as [| | | |a b c d l IH] using words_ind; [done..|]. cbn. by rewrite IH. Qed.

Lemma length_swap_words l : length (swap_words l) = length l.
Proof. induction l as [| | | |a b c d l IH] using words_ind; [done..|]. cbn. by rewrite IH. Qed.

Lemma swap_words_app n l k : length l = (4 * n)%nat -> swap_words (l ++ k) = swap_words l ++ swap_words k.
Proof.
  revert l. induction n as [|n IH]; intros l Hl; [by destruct l|]. destruct l as [|a [|b [|c [|d l]]]]; cbn in Hl; [lia..|].
  cbn. rewrite IH by lia. done.
Qed.

Lemma take_swap_words n l : (4 * n <= length l)%nat -> take (4 * n) (swap_words l) = swap_words (take (4 * n) l).
Proof.
  intros Hl. rewrite <- (take_drop (4 * n) l) at 1. rewrite (swap_words_app n) by (rewrite length_take; lia).
  rewrite take_app_length' by (rewrite length_swap_words, length_take; lia). done.
Qed.

Section data.
Context (SHA256_block : list Z -> list Z -> list Z).

(** The header in memory, in parts *)
Definition before_time (b : CBlock) : list Z := le_bytes 4 (blk_nVersion b) ++ limb_bytes (hashPrevBlock b) ++ limb_bytes (hashMerkleRoot b).

Lemma header_parts b : header_bytes b = before_time b ++ le_bytes 4 (blk_nTime b) ++ le_bytes 4 (nBits b) ++ le_bytes 4 (nNonce b).
Proof. unfold header_bytes, before_time. by rewrite <- !app_assoc. Qed.

(** The hashes of the header have their width *)
Definition header_ok (b : CBlock) : Prop := uint_ok WIDTH256 (hashPrevBlock b) /\ uint_ok WIDTH256 (hashMerkleRoot b).

Lemma length_le4 x : length (le_bytes 4 x) = 4%nat.
Proof. done. Qed.

Lemma length_before_time b : header_ok b -> length (before_time b) = 68%nat.
Proof. intros [[Hp _] [Hm _]]. unfold before_time. by rewrite !length_app, !length_limb_bytes, Hp, Hm. Qed.

Lemma length_header b : header_ok b -> length (header_bytes b) = 80%nat.
Proof. intros Hb. rewrite header_parts, !length_app, length_before_time by done. done. Qed.

(** The data is the header and its padding, every word reversed *)
Lemma work_data b : header_ok b -> exists pad, length pad = 48%nat /\ swap_words (FormatHashBuffers SHA256_block b).1.2 = header_bytes b ++ pad.
Proof.
  intros Hb. pose proof (length_header b Hb) as Hl. unfold FormatHashBuffers. cbn [fst snd].
  assert (exists pad, length pad = 48%nat /\ (FormatHashBlocks (header_bytes b)).2 = header_bytes b ++ pad) as (pad & Hpad & Hf).
  { unfold FormatHashBlocks. rewrite Hl. cbn [snd]. eexists. split; [|reflexivity]. vm_compute. done. }
  exists pad. split; [done|]. rewrite Hf.
  change 128%nat with (4 * 32)%nat. rewrite take_swap_words, swap_words_involutive by (rewrite !length_app, length_replicate, Hl, Hpad; lia).
  rewrite <- app_assoc, take_app_length' by (rewrite length_app, Hl, Hpad; lia). done.
Qed.

(** A miner puts a time and a nonce into the data *)
Definition solved (data : list Z) (time nonce : Z) : list Z :=
  let p := swap_words data in
  swap_words (take 68 p ++ le_bytes 4 time ++ take 4 (drop 72 p) ++ le_bytes 4 nonce ++ drop 80 p).

Lemma solved_work b time nonce :
  header_ok b -> 0 <= time < 2 ^ 32 -> 0 <= nonce < 2 ^ 32 ->
  let data := solved (FormatHashBuffers SHA256_block b).1.2 time nonce in
  length data = 128%nat /\ read_solution data = (hashMerkleRoot b, time, nonce) /\
  take 80 (swap_words data) = before_time b ++ le_bytes 4 time ++ le_bytes 4 (nBits b) ++ le_bytes 4 nonce.
Proof.
  intros Hb Ht Hn data. destruct (work_data b Hb) as (pad & Hpad & Hd). pose proof (length_before_time b Hb) as Hl.
  assert (Hdata : swap_words data = before_time b ++ le_bytes 4 time ++ le_bytes 4 (nBits b) ++ le_bytes 4 nonce ++ pad).
  { unfold data, solved. rewrite Hd, swap_words_involutive, header_parts, <- !app_assoc.
    rewrite (take_app_length' (before_time b) _ 68) by done. do 2 f_equal.
    rewrite (drop_app_ge _ _ 72), (drop_app_ge _ _ 80) by lia. rewrite Hl. done. }
  split; [rewrite <- length_swap_words, Hdata, !length_app, Hl, Hpad; done|]. split.
  - unfold read_solution. rewrite Hdata. destruct Hb as [[Hp Hp'] Hm]. f_equal; [f_equal|].
    + unfold before_time. rewrite <- !app_assoc. rewrite app_assoc.
      rewrite drop_app_length' by (rewrite length_app, length_limb_bytes, Hp; done).
      rewrite take_app_length' by (rewrite length_limb_bytes, (proj1 Hm); done).
      rewrite <- (proj1 Hm). apply limbs_of_bytes_limb_bytes. apply Hm.
    + rewrite drop_app_length' by done. rewrite take_app_length' by done. apply le_bytes_roundtrip. lia.
    + rewrite (app_assoc (before_time b)), (app_assoc (_ ++ _)). rewrite drop_app_length' by (rewrite !length_app, Hl; done).
      rewrite take_app_length' by done. apply le_bytes_roundtrip. lia.
  - rewrite Hdata. rewrite (app_assoc (le_bytes 4 (nBits b))), (app_assoc (le_bytes 4 time)), (app_assoc (before_time b)).
    rewrite take_app_length' by (rewrite !length_app, Hl; done). done.
Qed.
End data.

(** ** The work that is handed out *)

Section merkle.
Context {B : BNOps} {H : HashOps} {HL : HashLaws H}.

Lemma level_loop_ok fuel j n i tree : Forall (uint_ok WIDTH256) tree -> Forall (uint_ok WIDTH256) (level_loop fuel j n i tree).
Proof.
  revert i tree. induction fuel as [|fuel IH]; intros i tree Ht; [done|]. cbn [level_loop]. case_goal; [|done].
  apply IH, Forall_app. split; [done|]. constructor; [apply Hash_ok|done].
Qed.

Lemma tree_loop_ok fuel j n tree : Forall (uint_ok WIDTH256) tree -> Forall (uint_ok WIDTH256) (tree_loop fuel j n tree).
Proof.
  revert j n tree. induction fuel as [|fuel IH]; intros j n tree Ht; [done|]. cbn [tree_loop]. case_goal; [|done]. by apply IH, level_loop_ok.
Qed.

Lemma merkle_root_ok b : uint_ok WIDTH256 (BuildMerkleTree b).1.
Proof.
  unfold BuildMerkleTree. cbn [fst]. set (tree := tree_loop _ _ _ _).
  assert (Ht : Forall (uint_ok WIDTH256) tree).
  { apply tree_loop_ok, Forall_fmap, Forall_forall. intros tx _. apply Hash_ok. }
  destruct (last tree) as [h|] eqn:El; [|apply uint_ok_assign64; lia]. cbn. rewrite Forall_forall in Ht. apply Ht.
  apply last_Some in El as [l ->]. apply elem_of_app. right. apply list_elem_of_singleton. done.
Qed.

(** A block handed out as work: its merkle root is right, its coinbase has the script
    that is saved, and its hash is not known yet *)
Record is_work (script : list Z) (b : CBlock) : Prop := {
  iw_root : hashMerkleRoot b = (BuildMerkleTree b).1;
  iw_script : exists cb txs txin ins, vtx b = cb :: txs /\ vin cb = txin :: ins /\ scriptSig txin = script
}.

Lemma bump_spec prev b n ms b' script n' ms' :
  bump prev b n ms = Some (b', script, n', ms') -> is_work script b' /\ hashPrevBlock b' = hashPrevBlock b /\ fHashCached b' = fHashCached b.
Proof.
  unfold bump. intros ([b1 ms1] & Hi & Hr)%bind_Some. apply bind_Some in Hr as (txin & Ht & [= <- <- <- <-]).
  unfold IncrementExtraNonce in Hi. destruct (vtx b) as [|cb txs]; [done|]. destruct (vin cb) as [|txin0 ins]; [done|]. case_hyp Hi; [done|].
  cbn [BuildMerkleTree] in Hi. injection Hi as <- <-. cbn in Ht. injection Ht as <-. split; [|done]. split; [done|].
  eexists _, _, _, _. split; [reflexivity|]. done.
Qed.

(** The solution is put into the block and nothing else changes *)
Lemma getwork_update_work script b time nonce :
  is_work script b ->
  let b' := getwork_update time nonce script b in
  is_work script b' /\ vtx b' = vtx b /\ hashPrevBlock b' = hashPrevBlock b /\ nBits b' = nBits b /\ blk_nTime b' = time /\ nNonce b' = nonce /\
  header_bytes b' = before_time b ++ le_bytes 4 time ++ le_bytes 4 (nBits b) ++ le_bytes 4 nonce /\
  fHashCached b' = fHashCached b /\ hashCache b' = hashCache b /\ before_time b' = before_time b.
Proof.
  intros [Hroot (cb & txs & txin & ins & Hv & Hi & Hs)]. cbn zeta. unfold getwork_update. rewrite Hv, Hi.
  assert (Ht : mkTx (nVersion cb) (nTime cb) (alter (with_sig script) 0%nat (txin :: ins)) (vout cb) (nLockTime cb) = cb).
  { destruct cb, txin. cbn in *. subst. done. }
  rewrite Ht. destruct (BuildMerkleTree (with_header _ _ _ _)) as [root b1] eqn:Eb. unfold BuildMerkleTree in Eb. cbn [vtx with_header with_vtx] in Eb. injection Eb as Er <-.
  assert (Hr : root = hashMerkleRoot b) by (rewrite Hroot; unfold BuildMerkleTree; rewrite Hv; by rewrite <- Er).
  split_and!; try done.
  - split; [|by eexists _, _, _, _]. cbn [hashMerkleRoot with_header]. rewrite <- Er. unfold BuildMerkleTree. by cbn.
  - unfold header_bytes, before_time. cbn [blk_nVersion hashPrevBlock hashMerkleRoot blk_nTime Block.nBits nNonce with_header with_tree with_vtx]. rewrite Hr.
    by rewrite <- !app_assoc.
  - unfold before_time. cbn [blk_nVersion hashPrevBlock hashMerkleRoot with_header with_tree with_vtx]. by rewrite Hr.
Qed.
End merkle.

Section work_facts.
Context {B : BNOps} {E : ECOps} {SO : ECSecretOps E} {P : SecpOps} {C : CipherOps} {H : HashOps} {F : Files} {G : BlockFiles} {HL : HashLaws H}.
Context (SHA256_block : list Z -> list Z -> list Z).
Context (EC_KEY_generate_key : nat -> EC_KEY) (i2d_ECPrivateKey : EC_KEY -> list Z) (mo : MineOptions).

Abbreviation renew := (renew_work EC_KEY_generate_key i2d_ECPrivateKey mo).
Abbreviation issue := (issue_work SHA256_block).

(** The blocks on the heap build on blocks of the tree *)
Definition prevs_ok (wk : WorkState) : Prop := forall id b, heap_blocks wk !! id = Some b -> uint_ok WIDTH256 (hashPrevBlock b).

Lemma lookup_deletes (m : gmap nat CBlock) ids id b : foldr delete m ids !! id = Some b -> m !! id = Some b.
Proof. induction ids as [|i ids IH]; [done|]. cbn. intros [_ Hm]%lookup_delete_Some. by apply IH. Qed.

Lemma renew_prevs fSafe c nd wk nd1 wk1 :
  prevs_ok wk -> Forall (fun i => uint_ok WIDTH256 (bi_hash i)) (best_chain (nd_chain nd)) -> renew fSafe c nd wk = Returns tt nd1 wk1 ->
  prevs_ok wk1 /\ best_chain (nd_chain nd1) = best_chain (nd_chain nd).
Proof.
  intros Hwk Hch. unfold renew_work. case_goal; [|by intros [= <- <-]].
  destruct (create _ _ _ _ _) as [[[[[b|] w] ms] sc]| |] eqn:Ec; [|done..]. intros [= <- <-]. split; [|done].
  intros id b'. cbn [heap_blocks new_block]. intros [[<- <-]|[_ Hb]]%lookup_insert_Some.
  - apply CreateNewBlock_steps in Ec as (cb & prev & chain & bts & f & _ & Eb & _ & _ & -> & _).
    destruct (new_header_same (c_par c) false prev (prev :: chain) bts (cb :: blk_txs f)) as (_ & -> & _). rewrite Eb in Hch.
    by apply Forall_cons in Hch as [Hp _].
  - cbn [heap_blocks start_work] in Hb. unfold forget_works in Hb. case_hyp Hb; [by eapply Hwk|]. cbn [heap_blocks] in Hb. eapply Hwk. by eapply lookup_deletes.
Qed.

Lemma issue_spec c nd wk mid data hash1 target nd1 wk1 :
  issue true c nd wk = Returns (WorkData mid data hash1 target) nd1 wk1 ->
  exists id b0 b script, heap_blocks wk !! id = Some b0 /\ hashPrevBlock b = hashPrevBlock b0 /\ is_work script b /\ fHashCached b = false /\
    heap_blocks wk1 !! id = Some b /\ mapNewBlock wk1 !! hashMerkleRoot b = Some (id, script) /\ data = (FormatHashBuffers SHA256_block b).1.2.
Proof.
  unfold issue_work. destruct (wk_pblock wk) as [id|]; [|done]. cbn [mbind option_bind]. destruct (heap_blocks wk !! id) as [b0|] eqn:Eh; [|done].
  destruct (head _) as [prev|]; [|done]. cbn [mbind option_bind]. destruct (bump _ _ _ _) as [[[[b script] n] ms]|] eqn:Eb; [|done]. cbn [mbind option_bind].
  destruct (head (vtx b)) as [cb|]; [|done]. cbn [mbind option_bind]. apply bump_spec in Eb as (Hw & Hp & Hf).
  destruct (FormatHashBuffers SHA256_block b) as [[m d] h1] eqn:Ef. intros [= _ <- _ _ _ <-].
  exists id, b0, b, script. split_and!; try done; unfold save_work; cbn [heap_blocks mapNewBlock]; by rewrite ?lookup_insert_eq, ?Ef.
Qed.

Lemma GetHash_fields b : fHashCached (CBlock_GetHash b).2 = true /\ hashCache (CBlock_GetHash b).2 = (CBlock_GetHash b).1.
Proof. unfold CBlock_GetHash. by case_goal. Qed.

(** Signing fixes the hash of the block *)
Lemma SignBlock_true {K : CKeyStore} outs b b' :
  SignBlock_loop outs b = Some (true, b') ->
  vtx b' = vtx b /\ hashMerkleRoot b' = hashMerkleRoot b /\ before_time b' = before_time b /\ nBits b' = nBits b /\
  fHashCached b' = true /\ hashCache b' = (CBlock_GetHash b).1.
Proof.
  revert b. induction outs as [|o outs IH]; intros b; [done|]. cbn [SignBlock_loop]. destruct (Solver _) as [[ok whichType] vSolutions].
  case_goal; [by apply IH|]. case_bool_decide; [|by apply IH]. intros ([key|] & _ & Hr)%bind_Some; [|by apply IH].
  apply bind_Some in Hr as (pub & _ & Hr). case_hyp Hr; [by apply IH|]. pose proof (GetHash_fields b) as [Hc Hh]. pose proof (GetHash_same b) as (Hs & Hv & _).
  assert (Hf : hashMerkleRoot (CBlock_GetHash b).2 = hashMerkleRoot b /\ before_time (CBlock_GetHash b).2 = before_time b /\
    nBits (CBlock_GetHash b).2 = nBits b) by (unfold CBlock_GetHash; by case_goal). destruct Hf as (Hm & Hp & Hn).
  destruct (CBlock_GetHash b) as [hash b1] eqn:Eg. cbn [fst snd] in *. destruct (CKey_Sign key hash) as [sig|].
  - injection Hr as <-. done.
  - apply IH in Hr as (-> & -> & -> & -> & -> & ->). cbn [vtx hashMerkleRoot Block.nBits with_blocksig]. change (before_time (with_blocksig b1 [])) with (before_time b1).
    split_and!; try done.
    unfold CBlock_GetHash. cbn [fHashCached with_blocksig]. by rewrite Hc.
Qed.

(** A block whose hash misses the target is not processed *)
Lemma CheckWork_miss par s mode env rnd o b k w :
  op_gt (CBlock_GetHash b).1 (getuint256 (SetCompact (nBits b))) = true ->
  CheckWork par s mode env rnd o b k w = Some (false, (CBlock_GetHash b).2, k, w, o, s).
Proof.
  intros Hgt. unfold CheckWork. assert (Hn : nBits (CBlock_GetHash b).2 = nBits b) by (unfold CBlock_GetHash; by case_goal).
  destruct (CBlock_GetHash b) as [h b1]. cbn [fst snd] in *. rewrite Hn, Hgt. by case_goal.
Qed.

Lemma work_gate_chain c nd code nd' : work_gate c nd = Some (code, nd') -> nd_chain nd' = nd_chain nd.
Proof.
  unfold work_gate. case_goal; [by intros [= _ <-]|]. destruct (IsInitialBlockDownload _ _ nd) as [initial nd0] eqn:Ei.
  assert (Hn : nd_chain nd0 = nd_chain nd).
  { unfold IsInitialBlockDownload in Ei. destruct (best_chain _); [by injection Ei as _ <-|]. case_hyp Ei; by injection Ei as _ <-. }
  case_goal; [by intros [= _ <-]|]. destruct (best_chain _); [done|]. intros (stopped & _ & Hr)%bind_Some. destruct stopped; [by injection Hr as _ <-|].
  apply bind_Some in Hr as (flash & _ & Hr). by injection Hr as _ <-.
Qed.

(** A solution is looked up by the merkle root it names *)
Lemma submit_solution torn c b0 script id b time nonce nd wk :
  header_ok b0 -> 0 <= time < 2 ^ 32 -> 0 <= nonce < 2 ^ 32 -> mapNewBlock wk !! hashMerkleRoot b0 = Some (id, script) ->
  heap_blocks wk !! id = Some b -> is_work script b ->
  submit_work torn c (solved (FormatHashBuffers SHA256_block b0).1.2 time nonce) [] nd wk = judge c id (getwork_update time nonce script b) nd wk.
Proof.
  intros Hb Ht Hn Hm Hh Hw. destruct (solved_work SHA256_block b0 time nonce Hb Ht Hn) as (Hl & Hs & _). unfold submit_work.
  rewrite Hl, Hs, Hm, Hh. change (negb (Z.of_nat 128 =? 128)) with false. cbn iota. destruct Hw as [_ (cb & txs & txin & ins & Hv & Hi & _)].
  unfold has_coinbase_input. by rewrite Hv, Hi.
Qed.

(** A block that is signed and misses the target stays as it is, with its hash *)
Lemma judge_miss c id b b1 nd wk :
  SignBlock (K := crypto_keystore (store (wkeys (nd_wallet nd)))) b = Some (true, b1) ->
  op_gt (CBlock_GetHash b).1 (getuint256 (SetCompact (nBits b))) = true ->
  judge c id b nd wk = Returns (Judged false) nd (put_block id b1 wk).
Proof.
  intros Hs Hgt. unfold judge. rewrite Hs. apply SignBlock_true in Hs as (_ & _ & _ & Hn & Hf & Hh).
  assert (Hg : CBlock_GetHash b1 = ((CBlock_GetHash b).1, b1)) by (unfold CBlock_GetHash at 1; by rewrite Hf, Hh).
  rewrite CheckWork_miss by (rewrite Hg, Hn; exact Hgt). rewrite Hg. cbn [snd]. destruct nd, wk. done.
Qed.

(** A block whose known hash misses the target is never taken *)
Lemma judge_stale c id b nd wk nd' wk' :
  fHashCached b = true -> op_gt (hashCache b) (getuint256 (SetCompact (nBits b))) = true -> judge c id b nd wk <> Returns (Judged true) nd' wk'.
Proof.
  intros Hf Hgt. unfold judge. destruct (SignBlock b) as [[[] b1]|] eqn:Es; [|done..]. assert (Hg : (CBlock_GetHash b).1 = hashCache b).
  { unfold CBlock_GetHash. by rewrite Hf. }
  apply SignBlock_true in Es as (_ & _ & _ & Hn & Hf1 & Hh). rewrite Hg in Hh.
  assert (Hg1 : (CBlock_GetHash b1).1 = hashCache b) by (unfold CBlock_GetHash; by rewrite Hf1).
  rewrite CheckWork_miss by (rewrite Hg1, Hn; exact Hgt). done.
Qed.
End work_facts.

(** C11: The work that [getwork] hands out is the header of a block it keeps: when a miner
    returns the data with a time and a nonce of its own, the block that is signed and
    judged has exactly the 80 bytes of the header in that data, with a merkle root that is
    right for its transactions, and is judged by the scrypt hash of those bytes.  But
    after one solution that was signed and missed the target, every other solution of the
    same work, whatever its time and nonce, is judged by the hash of the first one: none
    is accepted. *)
Theorem getwork_submission {B : BNOps} {E : ECOps} {SO : ECSecretOps E} {P : SecpOps} {C : CipherOps} {H : HashOps} {F : Files} {G : BlockFiles}
    {HL : HashLaws H} SHA256_block EC_KEY_generate_key i2d_ECPrivateKey mo c nd wk mid data hash1 target nd1 wk1 :
  prevs_ok wk -> Forall (fun i => uint_ok WIDTH256 (bi_hash i)) (best_chain (nd_chain nd)) ->
  getwork SHA256_block EC_KEY_generate_key i2d_ECPrivateKey mo c NewWork nd wk = Returns (WorkData mid data hash1 target) nd1 wk1 ->
  let solve c r := getwork SHA256_block EC_KEY_generate_key i2d_ECPrivateKey mo c r in
  exists id, forall c2 nd2 nd3 time nonce any, work_gate c2 nd2 = Some (None, nd3) -> 0 <= time < 2 ^ 32 -> 0 <= nonce < 2 ^ 32 ->
    exists b, header_bytes b = take 80 (swap_words (solved data time nonce)) /\ blk_nTime b = time /\ nNonce b = nonce /\
      hashMerkleRoot b = (BuildMerkleTree b).1 /\ (CBlock_GetHash b).1 = scrypt_blockhash (header_bytes b) /\
      solve c2 (Solution (solved data time nonce) any) nd2 wk1 = judge c2 id b nd3 wk1 /\
      (forall b1, SignBlock (K := crypto_keystore (store (wkeys (nd_wallet nd3)))) b = Some (true, b1) ->
         op_gt (scrypt_blockhash (header_bytes b)) (getuint256 (SetCompact (nBits b))) = true ->
         exists wk2, solve c2 (Solution (solved data time nonce) any) nd2 wk1 = Returns (Judged false) nd3 wk2 /\
           forall c4 nd4 nd5 time' nonce' any', work_gate c4 nd4 = Some (None, nd5) -> 0 <= time' < 2 ^ 32 -> 0 <= nonce' < 2 ^ 32 ->
             exists b2, header_bytes b2 = take 80 (swap_words (solved data time' nonce')) /\ (CBlock_GetHash b2).1 = scrypt_blockhash (header_bytes b) /\
               solve c4 (Solution (solved data time' nonce') any') nd4 wk2 = judge c4 id b2 nd5 wk2 /\
               forall nd6 wk6, judge c4 id b2 nd5 wk2 <> Returns (Judged true) nd6 wk6).
Proof.
  intros Hwk Hch Hr. cbn zeta. unfold getwork at 1 in Hr. destruct (work_gate c nd) as [[[code|] nd0]|] eqn:Eg; [done| |done].
  apply work_gate_chain in Eg.
  destruct (renew_work _ _ _ _ _ _ _) as [[] ndr wkr| |] eqn:Er; [|done..].
  rewrite <- Eg in Hch. destruct (renew_prevs _ _ _ _ _ _ _ _ _ Hwk Hch Er) as [Hwkr _].
  apply issue_spec in Hr as (id & b0 & b & script & Hb0 & Hp & Hw & Hf & Hid & Hm & ->). assert (Hok : header_ok b).
  { split; [rewrite Hp; by eapply Hwkr|]. destruct Hw as [-> _]. apply merkle_root_ok. }
  exists id. intros c2 nd2 nd3 time nonce any Hg2 Ht Hn.
  destruct (solved_work SHA256_block b time nonce Hok Ht Hn) as (_ & _ & Hd). destruct (getwork_update_work script b time nonce Hw) as (Hw1 & Hv1 & _ & Hn1 & Ht1 & Hk1 & Hh1 & Hf1 & _ & Hp1).
  set (b1 := getwork_update time nonce script b) in *. assert (Hj : forall nd, submit_work Datatypes.id c2 (solved (FormatHashBuffers SHA256_block b).1.2 time nonce) [] nd wk1 =
    judge c2 id b1 nd wk1) by (intros nd'; by eapply submit_solution).
  assert (Hg1 : (CBlock_GetHash b1).1 = scrypt_blockhash (header_bytes b1)) by (unfold CBlock_GetHash; by rewrite Hf1, Hf).
  exists b1. unfold getwork at 1 2. rewrite Hg2, Hj. split_and!; try done; [by rewrite Hh1|].
  intros b2 Hsign Hgt. rewrite (judge_miss c2 id b1 b2 nd3 wk1 Hsign) by (by rewrite Hg1). eexists. split; [reflexivity|].
  intros c4 nd4 nd5 time' nonce' any' Hg4 Ht' Hn'. destruct (SignBlock_true _ _ _ Hsign) as (Hv2 & Hm2 & Hp2 & Hn2 & Hf2 & Hc2).
  assert (Hw2 : is_work script b2).
  { destruct Hw1 as [Hr1 Hs1]. split; [|by rewrite Hv2]. rewrite Hm2, Hr1. apply BuildMerkleTree_vtx. congruence. }
  destruct (getwork_update_work script b2 time' nonce' Hw2) as (_ & _ & _ & Hn3 & _ & _ & Hh3 & Hf3 & Hc3 & _).
  destruct (solved_work SHA256_block b time' nonce' Hok Ht' Hn') as (_ & _ & Hd').
  exists (getwork_update time' nonce' script b2). unfold getwork. rewrite Hg4. split_and!.
  - by rewrite Hh3, Hd', Hp2, Hp1, Hn2, Hn1.
  - unfold CBlock_GetHash. by rewrite Hf3, Hf2, Hc3, Hc2, Hg1.
  - eapply submit_solution; try done. cbn [heap_blocks put_block]. by rewrite lookup_insert_eq.
  - intros nd6 wk6. apply judge_stale; [by rewrite Hf3|]. by rewrite Hc3, Hc2, Hn3, Hn2, Hg1.
Qed.

(** ** When no block can be made *)

Section failed.
Context {B : BNOps} {E : ECOps} {SO : ECSecretOps E} {P : SecpOps} {C : CipherOps} {H : HashOps} {F : Files} {G : BlockFiles}.
Context (EC_KEY_generate_key : nat -> EC_KEY) (i2d_ECPrivateKey : EC_KEY -> list Z) (mo : MineOptions).

Abbreviation due c nd wk := (work_is_old 60 (c_time c) (nd_chain nd) (nTransactionsUpdatedLast wk) (nStart wk) (wk_pindexPrev wk)).

Lemma renew_failed fSafe c nd wk w ms sc :
  due c nd wk = true -> create EC_KEY_generate_key i2d_ECPrivateKey mo c nd = Mined (None, w, ms, sc) ->
  renew_work EC_KEY_generate_key i2d_ECPrivateKey mo fSafe c nd wk = RPCError RPC_OUT_OF_MEMORY (after_create w ms sc nd)
    (no_block (start_work (if fSafe then None else pindexBest (nd_chain nd)) (nd_chain nd) (c_time c) (forget_works (nd_chain nd) wk))).
Proof. intros Hd Hc. unfold renew_work. by rewrite Hd, Hc. Qed.

(** Behind the tests there is a best block *)
Lemma work_gate_best c nd code nd' : work_gate c nd = Some (None, nd') -> code = pindexBest (nd_chain nd') -> code <> None.
Proof.
  intros Hg -> Hn. pose proof (work_gate_chain _ _ _ _ Hg) as Hc. unfold work_gate in Hg. destruct (vNodes_empty c); [done|].
  unfold IsInitialBlockDownload in Hg. assert (Hb : best_chain (nd_chain nd) = []) by (unfold best_chain, way; rewrite <- Hc, Hn; by destruct (base.size _)).
  by rewrite Hb in Hg.
Qed.
End failed.

(** C12: When [CreateNewBlock] cannot make a block, since the wallet has no key for the
    coinbase, [getwork] and [getworkex] both throw "Out of memory".  The next [getwork]
    tries again and gives the same answer or hands out a block.  The next [getworkex]
    reads through the null pointer, whatever the wallet has by then, unless the best
    block changed or the pool did and a minute passed. *)
Theorem failed_work {B : BNOps} {E : ECOps} {SO : ECSecretOps E} {P : SecpOps} {C : CipherOps} {H : HashOps} {F : Files} {G : BlockFiles}
    SHA256_block EC_KEY_generate_key i2d_ECPrivateKey mo torn c nd nd0 wk w ms sc :
  work_gate c nd = Some (None, nd0) ->
  work_is_old 60 (c_time c) (nd_chain nd0) (nTransactionsUpdatedLast wk) (nStart wk) (wk_pindexPrev wk) = true ->
  create EC_KEY_generate_key i2d_ECPrivateKey mo c nd0 = Mined (None, w, ms, sc) ->
  let nd1 := after_create w ms sc nd0 in
  let work := getwork SHA256_block EC_KEY_generate_key i2d_ECPrivateKey mo in
  let workex := getworkex SHA256_block EC_KEY_generate_key i2d_ECPrivateKey mo torn in
  (exists wk1, work c NewWork nd wk = RPCError RPC_OUT_OF_MEMORY nd1 wk1 /\
     forall c2 nd2 nd3, work_gate c2 nd2 = Some (None, nd3) ->
       match create EC_KEY_generate_key i2d_ECPrivateKey mo c2 nd3 with
       | Mined (None, w2, ms2, sc2) => exists wk2, work c2 NewWork nd2 wk1 = RPCError RPC_OUT_OF_MEMORY (after_create w2 ms2 sc2 nd3) wk2
       | Mined (Some b, w2, ms2, sc2) =>
           exists wk2 id, work c2 NewWork nd2 wk1 = issue_work SHA256_block true c2 (after_create w2 ms2 sc2 nd3) wk2 /\
             wk_pblock wk2 = Some id /\ heap_blocks wk2 !! id = Some b
       | _ => work c2 NewWork nd2 wk1 = Breaks
       end) /\
  (exists wk1, workex c NewWork nd wk = RPCError RPC_OUT_OF_MEMORY nd1 wk1 /\
     forall c2 nd2 nd3, work_gate c2 nd2 = Some (None, nd3) -> pindexBest (nd_chain nd3) = pindexBest (nd_chain nd0) ->
       nTransactionsUpdated (mempool (nd_chain nd3)) = nTransactionsUpdated (mempool (nd_chain nd0)) \/ i64 (c_time c2 - c_time c) <= 60 ->
       workex c2 NewWork nd2 wk1 = Breaks).
Proof.
  intros Hg Hd Hc. cbn zeta. unfold getwork, getworkex. rewrite Hg. rewrite !(renew_failed _ _ _ _ _ _ _ _ _ _ Hd Hc). split.
  - eexists. split; [reflexivity|]. intros c2 nd2 nd3 Hg2. rewrite Hg2. set (wk1 := no_block _).
    assert (Hd2 : work_is_old 60 (c_time c2) (nd_chain nd3) (nTransactionsUpdatedLast wk1) (nStart wk1) (wk_pindexPrev wk1) = true).
    { unfold work_is_old. rewrite bool_decide_false; [done|]. cbn. intros Hn. by eapply work_gate_best. }
    destruct (create _ _ _ c2 nd3) as [[[[[b|] w2] ms2] sc2]| |] eqn:Ec.
    + unfold renew_work. rewrite Hd2, Ec. eexists _, _. split; [reflexivity|]. split; [reflexivity|]. cbn [heap_blocks new_block]. by rewrite lookup_insert_eq.
    + rewrite (renew_failed _ _ _ _ _ _ _ _ _ _ Hd2 Ec). by eexists.
    + unfold renew_work. by rewrite Hd2, Ec.
    + unfold renew_work. by rewrite Hd2, Ec.
  - eexists. split; [reflexivity|]. intros c2 nd2 nd3 Hg2 Hb Hold. rewrite Hg2. set (wk1 := no_block _).
    assert (Hd2 : work_is_old 60 (c_time c2) (nd_chain nd3) (nTransactionsUpdatedLast wk1) (nStart wk1) (wk_pindexPrev wk1) = false).
    { unfold work_is_old. subst wk1. cbn [no_block start_work nTransactionsUpdatedLast nStart wk_pindexPrev]. rewrite bool_decide_true by done. cbn [negb orb].
      destruct Hold as [->|Ht]; [by rewrite Z.eqb_refl|]. rewrite (proj2 (Z.ltb_ge _ _) Ht). by rewrite andb_false_r. }
    unfold renew_work. rewrite Hd2. done.
Qed.

(** ** The blocks on the heap *)

(** What [getwork] keeps: every block it made and has not deleted is owned by [vNewBlock]
    and every pointer it may follow is to one of these *)
Record work_ok (wk : WorkState) : Prop := {
  wo_saved root id script : mapNewBlock wk !! root = Some (id, script) -> id ∈ vNewBlock wk;
  wo_heap id : is_Some (heap_blocks wk !! id) <-> id ∈ vNewBlock wk;
  wo_fresh id : id ∈ vNewBlock wk -> (id < nBlocksMade wk)%nat;
  wo_once : NoDup (vNewBlock wk);
  wo_last h : wk_pindexPrev wk = Some h -> exists id, wk_pblock wk = Some id /\ id ∈ vNewBlock wk
}.

Lemma work_init_ok : work_ok work_init.
Proof. split; cbn; try done; [intros id; rewrite lookup_empty, elem_of_nil; by split; [intros []|]|by intros ? ?%elem_of_nil|constructor]. Qed.

Lemma put_block_ok id b wk : work_ok wk -> id ∈ vNewBlock wk -> work_ok (put_block id b wk).
Proof.
  intros [] Hid. split; cbn; try done. intros id'. rewrite lookup_insert_is_Some, <- wo_heap0. destruct (decide (id = id')) as [<-|Hn]; [|naive_solver].
  rewrite wo_heap0. naive_solver.
Qed.

Lemma with_reserve_ok k wk : work_ok wk -> work_ok (with_reserve k wk).
Proof. by intros []. Qed.

Lemma save_work_ok id b script n wk : work_ok wk -> id ∈ vNewBlock wk -> work_ok (save_work id b script n wk).
Proof.
  intros Hwk Hid. destruct (put_block_ok id b wk Hwk Hid) as []. split; cbn in *; try done.
  intros root id' script' [[_ [= <- _]]|[_ Hm]]%lookup_insert_Some; [done|by eapply wo_saved0].
Qed.

Lemma lookup_deletes_is_Some (m : gmap nat CBlock) ids id : is_Some (foldr delete m ids !! id) <-> is_Some (m !! id) /\ id ∉ ids.
Proof.
  induction ids as [|i ids IH]; [cbn; set_solver|]. cbn. rewrite lookup_delete_is_Some, IH. set_solver.
Qed.

(** The statics when a block is about to be made *)
Lemma start_work_ok s t wk : work_ok wk -> work_ok (start_work None s t (forget_works s wk)).
Proof.
  intros []. unfold forget_works. case_bool_decide; split; cbn; try done; [|by intros ? ?%elem_of_nil|constructor].
  intros id. rewrite lookup_deletes_is_Some, wo_heap0, elem_of_nil. naive_solver.
Qed.

Lemma no_block_ok wk : wk_pindexPrev wk = None -> work_ok wk -> work_ok (no_block wk).
Proof. intros Hn []. split; cbn; try done. intros h. by rewrite Hn. Qed.

Lemma new_block_ok prev b wk : work_ok wk -> work_ok (new_block prev b wk).
Proof.
  intros []. assert (Hf : nBlocksMade wk ∉ vNewBlock wk) by (intros Hin%wo_fresh0; lia). split; cbn.
  - intros root id script Hm%wo_saved0. set_solver.
  - intros id. rewrite lookup_insert_is_Some, elem_of_app, list_elem_of_singleton, <- wo_heap0. destruct (decide (nBlocksMade wk = id)); naive_solver.
  - intros id [Hin%wo_fresh0| ->%list_elem_of_singleton]%elem_of_app; lia.
  - apply NoDup_app. split; [done|]. split; [|apply NoDup_singleton]. intros x Hx ->%list_elem_of_singleton. done.
  - intros h _. eexists. split; [reflexivity|]. set_solver.
Qed.

Section pointers.
Context {B : BNOps} {E : ECOps} {SO : ECSecretOps E} {P : SecpOps} {C : CipherOps} {H : HashOps} {F : Files} {G : BlockFiles}.
Context (SHA256_block : list Z -> list Z -> list Z).
Context (EC_KEY_generate_key : nat -> EC_KEY) (i2d_ECPrivateKey : EC_KEY -> list Z) (mo : MineOptions).

(** Where a call leaves the statics *)
Definition leaves {A} (Q : WorkState -> Prop) (r : rpc WorkState A) : Prop :=
  match r with Returns _ _ wk | RPCError _ _ wk => Q wk | Breaks => True end.

Lemma renew_ok c nd wk :
  work_ok wk ->
  match renew_work EC_KEY_generate_key i2d_ECPrivateKey mo true c nd wk with
  | Returns _ nd' wk' => work_ok wk' /\ pindexBest (nd_chain nd') = pindexBest (nd_chain nd) /\ wk_pindexPrev wk' = pindexBest (nd_chain nd)
  | RPCError _ _ wk' => work_ok wk'
  | Breaks => True
  end.
Proof.
  intros Hwk. unfold renew_work. destruct (work_is_old _ _ _ _ _ _) eqn:Eo.
  - destruct (create _ _ _ c nd) as [[[[[b|] w] ms] sc]| |]; [|apply no_block_ok; [done|]; by apply start_work_ok|done..].
    split; [by apply new_block_ok, start_work_ok|done].
  - split; [done|]. split; [done|]. unfold work_is_old in Eo. by case_bool_decide.
Qed.

Lemma issue_ok c nd wk : work_ok wk -> leaves work_ok (issue_work SHA256_block true c nd wk).
Proof.
  intros Hwk. unfold issue_work. destruct (wk_pblock wk) as [id|]; [|done]. cbn [mbind option_bind]. destruct (heap_blocks wk !! id) as [b0|] eqn:Eh; [|done].
  destruct (head (best_chain _)) as [prev|]; [|done]. cbn [mbind option_bind]. destruct (bump _ _ _ _) as [[[[b script] n] ms]|]; [|done]. cbn [mbind option_bind].
  destruct (head (vtx b)); [|done]. cbn [mbind option_bind]. destruct (FormatHashBuffers SHA256_block b) as [[m d] h1]. cbn [leaves].
  apply save_work_ok; [done|]. apply (wo_heap _ Hwk). by eexists.
Qed.

Lemma submit_ok torn c vchData coinbase nd wk : work_ok wk -> leaves work_ok (submit_work torn c vchData coinbase nd wk).
Proof.
  intros Hwk. unfold submit_work. case_goal; [done|]. destruct (read_solution vchData) as [[root time] nonce].
  destruct (mapNewBlock wk !! root) as [[id script]|] eqn:Em; [|done]. apply (wo_saved _ Hwk) in Em.
  assert (Hj : forall b, leaves work_ok (judge c id b nd wk)).
  { intros b. unfold judge. destruct (SignBlock b) as [[[] b1]|]; [|by apply put_block_ok|done].
    destruct (CheckWork _ _ _ _ _ _ _ _ _) as [[[[[[ok b2] k] w] o] s]|]; [|done]. apply put_block_ok; [by apply with_reserve_ok|done]. }
  destruct (heap_blocks wk !! id) as [b|]; [|done]. destruct coinbase; [by case_goal|]. case_goal; [done|].
  destruct (replace_coinbase _ _ _ _ _) as [[] b1]; [done|]. by apply put_block_ok.
Qed.

(** A run of calls to [getwork], between which the rest of the node may do anything *)
Inductive work_run : Node -> WorkState -> Prop :=
  | run_init nd : work_run nd work_init
  | run_node nd nd' wk : work_run nd wk -> work_run nd' wk
  | run_returns c r nd wk a nd' wk' :
      work_run nd wk -> getwork SHA256_block EC_KEY_generate_key i2d_ECPrivateKey mo c r nd wk = Returns a nd' wk' -> work_run nd' wk'
  | run_throws c r nd wk code nd' wk' :
      work_run nd wk -> getwork SHA256_block EC_KEY_generate_key i2d_ECPrivateKey mo c r nd wk = RPCError code nd' wk' -> work_run nd' wk'.

Lemma getwork_ok c r nd wk : work_ok wk -> leaves work_ok (getwork SHA256_block EC_KEY_generate_key i2d_ECPrivateKey mo c r nd wk).
Proof.
  intros Hwk. unfold getwork. destruct (work_gate c nd) as [[[code|] nd0]|]; [done| |done]. destruct r as [|vchData any]; [|by apply submit_ok].
  pose proof (renew_ok c nd0 wk Hwk) as Hr. destruct (renew_work _ _ _ _ _ _ _) as [a nd1 wk1|code nd1 wk1|]; [|done..]. apply issue_ok, Hr.
Qed.

Lemma work_run_ok nd wk : work_run nd wk -> work_ok wk.
Proof.
  induction 1 as [| |c r nd wk a nd' wk' _ IH Hr|c r nd wk code nd' wk' _ IH Hr]; [apply work_init_ok|done|..].
  all: pose proof (getwork_ok c r nd wk IH) as Hl; by rewrite Hr in Hl.
Qed.
End pointers.

(** In every run of [getwork], with anything happening to the chain, the pool and the
    wallet between the calls, the blocks on the heap are just those [vNewBlock] owns, each
    once, so that none is lost or deleted twice; a work that is saved points to a block
    that exists, and once the first part of a call for new work is done so does the
    pointer to the last block. *)
Theorem work_pointers {B : BNOps} {E : ECOps} {SO : ECSecretOps E} {P : SecpOps} {C : CipherOps} {H : HashOps} {F : Files} {G : BlockFiles}
    SHA256_block EC_KEY_generate_key i2d_ECPrivateKey mo nd wk :
  work_run SHA256_block EC_KEY_generate_key i2d_ECPrivateKey mo nd wk ->
  (forall id, is_Some (heap_blocks wk !! id) <-> id ∈ vNewBlock wk) /\ NoDup (vNewBlock wk) /\
  (forall root id script, mapNewBlock wk !! root = Some (id, script) -> is_Some (heap_blocks wk !! id)) /\
  (forall c nd0 nd1 nd2 wk2, work_gate c nd0 = Some (None, nd1) ->
     renew_work EC_KEY_generate_key i2d_ECPrivateKey mo true c nd1 wk = Returns tt nd2 wk2 ->
     exists id, wk_pblock wk2 = Some id /\ is_Some (heap_blocks wk2 !! id)).
Proof.
  intros Hrun%work_run_ok. split; [apply Hrun|]. split; [apply Hrun|]. split.
  - intros root id script Hm. by apply (wo_heap _ Hrun), (wo_saved _ Hrun root id script).
  - intros c nd0 nd1 nd2 wk2 Hg Hr. pose proof (renew_ok EC_KEY_generate_key i2d_ECPrivateKey mo c nd1 wk Hrun) as Hk. rewrite Hr in Hk.
    destruct Hk as (Hk & _ & Hp). destruct (pindexBest (nd_chain nd1)) as [h|] eqn:Eb; [|exfalso; by apply (work_gate_best c nd0 None nd1 Hg)].
    destruct (wo_last _ Hk h Hp) as (id & Hid & Hin). exists id. split; [done|]. by apply (wo_heap _ Hk).
Qed.

(** ** What [getblocktemplate] says of a transaction *)

Section template.
Context {B : BNOps} {E : ECOps} {SO : ECSecretOps E} {P : SecpOps} {C : CipherOps} {H : HashOps} {F : Files} {G : BlockFiles}.

(** The transactions that are fetched are those of the inputs *)
Lemma fetch_loop_keys db q pool fBlock fMiner ins m m' h :
  fetch_loop (T := leveldb_store) db q pool fBlock fMiner ins m = Some m' ->
  is_Some (m' !! h) <-> is_Some (m !! h) \/ exists txin, txin ∈ ins /\ op_hash (prevout txin) = h.
Proof.
  revert m. induction ins as [|txin ins IH]; intros m; cbn [fetch_loop].
  - intros [= <-]. split; [by left|]. intros [Hm|(t & Ht%elem_of_nil & _)]; done.
  - intros (m1 & Hf & Hr)%bind_Some. rewrite (IH m1 Hr).
    assert (Hk : is_Some (m1 !! h) <-> is_Some (m !! h) \/ op_hash (prevout txin) = h).
    { unfold fetch_one in Hf. case_bool_decide as Hd; [injection Hf as <-; naive_solver|].
      destruct (if fBlock || fMiner then _ else _) as [x|]; [|destruct (ReadTxIndex _ _)]; repeat case_hyp Hf; try done.
      all: apply bind_Some in Hf as (txPrev & _ & [= <-]); rewrite lookup_insert_is_Some; destruct (decide (op_hash (prevout txin) = h)); naive_solver. }
    rewrite Hk. split.
    + intros [[?|<-]|(t & ? & ?)]; [by left|right; exists txin; split; [by left|done]|right; exists t; split; [by right|done]].
    + intros [?|(t & [->|?]%elem_of_cons & <-)]; [by left; left|by left; right|right; by exists t].
Qed.

Lemma template_details_spec s m tx fee deps ops :
  IsCoinBase tx = false -> template_details s m tx = Some (Some (fee, deps, ops)) ->
  exists inputs nValueIn nValueOut nP2SH, FetchInputs (T := leveldb_store) (read_db s) ∅ (mapTx (mempool s)) false false tx = Fetched inputs /\
    GetValueIn tx inputs = Some nValueIn /\ GetValueOut tx = Some nValueOut /\ fee = i64 (nValueIn - nValueOut) /\
    GetP2SHSigOpCount tx inputs = Some nP2SH /\ ops = i64 (GetLegacySigOpCount tx + nP2SH) /\
    forall i, i ∈ deps <-> exists txin, txin ∈ vin tx /\ m !! op_hash (prevout txin) = Some i.
Proof.
  intros Hcb. unfold template_details. destruct (FetchInputs _ _ _ _ _ _) as [inputs|] eqn:Ef; [|done].
  intros (nValueIn & Hin & Hr)%bind_Some. apply bind_Some in Hr as (nValueOut & Hout & Hr). apply bind_Some in Hr as (nP2SH & Hp & [= <- <- <-]).
  exists inputs, nValueIn, nValueOut, nP2SH. split_and!; try done. intros i. rewrite list_elem_of_omap.
  assert (Hk : forall h, h ∈ (map_entries inputs).*1 <-> exists txin, txin ∈ vin tx /\ op_hash (prevout txin) = h).
  { intros h. unfold FetchInputs in Ef. rewrite Hcb in Ef. destruct (fetch_loop _ _ _ _ _ _ _) as [m'|] eqn:El; [|done]. case_hyp Ef; [|done]. injection Ef as ->.
    apply (fetch_loop_keys _ _ _ _ _ _ _ _ h) in El. rewrite lookup_empty in El. rewrite list_elem_of_fmap. split.
    - intros ([h' e] & -> & He%elem_of_map_entries). destruct (proj1 El) as [[? ?]|?]; [by eexists|done|done].
    - intros Ht. destruct (proj2 El (or_intror Ht)) as [e He]. exists (h, e). split; [done|]. by apply elem_of_map_entries. }
  split.
  - intros (h & Hh & Hi). apply Hk in Hh as (txin & Ht & <-). by exists txin.
  - intros (txin & Ht & Hi). exists (op_hash (prevout txin)). split; [|done]. apply Hk. by exists txin.
Qed.

(** [setTxIndex] after some transactions *)
Definition indexes (txs : list CTransaction) (m : gmap (list Z) Z) : Prop :=
  forall h i, m !! h = Some i <-> exists j t, txs !! j = Some t /\ i = Z.of_nat j /\ CTransaction_GetHash t = h.

Lemma indexes_snoc txs tx m :
  NoDup (CTransaction_GetHash <$> txs ++ [tx]) -> indexes txs m -> indexes (txs ++ [tx]) (<[CTransaction_GetHash tx := Z.of_nat (length txs)]> m).
Proof.
  intros Hnd Hm h i. rewrite fmap_app in Hnd. apply NoDup_app in Hnd as (_ & Hnd & _). rewrite lookup_insert_Some, (Hm h i). split.
  - intros [[<- <-]|[_ (j & t & Hj & -> & <-)]].
    + exists (length txs), tx. by rewrite lookup_app_r, Nat.sub_diag by done.
    + exists j, t. split; [by apply lookup_app_l_Some|done].
  - intros (j & t & Hj & -> & <-). apply lookup_app_Some in Hj as [Hj|[Hle Hj]].
    + right. split; [|by exists j, t]. intros He. apply (Hnd (CTransaction_GetHash t)); [|rewrite <- He; by apply list_elem_of_singleton].
      apply list_elem_of_fmap. exists t. split; [done|]. by eapply list_elem_of_lookup_2.
    + left. apply list_lookup_singleton_Some in Hj as [Hj <-]. split; [done|]. f_equal. lia.
Qed.

Lemma template_loop_spec s txs before m l :
  NoDup (CTransaction_GetHash <$> before ++ txs) -> indexes before m -> Forall (fun tx => IsCoinBase tx = false /\ IsCoinStake tx = false) txs ->
  template_loop s txs (Z.of_nat (length before)) m = Some l ->
  length l = length txs /\ forall k tx, txs !! k = Some tx -> exists e m', l !! k = Some e /\ te_data e = Serialize tx_codec tx /\ te_hash e = CTransaction_GetHash tx /\
    indexes (before ++ take (S k) txs) m' /\ template_details s m' tx = Some (te_details e).
Proof.
  revert before m l. induction txs as [|tx txs IH]; intros before m l Hnd Hm Hall; cbn [template_loop]; [by intros [= <-]|].
  apply Forall_cons in Hall as [[Hcb Hcs] Hall]. rewrite Hcb, Hcs. cbn [orb]. intros (details & Hd & Hr)%bind_Some. apply bind_Some in Hr as (rest & Hr & [= <-]).
  rewrite cons_middle, app_assoc in Hnd. assert (Hm' : indexes (before ++ [tx]) (<[CTransaction_GetHash tx := Z.of_nat (length before)]> m)).
  { apply indexes_snoc; [|done]. rewrite fmap_app in Hnd. by apply NoDup_app in Hnd as [Hnd _]. }
  replace (Z.of_nat (length before) + 1) with (Z.of_nat (length (before ++ [tx]))) in Hr by (rewrite length_app; cbn; lia).
  apply IH in Hr as [Hl Hr]; [|done..]. split; [by cbn; rewrite Hl|]. intros [|k] tx' Ht.
  - injection Ht as <-. eexists _, _. split; [reflexivity|]. split_and!; try done.
  - destruct (Hr k tx' Ht) as (e & m' & He & Hda & Hh & Hi & Hde). exists e, m'. split_and!; try done. cbn [take]. by rewrite cons_middle, app_assoc.
Qed.

Lemma getblocktemplate_issue EC_KEY_generate_key i2d_ECPrivateKey mo c fMode nd gt r nd' gt' :
  getblocktemplate EC_KEY_generate_key i2d_ECPrivateKey mo c fMode nd gt = Returns r nd' gt' -> exists gt1, issue_template c nd' gt1 = Returns r nd' gt'.
Proof.
  unfold getblocktemplate. destruct fMode; [|done]. cbn [negb]. destruct (work_gate c nd) as [[[code|] nd0]|]; [done| |done].
  destruct (renew_template _ _ _ _ _ _) as [a nd1 gt1| |]; [|done..]. intros Hi. exists gt1. assert (nd1 = nd') as <-; [|done].
  unfold issue_template in Hi. destruct (_ ≫= _) as [[b1 r1]|]; [|done]. by injection Hi.
Qed.
End template.

(** C13: [getblocktemplate] describes the block it keeps: it has an entry for every
    transaction after the coinbase, in their order, and where the inputs of one are found
    its fee is what goes in less what comes out, and its dependencies are, counted from
    one, just the transactions of the block up to itself whose outputs it spends. *)
Theorem template_depends {B : BNOps} {E : ECOps} {SO : ECSecretOps E} {P : SecpOps} {C : CipherOps} {H : HashOps} {F : Files} {G : BlockFiles}
    EC_KEY_generate_key i2d_ECPrivateKey mo c fMode nd0 gt0 r nd gt b cb txs :
  getblocktemplate EC_KEY_generate_key i2d_ECPrivateKey mo c fMode nd0 gt0 = Returns r nd gt -> gt_pblock gt = Some b -> vtx b = cb :: txs -> IsCoinBase cb = true ->
  Forall (fun tx => IsCoinBase tx = false /\ IsCoinStake tx = false) txs -> NoDup (CTransaction_GetHash <$> vtx b) ->
  previousblockhash r = hashPrevBlock b /\ bits r = nBits b /\ curtime r = blk_nTime b /\ length (transactions r) = length txs /\
  forall k tx, txs !! k = Some tx -> exists e, transactions r !! k = Some e /\ te_data e = Serialize tx_codec tx /\ te_hash e = CTransaction_GetHash tx /\
    forall fee deps ops, te_details e = Some (fee, deps, ops) ->
      exists inputs nValueIn nValueOut, FetchInputs (T := leveldb_store) (read_db (nd_chain nd)) ∅ (mapTx (mempool (nd_chain nd))) false false tx = Fetched inputs /\
        GetValueIn tx inputs = Some nValueIn /\ GetValueOut tx = Some nValueOut /\ fee = i64 (nValueIn - nValueOut) /\
        forall j, Z.of_nat (S j) ∈ deps <-> (j <= k)%nat /\ exists t txin, txs !! j = Some t /\ txin ∈ vin tx /\ op_hash (prevout txin) = CTransaction_GetHash t.
Proof.
  intros Hr. apply getblocktemplate_issue in Hr as (gt1 & Hr). revert Hr.
  unfold issue_template. destruct (gt_pblock gt1) as [b0|]; [|done]. cbn [mbind option_bind]. destruct (head (best_chain _)) as [prev|]; [|done].
  cbn [mbind option_bind]. set (b1 := with_header _ _ _ 0). destruct (template_loop _ _ 0 ∅) as [l|] eqn:El; [|done]. cbn [mbind option_bind].
  destruct (head (vtx b1) ≫= _) as [o|]; [|done]. intros [= <- <-]. cbn [gt_pblock]. intros [= <-] Hv Hcb Hall Hnd. rewrite Hv in *.
  cbn [template_loop] in El. rewrite Hcb in El. cbn [orb] in El.
  assert (Hi : indexes [cb] (<[CTransaction_GetHash cb := 0]> ∅)).
  { apply (indexes_snoc [] cb ∅); [apply NoDup_singleton|]. intros h i. rewrite lookup_empty. split; [done|]. by intros (j & t & Hj & _). }
  apply (template_loop_spec _ txs [cb]) in El as [Hl Hr']; [|done..]. split_and!; try done. intros k tx Hk.
  destruct (Hr' k tx Hk) as (e & m' & He & Hda & Hh & Hm & Hde). exists e. split_and!; try done. intros fee deps ops Hd. rewrite Hd in Hde.
  assert (Hcbx : IsCoinBase tx = false) by (rewrite Forall_lookup in Hall; by apply (Hall k)).
  apply template_details_spec in Hde as (inputs & nValueIn & nValueOut & nP2SH & Hf & Hin & Hout & Hfee & _ & _ & Hdeps); [|done].
  exists inputs, nValueIn, nValueOut. split_and!; try done. intros j. rewrite Hdeps. split.
  - intros (txin & Ht & Hx). apply Hm in Hx as (i & t & Hi' & Hij & Hht). replace i with (S j) in Hi' by lia. cbn in Hi'. rewrite lookup_take_Some in Hi'.
    destruct Hi' as [Hj Hle]. split; [lia|]. by exists t, txin.
  - intros (Hle & t & txin & Hj & Ht & Hh'). exists txin. split; [done|]. apply Hm. exists (S j), t. split_and!; try done. cbn.
    rewrite lookup_take_Some. split; [done|lia].
Qed.

(** ** Witnesses, on the test network *)

Section work_witness.
#[local] Instance no_headers : BlockFiles := {| read_block _ _ := None |}.

Definition work_call : Call :=
  mkCall test_params 1590000100 false 10 ADVISORY (mkEnv (fun _ => None) (fun _ => false) (fun _ => false)) (fun _ => []).
Definition work_node : Node := mkNodeState mine_state (mkBlockOrphans ∅ ∅ ∅) toy_funds mine_idle (mkDownload 0 None).
Definition toy_sha (init block : list Z) : list Z := init.
Definition ask := getwork (B := ZBN) (E := toy_ec) (SO := toy_secrets) (P := no_secp) (C := toy_cipher) toy_sha toy_gen toy_der mine_options.

(** The wallet without a key and locked *)
Definition locked_funds : CWallet :=
  with_keys (with_store (mkCrypto (basic crypto_empty) ∅ [] true) (wallet_empty true (mkWalletDB true ∅ ∅ ∅ ∅ ∅ ∅ None))) toy_funds.
Definition locked_node : Node := mkNodeState mine_state (mkBlockOrphans ∅ ∅ ∅) locked_funds mine_idle (mkDownload 0 None).

Definition seen (nd : Node) : Node := with_download (mkDownload 1590000100 (Some (toy_hash_of 1))) nd.

Lemma work_open w : work_gate work_call (mkNodeState mine_state (mkBlockOrphans ∅ ∅ ∅) w mine_idle (mkDownload 0 None)) =
  Some (None, seen (mkNodeState mine_state (mkBlockOrphans ∅ ∅ ∅) w mine_idle (mkDownload 0 None))).
Proof. reflexivity. Qed.

Lemma ask_new : exists mid data hash1 target nd wk, ask work_call NewWork work_node work_init = Returns (WorkData mid data hash1 target) nd wk /\
  heap_blocks wk !! 0%nat <> None /\ vNewBlock wk = [0%nat].
Proof.
  assert (Hr : match ask work_call NewWork work_node work_init with
    | Returns (WorkData _ _ _ _) _ wk => bool_decide (is_Some (heap_blocks wk !! 0%nat)) && bool_decide (vNewBlock wk = [0%nat])
    | _ => false end = true) by (vm_compute; reflexivity).
  destruct (ask work_call NewWork work_node work_init) as [[mid data hash1 target| |] nd wk| |]; [|discriminate Hr..].
  apply andb_true_iff in Hr as [Hh%bool_decide_eq_true Hv%bool_decide_eq_true]. exists mid, data, hash1, target, nd, wk. split; [done|]. split; [|done].
  destruct Hh as [b ->]. done.
Qed.

Lemma getwork_submission_witness :
  exists data wk b id nd1, header_bytes b = take 80 (swap_words (solved data 1600000001 7)) /\ nNonce b = 7 /\
    ask work_call (Solution (solved data 1600000001 7) []) work_node wk = judge work_call id b nd1 wk.
Proof.
  destruct ask_new as (mid & data & hash1 & target & nd & wk & Hr & _). pose proof (work_open toy_funds : work_gate work_call work_node = Some (None, seen work_node)) as Hg.
  destruct (getwork_submission (B := ZBN) (E := toy_ec) (SO := toy_secrets) (P := no_secp) (C := toy_cipher) toy_sha toy_gen toy_der mine_options work_call
    work_node work_init mid data hash1 target nd wk) as (id & Hs).
  - intros id b Hb. cbn in Hb. by rewrite lookup_empty in Hb.
  - change (best_chain (nd_chain work_node)) with [genesis_index]. constructor; [|constructor]. apply uint_ok_assign64. lia.
  - exact Hr.
  - destruct (Hs work_call work_node (seen work_node) 1600000001 7 [] Hg) as (b & Hb & _ & Hn & _ & _ & Hj & _); [lia..|].
    exists data, wk, b, id, (seen work_node). split_and!; done.
Defined.

Lemma failed_work_witness :
  exists wk, getworkex (B := ZBN) (E := toy_ec) (SO := toy_secrets) (P := no_secp) (C := toy_cipher) toy_sha toy_gen toy_der mine_options (fun cb => cb)
    work_call NewWork work_node wk = Breaks.
Proof.
  assert (Hc : match create (B := ZBN) (E := toy_ec) (SO := toy_secrets) (P := no_secp) (C := toy_cipher) toy_gen toy_der mine_options work_call (seen locked_node)
    with Mined (None, _, _, _) => true | _ => false end = true) by (vm_compute; reflexivity).
  destruct (create _ _ _ work_call (seen locked_node)) as [[[[[b|] w] ms] sc]| |] eqn:Ec; [discriminate Hc| |discriminate Hc..].
  destruct (failed_work (B := ZBN) (E := toy_ec) (SO := toy_secrets) (P := no_secp) (C := toy_cipher) toy_sha toy_gen toy_der mine_options (fun cb => cb)
    work_call locked_node (seen locked_node) work_init w ms sc) as (_ & wk & _ & Hw).
  - apply work_open.
  - reflexivity.
  - exact Ec.
  - exists wk. apply (Hw work_call work_node (seen work_node)); [apply work_open|reflexivity|by left].
Defined.

Lemma work_pointers_witness : exists nd wk, vNewBlock wk = [0%nat] /\
  work_run (B := ZBN) (E := toy_ec) (SO := toy_secrets) (P := no_secp) (C := toy_cipher) toy_sha toy_gen toy_der mine_options nd wk /\
  is_Some (heap_blocks wk !! 0%nat).
Proof.
  destruct ask_new as (mid & data & hash1 & target & nd & wk & Hr & _ & Hv). exists nd, wk. split; [exact Hv|].
  assert (Hrun : work_run (B := ZBN) (E := toy_ec) (SO := toy_secrets) (P := no_secp) (C := toy_cipher) toy_sha toy_gen toy_der mine_options nd wk).
  { eapply run_returns; [apply (run_init _ _ _ _ work_node)|exact Hr]. }
  split; [exact Hrun|]. apply (work_pointers (B := ZBN) (E := toy_ec) (SO := toy_secrets) (P := no_secp) (C := toy_cipher) _ _ _ _ _ _ Hrun).
  rewrite Hv. by left.
Defined.

Definition ask_template :=
  getblocktemplate (B := ZBN) (E := toy_ec) (SO := toy_secrets) (P := no_secp) (C := toy_cipher) toy_gen toy_der mine_options work_call true work_node
    (mkTemplate 0 None 0 None).

Lemma template_depends_witness : exists r nd gt, ask_template = Returns r nd gt /\ length (transactions r) = 2%nat.
Proof.
  assert (Hr : match ask_template with
    | Returns r nd gt =>
        match gt_pblock gt with
        | Some b =>
            match vtx b with
            | cb :: txs => IsCoinBase cb && forallb (fun tx => negb (IsCoinBase tx) && negb (IsCoinStake tx)) txs &&
                bool_decide (NoDup (CTransaction_GetHash <$> vtx b)) && (length txs =? 2)%nat
            | [] => false
            end
        | None => false
        end
    | _ => false end = true) by (vm_compute; reflexivity).
  destruct ask_template as [r nd gt| |] eqn:Ea; [|discriminate Hr..]. destruct (gt_pblock gt) as [b|] eqn:Eb; [|discriminate Hr].
  destruct (vtx b) as [|cb txs] eqn:Ev; [discriminate Hr|]. repeat (apply andb_true_iff in Hr as [Hr ?]).
  destruct (template_depends (B := ZBN) (E := toy_ec) (SO := toy_secrets) (P := no_secp) (C := toy_cipher) toy_gen toy_der mine_options work_call true work_node
    (mkTemplate 0 None 0 None) r nd gt b cb txs) as (_ & _ & _ & Hl & _).
  - exact Ea.
  - exact Eb.
  - exact Ev.
  - exact Hr.
  - apply Forall_forall. intros tx Htx. match goal with Hf : forallb _ txs = true |- _ => rewrite forallb_forall in Hf; specialize (Hf tx) end.
    rewrite <- list_elem_of_In, andb_true_iff, !negb_true_iff in *. auto.
  - rewrite Ev. by eapply bool_decide_eq_true.
  - exists r, nd, gt. split; [done|]. rewrite Hl. by apply Nat.eqb_eq.
Defined.
End work_witness.
